(* ===== verification/_CoqProject ===== *)
-Q . S2P
Prelude.v
GoBase.v
CapacityLedger.v
CapacityResolve.v
CapacityPlace.v
CapacityPass.v
CapacityOps.v
CapacityView.v
CapacityInvariant.v
CapacityFair.v
CapacityRates.v
CapacityTheorems.v
Pipeline.v
Graph.v
PipelineGraph.v
QualityGate.v
PipelineExec.v
PipelineTheorems.v
TopoSort.v
Orchestrator.v
OrchestratorTheorems.v
RecordStore.v
TokenBroker.v
WorkQueue.v
OfflineQueue.v
TreeLock.v
GoCrypto.v
DnsChannel.v
DnsTheorems.v
GoText.v
MergeProof.v
GoRegexp.v
GoFmt.v
ConflictHunks.v
ConflictHunksLemmas.v
MergeDefinition.v
MergeResolve.v
Effects.v
MergeConflict.v
MergeBranch.v
MergeBranchLemmas.v
MergeRun.v
MergeRunAll.v
MergeRunLemmas.v
MergePipelineTheorems.v
AutomationSettings.v
Automation.v
AutomationGraph.v
AutomationValidate.v
AutomationWf.v
AutomationAccept.v
AutomationStep.v
AutomationFrame.v
AutomationEnds.v
AutomationFrontier.v
AutomationMoves.v
AutomationRun.v
AutomationStore.v
AutomationStoreInvariant.v
AutomationStoreTheorems.v
AutomationControl.v
AutomationManager.v
AutomationCoordinator.v
AutomationReconcile.v
AutomationLife.v
AutomationLifeTheorems.v
AutomationCalls.v
AutomationDrive.v
AutomationDriveTheorems.v
SessionEngine.v
SessionTheorems.v
BurnLadder.v
Executor.v
ExecutorWalk.v
ExecutorRun.v
ExecutorLemmas.v
ExecutorTheorems.v
Federation.v
HopChain.v
Access.v
