(* ===== verification/Prelude.v ===== *)
(** * datawatch: a verification library

    datawatch (Go, src/internal/) runs AI coding sessions on behalf of a user:
    a daemon starts sessions, decides when there is room for one, breaks plans
    up into graphs of tasks and guardrails, hands work to other processes and
    hosts, and talks to its user over chat, HTTP and DNS. This library models
    the engines that make those decisions and proves what each promises.

    ** How the parts interact

    - Every session, verifier and helper asks the capacity ledger before it
      starts and gives its lease back when it ends.
    - A pipeline starts one session per task of its graph, in dependency order,
      with the regression gate around a test command.
    - The orchestrator walks a graph whose nodes run PRDs and guardrails.
    - Tasks of one working tree exclude each other by an advisory lock file.
    - Agents take work items off the session queue under a lease.
    - Workers get short-lived git tokens from the token broker.
    - Commands for an unreachable server wait in the offline queue.
    - A user without another channel sends commands in DNS queries.
    - The state engine decides from events, panes and silence whether a session
      is running, waiting, stalled or complete; the others act on its notes.
    - The burn guard restricts what new sessions may start when usage runs ahead.
    - An Automation is a graph of runs, nested Automations, forks and joins. The
      store keeps the records, the engine steps one record, and the coordinator
      is told of ends, steps the record, starts what the step asks for and tells
      the next Automation up. A run's branch counts as merged by a proof of git.
    - The executor runs an Automaton: it starts its tasks in dependency order,
      one after the other or several at once, obeys what operators and judges say
      meanwhile, and commits the outcome after the completion checks.
    - Every request to the server shows a token: the admin's, a session's, a
      federated peer's, or one confined to a route. The gate finds its caller, and
      what the caller may do follows from capabilities and groups of them. A request
      forwarded to a peer carries a signed chain that names who began it.
    - The merge pipeline merges branches and releases: it finds the project's
      pipeline, merges each branch (settling conflicts mechanically, with a model
      or by asking the operator) and runs the steps and post-ship hooks.

    ** Files, and the code each models

    Foundations.
    - Prelude: tactics, 64-bit integers (wrap64), sorting as the code uses it,
      lemmas on lists and maps. GoBase: the functions of [strings], [fmt] and
      [time] that are called. GoText: trimming and searching text, float64,
      errors. GoFmt: the verbs of Sprintf that are used, and paths. GoRegexp:
      regular expressions, leftmost first with captures. Graph: topological
      orders and cycles. TopoSort: the sort the orchestrator and the executor
      share, and that it is exact. Effects: programs as trees of calls to the
      outside, their runs, and [wp], which follows a run call by call. GoCrypto: base64, hex, SHA-256, HMAC, Sscanf.
      RecordStore: the stores that rewrite one file after each change (the
      interface [Disk], its laws [DiskLaws], and [load_list]).

    capacity/ledger.go, rate_ceiling.go, verifier_pool.go, decision.go.
    - CapacityLedger: requests, leases, waiters, candidates; [Ledger] and the
      environment of one lock hold ([Options]); usage of pools, rate windows,
      reasons of a refusal.
    - CapacityResolve: [resolveLocked] with its node gates and ranking; grant
      order, promotion, granting, [dispatchLocked].
    - CapacityOps: the exported methods (Acquire and its wait loop, Release,
      Adopt, Rehome, Transfer, Reap, Retarget, WouldGrant and the settings).
    - CapacityView: Snapshot, Check and their texts.
    - CapacityPlace: usage, and the abstract placement, refined by
      [resolveLocked]. CapacityPass, CapacityFair, CapacityRates: how usage,
      windows and the queue move. CapacityInvariant: [op], [run], [reachable] and
      the invariant [wf]. CapacityTheorems: the guarantees.

    pipeline/pipeline.go, executor.go, quality.go.
    - Pipeline: tasks, [DetectCycles], state changes, ready tasks, the spec
      parser. QualityGate: outputs of test runs, comparison, the gate.
      PipelineExec: the executor's loop, one round per tick, against the
      interface [SessionStarter]. PipelineGraph: the cycle check is exact.
      PipelineTheorems: the guarantees.

    orchestrator/models.go, runner.go, store.go.
    - Orchestrator: Plan, topoSort and Run, against the interface [World] (the
      PRD run, the guardrail, cancellation, the file, the clock).
      OrchestratorTheorems.

    auth/token_broker.go: TokenBroker (store, mint, revoke, sweep, restart,
    against the git [Provider], and the guarantees).
    session/queue.go: WorkQueue.
    proxy/queue.go: OfflineQueue (enqueue, and a replay as a machine of steps,
    against the interface [Remote]).
    autonomous/tree_lock.go: TreeLock (a machine of file operations, each of which
    may fail, that any number of acquirers interleave).
    messaging/backends/dns: DnsChannel (protocol.go, nonce.go, and the query
    handler and rate limit of server.go) and DnsTheorems.

    session/state_engine.go, busy_probe.go, backend_liveness.go and
    config/backend_liveness.go: SessionEngine (the classifier, the settings, the
    reading of a pane, events, probes, the watcher, against the interface [Panes];
    each as a whole operation, and as calls that proceed a memory access at a time
    and interleave) and SessionTheorems.
    burnguard/ladder.go and its use in server/burn_guard.go: BurnLadder.

    autonomous/automation*.go: Automations.
    - AutomationSettings: budget policies, gates and their settings. Automation:
      the record, members, edges, [automationHasCycle] and reachability.
      AutomationValidate: [validateAutomation]. AutomationGraph, AutomationWf,
      AutomationAccept: the checks accept exactly [wf] records.
    - AutomationStep: one step of the engine (automation_advance.go: enter, fork,
      join, end, gates). AutomationFrame, AutomationEnds: a step ends and keeps
      the record valid. AutomationFrontier, AutomationMoves, AutomationRun: where the work stands and how
      a step moves it along, and the theorems on the checks and the step.
    - AutomationStore (the nesting check and automation_store.go: the records,
      the owner index, the file, updates by compare and change),
      AutomationStoreInvariant, AutomationStoreTheorems.
    - AutomationControl: what each control does to a record
      (automation_control.go, automation_draft_return.go, automation_insert.go,
      automation_merged_member_reopen.go). AutomationManager: the Manager's calls
      as a state-and-error monad over a world of [Daemon] and [Starter]
      interfaces. AutomationCoordinator, AutomationReconcile: what an end, a
      refused start, an event and a restart make the coordinator do.
    - AutomationLife: a record from its activation on, as a step relation of
      turns; AutomationLifeTheorems. AutomationCalls: the starts of
      a step, and a program logic for the calls ([returns] is total correctness).
      AutomationDrive: the coordinator's calls are turns of a life, with nobody else
      writing the record and in company. AutomationDriveTheorems: cancelling too.
    autonomous/merge_compare.go, automation_merged_member.go: MergeProof.

    autonomous/executor.go with infra_retry_dependents.go, decision_gate.go,
    decision_gate_hold.go, judge_hold.go, failure_escalation_hold.go,
    rules_review_outcome.go: the executor of Automata (there named PRDs).
    - Executor: an Automaton's record, its tasks and statuses, what a save does,
      sorting, holds, failures of the machinery and the recovery behind them.
    - ExecutorWalk: what a run asks of the outside ([Op]), the decision gate, and
      the two walks over the tasks, [seq_walk] and [conc_walk] (the closures of
      Manager.Run are functions of the coordinator's state [coord]).
    - ExecutorRun: Manager.Run: admission and set-up, the walk, the guardrails of
      stories, the roll-up, its checks and the commit, the run going round again.
    - ExecutorLemmas: which parts are silent, the observer of a walk, the tallies
      of both walks against it. ExecutorTheorems: the guarantees, and runs against
      a simulated daemon.

    federation, server/multiserver, auth/session_token.go and the gates of server.
    - Federation: capabilities, built-in groups, [Resolve], the tool table, the
      operator's groups (group_store.go) and the registry of peers
      (multiserver/store.go). HopChain: the chain of signed hops (hopchain.go) with
      its JSON and base64.
    - Access: session tokens, nonces, page and plugin tokens, the rotation of the
      admin token, the gate of every request (federation_cap.go), the checks behind
      it, the MCP bridge and listener, and the WebSocket's dispatch.

    mergepipeline and autonomous/merge_pipeline_run.go: merging.
    - MergeDefinition: steps and their checks (definition.go, default.go).
      MergeResolve: the file, the record store and the choice between them
      (file.go, record.go, resolver.go).
    - ConflictHunks: hunks and their mechanical settling (conflict_additive.go);
      ConflictHunksLemmas.
    - MergeConflict: what a merge asks of the outside, and the parts of conflict.go
      and conflict_propose.go;
      MergeBranch ([MergeBranch] and the model's proposal), MergeBranchLemmas.
    - MergeRun: the steps of a run (run.go); MergeRunAll: the post-ship hooks
      (posthook_builtins.go), [Run], the command ship runner and the history of
      runs; MergeRunLemmas. MergePipelineTheorems: the guarantees.

    ** What the theorems show

    Capacity. No operation takes a limited pool over its limit; every state the
    API reaches is well formed (of overflow leases less is kept once a Rehome has
    named a node); [resolveLocked] is the abstract placement; a
    dispatch pass grants in order, leaves nobody waiting who could run, and
    keeps within the rate ceilings; the reported reset time is exact; hand-off,
    adoption, retargeting and the queries change what they should and no more.

    Pipelines. The cycle check answers exactly the cyclic graphs; no task starts
    before its dependencies completed, nor more than MaxParallel at once; a
    pipeline whose names resolve always has something to do until it is done;
    the gate blocks on exactly the failures that are new and repeat.

    Orchestrator. The sort finds an order whenever there is one; Plan draws up
    sortable graphs; a run starts nothing below a failure and settles every node.

    Stores and queues. No minted token is forgotten before it is revoked, if the
    file is up to date at each restart; a
    sweep removes exactly what is dead or expired; a lease on a work item is
    exclusive, claims are oldest first, settled items stay; no offline command
    is lost or sent twice; what is in the file is what is in memory.

    Tree lock. At most one task holds a tree on every interleaving and whichever
    file operations fail, under three provisos (no record is found stale that could
    not be read; a task lives while it acquires and holds; none is brought back while
    another is about to remove its lock), each shown necessary by an interleaving
    that breaks exclusion.

    DNS. Queries and answers come back as sent, the answer in any order of its
    records; a nonce is not served twice; the rate limit holds up to a factor 2.

    Sessions. However the calls of the state engine interleave, what is told of a
    session is a walk along its life cycle, but for the late writes of the watcher
    and of output, made for a state the session has left; a call that nothing
    interrupts does what its operation does. Operations one after the other leave
    finished and rate-limited sessions as they are and deliver an end once; a tick
    of the watcher does exactly what the readings say where an idle timeout that is
    off is obeyed; a one-shot opencode session completes when it should.

    Burn guard. A tick moves one rung at most, the way the projection points, and
    turning the guard off restores every setting it changed.

    Automations. The checks accept exactly the well-formed records, the cycle and
    nesting checks answer exactly the cycles there are. Every step ends and keeps
    the record valid; the store keeps valid records, each member owned once, under
    every call, and a restart after a successful update reads them back if encoding/json
    gives back each; no update overwrites another. Over a whole life, of a draft that
    never ran and whose branches are reached only through their forks, no member is
    started twice, the work is never stranded while the record is active, and a
    paused record starts nothing. The coordinator refines those lives, alone and
    while others carry the same record on: told of an end it returns, starts only
    what the life asked for, and no session is started twice; cancelling returns and cancels what it should. A
    branch is called merged only when its patches are on the base.

    The executor. Whatever its workers, the operator and the store do while the
    tasks keep their ids and dependencies: a task starts only once what it depends
    on was last seen completed, if workers come back with their task completed,
    failed, held or blocked; the coordinator keeps to its limit, never runs a
    task twice at once, and waits for its workers before it returns; no walk goes
    round without an event. In any run an Automaton is completed only by a commit
    behind a scan and four checks of that pass, and the run's closing steps, its push
    among them, come behind that commit (a task's own push is inside executeOne). Five runs show where the code does
    not do what it means to.

    Access. A request may do what needs a capability exactly if its token is one of
    five kinds, each held to its list, grant or route; a resolved grant is what the
    groups reach; no session has two tokens, a revoked one is out at once; a nonce is
    good once and for a minute; a hop chain reads back and verifies at the next
    daemon, and no other chain has its signature. The bridge lists the tools it
    would call. Examples show where the WebSocket and the MCP listener do not ask
    what the gate asks.

    Merging. Whatever git, the shell, the files, the model and the question store
    answer: a merge that was begun is finished or its abort is run, and the project moves to
    a model's proposal only after its tests passed; a run follows its pipeline and
    its record says how it went; no command that would kill the operator's tmux
    server is run. A file settled mechanically keeps every line of both sides. The
    pipeline in effect is one the checks accept.

    ** Conventions

    - A method is a function from the receiver's state (and what it asks of the
      world) to the new state and the results. A method that holds its mutex
      throughout is one step; one that gives it up in between is several
      (Acquire, Reap, the offline replay, the tree lock), and other operations
      may come between them.
    - [int], [int64] and durations are integers in Z; arithmetic that can
      overflow goes through [wrap64], and [Sub] saturates as time.Sub does. An
      instant is a number of nanoseconds; the zero time is a value of its own.
      A method reads the clock once where the code does so under one lock.
    - The order of a range over a map is given by the environment ([Options],
      [Disk]) and is some permutation of the entries. [sort.SliceStable], and
      [sort.Slice] where ties do not matter or are unspecified, is the stable
      insertion sort.
    - Code outside the repository or behind an interface is a class or a
      function parameter; laws assumed of it are documented behaviour, and a
      concrete instance accompanies each theorem that uses one.
    - A program that calls the outside at many places (merging, the executor) is a tree of calls
      and what it does with each answer ([Prog]). A theorem about its runs ([runs])
      assumes nothing of the answers; [wp] follows a run with an observer, and
      [play] runs a program against a simulated outside.
    - Strings are byte strings. A float64 is a [spec_float], which the ladder
      compares and prints.

    ** Fuel

    [DetectCycles] runs with one more than the number of tasks, and no path of
    the search repeats a task ([detect_cycles_exact] states that it answers).
    [kahn] has one unit per node, and a node enters the output once
    ([topo_sort_exact]). [replay_turns] has one more than the number of queued
    commands ([replay_ends]). Loops over a string ([chunk_loop], [fields_loop],
    [splitOn_loop]) have its length and consume a byte a turn, and [sha_blocks]
    has the padded length and consumes a block. [trim_loop] has the length of the text
    and takes a byte a turn; [release_all] has the number of rungs in force.

    The search for a cycle of members has one more than their number, and so has
    [enter], since a join's next member lies further along the edges
    ([step_terminates]). The walks over nested Automations ([nested_walk],
    [cancelAutomation]) have one more than the number of Automations, and visit
    none twice ([nesting_check_exact], [cancel_returns]). [advance] follows one
    refused start with the next member, so has one more than the members
    ([advance_lives]). [new_id] draws from ids not in the store.

    [expand] has nine levels, as in the code, and [json_loop] the length of its text.

    [seq_walk] has one unit per time it starts over, [conc_loop] one per round;
    each takes an event from outside ([walk_never_spins]). [drain] has one per
    worker that runs. [Run] has one per time it goes round again, which takes
    corrective work a check asked for.

    In GoRegexp a star, the search for a match and the replacing and splitting
    loops are bounded by the bytes left, and each turn takes a byte.

    ** Not modelled

    Of Automations: the decision assistant that answers a gate, the tags on
    sessions, the triage, question and watch passes. The theorems on starts leave
    out the relaunches of the reconciler (retryBranchStart, reconcileNested), which
    start a member again, and failed starts reported once the record is no longer
    under way. While a call runs others either leave the record alone ([calm]) or
    carry it on as complete calls do ([accompanied]).

    Of the executor: running one task (executeOne, whose own push of what a task
    committed is part of the call), the judges, the test run of the
    quality gate, git and the memory are calls, answered by anything; the fields of
    the record that a run neither reads nor writes. Reads that follow each other
    with no call in between are taken at one instant, and the pointer the run holds
    is taken to be the one the store holds.

    Of access: what a passed request does, the reachability test of a peer, the
    forwarding itself; crypto/rand, bcrypt and the decoder of a chain's JSON are
    parameters, and a request's readings of the clock are given. The arguments of a
    tool call pass through.

    Processes, containers, HTTP, chat services, language models and the
    collectors of host statistics: their logic is in the services called. The
    encryption of the files, and their JSON but for the store of Automations: the
    content of the other files is the list of records written. encoding/json itself
    is a parameter there ([JSON]).
    The outputs of test runners beyond failing names, the key of a tree (git and
    paths), the DNS library and client, the ticker goroutines that call the
    modelled methods. Of a session's life, what tmux and the processes do:
    starting, killing, completion markers, rate-limit messages. The projection
    the burn guard reads. Of merging, the YAML and JSON decoders (parameters), the
    modes of files, the issue filing of the ship runner, and the settings texts of
    view.go.

    ** Plan

    Next: executeOne of the executor (prompts, sessions, verification and retries
    of one task), its API loop and merge passes; budgets and cost of Automations,
    the back-off registry; the cooldown and the rate-limit path of sessions; the
    alert rules and gate_scope.go. *)

From stdpp Require Export prelude gmap strings list fin_maps.
From Stdlib Require Export ZArith Lia Sorted.

#[global] Set Default Goal Selector "!".

(** ** Automation shared by every component *)

Create HintDb dw discriminated.

(** [bools] turns the boolean tests the code branches on into propositions. *)
Ltac bools :=
  repeat match goal with
  | H : bool_decide _ = true |- _ => apply bool_decide_eq_true_1 in H
  | H : bool_decide _ = false |- _ => apply bool_decide_eq_false_1 in H
  | H : _ && _ = true |- _ => apply andb_true_iff in H; destruct H
  | H : _ || _ = false |- _ => apply orb_false_iff in H; destruct H
  | H : negb _ = true |- _ => apply negb_true_iff in H
  | H : negb _ = false |- _ => apply negb_false_iff in H
  | H : Z.leb _ _ = true |- _ => apply Z.leb_le in H
  | H : Z.leb _ _ = false |- _ => apply Z.leb_gt in H
  | H : Z.ltb _ _ = true |- _ => apply Z.ltb_lt in H
  | H : Z.ltb _ _ = false |- _ => apply Z.ltb_ge in H
  | H : Z.eqb _ _ = true |- _ => apply Z.eqb_eq in H
  | H : Z.eqb _ _ = false |- _ => apply Z.eqb_neq in H
  | H : String.eqb _ _ = true |- _ => apply String.eqb_eq in H
  | H : String.eqb _ _ = false |- _ => apply String.eqb_neq in H
  end.

(** Case analysis on the first test or match the goal (or a hypothesis) is
    stuck on. *)
Ltac case_goal :=
  match goal with
  | |- context [ match ?x with _ => _ end ] => destruct x eqn:?
  end.

Ltac case_in H :=
  match type of H with
  | context [ match ?x with _ => _ end ] => destruct x eqn:?
  end.

Tactic Notation "crush" := repeat (case_goal; simplify_eq/=; try done); bools; try done; try lia.

(** ** Go integers

    [int], [int64] and [time.Duration] are 64-bit two's complement. *)
Definition int64_min : Z := - 2 ^ 63.
Definition int64_max : Z := 2 ^ 63 - 1.
Definition wrap64 (z : Z) : Z := (z + 2 ^ 63) `mod` 2 ^ 64 - 2 ^ 63.
Definition in_int64 (z : Z) : Prop := (int64_min ≤ z ≤ int64_max)%Z.

Lemma wrap64_range z : in_int64 (wrap64 z).
Proof. unfold in_int64, wrap64, int64_min, int64_max. pose proof (Z.mod_pos_bound (z + 2 ^ 63) (2 ^ 64)). lia. Qed.

Lemma wrap64_id z : in_int64 z → wrap64 z = z.
Proof. unfold in_int64, wrap64, int64_min, int64_max. intros. rewrite Z.mod_small; lia. Qed.

(** ** Stable sorting

    [sort.SliceStable] (and the order-insensitive uses of [sort.Slice] and
    [sort.Strings]) as stable insertion sort by the comparison the code passes. *)
Section sorting.
Context {A : Type} (less : A → A → bool).

Fixpoint insert_by (x : A) (l : list A) : list A :=
  match l with
  | [] => [x]
  | y :: l' => if less y x then y :: insert_by x l' else x :: y :: l'
  end.

Definition sort_by (l : list A) : list A := foldr insert_by [] l.

Lemma insert_by_perm x l : insert_by x l ≡ₚ x :: l.
Proof.
  induction l as [|y l IH]; [done|]. simpl. destruct (less y x); [|done].
  rewrite IH. by apply Permutation_swap.
Qed.

Lemma sort_by_perm l : sort_by l ≡ₚ l.
Proof. induction l as [|x l IH]; [done|]. simpl. by rewrite insert_by_perm, IH. Qed.

Lemma elem_of_sort_by x l : x ∈ sort_by l ↔ x ∈ l.
Proof. by rewrite sort_by_perm. Qed.

Lemma length_sort_by l : length (sort_by l) = length l.
Proof. by rewrite sort_by_perm. Qed.

(** [not_after a b]: the comparison does not put [b] before [a]. *)
Definition not_after (a b : A) : Prop := less b a = false.

(** Sorting what is in order changes nothing. *)
Lemma sort_by_id l : StronglySorted not_after l → sort_by l = l.
Proof.
  induction 1 as [|x l _ IH Hx]; [done|]. simpl. rewrite IH. destruct Hx as [|y l Hy _]; [done|].
  simpl. unfold not_after in Hy. by rewrite Hy.
Qed.

(** A strict weak order, what the Go documentation asks of a comparison. *)
Class StrictWeak : Prop := {
  sw_asym a b : less a b = true → less b a = false;
  sw_trans a b c : not_after a b → not_after b c → not_after a c
}.

Context `{!StrictWeak}.

Lemma insert_by_sorted x l :
  StronglySorted not_after l → StronglySorted not_after (insert_by x l).
Proof.
  induction 1 as [|y l Hl IH Hy]; simpl; [repeat constructor|].
  destruct (less y x) eqn:E.
  - constructor; [done|]. rewrite insert_by_perm. constructor; [|done].
    by apply sw_asym.
  - constructor; [by constructor|]. constructor; [done|].
    eapply Forall_impl; [done|]. intros z Hz. by eapply sw_trans.
Qed.

Lemma sort_by_sorted l : StronglySorted not_after (sort_by l).
Proof. induction l; simpl; [constructor|]. by apply insert_by_sorted. Qed.

(** Nothing that comes later in the sorted list is less than what comes
    earlier. *)
Lemma sort_by_before l i j a b :
  sort_by l !! i = Some a → sort_by l !! j = Some b → (i < j)%nat → less b a = false.
Proof.
  revert i j. generalize (sort_by_sorted l). generalize (sort_by l) as s.
  induction 1 as [|y s Hs IH Hy]; intros i j Hi Hj Hlt; [done|].
  destruct i as [|i], j as [|j]; simpl in *; try lia.
  - simplify_eq. rewrite Forall_forall in Hy. apply Hy.
    by eapply list_elem_of_lookup_2.
  - eapply IH; [done..|lia].
Qed.
End sorting.




Lemma insert_by_ext {A} (f g : A → A → bool) x l :
  (∀ a b, f a b = g a b) → insert_by f x l = insert_by g x l.
Proof. intros H. induction l as [|y l IH]; simpl; [done|]. by rewrite H, IH. Qed.

Lemma sort_by_ext {A} (f g : A → A → bool) l :
  (∀ a b, f a b = g a b) → sort_by f l = sort_by g l.
Proof.
  intros H. induction l as [|x l IH]; simpl; [done|]. by rewrite IH, (insert_by_ext f g).
Qed.

(** Searching with tests that agree. *)
Lemma find_ext {A} (f g : A → bool) l :
  (∀ x, f x = g x) → List.find f l = List.find g l.
Proof. intros H. induction l as [|x l IH]; simpl; [done|]. by rewrite H, IH. Qed.

(** Comparing by an integer key is a strict weak order. *)
#[export] Instance StrictWeak_key {A} (key : A → Z) :
  StrictWeak (λ a b, key a <? key b)%Z.
Proof. split; unfold not_after; intros; bools; lia. Qed.

(** [sort.Strings]: byte-wise lexicographic order. *)
Definition sort_strings : list string → list string := sort_by String.ltb.

(** ** Range loops that count *)
Section counting.
Context {V : Type}.
Implicit Types (P : string → V → bool) (m : gmap string V).

(** [n := 0; for k, v := range m { if P(k, v) { n++ } }] *)
Definition count P m : Z := map_fold (λ k v n, if P k v then (n + 1)%Z else n) 0%Z m.

Lemma count_empty P : count P ∅ = 0%Z.
Proof. apply map_fold_empty. Qed.

Lemma count_insert P m k v :
  m !! k = None → count P (<[k:=v]> m) = ((if P k v then 1 else 0) + count P m)%Z.
Proof.
  intros Hk. unfold count. rewrite map_fold_insert_L; [destruct (P k v); lia| |done].
  intros. repeat case_match; lia.
Qed.

Lemma count_delete P m k v :
  m !! k = Some v → count P m = ((if P k v then 1 else 0) + count P (delete k m))%Z.
Proof.
  intros Hk. rewrite <- (insert_id m k v) at 1 by done.
  rewrite <- insert_delete_eq. apply count_insert, lookup_delete_eq.
Qed.

Lemma count_nonneg P m : (0 ≤ count P m)%Z.
Proof.
  induction m as [|k v m Hk IH] using map_ind; [by rewrite count_empty|].
  rewrite count_insert by done. case_match; lia.
Qed.

Lemma count_delete_le P m k : (count P (delete k m) ≤ count P m)%Z.
Proof.
  destruct (m !! k) as [v|] eqn:E.
  - rewrite (count_delete P m k v E). case_match; lia.
  - by rewrite delete_id.
Qed.

(** Storing under a key replaces at most one counted entry by at most one. *)
Lemma count_insert_le P m k v :
  (count P (<[k:=v]> m) ≤ (if P k v then 1 else 0) + count P m)%Z.
Proof.
  rewrite <- insert_delete_eq, count_insert by apply lookup_delete_eq.
  pose proof (count_delete_le P m k). destruct (P k v); lia.
Qed.

Lemma count_ext P Q m :
  (∀ k v, m !! k = Some v → P k v = Q k v) → count P m = count Q m.
Proof.
  induction m as [|k v m Hk IH] using map_ind; intros H; [by rewrite !count_empty|].
  rewrite !count_insert by done. rewrite (H k v) by apply lookup_insert_eq.
  rewrite IH; [done|]. intros k' v' Hk'. apply H. rewrite lookup_insert_ne; [done|congruence].
Qed.

Lemma count_pos P m k v : m !! k = Some v → P k v = true → (1 ≤ count P m)%Z.
Proof.
  intros Hk HP. rewrite (count_delete P m k v Hk), HP.
  pose proof (count_nonneg P (delete k m)). lia.
Qed.
End counting.

(** The keys a range loop collects, in key order ([sort.Strings] afterwards). *)
Definition keys_where {V} (P : string → V → bool) (m : gmap string V) : list string :=
  sort_strings ((filter (λ kv, P kv.1 kv.2 = true) (map_to_list m)).*1).

Lemma elem_of_keys_where {V} (P : string → V → bool) (m : gmap string V) k :
  k ∈ keys_where P m ↔ ∃ v, m !! k = Some v ∧ P k v = true.
Proof.
  unfold keys_where, sort_strings. rewrite elem_of_sort_by, list_elem_of_fmap. split.
  - intros ([k' v] & -> & [HP Hkv]%list_elem_of_filter). apply elem_of_map_to_list in Hkv. eauto.
  - intros (v & Hk & HP). exists (k, v). split; [done|].
    apply list_elem_of_filter. by rewrite elem_of_map_to_list.
Qed.

(** The number of keys collected is what the counting loop counts. *)
Lemma length_keys_where {V} (P : string → V → bool) (m : gmap string V) :
  Z.of_nat (length (keys_where P m)) = count P m.
Proof.
  unfold keys_where, sort_strings. rewrite length_sort_by, length_fmap.
  induction m as [|k v m Hk IH] using map_ind;
    [by rewrite map_to_list_empty, count_empty|].
  rewrite count_insert by done. rewrite <- IH. clear IH.
  rewrite (map_to_list_insert m k v Hk), filter_cons. simpl.
  case_decide as HP; [rewrite HP|rewrite (not_true_is_false _ HP)]; cbn [length]; lia.
Qed.

(** ** State-threading loops *)

(** [for x in l { s = f(s, x) }] keeps whatever each iteration keeps. *)
Lemma foldl_invariant {S A} (I : S → Prop) (f : S → A → S) l s :
  (∀ s x, x ∈ l → I s → I (f s x)) → I s → I (foldl f s l).
Proof.
  revert s. induction l as [|x l IH]; intros s Hstep HI; [done|]. simpl.
  apply IH; [|apply Hstep; [left|done]]. intros s' y Hy. apply Hstep. by right.
Qed.

Lemma filter_none {A} (P : A → bool) (l : list A) :
  (∀ x, x ∈ l → P x = false) → filter (λ x, P x = true) l = [].
Proof.
  induction l as [|x l IH]; intros H; [done|].
  rewrite filter_cons_False; [apply IH; intros y Hy; apply H; by right|].
  rewrite (H x); [done|left].
Qed.

Lemma filter_all {A} (P : A → bool) (l : list A) :
  (∀ x, x ∈ l → P x = true) → filter (λ x, P x = true) l = l.
Proof.
  induction l as [|y l IH]; intros H; [done|].
  rewrite filter_cons_True by (apply H; left). f_equal. apply IH. intros x Hx. apply H. by right.
Qed.

(** Two elements with the same key are one, when no key is repeated. *)
Lemma NoDup_fmap_eq {A B} (f : A → B) xs x y : NoDup (f <$> xs) → x ∈ xs → y ∈ xs → f x = f y → x = y.
Proof.
  intros Hnd Hx Hy Hf. apply list_elem_of_lookup in Hx as [i Hi], Hy as [j Hj].
  assert (i = j) as ->; [|congruence]. eapply (NoDup_lookup (f <$> xs) i j (f x)); [done|..];
    rewrite list_lookup_fmap, ?Hi, ?Hj; simpl; congruence.
Qed.
