(* ===== verification/GoBase.v ===== *)
(** * The part of the Go standard library the modelled code uses

    [strings] (prefixes, cutting, joining, splitting), the integer verbs of
    [fmt], and [time]: instants as nanoseconds since the Unix epoch, durations
    as 64-bit nanoseconds, [Duration.String] and the RFC 3339 layout. *)

From S2P Require Import Prelude.
From stdpp Require Import pretty.

#[local] Open Scope Z_scope.

(** ** Strings *)

(** [fmt.Sprintf("%d", n)] *)
Definition fmt_d (n : Z) : string := pretty n.

(** [strings.CutPrefix(s, p)]: the rest of [s] after [p], if [p] is a prefix. *)
Fixpoint CutPrefix (s p : string) {struct p} : option string :=
  match p, s with
  | EmptyString, _ => Some s
  | String a p', String b s' => if Ascii.eqb a b then CutPrefix s' p' else None
  | String _ _, EmptyString => None
  end.

Definition HasPrefix (s p : string) : bool :=
  match CutPrefix s p with Some _ => true | None => false end.

Definition TrimPrefix (s p : string) : string :=
  match CutPrefix s p with Some r => r | None => s end.

(** [strings.Join] *)
Fixpoint Join (l : list string) (sep : string) : string :=
  match l with
  | [] => ""
  | [x] => x
  | x :: l' => x +:+ sep +:+ Join l' sep
  end.

(** [strings.Cut(s, sep)]: the text before and after the first [sep]. *)
Fixpoint Cut (s sep : string) : option (string * string) :=
  match CutPrefix s sep with
  | Some r => Some ("", r)
  | None =>
      match s with
      | EmptyString => None
      | String a s' => match Cut s' sep with
                       | Some (b, r) => Some (String a b, r)
                       | None => None
                       end
      end
  end.

(** [strings.Split(s, sep)] for a one-byte separator. *)
Fixpoint split_byte (c : Ascii.ascii) (s : string) : list string :=
  match s with
  | EmptyString => [""]
  | String a s' =>
      if Ascii.eqb a c then "" :: split_byte c s'
      else match split_byte c s' with
           | x :: xs => String a x :: xs
           | [] => [String a ""]
           end
  end.

(** [strings.CutSuffix], [TrimSuffix], [HasSuffix] *)
Fixpoint CutSuffix (s suffix : string) : option string :=
  if String.eqb s suffix then Some ""
  else match s with
       | EmptyString => None
       | String a r => String a <$> CutSuffix r suffix
       end.
Definition TrimSuffix (s suffix : string) : string := default s (CutSuffix s suffix).
Definition HasSuffix (s suffix : string) : bool := match CutSuffix s suffix with Some _ => true | None => false end.

(** [len(s)] *)
Definition len_s (s : string) : Z := Z.of_nat (String.length s).

Definition nonempty (s : string) : bool := negb (String.eqb s "").

Lemma nonempty_true s : nonempty s = true ↔ s ≠ "".
Proof. unfold nonempty. rewrite negb_true_iff. apply String.eqb_neq. Qed.
Lemma nonempty_false s : nonempty s = false ↔ s = "".
Proof. unfold nonempty. rewrite negb_false_iff. apply String.eqb_eq. Qed.

Lemma CutPrefix_Some s p r : CutPrefix s p = Some r ↔ s = p +:+ r.
Proof.
  revert s. induction p as [|a p IH]; intros s; simpl.
  - split; [by intros [= ->]|by intros ->].
  - destruct s as [|b s]; [done|]. destruct (Ascii.eqb_spec a b) as [->|Hne].
    + rewrite IH. simpl. split; [by intros ->|]. by intros [= ->].
    + split; [done|]. by intros [= -> _].
Qed.

Lemma CutPrefix_app p r : CutPrefix (p +:+ r) p = Some r.
Proof. by apply CutPrefix_Some. Qed.

Lemma CutPrefix_None s p r : CutPrefix s p = None → s ≠ p +:+ r.
Proof. intros H ->. by rewrite CutPrefix_app in H. Qed.

Lemma TrimPrefix_app p r : TrimPrefix (p +:+ r) p = r.
Proof. unfold TrimPrefix. by rewrite CutPrefix_app. Qed.

Lemma HasPrefix_app p r : HasPrefix (p +:+ r) p = true.
Proof. unfold HasPrefix. by rewrite CutPrefix_app. Qed.

Lemma HasPrefix_true s p : HasPrefix s p = true ↔ ∃ r, s = p +:+ r.
Proof.
  unfold HasPrefix. destruct (CutPrefix s p) eqn:E.
  - apply CutPrefix_Some in E. naive_solver.
  - split; [done|]. intros [r ->]. by rewrite CutPrefix_app in E.
Qed.

Lemma length_app_s (a b : string) : String.length (a +:+ b) = (String.length a + String.length b)%nat.
Proof. induction a as [|x a IH]; simpl; [done|]. by rewrite IH. Qed.

Lemma app_assoc_s (a b c : string) : (a +:+ b) +:+ c = a +:+ b +:+ c.
Proof. induction a as [|x a IH]; [done|]. change (String x ((a +:+ b) +:+ c) = String x (a +:+ b +:+ c)). by f_equal. Qed.

Lemma app_nil_s (a : string) : a +:+ "" = a.
Proof. induction a as [|x a IH]; [done|]. change (String x (a +:+ "") = String x a). by f_equal. Qed.

Lemma CutSuffix_app p suffix : CutSuffix (p +:+ suffix) suffix = Some p.
Proof.
  induction p as [|a p IH].
  - change ("" +:+ suffix) with suffix. destruct suffix; cbn [CutSuffix]; by rewrite String.eqb_refl.
  - change (String a p +:+ suffix) with (String a (p +:+ suffix)). cbn [CutSuffix]. destruct (String.eqb_spec (String a (p +:+ suffix)) suffix) as [E|_].
    + apply (f_equal String.length) in E. simpl in E. rewrite length_app_s in E. lia.
    + by rewrite IH.
Qed.

Lemma CutSuffix_Some s suffix r : CutSuffix s suffix = Some r → s = r +:+ suffix.
Proof.
  revert r. induction s as [|a s IH]; intros r; cbn [CutSuffix].
  - destruct (String.eqb_spec "" suffix) as [<-|]; [by intros [= <-]|done].
  - destruct (String.eqb_spec (String a s) suffix) as [<-|]; [by intros [= <-]|].
    destruct (CutSuffix s suffix) as [r'|] eqn:E; [|done]. intros [= <-]. by rewrite (IH r' eq_refl).
Qed.

Lemma app_ne_empty (a b : string) : a ≠ "" → a +:+ b ≠ "".
Proof. by destruct a. Qed.

#[global] Instance string_app_inj_l (p : string) : Inj (=) (=) (String.app p).
Proof. induction p as [|a p IH]; intros x y H; [done|]. injection H. apply IH. Qed.

(** ** Time *)

(** [time.Time] as nanoseconds since the Unix epoch; [time.Time{}] is the
    first instant of year 1. *)
Abbreviation Time := Z (only parsing).
Abbreviation Duration := Z (only parsing).

Definition Nanosecond : Duration := 1.
Definition Microsecond : Duration := 1000.
Definition Millisecond : Duration := 1000000.
Definition Second : Duration := 1000000000.
Definition Minute : Duration := 60 * Second.
Definition Hour : Duration := 60 * Minute.

Definition zero_time : Time := -62135596800 * Second.
Definition IsZero (t : Time) : bool := t =? zero_time.
Definition Before (t u : Time) : bool := t <? u.
Definition After (t u : Time) : bool := u <? t.
(** [t.Add(d)] *)
Definition Add (t : Time) (d : Duration) : Time := t + d.
(** [t.Sub(u)] saturates at the largest and smallest duration. *)
Definition Sub (t u : Time) : Duration := Z.max int64_min (Z.min int64_max (t - u)).

Lemma Sub_exact t u : in_int64 (t - u) → Sub t u = t - u.
Proof. unfold Sub, in_int64. lia. Qed.

(** A duration bound is reached exactly when that much time has passed: the
    saturation of [Sub] never hides it. *)
Lemma Sub_ge t u d : in_int64 d → int64_min < d → (Sub t u >=? d) = (t - u >=? d).
Proof.
  unfold Sub, in_int64. intros. rewrite !Z.geb_leb.
  destruct (d <=? t - u) eqn:E; [apply Z.leb_le in E; apply Z.leb_le|
    apply Z.leb_gt in E; apply Z.leb_gt]; lia.
Qed.

(** Decimal digits of a non-negative [n], padded with zeros to width [w]. *)
Fixpoint zeros (w : nat) : string := match w with O => "" | S w => "0" +:+ zeros w end.
Definition pad (w : nat) (n : Z) : string :=
  let s := fmt_d n in zeros (w - String.length s) +:+ s.

(** Proleptic Gregorian date of a day number counted from 1970-01-01. *)
Definition civil_from_days (d : Z) : Z * Z * Z :=
  let z := d + 719468 in
  let era := z `div` 146097 in
  let doe := z - era * 146097 in
  let yoe := (doe - doe `div` 1460 + doe `div` 36524 - doe `div` 146096) `div` 365 in
  let doy := doe - (365 * yoe + yoe `div` 4 - yoe `div` 100) in
  let mp := (5 * doy + 2) `div` 153 in
  let day := doy - (153 * mp + 2) `div` 5 + 1 in
  let month := if mp <? 10 then mp + 3 else mp - 9 in
  let year := yoe + era * 400 + (if month <=? 2 then 1 else 0) in
  (year, month, day).

(** [t.UTC().Format(time.RFC3339)] *)
Definition FormatRFC3339 (t : Time) : string :=
  let secs := t `div` Second in
  let days := secs `div` 86400 in
  let sod := secs - days * 86400 in
  let '(y, m, d) := civil_from_days days in
  pad 4 y +:+ "-" +:+ pad 2 m +:+ "-" +:+ pad 2 d +:+ "T" +:+
  pad 2 (sod `div` 3600) +:+ ":" +:+ pad 2 ((sod `div` 60) `mod` 60) +:+ ":" +:+
  pad 2 (sod `mod` 60) +:+ "Z".

(** The fraction [.ddd] of [v / 10^prec], trailing zeros dropped, empty when
    it is zero ([fmtFrac]). *)
Fixpoint strip_zeros (prec : nat) (v : Z) : nat * Z :=
  match prec with
  | O => (O, v)
  | S p => if v `mod` 10 =? 0 then strip_zeros p (v `div` 10) else (prec, v)
  end.
Definition fmt_frac (prec : nat) (v : Z) : string :=
  let '(w, u) := strip_zeros prec (v `mod` 10 ^ Z.of_nat prec) in
  match w with O => "" | _ => "." +:+ pad w u end.

(** [Duration.String] *)
Definition Duration_String (d : Duration) : string :=
  let u := Z.abs d in
  let body :=
    if u =? 0 then "0s"
    else if u <? Microsecond then fmt_d u +:+ "ns"
    else if u <? Millisecond then fmt_d (u `div` Microsecond) +:+ fmt_frac 3 u +:+ "µs"
    else if u <? Second then fmt_d (u `div` Millisecond) +:+ fmt_frac 6 u +:+ "ms"
    else
      let secs := u `div` Second in
      let s := fmt_d (secs `mod` 60) +:+ fmt_frac 9 u +:+ "s" in
      let m := secs `div` 60 in
      if m =? 0 then s
      else if m `div` 60 =? 0 then fmt_d m +:+ "m" +:+ s
      else fmt_d (m `div` 60) +:+ "h" +:+ fmt_d (m `mod` 60) +:+ "m" +:+ s
  in if d <? 0 then "-" +:+ body else body.

Example duration_string_hour : Duration_String Hour = "1h0m0s".
Proof. vm_compute. reflexivity. Qed.
Example duration_string_frac : Duration_String (1500 * Millisecond) = "1.5s".
Proof. vm_compute. reflexivity. Qed.
Example format_epoch : FormatRFC3339 (1786000000 * Second) = "2026-08-06T07:06:40Z".
Proof. vm_compute. reflexivity. Qed.
Example format_zero : FormatRFC3339 zero_time = "0001-01-01T00:00:00Z".
Proof. vm_compute. reflexivity. Qed.
