(* ===== verification/CapacityLedger.v ===== *)
(** * Capacity: admission requests, leases and waiters

    The data of internal/capacity/ledger.go and the pure operations on a
    request: the candidate nodes it may be placed on, binding it to one chosen
    node, and dropping a node that is no longer a candidate.

    Also: capacity: the ledger's state and its admission checks. *)

From S2P Require Import Prelude GoBase.

#[local] Open Scope Z_scope.

(** ** Roles *)

Definition Role := string.
Definition RoleVerifier : Role := "verifier".
Definition RoleWorker : Role := "worker".
Definition RolePlanner : Role := "planner".

(** Lower is granted first; the zero value and unknown roles rank as workers. *)
Definition rank (r : Role) : Z :=
  if String.eqb r RoleVerifier then 0
  else if String.eqb r RolePlanner then 2
  else 1.

(** ** Requests *)

Record NodeChoice := mkNodeChoice { nc_Name : string; nc_Priority : Z }.

(** [Refresh] is a closure over state outside the ledger. The request carries
    its identity; what it returns at a given moment is part of the [Options]
    the operation runs with. *)
Record Request := mkRequest {
  rq_Holder : string;
  rq_PRDID : string;
  rq_Priority : Z;
  rq_Pools : list string;
  rq_Node : string;
  rq_Consumer : string;
  rq_NodeChoices : list NodeChoice;
  rq_ExcludeNodes : list string;
  rq_PreferNode : string;
  rq_Model : string;
  rq_Role : Role;
  rq_NodeUnknown : bool;
  rq_Interactive : bool;
  rq_Refresh : option nat
}.

(** The fields of a request that place it: what [Refresh] supplies. *)
Record Placement := mkPlacement {
  pl_Pools : list string;
  pl_Node : string;
  pl_NodeChoices : list NodeChoice;
  pl_ExcludeNodes : list string
}.

Definition with_placement (r : Request) (p : Placement) : Request :=
  mkRequest (rq_Holder r) (rq_PRDID r) (rq_Priority r) (pl_Pools p) (pl_Node p)
    (rq_Consumer r) (pl_NodeChoices p) (pl_ExcludeNodes p) (rq_PreferNode r)
    (rq_Model r) (rq_Role r) (rq_NodeUnknown r) (rq_Interactive r) (rq_Refresh r).

Definition placement (r : Request) : Placement :=
  mkPlacement (rq_Pools r) (rq_Node r) (rq_NodeChoices r) (rq_ExcludeNodes r).

(** [Request{Pools: pools, Interactive: inter}]: the zero request otherwise. *)
Definition pools_request (pools : list string) (inter : bool) : Request :=
  mkRequest "" "" 0 pools "" "" [] [] "" "" "" false inter None.

Definition node_pool (node : string) : string := "node:" +:+ node.
Definition VerifierPool (node : string) : string := "node-verify:" +:+ node.

Definition sharesPool (a b : list string) : bool :=
  existsb (λ x, existsb (String.eqb x) b) a.

Definition multiNode (r : Request) : bool := 2 <=? Z.of_nat (length (rq_NodeChoices r)).

Fixpoint candidates_loop (skip : gset string) (l : list NodeChoice) : list NodeChoice :=
  match l with
  | [] => []
  | c :: l' =>
      if String.eqb (nc_Name c) "" || bool_decide (nc_Name c ∈ skip)
      then candidates_loop skip l'
      else c :: candidates_loop ({[nc_Name c]} ∪ skip) l'
  end.

Definition candidates (r : Request) : list NodeChoice :=
  sort_by (λ a b, nc_Priority b <? nc_Priority a)
    (candidates_loop (list_to_set (rq_ExcludeNodes r)) (rq_NodeChoices r)).

Definition withNodePool (r : Request) (name pool : string) : Request :=
  let pools :=
    if negb (String.eqb pool (node_pool name))
    then filter (λ p, p ≠ node_pool name) (rq_Pools r)
    else rq_Pools r in
  let pools := if sharesPool pools [pool] then pools else pools ++ [pool] in
  with_placement r (mkPlacement pools name [] []).

Definition withoutStaleNode (r : Request) : Request :=
  if negb (multiNode r) then r
  else if nonempty (rq_Node r) then
    if existsb (λ c, String.eqb (nc_Name c) (rq_Node r)) (rq_NodeChoices r) then r
    else with_placement r
           (mkPlacement (filter (λ p, p ≠ node_pool (rq_Node r)) (rq_Pools r)) ""
              (rq_NodeChoices r) (rq_ExcludeNodes r))
  else r.

Definition candidateNames (r : Request) : list string := nc_Name <$> candidates r.

Definition allPools (r : Request) : list string :=
  if negb (multiNode r) then rq_Pools r
  else rq_Pools r ++ ((λ c, node_pool (nc_Name c)) <$> candidates r).

(** ** Leases and waiters *)

Record Lease := mkLease {
  le_Holder : string;
  le_PRDID : string;
  le_Pools : list string;
  le_Node : string;
  le_Model : string;
  le_Acquired : Time;
  le_SessionID : string;
  le_NodeUnknown : bool;
  le_NodeOverflow : bool
}.

Definition ls_set_Holder (h : string) (ls : Lease) : Lease :=
  mkLease h (le_PRDID ls) (le_Pools ls) (le_Node ls) (le_Model ls) (le_Acquired ls)
    (le_SessionID ls) (le_NodeUnknown ls) (le_NodeOverflow ls).
Definition ls_set_Pools (ps : list string) (ls : Lease) : Lease :=
  mkLease (le_Holder ls) (le_PRDID ls) ps (le_Node ls) (le_Model ls) (le_Acquired ls)
    (le_SessionID ls) (le_NodeUnknown ls) (le_NodeOverflow ls).
Definition ls_set_Node (n : string) (ls : Lease) : Lease :=
  mkLease (le_Holder ls) (le_PRDID ls) (le_Pools ls) n (le_Model ls) (le_Acquired ls)
    (le_SessionID ls) (le_NodeUnknown ls) (le_NodeOverflow ls).
Definition ls_set_SessionID (s : string) (ls : Lease) : Lease :=
  mkLease (le_Holder ls) (le_PRDID ls) (le_Pools ls) (le_Node ls) (le_Model ls) (le_Acquired ls)
    s (le_NodeUnknown ls) (le_NodeOverflow ls).
Definition ls_set_NodeUnknown (b : bool) (ls : Lease) : Lease :=
  mkLease (le_Holder ls) (le_PRDID ls) (le_Pools ls) (le_Node ls) (le_Model ls) (le_Acquired ls)
    (le_SessionID ls) b (le_NodeOverflow ls).
Definition ls_set_NodeOverflow (b : bool) (ls : Lease) : Lease :=
  mkLease (le_Holder ls) (le_PRDID ls) (le_Pools ls) (le_Node ls) (le_Model ls) (le_Acquired ls)
    (le_SessionID ls) (le_NodeUnknown ls) b.

(** A queued request. Its grant channel is open while it is in the ledger's
    queue; a granted waiter leaves the queue for [granted] (see the ledger). *)
Record waiter := mkWaiter {
  w_req : Request;
  w_seq : Z;
  w_since : Time;
  w_reason : string
}.

Definition w_set_req (r : Request) (w : waiter) : waiter :=
  mkWaiter r (w_seq w) (w_since w) (w_reason w).
Definition w_set_reason (s : string) (w : waiter) : waiter :=
  mkWaiter (w_req w) (w_seq w) (w_since w) s.

(** ** Lemmas *)

Lemma sharesPool_true a b : sharesPool a b = true ↔ ∃ p, p ∈ a ∧ p ∈ b.
Proof.
  unfold sharesPool. rewrite existsb_exists. setoid_rewrite existsb_exists.
  setoid_rewrite <- list_elem_of_In. setoid_rewrite String.eqb_eq. naive_solver.
Qed.

Lemma sharesPool_single ps p : sharesPool ps [p] = true ↔ p ∈ ps.
Proof. rewrite sharesPool_true. setoid_rewrite list_elem_of_singleton. naive_solver. Qed.

Lemma sharesPool_single_false ps p : sharesPool ps [p] = false ↔ p ∉ ps.
Proof. rewrite <- sharesPool_single. by destruct (sharesPool ps [p]). Qed.

Lemma node_pool_inj x y : node_pool x = node_pool y → x = y.
Proof. apply (inj (String.app "node:")). Qed.

Lemma VerifierPool_ne_node_pool x y : VerifierPool x ≠ node_pool y.
Proof. by intros [=]. Qed.

Lemma candidates_loop_spec skip l c :
  c ∈ candidates_loop skip l → c ∈ l ∧ nc_Name c ≠ "" ∧ nc_Name c ∉ skip.
Proof.
  revert skip. induction l as [|d l IH]; intros skip; simpl; [by intros ?%elem_of_nil|].
  destruct (String.eqb (nc_Name d) "" || bool_decide (nc_Name d ∈ skip)) eqn:E.
  - intros (?&?&?)%IH. split_and!; [by right|done..].
  - bools. intros [->|(?&?&?)%IH]%elem_of_cons; [split_and!; [left|done..]|].
    split_and!; [by right|done|set_solver].
Qed.

Lemma candidates_loop_NoDup skip l : NoDup (nc_Name <$> candidates_loop skip l).
Proof.
  revert skip. induction l as [|d l IH]; intros skip; simpl; [constructor|].
  case_match; [apply IH|]. cbn. constructor; [|apply IH].
  intros (c & Hc & (_ & _ & Hin)%candidates_loop_spec)%list_elem_of_fmap. set_solver.
Qed.

(** A candidate is one of the request's choices, named, and not excluded. *)
Lemma elem_of_candidates r c :
  c ∈ candidates r →
  c ∈ rq_NodeChoices r ∧ nc_Name c ≠ "" ∧ nc_Name c ∉ rq_ExcludeNodes r.
Proof.
  unfold candidates. rewrite elem_of_sort_by. intros (?&?&H)%candidates_loop_spec.
  rewrite elem_of_list_to_set in H. done.
Qed.

Lemma candidates_NoDup r : NoDup (candidateNames r).
Proof.
  unfold candidateNames, candidates. rewrite sort_by_perm. apply candidates_loop_NoDup.
Qed.

(** Every named choice that is not excluded is represented by a candidate. *)
Lemma candidates_loop_complete skip l c :
  c ∈ l → nc_Name c ≠ "" → nc_Name c ∉ skip →
  nc_Name c ∈ nc_Name <$> candidates_loop skip l.
Proof.
  revert skip. induction l as [|d l IH]; intros skip; simpl; [by intros ?%elem_of_nil|].
  intros [->|Hc]%elem_of_cons Hne Hs.
  - rewrite (proj2 (String.eqb_neq _ _) Hne), bool_decide_eq_false_2 by done. simpl. left.
  - destruct (String.eqb (nc_Name d) "" || bool_decide (nc_Name d ∈ skip)); [by apply IH|].
    destruct (decide (nc_Name c = nc_Name d)) as [->|Hd]; [left|right].
    apply IH; [done..|set_solver].
Qed.

Lemma candidates_complete r c :
  c ∈ rq_NodeChoices r → nc_Name c ≠ "" → nc_Name c ∉ rq_ExcludeNodes r →
  nc_Name c ∈ candidateNames r.
Proof.
  intros. unfold candidateNames, candidates. rewrite sort_by_perm.
  apply candidates_loop_complete; [done..|]. by rewrite elem_of_list_to_set.
Qed.

Lemma withNodePool_pools r name pool :
  pool ∈ rq_Pools (withNodePool r name pool).
Proof.
  unfold withNodePool. simpl. case_match eqn:E.
  - by apply sharesPool_single in E.
  - set_solver.
Qed.

Lemma withoutStaleNode_keeps r :
  rq_Holder (withoutStaleNode r) = rq_Holder r ∧ rq_PRDID (withoutStaleNode r) = rq_PRDID r ∧
  rq_Priority (withoutStaleNode r) = rq_Priority r ∧ rq_Role (withoutStaleNode r) = rq_Role r ∧
  rq_NodeChoices (withoutStaleNode r) = rq_NodeChoices r.
Proof. unfold withoutStaleNode. by repeat case_match. Qed.

Lemma withoutStaleNode_idem r : withoutStaleNode (withoutStaleNode r) = withoutStaleNode r.
Proof.
  unfold withoutStaleNode at 2 3.
  destruct (negb (multiNode r)) eqn:E1; [by unfold withoutStaleNode; rewrite E1|].
  destruct (nonempty (rq_Node r)) eqn:E2; [|by unfold withoutStaleNode; rewrite E1, E2].
  destruct (existsb _ _) eqn:E3; [by unfold withoutStaleNode; rewrite E1, E2, E3|].
  unfold withoutStaleNode, multiNode in *. simpl. by rewrite E1.
Qed.

#[export] Hint Resolve withNodePool_pools : dw.

(** * Capacity: the ledger's state and its admission checks

    The [Ledger] of internal/capacity/ledger.go with its rolling rate windows
    (rate_ceiling.go), and every check a dispatch pass runs under the lock:
    pool usage, the block reason of a pool list, the node ranking, and
    [resolveLocked], which decides where a request would run now.

    An [Options] value is the ledger's environment during one lock hold: what
    each hook answers, the clock, what each Refresh closure returns, and the
    order in which the Go runtime ranges over the leases map. Hooks are fast
    in-memory reads (the LOCK RULE), so they are functions that do not change
    within a lock hold; they may differ from one operation to the next. *)

#[local] Open Scope Z_scope.

Record RateCeiling := mkRateCeiling {
  rc_Requests : Z;
  rc_Tokens : Z;
  rc_Window : Duration
}.

Definition active (c : RateCeiling) : bool :=
  (0 <? rc_Window c) && ((0 <? rc_Requests c) || (0 <? rc_Tokens c)).

Record rateEntry := mkRateEntry { re_At : Time; re_Req : Z; re_Tok : Z }.

Record NodeState := mkNodeState {
  ns_Drained : bool;
  ns_DrainUntil : Time;
  ns_InMaintenance : bool;
  ns_DeniedConsumers : list string
}.

Record Options := mkOptions {
  External : option (string → Z);
  Backpressure : option (string → bool * string);
  AutonomousBackpressure : option (string → bool * string);
  HeldBackpressure : option (string → Z → Z → bool * string);
  NodeHealthy : option (string → bool);
  NodeGate : option (string → string → bool * string);
  NodeStateOf : option (string → NodeState);
  VerifierHeadroom : option (string → bool * string);
  StrictNodeLimit : option bool;
  CountPoolByNode : option bool;
  AdoptBeforeAdmit : option bool;
  AdoptionTimeout : Duration;
  AgeOverride : Duration;
  PollInterval : Duration;
  Now : Time;
  RefreshFn : nat → Placement;
  RangeOrder : gmap string Lease → list (string * Lease)
}.

(** The runtime may visit a map in any order, and visits every entry once. *)
Definition range_ok (o : Options) : Prop := ∀ m, RangeOrder o m ≡ₚ map_to_list m.

Record Ledger := mkLedger {
  limits : gmap string Z;
  leases : gmap string Lease;
  waiters : list waiter;
  seq : Z;
  lastGrant : gmap string Time;
  lastModel : gmap string string;
  rates : gmap string RateCeiling;
  rateUse : gmap string (list rateEntry);
  changed : Z;            (* how often the changed channel was closed and replaced *)
  adopting : bool;
  adoptSince : Time;
  granted : gmap Z waiter (* waiters whose grant channel is closed, by seq *)
}.

Definition l_set_limits v l := mkLedger v (leases l) (waiters l) (seq l) (lastGrant l)
  (lastModel l) (rates l) (rateUse l) (changed l) (adopting l) (adoptSince l) (granted l).
Definition l_set_leases v l := mkLedger (limits l) v (waiters l) (seq l) (lastGrant l)
  (lastModel l) (rates l) (rateUse l) (changed l) (adopting l) (adoptSince l) (granted l).
Definition l_set_waiters v l := mkLedger (limits l) (leases l) v (seq l) (lastGrant l)
  (lastModel l) (rates l) (rateUse l) (changed l) (adopting l) (adoptSince l) (granted l).
Definition l_set_seq v l := mkLedger (limits l) (leases l) (waiters l) v (lastGrant l)
  (lastModel l) (rates l) (rateUse l) (changed l) (adopting l) (adoptSince l) (granted l).
Definition l_set_lastGrant v l := mkLedger (limits l) (leases l) (waiters l) (seq l) v
  (lastModel l) (rates l) (rateUse l) (changed l) (adopting l) (adoptSince l) (granted l).
Definition l_set_lastModel v l := mkLedger (limits l) (leases l) (waiters l) (seq l) (lastGrant l)
  v (rates l) (rateUse l) (changed l) (adopting l) (adoptSince l) (granted l).
Definition l_set_rates v l := mkLedger (limits l) (leases l) (waiters l) (seq l) (lastGrant l)
  (lastModel l) v (rateUse l) (changed l) (adopting l) (adoptSince l) (granted l).
Definition l_set_rateUse v l := mkLedger (limits l) (leases l) (waiters l) (seq l) (lastGrant l)
  (lastModel l) (rates l) v (changed l) (adopting l) (adoptSince l) (granted l).
Definition l_set_adopting v l := mkLedger (limits l) (leases l) (waiters l) (seq l) (lastGrant l)
  (lastModel l) (rates l) (rateUse l) (changed l) v (adoptSince l) (granted l).
Definition l_set_adoptSince v l := mkLedger (limits l) (leases l) (waiters l) (seq l) (lastGrant l)
  (lastModel l) (rates l) (rateUse l) (changed l) (adopting l) v (granted l).
Definition l_set_granted v l := mkLedger (limits l) (leases l) (waiters l) (seq l) (lastGrant l)
  (lastModel l) (rates l) (rateUse l) (changed l) (adopting l) (adoptSince l) v.

(** Closing the changed channel and installing a fresh one. *)
Definition signalChangedLocked (l : Ledger) : Ledger :=
  mkLedger (limits l) (leases l) (waiters l) (seq l) (lastGrant l)
    (lastModel l) (rates l) (rateUse l) (changed l + 1) (adopting l) (adoptSince l) (granted l).

(** [New]: the empty ledger, and the options with their defaults filled in. *)
Definition New : Ledger := mkLedger ∅ ∅ [] 0 ∅ ∅ ∅ ∅ 0 false zero_time ∅.

Definition defaultAdoptionTimeout : Duration := 3 * Minute.

Definition New_options (o : Options) : Options :=
  mkOptions (External o) (Backpressure o) (AutonomousBackpressure o) (HeldBackpressure o)
    (NodeHealthy o) (NodeGate o) (NodeStateOf o) (VerifierHeadroom o) (StrictNodeLimit o)
    (CountPoolByNode o) (AdoptBeforeAdmit o)
    (if AdoptionTimeout o <=? 0 then defaultAdoptionTimeout else AdoptionTimeout o)
    (if AgeOverride o <=? 0 then 10 * Minute else AgeOverride o)
    (if PollInterval o <=? 0 then 5 * Second else PollInterval o)
    (Now o) (RefreshFn o) (RangeOrder o).

(** ** Pool usage *)

(** A map read: the zero value when the key is absent. *)
Definition Limit (l : Ledger) (pool : string) : Z := default 0 (limits l !! pool).

Definition heldLocked (l : Ledger) (pool : string) : Z :=
  count (λ _ ls, bool_decide (pool ∈ le_Pools ls)) (leases l).

Definition optOn (f : option bool) : bool := match f with None => true | Some b => b end.

Definition overflowLocked (l : Ledger) (node : string) : list string :=
  keys_where (λ _ ls, le_NodeOverflow ls && String.eqb (le_Node ls) node) (leases l).

Definition by_node_step (lim : string → Z) (pool : string) (_ : string) (ls : Lease)
    (acc : Z * gmap string Z) : Z * gmap string Z :=
  let '(n, perNode) := acc in
  if negb (sharesPool (le_Pools ls) [pool]) then (n, perNode)
  else if String.eqb (le_Node ls) "" || (lim (node_pool (le_Node ls)) <=? 0) then (n + 1, perNode)
  else (n, <[le_Node ls := default 0 (perNode !! le_Node ls) + 1]> perNode).

Definition by_node_total (lim : string → Z) (acc : Z * gmap string Z) : Z :=
  let '(n, perNode) := acc in
  n + map_fold (λ node c s, s + Z.min c (lim (node_pool node))) 0 perNode.

Definition heldByNodeLocked (l : Ledger) (pool : string) : Z :=
  by_node_total (Limit l) (map_fold (by_node_step (Limit l) pool) (0, ∅) (leases l)).

Definition external (o : Options) (pool : string) : Z :=
  match External o with None => 0 | Some f => f pool end.

Definition usedLocked (o : Options) (l : Ledger) (pool : string) : Z :=
  let used :=
    if HasPrefix pool "node:"
    then heldLocked l pool + Z.of_nat (length (overflowLocked l (TrimPrefix pool "node:")))
    else if HasPrefix pool "llm:" && optOn (CountPoolByNode o)
    then heldByNodeLocked l pool
    else heldLocked l pool in
  used + external o pool.

Definition holdersLocked (l : Ledger) (pool : string) : string :=
  let hs := keys_where (λ _ ls, bool_decide (pool ∈ le_Pools ls)) (leases l) in
  let hs := match CutPrefix pool "node:" with
            | Some node => hs ++ overflowLocked l node
            | None => hs
            end in
  let hs := sort_strings hs in
  match hs with [] => "other sessions" | _ => Join hs "," end.

(** ** Rate ceilings *)

Definition record_request (now : Time) (l : Ledger) (p : string) : Ledger :=
  match rates l !! p with
  | Some c => if 0 <? rc_Requests c
              then l_set_rateUse (<[p := default [] (rateUse l !! p) ++ [mkRateEntry now 1 0]]> (rateUse l)) l
              else l
  | None => l
  end.

Definition recordRequestsLocked (pools : list string) (now : Time) (l : Ledger) : Ledger :=
  foldl (record_request now) l pools.

Definition re_before (a b : rateEntry) : bool := re_At a <? re_At b.

Definition sum_reqs (es : list rateEntry) : Z := foldl (λ n e, n + re_Req e) 0 es.
Definition sum_toks (es : list rateEntry) : Z := foldl (λ n e, wrap64 (n + re_Tok e)) 0 es.

Definition in_window (c : RateCeiling) (now : Time) (es : list rateEntry) : list rateEntry :=
  filter (λ e, After (re_At e) (Add now (- rc_Window c)) = true) es.

Definition rateWindowLocked (l : Ledger) (pool : string) (now : Time) :
    Ledger * (list rateEntry * Z * Z) :=
  match rates l !! pool with
  | None => (l, ([], 0, 0))
  | Some c =>
      let kept := in_window c now (default [] (rateUse l !! pool)) in
      let es := sort_by re_before kept in
      (l_set_rateUse (<[pool := es]> (rateUse l)) l, (es, sum_reqs kept, sum_toks kept))
  end.

Definition reqOf (e : rateEntry) : Z := re_Req e.
Definition tokOf (e : rateEntry) : Z := re_Tok e.

Fixpoint rateFreeAt (es : list rateEntry) (remaining ceiling : Z) (window : Duration)
    (val : rateEntry → Z) : option Time :=
  match es with
  | [] => None
  | e :: es' =>
      if val e <=? 0 then rateFreeAt es' remaining ceiling window val
      else
        let remaining := wrap64 (remaining - val e) in
        if remaining <? ceiling then Some (Add (re_At e) window)
        else rateFreeAt es' remaining ceiling window val
  end.

Definition rate_dim_msg (pool : string) (c : RateCeiling) (es : list rateEntry)
    (name : string) (used ceil : Z) (val : rateEntry → Z) : string :=
  if (ceil <=? 0) || (used <? ceil) then ""
  else
    let msg := "pool " +:+ pool +:+ " rate ceiling: " +:+ name +:+ " " +:+ fmt_d used +:+
               "/" +:+ fmt_d ceil +:+ " in " +:+ Duration_String (rc_Window c) in
    match rateFreeAt es used ceil (rc_Window c) val with
    | Some at_ => msg +:+ ", resets at " +:+ FormatRFC3339 at_
    | None => msg
    end.

Definition rateBlockLocked (l : Ledger) (pool : string) (now : Time) : Ledger * string :=
  match rates l !! pool with
  | None => (l, "")
  | Some c =>
      let '(l, (es, reqs, toks)) := rateWindowLocked l pool now in
      let msg := rate_dim_msg pool c es "requests" reqs (rc_Requests c) reqOf in
      if nonempty msg then (l, msg)
      else (l, rate_dim_msg pool c es "tokens" toks (rc_Tokens c) tokOf)
  end.

(** [pick]: the later of what was found so far and [t]. *)
Definition pick_later (found : option Time) (t : option Time) : option Time :=
  match found, t with
  | None, _ => t
  | Some a, Some t => if After t a then Some t else Some a
  | Some a, None => Some a
  end.

Definition rateResetLocked (l : Ledger) (pool : string) (now : Time) : Ledger * option Time :=
  match rates l !! pool with
  | None => (l, None)
  | Some c =>
      let '(l, (es, reqs, toks)) := rateWindowLocked l pool now in
      let a := if (0 <? rc_Requests c) && (rc_Requests c <=? reqs)
               then rateFreeAt es reqs (rc_Requests c) (rc_Window c) reqOf else None in
      let b := if (0 <? rc_Tokens c) && (rc_Tokens c <=? toks)
               then rateFreeAt es toks (rc_Tokens c) (rc_Window c) tokOf else None in
      match pick_later a b with
      | Some at_ => (l, Some at_)
      | None => (l, match es with e :: _ => Some (Add (re_At e) (rc_Window c)) | [] => None end)
      end
  end.
