(* ===== verification/CapacityResolve.v ===== *)
(** * Capacity: where a request would run now

    The block reason of a pool list, the ranking of a request's candidate
    nodes, the node gates, and [resolveLocked]. Reading a rate window drops the
    entries outside it and reading the adoption gate may clear it, so each of
    these returns the ledger it leaves behind; everything else is unchanged
    ([same_core]).

    Also: capacity: the dispatch pass. *)

From S2P Require Import Prelude GoBase CapacityLedger.

#[local] Open Scope Z_scope.

(** ** Definitions *)

Definition adoption_reason : string := "waiting for work resumed after the restart to be adopted".

Definition adoptionPendingLocked (o : Options) (l : Ledger) : Ledger * string :=
  if negb (adopting l) then (l, "")
  else if negb (optOn (AdoptBeforeAdmit o)) then (l_set_adopting false l, "")
  else if AdoptionTimeout o <=? Sub (Now o) (adoptSince l) then (l_set_adopting false l, "")
  else (l, adoption_reason).

Definition full_reason (o : Options) (l : Ledger) (p : string) (lim : Z) : string :=
  let u := fmt_d (usedLocked o l p) +:+ "/" +:+ fmt_d lim in
  match CutPrefix p "node:" with
  | Some name => "waiting for node " +:+ name +:+ ": " +:+ u +:+ " engines in use, held by " +:+ holdersLocked l p
  | None =>
  match CutPrefix p "node-verify:" with
  | Some name => "waiting for node " +:+ name +:+ ": " +:+ u +:+ " verifier slots in use, held by " +:+ holdersLocked l p
  | None => "pool " +:+ p +:+ " full (" +:+ u +:+ ", held by " +:+ holdersLocked l p +:+ ")"
  end
  end.

(** A hook that is not set never blocks. *)
Definition bp_reason (f : option (bool * string)) (p : string) : string :=
  match f with
  | Some (true, why) => "pool " +:+ p +:+ " backpressure: " +:+ why
  | _ => ""
  end.

Definition pool_full (o : Options) (l : Ledger) (p : string) : bool :=
  (0 <? Limit l p) && (Limit l p <=? usedLocked o l p).

(** The three backpressure hooks, in the order the code asks them. *)
Definition hooks_reason (o : Options) (l : Ledger) (inter : bool) (p : string) : string :=
  let b1 := bp_reason ((λ f, f p) <$> Backpressure o) p in
  if nonempty b1 then b1 else
  let b2 := if inter then "" else bp_reason ((λ f, f p) <$> AutonomousBackpressure o) p in
  if nonempty b2 then b2 else
  if inter then "" else bp_reason ((λ f, f p (heldLocked l p) (Limit l p)) <$> HeldBackpressure o) p.

Definition block_pool (o : Options) (l : Ledger) (inter : bool) (p : string) : Ledger * string :=
  if pool_full o l p then (l, full_reason o l p (Limit l p))
  else
    let '(l, why) := rateBlockLocked l p (Now o) in
    if nonempty why then (l, why) else (l, hooks_reason o l inter p).

Fixpoint block_loop (o : Options) (l : Ledger) (inter : bool) (pools : list string) : Ledger * string :=
  match pools with
  | [] => (l, "")
  | p :: ps =>
      let '(l, why) := block_pool o l inter p in
      if nonempty why then (l, why) else block_loop o l inter ps
  end.

Definition blockReasonLocked (o : Options) (l : Ledger) (req : Request) : Ledger * string :=
  block_loop o l (rq_Interactive req) (rq_Pools req).

(** Used count and limit of a candidate's node pool; an unlimited pool is 0/1. *)
Definition node_load (o : Options) (l : Ledger) (node : string) : Z * Z :=
  if 0 <? Limit l (node_pool node)
  then (usedLocked o l (node_pool node), Limit l (node_pool node))
  else (0, 1).

Definition ranked_less (o : Options) (l : Ledger) (req : Request) (a b : NodeChoice) : bool :=
  let '(ua, la) := node_load o l (nc_Name a) in
  let '(ub, lb) := node_load o l (nc_Name b) in
  let x := wrap64 (ua * lb) in
  let y := wrap64 (ub * la) in
  if negb (x =? y) then x <? y
  else
    let pa := String.eqb (nc_Name a) (rq_PreferNode req) in
    let pb := String.eqb (nc_Name b) (rq_PreferNode req) in
    if nonempty (rq_PreferNode req) && negb (String.eqb (nc_Name a) (nc_Name b)) && negb (Bool.eqb pa pb)
    then pa
    else nc_Priority b <? nc_Priority a.

Definition rankedLocked (o : Options) (l : Ledger) (req : Request) : list NodeChoice :=
  sort_by (ranked_less o l req) (candidates req).

Definition ledgerNodePoolLocked (l : Ledger) (role : Role) (node : string) : string :=
  if String.eqb role RoleVerifier && (0 <? Limit l (VerifierPool node))
  then VerifierPool node
  else node_pool node.

(** [VerifierSlotsOn] *)
Definition VerifierSlotsOn (l : Ledger) (node : string) : Z := Limit l (VerifierPool node).

Fixpoint swap_loop (np vp : string) (swapped : bool) (pools : list string) : list string :=
  match pools with
  | [] => []
  | p :: ps =>
      if String.eqb p np
      then if swapped then swap_loop np vp true ps else vp :: swap_loop np vp true ps
      else p :: swap_loop np vp swapped ps
  end.

Definition swapVerifierNodePoolLocked (l : Ledger) (req : Request) (node : string) : Request :=
  if negb (String.eqb (rq_Role req) RoleVerifier) || String.eqb node "" then req
  else
    let np := node_pool node in
    let vp := VerifierPool node in
    if (Limit l vp <=? 0) || negb (sharesPool (rq_Pools req) [np]) then req
    else with_placement req (mkPlacement (swap_loop np vp false (rq_Pools req)) (rq_Node req)
                               (rq_NodeChoices req) (rq_ExcludeNodes req)).

Definition nodeGateLocked (o : Options) (node consumer : string) : bool * string :=
  match NodeGate o with
  | Some gate => gate node consumer
  | None =>
      match NodeHealthy o with
      | Some healthy => if healthy node then (true, "") else (false, "unhealthy")
      | None => (true, "")
      end
  end.

Definition AllCandidatesGatePrefix : string := "all candidate nodes drained or denied: ".

(** One candidate of a multi-node request: the request bound to it, or why not
    (and whether it was the gate that refused). *)
Definition try_candidate (o : Options) (l : Ledger) (req : Request) (name : string) :
    Ledger * (Request + string * bool) :=
  let '(ok, why) := nodeGateLocked o name (rq_Consumer req) in
  if negb ok then (l, inr (name +:+ ": " +:+ why, true))
  else
    match (if String.eqb (rq_Role req) RoleVerifier then VerifierHeadroom o else None) with
    | Some headroom =>
        let '(blocked, why) := headroom name in
        if blocked then (l, inr (name +:+ ": verifier headroom: " +:+ why, false))
        else
          let bound := withNodePool req name (ledgerNodePoolLocked l (rq_Role req) name) in
          let '(l, why) := blockReasonLocked o l bound in
          if nonempty why
          then (l, inr (name +:+ ": " +:+ TrimPrefix why ("waiting for node " +:+ name +:+ ": "), false))
          else (l, inl bound)
    | None =>
        let bound := withNodePool req name (ledgerNodePoolLocked l (rq_Role req) name) in
        let '(l, why) := blockReasonLocked o l bound in
        if nonempty why
        then (l, inr (name +:+ ": " +:+ TrimPrefix why ("waiting for node " +:+ name +:+ ": "), false))
        else (l, inl bound)
    end.

(** The candidate loop: the first candidate that fits, else every refusal. *)
Fixpoint resolve_loop (o : Options) (l : Ledger) (req : Request) (names parts : list string)
    (gateBlocked : Z) : Ledger * (Request + list string * Z) :=
  match names with
  | [] => (l, inr (parts, gateBlocked))
  | name :: rest =>
      match try_candidate o l req name with
      | (l, inl bound) => (l, inl bound)
      | (l, inr (part, by_gate)) =>
          resolve_loop o l req rest (parts ++ [part])
            (if by_gate then gateBlocked + 1 else gateBlocked)
      end
  end.

(** A single-node request asks [NodeGate] alone. *)
Definition single_gate (o : Options) (req : Request) : bool * string :=
  if nonempty (rq_Node req)
  then match NodeGate o with Some g => g (rq_Node req) (rq_Consumer req) | None => (true, "") end
  else (true, "").

Definition resolve_single (o : Options) (l : Ledger) (req : Request) : Ledger * Request * string :=
  let '(ok, why) := single_gate o req in
  if negb ok then (l, req, "waiting for node " +:+ rq_Node req +:+ ": " +:+ why)
  else
    let req := swapVerifierNodePoolLocked l req (rq_Node req) in
    let '(l, why) := blockReasonLocked o l req in
    (l, req, why).

Definition resolve_multi (o : Options) (l : Ledger) (req : Request) : Ledger * Request * string :=
  let names := nc_Name <$> rankedLocked o l req in
  match names with
  | [] => (l, req, "no eligible node among " +:+ Join (nc_Name <$> rq_NodeChoices req) ", " +:+ ": all excluded")
  | _ =>
      match resolve_loop o l req names [] 0 with
      | (l, inl bound) => (l, bound, "")
      | (l, inr (parts, gateBlocked)) =>
          let inner := Join parts "; " in
          let inner := if (gateBlocked =? Z.of_nat (length names)) && (2 <=? gateBlocked)
                       then AllCandidatesGatePrefix +:+ inner else inner in
          (l, req, "waiting for nodes " +:+ Join names ", " +:+ ": " +:+ inner)
      end
  end.

Definition resolveLocked (o : Options) (l : Ledger) (req : Request) : Ledger * Request * string :=
  let '(l, why) := adoptionPendingLocked o l in
  if nonempty why then (l, req, why)
  else if negb (multiNode req) then resolve_single o l req
  else resolve_multi o l req.

(** ** What the checks may change *)

(** The entries of a pool's rate window, whatever order they are kept in. *)
Definition window (l : Ledger) (p : string) (c : RateCeiling) (now : Time) : list rateEntry :=
  in_window c now (default [] (rateUse l !! p)).

(** The adoption hold does not hold requests back: none is set, its option is
    off, or it has outlived its timeout. *)
Definition adoption_clear (o : Options) (l : Ledger) : bool :=
  negb (adopting l) || negb (optOn (AdoptBeforeAdmit o)) ||
  (AdoptionTimeout o <=? Sub (Now o) (adoptSince l)).

(** Two ledgers that differ at most in an adoption hold that was cleared because
    it no longer held anything back, and in rate entries outside their window. *)
Record same_core (o : Options) (l l' : Ledger) : Prop := {
  sc_limits : limits l' = limits l;
  sc_leases : leases l' = leases l;
  sc_waiters : waiters l' = waiters l;
  sc_seq : seq l' = seq l;
  sc_lastGrant : lastGrant l' = lastGrant l;
  sc_lastModel : lastModel l' = lastModel l;
  sc_rates : rates l' = rates l;
  sc_changed : changed l' = changed l;
  sc_granted : granted l' = granted l;
  sc_adopting : adopting l' = adopting l ∨ (adopting l' = false ∧ adoption_clear o l = true);
  sc_adoptSince : adoptSince l' = adoptSince l;
  sc_window p c : rates l !! p = Some c → window l' p c (Now o) ≡ₚ window l p c (Now o)
}.

#[export] Instance same_core_PreOrder o : PreOrder (same_core o).
Proof.
  split; [by split; auto|].
  intros a b d [] []. split; try congruence.
  - unfold adoption_clear in *. rewrite sc_adoptSince0 in *.
    destruct sc_adopting0 as [H0|[H0 H0']], sc_adopting1 as [H1|[H1 H1']]; rewrite ?H0, ?H1 in *; auto.
  - intros p c Hc. etrans; [apply sc_window1; congruence|by apply sc_window0].
Qed.

(** Everything usage depends on is in the core. *)
Lemma used_core o l l' p : limits l' = limits l → leases l' = leases l →
  usedLocked o l' p = usedLocked o l p.
Proof.
  intros Hlim Hls.
  unfold usedLocked, heldByNodeLocked, heldLocked, overflowLocked. rewrite Hls.
  replace (Limit l') with (Limit l); [done|].
  unfold Limit. by rewrite Hlim.
Qed.

Section core.
Context {o : Options} {l l' : Ledger} (Hc : same_core o l l').

Lemma used_same_core p : usedLocked o l' p = usedLocked o l p.
Proof. apply used_core; apply Hc. Qed.

Lemma Limit_same_core p : Limit l' p = Limit l p.
Proof. unfold Limit. by rewrite (sc_limits _ _ _ Hc). Qed.

Lemma held_same_core p : heldLocked l' p = heldLocked l p.
Proof. unfold heldLocked. by rewrite (sc_leases _ _ _ Hc). Qed.

Lemma pool_full_same_core p : pool_full o l' p = pool_full o l p.
Proof. unfold pool_full. by rewrite Limit_same_core, used_same_core. Qed.

Lemma hooks_same_core inter p : hooks_reason o l' inter p = hooks_reason o l inter p.
Proof. unfold hooks_reason. by rewrite Limit_same_core, held_same_core. Qed.

Lemma adoption_same_core : adoption_clear o l' = adoption_clear o l.
Proof.
  unfold adoption_clear. rewrite (sc_adoptSince _ _ _ Hc).
  destruct (sc_adopting _ _ _ Hc) as [->|[-> H]]; [done|].
  unfold adoption_clear in H. by rewrite H.
Qed.
End core.

Lemma adoptionPending_core o l : same_core o l (adoptionPendingLocked o l).1.
Proof.
  unfold adoptionPendingLocked, adoption_clear.
  destruct (adopting l) eqn:Ha; [|by split; auto].
  destruct (optOn (AdoptBeforeAdmit o)) eqn:Hb; simpl.
  - case_match eqn:Hc; split; simpl; auto. right. unfold adoption_clear. by rewrite Hc, orb_true_r.
  - split; simpl; auto. right. unfold adoption_clear. by rewrite Hb, orb_true_r.
Qed.

Lemma in_window_idem c now es : in_window c now (in_window c now es) = in_window c now es.
Proof.
  unfold in_window. induction es as [|e es IH]; [done|].
  rewrite filter_cons. case_decide; [|done]. rewrite filter_cons_True by done. by rewrite IH.
Qed.

Lemma rateWindow_core o l p : same_core o l (rateWindowLocked l p (Now o)).1.
Proof.
  unfold rateWindowLocked. destruct (rates l !! p) as [c|] eqn:E; [|done]. split; try done; [by left|].
  intros q d Hd. unfold window. simpl. destruct (decide (p = q)) as [->|].
  - rewrite lookup_insert_eq. assert (d = c) as -> by congruence. simpl. unfold in_window at 1.
    rewrite sort_by_perm. fold (in_window c (Now o) (in_window c (Now o) (default [] (rateUse l !! q)))).
    by rewrite in_window_idem.
  - by rewrite lookup_insert_ne.
Qed.

Lemma rateBlock_core o l p : same_core o l (rateBlockLocked l p (Now o)).1.
Proof.
  unfold rateBlockLocked. pose proof (rateWindow_core o l p).
  destruct (rateWindowLocked l p (Now o)) as [l' [[es reqs] toks]]. by repeat case_match.
Qed.

Lemma rateReset_core o l p : same_core o l (rateResetLocked l p (Now o)).1.
Proof.
  unfold rateResetLocked. pose proof (rateWindow_core o l p).
  destruct (rateWindowLocked l p (Now o)) as [l' [[es reqs] toks]]. by repeat case_match.
Qed.

Lemma block_pool_core o l inter p : same_core o l (block_pool o l inter p).1.
Proof.
  unfold block_pool. pose proof (rateBlock_core o l p).
  destruct (rateBlockLocked l p (Now o)) as [l' why]. by repeat case_match.
Qed.

Lemma block_loop_core o l inter ps : same_core o l (block_loop o l inter ps).1.
Proof.
  revert l. induction ps as [|p ps IH]; intros l; simpl; [done|].
  pose proof (block_pool_core o l inter p).
  destruct (block_pool o l inter p) as [l' why]. case_match; [done|].
  etrans; [done|apply IH].
Qed.

Lemma blockReason_core o l req : same_core o l (blockReasonLocked o l req).1.
Proof. apply block_loop_core. Qed.

Lemma try_candidate_core o l req name : same_core o l (try_candidate o l req name).1.
Proof.
  unfold try_candidate. destruct (nodeGateLocked _ _ _) as [ok why].
  pose proof (blockReason_core o l (withNodePool req name (ledgerNodePoolLocked l (rq_Role req) name))).
  destruct (blockReasonLocked _ _ _) as [l' why']. by repeat case_match.
Qed.

Lemma resolve_loop_core o l req names parts g :
  same_core o l (resolve_loop o l req names parts g).1.
Proof.
  revert l parts g. induction names as [|n ns IH]; intros l parts g; simpl; [done|].
  pose proof (try_candidate_core o l req n).
  destruct (try_candidate o l req n) as [l' [b|[part bg]]]; [done|]. etrans; [done|apply IH].
Qed.

Lemma resolve_single_core o l req : same_core o l (resolve_single o l req).1.1.
Proof.
  unfold resolve_single. destruct (single_gate o req) as [ok why]. case_match; [done|].
  pose proof (blockReason_core o l (swapVerifierNodePoolLocked l req (rq_Node req))).
  by destruct (blockReasonLocked _ _ _).
Qed.

Lemma resolve_multi_core o l req : same_core o l (resolve_multi o l req).1.1.
Proof.
  unfold resolve_multi. destruct (nc_Name <$> rankedLocked o l req) as [|n ns] eqn:E; [done|].
  pose proof (resolve_loop_core o l req (n :: ns) [] 0).
  by destruct (resolve_loop _ _ _ _ _ _) as [l1 [b|[ps g]]].
Qed.

Lemma resolve_core o l req : same_core o l (resolveLocked o l req).1.1.
Proof.
  unfold resolveLocked. pose proof (adoptionPending_core o l) as H0.
  destruct (adoptionPendingLocked o l) as [l0 why0]. simpl in H0.
  case_match; [done|]. etrans; [exact H0|].
  case_match; [apply resolve_single_core|apply resolve_multi_core].
Qed.

#[export] Hint Resolve adoptionPending_core rateWindow_core rateBlock_core rateReset_core
  block_pool_core blockReason_core try_candidate_core resolve_core : dw.

(** * Capacity: the dispatch pass

    Grant order, promotion of overflow leases, granting, and [dispatchLocked],
    the pass that every change of capacity runs. *)

#[local] Open Scope Z_scope.

(** ** Grant order *)

Definition aged (o : Options) (now : Time) (w : waiter) : bool := AgeOverride o <=? Sub now (w_since w).

Definition model_is (l : Ledger) (node model : string) : bool :=
  String.eqb (default "" (lastModel l !! node)) model.

Definition affine (l : Ledger) (w : waiter) : bool :=
  let r := w_req w in
  if String.eqb (rq_Model r) "" then false
  else if multiNode r then existsb (λ n, model_is l n (rq_Model r)) (candidateNames r)
  else nonempty (rq_Node r) && model_is l (rq_Node r) (rq_Model r).

Definition last_grant (l : Ledger) (w : waiter) : Time :=
  default zero_time (lastGrant l !! rq_PRDID (w_req w)).

Definition waiter_less (o : Options) (l : Ledger) (now : Time) (a b : waiter) : bool :=
  let ra := rank (rq_Role (w_req a)) in
  let rb := rank (rq_Role (w_req b)) in
  if negb (ra =? rb) then ra <? rb
  else if negb (rq_Priority (w_req a) =? rq_Priority (w_req b))
  then rq_Priority (w_req b) <? rq_Priority (w_req a)
  else if negb (Bool.eqb (aged o now a) (aged o now b)) then aged o now a
  else if negb (Bool.eqb (affine l a) (affine l b)) then affine l a
  else if negb (last_grant l a =? last_grant l b) then Before (last_grant l a) (last_grant l b)
  else w_seq a <? w_seq b.

Definition orderListLocked (o : Options) (l : Ledger) (ws : list waiter) (now : Time) : list waiter :=
  sort_by (waiter_less o l now) ws.

Definition orderLocked (o : Options) (l : Ledger) (now : Time) : list waiter :=
  orderListLocked o l (waiters l) now.

(** ** Overflow promotion *)

Definition promote_one (o : Options) (l : Ledger) (kv : string * Lease) : Ledger :=
  match leases l !! kv.1 with
  | None => l
  | Some ls =>
      let pool := node_pool (le_Node ls) in
      let used := heldLocked l pool + external o pool in
      if (0 <? Limit l pool) && (Limit l pool <=? used) then l
      else l_set_leases (<[kv.1 := ls_set_NodeOverflow false (ls_set_Pools (le_Pools ls ++ [pool]) ls)]> (leases l)) l
  end.

Definition promoteOverflowLocked (o : Options) (l : Ledger) : Ledger :=
  let over := filter (λ kv, le_NodeOverflow kv.2 = true) (RangeOrder o (leases l)) in
  foldl (promote_one o) l (sort_by (λ a b, Before (le_Acquired a.2) (le_Acquired b.2)) over).

(** ** Granting *)

Definition lease_of_request (req : Request) (now : Time) : Lease :=
  mkLease (rq_Holder req) (rq_PRDID req) (rq_Pools req) (rq_Node req) (rq_Model req) now "" false false.

(** The queue holds pointers: a waiter is removed by identity, its [seq]. *)
Fixpoint remove_waiter (s : Z) (ws : list waiter) : list waiter :=
  match ws with
  | [] => []
  | x :: ws' => if w_seq x =? s then ws' else x :: remove_waiter s ws'
  end.

Definition set_reason (s : Z) (why : string) (ws : list waiter) : list waiter :=
  (λ w, if w_seq w =? s then w_set_reason why w else w) <$> ws.

Definition grantLocked (w : waiter) (req : Request) (now : Time) (l : Ledger) : Ledger :=
  let l := l_set_leases (<[rq_Holder req := lease_of_request req now]> (leases l)) l in
  let l := l_set_lastGrant (<[rq_PRDID req := now]> (lastGrant l)) l in
  let l := recordRequestsLocked (rq_Pools req) now l in
  let l := if nonempty (rq_Node req) && nonempty (rq_Model req)
           then l_set_lastModel (<[rq_Node req := rq_Model req]> (lastModel l)) l else l in
  let l := l_set_waiters (remove_waiter (w_seq w) (waiters l)) l in
  l_set_granted (<[w_seq w := w_set_reason "" w]> (granted l)) l.

(** ** The pass *)

Definition apply_refresh (o : Options) (r : Request) : Request :=
  match rq_Refresh r with
  | Some f => with_placement r (RefreshFn o f)
  | None => r
  end.

Definition refreshWaiterLocked (o : Options) (w : waiter) : waiter :=
  w_set_req (withoutStaleNode (apply_refresh o (w_req w))) w.

Definition dispatch_one (o : Options) (now : Time) (l : Ledger) (w : waiter) : Ledger :=
  let '(l, bound, why) := resolveLocked o l (w_req w) in
  let l := l_set_waiters (set_reason (w_seq w) why (waiters l)) l in
  if nonempty why then l else grantLocked w bound now l.

Definition dispatchLocked (o : Options) (l : Ledger) : Ledger :=
  let l := promoteOverflowLocked o l in
  match waiters l with
  | [] => l
  | _ =>
      let now := Now o in
      let l := l_set_waiters (refreshWaiterLocked o <$> waiters l) l in
      foldl (dispatch_one o now) l (orderLocked o l now)
  end.

(** ** The order is a strict weak order *)

#[export] Instance waiter_less_StrictWeak o l now : StrictWeak (waiter_less o l now).
Proof.
  split; unfold not_after, waiter_less, Before.
  - intros a b.
    generalize (aged o now a) (aged o now b) (affine l a) (affine l b)
      (last_grant l a) (last_grant l b).
    intros [] [] [] [] ga gb; simpl; intros H; repeat case_in H; repeat case_goal; bools; lia.
  - intros a b c.
    generalize (aged o now a) (aged o now b) (aged o now c) (affine l a) (affine l b) (affine l c)
      (last_grant l a) (last_grant l b) (last_grant l c).
    intros xa xb xc ya yb yc ga gb gc H1 H2.
    destruct (rank (rq_Role (w_req a)) =? rank (rq_Role (w_req b))) eqn:?; [|bools].
    all: repeat case_in H1; repeat case_in H2; repeat case_goal; bools; try lia.
    all: destruct xa, xb, xc, ya, yb, yc; simpl in *; try congruence; try lia.
Qed.
