(* ===== verification/CapacityPlace.v ===== *)
(** * Capacity: how pool usage moves

    Lemmas on [usedLocked]: storing a lease adds at most one to each pool it
    names and nothing elsewhere, removing one never adds, and promoting an
    overflow lease adds nothing. The dispatch theorems rest on these.

    Also: capacity: the abstract placement and its refinement. *)

From S2P Require Import Prelude GoBase CapacityLedger CapacityResolve.

#[local] Open Scope Z_scope.

Definition names_pool (p : string) (ls : Lease) : bool := bool_decide (p ∈ le_Pools ls).

(** ** Per-node counting *)
Section by_node.
Context (lim : string → Z) (pool : string).

Definition node_sum (pn : gmap string Z) : Z :=
  map_fold (λ node c s, s + Z.min c (lim (node_pool node))) 0 pn.

Lemma node_sum_insert_fresh n c pn :
  pn !! n = None → node_sum (<[n:=c]> pn) = node_sum pn + Z.min c (lim (node_pool n)).
Proof. intros Hn. unfold node_sum. rewrite map_fold_insert_L; [done| |done]. intros. lia. Qed.

Lemma node_sum_insert_some n c c' pn :
  pn !! n = Some c →
  node_sum (<[n:=c']> pn) =
    node_sum pn - Z.min c (lim (node_pool n)) + Z.min c' (lim (node_pool n)).
Proof.
  intros Hn. rewrite <- insert_delete_eq, node_sum_insert_fresh by apply lookup_delete_eq.
  assert (node_sum pn = node_sum (delete n pn) + Z.min c (lim (node_pool n))) as ->; [|lia].
  rewrite <- node_sum_insert_fresh by apply lookup_delete_eq. by rewrite insert_delete_id.
Qed.

(** One lease adds at most one slot, and nothing when it does not name the pool. *)
Lemma by_node_step_bounds k ls acc :
  by_node_total lim acc ≤ by_node_total lim (by_node_step lim pool k ls acc) ≤
  by_node_total lim acc + (if names_pool pool ls then 1 else 0).
Proof.
  destruct acc as [n pn]. unfold by_node_step, names_pool.
  destruct (sharesPool (le_Pools ls) [pool]) eqn:E; simpl.
  - apply sharesPool_single in E. rewrite (bool_decide_eq_true_2 _ E).
    destruct (String.eqb _ _ || _) eqn:E2; simpl; [lia|]. bools.
    fold node_sum. destruct (pn !! le_Node ls) as [c|] eqn:Hc; simpl.
    + rewrite (node_sum_insert_some _ c) by done. unfold node_sum. lia.
    + rewrite node_sum_insert_fresh by done. unfold node_sum. lia.
  - case_match; lia.
Qed.

Lemma by_node_step_comm k1 k2 v1 v2 acc :
  by_node_step lim pool k1 v1 (by_node_step lim pool k2 v2 acc) =
  by_node_step lim pool k2 v2 (by_node_step lim pool k1 v1 acc).
Proof.
  destruct acc as [n pn]. unfold by_node_step.
  destruct (negb (sharesPool (le_Pools v1) [pool])), (negb (sharesPool (le_Pools v2) [pool]));
    try done; [by repeat case_match..|].
  destruct (String.eqb (le_Node v1) "" || _), (String.eqb (le_Node v2) "" || _); try done.
  destruct (decide (le_Node v1 = le_Node v2)) as [->|Hne]; [done|].
  rewrite !lookup_insert_ne by done. by rewrite insert_insert_ne.
Qed.

Definition by_node_fold (m : gmap string Lease) := map_fold (by_node_step lim pool) (0, ∅) m.

Lemma by_node_fold_insert k ls m :
  m !! k = None → by_node_fold (<[k:=ls]> m) = by_node_step lim pool k ls (by_node_fold m).
Proof.
  intros Hk. unfold by_node_fold. rewrite map_fold_insert_L; [done| |done].
  intros. apply by_node_step_comm.
Qed.

Lemma by_node_delete_le k m :
  by_node_total lim (by_node_fold (delete k m)) ≤ by_node_total lim (by_node_fold m).
Proof.
  destruct (m !! k) as [ls|] eqn:Hk; [|by rewrite delete_id].
  rewrite <- (insert_delete_id m k ls Hk) at 2.
  rewrite by_node_fold_insert by apply lookup_delete_eq. apply by_node_step_bounds.
Qed.

Lemma by_node_insert_le k ls m :
  by_node_total lim (by_node_fold (<[k:=ls]> m)) ≤
  by_node_total lim (by_node_fold m) + (if names_pool pool ls then 1 else 0).
Proof.
  rewrite <- insert_delete_eq, by_node_fold_insert by apply lookup_delete_eq.
  pose proof (by_node_step_bounds k ls (by_node_fold (delete k m))).
  pose proof (by_node_delete_le k m). lia.
Qed.

(** Replacing a lease by one that counts alike changes nothing. *)
Lemma by_node_replace k ls ls' m :
  m !! k = Some ls →
  (∀ acc, by_node_step lim pool k ls' acc = by_node_step lim pool k ls acc) →
  by_node_fold (<[k:=ls']> m) = by_node_fold m.
Proof.
  intros Hk Hs. rewrite <- insert_delete_eq, by_node_fold_insert by apply lookup_delete_eq.
  rewrite Hs, <- by_node_fold_insert by apply lookup_delete_eq. by rewrite insert_delete_id.
Qed.
End by_node.

(** ** Usage as a function of the leases alone *)

Definition used_in (o : Options) (lim : string → Z) (m : gmap string Lease) (p : string) : Z :=
  (if HasPrefix p "node:"
   then count (λ _, names_pool p) m +
        count (λ _ ls, le_NodeOverflow ls && String.eqb (le_Node ls) (TrimPrefix p "node:")) m
   else if HasPrefix p "llm:" && optOn (CountPoolByNode o)
   then by_node_total lim (by_node_fold lim p m)
   else count (λ _, names_pool p) m) + external o p.

Lemma used_eq o l p : usedLocked o l p = used_in o (Limit l) (leases l) p.
Proof.
  unfold usedLocked, used_in, overflowLocked, heldLocked, heldByNodeLocked.
  by rewrite length_keys_where.
Qed.

(** Removing leases never raises usage. *)
Lemma used_delete_le o lim m k p : used_in o lim (delete k m) p ≤ used_in o lim m p.
Proof.
  unfold used_in. pose proof (by_node_delete_le lim p k m).
  pose proof (count_delete_le (λ _, names_pool p) m k).
  pose proof (count_delete_le (λ _ ls, le_NodeOverflow ls && String.eqb (le_Node ls) (TrimPrefix p "node:")) m k).
  repeat case_match; lia.
Qed.

(** Storing a lease that is not an overflow lease. *)
Lemma used_insert_le o lim m k ls p :
  le_NodeOverflow ls = false →
  used_in o lim (<[k:=ls]> m) p ≤ used_in o lim m p + (if names_pool p ls then 1 else 0).
Proof.
  intros Hov. unfold used_in. pose proof (by_node_insert_le lim p k ls m).
  pose proof (count_insert_le (λ _, names_pool p) m k ls) as H1.
  pose proof (count_insert_le (λ _ ls, le_NodeOverflow ls && String.eqb (le_Node ls) (TrimPrefix p "node:")) m k ls) as H2.
  simpl in *. rewrite Hov in H2. simpl in H2. repeat case_match; lia.
Qed.

(** Moving an overflow lease into its node's pool. *)
Definition promoted (ls : Lease) : Lease :=
  ls_set_NodeOverflow false (ls_set_Pools (le_Pools ls ++ [node_pool (le_Node ls)]) ls).

Lemma names_pool_promoted p ls :
  names_pool p (promoted ls) = names_pool p ls || String.eqb p (node_pool (le_Node ls)).
Proof.
  apply eq_bool_prop_intro. unfold names_pool, promoted. simpl.
  rewrite orb_True, !bool_decide_spec, elem_of_app, list_elem_of_singleton.
  rewrite Is_true_true, String.eqb_eq. done.
Qed.

Lemma used_promote_le o lim m k ls p :
  m !! k = Some ls → le_NodeOverflow ls = true →
  used_in o lim (<[k:=promoted ls]> m) p ≤ used_in o lim m p.
Proof.
  intros Hk Hov. unfold used_in. rewrite <- insert_delete_eq.
  destruct (HasPrefix p "node:") eqn:Hp.
  - apply HasPrefix_true in Hp as [n ->]. rewrite TrimPrefix_app.
    rewrite !count_insert by apply lookup_delete_eq.
    rewrite (count_delete (λ _, names_pool _) m k ls Hk).
    rewrite (count_delete (λ _ ls, _ && _) m k ls Hk).
    rewrite names_pool_promoted, Hov.
    assert (String.eqb ("node:" +:+ n) (node_pool (le_Node ls)) = String.eqb (le_Node ls) n) as ->.
    { unfold node_pool. destruct (String.eqb_spec (le_Node ls) n) as [->|Hne]; [apply String.eqb_refl|].
      apply String.eqb_neq. intros Heq%(inj (String.app "node:")). by symmetry in Heq. }
    destruct (names_pool _ ls), (String.eqb (le_Node ls) n); cbn; lia.
  - assert (String.eqb p (node_pool (le_Node ls)) = false) as Hne.
    { apply String.eqb_neq. intros ->. unfold node_pool in Hp. by rewrite HasPrefix_app in Hp. }
    assert (names_pool p (promoted ls) = names_pool p ls) as Hnp
      by (by rewrite names_pool_promoted, Hne, orb_false_r).
    case_match.
    + rewrite insert_delete_eq, (by_node_replace _ _ _ ls); [done..|].
      intros [n pn]. unfold by_node_step. simpl.
      assert (sharesPool (le_Pools ls ++ [node_pool (le_Node ls)]) [p] = sharesPool (le_Pools ls) [p]) as ->; [|done].
      apply eq_bool_prop_intro. rewrite !Is_true_true, !sharesPool_single.
      apply String.eqb_neq in Hne. set_solver.
    + rewrite count_insert by apply lookup_delete_eq.
      rewrite (count_delete (λ _, names_pool _) m k ls Hk), Hnp. lia.
Qed.

(** ** Promotion *)

Lemma promote_one_limits o l kv : limits (promote_one o l kv) = limits l.
Proof. unfold promote_one. by repeat case_match. Qed.

Definition promote_at (k : string) (ls : Lease) (l : Ledger) : Ledger :=
  l_set_leases (<[k := promoted ls]> (leases l)) l.

(** What holds before a promotion pass and is kept by moving one overflow lease
    into a pool with room holds after it. *)
Section promote_ind.
Context (o : Options) (I : Ledger → Prop).
Context (Hstep : ∀ l k ls, leases l !! k = Some ls → le_NodeOverflow ls = true →
  (0 < Limit l (node_pool (le_Node ls)) →
    heldLocked l (node_pool (le_Node ls)) + external o (node_pool (le_Node ls)) < Limit l (node_pool (le_Node ls))) →
  I l → I (promote_at k ls l)).

Lemma promote_fold l over :
  NoDup over.*1 →
  (∀ kv, kv ∈ over → leases l !! kv.1 = Some kv.2 ∧ le_NodeOverflow kv.2 = true) →
  I l → I (foldl (promote_one o) l over).
Proof.
  revert l. induction over as [|[k ls] over IH]; intros l Hnd Hin HI; simpl; [done|].
  inversion_clear Hnd as [|?? Hk Hnd'].
  destruct (Hin (k, ls)) as [Hls Hov]; [left|]. simpl in *.
  apply IH; [done|..].
  - intros [k' ls'] Hkv. destruct (Hin (k', ls')) as [H1 H2]; [by right|]. split; [|done].
    assert (k ≠ k') by (intros ->; apply Hk, list_elem_of_fmap; by exists (k', ls')).
    unfold promote_one. simpl in *. rewrite Hls. case_match; [done|]. simpl.
    by rewrite lookup_insert_ne.
  - unfold promote_one. simpl. rewrite Hls. case_match eqn:E; [done|].
    apply Hstep; [done..| |done]. intros Hpos. apply andb_false_iff in E as [E|E]; bools; lia.
Qed.

Lemma promote_ind l : range_ok o → I l → I (promoteOverflowLocked o l).
Proof.
  intros Hr. unfold promoteOverflowLocked. apply promote_fold.
  - rewrite sort_by_perm. apply (sublist_NoDup _ (RangeOrder o (leases l)).*1).
    + rewrite (Hr (leases l)). apply NoDup_fst_map_to_list.
    + apply fmap_sublist, sublist_filter.
  - intros [k ls] Hkv. rewrite elem_of_sort_by in Hkv.
    apply list_elem_of_filter in Hkv as [Hov Hkv]. split; [|done].
    rewrite (Hr (leases l)) in Hkv. by apply elem_of_map_to_list.
Qed.
End promote_ind.

Lemma promote_used_le o l p :
  range_ok o → usedLocked o (promoteOverflowLocked o l) p ≤ usedLocked o l p.
Proof.
  intros Hr. enough (usedLocked o (promoteOverflowLocked o l) p ≤ usedLocked o l p ∧
    limits (promoteOverflowLocked o l) = limits l) as [? _] by done.
  apply (promote_ind o (λ l', usedLocked o l' p ≤ usedLocked o l p ∧ limits l' = limits l)); [|done|done].
  intros l' k ls Hk Hov _ [Hu Hlim]. split; [|done]. etrans; [|exact Hu].
  rewrite !used_eq. by apply used_promote_le.
Qed.

Lemma promote_frame o l :
  let l' := promoteOverflowLocked o l in
  limits l' = limits l ∧ waiters l' = waiters l ∧ seq l' = seq l ∧ lastGrant l' = lastGrant l ∧
  lastModel l' = lastModel l ∧ rates l' = rates l ∧ rateUse l' = rateUse l ∧
  changed l' = changed l ∧ adopting l' = adopting l ∧ adoptSince l' = adoptSince l ∧
  granted l' = granted l.
Proof.
  simpl. unfold promoteOverflowLocked.
  generalize (sort_by (λ a b : string * Lease, Before (le_Acquired a.2) (le_Acquired b.2))
    (filter (λ kv, le_NodeOverflow kv.2 = true) (RangeOrder o (leases l)))).
  intros over. revert l. induction over as [|kv over IH]; intros l; simpl; [done|].
  specialize (IH (promote_one o l kv)). naive_solver (unfold promote_one in *; repeat case_match; done).
Qed.

(** Promotion keeps every holder, and every field but the pools and the flag. *)
Lemma promote_one_lookup o l kv h ls' :
  leases (promote_one o l kv) !! h = Some ls' →
  ∃ ls, leases l !! h = Some ls ∧ (ls' = ls ∨ ls' = promoted ls).
Proof.
  unfold promote_one. destruct (leases l !! kv.1) as [ls|] eqn:E; [|eauto].
  case_match; [eauto|]. simpl. destruct (decide (kv.1 = h)) as [<-|].
  - rewrite lookup_insert_eq. intros [= <-]. eauto.
  - rewrite lookup_insert_ne by done. eauto.
Qed.

(** * Capacity: the abstract placement and its refinement

    [place] says what admission promises, with no state threading, message or
    pruning: a request runs on the first acceptable candidate in rank order,
    and a node or pool is acceptable when every check passes.
    [resolve_refines] shows [resolveLocked] computes exactly this. *)

#[local] Open Scope Z_scope.

(** ** The specification *)

Definition rate_room (l : Ledger) (p : string) (now : Time) : bool :=
  match rates l !! p with
  | None => true
  | Some c =>
      ((rc_Requests c <=? 0) || (sum_reqs (window l p c now) <? rc_Requests c)) &&
      ((rc_Tokens c <=? 0) || (sum_toks (window l p c now) <? rc_Tokens c))
  end.

Definition pool_ok (o : Options) (l : Ledger) (inter : bool) (p : string) : bool :=
  negb (pool_full o l p) && rate_room l p (Now o) && String.eqb (hooks_reason o l inter p) "".

Definition bind_node (l : Ledger) (req : Request) (n : string) : Request :=
  withNodePool req n (ledgerNodePoolLocked l (rq_Role req) n).

Definition headroom_ok (o : Options) (req : Request) (n : string) : bool :=
  if String.eqb (rq_Role req) RoleVerifier
  then match VerifierHeadroom o with Some h => negb (h n).1 | None => true end
  else true.

Definition pools_ok (o : Options) (l : Ledger) (req : Request) : bool :=
  forallb (pool_ok o l (rq_Interactive req)) (rq_Pools req).

Definition cand_ok (o : Options) (l : Ledger) (req : Request) (n : string) : bool :=
  (nodeGateLocked o n (rq_Consumer req)).1 && headroom_ok o req n && pools_ok o l (bind_node l req n).

Definition place (o : Options) (l : Ledger) (req : Request) : option Request :=
  if negb (adoption_clear o l) then None
  else if multiNode req
  then bind_node l req <$> List.find (cand_ok o l req) (nc_Name <$> rankedLocked o l req)
  else
    let r := swapVerifierNodePoolLocked l req (rq_Node req) in
    if (single_gate o req).1 && pools_ok o l r then Some r else None.

(** ** The checks look only at the core *)

Lemma sum_reqs_acc es a : foldl (λ n e, n + re_Req e) a es = a + sum_reqs es.
Proof.
  unfold sum_reqs. revert a. induction es as [|e es IH]; intros a; simpl; [lia|].
  rewrite IH, (IH (0 + re_Req e)). lia.
Qed.

Lemma sum_reqs_cons e es : sum_reqs (e :: es) = re_Req e + sum_reqs es.
Proof. unfold sum_reqs at 1. simpl. apply sum_reqs_acc. Qed.

Lemma sum_reqs_app es es' : sum_reqs (es ++ es') = sum_reqs es + sum_reqs es'.
Proof. induction es as [|e es IH]; [done|]. simpl. rewrite !sum_reqs_cons, IH. lia. Qed.

#[export] Instance sum_reqs_perm : Proper ((≡ₚ) ==> (=)) sum_reqs.
Proof. induction 1; rewrite ?sum_reqs_cons; lia. Qed.

(** The wrapped token total is the exact total, wrapped once. *)
Definition exact_toks (es : list rateEntry) : Z := foldr (λ e n, re_Tok e + n) 0 es.

Lemma wrap64_add a b : wrap64 (wrap64 a + b) = wrap64 (a + b).
Proof.
  unfold wrap64. replace ((a + 2 ^ 63) `mod` 2 ^ 64 - 2 ^ 63 + b + 2 ^ 63)
    with ((a + 2 ^ 63) `mod` 2 ^ 64 + b) by lia.
  rewrite Zplus_mod_idemp_l. do 2 f_equal. lia.
Qed.

Lemma sum_toks_exact es : sum_toks es = wrap64 (exact_toks es).
Proof.
  assert (∀ a, foldl (λ n e, wrap64 (n + re_Tok e)) (wrap64 a) es = wrap64 (a + exact_toks es)) as H.
  { induction es as [|e es IH]; intros a; simpl; [f_equal; lia|].
    rewrite wrap64_add, IH. f_equal. lia. }
  unfold sum_toks. exact (H 0).
Qed.

#[export] Instance sum_toks_perm : Proper ((≡ₚ) ==> (=)) sum_toks.
Proof.
  intros es es' Hp. rewrite !sum_toks_exact. f_equal.
  induction Hp; simpl; lia.
Qed.

Section core.
Context {o : Options} {l l' : Ledger} (Hc : same_core o l l').

Lemma rate_room_core p : rate_room l' p (Now o) = rate_room l p (Now o).
Proof.
  unfold rate_room. rewrite (sc_rates _ _ _ Hc). destruct (rates l !! p) as [c|] eqn:E; [|done].
  by rewrite (sc_window _ _ _ Hc p c E).
Qed.

Lemma pool_ok_core inter p : pool_ok o l' inter p = pool_ok o l inter p.
Proof.
  unfold pool_ok. by rewrite (pool_full_same_core Hc), rate_room_core, (hooks_same_core Hc).
Qed.

Lemma pools_ok_core r : pools_ok o l' r = pools_ok o l r.
Proof.
  unfold pools_ok. induction (rq_Pools r) as [|p ps IH]; [done|]. simpl. by rewrite pool_ok_core, IH.
Qed.

Lemma ledgerNodePool_core role n : ledgerNodePoolLocked l' role n = ledgerNodePoolLocked l role n.
Proof. unfold ledgerNodePoolLocked. by rewrite (Limit_same_core Hc). Qed.

Lemma bind_node_core req n : bind_node l' req n = bind_node l req n.
Proof. unfold bind_node. by rewrite ledgerNodePool_core. Qed.

Lemma cand_ok_core req n : cand_ok o l' req n = cand_ok o l req n.
Proof. unfold cand_ok. by rewrite bind_node_core, pools_ok_core. Qed.

Lemma swap_core req n : swapVerifierNodePoolLocked l' req n = swapVerifierNodePoolLocked l req n.
Proof. unfold swapVerifierNodePoolLocked. by rewrite (Limit_same_core Hc). Qed.

Lemma ranked_core req : rankedLocked o l' req = rankedLocked o l req.
Proof.
  apply sort_by_ext. intros a b. unfold ranked_less, node_load.
  by rewrite !(Limit_same_core Hc), !(used_same_core Hc).
Qed.

Lemma place_core req : place o l' req = place o l req.
Proof.
  unfold place. rewrite (adoption_same_core Hc), ranked_core, swap_core.
  rewrite pools_ok_core, (find_ext _ _ _ (cand_ok_core req)).
  destruct (List.find _ _); simpl; [|done]. by rewrite bind_node_core.
Qed.
End core.

(** ** The code against the specification *)

Lemma full_reason_ne o l p lim : full_reason o l p lim ≠ "".
Proof. unfold full_reason. repeat case_match; by intros [=]. Qed.

Lemma rate_dim_msg_empty pool c es name used ceil val :
  rate_dim_msg pool c es name used ceil val = "" ↔ (ceil <=? 0) || (used <? ceil) = true.
Proof. unfold rate_dim_msg. repeat case_match; split; try done; by intros [=]. Qed.

Lemma rateBlock_empty o l p : (rateBlockLocked l p (Now o)).2 = "" ↔ rate_room l p (Now o) = true.
Proof.
  unfold rateBlockLocked, rate_room, rateWindowLocked, window.
  destruct (rates l !! p) as [c|]; [|done].
  set (es := in_window c (Now o) (default [] (rateUse l !! p))).
  rewrite andb_true_iff. case_match eqn:E; simpl.
  - apply nonempty_true in E. split; [done|]. intros [H _]. destruct E. by apply rate_dim_msg_empty.
  - apply nonempty_false, rate_dim_msg_empty in E. rewrite rate_dim_msg_empty. naive_solver.
Qed.

Lemma block_pool_empty o l inter p : (block_pool o l inter p).2 = "" ↔ pool_ok o l inter p = true.
Proof.
  unfold block_pool, pool_ok. destruct (pool_full o l p) eqn:Hf; simpl.
  { split; [intros H; by apply full_reason_ne in H|done]. }
  pose proof (rateBlock_empty o l p) as Hrb. pose proof (rateBlock_core o l p) as Hcore.
  destruct (rateBlockLocked l p (Now o)) as [l1 why]. simpl in *.
  rewrite andb_true_iff, <- Hrb, String.eqb_eq. case_match eqn:E; simpl.
  - apply nonempty_true in E. naive_solver.
  - apply nonempty_false in E. rewrite (hooks_same_core Hcore). naive_solver.
Qed.

Lemma block_loop_empty o l inter ps :
  (block_loop o l inter ps).2 = "" ↔ forallb (pool_ok o l inter) ps = true.
Proof.
  revert l. induction ps as [|p ps IH]; intros l; simpl; [done|].
  pose proof (block_pool_empty o l inter p) as Hb. pose proof (block_pool_core o l inter p) as Hcore.
  destruct (block_pool o l inter p) as [l1 why]. simpl in *.
  rewrite andb_true_iff, <- Hb. case_match eqn:E; simpl.
  - apply nonempty_true in E. naive_solver.
  - apply nonempty_false in E. rewrite IH.
    assert (forallb (pool_ok o l1 inter) ps = forallb (pool_ok o l inter) ps) as ->; [|naive_solver].
    clear IH. induction ps as [|q qs IH]; [done|]. simpl. by rewrite (pool_ok_core Hcore), IH.
Qed.

Lemma blockReason_empty o l req : (blockReasonLocked o l req).2 = "" ↔ pools_ok o l req = true.
Proof. apply block_loop_empty. Qed.

Lemma try_candidate_spec o l req n :
  if cand_ok o l req n
  then (try_candidate o l req n).2 = inl (bind_node l req n)
  else ∃ part g, (try_candidate o l req n).2 = inr (part, g).
Proof.
  unfold cand_ok, try_candidate, headroom_ok. fold (bind_node l req n).
  destruct (nodeGateLocked o n (rq_Consumer req)) as [ok why]. simpl.
  destruct ok; simpl; [|by eauto].
  pose proof (blockReason_empty o l (bind_node l req n)) as Hb.
  destruct (blockReasonLocked o l (bind_node l req n)) as [l1 why1]. simpl in Hb.
  assert (nonempty why1 = negb (pools_ok o l (bind_node l req n))) as Hne.
  { destruct (pools_ok o l (bind_node l req n)) eqn:Hp; simpl.
    - by apply nonempty_false, Hb.
    - apply nonempty_true. intros ->. by assert (false = true) by (by apply Hb). }
  rewrite Hne.
  destruct (String.eqb (rq_Role req) RoleVerifier); [destruct (VerifierHeadroom o) as [h|]|];
    [destruct (h n) as [b w]; destruct b|..]; simpl;
    destruct (pools_ok o l (bind_node l req n)); simpl; eauto.
Qed.

Lemma resolve_loop_spec o l req names parts g :
  match List.find (cand_ok o l req) names with
  | Some n => (resolve_loop o l req names parts g).2 = inl (bind_node l req n)
  | None => ∃ ps k, (resolve_loop o l req names parts g).2 = inr (ps, k)
  end.
Proof.
  revert l parts g. induction names as [|n ns IH]; intros l parts g; simpl; [by eauto|].
  pose proof (try_candidate_spec o l req n) as Ht. pose proof (try_candidate_core o l req n) as Hcore.
  destruct (try_candidate o l req n) as [l1 r]. simpl in *.
  destruct (cand_ok o l req n); [by rewrite Ht|].
  destruct Ht as (part & bg & ->).
  specialize (IH l1 (parts ++ [part]) (if bg then g + 1 else g)).
  rewrite (find_ext _ _ _ (cand_ok_core Hcore req)) in IH. case_match; [|done]. by rewrite IH, (bind_node_core Hcore).
Qed.

Lemma adoptionPending_empty o l : (adoptionPendingLocked o l).2 = "" ↔ adoption_clear o l = true.
Proof.
  unfold adoptionPendingLocked, adoption_clear. repeat (case_match; simpl; try done).
Qed.

(** What it is for a code path to compute [p]: the bound request and an empty
    reason, or some reason to wait. *)
Definition computes (res : Ledger * Request * string) (p : option Request) : Prop :=
  match p with
  | Some bound => res.1.2 = bound ∧ res.2 = ""
  | None => res.2 ≠ ""
  end.

Lemma resolve_single_spec o l req :
  computes (resolve_single o l req)
    (let r := swapVerifierNodePoolLocked l req (rq_Node req) in
     if (single_gate o req).1 && pools_ok o l r then Some r else None).
Proof.
  unfold resolve_single. destruct (single_gate o req) as [[] why]; simpl; [|by intros [=]].
  set (r := swapVerifierNodePoolLocked l req (rq_Node req)).
  pose proof (blockReason_empty o l r) as Hb.
  destruct (blockReasonLocked o l r) as [l1 why1]. simpl in Hb |- *.
  destruct (pools_ok o l r); simpl; [by split; [|apply Hb]|]. intros ->. discriminate (proj1 Hb eq_refl).
Qed.

Lemma resolve_multi_spec o l req :
  computes (resolve_multi o l req)
    (bind_node l req <$> List.find (cand_ok o l req) (nc_Name <$> rankedLocked o l req)).
Proof.
  unfold resolve_multi. set (names := nc_Name <$> rankedLocked o l req).
  pose proof (resolve_loop_spec o l req names [] 0) as Hl. clearbody names.
  destruct names as [|n ns]; [simpl; by intros [=]|]. set (names := n :: ns) in *.
  destruct (resolve_loop o l req names [] 0) as [l1 r].
  destruct (List.find (cand_ok o l req) names); cbn [snd] in Hl.
  - by rewrite Hl.
  - destruct Hl as (ps & k & ->). simpl. by intros [=].
Qed.

(** [resolveLocked] computes [place]. *)
Lemma resolve_computes o l req : computes (resolveLocked o l req) (place o l req).
Proof.
  unfold place, resolveLocked.
  pose proof (adoptionPending_empty o l) as Ha. pose proof (adoptionPending_core o l) as Hcore.
  destruct (adoptionPendingLocked o l) as [l0 why0]. simpl in Ha, Hcore.
  destruct (adoption_clear o l); simpl.
  - rewrite (proj2 Ha eq_refl). simpl.
    destruct (multiNode req); simpl.
    + pose proof (resolve_multi_spec o l0 req) as Hm.
      rewrite (ranked_core Hcore), (find_ext _ _ _ (cand_ok_core Hcore req)) in Hm.
      destruct (List.find _ _); simpl in *; [|done]. by rewrite <- (bind_node_core Hcore).
    + pose proof (resolve_single_spec o l0 req) as Hs.
      cbv zeta in Hs. by rewrite (pools_ok_core Hcore), (swap_core Hcore) in Hs.
  - assert (why0 ≠ "") as Hne by (intros ->; discriminate (proj1 Ha eq_refl)).
    by rewrite (proj2 (nonempty_true why0) Hne).
Qed.
