(* ===== verification/CapacityPass.v ===== *)
(** * Capacity: reasoning about a dispatch pass

    What a grant changes, and the induction principles the capacity theorems
    share: [dispatch_ind] for facts that do not look at the queue, and
    [dispatch_loop_ind] for those that do. *)

From S2P Require Import Prelude GoBase CapacityLedger CapacityResolve.
From S2P Require Import CapacityPlace.

#[local] Open Scope Z_scope.

(** ** Recording requests touches the rate windows only *)

Lemma record_frame now l ps :
  ∃ ru, recordRequestsLocked ps now l = l_set_rateUse ru l.
Proof.
  unfold recordRequestsLocked. revert l. induction ps as [|p ps IH]; intros l; simpl.
  - exists (rateUse l). by destruct l.
  - destruct (IH (record_request now l p)) as [ru ->]. exists ru.
    unfold record_request. by repeat case_match.
Qed.

Lemma grant_frame w req now l :
  let l' := grantLocked w req now l in
  limits l' = limits l ∧ leases l' = <[rq_Holder req := lease_of_request req now]> (leases l) ∧
  waiters l' = remove_waiter (w_seq w) (waiters l) ∧ seq l' = seq l ∧ rates l' = rates l ∧
  changed l' = changed l ∧ adopting l' = adopting l ∧ adoptSince l' = adoptSince l ∧
  granted l' = <[w_seq w := w_set_reason "" w]> (granted l).
Proof.
  simpl. unfold grantLocked.
  destruct (record_frame now (l_set_lastGrant (<[rq_PRDID req:=now]> (lastGrant l))
    (l_set_leases (<[rq_Holder req:=lease_of_request req now]> (leases l)) l)) (rq_Pools req)) as [ru Hru].
  simpl in Hru. rewrite Hru. by case_match.
Qed.

Section grant.
Context (w : waiter) (req : Request) (now : Time) (l : Ledger).
Let l' := grantLocked w req now l.

Lemma grant_limits : limits l' = limits l.
Proof. apply (grant_frame w req now l). Qed.
Lemma grant_leases : leases l' = <[rq_Holder req := lease_of_request req now]> (leases l).
Proof. apply (grant_frame w req now l). Qed.
Lemma grant_waiters : waiters l' = remove_waiter (w_seq w) (waiters l).
Proof. apply (grant_frame w req now l). Qed.
Lemma grant_granted : granted l' = <[w_seq w := w_set_reason "" w]> (granted l).
Proof. apply (grant_frame w req now l). Qed.
Lemma grant_rates : rates l' = rates l.
Proof. apply (grant_frame w req now l). Qed.
Lemma grant_adoption o : adoption_clear o l' = adoption_clear o l.
Proof.
  destruct (grant_frame w req now l) as (_&_&_&_&_&_&Ha&Hs&_). unfold adoption_clear, l'.
  by rewrite Ha, Hs.
Qed.
Lemma grant_Limit p : Limit l' p = Limit l p.
Proof. unfold Limit. pose proof grant_limits as E. unfold l' in *. by rewrite E. Qed.
End grant.

(** A bound request has passed every pool check where it is granted. *)
Lemma place_pools_ok o l req bound : place o l req = Some bound → pools_ok o l bound = true.
Proof.
  unfold place. destruct (adoption_clear o l); [|done]. simpl. destruct (multiNode req).
  - destruct (List.find _ _) as [n|] eqn:E; simpl; [|done]. intros [= <-].
    apply find_some in E as [_ E]. unfold cand_ok in E. by bools.
  - case_match eqn:E; [|done]. intros [= <-]. by bools.
Qed.

Lemma pools_ok_elem o l req p :
  pools_ok o l req = true → p ∈ rq_Pools req → pool_ok o l (rq_Interactive req) p = true.
Proof. unfold pools_ok. rewrite forallb_forall. setoid_rewrite <- list_elem_of_In. auto. Qed.

Lemma pool_ok_room o l inter p :
  pool_ok o l inter p = true → 0 < Limit l p → usedLocked o l p < Limit l p.
Proof. unfold pool_ok, pool_full. intros. bools. apply andb_false_iff in H as [H|H]; bools; lia. Qed.

Lemma place_room o l req bound p :
  place o l req = Some bound → p ∈ rq_Pools bound → 0 < Limit l p → usedLocked o l p < Limit l p.
Proof.
  intros Hp Hin. eapply pool_ok_room, pools_ok_elem; [|done]. by eapply place_pools_ok.
Qed.

(** The bound request is the waiter's own, placed. *)
Lemma swap_fields l req n :
  rq_Holder (swapVerifierNodePoolLocked l req n) = rq_Holder req ∧
  rq_PRDID (swapVerifierNodePoolLocked l req n) = rq_PRDID req ∧
  rq_Model (swapVerifierNodePoolLocked l req n) = rq_Model req ∧
  rq_Role (swapVerifierNodePoolLocked l req n) = rq_Role req.
Proof. unfold swapVerifierNodePoolLocked. by repeat case_match. Qed.

Lemma place_fields o l req bound :
  place o l req = Some bound →
  rq_Holder bound = rq_Holder req ∧ rq_PRDID bound = rq_PRDID req ∧
  rq_Model bound = rq_Model req ∧ rq_Role bound = rq_Role req.
Proof.
  unfold place. destruct (adoption_clear o l); [|done]. simpl. destruct (multiNode req).
  - destruct (List.find _ _) as [n|]; simpl; [|done]. by intros [= <-].
  - case_match; [|done]. intros [= <-]. apply swap_fields.
Qed.

Lemma place_set_waiters o l ws req : place o (l_set_waiters ws l) req = place o l req.
Proof. done. Qed.

(** ** One waiter of the pass, by what [place] says *)

Lemma dispatch_one_cases o l w :
  ∃ l1 why, same_core o l l1 ∧
  let l2 := l_set_waiters (set_reason (w_seq w) why (waiters l1)) l1 in
  match place o l (w_req w) with
  | Some bound => why = "" ∧ place o l2 (w_req w) = Some bound ∧
                  dispatch_one o (Now o) l w = grantLocked w bound (Now o) l2
  | None => why ≠ "" ∧ dispatch_one o (Now o) l w = l2
  end.
Proof.
  unfold dispatch_one. pose proof (resolve_core o l (w_req w)) as Hc.
  pose proof (resolve_computes o l (w_req w)) as Hp.
  destruct (resolveLocked o l (w_req w)) as [[l1 b] why]. simpl in Hc, Hp.
  exists l1, why. split; [done|]. destruct (place o l (w_req w)) as [bound|] eqn:E; simpl in Hp.
  - destruct Hp as [-> ->]. split; [done|]. split; [|done].
    rewrite place_set_waiters, (place_core Hc). done.
  - split; [done|]. by rewrite (proj2 (nonempty_true why) Hp).
Qed.

(** ** Induction over a pass *)

(** The waiters a pass runs through, in grant order: the queue, refreshed. *)
Definition pass_queue (o : Options) (l : Ledger) : Ledger :=
  let l := promoteOverflowLocked o l in
  l_set_waiters (refreshWaiterLocked o <$> waiters l) l.

Lemma pass_queue_waiters o l : waiters (pass_queue o l) = refreshWaiterLocked o <$> waiters l.
Proof.
  unfold pass_queue. simpl. destruct (promote_frame o l) as (_ & Hw & _). simpl in Hw. by rewrite Hw.
Qed.

Lemma elem_of_order o l now w : w ∈ orderLocked o l now ↔ w ∈ waiters l.
Proof. unfold orderLocked, orderListLocked. apply elem_of_sort_by. Qed.

(** The pass is one fold over the ordered, refreshed queue. *)
Lemma l_set_waiters_id l : waiters l = [] → l_set_waiters [] l = l.
Proof. destruct l. simpl. by intros ->. Qed.

Lemma dispatch_eq o l :
  dispatchLocked o l =
  foldl (dispatch_one o (Now o)) (pass_queue o l) (orderLocked o (pass_queue o l) (Now o)).
Proof.
  unfold dispatchLocked, pass_queue. simpl.
  destruct (waiters (promoteOverflowLocked o l)) eqn:E; [|done].
  simpl. by rewrite l_set_waiters_id.
Qed.

Section dispatch_ind.
Context (o : Options) (l0 : Ledger) (I : Ledger → Prop).
Context (Hprom : ∀ l k ls, leases l !! k = Some ls → le_NodeOverflow ls = true →
  (0 < Limit l (node_pool (le_Node ls)) →
    heldLocked l (node_pool (le_Node ls)) + external o (node_pool (le_Node ls)) < Limit l (node_pool (le_Node ls))) →
  I l → I (promote_at k ls l)).
Context (Hcore : ∀ l l', same_core o l l' → I l → I l').
Context (Hws : ∀ ws l, I l → I (l_set_waiters ws l)).
Context (Hgrant : ∀ l w bound, w ∈ (refreshWaiterLocked o <$> waiters l0) →
  place o l (w_req w) = Some bound → I l → I (grantLocked w bound (Now o) l)).

Lemma dispatch_one_ind l w :
  w ∈ (refreshWaiterLocked o <$> waiters l0) → I l → I (dispatch_one o (Now o) l w).
Proof.
  intros Hin HI. destruct (dispatch_one_cases o l w) as (l1 & why & Hc & H).
  destruct (place o l (w_req w)) as [bound|]; simpl in H.
  - destruct H as (_ & Hp & ->). apply Hgrant; [done..|]. eauto.
  - destruct H as (_ & ->). eauto.
Qed.

Lemma dispatch_ind : range_ok o → I l0 → I (dispatchLocked o l0).
Proof.
  intros Hr HI. rewrite dispatch_eq. apply foldl_invariant.
  - intros l w Hw. apply dispatch_one_ind. by rewrite elem_of_order, pass_queue_waiters in Hw.
  - apply Hws. by apply (promote_ind o I Hprom).
Qed.
End dispatch_ind.

(** Induction with the waiters still to come: each either waits on, its reason
    recorded, or is granted what [place] says. *)
Section dispatch_loop.
Context (o : Options) (J : list waiter → Ledger → Prop).
Context (Hwait : ∀ w ws l l1 why, same_core o l l1 → place o l (w_req w) = None → why ≠ "" →
  J (w :: ws) l → J ws (l_set_waiters (set_reason (w_seq w) why (waiters l)) l1)).
Context (Hgrant : ∀ w ws l l1 bound, same_core o l l1 → place o l (w_req w) = Some bound →
  J (w :: ws) l →
  J ws (grantLocked w bound (Now o) (l_set_waiters (set_reason (w_seq w) "" (waiters l)) l1))).

Lemma dispatch_loop_ind ws l : J ws l → J [] (foldl (dispatch_one o (Now o)) l ws).
Proof.
  revert l. induction ws as [|w ws IH]; intros l HJ; simpl; [done|]. apply IH.
  destruct (dispatch_one_cases o l w) as (l1 & why & Hc & H).
  rewrite (sc_waiters _ _ _ Hc) in H.
  destruct (place o l (w_req w)) as [bound|] eqn:E; simpl in H.
  - destruct H as (-> & _ & ->). by apply Hgrant.
  - destruct H as (? & ->). by apply Hwait.
Qed.
End dispatch_loop.

(** Facts that do not depend on usage at all. *)
Lemma dispatch_limits o l : limits (dispatchLocked o l) = limits l.
Proof.
  unfold dispatchLocked. destruct (promote_frame o l) as (Hl & Hw & _). simpl in *.
  destruct (waiters (promoteOverflowLocked o l)); [done|].
  apply (foldl_invariant (λ l', limits l' = limits l)); [|done].
  intros l' w' _ H. destruct (dispatch_one_cases o l' w') as (l1 & why & Hc & Hd).
  destruct (place o l' (w_req w')); [destruct Hd as (_&_&->); rewrite grant_limits|destruct Hd as (_&->)];
    simpl; by rewrite (sc_limits _ _ _ Hc).
Qed.

Lemma dispatch_Limit o l p : Limit (dispatchLocked o l) p = Limit l p.
Proof. unfold Limit. by rewrite dispatch_limits. Qed.

(** ** Usage across a grant *)

Lemma grant_used_le o l w req now p :
  usedLocked o (grantLocked w req now l) p ≤
  usedLocked o l p + (if bool_decide (p ∈ rq_Pools req) then 1 else 0).
Proof.
  rewrite !used_eq, grant_leases.
  replace (Limit (grantLocked w req now l)) with (Limit l) by (unfold Limit; by rewrite grant_limits).
  by apply used_insert_le.
Qed.

(** No pass takes a limited pool over its limit: usage rises only below it. *)
Lemma dispatch_used_le o l p :
  range_ok o → 0 < Limit l p →
  usedLocked o (dispatchLocked o l) p ≤ Z.max (usedLocked o l p) (Limit l p).
Proof.
  intros Hr Hlim.
  enough (usedLocked o (dispatchLocked o l) p ≤ Z.max (usedLocked o l p) (Limit l p) ∧
    limits (dispatchLocked o l) = limits l) as [? _] by done.
  apply (dispatch_ind o l (λ l', usedLocked o l' p ≤ Z.max (usedLocked o l p) (Limit l p) ∧ limits l' = limits l));
    [| | | |done|split; [lia|done]].
  - intros l' k ls Hk Hov _ [Hu Hl]. split; [|done]. etrans; [|exact Hu].
    rewrite !used_eq. by apply used_promote_le.
  - intros l1 l2 Hc [Hu Hl]. rewrite (used_same_core Hc), (sc_limits _ _ _ Hc). done.
  - intros ws l' [Hu Hl]. split; [|done]. by rewrite (used_core o l').
  - intros l' w bound _ Hp [Hu Hl]. rewrite grant_limits. split; [|done].
    assert (Limit l' p = Limit l p) as HL by (unfold Limit; by rewrite Hl).
    etrans; [apply grant_used_le|]. case_bool_decide as Hin; [|lia].
    pose proof (place_room o l' (w_req w) bound p Hp Hin). lia.
Qed.

(** What a node pool reads: its holders and the outside work, not the overflow. *)
Definition reads (o : Options) (l : Ledger) (p : string) : Z := heldLocked l p + external o p.

Lemma reads_le_used o l p : HasPrefix p "llm:" = false → reads o l p ≤ usedLocked o l p.
Proof. unfold reads, usedLocked. intros ->. simpl. case_match; lia. Qed.

Lemma held_names l p : heldLocked l p = count (λ _, names_pool p) (leases l).
Proof. done. Qed.

Lemma held_insert_le l p k ls :
  heldLocked (l_set_leases (<[k:=ls]> (leases l)) l) p ≤ heldLocked l p + (if names_pool p ls then 1 else 0).
Proof.
  unfold heldLocked, names_pool. rewrite Z.add_comm.
  apply (count_insert_le (λ _ ls, bool_decide (p ∈ le_Pools ls))).
Qed.

Lemma dispatch_reads_le o l p :
  range_ok o → HasPrefix p "llm:" = false → 0 < Limit l p →
  reads o (dispatchLocked o l) p ≤ Z.max (reads o l p) (Limit l p).
Proof.
  intros Hr Hllm Hlim.
  enough (reads o (dispatchLocked o l) p ≤ Z.max (reads o l p) (Limit l p) ∧
    limits (dispatchLocked o l) = limits l) as [? _] by done.
  apply (dispatch_ind o l (λ l', reads o l' p ≤ Z.max (reads o l p) (Limit l p) ∧ limits l' = limits l));
    [| | | |done|split; [lia|done]].
  - intros l' k ls Hk Hov Hroom [Hu Hl]. split; [|done].
    assert (Limit l' p = Limit l p) as HL by (unfold Limit; by rewrite Hl). unfold reads in *.
    destruct (String.eqb_spec p (node_pool (le_Node ls))) as [->|Hne].
    + pose proof (held_insert_le l' (node_pool (le_Node ls)) k (promoted ls)).
      unfold promote_at. specialize (Hroom ltac:(lia)). destruct (names_pool _ (promoted ls)); lia.
    + assert (heldLocked (promote_at k ls l') p = heldLocked l' p) as ->; [|lia].
      rewrite !held_names. unfold promote_at. simpl.
      rewrite <- insert_delete_eq, count_insert by apply lookup_delete_eq.
      rewrite (count_delete _ (leases l') k ls Hk), names_pool_promoted.
      apply String.eqb_neq in Hne. by rewrite Hne, orb_false_r.
  - intros l1 l2 Hc [Hu Hl]. unfold reads in *. rewrite (held_same_core Hc), (sc_limits _ _ _ Hc). done.
  - done.
  - intros l' w bound _ Hp [Hu Hl]. rewrite grant_limits. split; [|done].
    assert (Limit l' p = Limit l p) as HL by (unfold Limit; by rewrite Hl). unfold reads in *.
    assert (heldLocked (grantLocked w bound (Now o) l') p ≤
      heldLocked l' p + (if bool_decide (p ∈ rq_Pools bound) then 1 else 0)).
    { unfold heldLocked. rewrite grant_leases.
      pose proof (held_insert_le l' p (rq_Holder bound) (lease_of_request bound (Now o))) as H.
      unfold heldLocked, names_pool in H. simpl in H. lia. }
    case_bool_decide as Hin; [|lia].
    pose proof (place_room o l' (w_req w) bound p Hp Hin).
    pose proof (reads_le_used o l' p Hllm). unfold reads in *. lia.
Qed.

(** ** Rate windows across a grant *)

(** A pool whose ceiling counts requests. *)
Definition counts_requests (l : Ledger) (p : string) : bool :=
  match rates l !! p with Some c => 0 <? rc_Requests c | None => false end.

Definition occurrences (p : string) (ps : list string) : nat := length (filter (λ q, q = p) ps).

Lemma record_use now ps l p :
  default [] (rateUse (recordRequestsLocked ps now l) !! p) =
  default [] (rateUse l !! p) ++
    (if counts_requests l p then replicate (occurrences p ps) (mkRateEntry now 1 0) else []).
Proof.
  unfold recordRequestsLocked. revert l. induction ps as [|q ps IH]; intros l; simpl.
  { case_match; by rewrite app_nil_r. }
  rewrite IH. assert (counts_requests (record_request now l q) p = counts_requests l p) as ->.
  { unfold counts_requests. assert (rates (record_request now l q) = rates l) as ->; [|done].
    unfold record_request. by repeat case_match. }
  unfold occurrences, record_request. rewrite filter_cons.
  destruct (decide (q = p)) as [->|Hne].
  - unfold counts_requests. destruct (rates l !! p) as [c|]; [|done]. destruct (0 <? rc_Requests c); [|done].
    simpl. rewrite lookup_insert_eq. simpl. by rewrite <- app_assoc.
  - f_equal. destruct (rates l !! q) as [c|]; [|done]. destruct (0 <? rc_Requests c); [|done].
    simpl. by rewrite lookup_insert_ne.
Qed.

Lemma grant_use w req now l p :
  default [] (rateUse (grantLocked w req now l) !! p) =
  default [] (rateUse l !! p) ++
    (if counts_requests l p then replicate (occurrences p (rq_Pools req)) (mkRateEntry now 1 0) else []).
Proof.
  unfold grantLocked.
  set (l2 := l_set_lastGrant _ _).
  change (rateUse l) with (rateUse l2). change (counts_requests l p) with (counts_requests l2 p).
  rewrite <- record_use. simpl. by case_match.
Qed.

Lemma in_window_app c now es es' : in_window c now (es ++ es') = in_window c now es ++ in_window c now es'.
Proof. apply filter_app. Qed.

Lemma in_window_new c now k :
  0 < rc_Window c → in_window c now (replicate k (mkRateEntry now 1 0)) = replicate k (mkRateEntry now 1 0).
Proof.
  intros Hw. unfold in_window. induction k as [|k IH]; [done|]. simpl.
  rewrite filter_cons_True; [by rewrite IH|]. unfold After, Add. simpl. apply Z.ltb_lt. lia.
Qed.

Lemma sum_reqs_new now k : sum_reqs (replicate k (mkRateEntry now 1 0)) = Z.of_nat k.
Proof. induction k as [|k IH]; [done|]. simpl replicate. rewrite sum_reqs_cons, IH. simpl. lia. Qed.

Lemma sum_toks_app_new es now k : sum_toks (es ++ replicate k (mkRateEntry now 1 0)) = sum_toks es.
Proof.
  rewrite !sum_toks_exact. f_equal. induction es as [|e es IH]; simpl; [|lia].
  induction k; simpl; lia.
Qed.

(** Each granted mention of a counting pool adds one request to its window. *)
Lemma grant_window w req l o p c :
  rates l !! p = Some c → 0 < rc_Window c →
  window (grantLocked w req (Now o) l) p c (Now o) =
  window l p c (Now o) ++
    (if counts_requests l p then replicate (occurrences p (rq_Pools req)) (mkRateEntry (Now o) 1 0) else []).
Proof.
  intros Hc Hw. unfold window. rewrite grant_use, in_window_app. f_equal.
  case_match; [by rewrite in_window_new|done].
Qed.
