(* ===== verification/CapacityOps.v ===== *)
(** * Capacity: the ledger's public operations

    Each exported method of internal/capacity/ledger.go and rate_ceiling.go as
    one function on the ledger: it runs under one hold of the mutex (Reap and
    Acquire under several, which are separate functions here). Acquire's wait
    loop is [acquire_step], one select of the loop per event. *)

From S2P Require Import Prelude GoBase CapacityLedger CapacityResolve.

#[local] Open Scope Z_scope.

(** ** Limits, rates, adoption hold *)

Definition SetLimit (o : Options) (pool : string) (limit : Z) (l : Ledger) : Ledger :=
  let l := if limit <=? 0 then l_set_limits (delete pool (limits l)) l
           else l_set_limits (<[pool := limit]> (limits l)) l in
  dispatchLocked o (signalChangedLocked l).

Definition SetRate (o : Options) (pool : string) (c : RateCeiling) (l : Ledger) : Ledger :=
  let l := if negb (active c)
           then l_set_rateUse (delete pool (rateUse l)) (l_set_rates (delete pool (rates l)) l)
           else l_set_rates (<[pool := c]> (rates l)) l in
  dispatchLocked o (signalChangedLocked l).

Definition RateOf (l : Ledger) (pool : string) : RateCeiling :=
  default (mkRateCeiling 0 0 0) (rates l !! pool).

Definition RecordTokens (o : Options) (pool : string) (n : Z) (l : Ledger) : Ledger :=
  if n <=? 0 then l
  else match rates l !! pool with
       | None => l
       | Some _ =>
           dispatchLocked o
             (l_set_rateUse (<[pool := default [] (rateUse l !! pool) ++ [mkRateEntry (Now o) 0 n]]> (rateUse l)) l)
       end.

Definition RateResetAt (o : Options) (pool : string) (l : Ledger) : Ledger * option Time :=
  rateResetLocked l pool (Now o).

Definition BeginAdoption (o : Options) (l : Ledger) : Ledger :=
  if negb (optOn (AdoptBeforeAdmit o)) then l
  else l_set_adoptSince (Now o) (l_set_adopting true l).

Definition MarkAdoptionComplete (o : Options) (l : Ledger) : Ledger :=
  if negb (adopting l) then l
  else dispatchLocked o (signalChangedLocked (l_set_adopting false l)).

Definition Replan (o : Options) (l : Ledger) : Ledger := dispatchLocked o (signalChangedLocked l).

Definition WouldGrant (o : Options) (req : Request) (l : Ledger) : Ledger * bool :=
  let '(l, _, why) := resolveLocked o l (withoutStaleNode (apply_refresh o req)) in
  (l, String.eqb why "").

(** ** Acquire *)

Inductive acquire_start :=
| AcquireHeld              (* the holder already has a lease: nil at once *)
| AcquireGranted (s : Z)   (* granted by the first pass: nil at once *)
| AcquireWait (s : Z) (reason : string).

(** The waiter behind a pointer: queued, or granted and off the queue. *)
Definition waiter_reason (l : Ledger) (s : Z) : string :=
  match granted l !! s with
  | Some w => w_reason w
  | None => match List.find (λ w, w_seq w =? s) (waiters l) with Some w => w_reason w | None => "" end
  end.

Definition is_granted (l : Ledger) (s : Z) : bool :=
  match granted l !! s with Some _ => true | None => false end.

(** [l.seq] is a uint64. *)
Definition next_seq (l : Ledger) : Z := (seq l + 1) `mod` 2 ^ 64.

Definition enqueue (o : Options) (req : Request) (l : Ledger) : Ledger :=
  let l := l_set_seq (next_seq l) l in
  l_set_waiters (waiters l ++ [mkWaiter req (seq l) (Now o) ""]) l.

Definition Acquire (o : Options) (req : Request) (l : Ledger) : Ledger * acquire_start :=
  match leases l !! rq_Holder req with
  | Some _ => (l, AcquireHeld)
  | None =>
      let s := next_seq l in
      let l := dispatchLocked o (enqueue o req l) in
      if is_granted l s then (l, AcquireGranted s) else (l, AcquireWait s (waiter_reason l s))
  end.

(** The wait bound counts from the moment the request was queued. *)
Definition acquire_deadline (timeout : Duration) (now since : Time) : option Duration :=
  if 0 <? timeout then
    let remaining := wrap64 (timeout - Sub now since) in
    Some (if remaining <? 0 then 0 else remaining)
  else None.

Definition rateWake_one (o : Options) (acc : Ledger * option Duration) (p : string) : Ledger * option Duration :=
  let '(l, best) := acc in
  let '(l, why) := rateBlockLocked l p (Now o) in
  if String.eqb why "" then (l, best)
  else
    let '(l, at_) := rateResetLocked l p (Now o) in
    match at_ with
    | None => (l, best)
    | Some t =>
        let d := Sub t (Now o) in
        (l, match best with Some b => if d <? b then Some d else best | None => Some d end)
    end.

Definition rateWakeLocked (o : Options) (l : Ledger) (pools : list string) : Ledger * option Duration :=
  foldl (rateWake_one o) (l, None) pools.

Definition pollWaitLocked (o : Options) (l : Ledger) (req : Request) : Ledger * Duration :=
  let pools := if multiNode req then allPools req else rq_Pools req in
  let '(l, rd) := rateWakeLocked o l pools in
  (l, match rd with Some d => if d <? PollInterval o then d else PollInterval o | None => PollInterval o end).

(** [remove(w)]: off the queue; a lease granted in the same instant is given back. *)
Definition remove (o : Options) (s : Z) (l : Ledger) : Ledger :=
  let l := l_set_waiters (remove_waiter s (waiters l)) l in
  let l := match granted l !! s with
           | Some w => signalChangedLocked (l_set_leases (delete (rq_Holder (w_req w)) (leases l)) l)
           | None => l
           end in
  dispatchLocked o l.

(** One select of the wait loop: which channel fired, and what [cancelled()]
    answers when it is the tick. *)
Inductive acquire_event :=
| EvGrant
| EvCtxDone
| EvDeadline
| EvTick (cancelled : bool).

Inductive acquire_result :=
| AcqNil
| AcqCtxErr
| AcqWaitTimeout (why : string)
| AcqCanceled.

(** The reason last reported to onWait, and the reports made so far. *)
Record acquire_local := mkAcquireLocal { al_reported : string; al_reports : list string }.

Definition acquire_step (o : Options) (s : Z) (ev : acquire_event) (al : acquire_local) (l : Ledger) :
    option (Ledger * (acquire_local + acquire_result)) :=
  match ev with
  | EvGrant => if is_granted l s then Some (l, inr AcqNil) else None
  | EvCtxDone => Some (remove o s l, inr AcqCtxErr)
  | EvDeadline => Some (remove o s l, inr (AcqWaitTimeout (waiter_reason l s)))
  | EvTick true => Some (remove o s l, inr AcqCanceled)
  | EvTick false =>
      let l := dispatchLocked o l in
      let cur := waiter_reason l s in
      if is_granted l s then Some (l, inr AcqNil)
      else if negb (String.eqb cur (al_reported al))
      then Some (l, inl (mkAcquireLocal cur (al_reports al ++ [cur])))
      else Some (l, inl al)
  end.

(** ** Retarget *)

Definition slicesEqualStrings (a b : list string) : bool := bool_decide (a = b).

Definition choice_eqb (a b : NodeChoice) : bool :=
  String.eqb (nc_Name a) (nc_Name b) && (nc_Priority a =? nc_Priority b).

Fixpoint choices_eqb (a b : list NodeChoice) : bool :=
  match a, b with
  | [], [] => true
  | x :: a', y :: b' => choice_eqb x y && choices_eqb a' b'
  | _, _ => false
  end.

Definition samePlacement (a b : Request) : bool :=
  slicesEqualStrings (sort_strings (rq_Pools a)) (sort_strings (rq_Pools b)) &&
  String.eqb (rq_Node a) (rq_Node b) &&
  slicesEqualStrings (rq_ExcludeNodes a) (rq_ExcludeNodes b) &&
  choices_eqb (rq_NodeChoices a) (rq_NodeChoices b).

Definition set_req (s : Z) (req : Request) (ws : list waiter) : list waiter :=
  (λ w, if w_seq w =? s then w_set_req req w else w) <$> ws.

Definition Retarget (o : Options) (holder : string) (req : Request) (l : Ledger) : Ledger * bool :=
  match leases l !! holder with
  | Some _ => (l, false)
  | None =>
      match List.find (λ w, String.eqb (rq_Holder (w_req w)) holder) (waiters l) with
      | None => (l, false)
      | Some w =>
          let req := withoutStaleNode (apply_refresh o req) in
          if samePlacement req (w_req w) then (l, false)
          else (dispatchLocked o (signalChangedLocked (l_set_waiters (set_req (w_seq w) req (waiters l)) l)), true)
      end
  end.

(** ** Adopt and Rehome *)

Definition nonNodePools (pools : list string) : list string :=
  filter (λ p, HasPrefix p "node:" = false) pools.

(** The multiset comparison: [seen] counts what is left of [a]. *)
Fixpoint take_seen (seen : gmap string Z) (b : list string) : bool :=
  match b with
  | [] => true
  | p :: b' =>
      let n := default 0 (seen !! p) in
      if n =? 0 then false else take_seen (<[p := n - 1]> seen) b'
  end.

Definition samePoolSet (a b : list string) : bool :=
  if negb (Z.of_nat (length a) =? Z.of_nat (length b)) then false
  else take_seen (foldl (λ m p, <[p := default 0 (m !! p) + 1]> m) ∅ a) b.

Definition poolsWithNode (pools : list string) (node : string) : list string :=
  if nonempty node && negb (sharesPool pools [node_pool node]) then pools ++ [node_pool node] else pools.

(** Update the lease a pointer denotes: the one stored under [k]. *)
Definition update_lease (k : string) (f : Lease → Lease) (l : Ledger) : Ledger :=
  l_set_leases (alter f k (leases l)) l.

Definition rehome_lease (pools : list string) (node : string) (ls : Lease) : Lease :=
  let ls := ls_set_Node node (ls_set_Pools (poolsWithNode pools node) ls) in
  if String.eqb node "" then ls_set_NodeUnknown false (ls_set_NodeOverflow false ls) else ls.

Definition rehomeLocked (o : Options) (k : string) (pools : list string) (node : string) (l : Ledger) : Ledger :=
  dispatchLocked o (signalChangedLocked (update_lease k (rehome_lease pools node) l)).

Definition Rehome (o : Options) (holder : string) (pools : list string) (node : string) (l : Ledger) : Ledger * bool :=
  match leases l !! holder with
  | None => (l, false)
  | Some _ => (rehomeLocked o holder pools node l, true)
  end.

(** [placeAdoptedLocked] on a lease whose [Node] is already set; [l] is the
    ledger it is judged in. *)
Definition place_adopted (o : Options) (l : Ledger) (node : string) (ls : Lease) : Lease :=
  let pool := node_pool node in
  if sharesPool (le_Pools ls) [pool] then ls
  else if (0 <? Limit l pool) && optOn (StrictNodeLimit o) && (Limit l pool <=? usedLocked o l pool)
  then ls_set_NodeOverflow true ls
  else ls_set_Pools (le_Pools ls ++ [pool]) ls.

Definition placeAdoptedLocked (o : Options) (k node : string) (l : Ledger) : Ledger :=
  let l := update_lease k (ls_set_Node node) l in
  update_lease k (place_adopted o l node) l.

Definition refreshAdoptedLocked (o : Options) (k : string) (req : Request) (sessionID : string) (l : Ledger) : Ledger :=
  let l := if nonempty sessionID then update_lease k (ls_set_SessionID sessionID) l else l in
  match leases l !! k with
  | None => l
  | Some ls =>
      if String.eqb (rq_Node req) "" && (Z.of_nat (length (rq_NodeChoices req)) =? 0) && negb (rq_NodeUnknown req)
         && negb (samePoolSet (nonNodePools (le_Pools ls)) (nonNodePools (rq_Pools req)))
      then rehomeLocked o k (rq_Pools req) "" l
      else if String.eqb (le_Node ls) "" && nonempty (rq_Node req)
      then placeAdoptedLocked o k (rq_Node req) (update_lease k (ls_set_NodeUnknown false) l)
      else if String.eqb (le_Node ls) "" && rq_NodeUnknown req
      then update_lease k (ls_set_NodeUnknown true) l
      else l
  end.

Definition adopted_lease (req : Request) (sessionID : string) (rnow : Time) : Lease :=
  mkLease (rq_Holder req) (rq_PRDID req) (rq_Pools req) "" (rq_Model req) rnow sessionID
    (rq_NodeUnknown req && String.eqb (rq_Node req) "") false.

(** [rnow] is [time.Now()], which Adopt reads besides the ledger's own clock. *)
Definition adopt_new (o : Options) (rnow : Time) (req : Request) (sessionID : string) (l : Ledger) : Ledger :=
  let ls := adopted_lease req sessionID rnow in
  let ls := if nonempty (rq_Node req)
            then place_adopted o l (rq_Node req) (ls_set_Node (rq_Node req) ls) else ls in
  let l := l_set_leases (<[rq_Holder req := ls]> (leases l)) l in
  let l := l_set_lastGrant (<[rq_PRDID req := rnow]> (lastGrant l)) l in
  let l := recordRequestsLocked (le_Pools ls) (Now o) l in
  if nonempty (rq_Node req) && nonempty (rq_Model req)
  then l_set_lastModel (<[rq_Node req := rq_Model req]> (lastModel l)) l else l.

(** The lease already recording the session, if any: the first one the range
    over the leases meets. *)
Definition session_holder (o : Options) (l : Ledger) (sessionID : string) : option string :=
  if nonempty sessionID
  then fst <$> List.find (λ kv, String.eqb (le_SessionID kv.2) sessionID) (RangeOrder o (leases l))
  else None.

Definition Adopt (o : Options) (rnow : Time) (req : Request) (sessionID : string)
    (successors : list string) (l : Ledger) : Ledger :=
  match leases l !! rq_Holder req with
  | Some _ => refreshAdoptedLocked o (rq_Holder req) req sessionID l
  | None =>
      if existsb (λ s, match leases l !! s with Some _ => true | None => false end) successors then l
      else match session_holder o l sessionID with
           | Some k => refreshAdoptedLocked o k req sessionID l
           | None => adopt_new o rnow req sessionID l
           end
  end.

(** ** Bind, Release, Handoff, Reap and reads *)

Definition Bind (holder sessionID : string) (l : Ledger) : Ledger :=
  update_lease holder (ls_set_SessionID sessionID) l.

Definition Release (o : Options) (holder : string) (l : Ledger) : Ledger :=
  match leases l !! holder with
  | Some _ => dispatchLocked o (signalChangedLocked (l_set_leases (delete holder (leases l)) l))
  | None => l
  end.

Definition Held (l : Ledger) (holder : string) : bool :=
  match leases l !! holder with Some _ => true | None => false end.

Definition LeaseOf (l : Ledger) (holder : string) : option Lease := leases l !! holder.

Definition Handoff (from to : string) (l : Ledger) : Ledger * bool :=
  if String.eqb from "" || String.eqb to "" || String.eqb from to then (l, false)
  else match leases l !! from, leases l !! to with
       | Some ls, None =>
           (l_set_leases (<[to := ls_set_Holder to ls]> (delete from (leases l))) l, true)
       | _, _ => (l, false)
       end.

(** The first lock hold copies the leases; [live] then runs without the lock. *)
Definition reap_dead (o : Options) (live : Lease → bool) (l : Ledger) : list Lease :=
  filter (λ ls, live ls = false) (snd <$> RangeOrder o (leases l)).

Definition reap_one (acc : Ledger * list string) (d : Lease) : Ledger * list string :=
  let '(l, out) := acc in
  match leases l !! le_Holder d with
  | Some cur => if le_Acquired cur =? le_Acquired d
                then (l_set_leases (delete (le_Holder d) (leases l)) l, out ++ [le_Holder d])
                else (l, out)
  | None => (l, out)
  end.

(** The second lock hold, on the ledger as it is by then. *)
Definition reap_commit (o : Options) (dead : list Lease) (l : Ledger) : Ledger * list string :=
  match dead with
  | [] => (l, [])
  | _ =>
      let '(l, out) := foldl reap_one (l, []) dead in
      let l := match out with [] => l | _ => dispatchLocked o (signalChangedLocked l) end in
      (l, sort_strings out)
  end.

(** [Leases]: every lease, in holder order. *)
Definition Leases (l : Ledger) : list Lease :=
  omap (λ h, leases l !! h) (keys_where (λ _ _, true) (leases l)).
