(* ===== verification/CapacityView.v ===== *)
(** * Capacity: reads that describe the ledger

    [Snapshot] with its renderers, and the non-blocking admission query
    [Check] of decision.go with its renderer. A map collected by a range loop
    and sorted afterwards by a key unique in it is the sorted list of that
    map's entries. [sort.Slice] (used on the waiting list, by [Since]) is the
    stable sort; ties there are unspecified in Go. *)

From S2P Require Import Prelude GoBase CapacityLedger CapacityResolve.

#[local] Open Scope Z_scope.

(** [strings.Split(s, ",")] *)
Fixpoint split_comma (s : string) : list string :=
  match s with
  | EmptyString => [""]
  | String a s' =>
      if Ascii.eqb a (Ascii.ascii_of_nat 44) then "" :: split_comma s'
      else match split_comma s' with
           | x :: xs => String a x :: xs
           | [] => [String a ""]
           end
  end.

(** [time.Duration.Round(m)]: to the nearest multiple, halves away from zero. *)
Definition Duration_Round (d m : Duration) : Duration :=
  if m <=? 0 then d
  else
    let r := Z.rem d m in
    if d <? 0 then if 2 * (- r) <? m then d - r else Z.max int64_min (d - m - r)
    else if 2 * r <? m then d - r else Z.min int64_max (d + m - r).

(** The elements of a set, as the code's sort of the collected slice leaves them. *)
Definition sorted_names (s : gset string) : list string := sort_strings (elements s).

(** ** Snapshot *)

Record Waiter := mkWaiterView {
  wv_Holder : string;
  wv_PRDID : string;
  wv_Pools : list string;
  wv_Priority : Z;
  wv_Since : Time;
  wv_Reason : string;
  wv_Nodes : list string;
  wv_HoldName : string;
  wv_ReadReason : string
}.

Record PoolStatus := mkPoolStatus {
  ps_Name : string;
  ps_Limit : Z;
  ps_External : Z;
  ps_Held : Z;
  ps_Drained : bool;
  ps_DrainUntil : Time;
  ps_Overflow : Z;
  ps_Holders : list string;
  ps_HoldNames : list string;
  ps_HoldNodes : list string;
  ps_RateRequests : Z;
  ps_RateTokens : Z;
  ps_RateWindowSeconds : Z;
  ps_RequestsInWindow : Z;
  ps_TokensInWindow : Z;
  ps_RateResetsAt : Time
}.

Record Status := mkStatus {
  st_Pools : list PoolStatus;
  st_Leases : list Lease;
  st_Waiting : list Waiter
}.

(** The nodes of the holders' leases; a nil slice is the empty list. *)
Definition holderNodesLocked (l : Ledger) (holders : list string) : list string :=
  let node h := match leases l !! h with Some ls => le_Node ls | None => "" end in
  if existsb (λ h, nonempty (node h)) holders then node <$> holders else [].

Definition shownHoldNodes (p : PoolStatus) : option (list string) :=
  if negb (bool_decide (length (ps_HoldNodes p) = length (ps_Holders p))) then None
  else if Z.of_nat (size (list_to_set (filter (λ n, nonempty n = true) (ps_HoldNodes p)) : gset string)) <? 2
  then None
  else Some (ps_HoldNodes p).

(** The verifier pools a verifier waiter may be admitted on. *)
Definition verifier_names (l : Ledger) (r : Request) : list string :=
  if String.eqb (rq_Role r) RoleVerifier then
    let vs := candidateNames r ++ (if nonempty (rq_Node r) then [rq_Node r] else []) in
    VerifierPool <$> filter (λ n, n ≠ "" ∧ 0 < Limit l (VerifierPool n)) vs
  else [].

Definition waiter_view (w : waiter) : Waiter :=
  let r := w_req w in
  mkWaiterView (rq_Holder r) (rq_PRDID r) (rq_Pools r) (rq_Priority r) (w_since w) (w_reason w)
    (candidateNames r) "" "".

(** One queued waiter: refreshed, its reason recomputed, its pools collected. *)
Definition snapshot_waiter (o : Options) (acc : Ledger * gset string * list Waiter) (w : waiter) :
    Ledger * gset string * list Waiter :=
  let '(l, names, waiting) := acc in
  let w := refreshWaiterLocked o w in
  let '(l, _, why) := resolveLocked o l (w_req w) in
  let w := w_set_reason why w in
  let l := l_set_waiters ((λ x, if w_seq x =? w_seq w then w else x) <$> waiters l) l in
  (l, names ∪ list_to_set (allPools (w_req w)) ∪ list_to_set (verifier_names l (w_req w)),
   waiting ++ [waiter_view w]).

Definition node_drain (o : Options) (pool : string) : bool * Time :=
  match CutPrefix pool "node:", NodeStateOf o with
  | Some node, Some f =>
      let ns := f node in
      if ns_Drained ns then (true, if IsZero (ns_DrainUntil ns) then zero_time else ns_DrainUntil ns)
      else (false, zero_time)
  | _, _ => (false, zero_time)
  end.

Definition snapshot_pool (o : Options) (acc : Ledger * list PoolStatus) (p : string) : Ledger * list PoolStatus :=
  let '(l, ps) := acc in
  let overflow := match CutPrefix p "node:" with
                  | Some node => Z.of_nat (length (overflowLocked l node)) | None => 0 end in
  let '(drained, until) := node_drain o p in
  let '(l, (rr, rt, rws, riw, tiw, at_)) :=
    match rates l !! p with
    | None => (l, (0, 0, 0, 0, 0, zero_time))
    | Some c =>
        let '(l, (_, reqs, toks)) := rateWindowLocked l p (Now o) in
        let '(l, at_) := rateResetLocked l p (Now o) in
        (l, (rc_Requests c, rc_Tokens c, Z.quot (rc_Window c) Second, reqs, toks, default zero_time at_))
    end in
  let hs := split_comma (TrimPrefix (holdersLocked l p) "other sessions") in
  let hs := match hs with h :: _ => if String.eqb h "" then [] else hs | [] => [] end in
  (l, ps ++ [mkPoolStatus p (Limit l p) (external o p) (heldLocked l p) drained until overflow
               hs [] (holderNodesLocked l hs) rr rt rws riw tiw at_]).

Definition snapshot_names (l : Ledger) : gset string :=
  dom (limits l) ∪ dom (rates l) ∪ list_to_set (mjoin ((λ kv, le_Pools kv.2) <$> map_to_list (leases l))).

Definition Snapshot (o : Options) (l : Ledger) : Ledger * Status :=
  let leases := sort_by (λ a b, String.ltb (le_Holder a) (le_Holder b)) (snd <$> map_to_list (leases l)) in
  let '(l, names, waiting) := foldl (snapshot_waiter o) (l, snapshot_names l, []) (waiters l) in
  let '(l, pools) := foldl (snapshot_pool o) (l, []) (sorted_names names) in
  (l, mkStatus pools leases (sort_by (λ a b, Before (wv_Since a) (wv_Since b)) waiting)).

(** ** Renderers *)

Definition newline : string := String (Ascii.ascii_of_nat 10) "".

Definition hold_parts (p : PoolStatus) : list string :=
  let holders := if bool_decide (length (ps_HoldNames p) = length (ps_Holders p))
                 then ps_HoldNames p else ps_Holders p in
  match shownHoldNodes p with
  | Some nodes => zip_with (λ h n, if nonempty n then h +:+ " on " +:+ n else h) holders nodes
  | None => holders
  end.

Definition format_pool (p : PoolStatus) : string :=
  let lim := if 0 <? ps_Limit p then fmt_d (ps_Limit p) else "unlimited" in
  ps_Name p +:+ ": " +:+ fmt_d (ps_Held p + ps_External p) +:+ "/" +:+ lim +:+
  (if ps_Drained p
   then if IsZero (ps_DrainUntil p) then " drained"
        else " drained until " +:+ FormatRFC3339 (ps_DrainUntil p)
   else "") +:+
  (if ps_Drained p && (0 <? ps_Held p)
   then " (" +:+ fmt_d (ps_Held p) +:+ " task" +:+ (if ps_Held p =? 1 then "" else "s") +:+ " still finishing)"
   else "") +:+
  (if 0 <? ps_External p then " (" +:+ fmt_d (ps_External p) +:+ " external)" else "") +:+
  (if 0 <? ps_Overflow p then " (+" +:+ fmt_d (ps_Overflow p) +:+ " adopted over the limit)" else "") +:+
  (match ps_Holders p with [] => "" | _ => " held by " +:+ Join (hold_parts p) "," end) +:+
  (if (0 <? ps_RateRequests p) || (0 <? ps_RateTokens p)
   then " rate" +:+
        (if 0 <? ps_RateRequests p
         then " req " +:+ fmt_d (ps_RequestsInWindow p) +:+ "/" +:+ fmt_d (ps_RateRequests p) else "") +:+
        (if 0 <? ps_RateTokens p
         then " tok " +:+ fmt_d (ps_TokensInWindow p) +:+ "/" +:+ fmt_d (ps_RateTokens p) else "") +:+
        " per " +:+ Duration_String (wrap64 (ps_RateWindowSeconds p * Second))
   else "") +:+ newline.

Definition FormatPools (pools : list PoolStatus) : string :=
  (match pools with [] => "Pools: none configured" +:+ newline | _ => "" end) +:+
  Join (format_pool <$> pools) "".

Definition format_waiting (rnow : Time) (w : Waiter) : string :=
  "  " +:+ (if nonempty (wv_HoldName w) then wv_HoldName w else wv_Holder w) +:+
  " (PRD " +:+ wv_PRDID w +:+ ") " +:+
  Duration_String (Duration_Round (Sub rnow (wv_Since w)) Second) +:+ ": " +:+
  (if nonempty (wv_ReadReason w) then wv_ReadReason w else wv_Reason w) +:+ newline.

(** [rnow] is the real clock [time.Since] reads. *)
Definition FormatText (rnow : Time) (st : Status) : string :=
  let unknown := Z.of_nat (length (filter (λ ls, le_NodeUnknown ls = true) (st_Leases st))) in
  FormatPools (st_Pools st) +:+
  (if 0 <? unknown
   then "Leases with unknown node: " +:+ fmt_d unknown +:+
        " (counted in host and llm pools, held on no node pool)" +:+ newline
   else "") +:+
  match st_Waiting st with
  | [] => "Waiting: none" +:+ newline
  | ws => "Waiting (" +:+ fmt_d (Z.of_nat (length ws)) +:+ "):" +:+ newline +:+
          Join (format_waiting rnow <$> ws) ""
  end.

(** ** Check *)

Inductive DecisionKind := DecisionAdmit | DecisionQueued | DecisionAlternateAvailable.

Record Alternate := mkAlternate { al_Pool : string; al_Node : string; al_Model : string }.

Record Decision := mkDecision {
  d_Kind : DecisionKind;
  d_QueuePosition : Z;
  d_Reason : string;
  d_ResetsAt : option Time;
  d_Alternates : list Alternate;
  d_Node : string
}.

(** The waiters ahead of the hypothetical one ([s] is its sequence number). *)
Fixpoint ahead_of (s : Z) (ws : list waiter) : list waiter :=
  match ws with
  | [] => []
  | w :: ws' => if w_seq w =? s then [] else w :: ahead_of s ws'
  end.

(** 1-based position in the sorted list. *)
Definition queue_pos (s : Z) (ws : list waiter) : Z := Z.of_nat (length (ahead_of s ws)) + 1.

Definition compete_one (o : Options) (req : Request) (acc : Ledger * Z) (w : waiter) : Ledger * Z :=
  let '(l, n) := acc in
  if negb (sharesPool (allPools (w_req w)) (allPools req)) then (l, n)
  else
    let '(l, _, why) := resolveLocked o l (w_req w) in
    (l, if String.eqb why "" then n + 1 else n).

Definition check_pool (o : Options) (req : Request) (acc : Ledger * list string * option Time) (p : string) :
    Ledger * list string * option Time :=
  let '(l, blocked, at_) := acc in
  let '(l, why) := blockReasonLocked o l (pools_request [p] (rq_Interactive req)) in
  let blocked := if nonempty why then blocked ++ [p] else blocked in
  let '(l, why) := rateBlockLocked l p (Now o) in
  if String.eqb why "" then (l, blocked, at_)
  else
    let '(l, t) := rateResetLocked l p (Now o) in
    (l, blocked,
     match t, at_ with
     | Some t, None => Some t
     | Some t, Some a => if After t a then Some t else at_
     | None, _ => at_
     end).

(** The pools the ledger knows of, and those that are the request's own. *)
Definition known_pools (l : Ledger) (req : Request) : gset string :=
  dom (limits l) ∪ dom (rates l) ∪
  list_to_set (mjoin ((λ kv, le_Pools kv.2 ++ (if nonempty (le_Node kv.2) then [node_pool (le_Node kv.2)] else []))
                        <$> map_to_list (leases l))) ∪
  list_to_set (mjoin ((λ w, allPools (w_req w)) <$> waiters l)) ∪
  set_map node_pool (dom (lastModel l) : gset string) ∪
  (if nonempty (rq_Node req) then {[node_pool (rq_Node req)]} else ∅) ∪
  list_to_set (node_pool <$> candidateNames req).

Definition own_pools (req : Request) : gset string :=
  list_to_set (allPools req) ∪ list_to_set (node_pool <$> rq_ExcludeNodes req).

Definition alternate (l : Ledger) (req : Request) (c : string) : Alternate :=
  match CutPrefix c "node:" with
  | Some n =>
      let m := default "" (lastModel l !! n) in
      mkAlternate c n (if nonempty m then m else rq_Model req)
  | None => mkAlternate c "" (rq_Model req)
  end.

Definition alt_one (o : Options) (req : Request) (kind : string)
    (acc : Ledger * gset string * list Alternate) (c : string) : Ledger * gset string * list Alternate :=
  let '(l, seen, out) := acc in
  if bool_decide (c ∈ own_pools req) || bool_decide (c ∈ seen) || negb (HasPrefix c (kind +:+ ":"))
  then (l, seen, out)
  else
    let '(l, why) := blockReasonLocked o l (pools_request [c] (rq_Interactive req)) in
    if nonempty why then (l, seen, out)
    else (l, {[c]} ∪ seen, out ++ [alternate l req c]).

Definition alt_blocked (o : Options) (req : Request) (known : list string)
    (acc : Ledger * gset string * list Alternate) (b : string) : Ledger * gset string * list Alternate :=
  match Cut b ":" with
  | Some (kind, _) => foldl (alt_one o req kind) acc known
  | None => acc
  end.

Definition alternatesLocked (o : Options) (l : Ledger) (req : Request) (blocked : list string) :
    Ledger * list Alternate :=
  let '(l', _, out) := foldl (alt_blocked o req (elements (known_pools l req))) (l, ∅, []) blocked in
  (l', sort_by (λ a b, String.ltb (al_Pool a) (al_Pool b)) out).

Definition CheckRequest (o : Options) (req : Request) (l : Ledger) : Ledger * Decision :=
  let now := Now o in
  let '(l, bound, reason) := resolveLocked o l req in
  let s := (seq l + 1) `mod` 2 ^ 64 in
  let order := orderListLocked o l (waiters l ++ [mkWaiter req s now ""]) now in
  let pos := queue_pos s order in
  let '(l, competing) := foldl (compete_one o req) (l, 0) (ahead_of s order) in
  if String.eqb reason "" && (competing =? 0)
  then (l, mkDecision DecisionAdmit 0 "" None [] (if multiNode req then rq_Node bound else ""))
  else
    let why := if String.eqb reason ""
               then "behind " +:+ fmt_d competing +:+ " earlier request(s) for the same pools"
               else reason in
    let '(l, blocked, at_) := foldl (check_pool o req) (l, [], None) (allPools req) in
    if nonempty reason
    then let '(l, alts) := alternatesLocked o l req blocked in
         (l, mkDecision (match alts with [] => DecisionQueued | _ => DecisionAlternateAvailable end)
               pos why at_ alts "")
    else (l, mkDecision DecisionQueued pos why at_ [] "").

Definition FormatDecision (d : Decision) : string :=
  match d_Kind d with
  | DecisionAdmit => "would be admitted now"
  | _ =>
      "would be queued at position " +:+ fmt_d (d_QueuePosition d) +:+
      (if nonempty (d_Reason d) then ": " +:+ d_Reason d else "") +:+
      (match d_ResetsAt d with Some t => "; resets at " +:+ FormatRFC3339 t | None => "" end) +:+
      (match d_Alternates d with
       | [] => ""
       | alts => newline +:+ "alternate available: " +:+
           Join ((λ a, if nonempty (al_Model a) then al_Pool a +:+ " (" +:+ al_Model a +:+ ")" else al_Pool a) <$> alts) ", "
       end)
  end.
