(* ===== verification/CapacityInvariant.v ===== *)
(** * Capacity: the ledger's invariant over every run

    [op] is the ledger's whole API, [run] executes one call, and [reachable]
    closes [New] under calls made with any environment. [wf] is the invariant:
    leases are stored under their holder, an overflow lease names a node, limits
    and ceilings are set, and the queue holds each waiter once, none of them
    already granted; and, unless a lease was rehomed onto a named node, no overflow
    lease is inside its node's pool and none of unknown node names one. *)

From S2P Require Import Prelude GoBase CapacityLedger CapacityResolve.
From S2P Require Import CapacityPlace CapacityPass CapacityOps.
From S2P Require Import CapacityView.

#[local] Open Scope Z_scope.

(** ** The API *)

Inductive op :=
| OpSetLimit (pool : string) (limit : Z)
| OpSetRate (pool : string) (c : RateCeiling)
| OpRecordTokens (pool : string) (n : Z)
| OpRateResetAt (pool : string)
| OpBeginAdoption
| OpMarkAdoptionComplete
| OpReplan
| OpWouldGrant (req : Request)
| OpAcquire (req : Request)
| OpAcquireStep (s : Z) (ev : acquire_event) (al : acquire_local)
| OpRetarget (holder : string) (req : Request)
| OpAdopt (rnow : Time) (req : Request) (sessionID : string) (successors : list string)
| OpRehome (holder : string) (pools : list string) (node : string)
| OpBind (holder sessionID : string)
| OpRelease (holder : string)
| OpHandoff (from to : string)
| OpReap (dead : list Lease)
| OpSnapshot
| OpCheck (req : Request).

Definition run (o : Options) (c : op) (l : Ledger) : Ledger :=
  match c with
  | OpSetLimit pool limit => SetLimit o pool limit l
  | OpSetRate pool c => SetRate o pool c l
  | OpRecordTokens pool n => RecordTokens o pool n l
  | OpRateResetAt pool => (RateResetAt o pool l).1
  | OpBeginAdoption => BeginAdoption o l
  | OpMarkAdoptionComplete => MarkAdoptionComplete o l
  | OpReplan => Replan o l
  | OpWouldGrant req => (WouldGrant o req l).1
  | OpAcquire req => (Acquire o req l).1
  | OpAcquireStep s ev al => match acquire_step o s ev al l with Some (l', _) => l' | None => l end
  | OpRetarget holder req => (Retarget o holder req l).1
  | OpAdopt rnow req sid succ => Adopt o rnow req sid succ l
  | OpRehome holder pools node => (Rehome o holder pools node l).1
  | OpBind holder sid => Bind holder sid l
  | OpRelease holder => Release o holder l
  | OpHandoff from to => (Handoff from to l).1
  | OpReap dead => (reap_commit o dead l).1
  | OpSnapshot => (Snapshot o l).1
  | OpCheck req => (CheckRequest o req l).1
  end.

(** A lease is moved onto a node by its name. *)
Definition names_node (c : op) : bool := match c with OpRehome _ _ node => nonempty node | _ => false end.

(** One call under a fair map range, before the 2^64th Acquire; when [unnamed], not
    a Rehome onto a named node. *)
Inductive step (unnamed : bool) : Ledger → Ledger → Prop :=
| step_run o c l :
    range_ok o → seq l + 1 < 2 ^ 64 → (unnamed = true → names_node c = false) → step unnamed l (run o c l).

Definition reachable (unnamed : bool) : Ledger → Prop := rtc (step unnamed) New.

(** ** The invariant *)

(** [placed]: the flags agree with the node and the pools, which a Rehome onto a
    named node does not see to. *)
Definition lease_ok (placed : bool) (k : string) (ls : Lease) : Prop :=
  le_Holder ls = k ∧
  (le_NodeOverflow ls = true → le_Node ls ≠ "" ∧ (placed = true → node_pool (le_Node ls) ∉ le_Pools ls)) ∧
  (le_NodeUnknown ls = true → placed = true → le_Node ls = "").

Record wf_core (placed : bool) (l : Ledger) : Prop := {
  wf_leases : map_Forall (lease_ok placed) (leases l);
  wf_limits : map_Forall (λ _ n, 0 < n) (limits l);
  wf_rates : map_Forall (λ _ c, active c = true) (rates l)
}.

Definition seqs (l : Ledger) : list Z := w_seq <$> waiters l.

Definition queue_ok (ss : list Z) (n : Z) (g : gmap Z waiter) : Prop :=
  0 ≤ n ∧ NoDup ss ∧ Forall (λ s, 0 < s ≤ n) ss ∧
  map_Forall (λ s w, w_seq w = s ∧ s ≤ n ∧ s ∉ ss) g.

Definition wf_at (placed : bool) (l : Ledger) : Prop := wf_core placed l ∧ queue_ok (seqs l) (seq l) (granted l).
Abbreviation wf := (wf_at true).

(** ** The queue through a pass *)

Lemma seqs_refresh o (ws : list waiter) : w_seq <$> (refreshWaiterLocked o <$> ws) = w_seq <$> ws.
Proof. rewrite <- list_fmap_compose. by apply list_fmap_ext. Qed.

Lemma seqs_set_reason s why (ws : list waiter) : w_seq <$> set_reason s why ws = w_seq <$> ws.
Proof.
  unfold set_reason. rewrite <- list_fmap_compose. apply list_fmap_ext.
  intros i w _. simpl. by case_match.
Qed.

Lemma seqs_set_req s r (ws : list waiter) : w_seq <$> set_req s r ws = w_seq <$> ws.
Proof.
  unfold set_req. rewrite <- list_fmap_compose. apply list_fmap_ext.
  intros i w _. simpl. by case_match.
Qed.

Lemma remove_waiter_sublist s ws : sublist (remove_waiter s ws) ws.
Proof.
  induction ws as [|w ws IH]; simpl; [done|]. case_match; [by constructor|by constructor].
Qed.

Lemma remove_waiter_seqs s ws :
  NoDup (w_seq <$> ws) → ∀ s', s' ∈ (w_seq <$> remove_waiter s ws) ↔ s' ∈ (w_seq <$> ws) ∧ s' ≠ s.
Proof.
  induction ws as [|w ws IH]; simpl; intros Hnd s'; [set_solver|].
  apply NoDup_cons in Hnd as [Hni Hnd]. case_match eqn:E; bools.
  - subst s. rewrite elem_of_cons. split; [|by intros [[->|] ?]].
    intros Hin. split; [by right|]. by intros ->.
  - rewrite fmap_cons, !elem_of_cons, IH by done. naive_solver.
Qed.

Lemma queue_ok_remove s ss n g ws :
  w_seq <$> ws = ss → queue_ok ss n g → queue_ok (w_seq <$> remove_waiter s ws) n g.
Proof.
  intros <- (Hn & Hnd & Hb & Hg). pose proof (remove_waiter_seqs s ws Hnd) as Hr.
  split_and!; [done| | |].
  - apply (sublist_NoDup _ (w_seq <$> ws)); [done|]. apply fmap_sublist, remove_waiter_sublist.
  - apply Forall_forall. intros s' [Hin _]%Hr. rewrite Forall_forall in Hb. auto.
  - intros s' w Hw. destruct (Hg s' w Hw) as (?&?&Hni). split_and!; [done..|].
    by intros [? _]%Hr.
Qed.

Lemma dispatch_queue o l :
  queue_ok (seqs l) (seq l) (granted l) →
  queue_ok (seqs (dispatchLocked o l)) (seq (dispatchLocked o l)) (granted (dispatchLocked o l)).
Proof.
  intros Hq. rewrite dispatch_eq.
  set (J ws l := queue_ok (seqs l) (seq l) (granted l) ∧ Forall (λ w, 0 < w_seq w ≤ seq l) (ws : list waiter)).
  assert (queue_ok (seqs (pass_queue o l)) (seq (pass_queue o l)) (granted (pass_queue o l))) as Hq'.
  { destruct (promote_frame o l) as (_&Hw&Hs&_&_&_&_&_&_&_&Hg). simpl in *.
    unfold seqs. rewrite pass_queue_waiters, seqs_refresh. unfold pass_queue. simpl. by rewrite Hs, Hg. }
  refine (proj1 (dispatch_loop_ind o J _ _ _ _ _)).
  - intros w ws l0 l1 why Hc _ _ [HQ Hb]. apply Forall_cons in Hb as [_ Hb]. split; simpl.
    + unfold seqs. simpl. rewrite seqs_set_reason.
      by rewrite (sc_seq _ _ _ Hc), (sc_granted _ _ _ Hc).
    + by rewrite (sc_seq _ _ _ Hc).
  - intros w ws l0 l1 bound Hc _ [HQ Hb]. apply Forall_cons in Hb as [Hw Hb].
    unfold J, seqs. rewrite grant_waiters, grant_granted.
    destruct (grant_frame w bound (Now o) (l_set_waiters (set_reason (w_seq w) "" (waiters l0)) l1))
      as (_&_&_&->&_). simpl. rewrite (sc_seq _ _ _ Hc), (sc_granted _ _ _ Hc). split; [|done].
    set (ws' := set_reason (w_seq w) "" (waiters l0)).
    assert (w_seq <$> ws' = seqs l0) as Hss by apply seqs_set_reason.
    pose proof (queue_ok_remove (w_seq w) _ _ _ _ Hss HQ) as (Hn & Hnd & Hb' & Hg).
    split_and!; [done..|]. apply map_Forall_insert_2; [|done]. simpl. split_and!; [done|lia|].
    rewrite (remove_waiter_seqs (w_seq w) ws'); [naive_solver|]. rewrite Hss. by apply HQ.
  - split; [done|]. apply Forall_forall. intros w Hw. rewrite elem_of_order in Hw.
    destruct Hq' as (_ & _ & Hb & _). rewrite Forall_forall in Hb. apply Hb.
    apply list_elem_of_fmap. eauto.
Qed.

(** ** The leases through a pass *)

Section invariant.
Context {placed : bool}.

Lemma lease_ok_promoted k ls : lease_ok placed k ls → lease_ok placed k (promoted ls).
Proof. intros (?&?&?). split_and!; simpl; done. Qed.

Lemma lease_ok_request req now : lease_ok placed (rq_Holder req) (lease_of_request req now).
Proof. done. Qed.

Lemma dispatch_core o l : range_ok o → wf_core placed l → wf_core placed (dispatchLocked o l).
Proof.
  intros Hr Hwf. apply (dispatch_ind o l (wf_core placed)); [| | | |done|done].
  - intros l' k ls Hk _ _ [Hls Hlim Hrt]. split; [|done..]. unfold promote_at. simpl.
    apply map_Forall_insert_2; [|done]. apply lease_ok_promoted. by apply Hls.
  - intros l1 l2 Hc [Hls Hlim Hrt]. split.
    + by rewrite (sc_leases _ _ _ Hc).
    + by rewrite (sc_limits _ _ _ Hc).
    + by rewrite (sc_rates _ _ _ Hc).
  - by intros ws l' [].
  - intros l' w bound _ _ [Hls Hlim Hrt]. split.
    + rewrite grant_leases. by apply map_Forall_insert_2.
    + by rewrite grant_limits.
    + by rewrite grant_rates.
Qed.

Lemma dispatch_wf o l : range_ok o → wf_at placed l → wf_at placed (dispatchLocked o l).
Proof. intros Hr [Hc Hq]. split; [by apply dispatch_core|by apply dispatch_queue]. Qed.

Lemma same_core_wf o l l' : same_core o l l' → wf_at placed l → wf_at placed l'.
Proof.
  intros Hc [[Hls Hlim Hrt] Hq]. split; [split|].
  - by rewrite (sc_leases _ _ _ Hc).
  - by rewrite (sc_limits _ _ _ Hc).
  - by rewrite (sc_rates _ _ _ Hc).
  - unfold seqs. by rewrite (sc_waiters _ _ _ Hc), (sc_seq _ _ _ Hc), (sc_granted _ _ _ Hc).
Qed.

(** Changing the leases alone, or what the invariant does not look at. *)
Lemma wf_set_leases m l : map_Forall (lease_ok placed) m → wf_at placed l → wf_at placed (l_set_leases m l).
Proof. intros Hm [[Hls Hlim Hrt] Hq]. done. Qed.

Lemma wf_signal l : wf_at placed l → wf_at placed (signalChangedLocked l).
Proof. by intros [[] ?]. Qed.

Lemma wf_update k f l :
  (∀ ls, leases l !! k = Some ls → lease_ok placed k (f ls)) → wf_at placed l → wf_at placed (update_lease k f l).
Proof.
  intros Hf Hwf. apply wf_set_leases; [|done]. destruct Hwf as [[Hls _ _] _].
  destruct (leases l !! k) as [ls|] eqn:E.
  - rewrite (alter_alt_Some f (leases l) k ls E). apply map_Forall_insert_2; [by apply Hf|done].
  - by rewrite alter_id'.
Qed.

(** ** Reads leave the core alone *)

Lemma foldl_core {A S} o (get : S → Ledger) (f : S → A → S) xs s :
  (∀ s x, same_core o (get s) (get (f s x))) → same_core o (get s) (get (foldl f s xs)).
Proof.
  intros Hf. revert s. induction xs as [|x xs IH]; intros s; simpl; [done|].
  etrans; [apply Hf|apply IH].
Qed.

Lemma compete_core o req acc w : same_core o acc.1 (compete_one o req acc w).1.
Proof.
  destruct acc as [l n]. unfold compete_one. case_match; [done|].
  pose proof (resolve_core o l (w_req w)). by destruct (resolveLocked o l (w_req w)) as [[??]?].
Qed.

Lemma check_pool_core o req acc p : same_core o acc.1.1 (check_pool o req acc p).1.1.
Proof.
  destruct acc as [[l b] t]. unfold check_pool.
  pose proof (blockReason_core o l (pools_request [p] (rq_Interactive req))) as H1.
  destruct (blockReasonLocked _ _ _) as [l1 why1].
  pose proof (rateBlock_core o l1 p) as H2. destruct (rateBlockLocked _ _ _) as [l2 why2].
  pose proof (rateReset_core o l2 p) as H3. destruct (rateResetLocked _ _ _) as [l3 t3].
  simpl in *. assert (same_core o l l2) as Ha by (by etrans).
  assert (same_core o l l3) by (by etrans). by repeat case_match.
Qed.

Lemma alternates_core o l req blocked : same_core o l (alternatesLocked o l req blocked).1.
Proof.
  unfold alternatesLocked.
  pose proof (foldl_core o (λ acc : Ledger * gset string * list Alternate, acc.1.1)
    (alt_blocked o req (elements (known_pools l req))) blocked (l, ∅, [])) as H.
  destruct (foldl _ _ blocked) as [[l' seen] out]. apply H. clear.
  intros acc b. unfold alt_blocked. destruct (Cut b ":") as [[kind ?]|]; [|done].
  apply (foldl_core o (λ acc : Ledger * gset string * list Alternate, acc.1.1)). clear.
  intros [[l s] out] c. unfold alt_one. case_match; [done|].
  pose proof (blockReason_core o l (pools_request [c] (rq_Interactive req))).
  destruct (blockReasonLocked _ _ _) as [l1 why1]. by case_match.
Qed.

Lemma check_core o req l : same_core o l (CheckRequest o req l).1.
Proof.
  unfold CheckRequest. pose proof (resolve_core o l req) as H0.
  destruct (resolveLocked o l req) as [[l0 bound] reason]. simpl in H0.
  set (ah := ahead_of _ _).
  pose proof (foldl_core o fst (compete_one o req) ah (l0, 0) (compete_core o req)) as H1.
  destruct (foldl (compete_one o req) (l0, 0) ah) as [l1 n]. simpl in H1.
  pose proof (foldl_core o (λ acc, acc.1.1) (check_pool o req) (allPools req) (l1, [], None)
    (check_pool_core o req)) as H2.
  destruct (foldl (check_pool o req) _ _) as [[l2 bl] t]. simpl in H2.
  pose proof (alternates_core o l2 req bl) as H3. destruct (alternatesLocked o l2 req bl) as [l3 alts].
  simpl in *. assert (same_core o l l1) as Ha by (by etrans). assert (same_core o l l2) as Hb by (by etrans).
  assert (same_core o l l3) by (by etrans). by repeat case_match.
Qed.

Lemma wouldgrant_core o req l : same_core o l (WouldGrant o req l).1.
Proof.
  unfold WouldGrant. pose proof (resolve_core o l (withoutStaleNode (apply_refresh o req))) as H.
  by destruct (resolveLocked _ _ _) as [[??]?].
Qed.

Lemma snapshot_pool_core o acc p : same_core o acc.1 (snapshot_pool o acc p).1.
Proof.
  destruct acc as [l ps]. unfold snapshot_pool. destruct (node_drain o p).
  destruct (rates l !! p) as [c|]; [|done].
  pose proof (rateWindow_core o l p) as H1. destruct (rateWindowLocked _ _ _) as [l1 [[es reqs] toks]].
  pose proof (rateReset_core o l1 p) as H2. destruct (rateResetLocked _ _ _) as [l2 t2].
  simpl in *. by etrans.
Qed.

Lemma wf_waiters_same_seqs l ws : w_seq <$> ws = seqs l → wf_at placed l → wf_at placed (l_set_waiters ws l).
Proof. intros Hs [[] Hq]. split; [done|]. unfold seqs. simpl. by rewrite Hs. Qed.

Lemma snapshot_waiter_wf o acc w : wf_at placed acc.1.1 → wf_at placed (snapshot_waiter o acc w).1.1.
Proof.
  destruct acc as [[l names] waiting]. intros Hwf. change (wf_at placed l) in Hwf.
  unfold snapshot_waiter. generalize (refreshWaiterLocked o w) as w1. intros w1.
  pose proof (resolve_core o l (w_req w1)) as Hc.
  destruct (resolveLocked o l (w_req w1)) as [[l1 b] why]. simpl in *.
  apply wf_waiters_same_seqs; [|by eapply same_core_wf].
  unfold seqs. rewrite <- list_fmap_compose. apply list_fmap_ext. intros i x _.
  simpl. case_match; [by bools|done].
Qed.

Lemma snapshot_wf o l : wf_at placed l → wf_at placed (Snapshot o l).1.
Proof.
  intros Hwf. unfold Snapshot.
  pose proof (foldl_invariant (λ acc, wf_at placed acc.1.1) (snapshot_waiter o) (waiters l) (l, snapshot_names l, [])
    (λ s x _, snapshot_waiter_wf o s x) Hwf) as H1.
  destruct (foldl (snapshot_waiter o) _ _) as [[l1 names] waiting]. simpl in H1.
  pose proof (foldl_core o fst (snapshot_pool o) (sorted_names names) (l1, []) (snapshot_pool_core o)) as H2.
  destruct (foldl (snapshot_pool o) _ _) as [l2 pools]. simpl in *. by eapply same_core_wf.
Qed.

Lemma update_lookup k f l : leases (update_lease k f l) !! k = f <$> leases l !! k.
Proof. apply lookup_alter_eq. Qed.

(** ** Every operation keeps the invariant *)

Lemma rehome_wf o k pools node l :
  range_ok o → (placed = true → node = "") → wf_at placed l → wf_at placed (rehomeLocked o k pools node l).
Proof.
  intros Hr Hnode Hwf. apply dispatch_wf; [done|]. apply wf_signal, wf_update; [|done].
  intros ls Hls. destruct Hwf as [[Hok _ _] _]. destruct (Hok _ _ Hls) as (Hh&Hov&_). unfold rehome_lease.
  destruct (String.eqb_spec node "") as [->|Hne]; [by split_and!|].
  split_and!; [done| |intros _ Hp; by destruct Hne; apply Hnode].
  intros _. split; [done|]. intros Hp. by destruct Hne; apply Hnode.
Qed.

Lemma place_adopted_ok o l node k ls :
  node ≠ "" → le_Holder ls = k → le_Node ls = node → le_NodeOverflow ls = false →
  le_NodeUnknown ls = false → lease_ok placed k (place_adopted o l node ls).
Proof.
  intros Hne <- Hn Hov Hu. unfold place_adopted, lease_ok.
  destruct (sharesPool _ _) eqn:E; [by rewrite Hov, Hu|].
  apply sharesPool_single_false in E.
  case_match; simpl; rewrite ?Hov, ?Hu, ?Hn; by split_and!.
Qed.

Lemma lease_ok_no_node k ls : lease_ok placed k ls → le_Node ls = "" → le_NodeOverflow ls = false.
Proof. intros (_&Hov&_) Hn. destruct (le_NodeOverflow ls); [|done]. by destruct (Hov eq_refl). Qed.

Lemma refresh_adopted_wf o k req sid l :
  range_ok o → wf_at placed l → wf_at placed (refreshAdoptedLocked o k req sid l).
Proof.
  intros Hr Hwf. unfold refreshAdoptedLocked.
  set (l1 := if nonempty sid then _ else l).
  assert (wf_at placed l1) as Hwf1.
  { unfold l1. case_match; [|done]. apply wf_update; [|done]. intros ls Hls.
    destruct Hwf as [[Hok _ _] _]. destruct (Hok _ _ Hls) as (?&?&?). by split_and!. }
  clearbody l1. clear Hwf l. rename l1 into l.
  destruct (leases l !! k) as [ls|] eqn:Hls; [|done].
  destruct Hwf1 as [[Hok Hlim Hrt] Hq]. assert (wf_at placed l) as Hwf by done.
  pose proof (Hok _ _ Hls) as (Hh&Hov&Hu). simpl in *.
  case_match; [by apply rehome_wf|]. case_match eqn:E2; [|case_match eqn:E3; [|done]].
  - apply andb_true_iff in E2 as [E2%String.eqb_eq Hne%nonempty_true].
    pose proof (lease_ok_no_node _ _ (Hok _ _ Hls) E2) as Hnov. unfold placeAdoptedLocked. apply wf_update; [|apply wf_update; [|apply wf_update; [|done]]];
      intros ls'; rewrite ?update_lookup, Hls; simpl; intros [= <-].
    + by apply place_adopted_ok.
    + unfold lease_ok. simpl. rewrite Hnov. by split_and!.
    + unfold lease_ok. simpl. rewrite Hnov. by split_and!.
  - bools. apply wf_update; [|done]. intros ls' Hls'. rewrite Hls in Hls'. simplify_eq.
    split_and!; simpl; done.
Qed.

Lemma record_wf now l ps : wf_at placed l → wf_at placed (recordRequestsLocked ps now l).
Proof. intros [[] ?]. by destruct (record_frame now l ps) as [ru ->]. Qed.

Lemma adopt_new_wf o rnow req sid l :
  range_ok o → wf_at placed l → wf_at placed (adopt_new o rnow req sid l).
Proof.
  intros Hr Hwf. unfold adopt_new. set (ls := if nonempty (rq_Node req) then _ else _).
  assert (lease_ok placed (rq_Holder req) ls) as Hls.
  { unfold ls. case_match eqn:E.
    - apply place_adopted_ok; try done; [by apply nonempty_true|]. simpl.
      unfold nonempty in E. bools. apply String.eqb_neq in E. by rewrite E, andb_false_r.
    - unfold nonempty in E. bools. by split_and!. }
  clearbody ls.
  assert (wf_at placed (recordRequestsLocked (le_Pools ls) (Now o)
    (l_set_lastGrant (<[rq_PRDID req:=rnow]> (lastGrant l)) (l_set_leases (<[rq_Holder req:=ls]> (leases l)) l)))) as H.
  { apply record_wf. destruct Hwf as [[Hok ??] ?]. split; [split|]; try done. by apply map_Forall_insert_2. }
  case_match; [|done]. by destruct H as [[] ?].
Qed.

Lemma adopt_wf o rnow req sid succ l : range_ok o → wf_at placed l → wf_at placed (Adopt o rnow req sid succ l).
Proof.
  intros Hr Hwf. unfold Adopt. destruct (leases l !! rq_Holder req); [by apply refresh_adopted_wf|].
  case_match; [done|]. case_match; [by apply refresh_adopted_wf|by apply adopt_new_wf].
Qed.

Lemma map_Forall_delete' {V} (P : string → V → Prop) (m : gmap string V) k :
  map_Forall P m → map_Forall P (delete k m).
Proof. apply map_Forall_delete. Qed.

Lemma setlimit_wf o p n l : range_ok o → wf_at placed l → wf_at placed (SetLimit o p n l).
Proof.
  intros Hr [[? Hlim ?] ?]. apply dispatch_wf; [done|]. apply wf_signal.
  destruct (n <=? 0) eqn:E; (split; [split; [done| |done]|done]); simpl.
  - by apply map_Forall_delete.
  - apply map_Forall_insert_2; [bools; lia|done].
Qed.

Lemma setrate_wf o p c l : range_ok o → wf_at placed l → wf_at placed (SetRate o p c l).
Proof.
  intros Hr [[? ? Hrt] ?]. apply dispatch_wf; [done|]. apply wf_signal.
  destruct (active c) eqn:E; simpl; (split; [split; [done..|]|done]); simpl.
  - by apply map_Forall_insert_2.
  - by apply map_Forall_delete.
Qed.

Lemma enqueue_wf o req l : seq l + 1 < 2 ^ 64 → wf_at placed l → wf_at placed (enqueue o req l).
Proof.
  intros Hs [[] (Hn & Hnd & Hb & Hg)]. split; [done|]. unfold enqueue, seqs, next_seq. simpl.
  rewrite fmap_app. simpl. rewrite Z.mod_small by lia.
  assert ((seq l + 1)%Z ∉ w_seq <$> waiters l) as Hni.
  { intros Hin. rewrite Forall_forall in Hb. specialize (Hb _ Hin). lia. }
  split_and!; [lia| | |].
  - apply NoDup_app. split_and!; [done|set_solver|apply NoDup_singleton].
  - apply Forall_app. split; [|constructor; [lia|done]].
    eapply Forall_impl; [done|]. simpl. lia.
  - intros s w Hw. destruct (Hg s w Hw) as (?&?&?). split_and!; [done|lia|].
    rewrite elem_of_app, list_elem_of_singleton. intros [?|?]; [done|lia].
Qed.

Lemma remove_wf o s l : range_ok o → wf_at placed l → wf_at placed (remove o s l).
Proof.
  intros Hr Hwf. apply dispatch_wf; [done|].
  assert (wf_at placed (l_set_waiters (remove_waiter s (waiters l)) l)) as Hwf'.
  { destruct Hwf as [[] Hq]. split; [done|]. by eapply queue_ok_remove. }
  simpl. case_match; [|done]. apply wf_signal, wf_set_leases; [|done].
  apply map_Forall_delete. apply Hwf.
Qed.

Lemma acquire_wf o req l : range_ok o → seq l + 1 < 2 ^ 64 → wf_at placed l → wf_at placed (Acquire o req l).1.
Proof.
  intros Hr Hs Hwf. unfold Acquire. case_match; [done|].
  assert (wf_at placed (dispatchLocked o (enqueue o req l))) by (apply dispatch_wf, enqueue_wf; done).
  by case_match.
Qed.

Lemma acquire_step_wf o s ev al l l' r :
  range_ok o → wf_at placed l → acquire_step o s ev al l = Some (l', r) → wf_at placed l'.
Proof.
  intros Hr Hwf. unfold acquire_step. pose proof (remove_wf o s l Hr Hwf).
  pose proof (dispatch_wf o l Hr Hwf). repeat case_match; by intros [= <- <-].
Qed.

Lemma retarget_wf o holder req l : range_ok o → wf_at placed l → wf_at placed (Retarget o holder req l).1.
Proof.
  intros Hr Hwf. unfold Retarget. case_match; [done|]. case_match; [|done]. case_match; [done|].
  apply dispatch_wf; [done|]. apply wf_signal, wf_waiters_same_seqs; [|done]. apply seqs_set_req.
Qed.

Lemma handoff_wf a b l : wf_at placed l → wf_at placed (Handoff a b l).1.
Proof.
  intros Hwf. unfold Handoff. case_match; [done|].
  destruct (leases l !! a) as [ls|] eqn:E; [|done]. case_match; [done|].
  apply wf_set_leases; [|done]. destruct Hwf as [[Hok _ _] _].
  apply map_Forall_insert_2; [|by apply map_Forall_delete].
  destruct (Hok _ _ E) as (?&?&?). by split_and!.
Qed.

Lemma reap_wf o dead l : range_ok o → wf_at placed l → wf_at placed (reap_commit o dead l).1.
Proof.
  intros Hr Hwf. unfold reap_commit. destruct dead as [|d dead]; [done|].
  pose proof (foldl_invariant (λ acc, wf_at placed acc.1) reap_one (d :: dead) (l, [])) as H.
  destruct (foldl reap_one (l, []) (d :: dead)) as [l1 out]. simpl in H.
  assert (wf_at placed l1) as H1.
  { apply H; [|done]. clear. intros [l out] x _ Hwf. simpl in *. unfold reap_one.
    repeat (case_match; simplify_eq/=; try done). apply wf_set_leases; [|done].
    apply map_Forall_delete, Hwf. }
  destruct out; [done|]. by apply dispatch_wf, wf_signal.
Qed.

Lemma run_wf o c l : range_ok o → seq l + 1 < 2 ^ 64 → (placed = true → names_node c = false) → wf_at placed l → wf_at placed (run o c l).
Proof.
  intros Hr Hs Hn Hwf. destruct c; simpl.
  - by apply setlimit_wf.
  - by apply setrate_wf.
  - unfold RecordTokens. case_match; [done|]. case_match; [|done]. apply dispatch_wf; [done|].
    by destruct Hwf as [[] ?].
  - eapply same_core_wf; [apply rateReset_core|done].
  - unfold BeginAdoption. case_match; [done|]. by destruct Hwf as [[] ?].
  - unfold MarkAdoptionComplete. case_match; [done|]. apply dispatch_wf; [done|].
    by destruct Hwf as [[] ?].
  - by apply dispatch_wf, wf_signal.
  - eapply same_core_wf; [apply wouldgrant_core|done].
  - by apply acquire_wf.
  - destruct (acquire_step _ _ _ _ _) as [[l' r]|] eqn:E; [|done]. by eapply acquire_step_wf.
  - by apply retarget_wf.
  - by apply adopt_wf.
  - unfold Rehome. case_match; [|done]. apply rehome_wf; [done| |done]. intros Hp. by apply nonempty_false, Hn.
  - apply wf_update; [|done]. intros ls Hls. destruct Hwf as [[Hok _ _] _].
    destruct (Hok _ _ Hls) as (?&?&?). by split_and!.
  - unfold Release. case_match; [|done]. apply dispatch_wf; [done|].
    apply wf_signal, wf_set_leases; [|done]. apply map_Forall_delete, Hwf.
  - by apply handoff_wf.
  - by apply reap_wf.
  - by apply snapshot_wf.
  - eapply same_core_wf; [apply check_core|done].
Qed.

Lemma New_wf : wf_at placed New.
Proof.
  split; [split; apply map_Forall_empty|]. split_and!; [done|constructor|constructor|apply map_Forall_empty].
Qed.
End invariant.
