(* ===== verification/CapacityFair.v ===== *)
(** * Capacity: what a pass leaves waiting

    Grants only ever use room up: a request that does not fit before a grant
    does not fit after it. So one pass in order leaves nothing behind that
    could run. *)

From S2P Require Import Prelude GoBase CapacityLedger CapacityResolve.
From S2P Require Import CapacityPlace CapacityPass CapacityOps.
From S2P Require Import CapacityInvariant.

#[local] Open Scope Z_scope.

(** A held-backpressure hook that blocks at some usage blocks at any higher one. *)
Definition held_monotone (o : Options) : Prop :=
  ∀ f p h h' lim, HeldBackpressure o = Some f → h ≤ h' → (f p h lim).1 = true → (f p h' lim).1 = true.

(** ** Grants use room up *)

Lemma used_insert_ge o lim m k ls p :
  m !! k = None → used_in o lim m p ≤ used_in o lim (<[k:=ls]> m) p.
Proof.
  intros Hk. unfold used_in. rewrite !count_insert by done.
  rewrite by_node_fold_insert by done.
  pose proof (by_node_step_bounds lim p k ls (by_node_fold lim p m)).
  repeat case_match; lia.
Qed.

Lemma bp_reason_empty f p : bp_reason f p = "" ↔ ∀ b, f = Some b → b.1 = false.
Proof.
  unfold bp_reason. destruct f as [[[] why]|]; simpl; split; try done.
  - intros H. specialize (H _ eq_refl). done.
  - by intros _ b [= <-].
Qed.

Section grant_uses.
Context (o : Options) (w : waiter) (bound : Request) (l : Ledger).
Context (Hfresh : leases l !! rq_Holder bound = None) (Hmono : held_monotone o).
Context (Hrates : map_Forall (λ _ c, active c = true) (rates l)).
Let l' := grantLocked w bound (Now o) l.

Lemma grant_used_ge p : usedLocked o l p ≤ usedLocked o l' p.
Proof.
  rewrite !used_eq. unfold l'. rewrite grant_leases.
  replace (Limit (grantLocked w bound (Now o) l)) with (Limit l) by (unfold Limit; by rewrite grant_limits).
  by apply used_insert_ge.
Qed.

Lemma grant_held_ge p : heldLocked l p ≤ heldLocked l' p.
Proof.
  rewrite !held_names. unfold l'. rewrite grant_leases, count_insert by done. case_match; lia.
Qed.

Lemma grant_pool_full p : pool_full o l p = true → pool_full o l' p = true.
Proof.
  unfold pool_full. unfold l' at 1 2. rewrite grant_Limit. pose proof (grant_used_ge p).
  intros. bools. apply andb_true_iff. split; [by apply Z.ltb_lt|apply Z.leb_le; lia].
Qed.

Lemma grant_rate_room p : rate_room l p (Now o) = false → rate_room l' p (Now o) = false.
Proof.
  unfold rate_room. unfold l' at 1. rewrite grant_rates. destruct (rates l !! p) as [c|] eqn:Hc; [|done].
  assert (0 < rc_Window c) as Hw.
  { specialize (Hrates p c Hc). simpl in Hrates. unfold active in Hrates. bools. lia. }
  unfold l'. rewrite (grant_window w bound l o p c Hc Hw).
  set (k := occurrences p (rq_Pools bound)).
  assert (sum_reqs (window l p c (Now o)) ≤ sum_reqs (window l p c (Now o) ++
    (if counts_requests l p then replicate k (mkRateEntry (Now o) 1 0) else []))).
  { rewrite sum_reqs_app. case_match; [rewrite sum_reqs_new|unfold sum_reqs]; simpl; lia. }
  assert (sum_toks (window l p c (Now o) ++
    (if counts_requests l p then replicate k (mkRateEntry (Now o) 1 0) else [])) =
    sum_toks (window l p c (Now o))) as ->.
  { case_match; [apply sum_toks_app_new|by rewrite app_nil_r]. }
  rewrite !andb_false_iff, !orb_false_iff. intros [[? ?]|[? ?]]; [left|by right]. bools.
  split; [by apply Z.leb_gt|apply Z.ltb_ge; lia].
Qed.

Lemma grant_hooks inter p : hooks_reason o l' inter p = "" → hooks_reason o l inter p = "".
Proof.
  unfold hooks_reason. unfold l' at 2. rewrite grant_Limit. fold l'.
  destruct (nonempty (bp_reason _ _)) eqn:E1; [done|].
  destruct inter; [done|]. destruct (nonempty (bp_reason (_ <$> AutonomousBackpressure o) _)) eqn:E2; [done|].
  rewrite !bp_reason_empty. intros H [b why] Hb. destruct (HeldBackpressure o) as [f|] eqn:Hf; [|done].
  simpl in *. specialize (H _ eq_refl). injection Hb as Hb.
  destruct b; [|done]. rewrite <- H. symmetry.
  apply (Hmono f p (heldLocked l p)); [done|apply grant_held_ge|by rewrite Hb].
Qed.

Lemma grant_pool_ok inter p : pool_ok o l' inter p = true → pool_ok o l inter p = true.
Proof.
  unfold pool_ok. pose proof (grant_pool_full p) as Hf. pose proof (grant_rate_room p) as Hr.
  intros Hok. apply andb_true_iff in Hok as [[H1 H2]%andb_true_iff H3%String.eqb_eq].
  destruct (pool_full o l p); [by rewrite Hf in H1|].
  destruct (rate_room l p (Now o)); [|by rewrite Hr in H2].
  simpl. by apply String.eqb_eq, grant_hooks.
Qed.

Lemma grant_pools_ok r : pools_ok o l' r = true → pools_ok o l r = true.
Proof.
  unfold pools_ok. rewrite !forallb_forall. intros H p Hp. apply grant_pool_ok. auto.
Qed.

Lemma grant_cand_ok r n : cand_ok o l' r n = true → cand_ok o l r n = true.
Proof.
  unfold cand_ok. intros H. apply andb_true_iff in H as [Hg Hp]. rewrite Hg. simpl.
  apply grant_pools_ok. unfold bind_node, ledgerNodePoolLocked in *. unfold l' in Hp at 2.
  by rewrite grant_Limit in Hp.
Qed.

Lemma find_None {A} (f : A → bool) xs : List.find f xs = None ↔ ∀ x, x ∈ xs → f x = false.
Proof.
  split; [intros H x Hx%list_elem_of_In; by apply (List.find_none _ _ H)|].
  induction xs as [|x xs IH]; intros H; simpl; [done|]. rewrite (H x) by left.
  apply IH. intros y Hy. apply H. by right.
Qed.

Lemma find_ranked l0 r :
  List.find (cand_ok o l0 r) (nc_Name <$> rankedLocked o l0 r) = None ↔
  ∀ n, n ∈ candidateNames r → cand_ok o l0 r n = false.
Proof.
  rewrite find_None. assert (nc_Name <$> rankedLocked o l0 r ≡ₚ candidateNames r) as Hp.
  { unfold candidateNames, rankedLocked. by rewrite sort_by_perm. }
  by setoid_rewrite Hp.
Qed.

(** A request that could not be placed still cannot. *)
Lemma grant_place_none r : place o l r = None → place o l' r = None.
Proof.
  unfold place. unfold l' at 1. rewrite grant_adoption. destruct (adoption_clear o l); [|done]. simpl.
  destruct (multiNode r).
  - intros H%fmap_None. rewrite find_ranked in H. apply fmap_None. apply find_ranked.
    intros n Hn. specialize (H n Hn). destruct (cand_ok o l' r n) eqn:E; [|done].
    by rewrite (grant_cand_ok r n E) in H.
  - assert (swapVerifierNodePoolLocked l' r (rq_Node r) = swapVerifierNodePoolLocked l r (rq_Node r)) as ->.
    { unfold swapVerifierNodePoolLocked, l'. by rewrite grant_Limit. }
    set (r' := swapVerifierNodePoolLocked l r (rq_Node r)).
    destruct (single_gate o r).1; [|done]. simpl.
    destruct (pools_ok o l' r') eqn:E; [|done]. by rewrite (grant_pools_ok r' E).
Qed.
End grant_uses.

(** ** What a pass leaves waiting *)

Definition holders (ws : list waiter) : list string := (λ w, rq_Holder (w_req w)) <$> ws.

(** Every queued request is one holder's only one, and that holder has no lease. *)
Definition one_request_each (l : Ledger) : Prop :=
  NoDup (holders (waiters l)) ∧ ∀ h, h ∈ holders (waiters l) → leases l !! h = None.

Definition stuck (o : Options) (l : Ledger) (w : waiter) : Prop :=
  place o l (w_req w) = None ∧ w_reason w ≠ "".

Lemma elem_of_set_reason s why ws w :
  w ∈ set_reason s why ws →
  ∃ w0, w0 ∈ ws ∧ w_req w = w_req w0 ∧ w_seq w = w_seq w0 ∧
        w_reason w = (if w_seq w0 =? s then why else w_reason w0).
Proof.
  unfold set_reason. intros (w0 & -> & H)%list_elem_of_fmap. exists w0. split; [done|].
  by case_match.
Qed.

Lemma holders_set_reason s why ws : holders (set_reason s why ws) = holders ws.
Proof.
  unfold holders, set_reason. rewrite <- list_fmap_compose. apply list_fmap_ext.
  intros i w _. simpl. by case_match.
Qed.

Section conserving.
Context (o : Options) (Hmono : held_monotone o).

Record pass_inv (ws : list waiter) (l : Ledger) : Prop := {
  pi_seqs : NoDup (seqs l);
  pi_ws : NoDup (w_seq <$> ws);
  pi_in w : w ∈ ws → ∃ w0, w0 ∈ waiters l ∧ w_seq w0 = w_seq w ∧ w_req w0 = w_req w;
  pi_one : one_request_each l;
  pi_rates : map_Forall (λ _ c, active c = true) (rates l);
  pi_stuck w : w ∈ waiters l → (∃ w0, w0 ∈ ws ∧ w_seq w0 = w_seq w) ∨ stuck o l w
}.

Lemma stuck_core l l' ws w : same_core o l l' → stuck o l w → stuck o (l_set_waiters ws l') w.
Proof. unfold stuck. intros Hc [? ?]. by rewrite place_set_waiters, (place_core Hc). Qed.

Lemma pass_inv_wait w ws l l1 why :
  same_core o l l1 → place o l (w_req w) = None → why ≠ "" → pass_inv (w :: ws) l →
  pass_inv ws (l_set_waiters (set_reason (w_seq w) why (waiters l)) l1).
Proof.
  intros Hc Hp Hwhy [Hs Hws Hin [Hh Hl] Hr Hst]. rewrite fmap_cons in Hws. apply NoDup_cons in Hws as [Hni Hws]. split; simpl.
  - unfold seqs. simpl. by rewrite seqs_set_reason.
  - done.
  - intros x Hx. destruct (Hin x) as (x0&Hx0&Hxs&Hxr); [by right|].
    exists (if w_seq x0 =? w_seq w then w_set_reason why x0 else x0).
    split; [unfold set_reason; apply list_elem_of_fmap; by exists x0|]. by case_match.
  - unfold one_request_each. simpl. rewrite holders_set_reason, (sc_leases _ _ _ Hc). done.
  - by rewrite (sc_rates _ _ _ Hc).
  - intros x Hx. apply elem_of_set_reason in Hx as (x0&Hx0&Hxr&Hxs&Hxw).
    destruct (Z.eqb_spec (w_seq x0) (w_seq w)) as [E|E].
    + right. split; [|by rewrite Hxw]. rewrite place_set_waiters, (place_core Hc), Hxr.
      destruct (Hin w) as (w0&Hw0&Hw0s&Hw0r); [left|].
      assert (x0 = w0) as -> by (eapply (NoDup_fmap_eq w_seq); [exact Hs|done|done|congruence]). by rewrite Hw0r.
    + destruct (Hst x0 Hx0) as [(y&Hy&Hys)|Hstk].
      * left. apply elem_of_cons in Hy as [->|Hy]; [by symmetry in Hys|]. exists y. by rewrite Hxs.
      * right. apply (stuck_core l l1 [] _ Hc) in Hstk as [H1 H2]. split; [|by rewrite Hxw].
        rewrite Hxr. exact H1.
Qed.

Lemma pass_inv_grant w ws l l1 bound :
  same_core o l l1 → place o l (w_req w) = Some bound → pass_inv (w :: ws) l →
  pass_inv ws (grantLocked w bound (Now o) (l_set_waiters (set_reason (w_seq w) "" (waiters l)) l1)).
Proof.
  intros Hc Hp [Hs Hws Hin [Hh Hl] Hr Hst]. rewrite fmap_cons in Hws. apply NoDup_cons in Hws as [Hni Hws].
  set (l2 := l_set_waiters _ l1).
  destruct (place_fields o l _ _ Hp) as (Hhold&_).
  destruct (Hin w) as (w0&Hw0&Hw0s&Hw0r); [left|].
  assert (leases l !! rq_Holder bound = None) as Hfresh.
  { apply Hl. rewrite Hhold, <- Hw0r. by apply (list_elem_of_fmap_2 (λ w, rq_Holder (w_req w))). }
  assert (waiters (grantLocked w bound (Now o) l2) =
    remove_waiter (w_seq w) (set_reason (w_seq w) "" (waiters l))) as Hwt by apply grant_waiters.
  assert (NoDup (w_seq <$> set_reason (w_seq w) "" (waiters l))) as Hs' by (by rewrite seqs_set_reason).
  assert (∀ x, x ∈ remove_waiter (w_seq w) (set_reason (w_seq w) "" (waiters l)) →
    ∃ x0, x0 ∈ waiters l ∧ w_req x = w_req x0 ∧ w_seq x = w_seq x0 ∧ w_reason x = w_reason x0 ∧ w_seq x0 ≠ w_seq w) as Hrem.
  { intros x Hx. assert (w_seq x ≠ w_seq w) as Hne
      by (by apply (remove_waiter_seqs _ _ Hs' (w_seq x)), list_elem_of_fmap_2).
    pose proof (elem_of_sublist _ _ _ Hx (remove_waiter_sublist _ _)) as Hx'. clear Hx. rename Hx' into Hx.
    apply elem_of_set_reason in Hx as (x0&?&?&Hxs&Hxw). exists x0. rewrite Hxs in Hne.
    split_and!; try done. rewrite Hxw. by apply Z.eqb_neq in Hne as ->. }
  split.
  - unfold seqs. rewrite Hwt. apply (sublist_NoDup _ (w_seq <$> set_reason (w_seq w) "" (waiters l))); [done|].
    apply fmap_sublist, remove_waiter_sublist.
  - done.
  - intros x Hx. rewrite Hwt. destruct (Hin x) as (x0&Hx0&Hxs&Hxr); [by right|].
    assert (w_seq x ≠ w_seq w) as Hne.
    { intros E. apply Hni. rewrite <- E. by apply list_elem_of_fmap_2. }
    assert (w_seq x0 ∈ w_seq <$> remove_waiter (w_seq w) (set_reason (w_seq w) "" (waiters l))) as Hmem.
    { apply remove_waiter_seqs; [done|]. rewrite seqs_set_reason, Hxs. split; [|done].
      rewrite <- Hxs. by apply list_elem_of_fmap_2. }
    apply list_elem_of_fmap in Hmem as (y&Hys&Hy). exists y. split; [done|].
    destruct (Hrem y Hy) as (y0&Hy0&Hyr&Hys'&_). rewrite Hyr.
    assert (x0 = y0) as -> by (eapply (NoDup_fmap_eq w_seq); [exact Hs|done|done|congruence]). split; congruence.
  - unfold one_request_each. rewrite Hwt, grant_leases. split.
    + apply (sublist_NoDup _ (holders (set_reason (w_seq w) "" (waiters l)))); [by rewrite holders_set_reason|].
      apply fmap_sublist, remove_waiter_sublist.
    + intros h (x&->&Hx)%list_elem_of_fmap. destruct (Hrem x Hx) as (x0&Hx0&Hxr&_&_&Hne).
      rewrite Hxr. rewrite lookup_insert_ne.
      * simpl. rewrite (sc_leases _ _ _ Hc). apply Hl. by apply (list_elem_of_fmap_2 (λ w, rq_Holder (w_req w))).
      * rewrite Hhold, <- Hw0r. intros E. apply Hne. rewrite <- Hw0s. f_equal.
        by eapply (NoDup_fmap_eq (λ w, rq_Holder (w_req w))).
  - rewrite grant_rates. simpl. by rewrite (sc_rates _ _ _ Hc).
  - intros x Hx. rewrite Hwt in Hx. destruct (Hrem x Hx) as (x0&Hx0&Hxr&Hxs&Hxw&Hne).
    destruct (Hst x0 Hx0) as [(y&Hy&Hys)|[Hstk1 Hstk2]].
    + left. apply elem_of_cons in Hy as [->|Hy]; [by symmetry in Hys|]. exists y. by rewrite Hxs.
    + right. split; [|by rewrite Hxw]. rewrite Hxr. apply grant_place_none; [|done|..].
      * simpl. by rewrite (sc_leases _ _ _ Hc).
      * simpl. by rewrite (sc_rates _ _ _ Hc).
      * unfold l2. by rewrite place_set_waiters, (place_core Hc).
Qed.

(** One pass leaves waiting only what cannot run. *)
Lemma pass_leaves_stuck l :
  wf l → one_request_each (pass_queue o l) →
  ∀ w, w ∈ waiters (dispatchLocked o l) → stuck o (dispatchLocked o l) w.
Proof.
  intros [[_ _ Hrt] Hq] Hone w Hw. rewrite dispatch_eq in *.
  set (q := pass_queue o l) in *. set (ws := orderLocked o q (Now o)) in *.
  assert (NoDup (seqs q)) as Hs.
  { unfold seqs, q. rewrite pass_queue_waiters, seqs_refresh. apply Hq. }
  assert (pass_inv ws q) as Hinv.
  { split; try done.
    - unfold ws, orderLocked, orderListLocked. by rewrite sort_by_perm.
    - intros x Hx. apply elem_of_order in Hx. eauto.
    - unfold q, pass_queue. simpl. destruct (promote_frame o l) as (_&_&_&_&_&Hr&_). simpl in Hr. by rewrite Hr.
    - intros x Hx. left. exists x. split; [by apply elem_of_order|done]. }
  pose proof (dispatch_loop_ind o pass_inv) as Hind.
  specialize (Hind (λ w ws l l1 why, pass_inv_wait w ws l l1 why)
    (λ w ws l l1 bound, pass_inv_grant w ws l l1 bound) ws q Hinv).
  destruct (pi_stuck _ _ Hind w Hw) as [(x&Hx&_)|H]; [by apply elem_of_nil in Hx|done].
Qed.
End conserving.
