(* ===== verification/CapacityRates.v ===== *)
(** * Capacity: when a rate ceiling frees

    [rateFreeAt] over the sorted window is exact: before the time it returns
    the dimension is at its ceiling, from then on it is below.

    Also: capacity: lemmas on adoption, rate bounds and single-lease updates. *)

From S2P Require Import Prelude GoBase CapacityLedger CapacityResolve CapacityPlace CapacityPass.
From S2P Require Import CapacityOps CapacityInvariant.

#[local] Open Scope Z_scope.

Section free.
Context (val : rateEntry → Z) (window : Duration).

Definition total (es : list rateEntry) : Z := foldr (λ e n, val e + n) 0 es.
Definition still (t : Time) (es : list rateEntry) : list rateEntry :=
  filter (λ e, After (re_At e) (Add t (- window)) = true) es.

Lemma total_perm es es' : es ≡ₚ es' → total es = total es'.
Proof. induction 1; simpl; lia. Qed.

Lemma total_nonneg es : Forall (λ e, 0 ≤ val e) es → 0 ≤ total es.
Proof. induction 1; simpl; lia. Qed.

Lemma still_cons t e es :
  total (still t (e :: es)) = (if After (re_At e) (Add t (- window)) then val e else 0) + total (still t es).
Proof. unfold still. rewrite filter_cons. repeat case_match; simplify_eq; simpl; lia. Qed.

Lemma still_nonneg t es : Forall (λ e, 0 ≤ val e) es → 0 ≤ total (still t es) ≤ total es.
Proof. induction 1 as [|e es He Hes IH]; [done|]. rewrite still_cons. simpl. case_match; lia. Qed.

(** What is counted only shrinks as time passes. *)
Lemma still_mono t t' es :
  Forall (λ e, 0 ≤ val e) es → t ≤ t' → total (still t' es) ≤ total (still t es).
Proof.
  intros H Ht. induction H as [|e es He Hes IH]; [done|]. rewrite !still_cons.
  unfold After, Add in *. destruct (t' + - window <? re_At e) eqn:E1; bools.
  - assert ((t + - window <? re_At e) = true) as -> by (apply Z.ltb_lt; lia). lia.
  - case_match; lia.
Qed.

Lemma still_all t e es :
  Forall (not_after re_before e) es → t < Add (re_At e) window → still t es = es.
Proof.
  unfold still, not_after, re_before, Add. intros H Ht. induction H as [|x es Hx Hes IH]; [done|].
  rewrite filter_cons_True; [by rewrite IH|]. bools. unfold After. apply Z.ltb_lt. lia.
Qed.

Lemma rateFreeAt_exact es ceiling :
  StronglySorted (not_after re_before) es → Forall (λ e, 0 ≤ val e) es →
  0 < ceiling ≤ total es → total es ≤ int64_max →
  ∃ t e, rateFreeAt es (total es) ceiling window val = Some t ∧ e ∈ es ∧ t = Add (re_At e) window ∧
    total (still t es) < ceiling ∧ ∀ t', t' < t → ceiling ≤ total (still t' es).
Proof.
  induction 1 as [|e es Hs IH He]; intros Hnn Hc Hmax; [simpl in Hc; lia|].
  apply Forall_cons in Hnn as [Hv Hnn]. pose proof (total_nonneg es Hnn). simpl in *.
  destruct (Z.leb_spec (val e) 0) as [Hz|Hpos].
  - assert (val e = 0) as Hv0 by lia. rewrite Hv0, Z.add_0_l in *.
    destruct (IH Hnn Hc Hmax) as (t&e'&Hf&Hin&Ht&Hlt&Hge). exists t, e'.
    split_and!; [done|by right|done|rewrite still_cons; case_match; lia|].
    intros t' Ht'. rewrite still_cons, Hv0. specialize (Hge t' Ht'). case_match; lia.
  - rewrite wrap64_id by (unfold in_int64, int64_min, int64_max in *; lia).
    replace (val e + total es - val e) with (total es) by lia.
    destruct (Z.ltb_spec (total es) ceiling) as [Hlt|Hge].
    + exists (Add (re_At e) window), e. split_and!; [done|left|done| |].
      * rewrite still_cons. pose proof (still_nonneg (Add (re_At e) window) es Hnn).
        unfold After, Add at 1 2. assert ((re_At e + window + - window <? re_At e) = false) as -> by (apply Z.ltb_ge; lia). lia.
      * intros t' Ht'. rewrite still_cons, (still_all t' e es He Ht').
        unfold After, Add in *. assert ((t' + - window <? re_At e) = true) as -> by (apply Z.ltb_lt; lia). lia.
    + destruct (IH Hnn) as (t&e'&Hf&Hin&Ht&Hl&Hg); [lia..|]. exists t, e'.
      split_and!; [done|by right|done| |].
      * rewrite still_cons. rewrite Forall_forall in He. specialize (He e' Hin).
        unfold not_after, re_before, After, Add in *. bools.
        assert ((t + - window <? re_At e) = false) as -> by (apply Z.ltb_ge; lia). lia.
      * intros t' Ht'. rewrite still_cons. specialize (Hg t' Ht'). case_match; lia.
Qed.

(** Restricting to a window first and reading it later gives the later window. *)
Lemma still_still t t' es : t ≤ t' → still t' (still t es) = still t' es.
Proof.
  intros Ht. unfold still. induction es as [|e es IH]; [done|]. rewrite !filter_cons.
  destruct (decide (After (re_At e) (Add t (- window)) = true)) as [E|E].
  - rewrite filter_cons. by rewrite IH.
  - rewrite IH. rewrite decide_False; [done|]. unfold After, Add in *. rewrite Z.ltb_lt in *. lia.
Qed.
End free.

Lemma sum_reqs_total es : sum_reqs es = total reqOf es.
Proof. induction es as [|e es IH]; [done|]. rewrite sum_reqs_cons, IH. done. Qed.

Lemma exact_toks_total es : exact_toks es = total tokOf es.
Proof. done. Qed.

(** Every entry counts nothing negative, and the window's totals fit in 64 bits. *)
Definition entries_ok (es : list rateEntry) : Prop :=
  Forall (λ e, 0 ≤ re_Req e ∧ 0 ≤ re_Tok e) es ∧ sum_reqs es ≤ int64_max ∧ exact_toks es ≤ int64_max.

Section reset.
Context (l : Ledger) (p : string) (c : RateCeiling) (now : Time).
Context (Hc : rates l !! p = Some c).
Let use := default [] (rateUse l !! p).
Let kept := in_window c now use.
Context (Hok : entries_ok kept).

Lemma kept_still t : now ≤ t → in_window c t use = still (rc_Window c) t kept.
Proof. intros Ht. unfold kept. symmetry. by apply still_still. Qed.

Lemma kept_reqs_nonneg : Forall (λ e, 0 ≤ reqOf e) kept.
Proof. eapply Forall_impl; [apply Hok|]. by intros ? [? ?]. Qed.
Lemma kept_toks_nonneg : Forall (λ e, 0 ≤ tokOf e) kept.
Proof. eapply Forall_impl; [apply Hok|]. by intros ? [? ?]. Qed.

Lemma still_toks t : sum_toks (still (rc_Window c) t kept) = total tokOf (still (rc_Window c) t kept).
Proof.
  rewrite sum_toks_exact, exact_toks_total. apply wrap64_id.
  pose proof (still_nonneg tokOf (rc_Window c) t kept kept_toks_nonneg).
  destruct Hok as (_&_&Hm). rewrite exact_toks_total in Hm.
  unfold in_int64, int64_min, int64_max in *. lia.
Qed.

Lemma sum_toks_kept : sum_toks kept = total tokOf kept.
Proof.
  rewrite sum_toks_exact, exact_toks_total. apply wrap64_id.
  pose proof (total_nonneg tokOf kept kept_toks_nonneg).
  destruct Hok as (_&_&Hm). rewrite exact_toks_total in Hm.
  unfold in_int64, int64_min, int64_max in *. lia.
Qed.

(** Room at [t], dimension by dimension. *)
Definition dim_room (val : rateEntry → Z) (ceil : Z) (t : Time) : bool :=
  (ceil <=? 0) || (total val (still (rc_Window c) t kept) <? ceil).

Lemma rate_room_dims t :
  now ≤ t → rate_room l p t = dim_room reqOf (rc_Requests c) t && dim_room tokOf (rc_Tokens c) t.
Proof.
  intros Ht. unfold rate_room, dim_room, CapacityResolve.window. rewrite Hc. fold use.
  by rewrite (kept_still t Ht), sum_reqs_total, still_toks.
Qed.

Lemma still_now : still (rc_Window c) now kept = kept.
Proof. apply in_window_idem. Qed.

(** One full dimension: it frees at exactly the time found. *)
Lemma dim_free val ceil :
  Forall (λ e, 0 ≤ val e) kept → total val kept ≤ int64_max → 0 < ceil ≤ total val kept →
  ∃ t, rateFreeAt (sort_by re_before kept) (total val kept) ceil (rc_Window c) val = Some t ∧ now < t ∧
    ∀ t', now ≤ t' → dim_room val ceil t' = true ↔ t ≤ t'.
Proof.
  intros Hnn Hmax Hc'. set (es := sort_by re_before kept).
  assert (es ≡ₚ kept) as Hp by apply sort_by_perm.
  destruct (rateFreeAt_exact val (rc_Window c) es ceil) as (t&e&Hf&Hin&Ht&Hlt&Hge).
  - apply sort_by_sorted. exact _.
  - by rewrite Hp.
  - by rewrite (total_perm val _ _ Hp).
  - by rewrite (total_perm val _ _ Hp).
  - rewrite (total_perm val es kept Hp) in Hf. exists t. split; [done|].
    assert (∀ t', total val (still (rc_Window c) t' es) = total val (still (rc_Window c) t' kept)) as Hst.
    { intros t'. apply total_perm. unfold still. by rewrite Hp. }
    rewrite Hst in Hlt. split.
    + rewrite Hp in Hin. apply list_elem_of_filter in Hin as [Hin _].
      unfold After, Add in *. bools. lia.
    + intros t' Ht'. unfold dim_room. rewrite orb_true_iff, Z.leb_le, Z.ltb_lt. split.
      * intros [?|H]; [lia|]. destruct (Z.le_gt_cases t t') as [|Hlt']; [done|].
        specialize (Hge t' Hlt'). rewrite Hst in Hge. lia.
      * intros Hle. right. pose proof (still_mono val (rc_Window c) t t' kept Hnn Hle). lia.
Qed.

Lemma dim_open val ceil t :
  Forall (λ e, 0 ≤ val e) kept → total val kept < ceil ∨ ceil ≤ 0 → dim_room val ceil t = true.
Proof.
  intros Hnn H. unfold dim_room. apply orb_true_iff. rewrite Z.leb_le, Z.ltb_lt.
  pose proof (still_nonneg val (rc_Window c) t kept Hnn). lia.
Qed.

(** What [rateFreeAt] is asked for one dimension. *)
Definition dim_query (val : rateEntry → Z) (ceil used : Z) : option Time :=
  if (0 <? ceil) && (ceil <=? used)
  then rateFreeAt (sort_by re_before kept) used ceil (rc_Window c) val else None.

Lemma dim_query_spec val ceil :
  Forall (λ e, 0 ≤ val e) kept → total val kept ≤ int64_max →
  match dim_query val ceil (total val kept) with
  | Some t => now < t ∧ ∀ t', now ≤ t' → dim_room val ceil t' = true ↔ t ≤ t'
  | None => ∀ t', dim_room val ceil t' = true
  end.
Proof.
  intros Hnn Hmax. unfold dim_query.
  destruct (0 <? ceil) eqn:E1, (ceil <=? total val kept) eqn:E2; simpl; bools;
    try (intros t'; apply dim_open; [done|lia]).
  destruct (dim_free val ceil Hnn Hmax) as (t&->&?&?); [lia|done].
Qed.

Lemma reset_exact :
  rate_room l p now = false →
  ∃ t, (rateResetLocked l p now).2 = Some t ∧ ∀ t', now ≤ t' → rate_room l p t' = true ↔ t ≤ t'.
Proof.
  intros Hblk. pose proof (dim_query_spec reqOf (rc_Requests c) kept_reqs_nonneg) as Ha.
  pose proof (dim_query_spec tokOf (rc_Tokens c) kept_toks_nonneg) as Hb.
  destruct Hok as (_&Hm1&Hm2). rewrite sum_reqs_total in Hm1. rewrite exact_toks_total in Hm2.
  specialize (Ha Hm1). specialize (Hb Hm2).
  assert ((rateResetLocked l p now).2 =
    match pick_later (dim_query reqOf (rc_Requests c) (total reqOf kept))
                     (dim_query tokOf (rc_Tokens c) (total tokOf kept)) with
    | Some at_ => Some at_
    | None => match sort_by re_before kept with e :: _ => Some (Add (re_At e) (rc_Window c)) | [] => None end
    end) as ->.
  { unfold rateResetLocked, rateWindowLocked, dim_query. rewrite Hc. fold use. fold kept.
    rewrite sum_reqs_total, sum_toks_kept. simpl. by destruct (pick_later _ _). }
  rewrite rate_room_dims in Hblk by lia.
  destruct (dim_query reqOf _ _) as [a|], (dim_query tokOf _ _) as [b|]; simpl.
  - destruct Ha as [_ Ha], Hb as [_ Hb]. unfold After.
    destruct (a <? b) eqn:E; bools; eexists; (split; [done|]); intros t' Ht';
      rewrite rate_room_dims, andb_true_iff, Ha, Hb by done; lia.
  - destruct Ha as [_ Ha]. exists a. split; [done|]. intros t' Ht'.
    rewrite rate_room_dims, Hb, andb_true_r by done. by apply Ha.
  - destruct Hb as [_ Hb]. exists b. split; [done|]. intros t' Ht'.
    rewrite rate_room_dims, Ha by done. by apply Hb.
  - by rewrite Ha, Hb in Hblk.
Qed.
End reset.

(** * Capacity: lemmas on adoption, rate bounds and single-lease updates *)

#[local] Open Scope Z_scope.

(** ** Placing a request never repeats one of its pools *)

Lemma occurrences_app p a b : occurrences p (a ++ b) = (occurrences p a + occurrences p b)%nat.
Proof. unfold occurrences. by rewrite filter_app, length_app. Qed.

Lemma occurrences_not_in p a : p ∉ a → occurrences p a = 0%nat.
Proof.
  unfold occurrences. induction a as [|x a IH]; intros H; [done|].
  rewrite filter_cons_False by set_solver. apply IH. set_solver.
Qed.

Lemma occurrences_in p a : p ∈ a → (1 ≤ occurrences p a)%nat.
Proof.
  unfold occurrences. intros H. destruct (filter (λ q, q = p) a) eqn:E; simpl; [|lia].
  assert (p ∈ filter (λ q, q = p) a) as Hin by (by apply list_elem_of_filter).
  rewrite E in Hin. by apply elem_of_nil in Hin.
Qed.

Lemma occurrences_filter p (P : string → Prop) `{!∀ x, Decision (P x)} a :
  (occurrences p (filter P a) ≤ occurrences p a)%nat.
Proof.
  unfold occurrences. induction a as [|x a IH]; [done|].
  rewrite (filter_cons P). case_decide; rewrite ?(filter_cons (λ q, q = p)); repeat case_decide; simpl; lia.
Qed.

Lemma occurrences_swap p np vp b ps :
  p ≠ vp → (occurrences p (swap_loop np vp b ps) ≤ occurrences p ps)%nat.
Proof.
  intros Hne. unfold occurrences. revert b. induction ps as [|q ps IH]; intros b; [done|]. simpl.
  pose proof (IH b) as IH1. pose proof (IH true) as IH2. simpl in *.
  destruct (String.eqb q np); [destruct b|]; rewrite ?filter_cons; repeat case_decide; simplify_eq; simpl; lia.
Qed.

Lemma place_occurrences o l req bound p :
  HasPrefix p "node-verify:" = false → place o l req = Some bound →
  (occurrences p (rq_Pools req) ≤ 1)%nat → (occurrences p (rq_Pools bound) ≤ 1)%nat.
Proof.
  intros Hp Hpl Hocc. assert (∀ n, p ≠ VerifierPool n) as Hv.
  { intros n ->. unfold VerifierPool in Hp. by rewrite HasPrefix_app in Hp. }
  unfold place in Hpl. destruct (adoption_clear o l); [|done]. simpl in Hpl. destruct (multiNode req).
  - destruct (List.find _ _) as [n|]; simpl in Hpl; [|done]. injection Hpl as <-.
    unfold bind_node, withNodePool. simpl.
    set (pool := ledgerNodePoolLocked l (rq_Role req) n).
    set (ps := if negb _ then _ else _).
    assert (occurrences p ps ≤ 1)%nat as Hps.
    { unfold ps. case_match; [|done]. etrans; [apply occurrences_filter|done]. }
    destruct (sharesPool ps [pool]) eqn:E; [done|]. apply sharesPool_single_false in E.
    rewrite occurrences_app. destruct (decide (p = pool)) as [->|Hne].
    + rewrite (occurrences_not_in pool ps) by done. unfold occurrences. by rewrite filter_cons_True.
    + rewrite (occurrences_not_in p [pool]); [lia|set_solver].
  - case_match; [|done]. injection Hpl as <-. unfold swapVerifierNodePoolLocked. repeat case_match; try done.
    simpl. etrans; [apply occurrences_swap, Hv|done].
Qed.

(** No pass takes a ceilinged pool over its requests ceiling. *)
Lemma dispatch_rate_le o l p c :
  range_ok o → rates l !! p = Some c → active c = true → 0 < rc_Requests c →
  HasPrefix p "node-verify:" = false →
  (∀ w, w ∈ waiters l → (occurrences p (rq_Pools (w_req (refreshWaiterLocked o w))) ≤ 1)%nat) →
  sum_reqs (window (dispatchLocked o l) p c (Now o)) ≤ Z.max (sum_reqs (window l p c (Now o))) (rc_Requests c).
Proof.
  intros Hr Hc Hact Hpos Hpre Hocc. unfold active in Hact. bools.
  set (u l' := sum_reqs (window l' p c (Now o))).
  enough (u (dispatchLocked o l) ≤ Z.max (u l) (rc_Requests c) ∧ rates (dispatchLocked o l) = rates l)
    as [? _] by done.
  apply (dispatch_ind o l (λ l', u l' ≤ Z.max (u l) (rc_Requests c) ∧ rates l' = rates l));
    [done| |done| |done|split; [lia|done]].
  - intros l1 l2 Hsc [Hu Hrt]. rewrite (sc_rates _ _ _ Hsc). split; [|done]. unfold u in *.
    by rewrite (sc_window _ _ _ Hsc p c) by (by rewrite Hrt).
  - intros l' w bound Hw Hp [Hu Hrt]. rewrite grant_rates. split; [|done]. unfold u in *.
    assert (rates l' !! p = Some c) as Hc' by (by rewrite Hrt).
    rewrite (grant_window w bound l' o p c), sum_reqs_app by done.
    unfold counts_requests. rewrite Hc'. assert ((0 <? rc_Requests c) = true) as -> by (by apply Z.ltb_lt).
    rewrite sum_reqs_new.
    destruct (decide (p ∈ rq_Pools bound)) as [Hin|Hni]; [|rewrite occurrences_not_in by done; lia].
    apply list_elem_of_fmap in Hw as (w0 & -> & Hw0).
    pose proof (place_occurrences o l' _ bound p Hpre Hp (Hocc w0 Hw0)).
    pose proof (pools_ok_elem o l' bound p (place_pools_ok _ _ _ _ Hp) Hin) as Hok.
    unfold pool_ok, rate_room in Hok. rewrite Hc' in Hok.
    apply andb_true_iff in Hok as [[_ [Hreq _]%andb_true_iff]%andb_true_iff _].
    apply orb_true_iff in Hreq as [?|?]; bools; lia.
Qed.

(** ** One lease at a time *)

Lemma held_update l k f p ls :
  leases l !! k = Some ls →
  heldLocked (update_lease k f l) p =
  heldLocked l p - (if names_pool p ls then 1 else 0) + (if names_pool p (f ls) then 1 else 0).
Proof.
  intros Hk. rewrite !held_names. unfold update_lease. simpl. rewrite (alter_alt_Some f (leases l) k ls Hk).
  rewrite <- insert_delete_eq, count_insert by apply lookup_delete_eq.
  rewrite (count_delete _ (leases l) k ls Hk). lia.
Qed.

Lemma update_absent l k f : leases l !! k = None → update_lease k f l = l.
Proof. intros Hk. unfold update_lease. rewrite alter_id' by done. by destruct l. Qed.

(** An update that leaves the pools alone leaves every pool's holders alone. *)
Lemma held_update_same l k f p :
  (∀ ls, le_Pools (f ls) = le_Pools ls) → heldLocked (update_lease k f l) p = heldLocked l p.
Proof.
  intros Hf. destruct (leases l !! k) as [ls|] eqn:Hk; [|by rewrite update_absent].
  rewrite (held_update l k f p ls Hk). unfold names_pool. rewrite Hf. lia.
Qed.

Lemma reads_update_same o l k f p :
  (∀ ls, le_Pools (f ls) = le_Pools ls) → reads o (update_lease k f l) p = reads o l p.
Proof. intros Hf. unfold reads. by rewrite held_update_same. Qed.

Lemma node_not_llm n : HasPrefix (node_pool n) "llm:" = false.
Proof. done. Qed.

(** ** Adoption and the node limit *)

Section strict.
Context (o : Options) (n : string) (Hr : range_ok o).
Context (Hstrict : optOn (StrictNodeLimit o) = true).
Let p := node_pool n.

(** A lease joins the node pool only below its limit. *)
Lemma place_adopted_joins l node ls :
  0 < Limit l p → names_pool p ls = false → names_pool p (place_adopted o l node ls) = true →
  reads o l p < Limit l p.
Proof.
  intros Hlim Hno. unfold place_adopted. case_match eqn:E; [by rewrite Hno|].
  case_match eqn:E2; [by unfold names_pool in *; simpl in *; rewrite Hno|].
  unfold names_pool in *. simpl. intros Hin. bools.
  apply elem_of_app in Hin as [?|Hin]; [done|]. apply list_elem_of_singleton in Hin.
  unfold p in *. rewrite <- Hin, Hstrict, andb_true_r in E2. apply andb_false_iff in E2.
  pose proof (reads_le_used o l (node_pool n) (node_not_llm n)). destruct E2; bools; lia.
Qed.

Lemma placeAdopted_reads k node l :
  0 < Limit l p → reads o (placeAdoptedLocked o k node l) p ≤ Z.max (reads o l p) (Limit l p).
Proof.
  intros Hlim. unfold placeAdoptedLocked. set (l1 := update_lease k (ls_set_Node node) l).
  assert (reads o l1 p = reads o l p) as H1 by (by apply reads_update_same).
  assert (Limit l1 p = Limit l p) as HL by done.
  destruct (leases l1 !! k) as [ls|] eqn:Hk; [|rewrite update_absent by done; lia].
  unfold reads in *. rewrite (held_update l1 k _ p ls Hk).
  destruct (names_pool p ls) eqn:Hno, (names_pool p (place_adopted o l1 node ls)) eqn:Hyes; try lia.
  pose proof (place_adopted_joins l1 node ls) as Hj. unfold reads in Hj. rewrite HL in Hj.
  specialize (Hj Hlim Hno Hyes). lia.
Qed.

Lemma rehome_reads k pools l :
  0 < Limit l p → p ∉ pools → reads o (rehomeLocked o k pools "" l) p ≤ Z.max (reads o l p) (Limit l p).
Proof.
  intros Hlim Hni. unfold rehomeLocked.
  set (l1 := signalChangedLocked (update_lease k (rehome_lease pools "") l)).
  assert (reads o l1 p ≤ reads o l p) as H1.
  { unfold reads. change (heldLocked l1 p) with (heldLocked (update_lease k (rehome_lease pools "") l) p).
    destruct (leases l !! k) as [ls|] eqn:Hk; [|by rewrite update_absent].
    rewrite (held_update l k _ p ls Hk).
    assert (names_pool p (rehome_lease pools "" ls) = false) as ->; [|destruct (names_pool p ls); lia].
    unfold names_pool, rehome_lease, poolsWithNode. simpl. by apply bool_decide_eq_false. }
  pose proof (dispatch_reads_le o l1 p Hr (node_not_llm n)) as Hd.
  assert (Limit l1 p = Limit l p) as HL by done. rewrite HL in Hd. specialize (Hd Hlim). lia.
Qed.

Lemma refresh_adopted_reads k req sid l :
  0 < Limit l p → p ∉ rq_Pools req →
  reads o (refreshAdoptedLocked o k req sid l) p ≤ Z.max (reads o l p) (Limit l p).
Proof.
  intros Hlim Hni. unfold refreshAdoptedLocked. set (l1 := if nonempty sid then _ else l).
  assert (reads o l1 p = reads o l p ∧ Limit l1 p = Limit l p) as [H1 HL].
  { unfold l1. case_match; [|done]. split; [by apply reads_update_same|done]. }
  destruct (leases l1 !! k) as [ls|]; [|lia]. rewrite <- H1, <- HL in *.
  case_match; [by apply rehome_reads|]. case_match; [|case_match; [|lia]].
  - etrans; [by apply placeAdopted_reads|]. rewrite reads_update_same by done. done.
  - rewrite reads_update_same by done. lia.
Qed.

Lemma adopt_new_reads rnow req sid l :
  0 < Limit l p → p ∉ rq_Pools req →
  reads o (adopt_new o rnow req sid l) p ≤ Z.max (reads o l p) (Limit l p).
Proof.
  intros Hlim Hni. unfold adopt_new. set (ls := if nonempty (rq_Node req) then _ else _).
  set (l1 := l_set_leases (<[rq_Holder req:=ls]> (leases l)) l).
  assert (reads o l1 p ≤ Z.max (reads o l p) (Limit l p)) as H1.
  { unfold reads, l1. pose proof (held_insert_le l p (rq_Holder req) ls).
    destruct (names_pool p ls) eqn:E; [|lia]. unfold ls in E.
    assert (∀ m, names_pool p (ls_set_Node m (adopted_lease req sid rnow)) = false) as Hno
      by (intros; by apply bool_decide_eq_false).
    case_match; [|pose proof (Hno "") as Hno0; change (names_pool p (adopted_lease req sid rnow) = false) in Hno0; by rewrite Hno0 in E].
    pose proof (place_adopted_joins l _ _ Hlim (Hno _) E). unfold reads in *. lia. }
  destruct (record_frame (Now o) (l_set_lastGrant (<[rq_PRDID req:=rnow]> (lastGrant l1)) l1) (le_Pools ls)) as [ru Hru].
  rewrite Hru. by case_match.
Qed.

Lemma adopt_reads rnow req sid succ l :
  0 < Limit l p → p ∉ rq_Pools req →
  reads o (Adopt o rnow req sid succ l) p ≤ Z.max (reads o l p) (Limit l p).
Proof.
  intros Hlim Hni. unfold Adopt. destruct (leases l !! rq_Holder req); [by apply refresh_adopted_reads|].
  case_match; [lia|]. case_match; [by apply refresh_adopted_reads|by apply adopt_new_reads].
Qed.
End strict.

(** ** Re-keying a lease *)

Section rekey.
Context (a b : string) (ls : Lease) (m : gmap string Lease).
Context (Ha : m !! a = Some ls) (Hb : m !! b = None).
Let m' := <[b := ls_set_Holder b ls]> (delete a m).

Lemma rekey_fresh : delete a m !! b = None.
Proof. rewrite lookup_delete_None. auto. Qed.

Lemma rekey_count P : (∀ k k' x, P k x = P k' (ls_set_Holder b x)) → count P m' = count P m.
Proof.
  intros HP. unfold m'. rewrite count_insert by apply rekey_fresh.
  rewrite (count_delete P m a ls Ha). by rewrite <- (HP a b ls).
Qed.

Lemma rekey_used o lim p : used_in o lim m' p = used_in o lim m p.
Proof.
  unfold used_in, by_node_fold. rewrite !rekey_count by done.
  enough (by_node_fold lim p m' = by_node_fold lim p m) as E by (unfold by_node_fold in E; by rewrite E).
  unfold m'. rewrite by_node_fold_insert by apply rekey_fresh.
  rewrite <- (insert_delete_id m a ls Ha) at 2. by rewrite by_node_fold_insert by apply lookup_delete_eq.
Qed.
End rekey.
