(* ===== verification/CapacityTheorems.v ===== *)
(** * Capacity: what the ledger guarantees

    The properties of the admission ledger, each with a witness on the small
    concrete ledgers of [Demo]. *)

From S2P Require Import Prelude GoBase CapacityLedger CapacityResolve.
From S2P Require Import CapacityPlace CapacityPass CapacityOps.
From S2P Require Import CapacityView CapacityInvariant CapacityFair CapacityRates.

#[local] Open Scope Z_scope.

(** ** Concrete ledgers *)
Module Demo.
(** No hooks; the map is ranged over in key order. *)
Definition opts (now : Time) : Options :=
  New_options (mkOptions None None None None None None None None None None None 0 0 0 now
    (λ _, mkPlacement [] "" [] []) map_to_list).

(** A worker asking for [pools] on one of [nodes]. *)
Definition req (holder : string) (role : Role) (pools nodes : list string) : Request :=
  mkRequest holder "prd" 0 pools "" "" ((λ n, mkNodeChoice n 0) <$> nodes) [] "" "m" role false false None.

Definition lim (l : list (string * Z)) : Ledger := l_set_limits (list_to_map l) New.

Definition two_nodes : Ledger := lim [("node:a", 1); ("node:b", 1); ("host", 5)].
Definition r1 : Request := req "t1" RoleWorker ["host"] ["a"; "b"].
Definition r2 : Request := req "t2" RoleWorker ["host"] ["a"; "b"].
Definition r3 : Request := req "t3" RoleWorker ["host"] ["a"; "b"].

(** Two requests granted; a third queued. *)
Definition full : Ledger := (Acquire (opts 2) r2 (Acquire (opts 1) r1 two_nodes).1).1.
Definition busy : Ledger := (Acquire (opts 3) r3 full).1.

(** One pool with a ceiling of one request an hour, used up. *)
Definition ceiling : RateCeiling := mkRateCeiling 1 0 Hour.
Definition metered : Ledger :=
  (Acquire (opts 100) (req "t1" RoleWorker ["llm:x"] []) (SetRate (opts 50) "llm:x" ceiling New)).1.

(** A lease moved onto a node by its name. *)
Definition rehomed : Ledger := (Rehome (opts 2) "t1" ["host"] "c" (Acquire (opts 1) r1 New).1).1.

Lemma opts_range now : range_ok (opts now).
Proof. by intros m. Qed.

Lemma two_nodes_wf : wf two_nodes.
Proof.
  split; [split|].
  - apply map_Forall_empty.
  - apply map_Forall_to_list. vm_compute. repeat constructor.
  - apply map_Forall_empty.
  - apply (New_wf (placed := true)).
Qed.

Lemma busy_wf : wf busy.
Proof. repeat (apply acquire_wf; [apply opts_range|vm_compute; reflexivity|]). apply two_nodes_wf. Qed.
End Demo.

(** ** Lemmas *)

Lemma reach_wf unnamed l : reachable unnamed l → wf_at unnamed l.
Proof.
  unfold reachable. intros H. remember New as l0 eqn:E.
  assert (wf_at unnamed l0) as Hwf by (subst; apply New_wf). clear E.
  induction H as [|x y z Hs Hr IH]; [done|]. apply IH. destruct Hs. by apply run_wf.
Qed.

Lemma count_or_disjoint {V} (P Q : string → V → bool) (m : gmap string V) :
  (∀ k v, m !! k = Some v → P k v = true → Q k v = false) →
  count (λ k v, P k v || Q k v) m = count P m + count Q m.
Proof.
  induction m as [|k v m Hk IH] using map_ind; intros H; [done|].
  rewrite !count_insert by done. rewrite IH.
  - specialize (H k v (lookup_insert_eq _ _ _)). destruct (P k v); simpl; [rewrite H by done|]; lia.
  - intros k' v' Hk'. apply H. rewrite lookup_insert_ne; [done|congruence].
Qed.

(** A lease occupies a node inside its pool or as overflow. *)
Definition occupies (n : string) (ls : Lease) : bool :=
  bool_decide (node_pool n ∈ le_Pools ls) || (le_NodeOverflow ls && String.eqb (le_Node ls) n).

Lemma wf_node_usage o l n :
  wf l → usedLocked o l (node_pool n) = count (λ _, occupies n) (leases l) + external o (node_pool n).
Proof.
  intros [[Hok _ _] _]. rewrite used_eq. unfold used_in.
  assert (HasPrefix (node_pool n) "node:" = true) as -> by apply HasPrefix_app.
  unfold node_pool at 2. rewrite TrimPrefix_app. f_equal. symmetry. apply count_or_disjoint.
  intros k ls Hls Hin. destruct (Hok k ls Hls) as (_&Hov&_). destruct (le_NodeOverflow ls); [|done].
  destruct (Hov eq_refl) as [_ Hni]. specialize (Hni eq_refl). simpl. apply String.eqb_neq. intros <-. by bools.
Qed.

(** Every admission path ends in a pass over a ledger whose pools are no fuller. *)
Lemma dispatch_used_after o l l0 p :
  range_ok o → Limit l p = Limit l0 p → usedLocked o l p ≤ usedLocked o l0 p → 0 < Limit l0 p →
  usedLocked o (dispatchLocked o l) p ≤ Z.max (usedLocked o l0 p) (Limit l0 p).
Proof.
  intros Hr HL Hu Hlim. rewrite <- HL in *. etrans; [by apply dispatch_used_le|]. lia.
Qed.

Lemma used_same_leases o l l' p :
  limits l' = limits l → leases l' = leases l → usedLocked o l' p ≤ usedLocked o l p.
Proof. intros Hl Hm. by rewrite (used_core o l l' p Hl Hm). Qed.

Lemma used_after_delete o l k p :
  usedLocked o (l_set_leases (delete k (leases l)) l) p ≤ usedLocked o l p.
Proof. rewrite !used_eq. simpl. apply used_delete_le. Qed.

Lemma reap_used o dead l p :
  usedLocked o (foldl reap_one (l, []) dead).1 p ≤ usedLocked o l p ∧
  limits (foldl reap_one (l, []) dead).1 = limits l.
Proof.
  apply (foldl_invariant (λ acc, usedLocked o acc.1 p ≤ usedLocked o l p ∧ limits acc.1 = limits l));
    [|done]. intros [l' out] d _ [Hu Hl]. unfold reap_one.
  destruct (leases l' !! le_Holder d); [|done]. case_match; [|done]. simpl in *. split; [|done].
  etrans; [apply used_after_delete|done].
Qed.

Lemma remove_used o s l p :
  range_ok o → 0 < Limit l p → usedLocked o (remove o s l) p ≤ Z.max (usedLocked o l p) (Limit l p).
Proof.
  intros Hr Hlim. unfold remove. simpl. apply dispatch_used_after; try done; case_match; try done.
  etrans; [|apply (used_after_delete o l (rq_Holder (w_req w)))]. by apply used_same_leases.
Qed.

(** Operations that admit or free work; the others set limits, adopt, move or
    re-key leases, or only read. *)
Definition admits (c : op) : bool :=
  match c with
  | OpSetRate _ _ | OpRecordTokens _ _ | OpMarkAdoptionComplete | OpReplan | OpAcquire _
  | OpAcquireStep _ _ _ | OpRetarget _ _ | OpRelease _ | OpReap _ => true
  | _ => false
  end.

Lemma admit_used o c l p :
  range_ok o → admits c = true → 0 < Limit l p →
  usedLocked o (run o c l) p ≤ Z.max (usedLocked o l p) (Limit l p).
Proof.
  intros Hr Hc Hlim. destruct c as [| |pool n| | | | | |req|s ev al|holder req| | | |holder| |dead| |];
    try done; clear Hc; simpl.
  - unfold SetRate. apply dispatch_used_after; try done; case_match; try done; by apply used_same_leases.
  - unfold RecordTokens. case_match; [lia|]. case_match; [|lia]. by apply dispatch_used_after.
  - unfold MarkAdoptionComplete. case_match; [lia|]. by apply dispatch_used_after.
  - by apply dispatch_used_after.
  - unfold Acquire. case_match; [simpl; lia|].
    assert (usedLocked o (dispatchLocked o (enqueue o req l)) p ≤ Z.max (usedLocked o l p) (Limit l p))
      by (by apply dispatch_used_after). by case_match.
  - pose proof (remove_used o s l p Hr Hlim). unfold acquire_step.
    assert (usedLocked o (dispatchLocked o l) p ≤ Z.max (usedLocked o l p) (Limit l p))
      by (by apply dispatch_used_le). repeat case_match; simplify_eq; try done; lia.
  - unfold Retarget. case_match; [simpl; lia|]. case_match; [|simpl; lia]. case_match; [simpl; lia|].
    by apply dispatch_used_after.
  - unfold Release. case_match; [|lia]. apply dispatch_used_after; try done.
    etrans; [|apply (used_after_delete o l holder)]. by apply used_same_leases.
  - unfold reap_commit. destruct dead as [|d dead]; [simpl; lia|].
    destruct (reap_used o (d :: dead) l p) as [Hu Hl].
    destruct (foldl reap_one (l, []) (d :: dead)) as [l1 out]. simpl in Hu, Hl. simpl.
    destruct out; [lia|]. apply dispatch_used_after; try done. unfold Limit. simpl. by rewrite Hl.
Qed.

(** ** The queue across a pass *)

(** What identifies a queued request: its place in line and what it asks. *)
Definition ident (w : waiter) : Z * Time * Request := (w_seq w, w_since w, w_req w).

Lemma ident_set_reason s why ws : ident <$> set_reason s why ws = ident <$> ws.
Proof.
  unfold set_reason. rewrite <- list_fmap_compose. apply list_fmap_ext. intros i w _. simpl. by case_match.
Qed.

(** A pass only takes waiters off the queue; the others keep their place. *)
Lemma dispatch_queue_sublist o l :
  sublist (ident <$> waiters (dispatchLocked o l)) (ident <$> (refreshWaiterLocked o <$> waiters l)).
Proof.
  rewrite dispatch_eq, <- pass_queue_waiters.
  apply (dispatch_loop_ind o (λ _ l', sublist (ident <$> waiters l') (ident <$> waiters (pass_queue o l)))); [| |done].
  - intros w ws l1 l2 why Hc _ _ Hs. simpl. by rewrite ident_set_reason.
  - intros w ws l1 l2 bound Hc _ Hs. rewrite grant_waiters. simpl.
    etrans; [apply fmap_sublist, remove_waiter_sublist|]. by rewrite ident_set_reason.
Qed.

Lemma dispatch_waiter o l w :
  w ∈ waiters (dispatchLocked o l) →
  ∃ w0, w0 ∈ waiters l ∧ w_seq w = w_seq w0 ∧ w_since w = w_since w0 ∧
        w_req w = withoutStaleNode (apply_refresh o (w_req w0)).
Proof.
  intros Hw. apply (list_elem_of_fmap_2 ident) in Hw.
  pose proof (elem_of_sublist _ _ _ Hw (dispatch_queue_sublist o l)) as Hin.
  apply list_elem_of_fmap in Hin as (w1 & Hid & Hw1). apply list_elem_of_fmap in Hw1 as (w0 & -> & Hw0).
  injection Hid as ? ? ?. by exists w0.
Qed.

Lemma dispatch_seq o l : seq (dispatchLocked o l) = seq l.
Proof.
  rewrite dispatch_eq. apply (dispatch_loop_ind o (λ _ l', seq l' = seq l)).
  - intros w ws l1 l2 why Hc _ _ Hs. simpl. by rewrite (sc_seq _ _ _ Hc).
  - intros w ws l1 l2 bound Hc _ Hs. destruct (grant_frame w bound (Now o)
      (l_set_waiters (set_reason (w_seq w) "" (waiters l1)) l2)) as (_&_&_&->&_). simpl. by rewrite (sc_seq _ _ _ Hc).
  - unfold pass_queue. simpl. by destruct (promote_frame o l) as (_&_&Hs&_).
Qed.

(** Granted waiters stay granted. *)
Lemma granted_stays o ws l s :
  s ∉ (w_seq <$> ws) → granted (foldl (dispatch_one o (Now o)) l ws) !! s = granted l !! s.
Proof.
  revert l. induction ws as [|w ws IH]; intros l Hs; simpl; [done|]. rewrite fmap_cons in Hs.
  rewrite IH by set_solver. destruct (dispatch_one_cases o l w) as (l1 & why & Hc & H).
  destruct (place o l (w_req w)) as [bound|]; simpl in H.
  - destruct H as (_&_&->). rewrite grant_granted. simpl. rewrite (sc_granted _ _ _ Hc).
    apply lookup_insert_ne. set_solver.
  - destruct H as (_&->). simpl. by rewrite (sc_granted _ _ _ Hc).
Qed.

(** In its turn, a waiter is granted exactly when it can be placed. *)
Lemma turn o l w ws1 ws2 :
  wf l → orderLocked o (pass_queue o l) (Now o) = ws1 ++ w :: ws2 →
  is_granted (dispatchLocked o l) (w_seq w) = true ↔
  place o (foldl (dispatch_one o (Now o)) (pass_queue o l) ws1) (w_req w) ≠ None.
Proof.
  intros [_ (_&Hnd&_&Hg)] Hord. rewrite dispatch_eq, Hord, foldl_app. simpl.
  set (l1 := foldl (dispatch_one o (Now o)) (pass_queue o l) ws1).
  assert (NoDup (w_seq <$> (ws1 ++ w :: ws2))) as Hnd'.
  { rewrite <- Hord. unfold orderLocked, orderListLocked. rewrite sort_by_perm, pass_queue_waiters, seqs_refresh.
    exact Hnd. }
  rewrite fmap_app, fmap_cons in Hnd'. apply NoDup_app in Hnd' as (_ & Hd & Hnd2).
  apply NoDup_cons in Hnd2 as [Hni2 _].
  assert (w_seq w ∉ w_seq <$> ws1) as Hni1 by (intros Hin; apply (Hd _ Hin); left).
  unfold is_granted. rewrite granted_stays by done.
  assert (granted l1 !! w_seq w = None) as Hnone.
  { unfold l1. rewrite granted_stays by done. unfold pass_queue. simpl.
    destruct (promote_frame o l) as (_&_&_&_&_&_&_&_&_&_&Hgr). simpl in Hgr. rewrite Hgr.
    destruct (granted l !! w_seq w) eqn:E; [|done]. destruct (Hg _ _ E) as (_&_&Hni). destruct Hni.
    assert (w ∈ waiters (pass_queue o l)) as Hw by (apply (elem_of_order o _ (Now o)); rewrite Hord; set_solver).
    unfold seqs. rewrite <- (seqs_refresh o), <- pass_queue_waiters. by apply list_elem_of_fmap_2. }
  destruct (dispatch_one_cases o l1 w) as (l2 & why & Hc & H).
  destruct (place o l1 (w_req w)) as [bound|]; simpl in H.
  - destruct H as (_&_&->). rewrite grant_granted, lookup_insert_eq. done.
  - destruct H as (_&->). simpl. by rewrite (sc_granted _ _ _ Hc), Hnone.
Qed.

(** ** Retarget and WouldGrant *)

Lemma apply_refresh_again o req :
  withoutStaleNode (apply_refresh o (withoutStaleNode (apply_refresh o req))) =
  withoutStaleNode (apply_refresh o req).
Proof.
  assert (∀ r, rq_Refresh (withoutStaleNode r) = rq_Refresh r) as Hr.
  { intros r. unfold withoutStaleNode. by repeat case_match. }
  assert (∀ r pl, with_placement (withoutStaleNode r) pl = with_placement r pl) as Hp.
  { intros r pl. unfold withoutStaleNode. by repeat case_match. }
  unfold apply_refresh at 2 3. destruct (rq_Refresh req) as [f|] eqn:E.
  - unfold apply_refresh. rewrite Hr. simpl. rewrite E. by rewrite Hp.
  - unfold apply_refresh. rewrite Hr, E. apply withoutStaleNode_idem.
Qed.

Lemma choices_eqb_refl cs : choices_eqb cs cs = true.
Proof.
  induction cs as [|c cs IH]; [done|]. simpl. rewrite IH. unfold choice_eqb.
  by rewrite String.eqb_refl, Z.eqb_refl.
Qed.

Lemma samePlacement_refl r : samePlacement r r = true.
Proof.
  unfold samePlacement, slicesEqualStrings.
  by rewrite !bool_decide_eq_true_2, String.eqb_refl, choices_eqb_refl.
Qed.

Lemma retarget_seq o holder req l : seq (Retarget o holder req l).1 = seq l.
Proof.
  unfold Retarget. case_match; [done|]. case_match; [|done]. case_match; [done|].
  simpl. by rewrite dispatch_seq.
Qed.

Lemma retarget_places o holder req l :
  sublist ((λ w, (w_seq w, w_since w)) <$> waiters (Retarget o holder req l).1)
          ((λ w, (w_seq w, w_since w)) <$> waiters l).
Proof.
  unfold Retarget. case_match; [done|]. case_match; [|done]. case_match; [done|]. simpl.
  match goal with |- sublist (_ <$> waiters (dispatchLocked o ?l1)) _ =>
    pose proof (fmap_sublist fst _ _ (dispatch_queue_sublist o l1)) as Hs end.
  rewrite <- !list_fmap_compose in Hs. etrans; [exact Hs|]. simpl.
  unfold set_req. rewrite <- list_fmap_compose.
  erewrite (list_fmap_ext _ (λ w, (w_seq w, w_since w)) (waiters l)); [done|].
  intros i x _. unfold compose. simpl. by case_match.
Qed.

Lemma find_holder h ws w :
  List.find (λ w, String.eqb (rq_Holder (w_req w)) h) ws = Some w → w ∈ ws ∧ rq_Holder (w_req w) = h.
Proof. intros H. apply find_some in H as [Hin Heq]. bools. by apply list_elem_of_In in Hin. Qed.

Lemma apply_refresh_holder o r : rq_Holder (withoutStaleNode (apply_refresh o r)) = rq_Holder r.
Proof.
  destruct (withoutStaleNode_keeps (apply_refresh o r)) as [-> _]. unfold apply_refresh. by case_match.
Qed.

(** After a move the holder's queued request, if any, asks for the new placement. *)
Lemma moved_request o holder req l w w2 :
  NoDup (holders (waiters l)) → w ∈ waiters l → rq_Holder (w_req w) = holder →
  let req' := withoutStaleNode (apply_refresh o req) in
  w2 ∈ waiters (dispatchLocked o (signalChangedLocked (l_set_waiters (set_req (w_seq w) req' (waiters l)) l))) →
  rq_Holder (w_req w2) = holder → w_req w2 = req'.
Proof.
  intros Hnd Hw Hwh req' Hw2 Hh2. apply dispatch_waiter in Hw2 as (w0&Hw0&_&_&Hr0). simpl in Hw0.
  rewrite Hr0 in Hh2 |- *. rewrite apply_refresh_holder in Hh2.
  apply list_elem_of_fmap in Hw0 as (x & -> & Hx). destruct (w_seq x =? w_seq w) eqn:E; bools.
  - simpl. apply apply_refresh_again.
  - destruct E. f_equal. eapply (NoDup_fmap_eq (λ w, rq_Holder (w_req w))); [exact Hnd|done..|congruence].
Qed.

Lemma retarget_twice o holder req l :
  NoDup (holders (waiters l)) →
  (Retarget o holder req l).2 = true → (Retarget o holder req (Retarget o holder req l).1).2 = false.
Proof.
  intros Hnd. unfold Retarget at 1 3. destruct (leases l !! holder); [done|].
  destruct (List.find _ (waiters l)) as [w|] eqn:Hf; [|done]. case_match eqn:Hsame; [done|]. intros _.
  apply find_holder in Hf as [Hw Hwh]. cbn [fst].
  set (l' := dispatchLocked o _). unfold Retarget.
  destruct (leases l' !! holder); [done|].
  destruct (List.find _ (waiters l')) as [w2|] eqn:Hf2; [|done].
  apply find_holder in Hf2 as [Hw2 Hh2].
  rewrite (moved_request o holder req l w w2 Hnd Hw Hwh Hw2 Hh2). by rewrite samePlacement_refl.
Qed.

Lemma promote_nothing o l :
  range_ok o → map_Forall (λ _ ls, le_NodeOverflow ls = false) (leases l) → promoteOverflowLocked o l = l.
Proof.
  intros Hr Hno. unfold promoteOverflowLocked. rewrite filter_none; [done|].
  intros [k ls] Hin. rewrite (Hr (leases l)) in Hin. apply elem_of_map_to_list in Hin. by apply (Hno k).
Qed.

Lemma would_place o req l :
  (WouldGrant o req l).2 = true ↔ place o l (withoutStaleNode (apply_refresh o req)) ≠ None.
Proof.
  unfold WouldGrant. pose proof (resolve_computes o l (withoutStaleNode (apply_refresh o req))) as H.
  destruct (resolveLocked _ _ _) as [[l1 b] why]. simpl. rewrite String.eqb_eq.
  destruct (place _ _ _); simpl in H; [by destruct H as [_ ->]|]. naive_solver.
Qed.

Lemma wouldgrant_acquire o req l :
  wf l → seq l + 1 < 2 ^ 64 → range_ok o → waiters l = [] → leases l !! rq_Holder req = None →
  map_Forall (λ _ ls, le_NodeOverflow ls = false) (leases l) →
  (WouldGrant o req l).2 = true ↔ (Acquire o req l).2 = AcquireGranted (seq l + 1).
Proof.
  intros Hwf Hs Hr Hws Hfree Hno. rewrite would_place. unfold Acquire. rewrite Hfree.
  assert (next_seq l = seq l + 1) as Hn.
  { unfold next_seq. apply Z.mod_small. destruct Hwf as [_ (?&_)]. lia. }
  set (w := mkWaiter (withoutStaleNode (apply_refresh o req)) (seq l + 1) (Now o) "").
  assert (waiters (enqueue o req l) = [mkWaiter req (seq l + 1) (Now o) ""]) as Hq.
  { unfold enqueue. simpl. by rewrite Hws, Hn. }
  assert (orderLocked o (pass_queue o (enqueue o req l)) (Now o) = [] ++ w :: []) as Hord.
  { unfold orderLocked. by rewrite pass_queue_waiters, Hq. }
  pose proof (turn o (enqueue o req l) w [] [] (enqueue_wf o req l Hs Hwf) Hord) as Ht.
  simpl in Ht. unfold pass_queue in Ht. rewrite (promote_nothing o (enqueue o req l)) in Ht by done.
  rewrite Hn.
  change (is_granted (dispatchLocked o (enqueue o req l)) (seq l + 1) = true ↔
    place o l (withoutStaleNode (apply_refresh o req)) ≠ None) in Ht.
  rewrite <- Ht. destruct (is_granted _ (seq l + 1)); simpl; naive_solver.
Qed.

(** ** Properties *)

(** C1: no admission takes a limited pool over its limit. Whatever operation
    admits or frees work (Acquire and its wait loop, Retarget, Release, Reap,
    Replan, token recording, rate changes, the end of the adoption hold), a
    pool's usage afterwards is at most its usage before, or its limit if that is
    larger: an over-full pool never gets fuller and a pool with room is never
    filled past its limit. *)
Theorem admission_within_limits o c l p :
  range_ok o → admits c = true → 0 < Limit l p →
  usedLocked o (run o c l) p ≤ Z.max (usedLocked o l p) (Limit l p).
Proof. apply admit_used. Qed.

Lemma admission_within_limits_witness :
  usedLocked (Demo.opts 9) (run (Demo.opts 9) (OpRelease "t1") Demo.busy) "node:a" ≤ 1.
Proof.
  etrans; [apply (admission_within_limits (Demo.opts 9) (OpRelease "t1") Demo.busy "node:a");
    [apply Demo.opts_range|reflexivity|vm_compute; reflexivity]|].
  vm_compute. discriminate.
Defined.

(** C2: every ledger the API can reach, before the 2^64th Acquire, is well formed:
    leases are stored under their own holder, a lease flagged NodeOverflow names a
    node, stored limits and ceilings are in force, and the queue holds each waiter
    once with none of them already granted. If no Rehome on the way named a node,
    an overflow lease is moreover outside the pool of its node, and a lease flagged
    NodeUnknown names no node; a Rehome onto a named node keeps both flags as they
    were. *)
Theorem ledger_invariant l :
  (reachable false l → wf_at false l) ∧ (reachable true l → wf_at true l).
Proof. split; apply reach_wf. Qed.

Lemma ledger_invariant_witness : wf (Acquire (Demo.opts 1) Demo.r1 New).1 ∧ wf_at false Demo.rehomed.
Proof.
  split.
  - apply ledger_invariant. apply rtc_once.
    apply (step_run true (Demo.opts 1) (OpAcquire Demo.r1) New); [apply Demo.opts_range|reflexivity|reflexivity].
  - apply (proj1 (ledger_invariant Demo.rehomed)).
    eapply rtc_l; [apply (step_run false (Demo.opts 1) (OpAcquire Demo.r1) New); [apply Demo.opts_range|reflexivity|discriminate]|].
    apply rtc_once.
    apply (step_run false (Demo.opts 2) (OpRehome "t1" ["host"] "c")); [apply Demo.opts_range|reflexivity|discriminate].
Defined.

(** C10: [resolveLocked] refines the abstract placement. It answers the bound
    request and no reason exactly when [place] finds one (the first candidate
    in rank order that passes the gate, the verifier headroom and every pool
    check), and a non-empty reason otherwise; and whatever it answers, only an
    outlived adoption hold and rate entries outside their window change. *)
Theorem resolve_refines_place o l req :
  computes (resolveLocked o l req) (place o l req) ∧ same_core o l (resolveLocked o l req).1.1.
Proof. split; [apply resolve_computes|apply resolve_core]. Qed.

(** C11: a dispatch pass is work conserving. When each queued request is its
    holder's only one, and held-backpressure hooks only tighten as usage grows,
    then after the pass no waiter is left that could be placed, and each
    carries a reason. *)
Theorem dispatch_leaves_no_room o l :
  wf l → held_monotone o → one_request_each (pass_queue o l) →
  ∀ w, w ∈ waiters (dispatchLocked o l) → place o (dispatchLocked o l) (w_req w) = None ∧ w_reason w ≠ "".
Proof. intros Hwf Hm Hone w Hw. by apply (pass_leaves_stuck o Hm l Hwf Hone w). Qed.

Lemma dispatch_leaves_no_room_witness :
  ∃ w, waiters (dispatchLocked (Demo.opts 5) Demo.busy) = [w] ∧
    place (Demo.opts 5) (dispatchLocked (Demo.opts 5) Demo.busy) (w_req w) = None ∧ w_reason w ≠ "".
Proof.
  eexists. split; [vm_compute; reflexivity|]. apply dispatch_leaves_no_room.
  - apply Demo.busy_wf.
  - intros f p h h' lim [=].
  - split; [vm_compute; apply NoDup_singleton|]. intros h Hh. vm_compute in Hh.
    apply list_elem_of_singleton in Hh as ->. vm_compute. reflexivity.
  - vm_compute. left.
Defined.

(** In its turn a waiter is granted exactly when it can be placed. For any
    split of the grant order around a waiter, the pass grants it if and only if
    [place] succeeds on the ledger the waiters before it leave; so the first in
    order is never passed over while it fits, and a blocked one never delays
    those behind it. *)
Theorem turn_decides o l w ws1 ws2 :
  wf l → orderLocked o (pass_queue o l) (Now o) = ws1 ++ w :: ws2 →
  is_granted (dispatchLocked o l) (w_seq w) = true ↔
  place o (foldl (dispatch_one o (Now o)) (pass_queue o l) ws1) (w_req w) ≠ None.
Proof. apply turn. Qed.

Lemma turn_decides_witness :
  is_granted (dispatchLocked (Demo.opts 1) (enqueue (Demo.opts 1) Demo.r1 Demo.two_nodes)) 1 = true.
Proof.
  apply (turn_decides (Demo.opts 1) (enqueue (Demo.opts 1) Demo.r1 Demo.two_nodes) (mkWaiter Demo.r1 1 1 "") [] []).
  - apply enqueue_wf; [reflexivity|apply Demo.two_nodes_wf].
  - vm_compute. reflexivity.
  - vm_compute. discriminate.
Defined.

(** The grant order is fair. It is a rearrangement of the queue, and of two
    waiters the earlier one has the better role (verifier, worker, planner); at
    equal role the higher priority; and at equal role and priority an aged
    waiter never comes after one that is not. *)
Theorem grant_order_fair o l now :
  orderLocked o l now ≡ₚ waiters l ∧
  ∀ i j a b, orderLocked o l now !! i = Some a → orderLocked o l now !! j = Some b → (i < j)%nat →
    rank (rq_Role (w_req a)) ≤ rank (rq_Role (w_req b)) ∧
    (rank (rq_Role (w_req a)) = rank (rq_Role (w_req b)) →
       rq_Priority (w_req b) ≤ rq_Priority (w_req a) ∧
       (rq_Priority (w_req a) = rq_Priority (w_req b) → aged o now b = true → aged o now a = true)).
Proof.
  split; [apply sort_by_perm|]. intros i j a b Ha Hb Hij.
  pose proof (sort_by_before (waiter_less o l now) (waiters l) i j a b Ha Hb Hij) as Hn.
  unfold waiter_less in Hn.
  destruct (rank (rq_Role (w_req b)) =? rank (rq_Role (w_req a))) eqn:E1; simpl in Hn; bools; [|lia].
  destruct (rq_Priority (w_req b) =? rq_Priority (w_req a)) eqn:E2; simpl in Hn; bools; [|lia].
  split; [lia|]. intros _. split; [lia|]. intros _ Hage. rewrite Hage in Hn.
  by destruct (aged o now a).
Qed.

(** A pass never takes a pool over its requests ceiling: the requests
    counted in its rolling window after the pass are at most those before, or
    the ceiling if that is larger. *)
Theorem dispatch_within_rate o l p c :
  range_ok o → rates l !! p = Some c → active c = true → 0 < rc_Requests c →
  HasPrefix p "node-verify:" = false →
  (∀ w, w ∈ waiters l → (occurrences p (rq_Pools (w_req (refreshWaiterLocked o w))) ≤ 1)%nat) →
  sum_reqs (window (dispatchLocked o l) p c (Now o)) ≤ Z.max (sum_reqs (window l p c (Now o))) (rc_Requests c).
Proof. apply dispatch_rate_le. Qed.

Lemma dispatch_within_rate_witness :
  let o := Demo.opts 200 in
  let l := enqueue o (Demo.req "t3" RoleWorker ["llm:x"] []) (enqueue o (Demo.req "t2" RoleWorker ["llm:x"] []) Demo.metered) in
  sum_reqs (window (dispatchLocked o l) "llm:x" Demo.ceiling (Now o)) ≤ 1.
Proof.
  intros o l. etrans; [apply (dispatch_within_rate o l "llm:x" Demo.ceiling)|vm_compute; discriminate].
  - apply Demo.opts_range.
  - vm_compute. reflexivity.
  - reflexivity.
  - reflexivity.
  - reflexivity.
  - intros w Hw. vm_compute in Hw.
    repeat (apply elem_of_cons in Hw as [->|Hw]; [vm_compute; lia|]). by apply elem_of_nil in Hw.
Defined.

(** The reset time of a rate-blocked pool is exact. When the pool's ceiling
    blocks now, RateResetAt reports a time such that at every later moment the
    pool has room under both dimensions if and only if that time has come. *)
Theorem rate_reset_exact o l p c :
  rates l !! p = Some c → entries_ok (window l p c (Now o)) → rate_room l p (Now o) = false →
  ∃ t, (RateResetAt o p l).2 = Some t ∧ ∀ t', Now o ≤ t' → rate_room l p t' = true ↔ t ≤ t'.
Proof. intros Hc Hok Hb. by apply (reset_exact l p c (Now o) Hc). Qed.

Lemma rate_reset_exact_witness :
  ∃ t, (RateResetAt (Demo.opts 200) "llm:x" Demo.metered).2 = Some t ∧
    ∀ t', 200 ≤ t' → rate_room Demo.metered "llm:x" t' = true ↔ t ≤ t'.
Proof.
  apply (rate_reset_exact (Demo.opts 200) Demo.metered "llm:x" Demo.ceiling).
  - vm_compute. reflexivity.
  - vm_compute. split; [repeat constructor; discriminate|split; discriminate].
  - vm_compute. reflexivity.
Defined.

(** Adopt respects the node limit. With StrictNodeLimit on, adopting a
    running session whose request names no node pool itself (pools are stripped
    of node:<name> by the callers) never makes a limited node pool's holders
    and outside work exceed its limit, or what they were if that was more. *)
Theorem adopt_keeps_node_limit o n rnow req sid succ l :
  range_ok o → optOn (StrictNodeLimit o) = true → 0 < Limit l (node_pool n) → node_pool n ∉ rq_Pools req →
  reads o (Adopt o rnow req sid succ l) (node_pool n) ≤ Z.max (reads o l (node_pool n)) (Limit l (node_pool n)).
Proof. intros. by apply adopt_reads. Qed.

Lemma adopt_keeps_node_limit_witness :
  let req := mkRequest "t9" "prd" 0 ["host"] "a" "" [] [] "" "m" RoleWorker false false None in
  reads (Demo.opts 9) (Adopt (Demo.opts 9) 9 req "s9" [] Demo.busy) (node_pool "a") ≤ 1.
Proof.
  intros req. etrans; [apply (adopt_keeps_node_limit (Demo.opts 9) "a")|vm_compute; discriminate].
  - apply Demo.opts_range.
  - reflexivity.
  - vm_compute. reflexivity.
  - simpl. intros H. by apply list_elem_of_singleton in H.
Defined.

(** On every ledger reached without a Rehome onto a named node the usage of a node pool counts each lease on
    the node once, whether it is held in the pool or runs there as overflow
    (plus the work outside the ledger). *)
Theorem node_usage_counts_once o l n :
  reachable true l →
  usedLocked o l (node_pool n) = count (λ _, occupies n) (leases l) + external o (node_pool n).
Proof. intros Hr. by apply wf_node_usage, reach_wf. Qed.

Lemma node_usage_counts_once_witness :
  usedLocked (Demo.opts 2) (Acquire (Demo.opts 1) Demo.r1 New).1 (node_pool "a") = 1.
Proof.
  rewrite (node_usage_counts_once (Demo.opts 2) (Acquire (Demo.opts 1) Demo.r1 New).1 "a").
  - vm_compute. reflexivity.
  - apply rtc_once. apply (step_run true (Demo.opts 1) (OpAcquire Demo.r1) New); [apply Demo.opts_range|reflexivity|reflexivity].
Defined.

(** A hand-off moves a slot without freeing it. When it succeeds, every
    pool's usage is what it was, the lease under the new holder is the old one
    but for its holder, the old holder has none, and every other lease and the
    queue are untouched. *)
Theorem handoff_keeps_usage o a b l ls :
  leases l !! a = Some ls → leases l !! b = None → a ≠ "" → b ≠ "" → a ≠ b →
  let l' := (Handoff a b l).1 in
  (Handoff a b l).2 = true ∧ (∀ p, usedLocked o l' p = usedLocked o l p) ∧
  leases l' !! b = Some (ls_set_Holder b ls) ∧ leases l' !! a = None ∧
  (∀ k, k ≠ a → k ≠ b → leases l' !! k = leases l !! k) ∧ waiters l' = waiters l.
Proof.
  intros Ha Hb Hna Hnb Hab. apply String.eqb_neq in Hna, Hnb. simpl. unfold Handoff.
  rewrite Hna, Hnb, (proj2 (String.eqb_neq a b) Hab), Ha, Hb. simpl.
  split_and!; [done| | | | |done].
  - intros p. rewrite !used_eq. simpl. by apply rekey_used.
  - apply lookup_insert_eq.
  - rewrite lookup_insert_ne by done. apply lookup_delete_eq.
  - intros k Hka Hkb. by rewrite lookup_insert_ne, lookup_delete_ne.
Qed.

Lemma handoff_keeps_usage_witness :
  usedLocked (Demo.opts 9) (Handoff "t1" "v1" Demo.busy).1 "node:a" = usedLocked (Demo.opts 9) Demo.busy "node:a".
Proof.
  eapply (handoff_keeps_usage (Demo.opts 9) "t1" "v1" Demo.busy); [vm_compute; reflexivity..|discriminate|discriminate|discriminate].
Defined.

(** Retarget moves one queued request in place. A holder with a lease is
    left alone. Otherwise no request is added, every request still queued keeps
    its sequence number and queueing time, and, when the holder had one queued
    request, moving it again to the same placement does nothing: there are
    never two live requests for it. *)
Theorem retarget_in_place o holder req l :
  NoDup (holders (waiters l)) →
  let l' := (Retarget o holder req l).1 in
  (leases l !! holder ≠ None → (Retarget o holder req l) = (l, false)) ∧
  seq l' = seq l ∧
  sublist ((λ w, (w_seq w, w_since w)) <$> waiters l') ((λ w, (w_seq w, w_since w)) <$> waiters l) ∧
  ((Retarget o holder req l).2 = true → (Retarget o holder req l').2 = false).
Proof.
  intros Hnd l'. split_and!; unfold l'; clear l'.
  - unfold Retarget. by destruct (leases l !! holder).
  - by apply retarget_seq.
  - by apply retarget_places.
  - by apply retarget_twice.
Qed.

Lemma retarget_in_place_witness :
  let moved := Demo.req "t3" RoleWorker ["llm:y"; "node:a"] [] in
  (Retarget (Demo.opts 9) "t3" moved Demo.busy).2 = true ∧
  (Retarget (Demo.opts 9) "t3" moved (Retarget (Demo.opts 9) "t3" moved Demo.busy).1).2 = false.
Proof.
  intros moved. split; [vm_compute; reflexivity|].
  apply (retarget_in_place (Demo.opts 9) "t3" moved Demo.busy); [|vm_compute; reflexivity].
  vm_compute. apply NoDup_singleton.
Defined.

(** WouldGrant is Acquire's own answer. On a ledger with nothing queued and
    no overflow lease, the dry run says yes exactly when an Acquire of the same
    request by a holder without a lease is granted on the spot. *)
Theorem wouldgrant_iff_acquire o req l :
  wf l → seq l + 1 < 2 ^ 64 → range_ok o → waiters l = [] → leases l !! rq_Holder req = None →
  map_Forall (λ _ ls, le_NodeOverflow ls = false) (leases l) →
  (WouldGrant o req l).2 = true ↔ (Acquire o req l).2 = AcquireGranted (seq l + 1).
Proof. apply wouldgrant_acquire. Qed.

Lemma wouldgrant_iff_acquire_witness :
  (WouldGrant (Demo.opts 2) Demo.r1 Demo.two_nodes).2 = true ∧
  (Acquire (Demo.opts 2) Demo.r1 Demo.two_nodes).2 = AcquireGranted 1.
Proof.
  split; [vm_compute; reflexivity|].
  apply (wouldgrant_iff_acquire (Demo.opts 2) Demo.r1 Demo.two_nodes); try reflexivity.
  - apply Demo.two_nodes_wf.
  - apply Demo.opts_range.
  - apply map_Forall_empty.
Defined.

(** The admission query and the dry run take nothing: they leave limits,
    leases, queue, grant order, model affinity and every rate window as they
    were. *)
Theorem queries_take_nothing o req l :
  same_core o l (CheckRequest o req l).1 ∧ same_core o l (WouldGrant o req l).1.
Proof. split; [apply check_core|apply wouldgrant_core]. Qed.

(** ** Behaviour outside the guarantees *)

(** Rehome onto a node keeps a NodeOverflow flag the lease had: the one lease
    is then counted both in the node's pool and as its overflow. *)
Definition rehome_req : Request :=
  mkRequest "t9" "prd" 0 ["host"] "a" "" [] [] "" "m" RoleWorker false false None.

Example rehome_overflow_counted_twice :
  let l := Adopt (Demo.opts 9) 9 rehome_req "s9" [] Demo.full in
  let l' := (Rehome (Demo.opts 9) "t9" ["host"] "b" (Release (Demo.opts 9) "t2" l)).1 in
  heldLocked l' "node:b" = 1 ∧ usedLocked (Demo.opts 9) l' "node:b" = 2.
Proof. vm_compute. done. Qed.

(** A request that names the node pool itself is adopted into it whatever its
    limit. *)
Example adopt_named_pool_over_limit :
  let req := mkRequest "t9" "prd" 0 ["host"; "node:a"] "a" "" [] [] "" "m" RoleWorker false false None in
  reads (Demo.opts 9) (Adopt (Demo.opts 9) 9 req "s9" [] Demo.busy) "node:a" = 2 ∧ Limit Demo.busy "node:a" = 1.
Proof. vm_compute. done. Qed.
