(* ===== verification/Pipeline.v ===== *)
(** * Pipelines: a DAG of sessions

    internal/pipeline/pipeline.go and executor.go: the task graph with its cycle
    check, the state changes of a pipeline, the parser of pipeline specs, and
    one tick of the executor's loop. The sessions are behind the interface the
    code names [SessionStarter], a class here; test runs are behind a runner. *)

From S2P Require Import Prelude GoBase.

#[local] Open Scope Z_scope.

Inductive State := StatePending | StateRunning | StateCompleted | StateFailed | StateCancelled.

#[global] Instance State_eq_dec : EqDecision State.
Proof. solve_decision. Defined.

Record Task := mkTask {
  t_ID : string;
  t_Title : string;
  t_DependsOn : list string;
  t_State : State;
  t_SessionID : string;
  t_Error : string;
  t_StartedAt : option Time;
  t_CompletedAt : option Time;
  t_ProjectProfile : string;
  t_ClusterProfile : string;
  t_Branch : string
}.

Record Pipeline := mkPipeline {
  p_ID : string;
  p_Name : string;
  p_ProjectDir : string;
  p_Tasks : list Task;
  p_State : State;
  p_MaxParallel : Z;
  p_CreatedAt : Time;
  p_Error : string
}.

Definition set_Tasks (ts : list Task) (p : Pipeline) : Pipeline :=
  mkPipeline (p_ID p) (p_Name p) (p_ProjectDir p) ts (p_State p) (p_MaxParallel p) (p_CreatedAt p) (p_Error p).
Definition set_State (s : State) (p : Pipeline) : Pipeline :=
  mkPipeline (p_ID p) (p_Name p) (p_ProjectDir p) (p_Tasks p) s (p_MaxParallel p) (p_CreatedAt p) (p_Error p).
Definition set_Error (e : string) (p : Pipeline) : Pipeline :=
  mkPipeline (p_ID p) (p_Name p) (p_ProjectDir p) (p_Tasks p) (p_State p) (p_MaxParallel p) (p_CreatedAt p) e.

(** ** The cycle check *)

(** [adj[dep]]: the tasks that depend on [dep], in task order. *)
Definition adj_step (adj : gmap string (list string)) (t : Task) : gmap string (list string) :=
  foldl (λ m dep, <[dep := default [] (m !! dep) ++ [t_ID t]]> m) adj (t_DependsOn t).
Definition adjacency (tasks : list Task) : gmap string (list string) := foldl adj_step ∅ tasks.

Inductive Color := white | gray | black.

Record dfs_state := mkDfs {
  color : gmap string Color;
  parent : gmap string string;
  cycleStart : string;
  cycleEnd : string
}.

Definition color_of (st : dfs_state) (v : string) : Color := default white (color st !! v).
Definition set_color (v : string) (c : Color) (st : dfs_state) : dfs_state :=
  mkDfs (<[v := c]> (color st)) (parent st) (cycleStart st) (cycleEnd st).
Definition set_parent (v u : string) (st : dfs_state) : dfs_state :=
  mkDfs (color st) (<[v := u]> (parent st)) (cycleStart st) (cycleEnd st).
Definition set_cycle (v u : string) (st : dfs_state) : dfs_state :=
  mkDfs (color st) (parent st) v u.

(** The loop over the neighbours of [u]; [rec] is the recursive [dfs]. *)
Fixpoint dfs_loop (rec : string → dfs_state → option (dfs_state * bool)) (u : string)
    (vs : list string) (st : dfs_state) : option (dfs_state * bool) :=
  match vs with
  | [] => Some (set_color u black st, false)
  | v :: vs' =>
      match color_of st v with
      | white =>
          match rec v (set_parent v u st) with
          | Some (st, true) => Some (st, true)
          | Some (st, false) => dfs_loop rec u vs' st
          | None => None
          end
      | gray => Some (set_cycle v u st, true)
      | black => dfs_loop rec u vs' st
      end
  end.

(** [dfs(u)]; [None] is out of fuel. *)
Fixpoint dfs (fuel : nat) (adj : gmap string (list string)) (u : string) (st : dfs_state) :
    option (dfs_state * bool) :=
  match fuel with
  | O => None
  | S f => dfs_loop (dfs f adj) u (default [] (adj !! u)) (set_color u gray st)
  end.

(** Walking the parents from [cycleEnd] back to [cycleStart]. *)
Fixpoint walk_back (fuel : nat) (st : dfs_state) (n : string) (path : list string) : list string :=
  match fuel with
  | O => path
  | S f =>
      if String.eqb n (cycleStart st) then path
      else match parent st !! n with
           | None => path
           | Some m => walk_back f st m (m :: path)
           end
  end.

Fixpoint detect_loop (fuel : nat) (adj : gmap string (list string)) (ids : list string) (st : dfs_state) :
    option (option (list string)) :=
  match ids with
  | [] => Some None
  | u :: ids' =>
      match color_of st u with
      | white =>
          match dfs fuel adj u st with
          | None => None
          | Some (st, true) => Some (Some (walk_back fuel st (cycleEnd st) [cycleEnd st]))
          | Some (st, false) => detect_loop fuel adj ids' st
          end
      | _ => detect_loop fuel adj ids' st
      end
  end.

Definition detect (fuel : nat) (tasks : list Task) : option (option (list string)) :=
  detect_loop fuel (adjacency tasks) (t_ID <$> tasks) (mkDfs ∅ ∅ "" "").

(** The recursion is at most one call per task deep, and one level is left over. *)
Definition DetectCycles (tasks : list Task) : option (list string) :=
  default None (detect (S (length tasks)) tasks).

Definition formatCycle (cycle : list string) : string :=
  match cycle with
  | [] => ""
  | x :: xs => foldl (λ out n, out +:+ " → " +:+ n) x xs +:+ " → " +:+ x
  end.

Definition NewPipeline (name projectDir : string) (tasks : list Task) (maxParallel : Z) (now : Time) :
    string + Pipeline :=
  let maxParallel := if maxParallel <=? 0 then 3 else maxParallel in
  match DetectCycles tasks with
  | Some cycle => inl ("circular dependency: " +:+ formatCycle cycle)
  | None =>
      inr (mkPipeline ("pipe-" +:+ fmt_d (Z.rem (now `div` Millisecond) 100000)) name projectDir tasks
             StatePending maxParallel now "")
  end.

(** ** Reading and changing a pipeline *)

Fixpoint task_index (id : string) (ts : list Task) : option nat :=
  match ts with
  | [] => None
  | t :: ts' => if String.eqb (t_ID t) id then Some O else S <$> task_index id ts'
  end.

Definition TaskByID (p : Pipeline) (id : string) : option Task :=
  match task_index id (p_Tasks p) with Some i => p_Tasks p !! i | None => None end.

(** Changing the task [TaskByID] points at. *)
Definition update_task (id : string) (f : Task → Task) (p : Pipeline) : Pipeline :=
  match task_index id (p_Tasks p) with
  | Some i => set_Tasks (alter f i (p_Tasks p)) p
  | None => p
  end.

Definition state_is (s : State) (t : Task) : bool := bool_decide (t_State t = s).

Definition completed_ids (p : Pipeline) : gset string :=
  list_to_set (t_ID <$> filter (λ t, t_State t = StateCompleted) (p_Tasks p)).

Definition is_ready (done : gset string) (t : Task) : bool :=
  state_is StatePending t && forallb (λ dep, bool_decide (dep ∈ done)) (t_DependsOn t).

Definition ReadyTasks (p : Pipeline) : list Task :=
  filter (λ t, is_ready (completed_ids p) t = true) (p_Tasks p).

Definition RunningCount (p : Pipeline) : Z :=
  Z.of_nat (length (filter (λ t, t_State t = StateRunning) (p_Tasks p))).

Definition MarkRunning (taskID sessionID : string) (now : Time) (p : Pipeline) : Pipeline :=
  update_task taskID (λ t,
    mkTask (t_ID t) (t_Title t) (t_DependsOn t) StateRunning sessionID (t_Error t) (Some now)
      (t_CompletedAt t) (t_ProjectProfile t) (t_ClusterProfile t) (t_Branch t)) p.

Definition MarkCompleted (taskID : string) (now : Time) (p : Pipeline) : Pipeline :=
  update_task taskID (λ t,
    mkTask (t_ID t) (t_Title t) (t_DependsOn t) StateCompleted (t_SessionID t) (t_Error t) (t_StartedAt t)
      (Some now) (t_ProjectProfile t) (t_ClusterProfile t) (t_Branch t)) p.

Definition MarkFailed (taskID err : string) (now : Time) (p : Pipeline) : Pipeline :=
  let p := update_task taskID (λ t,
    mkTask (t_ID t) (t_Title t) (t_DependsOn t) StateFailed (t_SessionID t) err (t_StartedAt t)
      (Some now) (t_ProjectProfile t) (t_ClusterProfile t) (t_Branch t)) p in
  set_Error ("task " +:+ taskID +:+ " failed: " +:+ err) (set_State StateFailed p).

Definition IsComplete (p : Pipeline) : bool := forallb (state_is StateCompleted) (p_Tasks p).

Definition cancel_task (t : Task) : Task :=
  if state_is StatePending t
  then mkTask (t_ID t) (t_Title t) (t_DependsOn t) StateCancelled (t_SessionID t) (t_Error t) (t_StartedAt t)
         (t_CompletedAt t) (t_ProjectProfile t) (t_ClusterProfile t) (t_Branch t)
  else t.

Definition Cancel (p : Pipeline) : Pipeline :=
  set_State StateCancelled (set_Tasks (cancel_task <$> p_Tasks p) p).

Definition count_state (s : State) (p : Pipeline) : Z :=
  Z.of_nat (length (filter (λ t, t_State t = s) (p_Tasks p))).

Definition Summary (p : Pipeline) : string :=
  "[" +:+ p_ID p +:+ "] " +:+ p_Name p +:+ ": " +:+ fmt_d (Z.of_nat (length (p_Tasks p))) +:+ " tasks (" +:+
  fmt_d (count_state StateCompleted p) +:+ " done, " +:+ fmt_d (count_state StateRunning p) +:+ " running, " +:+
  fmt_d (count_state StatePending p) +:+ " pending, " +:+ fmt_d (count_state StateFailed p) +:+ " failed)".

(** ** Pipeline specs *)

(** [indexOf(s, sub)], as the text before the first [sub] and after it. *)
Definition blank (a : Ascii.ascii) : bool :=
  Ascii.eqb a (Ascii.ascii_of_nat 32) || Ascii.eqb a (Ascii.ascii_of_nat 9).

Fixpoint trim_left (s : string) : string :=
  match s with
  | String a s' => if blank a then trim_left s' else s
  | EmptyString => s
  end.

Fixpoint trim_right (s : string) : string :=
  match s with
  | EmptyString => ""
  | String a s' =>
      match trim_right s' with
      | EmptyString => if blank a then "" else String a ""
      | r => String a r
      end
  end.

Definition trim (s : string) : string := trim_right (trim_left s).

(** The loop of [splitOn]: every round drops at least the separator. *)
Fixpoint splitOn_loop (fuel : nat) (s sep : string) : list string :=
  match fuel with
  | O => [trim s]
  | S f => match Cut s sep with
           | None => [trim s]
           | Some (a, r) => trim a :: splitOn_loop f r sep
           end
  end.
Definition splitOn (s sep : string) : list string := splitOn_loop (String.length s) s sep.

(** [splitOn] never returns an empty list, so only " -> " is ever tried before
    the whole spec is one task. *)
Fixpoint split_seps (spec : string) (seps : list string) (parts : list string) : list string :=
  match seps with
  | [] => [spec]
  | sep :: seps' =>
      match parts with
      | [] =>
          let parts := splitOn spec sep in
          if 1 <? Z.of_nat (length parts) then parts else split_seps spec seps' parts
      | _ => split_seps spec seps' parts
      end
  end.
Definition splitPipelineSpec (spec : string) : list string := split_seps spec [" -> "; " → "; " | "] [].

Definition spec_task (i : nat) (part : string) : Task :=
  mkTask ("t" +:+ fmt_d (Z.of_nat i + 1)) part
    (match i with O => [] | _ => ["t" +:+ fmt_d (Z.of_nat i)] end)
    StatePending "" "" None None "" "" "".

Definition ParsePipelineSpec (spec : string) : list Task := imap spec_task (splitPipelineSpec spec).
