(* ===== verification/Graph.v ===== *)
(** * Graphs of named nodes

    Topological orders as finishing orders of a depth-first search, what they say
    of cycles, and the counting lemmas that bound such a search. *)

From S2P Require Import Prelude.

Section topological.
Context (E : string → string → Prop).

(** Finishing order, last finished first: what a task leads to finished before it. *)
Fixpoint topo (fin : list string) : Prop :=
  match fin with
  | [] => True
  | u :: rest => u ∉ rest ∧ (∀ v, E u v → v ∈ rest) ∧ topo rest
  end.

Lemma topo_closed fin u v : topo fin → u ∈ fin → E u v → v ∈ fin.
Proof.
  induction fin as [|w rest IH]; simpl; [set_solver|]. intros (_&Hw&Ht) [->|Hu]%elem_of_cons Huv.
  - right. auto.
  - right. auto.
Qed.

Lemma topo_tc fin u v : topo fin → u ∈ fin → tc E u v → v ∈ fin.
Proof.
  intros Ht Hu H. induction H as [x y Hxy|x y z Hxy _ IH]; [by eapply topo_closed|].
  apply IH. by eapply topo_closed.
Qed.

Lemma topo_acyclic fin : topo fin → ∀ x, x ∈ fin → ¬ tc E x x.
Proof.
  induction fin as [|u rest IH]; simpl; [set_solver|]. intros (Hni&Hu&Ht) x [->|Hx]%elem_of_cons Hc.
  - apply Hni. inversion Hc as [? ? Huu|? y ? Huy Hyu]; subst; [by apply Hu|].
    eapply topo_tc; [done|by apply Hu|done].
  - by apply (IH Ht x Hx).
Qed.

Lemma topo_NoDup fin : topo fin → NoDup fin.
Proof. induction fin as [|u rest IH]; [constructor|]. intros (?&_&?). constructor; auto. Qed.

Lemma topo_filter (P : string → Prop) `{∀ x, Decision (P x)} fin :
  (∀ u v, E u v → P v) → topo fin → topo (filter P fin).
Proof.
  intros HP. induction fin as [|u rest IH]; [done|]. intros (Hni&Hu&Ht). destruct (decide (P u)) as [Hp|Hp].
  - rewrite filter_cons_True by done. simpl. split_and!; [|by intros v Hv; apply list_elem_of_filter; eauto|auto].
    by intros [_ ?]%list_elem_of_filter.
  - rewrite filter_cons_False by done. auto.
Qed.

(** A topological order of all targets rules out every cycle. *)
Lemma topo_no_cycle fin : topo fin → (∀ u v, E u v → v ∈ fin) → ∀ x, ¬ tc E x x.
Proof.
  intros Ht Hall x Hx. apply (topo_acyclic fin Ht x); [|done].
  assert (∃ w, E w x) as [w Hw]; [|by eapply Hall].
  induction Hx as [a b Hab|a b c _ _ IH]; eauto.
Qed.
End topological.

(** ** Walks and cycles *)

Section walks.
Context (E : string → string → Prop).

(** Each node of [l] leads to the one after it. *)
Definition linked (l : list string) : Prop := ∀ i u v, l !! i = Some u → l !! S i = Some v → E u v.

(** A cycle [x1; ...; xn]: each leads to the next, the last to the first. *)
Definition cycle_of (c : list string) : Prop :=
  match c with
  | [] => False
  | x :: _ => linked c ∧ ∃ y, last c = Some y ∧ E y x
  end.

Lemma linked_nil : linked [].
Proof. by intros i u v. Qed.

Lemma linked_snoc l u : linked l → (∀ w, last l = Some w → E w u) → linked (l ++ [u]).
Proof.
  intros Hl Hu i x y Hx Hy. destruct (decide (S i < length l)%nat) as [Hlt|Hge].
  - rewrite lookup_app_l in Hx, Hy by lia. by apply (Hl i).
  - apply lookup_app_Some in Hy as [Hy|[Hle Hy]]; [apply lookup_lt_Some in Hy; lia|].
    apply list_lookup_singleton_Some in Hy as [Hi ->].
    rewrite lookup_app_l in Hx by lia. apply Hu. rewrite last_lookup.
    by replace (pred (length l)) with i by lia.
Qed.

Lemma linked_app_r l k : linked (l ++ k) → linked k.
Proof.
  intros H i u v Hu Hv. apply (H (length l + i)%nat).
  - rewrite lookup_app_r by lia. by replace (length l + i - length l)%nat with i by lia.
  - rewrite lookup_app_r by lia. by replace (S (length l + i) - length l)%nat with (S i) by lia.
Qed.

Lemma cycle_tc c : cycle_of c → ∃ x, x ∈ c ∧ tc E x x.
Proof.
  destruct c as [|x c]; [done|]. intros (Hed&y&Hlast&Hyx). exists x. split; [left|].
  assert (∀ l a, linked (a :: l) → last (a :: l) = Some y → tc E a x) as H; [|by apply (H c x)].
  clear Hed Hlast. induction l as [|b l IH]; intros a Hed Hl.
  - simpl in Hl. injection Hl as ->. by apply tc_once.
  - apply (tc_l _ a b); [by apply (Hed 0%nat)|]. apply IH; [|done].
    intros i u v Hu Hv. by apply (Hed (S i)).
Qed.

Lemma topo_rtc fin u v : topo E fin → u ∈ fin → rtc E u v → v ∈ fin.
Proof. intros Ht Hu H. induction H; [done|]. apply IHrtc. by eapply topo_closed. Qed.

(** How far a node is from the end of a topological order. *)
Fixpoint rank (fin : list string) (x : string) : nat :=
  match fin with
  | [] => 0
  | u :: rest => if bool_decide (x = u) then S (length rest) else rank rest x
  end.

Lemma rank_le fin x : (rank fin x ≤ length fin)%nat.
Proof. induction fin as [|u rest IH]; simpl; [lia|]. case_bool_decide; lia. Qed.

Lemma rank_decreases fin u v : topo E fin → u ∈ fin → E u v → (rank fin v < rank fin u)%nat.
Proof.
  induction fin as [|w rest IH]; [set_solver|]. intros (Hni&Hw&Ht) Hu Huv. simpl.
  assert (v ∈ rest) as Hv.
  { apply elem_of_cons in Hu as [->|Hu]; [by apply Hw|by eapply topo_closed]. }
  rewrite (bool_decide_false (v = w)) by congruence. pose proof (rank_le rest v).
  case_bool_decide; [lia|]. apply IH; [done| |done]. by apply elem_of_cons in Hu as [?|].
Qed.
End walks.

(** ** Counting nodes *)

Lemma size_list_to_set_le (l : list string) : (size (list_to_set l : gset string) ≤ length l)%nat.
Proof.
  induction l as [|x l IH]; [done|].
  rewrite list_to_set_cons, size_union_alt, size_singleton. simpl. apply le_n_S. etrans; [|exact IH].
  apply subseteq_size. set_solver.
Qed.

Lemma length_nodup_le (l : list string) (X : gset string) :
  NoDup l → (∀ x, x ∈ l → x ∈ X) → (length l ≤ size X)%nat.
Proof.
  intros Hnd Hin. rewrite <- (size_list_to_set (C:=gset string) l Hnd).
  apply subseteq_size. intros x. rewrite elem_of_list_to_set. apply Hin.
Qed.

