(* ===== verification/PipelineGraph.v ===== *)
(** * Pipelines: the cycle check is exact

    [DetectCycles] answers a cycle of the dependency graph when there is one and
    nothing when there is none, and its recursion never runs out of fuel. The
    ghost state of the search is the path of gray tasks and the list of black
    tasks in finishing order, which is a topological order. *)

From S2P Require Import Prelude GoBase Graph Pipeline.

#[local] Open Scope Z_scope.

(** [v] depends on [u]. *)
Definition edge (tasks : list Task) (u v : string) : Prop :=
  ∃ t, t ∈ tasks ∧ t_ID t = v ∧ u ∈ t_DependsOn t.

(** A cycle [x1; ...; xn]: each depends on the one before it, the first on the last. *)
Definition is_cycle (tasks : list Task) (c : list string) : Prop :=
  match c with
  | [] => False
  | x :: _ => (∀ i u v, c !! i = Some u → c !! S i = Some v → edge tasks u v) ∧
              ∃ y, last c = Some y ∧ edge tasks y x
  end.

Definition acyclic (tasks : list Task) : Prop := ∀ x, ¬ tc (edge tasks) x x.

(** ** The adjacency lists hold exactly the edges *)

Lemma adj_inner_spec (id : string) deps (m : gmap string (list string)) u v :
  v ∈ default [] ((foldl (λ m dep, <[dep := default [] (m !! dep) ++ [id]]> m) m deps) !! u) ↔
  v ∈ default [] (m !! u) ∨ (v = id ∧ u ∈ deps).
Proof.
  revert m. induction deps as [|d deps IH]; intros m; simpl; [set_solver|]. rewrite IH.
  destruct (decide (d = u)) as [->|Hne].
  - rewrite lookup_insert_eq. simpl. set_solver.
  - rewrite lookup_insert_ne by done. set_solver.
Qed.

Lemma adjacency_acc tasks m u v :
  v ∈ default [] ((foldl adj_step m tasks) !! u) ↔ v ∈ default [] (m !! u) ∨ edge tasks u v.
Proof.
  revert m. induction tasks as [|t ts IH]; intros m; simpl.
  - unfold edge. set_solver.
  - rewrite IH. unfold adj_step at 1. rewrite adj_inner_spec. unfold edge. set_solver.
Qed.

Lemma elem_of_adjacency tasks u v : v ∈ default [] (adjacency tasks !! u) ↔ edge tasks u v.
Proof. unfold adjacency. rewrite adjacency_acc, lookup_empty. set_solver. Qed.

Lemma edge_target tasks u v : edge tasks u v → v ∈ t_ID <$> tasks.
Proof. intros (t & Ht & <- & _). by apply list_elem_of_fmap_2. Qed.

(** ** The search *)

Section search.
Context (E : string → string → Prop).

(** The gray path, innermost first, linked by [parent]. *)
Fixpoint chain (st : dfs_state) (path : list string) : Prop :=
  match path with
  | u :: ((w :: _) as path') => E w u ∧ parent st !! u = Some w ∧ chain st path'
  | _ => True
  end.

Lemma chain_ext st st' path :
  (∀ x, x ∈ path → parent st' !! x = parent st !! x) → chain st path → chain st' path.
Proof.
  induction path as [|u [|w path] IH]; intros H; [done..|]. intros (HE&Hp&Hc).
  split; [done|]. split; [rewrite H by left; done|]. apply IH; [|done]. intros x Hx. apply H. by right.
Qed.

Record search_inv (nodes : gset string) (st : dfs_state) (path fin : list string) : Prop := {
  si_gray x : color_of st x = gray ↔ x ∈ path;
  si_black x : color_of st x = black ↔ x ∈ fin;
  si_topo : topo E fin;
  si_chain : chain st path;
  si_nodup : NoDup path;
  si_nodes x : x ∈ path ++ fin → x ∈ nodes
}.

(** What a found back edge means. *)
Definition found (nodes : gset string) (st : dfs_state) : Prop :=
  ∃ path, chain st path ∧ NoDup path ∧ head path = Some (cycleEnd st) ∧
          cycleStart st ∈ path ∧ E (cycleEnd st) (cycleStart st) ∧ (∀ x, x ∈ path → x ∈ nodes).

Definition white_nodes (nodes : gset string) (path fin : list string) : gset string :=
  nodes ∖ (list_to_set path ∪ list_to_set fin).

Lemma white_not nodes st path fin x :
  search_inv nodes st path fin → color_of st x = white → x ∉ path ∧ x ∉ fin.
Proof.
  intros Hi Hw. split; intros Hx; [apply (si_gray _ _ _ _ Hi) in Hx|apply (si_black _ _ _ _ Hi) in Hx]; congruence.
Qed.

Lemma color_set st v c x : color_of (set_color v c st) x = if decide (x = v) then c else color_of st x.
Proof.
  unfold color_of. simpl. case_decide; [subst; by rewrite lookup_insert_eq|by rewrite lookup_insert_ne].
Qed.

(** Entering a white task. *)
Lemma enter nodes st path fin u :
  search_inv nodes st path fin → color_of st u = white → u ∈ nodes →
  (∀ w, head path = Some w → E w u ∧ parent st !! u = Some w) →
  search_inv nodes (set_color u gray st) (u :: path) fin.
Proof.
  intros Hi Hw Hn Hhd. destruct (white_not _ _ _ _ _ Hi Hw) as [Hp Hf]. destruct Hi as [Hg Hb Ht Hc Hnd Hns]. split.
  - intros x. rewrite color_set. case_decide; [subst; set_solver|]. rewrite Hg. set_solver.
  - intros x. rewrite color_set. case_decide; [subst; split; [done|set_solver]|]. apply Hb.
  - done.
  - destruct path as [|w path]; [done|]. destruct (Hhd w eq_refl). split; [done|]. split; [done|].
    by apply (chain_ext st).
  - by constructor.
  - set_solver.
Qed.

(** Leaving a task all of whose neighbours have finished. *)
Lemma leave nodes st path fin u :
  search_inv nodes st (u :: path) fin → (∀ v, E u v → v ∈ fin) →
  search_inv nodes (set_color u black st) path (u :: fin).
Proof.
  intros [Hg Hb Ht Hc Hnd Hns] Hout. apply NoDup_cons in Hnd as [Hni Hnd].
  assert (u ∉ fin) as Huf.
  { intros Hu. apply Hb in Hu. assert (color_of st u = gray) by (apply Hg; left). congruence. }
  split.
  - intros x. rewrite color_set. case_decide; [subst; set_solver|]. rewrite Hg. set_solver.
  - intros x. rewrite color_set. case_decide; [subst; set_solver|]. rewrite Hb. set_solver.
  - done.
  - destruct path as [|w path]; [done|]. destruct Hc as (_&_&Hc). by apply (chain_ext st).
  - done.
  - set_solver.
Qed.

Lemma set_parent_inv nodes st path fin v u :
  search_inv nodes st path fin → v ∉ path → search_inv nodes (set_parent v u st) path fin.
Proof.
  intros [Hg Hb Ht Hc Hnd Hns] Hv. split; try done.
  apply (chain_ext st); [|done]. intros x Hx. simpl. apply lookup_insert_ne. congruence.
Qed.

(** What a finished call returns. *)
Definition dfs_post (nodes : gset string) (path fin : list string) (u : string)
    (r : option (dfs_state * bool)) : Prop :=
  ∃ st' b, r = Some (st', b) ∧
    if b then found nodes st'
    else ∃ fin', search_inv nodes st' path fin' ∧ (∀ x, x ∈ fin → x ∈ fin') ∧ u ∈ fin'.

Context (nodes : gset string) (adj : gmap string (list string)).
Context (Hadj : ∀ u v, v ∈ default [] (adj !! u) ↔ E u v) (Hnodes : ∀ u v, E u v → v ∈ nodes).

Lemma dfs_loop_spec f u path vs st fin fin0 :
  (∀ v st fin, search_inv nodes st (u :: path) fin → color_of st v = white → v ∈ nodes →
     E u v → parent st !! v = Some u → (size (white_nodes nodes (u :: path) fin) ≤ f)%nat →
     dfs_post nodes (u :: path) fin v (dfs f adj v st)) →
  search_inv nodes st (u :: path) fin → (∀ x, x ∈ fin0 → x ∈ fin) →
  (size (white_nodes nodes (u :: path) fin) ≤ f)%nat →
  (∀ v, v ∈ vs → E u v) → (∀ v, E u v → v ∈ vs ∨ v ∈ fin) →
  dfs_post nodes path fin0 u (dfs_loop (dfs f adj) u vs st).
Proof.
  intros Hrec. revert st fin. induction vs as [|v vs IH]; intros st fin Hi Hsub Hsz Hvs Hall; simpl.
  - exists (set_color u black st), false. split; [done|]. exists (u :: fin). split_and!.
    + apply leave; [done|]. intros v Hv. destruct (Hall v Hv) as [Hnil|]; [by apply elem_of_nil in Hnil|done].
    + intros x Hx. right. auto.
    + left.
  - assert (E u v) as Huv by (apply Hvs; left).
    destruct (color_of st v) eqn:Hcol.
    + destruct (white_not _ _ _ _ _ Hi Hcol) as [Hvp Hvf].
      destruct (Hrec v (set_parent v u st) fin) as (st' & b & -> & Hpost); try done.
      * by apply set_parent_inv.
      * by eapply Hnodes.
      * apply lookup_insert_eq.
      * destruct b; [by exists st', true|]. destruct Hpost as (fin' & Hi' & Hs' & Hv').
        apply (IH st' fin'); [done|by auto| |by intros w Hw; apply Hvs; right|].
        -- etrans; [|exact Hsz]. apply subseteq_size. unfold white_nodes. set_solver.
        -- intros w Hw. destruct (Hall w Hw) as [[->|]%elem_of_cons|]; auto.
    + exists (set_cycle v u st), true. split; [done|]. exists (u :: path). split_and!; try done.
      * by apply (chain_ext st); [|apply Hi].
      * apply Hi.
      * simpl. by apply (si_gray _ _ _ _ Hi).
      * intros x Hx. apply (si_nodes _ _ _ _ Hi). set_solver.
    + apply (IH st fin); [done|done|done|by intros w Hw; apply Hvs; right|].
      intros w Hw. destruct (Hall w Hw) as [[->|]%elem_of_cons|]; [right|by left|by right].
      by apply (si_black _ _ _ _ Hi).
Qed.

Lemma dfs_spec f u st path fin :
  search_inv nodes st path fin → color_of st u = white → u ∈ nodes →
  (∀ w, head path = Some w → E w u ∧ parent st !! u = Some w) →
  (size (white_nodes nodes path fin) ≤ f)%nat →
  dfs_post nodes path fin u (dfs f adj u st).
Proof.
  revert u st path fin. induction f as [|f IH]; intros u st path fin Hi Hw Hn Hhd Hsz;
    destruct (white_not _ _ _ _ _ Hi Hw) as [Hup Huf];
    assert (u ∈ white_nodes nodes path fin) as Hwu by (unfold white_nodes; set_solver).
  - assert (size (white_nodes nodes path fin) = 0)%nat as Hz by lia. apply size_empty_inv in Hz. set_solver.
  - simpl. apply (dfs_loop_spec f u path _ _ fin fin).
    + intros v st' fin' Hi' Hw' Hn' HE Hpar Hsz'. apply IH; try done. intros w [= <-]. done.
    + by apply enter.
    + done.
    + assert ((size (white_nodes nodes (u :: path) fin) < size (white_nodes nodes path fin))%nat); [|lia].
      apply subset_size. unfold white_nodes in *. set_solver.
    + intros v. by rewrite Hadj.
    + intros v Hv. left. by apply Hadj.
Qed.

(** ** Rebuilding the cycle *)

(** The path below [cycleStart]: outermost first. *)
Lemma walk_back_spec st n path acc f :
  chain st path → NoDup path → head path = Some n → cycleStart st ∈ path → (length path ≤ f)%nat →
  ∃ pre, walk_back f st n (n :: acc) = cycleStart st :: pre ∧
    (∀ i u v, (cycleStart st :: pre) !! i = Some u → (cycleStart st :: pre) !! S i = Some v →
       (∀ i u v, (n :: acc) !! i = Some u → (n :: acc) !! S i = Some v → E u v) → E u v) ∧
    last (cycleStart st :: pre) = last (n :: acc).
Proof.
  revert n path acc. induction f as [|f IH]; intros n path acc Hc Hnd Hhd Hin Hf.
  { destruct path; [done|simpl in Hf; lia]. }
  destruct path as [|x path]; [done|]. simpl in Hhd. injection Hhd as ->. simpl.
  destruct (String.eqb n (cycleStart st)) eqn:Eq; bools.
  - subst n. exists acc. split_and!; [done| |done]. intros i u v Hu Hv Hacc. by eapply Hacc.
  - apply elem_of_cons in Hin as [?|Hin]; [congruence|].
    destruct path as [|w path]; [by apply elem_of_nil in Hin|]. destruct Hc as (HE&Hp&Hc). rewrite Hp.
    apply NoDup_cons in Hnd as [_ Hnd].
    destruct (IH w (w :: path) (n :: acc) Hc Hnd eq_refl Hin) as (pre&Hwb&Hed&Hlast); [simpl in *; lia|].
    exists pre. split; [done|]. split.
    + intros i u v Hu Hv Hacc. apply (Hed i u v Hu Hv). intros j a b Ha Hb.
      destruct j as [|j]; simpl in *; [by simplify_eq|]. by eapply Hacc.
    + rewrite Hlast. done.
Qed.
End search.

(** ** The cycle check *)

Definition task_ids (tasks : list Task) : gset string := list_to_set (t_ID <$> tasks).

Lemma size_task_ids tasks : (size (task_ids tasks) ≤ length tasks)%nat.
Proof. unfold task_ids. etrans; [apply size_list_to_set_le|]. by rewrite length_fmap. Qed.

(** A found back edge gives a cycle of the graph, rebuilt from the parents. *)
Lemma found_cycle tasks st f :
  found (edge tasks) (task_ids tasks) st → (length tasks ≤ f)%nat →
  is_cycle tasks (walk_back f st (cycleEnd st) [cycleEnd st]).
Proof.
  intros (path&Hc&Hnd&Hhd&Hin&HE&Hsub) Hf.
  assert ((length path ≤ f)%nat) as Hlen.
  { etrans; [by apply length_nodup_le|]. etrans; [apply size_task_ids|done]. }
  destruct (walk_back_spec (edge tasks) st (cycleEnd st) path [] f Hc Hnd Hhd Hin Hlen) as (pre&->&Hed&Hlast).
  split.
  - intros i u v Hu Hv. apply (Hed i u v Hu Hv). intros j a b Ha Hb. by destruct j.
  - exists (cycleEnd st). by rewrite Hlast.
Qed.

Definition dfs_start : dfs_state := mkDfs ∅ ∅ "" "".

Lemma start_inv E nodes : search_inv E nodes dfs_start [] [].
Proof.
  split; try done; try constructor; try (intros; set_solver).
Qed.

(** The outer loop: either a cycle, or every task from here on is finished. *)
Lemma detect_loop_spec tasks f ids st fin :
  search_inv (edge tasks) (task_ids tasks) st [] fin → (∀ x, x ∈ ids → x ∈ task_ids tasks) →
  (length tasks ≤ f)%nat →
  ∃ r, detect_loop f (adjacency tasks) ids st = Some r ∧
    match r with
    | Some c => is_cycle tasks c
    | None => ∃ fin', topo (edge tasks) fin' ∧ (∀ x, x ∈ ids ∨ x ∈ fin → x ∈ fin') ∧
                (∀ x, x ∈ fin' → x ∈ task_ids tasks)
    end.
Proof.
  revert st fin. induction ids as [|u ids IH]; intros st fin Hi Hids Hf; simpl.
  { exists None. split; [done|]. exists fin. split; [apply Hi|]. split; [|apply Hi].
    intros x [Hx|]; [by apply elem_of_nil in Hx|done]. }
  assert (∀ x, x ∈ ids → x ∈ task_ids tasks) as Hids' by (intros; apply Hids; by right).
  destruct (color_of st u) eqn:Hcol.
  - destruct (dfs_spec (edge tasks) (task_ids tasks) (adjacency tasks) (elem_of_adjacency tasks)) with
      (f := f) (u := u) (st := st) (path := @nil string) (fin := fin) as (st' & b & -> & Hpost); try done.
    + intros x y Hxy. apply elem_of_list_to_set. by eapply edge_target.
    + apply Hids. left.
    + etrans; [|exact Hf]. etrans; [|apply size_task_ids]. apply subseteq_size. unfold white_nodes. set_solver.
    + destruct b.
      * eexists. split; [done|]. by apply found_cycle.
      * destruct Hpost as (fin' & Hi' & Hsub & Hu).
        destruct (IH st' fin' Hi' Hids' Hf) as (r&->&Hr). exists r. split; [done|].
        destruct r; [done|]. destruct Hr as (fin''&Ht&Hall&Hsub'). exists fin''. split_and!; [done| |done].
        intros x [[->|Hx]%elem_of_cons|Hx]; auto.
  - apply (si_gray _ _ _ _ _ Hi) in Hcol. by apply elem_of_nil in Hcol.
  - apply (si_black _ _ _ _ _ Hi) in Hcol.
    destruct (IH st fin Hi Hids' Hf) as (r&->&Hr). exists r. split; [done|].
    destruct r; [done|]. destruct Hr as (fin''&Ht&Hall&Hsub'). exists fin''. split_and!; [done| |done].
    intros x [[->|Hx]%elem_of_cons|Hx]; auto.
Qed.

Lemma is_cycle_tc tasks c : is_cycle tasks c → ∃ x, tc (edge tasks) x x.
Proof.
  destruct c as [|x c]; [done|]. intros (Hed&y&Hlast&Hyx). exists x.
  assert (∀ l a, (∀ i u v, (a :: l) !! i = Some u → (a :: l) !! S i = Some v → edge tasks u v) →
    last (a :: l) = Some y → tc (edge tasks) a x) as H; [|by apply (H c x)].
  clear Hed Hlast. induction l as [|b l IH]; intros a Hed Hl.
  - simpl in Hl. injection Hl as ->. by apply tc_once.
  - apply (tc_l _ a b); [by apply (Hed 0%nat)|]. apply IH; [|done].
    intros i u v Hu Hv. by apply (Hed (S i)).
Qed.

Lemma detect_cases tasks :
  ∃ r, detect (S (length tasks)) tasks = Some r ∧
    match r with
    | Some c => is_cycle tasks c
    | None => ∃ fin, topo (edge tasks) fin ∧ ∀ x, x ∈ fin ↔ x ∈ t_ID <$> tasks
    end.
Proof.
  unfold detect.
  destruct (detect_loop_spec tasks (S (length tasks)) (t_ID <$> tasks) dfs_start [] (start_inv _ _)) as (r&Hr&Hp);
    [intros x Hx; by apply elem_of_list_to_set|lia|].
  exists r. split; [done|]. destruct r; [done|]. destruct Hp as (fin&Ht&Hall&Hsub). exists fin. split; [done|].
  intros x. split; [|by auto]. intros Hx%Hsub. by apply elem_of_list_to_set in Hx.
Qed.

(** No answer comes with a topological order of the tasks. *)
Lemma detect_topo tasks :
  DetectCycles tasks = None → ∃ fin, topo (edge tasks) fin ∧ ∀ x, x ∈ fin ↔ x ∈ t_ID <$> tasks.
Proof.
  unfold DetectCycles. destruct (detect_cases tasks) as (r&->&Hr). simpl. by intros ->.
Qed.

(** [DetectCycles] decides acyclicity: its answer is a cycle, and no answer
    means there is none. *)
Lemma detect_exact tasks :
  match DetectCycles tasks with
  | Some c => is_cycle tasks c
  | None => acyclic tasks
  end.
Proof.
  unfold DetectCycles. destruct (detect_cases tasks) as (r&->&Hr). simpl. destruct r as [c|]; [done|].
  destruct Hr as (fin&Ht&Hall).
  intros x Hx. apply (topo_acyclic _ fin Ht x); [|done]. apply Hall.
  assert (∃ w, edge tasks w x) as [w Hw]; [|by eapply edge_target].
  induction Hx as [a b Hab|a b c _ _ IH]; eauto.
Qed.

Lemma detect_terminates tasks : detect (S (length tasks)) tasks ≠ None.
Proof. by destruct (detect_cases tasks) as (r&->&_). Qed.
