(* ===== verification/QualityGate.v ===== *)
(** * Pipelines: the test-regression gate

    internal/pipeline/quality.go below the process it starts: parsing the output
    of a test run, classifying a run, comparing two runs by failing name, and
    the gate with its confirming re-run. [RunTests] starts a shell; the outcome
    of a command is the parameter [runner] of the definitions that start one. *)

From S2P Require Import Prelude GoBase.

#[local] Open Scope Z_scope.

Definition defaultTimeoutSec : Z := 300.

Record QualityGateConfig := mkGateConfig {
  gc_Enabled : bool;
  gc_TestCommand : string;
  gc_Timeout : Z;
  gc_BlockOnRegression : bool;
  gc_Scope : string;
  gc_SmokePackages : list string
}.

Definition EffectiveTimeout (c : QualityGateConfig) : Z :=
  if 0 <? gc_Timeout c then gc_Timeout c else defaultTimeoutSec.

(** [Duration] is carried only; it is in nanoseconds here, float seconds there. *)
Record TestResult := mkTestResult {
  tr_Command : string;
  tr_ExitCode : Z;
  tr_Output : string;
  tr_PassCount : Z;
  tr_FailCount : Z;
  tr_Duration : Z;
  tr_RunAt : Time;
  tr_FailedTests : list string;
  tr_PackageFailures : list string;
  tr_TestsFound : Z;
  tr_TimedOut : bool
}.

(** [ScopePlan] is filled by the gate-scope code, never here. *)
Record QualityGateResult := mkGateResult {
  qr_Baseline : TestResult;
  qr_Current : TestResult;
  qr_NewFailures : Z;
  qr_Regression : bool;
  qr_Improved : bool;
  qr_Summary : string;
  qr_FailingTests : list string;
  qr_NewFailureNames : list string;
  qr_Invalid : bool;
  qr_InvalidReason : string
}.

(** ** Parsing go test output *)

Definition newline_char : Ascii.ascii := Ascii.ascii_of_nat 10.

(** [strings.TrimRight(s, "\r")] *)
Fixpoint trim_cr (s : string) : string :=
  match s with
  | EmptyString => ""
  | String a s' =>
      match trim_cr s' with
      | EmptyString => if Ascii.eqb a (Ascii.ascii_of_nat 13) then "" else String a ""
      | r => String a r
      end
  end.

(** The class [\s] of a Go regular expression, and the ASCII blanks of
    [strings.Fields]. *)
Definition char_in (ns : list nat) (a : Ascii.ascii) : bool :=
  existsb (λ n, Ascii.eqb a (Ascii.ascii_of_nat n)) ns.
Definition re_space : Ascii.ascii → bool := char_in [9; 10; 12; 13; 32]%nat.
Definition go_space : Ascii.ascii → bool := char_in [9; 10; 11; 12; 13; 32]%nat.

Section words.
Context (sp : Ascii.ascii → bool).

Fixpoint skip_spaces (s : string) : string :=
  match s with
  | String a s' => if sp a then skip_spaces s' else s
  | EmptyString => s
  end.

(** The longest run of non-blanks at the start. *)
Fixpoint word (s : string) : string :=
  match s with
  | String a s' => if sp a then "" else String a (word s')
  | EmptyString => ""
  end.

Fixpoint drop_word (s : string) : string :=
  match s with
  | String a s' => if sp a then s else drop_word s'
  | EmptyString => ""
  end.
End words.

(** [failTestLine]: the submatch of [^\s*--- FAIL: (\S+)]. *)
Definition failTestLine (line : string) : option string :=
  match CutPrefix (skip_spaces re_space line) "--- FAIL: " with
  | Some r => let w := word re_space r in if nonempty w then Some w else None
  | None => None
  end.

Definition tab : string := String (Ascii.ascii_of_nat 9) "".

Record goTestFailure := mkFailure { gf_pkg : string; gf_test : string }.

Definition failure_String (f : goTestFailure) : string :=
  if String.eqb (gf_test f) "" then gf_pkg f
  else if String.eqb (gf_pkg f) "" then gf_test f
  else gf_pkg f +:+ "." +:+ gf_test f.

(** One line of the loop: what was found so far and the tests not yet named by
    a package line. *)
Definition failure_line (acc : list goTestFailure * list string) (raw : string) :
    list goTestFailure * list string :=
  let '(out, pending) := acc in
  let line := trim_cr raw in
  match failTestLine line with
  | Some t => (out, pending ++ [t])
  | None =>
      match CutPrefix line ("FAIL" +:+ tab) with
      | None => (out, pending)
      | Some rest =>
          let pkg := word go_space (skip_spaces go_space rest) in
          if String.eqb pkg "" then (out, pending)
          else match pending with
               | [] => (out ++ [mkFailure pkg ""], [])
               | _ => (out ++ ((λ t, mkFailure pkg t) <$> pending), [])
               end
      end
  end.

Definition parseGoTestFailures (output : string) : list goTestFailure :=
  let '(out, pending) := foldl failure_line ([], []) (split_byte newline_char output) in
  out ++ ((λ t, mkFailure "" t) <$> pending).

Definition FailingTests (output : string) : list string := failure_String <$> parseGoTestFailures output.

(** ** Classifying and comparing runs *)

Definition testLevelFailures (r : TestResult) : Z :=
  Z.of_nat (length (filter (λ n, n ∉ tr_PackageFailures r) (tr_FailedTests r))).

Definition ClassifyBaseline (r : TestResult) : bool * string :=
  if tr_ExitCode r =? -1 then
    if tr_TimedOut r then (false, "the test command timed out and was killed before finishing")
    else (false, "the test command could not be started")
  else if negb (tr_ExitCode r =? 0) && (testLevelFailures r =? 0)
  then (false, "the test run ended with an error but did not report any failing test (command, build or environment problem)")
  else if tr_TestsFound r =? 0 then (false, "no tests were found in the test output")
  else (true, "").

Definition invalidGate (r : QualityGateResult) (reason summary : string) : QualityGateResult :=
  mkGateResult (qr_Baseline r) (qr_Current r) (qr_NewFailures r) false (qr_Improved r)
    ("gate invalid: " +:+ summary) (qr_FailingTests r) (qr_NewFailureNames r) true reason.

Definition empty_gate (baseline current : TestResult) : QualityGateResult :=
  mkGateResult baseline current 0 false false "" [] [] false "".

Definition len_d {A} (l : list A) : string := fmt_d (Z.of_nat (length l)).

Definition CompareResults (baseline current : TestResult) : QualityGateResult :=
  let result := empty_gate baseline current in
  let '(valid, reason) := ClassifyBaseline baseline in
  if negb valid then invalidGate result reason reason
  else
    let '(valid, reason) := ClassifyBaseline current in
    if negb valid then invalidGate result reason ("current run could not be compared - " +:+ reason)
    else
      let newNames := filter (λ n, n ∉ tr_FailedTests baseline) (tr_FailedTests current) in
      let fixedNames := filter (λ n, n ∉ tr_FailedTests current) (tr_FailedTests baseline) in
      let counts := "(failures " +:+ len_d (tr_FailedTests baseline) +:+ " → " +:+ len_d (tr_FailedTests current) +:+ ")" in
      let '(regression, improved, summary) :=
        match newNames, fixedNames with
        | _ :: _, _ => (true, false, "REGRESSION: " +:+ len_d newNames +:+ " new failing test(s) not in baseline: "
                          +:+ Join newNames ", " +:+ " " +:+ counts)
        | [], _ :: _ => (false, true, "IMPROVED: " +:+ len_d fixedNames +:+ " previously failing test(s) now pass: "
                          +:+ Join fixedNames ", " +:+ " " +:+ counts)
        | [], [] => (false, false, "STABLE: " +:+ fmt_d (tr_PassCount current) +:+ " pass, "
                          +:+ fmt_d (tr_FailCount current) +:+ " fail (unchanged)")
        end in
      mkGateResult baseline current (Z.of_nat (length newNames)) regression improved summary [] newNames false "".

(** [EvaluateGate]: [rerun] is what [rerunCandidates] returns, the run of the
    candidate failures (or of the whole command) through [RunTests]. *)
Definition EvaluateGate (rerun : TestResult → list string → TestResult) (baseline current : TestResult) :
    QualityGateResult :=
  let result := CompareResults baseline current in
  if qr_Invalid result || negb (qr_Regression result) then result
  else
    let candidates := qr_NewFailureNames result in
    let again := rerun current candidates in
    let '(valid, reason) := ClassifyBaseline again in
    if negb valid
    then invalidGate result ("confirming re-run unusable: " +:+ reason) ("confirming re-run unusable: " +:+ reason)
    else
      let confirmed := filter (λ n, n ∈ tr_FailedTests again) candidates in
      match confirmed with
      | [] => mkGateResult (qr_Baseline result) (qr_Current result) 0 false (qr_Improved result)
                ("STABLE: " +:+ len_d candidates +:+ " failing test(s) did not reproduce on re-run: " +:+ Join candidates ", ")
                (qr_FailingTests result) [] false (qr_InvalidReason result)
      | _ => mkGateResult (qr_Baseline result) (qr_Current result) (Z.of_nat (length confirmed)) true (qr_Improved result)
               ("REGRESSION (confirmed on re-run): " +:+ Join confirmed ", ")
               confirmed confirmed false (qr_InvalidReason result)
      end.

(** ** Which command the re-run starts *)

Fixpoint mem_char (a : Ascii.ascii) (s : string) : bool :=
  match s with EmptyString => false | String b s' => Ascii.eqb a b || mem_char a s' end.

(** [strings.ContainsAny] *)
Fixpoint contains_any (chars s : string) : bool :=
  match s with
  | EmptyString => false
  | String a s' => mem_char a chars || contains_any chars s'
  end.

(** [strings.Fields] on ASCII text (fuel: every field takes a byte). *)
Fixpoint fields_loop (fuel : nat) (s : string) : list string :=
  match fuel with
  | O => []
  | S f => let s := skip_spaces go_space s in
           if String.eqb s "" then [] else word go_space s :: fields_loop f (drop_word go_space s)
  end.
Definition Fields (s : string) : list string := fields_loop (S (String.length s)) s.

Definition shell_operators : string := "&|;<>`" +:+ String newline_char "".

Definition isPlainGoTest (command : string) : bool :=
  if contains_any shell_operators command || (match Cut command "$(" with Some _ => true | None => false end) then false
  else match Fields command with
       | a :: b :: _ => String.eqb a "go" && String.eqb b "test"
       | _ => false
       end.

Definition commandPackages (command : string) : list string :=
  filter (λ a, HasPrefix a "-" = false ∧
               (HasPrefix a "." || (match Cut a "/" with Some _ => true | None => false end)) = true)
    (drop 2 (Fields command)).

(** [shellQuote] *)
Fixpoint quote_body (s : string) : string :=
  match s with
  | EmptyString => ""
  | String a s' => (if Ascii.eqb a (Ascii.ascii_of_nat 39) then "'\''" else String a "") +:+ quote_body s'
  end.
Definition shellQuote (s : string) : string := "'" +:+ quote_body s +:+ "'".

(** [regexp.QuoteMeta] *)
Definition re_meta : string := "\.+*?()|[]{}^$".
Fixpoint QuoteMeta (s : string) : string :=
  match s with
  | EmptyString => ""
  | String a s' => (if mem_char a re_meta then String (Ascii.ascii_of_nat 92) (String a "") else String a "")
                   +:+ QuoteMeta s'
  end.

Definition top_name (test : string) : string :=
  match Cut test "/" with Some (a, _) => a | None => test end.

(** The command [rerunCandidates] runs. *)
Definition rerun_command (command output : string) (candidates : list string) : string :=
  if negb (isPlainGoTest command) then command
  else
    let matched := filter (λ f, failure_String f ∈ candidates) (parseGoTestFailures output) in
    if existsb (λ f, String.eqb (gf_test f) "") matched then command
    else
      let tops : gset string := list_to_set ((λ f, QuoteMeta (top_name (gf_test f))) <$> matched) in
      let pkgs : gset string := list_to_set (filter (λ p, p ≠ "") (gf_pkg <$> matched)) in
      if bool_decide (Z.of_nat (length matched) < Z.of_nat (size (list_to_set candidates : gset string))) || bool_decide (tops = ∅)
      then command
      else
        let ps := sort_strings (elements pkgs) in
        let ps := match ps with [] => commandPackages command | _ => ps end in
        let ps := match ps with [] => ["./..."] | _ => ps end in
        Join (shellQuote <$> (["go"; "test"; "-count=1"; "-run";
                               "^(" +:+ Join (sort_strings (elements tops)) "|" +:+ ")$"] ++ ps)) " ".

(** [rerunCandidates] over the runner that starts a command. *)
Definition rerunCandidates (runner : string → TestResult) (current : TestResult) (candidates : list string) : TestResult :=
  runner (rerun_command (tr_Command current) (tr_Output current) candidates).
