(* ===== verification/PipelineExec.v ===== *)
(** * Pipelines: the executor

    internal/pipeline/executor.go: starting a pipeline and one round of its
    loop, against the interface [SessionStarter]. A round is one tick of the
    ticker; [run] is a sequence of them. What [onUpdate] is called with is
    collected in order. *)

From S2P Require Import Prelude GoBase Graph Pipeline PipelineGraph QualityGate.

#[local] Open Scope Z_scope.

(** [StartSession] answers an error or a session id; [S] is the session world. *)
Class SessionStarter (S : Type) := {
  StartSession : S → string → string → string → S * (string + string);
  GetSessionState : S → string → string
}.

(** What the executor holds besides the pipelines: its default backend, the gate
    configuration and baseline, and the runner of test commands. *)
Record Exec := mkExec {
  ex_backend : string;
  ex_gates : QualityGateConfig;
  ex_baseline : option TestResult;
  ex_runner : string → TestResult
}.

Definition gate_on (e : Exec) : bool := gc_Enabled (ex_gates e) && nonempty (gc_TestCommand (ex_gates e)).

(** [Start]: the cycle check, the baseline run, and the pipeline is running. *)
Definition Start (e : Exec) (p : Pipeline) : string + (Exec * Pipeline) :=
  match DetectCycles (p_Tasks p) with
  | Some cycle => inl ("circular dependency detected: [" +:+ Join cycle " " +:+ "]")
  | None =>
      let e := if gate_on e
               then mkExec (ex_backend e) (ex_gates e) (Some (ex_runner e (gc_TestCommand (ex_gates e)))) (ex_runner e)
               else e in
      inr (e, set_State StateRunning p)
  end.

Section tick.
Context {S : Type} `{!SessionStarter S}.

(** The check of the running tasks: [false] when the loop returns. *)
Fixpoint check_running (s : S) (now : Time) (n : nat) (i : nat) (p : Pipeline) (ups : list Pipeline) :
    Pipeline * list Pipeline * bool :=
  match n with
  | O => (p, ups, true)
  | Datatypes.S n =>
      match p_Tasks p !! i with
      | None => (p, ups, true)
      | Some t =>
          if state_is StateRunning t && nonempty (t_SessionID t) then
            let st := GetSessionState s (t_SessionID t) in
            if String.eqb st "complete" then
              let p := MarkCompleted (t_ID t) now p in
              check_running s now n (Datatypes.S i) p (ups ++ [p])
            else if String.eqb st "failed" || String.eqb st "killed" then
              let p := MarkFailed (t_ID t) ("session " +:+ st) now p in
              (p, ups ++ [p], false)
            else check_running s now n (Datatypes.S i) p ups
          else check_running s now n (Datatypes.S i) p ups
      end
  end.

(** The end of a pipeline whose tasks are all done. *)
Definition finish (e : Exec) (p : Pipeline) : Pipeline :=
  match (if gate_on e then ex_baseline e else None) with
  | Some baseline =>
      let current := ex_runner e (gc_TestCommand (ex_gates e)) in
      let compare := EvaluateGate (rerunCandidates (ex_runner e)) baseline current in
      if qr_Regression compare && gc_BlockOnRegression (ex_gates e)
      then set_Error ("quality_gate_regression: " +:+ qr_Summary compare) (set_State StateFailed p)
      else set_State StateCompleted p
  | None => set_State StateCompleted p
  end.

(** Launching ready tasks up to the parallel bound. *)
Fixpoint launch (e : Exec) (now : Time) (ready : list Task) (running : Z) (s : S) (p : Pipeline) (ups : list Pipeline) :
    S * Pipeline * list Pipeline * bool :=
  match ready with
  | [] => (s, p, ups, true)
  | t :: ready' =>
      if p_MaxParallel p <=? running then (s, p, ups, true)
      else
        match StartSession s (t_Title t) (p_ProjectDir p) (ex_backend e) with
        | (s, inl err) => let p := MarkFailed (t_ID t) err now p in (s, p, ups ++ [p], false)
        | (s, inr sid) => let p := MarkRunning (t_ID t) sid now p in
                          launch e now ready' (running + 1) s p (ups ++ [p])
        end
  end.

(** One tick: the new state, what was reported, and whether the loop goes on. *)
Definition tick (e : Exec) (now : Time) (s : S) (p : Pipeline) : S * Pipeline * list Pipeline * bool :=
  if negb (bool_decide (p_State p = StateRunning)) then (s, p, [], false)
  else
    let '(p, ups, go) := check_running s now (length (p_Tasks p)) O p [] in
    if negb go then (s, p, ups, false)
    else if IsComplete p then let p := finish e p in (s, p, ups ++ [p], false)
    else launch e now (ReadyTasks p) (RunningCount p) s p ups.
End tick.
