(* ===== verification/PipelineTheorems.v ===== *)
(** * Pipelines: what the executor guarantees *)

From S2P Require Import Prelude GoBase Graph Pipeline PipelineGraph QualityGate PipelineExec.

#[local] Open Scope Z_scope.

(** ** Tasks with distinct names *)

Definition ids (p : Pipeline) : list string := t_ID <$> p_Tasks p.

(** With distinct names an update is a map over the tasks. *)
Definition at_id (id : string) (f : Task → Task) (t : Task) : Task :=
  if String.eqb (t_ID t) id then f t else t.

Lemma task_index_none id ts : task_index id ts = None → id ∉ t_ID <$> ts.
Proof.
  induction ts as [|t ts IH]; simpl; [set_solver|]. case_match eqn:E; [done|]. bools.
  intros H%fmap_None. rewrite elem_of_cons. intros [->|]; [done|]. by apply IH.
Qed.

Lemma at_id_absent id f (ts : list Task) : id ∉ t_ID <$> ts → at_id id f <$> ts = ts.
Proof.
  induction ts as [|t ts IH]; [done|]. rewrite !fmap_cons. intros H. rewrite IH by set_solver.
  unfold at_id. destruct (String.eqb_spec (t_ID t) id); [set_solver|done].
Qed.

Lemma update_task_map id f p : NoDup (ids p) → p_Tasks (update_task id f p) = at_id id f <$> p_Tasks p.
Proof.
  unfold ids, update_task. intros Hnd. destruct (task_index id (p_Tasks p)) as [i|] eqn:E.
  - simpl. revert i E. induction (p_Tasks p) as [|t ts IH]; intros i E; [done|].
    rewrite fmap_cons in Hnd. apply NoDup_cons in Hnd as [Hni Hnd]. rewrite fmap_cons.
    unfold at_id at 1. simpl in E. destruct (String.eqb_spec (t_ID t) id) as [Heq|Hne].
    + injection E as <-. rewrite Heq in Hni. by rewrite at_id_absent.
    + destruct (task_index id ts) as [j|]; [|done]. injection E as <-. simpl. f_equal. by apply IH.
  - symmetry. apply at_id_absent. by apply task_index_none.
Qed.

Section maps.
Context (f : Task → Task) (Hf : ∀ t, t_ID (f t) = t_ID t ∧ t_DependsOn (f t) = t_DependsOn t).

Lemma at_id_ids id (ts : list Task) : t_ID <$> (at_id id f <$> ts) = t_ID <$> ts.
Proof.
  rewrite <- list_fmap_compose. apply list_fmap_ext. intros i t _. simpl. unfold at_id.
  case_match; [apply Hf|done].
Qed.

Lemma update_ids id p : NoDup (ids p) → ids (update_task id f p) = ids p.
Proof. intros Hnd. unfold ids. by rewrite update_task_map, at_id_ids. Qed.
End maps.

(** ** How many run *)

Definition running (ts : list Task) : Z := Z.of_nat (length (filter (λ t, t_State t = StateRunning) ts)).

Lemma running_cons t ts : running (t :: ts) = (if state_is StateRunning t then 1 else 0) + running ts.
Proof.
  unfold running, state_is. rewrite filter_cons. case_decide as E.
  - rewrite bool_decide_eq_true_2 by done. simpl. lia.
  - by rewrite bool_decide_eq_false_2.
Qed.

(** Marking one name changes the count by at most one, and never up when the
    task stops running. *)
Lemma running_at_id id f (ts : list Task) :
  NoDup (t_ID <$> ts) → running (at_id id f <$> ts) ≤ running ts + 1.
Proof.
  induction ts as [|t ts IH]; intros Hnd; [done|]. rewrite fmap_cons in Hnd.
  apply NoDup_cons in Hnd as [Hni Hnd]. rewrite fmap_cons, !running_cons. unfold at_id at 1.
  destruct (String.eqb_spec (t_ID t) id) as [Heq|].
  - rewrite Heq in Hni. rewrite at_id_absent by done. repeat case_match; lia.
  - specialize (IH Hnd). lia.
Qed.

Lemma running_stop id f (ts : list Task) :
  (∀ t, t_State (f t) ≠ StateRunning) → running (at_id id f <$> ts) ≤ running ts.
Proof.
  intros Hf. induction ts as [|t ts IH]; [done|]. rewrite fmap_cons, !running_cons. unfold at_id at 1.
  destruct (String.eqb (t_ID t) id); [|destruct (state_is StateRunning t); lia].
  unfold state_is at 1. rewrite bool_decide_eq_false_2 by apply Hf.
  destruct (state_is StateRunning t); lia.
Qed.

(** ** One tick *)

Section exec.
Context {S : Type} `{!SessionStarter S}.
Implicit Types (s : S) (p : Pipeline).

(** What checking the running tasks does to each task. *)
Definition checked (t t' : Task) : Prop :=
  t' = t ∨ (t_State t = StateRunning ∧ t_ID t' = t_ID t ∧ t_DependsOn t' = t_DependsOn t ∧
            (t_State t' = StateCompleted ∨ t_State t' = StateFailed)).

Lemma checked_trans t1 t2 t3 : checked t1 t2 → checked t2 t3 → checked t1 t3.
Proof.
  intros [->|(H1&H2&H3&H4)] [->|(K1&K2&K3&K4)]; [by left|by right|right; done|].
  destruct H4; congruence.
Qed.

Lemma checked_ids ts ts' : Forall2 checked ts ts' → t_ID <$> ts' = t_ID <$> ts.
Proof. induction 1 as [|t t' ts ts' [->|(_&H&_)] _ IH]; [done|..]; rewrite !fmap_cons; congruence. Qed.

Lemma checked_running ts ts' : Forall2 checked ts ts' → running ts' ≤ running ts.
Proof.
  induction 1 as [|t t' ts ts' H _ IH]; [done|]. rewrite !running_cons.
  destruct H as [->|(_&_&_&[H|H])]; [lia|unfold state_is; rewrite H; simpl; case_match; lia..].
Qed.

Lemma checked_refl ts : Forall2 checked ts ts.
Proof. induction ts; constructor; [by left|done]. Qed.

Lemma checked_at f (ts : list Task) i t :
  NoDup (t_ID <$> ts) → ts !! i = Some t → checked t (f t) → Forall2 checked ts (at_id (t_ID t) f <$> ts).
Proof.
  intros Hnd Hi Hc. apply Forall2_fmap_r, Forall_Forall2_diag, Forall_forall. intros x Hx.
  simpl. unfold at_id. destruct (String.eqb_spec (t_ID x) (t_ID t)) as [E|]; [|by left].
  apply list_elem_of_lookup in Hx as [j Hj].
  assert (i = j) as <-; [|congruence]. apply (NoDup_lookup (t_ID <$> ts) i j (t_ID t)); [done|..];
    rewrite list_lookup_fmap, ?Hi, ?Hj; simpl; congruence.
Qed.

Lemma check_running_spec s now n i p ups p' ups' go :
  NoDup (ids p) → check_running s now n i p ups = (p', ups', go) →
  Forall2 checked (p_Tasks p) (p_Tasks p') ∧ p_MaxParallel p' = p_MaxParallel p ∧
  p_ProjectDir p' = p_ProjectDir p.
Proof.
  revert i p ups. induction n as [|n IH]; intros i p ups Hnd; simpl.
  { intros [= <- <- <-]. split; [apply checked_refl|done]. }
  destruct (p_Tasks p !! i) as [t|] eqn:Ht; [|intros [= <- <- <-]; split; [apply checked_refl|done]].
  destruct (state_is StateRunning t && nonempty (t_SessionID t)) eqn:E; [|by apply IH].
  apply andb_true_iff in E as [Er%bool_decide_eq_true_1 _].
  assert (∀ f, (∀ t, t_ID (f t) = t_ID t ∧ t_DependsOn (f t) = t_DependsOn t) →
    t_State (f t) = StateCompleted ∨ t_State (f t) = StateFailed →
    Forall2 checked (p_Tasks p) (p_Tasks (update_task (t_ID t) f p))) as Hone.
  { intros f Hf Hs. rewrite update_task_map by done. eapply checked_at; [done..|]. right.
    split_and!; [done|apply Hf|apply Hf|done]. }
  case_match; [|case_match; [|by apply IH]].
  - intros Hc. unfold MarkCompleted in Hc. match type of Hc with check_running _ _ _ _ (update_task _ ?f _) _ = _ =>
      assert (Forall2 checked (p_Tasks p) (p_Tasks (update_task (t_ID t) f p))) as H1 by (apply Hone; auto);
      assert (NoDup (ids (update_task (t_ID t) f p))) as Hnd' by (by rewrite update_ids);
      assert (p_MaxParallel (update_task (t_ID t) f p) = p_MaxParallel p ∧
              p_ProjectDir (update_task (t_ID t) f p) = p_ProjectDir p) as [Hmp Hpd]
        by (unfold update_task; by case_match) end.
    apply IH in Hc as (H2&->&->); [|done]. split; [|done].
    eapply Forall2_trans; [|exact H1|exact H2]. apply checked_trans.
  - intros [= <- <- <-]. unfold MarkFailed. simpl. split; [by apply Hone; auto|].
    unfold update_task. by case_match.
Qed.

(** What launching does to each task. *)
Definition launched (ready : list Task) (t t' : Task) : Prop :=
  t' = t ∨ (t_ID t ∈ t_ID <$> ready ∧ t_ID t' = t_ID t ∧ t_DependsOn t' = t_DependsOn t ∧
            (t_State t' = StateRunning ∨ t_State t' = StateFailed)).

Lemma launch_spec e now ready r s p ups s' p' ups' go :
  NoDup (ids p) → running (p_Tasks p) ≤ r → launch e now ready r s p ups = (s', p', ups', go) →
  Forall2 (launched ready) (p_Tasks p) (p_Tasks p') ∧ running (p_Tasks p') ≤ Z.max r (p_MaxParallel p).
Proof.
  assert (∀ rd ts, Forall2 (launched rd) ts ts) as Hrefl by (intros ??; apply Forall_Forall2_diag, Forall_forall; by left).
  revert r s p ups. induction ready as [|t ready IH]; intros r s p ups Hnd Hr; simpl.
  { intros [= <- <- <- <-]. split; [done|lia]. }
  destruct (p_MaxParallel p <=? r) eqn:E; [intros [= <- <- <- <-]; split; [done|lia]|]. bools.
  assert (∀ f : Task → Task, (∀ t, t_ID (f t) = t_ID t ∧ t_DependsOn (f t) = t_DependsOn t) →
    (∀ t, t_State (f t) = StateRunning ∨ t_State (f t) = StateFailed) →
    Forall2 (launched (t :: ready)) (p_Tasks p) (p_Tasks (update_task (t_ID t) f p))) as Hone.
  { intros f Hf Hs. rewrite update_task_map by done. apply Forall2_fmap_r, Forall_Forall2_diag, Forall_forall.
    intros x Hx. simpl. unfold at_id. destruct (String.eqb_spec (t_ID x) (t_ID t)) as [Eq|]; [|by left].
    right. rewrite fmap_cons, Eq. destruct (Hf x) as [-> ->]. rewrite Eq. split_and!; [left|done|done|apply Hs]. }
  destruct (StartSession s (t_Title t) (p_ProjectDir p) (ex_backend e)) as [s1 [err|sid]].
  - intros [= <- <- <- <-]. unfold MarkFailed. simpl. split; [by apply Hone; auto|].
    rewrite update_task_map by done. etrans; [apply running_stop; by intros|]. lia.
  - intros Hl. unfold MarkRunning in Hl. match type of Hl with launch _ _ _ _ _ (update_task _ ?f _) _ = _ =>
      assert (Forall2 (launched (t :: ready)) (p_Tasks p) (p_Tasks (update_task (t_ID t) f p))) as H1 by (apply Hone; auto);
      assert (NoDup (ids (update_task (t_ID t) f p))) as Hnd' by (by rewrite update_ids);
      assert (p_MaxParallel (update_task (t_ID t) f p) = p_MaxParallel p) as Hmp by (unfold update_task; by case_match);
      assert (running (p_Tasks (update_task (t_ID t) f p)) ≤ r + 1) as Hr'
        by (rewrite update_task_map by done; etrans; [by apply running_at_id|lia]) end.
    apply IH in Hl as (H2&Hr2); [|done..]. rewrite Hmp in Hr2. split; [|lia].
    eapply Forall2_trans; [|exact H1|exact H2].
    intros x y z [->|(Hx1&Hx2&Hx3&Hx4)] [->|(Hy1&Hy2&Hy3&Hy4)];
      [by left|right; rewrite fmap_cons; split_and!; [by right|done..]|by right|right; split_and!; congruence || done].
Qed.

Lemma check_running_state s now n i p ups p' ups' go :
  check_running s now n i p ups = (p', ups', go) → p_State p' = p_State p ∨ p_State p' = StateFailed.
Proof.
  revert i p ups. induction n as [|n IH]; intros i p ups; simpl; [intros [= <- <- <-]; by left|].
  destruct (p_Tasks p !! i) as [t|]; [|intros [= <- <- <-]; by left].
  case_match; [|apply IH]. case_match; [|case_match; [|apply IH]].
  - intros H'. apply IH in H'. unfold MarkCompleted, update_task in H'. by case_match.
  - intros [= <- <- <-]. by right.
Qed.

Lemma launch_state e now ready r s p ups s' p' ups' go :
  launch e now ready r s p ups = (s', p', ups', go) → p_State p' = p_State p ∨ p_State p' = StateFailed.
Proof.
  revert r s p ups. induction ready as [|t ready IH]; intros r s p ups; simpl; [intros [= <- <- <- <-]; by left|].
  case_match; [intros [= <- <- <- <-]; by left|].
  destruct (StartSession s (t_Title t) (p_ProjectDir p) (ex_backend e)) as [s1 [err|sid]].
  - intros [= <- <- <- <-]. by right.
  - intros H'. apply IH in H'. unfold MarkRunning, update_task in H'. by case_match.
Qed.
End exec.

(** ** Ready tasks *)

Lemma elem_of_completed p d :
  d ∈ completed_ids p ↔ ∃ u, u ∈ p_Tasks p ∧ t_ID u = d ∧ t_State u = StateCompleted.
Proof.
  unfold completed_ids. rewrite elem_of_list_to_set, list_elem_of_fmap. setoid_rewrite list_elem_of_filter.
  naive_solver.
Qed.

Lemma is_ready_true done t :
  is_ready done t = true ↔ t_State t = StatePending ∧ ∀ d, d ∈ t_DependsOn t → d ∈ done.
Proof.
  unfold is_ready, state_is. rewrite andb_true_iff, bool_decide_eq_true, forallb_forall.
  setoid_rewrite <- list_elem_of_In. setoid_rewrite bool_decide_eq_true. done.
Qed.

Lemma task_eq p t u : NoDup (ids p) → t ∈ p_Tasks p → u ∈ p_Tasks p → t_ID t = t_ID u → t = u.
Proof.
  intros Hnd Hin Ht Hid. apply list_elem_of_lookup in Hin as [i Hi], Ht as [j Hj].
  assert (i = j) as ->; [|congruence]. apply (NoDup_lookup (ids p) i j (t_ID u)); [done|..];
    unfold ids; rewrite list_lookup_fmap, ?Hi, ?Hj; simpl; congruence.
Qed.

Lemma ready_task p t :
  t_ID t ∈ t_ID <$> ReadyTasks p → NoDup (ids p) → t ∈ p_Tasks p →
  t_State t = StatePending ∧
  ∀ d, d ∈ t_DependsOn t → ∃ u, u ∈ p_Tasks p ∧ t_ID u = d ∧ t_State u = StateCompleted.
Proof.
  intros (r&Hid&Hr)%list_elem_of_fmap Hnd Ht. apply list_elem_of_filter in Hr as [Hr Hin].
  assert (r = t) as -> by (by apply (task_eq p)).
  apply is_ready_true in Hr as [Hp Hd]. split; [done|]. intros d Hdd. by apply elem_of_completed, Hd.
Qed.

(** The first task in a topological order that is not completed waits on nothing. *)
Lemma first_incomplete E (done : gset string) fin pre :
  topo E fin → (∀ d, d ∈ pre → d ∈ done) →
  (∀ x, x ∈ fin → x ∈ done) ∨
  ∃ x, x ∉ done ∧ x ∈ fin ∧ ∀ d, E d x → d ∈ pre ++ fin → d ∈ done.
Proof.
  revert pre. induction fin as [|u rest IH]; intros pre Ht Hpre; [left; set_solver|].
  destruct Ht as (Hni&Hout&Ht). destruct (decide (u ∈ done)) as [Hu|Hu].
  - destruct (IH (u :: pre) Ht) as [Hall|(x&Hx&Hin&Hd)]; [set_solver..|].
    right. exists x. split_and!; [assumption|by right|]. intros d HE Hd'. apply Hd; [assumption|set_solver].
  - right. exists u. split_and!; [assumption|left|]. intros d HE [|Hin]%elem_of_app; [by apply Hpre|].
    exfalso. apply Hni. apply elem_of_cons in Hin as [->|Hin]; [by apply Hout|by eapply topo_closed].
Qed.

Lemma progress p :
  NoDup (ids p) → DetectCycles (p_Tasks p) = None →
  (∀ t d, t ∈ p_Tasks p → d ∈ t_DependsOn t → d ∈ ids p) →
  (∀ t, t ∈ p_Tasks p → t_State t ≠ StateFailed ∧ t_State t ≠ StateCancelled) →
  IsComplete p = true ∨ 0 < RunningCount p ∨ ReadyTasks p ≠ [].
Proof.
  intros Hnd Hdc Hdeps Hst. destruct (decide (filter (λ t, t_State t = StateRunning) (p_Tasks p) = [])) as [Hnr|Hr].
  2: { right. left. unfold RunningCount. destruct (filter _ _); [done|simpl; lia]. }
  assert (∀ t, t ∈ p_Tasks p → t_State t = StatePending ∨ t_State t = StateCompleted) as Hpc.
  { intros t Ht. destruct (Hst t Ht) as [? ?]. destruct (t_State t) eqn:E; auto; [|done..].
    assert (t ∈ filter (λ t, t_State t = StateRunning) (p_Tasks p)) as Hin by (by apply list_elem_of_filter).
    rewrite Hnr in Hin. by apply elem_of_nil in Hin. }
  destruct (detect_topo (p_Tasks p) Hdc) as (fin&Ht&Hall).
  destruct (first_incomplete _ (completed_ids p) fin [] Ht) as [Hc|(x&Hx&Hxin&Hd)]; [set_solver|..].
  - left. unfold IsComplete. apply forallb_forall. intros t Htin%list_elem_of_In.
    apply bool_decide_eq_true. destruct (Hpc t Htin) as [Hp|]; [|done]. exfalso.
    assert (t_ID t ∈ completed_ids p) as (u&Hu&Hid&Hs)%elem_of_completed by (by apply Hc, Hall, list_elem_of_fmap_2).
    assert (u = t) as ->; [|congruence].
    by apply (task_eq p).
  - right. right. apply Hall in Hxin. apply list_elem_of_fmap in Hxin as (t&->&Hin).
    assert (t ∈ ReadyTasks p) as Hrt; [|intros Hnil; rewrite Hnil in Hrt; by apply elem_of_nil in Hrt].
    apply list_elem_of_filter. split; [|done]. apply is_ready_true. split.
    + destruct (Hpc t Hin) as [|Hs]; [done|]. destruct Hx. apply elem_of_completed. eauto.
    + intros d Hdd. apply Hd; [by exists t|]. simpl. by apply Hall, (Hdeps t d).
Qed.

(** ** A whole tick *)

Section whole.
Context {S : Type} `{!SessionStarter S}.

Lemma finish_tasks e p : p_Tasks (finish e p) = p_Tasks p.
Proof. unfold finish. by repeat case_match. Qed.

(** A tick checks the running tasks and then at most launches ready ones. *)
Lemma tick_spec e now (s s' : S) p p' ups go :
  NoDup (ids p) → tick e now s p = (s', p', ups, go) →
  ∃ p1, Forall2 checked (p_Tasks p) (p_Tasks p1) ∧ Forall2 (launched (ReadyTasks p1)) (p_Tasks p1) (p_Tasks p') ∧
    running (p_Tasks p') ≤ Z.max (running (p_Tasks p1)) (p_MaxParallel p) ∧
    (p_State p = StateRunning → p_State p' = StateCompleted → IsComplete p' = true).
Proof.
  intros Hnd. unfold tick.
  assert (∀ rd ts, Forall2 (launched rd) ts ts) as Hrefl by (intros ??; apply Forall_Forall2_diag, Forall_forall; by left).
  destruct (negb _) eqn:Est.
  { intros [= <- <- <- <-]. exists p. split_and!; [apply checked_refl|done|lia|]. intros Hrun. bools. congruence. }
  apply negb_false_iff, bool_decide_eq_true_1 in Est.
  destruct (check_running _ _ _ _ _ _) as [[p1 ups1] go1] eqn:Hc.
  pose proof (check_running_state _ _ _ _ _ _ _ _ _ Hc) as Hst.
  destruct (check_running_spec _ _ _ _ _ _ _ _ _ Hnd Hc) as (Hck&Hmp&Hpd).
  assert (NoDup (ids p1)) as Hnd1 by (unfold ids; by rewrite (checked_ids _ _ Hck)).
  destruct go1; simpl.
  - destruct (IsComplete p1) eqn:Hcomp.
    + intros [= <- <- <- <-]. exists p1. rewrite finish_tasks. split_and!; [done|done|lia|].
      intros _ _. unfold IsComplete in *. by rewrite finish_tasks.
    + intros Hl. pose proof (launch_state _ _ _ _ _ _ _ _ _ _ _ Hl) as Hls.
      apply launch_spec in Hl as (Hla&Hrun); [|done|unfold RunningCount, running; lia].
      exists p1. split_and!; [done|done| |].
      * rewrite <- Hmp. unfold RunningCount in Hrun. unfold running in *. lia.
      * intros Hrn. destruct Hst as [Hst|Hst], Hls as [Hls|Hls]; congruence.
  - intros [= <- <- <- <-]. exists p1. split_and!; [done|done|lia|]. intros ?. destruct Hst; congruence.
Qed.
End whole.

(** ** The regression gate *)

(** The candidates: failing now, not failing in the baseline. *)
Definition new_failures (baseline current : TestResult) : list string :=
  filter (λ n, n ∉ tr_FailedTests baseline) (tr_FailedTests current).

Lemma compare_cases b c :
  let r := CompareResults b c in
  if (ClassifyBaseline b).1 && (ClassifyBaseline c).1
  then qr_Invalid r = false ∧ qr_NewFailureNames r = new_failures b c ∧
       qr_Regression r = negb (bool_decide (new_failures b c = []))
  else qr_Invalid r = true ∧ qr_Regression r = false.
Proof.
  unfold CompareResults. fold (new_failures b c).
  destruct (ClassifyBaseline b) as [[] wb], (ClassifyBaseline c) as [[] wc]; try done. simpl.
  by destruct (new_failures b c); [destruct (filter _ (tr_FailedTests b))|].
Qed.

Lemma elem_of_confirmed b c again n :
  n ∈ filter (λ n, n ∈ tr_FailedTests again) (new_failures b c) ↔
  n ∈ tr_FailedTests c ∧ n ∉ tr_FailedTests b ∧ n ∈ tr_FailedTests again.
Proof. unfold new_failures. rewrite !list_elem_of_filter. tauto. Qed.

Lemma gate_exact rerun baseline current :
  let r := EvaluateGate rerun baseline current in
  let again := rerun current (new_failures baseline current) in
  (qr_Regression r = true ↔
     (ClassifyBaseline baseline).1 = true ∧ (ClassifyBaseline current).1 = true ∧ (ClassifyBaseline again).1 = true ∧
     ∃ n, n ∈ tr_FailedTests current ∧ n ∉ tr_FailedTests baseline ∧ n ∈ tr_FailedTests again) ∧
  (qr_Regression r = true → ∀ n, n ∈ qr_FailingTests r ↔
     n ∈ tr_FailedTests current ∧ n ∉ tr_FailedTests baseline ∧ n ∈ tr_FailedTests again).
Proof.
  intros r again. unfold r, EvaluateGate. pose proof (compare_cases baseline current) as Hc. cbv zeta in Hc.
  destruct (ClassifyBaseline baseline).1, (ClassifyBaseline current).1; cbn [andb] in Hc;
    try (destruct Hc as [-> Hr]; cbn [orb]; rewrite Hr; naive_solver).
  destruct Hc as (->&->&Hr). rewrite Hr. fold again.
  pose proof (elem_of_confirmed baseline current again) as Hin.
  destruct (decide (new_failures baseline current = [])) as [E|E].
  { rewrite bool_decide_eq_true_2 in * by done. cbn [orb negb]. rewrite Hr.
    split; [|done]. split; [done|]. intros (_&_&_&n&Hn). apply Hin in Hn. rewrite E in Hn. by apply elem_of_nil in Hn. }
  rewrite bool_decide_eq_false_2 by done. cbn [orb negb].
  destruct (ClassifyBaseline again) as [[] why]; simpl; [|naive_solver].
  destruct (filter _ (new_failures baseline current)) as [|m ms] eqn:F; simpl.
  - split; [|done]. split; [done|]. intros (_&_&_&n&Hn). apply Hin in Hn. by apply elem_of_nil in Hn.
  - split; [|done]. split; [|done]. intros _. split_and!; [done..|]. exists m. apply Hin. left.
Qed.

(** ** Properties *)

(** C32: the cycle check is exact. DetectCycles answers a list of tasks only if
    it is a cycle of the dependency graph (each depends on the one before it,
    the first on the last), answers nothing only if the graph has no cycle at
    all, and its recursion always finishes. *)
Theorem detect_cycles_exact tasks :
  detect (Datatypes.S (length tasks)) tasks ≠ None ∧
  match DetectCycles tasks with
  | Some c => is_cycle tasks c
  | None => ∀ x, ¬ tc (edge tasks) x x
  end.
Proof. split; [apply detect_terminates|apply detect_exact]. Qed.

(** A tick never runs more sessions than MaxParallel: the number of running
    tasks after it is at most the number before, or MaxParallel if that is
    larger. *)
Theorem tick_within_parallel {S} `{!SessionStarter S} e now (s : S) p :
  NoDup (ids p) →
  RunningCount (tick e now s p).1.1.2 ≤ Z.max (RunningCount p) (p_MaxParallel p).
Proof.
  intros Hnd. destruct (tick e now s p) as [[[s' p'] ups] go] eqn:Ht. simpl.
  destruct (tick_spec e now s s' p p' ups go Hnd Ht) as (p1&Hck&_&Hrun&_).
  pose proof (checked_running _ _ Hck). unfold RunningCount, running in *. lia.
Qed.

(** a tick starts a task only when all its dependencies are completed, and
    ends a pipeline as completed only when every task is. A task that runs
    after the tick and did not before was pending, and each dependency it names
    is a completed task of the pipeline. *)
Theorem tick_respects_deps {S} `{!SessionStarter S} e now (s : S) p :
  NoDup (ids p) →
  let p' := (tick e now s p).1.1.2 in
  (∀ i t t', p_Tasks p !! i = Some t → p_Tasks p' !! i = Some t' →
     t_State t' = StateRunning → t_State t ≠ StateRunning →
     t_State t = StatePending ∧
     ∀ d, d ∈ t_DependsOn t → ∃ u, u ∈ p_Tasks p' ∧ t_ID u = d ∧ t_State u = StateCompleted) ∧
  (p_State p = StateRunning → p_State p' = StateCompleted → IsComplete p' = true).
Proof.
  intros Hnd p'. unfold p'. clear p'. destruct (tick e now s p) as [[[s' p'] ups] go] eqn:Ht. simpl.
  destruct (tick_spec e now s s' p p' ups go Hnd Ht) as (p1&Hck&Hla&_&Hdone). split; [|done].
  intros i t t' Hi Hi' Hr' Hr.
  destruct (Forall2_lookup_l _ _ _ _ _ Hck Hi) as (t1&Hi1&Hc).
  destruct (Forall2_lookup_l _ _ _ _ _ Hla Hi1) as (t2&Hi2&Hl). simplify_eq.
  assert (t_State t1 ≠ StateRunning) as Hr1 by (destruct Hc as [->|(?&_&_&[?|?])]; congruence).
  destruct Hl as [->|(Hin&_&_&_)]; [done|].
  assert (NoDup (ids p1)) as Hnd1 by (unfold ids; by rewrite (checked_ids _ _ Hck)).
  apply (ready_task p1 t1) in Hin as (Hp&Hdeps); [|done|by eapply list_elem_of_lookup_2].
  assert (t1 = t) as ->.
  { destruct Hc as [->|(_&_&_&[?|?])]; [done|congruence..]. }
  split; [done|]. intros d Hd. destruct (Hdeps d Hd) as (u&Hu&Hud&Huc).
  apply list_elem_of_lookup in Hu as [j Hj].
  destruct (Forall2_lookup_l _ _ _ _ _ Hla Hj) as (u'&Hj'&[->|(Hin&_)]).
  - exists u. split; [by eapply list_elem_of_lookup_2|done].
  - apply (ready_task p1 u) in Hin as (Hp'&_); [congruence|done|by eapply list_elem_of_lookup_2].
Qed.

(** An accepted pipeline never deadlocks. When DetectCycles finds no cycle,
    every dependency names a task, and no task failed or was cancelled, then
    the pipeline is complete, or a task is running, or one is ready. *)
Theorem pipeline_progress p :
  NoDup (ids p) → DetectCycles (p_Tasks p) = None →
  (∀ t d, t ∈ p_Tasks p → d ∈ t_DependsOn t → d ∈ ids p) →
  (∀ t, t ∈ p_Tasks p → t_State t ≠ StateFailed ∧ t_State t ≠ StateCancelled) →
  IsComplete p = true ∨ 0 < RunningCount p ∨ ReadyTasks p ≠ [].
Proof. apply progress. Qed.

(** The regression gate blames exactly the names that fail twice. With
    usable runs, the gate reports a regression if and only if some test fails
    in the current run, did not fail in the baseline, and fails again when the
    candidates are re-run; and then it names exactly those tests. A run that is
    not usable (baseline, current or re-run) is never a regression. *)
Theorem gate_regression_iff rerun baseline current :
  let r := EvaluateGate rerun baseline current in
  let again := rerun current (new_failures baseline current) in
  (qr_Regression r = true ↔
     (ClassifyBaseline baseline).1 = true ∧ (ClassifyBaseline current).1 = true ∧ (ClassifyBaseline again).1 = true ∧
     ∃ n, n ∈ tr_FailedTests current ∧ n ∉ tr_FailedTests baseline ∧ n ∈ tr_FailedTests again) ∧
  (qr_Regression r = true → ∀ n, n ∈ qr_FailingTests r ↔
     n ∈ tr_FailedTests current ∧ n ∉ tr_FailedTests baseline ∧ n ∈ tr_FailedTests again).
Proof. apply gate_exact. Qed.

(** ** A concrete run *)

(** Sessions numbered as they start, each complete when asked. *)
#[local] Instance demo_starter : SessionStarter Z := {
  StartSession n task _ _ := (n + 1, inr ("s" +:+ fmt_d n));
  GetSessionState _ _ := "complete"
}.

Definition demo_task (id : string) (deps : list string) : Task :=
  mkTask id id deps StatePending "" "" None None "" "" "".
Definition demo_pipeline : Pipeline :=
  mkPipeline "pipe-1" "demo" "/tmp" [demo_task "c" ["a"; "b"]; demo_task "a" []; demo_task "b" []] StateRunning 1 0 "".
Definition demo_exec : Exec := mkExec "claude" (mkGateConfig false "" 0 false "" []) None
  (λ c, mkTestResult c 0 "" 0 0 0 0 [] [] 0 false).

Lemma demo_distinct : NoDup (ids demo_pipeline).
Proof. unfold ids. simpl. repeat constructor; set_solver. Qed.

Lemma tick_within_parallel_witness : RunningCount (tick demo_exec 5 0 demo_pipeline).1.1.2 ≤ 1.
Proof. apply (tick_within_parallel demo_exec 5 0 demo_pipeline demo_distinct). Defined.

Lemma tick_respects_deps_witness :
  ∃ t, p_Tasks (tick demo_exec 5 0 demo_pipeline).1.1.2 !! 1%nat = Some t ∧ t_State t = StateRunning ∧
    ∀ d, d ∈ ([] : list string) →
      ∃ u, u ∈ p_Tasks (tick demo_exec 5 0 demo_pipeline).1.1.2 ∧ t_ID u = d ∧ t_State u = StateCompleted.
Proof.
  eexists. split; [vm_compute; reflexivity|]. split; [reflexivity|].
  apply (proj1 (tick_respects_deps demo_exec 5 0 demo_pipeline demo_distinct) 1%nat (demo_task "a" [])
    (mkTask "a" "a" [] StateRunning "s0" "" (Some 5) None "" "" "")); try reflexivity; try discriminate.
Defined.

Lemma pipeline_progress_witness : IsComplete demo_pipeline = true ∨ 0 < RunningCount demo_pipeline ∨ ReadyTasks demo_pipeline ≠ [].
Proof.
  apply (pipeline_progress demo_pipeline demo_distinct).
  - vm_compute. reflexivity.
  - intros t d Ht Hd. simpl in Ht.
    repeat (apply elem_of_cons in Ht as [->|Ht]; [simpl in *; unfold ids; simpl; set_solver|]). by apply elem_of_nil in Ht.
  - intros t Ht. simpl in Ht.
    repeat (apply elem_of_cons in Ht as [->|Ht]; [done|]). by apply elem_of_nil in Ht.
Defined.

(** ** Behaviour outside the guarantees *)

(** Only " -> " separates the tasks of a spec: a spec written with the other two
    separators is one task. *)
Example arrow_spec_is_one_task :
  splitPipelineSpec "a → b" = ["a → b"] ∧ splitPipelineSpec "a | b" = ["a | b"] ∧
  splitPipelineSpec "a -> b" = ["a"; "b"].
Proof. vm_compute. done. Qed.

(** A dependency on a name no task has leaves an accepted pipeline with nothing
    complete, running or ready. *)
Example dangling_dependency_stalls :
  let p := mkPipeline "pipe-1" "demo" "/tmp" [demo_task "a" ["missing"]] StateRunning 1 0 "" in
  DetectCycles (p_Tasks p) = None ∧ IsComplete p = false ∧ RunningCount p = 0 ∧ ReadyTasks p = [].
Proof. vm_compute. done. Qed.

(** Two tasks of one name: the second is launched again on every tick. *)
Example duplicate_name_relaunched :
  let p := mkPipeline "pipe-1" "demo" "/tmp" [demo_task "a" []; demo_task "a" []] StateRunning 5 0 "" in
  let '(s1, p1, _, _) := tick demo_exec 5 0 p in
  let '(s2, p2, _, _) := tick demo_exec 6 s1 p1 in
  s1 = 2 ∧ s2 = 3 ∧ (t_State <$> p_Tasks p2) = [StateRunning; StatePending].
Proof. vm_compute. done. Qed.
