(* ===== verification/TopoSort.v ===== *)
(** * Sorting a dependency graph

    The sort the orchestrator and the executor share, word for word (Kahn's
    algorithm over counts of unmet dependencies, ready nodes in order of their
    ids; topoSort of orchestrator/runner.go and of autonomous/executor.go), over
    anything with an id and dependencies ([Vertex]); and that it is exact. *)

From S2P Require Import Prelude GoBase.

#[local] Open Scope Z_scope.

Class Vertex (A : Type) := { v_ID : A → string; v_DependsOn : A → list string }.

(** ** The algorithm *)

Definition indeg_of (m : gmap string Z) (id : string) : Z := default 0 (m !! id).

Section algorithm.
Context {A : Type} `{!Vertex A}.

(** The first two loops: every node at 0, then one per dependency that exists. *)
Definition init_indeg (nodes : list A) : gmap string Z :=
  foldl (λ m n, match m !! v_ID n with Some _ => m | None => <[v_ID n := 0]> m end) ∅ nodes.
Definition count_deps (idx : gset string) (m : gmap string Z) (n : A) : gmap string Z :=
  foldl (λ m dep, if bool_decide (dep ∈ idx) then <[v_ID n := indeg_of m (v_ID n) + 1]> m else m) m (v_DependsOn n).
Definition indegrees (nodes : list A) : gmap string Z :=
  foldl (count_deps (list_to_set (v_ID <$> nodes))) (init_indeg nodes) nodes.

(** Taking [id] out: one off for every mention of it, the freed appended. *)
Definition free_dep (id nid : string) (acc : gmap string Z * list string) (dep : string) : gmap string Z * list string :=
  let '(m, ready) := acc in
  if String.eqb dep id then
    let d := indeg_of m nid - 1 in
    (<[nid := d]> m, if d =? 0 then ready ++ [nid] else ready)
  else (m, ready).
Definition free_node (id : string) (acc : gmap string Z * list string) (n : A) : gmap string Z * list string :=
  foldl (free_dep id (v_ID n)) acc (v_DependsOn n).

Fixpoint kahn (fuel : nat) (nodes : list A) (m : gmap string Z) (ready out : list string) : option (list string) :=
  match ready with
  | [] => Some out
  | id :: rest =>
      match fuel with
      | O => None
      | S f =>
          let '(m, ready) := foldl (free_node id) (m, rest) nodes in
          kahn f nodes m (sort_strings ready) (out ++ [id])
      end
  end.

Definition sorted_out (nodes : list A) : option (list string) :=
  let m := indegrees nodes in
  kahn (length nodes) nodes m (keys_where (λ _ d, d =? 0) m) [].
End algorithm.

(** ** What it keeps track of *)

Section sorting.
Context {A : Type} `{!Vertex A}.

(** [a] comes before [b] in [l]. *)
Definition before (l : list string) (a b : string) : Prop :=
  ∃ i j, l !! i = Some a ∧ l !! j = Some b ∧ (i < j)%nat.

(** How often [n] mentions [d], and how often it mentions something that exists
    and is not out yet. *)
Definition mentions (d : string) (n : A) : Z := Z.of_nat (length (filter (λ x, x = d) (v_DependsOn n))).
Definition pending (ids : gset string) (out : list string) (n : A) : Z :=
  Z.of_nat (length (filter (λ x, x ∈ ids ∧ x ∉ out) (v_DependsOn n))).

Lemma pending_out ids out id n :
  id ∈ ids → id ∉ out → pending ids (out ++ [id]) n = pending ids out n - mentions id n.
Proof.
  intros Hid Hout. unfold pending, mentions. induction (v_DependsOn n) as [|d ds IH]; [done|].
  rewrite !filter_cons. destruct (decide (d = id)) as [->|Hne].
  - rewrite (decide_False (P := id ∈ ids ∧ id ∉ out ++ [id])) by set_solver.
    rewrite (decide_True (P := id ∈ ids ∧ id ∉ out)) by done. simpl. lia.
  - destruct (decide (d ∈ ids ∧ d ∉ out)) as [H|H].
    + rewrite decide_True by set_solver. simpl. lia.
    + rewrite decide_False by set_solver. lia.
Qed.

Lemma pending_zero ids out n : pending ids out n = 0 ↔ ∀ d, d ∈ v_DependsOn n → d ∈ ids → d ∈ out.
Proof.
  unfold pending. split.
  - intros H d Hd Hi. destruct (decide (d ∈ out)); [done|]. exfalso.
    assert (d ∈ filter (λ x, x ∈ ids ∧ x ∉ out) (v_DependsOn n)) as Hin by (by apply list_elem_of_filter).
    destruct (filter _ _); [by apply elem_of_nil in Hin|simpl in H; lia].
  - intros H. destruct (filter _ _) as [|d ds] eqn:E; [done|].
    assert (d ∈ filter (λ x, x ∈ ids ∧ x ∉ out) (v_DependsOn n)) as Hin by (rewrite E; left).
    apply list_elem_of_filter in Hin as [[? ?] ?]. naive_solver.
Qed.

Lemma pending_nonneg ids out n : 0 ≤ pending ids out n.
Proof. unfold pending. lia. Qed.

Lemma indeg_insert m x d y : indeg_of (<[x := d]> m) y = if decide (y = x) then d else indeg_of m y.
Proof.
  unfold indeg_of. case_decide; [subst; by rewrite lookup_insert_eq|by rewrite lookup_insert_ne].
Qed.

(** ** The counts the sort starts from *)

Lemma init_indeg_zero nodes m x :
  (∀ y, indeg_of m y = 0) →
  indeg_of (foldl (λ m n, match m !! v_ID n with Some _ => m | None => <[v_ID n := 0]> m end) m nodes) x = 0.
Proof.
  revert m. induction nodes as [|n ns IH]; intros m H; simpl; [done|]. apply IH. intros y.
  case_match; [done|]. rewrite indeg_insert. by case_decide.
Qed.

Lemma count_deps_spec ids m n y :
  indeg_of (count_deps ids m n) y = indeg_of m y + (if decide (y = v_ID n) then pending ids [] n else 0).
Proof.
  unfold count_deps, pending. revert m. induction (v_DependsOn n) as [|d ds IH]; intros m.
  - simpl. case_decide; lia.
  - simpl foldl. rewrite IH, filter_cons. case_bool_decide as Hd.
    + rewrite (decide_True (P := d ∈ ids ∧ d ∉ [])) by set_solver. rewrite indeg_insert.
      repeat case_decide; subst; simpl; lia.
    + rewrite (decide_False (P := d ∈ ids ∧ d ∉ [])) by set_solver. done.
Qed.

Lemma count_all_spec ids nodes m n :
  NoDup (v_ID <$> nodes) → n ∈ nodes →
  indeg_of (foldl (count_deps ids) m nodes) (v_ID n) = indeg_of m (v_ID n) + pending ids [] n.
Proof.
  intros Hnd Hn. revert m. induction nodes as [|x xs IH]; intros m; [by apply elem_of_nil in Hn|].
  rewrite fmap_cons in Hnd. apply NoDup_cons in Hnd as [Hni Hnd]. simpl.
  apply elem_of_cons in Hn as [->|Hn].
  - assert (∀ m, indeg_of (foldl (count_deps ids) m xs) (v_ID x) = indeg_of m (v_ID x)) as ->.
    { clear IH Hnd. induction xs as [|y ys IH]; intros m'; [done|]. rewrite fmap_cons in Hni. simpl.
      rewrite IH by set_solver. rewrite count_deps_spec, decide_False by set_solver. lia. }
    rewrite count_deps_spec, decide_True by done. done.
  - rewrite (IH Hnd Hn). rewrite count_deps_spec, decide_False; [lia|].
    intros E. apply Hni. rewrite <- E. by apply list_elem_of_fmap_2.
Qed.

(** ** Taking one out *)

Definition cnt (id : string) (ds : list string) : Z := Z.of_nat (length (filter (λ x, x = id) ds)).

Lemma cnt_cons id d ds : cnt id (d :: ds) = (if String.eqb d id then 1 else 0) + cnt id ds.
Proof.
  unfold cnt. rewrite filter_cons. destruct (String.eqb_spec d id).
  - rewrite decide_True by done. simpl. lia.
  - by rewrite decide_False.
Qed.

Lemma free_dep_fold id nid ds m ready :
  cnt id ds ≤ indeg_of m nid →
  ∃ m', foldl (free_dep id nid) (m, ready) ds =
    (m', ready ++ (if (0 <? cnt id ds) && (indeg_of m nid =? cnt id ds) then [nid] else [])) ∧
    ∀ y, indeg_of m' y = indeg_of m y - (if decide (y = nid) then cnt id ds else 0).
Proof.
  revert m ready. induction ds as [|d ds IH]; intros m ready Hle.
  - exists m. change (cnt id []) with 0. cbn. rewrite app_nil_r. split; [done|]. intros y. case_decide; lia.
  - rewrite cnt_cons in Hle |- *. cbn [foldl]. unfold free_dep at 2.
    destruct (String.eqb_spec d id) as [->|Hne]; [|rewrite Z.add_0_l in *; by apply IH].
    assert (0 ≤ cnt id ds) by (unfold cnt; lia).
    destruct (IH (<[nid := indeg_of m nid - 1]> m) (if indeg_of m nid - 1 =? 0 then ready ++ [nid] else ready)) as (m'&Hf&Hm').
    { rewrite indeg_insert, decide_True by done. lia. }
    exists m'. rewrite Hf, indeg_insert, (decide_True (P := nid = nid)) by done. split.
    + f_equal. destruct (Z.eqb_spec (indeg_of m nid - 1) 0), (Z.ltb_spec 0 (cnt id ds)),
        (Z.ltb_spec 0 (1 + cnt id ds)), (Z.eqb_spec (indeg_of m nid - 1) (cnt id ds)),
        (Z.eqb_spec (indeg_of m nid) (1 + cnt id ds)); simpl; try lia; by rewrite ?app_nil_r.
    + intros y. rewrite Hm', indeg_insert. case_decide; subst; lia.
Qed.

Definition freed (id : string) (m : gmap string Z) (n : A) : bool :=
  (0 <? mentions id n) && (indeg_of m (v_ID n) =? mentions id n).

Lemma filter_same {B} (P Q : B → bool) (l : list B) :
  (∀ x, x ∈ l → P x = Q x) → filter (λ x, P x = true) l = filter (λ x, Q x = true) l.
Proof.
  induction l as [|x l IH]; intros H; [done|]. rewrite !filter_cons, (H x) by left.
  rewrite IH by (intros; apply H; by right). done.
Qed.

Lemma free_nodes_fold id nodes m ready :
  NoDup (v_ID <$> nodes) → (∀ n, n ∈ nodes → mentions id n ≤ indeg_of m (v_ID n)) →
  ∃ m', foldl (free_node id) (m, ready) nodes = (m', ready ++ (v_ID <$> filter (λ n, freed id m n = true) nodes)) ∧
    (∀ n, n ∈ nodes → indeg_of m' (v_ID n) = indeg_of m (v_ID n) - mentions id n) ∧
    (∀ y, y ∉ v_ID <$> nodes → indeg_of m' y = indeg_of m y).
Proof.
  revert m ready. induction nodes as [|n ns IH]; intros m ready Hnd Hle.
  { exists m. simpl. rewrite app_nil_r. split_and!; [done| |done]. intros n Hn. by apply elem_of_nil in Hn. }
  rewrite fmap_cons in Hnd. apply NoDup_cons in Hnd as [Hni Hnd]. cbn [foldl]. unfold free_node at 2.
  destruct (free_dep_fold id (v_ID n) (v_DependsOn n) m ready) as (m1&->&Hm1); [by apply (Hle n); left|].
  fold (mentions id n) in *. change (cnt id (v_DependsOn n)) with (mentions id n) in *. fold (freed id m n).
  assert (∀ x, x ∈ ns → indeg_of m1 (v_ID x) = indeg_of m (v_ID x)) as Hsame.
  { intros x Hx. rewrite Hm1, decide_False; [lia|]. intros E. apply Hni. rewrite <- E. by apply list_elem_of_fmap_2. }
  destruct (IH m1 (ready ++ (if freed id m n then [v_ID n] else [])))
    as (m'&Hf&Hm'&Hout); [done| |].
  { intros x Hx. rewrite Hsame by done. apply Hle. by right. }
  exists m'. split_and!.
  - rewrite Hf. f_equal. rewrite <- app_assoc. f_equal. rewrite filter_cons.
    assert (filter (λ x, freed id m1 x = true) ns = filter (λ x, freed id m x = true) ns) as ->.
    { apply filter_same. intros x Hx. unfold freed. by rewrite Hsame. }
    by destruct (freed id m n).
  - intros x [->|Hx]%elem_of_cons.
    + rewrite Hout by done. by rewrite Hm1, decide_True.
    + rewrite Hm' by done. by rewrite Hsame.
  - intros y Hy. rewrite fmap_cons in Hy. rewrite not_elem_of_cons in Hy. destruct Hy as [Hy1 Hy2]. rewrite Hout by done. rewrite Hm1, decide_False by done. lia.
Qed.

(** ** The keys of the counts are the nodes *)

Lemma dom_init_indeg nodes (m : gmap string Z) :
  dom (D := gset string) (foldl (λ m n, match m !! v_ID n with Some _ => m | None => <[v_ID n := 0]> m end) m nodes)
    = dom m ∪ list_to_set (v_ID <$> nodes).
Proof.
  revert m. induction nodes as [|n ns IH]; intros m; simpl; [set_solver|]. rewrite IH.
  destruct (m !! v_ID n) eqn:E; [apply elem_of_dom_2 in E|rewrite dom_insert_L]; set_solver.
Qed.

Lemma dom_count_deps ids m n : v_ID n ∈ dom m → dom (count_deps ids m n) = dom m.
Proof.
  unfold count_deps. revert m. induction (v_DependsOn n) as [|d ds IH]; intros m H; simpl; [done|].
  case_bool_decide; [|by apply IH]. rewrite IH; rewrite dom_insert_L; set_solver.
Qed.

Lemma dom_count_all ids nodes m :
  list_to_set (C := gset string) (v_ID <$> nodes) ⊆ dom m → dom (foldl (count_deps ids) m nodes) = dom m.
Proof.
  revert m. induction nodes as [|n ns IH]; intros m H; simpl; [done|].
  simpl in H. assert (dom (count_deps ids m n) = dom m) as E by (apply dom_count_deps; set_solver).
  rewrite IH; rewrite E; [done|set_solver].
Qed.

Lemma dom_indegrees nodes : dom (indegrees nodes) = list_to_set (C := gset string) (v_ID <$> nodes).
Proof.
  unfold indegrees. rewrite dom_count_all; unfold init_indeg; rewrite dom_init_indeg; set_solver.
Qed.

Lemma NoDup_keys_where {V} (P : string → V → bool) (m : gmap string V) : NoDup (keys_where P m).
Proof.
  unfold keys_where, sort_strings. rewrite sort_by_perm.
  pose proof (NoDup_fst_map_to_list m) as H. revert H. generalize (map_to_list m) as l.
  induction l as [|[k v] l IH]; intros H; [constructor|]. rewrite fmap_cons in H.
  apply NoDup_cons in H as [Hni H]. rewrite filter_cons. case_decide; [|by apply IH].
  rewrite fmap_cons. apply NoDup_cons. split; [|by apply IH]. simpl in *. contradict Hni.
  apply list_elem_of_fmap in Hni as (y&->&Hy). apply list_elem_of_filter in Hy as [_ Hy].
  by apply list_elem_of_fmap_2.
Qed.

(** ** The loop *)

Section loop.
Context (nodes : list A) (Hnd : NoDup (v_ID <$> nodes)).

Abbreviation ids := (list_to_set (C := gset string) (v_ID <$> nodes)).

Lemma node_inj n n' : n ∈ nodes → n' ∈ nodes → v_ID n = v_ID n' → n = n'.
Proof. by apply NoDup_fmap_eq. Qed.

Lemma elem_ids x : x ∈ ids ↔ ∃ n, n ∈ nodes ∧ v_ID n = x.
Proof. rewrite elem_of_list_to_set, list_elem_of_fmap. naive_solver. Qed.

(** What the loop keeps. *)
Record sorted_so_far (m : gmap string Z) (ready out : list string) : Prop := {
  sf_nodup : NoDup (out ++ ready);
  sf_indeg n : n ∈ nodes → indeg_of m (v_ID n) = pending ids out n;
  sf_done x : x ∈ out ++ ready ↔ ∃ n, n ∈ nodes ∧ v_ID n = x ∧ pending ids out n = 0;
  sf_before n d : n ∈ nodes → d ∈ v_DependsOn n → d ∈ ids → v_ID n ∈ out → before out d (v_ID n)
}.

Lemma start_sorted : sorted_so_far (indegrees nodes) (keys_where (λ _ d, d =? 0) (indegrees nodes)) [].
Proof.
  assert (∀ n, n ∈ nodes → indeg_of (indegrees nodes) (v_ID n) = pending ids [] n) as Hin.
  { intros n Hn. unfold indegrees. rewrite count_all_spec by done. unfold init_indeg.
    rewrite init_indeg_zero; [lia|done]. }
  split; simpl.
  - apply NoDup_keys_where.
  - done.
  - intros x. rewrite elem_of_keys_where. split.
    + intros (d&Hx&H0). bools. subst. assert (x ∈ ids) as Hi.
      { rewrite <- dom_indegrees. by apply elem_of_dom_2 in Hx. }
      apply elem_ids in Hi as (n&Hn&<-). exists n. split_and!; [done..|]. rewrite <- Hin by done.
      unfold indeg_of. by rewrite Hx.
    + intros (n&Hn&<-&H0). rewrite <- Hin in H0 by done. exists 0. split; [|done].
      assert (v_ID n ∈ dom (indegrees nodes)) as [d Hd]%elem_of_dom by (rewrite dom_indegrees; apply elem_ids; eauto).
      unfold indeg_of in H0. rewrite Hd in H0 |- *. simpl in H0. by subst.
  - intros n d _ _ _ H. by apply elem_of_nil in H.
Qed.

Lemma before_snoc l x a b : before l a b → before (l ++ [x]) a b.
Proof. intros (i&j&Hi&Hj&Hlt). exists i, j. by split_and!; [apply lookup_app_l_Some..|]. Qed.

Lemma before_last l x a : a ∈ l → before (l ++ [x]) a x.
Proof.
  intros [i Hi]%list_elem_of_lookup. exists i, (length l). split_and!.
  - by apply lookup_app_l_Some.
  - by rewrite lookup_app_r, Nat.sub_diag by lia.
  - by apply lookup_lt_Some in Hi.
Qed.

Lemma mentions_pos d n : 0 < mentions d n ↔ d ∈ v_DependsOn n.
Proof.
  unfold mentions. induction (v_DependsOn n) as [|x xs IH]; [by rewrite elem_of_nil|].
  rewrite filter_cons, elem_of_cons. destruct (decide (x = d)) as [->|Hne]; simpl; [|naive_solver].
  split; [by left|lia].
Qed.

Lemma step_sorted m id rest out m' new :
  sorted_so_far m (id :: rest) out → foldl (free_node id) (m, rest) nodes = (m', new) →
  sorted_so_far m' (sort_strings new) (out ++ [id]).
Proof.
  intros [Hn Hin Hd Hb] Hf.
  assert (id ∉ out) as Hout. { apply NoDup_app in Hn as (_&H&_). intros Hi. apply (H id Hi). by left. }
  assert (∃ ni, ni ∈ nodes ∧ v_ID ni = id ∧ pending ids out ni = 0) as (ni&Hni&Hid&Hni0).
  { apply Hd. apply elem_of_app. right. by left. }
  assert (id ∈ ids) as Hids by (apply elem_ids; eauto).
  assert (∀ n, pending ids (out ++ [id]) n = pending ids out n - mentions id n) as Hpend by (intros; by apply pending_out).
  destruct (free_nodes_fold id nodes m rest) as (m1&Hf1&Hm1&_); [done| |].
  { intros n Hnn. rewrite Hin by done. pose proof (Hpend n). pose proof (pending_nonneg ids (out ++ [id]) n). lia. }
  rewrite Hf in Hf1. injection Hf1 as -> ->.
  assert (∀ x, x ∈ v_ID <$> filter (λ n, freed id m n = true) nodes ↔
    ∃ n, n ∈ nodes ∧ v_ID n = x ∧ id ∈ v_DependsOn n ∧ pending ids (out ++ [id]) n = 0) as Hfreed.
  { intros x. rewrite list_elem_of_fmap. setoid_rewrite list_elem_of_filter. split.
    - intros (n&->&Hfr&Hnn). exists n. unfold freed in Hfr. bools. rewrite Hin in * by done. split_and!; [done..| |].
      + by apply mentions_pos.
      + rewrite Hpend. lia.
    - intros (n&Hnn&<-&Hdep&H0). exists n. split_and!; [done| |done]. apply andb_true_iff. rewrite Hpend in H0. split.
      + apply Z.ltb_lt. by apply mentions_pos.
      + apply Z.eqb_eq. rewrite Hin by done. lia. }
  split.
  - unfold sort_strings. rewrite sort_by_perm, <- app_assoc. simpl. rewrite app_comm_cons, app_assoc. apply NoDup_app. split_and!; [done| |].
    + intros x Hx (n&Hnn&<-&Hdep&_)%Hfreed. apply Hd in Hx as (n'&Hn'&E&H0).
      apply node_inj in E as ->; [|done..]. rewrite pending_zero in H0. by apply Hout, H0.
    + clear -Hnd. apply NoDup_fmap_2_strong.
      * intros x y [_ Hx]%list_elem_of_filter [_ Hy]%list_elem_of_filter. by apply node_inj.
      * apply NoDup_filter. by eapply NoDup_fmap_1.
  - intros n Hnn. rewrite Hm1, Hin, Hpend by done. done.
  - intros x. unfold sort_strings. rewrite !elem_of_app, elem_of_sort_by, elem_of_app, Hfreed. split.
    + assert (∀ y, y ∈ out ++ id :: rest → ∃ n, n ∈ nodes ∧ v_ID n = y ∧ pending ids (out ++ [id]) n = 0) as Hold.
      { intros y (n&Hnn&E&H0)%Hd. exists n. split_and!; [done..|]. rewrite pending_zero in *.
        intros d Hdd Hdi. apply elem_of_app. left. by apply H0. }
      intros [H|[H|(n&?&?&?&?)]]; [apply Hold| |by exists n].
      * apply elem_of_app. destruct H as [H|H%list_elem_of_singleton]; [by left|right; subst; left].
      * apply Hold, elem_of_app. right. by right.
    + intros (n&Hnn&<-&H0). destruct (decide (id ∈ v_DependsOn n)) as [Hi|Hi]; [by right; right; exists n|].
      assert (v_ID n ∈ out ++ id :: rest) as Hx.
      { apply Hd. exists n. split_and!; [done..|]. rewrite pending_zero in *. intros d Hdd Hdi.
        apply (H0 d Hdd) in Hdi as [?|E%list_elem_of_singleton]%elem_of_app; [done|by subst]. }
      apply elem_of_app in Hx as [Hx|[Hx|Hx]%elem_of_cons]; [by left; left| |by right; left].
      left. right. by apply list_elem_of_singleton.
  - intros n d Hnn Hdep Hdi Hx. apply elem_of_app in Hx as [Hx|Hx%list_elem_of_singleton].
    + by apply before_snoc, Hb.
    + subst. rewrite Hx. apply before_last. apply node_inj in Hx as ->; [|done..].
      rewrite pending_zero in Hni0. by apply Hni0.
Qed.

Lemma sorted_length m ready out : sorted_so_far m ready out → (length out + length ready ≤ length nodes)%nat.
Proof.
  intros [Hn _ Hd _]. rewrite <- length_app, <- (length_fmap v_ID nodes). apply submseteq_length, NoDup_submseteq; [done|].
  intros x (n&Hnn&<-&_)%Hd. by apply list_elem_of_fmap_2.
Qed.

Lemma kahn_sorted fuel m ready out :
  sorted_so_far m ready out → (length nodes ≤ fuel + length out)%nat →
  ∃ m' out', kahn fuel nodes m ready out = Some out' ∧ sorted_so_far m' [] out'.
Proof.
  revert m ready out. induction fuel as [|f IH]; intros m ready out HI Hf.
  - pose proof (sorted_length _ _ _ HI). destruct ready as [|id rest]; simpl in *; [eauto|lia].
  - destruct ready as [|id rest]; simpl; [eauto|].
    destruct (foldl (free_node id) (m, rest) nodes) as [m1 new] eqn:E.
    apply IH; [by eapply step_sorted|]. rewrite length_app. simpl. lia.
Qed.

Lemma sorted_out_total : ∃ m out, sorted_out nodes = Some out ∧ sorted_so_far m [] out.
Proof. unfold sorted_out. apply kahn_sorted; [apply start_sorted|lia]. Qed.

Lemma sorted_all m out : sorted_so_far m [] out → length out = length nodes → out ≡ₚ v_ID <$> nodes.
Proof.
  intros [Hn _ Hd _] Hlen. rewrite app_nil_r in *. apply submseteq_length_Permutation; [|by rewrite length_fmap, Hlen].
  apply NoDup_submseteq; [done|]. intros x (n&Hnn&<-&_)%Hd. by apply list_elem_of_fmap_2.
Qed.

(** What is left out when the loop stops early: nodes that wait on each other. *)
Lemma sorted_stuck m out :
  sorted_so_far m [] out → length out ≠ length nodes →
  ∃ R, R ≠ [] ∧ ∀ x, x ∈ R → ∃ n, n ∈ nodes ∧ v_ID n = x ∧ ∃ d, d ∈ v_DependsOn n ∧ d ∈ R.
Proof.
  intros [Hn _ Hd _] Hlen. rewrite app_nil_r in *. exists (filter (λ x, x ∉ out) (v_ID <$> nodes)). split.
  - intros E. apply Hlen. rewrite <- (length_fmap v_ID nodes). apply Nat.le_antisymm; apply submseteq_length, NoDup_submseteq; [done| |done|].
    + intros x (n&Hnn&<-&_)%Hd. by apply list_elem_of_fmap_2.
    + intros x Hx. destruct (decide (x ∈ out)); [done|]. exfalso.
      assert (x ∈ filter (λ x, x ∉ out) (v_ID <$> nodes)) as H by (by apply list_elem_of_filter). rewrite E in H. by apply elem_of_nil in H.
  - intros x [Hx (n&->&Hnn)%list_elem_of_fmap]%list_elem_of_filter. exists n. split_and!; [done..|].
    destruct (decide (Forall (λ d, ¬ (d ∈ ids ∧ d ∉ out)) (v_DependsOn n))) as [HF|HF].
    + exfalso. apply Hx, Hd. exists n. split_and!; [done..|]. apply pending_zero. intros d Hdd Hdi.
      rewrite Forall_forall in HF. destruct (decide (d ∈ out)); [done|]. exfalso. by apply (HF d Hdd).
    + apply not_Forall_Exists in HF; [|apply _]. apply Exists_exists in HF as (d&Hdd&Hdec). apply dec_stable in Hdec as [Hdi Hdo].
      exists d. split; [done|]. apply list_elem_of_filter. split; [done|]. by apply elem_of_list_to_set in Hdi.
Qed.

(** The sort answers, and its answer is an order of the whole graph exactly when
    it has the graph's length; else some nodes wait on each other. *)
Lemma sorted_cases : ∃ out, sorted_out nodes = Some out ∧
  (if bool_decide (length out = length nodes) then
     out ≡ₚ v_ID <$> nodes ∧ ∀ n d, n ∈ nodes → d ∈ v_DependsOn n → d ∈ v_ID <$> nodes → before out d (v_ID n)
   else ∃ R, R ≠ [] ∧ ∀ x, x ∈ R → ∃ n, n ∈ nodes ∧ v_ID n = x ∧ ∃ d, d ∈ v_DependsOn n ∧ d ∈ R).
Proof.
  destruct sorted_out_total as (m&out&E&HI). exists out. split; [done|]. case_bool_decide as Hl.
  - assert (out ≡ₚ v_ID <$> nodes) as Hp by (by eapply sorted_all). split; [done|].
    intros n d Hn Hd Hi. eapply sf_before; [done..|by apply elem_of_list_to_set|]. rewrite Hp. by apply list_elem_of_fmap_2.
  - by eapply sorted_stuck.
Qed.
End loop.
End sorting.
