(* ===== verification/Orchestrator.v ===== *)
(** * Orchestrator: graphs of PRDs and guardrails

    internal/orchestrator: planning a graph from PRD ids, sorting it, and
    walking it (runner.go) over the graphs the store keeps (store.go, without
    its file). What the runner calls out to (the PRD run, the guardrail, the
    context, the store's file, the clock) is the class [World]. *)

From S2P Require Import Prelude GoBase TopoSort.

#[local] Open Scope Z_scope.

Inductive NodeKind := NodeKindPRD | NodeKindGuardrail.
Inductive NodeStatus :=
| NodePending | NodeQueued | NodeInProgress | NodeCompleted | NodeBlocked | NodeFailed | NodeCancelled.
Inductive GraphStatus := GraphDraft | GraphActive | GraphCompleted | GraphBlocked | GraphCancelled.

#[global] Instance NodeKind_eq_dec : EqDecision NodeKind.
Proof. solve_decision. Defined.
#[global] Instance NodeStatus_eq_dec : EqDecision NodeStatus.
Proof. solve_decision. Defined.
#[global] Instance GraphStatus_eq_dec : EqDecision GraphStatus.
Proof. solve_decision. Defined.

Record Verdict := mkVerdict {
  v_Outcome : string;
  v_Severity : string;
  v_Summary : string;
  v_Issues : list string;
  v_VerdictAt : Time;
  v_ValidatorID : string
}.

(** [ObserverSummary] is added on reads elsewhere and never stored; it is left out. *)
Record Node := mkNode {
  n_ID : string;
  n_GraphID : string;
  n_Kind : NodeKind;
  n_PRDID : string;
  n_Guardrail : string;
  n_DependsOn : list string;
  n_Status : NodeStatus;
  n_Verdict : option Verdict;
  n_Error : string;
  n_StartedAt : option Time;
  n_FinishedAt : option Time;
  n_CreatedAt : Time;
  n_UpdatedAt : Time
}.

Record Graph := mkGraph {
  g_ID : string;
  g_Title : string;
  g_ProjectDir : string;
  g_PRDIDs : list string;
  g_Nodes : list Node;
  g_Status : GraphStatus;
  g_CreatedAt : Time;
  g_UpdatedAt : Time
}.

Record Config := mkConfig {
  cfg_Enabled : bool;
  cfg_DefaultGuardrails : list string;
  cfg_GuardrailTimeoutMs : Z;
  cfg_GuardrailBackend : string;
  cfg_GuardrailModel : string;
  cfg_MaxParallelPRDs : Z
}.

Definition DefaultConfig : Config :=
  mkConfig false ["rules"; "security"; "release-readiness"; "docs-diagrams-architecture"] 120000 "" "" 2.

Definition set_status (s : NodeStatus) (n : Node) : Node :=
  mkNode (n_ID n) (n_GraphID n) (n_Kind n) (n_PRDID n) (n_Guardrail n) (n_DependsOn n) s (n_Verdict n)
    (n_Error n) (n_StartedAt n) (n_FinishedAt n) (n_CreatedAt n) (n_UpdatedAt n).
Definition set_verdict (v : Verdict) (n : Node) : Node :=
  mkNode (n_ID n) (n_GraphID n) (n_Kind n) (n_PRDID n) (n_Guardrail n) (n_DependsOn n) (n_Status n) (Some v)
    (n_Error n) (n_StartedAt n) (n_FinishedAt n) (n_CreatedAt n) (n_UpdatedAt n).
Definition set_error (e : string) (n : Node) : Node :=
  mkNode (n_ID n) (n_GraphID n) (n_Kind n) (n_PRDID n) (n_Guardrail n) (n_DependsOn n) (n_Status n) (n_Verdict n)
    e (n_StartedAt n) (n_FinishedAt n) (n_CreatedAt n) (n_UpdatedAt n).
Definition set_updated (t : Time) (n : Node) : Node :=
  mkNode (n_ID n) (n_GraphID n) (n_Kind n) (n_PRDID n) (n_Guardrail n) (n_DependsOn n) (n_Status n) (n_Verdict n)
    (n_Error n) (n_StartedAt n) (n_FinishedAt n) (n_CreatedAt n) t.
Definition markStart (t : Time) (n : Node) : Node :=
  mkNode (n_ID n) (n_GraphID n) (n_Kind n) (n_PRDID n) (n_Guardrail n) (n_DependsOn n) NodeInProgress (n_Verdict n)
    (n_Error n) (Some t) (n_FinishedAt n) (n_CreatedAt n) (n_UpdatedAt n).
Definition markDone (t : Time) (s : NodeStatus) (n : Node) : Node :=
  mkNode (n_ID n) (n_GraphID n) (n_Kind n) (n_PRDID n) (n_Guardrail n) (n_DependsOn n) s (n_Verdict n)
    (n_Error n) (n_StartedAt n) (Some t) (n_CreatedAt n) (n_UpdatedAt n).

Definition set_nodes (ns : list Node) (g : Graph) : Graph :=
  mkGraph (g_ID g) (g_Title g) (g_ProjectDir g) (g_PRDIDs g) ns (g_Status g) (g_CreatedAt g) (g_UpdatedAt g).
Definition set_gstatus (s : GraphStatus) (g : Graph) : Graph :=
  mkGraph (g_ID g) (g_Title g) (g_ProjectDir g) (g_PRDIDs g) (g_Nodes g) s (g_CreatedAt g) (g_UpdatedAt g).
Definition set_gupdated (t : Time) (g : Graph) : Graph :=
  mkGraph (g_ID g) (g_Title g) (g_ProjectDir g) (g_PRDIDs g) (g_Nodes g) (g_Status g) (g_CreatedAt g) t.

(** ** Ids *)

Definition hex_digit (d : Z) : string :=
  match d with
  | 0 => "0" | 1 => "1" | 2 => "2" | 3 => "3" | 4 => "4" | 5 => "5" | 6 => "6" | 7 => "7"
  | 8 => "8" | 9 => "9" | 10 => "a" | 11 => "b" | 12 => "c" | 13 => "d" | 14 => "e" | _ => "f"
  end.
Fixpoint hex_digits (w : nat) (n : Z) : string :=
  match w with
  | O => ""
  | S w => hex_digits w (n `div` 16) +:+ hex_digit (n `mod` 16)
  end.

(** [newID] at one reading of the clock: eight hex digits of its low 32 bits. *)
Definition newID (now : Time) : string := hex_digits 8 (now `mod` 2 ^ 32).

(** ** Planning *)

(** The PRD nodes, in order; [ids] are the ids drawn, [prdNodeID] the map built
    so far. *)
Fixpoint prd_nodes (gid : string) (deps : gmap string (list string)) (now : Time) (pids : list string)
    (ids : list string) (prdNodeID : gmap string string) : list Node * gmap string string :=
  match pids, ids with
  | pid :: pids', id :: ids' =>
      let ds := omap (λ dep, prdNodeID !! dep) (default [] (deps !! pid)) in
      let n := mkNode id gid NodeKindPRD pid "" ds NodePending None "" None None now now in
      let '(ns, m) := prd_nodes gid deps now pids' ids' (<[pid := id]> prdNodeID) in
      (n :: ns, m)
  | _, _ => ([], prdNodeID)
  end.

Definition guard_pairs (pids guards : list string) : list (string * string) :=
  pid ← pids; gr ← guards; [(pid, gr)].

Definition guard_node (gid : string) (now : Time) (prdNodeID : gmap string string) (id : string) (pg : string * string) : Node :=
  mkNode id gid NodeKindGuardrail pg.1 pg.2 [default "" (prdNodeID !! pg.1)] NodePending None "" None None now now.

(** How many ids a plan draws. *)
Definition plan_size (cfg : Config) (g : Graph) : nat :=
  (length (g_PRDIDs g) + length (guard_pairs (g_PRDIDs g) (cfg_DefaultGuardrails cfg)))%nat.

(** [Plan] on the graph found, [ids] the ids [newID] returns, in order. *)
Definition plan_nodes (cfg : Config) (g : Graph) (deps : gmap string (list string)) (now : Time) (ids : list string) : list Node :=
  let '(ns, m) := prd_nodes (g_ID g) deps now (g_PRDIDs g) ids ∅ in
  ns ++ zip_with (guard_node (g_ID g) now m) (drop (length (g_PRDIDs g)) ids)
          (guard_pairs (g_PRDIDs g) (cfg_DefaultGuardrails cfg)).

Definition plan (cfg : Config) (g : Graph) (deps : gmap string (list string)) (now : Time) (ids : list string) : Graph :=
  set_gstatus GraphActive (set_nodes (plan_nodes cfg g deps now ids) g).

(** ** Sorting *)

(** The graph the sort works on: nodes by id. *)
#[global] Instance node_vertex : Vertex Node := {| v_ID := n_ID; v_DependsOn := n_DependsOn |}.

Definition topoSort (nodes : list Node) : string + list string :=
  match sorted_out nodes with
  | Some out => if bool_decide (length out = length nodes) then inr out else inl "orchestrator graph has a cycle"
  | None => inl "orchestrator graph has a cycle"
  end.

(** ** Walking a graph *)

Record GuardrailRequest := mkGuardReq {
  gr_GraphID : string;
  gr_NodeID : string;
  gr_PRDID : string;
  gr_Guardrail : string;
  gr_Summary : string;
  gr_ProjectDir : string
}.

(** [prd_run] and [guard] are absent when the runner has no such function. *)
Class World (W : Type) := {
  ctx_err : W → option string;
  clock : W → Time;
  prd_run : option (W → string → W * (string + string));
  guard : option (W → Duration → GuardrailRequest → W * (string + Verdict));
  persist : W → W * option string
}.

Definition lookupNode (g : Graph) (id : string) : option Node := List.find (λ n, String.eqb (n_ID n) id) (g_Nodes g).

Definition depBlocked (g : Graph) (n : Node) : bool :=
  existsb (λ dep, existsb (λ x, String.eqb (n_ID x) dep &&
    bool_decide (n_Status x = NodeBlocked ∨ n_Status x = NodeFailed)) (g_Nodes g)) (n_DependsOn n).

Fixpoint replace_node (n : Node) (ns : list Node) : list Node :=
  match ns with
  | [] => []
  | x :: ns' => if String.eqb (n_ID x) (n_ID n) then n :: ns' else x :: replace_node n ns'
  end.

Section walk.
Context {W : Type} `{!World W} (cfg : Config).

Definition SaveGraph (w : W) (g : Graph) : W * Graph * option string :=
  let g := set_gupdated (clock w) g in
  let '(w, err) := persist w in (w, g, err).

Definition saveNode (w : W) (g : Graph) (n : Node) : W * Graph * option string :=
  SaveGraph w (set_nodes (replace_node (set_updated (clock w) n) (g_Nodes g)) g).

Definition guard_timeout : Duration :=
  let t := wrap64 (cfg_GuardrailTimeoutMs cfg * Millisecond) in
  if t <=? 0 then 2 * Minute else t.

(** [runPRD]: the node as it leaves it, and the error, if any. *)
Definition runPRD (w : W) (g : Graph) (n : Node) : W * Graph * Node * option string :=
  let n := markStart (clock w) n in
  let '(w, g, _) := saveNode w g n in
  let '(w, r) := match prd_run with
                 | Some run => run w (n_PRDID n)
                 | None => (w, inr "")
                 end in
  match r with
  | inl err => (w, g, n, Some err)
  | inr summary =>
      let n := set_verdict (mkVerdict "pass" "" summary [] (clock w) "") n in
      let n := markDone (clock w) NodeCompleted n in
      let '(w, g, err) := saveNode w g n in
      (w, g, n, err)
  end.

Definition prd_summary (g : Graph) (pid : string) : string :=
  match List.find (λ x, bool_decide (n_Kind x = NodeKindPRD) && String.eqb (n_PRDID x) pid &&
                        match n_Verdict x with Some _ => true | None => false end) (g_Nodes g) with
  | Some x => match n_Verdict x with Some v => v_Summary v | None => "" end
  | None => ""
  end.

Definition runGuardrail (w : W) (g : Graph) (n : Node) : W * Graph * Node * option string :=
  let n := markStart (clock w) n in
  let '(w, g, _) := saveNode w g n in
  match guard with
  | None =>
      let n := set_verdict (mkVerdict "pass" "" "no guardrail fn configured" [] (clock w) "") n in
      let n := markDone (clock w) NodeCompleted n in
      let '(w, g, err) := saveNode w g n in
      (w, g, n, err)
  | Some call =>
      let req := mkGuardReq (g_ID g) (n_ID n) (n_PRDID n) (n_Guardrail n) (prd_summary g (n_PRDID n)) (g_ProjectDir g) in
      let '(w, r) := call w guard_timeout req in
      match r with
      | inl err => (w, g, n, Some err)
      | inr v =>
          let n := set_verdict v n in
          let n := if negb (String.eqb (v_Outcome v) "block") then markDone (clock w) NodeCompleted n else n in
          let '(w, g, err) := saveNode w g n in
          (w, g, n, err)
      end
  end.

Definition fail_node (w : W) (g : Graph) (n : Node) (err : string) : W * Graph :=
  let '(w, g, _) := saveNode w g (set_error err (set_status NodeFailed n)) in (w, g).

Definition verdict_blocks (n : Node) : bool :=
  match n_Verdict n with Some v => String.eqb (v_Outcome v) "block" | None => false end.

(** One node of the order: the graph after it, and whether it blocks the graph. *)
Definition visit (w : W) (g : Graph) (id : string) : W * Graph * bool :=
  match lookupNode g id with
  | None => (w, g, false)
  | Some node =>
      if bool_decide (n_Status node = NodeCompleted ∨ n_Status node = NodeBlocked) then (w, g, false)
      else if depBlocked g node then
        let '(w, g, _) := saveNode w g (set_status NodeCancelled node) in (w, g, false)
      else if bool_decide (n_Kind node = NodeKindPRD) then
        let '(w, g, n, err) := runPRD w g node in
        match err with
        | Some e => let '(w, g) := fail_node w g n e in (w, g, true)
        | None => (w, g, false)
        end
      else
        let '(w, g, n, err) := runGuardrail w g node in
        match err with
        | Some e => let '(w, g) := fail_node w g n e in (w, g, false)
        | None =>
            if verdict_blocks n then
              let '(w, g, _) := saveNode w g (set_status NodeBlocked n) in (w, g, true)
            else (w, g, false)
        end
  end.

(** The loop: stopped by the context, or the graph and whether it is blocked. *)
Fixpoint walk (w : W) (g : Graph) (order : list string) (blocked : bool) : W * Graph * (string + bool) :=
  match order with
  | [] => (w, g, inr blocked)
  | id :: order' =>
      match ctx_err w with
      | Some err => (w, g, inl err)
      | None => let '(w, g, b) := visit w g id in walk w g order' (blocked || b)
      end
  end.

(** What a method can answer besides what it was asked for. *)
Inductive OrchError :=
| ErrGraphNotFound (id : string)
| ErrPRDIDsRequired
| ErrOther (msg : string).

(** [Run] once the graph has nodes: the graph as it leaves it and the error. *)
Definition run_graph (w : W) (g : Graph) : W * Graph * option OrchError :=
  match topoSort (g_Nodes g) with
  | inl err => (w, g, Some (ErrOther err))
  | inr order =>
      let '(w, g, r) := walk w g order false in
      match r with
      | inl err => (w, g, Some (ErrOther err))
      | inr blocked =>
          let '(w, g, err) := SaveGraph w (set_gstatus (if blocked then GraphBlocked else GraphCompleted) g) in
          (w, g, ErrOther <$> err)
      end
  end.

(** ** The store

    The graphs by id. A stored graph and the one a run holds are one object, so
    the store has the graph as the run leaves it. *)
Definition Store := gmap string Graph.

Definition GetGraph (s : Store) (id : string) : option Graph := s !! id.

Definition CreateGraph (w : W) (title projectDir : string) (prdIDs : list string) (s : Store) :
    W * Store * (OrchError + Graph) :=
  match prdIDs with
  | [] => (w, s, inl ErrPRDIDsRequired)
  | _ =>
      let now := clock w in
      let g := mkGraph (newID now) title projectDir prdIDs [] GraphDraft now now in
      let '(w, err) := persist w in
      (w, <[g_ID g := g]> s, match err with Some e => inl (ErrOther e) | None => inr g end)
  end.

Definition Plan (w : W) (s : Store) (graphID : string) (deps : gmap string (list string)) (ids : list string) :
    W * Store * (OrchError + Graph) :=
  match GetGraph s graphID with
  | None => (w, s, inl (ErrGraphNotFound graphID))
  | Some g =>
      let '(w, g, err) := SaveGraph w (plan cfg g deps (clock w) ids) in
      (w, <[g_ID g := g]> s, match err with Some e => inl (ErrOther e) | None => inr g end)
  end.

(** [Run]: a graph without nodes is planned first, with no dependencies. *)
Definition Run (w : W) (s : Store) (graphID : string) (ids : list string) : W * Store * option OrchError :=
  match GetGraph s graphID with
  | None => (w, s, Some (ErrGraphNotFound graphID))
  | Some g =>
      let '(w, s, planned) :=
        match g_Nodes g with
        | [] => Plan w s graphID ∅ ids
        | _ => (w, s, inr g)
        end in
      match planned with
      | inl err => (w, s, Some err)
      | inr g => let '(w, g, err) := run_graph w g in (w, <[g_ID g := g]> s, err)
      end
  end.
End walk.
