(* ===== verification/OrchestratorTheorems.v ===== *)
(** * Orchestrator: theorems

    The sort orders every graph that has an order and refuses only graphs that
    have none; what [Plan] draws up always has one; and a run starts no node
    below one that failed or was blocked, and settles every node. *)

From S2P Require Import Prelude GoBase TopoSort Orchestrator.

#[local] Open Scope Z_scope.

(** ** Sorting *)

Lemma topoSort_cases (nodes : list Node) :
  NoDup (n_ID <$> nodes) →
  (∃ out, topoSort nodes = inr out ∧ out ≡ₚ n_ID <$> nodes
    ∧ ∀ n d, n ∈ nodes → d ∈ n_DependsOn n → d ∈ n_ID <$> nodes → before out d (n_ID n)) ∨
  (topoSort nodes = inl "orchestrator graph has a cycle" ∧
   ∃ R, R ≠ [] ∧ ∀ x, x ∈ R → ∃ n, n ∈ nodes ∧ n_ID n = x ∧ ∃ d, d ∈ n_DependsOn n ∧ d ∈ R).
Proof.
  intros Hnd. destruct (sorted_cases (A := Node) nodes) as (out&E&Hc); [exact Hnd|]. unfold topoSort. rewrite E.
  case_bool_decide; [left; by exists out|by right].
Qed.

(** C15: on nodes of distinct ids the sort answers exactly one of two things: an
    order that has every node once, each after every dependency of it that
    exists; or the cycle error, and then some nodes of the graph each depend on
    another of them. It always answers: the loop ends. *)
Theorem topo_sort_exact (nodes : list Node) :
  NoDup (n_ID <$> nodes) →
  match topoSort nodes with
  | inr out => out ≡ₚ n_ID <$> nodes ∧
      ∀ n d, n ∈ nodes → d ∈ n_DependsOn n → d ∈ n_ID <$> nodes → before out d (n_ID n)
  | inl _ => ∃ R, R ≠ [] ∧ ∀ x, x ∈ R → ∃ n, n ∈ nodes ∧ n_ID n = x ∧ ∃ d, d ∈ n_DependsOn n ∧ d ∈ R
  end.
Proof.
  intros Hnd. destruct (topoSort_cases nodes Hnd) as [(out&->&Hp&Hb)|[-> HR]]; [|done]. by split.
Qed.

Definition ex_node (id : string) (deps : list string) : Node :=
  mkNode id "g" NodeKindPRD id "" deps NodePending None "" None None 0 0.

Lemma topo_sort_exact_witness :
  NoDup (n_ID <$> [ex_node "c" ["a"; "b"]; ex_node "b" ["a"]; ex_node "a" []]) ∧
  before ["a"; "b"; "c"] "b" "c".
Proof.
  assert (NoDup (n_ID <$> [ex_node "c" ["a"; "b"]; ex_node "b" ["a"]; ex_node "a" []])) as H.
  { apply (bool_decide_unpack _). vm_compute. exact I. }
  split; [exact H|].
  pose proof (topo_sort_exact [ex_node "c" ["a"; "b"]; ex_node "b" ["a"]; ex_node "a" []] H) as HT.
  assert (topoSort [ex_node "c" ["a"; "b"]; ex_node "b" ["a"]; ex_node "a" []] = inr ["a"; "b"; "c"]) as E by (vm_compute; reflexivity).
  rewrite E in HT. destruct HT as [_ HT].
  apply (HT (ex_node "c" ["a"; "b"]) "b"); [left|right; left|right; left].
Defined.

Example two_cycle : topoSort [ex_node "a" ["b"]; ex_node "b" ["a"]; ex_node "c" []] = inl "orchestrator graph has a cycle".
Proof. vm_compute. reflexivity. Qed.

(** Nodes that depend only on nodes before them have an order. *)
Lemma backward_sortable nodes :
  NoDup (n_ID <$> nodes) →
  (∀ i n d, nodes !! i = Some n → d ∈ n_DependsOn n → ∀ j n', nodes !! j = Some n' → n_ID n' = d → (j < i)%nat) →
  ∃ out, topoSort nodes = inr out.
Proof.
  intros Hnd Hb. destruct (topoSort_cases nodes Hnd) as [(out&->&_)|[_ (R&HR&Hcl)]]; [eauto|]. exfalso.
  assert (∀ i n, nodes !! i = Some n → n_ID n ∉ R) as Hno.
  { intros i. induction (lt_wf i) as [i _ IH]. intros n Hi Hin.
    destruct (Hcl _ Hin) as (n1&Hn1&E&d&Hd&HdR). apply (NoDup_fmap_eq n_ID nodes) in E as ->; [|done..|by apply list_elem_of_lookup_2 in Hi].
    destruct (Hcl d HdR) as (n2&[j Hj]%list_elem_of_lookup&<-&_).
    by apply (IH j (Hb i n (n_ID n2) Hi Hd j n2 Hj eq_refl) n2). }
  destruct R as [|x R]; [done|]. destruct (Hcl x) as (n&[i Hi]%list_elem_of_lookup&<-&_); [left|].
  apply (Hno i n Hi). left.
Qed.

Lemma prd_nodes_ids gid deps now pids ids m ns m' :
  prd_nodes gid deps now pids ids m = (ns, m') → (length pids ≤ length ids)%nat →
  n_ID <$> ns = take (length pids) ids.
Proof.
  revert ids m ns m'. induction pids as [|p ps IH]; intros [|id ids] m ns m' H Hl; simpl in *; simplify_eq; [done|done|lia|].
  destruct (prd_nodes gid deps now ps ids _) as [ns1 m1] eqn:E. simplify_eq. simpl. f_equal.
  apply IH in E; [done|lia].
Qed.

(** Every id the map has is one drawn before, and every dependency of a PRD node
    is an id drawn for an earlier one. *)
Lemma prd_nodes_deps gid deps now pids ids m ns m' :
  prd_nodes gid deps now pids ids m = (ns, m') →
  (∀ i n d, ns !! i = Some n → d ∈ n_DependsOn n → (∃ p, m !! p = Some d) ∨ ∃ j n', ns !! j = Some n' ∧ n_ID n' = d ∧ (j < i)%nat) ∧
  (∀ p d, m' !! p = Some d → m !! p = Some d ∨ ∃ n', n' ∈ ns ∧ n_ID n' = d) ∧
  ((length pids ≤ length ids)%nat → ∀ p, p ∈ pids ∨ is_Some (m !! p) → is_Some (m' !! p)).
Proof.
  revert ids m ns m'. induction pids as [|p ps IH]; intros [|id ids] m ns m' H; simpl in *; simplify_eq.
  1,2: (split_and!; [done|by left|intros _ q [[]%elem_of_nil|?]; done]).
  { split_and!; [done|by left|lia]. }
  destruct (prd_nodes gid deps now ps ids _) as [ns1 m1] eqn:E. simplify_eq. apply IH in E as (H1&H2&H3). split_and!.
  - intros [|i] n d Hn Hd; simpl in *; simplify_eq.
    + simpl in Hd. apply list_elem_of_omap in Hd as (q&_&Hq). left. eauto.
    + destruct (H1 i n d Hn Hd) as [[q Hq]|(j&n'&Hj&Hid&Hlt)].
      * apply lookup_insert_Some in Hq as [[<- <-]|[_ Hq]]; [|by left; eauto].
        right. exists 0%nat. eexists. split_and!; [done|done|lia].
      * right. exists (S j), n'. split_and!; [done..|lia].
  - intros q d Hq. destruct (H2 q d Hq) as [Hm|(n'&Hn&Hid)]; [|by right; exists n'; split; [right|]].
    apply lookup_insert_Some in Hm as [[<- <-]|[_ Hm]]; [|by left].
    right. eexists. split; [left|done].
  - intros Hl q Hq. apply H3; [lia|]. destruct (decide (q = p)) as [->|Hne].
    { right. rewrite lookup_insert_eq. eauto. }
    rewrite lookup_insert_ne by done. destruct Hq as [[?|?]%elem_of_cons|?]; [done|by left|by right].
Qed.

Lemma guard_pairs_elem pids guards pg : pg ∈ guard_pairs pids guards → pg.1 ∈ pids.
Proof.
  unfold guard_pairs. intros (x&Hx&Hp)%list_elem_of_bind. apply list_elem_of_bind in Hx as (y&->%list_elem_of_singleton&_). done.
Qed.

Lemma plan_nodes_ids cfg g deps now ids :
  length ids = plan_size cfg g → n_ID <$> plan_nodes cfg g deps now ids = ids.
Proof.
  intros Hl. unfold plan_nodes. unfold plan_size in Hl. destruct (prd_nodes _ _ _ _ _ _) as [ns m] eqn:E.
  rewrite fmap_app, (prd_nodes_ids _ _ _ _ _ _ _ _ E) by lia. rewrite <- (take_drop (length (g_PRDIDs g)) ids) at 3. f_equal.
  assert (length (drop (length (g_PRDIDs g)) ids) = length (guard_pairs (g_PRDIDs g) (cfg_DefaultGuardrails cfg))) as Hl2
    by (rewrite length_drop; lia).
  revert Hl2. generalize (drop (length (g_PRDIDs g)) ids) as l. generalize (guard_pairs (g_PRDIDs g) (cfg_DefaultGuardrails cfg)) as ps.
  induction ps as [|p ps IH]; intros [|x l] Hl2; simpl in *; try done; try lia. f_equal. apply IH. lia.
Qed.

Lemma ids_index nodes i j n n' :
  NoDup (n_ID <$> nodes) → nodes !! i = Some n → nodes !! j = Some n' → n_ID n = n_ID n' → i = j.
Proof.
  intros Hnd Hi Hj E. eapply (NoDup_lookup (n_ID <$> nodes)); [done| |]; rewrite list_lookup_fmap; [by rewrite Hi|].
  rewrite Hj. simpl. by rewrite E.
Qed.

(** The graph [Plan] draws up, whatever dependencies between PRDs it is
    given (cyclic or dangling ones included), can always be sorted, as long as
    the ids drawn for its nodes are distinct. *)
Theorem plan_sortable (cfg : Config) (g : Graph) (deps : gmap string (list string)) (now : Time) (ids : list string) :
  NoDup ids → length ids = plan_size cfg g → ∃ order, topoSort (plan_nodes cfg g deps now ids) = inr order.
Proof.
  intros Hnd Hl. assert (NoDup (n_ID <$> plan_nodes cfg g deps now ids)) as Hnd' by by rewrite plan_nodes_ids.
  apply backward_sortable; [done|]. intros i n d Hi Hd j n' Hj Hid.
  cut (∃ k nk, plan_nodes cfg g deps now ids !! k = Some nk ∧ n_ID nk = d ∧ (k < i)%nat).
  { intros (k&nk&Hk&Hkd&Hlt). assert (j = k) as ->; [|done]. eapply ids_index; [done..|congruence]. }
  clear j n' Hj Hid. unfold plan_nodes, plan_size in *. destruct (prd_nodes _ _ _ _ _ _) as [ns m] eqn:E.
  apply prd_nodes_deps in E as (H1&H2&H3). apply lookup_app_Some in Hi as [Hi|[Hge Hi]].
  - destruct (H1 i n d Hi Hd) as [[p Hp]|(j&n'&Hj&Hid&Hlt)]; [by rewrite lookup_empty in Hp|].
    exists j, n'. split_and!; [by apply lookup_app_l_Some|done..].
  - apply lookup_zip_with_Some in Hi as (x&pg&->&_&Hpg). simpl in Hd. apply list_elem_of_singleton in Hd as ->.
    apply list_elem_of_lookup_2, guard_pairs_elem in Hpg. destruct (H3 ltac:(lia) pg.1 (or_introl Hpg)) as [d Hm].
    destruct (H2 _ _ Hm) as [Hbad|(n'&[j Hj]%list_elem_of_lookup&Hid)]; [by rewrite lookup_empty in Hbad|].
    exists j, n'. rewrite Hm. split_and!; [by apply lookup_app_l_Some|done|]. apply lookup_lt_Some in Hj. lia.
Qed.

Definition ex_graph : Graph := mkGraph "g" "t" "/p" ["A"; "B"] [] GraphDraft 0 0.
Definition ex_cfg : Config := mkConfig true ["rules"] 0 "" "" 2.

Lemma plan_sortable_witness :
  NoDup ["n1"; "n2"; "n3"; "n4"] ∧ length ["n1"; "n2"; "n3"; "n4"] = plan_size ex_cfg ex_graph ∧
  ∃ order, topoSort (plan_nodes ex_cfg ex_graph {[ "A" := ["B"]; "B" := ["A"] ]} 0 ["n1"; "n2"; "n3"; "n4"]) = inr order.
Proof.
  assert (NoDup ["n1"; "n2"; "n3"; "n4"]) as H by (apply (bool_decide_unpack _); vm_compute; exact I).
  assert (length ["n1"; "n2"; "n3"; "n4"] = plan_size ex_cfg ex_graph) as Hl by reflexivity.
  split; [exact H|]. split; [exact Hl|]. exact (plan_sortable _ _ _ _ _ H Hl).
Defined.

(** ** Nodes by id *)

Lemma lookup_replace n ns x :
  List.find (λ y, String.eqb (n_ID y) x) (replace_node n ns) =
  if String.eqb (n_ID n) x then (if bool_decide (n_ID n ∈ n_ID <$> ns) then Some n else None)
  else List.find (λ y, String.eqb (n_ID y) x) ns.
Proof.
  induction ns as [|y ns IH]; [by destruct (String.eqb_spec (n_ID n) x)|].
  cbn [replace_node]. destruct (String.eqb_spec (n_ID y) (n_ID n)) as [E|E]; cbn [List.find].
  - rewrite bool_decide_eq_true_2 by (rewrite fmap_cons, E; left). rewrite E. by destruct (String.eqb (n_ID n) x).
  - rewrite IH. destruct (String.eqb_spec (n_ID n) x) as [Ex|Hx].
    + subst x. destruct (String.eqb_spec (n_ID y) (n_ID n)); [done|]. rewrite fmap_cons.
      erewrite bool_decide_ext; [done|]. rewrite elem_of_cons. naive_solver.
    + done.
Qed.

Lemma replace_ids n ns : n_ID <$> replace_node n ns = n_ID <$> ns.
Proof.
  induction ns as [|y ns IH]; [done|]. cbn [replace_node].
  destruct (String.eqb_spec (n_ID y) (n_ID n)) as [E|E]; rewrite !fmap_cons; [by rewrite E|by rewrite IH].
Qed.

Lemma replace_twice n n' ns : n_ID n = n_ID n' → replace_node n (replace_node n' ns) = replace_node n ns.
Proof.
  intros E. induction ns as [|y ns IH]; [done|]. simpl. rewrite E.
  destruct (String.eqb_spec (n_ID y) (n_ID n')) as [E'|E']; simpl; rewrite E.
  - by rewrite String.eqb_refl.
  - destruct (String.eqb_spec (n_ID y) (n_ID n')); [done|]. by rewrite IH.
Qed.

Lemma find_node_elem ns x n : List.find (λ y, String.eqb (n_ID y) x) ns = Some n → n ∈ ns ∧ n_ID n = x.
Proof. intros H. apply find_some in H as [Hin E]. split; [by apply list_elem_of_In in Hin|by apply String.eqb_eq in E]. Qed.

Lemma find_node ns n : NoDup (n_ID <$> ns) → n ∈ ns → List.find (λ y, String.eqb (n_ID y) (n_ID n)) ns = Some n.
Proof.
  intros Hnd Hn. destruct (List.find _ ns) as [n'|] eqn:E.
  - apply find_node_elem in E as [Hn' E]. f_equal. by eapply (NoDup_fmap_eq n_ID).
  - apply list_elem_of_In in Hn. eapply find_none in E; [|done]. by rewrite String.eqb_refl in E.
Qed.

(** What a run never changes of a node. *)
Definition same_node (n n' : Node) : Prop :=
  n_ID n' = n_ID n ∧ n_Kind n' = n_Kind n ∧ n_DependsOn n' = n_DependsOn n.

Definition bad (n : Node) : Prop := n_Status n = NodeBlocked ∨ n_Status n = NodeFailed.

Lemma depBlocked_spec g n :
  depBlocked g n = true ↔ ∃ x, x ∈ g_Nodes g ∧ n_ID x ∈ n_DependsOn n ∧ bad x.
Proof.
  unfold depBlocked. rewrite existsb_exists. setoid_rewrite existsb_exists. setoid_rewrite <- list_elem_of_In. split.
  - intros (d&Hd&x&Hx&H). bools. subst. eauto.
  - intros (x&Hx&Hd&Hb). exists (n_ID x). split; [done|]. exists x. split; [done|].
    rewrite String.eqb_refl. by apply bool_decide_eq_true_2.
Qed.

(** ** A run, node by node *)

Section run.
Context {W : Type} `{!World W} (cfg : Config).

Lemma saveNode_nodes w g n :
  ∃ w' g' e t, saveNode w g n = (w', g', e) ∧ g_Nodes g' = replace_node (set_updated t n) (g_Nodes g).
Proof. unfold saveNode, SaveGraph. destruct (persist w) as [w' e]. eexists _, _, _, _. split; reflexivity. Qed.

Lemma fail_node_nodes w g n err :
  ∃ w' g' n', fail_node w g n err = (w', g') ∧ g_Nodes g' = replace_node n' (g_Nodes g) ∧
    same_node n n' ∧ n_Status n' = NodeFailed ∧ n_StartedAt n' = n_StartedAt n.
Proof.
  unfold fail_node. destruct (saveNode_nodes w g (set_error err (set_status NodeFailed n))) as (w'&g'&e&t&->&Hg).
  eexists _, _, _. split_and!; [done|exact Hg|done..].
Qed.

(** What [runPRD] and [runGuardrail] leave: a node that has started, stored under
    its own id. *)
Definition ran (g : Graph) (node : Node) (g' : Graph) (n : Node) : Prop :=
  same_node node n ∧ is_Some (n_StartedAt n) ∧
  ∃ t st, same_node node st ∧ n_Status st = n_Status (set_updated t n) ∧ is_Some (n_StartedAt st) ∧
    g_Nodes g' = replace_node st (g_Nodes g).

Lemma runPRD_ran w g node :
  ∃ w' g' n err, runPRD w g node = (w', g', n, err) ∧ ran g node g' n ∧
    (err = None → n_Status n = NodeCompleted).
Proof.
  unfold runPRD. destruct (saveNode_nodes w g (markStart (clock w) node)) as (w1&g1&e1&t1&->&H1).
  destruct (match prd_run with Some run => run w1 (n_PRDID (markStart (clock w) node)) | None => (w1, inr "") end) as [w2 [err|sm]].
  - eexists _, _, _, _. split; [done|]. split; [|done]. split_and!; [done|by eexists|].
    exists t1. eexists. split_and!; [| | |exact H1]; try done; by eexists.
  - match goal with |- context [saveNode w2 g1 ?n] => destruct (saveNode_nodes w2 g1 n) as (w3&g3&e3&t3&->&H3) end.
    eexists _, _, _, _. split; [done|]. split; [|done]. split_and!; [done|by eexists|].
    exists t3. eexists. split_and!; [| | |rewrite H3, H1; by apply replace_twice]; try done; by eexists.
Qed.

Lemma runGuardrail_ran w g node :
  ∃ w' g' n err, runGuardrail cfg w g node = (w', g', n, err) ∧ ran g node g' n ∧
    (err = None → verdict_blocks n = false → n_Status n = NodeCompleted).
Proof.
  unfold runGuardrail. destruct (saveNode_nodes w g (markStart (clock w) node)) as (w1&g1&e1&t1&->&H1).
  destruct guard as [call|].
  - destruct (call _ _ _) as [w2 [err|v]].
    + eexists _, _, _, _. split; [done|]. split; [|done]. split_and!; [done|by eexists|].
      exists t1. eexists. split_and!; [| | |exact H1]; try done; by eexists.
    + match goal with |- context [saveNode w2 g1 ?n] => set (nn := n); destruct (saveNode_nodes w2 g1 nn) as (w3&g3&e3&t3&->&H3) end.
      assert (same_node node nn ∧ is_Some (n_StartedAt nn)) as [Hs Hst] by (subst nn; case_match; split; [done|by eexists|done|by eexists]).
      eexists _, _, _, _. split; [done|]. split.
      * split_and!; [done..|]. exists t3, (set_updated t3 nn). split_and!; [done..|].
        rewrite H3, H1. apply replace_twice. apply Hs.
      * intros _. subst nn. destruct (String.eqb (v_Outcome v) "block") eqn:E; unfold verdict_blocks; simpl; [|done].
        by rewrite E.
  - match goal with |- context [saveNode w1 g1 ?n] => destruct (saveNode_nodes w1 g1 n) as (w3&g3&e3&t3&->&H3) end.
    eexists _, _, _, _. split; [done|]. split; [|done]. split_and!; [done|by eexists|].
    exists t3. eexists. split_and!; [| | |rewrite H3, H1; by apply replace_twice]; try done; by eexists.
Qed.

Definition unvisited (n : Node) : Prop := n_Status n = NodePending ∧ n_StartedAt n = None.

(** The graph's answer to a node: blocked by it or not. *)
Definition blocks (n : Node) : Prop :=
  n_Status n = NodeBlocked ∨ (n_Status n = NodeFailed ∧ n_Kind n = NodeKindPRD).

Definition settled (g : Graph) (n : Node) : Prop :=
  if depBlocked g n then n_Status n = NodeCancelled ∧ n_StartedAt n = None
  else is_Some (n_StartedAt n) ∧ (n_Status n = NodeCompleted ∨ n_Status n = NodeFailed ∨ n_Status n = NodeBlocked).

Lemma visit_spec w g id node :
  lookupNode g id = Some node → unvisited node →
  ∃ w' g' b n', visit cfg w g id = (w', g', b) ∧ g_Nodes g' = replace_node n' (g_Nodes g) ∧ same_node node n' ∧
    (b = true ↔ blocks n') ∧
    (if depBlocked g node then n_Status n' = NodeCancelled ∧ n_StartedAt n' = None
     else is_Some (n_StartedAt n') ∧ (n_Status n' = NodeCompleted ∨ n_Status n' = NodeFailed ∨ n_Status n' = NodeBlocked)).
Proof.
  intros Hl [Hp Hs]. unfold visit. rewrite Hl, bool_decide_eq_false_2 by (rewrite Hp; naive_solver).
  destruct (depBlocked g node).
  { destruct (saveNode_nodes w g (set_status NodeCancelled node)) as (w1&g1&e1&t1&->&H1).
    eexists _, _, _, _. split_and!; [done|exact H1|done..| |done|done]. unfold blocks. simpl. naive_solver. }
  case_bool_decide as Hk.
  - destruct (runPRD_ran w g node) as (w1&g1&n1&e1&->&(Hn1&Hst&t&st&Hsame&Hstat&Hsst&Hg)&Hok). destruct e1 as [e1|].
    + destruct (fail_node_nodes w1 g1 n1 e1) as (w2&g2&n2&->&H2&Hn2&Hf&Ht).
      eexists _, _, _, n2. rewrite H2, Hg, Ht, Hf. unfold same_node, blocks in *.
      split_and!; [done|apply replace_twice; naive_solver congruence|naive_solver congruence..].
    + eexists _, _, _, st. simpl in Hstat. rewrite Hok in Hstat by done. unfold blocks. rewrite Hstat.
      split_and!; [done|exact Hg|naive_solver..].
  - destruct (runGuardrail_ran w g node) as (w1&g1&n1&e1&->&(Hn1&Hst&t&st&Hsame&Hstat&Hsst&Hg)&Hok). destruct e1 as [e1|].
    + destruct (fail_node_nodes w1 g1 n1 e1) as (w2&g2&n2&->&H2&Hn2&Hf&Ht).
      eexists _, _, _, n2. rewrite H2, Hg, Ht, Hf. unfold same_node, blocks in *.
      split_and!; [done|apply replace_twice; naive_solver congruence|naive_solver congruence..].
    + destruct (verdict_blocks n1) eqn:Hv.
      * destruct (saveNode_nodes w1 g1 (set_status NodeBlocked n1)) as (w2&g2&e2&t2&->&H2).
        eexists _, _, _, (set_updated t2 (set_status NodeBlocked n1)). rewrite H2, Hg. unfold same_node, blocks in *. simpl.
        split_and!; [done|apply replace_twice; simpl; naive_solver congruence|naive_solver..].
      * eexists _, _, _, st. simpl in Hstat. rewrite Hok in Hstat by done. unfold blocks. rewrite Hstat.
        split_and!; [done|exact Hg|naive_solver..].
Qed.

Lemma depBlocked_ext g g' n :
  NoDup (n_ID <$> g_Nodes g) → NoDup (n_ID <$> g_Nodes g') →
  (∀ d, d ∈ n_DependsOn n → lookupNode g' d = lookupNode g d) → depBlocked g' n = depBlocked g n.
Proof.
  intros H1 H2 H. apply eq_true_iff_eq.
  rewrite !depBlocked_spec. unfold lookupNode in H. split; intros (x&Hx&Hd&Hb); exists x; split; try done.
  - apply (find_node_elem _ (n_ID x)). rewrite <- H by done. by apply find_node.
  - apply (find_node_elem _ (n_ID x)). rewrite H by done. by apply find_node.
Qed.

(** The walk so far: [done] visited, the rest as it was. *)
Record walked (g0 : Graph) (g : Graph) (visited : list string) (b : bool) : Prop := {
  wk_ids : n_ID <$> g_Nodes g = n_ID <$> g_Nodes g0;
  wk_same n : n ∈ g_Nodes g → ∃ n0, n0 ∈ g_Nodes g0 ∧ same_node n0 n;
  wk_rest n : n ∈ g_Nodes g → n_ID n ∉ visited → unvisited n;
  wk_done n : n ∈ g_Nodes g → n_ID n ∈ visited → settled g n;
  wk_blocked : b = true ↔ ∃ n, n ∈ g_Nodes g ∧ n_ID n ∈ visited ∧ blocks n
}.

Lemma elem_replace n ns x :
  NoDup (n_ID <$> ns) → n_ID n ∈ n_ID <$> ns →
  x ∈ replace_node n ns ↔ x = n ∨ (x ∈ ns ∧ n_ID x ≠ n_ID n).
Proof.
  intros Hnd Hin. assert (NoDup (n_ID <$> replace_node n ns)) as Hnd' by by rewrite replace_ids.
  split.
  - intros Hx. apply find_node in Hx as E; [|done]. rewrite lookup_replace in E.
    destruct (String.eqb_spec (n_ID n) (n_ID x)); [case_bool_decide; simplify_eq; by left|].
    apply find_node_elem in E as [? _]. by right.
  - intros [->|[Hx Hne]].
    + apply (find_node_elem _ (n_ID n)). rewrite lookup_replace. by rewrite String.eqb_refl, bool_decide_eq_true_2.
    + apply (find_node_elem _ (n_ID x)). rewrite lookup_replace.
      destruct (String.eqb_spec (n_ID n) (n_ID x)); [congruence|]. by apply find_node.
Qed.

Context (g0 : Graph) (order : list string).
Context (Hnd : NoDup (n_ID <$> g_Nodes g0)) (Hord : NoDup order).
Context (Hbefore : ∀ n d, n ∈ g_Nodes g0 → d ∈ n_DependsOn n → d ∈ n_ID <$> g_Nodes g0 → before order d (n_ID n)).

(** A dependency of the node visited next, or of one visited already, has been visited. *)
Lemma deps_visited visited id todo n d :
  order = visited ++ id :: todo → n ∈ g_Nodes g0 → n_ID n ∈ visited ++ [id] → d ∈ n_DependsOn n → d ≠ id ∨ d ∉ n_ID <$> g_Nodes g0.
Proof.
  intros -> Hn Hv Hd. destruct (decide (d ∈ n_ID <$> g_Nodes g0)) as [Hi|]; [left|by right].
  intros ->. destruct (Hbefore n id Hn Hd Hi) as (i&j&Hi'&Hj&Hlt).
  assert (i = length visited) as ->.
  { eapply NoDup_lookup; [exact Hord|done|]. rewrite lookup_app_r, Nat.sub_diag by lia. done. }
  apply list_elem_of_lookup in Hv as [k Hk]. assert (k = j) as ->.
  { eapply NoDup_lookup; [exact Hord| |done]. rewrite cons_middle, app_assoc. by apply lookup_app_l_Some. }
  apply lookup_lt_Some in Hk. rewrite length_app in Hk. simpl in Hk. lia.
Qed.

Lemma visit_walked w g visited id todo b :
  order = visited ++ id :: todo → id ∈ n_ID <$> g_Nodes g0 → walked g0 g visited b →
  ∃ w' g' b', visit cfg w g id = (w', g', b') ∧ walked g0 g' (visited ++ [id]) (b || b').
Proof.
  intros Ho Hid [Hids Hsame Hrest Hdone Hb].
  assert (NoDup (n_ID <$> g_Nodes g)) as Hndg by by rewrite Hids.
  rewrite <- Hids in Hid. apply list_elem_of_fmap in Hid as (node&->&Hnode).
  assert (n_ID node ∉ visited) as Hnv. { rewrite Ho in Hord. apply NoDup_app in Hord as (_&H&_). intros Hi. apply (H _ Hi). by left. }
  destruct (visit_spec w g (n_ID node) node) as (w'&g'&b'&n'&->&Hg'&Hs'&Hb'&Hset); [by apply find_node|by apply Hrest|].
  eexists w', g', b'. split; [done|].
  assert (n_ID n' = n_ID node) as Hn' by apply Hs'.
  assert (∀ x, x ∈ g_Nodes g' ↔ x = n' ∨ (x ∈ g_Nodes g ∧ n_ID x ≠ n_ID node)) as Helem.
  { intros x. rewrite Hg', elem_replace; rewrite ?Hn'; [done|done|by apply list_elem_of_fmap_2]. }
  assert (n_ID <$> g_Nodes g' = n_ID <$> g_Nodes g0) as Hids' by by rewrite Hg', replace_ids.
  assert (∀ x, x ∈ g_Nodes g → n_ID x ∈ visited ++ [n_ID node] → depBlocked g' x = depBlocked g x) as Hdep.
  { intros x Hx Hv. apply depBlocked_ext; [done|by rewrite Hids'|]. intros d Hd.
    unfold lookupNode. rewrite Hg', lookup_replace, Hn'. destruct (String.eqb_spec (n_ID node) d) as [<-|]; [|done].
    destruct (Hsame x Hx) as (x0&Hx0&Hi&_&Hdd). rewrite Hdd in Hd. rewrite Hi in Hv.
    destruct (deps_visited visited (n_ID node) todo x0 (n_ID node)) as [|Hno]; [done..|].
    exfalso. apply Hno. rewrite <- Hids. by apply list_elem_of_fmap_2. }
  assert (∀ x y, n_DependsOn x = n_DependsOn y → depBlocked g' x = depBlocked g' y) as Hdd by (intros x y E; unfold depBlocked; by rewrite E).
  split.
  - done.
  - intros n [->|[Hn _]]%Helem; [|by apply Hsame]. destruct (Hsame node Hnode) as (n0&Hn0&H0). exists n0. split; [done|].
    unfold same_node in *. naive_solver congruence.
  - intros n [->|[Hn Hne]]%Helem Hv; [exfalso; apply Hv; rewrite Hn'; set_solver|]. apply Hrest; [done|set_solver].
  - intros n [->|[Hn Hne]]%Helem Hv; unfold settled.
    + rewrite (Hdd n' node) by apply Hs'. by rewrite Hdep by (try done; set_solver).
    + rewrite Hdep by done. apply Hdone; [done|set_solver].
  - rewrite orb_true_iff, Hb, Hb'. setoid_rewrite Helem. setoid_rewrite elem_of_app. setoid_rewrite list_elem_of_singleton. split.
    + intros [(n&Hn&Hv&Hbl)|Hbl]; [|by exists n'; split; [left|split; [right|]]].
      exists n. split; [|by split; [left|]]. right. split; [done|]. by intros E; rewrite E in Hv.
    + intros (n&[->|[Hn Hne]]&[Hv|Hv]&Hbl); [by right|by right|left; by exists n|done].
Qed.

Lemma walk_walked w g visited todo b :
  order = visited ++ todo → (∀ x, x ∈ todo → x ∈ n_ID <$> g_Nodes g0) → walked g0 g visited b →
  ∃ w' g' r v' b', walk cfg w g todo b = (w', g', r) ∧ walked g0 g' v' b' ∧ v' `prefix_of` order ∧ (∀ b1, r = inr b1 → b1 = b' ∧ v' = order).
Proof.
  revert w g visited b. induction todo as [|id todo IH]; intros w g visited b Ho Hin HW.
  - simpl. eexists _, _, _, _, _. split; [done|]. split; [exact HW|]. rewrite Ho, app_nil_r. split; [done|]. by intros b1 [= <-].
  - cbn [walk]. destruct (ctx_err w) as [e|].
    + eexists _, _, _, _, _. split; [done|]. split; [exact HW|]. split; [by exists (id :: todo)|done].
    + destruct (visit_walked w g visited id todo b) as (w1&g1&b1&->&HW1); [done|apply Hin; left|done|].
      destruct (IH w1 g1 (visited ++ [id]) (b || b1)) as (w2&g2&r&v'&b2&->&HW2&Hpre&Hr); [by rewrite <- app_assoc|intros x Hx; apply Hin; by right|done|].
      by eexists _, _, _, _, _.
Qed.
End run.

Lemma prefix_before order v a b : NoDup order → before order a b → v `prefix_of` order → b ∈ v → a ∈ v.
Proof.
  intros Hnd (i&j&Hi&Hj&Hlt) [rest ->] [k Hk]%list_elem_of_lookup.
  assert (k = j) as -> by (eapply NoDup_lookup; [exact Hnd|by apply lookup_app_l_Some|done]).
  apply lookup_lt_Some in Hk. rewrite lookup_app_l in Hi by lia. by apply list_elem_of_lookup_2 in Hi.
Qed.

(** What a run of a fresh graph leaves, in one place. *)
Lemma run_graph_walked {W} `{!World W} cfg (w : W) g w' g' err :
  NoDup (n_ID <$> g_Nodes g) → (∀ n, n ∈ g_Nodes g → unvisited n) → run_graph cfg w g = (w', g', err) →
  ∃ g1 v b, walked g g1 v b ∧ g_Nodes g' = g_Nodes g1 ∧
    (∀ n d, n ∈ g_Nodes g → n_ID n ∈ v → d ∈ n_DependsOn n → d ∈ n_ID <$> g_Nodes g → d ∈ v) ∧
    (err = None → (∀ x, x ∈ n_ID <$> g_Nodes g → x ∈ v) ∧ g_Status g' = if b then GraphBlocked else GraphCompleted).
Proof.
  intros Hnd Hun. unfold run_graph.
  assert (walked g g [] false) as Hstart.
  { split; [done| |by auto|by intros n _ ?%elem_of_nil|split; [done|by intros (n&_&?%elem_of_nil&_)]].
    intros n Hn. by exists n. }
  destruct (topoSort_cases (g_Nodes g) Hnd) as [(out&->&Hp&Hb)|[-> _]]; [|intros [= <- <- <-]; exists g, [], false; split_and!; [done..| |done]; by intros n d _ ?%elem_of_nil].
  destruct (walk_walked cfg g out) with (w := w) (g := g) (visited := @nil string) (todo := out) (b := false)
    as (w1&g1&r&v&b&->&HW&Hpre&Hr); try done.
  - by rewrite Hp.
  - intros x Hx. by rewrite <- Hp.
  - assert (∀ n d, n ∈ g_Nodes g → n_ID n ∈ v → d ∈ n_DependsOn n → d ∈ n_ID <$> g_Nodes g → d ∈ v) as Hdeps.
    { intros n d Hn Hv Hd Hi. apply (prefix_before out v d (n_ID n)); [by rewrite Hp| |exact Hpre|exact Hv].
      by apply Hb. }
    destruct r as [e|b1]; [intros [= <- <- <-]; exists g1, v, b; by split_and!|]. destruct (Hr b1 eq_refl) as [-> ->].
    unfold SaveGraph. destruct (persist w1) as [w2 e] eqn:Epe. intros [= <- <- <-]. exists g1, out, b. split_and!; [done..|].
    intros _. split; [intros x Hx; by rewrite Hp|]. done.
Qed.

(** Whatever the PRD runs, the guardrails, the store and the context answer,
    in a run of a fresh graph a node that is started has none of its
    dependencies failed, blocked or still to be visited: each has completed, or
    was itself cancelled. *)
Theorem no_work_below_failure {W} `{!World W} (cfg : Config) (w : W) (g : Graph) :
  NoDup (n_ID <$> g_Nodes g) → (∀ n, n ∈ g_Nodes g → unvisited n) →
  let '(_, g', _) := run_graph cfg w g in
  ∀ n x, n ∈ g_Nodes g' → is_Some (n_StartedAt n) → x ∈ g_Nodes g' → n_ID x ∈ n_DependsOn n →
    n_Status x = NodeCompleted ∨ n_Status x = NodeCancelled.
Proof.
  intros Hnd Hun. destruct (run_graph cfg w g) as [[w' g'] err] eqn:E.
  destruct (run_graph_walked cfg w g w' g' err Hnd Hun E) as (g1&v&b&HW&Hg&Hdeps&_). rewrite Hg.
  intros n x Hn [t Ht] Hx Hd. destruct (decide (n_ID n ∈ v)) as [Hv|Hv].
  - pose proof (wk_done _ _ _ _ HW n Hn Hv) as Hs. unfold settled in Hs.
    destruct (depBlocked g1 n) eqn:Eb; [destruct Hs; congruence|].
    assert (¬ bad x) as Hbad.
    { intros Hb. assert (depBlocked g1 n = true); [|congruence]. apply depBlocked_spec. by exists x. }
    destruct (wk_same _ _ _ _ HW n Hn) as (n0&Hn0&Hi&_&Hdd). rewrite Hi in Hv. rewrite Hdd in Hd.
    assert (n_ID x ∈ v) as Hxv.
    { apply (Hdeps n0); [done..|]. rewrite <- (wk_ids _ _ _ _ HW). by apply list_elem_of_fmap_2. }
    pose proof (wk_done _ _ _ _ HW x Hx Hxv) as Hsx. unfold settled, bad in *. destruct (depBlocked g1 x); naive_solver.
  - destruct (wk_rest _ _ _ _ HW n Hn Hv). congruence.
Qed.


(** ** Examples *)

(** A world in which PRD A fails, B's guardrail blocks and nothing else does. *)
#[local] Instance ex_world : World unit := {
  ctx_err _ := None;
  clock _ := 7;
  prd_run := Some (λ w pid, (w, if String.eqb pid "A" then inl "exit 1" else inr "done"));
  guard := Some (λ w _ req, (w, inr (mkVerdict (if String.eqb (gr_PRDID req) "B" then "block" else "pass") "" "" [] 7 "")));
  persist w := (w, None)
}.

Definition ex_guard (id pid : string) (deps : list string) : Node :=
  mkNode id "g" NodeKindGuardrail pid "rules" deps NodePending None "" None None 0 0.
Definition ex_run_graph : Graph :=
  mkGraph "g" "t" "/p" ["A"; "B"; "C"]
    [ex_node "A" []; ex_node "B" []; ex_node "C" ["B"]; ex_guard "D" "A" ["A"]; ex_guard "E" "B" ["B"]] GraphActive 0 0.

Lemma ex_run_nodup : NoDup (n_ID <$> g_Nodes ex_run_graph).
Proof. apply (bool_decide_unpack _). vm_compute. exact I. Qed.
Lemma ex_run_fresh n : n ∈ g_Nodes ex_run_graph → unvisited n.
Proof. revert n. apply Forall_forall. by repeat constructor. Qed.

Lemma no_work_below_failure_witness :
  NoDup (n_ID <$> g_Nodes ex_run_graph) ∧
  let '(_, g', _) := run_graph ex_cfg tt ex_run_graph in
  ∀ n x, n ∈ g_Nodes g' → is_Some (n_StartedAt n) → x ∈ g_Nodes g' → n_ID x ∈ n_DependsOn n →
    n_Status x = NodeCompleted ∨ n_Status x = NodeCancelled.
Proof.
  split; [exact ex_run_nodup|].
  exact (no_work_below_failure ex_cfg tt ex_run_graph ex_run_nodup ex_run_fresh).
Defined.


(** A node below a cancelled one is run all the same: only a failed or blocked
    dependency stops it. *)
Example dependent_of_cancelled_runs :
  let g := mkGraph "g" "t" "/p" [] [ex_node "A" []; ex_node "B" ["A"]; ex_node "C" ["B"]] GraphActive 0 0 in
  n_Status <$> g_Nodes (run_graph ex_cfg tt g).1.2 = [NodeFailed; NodeCancelled; NodeCompleted].
Proof. vm_compute. reflexivity. Qed.

(** A graph that a guardrail blocked ends completed when it is run again, its
    blocked node skipped. *)
Example rerun_completes_blocked :
  let g := mkGraph "g" "t" "/p" [] [ex_node "B" []; ex_guard "E" "B" ["B"]] GraphActive 0 0 in
  let g1 := (run_graph ex_cfg tt g).1.2 in
  g_Status g1 = GraphBlocked ∧ g_Status (run_graph ex_cfg tt g1).1.2 = GraphCompleted.
Proof. vm_compute. done. Qed.
