(* ===== verification/RecordStore.v ===== *)
(** * Stores of records kept in one file

    Several components keep a map of records by id and rewrite one file with
    the whole list after every change. [Disk] is what they ask of the world: a
    clock, the order a map is ranged over, and whether a write succeeds; what
    the file holds is part of each store's state. [DiskLaws] is the documented
    behaviour of ranging: every entry once, in some order. [load_list] is how a
    list read back becomes the map again. *)

From S2P Require Import Prelude GoBase.

#[local] Open Scope Z_scope.

(** [W] is the state of the world, [A] the record kept. *)
Class Disk (W A : Type) := {
  wall : W → Time;
  range : W → gmap string A → list A;
  write : W → list A → W * option string
}.

Class DiskLaws (W A : Type) `{!Disk W A} : Prop := {
  range_perm w m : range w m ≡ₚ (map_to_list m).*2
}.

Section store.
Context {A : Type} (key : A → string).

Definition load_list (l : list A) : gmap string A := foldl (λ m r, <[key r := r]> m) ∅ l.

(** Every record is kept under its own id. *)
Definition keyed (m : gmap string A) : Prop := ∀ k r, m !! k = Some r → key r = k.

Lemma keyed_empty : keyed ∅.
Proof. intros k r H. by rewrite lookup_empty in H. Qed.

Lemma keyed_insert m r : keyed m → keyed (<[key r := r]> m).
Proof. intros Hm k r' [[<- <-]|[_ H]]%lookup_insert_Some; [done|by apply Hm]. Qed.

Lemma keyed_set m k r : keyed m → key r = k → keyed (<[k := r]> m).
Proof. intros Hm <-. by apply keyed_insert. Qed.

Lemma keyed_delete m k : keyed m → keyed (delete k m).
Proof. intros Hm k' r [_ H]%lookup_delete_Some. by apply Hm. Qed.

Lemma load_list_lookup l : NoDup (key <$> l) → ∀ r, r ∈ l → load_list l !! key r = Some r.
Proof.
  unfold load_list. generalize (∅ : gmap string A) as m.
  assert (∀ l (m : gmap string A) k, k ∉ key <$> l → foldl (λ m r, <[key r := r]> m) m l !! k = m !! k) as Hout.
  { clear. intros l. induction l as [|x l IH]; intros m k Hk; [done|]. rewrite fmap_cons in Hk. simpl.
    apply not_elem_of_cons in Hk as [? ?]. rewrite IH by done. by rewrite lookup_insert_ne. }
  induction l as [|x l IH]; intros m Hnd r Hr; [by apply elem_of_nil in Hr|].
  rewrite fmap_cons in Hnd. apply NoDup_cons in Hnd as [Hni Hnd]. simpl.
  apply elem_of_cons in Hr as [->|Hr]; [|by apply IH]. rewrite Hout by done. apply lookup_insert_eq.
Qed.

Lemma load_list_elem l k r : load_list l !! k = Some r → r ∈ l ∧ key r = k.
Proof.
  unfold load_list. assert (∀ m : gmap string A, foldl (λ m r, <[key r := r]> m) m l !! k = Some r → (r ∈ l ∧ key r = k) ∨ m !! k = Some r) as H.
  { induction l as [|x l IH]; intros m H; [by right|]. simpl in H.
    destruct (IH _ H) as [[? ?]|Hm]; [left; split; [by right|done]|].
    apply lookup_insert_Some in Hm as [[? ->]|[_ ?]]; [left; split; [left|done]|by right]. }
  intros [?|He]%H; [done|]. by rewrite lookup_empty in He.
Qed.

Lemma NoDup_keys m : keyed m → NoDup (key <$> (map_to_list m).*2).
Proof.
  intros Hm. assert (key <$> (map_to_list m).*2 = (map_to_list m).*1) as ->; [|apply NoDup_fst_map_to_list].
  rewrite <- list_fmap_compose. apply list_fmap_ext. intros i [k r] Hi. simpl.
  apply Hm, elem_of_map_to_list. by eapply list_elem_of_lookup_2.
Qed.

Lemma elem_of_values (m : gmap string A) r : r ∈ (map_to_list m).*2 ↔ ∃ k, m !! k = Some r.
Proof.
  rewrite list_elem_of_fmap. split.
  - intros ([k r']&->&H). exists k. by apply elem_of_map_to_list.
  - intros [k H]. exists (k, r). split; [done|]. by apply elem_of_map_to_list.
Qed.

Lemma elem_of_keyed m r : keyed m → r ∈ (map_to_list m).*2 ↔ m !! key r = Some r.
Proof.
  intros Hm. rewrite elem_of_values. split; [|by eauto]. intros [k H]. by rewrite (Hm _ _ H).
Qed.

(** Reading back a list with the records of a map, in any order, gives the map. *)
Lemma load_list_values m l : keyed m → l ≡ₚ (map_to_list m).*2 → load_list l = m.
Proof.
  intros Hm Hl. assert (NoDup (key <$> l)) as Hnd by (rewrite Hl; by apply NoDup_keys).
  apply map_eq. intros k. apply option_eq. intros r. split.
  - intros [Hr <-]%load_list_elem. rewrite Hl in Hr. by apply elem_of_keyed.
  - intros Hk. rewrite <- (Hm _ _ Hk). apply load_list_lookup; [done|]. rewrite Hl. apply elem_of_values. eauto.
Qed.
End store.
