(* ===== verification/TokenBroker.v ===== *)
(** * The token broker

    internal/auth/token_broker.go: the store of minted tokens, one record per
    worker, and the broker that mints, revokes and sweeps them through a git
    provider ([Provider], internal/git). The audit log is the list of events
    written to it; [calls] collects what was asked of the provider, in order. *)

From S2P Require Import Prelude GoBase RecordStore.

#[local] Open Scope Z_scope.

Record TokenRecord := mkToken {
  tk_WorkerID : string;
  tk_Repo : string;
  tk_Token : string;
  tk_ExpiresAt : Time;
  tk_IssuedAt : Time;
  tk_RevokedAt : Time
}.

Record MintedToken := mkMinted { mt_Token : string; mt_ExpiresAt : Time }.

(** The provider: an error is its message. *)
Class Provider (W : Type) := {
  RevokeToken : W → string → W * option string;
  MintToken : W → string → Duration → W * (string + MintedToken);
  Kind : string
}.

Inductive Call := CallRevoke (token : string) | CallMint (repo : string) (ttl : Duration) (minted : option string).

Record AuditEvent := mkEvent {
  ev_At : Time;
  ev_Event : string;
  ev_WorkerID : string;
  ev_Repo : string;
  ev_Provider : string;
  ev_Note : string
}.

Definition Active (r : TokenRecord) (now : Time) : bool := IsZero (tk_RevokedAt r) && Before now (tk_ExpiresAt r).

(** The store, its file (what a reload finds), the audit log and the calls made. *)
Record Broker := mkBroker {
  br_tokens : gmap string TokenRecord;
  br_file : list TokenRecord;
  br_log : list AuditEvent;
  br_calls : list Call
}.

(** Whether the broker has a provider and an audit sink, and its cap. *)
Record BrokerConfig := mkBrokerConfig { bc_Provider : bool; bc_Audit : bool; bc_MaxTTL : Duration }.

Definition set_revoked (t : Time) (r : TokenRecord) : TokenRecord :=
  mkToken (tk_WorkerID r) (tk_Repo r) (tk_Token r) (tk_ExpiresAt r) (tk_IssuedAt r) t.

Definition set_tokens (m : gmap string TokenRecord) (b : Broker) : Broker :=
  mkBroker m (br_file b) (br_log b) (br_calls b).
Definition set_file (l : list TokenRecord) (b : Broker) : Broker :=
  mkBroker (br_tokens b) l (br_log b) (br_calls b).
Definition add_event (e : AuditEvent) (b : Broker) : Broker :=
  mkBroker (br_tokens b) (br_file b) (br_log b ++ [e]) (br_calls b).
Definition add_call (c : Call) (b : Broker) : Broker :=
  mkBroker (br_tokens b) (br_file b) (br_log b) (br_calls b ++ [c]).

Section broker.
Context {W : Type} `{!Disk W TokenRecord, !Provider W} (cfg : BrokerConfig).

Definition Get (workerID : string) (b : Broker) : option TokenRecord := br_tokens b !! workerID.

(** [List]: oldest issued first. *)
Definition List (w : W) (b : Broker) : list TokenRecord :=
  sort_by (λ x y, tk_IssuedAt x <? tk_IssuedAt y) (range w (br_tokens b)).

(** The file is replaced by a rename: a failed write leaves it as it was. *)
Definition persistLocked (w : W) (b : Broker) : W * Broker * option string :=
  let list := sort_by (λ x y, String.ltb (tk_WorkerID x) (tk_WorkerID y)) (range w (br_tokens b)) in
  let '(w, err) := write w list in
  (w, match err with None => set_file list b | Some _ => b end, err).

Definition put (w : W) (r : TokenRecord) (b : Broker) : W * Broker * option string :=
  persistLocked w (set_tokens (<[tk_WorkerID r := r]> (br_tokens b)) b).
Definition delete_token (w : W) (workerID : string) (b : Broker) : W * Broker * option string :=
  persistLocked w (set_tokens (delete workerID (br_tokens b)) b).

(** A restart: [NewTokenStore] on the file. *)
Definition NewTokenStore (b : Broker) : Broker := set_tokens (load_list tk_WorkerID (br_file b)) b.

Definition audit (w : W) (event workerID repo note : string) (b : Broker) : Broker :=
  if bc_Audit cfg
  then add_event (mkEvent (wall w) event workerID repo (if bc_Provider cfg then Kind else "") note) b
  else b.

Definition revoke_call (w : W) (token : string) (b : Broker) : W * Broker :=
  ((RevokeToken w token).1, add_call (CallRevoke token) b).

Definition mint_ttl (ttl : Duration) : Duration :=
  let maxTTL := if bc_MaxTTL cfg =? 0 then Hour else bc_MaxTTL cfg in
  if (ttl =? 0) || (maxTTL <? ttl) then maxTTL else ttl.

(** The best-effort revoke of the worker's unrevoked token. *)
Definition supersede (w : W) (workerID : string) (b : Broker) : W * Broker :=
  match Get workerID b with
  | Some prior =>
      if IsZero (tk_RevokedAt prior) then
        let '(w, b) := revoke_call w (tk_Token prior) b in
        (w, audit w "revoke" workerID (tk_Repo prior) "supersede" b)
      else (w, b)
  | None => (w, b)
  end.

Definition MintForWorker (w : W) (workerID repo : string) (ttl : Duration) (b : Broker) :
    W * Broker * (string + TokenRecord) :=
  if negb (bc_Provider cfg) then (w, b, inl "token broker: provider + store required")
  else if String.eqb workerID "" then (w, b, inl "token broker: workerID required")
  else
    let ttl := mint_ttl ttl in
    let '(w, b) := supersede w workerID b in
    let '(w, r) := MintToken w repo ttl in
    let b := add_call (CallMint repo ttl (match r with inl _ => None | inr m => Some (mt_Token m) end)) b in
    match r with
    | inl err => (w, audit w "mint-fail" workerID repo err b, inl ("mint via " +:+ Kind +:+ ": " +:+ err))
    | inr minted =>
        let rec := mkToken workerID repo (mt_Token minted) (mt_ExpiresAt minted) (wall w) zero_time in
        let '(w, b, err) := put w rec b in
        match err with
        | Some e => (w, b, inl ("persist token record: " +:+ e))
        | None => (w, audit w "mint" workerID repo "" b, inr rec)
        end
    end.

Definition RevokeForWorker (w : W) (workerID : string) (b : Broker) : W * Broker * option string :=
  match Get workerID b with
  | None => (w, b, None)
  | Some rec =>
      if negb (IsZero (tk_RevokedAt rec)) then (w, b, None)
      else
        let '(w, b) := if bc_Provider cfg then revoke_call w (tk_Token rec) b else (w, b) in
        let '(w, b, err) := put w (set_revoked (wall w) rec) b in
        match err with
        | Some e => (w, b, Some e)
        | None => (w, audit w "revoke" workerID (tk_Repo rec) "explicit" b, None)
        end
  end.

Definition expired (now : Time) (r : TokenRecord) : bool := negb (IsZero (tk_ExpiresAt r)) && After now (tk_ExpiresAt r).

(** One record of the sweep's loop. *)
Definition sweep_one (active : gset string) (now : Time) (acc : W * Broker * Z) (rec : TokenRecord) : W * Broker * Z :=
  let '(w, b, swept) := acc in
  let alive := bool_decide (tk_WorkerID rec ∈ active) in
  if alive && negb (expired now rec) then (w, b, swept)
  else
    let '(w, b) := if bc_Provider cfg && IsZero (tk_RevokedAt rec) then revoke_call w (tk_Token rec) b else (w, b) in
    let '(w, b, err) := delete_token w (tk_WorkerID rec) b in
    match err with
    | Some e => (w, audit w "sweep-error" (tk_WorkerID rec) (tk_Repo rec) e b, swept)
    | None => (w, audit w "sweep" (tk_WorkerID rec) (tk_Repo rec) (if alive then "expired" else "orphaned") b, swept + 1)
    end.

Definition SweepOrphans (w : W) (activeIDs : list string) (b : Broker) : W * Broker * Z :=
  foldl (sweep_one (list_to_set activeIDs) (wall w)) (w, b, 0) (List w b).
End broker.

(** ** Every sequence of operations

    No minted token is lost track of before it is revoked, the file holds what
    memory holds, and no token is asked for beyond the cap; and what one sweep and
    one revoke do. *)

Inductive TokenOp :=
| OMint (workerID repo : string) (ttl : Duration)
| ORevoke (workerID : string)
| OSweep (activeIDs : list string)
| ORestart.

Definition empty_broker : Broker := mkBroker ∅ [] [] [].

(** The tokens the provider minted, those it was asked to revoke, and those an
    unrevoked record of the store holds. *)
Definition minted (cs : list Call) : list string :=
  omap (λ c, match c with CallMint _ _ m => m | _ => None end) cs.
Definition revoked (cs : list Call) : list string :=
  omap (λ c, match c with CallRevoke t => Some t | _ => None end) cs.
Definition live (m : gmap string TokenRecord) (t : string) : Prop :=
  ∃ k r, m !! k = Some r ∧ tk_Token r = t ∧ IsZero (tk_RevokedAt r) = true.

Section theorems.
Context {W : Type} `{!Disk W TokenRecord, !DiskLaws W TokenRecord, !Provider W} (cfg : BrokerConfig).

Definition run_op (acc : W * Broker) (op : TokenOp) : W * Broker :=
  let '(w, b) := acc in
  match op with
  | OMint k repo ttl => let '(w, b, _) := MintForWorker cfg w k repo ttl b in (w, b)
  | ORevoke k => let '(w, b, _) := RevokeForWorker cfg w k b in (w, b)
  | OSweep ids => let '(w, b, _) := SweepOrphans cfg w ids b in (w, b)
  | ORestart => (w, NewTokenStore b)
  end.
Definition run_ops (w : W) (ops : list TokenOp) : W * Broker := foldl run_op (w, empty_broker) ops.

(** Every write succeeds. *)
Definition writes_ok : Prop := ∀ w l, (write w l).2 = None.

(** The file, read back, is the map. *)
Definition synced (b : Broker) : Prop := load_list tk_WorkerID (br_file b) = br_tokens b.

(** ** What each step leaves alone *)

Lemma audit_parts w e k r n b :
  br_tokens (audit cfg w e k r n b) = br_tokens b ∧ br_file (audit cfg w e k r n b) = br_file b ∧
  br_calls (audit cfg w e k r n b) = br_calls b.
Proof. unfold audit. by destruct (bc_Audit cfg). Qed.

Lemma persist_parts w b w' b' err :
  persistLocked w b = (w', b', err) →
  br_tokens b' = br_tokens b ∧ br_calls b' = br_calls b ∧ br_log b' = br_log b ∧
  (writes_ok → err = None) ∧ (keyed tk_WorkerID (br_tokens b) → err = None → synced b').
Proof.
  unfold persistLocked, synced. pose proof (range_perm w (br_tokens b)) as Hr.
  destruct (write w _) as [w1 e] eqn:E. intros [= <- <- <-]. split_and!; [by destruct e..| |].
  - intros Hok. specialize (Hok w (sort_by (λ x y, String.ltb (tk_WorkerID x) (tk_WorkerID y)) (range w (br_tokens b)))).
    by rewrite E in Hok.
  - intros Hk ->. simpl. apply load_list_values; [done|]. by rewrite sort_by_perm.
Qed.

(** What the store keeps: records under their worker, no minted token lost,
    and, unless writes fail, the file up to date. *)
Record broker_ok (b : Broker) : Prop := {
  bo_keyed : keyed tk_WorkerID (br_tokens b);
  bo_tracked t : t ∈ minted (br_calls b) → t ∈ revoked (br_calls b) ∨ live (br_tokens b) t;
  bo_synced : writes_ok → synced b
}.

Definition tracked (cs : list Call) (m : gmap string TokenRecord) : Prop :=
  ∀ t, t ∈ minted cs → t ∈ revoked cs ∨ live m t.

(** Changing one worker's record keeps track of every token, if the token that
    record held unrevoked has been revoked. *)
Lemma tracked_change cs m k (f : option TokenRecord) :
  tracked cs m → (∀ r, m !! k = Some r → IsZero (tk_RevokedAt r) = true → tk_Token r ∈ revoked cs) →
  tracked cs (partial_alter (λ _, f) k m).
Proof.
  intros H Hk t Ht. destruct (H t Ht) as [?|(k'&r&Hk'&<-&Hz)]; [by left|].
  destruct (decide (k' = k)) as [->|Hne]; [left; by eapply Hk|].
  right. exists k', r. by rewrite lookup_partial_alter_ne.
Qed.

Lemma tracked_revoke cs m t : tracked cs m → tracked (cs ++ [CallRevoke t]) m.
Proof.
  intros H t' Ht. unfold minted, revoked in *. rewrite omap_app in *. simpl in *. rewrite app_nil_r in Ht.
  destruct (H t' Ht) as [?|?]; [left; set_solver|by right].
Qed.

Lemma revoked_last cs t : t ∈ revoked (cs ++ [CallRevoke t]).
Proof. unfold revoked. rewrite omap_app. simpl. set_solver. Qed.

Lemma minted_snoc cs repo ttl t t' :
  t' ∈ minted (cs ++ [CallMint repo ttl (Some t)]) ↔ t' ∈ minted cs ∨ t' = t.
Proof. unfold minted. rewrite omap_app. simpl. set_solver. Qed.

Lemma revoked_snoc_mint cs repo ttl m : revoked (cs ++ [CallMint repo ttl m]) = revoked cs.
Proof. unfold revoked. rewrite omap_app. simpl. apply app_nil_r. Qed.

Lemma put_ok w r b w' b' err :
  keyed tk_WorkerID (br_tokens b) → put w r b = (w', b', err) →
  br_tokens b' = <[tk_WorkerID r := r]> (br_tokens b) ∧ br_calls b' = br_calls b ∧
  keyed tk_WorkerID (br_tokens b') ∧ (writes_ok → err = None ∧ synced b') ∧ (err = None → synced b').
Proof.
  intros Hk H. apply persist_parts in H as (Ht&Hc&_&Hw&Hs). simpl in *. rewrite Ht, Hc.
  pose proof (keyed_insert tk_WorkerID _ r Hk). naive_solver.
Qed.

Lemma revoke_call_parts w t b :
  ∃ w', revoke_call w t b = (w', add_call (CallRevoke t) b).
Proof. by eexists. Qed.

Lemma supersede_parts w k b :
  tracked (br_calls b) (br_tokens b) →
  ∃ w' b', supersede cfg w k b = (w', b') ∧ br_tokens b' = br_tokens b ∧ br_file b' = br_file b ∧
    tracked (br_calls b') (br_tokens b) ∧
    ∀ r, br_tokens b !! k = Some r → IsZero (tk_RevokedAt r) = true → tk_Token r ∈ revoked (br_calls b').
Proof.
  intros Htr. unfold supersede, Get. destruct (br_tokens b !! k) as [r|] eqn:E; [|by eexists _, _].
  destruct (IsZero (tk_RevokedAt r)) eqn:Ez; [|eexists _, _; split_and!; [done..|]; intros r' [= <-]; congruence].
  destruct (revoke_call_parts w (tk_Token r) b) as [w' ->]. eexists _, _. split; [done|].
  destruct (audit_parts w' "revoke" k (tk_Repo r) "supersede" (add_call (CallRevoke (tk_Token r)) b)) as (->&->&->). simpl.
  split_and!; [done..|by apply tracked_revoke|]. intros r' [= <-] _. apply revoked_last.
Qed.

Lemma mint_ok w k repo ttl b w' b' r :
  MintForWorker cfg w k repo ttl b = (w', b', r) → broker_ok b → broker_ok b'.
Proof.
  intros H [Hk Htr Hs]. unfold MintForWorker in H.
  destruct (negb (bc_Provider cfg)); [by simplify_eq|]. destruct (String.eqb k ""); [by simplify_eq|].
  destruct (supersede_parts w k b Htr) as (w1&b1&E1&Ht1&Hf1&Htr1&Hr1). rewrite E1 in H.
  destruct (MintToken w1 repo (mint_ttl cfg ttl)) as [w2 [err|m]].
  - simplify_eq. destruct (audit_parts w' "mint-fail" k repo err (add_call (CallMint repo (mint_ttl cfg ttl) None) b1)) as (Ha&Hb&Hc).
    split; rewrite ?Ha, ?Hb, ?Hc; unfold synced; rewrite ?Ha, ?Hb; simpl; rewrite ?Ht1, ?Hf1; [done| |done].
    intros t Ht. unfold minted in Ht. rewrite omap_app, app_nil_r in Ht. unfold revoked. rewrite omap_app, app_nil_r. by apply Htr1.
  - destruct (put w2 _ _) as [[w3 b3] err] eqn:E3. apply put_ok in E3 as (Ht3&Hc3&Hk3&Hw3&_); [|simpl; by rewrite Ht1].
    simpl in *. rewrite Ht1 in Ht3. assert (broker_ok b3) as Hok.
    { split; [done| |intros Hw; by apply Hw3]. rewrite Hc3, Ht3. intros t Ht. rewrite revoked_snoc_mint.
      apply minted_snoc in Ht as [Ht| ->].
      - by apply (tracked_change _ _ k (Some (mkToken k repo (mt_Token m) (mt_ExpiresAt m) (wall w2) zero_time)) Htr1 Hr1).
      - right. eexists k, _. by rewrite lookup_insert_eq. }
    destruct err; simplify_eq; [done|].
    destruct (audit_parts w' "mint" k repo "" b3) as (Ha&Hb&Hc). destruct Hok.
    split; unfold synced in *; by rewrite ?Ha, ?Hb, ?Hc.
Qed.

Lemma audit_ok w e k r n b : broker_ok b → broker_ok (audit cfg w e k r n b).
Proof.
  intros []. destruct (audit_parts w e k r n b) as (Ha&Hb&Hc). split; unfold synced in *; by rewrite ?Ha, ?Hb, ?Hc.
Qed.

Lemma revoke_ok w k b w' b' r :
  bc_Provider cfg = true → RevokeForWorker cfg w k b = (w', b', r) → broker_ok b → broker_ok b'.
Proof.
  intros Hp H [Hk Htr Hs]. unfold RevokeForWorker, Get in H. destruct (br_tokens b !! k) as [rec|] eqn:E; [|by simplify_eq].
  destruct (negb _); [by simplify_eq|]. rewrite Hp in H. destruct (revoke_call_parts w (tk_Token rec) b) as [w1 E1]. rewrite E1 in H.
  destruct (put w1 _ _) as [[w3 b3] err] eqn:E3. apply put_ok in E3 as (Ht3&Hc3&Hk3&Hw3&_); [|done]. simpl in *.
  rewrite (Hk _ _ E) in Ht3. assert (broker_ok b3) as Hok.
  { split; [done| |intros Hw; by apply Hw3]. rewrite Hc3, Ht3.
    apply (tracked_change _ _ k (Some (set_revoked (wall w1) rec))); [by apply tracked_revoke|].
    intros r' Hr' _. simplify_eq. apply revoked_last. }
  destruct err; simplify_eq; [done|by apply audit_ok].
Qed.

Lemma sweep_one_ok active now w b n rec w' b' n' :
  bc_Provider cfg = true → br_tokens b !! tk_WorkerID rec = Some rec →
  sweep_one cfg active now (w, b, n) rec = (w', b', n') → broker_ok b →
  broker_ok b' ∧ n ≤ n' ≤ n + 1 ∧
  (if bool_decide (tk_WorkerID rec ∈ active) && negb (expired now rec)
   then br_tokens b' = br_tokens b ∧ br_calls b' = br_calls b ∧ n' = n
   else br_tokens b' = delete (tk_WorkerID rec) (br_tokens b) ∧ (writes_ok → n' = n + 1) ∧
        br_calls b' = br_calls b ++ (if IsZero (tk_RevokedAt rec) then [CallRevoke (tk_Token rec)] else [])).
Proof.
  intros Hp Hrec H [Hk Htr Hs]. unfold sweep_one in H. destruct (bool_decide _ && _); [simplify_eq; split; [done|split; [lia|done]]|].
  rewrite Hp in H. simpl in H.
  assert (∃ w1 b1, (if IsZero (tk_RevokedAt rec) then revoke_call w (tk_Token rec) b else (w, b)) = (w1, b1) ∧
    br_tokens b1 = br_tokens b ∧ tracked (br_calls b1) (br_tokens b) ∧
    br_calls b1 = br_calls b ++ (if IsZero (tk_RevokedAt rec) then [CallRevoke (tk_Token rec)] else [])) as (w1&b1&E1&Ht1&Htr1&Hc1).
  { destruct (IsZero _); eexists _, _; (split; [reflexivity|]); simpl; rewrite ?app_nil_r; split_and!; try done. by apply tracked_revoke. }
  rewrite E1 in H. destruct (delete_token w1 (tk_WorkerID rec) b1) as [[w2 b2] err] eqn:E2.
  unfold delete_token in E2. apply persist_parts in E2 as (Ht2&Hc2&_&Hw2&Hs2). simpl in *. rewrite Ht1 in *.
  assert (broker_ok b2) as Hok.
  { assert (keyed tk_WorkerID (delete (tk_WorkerID rec) (br_tokens b))) as Hkd by by apply keyed_delete.
    split; rewrite ?Ht2; [done| |intros Hw; by apply Hs2; [|apply Hw2]]. rewrite Hc2.
    apply (tracked_change _ _ (tk_WorkerID rec) None); [done|]. intros r Hr Hz. rewrite Hrec in Hr. simplify_eq.
    rewrite Hc1, Hz. apply revoked_last. }
  assert (∀ e note, br_tokens (audit cfg w2 e (tk_WorkerID rec) (tk_Repo rec) note b2) = delete (tk_WorkerID rec) (br_tokens b) ∧
    br_calls (audit cfg w2 e (tk_WorkerID rec) (tk_Repo rec) note b2) =
      br_calls b ++ (if IsZero (tk_RevokedAt rec) then [CallRevoke (tk_Token rec)] else [])) as Hparts.
  { intros e note. destruct (audit_parts w2 e (tk_WorkerID rec) (tk_Repo rec) note b2) as (->&_&->). by rewrite Ht2, Hc2, Hc1. }
  destruct err; simplify_eq; (split; [by apply audit_ok|]); (split; [lia|]); (split_and!; [apply Hparts| |apply Hparts]).
  - intros Hw. by apply Hw2 in Hw.
  - done.
Qed.

(** The whole loop, over records that are in the store. *)
Lemma sweep_loop active now recs w b n w' b' n' :
  bc_Provider cfg = true → NoDup (tk_WorkerID <$> recs) → (∀ r, r ∈ recs → br_tokens b !! tk_WorkerID r = Some r) →
  foldl (sweep_one cfg active now) (w, b, n) recs = (w', b', n') → broker_ok b →
  let gone := filter (λ r, bool_decide (tk_WorkerID r ∈ active) && negb (expired now r) = false) recs in
  broker_ok b' ∧
  (∀ k, br_tokens b' !! k = if bool_decide (k ∈ tk_WorkerID <$> gone) then None else br_tokens b !! k) ∧
  br_calls b' = br_calls b ++ (CallRevoke ∘ tk_Token <$> filter (λ r, IsZero (tk_RevokedAt r) = true) gone) ∧
  n ≤ n' ≤ n + Z.of_nat (length gone) ∧ (writes_ok → n' = n + Z.of_nat (length gone)).
Proof.
  intros Hp. revert w b n. induction recs as [|r recs IH]; intros w b n Hnd Hin H Hok; cbn [foldl] in H.
  { simplify_eq. simpl. rewrite app_nil_r. split_and!; [done|done|done|lia..]. }
  rewrite fmap_cons in Hnd. apply NoDup_cons in Hnd as [Hni Hnd].
  destruct (sweep_one cfg active now (w, b, n) r) as [[w1 b1] n1] eqn:E.
  assert (br_tokens b !! tk_WorkerID r = Some r) as Hr by (apply Hin; left).
  destruct (sweep_one_ok active now w b n r w1 b1 n1 Hp Hr E Hok) as (Hok1&Hn1&Hcase).
  cbn zeta. rewrite filter_cons. destruct (bool_decide (tk_WorkerID r ∈ active) && negb (expired now r)) eqn:Ekeep.
  - destruct Hcase as (Ht&Hc&->). rewrite (decide_False (P := true = false)) by done. rewrite <- Ht, <- Hc. apply (IH w1); [done| |done|done].
    intros x Hx. rewrite Ht. apply Hin. by right.
  - destruct Hcase as (Ht&Hn&Hc). rewrite (decide_True (P := false = false)) by done.
    destruct (IH w1 b1 n1 Hnd) as (Hok'&Ht'&Hc'&Hn'&Hw'); [|done|done|].
    { intros x Hx. rewrite Ht, lookup_delete_ne; [apply Hin; by right|]. intros Ex. apply Hni. rewrite Ex. by apply list_elem_of_fmap_2. }
    set (gone := filter _ recs) in *. split_and!; [done| | |cbn [length]; lia|cbn [length]; lia|intros Hw; cbn [length]; rewrite Hw', Hn by done; lia].
    + intros k. rewrite Ht', Ht. rewrite fmap_cons. destruct (decide (k = tk_WorkerID r)) as [->|Hne].
      * rewrite lookup_delete_eq. destruct (bool_decide (_ ∈ tk_WorkerID <$> gone)); by rewrite bool_decide_eq_true_2 by left.
      * rewrite lookup_delete_ne by done. erewrite bool_decide_ext; [done|]. rewrite elem_of_cons. naive_solver.
    + rewrite Hc', Hc, filter_cons, <- app_assoc. f_equal. destruct (IsZero (tk_RevokedAt r)); [by rewrite decide_True|by rewrite decide_False].
Qed.

Lemma List_in w b : keyed tk_WorkerID (br_tokens b) →
  NoDup (tk_WorkerID <$> List w b) ∧ ∀ r, r ∈ List w b ↔ br_tokens b !! tk_WorkerID r = Some r.
Proof.
  intros Hk. unfold List. rewrite sort_by_perm, range_perm. split; [by apply NoDup_keys|].
  intros r. rewrite elem_of_sort_by, range_perm. by apply elem_of_keyed.
Qed.

Lemma sweep_ok w ids b w' b' n : bc_Provider cfg = true → SweepOrphans cfg w ids b = (w', b', n) → broker_ok b → broker_ok b'.
Proof.
  intros Hp H Hok. destruct (List_in w b (bo_keyed _ Hok)) as [Hnd Hin].
  by destruct (sweep_loop _ _ _ _ _ _ _ _ _ Hp Hnd (λ r, proj1 (Hin r)) H Hok).
Qed.

(** At every restart the file holds what memory holds. *)
Definition restarts_synced (w : W) (ops : list TokenOp) : Prop :=
  ∀ before after, ops = before ++ ORestart :: after → synced (run_ops w before).2.

Lemma run_op_ok w b op :
  bc_Provider cfg = true → broker_ok b → (op = ORestart → synced b) → broker_ok (run_op (w, b) op).2.
Proof.
  intros Hp Hok Hsy. destruct op; simpl.
  - destruct (MintForWorker _ _ _ _ _ _) as [[w2 b2] r] eqn:E. by eapply mint_ok.
  - destruct (RevokeForWorker _ _ _ _) as [[w2 b2] r] eqn:E. by eapply revoke_ok.
  - destruct (SweepOrphans _ _ _ _) as [[w2 b2] r] eqn:E. by eapply sweep_ok.
  - destruct Hok as [Hk Htr Hs]. specialize (Hsy eq_refl). unfold synced in Hsy.
    split; unfold NewTokenStore, synced in *; simpl; rewrite Hsy; done.
Qed.

Lemma run_ops_snoc w ops op : run_ops w (ops ++ [op]) = run_op (run_ops w ops) op.
Proof. unfold run_ops. by rewrite foldl_app. Qed.

Lemma run_ops_ok w ops : bc_Provider cfg = true → restarts_synced w ops → broker_ok (run_ops w ops).2.
Proof.
  intros Hp. induction ops as [|op ops IH] using rev_ind; intros Hr.
  - split; simpl; [apply keyed_empty|intros t Ht; by apply elem_of_nil in Ht|done].
  - rewrite run_ops_snoc. assert (broker_ok (run_ops w ops).2) as Hok.
    { apply IH. intros before after ->. apply (Hr before (after ++ [op])). by rewrite <- app_assoc. }
    destruct (run_ops w ops) as [w1 b1] eqn:E. apply run_op_ok; [done|done|]. intros ->. pose proof (Hr ops [] eq_refl) as H.
    by rewrite E in H.
Qed.

Lemma writes_synced w ops : bc_Provider cfg = true → writes_ok → restarts_synced w ops.
Proof.
  intros Hp Hw. enough (∀ n before, (length before ≤ n)%nat → broker_ok (run_ops w before).2) as H.
  { intros before after _. by apply (bo_synced _ (H _ before (le_n _))). }
  induction n as [|n IH]; intros before Hn; apply run_ops_ok; try done; intros b1 b2 E; subst before;
    rewrite length_app in Hn; simpl in Hn; [lia|]. apply (bo_synced _ (IH b1 ltac:(lia))), Hw.
Qed.

Lemma no_restart_synced w ops : ORestart ∉ ops → restarts_synced w ops.
Proof. intros Hn before after ->. destruct Hn. set_solver. Qed.

(** ** Properties *)

(** C12: no token is lost track of. With a provider, after any sequence of mints,
    revokes, sweeps and restarts, failed writes included, every token the provider
    minted either has been handed back to it for revocation or is held by an
    unrevoked record of the store, where the next revoke or sweep finds it; provided
    that at each restart the file holds what memory holds, as it does unless the last
    write failed. *)
Theorem no_token_lost (w : W) (ops : list TokenOp) t :
  bc_Provider cfg = true → restarts_synced w ops →
  t ∈ minted (br_calls (run_ops w ops).2) →
  t ∈ revoked (br_calls (run_ops w ops).2) ∨ live (br_tokens (run_ops w ops).2) t.
Proof. intros Hp Hr. apply (bo_tracked _ (run_ops_ok w ops Hp Hr)). Qed.

(** A restart loses nothing. While writes succeed, reading the file back
    after any sequence of operations gives exactly the records in memory. *)
Theorem restart_keeps_tokens (w : W) (ops : list TokenOp) :
  bc_Provider cfg = true → writes_ok → NewTokenStore (run_ops w ops).2 = (run_ops w ops).2.
Proof.
  intros Hp Hw. pose proof (bo_synced _ (run_ops_ok w ops Hp (writes_synced w ops Hp Hw)) Hw) as Hs. unfold synced in Hs.
  unfold NewTokenStore. rewrite Hs. by destruct (run_ops w ops).2.
Qed.

(** A sweep is exact. It removes the records whose worker is not among the
    live ones or whose token has expired, whatever the provider and the disk
    answer, and no other; it asks the provider to revoke exactly the removed
    tokens that were not revoked yet; and when writes succeed it counts what it
    removed. *)
Theorem sweep_exact (w : W) (activeIDs : list string) (ops : list TokenOp) (w0 : W) :
  bc_Provider cfg = true → ORestart ∉ ops →
  let b := (run_ops w0 ops).2 in
  let '(_, b', swept) := SweepOrphans cfg w activeIDs b in
  let goes := λ r, bool_decide (tk_WorkerID r ∉ activeIDs) || expired (wall w) r in
  (∀ k, br_tokens b' !! k = (r ← br_tokens b !! k; if goes r then None else Some r)) ∧
  (∃ cs, br_calls b' = br_calls b ++ (CallRevoke <$> cs) ∧
     ∀ t, t ∈ cs ↔ ∃ k r, br_tokens b !! k = Some r ∧ goes r = true ∧ IsZero (tk_RevokedAt r) = true ∧ tk_Token r = t) ∧
  (writes_ok → swept = count (λ _ r, goes r) (br_tokens b)).
Proof.
  intros Hp Hr b. assert (broker_ok b) as Hok by (apply run_ops_ok; [done|by apply no_restart_synced]).
  destruct (SweepOrphans cfg w activeIDs b) as [[w' b'] swept] eqn:E. intros goes.
  destruct (List_in w b (bo_keyed _ Hok)) as [Hnd Hin].
  destruct (sweep_loop _ _ _ _ _ _ _ _ _ Hp Hnd (λ r, proj1 (Hin r)) E Hok) as (_&Ht&Hc&_&Hn).
  assert (∀ r, (bool_decide (tk_WorkerID r ∈ (list_to_set activeIDs : gset string)) && negb (expired (wall w) r) = false) ↔ goes r = true) as Hgoes.
  { intros r. subst goes. simpl. rewrite orb_true_iff, andb_false_iff, bool_decide_eq_true, bool_decide_eq_false, negb_false_iff.
    by rewrite elem_of_list_to_set. }
  assert (∀ r k, br_tokens b !! k = Some r → tk_WorkerID r = k) as Hkey by (intros r k; apply (bo_keyed _ Hok)).
  split_and!.
  - intros k. rewrite Ht. case_bool_decide as Hk.
    + apply list_elem_of_fmap in Hk as (r&->&[Hg Hl]%list_elem_of_filter). apply Hin in Hl. apply Hgoes in Hg. rewrite Hl. simpl. by rewrite Hg.
    + destruct (br_tokens b !! k) as [r|] eqn:Er; [|done]. simpl. destruct (goes r) eqn:Eg; [|done]. exfalso. apply Hk.
      rewrite <- (Hkey _ _ Er). apply list_elem_of_fmap_2, list_elem_of_filter. split; [by apply Hgoes|]. apply Hin. by rewrite (Hkey _ _ Er).
  - eexists. split; [rewrite Hc, list_fmap_compose; reflexivity|]. intros t. rewrite list_elem_of_fmap. split.
    + intros (r&->&[Hz [Hg Hl%Hin]%list_elem_of_filter]%list_elem_of_filter). exists (tk_WorkerID r), r. apply Hgoes in Hg. done.
    + intros (k&r&Hk&Hg&Hz&<-). exists r. split; [done|]. apply list_elem_of_filter. split; [done|].
      apply list_elem_of_filter. split; [by apply Hgoes|]. apply Hin. by rewrite (Hkey _ _ Hk).
  - intros Hw. rewrite Hn by done. rewrite Z.add_0_l. unfold List. rewrite sort_by_perm, range_perm.
    clear -Hgoes. generalize (br_tokens b) as m. intros m. induction m as [|k r m Hk _ IH] using map_first_key_ind.
    { by rewrite map_to_list_empty, count_empty. }
    rewrite map_to_list_insert, count_insert by done. rewrite <- IH. rewrite fmap_cons, filter_cons. simpl.
    case_decide as Hd; cbn [length].
    + apply Hgoes in Hd. rewrite Hd. lia.
    + destruct (goes r) eqn:Eg; [|lia]. exfalso. by apply Hd, Hgoes.
Qed.

(** Revoking works once. After RevokeForWorker no time finds the worker's
    token active, every other record is as it was, and a second call changes
    nothing and asks nothing of the provider. *)
Theorem revoke_once (w w2 : W) (workerID : string) (b : Broker) :
  keyed tk_WorkerID (br_tokens b) → (∀ w, wall w ≠ zero_time) →
  let '(_, b', _) := RevokeForWorker cfg w workerID b in
  (∀ r now, br_tokens b' !! workerID = Some r → Active r now = false) ∧
  delete workerID (br_tokens b') = delete workerID (br_tokens b) ∧
  RevokeForWorker cfg w2 workerID b' = (w2, b', None).
Proof.
  intros Hk Hclock.
  assert (∀ r, Get workerID b = Some r → IsZero (tk_RevokedAt r) = false →
    (∀ r now, br_tokens b !! workerID = Some r → Active r now = false) ∧ RevokeForWorker cfg w2 workerID b = (w2, b, None)) as Hdone.
  { intros r Hr Hz. unfold RevokeForWorker. rewrite Hr, Hz. split; [|done]. intros r' now Hr'.
    unfold Get in Hr. simplify_eq. unfold Active. by rewrite Hz. }
  destruct (RevokeForWorker cfg w workerID b) as [[w' b'] e] eqn:E. unfold RevokeForWorker in E.
  destruct (Get workerID b) as [r|] eqn:Er.
  2:{ simplify_eq. unfold RevokeForWorker. unfold Get in *. rewrite Er. by split_and!. }
  destruct (IsZero (tk_RevokedAt r)) eqn:Ez; simpl in E.
  2:{ simplify_eq. destruct (Hdone r eq_refl Ez) as [? ?]. by split_and!. }
  destruct (if bc_Provider cfg then revoke_call w (tk_Token r) b else (w, b)) as [w1 b1] eqn:E1.
  assert (br_tokens b1 = br_tokens b) as Hb1 by (unfold revoke_call in E1; destruct (bc_Provider cfg); by injection E1 as <- <-).
  destruct (put w1 _ b1) as [[w3 b3] err] eqn:E3. apply put_ok in E3 as (Ht3&_); [|by rewrite Hb1]. simpl in Ht3.
  assert (tk_WorkerID r = workerID) as Hid by (by apply Hk). rewrite Hid, Hb1 in Ht3.
  assert (br_tokens b' = <[workerID := set_revoked (wall w1) r]> (br_tokens b)) as Hb'.
  { destruct err; simplify_eq; [done|]. by rewrite (proj1 (audit_parts w' "revoke" _ (tk_Repo r) "explicit" b3)). }
  assert (IsZero (wall w1) = false) as Hz1 by (apply Z.eqb_neq, Hclock).
  split_and!.
  - intros r' now. rewrite Hb', lookup_insert_eq. intros [= <-]. unfold Active. simpl. by rewrite Hz1.
  - by rewrite Hb', delete_insert_eq.
  - unfold RevokeForWorker, Get. rewrite Hb', lookup_insert_eq. simpl. by rewrite Hz1.
Qed.
End theorems.

(** ** Examples *)

(** A provider that names its tokens by the clock, which every call moves on. *)
#[local] Instance demo_token_disk : Disk Z TokenRecord := {
  wall w := Z.max 1 w;
  range w m := (map_to_list m).*2;
  write w l := (w, None)
}.
#[local] Instance demo_token_laws : DiskLaws Z TokenRecord.
Proof. split. done. Qed.
#[local] Instance demo_provider : Provider Z := {
  RevokeToken w t := (w + 1, None);
  MintToken w repo ttl := (w + 1, inr (mkMinted ("tok" +:+ fmt_d w) (w + ttl)));
  Kind := "fake"
}.
Lemma demo_writes : writes_ok (W := Z).
Proof. intros w l. reflexivity. Defined.
Definition demo_token_cfg : BrokerConfig := mkBrokerConfig true true 0.

Definition demo_token_ops : list TokenOp :=
  [OMint "w1" "repo" Hour; OMint "w1" "repo" (2 * Hour); OMint "w2" "repo" 0; ORestart; ORevoke "w2"; OSweep ["w1"]].

Lemma no_token_lost_witness :
  let b := (run_ops demo_token_cfg 10 demo_token_ops).2 in
  minted (br_calls b) = ["tok10"; "tok12"; "tok13"] ∧ revoked (br_calls b) = ["tok10"; "tok13"] ∧
  live (br_tokens b) "tok12".
Proof.
  intros b. assert (revoked (br_calls b) = ["tok10"; "tok13"]) as Hr by (vm_compute; reflexivity).
  assert (minted (br_calls b) = ["tok10"; "tok12"; "tok13"]) as Hm by (vm_compute; reflexivity).
  split; [exact Hm|]. split; [exact Hr|].
  assert ("tok12" ∈ minted (br_calls b)) as Hin by (rewrite Hm; right; left).
  destruct (no_token_lost demo_token_cfg 10 demo_token_ops "tok12" eq_refl (writes_synced demo_token_cfg 10 demo_token_ops eq_refl demo_writes) Hin) as [H|H]; [|exact H].
  exfalso. change (run_ops demo_token_cfg 10 demo_token_ops).2 with b in H. rewrite Hr in H.
  apply (bool_decide_pack _) in H. exact H.
Defined.

Lemma restart_keeps_tokens_witness :
  NewTokenStore (run_ops demo_token_cfg 10 demo_token_ops).2 = (run_ops demo_token_cfg 10 demo_token_ops).2.
Proof. exact (restart_keeps_tokens demo_token_cfg 10 demo_token_ops eq_refl demo_writes). Defined.

Lemma sweep_exact_witness :
  let b := (run_ops demo_token_cfg 10 [OMint "w1" "repo" Hour; OMint "w2" "repo" 0]).2 in
  (SweepOrphans demo_token_cfg 20 ["w1"] b).2 = 1 ∧
  1 = count (λ _ r, bool_decide (tk_WorkerID r ∉ ["w1"]) || expired 20 r) (br_tokens b).
Proof.
  intros b. assert (ORestart ∉ [OMint "w1" "repo" Hour; OMint "w2" "repo" 0]) as Hr.
  { intros H. apply elem_of_cons in H as [H|H]; [discriminate H|]. apply elem_of_cons in H as [H|H]; [discriminate H|]. by apply elem_of_nil in H. }
  pose proof (sweep_exact demo_token_cfg 20 ["w1"] [OMint "w1" "repo" Hour; OMint "w2" "repo" 0] 10 eq_refl Hr) as H.
  split; [vm_compute; reflexivity|]. exact (proj2 (proj2 H) demo_writes).
Defined.

Lemma revoke_once_witness :
  let b := mkBroker {[ "w1" := mkToken "w1" "repo" "tok" 100 5 zero_time ]} [] [] [] in
  br_tokens (RevokeForWorker demo_token_cfg 20 "w1" b).1.2 ≠ br_tokens b ∧
  RevokeForWorker demo_token_cfg 50 "w1" (RevokeForWorker demo_token_cfg 20 "w1" b).1.2 =
    (50, (RevokeForWorker demo_token_cfg 20 "w1" b).1.2, None).
Proof.
  intros b. split; [by vm_compute|].
  assert (keyed tk_WorkerID (br_tokens b)) as Hk.
  { intros k r H. subst b. cbn [br_tokens] in H. apply lookup_singleton_Some in H as [<- <-]. reflexivity. }
  assert (∀ w : Z, wall w ≠ zero_time) as Hc.
  { intros w. unfold wall, demo_token_disk, zero_time, Second. lia. }
  pose proof (revoke_once demo_token_cfg 20 50 "w1" b Hk Hc) as H.
  exact (proj2 (proj2 H)).
Defined.

(** A disk that refuses the second write. *)
Definition full_disk : Disk Z TokenRecord := {|
  wall w := Z.max 1 w;
  range w m := (map_to_list m).*2;
  write w l := (w + 100, if w <? 100 then None else Some "no space left on device")
|}.

(** A mint whose write fails answers an error and keeps the token in memory only: a
    restart forgets it, although the provider was never asked to revoke it. *)
Example failed_put_leaks :
  let b := (run_ops (W := Z) (Disk0 := full_disk) demo_token_cfg 10 [OMint "w1" "repo" Hour; OMint "w2" "repo" Hour; ORestart]).2 in
  minted (br_calls b) = ["tok10"; "tok111"] ∧ revoked (br_calls b) = [] ∧ br_tokens b !! "w2" = None.
Proof. vm_compute. done. Qed.
