(* ===== verification/WorkQueue.v ===== *)
(** * The session work queue

    internal/session/queue.go: a durable queue of work items, claimed by role
    under a lease. The payload and result of an item are JSON objects, of which
    only the absence matters here: [J] is the type of their values.

    Also: the session work queue: theorems. *)

From S2P Require Import Prelude GoBase RecordStore.

#[local] Open Scope Z_scope.

Inductive QueueItemState := QueueStatePending | QueueStateClaimed | QueueStateComplete | QueueStateFailed.

#[global] Instance QueueItemState_eq_dec : EqDecision QueueItemState.
Proof. solve_decision. Defined.

Definition state_string (s : QueueItemState) : string :=
  match s with
  | QueueStatePending => "pending"
  | QueueStateClaimed => "claimed"
  | QueueStateComplete => "complete"
  | QueueStateFailed => "failed"
  end.

Section queue.
Context {J : Type}.

Record QueueItem := mkItem {
  qi_ID : string;
  qi_Role : string;
  qi_Payload : gmap string J;
  qi_State : QueueItemState;
  qi_ClaimedBy : string;
  qi_LeaseExpiry : Time;
  qi_CreatedAt : Time;
  qi_UpdatedAt : Time;
  qi_CompletedAt : Time;
  qi_Error : string;
  qi_Result : option (gmap string J)
}.

(** The items and what the file reads as ([None]: it does not parse). *)
Record QueueStore := mkQueue { q_items : gmap string QueueItem; q_file : option (list QueueItem) }.

(** The file is rewritten in place: [torn] is what a failed write leaves. *)
Context {W : Type} `{!Disk W QueueItem} (torn : W → list QueueItem → option (list QueueItem)).

Definition by_created (x y : QueueItem) : bool := Before (qi_CreatedAt x) (qi_CreatedAt y).

Definition save (w : W) (s : QueueStore) : W * QueueStore * option string :=
  let items := sort_by by_created (range w (q_items s)) in
  let '(w', err) := write w items in
  (w', mkQueue (q_items s) (match err with None => Some items | Some _ => torn w items end), err).

(** [load], into an empty store: the error, or the items of the file. *)
Definition load (s : QueueStore) : option QueueStore :=
  (λ l, mkQueue (load_list qi_ID l) (q_file s)) <$> q_file s.

Definition set_item (it : QueueItem) (s : QueueStore) : QueueStore :=
  mkQueue (<[qi_ID it := it]> (q_items s)) (q_file s).

(** [Push]; [id] is the answer of [randomID]. *)
Definition Push (w : W) (id : string + string) (role : string) (payload : option (gmap string J)) (s : QueueStore) :
    W * QueueStore * (string + QueueItem) :=
  match id with
  | inl err => (w, s, inl err)
  | inr id =>
      let now := wall w in
      let it := mkItem id role (default ∅ payload) QueueStatePending "" zero_time now now zero_time "" None in
      let '(w, s, err) := save w (set_item it s) in
      (w, s, match err with None => inr it | Some e => inl e end)
  end.

(** An item whose claim has run out. *)
Definition lapsed (now : Time) (it : QueueItem) : bool :=
  bool_decide (qi_State it = QueueStateClaimed) && negb (IsZero (qi_LeaseExpiry it)) && After now (qi_LeaseExpiry it).

Definition candidate (now : Time) (role : string) (it : QueueItem) : bool :=
  String.eqb (qi_Role it) role && (bool_decide (qi_State it = QueueStatePending) || lapsed now it).

Definition lease_seconds (n : Z) : Z := if n <=? 0 then 300 else n.

Definition claim_item (now : Time) (claimedBy : string) (leaseSeconds : Z) (it : QueueItem) : QueueItem :=
  mkItem (qi_ID it) (qi_Role it) (qi_Payload it) QueueStateClaimed claimedBy
    (Add now (wrap64 (leaseSeconds * Second))) (qi_CreatedAt it) now (qi_CompletedAt it) (qi_Error it) (qi_Result it).

(** [Claim]: nothing, or the item with the error of the write. *)
Definition Claim (w : W) (role claimedBy : string) (leaseSeconds : Z) (s : QueueStore) :
    W * QueueStore * option (QueueItem * option string) :=
  let now := wall w in
  match sort_by by_created (filter (λ it, candidate now role it = true) (range w (q_items s))) with
  | [] => (w, s, None)
  | it :: _ =>
      let it := claim_item now claimedBy (lease_seconds leaseSeconds) it in
      let '(w, s, err) := save w (set_item it s) in (w, s, Some (it, err))
  end.

Inductive QueueError := NotFound (id : string) | NotClaimed (id : string) (st : QueueItemState) | SaveFailed (err : string).

Definition complete_item (now : Time) (result : option (gmap string J)) (it : QueueItem) : QueueItem :=
  mkItem (qi_ID it) (qi_Role it) (qi_Payload it) QueueStateComplete (qi_ClaimedBy it) zero_time
    (qi_CreatedAt it) now now (qi_Error it) (match result with Some r => Some r | None => qi_Result it end).

Definition fail_item (now : Time) (errMsg : string) (it : QueueItem) : QueueItem :=
  mkItem (qi_ID it) (qi_Role it) (qi_Payload it) QueueStateFailed (qi_ClaimedBy it) zero_time
    (qi_CreatedAt it) now (qi_CompletedAt it) errMsg (qi_Result it).

(** What [Complete] and [Fail] have in common. *)
Definition settle (w : W) (id : string) (f : QueueItem → QueueItem) (s : QueueStore) : W * QueueStore * option QueueError :=
  match q_items s !! id with
  | None => (w, s, Some (NotFound id))
  | Some it =>
      if bool_decide (qi_State it = QueueStateClaimed) then
        let '(w, s, err) := save w (mkQueue (<[id := f it]> (q_items s)) (q_file s)) in (w, s, SaveFailed <$> err)
      else (w, s, Some (NotClaimed id (qi_State it)))
  end.

Definition Complete (w : W) (id : string) (result : option (gmap string J)) (s : QueueStore) : W * QueueStore * option QueueError :=
  settle w id (complete_item (wall w) result) s.
Definition Fail_ (w : W) (id errMsg : string) (s : QueueStore) : W * QueueStore * option QueueError :=
  settle w id (fail_item (wall w) errMsg) s.

Definition ListItems (w : W) (role state : string) (s : QueueStore) : list QueueItem :=
  sort_by by_created
    (filter (λ it, (String.eqb role "" || String.eqb (qi_Role it) role)
                   && (String.eqb state "" || String.eqb (state_string (qi_State it)) state) = true)
       (range w (q_items s))).

Definition GetItem (id : string) (s : QueueStore) : option QueueItem := q_items s !! id.

Definition expire_item (now : Time) (it : QueueItem) : QueueItem :=
  if lapsed now it then
    mkItem (qi_ID it) (qi_Role it) (qi_Payload it) QueueStatePending "" zero_time
      (qi_CreatedAt it) now (qi_CompletedAt it) (qi_Error it) (qi_Result it)
  else it.

Definition ExpireLeases (w : W) (s : QueueStore) : W * QueueStore * Z :=
  let now := wall w in
  let n := count (λ _ it, lapsed now it) (q_items s) in
  let s := mkQueue (expire_item now <$> q_items s) (q_file s) in
  if 0 <? n then let '(w, s, _) := save w s in (w, s, n) else (w, s, n).

Definition DeleteItem (w : W) (id : string) (s : QueueStore) : W * QueueStore * option QueueError :=
  match q_items s !! id with
  | None => (w, s, Some (NotFound id))
  | Some _ => let '(w, s, err) := save w (mkQueue (delete id (q_items s)) (q_file s)) in (w, s, SaveFailed <$> err)
  end.
End queue.

Arguments QueueItem : clear implicits.
Arguments QueueStore : clear implicits.

(** * The session work queue: theorems

    Which item a claim hands out, that a held lease is exclusive, that a settled
    item stays settled, and that the file holds what memory holds. *)

#[local] Open Scope Z_scope.

Section theorems.
Context {J W : Type} `{!Disk W (QueueItem J), !DiskLaws W (QueueItem J)}.
Context (torn : W → list (QueueItem J) → option (list (QueueItem J))).

Inductive QueueOp :=
| QPush (id : string + string) (role : string) (payload : option (gmap string J))
| QClaim (role claimedBy : string) (leaseSeconds : Z)
| QComplete (id : string) (result : option (gmap string J))
| QFail (id errMsg : string)
| QExpire
| QDelete (id : string).

Definition qstep (s : QueueStore J) (wop : W * QueueOp) : QueueStore J :=
  let '(w, op) := wop in
  match op with
  | QPush id role payload => (Push torn w id role payload s).1.2
  | QClaim role claimedBy n => (Claim torn w role claimedBy n s).1.2
  | QComplete id r => (Complete torn w id r s).1.2
  | QFail id e => (Fail_ torn w id e s).1.2
  | QExpire => (ExpireLeases torn w s).1.2
  | QDelete id => (DeleteItem torn w id s).1.2
  end.

Definition empty_queue : QueueStore J := mkQueue ∅ (Some []).

Definition queue_writes_ok : Prop := ∀ w l, (write w l).2 = None.

Definition qsynced (s : QueueStore J) : Prop := load_list qi_ID <$> q_file s = Some (q_items s).

Lemma save_parts w s : q_items (save torn w s).1.2 = q_items s ∧
  (queue_writes_ok → keyed qi_ID (q_items s) → qsynced (save torn w s).1.2).
Proof.
  unfold save, qsynced. pose proof (range_perm w (q_items s)) as Hr. destruct (write w _) as [w' err] eqn:E. simpl. split; [done|].
  intros Hw Hk. specialize (Hw w (sort_by by_created (range w (q_items s)))). rewrite E in Hw. simpl in Hw. subst. simpl.
  f_equal. apply load_list_values; [done|]. by rewrite sort_by_perm.
Qed.

#[local] Instance by_created_weak : StrictWeak (by_created (J := J)).
Proof. exact (StrictWeak_key qi_CreatedAt). Qed.

(** The item a claim takes. *)
Lemma claim_cases w role by_ n s :
  keyed qi_ID (q_items s) →
  (Claim torn w role by_ n s = (w, s, None) ∧ ∀ k it, q_items s !! k = Some it → candidate (wall w) role it = false) ∨
  (∃ it err, (Claim torn w role by_ n s).2 = Some (claim_item (wall w) by_ (lease_seconds n) it, err) ∧
     (Claim torn w role by_ n s).1.2 = (save torn w (set_item (claim_item (wall w) by_ (lease_seconds n) it) s)).1.2 ∧
     q_items s !! qi_ID it = Some it ∧ candidate (wall w) role it = true ∧
     ∀ k it', q_items s !! k = Some it' → candidate (wall w) role it' = true → qi_CreatedAt it ≤ qi_CreatedAt it').
Proof.
  intros Hk. unfold Claim. set (cs := filter _ (range w (q_items s))).
  assert (∀ it, it ∈ cs ↔ candidate (wall w) role it = true ∧ q_items s !! qi_ID it = Some it) as Hcs.
  { intros it. subst cs. rewrite list_elem_of_filter, range_perm. by rewrite elem_of_keyed. }
  assert (∀ k it, q_items s !! k = Some it → candidate (wall w) role it = true → it ∈ cs) as Hin.
  { intros k it Hi Hc. apply Hcs. split; [done|]. by rewrite (Hk _ _ Hi). }
  destruct (sort_by by_created cs) as [|it rest] eqn:E.
  - left. split; [done|]. intros k it Hi. destruct (candidate _ _ _) eqn:Hc; [|done]. exfalso.
    assert (it ∈ sort_by by_created cs) as Hx by (apply elem_of_sort_by; by eapply Hin). rewrite E in Hx. by apply elem_of_nil in Hx.
  - right. destruct (save torn w _) as [[w' s'] err] eqn:Es. exists it, err. split; [done|]. split; [by rewrite Es|].
    assert (it ∈ cs) as Hit by (rewrite <- (elem_of_sort_by by_created), E; left). apply Hcs in Hit as [Hc Hl]. split_and!; [done..|].
    intros k it' Hi' Hc'. pose proof (Hin _ _ Hi' Hc') as Hx. rewrite <- (elem_of_sort_by by_created), E in Hx.
    apply list_elem_of_lookup in Hx as [[|j] Hj]; [simpl in Hj; simplify_eq; lia|].
    assert (by_created it' it = false) as Hb.
    { eapply (sort_by_before by_created cs 0 (S j)); [by rewrite E|by rewrite E|lia]. }
    unfold by_created, Before in Hb. bools. lia.
Qed.

(** When an operation leaves the item alone. *)
Definition spares (id : string) (it : QueueItem J) (wop : W * QueueOp) : Prop :=
  match wop.2 with
  | QPush (inr i) _ _ => i ≠ id
  | QPush (inl _) _ _ => True
  | QClaim role _ _ => candidate (wall wop.1) role it = false
  | QComplete i _ | QFail i _ => i ≠ id ∨ qi_State it ≠ QueueStateClaimed
  | QExpire => lapsed (wall wop.1) it = false
  | QDelete i => i ≠ id
  end.

Lemma settle_items w i f s :
  (∀ it, qi_ID (f it) = qi_ID it) → keyed qi_ID (q_items s) →
  keyed qi_ID (q_items (settle torn w i f s).1.2) ∧
  ∀ id it, q_items s !! id = Some it → i ≠ id ∨ qi_State it ≠ QueueStateClaimed → q_items (settle torn w i f s).1.2 !! id = Some it.
Proof.
  intros Hf Hk. unfold settle. destruct (q_items s !! i) as [it|] eqn:E; [|done]. case_bool_decide as Hst; [|done].
  destruct (save torn w _) as [[w' s'] err] eqn:Es. simpl.
  pose proof (save_parts w (mkQueue (<[i:=f it]> (q_items s)) (q_file s))) as [Hs _]. rewrite Es in Hs. simpl in Hs. rewrite Hs.
  assert (i = qi_ID (f it)) as -> by (rewrite Hf; symmetry; by apply Hk). split; [by apply keyed_insert|].
  intros id it' Hi [Hne|Hne]; [by rewrite lookup_insert_ne|].
  rewrite lookup_insert_ne; [done|]. intros <-. congruence.
Qed.

Lemma qstep_items s wop :
  keyed qi_ID (q_items s) →
  keyed qi_ID (q_items (qstep s wop)) ∧
  ∀ id it, q_items s !! id = Some it → spares id it wop → q_items (qstep s wop) !! id = Some it.
Proof.
  intros Hk. destruct wop as [w []]; unfold qstep, spares; simpl.
  - destruct id as [e|i]; simpl; [done|]. destruct (save torn w _) as [[w' s'] err] eqn:Es. simpl.
    match type of Es with save _ _ (set_item ?it s) = _ => pose proof (save_parts w (set_item it s)) as [Hs _] end.
    rewrite Es in Hs. simpl in Hs. rewrite Hs. split; [by apply keyed_set|]. intros id it Hi Hne. by rewrite lookup_insert_ne.
  - destruct (claim_cases w role claimedBy leaseSeconds s Hk) as [[-> _]|(it0&err&_&->&Hl&Hc&_)]; [done|].
    rewrite (proj1 (save_parts w _)). simpl. split; [by apply keyed_set|].
    intros id it Hi Hcand. rewrite lookup_insert_ne; [done|]. intros E. simplify_eq. congruence.
  - unfold Complete. by apply settle_items.
  - unfold Fail_. by apply settle_items.
  - assert (∀ k, q_items (ExpireLeases torn w s).1.2 !! k = expire_item (wall w) <$> q_items s !! k) as Hx.
    { intros k. rewrite <- lookup_fmap. unfold ExpireLeases. case_match; [|done].
      destruct (save torn w _) as [[w' s'] err] eqn:Es. simpl.
      pose proof (save_parts w (mkQueue (expire_item (wall w) <$> q_items s) (q_file s))) as [Hs _]. rewrite Es in Hs. simpl in Hs. by rewrite Hs. }
    assert (∀ it : QueueItem J, qi_ID (expire_item (wall w) it) = qi_ID it) as Hid by (intros it; unfold expire_item; by case_match). split.
    + intros k it. rewrite Hx. intros (it0&H0&->)%fmap_Some. rewrite Hid. by apply Hk.
    + intros id it Hi Hl. rewrite Hx, Hi. simpl. unfold expire_item. by rewrite Hl.
  - unfold DeleteItem. destruct (q_items s !! id) as [it0|] eqn:E; [|done].
    destruct (save torn w _) as [[w' s'] err] eqn:Es. simpl.
    pose proof (save_parts w (mkQueue (delete id (q_items s)) (q_file s))) as [Hs _]. rewrite Es in Hs. simpl in Hs. rewrite Hs.
    split; [by apply keyed_delete|]. intros id' it Hi Hne. by rewrite lookup_delete_ne.
Qed.

Lemma run_spares id it tr s :
  keyed qi_ID (q_items s) → q_items s !! id = Some it → (∀ wop, wop ∈ tr → spares id it wop) →
  q_items (foldl qstep s tr) !! id = Some it.
Proof.
  intros Hk Hi Htr. apply (foldl_invariant (λ s, keyed qi_ID (q_items s) ∧ q_items s !! id = Some it) qstep tr s); [|done].
  intros s' wop Hin [Hk' Hi']. destruct (qstep_items s' wop Hk') as [? H]. split; [done|]. by apply H, Htr.
Qed.

Lemma settle_synced w i f s :
  (∀ it, qi_ID (f it) = qi_ID it) → queue_writes_ok → keyed qi_ID (q_items s) → qsynced s → qsynced (settle torn w i f s).1.2.
Proof.
  intros Hf Hw Hk Hs. unfold settle. destruct (q_items s !! i) as [it|] eqn:E; [|done]. case_bool_decide; [|done].
  match goal with |- context [save torn w ?x] => pose proof (save_parts w x) as [_ H0]; destruct (save torn w x) as [[w' s'] err] end.
  apply H0; [done|]. assert (i = qi_ID (f it)) as -> by (rewrite Hf; symmetry; by apply Hk). by apply keyed_set.
Qed.

Lemma qstep_synced s wop : queue_writes_ok → keyed qi_ID (q_items s) → qsynced s → qsynced (qstep s wop).
Proof.
  intros Hw Hk Hs. destruct wop as [w []]; unfold qstep.
  - destruct id as [e|i]; simpl; [done|].
    match goal with |- context [save torn w ?x] => pose proof (save_parts w x) as [_ H]; destruct (save torn w x) as [[w' s'] err] end.
    apply H; [done|]. by apply keyed_set.
  - destruct (claim_cases w role claimedBy leaseSeconds s Hk) as [[-> _]|(it0&err&_&->&_)]; [done|].
    apply (proj2 (save_parts w _)); [done|]. by apply keyed_set.
  - by apply settle_synced.
  - by apply settle_synced.
  - unfold ExpireLeases. destruct (0 <? _) eqn:En.
    + match goal with |- context [save torn w ?x] => pose proof (save_parts w x) as [_ H]; destruct (save torn w x) as [[w' s'] err] end.
      apply H; [done|]. intros k it. simpl. rewrite lookup_fmap. intros (it0&H0&->)%fmap_Some.
      rewrite <- (Hk _ _ H0). unfold expire_item. by case_match.
    + simpl. unfold qsynced. simpl. rewrite Hs. f_equal. apply map_eq. intros k. rewrite lookup_fmap.
      destruct (q_items s !! k) as [it|] eqn:E; [|done]. simpl. f_equal. unfold expire_item.
      destruct (lapsed (wall w) it) eqn:El; [|done]. exfalso. bools.
      pose proof (count_pos (λ _ it, lapsed (wall w) it) (q_items s) k it E El). simpl in *. lia.
  - unfold DeleteItem. destruct (q_items s !! id) eqn:E; [|done].
    match goal with |- context [save torn w ?x] => pose proof (save_parts w x) as [_ H]; destruct (save torn w x) as [[w' s'] err] end.
    apply H; [done|]. by apply keyed_delete.
Qed.

(** ** Properties *)

(** A claim hands out the oldest item it may. It answers nothing, and
    changes nothing, exactly when no item of the role is pending or has let its
    lease lapse; otherwise it takes such an item, none of which is older, marks
    it claimed by the caller until a time that is still ahead, and touches no
    other. *)
Theorem claim_oldest (w : W) (role claimedBy : string) (leaseSeconds : Z) (s : QueueStore J) :
  keyed qi_ID (q_items s) → in_int64 (leaseSeconds * Second) →
  match (Claim torn w role claimedBy leaseSeconds s).2 with
  | None => (Claim torn w role claimedBy leaseSeconds s).1.2 = s ∧
      ∀ k it, q_items s !! k = Some it → candidate (wall w) role it = false
  | Some (it', _) => ∃ it, q_items s !! qi_ID it = Some it ∧ candidate (wall w) role it = true ∧
      (∀ k x, q_items s !! k = Some x → candidate (wall w) role x = true → qi_CreatedAt it ≤ qi_CreatedAt x) ∧
      qi_ID it' = qi_ID it ∧ qi_Role it' = role ∧ qi_State it' = QueueStateClaimed ∧ qi_ClaimedBy it' = claimedBy ∧
      wall w < qi_LeaseExpiry it' ∧
      q_items (Claim torn w role claimedBy leaseSeconds s).1.2 = <[qi_ID it := it']> (q_items s)
  end.
Proof.
  intros Hk Hl. destruct (claim_cases w role claimedBy leaseSeconds s Hk) as [[-> H]|(it&err&->&->&Hi&Hc&Hold)]; [done|].
  exists it. unfold claim_item at 3 4. simpl. split_and!; try done.
  - unfold candidate in Hc. by bools.
  - unfold Add, lease_seconds. assert (0 < wrap64 ((if leaseSeconds <=? 0 then 300 else leaseSeconds) * Second)); [|lia].
    destruct (Z.leb_spec leaseSeconds 0); [by vm_compute|]. rewrite wrap64_id by done. unfold Second. lia.
  - by rewrite (proj1 (save_parts w _)).
Qed.

(** C35: a lease is exclusive while it lasts. An item claimed until a deadline is
    exactly as it was, same claimant, after any sequence of pushes (under other
    ids), claims, expiry passes and operations on other items whose clock
    readings do not pass the deadline. *)
Theorem lease_exclusive (s : QueueStore J) (id : string) (it : QueueItem J) (tr : list (W * QueueOp)) :
  keyed qi_ID (q_items s) → q_items s !! id = Some it → qi_State it = QueueStateClaimed →
  (∀ wop, wop ∈ tr → wall wop.1 ≤ qi_LeaseExpiry it ∧
     match wop.2 with QPush (inr i) _ _ | QComplete i _ | QFail i _ | QDelete i => i ≠ id | _ => True end) →
  q_items (foldl qstep s tr) !! id = Some it.
Proof.
  intros Hk Hi Hst Htr. apply run_spares; [done..|]. intros [w op] Hin. destruct (Htr _ Hin) as [Hw Hop]. unfold spares. simpl in *.
  assert (lapsed (wall w) it = false) as Hl.
  { unfold lapsed, After. assert (qi_LeaseExpiry it <? wall w = false) as -> by (apply Z.ltb_ge; lia). by rewrite andb_false_r. }
  destruct op as [[]| | | | |]; auto. unfold candidate. rewrite Hl, bool_decide_eq_false_2 by (by rewrite Hst). by rewrite andb_false_r.
Qed.

(** An item is settled once. When an item is complete or failed, no claim,
    expiry, completion or failure, at any time, changes it again. *)
Theorem settled_final (s : QueueStore J) (id : string) (it : QueueItem J) (tr : list (W * QueueOp)) :
  keyed qi_ID (q_items s) → q_items s !! id = Some it →
  qi_State it = QueueStateComplete ∨ qi_State it = QueueStateFailed →
  (∀ wop, wop ∈ tr → match wop.2 with QPush (inr i) _ _ | QDelete i => i ≠ id | _ => True end) →
  q_items (foldl qstep s tr) !! id = Some it.
Proof.
  intros Hk Hi Hst Htr. apply run_spares; [done..|]. intros [w op] Hin. pose proof (Htr _ Hin) as Hop. unfold spares. simpl in *.
  assert (qi_State it ≠ QueueStateClaimed ∧ qi_State it ≠ QueueStatePending) as [Hc Hp] by (split; intros E; rewrite E in Hst; by destruct Hst).
  assert (lapsed (wall w) it = false) as Hl by (unfold lapsed; by rewrite bool_decide_eq_false_2).
  destruct op as [[]| | | | |]; auto. unfold candidate. rewrite Hl, bool_decide_eq_false_2 by done. by rewrite andb_false_r.
Qed.

(** The queue is durable. While writes succeed, loading the file after any
    sequence of operations on a new queue gives exactly the items in memory,
    each under its own id. *)
Theorem queue_durable (tr : list (W * QueueOp)) :
  queue_writes_ok →
  q_items <$> load (foldl qstep empty_queue tr) = Some (q_items (foldl qstep empty_queue tr)) ∧
  keyed qi_ID (q_items (foldl qstep empty_queue tr)).
Proof.
  intros Hw. assert (keyed qi_ID (q_items (foldl qstep empty_queue tr)) ∧ qsynced (foldl qstep empty_queue tr)) as [Hk Hs].
  { apply (foldl_invariant (λ s, keyed qi_ID (q_items s) ∧ qsynced s)).
    - intros s wop _ [Hk Hs]. split; [by apply qstep_items|by apply qstep_synced].
    - split; [apply keyed_empty|done]. }
  split; [|done]. unfold load, qsynced in *. rewrite <- Hs. by destruct (q_file (foldl qstep empty_queue tr)).
Qed.
End theorems.

(** ** Examples *)

#[local] Instance demo_queue_disk : Disk Z (QueueItem nat) := {
  wall w := w;
  range w m := (map_to_list m).*2;
  write w l := (w, None)
}.
#[local] Instance demo_queue_laws : DiskLaws Z (QueueItem nat).
Proof. split. done. Qed.
Definition no_torn (w : Z) (l : list (QueueItem nat)) : option (list (QueueItem nat)) := None.

(** Two items of a role, pushed at 10 and 11, the older claimed at 20. *)
Definition demo_queue_trace : list (Z * QueueOp (J := nat)) :=
  [(10, QPush (inr "a") "worker" None); (11, QPush (inr "b") "worker" None); (20, QClaim "worker" "s1" 60)].
Definition demo_queue : QueueStore nat := foldl (qstep no_torn) empty_queue demo_queue_trace.

Lemma demo_queue_ok : queue_writes_ok (W := Z) (J := nat).
Proof. intros w l. reflexivity. Defined.
Lemma queue_durable_witness :
  q_items <$> load (foldl (qstep no_torn) empty_queue demo_queue_trace) =
    Some (q_items (foldl (qstep no_torn) empty_queue demo_queue_trace)).
Proof. exact (proj1 (queue_durable no_torn demo_queue_trace demo_queue_ok)). Defined.

Definition demo_item : QueueItem nat :=
  mkItem "a" "worker" ∅ QueueStateClaimed "s1" (20 + 60 * Second) 10 20 zero_time "" None.

Lemma demo_held : q_items demo_queue !! "a" = Some demo_item.
Proof. vm_compute. reflexivity. Qed.

Lemma demo_keyed : keyed qi_ID (q_items demo_queue).
Proof.
  intros k r H. assert (Forall (λ kv : string * QueueItem nat, qi_ID kv.2 = kv.1) (map_to_list (q_items demo_queue))) as HF.
  { apply (bool_decide_unpack _). vm_compute. exact I. }
  rewrite Forall_forall in HF. apply (HF (k, r)). by apply elem_of_map_to_list.
Qed.

Lemma claim_oldest_witness :
  ∃ it, q_items demo_queue !! qi_ID it = Some it ∧ qi_ID it = "b" ∧ candidate 30 "worker" it = true.
Proof.
  assert (in_int64 (60 * Second)) as Hr by (vm_compute; split; discriminate).
  pose proof (claim_oldest no_torn 30 "worker" "s2" 60 demo_queue demo_keyed Hr) as H.
  assert ((λ r : QueueItem nat * option string, qi_ID r.1) <$> (Claim no_torn 30 "worker" "s2" 60 demo_queue).2 = Some "b") as E by (vm_compute; reflexivity).
  destruct ((Claim no_torn 30 "worker" "s2" 60 demo_queue).2) as [[it' e]|]; [|discriminate E].
  destruct H as (it&Hi&Hc&_&Hid&_). injection E as E. exists it. rewrite <- Hid, E. rewrite <- E, Hid. split; [exact Hi|]. split; [reflexivity|exact Hc].
Defined.

Lemma lease_exclusive_witness :
  q_items (foldl (qstep no_torn) demo_queue [(30, QClaim "worker" "s2" 60); (31, QExpire); (32, QClaim "worker" "s3" 60)]) !! "a"
    = Some demo_item.
Proof.
  apply (lease_exclusive no_torn demo_queue "a" demo_item); [exact demo_keyed|exact demo_held|reflexivity|].
  apply Forall_forall. repeat constructor; vm_compute; discriminate.
Defined.

Definition demo_settled : QueueStore nat := qstep no_torn demo_queue (40, QComplete "a" None).
Definition demo_done : QueueItem nat := complete_item 40 None demo_item.

Lemma settled_final_witness :
  q_items (foldl (qstep no_torn) demo_settled [(1000 * Hour, QClaim "worker" "s2" 60); (1000 * Hour, QFail "a" "late")]) !! "a" = Some demo_done.
Proof.
  apply (settled_final no_torn demo_settled "a" demo_done).
  - apply (proj1 (qstep_items no_torn demo_queue (40, QComplete "a" None) demo_keyed)).
  - vm_compute. reflexivity.
  - left. reflexivity.
  - apply Forall_forall. repeat constructor.
Defined.

(** The claimant is not checked: after its lease lapsed and the item went to
    another session, the first session's report still settles it. *)
Example stale_worker_completes :
  let s := foldl (qstep no_torn) demo_queue [(2 * Minute, QClaim "worker" "s2" 60)] in
  (λ it, (qi_ClaimedBy it, qi_State it)) <$> q_items s !! "a" = Some ("s2", QueueStateClaimed) ∧
  (Complete no_torn (2 * Minute + 1) "a" None s).2 = None.
Proof. vm_compute. done. Qed.
