(* ===== verification/OfflineQueue.v ===== *)
(** * The offline command queue

    internal/proxy/queue.go: commands for unreachable servers, queued per server
    and replayed when the server is healthy again. The lock is not held while a
    command is dispatched, so a replay is a machine of three steps (take the
    queue, dispatch the next command, put the rest back on an error) that
    [Enqueue] may come between. [Pool.IsHealthy] and the dispatcher belong to
    the class [Remote].

    Also: the offline command queue: theorems. *)

From S2P Require Import Prelude GoBase.

#[local] Open Scope Z_scope.

Record QueuedCommand := mkCmd { qc_ServerName : string; qc_Text : string; qc_QueuedAt : Time }.

Class Remote (W : Type) := {
  rclock : W → Time;
  IsHealthy : W → string → bool;
  dispatch : W → string → string → W * option string
}.

(** The queues; the replay under way, if any (its server, the commands not
    dispatched yet, how many were); and what has been delivered, in order. *)
Record OfflineQueue := mkOQ {
  oq_queues : gmap string (list QueuedCommand);
  oq_replay : option (string * list QueuedCommand * Z);
  oq_delivered : list QueuedCommand;
  oq_notes : list (string * Z)
}.

Definition NewOfflineQueue : OfflineQueue := mkOQ ∅ None [] [].

Definition queue_max (maxSize : Z) : Z := if maxSize <=? 0 then 100 else maxSize.

Definition queue_of (q : OfflineQueue) (name : string) : list QueuedCommand := default [] (oq_queues q !! name).

Section offline.
Context {W : Type} `{!Remote W} (maxSize : Z).

Definition Enqueue (w : W) (serverName text : string) (q : OfflineQueue) : OfflineQueue * option string :=
  let cmds := queue_of q serverName in
  let n := Z.of_nat (length cmds) in
  if queue_max maxSize <=? n then
    (q, Some ("offline queue full for server " +:+ serverName +:+ " (" +:+ fmt_d n +:+ "/" +:+ fmt_d (queue_max maxSize) +:+ ")"))
  else
    (mkOQ (<[serverName := cmds ++ [mkCmd serverName text (rclock w)]]> (oq_queues q)) (oq_replay q) (oq_delivered q) (oq_notes q), None).

Definition Pending (name : string) (q : OfflineQueue) : Z := Z.of_nat (length (queue_of q name)).

Definition PendingAll (q : OfflineQueue) : gmap string Z :=
  omap (λ cmds, match cmds with [] => None | _ => Some (Z.of_nat (length cmds)) end) (oq_queues q).

(** Which servers a pass replays, in the order [range] visits the map. *)
Definition ready_servers (w : W) (names : list string) (q : OfflineQueue) : list string :=
  filter (λ name, bool_decide (queue_of q name ≠ []) && IsHealthy w name = true) names.

(** [replayServer], up to its first unlock. *)
Definition take_all (name : string) (q : OfflineQueue) : OfflineQueue :=
  match queue_of q name with
  | [] => q
  | cmds => mkOQ (<[name := []]> (oq_queues q)) (Some (name, cmds, 0)) (oq_delivered q) (oq_notes q)
  end.

(** One turn of the loop over the commands taken, or its end. *)
Definition replay_next (w : W) (q : OfflineQueue) : W * OfflineQueue :=
  match oq_replay q with
  | None => (w, q)
  | Some (name, [], replayed) =>
      (w, mkOQ (oq_queues q) None (oq_delivered q)
            (if 0 <? replayed then oq_notes q ++ [(name, replayed)] else oq_notes q))
  | Some (name, cmd :: rest, replayed) =>
      let '(w, err) := dispatch w (qc_ServerName cmd) (qc_Text cmd) in
      match err with
      | Some _ => (w, mkOQ (<[name := queue_of q name ++ cmd :: rest]> (oq_queues q)) None (oq_delivered q) (oq_notes q))
      | None => (w, mkOQ (oq_queues q) (Some (name, rest, replayed + 1)) (oq_delivered q ++ [cmd]) (oq_notes q))
      end
  end.

(** The loop itself, with nothing in between: a turn per command and one to end. *)
Fixpoint replay_turns (fuel : nat) (w : W) (q : OfflineQueue) : W * OfflineQueue :=
  match fuel with
  | O => (w, q)
  | S f => let '(w, q) := replay_next w q in replay_turns f w q
  end.

Definition replayServer (w : W) (name : string) (q : OfflineQueue) : W * OfflineQueue :=
  replay_turns (S (length (queue_of q name))) w (take_all name q).

Definition tryReplay (w : W) (names : list string) (q : OfflineQueue) : W * OfflineQueue :=
  foldl (λ acc name, replayServer acc.1 name acc.2) (w, q) (ready_servers w names q).

(** ** Interleavings

    One replay loop runs; [Enqueue] comes from anywhere. [accepted] lists the
    commands [Enqueue] took, in order. *)
Inductive qevent := EvEnqueue (w : W) (name text : string) | EvTake (name : string) | EvNext (w : W).

Definition qmove (acc : OfflineQueue * list QueuedCommand) (e : qevent) : OfflineQueue * list QueuedCommand :=
  let '(q, accepted) := acc in
  match e with
  | EvEnqueue w name text =>
      match Enqueue w name text q with
      | (q, Some _) => (q, accepted)
      | (q, None) => (q, accepted ++ [mkCmd name text (rclock w)])
      end
  | EvTake name => match oq_replay q with None => (take_all name q, accepted) | Some _ => (q, accepted) end
  | EvNext w => ((replay_next w q).2, accepted)
  end.
Definition qrun (es : list qevent) : OfflineQueue * list QueuedCommand := foldl qmove (NewOfflineQueue, []) es.
End offline.

(** * The offline command queue: theorems

    No accepted command is lost or delivered twice, whatever fails and however
    [Enqueue] falls between the steps of a replay; without failures commands are
    delivered in the order they were accepted; and a replay ends. *)

#[local] Open Scope Z_scope.

Definition for_server (name : string) (cmds : list QueuedCommand) : list QueuedCommand :=
  filter (λ c, qc_ServerName c = name) cmds.

(** The commands of a server that a replay has taken and not dispatched yet. *)
Definition in_flight (q : OfflineQueue) (name : string) : list QueuedCommand :=
  match oq_replay q with
  | Some (n, cmds, _) => if String.eqb n name then cmds else []
  | None => []
  end.

Section theorems.
Context {W : Type} `{!Remote W} (maxSize : Z).

Abbreviation qrun := (qrun (W := W) maxSize).
Abbreviation qmove := (qmove (W := W) maxSize).

(** Everything a server's queue or replay holds is for that server. *)
Definition own (q : OfflineQueue) : Prop :=
  ∀ name c, c ∈ queue_of q name ∨ c ∈ in_flight q name → qc_ServerName c = name.

Lemma for_server_all name cmds : (∀ c, c ∈ cmds → qc_ServerName c = name) → for_server name cmds = cmds.
Proof.
  unfold for_server. induction cmds as [|c cs IH]; intros H; [done|].
  rewrite filter_cons_True by (apply H; left). f_equal. apply IH. intros x Hx. apply H. by right.
Qed.

Lemma for_server_none name name' cmds : name ≠ name' → (∀ c, c ∈ cmds → qc_ServerName c = name') → for_server name cmds = [].
Proof.
  unfold for_server. induction cmds as [|c cs IH]; intros Hne H; [done|].
  rewrite filter_cons_False; [|rewrite (H c) by left; congruence]. apply IH; [done|]. intros x Hx. apply H. by right.
Qed.

Lemma queue_of_insert name cmds r d n q name' :
  queue_of (mkOQ (<[name := cmds]> (oq_queues q)) r d n) name' = if decide (name' = name) then cmds else queue_of q name'.
Proof.
  unfold queue_of. simpl. case_decide; [subst; by rewrite lookup_insert_eq|by rewrite lookup_insert_ne].
Qed.

(** What is delivered, in flight and queued for a server is what was accepted
    for it: as a multiset always, and in order when [ordered]. *)
Record accounted (ordered : bool) (q : OfflineQueue) (accepted : list QueuedCommand) : Prop := {
  ac_own : own q;
  ac_perm name : for_server name accepted ≡ₚ for_server name (oq_delivered q) ++ in_flight q name ++ queue_of q name;
  ac_order : ordered = true → ∀ name, for_server name accepted = for_server name (oq_delivered q) ++ in_flight q name ++ queue_of q name
}.

Definition delivers (e : qevent (W := W)) : Prop :=
  match e with EvNext w => ∀ s t, (dispatch w s t).2 = None | _ => True end.

Lemma enqueue_accounted b w name text q acc :
  accounted b q acc → accounted b (qmove (q, acc) (EvEnqueue w name text)).1 (qmove (q, acc) (EvEnqueue w name text)).2.
Proof.
  intros [Ho Hp Hord]. unfold OfflineQueue.qmove, Enqueue. destruct (_ <=? _); [done|]. simpl.
  set (c := mkCmd name text (rclock w)).
  assert (∀ name', for_server name' (acc ++ [c]) = for_server name' acc ++ (if decide (name' = name) then [c] else [])) as Hacc.
  { intros name'. unfold for_server. rewrite filter_app. f_equal. rewrite filter_cons, filter_nil. simpl.
    repeat case_decide; try done; congruence. }
  split.
  - intros name' x. rewrite queue_of_insert. unfold in_flight. simpl. case_decide as E; [subst|apply Ho].
    rewrite elem_of_app, list_elem_of_singleton. intros [[H| ->]|H]; [apply Ho; by left|done|apply Ho; by right].
  - intros name'. rewrite Hacc, queue_of_insert. rewrite Hp. unfold in_flight. simpl. case_decide as E; [subst|by rewrite app_nil_r].
    by rewrite <- !app_assoc.
  - intros Hb name'. rewrite Hacc, queue_of_insert. rewrite (Hord Hb). unfold in_flight. simpl. case_decide as E; [subst|by rewrite app_nil_r].
    by rewrite <- !app_assoc.
Qed.

Lemma take_accounted b name q acc :
  oq_replay q = None → accounted b q acc → accounted b (take_all name q) acc.
Proof.
  intros Hr [Ho Hp Hord]. unfold take_all. destruct (queue_of q name) as [|c cs] eqn:Eq; [done|].
  assert (∀ name', in_flight q name' = []) as Hno by (intros name'; unfold in_flight; by rewrite Hr).
  assert (∀ name', in_flight (mkOQ (<[name:=[]]> (oq_queues q)) (Some (name, c :: cs, 0)) (oq_delivered q) (oq_notes q)) name' ++
    queue_of (mkOQ (<[name:=[]]> (oq_queues q)) (Some (name, c :: cs, 0)) (oq_delivered q) (oq_notes q)) name' =
    in_flight q name' ++ queue_of q name') as Hsame.
  { intros name'. rewrite queue_of_insert, Hno. unfold in_flight. simpl. destruct (String.eqb_spec name name') as [<-|Hne].
    - rewrite decide_True by done. by rewrite app_nil_r, Eq.
    - by rewrite decide_False. }
  split.
  - intros name' x Hx. assert (x ∈ in_flight q name' ++ queue_of q name') as [?|?]%elem_of_app;
      [rewrite <- Hsame; apply elem_of_app; tauto|apply Ho; by right|apply Ho; by left].
  - intros name'. rewrite Hsame. apply Hp.
  - intros Hb name'. rewrite Hsame. by apply Hord.
Qed.

Lemma next_accounted b w q acc :
  (b = true → ∀ s t, (dispatch w s t).2 = None) → accounted b q acc → accounted b (replay_next w q).2 acc.
Proof.
  intros Hb [Ho Hp Hord]. unfold replay_next. destruct (oq_replay q) as [[[name [|c cs]] n]|] eqn:Er; [| |done].
  - assert (∀ name', in_flight q name' = []) as Hno by (intros name'; unfold in_flight; rewrite Er; by destruct (String.eqb name name')).
    split; [intros name' x Hx; apply Ho; by destruct Hx as [?|?%elem_of_nil]; [left|]|..]; unfold in_flight; simpl.
    + intros name'. rewrite (Hp name'), Hno. done.
    + intros E name'. rewrite (Hord E name'), Hno. done.
  - assert (∀ name', in_flight q name' = if String.eqb name name' then c :: cs else []) as Hin by (intros name'; unfold in_flight; by rewrite Er).
    assert (∀ x, x ∈ c :: cs → qc_ServerName x = name) as Hown.
    { intros x Hx. apply Ho. right. by rewrite Hin, String.eqb_refl. }
    destruct (dispatch w (qc_ServerName c) (qc_Text c)) as [w' [e|]] eqn:Ed; simpl.
    + split.
      * intros name' x. rewrite queue_of_insert. unfold in_flight. simpl. intros [Hx|Hx%elem_of_nil]; [|done]. case_decide; [subst|apply Ho; by left].
        apply elem_of_app in Hx as [Hx|Hx]; [apply Ho; by left|by apply Hown].
      * intros name'. rewrite (Hp name'), Hin, queue_of_insert. unfold in_flight. simpl. apply Permutation_app; [done|].
        destruct (String.eqb_spec name name') as [<-|Hne]; [rewrite decide_True by done; by rewrite Permutation_app_comm|by rewrite decide_False].
      * intros E. exfalso. specialize (Hb E (qc_ServerName c) (qc_Text c)). by rewrite Ed in Hb.
    + assert (∀ name', for_server name' (oq_delivered q ++ [c]) ++ (if String.eqb name name' then cs else []) =
        for_server name' (oq_delivered q) ++ in_flight q name') as Hmove.
      { intros name'. rewrite Hin. unfold for_server. rewrite filter_app, filter_cons, filter_nil. simpl.
        assert (qc_ServerName c = name) as -> by (apply Hown; left).
        destruct (String.eqb_spec name name') as [->|Hne]; [rewrite decide_True by done|rewrite decide_False by done]; by rewrite <- ?app_assoc, ?app_nil_r. }
      split; unfold in_flight; simpl.
      * intros name' x [Hx|Hx]; [apply Ho; by left|]. unfold in_flight in Hx. simpl in Hx. destruct (String.eqb_spec name name') as [<-|]; [|by apply elem_of_nil in Hx].
        apply Hown. by right.
      * intros name'. rewrite (Hp name'), !app_assoc, Hmove. done.
      * intros E name'. rewrite (Hord E name'), !app_assoc, Hmove. done.
Qed.

Lemma qrun_accounted b es :
  (b = true → ∀ e, e ∈ es → delivers e) → accounted b (qrun es).1 (qrun es).2.
Proof.
  intros Hb. unfold OfflineQueue.qrun. apply (foldl_invariant (λ acc, accounted b acc.1 acc.2)).
  - intros [q acc] e He HI. destruct e as [w name text|name|w].
    + by apply enqueue_accounted.
    + simpl. destruct (oq_replay q) eqn:Er; [done|]. simpl. by apply take_accounted.
    + simpl. apply next_accounted; [|done]. intros E. apply (Hb E (EvNext w) He).
  - split; [|done|done]. intros name c [H|H]; by apply elem_of_nil in H.
Qed.

(** ** Properties *)

(** C40: no command is lost or delivered twice. Whatever dispatches fail, and
    wherever Enqueue falls between the steps of a replay, the commands accepted
    for a server are, counted with repetition, those delivered to it, those a
    replay holds and those still queued. *)
Theorem no_command_lost (es : list (qevent (W := W))) (name : string) :
  for_server name (qrun es).2 ≡ₚ for_server name (oq_delivered (qrun es).1) ++ in_flight (qrun es).1 name ++ queue_of (qrun es).1 name.
Proof. by apply (ac_perm false), qrun_accounted. Qed.

(** Without a failed dispatch a server is sent its commands in the order
    they were accepted, and what is left is queued in that order. *)
Theorem replay_in_order (es : list (qevent (W := W))) (name : string) :
  (∀ e, e ∈ es → delivers e) →
  for_server name (qrun es).2 = for_server name (oq_delivered (qrun es).1) ++ in_flight (qrun es).1 name ++ queue_of (qrun es).1 name.
Proof. intros H. apply (ac_order true); [|done]. by apply qrun_accounted. Qed.

Lemma replay_turns_ends fuel w q name cs n :
  oq_replay q = Some (name, cs, n) → (length cs < fuel)%nat → oq_replay (replay_turns fuel w q).2 = None.
Proof.
  revert w q cs n. induction fuel as [|f IH]; intros w q cs n Hr Hf; [lia|]. cbn [replay_turns]. unfold replay_next. rewrite Hr.
  assert (∀ w q, oq_replay q = None → oq_replay (replay_turns f w q).2 = None) as Hidle.
  { clear. induction f as [|f IH]; intros w q H; [done|]. cbn [replay_turns]. unfold replay_next. rewrite H. by apply IH. }
  destruct cs as [|c cs]; [by apply Hidle|]. destruct (dispatch _ _ _) as [w' [e|]]; [by apply Hidle|].
  eapply IH; [done|]. simpl in Hf. lia.
Qed.

(** A replay ends: one turn per command taken and one more leave no replay
    under way, and a pass over the servers leaves none either. *)
Theorem replay_ends (w : W) (names : list string) (q : OfflineQueue) :
  oq_replay q = None → oq_replay (tryReplay w names q).2 = None.
Proof.
  intros H. unfold tryReplay. apply (foldl_invariant (λ acc : W * OfflineQueue, oq_replay acc.2 = None)); [|done].
  intros [w1 q1] name _ H1. simpl in *. unfold replayServer, take_all. destruct (queue_of q1 name) as [|c cs] eqn:E.
  - cbn [replay_turns length]. unfold replay_next. by rewrite H1.
  - eapply replay_turns_ends; [done|]. simpl. lia.
Qed.
End theorems.

(** ** Examples *)

(** A server that refuses when the world is 0. *)
#[local] Instance demo_remote : Remote Z := {
  rclock w := w;
  IsHealthy w name := true;
  dispatch w s t := (w, if w =? 0 then Some "refused" else None)
}.

Lemma replay_in_order_witness :
  qc_Text <$> oq_delivered (qrun 10 [EvEnqueue 1 "s" "a"; EvEnqueue 2 "s" "b"; EvTake "s"; EvNext 3; EvEnqueue 4 "s" "c"; EvNext 5]).1 = ["a"; "b"] ∧
  for_server "s" (qrun 10 [EvEnqueue 1 "s" "a"; EvEnqueue 2 "s" "b"; EvTake "s"; EvNext 3; EvEnqueue 4 "s" "c"; EvNext 5]).2 =
    [mkCmd "s" "a" 1; mkCmd "s" "b" 2; mkCmd "s" "c" 4].
Proof.
  split; [vm_compute; reflexivity|].
  rewrite (replay_in_order 10 [EvEnqueue 1 "s" "a"; EvEnqueue 2 "s" "b"; EvTake "s"; EvNext 3; EvEnqueue 4 "s" "c"; EvNext 5] "s").
  - vm_compute. reflexivity.
  - apply Forall_forall. repeat constructor.
Defined.

Lemma replay_ends_witness : oq_replay (tryReplay (1 : Z) ["s"] (qrun 10 [EvEnqueue (1 : Z) "s" "a"]).1).2 = None.
Proof. apply (replay_ends 1 ["s"]). reflexivity. Defined.

(** A command accepted while a replay is failing is sent before the older ones
    the replay puts back. *)
Example requeue_reorders :
  queue_of (qrun 10 [EvEnqueue 1 "s" "a"; EvTake "s"; EvEnqueue 2 "s" "b"; EvNext 0]).1 "s" = [mkCmd "s" "b" 2; mkCmd "s" "a" 1].
Proof. vm_compute. reflexivity. Qed.

(** Commands put back are not counted against the bound: here two with a bound
    of one. *)
Example requeue_over_bound :
  Pending "s" (qrun 1 [EvEnqueue 1 "s" "a"; EvTake "s"; EvEnqueue 2 "s" "b"; EvNext 0]).1 = 2.
Proof. vm_compute. reflexivity. Qed.
