(* ===== verification/TreeLock.v ===== *)
(** * The advisory tree lock

    internal/autonomous/tree_lock.go from the lock record down: acquiring,
    reclaiming and releasing the lock file of one tree, as a machine of the file
    operations the code makes. Between two of them any other acquirer may run;
    [reclaimMu] is the only lock. Each acquirer is known by its task id. The file
    is an inode that a create makes and a remove unlinks; a record is written
    into the inode created, wherever the path points by then. Every file operation
    may fail instead ([Io]).

    Also: the advisory tree lock: theorems. *)

From S2P Require Import Prelude GoBase.

#[local] Open Scope Z_scope.

Inductive TaskStatus :=
| TaskPending | TaskQueued | TaskInProgress | TaskRunningTests | TaskVerifying | TaskCompleted | TaskFailed
| TaskBlocked | TaskCancelled | TaskWaitingCapacity | TaskWaitingDecision | TaskAwaitingApproval | TaskReviewNeeded.

#[global] Instance TaskStatus_eq_dec : EqDecision TaskStatus.
Proof. solve_decision. Defined.

Record LockRecord := mkRec {
  lr_HolderTaskID : string;
  lr_HolderPRDID : string;
  lr_AcquiredAt : Z;
  lr_PID : Z;
  lr_Note : string
}.

Definition defaultTreeLockPoll : Duration := 5 * Second.
Definition maxStaleReclaimAttempts : nat := 3.
Definition staleLockGrace : Duration := 30 * Second.

Definition isTerminalTaskStatus (st : TaskStatus) : bool :=
  match st with TaskFailed | TaskCancelled | TaskCompleted => true | _ => false end.

(** The file at the path: its inode, what it reads as ([None]: empty or not a
    record), and when it was last written. *)
Record LockFile := mkFile { lf_inode : nat; lf_rec : option LockRecord; lf_mtime : Time }.

(** [treeLockStale]: [file] is what [os.Stat] finds, [rec] what was read before. *)
Definition treeLockStale (now : Time) (file : option LockFile) (rec : option LockRecord)
    (taskStatus : option (string → option TaskStatus)) : bool :=
  let by_age := match file with None => true | Some f => staleLockGrace <? now - lf_mtime f end in
  match rec with
  | None => by_age
  | Some r =>
      if String.eqb (lr_HolderTaskID r) "" then by_age
      else match taskStatus with
           | None => true
           | Some status => match status (lr_HolderTaskID r) with
                            | None => true
                            | Some st => isTerminalTaskStatus st
                            end
           end
  end.

(** The re-check of [removeStaleLock]. *)
Definition same_lock (cur observed : LockRecord) : bool :=
  String.eqb (lr_HolderTaskID cur) (lr_HolderTaskID observed) && (lr_AcquiredAt cur =? lr_AcquiredAt observed)
  && (lr_PID cur =? lr_PID observed).

Definition TreeLockWaitText (key holderTaskID holderPRDID : string) (acquiredAt : Z) : string :=
  if String.eqb holderTaskID "" then "tree lock: " +:+ key +:+ " held by unknown holder (record unreadable)"
  else
    let since := if 0 <? acquiredAt then FormatRFC3339 (acquiredAt * Second) else "unknown time" in
    "tree lock: " +:+ key +:+ " held by task " +:+ holderTaskID +:+ " (PRD " +:+ holderPRDID +:+ ") since " +:+ since.

Definition treeWaitReason (key : string) (rec : option LockRecord) : string :=
  match rec with
  | None => TreeLockWaitText key "" "" 0
  | Some r => TreeLockWaitText key (lr_HolderTaskID r) (lr_HolderPRDID r) (lr_AcquiredAt r)
  end.

(** Where an acquirer stands. *)
Inductive PC :=
| Trying                                  (* about to create the file *)
| Making                                  (* that failed: about to make the directory and create it once more *)
| Writing (inode : nat) (again : bool)    (* created, record not written; [again]: after [Making] *)
| Unmaking (inode : nat) (again : bool)   (* the write or the close failed: about to remove the path *)
| Reading                                 (* the file exists; about to read it *)
| Judging (obs : option LockRecord)       (* about to ask whether it is stale *)
| Removing (obs : option LockRecord)      (* about to take reclaimMu *)
| Deleting                                (* in removeStaleLock, about to remove *)
| Waiting
| Held
| Releasing.                              (* record checked, about to remove *)

(** [th_rec] is the record it writes, [th_count] its [reclaimCount]. *)
Record Thread := mkThread { th_rec : LockRecord; th_count : nat; th_pc : PC }.

Record LockSys := mkSys {
  ls_now : Time;
  ls_file : option LockFile;
  ls_next : nat;
  ls_status : option (gmap string TaskStatus);
  ls_threads : gmap string Thread;
  ls_reclaimMu : option string
}.

(** The [taskStatus] hook. *)
Definition status_hook (s : LockSys) : option (string → option TaskStatus) :=
  (λ m id, m !! id) <$> ls_status s.

Definition set_lockfile (f : option LockFile) (s : LockSys) : LockSys :=
  mkSys (ls_now s) f (ls_next s) (ls_status s) (ls_threads s) (ls_reclaimMu s).
Definition set_mu (m : option string) (s : LockSys) : LockSys :=
  mkSys (ls_now s) (ls_file s) (ls_next s) (ls_status s) (ls_threads s) m.
Definition set_thread (h : string) (t : Thread) (s : LockSys) : LockSys :=
  mkSys (ls_now s) (ls_file s) (ls_next s) (ls_status s) (<[h := t]> (ls_threads s)) (ls_reclaimMu s).
Definition drop_thread (h : string) (s : LockSys) : LockSys :=
  mkSys (ls_now s) (ls_file s) (ls_next s) (ls_status s) (delete h (ls_threads s)) (ls_reclaimMu s).

Definition goto (h : string) (t : Thread) (pc : PC) (s : LockSys) : LockSys :=
  set_thread h (mkThread (th_rec t) (th_count t) pc) s.

(** After a removal that did not fail: try again, or wait once the reclaims are used up. *)
Definition reclaimed (h : string) (t : Thread) (s : LockSys) : LockSys :=
  if (th_count t <? maxStaleReclaimAttempts)%nat then set_thread h (mkThread (th_rec t) (S (th_count t)) Trying) s
  else goto h t Waiting s.

(** How a file operation ends; a close is tried after a write that did not fail. *)
Inductive Io := Succeeds | Fails | CloseFails.
#[global] Instance Io_eq_dec : EqDecision Io.
Proof. solve_decision. Defined.

(** [OpenFile] with [O_EXCL]. *)
Definition create (h : string) (t : Thread) (again : bool) (s : LockSys) : LockSys :=
  match ls_file s with
  | None => goto h t (Writing (ls_next s) again)
              (mkSys (ls_now s) (Some (mkFile (ls_next s) None (ls_now s))) (S (ls_next s)) (ls_status s) (ls_threads s) (ls_reclaimMu s))
  | Some _ => goto h t Reading s
  end.

(** The record, into the inode created. *)
Definition write_record (k : nat) (t : Thread) (s : LockSys) : LockSys :=
  match ls_file s with
  | Some f => if (lf_inode f =? k)%nat then set_lockfile (Some (mkFile k (Some (th_rec t)) (ls_now s))) s else s
  | None => s
  end.

(** A claim that failed other than on an existing file: once more, or an error. *)
Definition claim_failed (h : string) (t : Thread) (again : bool) (s : LockSys) : LockSys :=
  if again then drop_thread h s else goto h t Making s.

(** What [removeStaleLock] finds under the mutex before it removes. *)
Definition recheck (h : string) (t : Thread) (obs : option LockRecord) (s : LockSys) : LockSys :=
  match obs with
  | None => set_mu (Some h) (goto h t Deleting s)
  | Some observed =>
      match ls_file s with
      | None => reclaimed h t s
      | Some f =>
          match lf_rec f with
          | Some cur => if same_lock cur observed then set_mu (Some h) (goto h t Deleting s) else goto h t Waiting s
          | None => goto h t Waiting s
          end
      end
  end.

(** One file operation of an acquirer, and how it ended. *)
Definition thread_step (h : string) (t : Thread) (io : Io) (s : LockSys) : LockSys :=
  let failed := negb (bool_decide (io = Succeeds)) in
  match th_pc t with
  | Trying => if failed then claim_failed h t false s else create h t false s
  | Making => if failed then drop_thread h s else create h t true s
  | Writing k again =>
      match io with
      | Succeeds => goto h t Held (write_record k t s)
      | Fails => goto h t (Unmaking k again) s
      | CloseFails => goto h t (Unmaking k again) (write_record k t s)
      end
  | Unmaking _ again => claim_failed h t again (if failed then s else set_lockfile None s)
  | Reading =>
      match (if failed then None else ls_file s ≫= lf_rec) with
      | Some r => if String.eqb (lr_HolderTaskID r) h then goto h t Held s else goto h t (Judging (Some r)) s
      | None => goto h t (Judging None) s
      end
  | Judging obs =>
      if treeLockStale (ls_now s) (ls_file s) obs (status_hook s) then goto h t (Removing obs) s else goto h t Waiting s
  | Removing obs =>
      match ls_reclaimMu s with
      | Some _ => s
      | None => if failed && bool_decide (is_Some obs) then goto h t Waiting s else recheck h t obs s
      end
  | Deleting => set_mu None (if failed then goto h t Waiting s else set_lockfile None (reclaimed h t s))
  | Waiting => goto h t Trying s
  | Held => s
  | Releasing => drop_thread h (if failed then s else set_lockfile None s)
  end.

(** The first half of [newTreeLockRelease]'s closure; the record may not be read. *)
Definition release_check (h : string) (t : Thread) (io : Io) (s : LockSys) : LockSys :=
  match (if bool_decide (io = Succeeds) then ls_file s ≫= lf_rec else None) with
  | Some r => if String.eqb (lr_HolderTaskID r) h then goto h t Releasing s else drop_thread h s
  | None => drop_thread h s
  end.

(** What can happen: a task starts acquiring (its record is stamped then), takes
    one step, releases, or gives up waiting; a task's status changes; time
    passes; the daemon restarts. *)
Inductive lock_event :=
| LStart (h prdID : string) (pid : Z)
| LStep (h : string) (io : Io)
| LRelease (h : string) (io : Io)
| LCancel (h : string)
| LStatus (h : string) (st : TaskStatus)
| LTick (d : Duration)
| LRestart.

Definition lock_move (s : LockSys) (e : lock_event) : LockSys :=
  match e with
  | LStart h prdID pid =>
      if String.eqb h "" then s
      else match ls_threads s !! h with
           | Some _ => s
           | None => set_thread h (mkThread (mkRec h prdID (ls_now s `div` Second) pid "") 0 Trying) s
           end
  | LStep h io => match ls_threads s !! h with Some t => thread_step h t io s | None => s end
  | LRelease h io =>
      match ls_threads s !! h with
      | Some t => match th_pc t with Held => release_check h t io s | _ => s end
      | None => s
      end
  | LCancel h =>
      match ls_threads s !! h with
      | Some t => match th_pc t with Trying | Waiting => drop_thread h s | _ => s end
      | None => s
      end
  | LStatus h st => mkSys (ls_now s) (ls_file s) (ls_next s) (<[h := st]> <$> ls_status s) (ls_threads s) (ls_reclaimMu s)
  | LTick d => mkSys (ls_now s + Z.max 0 d) (ls_file s) (ls_next s) (ls_status s) (ls_threads s) (ls_reclaimMu s)
  | LRestart => mkSys (ls_now s) (ls_file s) (ls_next s) (ls_status s) ∅ None
  end.

Definition lock_run (s : LockSys) (es : list lock_event) : LockSys := foldl lock_move s es.

(** * The advisory tree lock: theorems

    One holder at a time, on every interleaving of any number of acquirers and
    failures, under three provisos: no acquirer removes a file it could not read, no
    task ends while it acquires or holds the lock, and no ended task is brought back
    while its file is about to be removed; three interleavings show that each is
    needed. And what an acquirer that runs alone gets. *)

#[local] Open Scope Z_scope.

(** A holder whose lock may be reclaimed. *)
Definition dead (s : LockSys) (h : string) : Prop :=
  h = "" ∨ match ls_status s with
           | None => True
           | Some m => match m !! h with None => True | Some st => isTerminalTaskStatus st = true end
           end.

Definition pc_of (s : LockSys) (h : string) : option PC := th_pc <$> ls_threads s !! h.

Definition holds (s : LockSys) (h : string) : Prop := pc_of s h = Some Held.

(** An acquirer found the lock of [h] stale and is about to remove its file. *)
Definition reclaims (s : LockSys) (h : string) (t : Thread) : bool :=
  match th_pc t with
  | Removing (Some r) => String.eqb (lr_HolderTaskID r) h
  | Deleting => bool_decide (lr_HolderTaskID <$> (ls_file s ≫= lf_rec) = Some h)
  | _ => false
  end.
Definition being_reclaimed (s : LockSys) (h : string) : bool := existsb (λ x, reclaims s h x.2) (map_to_list (ls_threads s)).

(** The provisos. [no_unread]: an acquirer that judges a record it could not read
    finds it recent. [alive]: a task that acquires is known and not over, and does
    not end before it has given the lock back or given up. [not_revived]: a task
    becomes known, or is brought back, while no acquirer is about to remove its
    file. *)
Definition no_unread (s : LockSys) (e : lock_event) : Prop :=
  match e with
  | LStep h _ =>
      match pc_of s h with
      | Some (Judging None) => treeLockStale (ls_now s) (ls_file s) None (status_hook s) = false
      | _ => True
      end
  | _ => True
  end.
Definition alive (s : LockSys) (e : lock_event) : Prop :=
  match e with
  | LStart h _ _ => ¬ dead s h
  | LStatus h st => isTerminalTaskStatus st = true → pc_of s h = None
  | _ => True
  end.
Definition not_revived (s : LockSys) (e : lock_event) : Prop :=
  match e with
  | LStatus h st => isTerminalTaskStatus st = false → being_reclaimed s h = false
  | _ => True
  end.
Definition calm (s : LockSys) (e : lock_event) : Prop := no_unread s e ∧ alive s e ∧ not_revived s e.

Fixpoint calm_run (s : LockSys) (es : list lock_event) : Prop :=
  match es with
  | [] => True
  | e :: es => calm s e ∧ calm_run (lock_move s e) es
  end.

#[global] Instance dead_dec s h : Decision (dead s h).
Proof.
  unfold dead. apply or_dec; [apply _|]. destruct (ls_status s) as [m|]; [|by left]. destruct (m !! h); [apply _|by left].
Defined.

#[global] Instance calm_dec s e : Decision (calm s e).
Proof.
  unfold calm, no_unread, alive, not_revived. destruct e as [h ? ?|h io| | |h st| |]; repeat apply and_dec; try apply _.
  destruct (pc_of s h) as [[]|]; try apply _. by destruct obs; apply _.
Defined.

#[global] Instance calm_run_dec s es : Decision (calm_run s es).
Proof. revert s. induction es as [|e es IH]; intros s; simpl; apply _. Defined.

(** The record the path reads as. *)
Definition on_file (s : LockSys) : option LockRecord := ls_file s ≫= lf_rec.

(** What each place of an acquirer says of the file. *)
Definition pc_ok (s : LockSys) (h : string) (pc : PC) : Prop :=
  match pc with
  | Held | Releasing => (∃ r, on_file s = Some r ∧ lr_HolderTaskID r = h) ∧ ¬ dead s h
  | Writing k _ => (∃ f, ls_file s = Some f ∧ lf_inode f = k ∧ lf_rec f = None) ∧ ¬ dead s h
  | Unmaking k _ =>
      (∃ f, ls_file s = Some f ∧ (lf_rec f = None ∨ ∃ r, lf_rec f = Some r ∧ lr_HolderTaskID r = h)) ∧ ¬ dead s h
  | Removing obs => ∃ r, obs = Some r ∧ dead s (lr_HolderTaskID r)
  | Deleting => ls_reclaimMu s = Some h ∧ ∃ r, on_file s = Some r ∧ dead s (lr_HolderTaskID r)
  | _ => True
  end.

(** The file was created and its record is not known to be complete. *)
Definition claiming (pc : PC) : bool := match pc with Writing _ _ | Unmaking _ _ => true | _ => false end.

Record lock_inv (s : LockSys) : Prop := {
  li_rec h t : ls_threads s !! h = Some t → lr_HolderTaskID (th_rec t) = h ∧ ¬ dead s h;
  li_ok h pc : pc_of s h = Some pc → pc_ok s h pc;
  li_one h1 h2 p1 p2 : pc_of s h1 = Some p1 → pc_of s h2 = Some p2 → claiming p1 = true → claiming p2 = true → h1 = h2
}.

Lemma pc_of_set s h t h' : pc_of (set_thread h t s) h' = if decide (h' = h) then Some (th_pc t) else pc_of s h'.
Proof.
  unfold pc_of, set_thread. simpl. case_decide; [subst; by rewrite lookup_insert_eq|by rewrite lookup_insert_ne].
Qed.

Lemma pc_of_drop s h h' : pc_of (drop_thread h s) h' = if decide (h' = h) then None else pc_of s h'.
Proof.
  unfold pc_of, drop_thread. simpl. case_decide; [subst; by rewrite lookup_delete_eq|by rewrite lookup_delete_ne].
Qed.

(** A stale verdict on a record that was read is a dead holder. *)
Lemma stale_dead s r :
  treeLockStale (ls_now s) (ls_file s) (Some r) (status_hook s) = true → dead s (lr_HolderTaskID r).
Proof.
  unfold treeLockStale, dead, status_hook. destruct (String.eqb_spec (lr_HolderTaskID r) ""); [by left|].
  right. destruct (ls_status s) as [m|]; simpl in *; [|done]. by destruct (m !! _).
Qed.

(** One acquirer moves: its new place is right, and the others' still are. *)
Lemma inv_set s s' h t' :
  lock_inv s → ls_status s' = ls_status s → ls_threads s' = <[h := t']> (ls_threads s) →
  lr_HolderTaskID (th_rec t') = h → ¬ dead s h → pc_ok s' h (th_pc t') →
  (∀ h' pc, h' ≠ h → pc_of s h' = Some pc → pc_ok s h' pc → pc_ok s' h' pc) →
  (claiming (th_pc t') = true → ∀ h' p, h' ≠ h → pc_of s h' = Some p → claiming p = false) → lock_inv s'.
Proof.
  intros [Hr Ho H1] Hst Ht Hrec Hlive Hok Hother Hone.
  assert (∀ h, dead s' h ↔ dead s h) as Hdead by (intros; unfold dead; by rewrite Hst).
  assert (∀ h', pc_of s' h' = if decide (h' = h) then Some (th_pc t') else pc_of s h') as Hpc.
  { intros h'. unfold pc_of. rewrite Ht. case_decide; [subst; by rewrite lookup_insert_eq|by rewrite lookup_insert_ne]. }
  split.
  - intros h' t2. rewrite Ht, Hdead. intros [[<- <-]|[_ H]]%lookup_insert_Some; [done|by apply Hr].
  - intros h' pc. rewrite Hpc. case_decide; [intros [= <-]; by subst|]. intros Hp. apply Hother; [done..|by apply Ho].
  - intros h1 h2 p1 p2. rewrite !Hpc. repeat case_decide; subst; [done| | |by eauto].
    + intros [= <-] H2 Hc1 Hc2. by rewrite (Hone Hc1 h2 p2) in Hc2.
    + intros H2 [= <-] Hc1 Hc2. by rewrite (Hone Hc2 h1 p1) in Hc1.
Qed.

Lemma inv_drop s s' h :
  lock_inv s → ls_status s' = ls_status s → ls_threads s' = delete h (ls_threads s) →
  (∀ h' pc, h' ≠ h → pc_of s h' = Some pc → pc_ok s h' pc → pc_ok s' h' pc) → lock_inv s'.
Proof.
  intros [Hr Ho H1] Hst Ht Hother.
  assert (∀ h, dead s' h ↔ dead s h) as Hdead by (intros; unfold dead; by rewrite Hst).
  assert (∀ h', pc_of s' h' = if decide (h' = h) then None else pc_of s h') as Hpc.
  { intros h'. unfold pc_of. rewrite Ht. case_decide; [subst; by rewrite lookup_delete_eq|by rewrite lookup_delete_ne]. }
  split.
  - intros h' t2. rewrite Ht, Hdead. intros [_ H]%lookup_delete_Some. by apply Hr.
  - intros h' pc. rewrite Hpc. case_decide; [done|]. intros Hp. apply Hother; [done..|by apply Ho].
  - intros h1 h2 p1 p2. rewrite !Hpc. repeat case_decide; subst; try done. by eauto.
Qed.

(** An acquirer that needs nothing of the file may stand anywhere. *)
Definition quiet (pc : PC) : Prop := match pc with Trying | Making | Reading | Judging _ | Waiting => True | Removing _ => True | _ => False end.

Lemma quiet_ok s s' h pc : quiet pc → ls_status s' = ls_status s → pc_ok s h pc → pc_ok s' h pc.
Proof. destruct pc; simpl; try done. intros _ E (r&->&Hd). exists r. split; [done|]. unfold dead in *. by rewrite E. Qed.

(** Nobody else has a claim on the file: it is absent, or empty and being
    written by [h], or names a live [h], or is being deleted by [h]. *)
Lemma others_quiet s h h' pc :
  lock_inv s → h' ≠ h → pc_of s h' = Some pc →
  (ls_file s = None ∨ (∃ p, pc_of s h = Some p ∧ claiming p = true) ∨ pc_of s h = Some Held ∨ pc_of s h = Some Releasing ∨ pc_of s h = Some Deleting) →
  quiet pc.
Proof.
  intros HI Hne Hp Hc. pose proof (li_ok _ HI _ _ Hp) as Hok. pose proof (li_one _ HI h h') as Hone.
  assert (∀ pc, pc_of s h = Some pc → pc_ok s h pc) as Hok' by apply (li_ok _ HI).
  destruct Hc as [E|[(p&E&Ep)|[E|[E|E]]]];
    [|pose proof (Hok' _ E) as HE; specialize (Hone p pc E Hp Ep); destruct p; try done|pose proof (Hok' _ E) as HE..];
    clear Hok'; destruct pc; try done; exfalso;
    try (apply Hne; symmetry; by apply Hone); clear Hone; unfold pc_ok, on_file in *; destruct_and?;
    repeat match goal with H : ∃ _, _ |- _ => destruct H; destruct_and? end;
    repeat match goal with H : ls_file s = _, H2 : _ ≫= lf_rec = _ |- _ => rewrite H in H2; simpl in H2 end;
    destruct_or?; repeat match goal with H : ∃ _, _ |- _ => destruct H; destruct_and? end; simplify_eq; try done; congruence.
Qed.

Lemma li_threads s h t : lock_inv s → ls_threads s !! h = Some t →
  lr_HolderTaskID (th_rec t) = h ∧ ¬ dead s h ∧ pc_of s h = Some (th_pc t) ∧ pc_ok s h (th_pc t).
Proof.
  intros HI Ht. destruct (li_rec _ HI _ _ Ht) as [? ?]. assert (pc_of s h = Some (th_pc t)) as Hp by (unfold pc_of; by rewrite Ht).
  split_and!; [done..|by apply (li_ok _ HI)].
Qed.

(** Moving without touching the file or the mutex. *)
Lemma goto_inv s h t pc n :
  lock_inv s → ls_threads s !! h = Some t → pc_ok s h pc → claiming pc = false →
  lock_inv (set_thread h (mkThread (th_rec t) n pc) s).
Proof.
  intros HI Ht Hok Hw. destruct (li_threads s h t HI Ht) as (Hr&Hl&_). eapply inv_set; [done|done|done|done|done|done|done|].
  simpl. congruence.
Qed.

(** Changing the file, or leaving it, when nobody else has a claim on it. *)
Lemma sole_inv s s' h t' :
  lock_inv s → ls_status s' = ls_status s → ls_threads s' = <[h := t']> (ls_threads s) →
  lr_HolderTaskID (th_rec t') = h → ¬ dead s h → pc_ok s' h (th_pc t') →
  (∀ h' pc, h' ≠ h → pc_of s h' = Some pc → quiet pc) → lock_inv s'.
Proof.
  intros HI Hst Ht Hr Hl Hok Hq. eapply inv_set; [done..| |].
  - intros h' pc Hne Hp. eapply quiet_ok; [by eapply Hq|done].
  - intros _ h' p Hne Hp. apply Hq in Hp; [|done]. by destruct p.
Qed.

Lemma sole_drop s s' h :
  lock_inv s → ls_status s' = ls_status s → ls_threads s' = delete h (ls_threads s) →
  (∀ h' pc, h' ≠ h → pc_of s h' = Some pc → quiet pc) → lock_inv s'.
Proof.
  intros HI Hst Ht Hq. eapply inv_drop; [done..|]. intros h' pc Hne Hp. eapply quiet_ok; [by eapply Hq|done].
Qed.

Lemma create_inv s h t again : lock_inv s → ls_threads s !! h = Some t → lock_inv (create h t again s).
Proof.
  intros HI Ht. destruct (li_threads s h t HI Ht) as (Hr&Hl&Hp&_). unfold create. destruct (ls_file s) as [f|] eqn:Ef; [by apply goto_inv|].
  eapply sole_inv; [done|reflexivity|reflexivity|done|done| |].
  - simpl. split; [by eexists|done].
  - intros h' pc Hne Hp'. eapply others_quiet; [done|done|done|by left].
Qed.

(** A thread with a claim on the file changes it, and moves or goes. *)
Lemma claim_failed_inv s s' h t again :
  lock_inv s → ls_threads s !! h = Some t → ls_status s' = ls_status s → ls_threads s' = ls_threads s →
  (∀ h' pc, h' ≠ h → pc_of s h' = Some pc → quiet pc) → lock_inv (claim_failed h t again s').
Proof.
  intros HI Ht Hst Hth Hq. destruct (li_threads s h t HI Ht) as (Hr&Hl&_). unfold claim_failed. destruct again.
  - eapply (sole_drop s); [done|done|simpl; by rewrite Hth|done].
  - eapply (sole_inv s); [done|done|simpl; by rewrite Hth|done|done|done|done].
Qed.

Lemma recheck_inv s h t obs :
  lock_inv s → ls_threads s !! h = Some t → th_pc t = Removing obs → ls_reclaimMu s = None → lock_inv (recheck h t obs s).
Proof.
  intros HI Ht Epc Emu. destruct (li_threads s h t HI Ht) as (Hr&Hl&Hp&Hok). rewrite Epc in Hok. destruct Hok as (r&->&Hd).
  unfold recheck. destruct (ls_file s) as [f|] eqn:Ef; [|unfold reclaimed; case_match; by apply goto_inv].
  destruct (lf_rec f) as [cur|] eqn:Er; [|by apply goto_inv]. destruct (same_lock cur r) eqn:Esame; [|by apply goto_inv].
  eapply inv_set; [done|reflexivity|reflexivity|done|done| | |done].
  - simpl. split; [done|]. exists cur. unfold on_file. simpl. rewrite Ef. split; [done|]. unfold same_lock in Esame. bools.
    by replace (lr_HolderTaskID cur) with (lr_HolderTaskID r).
  - intros h' pc Hne Hp' Hok'. destruct pc; try done. simpl in Hok'. destruct Hok' as [Hmu _]. congruence.
Qed.

Lemma step_inv s h t io :
  lock_inv s → ls_threads s !! h = Some t → no_unread s (LStep h io) → lock_inv (thread_step h t io s).
Proof.
  intros HI Ht Hcalm. destruct (li_threads s h t HI Ht) as (Hr&Hl&Hp&Hok). unfold thread_step. unfold no_unread in Hcalm. rewrite Hp in Hcalm.
  assert ((ls_file s = None ∨ (∃ p, pc_of s h = Some p ∧ claiming p = true) ∨ pc_of s h = Some Held ∨ pc_of s h = Some Releasing ∨ pc_of s h = Some Deleting) → 
    ∀ h' pc, h' ≠ h → pc_of s h' = Some pc → quiet pc) as Hq.
  { intros Hc h' pc Hne Hp'. by eapply others_quiet. }
  cbv zeta. destruct (th_pc t) as [| |k again|k again| |obs|obs| | | |] eqn:Epc.
  - case_match; [by apply goto_inv|by apply create_inv].
  - case_match; [|by apply create_inv]. eapply inv_drop; [done|reflexivity|reflexivity|done].
  - destruct Hok as [(f&Hf&Hk&Hfr) _]. assert (∀ h' pc, h' ≠ h → pc_of s h' = Some pc → quiet pc) as Hq' by (apply Hq; right; left; by eexists).
    unfold write_record. rewrite Hf, Hk, Nat.eqb_refl.
    destruct io; (eapply sole_inv; [done|reflexivity|reflexivity|done|done| |exact Hq']); simpl; (split; [|done]).
    + by eexists.
    + eexists. split; [done|by left].
    + eexists. split; [done|]. right. by eexists.
  - eapply claim_failed_inv; [done|done|by case_match|by case_match|]. apply Hq. right. left. by eexists.
  - destruct (if negb _ then None else _) as [r|] eqn:Ef; [|by apply goto_inv].
    assert (ls_file s ≫= lf_rec = Some r) as Ef' by (by case_match).
    destruct (String.eqb_spec (lr_HolderTaskID r) h); [|by apply goto_inv].
    apply goto_inv; [done|done|simpl; split; [by exists r|done]|done].
  - destruct (treeLockStale (ls_now s) (ls_file s) obs (status_hook s)) eqn:Es; [|by apply goto_inv]. destruct obs as [r|]; [|exfalso; cbv iota in Hcalm; congruence].
    apply goto_inv; [done|done|simpl|done]. exists r. split; [done|by apply stale_dead].
  - destruct (ls_reclaimMu s) as [o|] eqn:Emu; [done|]. case_match; [by apply goto_inv|by apply recheck_inv].
  - assert (∀ h' pc, h' ≠ h → pc_of s h' = Some pc → quiet pc) as Hq' by (apply Hq; tauto).
    unfold reclaimed. repeat case_match; (eapply sole_inv; [done|reflexivity|reflexivity|done|done|done|done]).
  - by apply goto_inv.
  - done.
  - eapply sole_drop; [done|by case_match|by case_match|]. apply Hq; tauto.
Qed.

(** A task's status changes. *)
Lemma status_inv s h st : lock_inv s → alive s (LStatus h st) → not_revived s (LStatus h st) → lock_inv (lock_move s (LStatus h st)).
Proof.
  intros HI Hlive Hback. simpl in Hlive, Hback. cbn [lock_move]. set (s' := mkSys _ _ _ _ _ _).
  assert (∀ x, x ≠ h ∨ isTerminalTaskStatus st = true → dead s x → dead s' x) as Hdead.
  { intros x Hx [->|Hd]; [by left|]. right. subst s'. simpl. destruct (ls_status s) as [m|] eqn:Em; simpl; [|done].
    destruct (decide (x = h)) as [->|Hne]; [rewrite lookup_insert_eq; by destruct Hx|by rewrite lookup_insert_ne]. }
  assert (∀ x pc, pc_of s x = Some pc → ¬ dead s x → ¬ dead s' x) as Hsame.
  { intros x pc Hx Hl Hd. apply Hl. destruct Hd as [->|Hd]; [by left|]. right. subst s'. simpl in Hd.
    destruct (ls_status s) as [m|] eqn:Em; simpl in *; [|done].
    destruct (decide (x = h)) as [->|Hne]; [|by rewrite lookup_insert_ne in Hd].
    rewrite lookup_insert_eq in Hd. specialize (Hlive Hd). congruence. }
  assert (∀ x t r, ls_threads s !! x = Some t → reclaims s (lr_HolderTaskID r) t = true → dead s (lr_HolderTaskID r) →
    dead s' (lr_HolderTaskID r)) as Hstill.
  { intros x t r Hx Hrec. apply Hdead. destruct (isTerminalTaskStatus st); [by right|left]. intros E. rewrite E in Hrec.
    specialize (Hback eq_refl). unfold being_reclaimed in Hback. apply not_true_iff_false in Hback. apply Hback.
    apply existsb_exists. exists (x, t). split; [|done]. by apply list_elem_of_In, elem_of_map_to_list. }
  split.
  - intros x t Ht. change (ls_threads s !! x = Some t) in Ht. destruct (li_rec _ HI _ _ Ht). split; [done|]. eapply Hsame; [|done]. unfold pc_of. by rewrite Ht.
  - intros x pc Hx. change (pc_of s x = Some pc) in Hx. pose proof (li_ok _ HI _ _ Hx) as Hok. pose proof (Hsame _ _ Hx).
    pose proof Hx as (t&Ht&Epc)%fmap_Some.
    destruct pc; try done; try (destruct Hok as [Hf Hl]; split; [exact Hf|by auto]); cbn [pc_ok] in *.
    + destruct Hok as (r&->&Hd). exists r. split; [done|]. eapply Hstill; [exact Ht| |done]. unfold reclaims. rewrite <- Epc. apply String.eqb_refl.
    + destruct Hok as (Hmu&r&Hr&Hd). split; [done|]. exists r. split; [done|]. eapply Hstill; [exact Ht| |done].
      unfold reclaims. rewrite <- Epc. apply bool_decide_eq_true. unfold on_file in Hr. by rewrite Hr.
  - apply (li_one _ HI).
Qed.

Lemma move_inv s e : lock_inv s → calm s e → lock_inv (lock_move s e).
Proof.
  intros HI (Hread&Hlive&Hback). destruct e as [h prdID pid|h io|h io|h|h st|d|]; simpl.
  - destruct (String.eqb h ""); [done|]. destruct (ls_threads s !! h) as [t|] eqn:Et; [done|].
    eapply inv_set; [done|reflexivity|reflexivity|reflexivity|exact Hlive|done|done|done].
  - destruct (ls_threads s !! h) as [t|] eqn:Et; [by apply step_inv|done].
  - destruct (ls_threads s !! h) as [t|] eqn:Et; [|done]. destruct (li_threads s h t HI Et) as (Hr&Hl&Hp&Hok).
    destruct (th_pc t) eqn:Epc; try done. unfold release_check.
    destruct Hok as [(r&Hf&Hh) _]. unfold on_file in Hf. case_bool_decide; [|by eapply inv_drop].
    rewrite Hf. cbv iota. rewrite Hh, String.eqb_refl.
    apply goto_inv; [done|done|simpl; split; [by exists r|done]|done].
  - destruct (ls_threads s !! h) as [t|] eqn:Et; [|done].
    destruct (th_pc t); try done; (eapply inv_drop; [done|reflexivity|reflexivity|done]).
  - by apply status_inv.
  - destruct HI as [Hr Ho H1]. split; [exact Hr|exact Ho|exact H1].
  - split; [done|done|done].
Qed.

Lemma run_inv es s : lock_inv s → calm_run s es → lock_inv (lock_run s es).
Proof.
  unfold lock_run. revert s. induction es as [|e es IH]; intros s HI Hc; [done|]. destruct Hc as [He Hc]. simpl.
  apply IH; [by apply move_inv|done].
Qed.

(** ** Properties *)

(** C3: one holder. Start from any file and any statuses, with no acquirer yet.
    However the steps of any number of acquirers, releases, cancellations and
    restarts fall between each other, and whichever of their file operations fail, at
    most one task has the lock, and the file names it, provided that: no acquirer
    finds a record stale that it could not read; a task that acquires is known and
    not over, and does not end before it has given the lock back or given up; and no
    task becomes known or is brought back while an acquirer that found its lock stale
    is about to remove the file. *)
Theorem tree_lock_exclusive now file next status es h1 h2 :
  let s := mkSys now file next status ∅ None in
  calm_run s es → holds (lock_run s es) h1 →
  (holds (lock_run s es) h2 → h1 = h2) ∧ lr_HolderTaskID <$> on_file (lock_run s es) = Some h1.
Proof.
  intros s Hc H1. assert (lock_inv s) as HI0 by (split; done). pose proof (run_inv es s HI0 Hc) as HI.
  destruct (li_ok _ HI _ _ H1) as [(r&Hr&<-) _]. rewrite Hr. split; [|done].
  intros H2. destruct (li_ok _ HI _ _ H2) as [(r'&Hr'&<-) _]. congruence.
Qed.

Definition steps (n : nat) (h : string) (s : LockSys) : LockSys := Nat.iter n (λ s, lock_move s (LStep h Succeeds)) s.

Lemma steps_one n h s x : ls_threads s !! h = Some x → steps (S n) h s = steps n h (thread_step h x Succeeds s).
Proof. intros Hx. unfold steps. rewrite Nat.iter_succ_r. simpl. by rewrite Hx. Qed.

Lemma take_free s h r n :
  ls_threads s !! h = Some (mkThread r n Trying) → ls_file s = None →
  holds (steps 2 h s) h ∧ on_file (steps 2 h s) = Some r.
Proof.
  intros Hs Hf. rewrite (steps_one _ _ _ _ Hs). unfold thread_step, create. cbn [th_pc]. rewrite bool_decide_true by done. cbn [negb]. rewrite Hf.
  erewrite steps_one by apply lookup_insert_eq. unfold thread_step, write_record. cbn [th_pc goto set_thread ls_file lf_inode th_rec th_count].
  rewrite Nat.eqb_refl. split; [|done]. unfold holds, pc_of. cbn. by rewrite lookup_insert_eq.
Qed.

Lemma take_over s h r n f :
  ls_threads s !! h = Some (mkThread r n (Removing (lf_rec f))) → ls_file s = Some f → ls_reclaimMu s = None →
  (n < maxStaleReclaimAttempts)%nat → holds (steps 4 h s) h ∧ on_file (steps 4 h s) = Some r.
Proof.
  intros Hs Hf Hmu Hn. rewrite (steps_one _ _ _ _ Hs).
  assert (thread_step h (mkThread r n (Removing (lf_rec f))) Succeeds s = set_mu (Some h) (set_thread h (mkThread r n Deleting) s)) as ->.
  { unfold thread_step, recheck. cbn [th_pc]. rewrite bool_decide_true by done. cbn [negb andb]. rewrite Hmu, Hf. destruct (lf_rec f) as [cur|] eqn:Er; [|done].
    assert (same_lock cur cur = true) as Hsame by (unfold same_lock; by rewrite String.eqb_refl, !Z.eqb_refl). by rewrite Hsame. }
  erewrite steps_one by apply lookup_insert_eq. unfold thread_step, reclaimed. cbn [th_pc th_count th_rec].
  apply Nat.ltb_lt in Hn. rewrite Hn. by apply (take_free _ h r (S n)); [apply lookup_insert_eq|].
Qed.

(** An acquirer that nobody interrupts gets what the lock promises. With no
    file it has the lock in two steps; a record with its own name is kept as it
    is; a stale lock is taken over in seven; and behind a holder that is not
    stale it waits, the file untouched. *)
Theorem acquire_alone (s : LockSys) (h : string) (t : Thread) :
  ls_threads s !! h = Some t → th_pc t = Trying → ls_reclaimMu s = None → (th_count t < maxStaleReclaimAttempts)%nat →
  match ls_file s with
  | None => holds (steps 2 h s) h ∧ on_file (steps 2 h s) = Some (th_rec t)
  | Some f =>
      if bool_decide (lr_HolderTaskID <$> lf_rec f = Some h) then holds (steps 2 h s) h ∧ ls_file (steps 2 h s) = Some f
      else if treeLockStale (ls_now s) (Some f) (lf_rec f) (status_hook s)
      then holds (steps 7 h s) h ∧ on_file (steps 7 h s) = Some (th_rec t)
      else pc_of (steps 3 h s) h = Some Waiting ∧ ls_file (steps 3 h s) = Some f
  end.
Proof.
  intros Ht Hpc Hmu Hn.
  assert (t = mkThread (th_rec t) (th_count t) Trying) as Ht' by (destruct t; simpl in *; by subst).
  destruct (ls_file s) as [f|] eqn:Hf; [|rewrite Ht' in Ht; by apply (take_free s h (th_rec t) (th_count t))].
  assert (∀ m, steps (S m) h s = steps m h (goto h t Reading s)) as Hs1.
  { intros m. rewrite (steps_one _ _ _ t) by done. unfold thread_step, create. rewrite Hpc, bool_decide_true by done. cbn [negb]. by rewrite Hf. }
  case_bool_decide as Hown.
  - apply fmap_Some in Hown as (r&Hr&Hh). rewrite Hs1. erewrite steps_one by apply lookup_insert_eq.
    unfold thread_step. cbn [th_pc goto set_thread ls_file]. rewrite bool_decide_true by done. cbn [negb]. rewrite Hf. cbn [mbind option_bind]. rewrite Hr, <- Hh, String.eqb_refl.
    split; [|done]. unfold holds, pc_of. cbn. by rewrite lookup_insert_eq.
  - set (s2 := goto h t (Judging (lf_rec f)) (goto h t Reading s)).
    assert (∀ m, steps (S (S m)) h s = steps m h s2) as Hs2.
    { intros m. rewrite Hs1. erewrite steps_one by apply lookup_insert_eq. unfold thread_step, s2. cbn [th_pc goto set_thread ls_file].
      rewrite bool_decide_true by done. cbn [negb]. rewrite Hf. cbn [mbind option_bind]. destruct (lf_rec f) as [r|] eqn:Er; [|done].
      destruct (String.eqb_spec (lr_HolderTaskID r) h); [|done]. exfalso. apply Hown. cbn. by subst. }
    assert (∀ m, steps (S (S (S m))) h s = steps m h (if treeLockStale (ls_now s) (Some f) (lf_rec f) (status_hook s)
      then goto h t (Removing (lf_rec f)) s2 else goto h t Waiting s2)) as Hs3.
    { intros m. rewrite Hs2. erewrite steps_one by apply lookup_insert_eq. unfold thread_step, s2. cbn [th_pc goto set_thread ls_file ls_now].
      rewrite Hf. unfold status_hook. reflexivity. }
    destruct (treeLockStale (ls_now s) (Some f) (lf_rec f) (status_hook s)); rewrite !Hs3.
    + by apply (take_over _ h (th_rec t) (th_count t) f); [apply lookup_insert_eq|..].
    + split; [|done]. unfold pc_of. cbn. by rewrite lookup_insert_eq.
Qed.

(** ** Examples *)

(** A file operation that succeeds. *)
Definition go (h : string) : lock_event := LStep h Succeeds.

Definition demo_status : gmap string TaskStatus := {[ "A" := TaskInProgress; "B" := TaskInProgress; "C" := TaskInProgress ]}.
Definition demo_lock : LockSys := mkSys (1000 * Second) None 0 (Some demo_status) ∅ None.

(** A takes the lock; B finds it taken and waits; A gives it back and ends; B
    takes it. *)
Definition demo_lock_events : list lock_event :=
  [LStart "A" "p" 1; go "A"; go "A"; LStart "B" "p" 1; go "B"; go "B"; go "B"; LRelease "A" Succeeds; go "A";
   LStatus "A" TaskCompleted; go "B"; go "B"; go "B"].

Lemma tree_lock_exclusive_witness :
  holds (lock_run demo_lock demo_lock_events) "B" ∧
  lr_HolderTaskID <$> on_file (lock_run demo_lock demo_lock_events) = Some "B".
Proof.
  assert (holds (lock_run demo_lock demo_lock_events) "B") as Hb by (vm_compute; reflexivity).
  split; [exact Hb|].
  assert (calm_run demo_lock demo_lock_events) as Hc.
  { apply (bool_decide_unpack _). vm_compute. exact I. }
  exact (proj2 (tree_lock_exclusive _ _ _ _ demo_lock_events "B" "B" Hc Hb)).
Defined.

Definition dead_file : LockFile := mkFile 0 (Some (mkRec "gone" "p" 5 1 "")) 0.
Definition demo_stale : LockSys :=
  mkSys (1000 * Second) (Some dead_file) 1 (Some demo_status) {[ "A" := mkThread (mkRec "A" "p" 1000 1 "") 0 Trying ]} None.

Lemma acquire_alone_witness :
  holds (steps 7 "A" demo_stale) "A" ∧ on_file (steps 7 "A" demo_stale) = Some (mkRec "A" "p" 1000 1 "").
Proof.
  exact (acquire_alone demo_stale "A" (mkThread (mkRec "A" "p" 1000 1 "") 0 Trying) eq_refl eq_refl eq_refl
    (proj1 (Nat.ltb_lt 0 3) eq_refl)).
Defined.

(** Without the first proviso two tasks get the lock: B finds A's file there and
    then gone, which it judges stale; C claims the tree; B removes C's file,
    unread, and claims it too. *)
Example unread_removal_race :
  let s := lock_run demo_lock
    [LStart "A" "p" 1; go "A"; go "A"; LStart "B" "p" 1; go "B"; LRelease "A" Succeeds; go "A"; go "B"; go "B";
     LStart "C" "p" 1; go "C"; go "C"; go "B"; go "B"; go "B"; go "B"] in
  holds s "B" ∧ holds s "C".
Proof. vm_compute. done. Qed.

(** Without the second: A completes before it gives the lock back; B has
    verified A's record and is about to remove it when A does and C claims. *)
Example late_release_race :
  let s := lock_run demo_lock
    [LStart "A" "p" 1; go "A"; go "A"; LStatus "A" TaskCompleted; LStart "B" "p" 1; go "B"; go "B"; go "B"; go "B";
     LRelease "A" Succeeds; go "A"; LStart "C" "p" 1; go "C"; go "C"; go "B"; go "B"; go "B"] in
  holds s "B" ∧ holds s "C".
Proof. vm_compute. done. Qed.

(** Without the third: A failed while the daemon restarted and its lock stayed
    behind; B finds it stale; A is brought back and takes its own lock up again; B
    verifies that the record has not changed and removes it. *)
Example revived_holder_race :
  let s := lock_run demo_lock
    [LStart "A" "p" 1; go "A"; go "A"; LRestart; LStatus "A" TaskFailed; LStart "B" "p" 1; go "B"; go "B"; go "B";
     LStatus "A" TaskInProgress; LStart "A" "p" 1; go "A"; go "A"; go "B"; go "B"; go "B"; go "B"] in
  holds s "A" ∧ holds s "B".
Proof. vm_compute. done. Qed.

(** A write that fails leaves no record behind: the file is removed, the claim made
    once more, and a second failure is an error. *)
Example failed_write :
  let s := lock_run demo_lock [LStart "A" "p" 1; go "A"; LStep "A" Fails; go "A"] in
  ls_file s = None ∧ pc_of s "A" = Some Making
  ∧ holds (lock_run s [go "A"; go "A"]) "A"
  ∧ let s' := lock_run s [go "A"; LStep "A" CloseFails; go "A"] in ls_file s' = None ∧ pc_of s' "A" = None.
Proof. vm_compute. done. Qed.
