(* ===== verification/GoCrypto.v ===== *)
(** * The Go encoders and hashes the DNS channel uses

    [encoding/base64] (RawURLEncoding), [encoding/hex], [crypto/sha256] and
    [crypto/hmac], and the number verbs [Sscanf] and [Sprintf] of [fmt] that its
    records are numbered with, over bytes as integers 0 to 255. *)

From S2P Require Import Prelude GoBase.
From stdpp Require Import pretty.

#[local] Open Scope Z_scope.

Definition byte_of (a : Ascii.ascii) : Z := Z.of_N (Ascii.N_of_ascii a).
Definition ascii_of (z : Z) : Ascii.ascii := Ascii.ascii_of_N (Z.to_N z).

Fixpoint bytes_of (s : string) : list Z :=
  match s with EmptyString => [] | String a s => byte_of a :: bytes_of s end.
Fixpoint string_of (l : list Z) : string :=
  match l with [] => "" | z :: l => String (ascii_of z) (string_of l) end.

Definition is_byte (z : Z) : Prop := 0 ≤ z < 256.

Lemma byte_of_range a : is_byte (byte_of a).
Proof. unfold is_byte, byte_of. pose proof (Ascii.N_ascii_bounded a). lia. Qed.

Lemma ascii_of_byte a : ascii_of (byte_of a) = a.
Proof. unfold ascii_of, byte_of. rewrite N2Z.id. apply Ascii.ascii_N_embedding. Qed.

Lemma string_of_bytes s : string_of (bytes_of s) = s.
Proof. induction s as [|a s IH]; simpl; [done|]. by rewrite ascii_of_byte, IH. Qed.

Lemma bytes_range s : Forall is_byte (bytes_of s).
Proof. induction s; constructor; [apply byte_of_range|done]. Qed.

(** ** base64.RawURLEncoding *)

Definition b64_alphabet : string := "ABCDEFGHIJKLMNOPQRSTUVWXYZabcdefghijklmnopqrstuvwxyz0123456789-_".

Definition enc6 (z : Z) : Ascii.ascii := default (Ascii.ascii_of_nat 65) (String.get (Z.to_nat z) b64_alphabet).

Fixpoint index_in (a : Ascii.ascii) (s : string) (i : Z) : option Z :=
  match s with
  | EmptyString => None
  | String b s => if Ascii.eqb a b then Some i else index_in a s (i + 1)
  end.
Definition dec6 (a : Ascii.ascii) : option Z := index_in a b64_alphabet 0.

Fixpoint b64_encode (l : list Z) : string :=
  match l with
  | a :: b :: c :: r =>
      String (enc6 (a `div` 4)) (String (enc6 (a `mod` 4 * 16 + b `div` 16))
        (String (enc6 (b `mod` 16 * 4 + c `div` 64)) (String (enc6 (c `mod` 64)) (b64_encode r))))
  | [a; b] => String (enc6 (a `div` 4)) (String (enc6 (a `mod` 4 * 16 + b `div` 16)) (String (enc6 (b `mod` 16 * 4)) ""))
  | [a] => String (enc6 (a `div` 4)) (String (enc6 (a `mod` 4 * 16)) "")
  | [] => ""
  end.

Definition EncodeToString (s : string) : string := b64_encode (bytes_of s).

(** Line ends are skipped wherever they stand. *)
Fixpoint skip_eol (s : string) : string :=
  match s with
  | EmptyString => ""
  | String a s =>
      if Ascii.eqb a (Ascii.ascii_of_nat 10) || Ascii.eqb a (Ascii.ascii_of_nat 13) then skip_eol s else String a (skip_eol s)
  end.

(** Groups of four characters, the last of two or three; the bits a short last
    group leaves over are dropped. *)
Fixpoint b64_decode (s : string) : option (list Z) :=
  match s with
  | EmptyString => Some []
  | String _ EmptyString => None
  | String a (String b EmptyString) => x ← dec6 a; y ← dec6 b; Some [x * 4 + y `div` 16]
  | String a (String b (String c EmptyString)) =>
      x ← dec6 a; y ← dec6 b; z ← dec6 c; Some [x * 4 + y `div` 16; y `mod` 16 * 16 + z `div` 4]
  | String a (String b (String c (String d s))) =>
      x ← dec6 a; y ← dec6 b; z ← dec6 c; w ← dec6 d; r ← b64_decode s;
      Some (x * 4 + y `div` 16 :: y `mod` 16 * 16 + z `div` 4 :: z `mod` 4 * 64 + w :: r)
  end.

Definition DecodeString (s : string) : option string := string_of <$> b64_decode (skip_eol s).

Lemma dec6_enc6 z : 0 ≤ z < 64 → dec6 (enc6 z) = Some z.
Proof.
  intros Hz. assert (Forall (λ n, dec6 (enc6 (Z.of_nat n)) = Some (Z.of_nat n)) (seq 0 64)) as H.
  { apply (bool_decide_unpack _). vm_compute. exact I. }
  rewrite Forall_forall in H. specialize (H (Z.to_nat z)). rewrite Z2Nat.id in H by lia. apply H.
  apply elem_of_seq. lia.
Qed.

(** The characters base64 writes: none is a dot or a line end. *)
Definition b64_char (a : Ascii.ascii) : bool := match dec6 a with Some _ => true | None => false end.

Fixpoint all_chars (P : Ascii.ascii → bool) (s : string) : bool :=
  match s with EmptyString => true | String a s => P a && all_chars P s end.

Lemma skip_eol_id s : all_chars b64_char s = true → skip_eol s = s.
Proof.
  induction s as [|a s IH]; simpl; [done|]. intros [Ha Hs]%andb_true_iff.
  assert (Ascii.eqb a (Ascii.ascii_of_nat 10) || Ascii.eqb a (Ascii.ascii_of_nat 13) = false) as ->; [|by rewrite IH].
  apply orb_false_iff. split; apply Ascii.eqb_neq; intros ->; vm_compute in Ha; congruence.
Qed.

(** Three bytes at a time. *)
Lemma bytes3_ind (P : list Z → Prop) :
  P [] → (∀ a, P [a]) → (∀ a b, P [a; b]) → (∀ a b c r, P r → P (a :: b :: c :: r)) → ∀ l, P l.
Proof.
  intros H0 H1 H2 H3. assert (∀ n l, (length l ≤ n)%nat → P l) as H; [|intros l; by apply (H (length l))].
  induction n as [|n IH]; intros [|a [|b [|c r]]] Hl; simpl in *; auto with lia.
Qed.

Lemma sextets a b c :
  is_byte a → is_byte b → is_byte c →
  (0 ≤ a `div` 4 < 64 ∧ 0 ≤ a `mod` 4 * 16 + b `div` 16 < 64 ∧ 0 ≤ b `mod` 16 * 4 + c `div` 64 < 64 ∧ 0 ≤ c `mod` 64 < 64) ∧
  a `div` 4 * 4 + (a `mod` 4 * 16 + b `div` 16) `div` 16 = a ∧
  (a `mod` 4 * 16 + b `div` 16) `mod` 16 * 16 + (b `mod` 16 * 4 + c `div` 64) `div` 4 = b ∧
  (b `mod` 16 * 4 + c `div` 64) `mod` 4 * 64 + c `mod` 64 = c.
Proof. unfold is_byte. intros. split_and!; Z.to_euclidean_division_equations; lia. Qed.

Lemma b64_roundtrip l : Forall is_byte l → b64_decode (b64_encode l) = Some l ∧ all_chars b64_char (b64_encode l) = true.
Proof.
  assert (∀ z, 0 ≤ z < 64 → b64_char (enc6 z) = true) as Hc by (intros z Hz; unfold b64_char; by rewrite dec6_enc6).
  assert (is_byte 0) as H0 by (unfold is_byte; lia).
  induction l as [|a|a b|a b c r IH] using bytes3_ind; intros Hl; [done|..].
  - apply Forall_cons in Hl as [Hl _]. destruct (sextets a 0 0 Hl H0 H0) as ((Ha&Hb&_)&Ea&_).
    change (0 `div` 16) with 0 in *. rewrite Z.add_0_r in *. cbn [b64_encode b64_decode all_chars].
    rewrite !dec6_enc6, !Hc by done. cbn. by rewrite Ea.
  - apply Forall_cons in Hl as [Ha [Hb _]%Forall_cons]. destruct (sextets a b 0 Ha Hb H0) as ((H1&H2&H3&_)&Ea&Eb&_).
    change (0 `div` 64) with 0 in *. rewrite Z.add_0_r in *. cbn [b64_encode b64_decode all_chars].
    rewrite !dec6_enc6, !Hc by done. cbn -[Z.div Z.modulo Z.mul]. rewrite Ea. rewrite Eb. done.
  - apply Forall_cons in Hl as [Ha [Hb [Hc' Hr]%Forall_cons]%Forall_cons]. destruct (IH Hr) as [Hd Hch].
    destruct (sextets a b c Ha Hb Hc') as ((H1&H2&H3&H4)&Ea&Eb&Ec). cbn [b64_encode b64_decode all_chars].
    rewrite !dec6_enc6, !Hc, Hd, Hch by done. cbn -[Z.div Z.modulo Z.mul]. by rewrite Ea, Eb, Ec.
Qed.

(** Decoding what was encoded gives it back, and the text has no dot. *)
Lemma DecodeString_Encode s : DecodeString (EncodeToString s) = Some s.
Proof.
  unfold DecodeString, EncodeToString. destruct (b64_roundtrip (bytes_of s) (bytes_range s)) as [Hd Hc].
  rewrite skip_eol_id, Hd by done. simpl. by rewrite string_of_bytes.
Qed.

Lemma Encode_chars s : all_chars b64_char (EncodeToString s) = true.
Proof. apply (b64_roundtrip (bytes_of s) (bytes_range s)). Qed.

(** ** encoding/hex, crypto/sha256 and crypto/hmac *)

Definition hex_char (d : Z) : Ascii.ascii := default (Ascii.ascii_of_nat 48) (String.get (Z.to_nat d) "0123456789abcdef").
Fixpoint hex_encode (l : list Z) : string :=
  match l with
  | [] => ""
  | b :: l => String (hex_char (b `div` 16)) (String (hex_char (b `mod` 16)) (hex_encode l))
  end.

Definition w32 (z : Z) : Z := z `mod` 2 ^ 32.
Definition rotr (x n : Z) : Z := w32 (Z.lor (Z.shiftr x n) (Z.shiftl x (32 - n))).

(** The constants as the standard derives them: the first 32 bits of the
    fractional parts of the cube roots of the first 64 primes, and of the square
    roots of the first 8. *)
Definition first_primes (n : nat) : list Z :=
  take n (filter (λ p, forallb (λ d, negb (p `mod` d =? 0)) (seqZ 2 (p - 2)) = true) (seqZ 2 310)).

(** The integer cube root of [n], its bits from bit [k - 1] down, above [r]. *)
Fixpoint cbrt_bits (k : nat) (r n : Z) : Z :=
  match k with
  | O => r
  | S k => let r' := r + 2 ^ Z.of_nat k in cbrt_bits k (if r' * r' * r' <=? n then r' else r) n
  end.

Definition sha_k : list Z :=
  Eval vm_compute in (λ p, w32 (cbrt_bits 36 0 (p * 2 ^ 96))) <$> first_primes 64.

Definition sha_init : list Z :=
  Eval vm_compute in (λ p, w32 (Z.sqrt (p * 2 ^ 64))) <$> first_primes 8.

(** [n] big-endian bytes of [z]. *)
Fixpoint be_bytes (n : nat) (z : Z) : list Z :=
  match n with O => [] | S n => be_bytes n (z `div` 256) ++ [z `mod` 256] end.

Definition sha_pad (msg : list Z) : list Z :=
  let n := Z.of_nat (length msg) in
  msg ++ [128] ++ replicate (Z.to_nat ((55 - n) `mod` 64)) 0 ++ be_bytes 8 (8 * n).

Fixpoint words (l : list Z) : list Z :=
  match l with
  | a :: b :: c :: d :: r => ((a * 256 + b) * 256 + c) * 256 + d :: words r
  | _ => []
  end.

(** The schedule, newest word first: [w] has the last sixteen in its head. *)
Fixpoint extend (n : nat) (w : list Z) : list Z :=
  match n with
  | O => w
  | S n =>
      let at_ i := default 0 (w !! i) in
      let s0 := Z.lxor (Z.lxor (rotr (at_ 14%nat) 7) (rotr (at_ 14%nat) 18)) (Z.shiftr (at_ 14%nat) 3) in
      let s1 := Z.lxor (Z.lxor (rotr (at_ 1%nat) 17) (rotr (at_ 1%nat) 19)) (Z.shiftr (at_ 1%nat) 10) in
      extend n (w32 (at_ 15%nat + s0 + at_ 6%nat + s1) :: w)
  end.

Definition sha_round (h : list Z) (kw : Z * Z) : list Z :=
  match h with
  | [a; b; c; d; e; f; g; i] =>
      let s1 := Z.lxor (Z.lxor (rotr e 6) (rotr e 11)) (rotr e 25) in
      let ch := Z.lxor (Z.land e f) (Z.land (Z.lxor e (2 ^ 32 - 1)) g) in
      let t1 := w32 (i + s1 + ch + kw.1 + kw.2) in
      let s0 := Z.lxor (Z.lxor (rotr a 2) (rotr a 13)) (rotr a 22) in
      let maj := Z.lxor (Z.lxor (Z.land a b) (Z.land a c)) (Z.land b c) in
      [w32 (t1 + s0 + maj); a; b; c; w32 (d + t1); e; f; g]
  | _ => h
  end.

Definition sha_block (h : list Z) (block : list Z) : list Z :=
  let w := reverse (extend 48 (reverse (words block))) in
  zip_with (λ x y, w32 (x + y)) h (foldl sha_round h (zip sha_k w)).

Fixpoint sha_blocks (fuel : nat) (h : list Z) (msg : list Z) : list Z :=
  match fuel, msg with
  | S f, _ :: _ => sha_blocks f (sha_block h (take 64 msg)) (drop 64 msg)
  | _, _ => h
  end.

Definition sha256 (msg : list Z) : list Z :=
  let padded := sha_pad msg in
  sha_blocks (length padded) sha_init padded ≫= be_bytes 4.

Definition hmac_sha256 (key msg : list Z) : list Z :=
  let key := if (64 <? length key)%nat then sha256 key else key in
  let key := key ++ replicate (64 - length key) 0 in
  sha256 ((Z.lxor 92 <$> key) ++ sha256 ((Z.lxor 54 <$> key) ++ msg)).

(** The published test values. *)
Example sha256_abc : hex_encode (sha256 (bytes_of "abc")) = "ba7816bf8f01cfea414140de5dae2223b00361a396177a9cb410ff61f20015ad".
Proof. vm_compute. reflexivity. Qed.
Example hmac_jefe : hex_encode (hmac_sha256 (bytes_of "Jefe") (bytes_of "what do ya want for nothing?")) =
  "5bdcc146bf60754e6a042426089575c75a003f089d2739839dec58b964ec3843".
Proof. vm_compute. reflexivity. Qed.

(** ** fmt: %d read back *)

Definition digit_of (a : Ascii.ascii) : option Z :=
  let n := byte_of a in if (48 <=? n) && (n <=? 57) then Some (n - 48) else None.

Fixpoint scan_digits (acc : Z) (s : string) : Z :=
  match s with
  | EmptyString => acc
  | String a s => match digit_of a with Some d => scan_digits (acc * 10 + d) s | None => acc end
  end.

Fixpoint skip_blanks (s : string) : string :=
  match s with
  | String a s' => if existsb (Z.eqb (byte_of a)) [9; 11; 12; 13; 32] then skip_blanks s' else s
  | EmptyString => s
  end.

(** [Sscanf(s, "%d", &n)] with [n] zero before: no digits or a number out of
    range leaves it zero. *)
Definition Sscanf_d (s : string) : Z :=
  let '(sign, s) :=
    match skip_blanks s with
    | String a r => if byte_of a =? 45 then (-1, r) else if byte_of a =? 43 then (1, r) else (1, String a r)
    | EmptyString => (1, "")
    end in
  let n := sign * scan_digits 0 s in
  if (int64_min <=? n) && (n <=? int64_max) then n else 0.

Definition is_digit (a : Ascii.ascii) : bool := match digit_of a with Some _ => true | None => false end.

Lemma digit_char x : (x < 10)%N → digit_of (pretty_N_char x) = Some (Z.of_N x).
Proof.
  intros Hx. assert (Forall (λ n, digit_of (pretty_N_char (N.of_nat n)) = Some (Z.of_nat n)) (seq 0 10)) as H.
  { apply (bool_decide_unpack _). vm_compute. exact I. }
  rewrite Forall_forall in H. specialize (H (N.to_nat x)). rewrite N2Nat.id, N_nat_Z in H. apply H, elem_of_seq. lia.
Qed.

Lemma scan_pretty_go x s : scan_digits 0 (pretty_N_go x s) = scan_digits (Z.of_N x) s.
Proof.
  revert s. induction (N.lt_wf_0 x) as [x _ IH]. intros s. destruct (decide (x = 0)%N) as [->|Hx]; [done|].
  rewrite pretty_N_go_step by lia. rewrite IH by (apply N.div_lt; lia). cbn [scan_digits].
  rewrite digit_char by (apply N.mod_lt; lia). f_equal. pose proof (N.div_mod x 10). lia.
Qed.

Lemma pretty_go_digits x s : all_chars is_digit s = true → all_chars is_digit (pretty_N_go x s) = true.
Proof.
  revert s. induction (N.lt_wf_0 x) as [x _ IH]. intros s Hs. destruct (decide (x = 0)%N) as [->|Hx]; [done|].
  rewrite pretty_N_go_step by lia. apply IH; [apply N.div_lt; lia|]. cbn [all_chars]. unfold is_digit at 1.
  rewrite digit_char by (apply N.mod_lt; lia). done.
Qed.

Lemma fmt_d_nat n : 0 ≤ n → all_chars is_digit (fmt_d n) = true ∧ fmt_d n ≠ "" ∧ scan_digits 0 (fmt_d n) = n.
Proof.
  intros Hn. unfold fmt_d. destruct n as [|p|p]; [by vm_compute| |lia].
  change (pretty (Z.pos p)) with (pretty (N.pos p)). unfold pretty, pretty_N. rewrite decide_False by done.
  split_and!; [by apply pretty_go_digits| |by rewrite scan_pretty_go].
  intros E. assert (scan_digits 0 (pretty_N_go (N.pos p) "") = 0) as H0 by by rewrite E. rewrite scan_pretty_go in H0. done.
Qed.

Lemma Sscanf_fmt_d n : 0 ≤ n → in_int64 n → Sscanf_d (fmt_d n) = n.
Proof.
  intros Hn Hr. destruct (fmt_d_nat n Hn) as (Hd&Hne&Hs). unfold Sscanf_d.
  destruct (fmt_d n) as [|a s]; [done|]. cbn [all_chars] in Hd. apply andb_true_iff in Hd as [Ha _].
  assert (skip_blanks (String a s) = String a s ∧ byte_of a ≠ 45 ∧ byte_of a ≠ 43) as (->&H1&H2).
  { unfold is_digit, digit_of in Ha. destruct ((48 <=? byte_of a) && (byte_of a <=? 57)) eqn:E; [|done]. bools. cbn.
    repeat (rewrite (proj2 (Z.eqb_neq (byte_of a) _)); [|lia]). split; [done|lia]. }
  apply Z.eqb_neq in H1 as ->. apply Z.eqb_neq in H2 as ->. rewrite Hs, Z.mul_1_l.
  unfold in_int64 in Hr. assert ((int64_min <=? n) && (n <=? int64_max) = true) as ->; [|done].
  apply andb_true_iff. split; apply Z.leb_le; lia.
Qed.
