(* ===== verification/DnsChannel.v ===== *)
(** * The DNS channel

    internal/messaging/backends/dns: commands carried in TXT query names and
    answers in numbered TXT records (protocol.go), the store of seen nonces
    (nonce.go), and the handler that puts them together behind a per-address rate
    limit (server.go). The DNS library is left out: a query is its name, its type
    and the address it came from, a reply is refused or a list of records. *)

From S2P Require Import Prelude GoBase GoCrypto.

#[local] Open Scope Z_scope.

Definition maxLabelLen : nat := 60.
Definition cmdLiteral : string := "cmd".
Definition dot : Ascii.ascii := Ascii.ascii_of_nat 46.

(** ** protocol.go *)

(** [s[:n]] and [s[n:]] for [n] within the string. *)
Fixpoint take_s (n : nat) (s : string) : string :=
  match n, s with S n, String a s => String a (take_s n s) | _, _ => "" end.
Fixpoint drop_s (n : nat) (s : string) : string :=
  match n, s with S n, String _ s => drop_s n s | _, _ => s end.

Definition computeHMAC (message secret : string) : string :=
  take_s 8 (hex_encode (hmac_sha256 (bytes_of secret) (bytes_of message))).

(** Pieces of [n] bytes, the last one what is left. *)
Fixpoint chunk_loop (fuel : nat) (n : nat) (s : string) : list string :=
  match fuel with
  | O => []
  | S f => if String.eqb s "" then [] else take_s n s :: chunk_loop f n (drop_s n s)
  end.
Definition chunks (n : nat) (s : string) : list string := chunk_loop (String.length s) n s.

(** [EncodeQuery]; [rnd] is the four bytes read from the random source, or its error. *)
Definition EncodeQuery (command secret domain : string) (rnd : string + list Z) : string + string :=
  match rnd with
  | inl err => inl ("generate nonce: " +:+ err)
  | inr nonceBytes =>
      let nonce := hex_encode nonceBytes in
      let payload := EncodeToString command in
      let mac := computeHMAC (nonce +:+ payload) secret in
      inr (Join ([nonce; mac] ++ chunks maxLabelLen payload ++ [cmdLiteral; domain]) "." +:+ ".")
  end.

Inductive DecodeError := ErrDomainMismatch | ErrTooFewLabels | ErrMissingCmd | ErrHMAC | ErrPayload.

Definition DecodeQuery (qname domain secret : string) : DecodeError + string :=
  let qname := TrimSuffix qname "." in
  let domain := TrimSuffix domain "." in
  if negb (HasSuffix qname ("." +:+ domain)) then inl ErrDomainMismatch
  else
    let labels := split_byte dot (TrimSuffix qname ("." +:+ domain)) in
    match labels with
    | nonce :: macReceived :: (_ :: _) =>
        if negb (String.eqb (List.last labels "") cmdLiteral) then inl ErrMissingCmd
        else
          let payload := Join (removelast (drop 2 labels)) "" in
          if negb (String.eqb macReceived (computeHMAC (nonce +:+ payload) secret)) then inl ErrHMAC
          else match DecodeString payload with
               | None => inl ErrPayload
               | Some command => inr command
               end
    | _ => inl ErrTooFewLabels
    end.

Definition chunkSize : nat := 240.

Definition record_line (total : Z) (i : nat) (chunk : string) : string :=
  fmt_d (Z.of_nat i) +:+ "/" +:+ fmt_d total +:+ ":" +:+ chunk.

Definition response_max (maxSize : Z) : Z := if maxSize <=? 0 then 512 else maxSize.

Definition EncodeResponse (response : string) (maxSize : Z) : list string :=
  let encoded := EncodeToString (take_s (Z.to_nat (response_max maxSize)) response) in
  match chunks chunkSize encoded with
  | [] => ["0/1:"]
  | cs => imap (record_line (Z.of_nat (length cs))) cs
  end.

Record fragment := mkFragment { fr_idx : Z; fr_total : Z; fr_data : string }.

(** A record without a colon, or without a slash before it, is skipped. *)
Definition parse_record (r : string) : option fragment :=
  '(prefix, data) ← Cut r ":";
  '(i, n) ← Cut prefix "/";
  Some (mkFragment (Sscanf_d i) (Sscanf_d n) data).

Definition DecodeResponse (records : list string) : option string :=
  match records with
  | [] => Some ""
  | _ =>
      let frags := sort_by (λ x y, fr_idx x <? fr_idx y) (omap parse_record records) in
      DecodeString (Join (fr_data <$> frags) "")
  end.

(** ** nonce.go *)

Record NonceStore := mkNonces { ns_entries : gmap string Time; ns_maxSize : Z; ns_ttl : Duration }.

Definition NewNonceStore (maxSize : Z) (ttl : Duration) : NonceStore :=
  mkNonces ∅ (if maxSize <=? 0 then 10000 else maxSize) (if ttl <=? 0 then 5 * Minute else ttl).

(** The scan for the oldest entry, in the order the map is ranged over. *)
Definition oldest_step (acc : string * Time) (kv : string * Time) : string * Time :=
  if IsZero acc.2 || Before kv.2 acc.2 then kv else acc.
Definition oldest (l : list (string * Time)) : string * Time := foldl oldest_step ("", zero_time) l.

(** [Check]: whether the nonce is new, at one reading of the clock. *)
Definition CheckNonce (range : gmap string Time → list (string * Time)) (now : Time) (nonce : string) (n : NonceStore) : NonceStore * bool :=
  let kept := filter (λ kv, (ns_ttl n <? Sub now kv.2) = false) (ns_entries n) in
  match kept !! nonce with
  | Some _ => (mkNonces kept (ns_maxSize n) (ns_ttl n), false)
  | None =>
      let kept :=
        if ns_maxSize n <=? Z.of_nat (size kept) then
          let key := (oldest (range kept)).1 in
          if nonempty key then delete key kept else kept
        else kept in
      (mkNonces (<[nonce := now]> kept) (ns_maxSize n) (ns_ttl n), true)
  end.

(** ** server.go *)

Record rateBucket := mkBucket { rb_count : Z; rb_windowStart : Time }.

Record DNSChannelConfig := mkDNSConfig {
  dc_Domain : string;
  dc_Secret : string;
  dc_MaxResponseSize : Z;
  dc_RateLimit : Z
}.

Record ServerBackend := mkServer { sb_nonces : NonceStore; sb_rateMap : gmap string rateBucket }.

Definition rate_limit (cfg : DNSChannelConfig) : Z :=
  let r := if dc_RateLimit cfg =? 0 then 30 else dc_RateLimit cfg in
  if r <? 0 then 0 else r.

Definition NewServer : ServerBackend := mkServer (NewNonceStore 10000 (5 * Minute)) ∅.

Definition checkRateLimit (limit : Z) (now : Time) (ip : string) (m : gmap string rateBucket) : gmap string rateBucket * bool :=
  match m !! ip with
  | None => (<[ip := mkBucket 1 now]> m, true)
  | Some b =>
      if Minute <? Sub now (rb_windowStart b) then (<[ip := mkBucket 1 now]> m, true)
      else (<[ip := mkBucket (rb_count b + 1) (rb_windowStart b)]> m, rb_count b + 1 <=? limit)
  end.

(** One pass of [cleanupRateBuckets]. *)
Definition cleanup (now : Time) (m : gmap string rateBucket) : gmap string rateBucket :=
  filter (λ kv, (2 * Minute <? Sub now (rb_windowStart kv.2)) = false) m.

(** The text before the last colon. *)
Fixpoint extractIP_opt (s : string) : option string :=
  match s with
  | EmptyString => None
  | String a r => match extractIP_opt r with
                  | Some x => Some (String a x)
                  | None => if Ascii.eqb a (Ascii.ascii_of_nat 58) then Some "" else None
                  end
  end.
Definition extractIP (remoteAddr : string) : string := default remoteAddr (extractIP_opt remoteAddr).

Record Query := mkQuery { q_Name : string; q_TXT : bool; q_Remote : string }.
Inductive Reply := Refused | Answer (records : list string).

Definition query_nonce (name : string) : string := default "" (head (split_byte dot (TrimSuffix name "."))).

(** [handleQuery] on the first question, if any: the reply and the command
    dispatched. [respond] is what [Send] delivers for the command, if it does
    within ten seconds. *)
Definition handleQuery (cfg : DNSChannelConfig) (range : gmap string Time → list (string * Time)) (now : Time)
    (respond : string → string → option string) (q : option Query) (b : ServerBackend) : ServerBackend * Reply * option string :=
  match q with
  | None => (b, Refused, None)
  | Some q =>
      if negb (q_TXT q) then (b, Refused, None)
      else
        let ip := extractIP (q_Remote q) in
        let '(rates, ok) := if 0 <? rate_limit cfg then checkRateLimit (rate_limit cfg) now ip (sb_rateMap b) else (sb_rateMap b, true) in
        let b := mkServer (sb_nonces b) rates in
        if negb ok then (b, Refused, None)
        else match DecodeQuery (q_Name q) (dc_Domain cfg) (dc_Secret cfg) with
             | inl _ => (b, Refused, None)
             | inr command =>
                 let nonce := query_nonce (q_Name q) in
                 let '(nonces, fresh) := if nonempty nonce then CheckNonce range now nonce (sb_nonces b) else (sb_nonces b, true) in
                 let b := mkServer nonces rates in
                 if negb fresh then (b, Refused, None)
                 else
                   let response := default "timeout: no response within 10s" (respond ip command) in
                   (b, Answer (EncodeResponse response (response_max (dc_MaxResponseSize cfg))), Some command)
             end
  end.
