(* ===== verification/DnsTheorems.v ===== *)
(** * The DNS channel: theorems

    Queries and responses come back as they were sent, the response in any order
    of its records; a command is not dispatched twice for one nonce while the
    nonce is remembered; and an address gets no more than twice its limit in any
    minute. *)

From stdpp Require Import sorting.
From S2P Require Import Prelude GoBase GoCrypto DnsChannel.

#[local] Open Scope Z_scope.

(** ** Strings *)

Definition not_char (c a : Ascii.ascii) : bool := negb (Ascii.eqb a c).

Lemma take_drop_s n s : take_s n s +:+ drop_s n s = s.
Proof.
  revert s. induction n as [|n IH]; intros [|a s]; [done..|]. change (String a (take_s n s +:+ drop_s n s) = String a s). by rewrite IH.
Qed.

Lemma all_chars_app P a b : all_chars P (a +:+ b) = all_chars P a && all_chars P b.
Proof.
  induction a as [|x a IH]; [done|]. change (P x && all_chars P (a +:+ b) = (P x && all_chars P a) && all_chars P b).
  by rewrite IH, andb_assoc.
Qed.

Lemma all_chars_take P n s : all_chars P s = true → all_chars P (take_s n s) = true.
Proof. intros H. rewrite <- (take_drop_s n s), all_chars_app in H. by apply andb_true_iff in H as [? _]. Qed.

Lemma all_chars_impl (P Q : Ascii.ascii → bool) s : (∀ a, P a = true → Q a = true) → all_chars P s = true → all_chars Q s = true.
Proof. intros H. induction s as [|a s IH]; simpl; [done|]. intros [Ha Hs]%andb_true_iff. by rewrite H, IH. Qed.

Lemma Join_snoc l x sep : l ≠ [] → Join (l ++ [x]) sep = Join l sep +:+ sep +:+ x.
Proof.
  induction l as [|a l IH]; [done|]. intros _. destruct l as [|b l]; [done|].
  change (Join ((a :: b :: l) ++ [x]) sep) with (a +:+ sep +:+ Join ((b :: l) ++ [x]) sep). rewrite IH by done.
  change (Join (a :: b :: l) sep) with (a +:+ sep +:+ Join (b :: l) sep). by rewrite !app_assoc_s.
Qed.

Lemma split_byte_app c x s :
  all_chars (not_char c) x = true → split_byte c (x +:+ String c s) = x :: split_byte c s.
Proof.
  induction x as [|a x IH]; intros H.
  - change ("" +:+ String c s) with (String c s). cbn [split_byte]. by rewrite Ascii.eqb_refl.
  - apply andb_true_iff in H as [Ha Hx]. change (String a x +:+ String c s) with (String a (x +:+ String c s)). cbn [split_byte].
    unfold not_char in Ha. apply negb_true_iff in Ha. by rewrite Ha, IH.
Qed.

Lemma split_byte_last c x : all_chars (not_char c) x = true → split_byte c x = [x].
Proof.
  induction x as [|a x IH]; intros H; [done|]. apply andb_true_iff in H as [Ha Hx]. cbn [split_byte].
  unfold not_char in Ha. apply negb_true_iff in Ha. by rewrite Ha, IH.
Qed.

(** Joining with a character none of the pieces has, and splitting at it. *)
Lemma split_join c l :
  l ≠ [] → Forall (λ x, all_chars (not_char c) x = true) l → split_byte c (Join l (String c "")) = l.
Proof.
  induction l as [|x l IH]; [done|]. intros _ [Hx Hl]%Forall_cons. destruct l as [|y l]; [by apply split_byte_last|].
  change (Join (x :: y :: l) (String c "")) with (x +:+ String c (Join (y :: l) (String c ""))).
  rewrite split_byte_app by done. by rewrite IH.
Qed.

Lemma Cut_app c p r : all_chars (not_char c) p = true → Cut (p +:+ String c r) (String c "") = Some (p, r).
Proof.
  induction p as [|a p IH]; intros H.
  - change ("" +:+ String c r) with (String c r). cbn [Cut CutPrefix]. by rewrite Ascii.eqb_refl.
  - apply andb_true_iff in H as [Ha Hp]. change (String a p +:+ String c r) with (String a (p +:+ String c r)). cbn [Cut CutPrefix].
    unfold not_char in Ha. apply negb_true_iff in Ha. rewrite Ascii.eqb_sym, Ha. by rewrite IH.
Qed.

(** ** Pieces *)

Lemma take_s_ne n s : n ≠ O → s ≠ "" → take_s n s ≠ "".
Proof. by destruct n, s. Qed.

Lemma length_drop_s n s : String.length (drop_s n s) = (String.length s - n)%nat.
Proof. revert s. induction n as [|n IH]; intros [|a s]; [done..|]. apply IH. Qed.

Lemma chunk_loop_ind n (P : string → list string → Prop) :
  n ≠ O → P "" [] → (∀ s cs, s ≠ "" → P (drop_s n s) cs → P s (take_s n s :: cs)) →
  ∀ fuel s, (String.length s ≤ fuel)%nat → P s (chunk_loop fuel n s).
Proof.
  intros Hn H0 HS. induction fuel as [|f IH]; intros s Hl; [by destruct s; simpl in *; [|lia]|].
  cbn [chunk_loop]. destruct (String.eqb_spec s "") as [->|Hs]; [done|]. apply HS; [done|]. apply IH. rewrite length_drop_s.
  destruct s; [done|]. simpl in *. lia.
Qed.

Lemma chunks_ind n (P : string → list string → Prop) :
  n ≠ O → P "" [] → (∀ s cs, s ≠ "" → P (drop_s n s) cs → P s (take_s n s :: cs)) → ∀ s, P s (chunks n s).
Proof. intros Hn H0 HS s. apply (chunk_loop_ind n P Hn H0 HS (String.length s) s). done. Qed.

Lemma Join_empty_cons x l : Join (x :: l) "" = x +:+ Join l "".
Proof. destruct l; [by rewrite app_nil_s|done]. Qed.

Lemma join_chunks n s : n ≠ O → Join (chunks n s) "" = s.
Proof.
  intros Hn. apply (chunks_ind n (λ s cs, Join cs "" = s) Hn); [done|].
  intros s' cs _ IH. by rewrite Join_empty_cons, IH, take_drop_s.
Qed.

Lemma chunks_chars n P s : n ≠ O → all_chars P s = true → Forall (λ x, all_chars P x = true) (chunks n s).
Proof.
  intros Hn. apply (chunks_ind n (λ s cs, all_chars P s = true → Forall (λ x, all_chars P x = true) cs) Hn); [by constructor|].
  intros s' cs _ IH H. constructor; [by apply all_chars_take|]. apply IH.
  rewrite <- (take_drop_s n s'), all_chars_app in H. by apply andb_true_iff in H as [_ ?].
Qed.

Lemma length_chunks n s : n ≠ O → (length (chunks n s) ≤ String.length s)%nat.
Proof.
  intros Hn. apply (chunks_ind n (λ s cs, length cs ≤ String.length s)%nat Hn); [done|].
  intros s' cs Hs IH. rewrite length_drop_s in IH. destruct s'; [done|]. simpl in *. lia.
Qed.

Lemma length_b64 l : (String.length (b64_encode l) ≤ 2 * length l)%nat.
Proof. induction l as [|a|a b|a b c r IH] using bytes3_ind; simpl in *; lia. Qed.

Lemma hex_no_dot l : all_chars (not_char dot) (hex_encode l) = true.
Proof.
  assert (∀ z, not_char dot (hex_char z) = true) as H.
  { intros z. unfold hex_char. destruct (Z.to_nat z) as [|[|[|[|[|[|[|[|[|[|[|[|[|[|[|[|n]]]]]]]]]]]]]]]]; [by vm_compute..|].
    replace (String.get _ _) with (@None Ascii.ascii); [by vm_compute|]. by induction n. }
  induction l as [|b l IH]; [done|]. cbn [hex_encode all_chars]. by rewrite !H, IH.
Qed.

Lemma b64_no_dot a : b64_char a = true → not_char dot a = true.
Proof. intros H. unfold not_char. apply negb_true_iff, Ascii.eqb_neq. intros ->. by vm_compute in H. Qed.

(** ** The protocol *)

Lemma TrimSuffix_app p suffix : TrimSuffix (p +:+ suffix) suffix = p.
Proof. unfold TrimSuffix. by rewrite CutSuffix_app. Qed.

Lemma HasSuffix_app p suffix : HasSuffix (p +:+ suffix) suffix = true.
Proof. unfold HasSuffix. by rewrite CutSuffix_app. Qed.

Lemma TrimSuffix_none s suffix : CutSuffix s suffix = None → TrimSuffix s suffix = s.
Proof. intros H. unfold TrimSuffix. by rewrite H. Qed.

Lemma mac_no_dot m s : all_chars (not_char dot) (computeHMAC m s) = true.
Proof. apply all_chars_take, hex_no_dot. Qed.

Lemma payload_no_dot s : all_chars (not_char dot) (EncodeToString s) = true.
Proof. eapply all_chars_impl; [exact b64_no_dot|apply Encode_chars]. Qed.

(** The labels the decoder sees. *)
Lemma decode_labels nonce mac cs domain :
  all_chars (not_char dot) nonce = true → all_chars (not_char dot) mac = true →
  Forall (λ x, all_chars (not_char dot) x = true) cs → CutSuffix domain "." = None →
  let qname := TrimSuffix (Join ([nonce; mac] ++ cs ++ [cmdLiteral; domain]) "." +:+ ".") "." in
  HasSuffix qname ("." +:+ TrimSuffix domain ".") = true ∧
  split_byte dot (TrimSuffix qname ("." +:+ TrimSuffix domain ".")) = nonce :: mac :: (cs ++ [cmdLiteral]).
Proof.
  intros Hn Hm Hcs Hd. rewrite TrimSuffix_app, (TrimSuffix_none domain) by done.
  replace ([nonce; mac] ++ cs ++ [cmdLiteral; domain]) with ((nonce :: mac :: (cs ++ [cmdLiteral])) ++ [domain])
    by (simpl; by rewrite <- app_assoc).
  rewrite Join_snoc by done. cbv zeta. rewrite HasSuffix_app, TrimSuffix_app. split; [done|].
  apply (split_join dot); [done|]. repeat (constructor; [done|]). apply Forall_app. split; [done|]. by constructor.
Qed.

(** A query comes back as the command it carries. For any command, secret
    and nonce bytes, and any domain without a trailing dot, the query name
    EncodeQuery builds passes DecodeQuery's authentication under the same secret
    and decodes to that command. *)
Theorem query_roundtrip (command secret domain : string) (nonceBytes : list Z) :
  CutSuffix domain "." = None →
  ∃ qname, EncodeQuery command secret domain (inr nonceBytes) = inr qname ∧ DecodeQuery qname domain secret = inr command.
Proof.
  intros Hd. eexists. split; [reflexivity|]. unfold DecodeQuery.
  set (nonce := hex_encode nonceBytes). set (payload := EncodeToString command).
  destruct (decode_labels nonce (computeHMAC (nonce +:+ payload) secret) (chunks maxLabelLen payload) domain) as [H1 H2];
    [apply hex_no_dot|apply mac_no_dot|apply chunks_chars; [done|apply payload_no_dot]|done|].
  rewrite H1, H2. cbn [negb]. assert (∃ y ys, chunks maxLabelLen payload ++ [cmdLiteral] = y :: ys) as (y&ys&E).
  { destruct (chunks maxLabelLen payload); by eexists _, _. }
  rewrite E. cbn [drop]. rewrite <- E.
  replace (List.last (nonce :: computeHMAC (nonce +:+ payload) secret :: chunks maxLabelLen payload ++ [cmdLiteral]) "") with cmdLiteral
    by (by rewrite !app_comm_cons, List.last_last).
  rewrite String.eqb_refl, List.removelast_last, join_chunks, String.eqb_refl by done. cbn [negb].
  unfold payload. by rewrite DecodeString_Encode.
Qed.

Lemma query_roundtrip_witness :
  ∃ qname, EncodeQuery "list sessions" "s3cret" "ctl.example.com" (inr [222; 173; 190; 239]) = inr qname ∧
    DecodeQuery qname "ctl.example.com" "s3cret" = inr "list sessions".
Proof. apply query_roundtrip. reflexivity. Defined.

(** A domain written with its trailing dot encodes to a name that the same
    domain refuses. *)
Example trailing_dot_mismatch :
  (qname ← match EncodeQuery "x" "s" "example.com." (inr [1; 2; 3; 4]) with inr q => Some q | inl _ => None end;
   Some (DecodeQuery qname "example.com." "s")) = Some (inl ErrDomainMismatch).
Proof. vm_compute. reflexivity. Qed.

Lemma digits_not c s : digit_of c = None → all_chars is_digit s = true → all_chars (not_char c) s = true.
Proof.
  intros Hc. apply all_chars_impl. intros a Ha. unfold not_char. apply negb_true_iff, Ascii.eqb_neq. intros ->.
  unfold is_digit in Ha. by rewrite Hc in Ha.
Qed.

Lemma parse_record_line total i chunk :
  0 ≤ total → in_int64 total → in_int64 (Z.of_nat i) →
  parse_record (record_line total i chunk) = Some (mkFragment (Z.of_nat i) total chunk).
Proof.
  intros Ht Hr Hi. unfold parse_record, record_line.
  destruct (fmt_d_nat (Z.of_nat i)) as (Hd1&_&_); [lia|]. destruct (fmt_d_nat total Ht) as (Hd2&_&_).
  replace (fmt_d (Z.of_nat i) +:+ "/" +:+ fmt_d total +:+ ":" +:+ chunk)
    with ((fmt_d (Z.of_nat i) +:+ "/" +:+ fmt_d total) +:+ String (Ascii.ascii_of_nat 58) chunk) by (by rewrite !app_assoc_s).
  rewrite (Cut_app (Ascii.ascii_of_nat 58)).
  2:{ rewrite !all_chars_app. by rewrite (digits_not _ (fmt_d (Z.of_nat i))), (digits_not _ (fmt_d total)). }
  cbn [mbind option_bind]. change (fmt_d (Z.of_nat i) +:+ "/" +:+ fmt_d total) with (fmt_d (Z.of_nat i) +:+ String (Ascii.ascii_of_nat 47) (fmt_d total)).
  rewrite (Cut_app (Ascii.ascii_of_nat 47)) by (by apply digits_not). cbn [mbind option_bind].
  by rewrite !Sscanf_fmt_d by (done || lia).
Qed.

Lemma imap_fragments total cs k :
  StronglySorted (not_after (λ x y, fr_idx x <? fr_idx y)) (imap (λ i c, mkFragment (Z.of_nat (k + i)) total c) cs).
Proof.
  revert k. induction cs as [|c cs IH]; intros k; [constructor|]. rewrite imap_cons. constructor.
  - replace (imap _ cs) with (imap (λ i c, mkFragment (Z.of_nat (S k + i)) total c) cs); [apply IH|].
    apply imap_ext. intros i x _. simpl. do 2 f_equal. lia.
  - apply Forall_forall. intros x Hx. apply list_elem_of_lookup in Hx as [j Hj].
    rewrite list_lookup_imap in Hj. apply fmap_Some in Hj as (c'&_&->). unfold not_after. simpl. apply Z.ltb_ge. lia.
Qed.

Lemma not_after_fragments x y :
  not_after (λ x y, fr_idx x <? fr_idx y) x y → not_after (λ x y, fr_idx x <? fr_idx y) y x → fr_idx x = fr_idx y.
Proof. unfold not_after. intros. bools. lia. Qed.

Lemma take_s_all n s : (String.length s ≤ n)%nat → take_s n s = s.
Proof. revert s. induction n as [|n IH]; intros [|a s] H; simpl in *; try done; try lia. by rewrite IH by lia. Qed.

Lemma length_bytes s : length (bytes_of s) = String.length s.
Proof. induction s as [|a s IH]; simpl; [done|]. by rewrite IH. Qed.

Lemma length_take_s n s : (String.length (take_s n s) ≤ n)%nat.
Proof. revert s. induction n as [|n IH]; intros [|a s]; simpl; try lia. specialize (IH s). lia. Qed.

Lemma omap_imap {A B C} (f : B → option C) (g : nat → A → B) (h : nat → A → C) (l : list A) :
  (∀ i x, l !! i = Some x → f (g i x) = Some (h i x)) → omap f (imap g l) = imap h l.
Proof.
  revert g h. induction l as [|x l IH]; intros g h H; [done|]. rewrite !imap_cons. cbn.
  rewrite (H 0%nat x eq_refl). f_equal. apply IH. intros i y Hy. by apply (H (S i)).
Qed.

(** A response comes back whatever order its records arrive in: decoding any
    permutation of the records of a response gives the response, cut to the
    largest size. *)
Theorem response_any_order (response : string) (maxSize : Z) (records : list string) :
  response_max maxSize ≤ 2 ^ 61 → records ≡ₚ EncodeResponse response maxSize →
  DecodeResponse records = Some (take_s (Z.to_nat (response_max maxSize)) response).
Proof.
  intros Hmax Hp. unfold EncodeResponse in Hp. set (r := take_s _ response) in *.
  assert (Z.of_nat (length (chunks chunkSize (EncodeToString r))) ≤ 2 ^ 62) as Hlen.
  { pose proof (length_chunks chunkSize (EncodeToString r)). pose proof (length_b64 (bytes_of r)).
    pose proof (length_take_s (Z.to_nat (response_max maxSize)) response). rewrite length_bytes in *. unfold EncodeToString in *.
    subst r. unfold chunkSize in *. lia. }
  assert (DecodeString (Join (chunks chunkSize (EncodeToString r)) "") = Some r) as Hback
    by (rewrite join_chunks by done; apply DecodeString_Encode).
  destruct (chunks chunkSize (EncodeToString r)) as [|c0 cs0] eqn:E.
  { apply Permutation_singleton_r in Hp as ->. exact Hback. }
  rewrite <- E in Hp. set (cs := chunks chunkSize (EncodeToString r)) in *. set (total := Z.of_nat (length cs)) in *.
  assert (0 ≤ total) by lia. assert (in_int64 total) by (unfold in_int64, int64_min, int64_max; rewrite <- E in Hlen; lia).
  assert (omap parse_record (imap (record_line total) cs) = imap (λ i c, mkFragment (Z.of_nat (0 + i)) total c) cs) as Hparse.
  { apply omap_imap. intros i c Hi. apply parse_record_line; [done..|]. apply lookup_lt_Some in Hi.
    unfold in_int64, int64_min, int64_max in *. lia. }
  unfold DecodeResponse. destruct records as [|x xs]; [apply Permutation_nil_l in Hp; by rewrite E in Hp|].
  set (recs := x :: xs) in *. cbv zeta.
  assert (sort_by (λ x y, fr_idx x <? fr_idx y) (omap parse_record recs) = imap (λ i c, mkFragment (Z.of_nat (0 + i)) total c) cs) as ->.
  { apply (StronglySorted_unique_strong (not_after (λ x y, fr_idx x <? fr_idx y))); [|apply sort_by_sorted, _|apply imap_fragments|].
    - intros x1 x2 H1 H2 Ha Hb. rewrite elem_of_sort_by in H1. rewrite Hp, Hparse in H1.
      apply list_elem_of_lookup in H1 as [i Hi], H2 as [j Hj]. rewrite list_lookup_imap in Hi, Hj.
      apply fmap_Some in Hi as (c1&Hc1&->), Hj as (c2&Hc2&->). pose proof (not_after_fragments _ _ Ha Hb) as Eidx. simpl in Eidx.
      assert (i = j) as -> by lia. by simplify_eq.
    - by rewrite sort_by_perm, Hp, Hparse. }
  replace (fr_data <$> imap _ cs) with cs; [rewrite E; exact Hback|].
  apply list_eq. intros i. rewrite list_lookup_fmap, list_lookup_imap. by destruct (cs !! i).
Qed.

Definition demo_response : string :=
  "a response of more than one record: 0123456789012345678901234567890123456789012345678901234567890123456789012345678901234567890123456789012345678901234567890123456789012345678901234567890123456789".

Lemma response_any_order_witness :
  length (EncodeResponse demo_response 200) = 2%nat ∧
  DecodeResponse (reverse (EncodeResponse demo_response 200)) = Some (take_s (Z.to_nat (response_max 200)) demo_response).
Proof.
  split; [vm_compute; reflexivity|].
  assert (response_max 200 ≤ 2 ^ 61) as Hm by (vm_compute; discriminate).
  exact (response_any_order demo_response 200 (reverse (EncodeResponse demo_response 200)) Hm (reverse_Permutation _)).
Defined.

(** ** Replay *)

Section server.
Context (cfg : DNSChannelConfig) (range : gmap string Time → list (string * Time)).

(** The nonce is remembered: its entry is there, and there is room for [n] more. *)
Definition remembered (nonce : string) (t : Time) (n : nat) (s : NonceStore) : Prop :=
  ns_entries s !! nonce = Some t ∧ Z.of_nat (size (ns_entries s)) + Z.of_nat n ≤ ns_maxSize s.

Lemma Sub_gt t u d : int64_min ≤ d < int64_max → (d <? Sub t u) = (d <? t - u).
Proof.
  intros Hd. unfold Sub. destruct (Z.ltb_spec d (t - u)); [apply Z.ltb_lt|apply Z.ltb_ge]; unfold int64_min, int64_max in *; lia.
Qed.

Lemma size_filter_le {V} (P : string * V → Prop) `{∀ x, Decision (P x)} (m : gmap string V) : (size (filter P m) ≤ size m)%nat.
Proof. apply map_subseteq_size, map_filter_subseteq. Qed.

(** A check of any nonce, with the clock still within the entry's lifetime. *)
Lemma check_remembers now nonce t n x s :
  ns_ttl s < int64_max → int64_min ≤ ns_ttl s → now - t ≤ ns_ttl s → remembered nonce t (S n) s →
  let '(s', fresh) := CheckNonce range now x s in
  remembered nonce t n s' ∧ ns_ttl s' = ns_ttl s ∧ (x = nonce → fresh = false).
Proof.
  intros Htl Htl' Hnow [He Hsz]. unfold CheckNonce. set (kept := filter _ (ns_entries s)).
  assert (kept !! nonce = Some t) as Hk.
  { apply map_lookup_filter_Some. split; [done|]. simpl. rewrite Sub_gt by done. apply Z.ltb_ge. lia. }
  assert (size kept ≤ size (ns_entries s))%nat as Hks by apply size_filter_le.
  destruct (kept !! x) as [t'|] eqn:Ex.
  - split_and!; [|done|done]. split; simpl; [done|lia].
  - assert (x ≠ nonce) as Hne by congruence.
    assert (ns_maxSize s <=? Z.of_nat (size kept) = false) as -> by (apply Z.leb_gt; lia).
    split_and!; [|done|done]. split; simpl; [by rewrite lookup_insert_ne|]. rewrite map_size_insert_None by done. lia.
Qed.

Definition server_step (b : ServerBackend) (e : Time * (string → string → option string) * option Query) : ServerBackend :=
  (handleQuery cfg range e.1.1 e.1.2 e.2 b).1.1.

Lemma handle_remembers now respond q b nonce t n :
  ns_ttl (sb_nonces b) < int64_max → int64_min ≤ ns_ttl (sb_nonces b) → now - t ≤ ns_ttl (sb_nonces b) →
  nonce ≠ "" → remembered nonce t (S n) (sb_nonces b) →
  let '(b', reply, command) := handleQuery cfg range now respond q b in
  remembered nonce t n (sb_nonces b') ∧ ns_ttl (sb_nonces b') = ns_ttl (sb_nonces b) ∧
  (∀ q', q = Some q' → query_nonce (q_Name q') = nonce → reply = Refused ∧ command = None).
Proof.
  intros Htl Htl' Hnow Hne Hr.
  assert (remembered nonce t n (sb_nonces b)) as Hr' by (destruct Hr; split; [done|lia]).
  unfold handleQuery. destruct q as [q|]; [|done]. destruct (negb (q_TXT q)); [by split_and!|].
  destruct (if 0 <? rate_limit cfg then _ else _) as [rates ok]. destruct (negb ok); [by split_and!|].
  destruct (DecodeQuery _ _ _) as [e|command]; [by split_and!|]. cbn [sb_nonces].
  destruct (nonempty (query_nonce (q_Name q))) eqn:En.
  - pose proof (check_remembers now nonce t n (query_nonce (q_Name q)) (sb_nonces b) Htl Htl' Hnow Hr) as Hc.
    destruct (CheckNonce range now (query_nonce (q_Name q)) (sb_nonces b)) as [s' fresh]. destruct Hc as (Hm&Ht&Hf).
    destruct fresh; simpl; split_and!; try done. intros q' [= <-] E. by apply Hf in E.
  - simpl. split_and!; [done|done|]. intros q' [= <-] E. exfalso. unfold nonempty in En. rewrite E in En.
    apply negb_false_iff, String.eqb_eq in En. done.
Qed.

Lemma handle_accepts now respond q b b' reply c :
  handleQuery cfg range now respond (Some q) b = (b', reply, Some c) → query_nonce (q_Name q) ≠ "" →
  ns_entries (sb_nonces b') !! query_nonce (q_Name q) = Some now ∧
  ns_ttl (sb_nonces b') = ns_ttl (sb_nonces b) ∧ ns_maxSize (sb_nonces b') = ns_maxSize (sb_nonces b).
Proof.
  intros H Hne. unfold handleQuery in H. destruct (negb (q_TXT q)); [done|].
  destruct (if 0 <? rate_limit cfg then _ else _) as [rates ok]. destruct (negb ok); [done|].
  destruct (DecodeQuery _ _ _) as [e|command]; [done|]. cbn [sb_nonces] in H.
  assert (nonempty (query_nonce (q_Name q)) = true) as En by (apply negb_true_iff, String.eqb_neq; done). rewrite En in H.
  unfold CheckNonce in H. set (kept := filter _ _) in H. destruct (kept !! query_nonce (q_Name q)); [done|].
  simpl in H. simplify_eq. simpl. by rewrite lookup_insert_eq.
Qed.

(** C39: no replay. Once a command has been dispatched for a query, no query with
    the same nonce is answered or dispatched again until the nonce's lifetime is
    over, whatever queries arrive in between, as long as the store has room for
    as many nonces as there are queries. *)
Theorem replay_refused (now now2 : Time) respond respond2 (q q2 : Query) (b b' : ServerBackend) reply c
    (es : list (Time * (string → string → option string) * option Query)) :
  handleQuery cfg range now respond (Some q) b = (b', reply, Some c) →
  query_nonce (q_Name q) ≠ "" → query_nonce (q_Name q2) = query_nonce (q_Name q) →
  int64_min ≤ ns_ttl (sb_nonces b) < int64_max →
  Z.of_nat (size (ns_entries (sb_nonces b'))) + Z.of_nat (length es) + 1 ≤ ns_maxSize (sb_nonces b) →
  (∀ e, e ∈ es → e.1.1 - now ≤ ns_ttl (sb_nonces b)) → now2 - now ≤ ns_ttl (sb_nonces b) →
  (handleQuery cfg range now2 respond2 (Some q2) (foldl server_step b' es)).1.2 = Refused ∧
  (handleQuery cfg range now2 respond2 (Some q2) (foldl server_step b' es)).2 = None.
Proof.
  intros H Hne Heq Htl Hroom Hes H2. destruct (handle_accepts _ _ _ _ _ _ _ H Hne) as (Hent&Httl&Hmax). rewrite <- Httl, <- Hmax in *.
  assert (∀ es b, (∀ e, e ∈ es → e.1.1 - now ≤ ns_ttl (sb_nonces b)) → int64_min ≤ ns_ttl (sb_nonces b) < int64_max →
    remembered (query_nonce (q_Name q)) now (length es + 1) (sb_nonces b) →
    remembered (query_nonce (q_Name q)) now 1 (sb_nonces (foldl server_step b es)) ∧
    ns_ttl (sb_nonces (foldl server_step b es)) = ns_ttl (sb_nonces b)) as Hrun.
  { clear -Hne. induction es as [|e es IH]; intros b Ht Hl Hr; [done|]. simpl.
    pose proof (handle_remembers e.1.1 e.1.2 e.2 b (query_nonce (q_Name q)) now (length es + 1)) as Hh.
    unfold server_step at 2 4. destruct (handleQuery cfg range e.1.1 e.1.2 e.2 b) as [[b1 r1] c1].
    destruct Hh as (Hr1&Ht1&_); [lia|lia|apply Ht; left|done|done|].
    rewrite <- Ht1. apply IH; [intros e' He'; rewrite Ht1; apply Ht; by right|by rewrite Ht1|done]. }
  destruct (Hrun es b') as [Hr Ht]; [done|done|split; [done|lia]|].
  pose proof (handle_remembers now2 respond2 (Some q2) (foldl server_step b' es) (query_nonce (q_Name q)) now 0) as Hh.
  destruct (handleQuery cfg range now2 respond2 (Some q2) (foldl server_step b' es)) as [[b2 r2] c2].
  destruct Hh as (_&_&Hh); [rewrite Ht; lia|rewrite Ht; lia|by rewrite Ht|done|done|]. by destruct (Hh q2 eq_refl Heq).
Qed.
End server.

Definition demo_dns : DNSChannelConfig := mkDNSConfig "ctl.example.com" "s3cret" 0 0.
Definition demo_qname : string :=
  match EncodeQuery "list" "s3cret" "ctl.example.com" (inr [222; 173; 190; 239]) with inr q => q | inl _ => "" end.
Definition demo_query : Query := mkQuery demo_qname true "10.0.0.7:5353".
Definition demo_range : gmap string Time → list (string * Time) := map_to_list.
Definition demo_respond (ip command : string) : option string := Some "ok".

Lemma replay_refused_witness :
  ∃ b' reply, handleQuery demo_dns demo_range 1000 demo_respond (Some demo_query) NewServer = (b', reply, Some "list") ∧
    (handleQuery demo_dns demo_range (1000 + 4 * Minute) demo_respond (Some demo_query) b').2 = None.
Proof.
  assert ((handleQuery demo_dns demo_range 1000 demo_respond (Some demo_query) NewServer).2 = Some "list") as Hc by (vm_compute; reflexivity).
  assert (Z.of_nat (size (ns_entries (sb_nonces (handleQuery demo_dns demo_range 1000 demo_respond (Some demo_query) NewServer).1.1)))
    + Z.of_nat 0 + 1 ≤ ns_maxSize (sb_nonces NewServer)) as Hs by (vm_compute; discriminate).
  assert (query_nonce (q_Name demo_query) ≠ "") as Hne by (vm_compute; discriminate).
  assert (int64_min ≤ ns_ttl (sb_nonces NewServer) < int64_max) as Ht by (vm_compute; split; [discriminate|reflexivity]).
  assert ((1000 + 4 * Minute) - 1000 ≤ ns_ttl (sb_nonces NewServer)) as H2 by (vm_compute; discriminate).
  destruct (handleQuery demo_dns demo_range 1000 demo_respond (Some demo_query) NewServer) as [[b' reply] c] eqn:E.
  cbn [fst snd] in Hc, Hs. subst c. exists b', reply. split; [reflexivity|].
  refine (proj2 (replay_refused demo_dns demo_range 1000 (1000 + 4 * Minute) demo_respond demo_respond demo_query demo_query
    NewServer b' reply "list" [] E Hne eq_refl Ht Hs _ H2)).
  intros e He. destruct (proj1 (elem_of_nil e) He).
Defined.

(** When the store is full the oldest nonce is forgotten whatever is left of its
    lifetime, and its query can be replayed. *)
Example full_store_forgets :
  let s1 := (CheckNonce demo_range 10 "a" (mkNonces ∅ 1 (5 * Minute))).1 in
  let s2 := (CheckNonce demo_range 11 "b" s1).1 in
  (CheckNonce demo_range 12 "a" s2).2 = true.
Proof. vm_compute. reflexivity. Qed.

(** ** Rate limits *)

Inductive rate_event := RCheck (ip : string) (t : Time) | RCleanup (t : Time).

Definition rate_time (e : rate_event) : Time := match e with RCheck _ t | RCleanup t => t end.

(** How many checks of [ip] are let through. *)
Fixpoint admitted (limit : Z) (ip : string) (m : gmap string rateBucket) (es : list rate_event) : Z :=
  match es with
  | [] => 0
  | RCheck ip' t :: es =>
      let '(m, ok) := checkRateLimit limit t ip' m in
      (if ok && String.eqb ip' ip then 1 else 0) + admitted limit ip m es
  | RCleanup t :: es => admitted limit ip (cleanup t m) es
  end.

(** What the bucket of an address still allows from [t0] on. *)
Definition allowance (limit t0 : Z) (b : option rateBucket) : Z :=
  match b with
  | None => limit
  | Some b => Z.max 0 (limit - rb_count b) + (if t0 <=? rb_windowStart b then 0 else limit)
  end.

Lemma allowance_check limit t0 t ip ip' m :
  1 ≤ limit → t0 ≤ t ≤ t0 + Minute →
  let '(m', ok) := checkRateLimit limit t ip' m in
  (if ok && String.eqb ip' ip then 1 else 0) + allowance limit t0 (m' !! ip) ≤ allowance limit t0 (m !! ip).
Proof.
  intros Hl Ht. unfold checkRateLimit. destruct (String.eqb_spec ip' ip) as [->|Hne].
  2:{ destruct (m !! ip') as [b|]; [destruct (Minute <? Sub t (rb_windowStart b))|]; cbv iota beta; rewrite lookup_insert_ne by done; rewrite andb_false_r; lia. }
  assert (int64_min ≤ Minute < int64_max) as Hm by (vm_compute; split; [discriminate|reflexivity]).
  destruct (m !! ip) as [b|]; [rewrite Sub_gt by done; destruct (Z.ltb_spec Minute (t - rb_windowStart b))|];
    cbv iota beta; rewrite lookup_insert_eq; unfold allowance; cbn [rb_count rb_windowStart andb].
  - rewrite (proj2 (Z.leb_le t0 t)), (proj2 (Z.leb_gt t0 (rb_windowStart b))) by lia. lia.
  - rewrite andb_true_r. destruct (Z.leb_spec (rb_count b + 1) limit), (Z.leb_spec t0 (rb_windowStart b)); lia.
  - rewrite (proj2 (Z.leb_le t0 t)) by lia. lia.
Qed.

Lemma allowance_cleanup limit t0 t ip m :
  1 ≤ limit → t0 ≤ t ≤ t0 + Minute → allowance limit t0 (cleanup t m !! ip) ≤ allowance limit t0 (m !! ip).
Proof.
  intros Hl Ht. unfold cleanup. rewrite map_lookup_filter. destruct (m !! ip) as [b|]; [|done]. simpl.
  case_guard as Hg; [done|]. simpl. apply not_false_is_true in Hg.
  assert (int64_min ≤ 2 * Minute < int64_max) as Hm by (vm_compute; split; [discriminate|reflexivity]).
  rewrite Sub_gt in Hg by done. apply Z.ltb_lt in Hg. unfold Minute, Second in *.
  rewrite (proj2 (Z.leb_gt t0 (rb_windowStart b))) by lia. lia.
Qed.

(** An address gets at most twice its limit in any minute. Whatever state the
    limiter is in, and whatever other addresses and cleanups come in between, of
    the queries an address makes within one minute at most twice the limit pass
    (the window is fixed, so two can fall within one minute). *)
Theorem rate_two_windows (limit : Z) (ip : string) (m : gmap string rateBucket) (t0 : Time) (es : list rate_event) :
  1 ≤ limit → (∀ b, m !! ip = Some b → 0 ≤ rb_count b) → (∀ e, e ∈ es → t0 ≤ rate_time e ≤ t0 + Minute) →
  admitted limit ip m es ≤ 2 * limit.
Proof.
  intros Hl Hm Hes. assert (admitted limit ip m es ≤ allowance limit t0 (m !! ip)) as H.
  { clear Hm. revert m Hes. induction es as [|e es IH]; intros m Hes; cbn [admitted].
    - unfold allowance. destruct (m !! ip) as [b|]; [|lia]. destruct (Z.leb_spec t0 (rb_windowStart b)); lia.
    - assert (∀ e', e' ∈ es → t0 ≤ rate_time e' ≤ t0 + Minute) as Hes' by (intros e' He'; apply Hes; by right).
      pose proof (Hes e ltac:(left)) as He. destruct e as [ip' t|t]; simpl in He.
      + pose proof (allowance_check limit t0 t ip ip' m Hl He). destruct (checkRateLimit limit t ip' m) as [m' ok].
        specialize (IH m' Hes'). lia.
      + pose proof (allowance_cleanup limit t0 t ip m Hl He). specialize (IH (cleanup t m) Hes'). lia. }
  unfold allowance in H. destruct (m !! ip) as [b|] eqn:E; [|lia]. specialize (Hm b eq_refl).
  destruct (Z.leb_spec t0 (rb_windowStart b)); lia.
Qed.

(** The bound is reached: two at the end of one window and two at the start of
    the next, within a second. *)
Definition demo_burst : list rate_event :=
  [RCheck "a" (59 * Second); RCheck "a" (59 * Second); RCheck "a" (60 * Second + 1); RCheck "a" (60 * Second + 2); RCheck "a" (60 * Second + 3)].

Lemma rate_two_windows_witness :
  admitted 3 "a" {[ "a" := mkBucket 1 0 ]} demo_burst = 5 ∧ admitted 3 "a" {[ "a" := mkBucket 1 0 ]} demo_burst ≤ 2 * 3.
Proof.
  split; [vm_compute; reflexivity|]. apply (rate_two_windows 3 "a" _ (59 * Second)); [lia| |].
  - intros b H. apply lookup_singleton_Some in H as [_ <-]. vm_compute. discriminate.
  - apply Forall_forall. repeat constructor; vm_compute; discriminate.
Defined.
