(* ===== verification/GoText.v ===== *)
(** * Text: trimming, searching and lower case of the Go [strings] package

    Strings are UTF-8 bytes. A space is any of the encodings of the code points
    [unicode.IsSpace] accepts. [ToLower] maps the ASCII letters; callers only
    compare the result with words no other letter lowers into.

    Also: float64.

    Also: errors and dynamic values. *)

From Stdlib Require Export SpecFloat.
From S2P Require Import Prelude GoBase.

#[local] Open Scope Z_scope.

Definition of_bytes (l : list nat) : string := String.string_of_list_ascii (Ascii.ascii_of_nat <$> l).

(** The encodings of the white space: six ASCII ones, U+0085, U+00A0, U+1680,
    U+2000 to U+200A, U+2028, U+2029, U+202F, U+205F and U+3000. *)
Definition space_runes : list string :=
  of_bytes <$> ([[9]; [10]; [11]; [12]; [13]; [32]; [194; 133]; [194; 160]; [225; 154; 128]]
    ++ ((λ k, [226; 128; 128 + k]) <$> seq 0 11)
    ++ [[226; 128; 168]; [226; 128; 169]; [226; 128; 175]; [226; 129; 159]; [227; 128; 128]])%nat.

(** The first of [ps] that [cut s] removes from [s]. *)
Fixpoint cut_any (cut : string → string → option string) (s : string) (ps : list string) : option string :=
  match ps with
  | [] => None
  | p :: ps => match cut s p with Some r => Some r | None => cut_any cut s ps end
  end.

(** Fuel: every cut takes a byte. *)
Fixpoint trim_loop (cut : string → string → option string) (fuel : nat) (s : string) : string :=
  match fuel with
  | O => s
  | S f => match cut_any cut s space_runes with Some r => trim_loop cut f r | None => s end
  end.

(** [strings.TrimSpace] *)
Definition TrimSpace (s : string) : string :=
  let s := trim_loop CutPrefix (String.length s) s in trim_loop CutSuffix (String.length s) s.

(** [strings.Contains] *)
Definition Contains (s sub : string) : bool := match Cut s sub with Some _ => true | None => false end.

(** [strings.TrimLeft(s, c)] for one byte [c]. *)
Fixpoint TrimLeft (c : Ascii.ascii) (s : string) : string :=
  match s with
  | String a r => if Ascii.eqb a c then TrimLeft c r else s
  | EmptyString => ""
  end.

Definition lower (a : Ascii.ascii) : Ascii.ascii :=
  let n := Ascii.nat_of_ascii a in if ((65 <=? n) && (n <=? 90))%nat then Ascii.ascii_of_nat (n + 32) else a.
Fixpoint ToLower (s : string) : string :=
  match s with String a r => String (lower a) (ToLower r) | EmptyString => "" end.

Definition nl : Ascii.ascii := Ascii.ascii_of_nat 10.

(** [strings.ContainsAny] for one-byte characters. *)
Fixpoint ContainsAny (s : string) (cs : list Ascii.ascii) : bool :=
  match s with
  | EmptyString => false
  | String a r => existsb (Ascii.eqb a) cs || ContainsAny r cs
  end.

Definition cr : Ascii.ascii := Ascii.ascii_of_nat 13.

(** [len([]rune(s))]: how many bytes the first code point takes (an invalid
    byte counts as one), by the table of [utf8.DecodeRune]. *)
Definition between (lo hi : nat) (a : Ascii.ascii) : bool :=
  let n := Ascii.nat_of_ascii a in ((lo <=? n) && (n <=? hi))%nat.
Definition rune_size (s : string) : nat :=
  match s with
  | EmptyString => 0
  | String a r =>
      let cont (k : nat) := match String.get k r with Some b => between 128 191 b | None => false end in
      let second (lo hi : nat) := match String.get 0 r with Some b => between lo hi b | None => false end in
      if between 194 223 a && cont 0%nat then 2
      else if ((between 224 224 a && second 160 191) || (between 225 236 a && second 128 191)
               || (between 237 237 a && second 128 159) || (between 238 239 a && second 128 191))%nat
              && cont 1%nat then 3
      else if ((between 240 240 a && second 144 191) || (between 241 243 a && second 128 191)
               || (between 244 244 a && second 128 143))%nat && cont 1%nat && cont 2%nat then 4
      else 1
  end%nat.
Fixpoint rune_loop (fuel : nat) (s : string) : Z :=
  match fuel, s with
  | S f, String _ _ => 1 + rune_loop f (String.substring (rune_size s) (String.length s) s)
  | _, _ => 0
  end.
Definition rune_count (s : string) : Z := rune_loop (String.length s) s.

(** [string([]rune(s)[:n])]: the first [n] code points; a byte that is none
    comes back as U+FFFD. *)
Fixpoint first_runes (n : nat) (s : string) : string :=
  match n, s with
  | S n, String a _ =>
      let k := rune_size s in
      (if (k =? 1)%nat && negb (between 0 127 a) then of_bytes [239; 191; 189]%nat else String.substring 0 k s)
      +:+ first_runes n (String.substring k (String.length s) s)
  | _, _ => ""
  end.

(** [strconv.Quote] on printable text: bytes above 127 are taken to be printable
    characters. *)
Definition dquote : Ascii.ascii := Ascii.ascii_of_nat 34.
Definition backslash : Ascii.ascii := Ascii.ascii_of_nat 92.
Definition hex_nibble (n : nat) : Ascii.ascii := Ascii.ascii_of_nat (if (n <? 10)%nat then 48 + n else 87 + n).
Definition quote_byte (a : Ascii.ascii) : string :=
  let n := Ascii.nat_of_ascii a in
  let esc (c : nat) := String backslash (String (Ascii.ascii_of_nat c) "") in
  if Ascii.eqb a dquote || Ascii.eqb a backslash then String backslash (String a "")
  else match n with
       | 7 => esc 97 | 8 => esc 98 | 9 => esc 116 | 10 => esc 110 | 11 => esc 118 | 12 => esc 102 | 13 => esc 114
       | _ => if ((n <? 32) || (n =? 127))%nat
              then String backslash (String (Ascii.ascii_of_nat 120)
                     (String (hex_nibble (n / 16)) (String (hex_nibble (n mod 16)) "")))
              else String a ""
       end%nat.
Fixpoint quoted (s : string) : string :=
  match s with EmptyString => "" | String a r => quote_byte a +:+ quoted r end.
Definition Quote (s : string) : string := String dquote (quoted s +:+ String dquote "").

(** [time.Parse("15:04", s)]: one or two digits of hour, two of minute, nothing
    after them. *)
Definition digit (a : Ascii.ascii) : option Z :=
  if between 48 57 a then Some (Z.of_nat (Ascii.nat_of_ascii a) - 48) else None.
Definition parse_minute (h : Z) (s : string) : option (Z * Z) :=
  match s with
  | String c (String a (String b "")) =>
      if Ascii.eqb c (Ascii.ascii_of_nat 58) then
        match digit a, digit b with
        | Some x, Some y => if (h <? 24) && (10 * x + y <? 60) then Some (h, 10 * x + y) else None
        | _, _ => None
        end
      else None
  | _ => None
  end.
Definition parse_clock (s : string) : option (Z * Z) :=
  match s with
  | String a r =>
      match digit a with
      | None => None
      | Some x =>
          match r with
          | String b r' => match digit b with
                           | Some y => parse_minute (10 * x + y) r'
                           | None => parse_minute x r
                           end
          | EmptyString => None
          end
      end
  | EmptyString => None
  end.

Example TrimSpace_ex : TrimSpace (of_bytes [32; 9; 97; 32; 98; 194; 160; 13; 10]%nat) = "a b".
Proof. vm_compute. reflexivity. Qed.

Example rune_count_ex : rune_count (of_bytes [97; 226; 130; 172; 255; 240; 159; 152; 128]%nat) = 4.
Proof. vm_compute. reflexivity. Qed.
Example parse_clock_ex : parse_clock "7:05" = Some (7, 5) ∧ parse_clock "24:00" = None ∧ parse_clock "07:5" = None.
Proof. vm_compute. repeat split; reflexivity. Qed.
Example Quote_ex : Quote (of_bytes [97; 34; 10; 1]%nat) = of_bytes [34; 97; 92; 34; 92; 110; 92; 120; 48; 49; 34]%nat.
Proof. vm_compute. reflexivity. Qed.

(** ** The order of strings *)

Lemma ltb_ge_trans a b c : String.ltb b a = false → String.ltb c b = false → String.ltb c a = false.
Proof.
  unfold String.ltb. revert b c. induction a as [|x a IH]; intros [|y b] [|z c]; cbn; try done.
  unfold Ascii.compare. destruct (N.compare_spec (Ascii.N_of_ascii y) (Ascii.N_of_ascii x)) as [H1|H1|H1],
    (N.compare_spec (Ascii.N_of_ascii z) (Ascii.N_of_ascii y)) as [H2|H2|H2],
    (N.compare_spec (Ascii.N_of_ascii z) (Ascii.N_of_ascii x)) as [H3|H3|H3]; try done; try lia. apply IH.
Qed.

#[export] Instance ltb_strict_weak : StrictWeak String.ltb.
Proof.
  split.
  - intros a b. unfold String.ltb. rewrite (String.compare_antisym b a). by destruct (String.compare a b).
  - intros a b c. apply ltb_ge_trans.
Qed.

Lemma ltb_antisym a b : String.ltb a b = false → String.ltb b a = false → a = b.
Proof.
  unfold String.ltb. rewrite (String.compare_antisym b a). destruct (String.compare a b) eqn:E; try done.
  intros _ _. by apply String.compare_eq_iff.
Qed.

(** ** Trimming twice is trimming once *)

Lemma cut_any_Some cut s ps r : cut_any cut s ps = Some r → ∃ p, p ∈ ps ∧ cut s p = Some r.
Proof.
  induction ps as [|p ps IH]; [done|]. simpl. destruct (cut s p) eqn:E.
  - intros [= <-]. exists p. split; [left|done].
  - intros H. destruct (IH H) as (q&?&?). exists q. split; [by right|done].
Qed.

Lemma cut_any_None cut s ps : cut_any cut s ps = None ↔ ∀ p, p ∈ ps → cut s p = None.
Proof.
  induction ps as [|p ps IH]; simpl; [split; [intros _ p Hp; by apply elem_of_nil in Hp|done]|].
  destruct (cut s p) eqn:E.
  - split; [done|]. intros H. by rewrite H in E; [|left].
  - rewrite IH. split; [intros H q [->|Hq]%elem_of_cons; auto|intros H q Hq; apply H; by right].
Qed.

Lemma space_nonempty p : p ∈ space_runes → p ≠ "".
Proof.
  intros Hp ->. assert (forallb nonempty space_runes = true) as H by reflexivity.
  rewrite forallb_forall in H. by specialize (H "" (proj1 (list_elem_of_In _ _) Hp)).
Qed.

Lemma nonempty_length s : s ≠ "" → (0 < String.length s)%nat.
Proof. destruct s; [done|simpl; lia]. Qed.

Lemma trim_loop_done cut f s :
  (∀ s p r, cut s p = Some r → String.length s = (String.length r + String.length p)%nat) →
  (String.length s ≤ f)%nat → cut_any cut (trim_loop cut f s) space_runes = None.
Proof.
  intros Hcut. revert s. induction f as [|f IH]; intros s Hf; cbn [trim_loop]; destruct (cut_any cut s space_runes) as [r|] eqn:E.
  - apply cut_any_Some in E as (p&Hp&Hc). apply Hcut in Hc. pose proof (nonempty_length p (space_nonempty p Hp)). lia.
  - done.
  - apply IH. apply cut_any_Some in E as (p&Hp&Hc). apply Hcut in Hc. pose proof (nonempty_length p (space_nonempty p Hp)). lia.
  - done.
Qed.

Lemma trim_loop_id cut f s : cut_any cut s space_runes = None → trim_loop cut f s = s.
Proof. intros H. destruct f; cbn [trim_loop]; [done|]. by rewrite H. Qed.

Lemma trim_suffix_prefix f s : ∃ t, s = trim_loop CutSuffix f s +:+ t.
Proof.
  revert s. induction f as [|f IH]; intros s; cbn [trim_loop]; [by exists ""; rewrite app_nil_s|].
  destruct (cut_any CutSuffix s space_runes) as [r|] eqn:E; [|by exists ""; rewrite app_nil_s].
  apply cut_any_Some in E as (p&_&->%CutSuffix_Some). destruct (IH r) as [t Ht]. exists (t +:+ p).
  by rewrite <- app_assoc_s, <- Ht.
Qed.

Lemma TrimSpace_idem s : TrimSpace (TrimSpace s) = TrimSpace s.
Proof.
  unfold TrimSpace at 2. set (l := trim_loop CutPrefix (String.length s) s).
  assert (cut_any CutPrefix l space_runes = None) as Hl.
  { apply trim_loop_done; [|done]. intros ??? ->%CutPrefix_Some. rewrite length_app_s. lia. }
  set (t := trim_loop CutSuffix (String.length l) l).
  assert (cut_any CutSuffix t space_runes = None) as Ht.
  { apply trim_loop_done; [|done]. intros ??? ->%CutSuffix_Some. apply length_app_s. }
  assert (cut_any CutPrefix t space_runes = None) as Hp.
  { rewrite cut_any_None in Hl |- *. intros p Hp. specialize (Hl p Hp).
    destruct (CutPrefix t p) as [r|] eqn:E; [|done]. apply CutPrefix_Some in E.
    destruct (trim_suffix_prefix (String.length l) l) as [u Hu]. fold t in Hu. rewrite E, app_assoc_s in Hu.
    apply (CutPrefix_Some l p) in Hu. congruence. }
  unfold TrimSpace. rewrite (trim_loop_id CutPrefix) by done. by apply trim_loop_id.
Qed.

(** * float64

    A float64 is a [spec_float], the binary64 values of the IEEE standard. The
    modelled code compares, adds and prints them. *)


#[local] Open Scope Z_scope.

Definition float64 := spec_float.
Definition float_zero : float64 := S754_zero false.
Definition flt (a b : float64) : bool := SFltb a b.
Definition fle (a b : float64) : bool := SFleb a b.
Definition feq (a b : float64) : bool := SFeqb a b.

(** A whole number below 2^53 in size. *)
Definition float_of_Z (z : Z) : float64 :=
  match z with
  | Z0 => S754_zero false
  | Zpos p => binary_normalize 53 1024 (Zpos p) 0 false
  | Zneg p => binary_normalize 53 1024 (Zneg p) 0 true
  end.

(** [a / b] to the nearest integer, ties to even. *)
Definition div_even (a b : Z) : Z :=
  let q := a `div` b in
  match Z.compare (2 * (a `mod` b)) b with
  | Lt => q
  | Gt => q + 1
  | Eq => if Z.even q then q else q + 1
  end.

(** [fmt.Sprintf] with the verb f and [prec] digits after the point. *)
Definition fmt_f (prec : nat) (x : float64) : string :=
  let p := 10 ^ Z.of_nat prec in
  let digits (s : bool) (n : Z) := (if s then "-" else "") +:+ fmt_d (n `div` p) +:+ "." +:+ pad prec (n `mod` p) in
  match x with
  | S754_nan => "NaN"
  | S754_infinity s => if s then "-Inf" else "+Inf"
  | S754_zero s => digits s 0
  | S754_finite s m e =>
      digits s (if 0 <=? e then Z.pos m * 2 ^ e * p else div_even (Z.pos m * p) (2 ^ (- e)))
  end.

(** 0.5, 12.25 and -0.05 *)
Example fmt_f_ex :
  fmt_f 1 (S754_finite false 4503599627370496 (-53)) = "0.5" ∧ fmt_f 1 (S754_finite false 49 (-2)) = "12.2"
  ∧ fmt_f 2 (S754_finite true 7205759403792794 (-57)) = "-0.05".
Proof. vm_compute. repeat split; reflexivity. Qed.

Example float_of_Z_ex : flt (float_of_Z 3) (float_of_Z 7) = true ∧ fmt_f 2 (float_of_Z 12) = "12.00".
Proof. vm_compute. split; reflexivity. Qed.

(** * Errors and dynamic values

    An [error] made by [fmt.Errorf] is kept as its format and its arguments, so
    that what the code tests of an error (that its text starts with 409, that it
    is a given sentinel) is a test of the format. [any] is the type of the
    arguments and of the values of a [map[string]any]. [res] is the pair
    (result, error) of a Go function, with the monad of early returns. *)

#[local] Open Scope Z_scope.

Inductive any :=
| AStr (s : string)
| AInt (z : Z)
| ABool (b : bool)
| AFloat (f : float64)
| AList (l : list string)
| AMap (m : list (string * any))
| AErr (format : string) (args : list any)
| ASlice (l : list any).

Record error := Errorf { e_format : string; e_args : list any }.

(** The verb w. *)
Definition wrapped (e : error) : any := AErr (e_format e) (e_args e).

(** [strings.HasPrefix(err.Error(), "409")], and the same for 404: no modelled
    format starts with a verb. *)
Definition is_409 (e : error) : bool := HasPrefix (e_format e) "409".
Definition is_404 (e : error) : bool := HasPrefix (e_format e) "404".

Inductive res (A : Type) := Ok (a : A) | Err (e : error).
Arguments Ok {_} _.
Arguments Err {_} _.

#[global] Instance res_ret : MRet res := @Ok.
#[global] Instance res_bind : MBind res := λ _ _ k x, match x with Ok a => k a | Err e => Err e end.
#[global] Instance res_fmap : FMap res := λ _ _ f x, match x with Ok a => Ok (f a) | Err e => Err e end.

(** [if b { return err }] *)
Definition fail_if (b : bool) (e : error) : res unit := if b then Err e else Ok tt.

(** [for _, x := range l { if err := f(x); err != nil { return err } }] *)
Fixpoint for_each {A} (f : A → res unit) (l : list A) : res unit :=
  match l with
  | [] => Ok tt
  | x :: l => f x ;; for_each f l
  end.

Definition is_ok {A} (r : res A) : bool := match r with Ok _ => true | Err _ => false end.

(** ** Reading a result backwards *)

Lemma bind_Ok {A B} (x : res A) (k : A → res B) b :
  (y ← x; k y) = Ok b ↔ ∃ a, x = Ok a ∧ k a = Ok b.
Proof. destruct x as [a|e]; cbn; naive_solver. Qed.

Lemma bind_Err {A B} (x : res A) (k : A → res B) e :
  (y ← x; k y) = Err e ↔ x = Err e ∨ ∃ a, x = Ok a ∧ k a = Err e.
Proof. destruct x as [a|e']; cbn; naive_solver. Qed.

Lemma fail_if_Ok b e u : fail_if b e = Ok u ↔ b = false.
Proof. destruct b, u; naive_solver. Qed.

Lemma check_Ok {B} (b : bool) e (k : res B) x : (fail_if b e ;; k) = Ok x ↔ b = false ∧ k = Ok x.
Proof. destruct b; cbn; naive_solver. Qed.

Lemma unit_Ok {B} (c : res unit) (k : res B) x : (c ;; k) = Ok x ↔ c = Ok tt ∧ k = Ok x.
Proof. destruct c as [[]|]; cbn; naive_solver. Qed.

Lemma for_each_Ok {A} (f : A → res unit) l u : for_each f l = Ok u ↔ ∀ x, x ∈ l → f x = Ok tt.
Proof.
  destruct u. induction l as [|x l IH]; cbn; [set_solver|].
  change (f x ≫= (λ _, for_each f l)) with (f x ;; for_each f l). rewrite unit_Ok, IH. set_solver.
Qed.

(** ** Ranging over a map

    The order in which a [range] visits a map is not specified. A theorem holds
    for every instance, that is for whatever order a call meets. *)
Class MapRange := {
  map_range : ∀ {V : Type}, gmap string V → list (string * V);
  map_range_perm {V} (m : gmap string V) : map_range m ≡ₚ map_to_list m
}.

Definition in_key_order : MapRange := {| map_range := λ V m, map_to_list m; map_range_perm V m := reflexivity _ |}.

Lemma elem_of_map_range `{!MapRange} {V} (m : gmap string V) kv : kv ∈ map_range m ↔ m !! kv.1 = Some kv.2.
Proof. destruct kv. by rewrite map_range_perm, elem_of_map_to_list. Qed.
