(* ===== verification/MergeProof.v ===== *)
(** * The proof that a member's branch is merged

    internal/autonomous/merge_compare.go and automation_merged_member.go: how a
    work branch is compared with the branch it was meant for, and which commit
    proves that it landed. [git] answers the commands run in the base repository:
    their output, and the text of the error if there was one. The repository does
    not change while one question is answered.

    Also: the proof that a branch is merged: the theorems. *)

From S2P Require Import Prelude GoBase GoText.

#[local] Open Scope Z_scope.

(** ** [strconv.Atoi] *)

Definition max_uint64 : Z := 2 ^ 64 - 1.

Inductive atoi_error := ErrSyntax | ErrRange.

Fixpoint parse_uint (n : Z) (s : string) : Z + atoi_error :=
  match s with
  | EmptyString => inl n
  | String c r =>
      match digit c with
      | None => inr ErrSyntax
      | Some d => if max_uint64 / 10 <? n then inr ErrRange
                  else if max_uint64 <? 10 * n + d then inr ErrRange
                  else parse_uint (10 * n + d) r
      end
  end.

Definition signed (s : string) : bool * string :=
  match CutPrefix s "-", CutPrefix s "+" with
  | Some r, _ => (true, r)
  | None, Some r => (false, r)
  | None, None => (false, s)
  end.

Definition atoi_text (s : string) (e : atoi_error) : string :=
  "strconv.Atoi: parsing " +:+ Quote s +:+ ": "
  +:+ match e with ErrSyntax => "invalid syntax" | ErrRange => "value out of range" end.

Definition Atoi (s : string) : Z + string :=
  let '(neg, r) := signed s in
  if String.eqb r "" then inr (atoi_text s ErrSyntax)
  else match parse_uint 0 r with
       | inr e => inr (atoi_text s e)
       | inl n => if neg then (if 2 ^ 63 <? n then inr (atoi_text s ErrRange) else inl (- n))
                  else if 2 ^ 63 - 1 <? n then inr (atoi_text s ErrRange) else inl n
       end.

(** ** Comparing a branch with its base *)

Definition MergeStateMerged : string := "merged".
Definition MergeStatePending : string := "pending".
Definition MergeStateNeedsLook : string := "needs_look".
Definition MergeStateEmpty : string := "empty".
Definition MergeStateUnknown : string := "unknown".

Record MergeCompare := mkCompare {
  Ahead : Z;
  CherryNotOnBase : Z;
  CherryOnBase : Z;
  SubjectsOnBase : bool;
  mc_State : string;
  mc_Error : string
}.

(** The answer to a command. *)
Definition reply : Type := string * option string.

Definition lines (s : string) : list string := split_byte nl s.

Definition decideMergeState (ahead notOnBase : Z) (subjects : bool) : string :=
  if ahead =? 0 then MergeStateEmpty
  else if (notOnBase =? 0) && subjects then MergeStateMerged
  else if notOnBase =? 0 then MergeStateNeedsLook
  else if negb subjects then MergeStatePending
  else MergeStateNeedsLook.

Definition count (f : string → bool) (l : list string) : Z := Z.of_nat (length (List.filter f l)).
Definition is_plus (l : string) : bool := HasPrefix l "+".
Definition is_minus (l : string) : bool := HasPrefix l "-".

Definition subjects_on (base : gset string) (branchSubjects : string) : bool :=
  forallb (λ s, String.eqb s "" || bool_decide (s ∈ base)) (lines branchSubjects).

Definition classifyMergeFromPrecomputed (ahead : Z) (cherryOut branchSubjects : string) (baseSubjects : gset string) : MergeCompare :=
  let no := count is_plus (lines cherryOut) in
  let yes := count is_minus (lines cherryOut) in
  let sub := subjects_on baseSubjects branchSubjects in
  mkCompare ahead no yes sub (decideMergeState ahead no sub) "".

Section git.
Context (git : list string → reply).

(** A failed command: what was known so far, and the error. *)
Definition compare_failed (ahead : Z) (what out err : string) : MergeCompare :=
  mkCompare ahead 0 0 false MergeStateUnknown ("Automaton merge compare: " +:+ what +:+ ": " +:+ err +:+ ": " +:+ TrimSpace out).

Definition CompareBranchToMain (branch base : string) : MergeCompare :=
  let rng := base +:+ ".." +:+ branch in
  match git ["rev-list"; "--count"; rng] with
  | (out, Some e) => compare_failed 0 "rev-list" out e
  | (out, None) =>
      match Atoi (TrimSpace out) with
      | inr e => compare_failed 0 "rev-list count" out e
      | inl ahead =>
          match git ["cherry"; base; branch] with
          | (out, Some e) => compare_failed ahead "cherry" out e
          | (cherryOut, None) =>
              match git ["log"; rng; "--format=%s"] with
              | (out, Some e) => compare_failed ahead "log branch subjects" out e
              | (branchSubjects, None) =>
                  match git ["log"; base; "--format=%s"] with
                  | (out, Some e) => compare_failed ahead "log base subjects" out e
                  | (baseSubjects, None) =>
                      classifyMergeFromPrecomputed ahead cherryOut branchSubjects (list_to_set (lines baseSubjects))
                  end
              end
          end
      end
  end.

(** ** The default branch *)

Definition blanks : list Ascii.ascii := [Ascii.ascii_of_nat 9; nl; Ascii.ascii_of_nat 32].

Definition defaultBranchName (out : string) : option string :=
  let ref := TrimSpace out in
  if String.eqb ref "" || ContainsAny ref blanks then None
  else
    let ref := match CutPrefix ref "refs/remotes/" with
               | Some r => match Cut r "/" with Some (_, after) => after | None => "" end
               | None => TrimPrefix ref "refs/heads/"
               end in
    if String.eqb ref "" then None else Some ref.

Definition defaultBranchForRepo (repo : string) : string + string :=
  let remote := git ["symbolic-ref"; "refs/remotes/origin/HEAD"] in
  match (match remote with (out, None) => defaultBranchName out | (_, Some _) => None end) with
  | Some name => inl name
  | None =>
      match git ["rev-parse"; "--abbrev-ref"; "HEAD"] with
      | (_, Some e2) =>
          inr ("no default branch for " +:+ repo +:+ ": remote HEAD: " +:+ default "<nil>" (snd remote) +:+ "; HEAD branch: " +:+ e2)
      | (out, None) =>
          match defaultBranchName out with
          | Some name => if String.eqb name "HEAD" then
                           inr ("no default branch for " +:+ repo +:+ ": the base repository is not on a branch (got " +:+ Quote (TrimSpace out) +:+ ")")
                         else inl name
          | None => inr ("no default branch for " +:+ repo +:+ ": the base repository is not on a branch (got " +:+ Quote (TrimSpace out) +:+ ")")
          end
      end
  end.

(** ** The commit *)

Definition maxMergeProofCandidates : nat := 200.

Definition in_every_patch (l : string) : bool := negb (HasPrefix l "index " || HasPrefix l "@@").

Definition normalizeProofPatch (patch : string) : string :=
  TrimSpace (Join (List.filter in_every_patch (lines patch)) (String nl "")).

Definition patch_of (commit : string) : reply := git ["diff-tree"; "-p"; "--no-commit-id"; "-r"; commit].

Definition proof_failed (what err out : string) : string :=
  "Automaton merge proof: " +:+ what +:+ ": " +:+ err +:+ ": " +:+ TrimSpace out.

(** A commit the log marks as equal to one of the branch. *)
Definition marked (line : string) : option string :=
  match CutPrefix (TrimSpace line) "=" with
  | Some hash => if String.eqb hash "" then None else Some hash
  | None => None
  end.

(** The search through the marked commits, [checked] read so far. *)
Fixpoint carrying (tipPatch none : string) (ls : list string) (checked : nat) : string + string :=
  match ls with
  | [] => inr none
  | l :: ls =>
      match marked l with
      | None => carrying tipPatch none ls checked
      | Some hash =>
          if (checked =? maxMergeProofCandidates)%nat then inr none
          else match patch_of hash with
               | (out, Some e) => inr (proof_failed "read default-branch commit patch" e out)
               | (patch, None) => if String.eqb (normalizeProofPatch patch) tipPatch then inl hash
                                  else carrying tipPatch none ls (S checked)
               end
      end
  end.

Definition mergedProofCommit (branch base tip : string) : string + string :=
  match git ["merge-base"; base; branch] with
  | (out, Some e) => inr (proof_failed "merge-base" e out)
  | (out, None) =>
      if String.eqb (TrimSpace out) tip then inl tip
      else match patch_of tip with
           | (out, Some e) => inr (proof_failed "read branch tip patch" e out)
           | (out, None) =>
               let tipPatch := normalizeProofPatch out in
               if String.eqb tipPatch "" then
                 inr ("Automaton merge proof: the branch tip of " +:+ branch +:+ " has no patch to match on " +:+ base)
               else match git ["log"; "--left-only"; "--cherry-mark"; "--format=%m%H"; base +:+ "..." +:+ branch] with
                    | (out, Some e) => inr (proof_failed "list default-branch commits with a matching patch" e out)
                    | (out, None) =>
                        carrying tipPatch ("Automaton merge proof: " +:+ branch +:+ " is merged by patch comparison, but no commit on "
                          +:+ base +:+ " carries the patch of the branch tip") (lines out) 0
                    end
           end
  end.

(** ** The proof *)

Record MemberMergeProof := mkProof {
  mp_Merged : bool;
  mp_Branch : string;
  mp_Base : string;
  mp_Commit : string;
  mp_Reason : string
}.

Definition not_merged (branch base reason : string) : MemberMergeProof := mkProof false branch base "" reason.

Definition MergedMemberProof (repo branch : string) : MemberMergeProof :=
  let repo := TrimSpace repo in
  let branch := TrimSpace branch in
  if String.eqb repo "" then not_merged branch "" "Automaton merge proof: no base repository is configured"
  else if String.eqb branch "" || ContainsAny branch blanks then
    not_merged branch "" "Automaton merge proof: no Automaton branch to check"
  else match defaultBranchForRepo repo with
       | inr e => not_merged branch "" ("Automaton merge proof: " +:+ e)
       | inl base =>
           match git ["rev-parse"; "--verify"; "refs/heads/" +:+ branch] with
           | (out, Some e) =>
               not_merged branch base ("Automaton merge proof: branch " +:+ branch +:+ " is not in the base repository: " +:+ e +:+ ": " +:+ TrimSpace out)
           | (out, None) =>
               let tip := TrimSpace out in
               if String.eqb tip "" then not_merged branch base ("Automaton merge proof: branch " +:+ branch +:+ " resolved to no commit")
               else
                 let cmp := CompareBranchToMain branch base in
                 if String.eqb (mc_State cmp) MergeStateUnknown then not_merged branch base (mc_Error cmp)
                 else if negb (String.eqb (mc_State cmp) MergeStateMerged) then
                   not_merged branch base ("Automaton merge proof: branch " +:+ branch +:+ " is " +:+ mc_State cmp +:+ " of " +:+ base +:+ " ("
                     +:+ fmt_d (Ahead cmp) +:+ " commit(s) ahead, " +:+ fmt_d (CherryNotOnBase cmp) +:+ " patch(es) not on " +:+ base +:+ ")")
                 else match mergedProofCommit branch base tip with
                      | inr why => not_merged branch base why
                      | inl commit => mkProof true branch base commit ""
                      end
           end
       end.
End git.

(** * The proof that a branch is merged: the theorems

    What an answer "merged" rests on, and the branches it is never given for. *)

#[local] Open Scope Z_scope.

Section git2.
Context (git : list string → reply).

(** A command that succeeded. *)
Definition answers (args : list string) (out : string) : Prop := git args = (out, None).

(** The search ends on a marked commit with the patch, after at most [k] others. *)
Lemma carrying_sound p none ls n h :
  carrying git p none ls n = inl h →
  ∃ l out, l ∈ ls ∧ marked l = Some h ∧ answers ["diff-tree"; "-p"; "--no-commit-id"; "-r"; h] out ∧ normalizeProofPatch out = p.
Proof.
  revert n. induction ls as [|l ls IH]; intros n; cbn; [done|].
  assert (∀ m, carrying git p none ls m = inl h → ∃ l' out, l' ∈ l :: ls ∧ marked l' = Some h
    ∧ answers ["diff-tree"; "-p"; "--no-commit-id"; "-r"; h] out ∧ normalizeProofPatch out = p) as Hrec.
  { intros m (l'&out&Hl&Hrest)%IH. exists l', out. split; [by right|done]. }
  destruct (marked l) as [h'|] eqn:Em; [|apply Hrec]. destruct (_ =? _)%nat; [done|].
  destruct (patch_of git h') as [out [e|]] eqn:Eg; [done|]. destruct (String.eqb_spec (normalizeProofPatch out) p) as [Hp|_]; [|apply Hrec].
  intros [= ->]. exists l, out. split; [left|done].
Qed.

(** What makes [c] the proof: it is the tip and an ancestor of the base, or it is
    marked as equal to a commit of the branch and has the patch of the tip. *)
Definition proves (branch base tip c : string) : Prop :=
  (c = tip ∧ ∃ out, answers ["merge-base"; base; branch] out ∧ TrimSpace out = tip)
  ∨ ∃ log l out tipOut, answers ["log"; "--left-only"; "--cherry-mark"; "--format=%m%H"; base +:+ "..." +:+ branch] log
      ∧ l ∈ lines log ∧ marked l = Some c
      ∧ answers ["diff-tree"; "-p"; "--no-commit-id"; "-r"; c] out
      ∧ answers ["diff-tree"; "-p"; "--no-commit-id"; "-r"; tip] tipOut
      ∧ normalizeProofPatch out = normalizeProofPatch tipOut ∧ normalizeProofPatch tipOut ≠ "".

Lemma mergedProofCommit_sound branch base tip c : mergedProofCommit git branch base tip = inl c → proves branch base tip c.
Proof.
  unfold mergedProofCommit, proves. destruct (git ["merge-base"; base; branch]) as [o [e|]] eqn:E1; [done|].
  destruct (String.eqb_spec (TrimSpace o) tip) as [Ht|_].
  { intros [= <-]. left. split; [done|]. by exists o. }
  destruct (patch_of git tip) as [tp [e|]] eqn:E2; [done|].
  destruct (String.eqb_spec (normalizeProofPatch tp) "") as [|Hne]; [done|].
  destruct (git ["log"; _; _; _; _]) as [lo [e|]] eqn:E3; [done|].
  intros (l&out&Hl&Hm&Hout&Hp)%carrying_sound. right. by exists lo, l, out, tp.
Qed.

(** A comparison that says merged: something is ahead, git cherry misses nothing on
    the base, and every subject of the branch is a subject of the base. *)
Lemma compare_merged branch base :
  mc_State (CompareBranchToMain git branch base) = MergeStateMerged →
  ∃ n ahead cherry subjects log, answers ["rev-list"; "--count"; base +:+ ".." +:+ branch] n ∧ Atoi (TrimSpace n) = inl ahead ∧ ahead ≠ 0
    ∧ answers ["cherry"; base; branch] cherry ∧ (∀ l, l ∈ lines cherry → is_plus l = false)
    ∧ answers ["log"; base +:+ ".." +:+ branch; "--format=%s"] subjects ∧ answers ["log"; base; "--format=%s"] log
    ∧ (∀ s, s ∈ lines subjects → s ≠ "" → s ∈ lines log).
Proof.
  unfold CompareBranchToMain, answers.
  destruct (git ["rev-list"; _; _]) as [n [e|]]; [done|]. destruct (Atoi (TrimSpace n)) as [ahead|e] eqn:Ea; [|done].
  destruct (git ["cherry"; _; _]) as [cherry [e|]]; [done|]. destruct (git ["log"; base +:+ ".." +:+ branch; _]) as [sub [e|]]; [done|].
  destruct (git ["log"; base; _]) as [log [e|]]; [done|]. unfold classifyMergeFromPrecomputed. cbn [mc_State]. unfold decideMergeState.
  destruct (ahead =? 0) eqn:E0; [done|]. destruct (count is_plus (lines cherry) =? 0) eqn:Ec.
  2:{ cbn [andb]. by destruct (negb _). }
  cbn [andb]. destruct (subjects_on _ sub) eqn:Es; [|done]. intros _.
  exists n, ahead, cherry, sub, log. split_and!; try done; [lia| |].
  - intros l Hl. destruct (is_plus l) eqn:Ep; [|done]. unfold count in Ec.
    assert (l ∈ List.filter is_plus (lines cherry)) as Hin.
    { apply list_elem_of_In, filter_In. split; [by apply list_elem_of_In|done]. }
    apply Z.eqb_eq in Ec. destruct (List.filter is_plus (lines cherry)); [by apply elem_of_nil in Hin|]. done.
  - intros s Hs Hne. unfold subjects_on in Es. rewrite forallb_forall in Es. specialize (Es s (proj1 (list_elem_of_In _ _) Hs)).
    apply orb_true_iff in Es as [Es%String.eqb_eq|Es%bool_decide_eq_true]; [done|]. by apply elem_of_list_to_set in Es.
Qed.

(** C37: a member counts as merged only on evidence: its branch has commits of its
    own, none of them is missing from the base, every subject of theirs is on the
    base, and a commit is named that is the tip inside the base or carries the
    tip's patch there. *)
Theorem merge_proof_sound repo branch :
  mp_Merged (MergedMemberProof git repo branch) = true →
  let p := MergedMemberProof git repo branch in
  mp_Branch p = TrimSpace branch ∧ defaultBranchForRepo git (TrimSpace repo) = inl (mp_Base p)
  ∧ (∃ out, answers ["rev-parse"; "--verify"; "refs/heads/" +:+ mp_Branch p] out ∧ TrimSpace out ≠ ""
       ∧ proves (mp_Branch p) (mp_Base p) (TrimSpace out) (mp_Commit p))
  ∧ mc_State (CompareBranchToMain git (mp_Branch p) (mp_Base p)) = MergeStateMerged
  ∧ ∃ n ahead cherry subjects log, answers ["rev-list"; "--count"; mp_Base p +:+ ".." +:+ mp_Branch p] n
       ∧ Atoi (TrimSpace n) = inl ahead ∧ ahead ≠ 0
       ∧ answers ["cherry"; mp_Base p; mp_Branch p] cherry ∧ (∀ l, l ∈ lines cherry → is_plus l = false)
       ∧ answers ["log"; mp_Base p +:+ ".." +:+ mp_Branch p; "--format=%s"] subjects ∧ answers ["log"; mp_Base p; "--format=%s"] log
       ∧ (∀ s, s ∈ lines subjects → s ≠ "" → s ∈ lines log).
Proof.
  unfold MergedMemberProof. cbn zeta. destruct (String.eqb (TrimSpace repo) ""); [done|]. destruct (_ || _); [done|].
  destruct (defaultBranchForRepo git _) as [base|e]; [|done]. destruct (git ["rev-parse"; "--verify"; _]) as [o [e|]] eqn:Eo; [done|].
  destruct (String.eqb_spec (TrimSpace o) "") as [|Hne]; [done|]. destruct (String.eqb (mc_State _) MergeStateUnknown); [done|].
  destruct (String.eqb_spec (mc_State (CompareBranchToMain git (TrimSpace branch) base)) MergeStateMerged) as [Hm|]; [|done]. cbn [negb].
  destruct (mergedProofCommit _ _ _ _) as [c|why] eqn:Ec; [|done]. intros _. cbn.
  split_and!; [done|done| |done|by apply compare_merged]. exists o. split_and!; [done|done|]. by apply mergedProofCommit_sound.
Qed.

(** The tip is inside the base: then nothing is ahead of it, the comparison says
    "empty", and the member never counts as merged. *)
Lemma merge_commit_not_recognised repo branch :
  (∀ base b out, answers ["merge-base"; base; b] out → answers ["rev-parse"; "--verify"; "refs/heads/" +:+ b] out →
     answers ["rev-list"; "--count"; base +:+ ".." +:+ b] "0") →
  (∀ base, ∃ out, answers ["merge-base"; base; TrimSpace branch] out ∧ answers ["rev-parse"; "--verify"; "refs/heads/" +:+ TrimSpace branch] out) →
  mp_Merged (MergedMemberProof git repo branch) = false.
Proof.
  intros Hgit Htip. destruct (mp_Merged (MergedMemberProof git repo branch)) eqn:E; [|done]. exfalso.
  pose proof E as E2. revert E2. unfold MergedMemberProof. cbn zeta. destruct (String.eqb (TrimSpace repo) ""); [done|]. destruct (_ || _); [done|].
  destruct (defaultBranchForRepo git _) as [base|e]; [|done]. destruct (Htip base) as (out&H1&H2). rewrite H2.
  destruct (String.eqb (TrimSpace out) ""); [done|]. destruct (String.eqb (mc_State _) MergeStateUnknown); [done|].
  destruct (String.eqb_spec (mc_State (CompareBranchToMain git (TrimSpace branch) base)) MergeStateMerged) as [Hm|]; [|done].
  apply compare_merged in Hm as (n&ahead&?&?&?&Hn&Ha&Hne&_). pose proof (Hgit base _ out H1 H2) as H0. unfold answers in Hn, H0.
  rewrite Hn in H0. injection H0 as ->. change (Atoi (TrimSpace "0")) with (inl 0 : Z + string) in Ha. by injection Ha as <-.
Qed.
End git2.

(** A squashed branch: two commits ahead, a commit of main with the tip's patch. *)
Definition squashed (args : list string) : reply :=
  let nl := String nl "" in
  match args with
  | ["symbolic-ref"; _] => ("refs/remotes/origin/main" +:+ nl, None)
  | ["rev-parse"; "--verify"; _] => ("aaaa" +:+ nl, None)
  | ["rev-list"; _; _] => ("2" +:+ nl, None)
  | ["cherry"; _; _] => ("- 1111" +:+ nl +:+ "- aaaa" +:+ nl, None)
  | ["log"; "main..work"; _] => ("fix the parser" +:+ nl, None)
  | ["log"; "main"; _] => ("release" +:+ nl +:+ "fix the parser" +:+ nl, None)
  | ["merge-base"; _; _] => ("0000" +:+ nl, None)
  | ["log"; _; _; _; _] => ("<9999" +:+ nl +:+ "=7777" +:+ nl, None)
  | ["diff-tree"; _; _; _; "aaaa"] => ("index 1..2" +:+ nl +:+ "@@ -1 +1 @@" +:+ nl +:+ "+new line" +:+ nl, None)
  | ["diff-tree"; _; _; _; "7777"] => ("index 3..4" +:+ nl +:+ "@@ -9 +9 @@" +:+ nl +:+ "+new line" +:+ nl, None)
  | _ => ("", Some "exit status 1")
  end.

Lemma merge_proof_sound_witness :
  let p := MergedMemberProof squashed "/repo" "work" in
  p = mkProof true "work" "main" "7777" "" ∧ mc_State (CompareBranchToMain squashed "work" "main") = MergeStateMerged.
Proof.
  split; [vm_compute; reflexivity|].
  assert (mp_Merged (MergedMemberProof squashed "/repo" "work") = true) as H by (vm_compute; reflexivity).
  exact (proj1 (proj2 (proj2 (proj2 (merge_proof_sound squashed "/repo" "work" H))))).
Defined.
