(* ===== verification/GoRegexp.v ===== *)
(** * Regular expressions as the Go [regexp] package matches them

    The patterns the code compiles, as syntax, and leftmost-first matching: of
    the matches that start earliest, the one a backtracking search finds first
    ([regexp] documents that it picks that one). A class that matches beyond
    ASCII takes a whole code point, an invalid byte counting as one. Fuel: each
    turn of a star consumes a byte, so the bytes left bound the turns. *)

From S2P Require Import Prelude GoBase GoText.

#[local] Open Scope Z_scope.

Inductive re :=
| Eps
| Chr (p : Ascii.ascii → bool)        (* one ASCII character *)
| Rune (p : Ascii.ascii → bool)       (* one code point, by its first byte *)
| Cat (a b : re)
| Alt (a b : re)
| Star (a : re)
| Group (n : nat) (a : re)
| LineStart                           (* ^ under (?m) *)
| TextStart                           (* ^ *)
| TextEnd                             (* $ *)
| WordEdge.                           (* \b *)

(** Where a search stands: the byte before, the text left, the offset, and the
    groups closed so far. *)
Record pos := mkPos { p_prev : option Ascii.ascii; p_rest : string; p_at : nat; p_groups : list (nat * (nat * nat)) }.

Definition start_of_text (s : string) : pos := mkPos None s 0 [].
Definition skip_byte (x : pos) : pos :=
  match p_rest x with
  | String a r => mkPos (Some a) r (S (p_at x)) (p_groups x)
  | EmptyString => x
  end.

Definition word_byte (a : Ascii.ascii) : bool :=
  between 48 57 a || between 65 90 a || between 97 122 a || between 95 95 a.
Definition word_edge (x : pos) : bool :=
  xorb (match p_prev x with Some a => word_byte a | None => false end)
       (match p_rest x with String a _ => word_byte a | EmptyString => false end).

Section run.
Context {A : Type}.

Fixpoint run (r : re) (x : pos) (k : pos → option A) : option A :=
  match r with
  | Eps => k x
  | Chr p => match p_rest x with String a _ => if p a then k (skip_byte x) else None | EmptyString => None end
  | Rune p => match p_rest x with String a _ => if p a then k (Nat.iter (rune_size (p_rest x)) skip_byte x) else None | EmptyString => None end
  | Cat a b => run a x (λ y, run b y k)
  | Alt a b => match run a x k with Some v => Some v | None => run b x k end
  | Star a =>
      (fix loop (fuel : nat) (x : pos) : option A :=
         match fuel with
         | O => k x
         | S f => match run a x (λ y, if (p_at x <? p_at y)%nat then loop f y else None) with
                  | Some v => Some v
                  | None => k x
                  end
         end) (String.length (p_rest x)) x
  | Group n a => run a x (λ y, k (mkPos (p_prev y) (p_rest y) (p_at y) ((n, (p_at x, p_at y)) :: p_groups y)))
  | LineStart => match p_prev x with
                 | None => k x
                 | Some a => if Ascii.eqb a nl then k x else None
                 end
  | TextStart => match p_prev x with None => k x | Some _ => None end
  | TextEnd => match p_rest x with EmptyString => k x | String _ _ => None end
  | WordEdge => if word_edge x then k x else None
  end.
End run.

(** The first match at or after [x]: where it starts, and where it stands then. *)
Fixpoint search (fuel : nat) (r : re) (x : pos) : option (nat * pos) :=
  match run r x Some with
  | Some y => Some (p_at x, y)
  | None => match fuel with O => None | S f => search f r (skip_byte x) end
  end.
Definition find_from (r : re) (x : pos) : option (nat * pos) := search (String.length (p_rest x)) r x.

(** [re.MatchString(s)] *)
Definition MatchString (r : re) (s : string) : bool := bool_decide (is_Some (find_from r (start_of_text s))).

Definition group (s : string) (y : pos) (n : nat) : string :=
  match list_find (λ g, g.1 = n) (p_groups y) with
  | Some (_, (_, (i, j))) => String.substring i (j - i) s
  | None => ""
  end.

(** [re.FindStringSubmatch(s)], as the function from a group's number to its text. *)
Definition FindSubmatch (r : re) (s : string) : option (nat → string) :=
  '(_, y) ← find_from r (start_of_text s); Some (group s y).

(** [re.ReplaceAllString], for a pattern that matches no empty text: [with_] is
    the replacement with its groups filled in. Fuel: a match takes a byte. *)
Fixpoint replace_loop (fuel : nat) (r : re) (with_ : (nat → string) → string) (s : string) (x : pos) : string :=
  match fuel with
  | O => p_rest x
  | S f =>
      match find_from r x with
      | None => p_rest x
      | Some (i, y) =>
          String.substring (p_at x) (i - p_at x) s +:+ with_ (group s y)
          +:+ replace_loop f r with_ s (mkPos (p_prev y) (p_rest y) (p_at y) [])
      end
  end.
Definition ReplaceAll (r : re) (with_ : (nat → string) → string) (s : string) : string :=
  replace_loop (S (String.length s)) r with_ s (start_of_text s).

(** [re.Split(s, -1)], for a pattern that matches no empty text. *)
Fixpoint split_loop (fuel : nat) (r : re) (s : string) (x : pos) : list string :=
  match fuel, find_from r x with
  | S f, Some (i, y) =>
      String.substring (p_at x) (i - p_at x) s :: split_loop f r s (mkPos (p_prev y) (p_rest y) (p_at y) [])
  | _, _ => [p_rest x]
  end.
Definition SplitRe (r : re) (s : string) : list string := split_loop (String.length s) r s (start_of_text s).

(** [re.FindAllString(s, -1)], for a pattern that matches no empty text. *)
Fixpoint find_all_loop (fuel : nat) (r : re) (s : string) (x : pos) : list string :=
  match fuel, find_from r x with
  | S f, Some (i, y) => String.substring i (p_at y - i) s :: find_all_loop f r s (mkPos (p_prev y) (p_rest y) (p_at y) [])
  | _, _ => []
  end.
Definition FindAllString (r : re) (s : string) : list string := find_all_loop (String.length s) r s (start_of_text s).

(** ** Building patterns *)

Definition one (a : Ascii.ascii) : re := Chr (Ascii.eqb a).
Fixpoint Lit (s : string) : re :=
  match s with
  | EmptyString => Eps
  | String a EmptyString => one a
  | String a r => Cat (one a) (Lit r)
  end.
Definition among (s : string) (a : Ascii.ascii) : bool := existsb (Ascii.eqb a) (String.list_ascii_of_string s).
Definition In_ (s : string) : re := Chr (among s).
Definition NotIn (s : string) : re := Rune (λ a, negb (among s a)).
Definition Maybe (a : re) : re := Alt a Eps.
Definition Plus (a : re) : re := Cat a (Star a).
Fixpoint Times (n : nat) (a : re) : re := match n with O => Eps | S n => Cat a (Times n a) end.
Definition AtLeast (n : nat) (a : re) : re := Cat (Times n a) (Star a).
Fixpoint Seq (l : list re) : re := match l with [] => Eps | [a] => a | a :: l => Cat a (Seq l) end.
Fixpoint OneOf (a : re) (l : list re) : re := match l with [] => a | b :: l => Alt a (OneOf b l) end.

Definition digit_byte : Ascii.ascii → bool := between 48 57.
Definition letter_byte (a : Ascii.ascii) : bool := between 65 90 a || between 97 122 a.
Definition space_byte (a : Ascii.ascii) : bool := between 9 10 a || between 12 13 a || between 32 32 a.

(** A letter under (?i): its two cases, and for k and s the sign of Kelvin and
    the long s, which fold to them. *)
Definition fold_letter (a : Ascii.ascii) : re :=
  let both := Chr (λ b, Ascii.eqb (lower b) (lower a)) in
  if Ascii.eqb (lower a) (Ascii.ascii_of_nat 107) then Alt both (Lit (of_bytes [226; 132; 170]%nat))
  else if Ascii.eqb (lower a) (Ascii.ascii_of_nat 115) then Alt both (Lit (of_bytes [197; 191]%nat))
  else both.
Fixpoint Fold (s : string) : re :=
  match s with
  | EmptyString => Eps
  | String a EmptyString => fold_letter a
  | String a r => Cat (fold_letter a) (Fold r)
  end.

Example leftmost_first :
  match FindSubmatch (Seq [Group 1 (Plus (Lit "a")); Group 2 (OneOf (Lit "a") [Lit "ab"; Lit "b"])]) "xaab" with
  | Some g => g 1%nat = "aa" ∧ g 2%nat = "b"
  | None => False
  end.
Proof. vm_compute. split; reflexivity. Qed.
Example replaced : ReplaceAll (Seq [LineStart; Group 1 (Plus (Chr digit_byte))]) (λ g, "<" +:+ g 1%nat +:+ ">") (of_bytes [49; 50; 10; 97; 51; 10; 52]%nat)
  = "<12>" +:+ String nl ("a3" +:+ String nl "<4>").
Proof. vm_compute. reflexivity. Qed.
