(* ===== verification/GoFmt.v ===== *)
(** * Formatting, errors as text, and paths

    [fmt.Sprintf] for the verbs the code uses, the text of an error, splitting
    and replacing text, and the functions of [path/filepath] on a system whose
    separator is the slash.

    Also: paths: cleaning is idempotent, and what a relative path says. *)

From S2P Require Import Prelude GoBase GoText.

#[local] Open Scope Z_scope.

(** ** Formatting *)

Definition percent : Ascii.ascii := Ascii.ascii_of_nat 37.

(** [fmt.Sprintf] with arguments already in their plain form: %q quotes, every
    other verb writes the argument, and two percent signs write one. *)
Fixpoint sprintf (f : string) (args : list string) : string :=
  match f with
  | EmptyString => ""
  | String a f' =>
      if Ascii.eqb a percent then
        match f' with
        | EmptyString => "%!(NOVERB)"
        | String v f' =>
            if Ascii.eqb v percent then String percent (sprintf f' args)
            else match args with
                 | [] => "%!" +:+ String v ("(MISSING)" +:+ sprintf f' [])
                 | x :: args => (if Ascii.eqb v (Ascii.ascii_of_nat 113) then Quote x else x) +:+ sprintf f' args
                 end
        end
      else String a (sprintf f' args)
  end.

(** An argument in its plain form, and the text of an error. Floats, maps and
    slices have no text here; no error rendered by this function carries one. *)
Fixpoint show (a : any) : string :=
  match a with
  | AStr s => s
  | AInt z => fmt_d z
  | ABool b => if b then "true" else "false"
  | AErr f args => sprintf f (map show args)
  | AFloat _ | AList _ | AMap _ | ASlice _ => ""
  end.
Definition Error (e : error) : string := sprintf (e_format e) (map show (e_args e)).

(** [errors.New(s)] for a text known only when the program runs. *)
Definition error_of (s : string) : error := Errorf "%s" [AStr s].

Lemma Error_of s : Error (error_of s) = s.
Proof. unfold Error, error_of. cbn. apply app_nil_s. Qed.

(** ** Splitting and replacing *)

(** [strings.SplitAfter(s, c)] for one byte [c]. *)
Fixpoint SplitAfter (c : Ascii.ascii) (s : string) : list string :=
  match s with
  | EmptyString => [""]
  | String a r =>
      if Ascii.eqb a c then String a "" :: SplitAfter c r
      else match SplitAfter c r with
           | h :: t => String a h :: t
           | [] => [String a ""]
           end
  end.

(** [strings.FieldsFunc] for a test of one byte. *)
Fixpoint fields_of (sep : Ascii.ascii → bool) (cur s : string) : list string :=
  match s with
  | EmptyString => if nonempty cur then [cur] else []
  | String a r =>
      if sep a then (if nonempty cur then cur :: fields_of sep "" r else fields_of sep "" r)
      else fields_of sep (cur +:+ String a "") r
  end.
Definition FieldsFunc (sep : Ascii.ascii → bool) (s : string) : list string := fields_of sep "" s.

(** [strings.ReplaceAll] for a nonempty text to replace. Fuel: a byte a turn. *)
Fixpoint replace_all_loop (fuel : nat) (s old new : string) : string :=
  match fuel with
  | O => s
  | S f => match CutPrefix s old with
           | Some r => new +:+ replace_all_loop f r old new
           | None => match s with
                     | EmptyString => ""
                     | String a r => String a (replace_all_loop f r old new)
                     end
           end
  end.
Definition ReplaceAllStr (s old new : string) : string := replace_all_loop (S (String.length s)) s old new.

(** ** Paths *)

Definition slash : Ascii.ascii := Ascii.ascii_of_nat 47.
Definition rooted (p : string) : bool := HasPrefix p "/".

(** The elements of a path cleaned: no empty one, no ".", and ".." only in front
    of a path that is not rooted. They are kept last first while it is read. *)
Definition clean_step (root : bool) (out : list string) (e : string) : list string :=
  if String.eqb e "" || String.eqb e "." then out
  else if String.eqb e ".." then
    match out with
    | [] => if root then [] else [".."]
    | o :: out' => if String.eqb o ".." then ".." :: out else out'
    end
  else e :: out.
Definition elements (p : string) : list string := rev (foldl (clean_step (rooted p)) [] (split_byte slash p)).

Definition spell (root : bool) (l : list string) : string :=
  if root then "/" +:+ Join l "/" else match l with [] => "." | _ => Join l "/" end.

(** [filepath.Clean], [filepath.Join] of two paths and [filepath.Rel]. *)
Definition Clean (p : string) : string := spell (rooted p) (elements p).
Definition JoinPath (a b : string) : string :=
  if nonempty a then Clean (a +:+ "/" +:+ b) else if nonempty b then Clean b else "".

Fixpoint strip_common (a b : list string) : list string * list string :=
  match a, b with
  | x :: a', y :: b' => if String.eqb x y then strip_common a' b' else (a, b)
  | _, _ => (a, b)
  end.
Definition Rel (base targ : string) : res string :=
  if String.eqb (Clean targ) (Clean base) then Ok "."
  else if negb (Bool.eqb (rooted base) (rooted targ)) then Err (Errorf "Rel: can't make %s relative to %s" [AStr targ; AStr base])
  else
    let '(b, t) := strip_common (elements base) (elements targ) in
    if match b with e :: _ => String.eqb e ".." | [] => false end then
      Err (Errorf "Rel: can't make %s relative to %s" [AStr targ; AStr base])
    else Ok (Join ((const ".." <$> b) ++ t) "/").

Example sprintf_ex : sprintf "merge of %q hit %d: %s%%" ["a b"; "3"; "x"] = "merge of " +:+ Quote "a b" +:+ " hit 3: x%".
Proof. vm_compute. reflexivity. Qed.
Example Clean_ex : (Clean "", Clean "a//b/./c/..", Clean "/../a", Clean "../a/../..", JoinPath "/p" "../x", JoinPath "/p" "")
  = (".", "a/b", "/a", "../..", "/x", "/p").
Proof. vm_compute. reflexivity. Qed.
Example Rel_ex : Rel "/a/b" "/a/c/d" = Ok "../c/d" ∧ Rel "/" "/a" = Ok "a" ∧ Rel "." "a/b" = Ok "a/b" ∧ Rel "a" "a" = Ok "."
  ∧ is_ok (Rel "../a" "b") = false ∧ is_ok (Rel "/a" "b") = false.
Proof. vm_compute. repeat split; reflexivity. Qed.

(** * Paths: cleaning is idempotent, and what a relative path says

    [tidy] are the element lists of cleaned paths; [Clean] spells one and reading
    the spelling gives it back. [Rel] answers a path that does not start with two
    dots exactly when the target lies below the base. *)

#[local] Open Scope Z_scope.

Definition no_byte (c : Ascii.ascii) (s : string) : Prop := c ∉ String.list_ascii_of_string s.
#[global] Instance no_byte_dec c s : Decision (no_byte c s) := _.

Lemma no_byte_cons c a s : no_byte c (String a s) ↔ a ≠ c ∧ no_byte c s.
Proof. unfold no_byte. cbn. rewrite not_elem_of_cons. naive_solver. Qed.

Lemma split_app c a b : no_byte c a → split_byte c (a +:+ String c b) = a :: split_byte c b.
Proof.
  induction a as [|x a IH]; intros Hn; simpl; [by rewrite Ascii.eqb_refl|].
  apply no_byte_cons in Hn as [Hx Hn]. apply Ascii.eqb_neq in Hx. rewrite Hx. by rewrite IH.
Qed.

Lemma split_none c a : no_byte c a → split_byte c a = [a].
Proof.
  induction a as [|x a IH]; intros Hn; simpl; [done|]. apply no_byte_cons in Hn as [Hx Hn].
  apply Ascii.eqb_neq in Hx. by rewrite Hx, IH.
Qed.

Lemma split_pieces c s : Forall (no_byte c) (split_byte c s).
Proof.
  induction s as [|a s IH]; simpl; [constructor; [apply not_elem_of_nil|constructor]|].
  destruct (Ascii.eqb_spec a c) as [->|Ha]; [constructor; [apply not_elem_of_nil|done]|].
  destruct (split_byte c s); (constructor; [|by inversion IH || constructor]);
    apply no_byte_cons; (split; [done|]); [apply not_elem_of_nil|by inversion IH].
Qed.

Lemma split_more c a b : split_byte c (a +:+ String c b) = split_byte c a ++ split_byte c b.
Proof.
  induction a as [|x a IH]; simpl; [by rewrite Ascii.eqb_refl|].
  destruct (Ascii.eqb x c); [simpl; by f_equal|]. rewrite IH.
  pose proof (split_pieces c a). assert (split_byte c a ≠ []) as Hne.
  { destruct a as [|y a]; simpl; [done|]. destruct (Ascii.eqb y c); [done|]. by destruct (split_byte c a). }
  by destruct (split_byte c a).
Qed.

Lemma split_of_join l : l ≠ [] → Forall (no_byte slash) l → split_byte slash (Join l "/") = l.
Proof.
  induction l as [|x l IH]; intros Hne Hf; [done|]. apply Forall_cons in Hf as [Hx Hf].
  destruct l as [|y l]; [by apply split_none|].
  change (Join (x :: y :: l) "/") with (x +:+ String slash (Join (y :: l) "/")). rewrite split_app by done.
  by rewrite IH.
Qed.

(** ** Cleaned paths *)

(** An element that stays when a path is cleaned. *)
Definition plain (e : string) : Prop := e ≠ "" ∧ e ≠ "." ∧ e ≠ ".." ∧ no_byte slash e.
Definition tidy (root : bool) (l : list string) : Prop :=
  ∃ k rest, l = repeat ".." k ++ rest ∧ (root = true → k = 0%nat) ∧ Forall plain rest.

Lemma clean_plain root out e : plain e → clean_step root out e = e :: out.
Proof.
  intros (H1&H2&H3&_). unfold clean_step. apply String.eqb_neq in H1, H2, H3. by rewrite H1, H2, H3.
Qed.

Lemma repeat_snoc {A} (x : A) k : repeat x k ++ [x] = x :: repeat x k.
Proof. induction k as [|k IH]; [done|]. simpl. by f_equal. Qed.

Lemma tidy_step root out e : no_byte slash e → tidy root (rev out) → tidy root (rev (clean_step root out e)).
Proof.
  intros He (k&rest&E&Hk&Hr). unfold clean_step.
  destruct (String.eqb_spec e "") as [->|H1]; [by exists k, rest|]. destruct (String.eqb_spec e ".") as [->|H2]; [by exists k, rest|]. simpl.
  destruct (String.eqb_spec e "..") as [->|H3].
  - destruct out as [|o out]; [destruct root; [by exists 0%nat, []|by exists 1%nat, []]|]. simpl in E.
    destruct (String.eqb_spec o "..") as [->|Ho].
    + assert (rest = []) as ->.
      { destruct rest as [|r rest _] using rev_ind; [done|]. rewrite (assoc_L (++)) in E. apply app_inj_2 in E as [_ [= <-]]; [|done].
        apply Forall_app in Hr as [_ (_&_&Hd&_)%Forall_singleton]. done. }
      rewrite app_nil_r in E. exists (S k), []. simpl. rewrite E, repeat_snoc. split_and!; [by rewrite app_nil_r| |constructor].
      intros Hroot. specialize (Hk Hroot). subst k. by destruct (rev out).
    + destruct rest as [|r rest _] using rev_ind.
      * rewrite app_nil_r in E. destruct k as [|k]; [by destruct (rev out)|]. cbn [repeat] in E. rewrite <- repeat_snoc in E.
        apply app_inj_2 in E as [_ [= ->]]; done.
      * rewrite (assoc_L (++)) in E. apply app_inj_2 in E as [E _]; [|done]. apply Forall_app in Hr as [Hr _]. by exists k, rest.
  - exists k, (rest ++ [e]). simpl. rewrite E. split_and!; [by rewrite (assoc_L (++))|done|].
    apply Forall_app. split; [done|]. by apply Forall_singleton.
Qed.

Lemma tidy_foldl root l out : Forall (no_byte slash) l → tidy root (rev out) → tidy root (rev (foldl (clean_step root) out l)).
Proof. intros Hl. revert out. induction Hl as [|e l He Hl IH]; intros out Ht; [done|]. simpl. by apply IH, tidy_step. Qed.

Lemma elements_tidy p : tidy (rooted p) (elements p).
Proof. apply tidy_foldl; [apply split_pieces|]. by exists 0%nat, []. Qed.

Lemma clean_rest root rest out : Forall plain rest → foldl (clean_step root) out rest = rev rest ++ out.
Proof.
  intros Hr. revert out. induction Hr as [|e rest He Hr IH]; intros out; [done|]. simpl.
  by rewrite clean_plain, IH, <- (assoc_L (++)).
Qed.

Lemma clean_tidy root l : tidy root l → foldl (clean_step root) [] l = rev l.
Proof.
  intros (k&rest&->&Hk&Hr). rewrite foldl_app, clean_rest, rev_app_distr by done. f_equal.
  destruct root; [by rewrite Hk|]. clear. assert (∀ j, foldl (clean_step false) (repeat ".." j) (repeat ".." k) = repeat ".." (k + j)) as Hd.
  { induction k as [|k IH]; intros j; [done|]. simpl. replace (clean_step false (repeat ".." j) "..") with (repeat ".." (S j)) by (by destruct j).
    rewrite IH. replace (k + S j)%nat with (S (k + j)) by lia. done. }
  specialize (Hd 0%nat). simpl in Hd. rewrite Hd, Nat.add_0_r. clear. induction k as [|k IH]; [done|]. simpl. by rewrite <- IH, repeat_snoc.
Qed.

Lemma tidy_slash root l : tidy root l → Forall (no_byte slash) l.
Proof.
  intros (k&rest&->&_&Hr). apply Forall_app. split.
  - clear. induction k; constructor; [|done]. by apply (bool_decide_unpack _).
  - eapply Forall_impl; [exact Hr|]. by intros e (_&_&_&?).
Qed.

Lemma tidy_head l : tidy false l → l ≠ [] → ∃ a s, Join l "/" = String a s ∧ a ≠ slash.
Proof.
  intros Ht Hne. destruct l as [|e l]; [done|].
  assert (e ≠ "" ∧ no_byte slash e) as [He Hs].
  { split; [|by apply tidy_slash, Forall_cons in Ht as [? _]].
    destruct Ht as (k&rest&E&_&Hr). destruct k; simpl in E; [|by injection E as -> _]. subst rest. by apply Forall_cons in Hr as [(?&_) _]. }
  destruct e as [|a e]; [done|]. apply no_byte_cons in Hs as [Ha _].
  destruct l as [|e' l]; [by eexists _, _|]. by eexists a, _.
Qed.

Lemma rooted_cons a s : rooted (String a s) = Ascii.eqb a slash.
Proof. unfold rooted, HasPrefix. cbn. by repeat case_match. Qed.

Lemma rooted_spell root l : tidy root l → rooted (spell root l) = root.
Proof.
  intros Ht. unfold spell. destruct root; [done|]. destruct l as [|e l]; [done|].
  destruct (tidy_head (e :: l)) as (a&s&->&Ha); [done..|]. rewrite rooted_cons. by apply Ascii.eqb_neq.
Qed.

Lemma elements_spell root l : tidy root l → elements (spell root l) = l.
Proof.
  intros Ht. pose proof (rooted_spell _ _ Ht) as Hroot. unfold elements. rewrite Hroot.
  assert (foldl (clean_step root) [] (split_byte slash (spell root l)) = foldl (clean_step root) [] l) as ->.
  - unfold spell. destruct root.
    + destruct l as [|e l]; [done|]. change ("/" +:+ ?s) with (String slash s). cbn [split_byte]. rewrite Ascii.eqb_refl.
      rewrite split_of_join; [done..|by eapply tidy_slash].
    + destruct l as [|e l]; [done|]. rewrite split_of_join; [done..|by eapply tidy_slash].
  - rewrite clean_tidy by done. apply rev_involutive.
Qed.

Lemma elements_Clean p : elements (Clean p) = elements p ∧ rooted (Clean p) = rooted p.
Proof. unfold Clean. split; [apply elements_spell|apply rooted_spell]; apply elements_tidy. Qed.

Lemma rooted_app a b : a ≠ "" → rooted (a +:+ b) = rooted a.
Proof. destruct a as [|x a]; [done|]. intros _. change (String x a +:+ b) with (String x (a +:+ b)). by rewrite !rooted_cons. Qed.

(** A path below another one: the same elements and then its own. *)
Lemma elements_below p e : p ≠ "" → plain e → elements (JoinPath p e) = elements p ++ [e].
Proof.
  intros Hp He. unfold JoinPath. assert (nonempty p = true) as -> by by apply negb_true_iff, String.eqb_neq.
  destruct (elements_Clean (p +:+ "/" +:+ e)) as [-> _]. unfold elements. rewrite rooted_app by done.
  change (p +:+ "/" +:+ e) with (p +:+ String slash e). rewrite split_more, foldl_app.
  rewrite (split_none _ e) by apply He. simpl. by rewrite clean_plain.
Qed.

Lemma strip_common_spec a b x y : strip_common a b = (x, y) → ∃ c, a = c ++ x ∧ b = c ++ y.
Proof.
  revert b. induction a as [|u a IH]; intros [|v b]; simpl; try (intros [= <- <-]; by exists []).
  destruct (String.eqb_spec u v) as [->|]; [|intros [= <- <-]; by exists []].
  intros (c&->&->)%IH. by exists (v :: c).
Qed.

Lemma join_dots l : HasPrefix (Join (".." :: l) "/") ".." = true ∧ (Join (".." :: l) "/" = ".." ∨ HasPrefix (Join (".." :: l) "/") "../" = true).
Proof. destruct l as [|x l]; [split; [done|by left]|split; [done|by right]]. Qed.

(** [Rel] answers a path that stays below only for a target that does. *)
Lemma Rel_below base targ rel : Rel base targ = Ok rel → rel ≠ ".." → HasPrefix rel "../" = false →
  ∃ l, elements targ = elements base ++ l.
Proof.
  unfold Rel. destruct (String.eqb_spec (Clean targ) (Clean base)) as [E|_].
  - intros _ _ _. exists []. rewrite app_nil_r. by rewrite <- (proj1 (elements_Clean targ)), E, (proj1 (elements_Clean base)).
  - destruct (negb _); [done|]. destruct (strip_common (elements base) (elements targ)) as [b t] eqn:Hs.
    apply strip_common_spec in Hs as (c&->&->). destruct b as [|x b]; [intros _ _ _; exists t; by rewrite app_nil_r|].
    destruct (String.eqb x ".."); [done|]. intros [= <-] Hne Hpre. exfalso.
    destruct (join_dots ((const ".." <$> b) ++ t)) as [_ [Hd|Hd]]; [exact (Hne Hd)|exact (eq_true_false_abs _ Hd Hpre)].
Qed.
