(* ===== verification/ConflictHunks.v ===== *)
(** * Merge conflicts: hunks, and the ones that can be settled mechanically

    internal/mergepipeline/conflict_additive.go: reading the diff3 hunks git
    writes into a conflicted file, the merge of a hunk to which both sides only
    added, and the resolution of a whole file. The two nested loops that read a
    file are one loop over its lines: [cur] is the hunk the inner loop is in. *)

From S2P Require Import Prelude GoBase GoText GoFmt.

#[local] Open Scope Z_scope.

Definition markerOurs : string := "<<<<<<<".
Definition markerBase : string := "|||||||".
Definition markerSplit : string := "=======".
Definition markerTheirs : string := ">>>>>>>".

(** One conflicting region: the lines of the base and of each side. *)
Record Hunk := mkHunk { h_File : string; h_Index : Z; h_Line : Z; h_Ours : list string; h_Base : list string; h_Theirs : list string }.

Record ResolvedHunk := mkResolved {
  rh_File : string; rh_Index : Z; rh_Line : Z; rh_OursLines : Z; rh_TheirsLines : Z; rh_KeptLines : Z; rh_Method : string
}.

Definition MethodAdditive : string := "additive".
Definition ErrNoConflictMarkers : error := Errorf "no diff3 conflict markers in the file" [].

Inductive segment := Plain (lines : list string) | Conflict (h : Hunk).

(** The lines of a text with their newlines. *)
Definition linesOf (text : string) : list string :=
  if String.eqb text "" then []
  else let parts := SplitAfter nl text in
       if String.eqb (List.last parts "") "" then removelast parts else parts.

Definition space : Ascii.ascii := Ascii.ascii_of_nat 32.
Definition hasMarker (line marker : string) : bool :=
  match CutPrefix line marker with
  | None => false
  | Some EmptyString => true
  | Some (String a _) => Ascii.eqb a space || Ascii.eqb a nl || Ascii.eqb a cr
  end.

(** ** Reading a file *)

Inductive side := Ours | Base | Theirs.

Definition flush (plain : list string) (segs : list segment) : list segment :=
  match plain with [] => segs | _ => segs ++ [Plain plain] end.

Definition add_line (s : side) (l : string) (h : Hunk) : Hunk :=
  let '(mkHunk f i n o b t) := h in
  match s with
  | Ours => mkHunk f i n (o ++ [l]) b t
  | Base => mkHunk f i n o (b ++ [l]) t
  | Theirs => mkHunk f i n o b (t ++ [l])
  end.

(** [i] is the number of the line looked at, from 0, and [idx] the number of
    hunks opened. *)
Fixpoint parse_loop (file : string) (lines : list string) (i idx : Z) (plain : list string) (segs : list segment)
    (cur : option (Hunk * side)) : res (list segment) :=
  match lines, cur with
  | [], Some _ => Err (Errorf "%s: hunk %d is not closed" [AStr file; AInt idx])
  | [], None => if idx =? 0 then Err ErrNoConflictMarkers else Ok (flush plain segs)
  | l :: lines, None =>
      if negb (hasMarker l markerOurs) then parse_loop file lines (i + 1) idx (plain ++ [l]) segs None
      else parse_loop file lines (i + 1) (idx + 1) [] (flush plain segs) (Some (mkHunk file (idx + 1) (i + 1) [] [] [], Ours))
  | l :: lines, Some (h, s) =>
      match s with
      | Ours => if hasMarker l markerBase then parse_loop file lines (i + 1) idx plain segs (Some (h, Base))
                else if hasMarker l markerSplit then
                  Err (Errorf "%s: hunk %d has no base section (not diff3 style)" [AStr file; AInt idx])
                else parse_loop file lines (i + 1) idx plain segs (Some (add_line Ours l h, Ours))
      | Base => if hasMarker l markerSplit then parse_loop file lines (i + 1) idx plain segs (Some (h, Theirs))
                else parse_loop file lines (i + 1) idx plain segs (Some (add_line Base l h, Base))
      | Theirs => if hasMarker l markerTheirs then parse_loop file lines (i + 1) idx plain (segs ++ [Conflict h]) None
                  else parse_loop file lines (i + 1) idx plain segs (Some (add_line Theirs l h, Theirs))
      end
  end.
Definition parseConflicts (file text : string) : res (list segment) := parse_loop file (linesOf text) 0 0 [] [] None.

Definition hunks_of (segs : list segment) : list Hunk :=
  flat_map (λ s, match s with Conflict h => [h] | Plain _ => [] end) segs.
Definition ParseHunks (file text : string) : res (list Hunk) := hunks_of <$> parseConflicts file text.

(** ** Merging a hunk *)

(** The lines before the first [b], and those after it. *)
Fixpoint upto (b : string) (side : list string) : option (list string * list string) :=
  match side with
  | [] => None
  | l :: side => if String.eqb l b then Some ([], side) else '(gap, rest) ← upto b side; Some (l :: gap, rest)
  end.
Fixpoint gapsAround (base side : list string) : option (list (list string)) :=
  match base with
  | [] => Some [side]
  | b :: base => '(gap, rest) ← upto b side; gaps ← gapsAround base rest; Some (gap :: gaps)
  end.

Fixpoint equalLines (a b : list string) : bool :=
  match a, b with
  | [], [] => true
  | x :: a, y :: b => String.eqb x y && equalLines a b
  | _, _ => false
  end.

Fixpoint merge_gaps (base : list string) (og tg : list (list string)) : list string :=
  match og, tg with
  | o :: og, t :: tg =>
      o ++ (if equalLines o t then [] else t)
        ++ match base with b :: base => b :: merge_gaps base og tg | [] => [] end
  | _, _ => []
  end.
Definition additiveMerge (base ours theirs : list string) : option (list string) :=
  og ← gapsAround base ours; tg ← gapsAround base theirs; Some (merge_gaps base og tg).

(** Adds the newline a last line lacks. *)
Fixpoint ensureNewline (lines : list string) : list string :=
  match lines with
  | [] => []
  | [l] => if HasSuffix l (String nl "") then [l] else [l +:+ String nl ""]
  | l :: lines => l :: ensureNewline lines
  end.

(** ** Resolving a file *)

Definition concat_s (l : list string) : string := foldr String.append "" l.

Definition renderHunk (h : Hunk) : string :=
  (markerOurs +:+ " ours" +:+ String nl "") +:+ concat_s (ensureNewline (h_Ours h))
  +:+ (markerBase +:+ " base" +:+ String nl "") +:+ concat_s (ensureNewline (h_Base h))
  +:+ (markerSplit +:+ String nl "") +:+ concat_s (ensureNewline (h_Theirs h))
  +:+ (markerTheirs +:+ " theirs" +:+ String nl "").

Definition len {A} (l : list A) : Z := Z.of_nat (length l).

Definition settled_hunk (h : Hunk) : option (list string) :=
  additiveMerge (h_Base h) (ensureNewline (h_Ours h)) (ensureNewline (h_Theirs h)).
Definition resolved_of (file : string) (h : Hunk) (merged : list string) : ResolvedHunk :=
  mkResolved file (h_Index h) (h_Line h) (len (h_Ours h)) (len (h_Theirs h)) (len merged) MethodAdditive.

(** The text, the hunks settled and the number of those left of the segments. *)
Fixpoint resolve_segs (file : string) (segs : list segment) : string * list ResolvedHunk * nat :=
  match segs with
  | [] => ("", [], O)
  | s :: segs =>
      let '(text, resolved, next) := resolve_segs file segs in
      match s with
      | Plain ls => (concat_s ls +:+ text, resolved, next)
      | Conflict h =>
          match settled_hunk h with
          | Some merged => (concat_s merged +:+ text, resolved_of file h merged :: resolved, next)
          | None => (renderHunk h +:+ text, resolved, S next)
          end
      end
  end.

Definition is_no_markers (e : error) : bool := String.eqb (e_format e) (e_format ErrNoConflictMarkers).

(** [ResolveAdditive]: the new text, the hunks settled, the hunks left. *)
Definition ResolveAdditive (file text : string) : res (string * list ResolvedHunk * list Hunk) :=
  segs ← parseConflicts file text;
  let '(newText, resolved, next) := resolve_segs file segs in
  if (0 <? len resolved) || (0 <? next)%nat then
    match ParseHunks file newText with
    | Ok hs => Ok (newText, resolved, hs)
    | Err e => if is_no_markers e then Ok (newText, resolved, []) else Err e
    end
  else Ok (newText, resolved, []).

(** Whether a line of the text is an opening, base or closing marker. *)
Definition containsMarker (text : string) : bool :=
  existsb (λ l, hasMarker l markerOurs || hasMarker l markerBase || hasMarker l markerTheirs) (linesOf text).
