(* ===== verification/ConflictHunksLemmas.v ===== *)
(** * Merge conflicts: what a conflicted file says, and what a merged hunk keeps

    [gapsAround] finds a base in a side exactly when the base is a subsequence of
    it; [spelt] says which lines a list of segments stands for, and the reading
    of a file answers exactly those segments. *)

From S2P Require Import Prelude GoBase GoText GoFmt ConflictHunks.

#[local] Open Scope Z_scope.

Infix "⊑" := sublist (at level 70).

(** ** Gaps *)

(** The lines of a side, from the base and what it added in each gap. *)
Fixpoint weave (base : list string) (gaps : list (list string)) : list string :=
  match gaps with
  | [] => []
  | g :: gaps => g ++ match base with b :: base => b :: weave base gaps | [] => [] end
  end.

Lemma upto_split b side gap rest : upto b side = Some (gap, rest) → side = gap ++ b :: rest.
Proof.
  revert gap. induction side as [|l side IH]; intros gap; simpl; [done|].
  destruct (String.eqb_spec l b) as [->|]; [by intros [= <- <-]|].
  destruct (upto b side) as [[g r]|]; simpl; [|done]. intros [= <- <-]. by rewrite (IH _ eq_refl).
Qed.

Lemma upto_first b base side : b :: base ⊑ side → ∃ gap rest, upto b side = Some (gap, rest) ∧ base ⊑ rest.
Proof.
  induction side as [|l side IH]; intros Hs; [by apply sublist_nil_r in Hs|]. simpl.
  destruct (String.eqb_spec l b) as [->|Hne].
  - eexists _, _. split; [done|]. apply sublist_cons_l in Hs as (k1&k2&He&Hs).
    destruct k1 as [|? k1]; simplify_eq/=; [done|]. by apply sublist_inserts_l, sublist_cons.
  - apply sublist_cons_r in Hs as [Hs|(?&?&?)]; [|congruence].
    destruct (IH Hs) as (g&r&->&Hr). by eexists _, _.
Qed.

Lemma gaps_weave base side gaps : gapsAround base side = Some gaps → side = weave base gaps ∧ length gaps = S (length base).
Proof.
  revert side gaps. induction base as [|b base IH]; intros side gaps; simpl.
  - intros [= <-]. simpl. by rewrite app_nil_r.
  - destruct (upto b side) as [[g r]|] eqn:Hu; simpl; [|done].
    destruct (gapsAround base r) as [gs|] eqn:Hg; simpl; [|done]. intros [= <-].
    apply upto_split in Hu. apply IH in Hg as [-> Hl]. simpl. split; [done|]. by rewrite Hl.
Qed.

Lemma gaps_exact base side : is_Some (gapsAround base side) ↔ base ⊑ side.
Proof.
  split.
  - intros [gaps Hg]. apply gaps_weave in Hg as [-> Hl]. revert gaps Hl.
    induction base as [|b base IH]; intros gaps Hl; [apply sublist_nil_l|].
    destruct gaps as [|g gaps]; [done|]. simpl in *. apply sublist_inserts_l, sublist_skip, IH. lia.
  - revert side. induction base as [|b base IH]; intros side Hs; simpl; [by eexists|].
    destruct (upto_first _ _ _ Hs) as (g&r&->&[gs Hgs]%IH). simpl. rewrite Hgs. by eexists.
Qed.

(** ** What a merged hunk keeps *)

Lemma equalLines_eq a b : equalLines a b = true ↔ a = b.
Proof.
  revert b. induction a as [|x a IH]; intros [|y b]; simpl; [done..|].
  rewrite andb_true_iff, String.eqb_eq, IH. naive_solver.
Qed.

Lemma merge_gaps_keeps base og tg :
  length og = S (length base) → length tg = S (length base) →
  let m := merge_gaps base og tg in
  weave base og ⊑ m ∧ weave base tg ⊑ m
  ∧ (∀ l, l ∈ m → l ∈ weave base og ∨ l ∈ weave base tg)
  ∧ (length m + length base ≤ length (weave base og) + length (weave base tg))%nat.
Proof.
  revert og tg. induction base as [|b base IH]; intros [|o og] [|t tg]; simpl; intros Ho Ht; try lia.
  - destruct og, tg; [|done..]. rewrite !app_nil_r. destruct (equalLines o t) eqn:E; [apply equalLines_eq in E as ->|];
      rewrite ?app_nil_r, ?length_app; (split_and!; [..|lia]); try done.
    + by left.
    + by apply sublist_inserts_r.
    + by apply sublist_inserts_l.
    + intros l [?|?]%elem_of_app; auto.
  - destruct (IH og tg) as (H1&H2&H3&H4); [lia..|]. set (m := merge_gaps base og tg) in *.
    assert (∀ x, (x ⊑ o ++ (if equalLines o t then [] else t)) → ∀ w, w ⊑ m → x ++ b :: w ⊑ o ++ (if equalLines o t then [] else t) ++ b :: m) as Hk.
    { intros x Hx w Hw. rewrite (assoc_L (++)). apply sublist_app; [done|by apply sublist_skip]. }
    split_and!.
    + apply Hk; [by apply sublist_inserts_r|done].
    + apply Hk; [|done]. destruct (equalLines o t) eqn:E; [apply equalLines_eq in E as ->; by rewrite app_nil_r|by apply sublist_inserts_l].
    + intros l [?|[Hl|[->|Hl]%elem_of_cons]%elem_of_app]%elem_of_app; [left; apply elem_of_app; by left|..].
      * right. destruct (equalLines o t); [by apply elem_of_nil in Hl|]. apply elem_of_app. by left.
      * left. apply elem_of_app. right. left.
      * destruct (H3 _ Hl); [left|right]; apply elem_of_app; right; by right.
    + rewrite !length_app. simpl. destruct (equalLines o t); simpl; lia.
Qed.

Lemma merge_keeps base ours theirs m : additiveMerge base ours theirs = Some m →
  ours ⊑ m ∧ theirs ⊑ m ∧ (∀ l, l ∈ m → l ∈ ours ∨ l ∈ theirs) ∧ (length m + length base ≤ length ours + length theirs)%nat.
Proof.
  unfold additiveMerge. destruct (gapsAround base ours) as [og|] eqn:Ho; simpl; [|done].
  destruct (gapsAround base theirs) as [tg|] eqn:Ht; simpl; [|done]. intros [= <-].
  apply gaps_weave in Ho as [-> Ho], Ht as [-> Ht]. by apply merge_gaps_keeps.
Qed.

Lemma merge_when base ours theirs : is_Some (additiveMerge base ours theirs) ↔ base ⊑ ours ∧ base ⊑ theirs.
Proof.
  rewrite <- !gaps_exact. unfold additiveMerge. destruct (gapsAround base ours), (gapsAround base theirs); simpl;
    split; try (intros [? ?]; done); try (intros [[? ?] [? ?]]; done); try done; eauto.
Qed.

(** ** What a file says *)

Definition opens (l : string) : bool := hasMarker l markerOurs.
(** A line that ends our side, or stops the reading there. *)
Definition ends_ours (l : string) : bool := hasMarker l markerBase || hasMarker l markerSplit.

Definition none (P : string → bool) (ls : list string) : Prop := Forall (λ l, P l = false) ls.

(** The lines of one hunk: four marker lines around the three sides. *)
Definition hunk_lines (ours base theirs : list string) (ls : list string) : Prop :=
  ∃ a b c d, ls = a :: ours ++ b :: base ++ c :: theirs ++ [d]
    ∧ opens a = true ∧ hasMarker b markerBase = true ∧ hasMarker c markerSplit = true ∧ hasMarker d markerTheirs = true
    ∧ none ends_ours ours ∧ none (λ l, hasMarker l markerSplit) base ∧ none (λ l, hasMarker l markerTheirs) theirs.

Definition starts_plain (segs : list segment) : bool := match segs with Plain _ :: _ => true | _ => false end.

(** [spelt file i idx ls segs]: from line [i] on, after [idx] hunks, the lines
    [ls] are those of the segments. *)
Inductive spelt (file : string) : Z → Z → list string → list segment → Prop :=
| spelt_end i idx : spelt file i idx [] []
| spelt_plain i idx ls rest segs :
    ls ≠ [] → none opens ls → starts_plain segs = false → spelt file (i + len ls) idx rest segs →
    spelt file i idx (ls ++ rest) (Plain ls :: segs)
| spelt_hunk i idx ours base theirs ls rest segs :
    hunk_lines ours base theirs ls → spelt file (i + len ls) (idx + 1) rest segs →
    spelt file i idx (ls ++ rest) (Conflict (mkHunk file (idx + 1) (i + 1) ours base theirs) :: segs).

Lemma len_app {A} (a b : list A) : len (a ++ b) = len a + len b.
Proof. unfold len. rewrite length_app. lia. Qed.
Lemma len_cons {A} (x : A) (a : list A) : len (x :: a) = len a + 1.
Proof. unfold len. simpl. lia. Qed.
Lemma len_nonneg {A} (a : list A) : 0 ≤ len a.
Proof. unfold len. lia. Qed.

(** The first line with a property, when there is one. *)
Lemma first_with (P : string → bool) ls :
  none P ls ∨ ∃ pre l rest, ls = pre ++ l :: rest ∧ none P pre ∧ P l = true.
Proof.
  induction ls as [|x ls IH]; [left; by constructor|].
  destruct (P x) eqn:E; [right; exists [], x, ls; split_and!; [done|constructor|done]|].
  destruct IH as [?|(pre&l&rest&->&?&?)]; [left; by constructor|right].
  exists (x :: pre), l, rest. split; [done|]. split; [by constructor|done].
Qed.

(** *** Inside a hunk *)

Definition with_lines (s : side) (new : list string) (h : Hunk) : Hunk := foldl (λ h l, add_line s l h) h new.

Lemma with_ours f i n o b t new : with_lines Ours new (mkHunk f i n o b t) = mkHunk f i n (o ++ new) b t.
Proof. revert o. induction new as [|l new IH]; intros o; [by rewrite app_nil_r|]. etrans; [apply IH|]. by rewrite <- (assoc_L (++)). Qed.
Lemma with_base f i n o b t new : with_lines Base new (mkHunk f i n o b t) = mkHunk f i n o (b ++ new) t.
Proof. revert b. induction new as [|l new IH]; intros b; [by rewrite app_nil_r|]. etrans; [apply IH|]. by rewrite <- (assoc_L (++)). Qed.
Lemma with_theirs f i n o b t new : with_lines Theirs new (mkHunk f i n o b t) = mkHunk f i n o b (t ++ new).
Proof. revert t. induction new as [|l new IH]; intros t; [by rewrite app_nil_r|]. etrans; [apply IH|]. by rewrite <- (assoc_L (++)). Qed.

(** The line that ends a side. *)
Definition ends (s : side) (l : string) : bool :=
  match s with Ours => ends_ours l | Base => hasMarker l markerSplit | Theirs => hasMarker l markerTheirs end.

Lemma parse_side file pre rest i idx plain segs h s : none (ends s) pre →
  parse_loop file (pre ++ rest) i idx plain segs (Some (h, s))
  = parse_loop file rest (i + len pre) idx plain segs (Some (with_lines s pre h, s)).
Proof.
  intros Hn. revert i h. induction Hn as [|l pre Hl Hn IH]; intros i h; [by rewrite Z.add_0_r|].
  rewrite len_cons. replace (i + (len pre + 1)) with (i + 1 + len pre) by lia.
  change (with_lines s (l :: pre) h) with (with_lines s pre (add_line s l h)). rewrite <- IH.
  destruct s; simpl in *; [unfold ends_ours in Hl; apply orb_false_iff in Hl as [-> ->]|rewrite Hl..]; done.
Qed.

Lemma parse_unclosed file pre i idx plain segs h s out : none (ends s) pre →
  parse_loop file pre i idx plain segs (Some (h, s)) ≠ Ok out.
Proof. intros Hn. rewrite <- (app_nil_r pre), parse_side by done. done. Qed.

(** Reading on from an opening marker: either the hunk is complete, or the
    reading fails. *)
Lemma parse_hunk file a lines i idx plain segs out : opens a = true →
  parse_loop file (a :: lines) i idx plain segs None = Ok out ↔
  ∃ ours base theirs ls rest, a :: lines = ls ++ rest ∧ hunk_lines ours base theirs ls
    ∧ parse_loop file rest (i + len ls) (idx + 1) [] (flush plain segs ++ [Conflict (mkHunk file (idx + 1) (i + 1) ours base theirs)]) None = Ok out.
Proof.
  intros Ha. simpl. unfold opens in Ha. rewrite Ha. cbn [negb]. split.
  - intros Hp. destruct (first_with ends_ours lines) as [Hn|(ours&b&rest1&->&Ho&Hb)].
    { by apply parse_unclosed in Hp. }
    rewrite parse_side in Hp by done. simpl in Hp. rewrite with_ours in Hp.
    destruct (hasMarker b markerBase) eqn:Hb'; [|unfold ends_ours in Hb; rewrite Hb' in Hb; simpl in Hb; by rewrite Hb in Hp].
    destruct (first_with (λ l, hasMarker l markerSplit) rest1) as [Hn|(base&c&rest2&->&Hba&Hc)].
    { by apply (parse_unclosed _ _ _ _ _ _ _ Base) in Hp. }
    rewrite (parse_side _ _ _ _ _ _ _ _ Base) in Hp by done. simpl in Hp. rewrite Hc, with_base in Hp.
    destruct (first_with (λ l, hasMarker l markerTheirs) rest2) as [Hn|(theirs&d&rest3&->&Ht&Hd)].
    { by apply (parse_unclosed _ _ _ _ _ _ _ Theirs) in Hp. }
    rewrite (parse_side _ _ _ _ _ _ _ _ Theirs) in Hp by done. simpl in Hp. rewrite Hd, with_theirs in Hp.
    exists ours, base, theirs, (a :: ours ++ b :: base ++ c :: theirs ++ [d]), rest3. split_and!.
    + by repeat first [rewrite <- (assoc_L (++))|rewrite <- app_comm_cons].
    + by exists a, b, c, d.
    + rewrite <- Hp. f_equal. rewrite !len_cons, !len_app, !len_cons, !len_app, !len_cons, !len_app, !len_cons. unfold len. simpl. lia.
  - intros (ours&base&theirs&ls&rest&He&(a'&b&c&d&->&_&Hb&Hc&Hd&Ho&Hba&Ht)&Hp).
    injection He as <- ->.
    rewrite <- (assoc_L (++)), parse_side by done. simpl. rewrite Hb, with_ours.
    rewrite <- (assoc_L (++)), (parse_side _ _ _ _ _ _ _ _ Base) by done. simpl. rewrite Hc, with_base.
    rewrite <- (assoc_L (++)), (parse_side _ _ _ _ _ _ _ _ Theirs) by done. simpl. rewrite Hd, with_theirs.
    rewrite <- Hp. f_equal. rewrite !len_cons, !len_app, !len_cons, !len_app, !len_cons, !len_app, !len_cons. unfold len. simpl. lia.
Qed.

(** *** The whole file *)

Definition held (plain : list string) (segs : list segment) : list segment :=
  match plain with [] => segs | _ => Plain plain :: segs end.

Lemma flush_held plain segs new : flush plain segs ++ new = segs ++ held plain new.
Proof. destruct plain; [done|]. simpl. by rewrite <- (assoc_L (++)). Qed.

Lemma spelt_held file i idx plain ls new : none opens plain → starts_plain new = false → spelt file i idx ls new →
  spelt file (i - len plain) idx (plain ++ ls) (held plain new).
Proof.
  intros Hn Hs Hsp. destruct plain as [|p plain]; [by rewrite Z.sub_0_r|]. apply spelt_plain; [done..|].
  by rewrite Z.sub_add.
Qed.

Lemma hunks_held plain new : hunks_of (held plain new) = hunks_of new.
Proof. by destruct plain. Qed.

Lemma parse_sound file n : ∀ lines i idx plain segs out,
  (length lines ≤ n)%nat → none opens plain → parse_loop file lines i idx plain segs None = Ok out →
  ∃ new, out = segs ++ new ∧ spelt file (i - len plain) idx (plain ++ lines) new ∧ (idx = 0 → hunks_of new ≠ []).
Proof.
  induction n as [n IH] using lt_wf_ind. intros [|l lines] i idx plain segs out Hl Hn Hp.
  - simpl in Hp. destruct (idx =? 0) eqn:E; [done|]. injection Hp as <-. exists (held plain []).
    split; [by rewrite <- flush_held, app_nil_r|]. split; [|lia]. apply spelt_held; [done..|constructor].
  - destruct (opens l) eqn:Ho.
    + apply parse_hunk in Hp as (ours&base&theirs&ls&rest&He&Hh&Hp); [|done].
      assert (length rest < length (l :: lines))%nat as Hlen.
      { rewrite He, length_app. destruct Hh as (?&?&?&?&->&_). simpl. lia. }
      apply (IH (length rest)) in Hp as (new&->&Hsp&_); [|lia|done|constructor].
      rewrite <- (assoc_L (++)), flush_held. eexists. split; [done|]. rewrite He. split.
      * apply spelt_held; [done..|]. apply spelt_hunk; [done|]. by rewrite Z.sub_0_r in Hsp.
      * intros _. by rewrite hunks_held.
    + simpl in Hp. unfold opens in Ho. rewrite Ho in Hp. cbn [negb] in Hp.
      apply (IH (length lines)) in Hp as (new&->&Hsp&Hh); [|simpl in *; lia|done|].
      2:{ apply Forall_app. split; [done|]. by constructor. }
      exists new. split; [done|]. split; [|done]. rewrite <- (assoc_L (++)) in Hsp. simpl in Hsp.
      rewrite len_app in Hsp. by replace (i + 1 - (len plain + len [l])) with (i - len plain) in Hsp by (unfold len; simpl; lia).
Qed.

Lemma parse_plain file ls rest i idx plain segs : none opens ls →
  parse_loop file (ls ++ rest) i idx plain segs None = parse_loop file rest (i + len ls) idx (plain ++ ls) segs None.
Proof.
  intros Hn. revert i plain. induction Hn as [|l ls Hl Hn IH]; intros i plain; [by rewrite Z.add_0_r, app_nil_r|].
  simpl. unfold opens in Hl. rewrite Hl. cbn [negb]. rewrite IH, len_cons, <- (assoc_L (++)). f_equal. lia.
Qed.

Lemma parse_complete file i idx ls new : spelt file i idx ls new → ∀ plain segs, 0 ≤ idx → idx ≠ 0 ∨ hunks_of new ≠ [] →
  (plain = [] ∨ starts_plain new = false) → parse_loop file ls i idx plain segs None = Ok (segs ++ held plain new).
Proof.
  induction 1 as [i idx|i idx ls rest new Hne Hn Hst Hsp IH|i idx ours base theirs ls rest new Hh Hsp IH]; intros plain segs Hi Hc Hpl.
  - simpl. destruct Hc as [Hc|Hc]; [|done]. apply Z.eqb_neq in Hc. rewrite Hc. f_equal. rewrite <- flush_held. by rewrite app_nil_r.
  - destruct Hpl as [->|?]; [|done]. rewrite parse_plain, IH by auto. destruct ls; done.
  - assert (∃ a t, ls ++ rest = a :: t ∧ opens a = true) as (a&t&E&Ha).
    { destruct Hh as (a&b&c&d&->&Ha&_). by eexists _, _. }
    rewrite E. apply parse_hunk; [done|]. exists ours, base, theirs, ls, rest. split; [done|]. split; [done|].
    rewrite IH; [|lia|left; lia|by left]. by rewrite <- (assoc_L (++)), flush_held.
Qed.

Lemma parse_exact file text segs :
  parseConflicts file text = Ok segs ↔ spelt file 0 0 (linesOf text) segs ∧ hunks_of segs ≠ [].
Proof.
  unfold parseConflicts. split.
  - intros Hp. apply (parse_sound _ (length (linesOf text))) in Hp as (new&->&Hsp&Hh); [|done|constructor].
    split; [exact Hsp|by apply Hh].
  - intros [Hsp Hh]. rewrite (parse_complete _ _ _ _ _ Hsp); [done|lia|by right|by left].
Qed.

(** The file has no hunk exactly when no line of it opens one. *)
Lemma parse_none file lines i plain segs : none opens lines → parse_loop file lines i 0 plain segs None = Err ErrNoConflictMarkers.
Proof. intros Hn. by rewrite <- (app_nil_r lines), parse_plain. Qed.

Lemma parse_error file lines i idx plain segs cur e : 0 ≤ idx → (cur = None ∨ idx ≠ 0) →
  parse_loop file lines i idx plain segs cur = Err e → is_no_markers e = true → none opens lines ∧ idx = 0.
Proof.
  revert i idx plain segs cur. induction lines as [|l lines IH]; intros i idx plain segs cur Hi Hc Hp He.
  - destruct cur as [[h s]|]; simpl in Hp; [by simplify_eq|]. destruct (idx =? 0) eqn:E; [|done].
    split; [constructor|]. by apply Z.eqb_eq.
  - destruct cur as [[h s]|]; simpl in Hp.
    + exfalso. destruct Hc as [|Hc]; [done|]. destruct s; repeat case_match; simplify_eq;
        (apply IH in Hp as [_ ?]; [lia|lia|by right|done]).
    + destruct (hasMarker l markerOurs) eqn:E; simpl in Hp; apply IH in Hp as [? ?]; try lia; auto.
      split; [by constructor|done].
Qed.

(** ** Lines and their text *)

(** A line with its newline, and a last line without one. *)
Definition no_nl (p : string) : Prop := nl ∉ String.list_ascii_of_string p.
Definition full (l : string) : Prop := ∃ p, l = p +:+ String nl "" ∧ no_nl p.
Definition unended (l : string) : Prop := l ≠ "" ∧ no_nl l.

Fixpoint lines_ok (ls : list string) : Prop :=
  match ls with
  | [] => True
  | l :: rest => match rest with [] => full l ∨ unended l | _ => full l ∧ lines_ok rest end
  end.

Lemma lines_ok_app a b : lines_ok (a ++ b) → b ≠ [] → Forall full a ∧ lines_ok b.
Proof.
  induction a as [|l a IH]; intros Hok Hb; [done|].
  assert (full l ∧ lines_ok (a ++ b)) as [? Hab].
  { cbn in Hok. destruct (a ++ b) as [|? ?] eqn:E; [|done]. destruct a; simplify_eq/=. }
  destruct (IH Hab Hb). split; [by constructor|done].
Qed.

Lemma lines_ok_full a b : Forall full a → lines_ok b → lines_ok (a ++ b).
Proof.
  induction 1 as [|l a Hl Ha IH]; intros Hb; [done|]. specialize (IH Hb). cbn.
  destruct (a ++ b); [by left|done].
Qed.

Lemma list_ascii_cons a s : String.list_ascii_of_string (String a s) = a :: String.list_ascii_of_string s.
Proof. done. Qed.

Lemma no_nl_cons a s : no_nl (String a s) ↔ a ≠ nl ∧ no_nl s.
Proof. unfold no_nl. rewrite list_ascii_cons, not_elem_of_cons. naive_solver. Qed.

Lemma split_after_full p r : no_nl p → SplitAfter nl ((p +:+ String nl "") +:+ r) = (p +:+ String nl "") :: SplitAfter nl r.
Proof.
  induction p as [|a p IH]; intros Hn; simpl; [done|]. apply no_nl_cons in Hn as [Ha Hn].
  destruct (Ascii.eqb_spec a nl) as [->|_]; [done|]. simpl. by rewrite IH.
Qed.

Lemma split_after_ne c s : SplitAfter c s ≠ [].
Proof. destruct s as [|a s]; simpl; [done|]. destruct (Ascii.eqb a c); [done|]. by destruct (SplitAfter c s). Qed.

Lemma linesOf_full l r : full l → linesOf (l +:+ r) = l :: linesOf r.
Proof.
  intros (p&->&Hp). unfold linesOf.
  assert (((p +:+ String nl "") +:+ r =? "")%string = false) as -> by (destruct p; done).
  rewrite split_after_full by done. pose proof (split_after_ne nl r) as Hne.
  destruct (String.eqb_spec r "") as [->|Hr]; [done|].
  destruct (SplitAfter nl r) as [|x xs] eqn:E; [done|].
  change (List.last ((p +:+ String nl "") :: x :: xs) "") with (List.last (x :: xs) "").
  by destruct (List.last (x :: xs) "" =? "")%string.
Qed.

Lemma split_after_unended l : no_nl l → SplitAfter nl l = [l].
Proof.
  induction l as [|a l IH]; intros Hn; simpl; [done|]. apply no_nl_cons in Hn as [Ha Hn].
  destruct (Ascii.eqb_spec a nl) as [->|_]; [done|]. by rewrite IH.
Qed.

Lemma linesOf_unended l : unended l → linesOf l = [l].
Proof.
  intros [Hne Hn]. unfold linesOf. rewrite split_after_unended by done. simpl.
  by apply String.eqb_neq in Hne as ->.
Qed.

Lemma linesOf_concat ls : lines_ok ls → linesOf (concat_s ls) = ls.
Proof.
  induction ls as [|l ls IH]; intros Hok; [done|]. cbn in Hok. destruct ls as [|l' ls].
  - simpl. rewrite app_nil_s. destruct Hok as [Hf|?]; [|by apply linesOf_unended].
    rewrite <- (app_nil_s l). by rewrite linesOf_full, app_nil_s.
  - destruct Hok as [Hf Hok]. change (concat_s (l :: l' :: ls)) with (l +:+ concat_s (l' :: ls)).
    by rewrite linesOf_full, IH.
Qed.

Lemma linesOf_ok s : lines_ok (linesOf s) ∧ concat_s (linesOf s) = s.
Proof.
  remember (String.length s) as n eqn:Hn. revert s Hn. induction n as [n IH] using lt_wf_ind. intros s ->.
  destruct (decide (no_nl s)) as [Hs|Hs].
  - destruct s as [|a s]; [done|]. rewrite linesOf_unended by done. split; [right; done|]. apply app_nil_s.
  - assert (∃ p r, s = (p +:+ String nl "") +:+ r ∧ no_nl p) as (p&r&->&Hp).
    { clear IH. induction s as [|a s IHs]; [destruct Hs; apply not_elem_of_nil|].
      destruct (decide (a = nl)) as [->|Ha]; [exists "", s; split; [done|apply not_elem_of_nil]|].
      destruct IHs as (p&r&->&Hp); [intros ?; by apply Hs, no_nl_cons|].
      exists (String a p), r. split; [done|]. by apply no_nl_cons. }
    assert (full (p +:+ String nl "")) as Hf by by exists p.
    rewrite linesOf_full by done. destruct (IH (String.length r)) with (s := r) as [Hok Hc]; [|done|].
    { rewrite !length_app_s. simpl. lia. }
    split; [apply (lines_ok_full [_] _); [by constructor|done]|]. simpl. by rewrite Hc.
Qed.

Lemma ensure_full ls : Forall full ls → ensureNewline ls = ls.
Proof.
  induction 1 as [|l ls (p&->&Hp) Hf IH]; [done|]. destruct ls as [|l' ls].
  - simpl. unfold HasSuffix. by rewrite CutSuffix_app.
  - change (ensureNewline ((p +:+ String nl "") :: l' :: ls)) with ((p +:+ String nl "") :: ensureNewline (l' :: ls)). by rewrite IH.
Qed.

Lemma concat_s_app a b : concat_s (a ++ b) = concat_s a +:+ concat_s b.
Proof. induction a as [|x a IH]; [done|]. simpl. by rewrite IH, app_assoc_s. Qed.

(** ** What is written back *)

(** A hunk as it is written back: the markers with the names of the sides. *)
Definition rendered (h : Hunk) : list string :=
  (markerOurs +:+ " ours" +:+ String nl "") :: h_Ours h
  ++ (markerBase +:+ " base" +:+ String nl "") :: h_Base h
  ++ (markerSplit +:+ String nl "") :: h_Theirs h
  ++ [markerTheirs +:+ " theirs" +:+ String nl ""].

Definition piece (s : segment) : list string :=
  match s with Plain ls => ls | Conflict h => default (rendered h) (settled_hunk h) end.

Definition settles (h : Hunk) : bool := bool_decide (is_Some (settled_hunk h)).
Definition unsettled (segs : list segment) : list Hunk := List.filter (λ h, negb (settles h)) (hunks_of segs).

(** A hunk as git writes one, and none of whose lines looks like an opening
    marker. *)
Definition sides_full (h : Hunk) : Prop := Forall full (h_Ours h) ∧ Forall full (h_Base h) ∧ Forall full (h_Theirs h).
Definition sides_apart (h : Hunk) : Prop :=
  none ends_ours (h_Ours h) ∧ none (λ l, hasMarker l markerSplit) (h_Base h) ∧ none (λ l, hasMarker l markerTheirs) (h_Theirs h).
Definition sides_closed (h : Hunk) : Prop := none opens (h_Ours h) ∧ none opens (h_Theirs h).

Lemma full_line p : bool_decide (no_nl p) = true → full (p +:+ String nl "").
Proof. intros Hp%bool_decide_eq_true. by exists p. Qed.

Lemma rendered_full h : sides_full h → Forall full (rendered h).
Proof.
  intros (Ho&Hb&Ht). assert (∀ p q, full ((p +:+ q) +:+ String nl "") → full (p +:+ q +:+ String nl "")) as Hassoc by (intros; by rewrite <- app_assoc_s).
  unfold rendered. repeat first [apply Forall_cons; split|apply Forall_app; split|done|apply Forall_nil; done];
    first [apply Hassoc; by apply full_line|by apply full_line].
Qed.

Lemma render_lines h : sides_full h → renderHunk h = concat_s (rendered h).
Proof.
  intros (Ho&Hb&Ht). unfold renderHunk, rendered. rewrite !ensure_full by done.
  change (concat_s (?a :: ?l)) with (a +:+ concat_s l). cbn [concat_s foldr].
  repeat (rewrite concat_s_app; cbn [concat_s foldr]). by rewrite !app_nil_s.
Qed.

Lemma settled_full h m : sides_full h → settled_hunk h = Some m →
  h_Ours h ⊑ m ∧ h_Theirs h ⊑ m ∧ (∀ l, l ∈ m → l ∈ h_Ours h ∨ l ∈ h_Theirs h).
Proof.
  intros (Ho&Hb&Ht). unfold settled_hunk. rewrite !ensure_full by done. intros (H1&H2&H3&_)%merge_keeps. auto.
Qed.

Lemma settles_exact h : sides_full h → settles h = true ↔ h_Base h ⊑ h_Ours h ∧ h_Base h ⊑ h_Theirs h.
Proof.
  intros (Ho&Hb&Ht). unfold settles, settled_hunk. rewrite !ensure_full by done.
  by rewrite bool_decide_eq_true, merge_when.
Qed.

Lemma piece_full h : sides_full h → Forall full (piece (Conflict h)).
Proof.
  intros Hf. simpl. destruct (settled_hunk h) as [m|] eqn:E; simpl; [|by apply rendered_full].
  destruct (settled_full h m Hf E) as (_&_&Hm). destruct Hf as (Ho&_&Ht).
  apply Forall_forall. intros l [Hl|Hl]%Hm; [exact (proj1 (Forall_forall _ _) Ho l Hl)|exact (proj1 (Forall_forall _ _) Ht l Hl)].
Qed.

Lemma spelt_nil file i idx segs : spelt file i idx [] segs → segs = [].
Proof.
  intros Hsp. remember [] as ls eqn:E. destruct Hsp as [|i idx ls rest segs Hne|i idx ours base theirs ls rest segs Hh]; [done|..];
    apply app_eq_nil in E as [-> ->]; [done|]. by destruct Hh as (?&?&?&?&?&_).
Qed.

Lemma spelt_sides file i idx ls segs : spelt file i idx ls segs → lines_ok ls →
  Forall (λ h, sides_full h ∧ sides_apart h) (hunks_of segs) ∧ lines_ok (concat (piece <$> segs)).
Proof.
  induction 1 as [i idx|i idx ls rest segs Hne Hn Hst Hsp IH|i idx ours base theirs ls rest segs Hh Hsp IH]; intros Hok.
  - split; [constructor|done].
  - assert (lines_ok rest ∧ (rest = [] ∧ segs = [] ∨ Forall full ls)) as [Hr Hl].
    { destruct rest as [|r rest]; [split; [done|left; split; [done|]]|].
      - by eapply spelt_nil.
      - apply lines_ok_app in Hok as [? ?]; [|done]. by split; [|right]. }
    destruct (IH Hr) as [Hf Hp]. split; [done|]. cbn. destruct Hl as [[-> ->]|Hl]; [|by apply lines_ok_full].
    cbn. rewrite app_nil_r in *. done.
  - destruct Hh as (a&b&c&d&->&Ha&Hb&Hc&Hd&Ho&Hba&Ht).
    assert (Forall full (a :: ours ++ b :: base ++ c :: theirs) ∧ lines_ok (d :: rest)) as [Hall Hdr].
    { apply lines_ok_app; [|done]. revert Hok. by repeat first [rewrite <- (assoc_L (++))|rewrite <- app_comm_cons]. }
    assert (lines_ok rest) as Hr by (destruct rest; [done|apply Hdr]).
    destruct (IH Hr) as [Hf Hp]. apply Forall_cons in Hall as [_ [Hfo [_ [Hfb [_ Hft]%Forall_cons]%Forall_app]%Forall_cons]%Forall_app].
    assert (sides_full (mkHunk file (idx + 1) (i + 1) ours base theirs)) as Hs by done.
    split; [by constructor|]. rewrite fmap_cons. cbn [concat]. apply lines_ok_full; [by apply piece_full|done].
Qed.

(** ** Resolving a file *)

Definition resolutions (file : string) (segs : list segment) : list ResolvedHunk :=
  omap (λ h, resolved_of file h <$> settled_hunk h) (hunks_of segs).

Lemma resolve_segs_pieces file segs : Forall sides_full (hunks_of segs) →
  resolve_segs file segs = (concat_s (concat (piece <$> segs)), resolutions file segs, length (unsettled segs)).
Proof.
  induction segs as [|s segs IH]; intros Hf; [done|]. destruct s as [ls|h]; cbn [hunks_of flat_map] in Hf.
  - cbn [resolve_segs]. rewrite IH, fmap_cons by done. cbn [concat]. by rewrite concat_s_app.
  - apply Forall_cons in Hf as [Hh Hf]. cbn [resolve_segs]. rewrite IH, fmap_cons by done. cbn [concat]. rewrite concat_s_app.
    unfold resolutions, unsettled, settles. cbn [hunks_of flat_map app omap list_omap List.filter piece].
    destruct (settled_hunk h) as [m|] eqn:E; [by rewrite bool_decide_true by by eexists|].
    rewrite bool_decide_false by (intros [? ?]; congruence). cbn. by rewrite render_lines.
Qed.

Lemma all_counted file segs : hunks_of segs ≠ [] → (0 <? len (resolutions file segs)) || (0 <? length (unsettled segs))%nat = true.
Proof.
  unfold resolutions, unsettled, settles. destruct (hunks_of segs) as [|h hs]; [done|]. intros _. cbn.
  destruct (settled_hunk h) as [m|] eqn:E; cbn.
  - apply orb_true_iff. left. apply Z.ltb_lt. rewrite len_cons. pose proof (len_nonneg (omap (λ h, resolved_of file h <$> settled_hunk h) hs)). lia.
  - apply orb_true_iff. by right.
Qed.

(** The hunks of the text written back. *)
Definition sides (h : Hunk) : list string * list string * list string := (h_Ours h, h_Base h, h_Theirs h).

Lemma rendered_lines h : sides_apart h → hunk_lines (h_Ours h) (h_Base h) (h_Theirs h) (rendered h).
Proof. intros (?&?&?). by do 4 eexists. Qed.

Lemma hunks_app a b : hunks_of (a ++ b) = hunks_of a ++ hunks_of b.
Proof. apply flat_map_app. Qed.

Lemma hunks_flush plain segs : hunks_of (flush plain segs) = hunks_of segs.
Proof. destruct plain; [done|]. simpl. rewrite hunks_app. apply app_nil_r. Qed.

Definition plain_lines (segs : list segment) : list string := flat_map (λ s, match s with Plain ls => ls | Conflict _ => [] end) segs.

Lemma reparse file segs : ∀ i idx plain acc,
  Forall (λ h, sides_full h ∧ sides_apart h ∧ sides_closed h) (hunks_of segs) → none opens (plain_lines segs) →
  idx ≠ 0 ∨ unsettled segs ≠ [] → 0 ≤ idx →
  ∃ out new, parse_loop file (concat (piece <$> segs)) i idx plain acc None = Ok out
    ∧ hunks_of out = hunks_of acc ++ new ∧ sides <$> new = sides <$> unsettled segs
    ∧ h_Index <$> new = (λ k, idx + 1 + Z.of_nat k) <$> seq 0 (length new).
Proof.
  induction segs as [|s segs IH]; intros i idx plain acc Hf Hp Hc Hi.
  - destruct Hc as [Hc|]; [|done]. cbn. apply Z.eqb_neq in Hc as ->.
    exists (flush plain acc), []. by rewrite hunks_flush, app_nil_r.
  - rewrite fmap_cons. cbn [concat]. destruct s as [ls|h]; cbn [hunks_of flat_map app] in Hf.
    + cbn [plain_lines flat_map] in Hp. apply Forall_app in Hp as [Hls Hp]. rewrite parse_plain by done. by apply IH.
    + apply Forall_cons in Hf as [(Hfull&Hap&Hop) Hf].
      destruct (settled_hunk h) as [m|] eqn:E; cbn [piece]; rewrite E; cbn [default from_option].
      * assert (unsettled (Conflict h :: segs) = unsettled segs) as Hu.
        { unfold unsettled, settles. cbn. by rewrite E. }
        rewrite Hu in *. rewrite parse_plain; [by apply IH|].
        destruct (settled_full h m Hfull E) as (_&_&Hm). destruct Hop as [Ho Ht].
        apply Forall_forall. intros l [Hl|Hl]%Hm; [exact (proj1 (Forall_forall _ _) Ho l Hl)|exact (proj1 (Forall_forall _ _) Ht l Hl)].
      * destruct (IH (i + len (rendered h)) (idx + 1) [] (flush plain acc ++ [Conflict (mkHunk file (idx + 1) (i + 1) (h_Ours h) (h_Base h) (h_Theirs h))]))
          as (out&new&Hpo&Hh&Hs&Hx); [done|done|left; lia|lia|].
        eexists out, (_ :: new). split; [|split; [|split]].
        -- unfold rendered. rewrite <- app_comm_cons. apply parse_hunk; [done|].
           exists (h_Ours h), (h_Base h), (h_Theirs h), (rendered h), (concat (piece <$> segs)).
           split; [done|]. split; [by apply rendered_lines|done].
        -- rewrite Hh, hunks_app, hunks_flush. by rewrite <- (assoc_L (++)).
        -- unfold unsettled, settles. cbn. rewrite E. cbn. f_equal. apply Hs.
        -- cbn. f_equal; [lia|]. rewrite <- fmap_S_seq, <- list_fmap_compose, Hx. apply list_fmap_ext. intros ? ? _. cbn. lia.
Qed.

Lemma spelt_plain_lines file i idx ls segs : spelt file i idx ls segs → none opens (plain_lines segs).
Proof. induction 1; cbn [plain_lines flat_map]; [constructor|by apply Forall_app|done]. Qed.

(** What [ResolveAdditive] does to a file it could read. *)
Lemma resolve_eq file text segs : parseConflicts file text = Ok segs →
  ResolveAdditive file text =
    (let new := concat_s (concat (piece <$> segs)) in
     match ParseHunks file new with
     | Ok hs => Ok (new, resolutions file segs, hs)
     | Err e => if is_no_markers e then Ok (new, resolutions file segs, []) else Err e
     end)
  ∧ linesOf (concat_s (concat (piece <$> segs))) = concat (piece <$> segs).
Proof.
  intros Hp. pose proof Hp as [Hsp Hh]%parse_exact. destruct (linesOf_ok text) as [Hok _].
  destruct (spelt_sides _ _ _ _ _ Hsp Hok) as [Hf Hl]. split; [|by apply linesOf_concat].
  unfold ResolveAdditive. rewrite Hp. cbn [mbind res_bind]. rewrite resolve_segs_pieces.
  - by rewrite all_counted.
  - eapply Forall_impl; [exact Hf|]. by intros ? [? _].
Qed.

(** A text no line of which opens a conflict has no hunk left unsettled. *)
Lemma pieces_settled segs : Forall (λ h, sides_full h ∧ sides_apart h) (hunks_of segs) → none opens (concat (piece <$> segs)) →
  unsettled segs = [] ∧ ∀ h, h ∈ hunks_of segs → is_Some (settled_hunk h).
Proof.
  intros Hf Hn. assert (∀ h, h ∈ hunks_of segs → is_Some (settled_hunk h)) as Hall.
  { clear Hf. induction segs as [|s segs IH]; intros h Hh; [by apply elem_of_nil in Hh|].
    rewrite fmap_cons in Hn. cbn [concat] in Hn. apply Forall_app in Hn as [Hs Hn].
    destruct s as [ls|h0]; cbn [hunks_of flat_map] in Hh; [by apply IH|].
    apply elem_of_cons in Hh as [->|Hh]; [|by apply IH]. cbn [piece] in Hs. destruct (settled_hunk h0); [by eexists|].
    by apply Forall_cons in Hs as [? _]. }
  split; [|done]. unfold unsettled, settles. clear Hf Hn. induction (hunks_of segs) as [|h hs IH]; [done|]. cbn.
  rewrite bool_decide_true by (apply Hall; left). apply IH. intros h' Hh'. apply Hall. by right.
Qed.

Lemma resolutions_all file segs : (∀ h, h ∈ hunks_of segs → is_Some (settled_hunk h)) →
  (rh_Index <$> resolutions file segs) = (h_Index <$> hunks_of segs).
Proof.
  unfold resolutions. induction (hunks_of segs) as [|h hs IH]; intros Hall; [done|]. cbn.
  destruct (Hall h) as [m ->]; [left|]. cbn. f_equal. apply IH. intros h' Hh'. apply Hall. by right.
Qed.
