(* ===== verification/MergeDefinition.v ===== *)
(** * The merge pipeline of a project

    internal/mergepipeline: definition.go and default.go (the steps, their
    checks, the built-in pipeline), file.go (a project's own file), record.go (the
    records the daemon keeps) and resolver.go (which pipeline is in effect). The
    YAML decoder and the opening of a file below a directory are parameters. *)

From S2P Require Import Prelude GoBase GoText GoFmt GoRegexp RecordStore.

#[local] Open Scope Z_scope.

(** ** Steps *)

Definition KindTest : string := "test".
Definition KindLint : string := "lint".
Definition KindVersionBump : string := "version_bump".
Definition KindChangelog : string := "changelog".
Definition KindShip : string := "ship".
Definition KindTag : string := "tag".
Definition KindDeploy : string := "deploy".
Definition KindPostShipHook : string := "post_ship_hook".
Definition KindCustom : string := "custom".
Definition Kinds : list string :=
  [KindTest; KindLint; KindVersionBump; KindChangelog; KindShip; KindTag; KindDeploy; KindPostShipHook; KindCustom].

Definition OnFailureStop : string := "stop".
Definition OnFailureContinue : string := "continue".

Definition ActionCheckBranchVersions : string := "check_branch_versions".
Definition ActionMergeBranches : string := "merge_branches".
Definition ActionSetReleaseVersion : string := "set_release_version".
Definition ActionInsertChangelog : string := "insert_changelog_heading".
Definition ActionCommitReleaseBump : string := "commit_release_bump".
Definition ActionTagRelease : string := "tag_release".
Definition ActionPushRelease : string := "push_release".
Definition ActionDeployLatest : string := "deploy_latest".
Definition BuiltinActions : list string :=
  [ActionCheckBranchVersions; ActionMergeBranches; ActionSetReleaseVersion; ActionInsertChangelog;
   ActionCommitReleaseBump; ActionTagRelease; ActionPushRelease; ActionDeployLatest].

Record Step := mkStep {
  sp_Name : string; sp_Kind : string; sp_Command : string; sp_Action : string; sp_Dir : string; sp_OnFailure : string;
  sp_RequiresMakeTarget : string; sp_Timeout : Duration
}.

(** [Definition] *)
Definition Pipeline : Type := list Step.

Definition EffectiveOnFailure (s : Step) : string :=
  if String.eqb (sp_OnFailure s) "" then OnFailureStop else sp_OnFailure s.

(** ** Commands that would reach the operator's tmux server *)

Definition space : Ascii.ascii := Ascii.ascii_of_nat 32.
Definition tab : Ascii.ascii := Ascii.ascii_of_nat 9.
Definition blank : re := In_ (String space (String tab "")).
Definition letters : re := Star (Chr letter_byte).
(** Blanks and then anything of the same simple command, or nothing. *)
Definition words : re := Maybe (Cat (Plus blank) (Star (NotIn "|;&"))).

Definition unscopedTmuxKill : re :=
  Seq [Lit "tmux"; words; Plus blank;
       OneOf (Lit "kill-server") [Seq [Lit "kill-session"; words; blank; Lit "-"; letters; Lit "a"]]].
Definition tmuxKillScoped : re :=
  let u name := Seq [Lit "-u"; Plus blank; Lit name] in
  OneOf (Seq [Lit "tmux"; Plus blank; OneOf (Seq [Lit "-"; letters; Lit "S"; blank]) [Cat (Lit "-L") blank]])
    [Seq [Lit "env"; Plus blank;
          OneOf (Seq [u "TMUX"; Plus blank; u "TMUX_TMPDIR"]) [Seq [u "TMUX_TMPDIR"; Plus blank; u "TMUX"]];
          blank; Star (NotIn ("|;&" +:+ String nl "")); Lit "tmux"]].
Definition commandSeparators : re := Plus (In_ (";&|" +:+ String nl "")).

Definition CallsUnscopedTmuxKill (command : string) : bool :=
  existsb (λ seg, MatchString unscopedTmuxKill seg && negb (MatchString tmuxKillScoped seg)) (SplitRe commandSeparators command).

(** ** Checks *)

Definition makeTarget : re :=
  Seq [TextStart; Chr (λ a, digit_byte a || letter_byte a || among "_" a);
       Star (Chr (λ a, digit_byte a || letter_byte a || among "_.-" a)); TextEnd].
Definition windowsDrive : re := Seq [TextStart; Chr letter_byte; Lit ":"; OneOf (In_ (String slash (String backslash ""))) [TextEnd]].

Definition checkDir (dir : string) : res unit :=
  if String.eqb dir "" then Ok tt
  else if HasPrefix dir "/" || HasPrefix dir (String backslash "") || MatchString windowsDrive dir then
    Err (Errorf "dir must be relative to the project" [])
  else for_each (λ part, fail_if (String.eqb part "..") (Errorf "dir must not contain '..'" []))
         (FieldsFunc (λ a, Ascii.eqb a slash || Ascii.eqb a backslash) dir).

(** What is wrong with one step, after its label and its name. *)
Definition step_problems (label : string) (s : Step) : list string :=
  let hasCmd := nonempty (TrimSpace (sp_Command s)) in
  let hasAct := nonempty (TrimSpace (sp_Action s)) in
  (if bool_decide (sp_Kind s ∈ Kinds) then [] else [label +:+ ": unknown kind " +:+ Quote (sp_Kind s)])
  ++ (if hasCmd && hasAct then [label +:+ ": set command or action, not both"]
      else if negb hasCmd && negb hasAct then [label +:+ ": needs a command or an action"]
      else if hasAct && negb (bool_decide (sp_Action s ∈ BuiltinActions)) then [label +:+ ": unknown action " +:+ Quote (sp_Action s)]
      else [])
  ++ (if hasCmd && CallsUnscopedTmuxKill (sp_Command s) then [label +:+ ": command calls an unscoped tmux kill"] else [])
  ++ (if nonempty (sp_RequiresMakeTarget s) && negb (MatchString makeTarget (sp_RequiresMakeTarget s))
      then [label +:+ ": invalid requires_make_target " +:+ Quote (sp_RequiresMakeTarget s)] else [])
  ++ (match checkDir (sp_Dir s) with Ok _ => [] | Err e => [label +:+ ": " +:+ Error e] end)
  ++ (if bool_decide (sp_OnFailure s ∈ [""; OnFailureStop; OnFailureContinue]) then []
      else [label +:+ ": unknown on_failure " +:+ Quote (sp_OnFailure s)])
  ++ (if sp_Timeout s <? 0 then [label +:+ ": negative timeout"] else []).

Fixpoint steps_problems (i : Z) (seen : list string) (steps : list Step) : list string :=
  match steps with
  | [] => []
  | s :: steps =>
      let label := "step " +:+ fmt_d (i + 1) in
      if String.eqb (TrimSpace (sp_Name s)) "" then
        (label +:+ ": empty name") :: step_problems label s ++ steps_problems (i + 1) seen steps
      else
        let label := label +:+ " (" +:+ sp_Name s +:+ ")" in
        (if bool_decide (sp_Name s ∈ seen) then [label +:+ ": duplicate name"] else [])
        ++ step_problems label s ++ steps_problems (i + 1) (sp_Name s :: seen) steps
  end.

(** [Validate], with the problems of its [*ValidationError]. *)
Definition problems (d : Pipeline) : list string :=
  (match d with [] => ["no steps"] | _ => [] end) ++ steps_problems 0 [] d.
Definition Validate (d : Pipeline) : res unit :=
  match problems d with
  | [] => Ok tt
  | ps => Err (Errorf "invalid merge pipeline: %s" [AStr (Join ps "; ")])
  end.

(** ** The built-in pipeline *)

Definition DefaultDefinition : Pipeline :=
  let action name kind action failure timeout := mkStep name kind "" action "" failure "" timeout in
  [action "check-branch-versions" KindCustom ActionCheckBranchVersions OnFailureStop (2 * Minute);
   mkStep "check-internal-refs" KindLint "make check-internal-refs" "" "" OnFailureStop "check-internal-refs" (10 * Minute);
   action "merge-branches" KindShip ActionMergeBranches OnFailureStop (5 * Minute);
   action "set-release-version" KindVersionBump ActionSetReleaseVersion OnFailureStop Minute;
   action "insert-changelog-heading" KindChangelog ActionInsertChangelog OnFailureStop Minute;
   action "commit-release-bump" KindShip ActionCommitReleaseBump OnFailureStop Minute;
   action "tag-release" KindTag ActionTagRelease OnFailureStop Minute;
   action "push-release" KindShip ActionPushRelease OnFailureStop (5 * Minute);
   action "deploy-latest" KindDeploy ActionDeployLatest OnFailureContinue (10 * Minute)].

Example default_is_valid : Validate DefaultDefinition = Ok tt.
Proof. vm_compute. reflexivity. Qed.
Example tmux_kills : CallsUnscopedTmuxKill "make test && tmux kill-server" = true
  ∧ CallsUnscopedTmuxKill "tmux -L scratch kill-server" = false
  ∧ CallsUnscopedTmuxKill "tmux -L a ls; tmux  kill-session -t x -a" = true
  ∧ CallsUnscopedTmuxKill "env -u TMUX -u TMUX_TMPDIR make x tmux kill-server" = false
  ∧ CallsUnscopedTmuxKill "tmux kill-session -t x" = false.
Proof. vm_compute. repeat split; reflexivity. Qed.
