(* ===== verification/MergeResolve.v ===== *)
(** * The merge pipeline of a project: where it comes from

    internal/mergepipeline: file.go (the project's own file), record.go (the
    records the daemon keeps, one file rewritten after each change) and
    resolver.go (the source in effect). Opening a file below the project's
    directory and decoding YAML are parameters.

    Also: the merge pipeline of a project: the one in effect is valid. *)

From S2P Require Import Prelude GoBase GoText GoFmt RecordStore MergeDefinition.

#[local] Open Scope Z_scope.

(** ** The project's own file *)

Definition DefaultFileName : string := ".datawatch/merge-pipeline.yaml".
Definition DefaultMaxFileBytes : Z := 64 * 1024.

(** The typed errors of [LoadFile]. *)
Inductive FileError := ErrNotFound (path : string) | ErrMalformed (path : string) (e : error) | ErrTooLarge (path : string) (limit : Z).
Definition file_error (e : FileError) : error :=
  match e with
  | ErrNotFound p => Errorf "merge pipeline file not found: %s" [AStr p]
  | ErrMalformed p e => Errorf "merge pipeline file %s is malformed: %v" [AStr p; wrapped e]
  | ErrTooLarge p n => Errorf "merge pipeline file %s is larger than %d bytes" [AStr p; AInt n]
  end.

(** What opening and reading a file below a directory answers: the directory or
    the file is not there, another failure of either, the bytes. *)
Inductive opened := Missing | OpenFailed (e : error) | Content (data : string).

Section file.
Context (open_below : string → string → opened) (decode : string → res Pipeline).

Definition Parse (data name : string) : Pipeline + FileError :=
  match decode data with
  | Err e => inr (ErrMalformed name e)
  | Ok d => match Validate d with
            | Err e => inr (ErrMalformed name e)
            | Ok _ => inl d
            end
  end.

Definition LoadFile (projectDir fileName : string) (maxBytes : Z) : Pipeline + FileError :=
  let maxBytes := if maxBytes <=? 0 then DefaultMaxFileBytes else maxBytes in
  if String.eqb fileName "" then inr (ErrMalformed fileName (Errorf "no file name given" []))
  else match checkDir fileName with
       | Err e => inr (ErrMalformed fileName e)
       | Ok _ =>
           let path := JoinPath projectDir fileName in
           match open_below projectDir fileName with
           | Missing => inr (ErrNotFound path)
           | OpenFailed e => inr (ErrMalformed path e)
           | Content data => if maxBytes <? len_s data then inr (ErrTooLarge path maxBytes) else Parse data path
           end
       end.
End file.

(** ** The records *)

Record MergeRecord := mkRecord { mr_Project : string; mr_Definition : Pipeline; mr_UpdatedAt : Time }.

(** [RecordStore]: the records, and what the file holds. *)
Record Records := mkRecords { rs_records : gmap string MergeRecord; rs_file : option (list MergeRecord) }.

Definition ErrRecordNotFound : error := Errorf "merge pipeline record not found" [].

Section records.
Context {W : Type} `{!Disk W MergeRecord}.

Definition GetRecord (s : Records) (project : string) : res MergeRecord :=
  match rs_records s !! project with Some r => Ok r | None => Err ErrRecordNotFound end.

Definition persist (w : W) (s : Records) : W * Records * option string :=
  let l := range w (rs_records s) in
  match write w l with
  | (w, None) => (w, mkRecords (rs_records s) (Some l), None)
  | (w, Some e) => (w, s, Some e)
  end.

(** A change of the map, kept only when it could be written. *)
Definition stored (w : W) (records : gmap string MergeRecord) (s : Records) : W * Records * option string :=
  match persist w (mkRecords records (rs_file s)) with
  | (w, s', None) => (w, s', None)
  | (w, s', Some e) => (w, mkRecords (rs_records s) (rs_file s'), Some e)
  end.

Definition SetRecord (w : W) (project : string) (def : Pipeline) (s : Records) : W * Records * res MergeRecord :=
  if String.eqb (TrimSpace project) "" then (w, s, Err (Errorf "project name is required" []))
  else match Validate def with
       | Err e => (w, s, Err e)
       | Ok _ =>
           let rec := mkRecord project def (wall w) in
           match stored w (<[project := rec]> (rs_records s)) s with
           | (w, s, None) => (w, s, Ok rec)
           | (w, s, Some e) => (w, s, Err (error_of e))
           end
       end.

Definition DeleteRecord (w : W) (project : string) (s : Records) : W * Records * option error :=
  match rs_records s !! project with
  | None => (w, s, Some ErrRecordNotFound)
  | Some _ =>
      let '(w, s, e) := stored w (delete project (rs_records s)) s in (w, s, error_of <$> e)
  end.

Definition ListRecords (w : W) (s : Records) : list MergeRecord :=
  sort_by (λ a b, String.ltb (mr_Project a) (mr_Project b)) (range w (rs_records s)).

(** [NewRecordStore] on a file read back; no file is an empty store. *)
Definition NewRecordStore (file : option (list MergeRecord)) : Records :=
  mkRecords (load_list mr_Project (default [] file)) file.
End records.

(** ** The source in effect *)

Definition SourceFile : string := "file".
Definition SourceRecord : string := "record".
Definition SourceDefault : string := "default".

Definition FallbackRecord : string := "record".
Definition FallbackDefault : string := "default".
Definition FallbackNone : string := "none".

(** [Settings] *)
Record SourceSettings := mkSettings {
  st_FileName : string; st_SourceOrder : list string; st_FallbackOnBadFile : string; st_MaxFileBytes : Z
}.
Definition DefaultSettings : SourceSettings := mkSettings DefaultFileName [SourceFile; SourceRecord] FallbackRecord 0.

Record Resolution := mkResolution {
  re_Definition : Pipeline; re_Source : string; re_Reason : string; re_FileError : option FileError
}.

Record Resolver := mkResolver {
  rv_Records : option Records;
  rv_ProjectDir : option (string → option string);
  rv_Settings : option (string → SourceSettings)
}.

Definition joinNotes (notes : list string) : string :=
  let out := foldl (λ '(i, out) n, (S i, (if (0 <? i)%nat then out +:+ "; " else out) +:+ n)) (0%nat, "") notes in
  if String.eqb out.2 "" then "no source configured" else out.2.

Section resolve.
Context (open_below : string → string → opened) (decode : string → res Pipeline).

Definition loadFile (r : Resolver) (project : string) (set : SourceSettings) : Pipeline + FileError :=
  match rv_ProjectDir r with
  | None => inr (ErrNotFound (st_FileName set))
  | Some dir_of =>
      match dir_of project with
      | None => inr (ErrNotFound (st_FileName set))
      | Some dir => if String.eqb dir "" then inr (ErrNotFound (st_FileName set))
                    else LoadFile open_below decode dir (st_FileName set) (st_MaxFileBytes set)
      end
  end.

Definition record_of (r : Resolver) (project : string) : option MergeRecord :=
  s ← rv_Records r; match GetRecord s project with Ok rec => Some rec | Err _ => None end.

Definition fromRecord (r : Resolver) (project : string) (notes : list string) : option Resolution :=
  rec ← record_of r project;
  let reason := "the daemon's record for the project is in effect" in
  Some (mkResolution (mr_Definition rec) SourceRecord
          (match notes with [] => reason | _ => joinNotes notes +:+ "; " +:+ reason end) None).

(** The definition that stands in for an unusable file; the error when none does. *)
Definition badFile (r : Resolver) (project : string) (set : SourceSettings) (e : FileError) : Resolution * option FileError :=
  let text := Error (file_error e) in
  if String.eqb (st_FallbackOnBadFile set) FallbackNone then
    (mkResolution [] SourceFile "the project's file is unusable and the setting allows no substitute" (Some e), Some e)
  else if String.eqb (st_FallbackOnBadFile set) FallbackDefault then
    (mkResolution DefaultDefinition SourceDefault
       ("the project's file is unusable (" +:+ text +:+ "); using the built-in pipeline as the setting allows") (Some e), None)
  else match record_of r project with
       | Some rec =>
           (mkResolution (mr_Definition rec) SourceRecord
              ("the project's file is unusable (" +:+ text +:+ "); using the daemon's record as the setting allows") (Some e), None)
       | None =>
           (mkResolution [] SourceFile "the project's file is unusable and there is no daemon record to fall back on" (Some e), Some e)
       end.

Fixpoint try_sources (r : Resolver) (project : string) (set : SourceSettings) (order notes : list string)
    : Resolution * option FileError :=
  match order with
  | [] => (mkResolution DefaultDefinition SourceDefault (joinNotes notes +:+ "; using the built-in pipeline") None, None)
  | name :: order =>
      if String.eqb name SourceFile then
        match loadFile r project set with
        | inl def => (mkResolution def SourceFile (sprintf "the project's own file %s is present and valid" [st_FileName set]) None, None)
        | inr (ErrNotFound _) =>
            try_sources r project set order (notes ++ [sprintf "no file %s in the project" [st_FileName set]])
        | inr e => badFile r project set e
        end
      else if String.eqb name SourceRecord then
        match fromRecord r project notes with
        | Some res => (res, None)
        | None => try_sources r project set order (notes ++ ["no daemon record for the project"])
        end
      else try_sources r project set order (notes ++ ["unknown source " +:+ Quote name +:+ " ignored"])
  end.

Definition Resolve (r : Resolver) (project : string) : Resolution * option FileError :=
  let set := match rv_Settings r with Some f => f project | None => DefaultSettings end in
  let set := mkSettings (if String.eqb (st_FileName set) "" then DefaultFileName else st_FileName set)
               (match st_SourceOrder set with [] => st_SourceOrder DefaultSettings | l => l end)
               (st_FallbackOnBadFile set) (st_MaxFileBytes set) in
  try_sources r project set (st_SourceOrder set) [].
End resolve.

(** * The merge pipeline of a project: the one in effect is valid

    The records keep only definitions the checks accept, and what the file holds is
    what is in memory, over every sequence of calls and restarts; so whatever source
    a project's pipeline comes from, it is one the checks accept. *)

#[local] Open Scope Z_scope.

Definition valid (d : Pipeline) : Prop := Validate d = Ok tt.

Section records2.
Context {W : Type} `{!Disk W MergeRecord, !DiskLaws W MergeRecord}.

Inductive record_call := CallSet (project : string) (d : Pipeline) | CallDelete (project : string) | CallRestart.

Definition after_call (w : W) (s : Records) (c : record_call) : W * Records :=
  match c with
  | CallSet p d => (SetRecord w p d s).1
  | CallDelete p => (DeleteRecord w p s).1
  | CallRestart => (w, NewRecordStore (rs_file s))
  end.
Fixpoint after_calls (w : W) (s : Records) (cs : list record_call) : W * Records :=
  match cs with
  | [] => (w, s)
  | c :: cs => let '(w, s) := after_call w s c in after_calls w s cs
  end.

(** Every record is under its project and valid, and the file says the same. *)
Definition records_ok (s : Records) : Prop :=
  keyed mr_Project (rs_records s) ∧ map_Forall (λ _ rec, valid (mr_Definition rec)) (rs_records s)
  ∧ load_list mr_Project (default [] (rs_file s)) = rs_records s.

Lemma stored_ok w records s : records_ok s →
  keyed mr_Project records → map_Forall (λ _ rec, valid (mr_Definition rec)) records → records_ok (stored w records s).1.2.
Proof.
  intros (Hk&Hv&Hf) Hk' Hv'. unfold stored, persist. cbn [rs_records rs_file].
  destruct (write w (range w records)) as [w' [e|]]; cbn; [done|]. split_and!; [done..|].
  apply load_list_values; [done|]. apply range_perm.
Qed.

Lemma after_call_ok w s c : records_ok s → records_ok (after_call w s c).2.
Proof.
  intros Hs. pose proof Hs as (Hk&Hv&Hf). destruct c as [p d|p|]; cbn [after_call].
  - unfold SetRecord. destruct (String.eqb _ _); [done|]. destruct (Validate d) as [[]|e] eqn:Hd; [|done]. cbn zeta.
    pose proof (stored_ok w (<[p := mkRecord p d (wall w)]> (rs_records s)) s Hs) as Hst.
    destruct (stored _ _ _) as [[w' s'] [e|]]; apply Hst; try (by apply (keyed_insert _ _ (mkRecord p d (wall w))));
      by apply map_Forall_insert_2.
  - unfold DeleteRecord. destruct (rs_records s !! p) as [rec|]; [|done].
    pose proof (stored_ok w (delete p (rs_records s)) s Hs) as Hst.
    destruct (stored _ _ _) as [[w' s'] e]; apply Hst; [by apply keyed_delete|by apply map_Forall_delete].
  - cbn. unfold NewRecordStore. cbn. rewrite Hf. by split_and!.
Qed.

Lemma after_calls_ok cs w s : records_ok s → records_ok (after_calls w s cs).2.
Proof.
  revert w s. induction cs as [|c cs IH]; intros w s Hs; [done|]. cbn.
  pose proof (after_call_ok w s c Hs) as Hc. destruct (after_call w s c) as [w' s']. by apply IH.
Qed.

Lemma new_ok : records_ok (NewRecordStore None).
Proof. split_and!; [apply keyed_empty|apply map_Forall_empty|done]. Qed.
End records2.

Section resolve2.
Context (open_below : string → string → opened) (decode : string → res Pipeline).

Lemma LoadFile_valid dir name max d : LoadFile open_below decode dir name max = inl d → valid d.
Proof.
  unfold LoadFile, Parse, valid. repeat case_match; intros; simplify_eq; by repeat match goal with u : unit |- _ => destruct u end.
Qed.

Lemma record_of_valid r project rec : (∀ s, rv_Records r = Some s → records_ok s) → record_of r project = Some rec → valid (mr_Definition rec).
Proof.
  intros Hok. unfold record_of. destruct (rv_Records r) as [s|] eqn:Hs; cbn; [|done]. destruct (Hok s eq_refl) as (_&Hv&_).
  unfold GetRecord. destruct (rs_records s !! project) as [rec'|] eqn:Hl; [|done]. intros [= <-]. by eapply Hv.
Qed.

Lemma try_sources_valid r project set order notes res : (∀ s, rv_Records r = Some s → records_ok s) →
  try_sources open_below decode r project set order notes = (res, None) → valid (re_Definition res).
Proof.
  intros Hok. revert notes. induction order as [|name order IH]; intros notes; cbn [try_sources].
  - intros [= <-]. apply default_is_valid.
  - destruct (String.eqb name SourceFile).
    + destruct (loadFile _ _ _ _ _) as [d|e] eqn:Hl.
      * intros [= <-]. unfold loadFile in Hl. repeat case_match; simplify_eq. by eapply LoadFile_valid.
      * unfold badFile. destruct e; [apply IH|..]; (destruct (String.eqb _ _); [done|]); (destruct (String.eqb _ _);
          [intros [= <-]; apply default_is_valid|]); destruct (record_of r project) as [rec|] eqn:Hr; try done;
          intros [= <-]; by eapply record_of_valid.
    + destruct (String.eqb name SourceRecord); [|apply IH].
      unfold fromRecord. destruct (record_of r project) as [rec|] eqn:Hr; cbn; [|apply IH].
      intros [= <-]. by eapply record_of_valid.
Qed.
End resolve2.
