(* ===== verification/Effects.v ===== *)
(** * Programs that call the outside

    A program is a tree of calls and what it does with each answer ([Prog]), over
    any kind of calls [Op] with their answers. Nothing is assumed of the answers: a
    theorem about a program holds whatever the outside replies. [runs] lists the
    calls of a run with their answers, [play] runs a program against a simulated
    outside, and [wp] follows a run with an observer of the calls, so that
    properties of the order of calls are proved call by call. *)

From S2P Require Import Prelude GoText.

(** ** Programs *)

Inductive Prog (Op : Set → Type) (A : Type) : Type :=
| Ret (a : A)
| Call {X : Set} (op : Op X) (k : X → Prog Op A).
Arguments Ret {_ _} _.
Arguments Call {_ _ _} _ _.

Fixpoint prog_bind {Op A B} (f : A → Prog Op B) (m : Prog Op A) : Prog Op B :=
  match m with Ret a => f a | Call op k => Call op (λ x, prog_bind f (k x)) end.
#[global] Instance prog_ret {Op} : MRet (Prog Op) := @Ret Op.
#[global] Instance prog_mbind {Op} : MBind (Prog Op) := @prog_bind Op.

Definition call {Op : Set → Type} {X : Set} (op : Op X) : Prog Op X := Call op Ret.

(** An early return: [try] goes on with the result and hands an error back. *)
Definition try {Op A B} (m : Prog Op (res A)) (k : A → Prog Op (res B)) : Prog Op (res B) :=
  r ← m; match r with Ok a => k a | Err e => Ret (Err e) end.
Notation "x '←?' m ; k" := (try m (λ x, k)) (at level 20, m at level 100, k at level 200, right associativity).

(** ** Runs *)

Inductive event (Op : Set → Type) :=
| Event {X : Set} (op : Op X) (x : X).
Arguments Event {_ _} _ _.

Section runs.
Context {Op : Set → Type}.

(** [runs m t a]: some answers make the calls [t] of [m], which then ends in [a]. *)
Fixpoint runs {A} (m : Prog Op A) (t : list (event Op)) (a : A) : Prop :=
  match m with
  | Ret b => t = [] ∧ a = b
  | Call op k => ∃ x t', t = Event op x :: t' ∧ runs (k x) t' a
  end.

(** A run against answers computed from a state. *)
Fixpoint play {A S} (answers : ∀ X : Set, S → Op X → S * X) (m : Prog Op A) (s : S) : list (event Op) * A :=
  match m with
  | Ret a => ([], a)
  | Call op k => let '(s, x) := answers _ s op in let '(t, a) := play answers (k x) s in (Event op x :: t, a)
  end.

Lemma play_runs {A S} (answers : ∀ X : Set, S → Op X → S * X) (m : Prog Op A) s : runs m (play answers m s).1 (play answers m s).2.
Proof.
  revert s. induction m as [a|X op k IH]; intros s; simpl; [done|].
  destruct (answers X s op) as [s' x]. specialize (IH x s'). destruct (play answers (k x) s') as [t a]. by exists x, t.
Qed.

End runs.

(** ** Following a run

    [next] is what an observer notes of a call and its answer. [wp m s Q]:
    started in [s], the observer is in a state with [Q] when [m] has ended,
    whatever the answers. *)
Section observer.
Context {Op : Set → Type} {S : Type} (next : S → event Op → S).

Fixpoint wp {A} (m : Prog Op A) (s : S) (Q : S → A → Prop) : Prop :=
  match m with
  | Ret a => Q s a
  | Call op k => ∀ x, wp (k x) (next s (Event op x)) Q
  end.

Lemma wp_runs {A} (m : Prog Op A) s Q : wp m s Q ↔ ∀ t a, runs m t a → Q (foldl next s t) a.
Proof.
  revert s. induction m as [b|X op k IH]; intros s; simpl.
  - split; [by intros ? ? ? [-> ->]|]. intros H. by apply (H []).
  - split.
    + intros H t a (x&t'&->&Hr). simpl. by apply (proj1 (IH x _) (H x)).
    + intros H x. apply IH. intros t a Hr. apply (H (Event op x :: t)). eauto.
Qed.

Lemma wp_mono {A} (m : Prog Op A) s (Q Q' : S → A → Prop) : wp m s Q → (∀ s a, Q s a → Q' s a) → wp m s Q'.
Proof. intros H HQ. revert s H. induction m as [a|X op k IH]; intros s; simpl; [apply HQ|]. eauto. Qed.

Lemma wp_bind {A B} (f : A → Prog Op B) m s Q : wp m s (λ s a, wp (f a) s Q) → wp (m ≫= f) s Q.
Proof.
  unfold mbind, prog_mbind. revert s. induction m as [a|X op k IH]; intros s; simpl; [done|]. intros H x. by apply IH.
Qed.

Lemma wp_try {A B} (m : Prog Op (res A)) (k : A → Prog Op (res B)) s Q :
  wp m s (λ s r, match r with Ok a => wp (k a) s Q | Err e => Q s (Err e) end) → wp (try m k) s Q.
Proof. intros H. apply wp_bind. eapply wp_mono; [exact H|]. by intros ? [a|e]. Qed.

(** Calls the observer takes no note of. *)
Definition unseen {A} (m : Prog Op A) : Prop := ∀ s Q, (∀ a, Q s a) → wp m s Q.

Lemma unseen_ret {A} (a : A) : unseen (Ret a).
Proof. intros s Q H. apply H. Qed.
Lemma unseen_call {X : Set} (op : Op X) : (∀ s x, next s (Event op x) = s) → unseen (call op).
Proof. intros Hn s Q H x. simpl. rewrite Hn. apply H. Qed.
Lemma unseen_bind {A B} (m : Prog Op A) (f : A → Prog Op B) : unseen m → (∀ a, unseen (f a)) → unseen (m ≫= f).
Proof. intros Hm Hf s Q H. apply wp_bind, Hm. intros a. by apply Hf. Qed.
Lemma unseen_try {A B} (m : Prog Op (res A)) (k : A → Prog Op (res B)) : unseen m → (∀ a, unseen (k a)) → unseen (try m k).
Proof. intros Hm Hk. apply unseen_bind; [done|]. intros [a|e]; [apply Hk|apply unseen_ret]. Qed.
End observer.

(** ** Programs that keep to some calls *)
Section only.
Context {Op : Set → Type} (P : ∀ X : Set, Op X → Prop).

Fixpoint only {A} (m : Prog Op A) : Prop :=
  match m with Ret _ => True | Call op k => P _ op ∧ ∀ x, only (k x) end.

Lemma only_ret {A} (a : A) : only (Ret a).
Proof. done. Qed.
Lemma only_call {X : Set} (op : Op X) : P X op → only (call op).
Proof. done. Qed.
Lemma only_bind {A B} (m : Prog Op A) (f : A → Prog Op B) : only m → (∀ a, only (f a)) → only (m ≫= f).
Proof. intros Hm Hf. unfold mbind, prog_mbind. induction m as [a|X op k IH]; simpl; [apply Hf|naive_solver]. Qed.
Lemma only_try {A B} (m : Prog Op (res A)) (k : A → Prog Op (res B)) : only m → (∀ a, only (k a)) → only (try m k).
Proof. intros Hm Hk. apply only_bind; [done|]. by intros [a|e]. Qed.

Lemma only_runs {A} (m : Prog Op A) t a : only m → runs m t a → Forall (λ e, match e with Event op _ => P _ op end) t.
Proof.
  revert t. induction m as [b|X op k IH]; intros t Ho Hr; simpl in *.
  - destruct Hr as [-> _]. constructor.
  - destruct Ho as [Hp Ho], Hr as (x&t'&->&Hr). constructor; [done|]. by eapply IH.
Qed.

(** An observer whom those calls cannot move from [I] *)
Lemma wp_only {A S} (next : S → event Op → S) (I : S → Prop) (m : Prog Op A) s :
  only m → I s → (∀ s X (op : Op X) x, P X op → I s → I (next s (Event op x))) → wp next m s (λ s _, I s).
Proof. intros Ho Hi HI. revert s Hi. induction m as [b|X op k IH]; intros s Hi; simpl in *; [done|]. naive_solver. Qed.
End only.

Lemma only_mono {Op : Set → Type} (P Q : ∀ X : Set, Op X → Prop) {A} (m : Prog Op A) :
  only P m → (∀ X (op : Op X), P X op → Q X op) → only Q m.
Proof. intros Ho HPQ. induction m as [a|X op k IH]; simpl in *; [done|]. naive_solver. Qed.
