(* ===== verification/MergeBranch.v ===== *)
(** * Merging a branch: the whole of it

    internal/mergepipeline: [MergeBranch] of conflict.go and [proposeWithModel] of
    conflict_propose.go, from the parts in MergeConflict. *)

From S2P Require Import Prelude Effects GoBase GoText GoFmt GoCrypto MergeDefinition.
From S2P Require Import ConflictHunks MergeConflict.

#[local] Open Scope Z_scope.

Section branch.
Context {order : MapRange} (decode_reply : string → res (list proposalItem * bool)) (m : Merger).

Definition message (req : MergeRequest) : string :=
  if String.eqb (rq_Message req) "" then "Merge branch '" +:+ rq_Branch req +:+ "'" else rq_Message req.

Definition failed_attempt (result detail : string) (hunks : Z) : ModelAttempt := mkAttempt result detail "" hunks.

(** ** The attempt of the conflict model *)

(** Additive hunks first: the text of each file, and the hunks left. *)
Fixpoint collect_loop (scratch : string) (files : list string) (texts : gmap string string) (want : list Hunk)
    : Prog (gmap string string * list Hunk + ModelAttempt) :=
  match files with
  | [] => Ret (inl (texts, want))
  | f :: files =>
      match filePath scratch f with
      | Err e => Ret (inr (failed_attempt AttemptNotApplicable (Error e) 0))
      | Ok p =>
          data ← call (ReadFile p);
          match data with
          | Err _ => Ret (inr (failed_attempt AttemptNotApplicable (f +:+ " cannot be proposed for as text") 0))
          | Ok data =>
              if is_binary data then Ret (inr (failed_attempt AttemptNotApplicable (f +:+ " cannot be proposed for as text") 0))
              else match ResolveAdditive f data with
                   | Err _ => Ret (inr (failed_attempt AttemptNotApplicable (f +:+ " has no usable conflict markers") 0))
                   | Ok (text, _, rest) => collect_loop scratch files (<[f := text]> texts) (want ++ rest)
                   end
          end
      end
  end.

(** The proposal put into each text that still has markers. *)
Fixpoint apply_loop (got : list (string * Z * string)) (range : list (string * string)) (texts : gmap string string)
    : res (gmap string string) :=
  match range with
  | [] => Ok texts
  | (f, text) :: range =>
      if negb (containsMarker text) then apply_loop got range texts
      else next ← applyProposal f text got; apply_loop got range (<[f := next]> texts)
  end.

(** From the scratch worktree's tested texts on: commit there, then move the project. *)
Definition land (ctx : Ctx) (scratch msg : string) (hunks : Z) : Prog ModelAttempt :=
  c ← gitOK m ctx scratch ["commit"; "--no-edit"; "-m"; msg];
  match c with
  | Err e => Ret (failed_attempt AttemptCommitFailed (Error e) hunks)
  | Ok _ =>
      sha ← revParse m ctx scratch "HEAD";
      match sha with
      | Err e => Ret (failed_attempt AttemptCommitFailed (Error e) hunks)
      | Ok sha =>
          ff ← gitOK m ctx (me_Dir m) ["merge"; "--ff-only"; sha];
          Ret match ff with
              | Err e => failed_attempt AttemptFastForwardFail (Error e) hunks
              | Ok _ => mkAttempt AttemptAccepted "" "" hunks
              end
      end
  end.

(** From the model's reply on. *)
Definition try_proposal (ctx : Ctx) (set : ConflictSettings) (scratch msg reply : string) (texts : gmap string string) (want : list Hunk)
    : Prog ModelAttempt :=
  let n := len want in
  match parseProposal decode_reply reply want with
  | Err e => Ret (failed_attempt AttemptUnparseable (Error e) n)
  | Ok got =>
      match apply_loop got (map_range texts) texts with
      | Err e => Ret (failed_attempt AttemptApplyFailed (Error e) n)
      | Ok texts =>
          err ← stageTexts m ctx scratch texts;
          match err with
          | Some e => Ret (failed_attempt AttemptApplyFailed (Error e) n)
          | None =>
              u ← unmergedFiles m ctx scratch;
              match u with
              | Err e => Ret (failed_attempt AttemptApplyFailed (Error e) n)
              | Ok _ =>
                  tested ← runTestSteps m ctx scratch set;
                  let '(passed, noStep, output) := tested : bool * bool * string in
                  if negb passed then
                    Ret (mkAttempt (if noStep then AttemptNoTestStep else AttemptTestsFailed) "the proposal was not committed" output n)
                  else land ctx scratch msg n
              end
          end
      end
  end.

(** In the scratch directory: redo the merge, settle what is additive, ask the model. *)
Definition attempt_in (ctx : Ctx) (set : ConflictSettings) (req : MergeRequest) (scratch : string) : Prog ModelAttempt :=
  let infra e := Ret (failed_attempt AttemptInfrastructure (Error e) 0) in
  w ← gitOK m ctx (me_Dir m) ["worktree"; "add"; "--detach"; scratch; "HEAD"];
  match w with
  | Err e => infra e
  | Ok _ =>
      '(r, err) ← git m ctx scratch ["merge"; "--no-ff"; "--no-commit"; rq_Branch req];
      match err with
      | Some e => infra e
      | None =>
          if cr_Code r =? 0 then
            Ret (failed_attempt AttemptNotApplicable "the merge no longer conflicts in the scratch tree" 0)
          else
            fs ← unmergedFiles m ctx scratch;
            match fs with
            | Err e => infra e
            | Ok files =>
                c ← collect_loop scratch files ∅ [];
                match c with
                | inr a => Ret a
                | inl (_, []) => Ret (failed_attempt AttemptNotApplicable "every hunk was settled mechanically in the scratch tree" 0)
                | inl (texts, want) =>
                    let prompt := buildProposalPrompt want in
                    if cs_MaxPromptBytes set <? len_s prompt then
                      Ret (failed_attempt AttemptPromptTooLarge
                             (sprintf "the prompt is %d bytes; the cap is %d" [fmt_d (len_s prompt); fmt_d (cs_MaxPromptBytes set)]) (len want))
                    else
                      reply ← callModel m ctx set prompt;
                      match reply with
                      | inr (kind, e) => Ret (failed_attempt kind (Error e) (len want))
                      | inl reply => try_proposal ctx set scratch (message req) reply texts want
                      end
                end
            end
      end
  end.

Definition discardScratch (scratch : string) : Prog unit :=
  let ctx := Detached (2 * Minute) in
  _ ← git m ctx (me_Dir m) ["worktree"; "remove"; "--force"; scratch];
  _ ← call (RemoveAll scratch);
  _ ← git m ctx (me_Dir m) ["worktree"; "prune"];
  Ret tt.

Definition proposeWithModel (ctx : Ctx) (set : ConflictSettings) (req : MergeRequest) : Prog ModelAttempt :=
  let infra e := Ret (failed_attempt AttemptInfrastructure (Error e) 0) in
  match filePath (me_Dir m) (cs_ScratchDir set) with
  | Err e => infra e
  | Ok scratchRoot =>
      err ← call (MkdirAll scratchRoot);
      match err with
      | Some e => infra e
      | None =>
          tmp ← call (MkdirTemp scratchRoot "attempt-");
          match tmp with
          | Err e => infra e
          | Ok random =>
              let scratch := JoinPath scratchRoot ("attempt-" +:+ fmt_d (Z.of_N random)) in
              a ← attempt_in ctx set req scratch;
              _ ← discardScratch scratch;
              Ret a
          end
      end
  end.

(** ** The merge *)

(** The conflict nobody settled: ask the operator. *)
Definition ask (req : MergeRequest) (headSHA branchSHA : string) (out : Outcome) : Prog (Outcome * option error) :=
  let out := set_Status StatusAsked (oc_Summary out) out in
  let out := set_Status StatusAsked (conflictSummary out) out in
  '(id, qerr) ← askOperator m req out headSHA branchSHA;
  Ret (set_QuestionID id out, qerr).

(** What is left to do once the project's own tree was put back. *)
Definition after_abort (ctx : Ctx) (set : ConflictSettings) (req : MergeRequest) (headSHA branchSHA : string) (out : Outcome)
    : Prog (Outcome * option error) :=
  if String.eqb (cs_Policy set) PolicyMechanicalAndModel then
    att ← proposeWithModel ctx set req;
    let out := set_Attempt att out in
    if String.eqb (at_Result att) AttemptAccepted then
      Ret (set_Status StatusResolvedByModel
             (sprintf "merged %s; the conflict model's proposal for %d hunk(s) passed the project's test step and was committed"
                [rq_Branch req; fmt_d (at_Hunks att)]) out, None)
    else ask req headSHA branchSHA out
  else ask req headSHA branchSHA out.

(** Nothing more can be done in the project's tree: put it back. *)
Definition put_back (ctx : Ctx) (set : ConflictSettings) (req : MergeRequest) (headSHA branchSHA : string) (out : Outcome)
    : Prog (Outcome * option error) :=
  aerr ← abort m ctx (me_Dir m);
  match aerr with
  | Some e => Ret (out, Some e)
  | None =>
      after ← revParse m ctx (me_Dir m) "HEAD";
      if match after with Err _ => true | Ok sha => negb (String.eqb sha headSHA) end then
        Ret (out, Some (Errorf "the project's HEAD moved while aborting the merge of %s" [AStr (rq_Branch req)]))
      else after_abort ctx set req headSHA branchSHA out
  end.

(** From a merge that conflicted in [files] on. *)
Definition settle (ctx : Ctx) (set : ConflictSettings) (req : MergeRequest) (headSHA branchSHA : string) (files : list string) (out : Outcome)
    : Prog (Outcome * option error) :=
  if String.eqb (cs_Policy set) PolicyStopAndAsk then put_back ctx set req headSHA branchSHA out
  else
    r ← mechanical (me_Dir m) files;
    match r with
    | Err e => _ ← abortQuietly m (me_Dir m); Ret (out, Some e)
    | Ok (texts, resolved, remaining) =>
        let out := set_Hunks resolved remaining out in
        match remaining with
        | [] =>
            cerr ← commitResolved m ctx (me_Dir m) texts (message req);
            match cerr with
            | Some e => _ ← abortQuietly m (me_Dir m); Ret (out, Some e)
            | None =>
                Ret (set_Status StatusResolvedMechanical
                       (sprintf "merged %s; %d additive conflict hunk(s) in %d file(s) resolved by keeping both sides"
                          [rq_Branch req; fmt_d (len resolved); fmt_d (Z.of_nat (size texts))]) out, None)
            end
        | _ => put_back ctx set req headSHA branchSHA out
        end
    end.

Definition MergeBranch (ctx : Ctx) (req : MergeRequest) : Prog (Outcome * option error) :=
  let set := settings m in
  let out := mkOutcome "" (cs_Policy set) (rq_Branch req) [] [] [] None "" "" in
  match ValidateSettings set with
  | Err e => Ret (out, Some e)
  | Ok _ =>
      if String.eqb (TrimSpace (rq_Branch req)) "" || HasPrefix (rq_Branch req) "-" then
        Ret (out, Some (Errorf "invalid branch name %q" [AStr (rq_Branch req)]))
      else
        head ← revParse m ctx (me_Dir m) "HEAD";
        match head with
        | Err e => Ret (out, Some e)
        | Ok headSHA =>
            branch ← revParse m ctx (me_Dir m) (rq_Branch req +:+ "^{commit}");
            match branch with
            | Err e => Ret (out, Some (Errorf "branch %s: %w" [AStr (rq_Branch req); wrapped e]))
            | Ok branchSHA =>
                '(r, err) ← git m ctx (me_Dir m) ["merge"; "--no-ff"; "-m"; message req; rq_Branch req];
                match err with
                | Some e => _ ← abortQuietly m (me_Dir m); Ret (out, Some e)
                | None =>
                    if cr_Code r =? 0 then
                      Ret (set_Status StatusMerged ("merged " +:+ rq_Branch req +:+ " with no conflict") out, None)
                    else
                      fs ← unmergedFiles m ctx (me_Dir m);
                      match fs with
                      | Err e => _ ← abortQuietly m (me_Dir m); Ret (out, Some e)
                      | Ok [] =>
                          _ ← abortQuietly m (me_Dir m);
                          Ret (out, Some (Errorf "merge of %s failed without a conflict: %s"
                                            [AStr (rq_Branch req); AStr (TrimSpace (tail (cr_Out r) 1000))]))
                      | Ok files => settle ctx set req headSHA branchSHA files (set_Files files out)
                      end
                end
            end
        end
  end.
End branch.
