(* ===== verification/MergeBranchLemmas.v ===== *)
(** * Merging a branch: what an observer of its calls sees

    [next] follows the git commands a merge runs in the project's own tree, and
    the tests and the commit made in a scratch tree: whether a merge is under way,
    put back, given up on or landed ([phase]), and whether the project was ever
    moved onto a proposal that had not passed the tests ([sn_breach]). *)

From S2P Require Import Prelude Effects GoBase GoText GoFmt GoCrypto.
From S2P Require Import MergeDefinition.
From S2P Require Import ConflictHunks MergeConflict MergeBranch.

#[local] Open Scope Z_scope.

Inductive phase := Idle | Open | Closed | Stuck | Landed.
#[global] Instance phase_eq_dec : EqDecision phase.
Proof. solve_decision. Defined.

Record seen := mkSeen { sn_phase : phase; sn_ran : bool; sn_failed : bool; sn_commit : bool; sn_breach : bool }.
Definition start : seen := mkSeen Idle false false false false.

Definition set_phase (p : phase) (s : seen) : seen := mkSeen p (sn_ran s) (sn_failed s) (sn_commit s) (sn_breach s).
Definition tested (s : seen) : bool := sn_ran s && negb (sn_failed s).

(** A git command in the project's tree, and in any other; [ok] when it exits 0. *)
Definition note_project (args : list string) (ok : bool) (s : seen) : seen :=
  match args with
  | verb :: arg :: _ =>
      if String.eqb verb "merge" then
        if String.eqb arg "--no-ff" then set_phase (if ok then Landed else Open) s
        else if String.eqb arg "--abort" then set_phase (if ok then Closed else Stuck) s
        else if String.eqb arg "--ff-only" then
          let s := mkSeen (sn_phase s) (sn_ran s) (sn_failed s) (sn_commit s) (sn_breach s || negb (tested s && sn_commit s)) in
          if ok then set_phase Landed s else s
        else s
      else if String.eqb verb "commit" then if ok then set_phase Landed s else s
      else s
  | _ => s
  end.
Definition note_other (args : list string) (ok : bool) (s : seen) : seen :=
  match args with
  | verb :: _ => if String.eqb verb "commit" && ok then mkSeen (sn_phase s) (sn_ran s) (sn_failed s) (tested s) (sn_breach s) else s
  | [] => s
  end.
Definition note_sh (ok : bool) (s : seen) : seen := mkSeen (sn_phase s) true (sn_failed s || negb ok) (sn_commit s) (sn_breach s).

Definition exited (a : CmdAnswer) : bool :=
  match ca_Err a, ca_Ctx a with None, _ => true | Some (ExitError c), None => c =? 0 | _, _ => false end.

(** The observer stops looking ([None]) when the project's directory no longer
    resolves to [d]: the merge then refuses to run commands in it. *)
Definition next (dir d : string) (o : option seen) (e : event) : option seen :=
  s ← o;
  match e with
  | Event op x =>
      match op in Op X return X → option seen with
      | EvalSymlinks p => λ a, if String.eqb p dir && negb (bool_decide (a = Some d)) then None else Some s
      | RunCmd _ wd name args => λ a,
          Some (if String.eqb name "sh" then note_sh (exited a) s
                else if String.eqb wd dir then note_project (drop 2 args) (exited a) s
                else note_other (drop 2 args) (exited a) s)
      | _ => λ _, Some s
      end x
  end.

Definition held {A} (Q : seen → A → Prop) (o : option seen) (a : A) : Prop := match o with Some s => Q s a | None => True end.

Section follow.
Context {order : MapRange} (m : Merger) (d : string).

Definition wpm {A} (p : Prog A) (s : seen) (Q : seen → A → Prop) : Prop := wp (next (me_Dir m) d) p (Some s) (held Q).
Definition quiet {A} (p : Prog A) : Prop := ∀ s Q, (∀ a, Q s a) → wpm p s Q.

Lemma wp_gone {A} (p : Prog A) Q : wp (next (me_Dir m) d) p None (held Q).
Proof. induction p as [a|X op k IH]; simpl; [done|]. intros x. apply IH. Qed.

Lemma wpm_bind {A B} (f : A → Prog B) p s Q : wpm p s (λ s a, wpm (f a) s Q) → wpm (p ≫= f) s Q.
Proof. intros H. apply wp_bind. eapply wp_mono; [exact H|]. intros [s'|] a; [done|]. intros _. apply wp_gone. Qed.
Lemma wpm_mono {A} (p : Prog A) s (Q Q' : seen → A → Prop) : wpm p s Q → (∀ s a, Q s a → Q' s a) → wpm p s Q'.
Proof. intros H HQ. eapply wp_mono; [exact H|]. intros [s'|] a; [apply HQ|done]. Qed.
Lemma wpm_quiet {A} (p : Prog A) s Q : quiet p → (∀ a, Q s a) → wpm p s Q.
Proof. intros Hq. apply Hq. Qed.

Lemma quiet_ret {A} (a : A) : quiet (Ret a).
Proof. intros s Q H. apply H. Qed.
Lemma quiet_call {X : Set} (op : Op X) : (∀ s x, next (me_Dir m) d (Some s) (Event op x) = Some s) → quiet (call op).
Proof. intros Hn s Q H x. change (held Q (next (me_Dir m) d (Some s) (Event op x)) x). rewrite Hn. apply H. Qed.
Lemma wpm_resolve p s Q : (∀ x, (p = me_Dir m → x = Some d) → Q s x) → wpm (call (EvalSymlinks p)) s Q.
Proof.
  intros HQ x. simpl. destruct (String.eqb_spec p (me_Dir m)) as [->|Hne]; simpl; [|by apply HQ].
  destruct (bool_decide_reflect (x = Some d)) as [->|]; simpl; [by apply HQ|done].
Qed.
Lemma quiet_bind {A B} (p : Prog A) (f : A → Prog B) : quiet p → (∀ a, quiet (f a)) → quiet (p ≫= f).
Proof. intros Hp Hf s Q H. apply wpm_bind, Hp. intros a. by apply Hf. Qed.
Lemma quiet_try {A B} (p : Prog (res A)) (k : A → Prog (res B)) : quiet p → (∀ a, quiet (k a)) → quiet (try p k).
Proof. intros Hp Hk. apply quiet_bind; [done|]. intros [a|e]; [apply Hk|apply quiet_ret]. Qed.

Definition note (dir : string) (args : list string) (ok : bool) (s : seen) : seen :=
  if String.eqb dir (me_Dir m) then note_project args ok s else note_other args ok s.

Definition command_result (a : CmdAnswer) (r : cmdResult) (err : option error) : Prop := exited a = true ↔ err = None ∧ cr_Code r = 0.

Lemma after_run ctx dir name args s (Q : seen → cmdResult * option error → Prop) :
  (∀ a r err, command_result a r err → held Q (next (me_Dir m) d (Some s) (Event (RunCmd ctx dir name args) a)) (r, err)) →
  wpm (a ← call (RunCmd ctx dir name args); Ret (result_of a)) s Q.
Proof.
  intros Hyes a. change (held Q (next (me_Dir m) d (Some s) (Event (RunCmd ctx dir name args) a)) (result_of a)).
  unfold command_result, exited, result_of in *. specialize (Hyes a).
  destruct (ca_Err a) as [[c|e]|], (ca_Ctx a); apply Hyes; simpl; rewrite ?Z.eqb_eq; naive_solver.
Qed.

(** A command that may not be run at all, that succeeds or that does not. *)
Lemma wp_run ctx dir name args s Q :
  (∀ e, Q s (mkCmdResult "" 0, Some e)) →
  (∀ a r err, command_result a r err → held Q (next (me_Dir m) d (Some s) (Event (RunCmd ctx dir name args) a)) (r, err)) →
  wpm (run_cmd m ctx dir name args) s Q.
Proof.
  intros Hno Hyes. unfold run_cmd. destruct (String.eqb _ _); [apply Hno|].
  apply wpm_bind, wpm_bind, wpm_resolve. intros [r|] _; [|apply Hno].
  apply wpm_bind, wpm_resolve. intros [t|] _; [|apply Hno].
  change (wpm (if negb (match Rel r t with Ok rel => inside rel | Err _ => false end)
    then Ret (mkCmdResult "" 0, Some (Errorf "refusing to run %s outside the project directory" [AStr name]))
    else a ← call (RunCmd ctx dir name args); Ret (result_of a)) s Q).
  destruct (negb _); [apply Hno|]. by apply after_run.
Qed.

(** In the project's own directory it is always run. *)
Lemma wp_run_here ctx name args s Q : me_Dir m ≠ "" →
  (∀ a r err, command_result a r err → held Q (next (me_Dir m) d (Some s) (Event (RunCmd ctx (me_Dir m) name args) a)) (r, err)) →
  wpm (run_cmd m ctx (me_Dir m) name args) s Q.
Proof.
  intros Hd Hyes. unfold run_cmd. apply String.eqb_neq in Hd as ->.
  apply wpm_bind, wpm_bind, wpm_resolve. intros x Hx. rewrite Hx by done.
  apply wpm_bind, wpm_resolve. intros y Hy. rewrite Hy by done.
  change (wpm (if negb (match Rel d d with Ok rel => inside rel | Err _ => false end)
    then Ret (mkCmdResult "" 0, Some (Errorf "refusing to run %s outside the project directory" [AStr name]))
    else a ← call (RunCmd ctx (me_Dir m) name args); Ret (result_of a)) s Q).
  assert (Rel d d = Ok ".") as -> by (unfold Rel; by rewrite String.eqb_refl). by apply after_run.
Qed.

Lemma wp_git_here ctx args s Q : me_Dir m ≠ "" →
  (∀ ok r err, (ok = true ↔ err = None ∧ cr_Code r = 0) → Q (note (me_Dir m) args ok s) (r, err)) →
  wpm (git m ctx (me_Dir m) args) s Q.
Proof. intros Hd Hyes. apply wp_run_here; [done|]. intros a r err Ha. by apply (Hyes (exited a)). Qed.

Lemma wp_git ctx dir args s Q :
  (∀ e, Q s (mkCmdResult "" 0, Some e)) →
  (∀ ok r err, (ok = true ↔ err = None ∧ cr_Code r = 0) → Q (note dir args ok s) (r, err)) →
  wpm (git m ctx dir args) s Q.
Proof. intros Hno Hyes. apply wp_run; [done|]. intros a r err Ha. by apply (Hyes (exited a)). Qed.

Lemma wp_sh ctx dir args s Q :
  (∀ e, Q s (mkCmdResult "" 0, Some e)) →
  (∀ ok r err, (ok = true ↔ err = None ∧ cr_Code r = 0) → Q (note_sh ok s) (r, err)) →
  wpm (run_cmd m ctx dir "sh" args) s Q.
Proof. intros Hno Hyes. apply wp_run; [done|]. intros a r err Ha. by apply (Hyes (exited a)). Qed.

Lemma wp_gitOK ctx dir args s Q :
  (∀ e, Q s (Err e)) → (∀ out, Q (note dir args true s) (Ok out)) → (∀ e, Q (note dir args false s) (Err e)) →
  wpm (gitOK m ctx dir args) s Q.
Proof.
  intros Hno Hok Herr. apply wpm_bind. apply wp_git; [intros e; apply Hno|]. intros ok r err Ha.
  destruct err as [e|]; [destruct ok; [by destruct (proj1 Ha)|apply Herr]|].
  destruct (Z.eqb_spec (cr_Code r) 0) as [Hc|Hc].
  - rewrite (proj2 Ha) by done. apply Hok.
  - destruct ok; [by destruct (proj1 Ha)|]. apply Herr.
Qed.

(** The commands the observer takes no note of. *)
Definition silent (args : list string) : Prop := ∀ dir ok s, note dir args ok s = s.
Lemma quiet_gitOK ctx dir args : silent args → quiet (gitOK m ctx dir args).
Proof. intros Hs s Q HQ. apply wp_gitOK; intros; rewrite ?Hs; apply HQ. Qed.

Lemma silent_verb verb rest : verb ≠ "merge" → verb ≠ "commit" → silent (verb :: rest).
Proof.
  intros Hm Hc dir ok s. apply String.eqb_neq in Hm, Hc. unfold note, note_project, note_other. rewrite Hm, Hc.
  destruct (String.eqb dir (me_Dir m)); [by destruct rest|done].
Qed.

Ltac quietly :=
  repeat match goal with
  | |- quiet (Ret _) => apply quiet_ret
  | |- quiet (call _) => by apply quiet_call
  | |- quiet (gitOK _ _ _ _) => apply quiet_gitOK, silent_verb; discriminate
  | |- quiet (try _ _) => apply quiet_try; [|intros ?]
  | |- quiet (_ ≫= _) => apply quiet_bind; [|intros ?]
  | |- context [ match ?x with _ => _ end ] => destruct x eqn:?
  end.

Lemma quiet_unmerged ctx dir : quiet (unmergedFiles m ctx dir).
Proof. unfold unmergedFiles. quietly. Qed.
Lemma quiet_revParse ctx dir rev : quiet (revParse m ctx dir rev).
Proof. unfold revParse. quietly. Qed.
Lemma quiet_stage ctx dir texts : quiet (stageTexts m ctx dir texts).
Proof. unfold stageTexts. induction (map_range texts) as [|[f text] l IH]; cbn [stage_loop makefile_has]; quietly; apply IH. Qed.
Lemma quiet_mechanical dir files : quiet (mechanical dir files).
Proof.
  unfold mechanical. generalize (∅ : gmap string string) (@nil ResolvedHunk) (@nil string).
  induction files as [|f files IH]; intros texts rs rest; cbn [mechanical_loop]; quietly; apply IH.
Qed.
Lemma quiet_makefile dir target : quiet (makefileHasTarget dir target).
Proof. unfold makefileHasTarget. induction ["GNUmakefile"; "makefile"; "Makefile"] as [|n l IH]; cbn [stage_loop makefile_has]; quietly; apply IH. Qed.
Lemma quiet_ask req o h b : quiet (askOperator m req o h b).
Proof. unfold askOperator. quietly. Qed.

(** *** Test steps *)

Definition same_but_tests (s s' : seen) : Prop := sn_phase s' = sn_phase s ∧ sn_commit s' = sn_commit s ∧ sn_breach s' = sn_breach s.

Lemma wp_test_loop ctx dir set ran steps s Q :
  sn_failed s = false → (ran ≠ 0%nat → sn_ran s = true) →
  (∀ s' r, same_but_tests s s' → (r.1.1 = true → tested s' = true) → Q s' r) →
  wpm (test_loop m ctx dir set ran steps) s Q.
Proof.
  revert ran s. induction steps as [|st steps IH]; intros ran s Hf Hr HQ; cbn [test_loop].
  - apply HQ; [done|]. destruct (Nat.eqb_spec ran 0) as [->|Hne]; [done|]. intros _. unfold tested. by rewrite Hf, Hr.
  - destruct (negb _); [by apply IH|]. apply wpm_bind.
    assert (quiet (if nonempty (sp_RequiresMakeTarget st) then makefileHasTarget dir (sp_RequiresMakeTarget st) else Ret true)) as Hq.
    { destruct (nonempty _); [apply quiet_makefile|apply quiet_ret]. }
    apply Hq. intros has. clear Hq. destruct (negb has); [by apply IH|].
    repeat (case_goal; [by apply HQ|]). cbn zeta. apply wpm_bind. apply wp_sh; [intros e; by apply HQ|].
    intros ok r err Ha. destruct err as [e|]; [by apply HQ|].
    destruct (Z.eqb_spec (cr_Code r) 0) as [Hc|Hc]; cbn [negb]; [|by apply HQ].
    rewrite (proj2 Ha) by done. apply IH; [cbn; by rewrite Hf|done|]. intros s' r' (?&?&?) Hp. by apply HQ.
Qed.

(** *** The attempt of the model *)

Lemma Clean_ne p : Clean p ≠ "".
Proof.
  unfold Clean. pose proof (elements_tidy p) as Ht. unfold spell. destruct (rooted p); [done|].
  destruct (elements p) as [|e l] eqn:E; [done|]. destruct (tidy_head (e :: l)) as (a&t&->&_); done.
Qed.

Lemma fmt_no_slash n : no_byte slash (fmt_d (Z.of_N n)).
Proof.
  destruct (fmt_d_nat (Z.of_N n)) as [Hd _]; [lia|]. induction (fmt_d (Z.of_N n)) as [|a t IH]; [apply not_elem_of_nil|].
  cbn in Hd. apply andb_true_iff in Hd as [Ha Hd]. apply no_byte_cons. split; [by intros ->|by apply IH].
Qed.

Lemma attempt_plain n : plain ("attempt-" +:+ fmt_d (Z.of_N n)).
Proof.
  split_and!; [done..|]. repeat (apply no_byte_cons; split; [done|]).
  apply fmt_no_slash.
Qed.

Lemma scratch_elsewhere root sd n : filePath (me_Dir m) sd = Ok root → sd ≠ "" →
  JoinPath root ("attempt-" +:+ fmt_d (Z.of_N n)) ≠ me_Dir m.
Proof.
  intros Hp Hsd. assert (root ≠ "" ∧ ∃ l, elements root = elements (me_Dir m) ++ l) as [Hne [l Hl]].
  { unfold filePath in Hp. destruct (Rel _ _) as [r|] eqn:Hr; [|done]. cbn zeta in Hp.
    destruct (_ || _) eqn:Ho; [done|]. injection Hp as <-. apply orb_false_iff in Ho as [Hd Hpre]. apply String.eqb_neq in Hd.
    split; [|by eapply Rel_below]. unfold JoinPath. destruct (nonempty (me_Dir m)); [apply Clean_ne|].
    apply String.eqb_neq in Hsd. unfold nonempty. rewrite Hsd. apply Clean_ne. }
  intros E. pose proof (elements_below root _ Hne (attempt_plain n)) as He. rewrite E, Hl in He.
  apply (f_equal length) in He. rewrite !length_app in He. simpl in He. lia.
Qed.

Context (decode_reply : string → res (list proposalItem * bool)).

(** The project is put back, no test has run and nothing was committed. *)
Definition put_away (s : seen) : Prop := sn_phase s = Closed ∧ sn_breach s = false.
Definition clean_slate (s : seen) : Prop := put_away s ∧ sn_ran s = false ∧ sn_failed s = false.
Definition landed_if (b : bool) (s : seen) : Prop := sn_breach s = false ∧ sn_phase s = if b then Landed else Closed.
Definition attempted (s : seen) (a : ModelAttempt) : Prop := landed_if (String.eqb (at_Result a) AttemptAccepted) s.

Lemma wp_land ctx scratch msg n s : scratch ≠ me_Dir m → put_away s → tested s = true → wpm (land m ctx scratch msg n) s attempted.
Proof.
  intros Hne [Hp Hb] Ht. apply String.eqb_neq in Hne. unfold land. apply wpm_bind.
  apply wp_gitOK; [by intros e|intros out|intros e]; unfold note; rewrite Hne; cbn; [|done]. rewrite Ht.
  apply wpm_bind, wpm_quiet; [apply quiet_revParse|]. intros [sha|e]; [|done]. apply wpm_bind.
  apply wp_gitOK; [by intros e|intros _|intros e]; unfold note; rewrite String.eqb_refl; cbn; unfold tested in *; cbn in *;
    by rewrite Hb, Ht.
Qed.

Lemma wp_try_proposal ctx set scratch msg reply texts want s : scratch ≠ me_Dir m → clean_slate s →
  wpm (try_proposal decode_reply m ctx set scratch msg reply texts want) s attempted.
Proof.
  intros Hne ([Hp Hb]&Hr&Hf). unfold try_proposal. destruct (parseProposal _ _ _) as [got|e]; [|done].
  destruct (apply_loop _ _ _) as [texts'|e]; [|done]. apply wpm_bind, wpm_quiet; [apply quiet_stage|].
  intros [e|]; [done|]. apply wpm_bind, wpm_quiet; [apply quiet_unmerged|]. intros [u|e]; [|done].
  apply wpm_bind. apply wp_test_loop; [done|done|]. intros s' [[passed noStep] output] (H1&H2&H3) Ht. cbn in Ht.
  destruct passed; cbn [negb]; [|unfold attempted, landed_if; destruct noStep; cbn; split; congruence].
  apply wp_land; [done|split; congruence|by apply Ht].
Qed.

Lemma wp_attempt_in ctx set req scratch s : scratch ≠ me_Dir m → clean_slate s →
  wpm (attempt_in decode_reply m ctx set req scratch) s attempted.
Proof.
  intros Hne Hs. pose proof Hs as ([Hp Hb]&Hr&Hf). unfold attempt_in. cbn zeta.
  apply wpm_bind, wpm_quiet; [apply quiet_gitOK, silent_verb; discriminate|]. intros [w|e]; [|done].
  apply wpm_bind. apply String.eqb_neq in Hne as Hne'. apply wp_git; [by intros e|]. intros ok r err _.
  assert (note scratch ["merge"; "--no-ff"; "--no-commit"; rq_Branch req] ok s = s) as -> by (unfold note; by rewrite Hne').
  destruct err as [e|]; [done|]. destruct (cr_Code r =? 0); [done|].
  apply wpm_bind, wpm_quiet; [apply quiet_unmerged|]. intros [files|e]; [|done]. apply wpm_bind.
  assert (∀ files texts want Q, (∀ x, Q s (inl x)) → (∀ a, String.eqb (at_Result a) AttemptAccepted = false → Q s (inr a)) →
    wpm (collect_loop scratch files texts want) s Q) as Hc.
  { clear -m. intros fs. induction fs as [|f fs IH]; intros texts want Q H1 H2; cbn [collect_loop]; [apply H1|].
    destruct (filePath _ _); [|by apply H2]. intros [data|e]; [|by apply H2]. cbn.
    destruct (is_binary data); [by apply H2|]. destruct (ResolveAdditive _ _) as [[[text ?] rest]|]; [|by apply H2]. by apply IH. }
  apply Hc; [|intros a0 Ha; change (attempted s a0); unfold attempted; by rewrite Ha].
  intros [texts [|h want]]; [done|]. destruct (_ <? _); [done|]. apply wpm_bind.
  assert (∀ prompt Q, (∀ r, Q s (inl r)) → (∀ k e, String.eqb k AttemptAccepted = false → Q s (inr (k, e))) →
    wpm (callModel m ctx set prompt) s Q) as Hm.
  { clear. intros prompt Q H1 H2. unfold callModel. destruct (negb _); [by apply H2|].
    intros [r|[] e|[] e]; cbn; try apply H1; by apply H2. }
  apply Hm; [intros r'; by apply wp_try_proposal|]. intros k e Hk. change (attempted s (failed_attempt k (Error e) (len (h :: want)))). unfold attempted. simpl. by rewrite Hk.
Qed.

Lemma quiet_discard scratch : quiet (discardScratch m scratch).
Proof.
  assert (∀ ctx args, silent args → quiet (git m ctx (me_Dir m) args)) as Hg.
  { intros ctx args Hs s Q HQ. apply wp_git; [intros; apply HQ|]. intros ok r err _. rewrite Hs. apply HQ. }
  unfold discardScratch. cbn zeta.
  apply quiet_bind; [apply Hg, silent_verb; discriminate|intros _]. apply quiet_bind; [by apply quiet_call|intros _].
  apply quiet_bind; [apply Hg, silent_verb; discriminate|intros _]. apply quiet_ret.
Qed.

Lemma wp_propose ctx set req s : cs_ScratchDir set ≠ "" → clean_slate s →
  wpm (proposeWithModel decode_reply m ctx set req) s attempted.
Proof.
  intros Hsd Hs. pose proof Hs as ([Hp Hb]&Hr&Hf). unfold proposeWithModel. cbn zeta.
  destruct (filePath _ _) as [root|e] eqn:Hroot; [|done]. intros [e|]; [done|]. intros [n|e]; [|done]. cbn.
  apply wpm_bind. eapply wpm_mono; [apply wp_attempt_in; [by eapply scratch_elsewhere|done]|].
  intros s' a Ha. apply wpm_bind, wpm_quiet; [apply quiet_discard|]. by intros _.
Qed.

(** *** The merge *)

Definition merged_status (st : string) : Prop := st ∈ [StatusMerged; StatusResolvedMechanical; StatusResolvedByModel].

(** How a merge may end: landed and said so; put back and the operator asked; or
    an error, with no merge begun or its abort run ([Stuck] if git refused it). *)
Definition ended (s : seen) (r : Outcome * option error) : Prop :=
  sn_breach s = false ∧
  match r.2 with
  | None => merged_status (oc_Status r.1) ∧ sn_phase s = Landed ∨ oc_Status r.1 = StatusAsked ∧ sn_phase s = Closed
  | Some _ => sn_phase s ∈ [Idle; Closed; Stuck]
  end.

Lemma wp_ask req h b out s : put_away s → wpm (ask m req h b out) s ended.
Proof.
  intros [Hp Hb]. unfold ask. cbn zeta. apply wpm_bind, wpm_quiet; [apply quiet_ask|]. intros [id err].
  split; [done|]. cbn. destruct err as [e|]; [rewrite Hp; set_solver|]. by right.
Qed.

Lemma wp_after_abort ctx set req h b out s : cs_ScratchDir set ≠ "" → clean_slate s →
  wpm (after_abort decode_reply m ctx set req h b out) s ended.
Proof.
  intros Hsd Hs. pose proof Hs as (Hpa&_). unfold after_abort. destruct (String.eqb _ _); [|by apply wp_ask].
  apply wpm_bind. eapply wpm_mono; [by apply wp_propose|]. intros s' a [Hb Hp]. cbn zeta.
  destruct (String.eqb (at_Result a) AttemptAccepted); [|apply wp_ask; by split].
  split; [done|]. left. split; [|done]. unfold merged_status. cbn. set_solver.
Qed.

Lemma wp_put_back ctx set req h b out s : me_Dir m ≠ "" → cs_ScratchDir set ≠ "" →
  sn_breach s = false → sn_ran s = false → sn_failed s = false →
  wpm (put_back decode_reply m ctx set req h b out) s ended.
Proof.
  intros Hd Hsd Hb Hr Hf. unfold put_back. apply wpm_bind. unfold abort, gitOK. apply wpm_bind, wpm_bind, wp_git_here; [done|].
  intros ok r err Ha. unfold note. rewrite String.eqb_refl.
  assert (∀ Q : seen → res string → Prop, (∀ out, Q (set_phase Closed s) (Ok out)) →
    (∀ e, Q (set_phase (if ok then Closed else Stuck) s) (Err e)) →
    wpm (Ret match err with Some e => Err e | None => if negb (cr_Code r =? 0) then
      Err (Errorf "git %s: exit %d: %s" [AStr (Join ["merge"; "--abort"] " "); AInt (cr_Code r); AStr (TrimSpace (tail (cr_Out r) 1000))])
      else Ok (cr_Out r) end) (set_phase (if ok then Closed else Stuck) s) Q) as Hcase.
  { intros Q H1 H2. destruct err as [e|]; [apply H2|]. destruct (Z.eqb_spec (cr_Code r) 0) as [Hc|Hc]; [|apply H2].
    rewrite (proj2 Ha) by done. apply H1. }
  apply Hcase.
  - intros o. change (wpm (after ← revParse m ctx (me_Dir m) "HEAD";
      if match after with Err _ => true | Ok sha => negb (String.eqb sha h) end then
        Ret (out, Some (Errorf "the project's HEAD moved while aborting the merge of %s" [AStr (rq_Branch req)]))
      else after_abort decode_reply m ctx set req h b out) (set_phase Closed s) ended).
    apply wpm_bind, wpm_quiet; [apply quiet_revParse|]. intros after. destruct (match after with Ok _ => _ | Err _ => _ end).
    + split; [done|]. cbn. set_solver.
    + by apply wp_after_abort.
  - intros e. split; [done|]. cbn. destruct ok; set_solver.
Qed.

(** After a failure: abort, whatever comes of it. *)
Lemma wp_give_up out e s : me_Dir m ≠ "" → sn_breach s = false →
  wpm (_ ← abortQuietly m (me_Dir m); Ret (out, Some e)) s ended.
Proof.
  intros Hd Hb. unfold abortQuietly. apply wpm_bind, wpm_bind, wp_git_here; [done|]. intros ok r err _.
  unfold note. rewrite String.eqb_refl. split; [done|]. cbn. destruct ok; set_solver.
Qed.

Lemma wp_settle ctx set req h b files out s : me_Dir m ≠ "" → cs_ScratchDir set ≠ "" →
  sn_breach s = false → sn_ran s = false → sn_failed s = false →
  wpm (settle decode_reply m ctx set req h b files out) s ended.
Proof.
  intros Hd Hsd Hb Hr Hf. unfold settle. destruct (String.eqb _ _); [by apply wp_put_back|].
  apply wpm_bind, wpm_quiet; [apply quiet_mechanical|]. intros [[[texts resolved] remaining]|e]; [|by apply wp_give_up].
  cbn zeta. destruct remaining as [|r remaining]; [|by apply wp_put_back].
  apply wpm_bind. unfold commitResolved. apply wpm_bind, wpm_quiet; [apply quiet_stage|]. intros [e|]; [by apply wp_give_up|].
  apply wpm_bind. apply wp_gitOK; [intros e; by apply wp_give_up| |intros e]; unfold note; rewrite String.eqb_refl.
  - intros o. split; [done|]. left. split; [|done]. unfold merged_status. cbn. set_solver.
  - by apply wp_give_up.
Qed.

Lemma settings_scratch : cs_ScratchDir (settings m) ≠ "".
Proof.
  unfold settings. destruct (me_Settings m) as [st|]; [|done]. cbn. by destruct (String.eqb_spec (cs_ScratchDir st) "").
Qed.

Lemma wp_MergeBranch ctx req : wpm (MergeBranch decode_reply m ctx req) start ended.
Proof.
  assert (∀ out e, ended start (out, Some e)) as Hidle by (intros; split; [done|cbn; set_solver]).
  unfold MergeBranch. cbn zeta. destruct (ValidateSettings _) as [u|e]; [|apply Hidle]. destruct (_ || _); [apply Hidle|].
  destruct (decide (me_Dir m = "")) as [Hd|Hd].
  { unfold revParse, try, gitOK, git, run_cmd. rewrite Hd. apply Hidle. }
  apply wpm_bind, wpm_quiet; [apply quiet_revParse|]. intros [head|e]; [|apply Hidle].
  apply wpm_bind, wpm_quiet; [apply quiet_revParse|]. intros [branch|e]; [|apply Hidle].
  apply wpm_bind, wp_git_here; [done|]. intros ok r err Ha. unfold note. rewrite String.eqb_refl.
  destruct err as [e|]; [by apply wp_give_up; [|destruct ok]|]. destruct (Z.eqb_spec (cr_Code r) 0) as [Hc|Hc].
  - rewrite (proj2 Ha) by done. split; [done|]. left. split; [|done]. unfold merged_status. cbn. set_solver.
  - assert (ok = false) as -> by (destruct ok; [by destruct (proj1 Ha)|done]).
    apply wpm_bind, wpm_quiet; [apply quiet_unmerged|]. intros [[|f files]|e]; [by apply wp_give_up| |by apply wp_give_up].
    apply wp_settle; [done|apply settings_scratch|done..].
Qed.
End follow.
