(* ===== verification/MergeRun.v ===== *)
(** * Running the merge pipeline: its steps

    internal/mergepipeline/run.go: the steps (commands, built-in actions, hooks
    through the [ShipRunner]), the record kept of each, and the version and
    changelog files. The whole run, with its preflight and the hooks that follow
    a release, is in MergeRunAll. *)

From S2P Require Import Prelude Effects GoBase GoText GoFmt GoRegexp GoCrypto.
From S2P Require Import RecordStore.
From S2P Require Import MergeDefinition MergeResolve ConflictHunks MergeConflict.
From S2P Require Import MergeBranch.

#[local] Open Scope Z_scope.

(** ** Keeping secrets out of records *)

Definition spaces : re := Star (Chr space_byte).
Definition apostrophe : Ascii.ascii := Ascii.ascii_of_nat 39.
Definition quotes : string := String dquote (String apostrophe "").
Definition not_space_or (cs : string) : re := Rune (λ a, negb (space_byte a) && negb (among cs a)).

Definition secret_named : re :=
  Seq [Group 1 (OneOf (Fold "authorization") [Fold "token"; Fold "secret";
                  Seq [Fold "passw"; Maybe (Group 2 (Fold "or")); Fold "d"];
                  Seq [Fold "api"; Maybe (In_ "_-"); Fold "key"]; Fold "credential"]);
       Group 3 (OneOf (Seq [Maybe (In_ quotes); spaces; In_ ":="; spaces]) [Plus (Chr space_byte)]);
       Maybe (Group 4 (Seq [Fold "bearer"; Plus (Chr space_byte)]));
       Plus (not_space_or (quotes +:+ ",;"))].
Definition secret_in_url : re :=
  Seq [Group 1 (Lit "://"); Plus (not_space_or "/:@"); Lit ":"; Plus (not_space_or "/@"); Lit "@"].
Definition alnum (more : string) : re := Chr (λ a, digit_byte a || letter_byte a || among more a).
Definition secret_token : re :=
  Seq [WordEdge;
       Group 1 (OneOf (Seq [Lit "gh"; In_ "pousr"; Lit "_"; AtLeast 20 (alnum "")])
         [Seq [Lit "github_pat_"; AtLeast 20 (alnum "_")]; Seq [Lit "sk-"; AtLeast 20 (alnum "_-")];
          Seq [Lit "xox"; In_ "abprs"; Lit "-"; AtLeast 10 (alnum "-")];
          Seq [Lit "AKIA"; Times 16 (Chr (λ a, digit_byte a || between 65 90 a))]]);
       WordEdge].

Definition redact (s : string) : string :=
  let s := ReplaceAll secret_named (λ g, g 1%nat +:+ g 3%nat +:+ "[redacted]") s in
  let s := ReplaceAll secret_in_url (λ g, g 1%nat +:+ "[redacted]@") s in
  ReplaceAll secret_token (λ _, "[redacted]") s.

Example redact_ex : redact "Authorization: Bearer abc.def and https://u:p@h/x sk-0123456789012345678901; password=x"
  = "Authorization: [redacted] and https://[redacted]@h/x [redacted]; password=[redacted]".
Proof. vm_compute. reflexivity. Qed.

(** ** The runner *)

Definition DefaultMainBranch : string := "main".
Definition DefaultChangelogFile : string := "CHANGELOG.md".
Definition DefaultScriptDir : string := "scripts".
Definition DefaultStepTimeout : Duration := 10 * Minute.
Definition unreleasedHeading : string := "## [Unreleased]".
Definition checkVersionScript : string := "check-merge-version.sh".

Record PostShipHook := mkHook { hk_Name : string; hk_Builtin : string; hk_Command : string; hk_Enabled : bool }.
Record PostShipSettings := mkPostShip {
  ps_Enabled : bool; ps_Hooks : list PostShipHook; ps_RegistryFile : string; ps_RegistryRowPattern : string;
  ps_CompanionRepository : string; ps_IssueTitleTemplate : string; ps_NotifyTemplate : string
}.

Record RunRequest := mkRunRequest { rr_Title : string; rr_Branches : list string; rr_AutomatonID : string }.

(** [Runner]; a bool says whether the interface it stands for is wired. *)
Record Runner := mkRunner {
  ru_Dir : string; ru_Project : string; ru_Resolver : option Resolver; ru_ConflictSettings : option ConflictSettings;
  ru_Model : bool; ru_Questions : bool; ru_Ship : bool; ru_Recorder : bool; ru_MainBranch : string; ru_PostShip : PostShipSettings;
  ru_Notifier : bool; ru_VersionFiles : list string; ru_ChangelogFile : string; ru_ScriptDir : string
}.

Definition mainBranch (r : Runner) : string := if nonempty (ru_MainBranch r) then ru_MainBranch r else DefaultMainBranch.
Definition changelog (r : Runner) : string := if nonempty (ru_ChangelogFile r) then ru_ChangelogFile r else DefaultChangelogFile.
Definition scriptDir (r : Runner) : string :=
  JoinPath (ru_Dir r) (if String.eqb (ru_ScriptDir r) "" then DefaultScriptDir else ru_ScriptDir r).

Definition MergeStepOK : string := "ok".
Definition MergeStepFailed : string := "failed".
Definition MergeStepSkipped : string := "skipped".
Definition MergeStepRunning : string := "running".
Definition MergeRunOK : string := "ok".
Definition MergeRunFailed : string := "failed".
Definition MergeRunCompletedWithFailures : string := "completed_with_failures".
Definition MergeRunRunning : string := "running".

Definition set_run_Steps (l : list MergeStepRun) (r : MergePipelineRun) : MergePipelineRun :=
  mkRun (mr_ID r) (mr_RunProject r) (mr_Branches r) (mr_Source r) (mr_Reason r) (mr_Start r) (mr_End r) (mr_Result r) l.
Definition set_run_Reason (s : string) (r : MergePipelineRun) : MergePipelineRun :=
  mkRun (mr_ID r) (mr_RunProject r) (mr_Branches r) (mr_Source r) s (mr_Start r) (mr_End r) (mr_Result r) (mr_Steps r).
Definition set_run_End (e : Time) (result : string) (r : MergePipelineRun) : MergePipelineRun :=
  mkRun (mr_ID r) (mr_RunProject r) (mr_Branches r) (mr_Source r) (mr_Reason r) (mr_Start r) (Some e) result (mr_Steps r).

Definition firstLine (s : string) : string := match Cut s (String nl "") with Some (l, _) => l | None => s end.

(** What a step came to: its result, an account, and the error that failed it. *)
Definition outcome : Type := string * string * option error.
Definition step_result (o : outcome) : string := o.1.1.

(** ** Version and changelog files *)

Definition versionLine : re := Seq [LineStart; Lit "var Version = "; one dquote; Group 1 (Star (NotIn (String dquote ""))); one dquote].
Definition digits : re := Plus (Chr digit_byte).
Definition semver3 : re := Seq [TextStart; Group 1 digits; Lit "."; Group 2 digits; Lit "."; Group 3 digits; TextEnd].

Definition errNoVersionFiles : error := Errorf "no version files are configured (autonomous.merge_pipeline.version_files)" [].

Section runner.
Context {order : MapRange} (open_below : string → string → opened) (decode : string → res Pipeline)
  (decode_reply : string → res (list proposalItem * bool)) (r : Runner).

(** The path and the bytes of a file of the project. *)
Definition readInside (rel : string) : Prog (res (string * string)) :=
  match checkDir rel with
  | Err e => Ret (Err (Errorf "%s: %w" [AStr rel; wrapped e]))
  | Ok _ =>
      let p := JoinPath (ru_Dir r) rel in
      data ← call (ReadFile p); Ret match data with Ok d => Ok (p, d) | Err e => Err e end
  end.

Definition currentVersion : Prog (res string) :=
  match ru_VersionFiles r with
  | [] => Ret (Err errNoVersionFiles)
  | f :: _ =>
      d ←? readInside f;
      let no := Err (Errorf "could not read an X.Y.Z version from %s" [AStr f]) in
      Ret match FindSubmatch versionLine d.2 with
          | None => no
          | Some g => if MatchString semver3 (g 1%nat) then Ok (g 1%nat) else no
          end
  end.

Definition nextPatch (v : string) : res string :=
  match FindSubmatch semver3 v with
  | None => Err (Errorf "%q is not an X.Y.Z version" [AStr v])
  | Some g => Ok (g 1%nat +:+ "." +:+ g 2%nat +:+ "." +:+ fmt_d (wrap64 (Sscanf_d (g 3%nat) + 1)))
  end.

Fixpoint pending_versions (v : string) (files : list string) : Prog (res (list (string * string))) :=
  match files with
  | [] => Ret (Ok [])
  | f :: files =>
      d ←? readInside f;
      if negb (MatchString versionLine d.2) then
        Ret (Err (Errorf ("no `var Version = " +:+ q "..." +:+ "` line in %s; nothing changed") [AStr f]))
      else
        rest ←? pending_versions v files;
        Ret (Ok ((d.1, ReplaceAll versionLine (λ _, "var Version = " +:+ q v) d.2) :: rest))
  end.
Fixpoint write_all (files : list (string * string)) : Prog (option error) :=
  match files with
  | [] => Ret None
  | (p, data) :: files =>
      err ← call (WriteFile p data);
      match err with Some e => Ret (Some e) | None => write_all files end
  end.
Definition writeVersion (v : string) : Prog (option error) :=
  match ru_VersionFiles r with
  | [] => Ret (Some errNoVersionFiles)
  | files =>
      out ← pending_versions v files;
      match out with Err e => Ret (Some e) | Ok out => write_all out end
  end.

(** The lines with [ins] after the first [at_], if there is one. *)
Fixpoint insert_after (at_ : string) (ins lines : list string) : option (list string) :=
  match lines with
  | [] => None
  | l :: lines => if String.eqb l at_ then Some (l :: ins ++ lines) else cons l <$> insert_after at_ ins lines
  end.

Definition insertChangelog (version title : string) : Prog (res string) :=
  d ←? readInside (changelog r);
  let lines := split_byte nl d.2 in
  if existsb (λ l, HasPrefix l ("## v" +:+ version +:+ " ")) lines then
    Ret (Ok ("the changelog already has a heading for v" +:+ version))
  else match insert_after unreleasedHeading [""; "## v" +:+ version +:+ " — " +:+ title; ""] lines with
       | None => Ret (Err (Errorf "no %q line in %s; nothing changed" [AStr unreleasedHeading; AStr (changelog r)]))
       | Some lines =>
           err ← call (WriteFile d.1 (Join lines (String nl "")));
           Ret match err with Some e => Err e | None => Ok ("inserted the heading for v" +:+ version) end
       end.

(** ** Steps *)

Context (m : Merger) (ctx : Ctx).

Definition stepDir (step : Step) : res string :=
  if String.eqb (sp_Dir step) "" then Ok (ru_Dir r)
  else checkDir (sp_Dir step) ;; Ok (JoinPath (ru_Dir r) (sp_Dir step)).

Definition errTmux : error := Errorf "the command calls an unscoped tmux kill and was not run" [].
Definition errNoShip : error := Errorf "no ship runner is wired, so the step was not run" [].

(** An account and an error, as the functions of a step answer. *)
Definition account : Set := string * option error.

Definition of_res (x : res string) : account := match x with Ok s => (s, None) | Err e => ("", Some e) end.

(** [command]: [c] is the step's own context. *)
Definition command (c : Ctx) (step : Step) : Prog account :=
  if CallsUnscopedTmuxKill (sp_Command step) then Ret ("", Some errTmux)
  else match stepDir step with
       | Err e => Ret ("", Some e)
       | Ok dir =>
           '(res, err) ← run_cmd m c dir "sh" ["-c"; sp_Command step];
           Ret match err with
               | Some e => (tail (cr_Out res) 2000, Some (Errorf "did not finish: %w" [wrapped e]))
               | None =>
                   if negb (cr_Code res =? 0) then
                     ("exit " +:+ fmt_d (cr_Code res) +:+ String nl (tail (cr_Out res) 2000), Some (Errorf "exit %d" [AInt (cr_Code res)]))
                   else (tail (cr_Out res) 500, None)
               end
       end.

Definition hook (c : Ctx) (step : Step) : Prog account :=
  if negb (ru_Ship r) then Ret ("", Some errNoShip)
  else if CallsUnscopedTmuxKill (sp_Command step) then Ret ("", Some errTmux)
  else match stepDir step with
       | Err e => Ret ("", Some e)
       | Ok dir => call (ShipHook c dir step)
       end.

Fixpoint check_branches (c : Ctx) (script : string) (branches : list string) : Prog account :=
  match branches with
  | [] => Ret ("", None)
  | b :: branches =>
      if HasPrefix b "-" then Ret ("", Some (Errorf "invalid branch name %q" [AStr b]))
      else
        '(res, err) ← run_cmd m c (ru_Dir r) "env" ["MAIN_BRANCH=" +:+ mainBranch r; "bash"; script; b];
        match err with
        | Some e => Ret (tail (cr_Out res) 1500, Some (Errorf "version check of %s did not finish: %w" [AStr b; wrapped e]))
        | None =>
            if negb (cr_Code res =? 0) then
              Ret (sprintf "version check failed for %q; nothing was merged" [b] +:+ String nl (tail (cr_Out res) 1500),
                   Some (Errorf "version check failed for %q" [AStr b]))
            else check_branches c script branches
        end
  end.
Definition checkBranchVersions (c : Ctx) (req : RunRequest) : Prog account :=
  x ← check_branches c (JoinPath (scriptDir r) checkVersionScript) (rr_Branches req);
  Ret match x.2 with
      | Some _ => x
      | None => (sprintf "%d branch(es) passed the version check" [fmt_d (len (rr_Branches req))], None)
      end.

Definition mergeStopNote (merged : list string) (failed why : string) : string :=
  sprintf "merge of %q stopped: %s" [failed; why]
  +:+ match merged with [] => "" | _ => String nl ("already merged and left in place: " +:+ Join merged ", ") end.

Fixpoint merge_loop (c : Ctx) (automaton : string) (merged branches : list string) : Prog account :=
  match branches with
  | [] => Ret ("merged: " +:+ Join merged ", ", None)
  | b :: branches =>
      '(out, err) ← MergeBranch decode_reply m c (mkMergeRequest b "" automaton);
      match err with
      | Some e => Ret (mergeStopNote merged b (Error e), Some (Errorf "merge of %q failed: %w" [AStr b; wrapped e]))
      | None =>
          if bool_decide (oc_Status out ∈ [StatusMerged; StatusResolvedMechanical; StatusResolvedByModel]) then
            merge_loop c automaton (merged ++ [b]) branches
          else
            let note := oc_Summary out +:+ (if nonempty (oc_QuestionID out) then " (operator question " +:+ oc_QuestionID out +:+ ")" else "") in
            Ret (mergeStopNote merged b note, Some (Errorf "merge of %q hit a conflict that was not settled" [AStr b]))
      end
  end.
Definition mergeBranches (c : Ctx) (req : RunRequest) : Prog account := merge_loop c (rr_AutomatonID req) [] (rr_Branches req).

Definition commitBump (c : Ctx) : Prog account :=
  v ← currentVersion;
  match v with
  | Err e => Ret ("", Some e)
  | Ok v =>
      added ← gitOK m c (ru_Dir r) (["add"; "--"] ++ ru_VersionFiles r ++ [changelog r]);
      match added with
      | Err e => Ret ("", Some e)
      | Ok _ =>
          '(res, err) ← git m c (ru_Dir r) ["diff"; "--cached"; "--quiet"];
          match err with
          | Some e => Ret ("", Some e)
          | None =>
              if cr_Code res =? 0 then Ret ("nothing staged; no bump commit made", None)
              else
                let msg := "chore(release): v" +:+ v +:+ " bump for merged branches" in
                done ← gitOK m c (ru_Dir r) ["commit"; "-m"; msg];
                Ret match done with Err e => ("", Some e) | Ok _ => ("committed " +:+ msg, None) end
          end
      end
  end.

Definition doneOr (note : string) (err : option error) : account := match err with Some e => ("", Some e) | None => (note, None) end.

Definition ship (c : Ctx) (action : string) : Prog account :=
  if negb (ru_Ship r) then Ret ("", Some errNoShip)
  else
    v ← currentVersion;
    let deploy := err ← call (ShipDeploy c (ru_Dir r)); Ret (doneOr "deployed the new build" err) in
    match v with
    | Err e => if negb (String.eqb action ActionDeployLatest) then Ret ("", Some e) else deploy
    | Ok v =>
        let tag := "v" +:+ v in
        if String.eqb action ActionTagRelease then
          err ← call (ShipTag c (ru_Dir r) tag ("Release " +:+ tag)); Ret (doneOr ("tagged " +:+ tag) err)
        else if String.eqb action ActionPushRelease then
          err ← call (ShipPush c (ru_Dir r) (mainBranch r) tag); Ret (doneOr ("pushed " +:+ mainBranch r +:+ " and " +:+ tag) err)
        else deploy
    end.

Definition action (c : Ctx) (req : RunRequest) (step : Step) : Prog account :=
  let a := sp_Action step in
  if String.eqb a ActionCheckBranchVersions then checkBranchVersions c req
  else if String.eqb a ActionMergeBranches then mergeBranches c req
  else if String.eqb a ActionSetReleaseVersion then
    cur ← currentVersion;
    match cur with
    | Err e => Ret ("", Some e)
    | Ok cur =>
        match nextPatch cur with
        | Err e => Ret ("", Some e)
        | Ok next => err ← writeVersion next; Ret (doneOr (sprintf "version %s -> %s" [cur; next]) err)
        end
    end
  else if String.eqb a ActionInsertChangelog then
    v ← currentVersion;
    match v with
    | Err e => Ret ("", Some e)
    | Ok v => x ← insertChangelog v (rr_Title req); Ret (of_res x)
    end
  else if String.eqb a ActionCommitReleaseBump then commitBump c
  else if bool_decide (a ∈ [ActionTagRelease; ActionPushRelease; ActionDeployLatest]) then ship c a
  else Ret ("", Some (Errorf "unknown action %q" [AStr a])).

Definition leavesTheMachine (k : string) : bool := bool_decide (k ∈ [KindTag; KindDeploy; KindPostShipHook]).

(** A step's account as its outcome: an error keeps the detail. *)
Definition hookOutcome (x : account) : outcome :=
  match x.2 with
  | Some e => (MergeStepFailed, if String.eqb x.1 "" then Error e else x.1, Some e)
  | None => (MergeStepOK, x.1, None)
  end.

Definition execute (c : Ctx) (req : RunRequest) (step : Step) : Prog outcome :=
  has ← (if nonempty (sp_RequiresMakeTarget step) then makefileHasTarget (ru_Dir r) (sp_RequiresMakeTarget step) else Ret true);
  if negb has then Ret (MergeStepSkipped, "the project's Makefile has no " +:+ sp_RequiresMakeTarget step +:+ " target", None)
  else
    x ← (if nonempty (sp_Action step) then action c req step
         else if leavesTheMachine (sp_Kind step) then hook c step
         else command c step);
    Ret (hookOutcome x).

(** ** The record of a step *)

Definition record (run : MergePipelineRun) : Prog unit := if ru_Recorder r then call (RecordRun run) else Ret tt.

(** The run with the step's record, and the outcome with its detail redacted. *)
Definition recordStep (source : string) (step : Step) (timeout : Duration) (do_ : Ctx → Prog outcome) (run : MergePipelineRun)
    : Prog (MergePipelineRun * outcome) :=
  begun ← call Now;
  let rec end_ result detail := mkStepRun (sp_Name step) (sp_Kind step) begun end_ result source (EffectiveOnFailure step) detail in
  _ ← record (set_run_Steps (mr_Steps run ++ [rec None MergeStepRunning ""]) run);
  '(result, detail, err) ← do_ (Timed ctx timeout);
  ended ← call Now;
  let run := set_run_Steps (mr_Steps run ++ [rec (Some ended) result (redact detail)]) run in
  _ ← record run;
  Ret (run, (result, redact detail, err)).

(** Whether the step did not fail, and the error when it did. *)
Definition runStep (req : RunRequest) (step : Step) (run : MergePipelineRun) : Prog (MergePipelineRun * option error) :=
  let timeout := if sp_Timeout step <=? 0 then DefaultStepTimeout else sp_Timeout step in
  '(run, (result, detail, err)) ← recordStep (mr_Source run) step timeout (λ c, execute c req step) run;
  Ret (run, if String.eqb result MergeStepFailed then Some (default (error_of (firstLine detail)) err) else None).
End runner.
