(* ===== verification/MergeRunAll.v ===== *)
(** * Running the merge pipeline: the whole run

    internal/mergepipeline: posthook_builtins.go (the built-in hooks that follow a
    release) and the rest of run.go: the preflight, the loop over the steps, the
    post-ship hooks and the run's result; the production [ShipRunner]; and the
    history of runs of internal/autonomous/merge_pipeline_run.go. The mode of the
    registry file is left alone. *)

From S2P Require Import Prelude Effects GoBase GoText GoFmt GoRegexp GoCrypto.
From S2P Require Import RecordStore.
From S2P Require Import MergeDefinition MergeResolve ConflictHunks MergeConflict.
From S2P Require Import MergeBranch MergeRun.

#[local] Open Scope Z_scope.

(** ** The built-in post-ship hooks *)

Definition builtinRegistryRow : string := "registry_row".
Definition builtinParityIssue : string := "parity_issue".
Definition builtinTag : string := "tag".
Definition builtinNotify : string := "notify".
Definition postShipStepSource : string := "post_ship".

Definition render (s project version : string) : string :=
  ReplaceAllStr (ReplaceAllStr s "{project}" project) "{version}" version.

Definition builtinErr (format : string) (args : list string) : error := error_of (redact (sprintf format args)).

Definition registryStatuses : list string :=
  ["in progress"; "in review"; "open"; "planned"; "done"; "shipped"; "blocked"; "paused"; "deferred"; "frozen"; "partial"].

(** [strings.ToLower], for a comparison with ASCII words: two letters outside
    ASCII have an ASCII lower case, the sign of Kelvin and the dotted capital I. *)
Definition to_lower (s : string) : string :=
  ToLower (ReplaceAllStr (ReplaceAllStr s (of_bytes [226; 132; 170]%nat) "k") (of_bytes [196; 176]%nat) "i").

Definition looksLikeStatus (cell : string) : bool :=
  let t := to_lower (ReplaceAllStr (TrimSpace cell) "*" "") in
  existsb (λ w, String.eqb t w || HasPrefix t (w +:+ " ") || HasPrefix t (w +:+ ",")) registryStatuses.

Definition bar : Ascii.ascii := Ascii.ascii_of_nat 124.

(** The header above the row: the first line of the block of lines with bars the
    row is in, if it is not the row itself and not the top of the file. [above]
    are the lines above the row, nearest first, each with the line below it. *)
Fixpoint header_above (below : string) (first : bool) (above : list string) : string :=
  match above with
  | [] => ""
  | l :: above => if negb (Contains l "|") then (if first then "" else below) else header_above l false above
  end.
Definition tableHeader (lines : list string) (row : nat) : string := header_above "" true (rev (take row lines)).

(** The index of the first cell with a property. *)
Fixpoint index_where (P : string → bool) (l : list string) : option nat :=
  match l with
  | [] => None
  | x :: l => if P x then Some 0%nat else S <$> index_where P l
  end.

Definition statusCellIndex (lines : list string) (row : nat) : res nat :=
  let cells := split_byte bar (nth row lines "") in
  let h := tableHeader lines row in
  let by_header :=
    if nonempty h then
      match index_where (λ c, Contains (to_lower (TrimSpace c)) "status") (split_byte bar h) with
      | Some i => if (i <? length cells)%nat then Some i else None
      | None => None
      end
    else None in
  match by_header with
  | Some i => Ok i
  | None => match index_where looksLikeStatus cells with
            | Some i => Ok i
            | None => Err (Errorf "no status cell was found in the row" [])
            end
  end.

Definition rows_with (pattern : string) (lines : list string) : list nat :=
  List.filter (λ i, Contains (nth i lines "") pattern) (seq 0 (length lines)).

(** The file with the row's status cell marked, or what is wrong with it. *)
Definition mark_shipped (version pattern rel data : string) : res string :=
  let lines := split_byte nl data in
  match rows_with pattern lines with
  | [row] =>
      match statusCellIndex lines row with
      | Err e => Err (builtinErr "the row in %s: %s" [rel; Error e])
      | Ok idx =>
          let cells := <[idx := " Shipped " +:+ version +:+ " "]> (split_byte bar (nth row lines "")) in
          Ok (Join (<[row := Join cells "|"]> lines) (String nl ""))
      end
  | rows => Err (builtinErr "the row pattern matched %d lines in %s; exactly one is required" [fmt_d (len rows); rel])
  end.

(** [filepath.Dir] of a path that was joined. *)
Definition DirOf (p : string) : string := spell (rooted p) (removelast (elements p)).

Section hooks.
Context (m : Merger) (ship_ notifier_ : bool) (dir project version : string) (s : PostShipSettings).

(** Replace a file through a temporary one beside it, which is removed at the end. *)
Definition replace_file (path rel text : string) : Prog (res string) :=
  let d := DirOf path in
  tmp ← call (CreateTemp d);
  match tmp with
  | Err e => Ret (Err (builtinErr "temp file in %s: %s" [d; Error e]))
  | Ok tmp =>
      w ← call (WriteTemp tmp text);
      out ← match w with
            | Some e => _ ← call (CloseTemp tmp); Ret (Err (builtinErr "writing %s: %s" [rel; Error e]))
            | None =>
                c ← call (CloseTemp tmp);
                match c with
                | Some e => Ret (Err (builtinErr "closing %s: %s" [rel; Error e]))
                | None =>
                    n ← call (RenameTemp tmp path);
                    Ret match n with
                        | Some e => Err (builtinErr "replacing %s: %s" [rel; Error e])
                        | None => Ok "updated the registry row"
                        end
                end
            end;
      _ ← call (RemoveAll tmp);
      Ret out
  end.

Definition RunRegistryRow : Prog (res string) :=
  if String.eqb (TrimSpace (ps_RegistryFile s)) "" then Ret (Err (builtinErr "the registry_row hook has no registry_file setting" []))
  else
    let rel := render (ps_RegistryFile s) project version in
    match checkDir rel with
    | Err e => Ret (Err (builtinErr "registry_file %q: %s" [rel; Error e]))
    | Ok _ =>
        let pattern := render (ps_RegistryRowPattern s) project version in
        if String.eqb (TrimSpace pattern) "" then Ret (Err (builtinErr "the registry_row hook has no registry_row_pattern setting" []))
        else
          let path := JoinPath dir rel in
          data ← call (ReadFile path);
          match data with
          | Err e => Ret (Err (builtinErr "reading %s: %s" [rel; Error e]))
          | Ok data =>
              match mark_shipped version pattern rel data with
              | Err e => Ret (Err e)
              | Ok text => replace_file path rel text
              end
          end
    end.

Definition RunParityIssue (c : Ctx) : Prog (res string) :=
  if negb ship_ then Ret (Err (builtinErr "no ship runner is wired, so the parity_issue hook was not run" []))
  else
    let repo := TrimSpace (render (ps_CompanionRepository s) project version) in
    if String.eqb repo "" then Ret (Err (builtinErr "the parity_issue hook has no companion_repository setting" []))
    else
      let title := TrimSpace (render (ps_IssueTitleTemplate s) project version) in
      if String.eqb title "" then Ret (Err (builtinErr "the parity_issue hook has no issue_title_template setting" []))
      else
        let body := TrimSpace (render (ps_NotifyTemplate s) project version) in
        let body := if String.eqb body "" then
                      "Shipped " +:+ version +:+ " of " +:+ project +:+ ": parity is required on the other client surfaces for this release."
                    else body in
        err ← call (FileIssue c dir repo title body);
        Ret match err with
            | Some e => Err (builtinErr "filing the parity issue in %s: %s" [repo; Error e])
            | None => Ok ("filed the parity issue in " +:+ repo)
            end.

Definition RunTag (c : Ctx) : Prog (res string) :=
  if negb ship_ then Ret (Err (builtinErr "no ship runner is wired, so the tag hook was not run" []))
  else if String.eqb (TrimSpace version) "" then Ret (Err (builtinErr "the tag hook has no version to tag" []))
  else
    let tag := "v" +:+ version in
    '(res, err) ← run_cmd m c dir "git" ["rev-parse"; "-q"; "--verify"; "refs/tags/" +:+ tag];
    match err with
    | Some e => Ret (Err (builtinErr "checking for tag %s: %s" [tag; Error e]))
    | None =>
        if cr_Code res =? 0 then Ret (Ok ("tag " +:+ tag +:+ " already exists; skipped"))
        else
          err ← call (ShipTag c dir tag ("Release " +:+ tag));
          Ret match err with
              | Some e => Err (builtinErr "tagging %s: %s" [tag; Error e])
              | None => Ok ("tagged " +:+ tag)
              end
    end.

Definition RunNotify (c : Ctx) : Prog (res string) :=
  if negb notifier_ then Ret (Err (builtinErr "no notifier is wired, so the notify hook was not run" []))
  else
    let text := render (ps_NotifyTemplate s) project version in
    if String.eqb (TrimSpace text) "" then Ret (Err (builtinErr "the notify hook has no notify_template setting" []))
    else
      err ← call (Notify c text);
      Ret match err with
          | Some e => Err (builtinErr "sending the notification: %s" [Error e])
          | None => Ok "sent the notification"
          end.

(** [builtinPostShipHook] for a version that could be read. *)
Definition run_builtin (c : Ctx) (builtin : string) : Prog (res string) :=
  if String.eqb builtin builtinRegistryRow then RunRegistryRow
  else if String.eqb builtin builtinParityIssue then RunParityIssue c
  else if String.eqb builtin builtinTag then RunTag c
  else if String.eqb builtin builtinNotify then RunNotify c
  else Ret (Err (builtinErr "unknown built-in post-ship hook %q" [builtin])).
End hooks.

(** ** The run *)

Section run.
Context {order : MapRange} (open_below : string → string → opened) (decode : string → res Pipeline)
  (decode_reply : string → res (list proposalItem * bool)) (r : Runner).

Definition builtinPostShipHook (m : Merger) (c : Ctx) (builtin : string) (version : res string) : Prog account :=
  match version with
  | Err e => Ret ("", Some (builtinErr "the %s hook cannot run: %s" [builtin; Error e]))
  | Ok v =>
      x ← run_builtin (mkMerger (ru_Dir r) [] None false false) (ru_Ship r) (ru_Notifier r) (ru_Dir r) (ru_Project r) v (ru_PostShip r) c builtin;
      Ret (of_res x)
  end.

Definition hook_step (hk : PostShipHook) : Step :=
  mkStep (hk_Name hk) KindPostShipHook (hk_Command hk) "" "" OnFailureContinue "" 0.

Fixpoint hooks_loop (m : Merger) (ctx : Ctx) (version : res string) (hooks : list PostShipHook) (run : MergePipelineRun)
    : Prog MergePipelineRun :=
  match hooks with
  | [] => Ret run
  | hk :: hooks =>
      if negb (hk_Enabled hk) then hooks_loop m ctx version hooks run
      else
        let step := hook_step hk in
        x ← recordStep r ctx postShipStepSource step DefaultStepTimeout (λ c,
              a ← (if nonempty (hk_Builtin hk) then builtinPostShipHook m c (hk_Builtin hk) version else hook r c step);
              Ret (hookOutcome a)) run;
        hooks_loop m ctx version hooks x.1
  end.

Definition runPostShipHooks (m : Merger) (ctx : Ctx) (pushReleaseOK : bool) (run : MergePipelineRun) : Prog MergePipelineRun :=
  let cfg := ru_PostShip r in
  if negb (ps_Enabled cfg) || negb pushReleaseOK || match ps_Hooks cfg with [] => true | _ => false end then Ret run
  else v ← currentVersion r; hooks_loop m ctx v (ps_Hooks cfg) run.

Definition preflight (m : Merger) (ctx : Ctx) : Prog (option error) :=
  out ← gitOK m ctx (ru_Dir r) ["rev-parse"; "--abbrev-ref"; "HEAD"];
  match out with
  | Err e => Ret (Some e)
  | Ok out =>
      let cur := TrimSpace out in
      if negb (String.eqb cur (mainBranch r)) then
        Ret (Some (Errorf "current branch is %q; it must be %q to merge into it" [AStr cur; AStr (mainBranch r)]))
      else
        out ← gitOK m ctx (ru_Dir r) ["status"; "--porcelain"];
        Ret match out with
            | Err e => Some e
            | Ok out => if nonempty (TrimSpace out) then
                          Some (Errorf "working tree is not clean; commit or stash your changes first" [])
                        else None
            end
  end.

(** How the loop over the steps ends: how many failed and whether a push was
    made, or the error of the step that stopped it. *)
Fixpoint steps_loop (m : Merger) (ctx : Ctx) (req : RunRequest) (steps : list Step) (failures : nat) (pushed : bool) (run : MergePipelineRun)
    : Prog (MergePipelineRun * (nat * bool + error)) :=
  match steps with
  | [] => Ret (run, inl (failures, pushed))
  | step :: steps =>
      '(run, err) ← runStep decode_reply r m ctx req step run;
      match err with
      | None => steps_loop m ctx req steps failures (pushed || String.eqb (sp_Action step) ActionPushRelease) run
      | Some e =>
          if negb (String.eqb (EffectiveOnFailure step) OnFailureContinue) then
            Ret (run, inr (Errorf "step %s failed: %w" [AStr (sp_Name step); wrapped e]))
          else steps_loop m ctx req steps (S failures) pushed run
      end
  end.

Definition resolution : Resolution * option FileError :=
  match ru_Resolver r with
  | None => (mkResolution DefaultDefinition SourceDefault "no resolver configured; using the built-in pipeline" None, None)
  | Some rv => Resolve open_below decode rv (ru_Project r)
  end.

Definition finish (result : string) (err : option error) (run : MergePipelineRun) : Prog (MergePipelineRun * option error) :=
  ended ← call Now;
  let run := set_run_End ended result run in
  _ ← record r run;
  Ret (run, err).

Definition Run (ctx : Ctx) (req : RunRequest) : Prog (MergePipelineRun * option error) :=
  let '(res, rerr) := resolution in
  id ← call NewRunID;
  begun ← call Now;
  let run := mkRun id (ru_Project r) (rr_Branches req) (re_Source res) (redact (re_Reason res)) begun None MergeRunRunning [] in
  match rerr with
  | Some e =>
      let e := file_error e in
      finish MergeRunFailed (Some (Errorf "no merge pipeline could be chosen: %w" [wrapped e])) (set_run_Reason (redact (Error e)) run)
  | None =>
      if String.eqb (TrimSpace (rr_Title req)) "" then finish MergeRunFailed (Some (Errorf "the title must not be empty" [])) run
      else match rr_Branches req with
           | [] => finish MergeRunFailed (Some (Errorf "at least one branch is required" [])) run
           | _ =>
               let m := mkMerger (ru_Dir r) (re_Definition res) (ru_ConflictSettings r) (ru_Model r) (ru_Questions r) in
               _ ← record r run;
               perr ← preflight m ctx;
               match perr with
               | Some e => finish MergeRunFailed (Some e) (set_run_Reason (redact (Error e)) run)
               | None =>
                   '(run, stopped) ← steps_loop m ctx req (re_Definition res) 0 false run;
                   match stopped with
                   | inr e => finish MergeRunFailed (Some e) run
                   | inl (failures, pushed) =>
                       run ← runPostShipHooks m ctx pushed run;
                       finish (if (0 <? failures)%nat then MergeRunCompletedWithFailures else MergeRunOK) None run
                   end
               end
           end
  end.
End run.

(** ** The production [ShipRunner] *)

Record ExecShipRunner := mkExecShip { es_Remote : string; es_DeployCommand : string }.

Definition exec_run (c : Ctx) (dir name : string) (args : list string) : Prog account :=
  '(res, err) ← run_cmd (mkMerger dir [] None false false) c dir name args;
  Ret match err with
      | Some e => (redact (tail (cr_Out res) 1500), Some e)
      | None => if negb (cr_Code res =? 0) then
                  (redact (tail (cr_Out res) 1500), Some (Errorf "%s exited %d" [AStr name; AInt (cr_Code res)]))
                else (redact (tail (cr_Out res) 500), None)
      end.
Definition ExecTag (c : Ctx) (dir tag message : string) : Prog (option error) :=
  x ← exec_run c dir "git" ["tag"; "-a"; tag; "-m"; message]; Ret x.2.
Definition ExecPush (e : ExecShipRunner) (c : Ctx) (dir branch tag : string) : Prog (option error) :=
  x ← exec_run c dir "git" ["push"; if String.eqb (es_Remote e) "" then "origin" else es_Remote e; branch; tag]; Ret x.2.
Definition ExecDeploy (e : ExecShipRunner) (c : Ctx) (dir : string) : Prog (option error) :=
  if String.eqb (TrimSpace (es_DeployCommand e)) "" then Ret (Some (Errorf "no deploy command is configured" []))
  else if CallsUnscopedTmuxKill (es_DeployCommand e) then Ret (Some (Errorf "the deploy command calls an unscoped tmux kill" []))
  else x ← exec_run c dir "sh" ["-c"; es_DeployCommand e]; Ret x.2.
Definition ExecHook (c : Ctx) (dir : string) (step : Step) : Prog account := exec_run c dir "sh" ["-c"; sp_Command step].

(** ** The history of runs *)

Definition mergeRunRecordLimit : nat := 200.

Fixpoint replace_run (run : MergePipelineRun) (entries : list MergePipelineRun) : option (list MergePipelineRun) :=
  match entries with
  | [] => None
  | e :: entries => if String.eqb (mr_ID e) (mr_ID run) then Some (run :: entries) else cons e <$> replace_run run entries
  end.
Definition RecordMergeRun (run : MergePipelineRun) (entries : list MergePipelineRun) : list MergePipelineRun :=
  match replace_run run entries with
  | Some entries => entries
  | None => take mergeRunRecordLimit (run :: entries)
  end.
(** [List]: up to [limit] runs, all of them when it is not positive. *)
Definition MergeRuns (limit : Z) (entries : list MergePipelineRun) : list MergePipelineRun :=
  if (0 <? limit) && (limit <? len entries) then take (Z.to_nat limit) entries else entries.
(** [NewMergeRunRecords] on the runs read back. *)
Definition NewMergeRunRecords (file : option (list MergePipelineRun)) : list MergePipelineRun :=
  take mergeRunRecordLimit (default [] file).
