(* ===== verification/MergeRunLemmas.v ===== *)
(** * Running the merge pipeline: what a run comes to, and what it never calls

    [stepping] is the abstract pipeline: each step gets one record, a failure goes
    on only where the step says so, and the first other failure stops it. The loop
    of [Run] follows it whatever its calls answer. [harmless] programs never give
    the shell a command that kills the operator's tmux server. *)

From S2P Require Import Prelude Effects GoBase GoText GoFmt GoRegexp GoCrypto.
From S2P Require Import RecordStore.
From S2P Require Import MergeDefinition MergeResolve ConflictHunks MergeConflict.
From S2P Require Import MergeBranch MergeRun MergeRunAll.

#[local] Open Scope Z_scope.

(** ** The abstract pipeline *)

Definition continues (s : Step) : Prop := EffectiveOnFailure s = OnFailureContinue.
Definition failed (rec : MergeStepRun) : Prop := sr_Result rec = MergeStepFailed.
#[global] Instance failed_dec rec : Decision (failed rec).
Proof. unfold failed. apply _. Defined.

(** A finished record of a step. *)
Definition record_of_step (source : string) (s : Step) (rec : MergeStepRun) : Prop :=
  sr_Step rec = sp_Name s ∧ sr_Kind rec = sp_Kind s ∧ sr_Source rec = source ∧ sr_OnFailure rec = EffectiveOnFailure s
  ∧ is_Some (sr_End rec) ∧ sr_Result rec ∈ [MergeStepOK; MergeStepFailed; MergeStepSkipped].

Inductive verdict := Finished | Stopped.

Inductive stepping (source : string) : list Step → list MergeStepRun → verdict → Prop :=
| no_more : stepping source [] [] Finished
| goes_on s rec steps recs v : record_of_step source s rec → (failed rec → continues s) → stepping source steps recs v →
    stepping source (s :: steps) (rec :: recs) v
| stops s rec steps : record_of_step source s rec → failed rec → ¬ continues s → stepping source (s :: steps) [rec] Stopped.

(** A push step that did not fail: it went through, or it was skipped. *)
Definition push_not_failed (steps : list Step) (recs : list MergeStepRun) : bool :=
  existsb (λ x, String.eqb (sp_Action x.1) ActionPushRelease && negb (bool_decide (failed x.2))) (zip steps recs).
Definition push_steps (result : string) (steps : list Step) (recs : list MergeStepRun) : bool :=
  existsb (λ x, String.eqb (sp_Action x.1) ActionPushRelease && String.eqb (sr_Result x.2) result) (zip steps recs).
Definition any_failed (recs : list MergeStepRun) : bool := existsb (λ rec, bool_decide (failed rec)) recs.

Lemma push_cases source steps recs v :
  stepping source steps recs v →
  push_not_failed steps recs = push_steps MergeStepOK steps recs || push_steps MergeStepSkipped steps recs.
Proof.
  unfold push_not_failed, push_steps.
  assert (∀ s rec, record_of_step source s rec → negb (bool_decide (failed rec)) =
    String.eqb (sr_Result rec) MergeStepOK || String.eqb (sr_Result rec) MergeStepSkipped) as Hrec.
  { intros s rec (_&_&_&_&_&H). rewrite !elem_of_cons, elem_of_nil in H. unfold failed.
    destruct H as [E|[E|[E|[]]]]; rewrite E at 2 3; [by rewrite bool_decide_false by (by rewrite E)
      |by rewrite bool_decide_true|by rewrite bool_decide_false by (by rewrite E)]. }
  assert (∀ (b c d e f : bool), b && (c || d) || (e || f) = (b && c || e) || (b && d || f)) as Hb by by intros [] [] [] [] [].
  induction 1 as [|s rec steps recs v Hr _ _ IH|s rec steps Hr]; [done|..]; cbn [zip zip_with existsb fst snd]; rewrite (Hrec _ _ Hr).
  - by rewrite IH, Hb.
  - rewrite zip_with_nil_r. cbn. by rewrite !orb_false_r, andb_orb_distrib_r.
Qed.

(** ** Every answer of a program *)

Definition always {A} (p : Prog A) (Q : A → Prop) : Prop := wp (λ _ _, tt) p tt (λ _, Q).

Lemma always_runs {A} (p : Prog A) Q : always p Q ↔ ∀ t a, runs p t a → Q a.
Proof. unfold always. rewrite wp_runs. done. Qed.
Lemma always_bind {A B} (f : A → Prog B) p Q : always p (λ a, always (f a) Q) → always (p ≫= f) Q.
Proof. intros H. apply wp_bind. eapply wp_mono; [exact H|]. by intros [] a. Qed.
Lemma always_mono {A} (p : Prog A) (Q Q' : A → Prop) : always p Q → (∀ a, Q a → Q' a) → always p Q'.
Proof. intros H HQ. eapply wp_mono; [exact H|]. intros ? a. apply HQ. Qed.
Lemma always_any {A} (p : Prog A) (Q : A → Prop) : (∀ a, Q a) → always p Q.
Proof. intros HQ. apply always_runs. intros t a _. apply HQ. Qed.

Section pipeline.
Context {order : MapRange} (open_below : string → string → opened) (decode : string → res Pipeline)
  (decode_reply : string → res (list proposalItem * bool)) (r : Runner).

(** Everything of a run but its steps. *)
Definition same_run (a b : MergePipelineRun) : Prop :=
  mr_ID b = mr_ID a ∧ mr_RunProject b = mr_RunProject a ∧ mr_Branches b = mr_Branches a ∧ mr_Source b = mr_Source a
  ∧ mr_Reason b = mr_Reason a ∧ mr_Start b = mr_Start a ∧ mr_End b = mr_End a ∧ mr_Result b = mr_Result a.

Definition step_outcome (o : outcome) : Prop := step_result o ∈ [MergeStepOK; MergeStepFailed; MergeStepSkipped].

Lemma hook_outcome x : step_outcome (hookOutcome x).
Proof. unfold hookOutcome, step_outcome. destruct x.2; cbn; set_solver. Qed.

Lemma execute_outcome m c req step : always (execute decode_reply r m c req step) step_outcome.
Proof.
  unfold execute. apply always_bind, always_any. intros has. destruct (negb has); [unfold step_outcome; cbn; set_solver|].
  apply always_bind, always_any. intros x. apply hook_outcome.
Qed.

Lemma recordStep_spec ctx source step timeout do_ run :
  (∀ c, always (do_ c) step_outcome) →
  always (recordStep r ctx source step timeout do_ run) (λ x,
    same_run run x.1 ∧ ∃ rec, mr_Steps x.1 = mr_Steps run ++ [rec] ∧ record_of_step source step rec ∧ sr_Result rec = step_result x.2).
Proof.
  intros Hdo. unfold recordStep. apply always_bind. intros begun. cbn zeta. apply always_bind, always_any. intros _.
  apply always_bind. eapply always_mono; [apply Hdo|]. intros [[result detail] err] Ho. apply always_bind. intros ended.
  apply always_bind, always_any. intros _. split; [done|]. eexists. split; [done|]. split; [|done].
  by split_and!.
Qed.

Lemma runStep_spec m ctx req step run :
  always (runStep decode_reply r m ctx req step run) (λ x,
    same_run run x.1 ∧ ∃ rec, mr_Steps x.1 = mr_Steps run ++ [rec] ∧ record_of_step (mr_Source run) step rec
      ∧ (is_Some x.2 ↔ failed rec)).
Proof.
  unfold runStep. cbn zeta. apply always_bind. eapply always_mono; [apply recordStep_spec; intros c; apply execute_outcome|].
  intros [run' [[result detail] err]] (Hs&rec&Hm&Hr&Hx). split; [done|]. exists rec. split; [done|]. split; [done|].
  unfold failed. rewrite Hx. cbn. destruct (String.eqb_spec result MergeStepFailed) as [->|Hne]; [by split|].
  split; [by intros [? ?]|done].
Qed.

Lemma same_run_trans a b c : same_run a b → same_run b c → same_run a c.
Proof. unfold same_run. intuition congruence. Qed.

Lemma any_cons rec recs : any_failed (rec :: recs) = bool_decide (failed rec) || any_failed recs.
Proof. done. Qed.

Lemma steps_loop_spec m ctx req steps failures pushed run :
  always (steps_loop decode_reply r m ctx req steps failures pushed run) (λ x,
    same_run run x.1 ∧ ∃ recs, mr_Steps x.1 = mr_Steps run ++ recs ∧
      match x.2 with
      | inl (failures', pushed') => stepping (mr_Source run) steps recs Finished
          ∧ (0 <? failures')%nat = ((0 <? failures)%nat || any_failed recs) ∧ pushed' = pushed || push_not_failed steps recs
      | inr _ => stepping (mr_Source run) steps recs Stopped
      end).
Proof.
  revert failures pushed run. induction steps as [|step steps IH]; intros failures pushed run.
  - split; [done|]. exists []. rewrite app_nil_r. split; [done|]. rewrite !orb_false_r. split_and!; [constructor|done..].
  - cbn [steps_loop]. apply always_bind. eapply always_mono; [apply runStep_spec|].
    intros [run1 err] (Hs&rec&Hm&Hr&He). cbn in Hs, Hm, He. destruct err as [e|].
    + assert (failed rec) as Hf by by apply He. unfold continues in *.
      destruct (String.eqb_spec (EffectiveOnFailure step) OnFailureContinue) as [Hc|Hc]; cbn [negb].
      * eapply always_mono; [apply IH|]. intros [run2 x] (Hs2&recs&Hm2&Hx). cbn [fst snd] in Hs2, Hm2, Hx.
        assert (mr_Source run1 = mr_Source run) as Hsrc by apply Hs. rewrite Hsrc in Hx.
        split; [by eapply same_run_trans|]. exists (rec :: recs). cbn [fst snd]. split; [by rewrite Hm2, Hm, <- (assoc_L (++))|].
        destruct x as [[f p]|e']; [|by apply goes_on]. destruct Hx as (Hst&Hf'&Hp). split_and!; [by apply goes_on| |].
        -- rewrite Hf', any_cons, bool_decide_true by done. cbn. by rewrite orb_true_r.
        -- rewrite Hp. unfold push_not_failed. cbn. rewrite (bool_decide_true (failed rec)) by done. by rewrite andb_false_r.
      * split; [done|]. exists [rec]. split; [done|]. by apply stops.
    + assert (¬ failed rec) as Hf by (intros Hf; apply He in Hf as [? ?]; done).
      eapply always_mono; [apply IH|]. intros [run2 x] (Hs2&recs&Hm2&Hx). cbn [fst snd] in Hs2, Hm2, Hx.
      assert (mr_Source run1 = mr_Source run) as Hsrc by apply Hs. rewrite Hsrc in Hx.
      split; [by eapply same_run_trans|]. exists (rec :: recs). cbn [fst snd]. split; [by rewrite Hm2, Hm, <- (assoc_L (++))|].
      destruct x as [[f p]|e']; [|by apply goes_on]. destruct Hx as (Hst&Hf'&Hp). split_and!; [by apply goes_on| |].
      * by rewrite Hf', any_cons, bool_decide_false.
      * rewrite Hp. unfold push_not_failed. cbn. rewrite (bool_decide_false (failed rec)) by done. cbn. by rewrite andb_true_r, orb_assoc.
Qed.

(** *** The hooks after a release *)

Definition enabled_hooks : list PostShipHook := List.filter hk_Enabled (ps_Hooks (ru_PostShip r)).

Lemma hooks_loop_spec m ctx version hooks run :
  always (hooks_loop r m ctx version hooks run) (λ x,
    same_run run x ∧ ∃ recs, mr_Steps x = mr_Steps run ++ recs
      ∧ Forall2 (record_of_step postShipStepSource) (hook_step <$> List.filter hk_Enabled hooks) recs).
Proof.
  revert run. induction hooks as [|hk hooks IH]; intros run.
  - split; [done|]. exists []. rewrite app_nil_r. split; [done|constructor].
  - cbn [hooks_loop List.filter]. destruct (hk_Enabled hk); cbn [negb]; [|apply IH]. cbn zeta. apply always_bind.
    eapply always_mono; [apply recordStep_spec; intros c; apply always_bind, always_any; intros a; apply hook_outcome|].
    intros [run1 o] (Hs&rec&Hm&Hr&_). cbn [fst snd] in Hs, Hm. eapply always_mono; [apply IH|]. intros run2 (Hs2&recs&Hm2&Hf). cbn [fst] in Hs2, Hm2.
    split; [by eapply same_run_trans|]. exists (rec :: recs). split; [by rewrite Hm2, Hm, <- (assoc_L (++))|]. by constructor.
Qed.

Definition hooks_due (pushed : bool) : bool := ps_Enabled (ru_PostShip r) && pushed.

Lemma postShip_spec m ctx pushed run :
  always (runPostShipHooks r m ctx pushed run) (λ x,
    same_run run x ∧ ∃ recs, mr_Steps x = mr_Steps run ++ recs
      ∧ Forall2 (record_of_step postShipStepSource) (if hooks_due pushed then hook_step <$> enabled_hooks else []) recs).
Proof.
  unfold runPostShipHooks, hooks_due, enabled_hooks. cbn zeta.
  assert (∀ x, same_run x x ∧ ∃ recs, mr_Steps x = mr_Steps x ++ recs ∧ Forall2 (record_of_step postShipStepSource) [] recs) as Hno.
  { intros x. split; [done|]. exists []. by rewrite app_nil_r. }
  destruct (ps_Enabled _), pushed; cbn; try apply Hno.
  destruct (ps_Hooks (ru_PostShip r)) as [|hk hooks]; [apply Hno|]. apply always_bind, always_any. intros v. apply hooks_loop_spec.
Qed.
End pipeline.

(** ** Commands that would reach the operator's tmux server *)

(** A shell command line, or a hook's, that does not. *)
Definition tame (name : string) (args : list string) : bool :=
  negb (String.eqb name "sh" && existsb CallsUnscopedTmuxKill (drop 1 args)).
Definition harmless_call (e : event) : bool :=
  match e with
  | Event op _ =>
      match op with
      | RunCmd _ _ name args => tame name args
      | ShipHook _ _ step => negb (CallsUnscopedTmuxKill (sp_Command step))
      | _ => true
      end
  end.
Definition stay (b : bool) (e : event) : bool := b && harmless_call e.
Notation harmless := (unseen stay).

Lemma stay_all t : foldl stay true t = true → Forall (λ e, harmless_call e = true) t.
Proof.
  assert (∀ t b, foldl stay b t = true → b = true ∧ Forall (λ e, harmless_call e = true) t) as H; [|by intros [_ ?]%H].
  clear t. intros t. induction t as [|e t IH]; intros b Hb; [by split|]. simpl in Hb.
  apply IH in Hb as [Hb Ht]. apply andb_true_iff in Hb as [? ?]. split; [done|]. by constructor.
Qed.

Lemma harmless_runs {A} (p : Prog A) t a : harmless p → runs p t a → Forall (λ e, harmless_call e = true) t.
Proof.
  intros Hp Hr. apply stay_all. exact (proj1 (wp_runs stay p true (λ b _, b = true)) (Hp true _ (λ _, eq_refl)) t a Hr).
Qed.

Lemma harmless_call_ok {X : Set} (op : Op X) : (∀ x, harmless_call (Event op x) = true) → harmless (call op).
Proof. intros Ho. apply unseen_call. intros b x. unfold stay. by rewrite Ho, andb_true_r. Qed.

Lemma harmless_cmd m ctx dir name args : tame name args = true → harmless (run_cmd m ctx dir name args).
Proof.
  intros Ht. unfold run_cmd. destruct (String.eqb _ _); [apply unseen_ret|].
  apply unseen_bind; [|intros ok; destruct (negb ok); [apply unseen_ret|]].
  - unfold within. apply unseen_bind; [by apply harmless_call_ok|]. intros [r|]; [|apply unseen_ret].
    apply unseen_bind; [by apply harmless_call_ok|]. intros [d|]; apply unseen_ret.
  - apply unseen_bind; [by apply harmless_call_ok|]. intros a. apply unseen_ret.
Qed.
Lemma harmless_git m ctx dir args : harmless (git m ctx dir args).
Proof. by apply harmless_cmd. Qed.
Lemma harmless_gitOK m ctx dir args : harmless (gitOK m ctx dir args).
Proof. apply unseen_bind; [apply harmless_git|]. intros [r err]. apply unseen_ret. Qed.

Create HintDb harmless.
#[export] Hint Resolve harmless_git harmless_gitOK unseen_ret : harmless.

(** Follows a program call by call. *)
Ltac follow_calls :=
  repeat match goal with
  | |- unseen _ (Ret _) => apply unseen_ret
  | |- unseen _ (call _) => by apply harmless_call_ok
  | |- unseen _ (try _ _) => apply unseen_try; [|intros ?]
  | |- unseen _ (_ ≫= _) => apply unseen_bind; [|intros ?]
  | |- unseen _ (run_cmd _ _ _ _ _) => by apply harmless_cmd
  | |- unseen _ _ => solve [auto with harmless nocore]
  | |- context [ match ?x with _ => _ end ] => destruct x eqn:?
  end.

Section harmless.
Context {order : MapRange} (open_below : string → string → opened) (decode : string → res Pipeline)
  (decode_reply : string → res (list proposalItem * bool)) (r : Runner) (m : Merger).

Lemma harmless_makefile dir target : harmless (makefileHasTarget dir target).
Proof. unfold makefileHasTarget. induction ["GNUmakefile"; "makefile"; "Makefile"] as [|n l IH]; cbn [makefile_has]; follow_calls; apply IH. Qed.
Lemma harmless_unmerged ctx dir : harmless (unmergedFiles m ctx dir).
Proof. unfold unmergedFiles. follow_calls. Qed.
Lemma harmless_revParse ctx dir rev : harmless (revParse m ctx dir rev).
Proof. unfold revParse. follow_calls. Qed.
Lemma harmless_abort ctx dir : harmless (abort m ctx dir).
Proof. unfold abort. follow_calls. Qed.
Lemma harmless_abortQuietly dir : harmless (abortQuietly m dir).
Proof. unfold abortQuietly. follow_calls. Qed.
Lemma harmless_stage ctx dir texts : harmless (stageTexts m ctx dir texts).
Proof. unfold stageTexts. induction (map_range texts) as [|[f text] l IH]; cbn [stage_loop]; follow_calls; apply IH. Qed.
Lemma harmless_mechanical dir files : harmless (mechanical dir files).
Proof.
  unfold mechanical. generalize (∅ : gmap string string) (@nil ResolvedHunk) (@nil string).
  induction files as [|f files IH]; intros texts rs rest; cbn [mechanical_loop]; follow_calls; apply IH.
Qed.
Lemma harmless_askOperator req o h b : harmless (askOperator m req o h b).
Proof. unfold askOperator. follow_calls. Qed.
End harmless.
#[export] Hint Resolve harmless_makefile harmless_unmerged harmless_revParse harmless_abort harmless_abortQuietly harmless_stage
  harmless_mechanical harmless_askOperator : harmless.

Lemma tame_sh cmd : CallsUnscopedTmuxKill cmd = false → tame "sh" ["-c"; cmd] = true.
Proof. intros Hc. unfold tame. simpl. by rewrite Hc. Qed.

Section harmless_merge.
Context {order : MapRange} (decode_reply : string → res (list proposalItem * bool)) (m : Merger).

Lemma harmless_tests ctx dir set : harmless (runTestSteps m ctx dir set).
Proof.
  unfold runTestSteps. generalize 0%nat. induction (me_Pipeline m) as [|st steps IH]; intros ran; cbn [test_loop]; cbn zeta;
    [apply unseen_ret|].
  destruct (negb _); [apply IH|]. apply unseen_bind; [destruct (nonempty _); auto with harmless|]. intros has.
  destruct (negb has); [apply IH|]. destruct (String.eqb _ _); [apply unseen_ret|].
  destruct (CallsUnscopedTmuxKill _) eqn:Hk; [apply unseen_ret|]. destruct (_ && _); [apply unseen_ret|].
  apply unseen_bind; [apply harmless_cmd; by apply tame_sh|]. intros a. follow_calls.
Qed.
#[local] Hint Resolve harmless_tests : harmless.

Lemma harmless_callModel ctx set prompt : harmless (callModel m ctx set prompt).
Proof. unfold callModel. follow_calls. Qed.
Lemma harmless_collect scratch files texts want : harmless (collect_loop scratch files texts want).
Proof. revert texts want. induction files as [|f files IH]; intros texts want; cbn [collect_loop]; follow_calls; apply IH. Qed.
Lemma harmless_land ctx scratch msg n : harmless (land m ctx scratch msg n).
Proof. unfold land. follow_calls. Qed.
#[local] Hint Resolve harmless_callModel harmless_collect harmless_land : harmless.
Lemma harmless_proposal ctx set scratch msg reply texts want : harmless (try_proposal decode_reply m ctx set scratch msg reply texts want).
Proof. unfold try_proposal. cbn zeta. follow_calls. Qed.
#[local] Hint Resolve harmless_proposal : harmless.
Lemma harmless_attempt ctx set req scratch : harmless (attempt_in decode_reply m ctx set req scratch).
Proof. unfold attempt_in. cbn zeta. follow_calls. Qed.
Lemma harmless_discard scratch : harmless (discardScratch m scratch).
Proof. unfold discardScratch. cbn zeta. follow_calls. Qed.
#[local] Hint Resolve harmless_attempt harmless_discard : harmless.
Lemma harmless_propose ctx set req : harmless (proposeWithModel decode_reply m ctx set req).
Proof. unfold proposeWithModel. cbn zeta. follow_calls. Qed.
Lemma harmless_ask req h b out : harmless (ask m req h b out).
Proof. unfold ask. cbn zeta. follow_calls. Qed.
#[local] Hint Resolve harmless_propose harmless_ask : harmless.
Lemma harmless_after_abort ctx set req h b out : harmless (after_abort decode_reply m ctx set req h b out).
Proof. unfold after_abort. cbn zeta. follow_calls. Qed.
#[local] Hint Resolve harmless_after_abort : harmless.
Lemma harmless_put_back ctx set req h b out : harmless (put_back decode_reply m ctx set req h b out).
Proof. unfold put_back. follow_calls. Qed.
Lemma harmless_commit ctx dir texts msg : harmless (commitResolved m ctx dir texts msg).
Proof. unfold commitResolved. follow_calls. Qed.
#[local] Hint Resolve harmless_put_back harmless_commit : harmless.
Lemma harmless_settle ctx set req h b files out : harmless (settle decode_reply m ctx set req h b files out).
Proof. unfold settle. cbn zeta. follow_calls. Qed.
#[local] Hint Resolve harmless_settle : harmless.
Lemma harmless_merge ctx req : harmless (MergeBranch decode_reply m ctx req).
Proof. unfold MergeBranch. cbn zeta. follow_calls. Qed.
End harmless_merge.
#[export] Hint Resolve harmless_merge : harmless.

Section harmless_run.
Context {order : MapRange} (open_below : string → string → opened) (decode : string → res Pipeline)
  (decode_reply : string → res (list proposalItem * bool)) (r : Runner).

Lemma harmless_read rel : harmless (readInside r rel).
Proof. unfold readInside. cbn zeta. follow_calls. Qed.
#[local] Hint Resolve harmless_read : harmless.
Lemma harmless_version : harmless (currentVersion r).
Proof. unfold currentVersion. follow_calls. Qed.
#[local] Hint Resolve harmless_version : harmless.
Lemma harmless_pending v files : harmless (pending_versions r v files).
Proof. induction files as [|f files IH]; cbn [pending_versions]; follow_calls; apply IH. Qed.
Lemma harmless_write files : harmless (write_all files).
Proof. induction files as [|[p d] files IH]; cbn [write_all]; follow_calls; apply IH. Qed.
#[local] Hint Resolve harmless_pending harmless_write : harmless.
Lemma harmless_writeVersion v : harmless (writeVersion r v).
Proof. unfold writeVersion. follow_calls. Qed.
Lemma harmless_changelog v title : harmless (insertChangelog r v title).
Proof. unfold insertChangelog. cbn zeta. follow_calls. Qed.
#[local] Hint Resolve harmless_writeVersion harmless_changelog : harmless.

Lemma harmless_command m c step : harmless (command r m c step).
Proof.
  unfold command. destruct (CallsUnscopedTmuxKill _) eqn:Hk; [apply unseen_ret|]. destruct (stepDir r step); [|apply unseen_ret].
  apply unseen_bind; [apply harmless_cmd; by apply tame_sh|]. intros [res err]. apply unseen_ret.
Qed.
Lemma harmless_hook c step : harmless (hook r c step).
Proof.
  unfold hook. destruct (negb _); [apply unseen_ret|]. destruct (CallsUnscopedTmuxKill _) eqn:Hk; [apply unseen_ret|].
  destruct (stepDir r step); [|apply unseen_ret]. apply harmless_call_ok. intros x. simpl. by rewrite Hk.
Qed.
Lemma harmless_branches m c script branches : harmless (check_branches r m c script branches).
Proof. induction branches as [|b branches IH]; cbn [check_branches]; follow_calls; apply IH. Qed.
Lemma harmless_merges m c automaton merged branches : harmless (merge_loop decode_reply m c automaton merged branches).
Proof. revert merged. induction branches as [|b branches IH]; intros merged; cbn [merge_loop]; cbn zeta; follow_calls; apply IH. Qed.
Lemma harmless_bump m c : harmless (commitBump r m c).
Proof. unfold commitBump. cbn zeta. follow_calls. Qed.
Lemma harmless_ship c a : harmless (ship r c a).
Proof. unfold ship. cbn zeta. follow_calls. Qed.
#[local] Hint Resolve harmless_command harmless_hook harmless_branches harmless_merges harmless_bump harmless_ship : harmless.
Lemma harmless_action m c req step : harmless (action decode_reply r m c req step).
Proof. unfold action, checkBranchVersions, mergeBranches. cbn zeta. follow_calls. Qed.
#[local] Hint Resolve harmless_action : harmless.
Lemma harmless_execute m c req step : harmless (execute decode_reply r m c req step).
Proof. unfold execute. follow_calls. Qed.
Lemma harmless_record run : harmless (record r run).
Proof. unfold record. follow_calls. Qed.
#[local] Hint Resolve harmless_execute harmless_record : harmless.
Lemma harmless_recordStep ctx source step timeout do_ run : (∀ c, harmless (do_ c)) →
  harmless (recordStep r ctx source step timeout do_ run).
Proof. intros Hdo. unfold recordStep. cbn zeta. follow_calls. Qed.
Lemma harmless_runStep m ctx req step run : harmless (runStep decode_reply r m ctx req step run).
Proof.
  unfold runStep. cbn zeta. apply unseen_bind; [apply harmless_recordStep; auto with harmless|].
  intros [run' [[result detail] err]]. apply unseen_ret.
Qed.
#[local] Hint Resolve harmless_runStep : harmless.
Lemma harmless_steps m ctx req steps failures pushed run : harmless (steps_loop decode_reply r m ctx req steps failures pushed run).
Proof. revert failures pushed run. induction steps as [|s steps IH]; intros; cbn [steps_loop]; follow_calls; apply IH. Qed.
Lemma harmless_builtin m c builtin version : harmless (builtinPostShipHook r m c builtin version).
Proof.
  unfold builtinPostShipHook, run_builtin, RunRegistryRow, RunParityIssue, RunTag, RunNotify, replace_file. cbn zeta. follow_calls.
Qed.
Lemma harmless_hooks m ctx version hooks run : harmless (hooks_loop r m ctx version hooks run).
Proof.
  revert run. induction hooks as [|hk hooks IH]; intros run; cbn [hooks_loop]; [apply unseen_ret|]. destruct (negb _); [apply IH|].
  cbn zeta. apply unseen_bind; [|intros x; apply IH]. apply harmless_recordStep. intros c.
  apply unseen_bind; [|intros a; apply unseen_ret]. destruct (nonempty _); [apply harmless_builtin|apply harmless_hook].
Qed.
#[local] Hint Resolve harmless_steps harmless_hooks : harmless.
Lemma harmless_postShip m ctx pushed run : harmless (runPostShipHooks r m ctx pushed run).
Proof. unfold runPostShipHooks. cbn zeta. destruct (_ || _ || _); [apply unseen_ret|]. follow_calls. Qed.
Lemma harmless_preflight m ctx : harmless (preflight r m ctx).
Proof. unfold preflight. cbn zeta. follow_calls. Qed.
Lemma harmless_finish result err run : harmless (finish r result err run).
Proof. unfold finish. cbn zeta. follow_calls. Qed.
#[local] Hint Resolve harmless_postShip harmless_preflight harmless_finish : harmless.
Lemma harmless_Run ctx req : harmless (Run open_below decode decode_reply r ctx req).
Proof. unfold Run. destruct (resolution _ _ _) as [res rerr]. cbn zeta. follow_calls. Qed.
End harmless_run.
