(* ===== verification/MergePipelineTheorems.v ===== *)
(** * The merge pipeline: the theorems

    A file settled mechanically keeps every line of both sides; a merge is never
    left open; a run follows its pipeline; no run reaches the operator's tmux
    server; the pipeline in effect is one the checks accept. *)

From S2P Require Import Prelude Effects GoBase GoText GoFmt GoRegexp GoCrypto.
From S2P Require Import RecordStore.
From S2P Require Import MergeDefinition MergeResolve ConflictHunks ConflictHunksLemmas.
From S2P Require Import MergeConflict MergeBranch.
From S2P Require Import MergeBranchLemmas MergeRun MergeRunAll MergeRunLemmas.

#[local] Open Scope Z_scope.

(** ** Conflicts settled mechanically *)

(** C6: a file [ResolveAdditive] reports as settled keeps both sides. Its lines
    are the file's own lines outside the conflicts and, for each conflict, a text in
    which our lines and theirs both occur in order, with nothing that is in neither;
    each side had kept every line of the common base; every conflict is accounted for
    by one record; and no line of the result opens a conflict. *)
Theorem resolved_keeps_both file text new resolved :
  ResolveAdditive file text = Ok (new, resolved, []) →
  ∃ segs, parseConflicts file text = Ok segs
    ∧ linesOf new = concat (piece <$> segs)
    ∧ none opens (linesOf new)
    ∧ (rh_Index <$> resolved) = (h_Index <$> hunks_of segs)
    ∧ ∀ h, h ∈ hunks_of segs → let m := piece (Conflict h) in
        h_Base h ⊑ h_Ours h ∧ h_Base h ⊑ h_Theirs h ∧ h_Ours h ⊑ m ∧ h_Theirs h ⊑ m
        ∧ ∀ l, l ∈ m → l ∈ h_Ours h ∨ l ∈ h_Theirs h.
Proof.
  intros Hr. destruct (parseConflicts file text) as [segs|e] eqn:Hp; [|by unfold ResolveAdditive in Hr; rewrite Hp in Hr].
  exists segs. split; [done|]. destruct (resolve_eq _ _ _ Hp) as [He Hl]. rewrite He in Hr. cbn zeta in Hr. clear He.
  set (new0 := concat_s (concat (piece <$> segs))) in *.
  assert (new = new0 ∧ resolved = resolutions file segs ∧ none opens (linesOf new0)) as (->&->&Hn).
  { destruct (ParseHunks file new0) as [hs|e] eqn:Hh.
    - injection Hr as <- <- ->. unfold ParseHunks in Hh. destruct (parseConflicts file new0) as [segs'|] eqn:Hp'; [|done].
      apply parse_exact in Hp' as [_ Hne]. injection Hh as Hh. done.
    - destruct (is_no_markers e) eqn:Hm; [|done]. injection Hr as <- <-. split_and!; [done..|].
      unfold ParseHunks in Hh. destruct (parseConflicts file new0) as [|e'] eqn:Hp'; [done|]. injection Hh as ->.
      by apply (parse_error file (linesOf new0) 0 0 [] [] None) in Hp' as [? _]; [|lia|left|]. }
  pose proof Hp as [Hsp _]%parse_exact. destruct (linesOf_ok text) as [Hok _].
  destruct (spelt_sides _ _ _ _ _ Hsp Hok) as [Hf _]. rewrite Hl in *. split; [done|]. split; [done|].
  destruct (pieces_settled segs Hf Hn) as [Hall Hset]. split; [by apply resolutions_all|].
  intros h Hh. rewrite Forall_forall in Hf. destruct (Hf h Hh) as [Hfull _]. destruct (Hset h Hh) as [m Hm].
  destruct (settled_full h m Hfull Hm) as (H1&H2&H3). cbn zeta. cbn [piece]. rewrite Hm. cbn [default from_option].
  destruct (proj1 (settles_exact h Hfull)) as [H4 H5]; [apply bool_decide_eq_true; by exists m|done].
Qed.

(** ** A merge is never left open *)

(** The project's directory resolves to the same place throughout the run. *)
Definition steady (dir d : string) (e : event) : Prop :=
  match e with
  | Event op x =>
      match op in Op X return X → Prop with
      | EvalSymlinks p => λ a, p = dir → a = Some d
      | _ => λ _, True
      end x
  end.

Lemma steady_next dir d t s : Forall (steady dir d) t → ∃ s', foldl (next dir d) (Some s) t = Some s'.
Proof.
  intros Ht. revert s. induction Ht as [|[X op x] t He Ht IH]; intros s; [by exists s|]. simpl.
  assert (∃ s1, next dir d (Some s) (Event op x) = Some s1) as [s1 E]; [|simpl in E; rewrite E; apply IH].
  destruct op; simpl in *; try by eexists. destruct (String.eqb_spec p dir) as [->|]; [|by eexists].
  rewrite He by done. rewrite bool_decide_true by done. by eexists.
Qed.

(** Every abort asked of git in the project's directory went through. *)
Definition aborts_work (dir : string) (t : list event) : Prop :=
  Forall (λ e, match e with
    | Event op x =>
        match op in Op X return X → Prop with
        | RunCmd _ wd name args => λ a,
            name ≠ "sh" → wd = dir → take 2 (drop 2 args) = ["merge"; "--abort"] → exited a = true
        | _ => λ _, True
        end x
    end) t.

Lemma note_project_stuck args ok s :
  sn_phase s ≠ Stuck → (take 2 args = ["merge"; "--abort"] → ok = true) → sn_phase (note_project args ok s) ≠ Stuck.
Proof.
  intros Hs Ha. destruct args as [|verb [|arg args]]; [done..|]. cbn [note_project]. cbv zeta.
  destruct (String.eqb_spec verb "merge") as [->|]; [|by destruct (String.eqb verb "commit"), ok].
  destruct (String.eqb_spec arg "--no-ff") as [->|]; [by destruct ok|].
  destruct (String.eqb_spec arg "--abort") as [->|]; [by rewrite Ha|].
  by destruct (String.eqb arg "--ff-only"), ok.
Qed.

Lemma never_stuck dir d t s s' :
  aborts_work dir t → sn_phase s ≠ Stuck → foldl (next dir d) (Some s) t = Some s' → sn_phase s' ≠ Stuck.
Proof.
  assert (∀ t, foldl (next dir d) None t = None) as Hnone by (clear; induction t; done).
  intros Ht. revert s. induction Ht as [|[X op x] t He Ht IH]; intros s Hs; [by intros [= <-]|]. cbn [foldl].
  destruct (next dir d (Some s) (Event op x)) as [s1|] eqn:E; [|by rewrite Hnone]. apply IH. clear IH.
  destruct op; cbn in E; try (by injection E as <-).
  - by destruct (_ && _); [|injection E as <-].
  - injection E as <-. destruct (String.eqb_spec name "sh"); [done|]. destruct (String.eqb_spec dir0 dir); [|].
    + apply note_project_stuck; [done|]. intros Ha. by apply He.
    + unfold note_other. destruct (drop 2 args); [done|]. by destruct (_ && _).
Qed.

(** C5: however git, the shell, the files and the model answer, as long as the
    project's directory keeps resolving to one place: when [MergeBranch] answers
    without an error, the merge it reports was committed (or the project
    fast-forwarded), or it was aborted and the operator asked. With an error, no merge
    was begun or its abort was run; so if git carries out the aborts it is asked for, a
    merge that was begun is committed or aborted. (An abort git refuses leaves it open,
    and an error is returned.) And the project is moved onto the model's proposal only
    after at least one test step ran, every one passed, and the tested tree was
    committed. *)
Theorem merge_never_left_open `{!MapRange} decode_reply m ctx req t out err d :
  runs (MergeBranch decode_reply m ctx req) t (out, err) → Forall (steady (me_Dir m) d) t →
  ∃ s, foldl (next (me_Dir m) d) (Some start) t = Some s ∧ ended s (out, err)
    ∧ (aborts_work (me_Dir m) t → sn_phase s ∈ [Idle; Closed; Landed]).
Proof.
  intros Hr Ht. destruct (steady_next _ d t start Ht) as [s Hs]. exists s.
  pose proof (wp_MergeBranch m d decode_reply ctx req) as Hw. unfold wpm in Hw. rewrite wp_runs in Hw.
  specialize (Hw t (out, err) Hr). rewrite Hs in Hw. split; [done|]. split; [done|]. intros Ha.
  assert (sn_phase start ≠ Stuck) as H0 by done. pose proof (never_stuck _ _ _ _ _ Ha H0 Hs) as Hn. destruct Hw as [_ Hw]. simpl in Hw.
  destruct err as [e|]; [|destruct Hw as [[_ Hp]|[_ Hp]]; rewrite Hp; set_solver].
  rewrite !elem_of_cons in *. naive_solver.
Qed.

(** ** A run follows its pipeline *)

(** What a run of the pipeline [res] may come to. *)
Definition run_spec (r : Runner) (res : Resolution) (run : MergePipelineRun) (err : option error) : Prop :=
  let source := re_Source res in
  let pipeline := re_Definition res in
  is_Some (mr_End run) ∧ mr_Source run = source ∧
  ((mr_Steps run = [] ∧ mr_Result run = MergeRunFailed ∧ is_Some err)
   ∨ (stepping source pipeline (mr_Steps run) Stopped ∧ mr_Result run = MergeRunFailed ∧ is_Some err)
   ∨ ∃ recs hooks, mr_Steps run = recs ++ hooks ∧ stepping source pipeline recs Finished
       ∧ Forall2 (record_of_step postShipStepSource)
           (if hooks_due r (push_steps MergeStepOK pipeline recs || push_steps MergeStepSkipped pipeline recs)
            then hook_step <$> enabled_hooks r else []) hooks
       ∧ mr_Result run = (if any_failed recs then MergeRunCompletedWithFailures else MergeRunOK) ∧ err = None).

Section run.
Context `{!MapRange} (open_below : string → string → opened) (decode : string → res Pipeline)
  (decode_reply : string → res (list proposalItem * bool)) (r : Runner).

Lemma ended_spec result err run :
  always (finish r result err run) (λ x, mr_Source x.1 = mr_Source run ∧ mr_Steps x.1 = mr_Steps run
    ∧ is_Some (mr_End x.1) ∧ mr_Result x.1 = result ∧ x.2 = err).
Proof.
  unfold finish. apply always_bind. intros ended. cbn zeta. apply always_bind, always_any. intros _.
  by split_and!.
Qed.

Lemma refused_spec res e run : mr_Steps run = [] → mr_Source run = re_Source res →
  always (finish r MergeRunFailed (Some e) run) (λ x, run_spec r res x.1 x.2).
Proof.
  intros Hst Hsrc. eapply always_mono; [apply ended_spec|]. intros [run' err'] (Hsrc'&Hs&He&Hres&Herr). cbn [fst snd] in *.
  split; [done|]. split; [congruence|]. left. rewrite Hs, Herr. split_and!; [done..|by eexists].
Qed.

Lemma ran_spec m ctx req res run : mr_Steps run = [] → mr_Source run = re_Source res →
  always ('(run, stopped) ← steps_loop decode_reply r m ctx req (re_Definition res) 0 false run;
    match stopped with
    | inr e => finish r MergeRunFailed (Some e) run
    | inl (failures, pushed) =>
        run ← runPostShipHooks r m ctx pushed run;
        finish r (if (0 <? failures)%nat then MergeRunCompletedWithFailures else MergeRunOK) None run
    end) (λ x, run_spec r res x.1 x.2).
Proof.
  intros Hst Hsrc. apply always_bind. eapply always_mono; [apply steps_loop_spec|].
  intros [run1 stopped] (Hsame&recs&Hs&Hx). cbn [fst snd] in Hsame, Hs, Hx. rewrite Hst in Hs. cbn [app] in Hs. rewrite Hsrc in Hx.
  assert (mr_Source run1 = re_Source res) as Hsrc1 by (rewrite <- Hsrc; apply Hsame). destruct stopped as [[failures pushed]|e].
  - destruct Hx as (Hfin&Hf&Hp). apply always_bind. eapply always_mono; [apply postShip_spec|].
    intros run2 (Hsame2&hooks&Hs2&Hh). eapply always_mono; [apply ended_spec|].
    intros [run3 err] (Hsrc3&Hs3&He&Hres&Herr). cbn [fst snd] in *. split; [done|].
    split; [rewrite Hsrc3; etrans; [apply Hsame2|done]|]. right. right. exists recs, hooks.
    split_and!; [by rewrite Hs3, Hs2, Hs|done|by rewrite Hp, (push_cases _ _ _ _ Hfin) in Hh| |done]. by rewrite Hres, Hf.
  - eapply always_mono; [apply ended_spec|]. intros [run3 err] (Hsrc3&Hs3&He&Hres&Herr). cbn [fst snd] in *.
    split; [done|]. split; [congruence|]. right. left. rewrite Hs3, Hs, Herr. split_and!; [done..|by eexists].
Qed.

Lemma Run_spec ctx req :
  always (Run open_below decode decode_reply r ctx req) (λ x, run_spec r (resolution open_below decode r).1 x.1 x.2).
Proof.
  unfold Run. destruct (resolution open_below decode r) as [res rerr]. cbn [fst]. apply always_bind. intros id.
  apply always_bind. intros begun. cbn zeta.
  destruct rerr as [e|]; [by apply refused_spec|]. destruct (String.eqb _ _); [by apply refused_spec|].
  destruct (rr_Branches req) as [|b bs]; [by apply refused_spec|]. apply always_bind, always_any. intros _.
  apply always_bind, always_any. intros [e|]; [by apply refused_spec|]. by apply ran_spec.
Qed.
End run.


(** no run of a pipeline, checked or not, gives the shell a command line, or a
    hook one, that kills tmux without a socket or environment of its own. *)
Theorem tmux_never_killed `{!MapRange} open_below decode decode_reply r ctx req t x :
  runs (Run open_below decode decode_reply r ctx req) t x → Forall (λ e, harmless_call e = true) t.
Proof. apply harmless_runs, harmless_Run. Qed.

(** whatever sets, deletions and restarts the record store went through, its
    records are valid, each under its own project, and the file holds the same; and a
    pipeline [Resolve] answers without an error is one the checks accept, whether it
    came from the project's file, a record or the built-in definition. *)
Theorem pipeline_in_effect_valid {W} `{!Disk W MergeRecord, !DiskLaws W MergeRecord} open_below decode w calls r project :
  let s := (after_calls w (NewRecordStore None) calls).2 in
  records_ok s
  ∧ (rv_Records r = Some s ∨ rv_Records r = None → ∀ res,
       Resolve open_below decode r project = (res, None) → valid (re_Definition res)).
Proof.
  intros s. assert (records_ok s) as Hs by (apply after_calls_ok, new_ok). split; [done|].
  intros Hr res. unfold Resolve. cbn zeta. apply try_sources_valid.
  intros s' Hs'. destruct Hr as [Hr|Hr]; rewrite Hr in Hs'; [|done]. by injection Hs' as <-.
Qed.

(** ** Witnesses *)

#[local] Existing Instance in_key_order.
#[local] Instance room_disk : Disk bool MergeRecord :=
  {| wall _ := 7; range _ m := (map_to_list m).*2; write (w : bool) _ := (w, if w then None else Some "disk full") |}.
#[local] Instance room_disk_laws : DiskLaws bool MergeRecord.
Proof. split. done. Qed.

Definition text_of (ls : list string) : string := concat_s ((λ l, l +:+ String nl "") <$> ls).

(** Both sides added a line after the common one. *)
Definition conflicted : string :=
  text_of ["top"; "<<<<<<< HEAD"; "base"; "ours"; "||||||| parent"; "base"; "======="; "base"; "theirs"; ">>>>>>> branch"; "end"].

Lemma resolved_keeps_both_witness :
  ∃ new resolved, ResolveAdditive "f" conflicted = Ok (new, resolved, []) ∧ new = text_of ["top"; "base"; "ours"; "theirs"; "end"]
    ∧ ∃ segs, parseConflicts "f" conflicted = Ok segs ∧ linesOf new = concat (piece <$> segs) ∧ none opens (linesOf new)
        ∧ (rh_Index <$> resolved) = (h_Index <$> hunks_of segs)
        ∧ ∀ h, h ∈ hunks_of segs → let m := piece (Conflict h) in
            h_Base h ⊑ h_Ours h ∧ h_Base h ⊑ h_Theirs h ∧ h_Ours h ⊑ m ∧ h_Theirs h ⊑ m ∧ ∀ l, l ∈ m → l ∈ h_Ours h ∨ l ∈ h_Theirs h.
Proof.
  eexists _, _. split; [vm_compute; reflexivity|]. split; [vm_compute; reflexivity|].
  apply (resolved_keeps_both "f" conflicted). vm_compute. reflexivity.
Defined.

(** A project in /p whose merge of any branch conflicts in one file. *)
Definition exit_with (code : Z) (out : string) : CmdAnswer :=
  mkAnswer out (if code =? 0 then None else Some (ExitError code)) None.
Definition git_answer (args : list string) : CmdAnswer :=
  match args with
  | "merge" :: "--no-ff" :: _ => exit_with 1 "CONFLICT"
  | "diff" :: "--name-only" :: _ => exit_with 0 ("f" +:+ String zero_byte "")
  | "rev-parse" :: "--abbrev-ref" :: _ => exit_with 0 (text_of ["main"])
  | "rev-parse" :: _ => exit_with 0 (text_of ["abc"])
  | _ => exit_with 0 ""
  end.
Definition in_project (X : Set) (n : Z) (op : Op X) : Z * X :=
  match op in Op X return Z * X with
  | EvalSymlinks p => (n, Some p)
  | RunCmd _ _ name args => (n, if String.eqb name "git" then git_answer (drop 2 args) else exit_with 0 "ok")
  | ReadFile p => (n, if String.eqb p "/p/f" then Ok conflicted else if String.eqb p "/p/v.go" then Ok (text_of ["var Version = " +:+ q "1.2.3"])
                      else if String.eqb p "/p/CHANGELOG.md" then Ok (text_of [unreleasedHeading]) else Err (Errorf "no such file" []))
  | WriteFile _ _ => (n, None)
  | MkdirAll _ => (n, None)
  | MkdirTemp _ _ => (n, Ok 1%N)
  | RemoveAll _ => (n, tt)
  | CreateTemp _ => (n, Ok "/p/tmp")
  | WriteTemp _ _ => (n, None)
  | CloseTemp _ => (n, None)
  | RenameTemp _ _ => (n, None)
  | Propose _ _ => (n, Replied "")
  | Raise _ => (n, ("q1", None))
  | RecordRun _ => (n, tt)
  | Notify _ _ => (n, None)
  | Now => (n + 1, n)
  | NewRunID => (n, "run-1")
  | ShipTag _ _ _ _ => (n, None)
  | ShipPush _ _ _ _ => (n, None)
  | ShipDeploy _ _ => (n, Some (Errorf "no deploy" []))
  | ShipHook _ _ _ => (n, ("", None))
  | FileIssue _ _ _ _ _ => (n, None)
  end.
Definition no_reply : string → res (list proposalItem * bool) := λ _, Err (Errorf "no reply" []).
Definition mechanically (p : Pipeline) : Merger :=
  mkMerger "/p" p (Some (mkConflictSettings PolicyMechanical 0 0 0 "")) false true.
Definition one_merge : list event * (Outcome * option error) :=
  play in_project (MergeBranch no_reply (mechanically []) Caller (mkMergeRequest "b" "" "")) 0.

Lemma merge_never_left_open_witness :
  oc_Status one_merge.2.1 = StatusResolvedMechanical
  ∧ ∃ s, foldl (next "/p" "/p") (Some start) one_merge.1 = Some s ∧ ended s (one_merge.2.1, one_merge.2.2)
      ∧ (aborts_work "/p" one_merge.1 → sn_phase s ∈ [Idle; Closed; Landed]).
Proof.
  split; [vm_compute; reflexivity|].
  apply (merge_never_left_open no_reply (mechanically []) Caller (mkMergeRequest "b" "" "")).
  - exact (play_runs in_project (MergeBranch no_reply (mechanically []) Caller (mkMergeRequest "b" "" "")) 0).
  - vm_compute. repeat (constructor; [first [exact I|intros _; reflexivity|intros E; discriminate E]|]). constructor.
Defined.

Definition hooks_on : PostShipSettings :=
  mkPostShip true [mkHook "tell" builtinNotify "" true; mkHook "off" "" "true" false] "" "" "" "" "{project} {version} is out".
Definition runner_with (p : option Pipeline) : Runner :=
  mkRunner "/p" "proj"
    ((λ d, mkResolver (Some (mkRecords {["proj" := mkRecord "proj" d 0]} None)) None None) <$> p)
    (Some (mkConflictSettings PolicyMechanical 0 0 0 "")) false true true true "" hooks_on true ["v.go"] "" "".
Definition no_file : string → string → opened := λ _ _, Missing.
Definition no_yaml : string → res Pipeline := λ _, Err (Errorf "no yaml" []).
Definition played (p : option Pipeline) : list event * (MergePipelineRun * option error) :=
  play in_project (Run no_file no_yaml no_reply (runner_with p) Caller (mkRunRequest "A release" ["b1"; "b2"] "")) 0.

Lemma played_runs p : runs (Run no_file no_yaml no_reply (runner_with p) Caller (mkRunRequest "A release" ["b1"; "b2"] ""))
  (played p).1 ((played p).2.1, (played p).2.2).
Proof.
  pose proof (play_runs in_project (Run no_file no_yaml no_reply (runner_with p) Caller (mkRunRequest "A release" ["b1"; "b2"] "")) 0) as H.
  unfold played. by destruct (play _ _ _) as [t [run err]].
Qed.


Lemma tmux_never_killed_witness :
  let bad := [mkStep "kill" KindCustom "make x; tmux kill-server" "" "" "" "" 0] in
  mr_Result (played (Some bad)).2.1 = MergeRunFailed ∧ Forall (λ e, harmless_call e = true) (played (Some bad)).1.
Proof.
  intros bad. split; [vm_compute; reflexivity|].
  apply (tmux_never_killed no_file no_yaml no_reply (runner_with (Some bad)) Caller (mkRunRequest "A release" ["b1"; "b2"] "") (played (Some bad)).1
           ((played (Some bad)).2.1, (played (Some bad)).2.2)).
  apply played_runs.
Defined.

Definition kept : Records := (after_calls true (NewRecordStore None) [CallSet "proj" DefaultDefinition; CallSet "x" []; CallRestart]).2.
Definition resolver : Resolver := mkResolver (Some kept) (Some (λ _, Some "/p")) None.

Lemma pipeline_in_effect_valid_witness :
  let res := (Resolve no_file no_yaml resolver "proj").1 in
  re_Source res = SourceRecord ∧ records_ok kept ∧ valid (re_Definition res).
Proof.
  split; [vm_compute; reflexivity|].
  destruct (pipeline_in_effect_valid no_file no_yaml true [CallSet "proj" DefaultDefinition; CallSet "x" []; CallRestart] resolver "proj") as [H1 H2].
  split; [exact H1|]. apply H2; [left; reflexivity|vm_compute; reflexivity].
Defined.

(** ** What modelling showed *)

(** A push step that was skipped counts as a push: the hooks that announce the
    release run although nothing left the machine. *)
Lemma skipped_push_runs_hooks :
  let p := [mkStep "push-release" KindShip "" ActionPushRelease "" "" "no-such-target" 0] in
  Validate p = Ok tt ∧ (sr_Result <$> mr_Steps (played (Some p)).2.1) = [MergeStepSkipped; MergeStepOK]
  ∧ existsb (λ e, match e with Event op _ => match op with Notify _ _ => true | _ => false end end) (played (Some p)).1 = true
  ∧ existsb (λ e, match e with Event op _ => match op with ShipPush _ _ _ _ => true | _ => false end end) (played (Some p)).1 = false.
Proof. vm_compute. repeat split; reflexivity. Qed.

(** An addition that looks like an opening marker keeps a file from being settled,
    although both sides only added to it. *)
Lemma marker_like_line_not_settled :
  is_ok (ResolveAdditive "f" (text_of ["<<<<<<< HEAD"; "<<<<<<< quoted"; "||||||| p"; "======="; "theirs"; ">>>>>>> b"])) = false.
Proof. vm_compute. reflexivity. Qed.

(** The same project, where git refuses to abort: [MergeBranch] returns an error and
    the merge stays open. *)
Definition no_abort (X : Set) (n : Z) (op : Op X) : Z * X :=
  match op in Op X return Z * X with
  | RunCmd ctx dir name args =>
      (n, if bool_decide (drop 2 args = ["merge"; "--abort"]) then exit_with 128 "" else (in_project _ n (RunCmd ctx dir name args)).2)
  | op => in_project _ n op
  end.
Lemma refused_abort_left_open :
  let m := mkMerger "/p" [] (Some (mkConflictSettings PolicyStopAndAsk 0 0 0 "")) false true in
  let '(t, (_, err)) := play no_abort (MergeBranch no_reply m Caller (mkMergeRequest "b" "" "")) 0 in
  bool_decide (is_Some err) = true ∧ sn_phase <$> foldl (next "/p" "/p") (Some start) t = Some Stuck.
Proof. vm_compute. split; reflexivity. Qed.
