(* ===== verification/AutomationSettings.v ===== *)
(** * Automations: the settings they carry

    internal/autonomous: the budget policy of an Automation or a member and the
    record of a breach (automation.go), the decision assistant
    (decision_assistant.go), the pairing of models and backends
    (model_backend_compat.go, planning_model.go) and the override of the engine's
    tags (auto_tags.go, config/auto_tags_settings.go), with the checks each must
    pass. The clock and weekday parsers are those of inference/budget.go. *)

From S2P Require Import Prelude GoBase GoText.

#[local] Open Scope Z_scope.

(** ** Budget policies *)

Record BudgetPolicy := mkPolicy {
  bp_CeilingType : string;
  bp_CeilingValue : float64;
  bp_Window : string;
  bp_Pacing : string;
  bp_OnBreach : string;
  bp_Backend : string;
  bp_AllocationEstimate : bool;
  bp_PeerWindow : list string;
  bp_ResetTime : string;
  bp_ResetWeekday : string;
  bp_ResetDay : Z;
  bp_ResetZone : string
}.

Definition set_peers (l : list string) (p : BudgetPolicy) : BudgetPolicy :=
  mkPolicy (bp_CeilingType p) (bp_CeilingValue p) (bp_Window p) (bp_Pacing p) (bp_OnBreach p) (bp_Backend p)
    (bp_AllocationEstimate p) l (bp_ResetTime p) (bp_ResetWeekday p) (bp_ResetDay p) (bp_ResetZone p).

Definition EffectiveOnBreach (p : option BudgetPolicy) : string :=
  match p with
  | None => "pause"
  | Some p => if String.eqb (bp_OnBreach p) "" then "pause" else bp_OnBreach p
  end.

Definition EffectivePacing (p : option BudgetPolicy) : string :=
  match p with
  | None => "none"
  | Some p => if String.eqb (bp_Pacing p) "" then "none" else bp_Pacing p
  end.

Definition Gates (p : option BudgetPolicy) : bool :=
  match p with None => false | Some p => String.eqb (bp_CeilingType p) "dollar" end.

Definition one_of (s : string) (l : list string) : bool := existsb (String.eqb s) l.

Definition budgetWeekdays : list string :=
  ["sunday"; "monday"; "tuesday"; "wednesday"; "thursday"; "friday"; "saturday"].

(** The number of the weekday, Sunday being 0. *)
Definition ParseBudgetWeekday (name : string) : option nat :=
  fst <$> list_find (eq (ToLower (TrimSpace name))) budgetWeekdays.

Definition ParseBudgetClock (s : string) : res (Z * Z) :=
  match parse_clock (TrimSpace s) with
  | Some hm => Ok hm
  | None => Err (Errorf "time %q must be 24h HH:MM" [AStr s])
  end.

(** [time.LoadLocation]: which zone names the system's database knows. *)
Class TimeZones := { LoadLocation : string → bool }.

Section policy.
Context `{!TimeZones}.

Fixpoint peer_loop (seen : gset string) (l : list string) : res (list string) :=
  match l with
  | [] => Ok []
  | name :: l =>
      let name := TrimSpace name in
      fail_if (String.eqb name "") (Errorf "automation invalid: budget peer_window entries must be non-empty" []) ;;
      fail_if (bool_decide (name ∈ seen)) (Errorf "automation invalid: budget peer_window lists %q more than once" [AStr name]) ;;
      rest ← peer_loop ({[name]} ∪ seen) l;
      Ok (name :: rest)
  end.

(** The policy comes back with the names of its peers trimmed in place. *)
Definition validateBudgetResetAnchor (p : BudgetPolicy) : res BudgetPolicy :=
  let resets := one_of (bp_Window p) ["day"; "week"; "month"] in
  (if nonempty (bp_ResetTime p) then
     fail_if (negb resets) (Errorf "automation invalid: budget reset_time only applies to a day, week or month window" []) ;;
     match ParseBudgetClock (bp_ResetTime p) with
     | Err e => Err (Errorf "automation invalid: budget reset_%w" [wrapped e])
     | Ok _ => Ok tt
     end
   else Ok tt) ;;
  (if nonempty (bp_ResetZone p) then
     fail_if (negb resets) (Errorf "automation invalid: budget reset_zone only applies to a day, week or month window" []) ;;
     fail_if (negb (LoadLocation (bp_ResetZone p)))
       (Errorf "automation invalid: budget reset_zone %q is not a known IANA zone" [AStr (bp_ResetZone p)])
   else Ok tt) ;;
  (if nonempty (bp_ResetWeekday p) then
     fail_if (negb (String.eqb (bp_Window p) "week")) (Errorf "automation invalid: budget reset_weekday only applies to a week window" []) ;;
     fail_if (bool_decide (ParseBudgetWeekday (bp_ResetWeekday p) = None))
       (Errorf "automation invalid: budget reset_weekday %q (allowed: monday..sunday)" [AStr (bp_ResetWeekday p)])
   else Ok tt) ;;
  (if negb (bp_ResetDay p =? 0) then
     fail_if (negb (String.eqb (bp_Window p) "month")) (Errorf "automation invalid: budget reset_day only applies to a month window" []) ;;
     fail_if ((bp_ResetDay p <? 1) || (28 <? bp_ResetDay p))
       (Errorf "automation invalid: budget reset_day %d out of range (1..28)" [AInt (bp_ResetDay p)])
   else Ok tt) ;;
  peers ← peer_loop ∅ (bp_PeerWindow p);
  Ok (set_peers peers p).

Definition validateBudgetPolicy (p : option BudgetPolicy) : res (option BudgetPolicy) :=
  match p with
  | None => Ok None
  | Some p =>
      fail_if (negb (one_of (bp_CeilingType p) ["dollar"; "allocation_pct"]))
        (Errorf "automation invalid: budget ceiling type %q" [AStr (bp_CeilingType p)]) ;;
      fail_if (fle (bp_CeilingValue p) float_zero)
        (Errorf "automation invalid: budget ceiling %v must be positive" [AFloat (bp_CeilingValue p)]) ;;
      fail_if (negb (one_of (bp_Window p) ["automation"; "day"; "week"; "month"]))
        (Errorf "automation invalid: budget window %q" [AStr (bp_Window p)]) ;;
      fail_if (negb (one_of (bp_Pacing p) [""; "none"; "even"]))
        (Errorf "automation invalid: budget pacing %q" [AStr (bp_Pacing p)]) ;;
      fail_if (negb (one_of (bp_OnBreach p) [""; "pause"; "block"]))
        (Errorf "automation invalid: budget on_breach %q" [AStr (bp_OnBreach p)]) ;;
      p ← validateBudgetResetAnchor p;
      Ok (Some p)
  end.
End policy.

(** ** The record of a breach *)

Definition BudgetActionPaused : string := "paused".
Definition BudgetActionBlocked : string := "blocked".
Definition BudgetActionHeld : string := "held".

Record BudgetState := mkBudgetState {
  bs_Action : string;
  bs_BreachedAt : Time;
  bs_Reason : string;
  bs_Scope : string;
  bs_SpentUSD : float64;
  bs_CeilingUSD : float64;
  bs_Window : string;
  bs_ResumeAt : option Time;
  bs_ResetKnown : bool;
  bs_ResetSource : string
}.

Definition BudgetKindCeiling : string := "ceiling".
Definition BudgetKindPacing : string := "pacing".
Definition BudgetKindEstimate : string := "estimate".

(** [BudgetVerdict], the fields the gate reads. *)
Record BudgetVerdict := mkVerdict {
  bv_Gate : bool;
  bv_Kind : string;
  bv_Reason : string;
  bv_Scope : string;
  bv_Policy : option BudgetPolicy;
  bv_assistantOnBreach : string;
  bv_SpentUSD : float64;
  bv_CeilingUSD : float64;
  bv_ResetAt : option Time;
  bv_ResetKnown : bool;
  bv_ResetSource : string
}.
Definition zero_verdict : BudgetVerdict := mkVerdict false "" "" "" None "" float_zero float_zero None false "".

Definition set_assistant (s : string) (v : BudgetVerdict) : BudgetVerdict :=
  mkVerdict (bv_Gate v) (bv_Kind v) (bv_Reason v) (bv_Scope v) (bv_Policy v) s (bv_SpentUSD v) (bv_CeilingUSD v)
    (bv_ResetAt v) (bv_ResetKnown v) (bv_ResetSource v).

(** ** Models and backends *)

Definition claudeCodeBackendName : string := "claude-code".
Definition ErrModelBackendMismatch : error := Errorf "model does not pair with backend" [].
Definition servesProviderModels (backend : string) : bool := String.eqb backend "pi" || String.eqb backend "pi-prompt".

Definition validateModelForBackend (backend model : string) : res unit :=
  if String.eqb model "" || String.eqb backend "" then Ok tt
  else if servesProviderModels backend then
    if Contains model "/" || negb (HasPrefix model "claude-") then Ok tt
    else Err (Errorf "%w: model %q is a bare Claude alias, and backend %q resolves it across providers and exits with no output; use a provider-qualified name such as anthropic/claude-haiku-5-5, or the %s backend"
                [wrapped ErrModelBackendMismatch; AStr model; AStr backend; AStr claudeCodeBackendName])
  else if String.eqb backend claudeCodeBackendName then
    if negb (Contains model "/") then Ok tt
    else Err (Errorf "%w: model %q is a provider-qualified pi name, and backend %q cannot serve it; use a bare Claude model name such as claude-opus-5-5"
                [wrapped ErrModelBackendMismatch; AStr model; AStr backend])
  else Ok tt.

(** ** The decision assistant *)

Record DecisionAssistant := mkAssistant {
  da_Backend : string;
  da_Model : string;
  da_Mode : string;
  da_Hooks : list string;
  da_Thresholds : gmap string float64
}.

Definition DecisionModeShadow : string := "shadow".
Definition DecisionModeLive : string := "live".
Definition decisionHookNames : list string := ["empty_edge"; "skip_member"; "insert_member"; "budget_breach"].
Definition validDecisionHook (h : string) : bool := one_of h decisionHookNames.

Definition validateDecisionAssistant (d : option DecisionAssistant) : res unit :=
  match d with
  | None => Ok tt
  | Some d =>
      fail_if (String.eqb (TrimSpace (da_Backend d)) "") (Errorf "decision assistant: backend is required" []) ;;
      fail_if (String.eqb (TrimSpace (da_Model d)) "") (Errorf "decision assistant: model is required" []) ;;
      match validateModelForBackend (da_Backend d) (da_Model d) with
      | Err e => Err (Errorf "decision assistant: %w" [wrapped e])
      | Ok _ => Ok tt
      end ;;
      fail_if (negb (one_of (da_Mode d) [""; DecisionModeShadow; DecisionModeLive]))
        (Errorf "decision assistant: unknown mode %q (want shadow or live)" [AStr (da_Mode d)]) ;;
      for_each (λ h, fail_if (negb (validDecisionHook h))
        (Errorf "decision assistant: unknown hook %q (want one of %s)" [AStr h; AStr (Join decisionHookNames ", ")])) (da_Hooks d) ;;
      for_each (λ h,
        fail_if (negb (validDecisionHook h)) (Errorf "decision assistant: threshold for unknown hook %q" [AStr h]) ;;
        let t := default float_zero (da_Thresholds d !! h) in
        fail_if (negb (flt float_zero t && fle t (float_of_Z 1)))
          (Errorf "decision assistant: threshold for %s is %v, want a value in (0,1]" [AStr h; AFloat t]))
        (keys_where (λ _ _, true) (da_Thresholds d))
  end.

(** [d.enabled()] *)
Definition da_enabled (d : option DecisionAssistant) : bool :=
  match d with None => false | Some d => nonempty (da_Backend d) end.

Definition EffectiveMode (d : option DecisionAssistant) : string :=
  match d with
  | None => DecisionModeShadow
  | Some d => if String.eqb (da_Mode d) "" then DecisionModeShadow else da_Mode d
  end.

Definition HookEnabled (d : option DecisionAssistant) (hook : string) : bool :=
  da_enabled d && match d with None => false | Some d => one_of hook (da_Hooks d) end.

(** ** The engine's tags *)

Record AutoTagsOverride := mkTags {
  at_Enabled : option bool;
  at_AutomationTemplate : string;
  at_StageTemplate : string;
  at_KindTemplate : string
}.

Definition autoTagsPlaceholderNames : list string := ["automation"; "stage"; "kind"].

(** Fuel: every turn takes a byte of the template. *)
Fixpoint render_loop (fuel : nat) (tpl s : string) (vars : gmap string string) : res string :=
  match fuel, s with
  | S f, String c r =>
      if negb (Ascii.eqb c (Ascii.ascii_of_nat 123)) then
        out ← render_loop f tpl r vars; Ok (String c out)
      else
        match Cut r "}" with
        | None => Err (Errorf "unmatched '{' in template %q" [AStr tpl])
        | Some (name, rest) =>
            fail_if (negb (one_of name autoTagsPlaceholderNames))
              (Errorf "placeholder {%s} is not one of {automation}, {stage}, {kind}" [AStr name]) ;;
            out ← render_loop f tpl rest vars; Ok (default "" (vars !! name) +:+ out)
        end
  | _, _ => Ok ""
  end.

Definition RenderAutoTagsTemplate (tpl : string) (vars : gmap string string) : res string :=
  out ← render_loop (String.length tpl) tpl tpl vars;
  fail_if (String.eqb (TrimSpace out) "") (Errorf "renders an empty tag name" []) ;;
  fail_if (ContainsAny out [nl; cr]) (Errorf "tag names must not contain a newline" []) ;;
  Ok out.

Definition autoTagsValidationVars : gmap string string :=
  list_to_map [("automation", "automation"); ("stage", "stage"); ("kind", "kind")].

Definition ValidateAutoTagsTemplate (tpl : string) : res unit :=
  fail_if (String.eqb (TrimSpace tpl) "") (Errorf "the template is empty and would render an empty tag name" []) ;;
  RenderAutoTagsTemplate tpl autoTagsValidationVars ;; Ok tt.

Definition validateAutoTagsOverride `{!MapRange} (o : option AutoTagsOverride) : res unit :=
  match o with
  | None => Ok tt
  | Some o =>
      for_each (λ ft : string * string,
        if String.eqb ft.2 "" then Ok tt
        else match ValidateAutoTagsTemplate ft.2 with
             | Err e => Err (Errorf "auto_tags.%s: %v" [AStr ft.1; wrapped e])
             | Ok _ => Ok tt
             end)
        (map_range (list_to_map [("automation_template", at_AutomationTemplate o);
                                 ("stage_template", at_StageTemplate o);
                                 ("kind_template", at_KindTemplate o)]))
  end.

Example render_ex :
  RenderAutoTagsTemplate "auto/{stage}" autoTagsValidationVars = Ok "auto/stage"
  ∧ is_ok (ValidateAutoTagsTemplate "{prd}") = false ∧ is_ok (ValidateAutoTagsTemplate "a{stage") = false.
Proof. vm_compute. repeat split; reflexivity. Qed.
Example weekday_ex : ParseBudgetWeekday " Monday" = Some 1%nat ∧ ParseBudgetWeekday "noday" = None.
Proof. vm_compute. split; reflexivity. Qed.
