(* ===== verification/Automation.v ===== *)
(** * Automations: the data, and the graph of their members

    internal/autonomous/automation.go: an Automation is a graph of members (runs
    of a PRD, nested Automations, forks and joins) with per-outcome edges, and a
    set of cursors on the members in flight. Statuses and kinds are the strings
    of the code. The descriptive fields no modelled operation reads or writes
    (description, shipped state, effort ceiling, execution, planning and
    verification defaults, project directory) are left out. A pointer to a
    member is its index in [a_Members]. *)

From S2P Require Import Prelude GoBase GoText AutomationSettings.

#[local] Open Scope Z_scope.

(** [AutomationStatus] *)
Definition AutomationDraft : string := "draft".
Definition AutomationActive : string := "active".
Definition AutomationPaused : string := "paused".
Definition AutomationCompleted : string := "completed".
Definition AutomationBlocked : string := "blocked".
Definition AutomationCancelled : string := "cancelled".

(** [MemberStatus]; an unset status is the empty string *)
Definition MemberPending : string := "pending".
Definition MemberRunning : string := "running".
Definition MemberCompleted : string := "completed".
Definition MemberBlocked : string := "blocked".
Definition MemberFailed : string := "failed".
Definition MemberSkipped : string := "skipped".
Definition MemberCancelled : string := "cancelled".

Definition MemberKindPRD : string := "prd".
Definition MemberKindAutomation : string := "automation".
Definition MemberKindFork : string := "fork".
Definition MemberKindJoin : string := "join".

Definition BranchAllMustSucceed : string := "all_must_succeed".
Definition BranchAnyOneIsEnough : string := "any_one_is_enough".
Definition BranchContinueAnyway : string := "continue_anyway".

(** [Decision], the fields the Automation code fills in. *)
Record MergedMemberDecision := mkMergedDecision {
  mmd_Member : string;
  mmd_PRDID : string;
  mmd_Branch : string;
  mmd_DefaultBranch : string;
  mmd_Commit : string;
  mmd_Policy : string;
  mmd_Outcome : string
}.
Record Decision_ := mkDecision {
  d_At : Time;
  d_Kind : string;
  d_Actor : string;
  d_Note : string;
  d_MergedMember : option MergedMemberDecision
}.

Definition maxDecisionsPerPRD : nat := 200.

(** The last [maxDecisionsPerPRD] entries. *)
Definition trimDecisions (ds : list Decision_) : list Decision_ :=
  if (length ds <=? maxDecisionsPerPRD)%nat then ds else drop (length ds - maxDecisionsPerPRD) ds.

Record PendingInsert := mkPending {
  pi_ID : string;
  pi_PRDID : string;
  pi_Name : string;
  pi_Urgent : bool;
  pi_AfterMemberID : string;
  pi_Stage : string;
  pi_Actor : string;
  pi_Reason : string;
  pi_AddedAt : Time;
  pi_Status : string
}.

Record AutomationMember := mkMember {
  m_ID : string;
  m_PRDID : string;
  m_OnComplete : string;
  m_OnBlocked : string;
  m_OnFailed : string;
  m_Kind : string;
  m_AutomationID : string;
  m_ForkMembers : list string;
  m_JoinMembers : list string;
  m_OnBranchFailure : string;
  m_AddedAt : Time;
  m_AddedBy : string;
  m_AddedReason : string;
  m_Status : string;
  m_StartedAt : option Time;
  m_FinishedAt : option Time;
  m_Outcome : string;
  m_EdgeTaken : string;
  m_BudgetPolicy : option BudgetPolicy;
  m_DecisionAssistant : option DecisionAssistant;
  m_EstimatedCostUSD : float64;
  m_Stage : string
}.

Definition set_m_ID (x : string) (r : AutomationMember) : AutomationMember :=
  mkMember x (m_PRDID r) (m_OnComplete r) (m_OnBlocked r) (m_OnFailed r) (m_Kind r) (m_AutomationID r)
    (m_ForkMembers r) (m_JoinMembers r) (m_OnBranchFailure r) (m_AddedAt r) (m_AddedBy r) (m_AddedReason r)
    (m_Status r) (m_StartedAt r) (m_FinishedAt r) (m_Outcome r) (m_EdgeTaken r) (m_BudgetPolicy r)
    (m_DecisionAssistant r) (m_EstimatedCostUSD r) (m_Stage r).
Definition set_m_OnComplete (x : string) (r : AutomationMember) : AutomationMember :=
  mkMember (m_ID r) (m_PRDID r) x (m_OnBlocked r) (m_OnFailed r) (m_Kind r) (m_AutomationID r) (m_ForkMembers r)
    (m_JoinMembers r) (m_OnBranchFailure r) (m_AddedAt r) (m_AddedBy r) (m_AddedReason r) (m_Status r)
    (m_StartedAt r) (m_FinishedAt r) (m_Outcome r) (m_EdgeTaken r) (m_BudgetPolicy r) (m_DecisionAssistant r)
    (m_EstimatedCostUSD r) (m_Stage r).
Definition set_m_OnBlocked (x : string) (r : AutomationMember) : AutomationMember :=
  mkMember (m_ID r) (m_PRDID r) (m_OnComplete r) x (m_OnFailed r) (m_Kind r) (m_AutomationID r)
    (m_ForkMembers r) (m_JoinMembers r) (m_OnBranchFailure r) (m_AddedAt r) (m_AddedBy r) (m_AddedReason r)
    (m_Status r) (m_StartedAt r) (m_FinishedAt r) (m_Outcome r) (m_EdgeTaken r) (m_BudgetPolicy r)
    (m_DecisionAssistant r) (m_EstimatedCostUSD r) (m_Stage r).
Definition set_m_OnFailed (x : string) (r : AutomationMember) : AutomationMember :=
  mkMember (m_ID r) (m_PRDID r) (m_OnComplete r) (m_OnBlocked r) x (m_Kind r) (m_AutomationID r)
    (m_ForkMembers r) (m_JoinMembers r) (m_OnBranchFailure r) (m_AddedAt r) (m_AddedBy r) (m_AddedReason r)
    (m_Status r) (m_StartedAt r) (m_FinishedAt r) (m_Outcome r) (m_EdgeTaken r) (m_BudgetPolicy r)
    (m_DecisionAssistant r) (m_EstimatedCostUSD r) (m_Stage r).
Definition set_m_AddedAt (x : Time) (r : AutomationMember) : AutomationMember :=
  mkMember (m_ID r) (m_PRDID r) (m_OnComplete r) (m_OnBlocked r) (m_OnFailed r) (m_Kind r) (m_AutomationID r)
    (m_ForkMembers r) (m_JoinMembers r) (m_OnBranchFailure r) x (m_AddedBy r) (m_AddedReason r) (m_Status r)
    (m_StartedAt r) (m_FinishedAt r) (m_Outcome r) (m_EdgeTaken r) (m_BudgetPolicy r) (m_DecisionAssistant r)
    (m_EstimatedCostUSD r) (m_Stage r).
Definition set_m_AddedBy (x : string) (r : AutomationMember) : AutomationMember :=
  mkMember (m_ID r) (m_PRDID r) (m_OnComplete r) (m_OnBlocked r) (m_OnFailed r) (m_Kind r) (m_AutomationID r)
    (m_ForkMembers r) (m_JoinMembers r) (m_OnBranchFailure r) (m_AddedAt r) x (m_AddedReason r) (m_Status r)
    (m_StartedAt r) (m_FinishedAt r) (m_Outcome r) (m_EdgeTaken r) (m_BudgetPolicy r) (m_DecisionAssistant r)
    (m_EstimatedCostUSD r) (m_Stage r).
Definition set_m_Status (x : string) (r : AutomationMember) : AutomationMember :=
  mkMember (m_ID r) (m_PRDID r) (m_OnComplete r) (m_OnBlocked r) (m_OnFailed r) (m_Kind r) (m_AutomationID r)
    (m_ForkMembers r) (m_JoinMembers r) (m_OnBranchFailure r) (m_AddedAt r) (m_AddedBy r) (m_AddedReason r) x
    (m_StartedAt r) (m_FinishedAt r) (m_Outcome r) (m_EdgeTaken r) (m_BudgetPolicy r) (m_DecisionAssistant r)
    (m_EstimatedCostUSD r) (m_Stage r).
Definition set_m_StartedAt (x : option Time) (r : AutomationMember) : AutomationMember :=
  mkMember (m_ID r) (m_PRDID r) (m_OnComplete r) (m_OnBlocked r) (m_OnFailed r) (m_Kind r) (m_AutomationID r)
    (m_ForkMembers r) (m_JoinMembers r) (m_OnBranchFailure r) (m_AddedAt r) (m_AddedBy r) (m_AddedReason r)
    (m_Status r) x (m_FinishedAt r) (m_Outcome r) (m_EdgeTaken r) (m_BudgetPolicy r) (m_DecisionAssistant r)
    (m_EstimatedCostUSD r) (m_Stage r).
Definition set_m_FinishedAt (x : option Time) (r : AutomationMember) : AutomationMember :=
  mkMember (m_ID r) (m_PRDID r) (m_OnComplete r) (m_OnBlocked r) (m_OnFailed r) (m_Kind r) (m_AutomationID r)
    (m_ForkMembers r) (m_JoinMembers r) (m_OnBranchFailure r) (m_AddedAt r) (m_AddedBy r) (m_AddedReason r)
    (m_Status r) (m_StartedAt r) x (m_Outcome r) (m_EdgeTaken r) (m_BudgetPolicy r) (m_DecisionAssistant r)
    (m_EstimatedCostUSD r) (m_Stage r).
Definition set_m_Outcome (x : string) (r : AutomationMember) : AutomationMember :=
  mkMember (m_ID r) (m_PRDID r) (m_OnComplete r) (m_OnBlocked r) (m_OnFailed r) (m_Kind r) (m_AutomationID r)
    (m_ForkMembers r) (m_JoinMembers r) (m_OnBranchFailure r) (m_AddedAt r) (m_AddedBy r) (m_AddedReason r)
    (m_Status r) (m_StartedAt r) (m_FinishedAt r) x (m_EdgeTaken r) (m_BudgetPolicy r) (m_DecisionAssistant r)
    (m_EstimatedCostUSD r) (m_Stage r).
Definition set_m_EdgeTaken (x : string) (r : AutomationMember) : AutomationMember :=
  mkMember (m_ID r) (m_PRDID r) (m_OnComplete r) (m_OnBlocked r) (m_OnFailed r) (m_Kind r) (m_AutomationID r)
    (m_ForkMembers r) (m_JoinMembers r) (m_OnBranchFailure r) (m_AddedAt r) (m_AddedBy r) (m_AddedReason r)
    (m_Status r) (m_StartedAt r) (m_FinishedAt r) (m_Outcome r) x (m_BudgetPolicy r) (m_DecisionAssistant r)
    (m_EstimatedCostUSD r) (m_Stage r).
Definition set_m_BudgetPolicy (x : option BudgetPolicy) (r : AutomationMember) : AutomationMember :=
  mkMember (m_ID r) (m_PRDID r) (m_OnComplete r) (m_OnBlocked r) (m_OnFailed r) (m_Kind r) (m_AutomationID r)
    (m_ForkMembers r) (m_JoinMembers r) (m_OnBranchFailure r) (m_AddedAt r) (m_AddedBy r) (m_AddedReason r)
    (m_Status r) (m_StartedAt r) (m_FinishedAt r) (m_Outcome r) (m_EdgeTaken r) x (m_DecisionAssistant r)
    (m_EstimatedCostUSD r) (m_Stage r).
Definition set_m_Stage (x : string) (r : AutomationMember) : AutomationMember :=
  mkMember (m_ID r) (m_PRDID r) (m_OnComplete r) (m_OnBlocked r) (m_OnFailed r) (m_Kind r) (m_AutomationID r)
    (m_ForkMembers r) (m_JoinMembers r) (m_OnBranchFailure r) (m_AddedAt r) (m_AddedBy r) (m_AddedReason r)
    (m_Status r) (m_StartedAt r) (m_FinishedAt r) (m_Outcome r) (m_EdgeTaken r) (m_BudgetPolicy r)
    (m_DecisionAssistant r) (m_EstimatedCostUSD r) x.

Record Automation := mkAutomation {
  a_ID : string;
  a_Name : string;
  a_Status : string;
  a_EntryMemberID : string;
  a_CurrentMemberID : string;
  a_ActiveCursors : list string;
  a_Members : list AutomationMember;
  a_Version : Z;
  a_BudgetPolicy : option BudgetPolicy;
  a_BudgetState : option BudgetState;
  a_DecisionAssistant : option DecisionAssistant;
  a_AutoTags : option AutoTagsOverride;
  a_CreatedAt : Time;
  a_UpdatedAt : Time;
  a_StartedAt : option Time;
  a_FinishedAt : option Time;
  a_IdleSince : option Time;
  a_Decisions : list Decision_;
  a_PendingInserts : list PendingInsert
}.

Definition set_a_ID (x : string) (r : Automation) : Automation :=
  mkAutomation x (a_Name r) (a_Status r) (a_EntryMemberID r) (a_CurrentMemberID r) (a_ActiveCursors r)
    (a_Members r) (a_Version r) (a_BudgetPolicy r) (a_BudgetState r) (a_DecisionAssistant r) (a_AutoTags r)
    (a_CreatedAt r) (a_UpdatedAt r) (a_StartedAt r) (a_FinishedAt r) (a_IdleSince r) (a_Decisions r)
    (a_PendingInserts r).
Definition set_a_Status (x : string) (r : Automation) : Automation :=
  mkAutomation (a_ID r) (a_Name r) x (a_EntryMemberID r) (a_CurrentMemberID r) (a_ActiveCursors r) (a_Members r)
    (a_Version r) (a_BudgetPolicy r) (a_BudgetState r) (a_DecisionAssistant r) (a_AutoTags r) (a_CreatedAt r)
    (a_UpdatedAt r) (a_StartedAt r) (a_FinishedAt r) (a_IdleSince r) (a_Decisions r) (a_PendingInserts r).
Definition set_a_EntryMemberID (x : string) (r : Automation) : Automation :=
  mkAutomation (a_ID r) (a_Name r) (a_Status r) x (a_CurrentMemberID r) (a_ActiveCursors r) (a_Members r)
    (a_Version r) (a_BudgetPolicy r) (a_BudgetState r) (a_DecisionAssistant r) (a_AutoTags r) (a_CreatedAt r)
    (a_UpdatedAt r) (a_StartedAt r) (a_FinishedAt r) (a_IdleSince r) (a_Decisions r) (a_PendingInserts r).
Definition set_a_CurrentMemberID (x : string) (r : Automation) : Automation :=
  mkAutomation (a_ID r) (a_Name r) (a_Status r) (a_EntryMemberID r) x (a_ActiveCursors r) (a_Members r)
    (a_Version r) (a_BudgetPolicy r) (a_BudgetState r) (a_DecisionAssistant r) (a_AutoTags r) (a_CreatedAt r)
    (a_UpdatedAt r) (a_StartedAt r) (a_FinishedAt r) (a_IdleSince r) (a_Decisions r) (a_PendingInserts r).
Definition set_a_ActiveCursors (x : list string) (r : Automation) : Automation :=
  mkAutomation (a_ID r) (a_Name r) (a_Status r) (a_EntryMemberID r) (a_CurrentMemberID r) x (a_Members r)
    (a_Version r) (a_BudgetPolicy r) (a_BudgetState r) (a_DecisionAssistant r) (a_AutoTags r) (a_CreatedAt r)
    (a_UpdatedAt r) (a_StartedAt r) (a_FinishedAt r) (a_IdleSince r) (a_Decisions r) (a_PendingInserts r).
Definition set_a_Members (x : list AutomationMember) (r : Automation) : Automation :=
  mkAutomation (a_ID r) (a_Name r) (a_Status r) (a_EntryMemberID r) (a_CurrentMemberID r) (a_ActiveCursors r) x
    (a_Version r) (a_BudgetPolicy r) (a_BudgetState r) (a_DecisionAssistant r) (a_AutoTags r) (a_CreatedAt r)
    (a_UpdatedAt r) (a_StartedAt r) (a_FinishedAt r) (a_IdleSince r) (a_Decisions r) (a_PendingInserts r).
Definition set_a_Version (x : Z) (r : Automation) : Automation :=
  mkAutomation (a_ID r) (a_Name r) (a_Status r) (a_EntryMemberID r) (a_CurrentMemberID r) (a_ActiveCursors r)
    (a_Members r) x (a_BudgetPolicy r) (a_BudgetState r) (a_DecisionAssistant r) (a_AutoTags r) (a_CreatedAt r)
    (a_UpdatedAt r) (a_StartedAt r) (a_FinishedAt r) (a_IdleSince r) (a_Decisions r) (a_PendingInserts r).
Definition set_a_BudgetPolicy (x : option BudgetPolicy) (r : Automation) : Automation :=
  mkAutomation (a_ID r) (a_Name r) (a_Status r) (a_EntryMemberID r) (a_CurrentMemberID r) (a_ActiveCursors r)
    (a_Members r) (a_Version r) x (a_BudgetState r) (a_DecisionAssistant r) (a_AutoTags r) (a_CreatedAt r)
    (a_UpdatedAt r) (a_StartedAt r) (a_FinishedAt r) (a_IdleSince r) (a_Decisions r) (a_PendingInserts r).
Definition set_a_BudgetState (x : option BudgetState) (r : Automation) : Automation :=
  mkAutomation (a_ID r) (a_Name r) (a_Status r) (a_EntryMemberID r) (a_CurrentMemberID r) (a_ActiveCursors r)
    (a_Members r) (a_Version r) (a_BudgetPolicy r) x (a_DecisionAssistant r) (a_AutoTags r) (a_CreatedAt r)
    (a_UpdatedAt r) (a_StartedAt r) (a_FinishedAt r) (a_IdleSince r) (a_Decisions r) (a_PendingInserts r).
Definition set_a_CreatedAt (x : Time) (r : Automation) : Automation :=
  mkAutomation (a_ID r) (a_Name r) (a_Status r) (a_EntryMemberID r) (a_CurrentMemberID r) (a_ActiveCursors r)
    (a_Members r) (a_Version r) (a_BudgetPolicy r) (a_BudgetState r) (a_DecisionAssistant r) (a_AutoTags r) x
    (a_UpdatedAt r) (a_StartedAt r) (a_FinishedAt r) (a_IdleSince r) (a_Decisions r) (a_PendingInserts r).
Definition set_a_UpdatedAt (x : Time) (r : Automation) : Automation :=
  mkAutomation (a_ID r) (a_Name r) (a_Status r) (a_EntryMemberID r) (a_CurrentMemberID r) (a_ActiveCursors r)
    (a_Members r) (a_Version r) (a_BudgetPolicy r) (a_BudgetState r) (a_DecisionAssistant r) (a_AutoTags r)
    (a_CreatedAt r) x (a_StartedAt r) (a_FinishedAt r) (a_IdleSince r) (a_Decisions r) (a_PendingInserts r).
Definition set_a_StartedAt (x : option Time) (r : Automation) : Automation :=
  mkAutomation (a_ID r) (a_Name r) (a_Status r) (a_EntryMemberID r) (a_CurrentMemberID r) (a_ActiveCursors r)
    (a_Members r) (a_Version r) (a_BudgetPolicy r) (a_BudgetState r) (a_DecisionAssistant r) (a_AutoTags r)
    (a_CreatedAt r) (a_UpdatedAt r) x (a_FinishedAt r) (a_IdleSince r) (a_Decisions r) (a_PendingInserts r).
Definition set_a_FinishedAt (x : option Time) (r : Automation) : Automation :=
  mkAutomation (a_ID r) (a_Name r) (a_Status r) (a_EntryMemberID r) (a_CurrentMemberID r) (a_ActiveCursors r)
    (a_Members r) (a_Version r) (a_BudgetPolicy r) (a_BudgetState r) (a_DecisionAssistant r) (a_AutoTags r)
    (a_CreatedAt r) (a_UpdatedAt r) (a_StartedAt r) x (a_IdleSince r) (a_Decisions r) (a_PendingInserts r).
Definition set_a_IdleSince (x : option Time) (r : Automation) : Automation :=
  mkAutomation (a_ID r) (a_Name r) (a_Status r) (a_EntryMemberID r) (a_CurrentMemberID r) (a_ActiveCursors r)
    (a_Members r) (a_Version r) (a_BudgetPolicy r) (a_BudgetState r) (a_DecisionAssistant r) (a_AutoTags r)
    (a_CreatedAt r) (a_UpdatedAt r) (a_StartedAt r) (a_FinishedAt r) x (a_Decisions r) (a_PendingInserts r).
Definition set_a_Decisions (x : list Decision_) (r : Automation) : Automation :=
  mkAutomation (a_ID r) (a_Name r) (a_Status r) (a_EntryMemberID r) (a_CurrentMemberID r) (a_ActiveCursors r)
    (a_Members r) (a_Version r) (a_BudgetPolicy r) (a_BudgetState r) (a_DecisionAssistant r) (a_AutoTags r)
    (a_CreatedAt r) (a_UpdatedAt r) (a_StartedAt r) (a_FinishedAt r) (a_IdleSince r) x (a_PendingInserts r).
Definition set_a_PendingInserts (x : list PendingInsert) (r : Automation) : Automation :=
  mkAutomation (a_ID r) (a_Name r) (a_Status r) (a_EntryMemberID r) (a_CurrentMemberID r) (a_ActiveCursors r)
    (a_Members r) (a_Version r) (a_BudgetPolicy r) (a_BudgetState r) (a_DecisionAssistant r) (a_AutoTags r)
    (a_CreatedAt r) (a_UpdatedAt r) (a_StartedAt r) (a_FinishedAt r) (a_IdleSince r) (a_Decisions r) x.

(** The zero member: what a field of a missing entry of a map reads as. *)
Definition zero_member : AutomationMember :=
  mkMember "" "" "" "" "" "" "" [] [] "" zero_time "" "" "" None None "" "" None None float_zero "".

(** [m.kind()] *)
Definition kind (m : AutomationMember) : string := if String.eqb (m_Kind m) "" then MemberKindPRD else m_Kind m.

Definition is_kind (k : string) (m : AutomationMember) : bool := String.eqb (kind m) k.

Definition automationIsLinear (a : Automation) : bool :=
  forallb (λ m, negb (one_of (kind m) [MemberKindFork; MemberKindJoin; MemberKindAutomation])) (a_Members a).

(** ** Members and cursors *)

(** [automationMember], [joinOf], [joinFor], [memberByPRD], [memberByChild]: the
    index of the first member that passes a test. *)
Definition first_member (P : AutomationMember → bool) (a : Automation) : option nat :=
  fst <$> list_find (λ m, P m = true) (a_Members a).

Definition automationMember (a : Automation) (id : string) : option nat :=
  if String.eqb id "" then None else first_member (λ m, String.eqb (m_ID m) id) a.

(** [*mem], and an assignment through [mem]. *)
Definition mem_at (a : Automation) (i : nat) : AutomationMember := default zero_member (a_Members a !! i).
Definition upd (i : nat) (f : AutomationMember → AutomationMember) (a : Automation) : Automation :=
  set_a_Members (alter f i (a_Members a)) a.

Fixpoint unique_sorted (l : list string) : list string :=
  match l with
  | x :: ((y :: _) as l') => if String.eqb x y then unique_sorted l' else x :: unique_sorted l'
  | _ => l
  end.

(** Sorted, without repetitions. *)
Definition sortedUniqueStrings (l : list string) : list string := unique_sorted (sort_strings l).

Definition normalizeActiveCursors (a : Automation) : Automation :=
  if automationIsLinear a
  then set_a_ActiveCursors (if nonempty (a_CurrentMemberID a) then [a_CurrentMemberID a] else []) a
  else set_a_ActiveCursors (sortedUniqueStrings (a_ActiveCursors a)) a.

Definition isLiveCursor (a : Automation) (id : string) : bool :=
  if automationIsLinear a then String.eqb (a_CurrentMemberID a) id else one_of id (a_ActiveCursors a).

Definition liveCursorIDs (a : Automation) : list string :=
  if automationIsLinear a then (if nonempty (a_CurrentMemberID a) then [a_CurrentMemberID a] else [])
  else sortedUniqueStrings (a_ActiveCursors a).

Definition addCursor (id : string) (a : Automation) : Automation :=
  if automationIsLinear a then set_a_CurrentMemberID id a else set_a_ActiveCursors (a_ActiveCursors a ++ [id]) a.

Definition dropCursor (id : string) (a : Automation) : Automation :=
  if automationIsLinear a then a
  else set_a_ActiveCursors (filter (λ c, negb (String.eqb c id) = true) (a_ActiveCursors a)) a.

Definition cursorsRemain (a : Automation) : bool :=
  if automationIsLinear a then false
  else bool_decide (a_ActiveCursors a ≠ [])
       || existsb (λ m, is_kind MemberKindJoin m && String.eqb (m_Status m) MemberRunning) (a_Members a).

Definition firstCursor (ids : list string) : string :=
  match ids with
  | [] => ""
  | first :: ids => foldl (λ f id, if String.ltb id f then id else f) first ids
  end.

Definition sortedCopy (ids : list string) : list string := sort_strings ids.

(** The keys of the map built from [x] are all in [y], and the lengths agree. *)
Definition sameMemberSet (x y : list string) : bool :=
  (length x =? length y)%nat && forallb (λ v, bool_decide (v ∈ (list_to_set y : gset string))) x.

Definition joinOf (a : Automation) (id : string) : option nat :=
  first_member (λ m, is_kind MemberKindJoin m && one_of id (m_JoinMembers m)) a.

Definition joinFor (a : Automation) (fork : AutomationMember) : option nat :=
  first_member (λ m, is_kind MemberKindJoin m && sameMemberSet (m_JoinMembers m) (m_ForkMembers fork)) a.

Definition memberByPRD (a : Automation) (prdID : string) : option nat :=
  first_member (λ m, is_kind MemberKindPRD m && String.eqb (m_PRDID m) prdID) a.

Definition memberByChild (a : Automation) (childID : string) : option nat :=
  first_member (λ m, is_kind MemberKindAutomation m && String.eqb (m_AutomationID m) childID) a.

Definition prdMembersOnly (ms : list AutomationMember) : list AutomationMember :=
  filter (λ m, is_kind MemberKindPRD m = true) ms.

Definition edgeOnComplete : string := "on_complete".
Definition edgeOnBlocked : string := "on_blocked".
Definition edgeOnFailed : string := "on_failed".

Definition edgeTarget (m : AutomationMember) (edge : string) : string :=
  if String.eqb edge edgeOnComplete then m_OnComplete m
  else if String.eqb edge edgeOnBlocked then m_OnBlocked m
  else if String.eqb edge edgeOnFailed then m_OnFailed m
  else "".

Definition memberUnstarted (m : AutomationMember) : bool :=
  String.eqb (m_Status m) MemberPending || String.eqb (m_Status m) "".

(** ** The graph *)

Definition pairedJoin (a : Automation) : gmap string string :=
  foldl (λ acc m, if is_kind MemberKindJoin m then foldl (λ acc b, <[b := m_ID m]> acc) acc (m_JoinMembers m) else acc)
    ∅ (a_Members a).

Definition outcome_edges (m : AutomationMember) : list string :=
  filter (λ t, nonempty t = true) [m_OnComplete m; m_OnBlocked m; m_OnFailed m].

Definition next_of (paired : gmap string string) (m : AutomationMember) : list string :=
  outcome_edges m ++ (if is_kind MemberKindFork m then m_ForkMembers m else [])
    ++ (match paired !! m_ID m with Some j => [j] | None => [] end).

Definition automationSuccessors (a : Automation) : gmap string (list string) :=
  foldl (λ acc m, <[m_ID m := next_of (pairedJoin a) m]> acc) ∅ (a_Members a).

(** [succ[id]] *)
Definition succs (s : gmap string (list string)) (id : string) : list string := default [] (s !! id).

Inductive colour := white | grey | black.

#[global] Instance colour_eq_dec : EqDecision colour.
Proof. solve_decision. Defined.

Record search := mkSearch { color : gmap string colour; path : list string }.

Definition color_at (st : search) (id : string) : colour := default white (color st !! id).

(** [path[i:]] for the first [i] with [path[i] == target]. *)
Fixpoint from_first (target : string) (l : list string) : list string :=
  match l with
  | [] => []
  | x :: l' => if String.eqb x target then l else from_first target l'
  end.

(** The loop over the successors: what is left of the search, or the cycle
    found; [None] is fuel spent. *)
Fixpoint visit_all (dfs : string → search → option (search * option (list string)))
    (targets : list string) (st : search) : option (search * option (list string)) :=
  match targets with
  | [] => Some (st, None)
  | t :: ts =>
      match color_at st t with
      | grey => Some (st, Some (from_first t (path st)))
      | white => match dfs t st with
                 | Some (st, None) => visit_all dfs ts st
                 | r => r
                 end
      | black => visit_all dfs ts st
      end
  end.

Fixpoint dfs (fuel : nat) (s : gmap string (list string)) (id : string) (st : search)
    : option (search * option (list string)) :=
  match fuel with
  | O => None
  | S f =>
      let st := mkSearch (<[id := grey]> (color st)) (path st ++ [id]) in
      match visit_all (dfs f s) (succs s id) st with
      | Some (st, None) => Some (mkSearch (<[id := black]> (color st)) (removelast (path st)), None)
      | r => r
      end
  end.

(** The cycle found, if any. The depth of the recursion is at most one more than
    the number of members. *)
Definition has_cycle (a : Automation) : option (option (list string)) :=
  snd <$> dfs (S (length (a_Members a))) (automationSuccessors a) (a_EntryMemberID a) (mkSearch ∅ []).
Definition automationHasCycle (a : Automation) : option (list string) := default None (has_cycle a).

(** The stack of the reachability walk, its top first. *)
Definition push_new (acc : gset string * list string) (next : string) : gset string * list string :=
  if bool_decide (next ∈ acc.1) then acc else ({[next]} ∪ acc.1, next :: acc.2).

Fixpoint reach_loop (fuel : nat) (s : gmap string (list string)) (reached : gset string) (stack : list string)
    : option (gset string) :=
  match stack with
  | [] => Some reached
  | id :: stack =>
      match fuel with
      | O => None
      | S f => let '(reached, stack) := foldl push_new (reached, stack) (succs s id) in reach_loop f s reached stack
      end
  end.

(** Fuel: every turn takes a node off the stack, and only the entry and nodes
    some member leads to are ever put on it. *)
Definition reach_fuel (s : gmap string (list string)) : nat := S (length (mjoin (map_to_list s).*2)).
Definition reached_from_entry (a : Automation) : option (gset string) :=
  let s := automationSuccessors a in reach_loop (reach_fuel s) s {[a_EntryMemberID a]} [a_EntryMemberID a].

Definition automationUnreachable (a : Automation) : list string :=
  if String.eqb (a_EntryMemberID a) "" then []
  else let reached := default ∅ (reached_from_entry a) in
       sort_strings (m_ID <$> filter (λ m, bool_decide (m_ID m ∉ reached) = true) (a_Members a)).
