(* ===== verification/AutomationGraph.v ===== *)
(** * Automations: the cycle check and the reachability check are exact

    [automationHasCycle] answers a cycle the entry member leads to when there is
    one and nothing when there is none, and [automationUnreachable] lists exactly
    the members no walk from the entry visits. Neither search runs out of fuel. *)

From S2P Require Import Prelude GoBase GoText Graph AutomationSettings Automation.

(** ** The depth-first search *)

Section depth_first.
Context (s : gmap string (list string)) (entry : string).

Definition leads (u v : string) : Prop := v ∈ succs s u.

Record search_inv (st : search) (fin : list string) : Prop := {
  si_grey x : color_at st x = grey ↔ x ∈ path st;
  si_black x : color_at st x = black ↔ x ∈ fin;
  si_topo : topo leads fin;
  si_linked : linked leads (path st);
  si_nodup : NoDup (path st);
  si_reach x : x ∈ path st ++ fin → rtc leads entry x
}.

(** The sources of edges the search has not met. *)
Definition unmet (st : search) (fin : list string) : gset string :=
  dom s ∖ (list_to_set (path st) ∪ list_to_set fin).

Lemma color_at_insert id c st p x :
  color_at (mkSearch (<[id := c]> (color st)) p) x = if decide (x = id) then c else color_at st x.
Proof.
  unfold color_at. simpl. case_decide; [subst; by rewrite lookup_insert_eq|by rewrite lookup_insert_ne].
Qed.

Lemma white_unmet st fin x : search_inv st fin → color_at st x = white → x ∉ path st ∧ x ∉ fin.
Proof.
  intros Hi Hw. split; intros Hx; [apply (si_grey _ _ Hi) in Hx|apply (si_black _ _ Hi) in Hx]; congruence.
Qed.

Definition descend (id : string) (st : search) : search :=
  mkSearch (<[id := grey]> (color st)) (path st ++ [id]).
Definition ascend (id : string) (st : search) : search :=
  mkSearch (<[id := black]> (color st)) (removelast (path st)).

Lemma descend_inv st fin id :
  search_inv st fin → color_at st id = white → rtc leads entry id →
  (∀ w, last (path st) = Some w → leads w id) → search_inv (descend id st) fin.
Proof.
  intros Hi Hw Hr Hlast. destruct (white_unmet _ _ _ Hi Hw) as [Hp Hf].
  destruct Hi as [Hg Hb Ht Hl Hnd Hre]. unfold descend. split; simpl.
  - intros x. rewrite color_at_insert. case_decide; [subst; set_solver|]. rewrite Hg. set_solver.
  - intros x. rewrite color_at_insert. case_decide; [subst; split; [done|set_solver]|]. apply Hb.
  - done.
  - by apply linked_snoc.
  - apply NoDup_app. split_and!; [done|set_solver|apply NoDup_singleton].
  - intros x. rewrite !elem_of_app, list_elem_of_singleton. set_solver.
Qed.

Lemma ascend_inv st fin id p :
  search_inv st fin → path st = p ++ [id] → (∀ v, leads id v → v ∈ fin) →
  search_inv (ascend id st) (id :: fin) ∧ path (ascend id st) = p.
Proof.
  intros [Hg Hb Ht Hl Hnd Hre] Hp Hout. unfold ascend.
  assert (removelast (path st) = p) as Hr by (rewrite Hp; apply removelast_last).
  rewrite Hp in Hnd. apply NoDup_app in Hnd as (Hnd&Hni&_).
  assert (id ∉ fin) as Hf.
  { intros Hu%Hb. assert (color_at st id = grey) by (apply Hg; rewrite Hp; set_solver). congruence. }
  split; [|done]. rewrite Hr. split; simpl.
  - intros x. rewrite color_at_insert. case_decide; [subst x; set_solver|]. rewrite Hg, Hp. set_solver.
  - intros x. rewrite color_at_insert. case_decide; [subst x; set_solver|]. rewrite Hb. set_solver.
  - done.
  - rewrite Hp in Hl. intros i u v Hu Hv. apply (Hl i); by apply lookup_app_l_Some.
  - done.
  - intros x Hx. apply Hre. rewrite Hp. set_solver.
Qed.

(** What a finished call leaves. *)
Definition dfs_post (st : search) (fin : list string) (goal : list string)
    (r : option (search * option (list string))) : Prop :=
  ∃ st' o, r = Some (st', o) ∧
    match o with
    | Some c => cycle_of leads c ∧ ∀ x, x ∈ c → rtc leads entry x
    | None => ∃ fin', search_inv st' fin' ∧ path st' = path st ∧ (∀ x, x ∈ fin → x ∈ fin') ∧ ∀ x, x ∈ goal → x ∈ fin'
    end.

Lemma from_first_split t l : t ∈ l → ∃ pre, l = pre ++ from_first t l ∧ head (from_first t l) = Some t.
Proof.
  induction l as [|x l IH]; simpl; [set_solver|]. intros Ht. destruct (String.eqb_spec x t) as [->|Hne].
  - by exists [].
  - destruct IH as (pre&Hl&Hh); [by apply elem_of_cons in Ht as [?|]|]. exists (x :: pre). split; [|done].
    simpl. by f_equal.
Qed.

(** A back edge closes a cycle. *)
Lemma back_edge st fin id t :
  search_inv st fin → last (path st) = Some id → leads id t → t ∈ path st →
  cycle_of leads (from_first t (path st)) ∧ ∀ x, x ∈ from_first t (path st) → rtc leads entry x.
Proof.
  intros Hi Hlast Hid Ht. destruct (from_first_split t (path st) Ht) as (pre&Hp&Hh).
  destruct (from_first t (path st)) as [|y c] eqn:E; [done|]. simpl in Hh. injection Hh as ->. split.
  - split; [apply (linked_app_r _ pre); rewrite <- Hp; apply Hi|]. exists id. split; [|done].
    rewrite Hp, last_app in Hlast. destruct (last (t :: c)) eqn:El; [done|]. by apply last_None in El.
  - intros x Hx. apply (si_reach _ _ Hi). rewrite Hp. set_solver.
Qed.

Lemma visit_all_spec f id ts st fin :
  (∀ t st fin, search_inv st fin → color_at st t = white → last (path st) = Some id → leads id t →
     (size (unmet st fin) < f)%nat → dfs_post st fin [t] (dfs f s t st)) →
  search_inv st fin → last (path st) = Some id → (size (unmet st fin) < f)%nat →
  (∀ t, t ∈ ts → leads id t) → dfs_post st fin ts (visit_all (dfs f s) ts st).
Proof.
  intros Hrec. revert st fin. induction ts as [|t ts IH]; intros st fin Hi Hlast Hsz Hts; simpl.
  { exists st, None. split; [done|]. exists fin. set_solver. }
  assert (leads id t) as Ht by (apply Hts; left).
  assert (∀ t, t ∈ ts → leads id t) as Hts' by (intros; apply Hts; by right).
  destruct (color_at st t) eqn:Hc.
  - destruct (Hrec t st fin) as (st' & o & -> & Hpost); [done..|].
    destruct o as [c|]; [by exists st', (Some c)|]. destruct Hpost as (fin' & Hi' & Hp & Hsub & Hgoal).
    destruct (IH st' fin') as (st'' & o & -> & Hpost); [done|by rewrite Hp| |done|].
    { eapply Nat.le_lt_trans; [|exact Hsz]. apply subseteq_size. unfold unmet. rewrite Hp. set_solver. }
    exists st'', o. split; [done|]. destruct o as [c|]; [done|]. destruct Hpost as (fin'' & Hi'' & Hp'' & Hsub' & Hg').
    exists fin''. split_and!; [done|congruence|auto|]. intros x [->|Hx]%elem_of_cons; [apply Hsub', Hgoal; left|auto].
  - exists st, (Some (from_first t (path st))). split; [done|]. eapply back_edge; [done..|]. by apply (si_grey _ _ Hi).
  - destruct (IH st fin) as (st' & o & -> & Hpost); [done..|]. exists st', o. split; [done|]. destruct o; [done|].
    destruct Hpost as (fin' & Hi' & Hp & Hsub & Hg). exists fin'. split_and!; [done..|].
    intros x [->|Hx]%elem_of_cons; [|auto]. apply Hsub. by apply (si_black _ _ Hi).
Qed.

Lemma search_spec f id st fin :
  search_inv st fin → color_at st id = white → rtc leads entry id →
  (∀ w, last (path st) = Some w → leads w id) → (size (unmet st fin) < f)%nat →
  dfs_post st fin [id] (dfs f s id st).
Proof.
  revert id st fin. induction f as [|f IH]; intros id st fin Hi Hw Hr Hlast Hsz; [lia|]. simpl.
  fold (descend id st). pose proof (descend_inv _ _ _ Hi Hw Hr Hlast) as Hd.
  assert (dfs_post (descend id st) fin (succs s id) (visit_all (dfs f s) (succs s id) (descend id st))) as Hv.
  { destruct (s !! id) as [ts|] eqn:Hs.
    - apply (visit_all_spec f id); [|done|by simpl; rewrite last_snoc| |done].
      + intros t st' fin' Hi' Hw' Hl' Ht Hsz'. apply IH; [done|done| |by intros w Hw2; simplify_eq|done].
        eapply rtc_r; [|done]. apply (si_reach _ _ Hi'). apply elem_of_app. left.
        by apply last_Some_elem_of.
      + destruct (white_unmet _ _ _ Hi Hw) as [Hup Huf].
        assert (id ∈ unmet st fin) by (unfold unmet; apply elem_of_dom_2 in Hs; set_solver).
        enough (size (unmet (descend id st) fin) < size (unmet st fin))%nat by lia.
        apply subset_size. unfold unmet, descend in *. simpl. set_solver.
    - unfold succs. rewrite Hs. simpl. exists (descend id st), None. split; [done|]. exists fin. set_solver. }
  destruct Hv as (st' & o & -> & Hpost). destruct o as [c|]; [by exists st', (Some c)|].
  destruct Hpost as (fin' & Hi' & Hp & Hsub & Hgoal).
  destruct (ascend_inv st' fin' id (path st)) as [Ha Hpa]; [done|done|by intros v Hv; apply Hgoal|].
  exists (ascend id st'), None. split; [done|]. exists (id :: fin'). split_and!; [done|done| |set_solver].
  intros x Hx. right. auto.
Qed.

Lemma search_start : search_inv (mkSearch ∅ []) [].
Proof.
  split; try done; try constructor; try (intros; set_solver).
Qed.

Lemma dfs_from_entry f :
  (size (dom s) < f)%nat → dfs_post (mkSearch ∅ []) [] [entry] (dfs f s entry (mkSearch ∅ [])).
Proof.
  intros Hf. apply search_spec; [apply search_start|done|done|done|].
  eapply Nat.le_lt_trans; [|exact Hf]. apply subseteq_size. unfold unmet. set_solver.
Qed.
End depth_first.

(** ** The reachability walk *)

Section reachability.
Context (s : gmap string (list string)) (entry : string).

Definition targets : gset string := list_to_set (mjoin (map_to_list s).*2).

Lemma leads_target u v : leads s u v → v ∈ targets.
Proof.
  unfold leads, succs, targets. destruct (s !! u) as [l|] eqn:Hl; simpl; [|set_solver]. intros Hv.
  apply elem_of_list_to_set, list_elem_of_join. exists l. split; [done|]. apply list_elem_of_fmap.
  exists (u, l). split; [done|]. by apply elem_of_map_to_list.
Qed.

Record reach_inv (reached : gset string) (stack : list string) : Prop := {
  ri_entry : entry ∈ reached;
  ri_stack x : x ∈ stack → x ∈ reached;
  ri_reach x : x ∈ reached → rtc (leads s) entry x
}.

(** What is left to do: the nodes on the stack and the targets not reached. *)
Definition reach_measure (reached : gset string) (stack : list string) : nat :=
  length stack + size (targets ∖ reached).

Lemma push_all_spec id vs reached stack :
  (∀ v, v ∈ vs → leads s id v) → rtc (leads s) entry id → reach_inv reached stack →
  let '(r, st) := foldl push_new (reached, stack) vs in
  reach_inv r st ∧ (∀ x, x ∈ r ↔ x ∈ reached ∨ x ∈ vs) ∧ (∀ x, x ∈ st ↔ x ∈ stack ∨ (x ∈ vs ∧ x ∉ reached))
  ∧ (reach_measure r st ≤ reach_measure reached stack)%nat.
Proof.
  intros Hvs Hid. revert reached stack. induction vs as [|v vs IH]; intros reached stack Hi.
  { cbn [foldl]. split_and!; [done|set_solver|set_solver|lia]. }
  cbn [foldl]. assert (leads s id v) as Hv by (apply Hvs; left).
  assert (∀ w, w ∈ vs → leads s id w) as Hvs' by (intros; apply Hvs; by right).
  unfold push_new at 2. cbn [fst snd]. case_bool_decide as Hin.
  - specialize (IH Hvs' reached stack Hi). destruct (foldl push_new (reached, stack) vs) as [r st].
    destruct IH as (H1&H2&H3&H4). split_and!; [done| | |done]; intros x; [rewrite H2|rewrite H3]; set_solver.
  - assert (reach_inv ({[v]} ∪ reached) (v :: stack)) as Hi'.
    { destruct Hi as [He Hs Hr]. split; [set_solver|set_solver|]. intros x [->%elem_of_singleton|Hx]%elem_of_union; [|by apply Hr].
      by eapply rtc_r. }
    specialize (IH Hvs' _ _ Hi'). destruct (foldl push_new ({[v]} ∪ reached, v :: stack) vs) as [r st].
    destruct IH as (H1&H2&H3&H4). split_and!; [done| | |].
    + intros x. rewrite H2. set_solver.
    + intros x. rewrite H3. destruct (decide (x = v)) as [->|]; set_solver.
    + etrans; [exact H4|]. unfold reach_measure. cbn [length]. pose proof (leads_target _ _ Hv).
      enough (size (targets ∖ ({[v]} ∪ reached)) < size (targets ∖ reached))%nat by lia.
      apply subset_size. set_solver.
Qed.

Lemma reach_done reached x :
  reach_inv reached [] → (∀ x y, x ∈ reached → leads s x y → y ∈ reached) → x ∈ reached ↔ rtc (leads s) entry x.
Proof.
  intros Hi Hcl. split; [apply (ri_reach _ _ Hi)|]. intros Hx.
  apply (rtc_ind_r (R:=leads s) (λ x, x ∈ reached) entry); [apply (ri_entry _ _ Hi)| |done]. intros y z _ Hyz Hy. by eapply Hcl.
Qed.

Lemma reach_loop_spec f reached stack :
  reach_inv reached stack → (∀ x y, x ∈ reached → x ∉ stack → leads s x y → y ∈ reached) →
  (reach_measure reached stack ≤ f)%nat →
  ∃ r, reach_loop f s reached stack = Some r ∧ ∀ x, x ∈ r ↔ rtc (leads s) entry x.
Proof.
  revert reached stack. induction f as [|f IH]; intros reached stack Hi Hdone Hsz; destruct stack as [|id stack].
  - exists reached. split; [done|]. intros x. apply reach_done; [done|]. intros y z Hy. apply Hdone; [done|set_solver].
  - unfold reach_measure in Hsz. simpl in Hsz. lia.
  - exists reached. split; [done|]. intros x. apply reach_done; [done|]. intros y z Hy. apply Hdone; [done|set_solver].
  - cbn [reach_loop]. pose proof (push_all_spec id (succs s id) reached stack) as Hp.
    destruct (foldl push_new (reached, stack) (succs s id)) as [r st]. destruct Hp as (H1&H2&H3&H4).
    + done.
    + apply (ri_reach _ _ Hi), (ri_stack _ _ Hi). left.
    + split; [apply Hi| |apply Hi]. intros x Hx. apply (ri_stack _ _ Hi). by right.
    + apply IH; [done| |unfold reach_measure in *; simpl in Hsz; lia].
      intros x y Hx Hst Hxy. apply H2. destruct (decide (x = id)) as [->|Hne]; [by right|]. left.
      assert (x ∈ reached) as Hxr by (apply H2 in Hx as [?|Hx]; [done|]; destruct (decide (x ∈ reached)); [done|]; set_solver).
      apply (Hdone x y Hxr); [|done]. set_solver.
Qed.

Lemma reach_from_entry :
  ∃ r, reach_loop (reach_fuel s) s {[entry]} [entry] = Some r ∧ ∀ x, x ∈ r ↔ rtc (leads s) entry x.
Proof.
  apply reach_loop_spec.
  - split; [set_solver|set_solver|]. intros x ->%elem_of_singleton. done.
  - set_solver.
  - unfold reach_measure, reach_fuel. simpl. apply le_n_S. etrans; [|apply size_list_to_set_le].
    apply subseteq_size. unfold targets. set_solver.
Qed.
End reachability.

(** ** The two checks *)

Section checks.
Context (a : Automation).

Abbreviation lead := (leads (automationSuccessors a)).

Lemma successors_dom : dom (automationSuccessors a) = list_to_set (m_ID <$> a_Members a).
Proof.
  unfold automationSuccessors. generalize (pairedJoin a) as p. intros p.
  assert (∀ ms (acc : gmap string (list string)),
    dom (foldl (λ acc m, <[m_ID m := next_of p m]> acc) acc ms) = dom acc ∪ list_to_set (m_ID <$> ms)) as H.
  { induction ms as [|m ms IH]; intros acc; simpl; [set_solver|]. rewrite IH, dom_insert_L. set_solver. }
  rewrite H. set_solver.
Qed.

Lemma has_cycle_spec :
  match has_cycle a with
  | None => False
  | Some (Some c) => cycle_of lead c ∧ ∀ x, x ∈ c → rtc lead (a_EntryMemberID a) x
  | Some None => ∃ fin, topo lead fin ∧ a_EntryMemberID a ∈ fin
  end.
Proof.
  unfold has_cycle. destruct (dfs_from_entry (automationSuccessors a) (a_EntryMemberID a) (S (length (a_Members a))))
    as (st & o & -> & Hp).
  - rewrite successors_dom. apply le_n_S. etrans; [apply size_list_to_set_le|]. by rewrite length_fmap.
  - simpl. destruct o as [c|]; [done|]. destruct Hp as (fin & Hi & _ & _ & Hg). exists fin. split; [apply Hi|apply Hg; left].
Qed.

Lemma reached_spec :
  ∃ r, reached_from_entry a = Some r ∧ ∀ x, x ∈ r ↔ rtc lead (a_EntryMemberID a) x.
Proof. apply reach_from_entry. Qed.

(** No cycle found: a topological order of everything the entry leads to. *)
Lemma no_cycle_topo :
  automationHasCycle a = None → ∃ fin, topo lead fin ∧ ∀ x, rtc lead (a_EntryMemberID a) x → x ∈ fin.
Proof.
  unfold automationHasCycle. pose proof has_cycle_spec as H. destruct (has_cycle a) as [[c|]|]; [done| |done].
  intros _. destruct H as (fin & Ht & He). exists fin. split; [done|]. intros x. by apply topo_rtc.
Qed.

Lemma elem_of_unreachable x :
  a_EntryMemberID a ≠ "" →
  x ∈ automationUnreachable a ↔ x ∈ m_ID <$> a_Members a ∧ ¬ rtc lead (a_EntryMemberID a) x.
Proof.
  intros He. unfold automationUnreachable. destruct (String.eqb_spec (a_EntryMemberID a) ""); [done|].
  destruct reached_spec as (r & -> & Hr). simpl. unfold sort_strings. rewrite elem_of_sort_by, !list_elem_of_fmap.
  setoid_rewrite list_elem_of_filter. setoid_rewrite bool_decide_eq_true. setoid_rewrite Hr. naive_solver.
Qed.
End checks.
