(* ===== verification/AutomationValidate.v ===== *)
(** * Automations: the checks on a record

    internal/autonomous/automation.go: [validateAutomation] and what it is made
    of, the rule of one Automation per PRD ([validateAutomationOwnership]) and
    the rules of nesting ([validateAutomationNesting]); automation_store.go: the
    check of the stage labels. The name of the map of members by id ([byID])
    also stands for the set of ids the code keeps beside it. *)

From S2P Require Import Prelude GoBase GoText AutomationSettings Automation.

#[local] Open Scope Z_scope.

(** ** One member *)

Definition validateMemberKind (aID : string) (m : AutomationMember) : res unit :=
  fail_if (negb (one_of (m_Kind m) [""; MemberKindPRD; MemberKindAutomation; MemberKindFork; MemberKindJoin]))
    (Errorf "automation invalid: member %s has unknown kind %q" [AStr (m_ID m); AStr (m_Kind m)]) ;;
  let k := kind m in
  fail_if (negb (String.eqb k MemberKindFork) && bool_decide (m_ForkMembers m ≠ []))
    (Errorf "automation invalid: member %s: fork_members is only valid on kind fork" [AStr (m_ID m)]) ;;
  fail_if (negb (String.eqb k MemberKindJoin) && (bool_decide (m_JoinMembers m ≠ []) || nonempty (m_OnBranchFailure m)))
    (Errorf "automation invalid: member %s: join_members and on_branch_failure are only valid on kind join" [AStr (m_ID m)]) ;;
  fail_if (negb (String.eqb k MemberKindAutomation) && nonempty (m_AutomationID m))
    (Errorf "automation invalid: member %s: automation_id is only valid on kind automation" [AStr (m_ID m)]) ;;
  fail_if (flt (m_EstimatedCostUSD m) float_zero)
    (Errorf "automation invalid: member %s: estimated_cost_usd %v must not be negative" [AStr (m_ID m); AFloat (m_EstimatedCostUSD m)]) ;;
  fail_if (negb (String.eqb k MemberKindPRD) && negb (feq (m_EstimatedCostUSD m) float_zero))
    (Errorf "automation invalid: member %s: estimated_cost_usd is only valid on kind prd" [AStr (m_ID m)]) ;;
  fail_if (negb (String.eqb k MemberKindPRD) && nonempty (m_PRDID m))
    (Errorf "automation invalid: member %s: kind %s must not carry prd_id" [AStr (m_ID m); AStr k]) ;;
  (if String.eqb k MemberKindAutomation then
     fail_if (String.eqb (TrimSpace (m_AutomationID m)) "")
       (Errorf "automation invalid: member %s: kind automation needs automation_id" [AStr (m_ID m)]) ;;
     fail_if (String.eqb (m_AutomationID m) aID)
       (Errorf "automation invalid: member %s nests its own automation %s" [AStr (m_ID m); AStr aID])
   else Ok tt) ;;
  (if String.eqb k MemberKindJoin then
     fail_if (negb (one_of (m_OnBranchFailure m) [""; BranchAllMustSucceed; BranchAnyOneIsEnough; BranchContinueAnyway]))
       (Errorf "automation invalid: member %s: unknown on_branch_failure %q" [AStr (m_ID m); AStr (m_OnBranchFailure m)])
   else Ok tt).

(** The first loop: the members by id, and the PRDs they run. *)
Fixpoint members_loop (aID : string) (ms : list AutomationMember) (byID : gmap string AutomationMember) (prdIDs : gset string)
    : res (gmap string AutomationMember) :=
  match ms with
  | [] => Ok byID
  | m :: ms =>
      fail_if (String.eqb (TrimSpace (m_ID m)) "") (Errorf "automation invalid: member with empty ID" []) ;;
      validateMemberKind aID m ;;
      fail_if (is_kind MemberKindPRD m && String.eqb (TrimSpace (m_PRDID m)) "")
        (Errorf "automation invalid: member %s has empty PRDID" [AStr (m_ID m)]) ;;
      fail_if (bool_decide (is_Some (byID !! m_ID m))) (Errorf "automation invalid: duplicate member ID %s" [AStr (m_ID m)]) ;;
      let byID := <[m_ID m := m]> byID in
      if is_kind MemberKindPRD m then
        fail_if (bool_decide (m_PRDID m ∈ prdIDs)) (Errorf "automation invalid: PRD %s is a member more than once" [AStr (m_PRDID m)]) ;;
        members_loop aID ms byID ({[m_PRDID m]} ∪ prdIDs)
      else members_loop aID ms byID prdIDs
  end.

Definition member_in (byID : gmap string AutomationMember) (id : string) : AutomationMember := default zero_member (byID !! id).

Definition check_entry (a : Automation) (byID : gmap string AutomationMember) : res unit :=
  fail_if (bool_decide (a_Members a ≠ []) && String.eqb (a_EntryMemberID a) "")
    (Errorf "automation invalid: has members but empty entry member ID" []) ;;
  (if nonempty (a_EntryMemberID a) then
     fail_if (bool_decide (byID !! a_EntryMemberID a = None))
       (Errorf "automation invalid: entry member %s is not a member" [AStr (a_EntryMemberID a)]) ;;
     fail_if (is_kind MemberKindJoin (member_in byID (a_EntryMemberID a)))
       (Errorf "automation invalid: entry member %s is a join; a join is reached only through its fork" [AStr (a_EntryMemberID a)])
   else Ok tt).

Definition check_edge (byID : gmap string AutomationMember) (m : AutomationMember) (nt : string * string) : res unit :=
  if String.eqb nt.2 "" then Ok tt
  else
    fail_if (String.eqb nt.2 (m_ID m)) (Errorf "automation invalid: member %s %s edge points to itself" [AStr (m_ID m); AStr nt.1]) ;;
    fail_if (bool_decide (byID !! nt.2 = None))
      (Errorf "automation invalid: member %s %s edge names unknown member %s" [AStr (m_ID m); AStr nt.1; AStr nt.2]) ;;
    fail_if (is_kind MemberKindJoin (member_in byID nt.2))
      (Errorf "automation invalid: member %s %s edge names join %s; a join is reached only through its fork" [AStr (m_ID m); AStr nt.1; AStr nt.2]).

Definition edge_map (m : AutomationMember) : gmap string string :=
  list_to_map [(edgeOnComplete, m_OnComplete m); (edgeOnBlocked, m_OnBlocked m); (edgeOnFailed, m_OnFailed m)].

(** The policies and assistants of the members; a policy comes back trimmed. *)
Fixpoint settings_loop `{!TimeZones} (ms : list AutomationMember) : res (list AutomationMember) :=
  match ms with
  | [] => Ok []
  | m :: ms =>
      p ← match validateBudgetPolicy (m_BudgetPolicy m) with
          | Err e => Err (Errorf "automation invalid: member %s: %w" [AStr (m_ID m); wrapped e])
          | Ok p => Ok p
          end;
      match validateDecisionAssistant (m_DecisionAssistant m) with
      | Err e => Err (Errorf "automation invalid: member %s: %w" [AStr (m_ID m); wrapped e])
      | Ok _ => Ok tt
      end ;;
      rest ← settings_loop ms;
      Ok (set_m_BudgetPolicy p m :: rest)
  end.

Fixpoint cursors_loop (byID : gmap string AutomationMember) (seen : gset string) (cs : list string) : res unit :=
  match cs with
  | [] => Ok tt
  | c :: cs =>
      fail_if (bool_decide (byID !! c = None)) (Errorf "automation invalid: active cursor %s is not a member" [AStr c]) ;;
      fail_if (bool_decide (c ∈ seen)) (Errorf "automation invalid: active cursor %s listed more than once" [AStr c]) ;;
      cursors_loop byID ({[c]} ∪ seen) cs
  end.

(** ** Forks and joins *)

Definition has_edges (m : AutomationMember) : bool :=
  nonempty (m_OnComplete m) || nonempty (m_OnBlocked m) || nonempty (m_OnFailed m).

(** The claims map comes back with the branches of [m] added. *)
Fixpoint branch_loop (m : AutomationMember) (byID : gmap string AutomationMember) (branches : list string)
    (seen : gset string) (claims : gmap string string) : res (gmap string string) :=
  match branches with
  | [] => Ok claims
  | b :: bs =>
      let named := [AStr (kind m); AStr (m_ID m)] in
      fail_if (bool_decide (b ∈ seen)) (Errorf "automation invalid: %s %s lists branch member %s more than once" (named ++ [AStr b])) ;;
      fail_if (bool_decide (byID !! b = None)) (Errorf "automation invalid: %s %s names unknown branch member %s" (named ++ [AStr b])) ;;
      let target := member_in byID b in
      fail_if (negb (is_kind MemberKindPRD target) && negb (is_kind MemberKindAutomation target))
        (Errorf "automation invalid: %s %s branch member %s is a %s member; branches must be prd or automation members"
           (named ++ [AStr b; AStr (kind target)])) ;;
      fail_if (has_edges target) (Errorf "automation invalid: branch member %s of %s %s must not carry outcome edges" (AStr b :: named)) ;;
      match claims !! b with
      | Some prev => Err (Errorf "automation invalid: branch member %s is already in %s %s" [AStr b; AStr (kind m); AStr prev])
      | None => branch_loop m byID bs ({[b]} ∪ seen) (<[b := m_ID m]> claims)
      end
  end.
Definition checkBranchSet (m : AutomationMember) (branches : list string) (byID : gmap string AutomationMember)
    (claims : gmap string string) : res (gmap string string) := branch_loop m byID branches ∅ claims.

Fixpoint claims_loop (byID : gmap string AutomationMember) (ms : list AutomationMember) (forkClaims joinClaims : gmap string string) : res unit :=
  match ms with
  | [] => Ok tt
  | m :: ms =>
      if is_kind MemberKindFork m then
        fail_if (length (m_ForkMembers m) <? 2)%nat (Errorf "automation invalid: fork %s needs at least 2 branch members" [AStr (m_ID m)]) ;;
        fail_if (has_edges m)
          (Errorf "automation invalid: fork %s must not carry outcome edges; its forward path is its paired join" [AStr (m_ID m)]) ;;
        forkClaims ← checkBranchSet m (m_ForkMembers m) byID forkClaims;
        claims_loop byID ms forkClaims joinClaims
      else if is_kind MemberKindJoin m then
        fail_if (length (m_JoinMembers m) <? 2)%nat (Errorf "automation invalid: join %s needs at least 2 branch members" [AStr (m_ID m)]) ;;
        fail_if (nonempty (m_OnBlocked m) || nonempty (m_OnFailed m))
          (Errorf "automation invalid: join %s may carry only on_complete; a join failure blocks the automation" [AStr (m_ID m)]) ;;
        joinClaims ← checkBranchSet m (m_JoinMembers m) byID joinClaims;
        claims_loop byID ms forkClaims joinClaims
      else claims_loop byID ms forkClaims joinClaims
  end.

Definition paired_joins (a : Automation) (f : AutomationMember) : list string :=
  m_ID <$> filter (λ j, is_kind MemberKindJoin j && sameMemberSet (m_JoinMembers j) (m_ForkMembers f) = true) (a_Members a).
Definition paired_forks (a : Automation) (j : AutomationMember) : list string :=
  m_ID <$> filter (λ f, is_kind MemberKindFork f && sameMemberSet (m_ForkMembers f) (m_JoinMembers j) = true) (a_Members a).

Definition validateForkJoinPairing (a : Automation) (byID : gmap string AutomationMember) : res unit :=
  claims_loop byID (a_Members a) ∅ ∅ ;;
  for_each (λ f,
    if is_kind MemberKindFork f then
      let joins := paired_joins a f in
      fail_if (negb (length joins =? 1)%nat)
        (Errorf "automation invalid: fork %s has %d paired joins %v; exactly one join must list its branch set"
           [AStr (m_ID f); AInt (Z.of_nat (length joins)); AList joins])
    else Ok tt) (a_Members a) ;;
  for_each (λ j,
    if is_kind MemberKindJoin j then
      let forks := paired_forks a j in
      fail_if (negb (length forks =? 1)%nat)
        (Errorf "automation invalid: join %s has %d paired forks %v; exactly one fork must list its branch set"
           [AStr (m_ID j); AInt (Z.of_nat (length forks)); AList forks])
    else Ok tt) (a_Members a).

(** ** The whole record *)

Definition automation_statuses : list string :=
  [AutomationDraft; AutomationActive; AutomationPaused; AutomationCompleted; AutomationBlocked; AutomationCancelled].

Definition check_graph (a : Automation) (byID : gmap string AutomationMember) : res unit :=
  if bool_decide (a_Members a = []) then Ok tt
  else
    validateForkJoinPairing a byID ;;
    match automationHasCycle a with
    | Some cycle => Err (Errorf "automation invalid: cycle detected via members [%s]" [AStr (Join cycle " ")])
    | None => Ok tt
    end ;;
    let unreachable := automationUnreachable a in
    fail_if (bool_decide (unreachable ≠ []) && negb (String.eqb (a_Status a) AutomationDraft))
      (Errorf "automation invalid: members unreachable from entry [%s]" [AStr (Join unreachable " ")]).

Definition with_context (c : string) (r : res unit) : res unit :=
  match r with Err e => Err (Errorf c [wrapped e]) | Ok _ => Ok tt end.

(** The Automation comes back with the peers of its policies trimmed. *)
Definition validateAutomation `{!TimeZones, !MapRange} (a : Automation) : res Automation :=
  fail_if (String.eqb (TrimSpace (a_Name a)) "") (Errorf "automation invalid: nil Automation or blank name" []) ;;
  fail_if (negb (one_of (a_Status a) automation_statuses)) (Errorf "automation invalid: unknown status %q" [AStr (a_Status a)]) ;;
  byID ← members_loop (a_ID a) (a_Members a) ∅ ∅;
  check_entry a byID ;;
  for_each (λ m, for_each (check_edge byID m) (map_range (edge_map m))) (a_Members a) ;;
  ms ← settings_loop (a_Members a);
  p ← validateBudgetPolicy (a_BudgetPolicy a);
  let a := set_a_BudgetPolicy p (set_a_Members ms a) in
  with_context "automation invalid: %w" (validateDecisionAssistant (a_DecisionAssistant a)) ;;
  with_context "automation invalid: %w" (validateAutoTagsOverride (a_AutoTags a)) ;;
  (if automationIsLinear a then Ok tt else cursors_loop byID ∅ (a_ActiveCursors a)) ;;
  check_graph a byID ;;
  Ok a.

(** ** Stage labels *)

Definition maxMemberStageLen : Z := 64.

Definition normalizeMemberStages (a : Automation) : Automation :=
  set_a_Members ((λ m, set_m_Stage (TrimSpace (m_Stage m)) m) <$> a_Members a) a.

Definition validateMemberStages (a : Automation) : res unit :=
  for_each (λ m,
    let stage := TrimSpace (m_Stage m) in
    fail_if (Contains stage ":") (Errorf "automation invalid: member %s stage %q must not contain ':'" [AStr (m_ID m); AStr stage]) ;;
    fail_if (ContainsAny stage [nl; cr]) (Errorf "automation invalid: member %s stage %q must not contain a newline" [AStr (m_ID m); AStr stage]) ;;
    fail_if (maxMemberStageLen <? rune_count stage)
      (Errorf "automation invalid: member %s stage must be at most %d characters, got %d"
         [AStr (m_ID m); AInt maxMemberStageLen; AInt (rune_count stage)])) (a_Members a).

(** ** Across Automations *)

(** [PRD], the fields the Automation code reads. *)
Record PRD := mkPRD {
  prd_ID : string;
  prd_Title : string;
  prd_Status : string;
  prd_IsTemplate : bool;
  prd_ParentPRDID : string;
  prd_AutomationID : string;
  prd_Branch : string
}.

Definition terminal_status (s : string) : bool := String.eqb s AutomationCompleted || String.eqb s AutomationCancelled.

Definition validateAutomationOwnership (a : Automation) (lookupPRD : string → option PRD) (ownerOf : string → string) : res unit :=
  if terminal_status (a_Status a) then Ok tt
  else for_each (λ m,
    if is_kind MemberKindPRD m then
      match lookupPRD (m_PRDID m) with
      | None => Err (Errorf "automation invalid: member prd %s not found" [AStr (m_PRDID m)])
      | Some prd =>
          fail_if (prd_IsTemplate prd) (Errorf "automation invalid: prd %s is a template and cannot be a member" [AStr (m_PRDID m)]) ;;
          fail_if (nonempty (prd_ParentPRDID prd))
            (Errorf "automation invalid: prd %s is a child automaton (run by its parent task) and cannot be a member" [AStr (m_PRDID m)]) ;;
          let owner := ownerOf (m_PRDID m) in
          fail_if (nonempty owner && negb (String.eqb owner (a_ID a)))
            (Errorf "automation invalid: prd %s already belongs to automation %s" [AStr (m_PRDID m); AStr owner])
      end
    else Ok tt) (a_Members a).

(** [walk] with the visited set, which its calls share. A path found ends it; the
    depth is at most one more than the number of Automations that can be looked
    up, since each call but the last visits a new one. *)
Fixpoint nested_children (walk : Automation → list string → gset string → option (gset string * option (list string)))
    (selfID : string) (lookup : string → option Automation) (path : list string)
    (ms : list AutomationMember) (seen : gset string) : option (gset string * option (list string)) :=
  match ms with
  | [] => Some (seen, None)
  | m :: ms =>
      if negb (is_kind MemberKindAutomation m) then nested_children walk selfID lookup path ms seen
      else if String.eqb (m_AutomationID m) selfID then Some (seen, Some (path ++ [selfID]))
      else match lookup (m_AutomationID m) with
           | None => nested_children walk selfID lookup path ms seen
           | Some next =>
               match walk next path seen with
               | Some (seen, None) => nested_children walk selfID lookup path ms seen
               | r => r
               end
           end
  end.

Fixpoint nested_walk (fuel : nat) (selfID : string) (lookup : string → option Automation)
    (cur : Automation) (path : list string) (seen : gset string) : option (gset string * option (list string)) :=
  match fuel with
  | O => None
  | S f =>
      let path := path ++ [a_ID cur] in
      if String.eqb (a_ID cur) selfID then Some (seen, Some path)
      else if bool_decide (a_ID cur ∈ seen) then Some (seen, None)
      else nested_children (nested_walk f selfID lookup) selfID lookup path (a_Members cur) ({[a_ID cur]} ∪ seen)
  end.

Definition nestedPathToSelf (fuel : nat) (selfID : string) (child : Automation) (lookup : string → option Automation) : option (list string) :=
  default None (snd <$> nested_walk fuel selfID lookup child [] ∅).

(** [fuel]: one more than the number of Automations. *)
Definition validateAutomationNesting (fuel : nat) (a : Automation) (lookupAutomation : string → option Automation)
    (ownerOfAutomation : string → string) : res unit :=
  if terminal_status (a_Status a) then Ok tt
  else for_each (λ m,
    if is_kind MemberKindAutomation m then
      match lookupAutomation (m_AutomationID m) with
      | None => Err (Errorf "automation invalid: member %s: child automation %s not found" [AStr (m_ID m); AStr (m_AutomationID m)])
      | Some child =>
          let owner := ownerOfAutomation (m_AutomationID m) in
          fail_if (nonempty owner && negb (String.eqb owner (a_ID a)))
            (Errorf "automation invalid: member %s: child automation %s already belongs to automation %s"
               [AStr (m_ID m); AStr (m_AutomationID m); AStr owner]) ;;
          match nestedPathToSelf fuel (a_ID a) child lookupAutomation with
          | Some p => Err (Errorf "automation invalid: member %s: nesting cycle via automations [%s]" [AStr (m_ID m); AStr (Join p " ")])
          | None => Ok tt
          end
      end
    else Ok tt) (a_Members a).
