(* ===== verification/AutomationWf.v ===== *)
(** * Automations: what a well-formed record is, and that the checks decide it

    [wf] says in terms of the members and their edges what [validateAutomation]
    promises: unique ids and PRDs, fields that fit the kind, edges that name
    members, forks paired with joins over the same branches, no cycle, and every
    member reachable once the Automation left draft. [validate_wf]: the checks
    accept exactly the well-formed records.

    Also: automations: the part of a record that running it never changes. *)

From S2P Require Import Prelude GoBase GoText Graph AutomationSettings Automation AutomationGraph AutomationValidate.

#[local] Open Scope Z_scope.

(** ** Small facts about the tests *)

Lemma one_of_true s l : one_of s l = true ↔ s ∈ l.
Proof.
  unfold one_of. rewrite existsb_exists. split.
  - intros (x & Hx & ->%String.eqb_eq). by apply list_elem_of_In.
  - intros H. exists s. split; [by apply list_elem_of_In|]. apply String.eqb_refl.
Qed.

Lemma one_of_false s l : one_of s l = false ↔ s ∉ l.
Proof. rewrite <- one_of_true. destruct (one_of s l); naive_solver. Qed.

Lemma is_kind_true k m : is_kind k m = true ↔ kind m = k.
Proof. unfold is_kind. apply String.eqb_eq. Qed.

Lemma is_kind_false k m : is_kind k m = false ↔ kind m ≠ k.
Proof. unfold is_kind. apply String.eqb_neq. Qed.

Lemma has_edges_false m : has_edges m = false ↔ m_OnComplete m = "" ∧ m_OnBlocked m = "" ∧ m_OnFailed m = "".
Proof. unfold has_edges. rewrite !orb_false_iff, !nonempty_false. tauto. Qed.

Lemma elem_of_outcome_edges m t :
  t ∈ outcome_edges m ↔ t ≠ "" ∧ (t = m_OnComplete m ∨ t = m_OnBlocked m ∨ t = m_OnFailed m).
Proof. unfold outcome_edges. rewrite list_elem_of_filter, nonempty_true. set_solver. Qed.

Lemma sameMemberSet_true x y : NoDup x → NoDup y → sameMemberSet x y = true ↔ x ≡ₚ y.
Proof.
  intros Hx Hy. unfold sameMemberSet. rewrite andb_true_iff, Nat.eqb_eq, forallb_forall. split.
  - intros [Hlen Hin]. apply submseteq_length_Permutation; [|lia]. apply NoDup_submseteq; [done|].
    intros v Hv. apply list_elem_of_In, Hin in Hv. bools. by apply elem_of_list_to_set in Hv.
  - intros Hp. split; [by rewrite Hp|]. intros v Hv%list_elem_of_In. apply bool_decide_eq_true_2, elem_of_list_to_set.
    by rewrite <- Hp.
Qed.

Lemma sameMemberSet_Permutation x y : NoDup x → sameMemberSet x y = true → x ≡ₚ y.
Proof.
  intros Hx. unfold sameMemberSet. rewrite andb_true_iff, Nat.eqb_eq, forallb_forall. intros [Hlen Hin].
  apply submseteq_length_Permutation; [|lia]. apply NoDup_submseteq; [done|].
  intros v Hv. apply list_elem_of_In, Hin in Hv. bools. by apply elem_of_list_to_set in Hv.
Qed.

(** ** Edges between members *)

Inductive member_edge (a : Automation) (u v : string) : Prop :=
| edge_outcome m : m ∈ a_Members a → m_ID m = u → v ∈ outcome_edges m → member_edge a u v
| edge_branch m : m ∈ a_Members a → m_ID m = u → kind m = MemberKindFork → v ∈ m_ForkMembers m → member_edge a u v
| edge_join m j : m ∈ a_Members a → m_ID m = u → j ∈ a_Members a → m_ID j = v → kind j = MemberKindJoin →
    u ∈ m_JoinMembers j → member_edge a u v.

(** What a member of a kind may carry. *)
Record kind_ok (aID : string) (m : AutomationMember) : Prop := {
  ko_kind : m_Kind m ∈ [""; MemberKindPRD; MemberKindAutomation; MemberKindFork; MemberKindJoin];
  ko_fork : m_ForkMembers m ≠ [] → kind m = MemberKindFork;
  ko_join : m_JoinMembers m ≠ [] ∨ m_OnBranchFailure m ≠ "" → kind m = MemberKindJoin;
  ko_nested : m_AutomationID m ≠ "" → kind m = MemberKindAutomation;
  ko_cost : flt (m_EstimatedCostUSD m) float_zero = false;
  ko_cost_prd : kind m ≠ MemberKindPRD → feq (m_EstimatedCostUSD m) float_zero = true;
  ko_prd : m_PRDID m ≠ "" → kind m = MemberKindPRD;
  ko_child : kind m = MemberKindAutomation → TrimSpace (m_AutomationID m) ≠ "" ∧ m_AutomationID m ≠ aID;
  ko_rule : kind m = MemberKindJoin →
    m_OnBranchFailure m ∈ [""; BranchAllMustSucceed; BranchAnyOneIsEnough; BranchContinueAnyway]
}.

(** The members and their edges. *)
Record wf_graph (a : Automation) : Prop := {
  wf_ids : NoDup (m_ID <$> a_Members a);
  wf_named m : m ∈ a_Members a → TrimSpace (m_ID m) ≠ "";
  wf_kind m : m ∈ a_Members a → kind_ok (a_ID a) m;
  wf_prdid m : m ∈ a_Members a → kind m = MemberKindPRD → TrimSpace (m_PRDID m) ≠ "";
  wf_prds : NoDup (m_PRDID <$> prdMembersOnly (a_Members a));
  wf_entry : if decide (a_Members a = []) then a_EntryMemberID a = ""
             else ∃ m, m ∈ a_Members a ∧ m_ID m = a_EntryMemberID a ∧ kind m ≠ MemberKindJoin;
  wf_edges m t : m ∈ a_Members a → t ∈ outcome_edges m →
    t ≠ m_ID m ∧ ∃ n, n ∈ a_Members a ∧ m_ID n = t ∧ kind n ≠ MemberKindJoin;
  wf_fork m : m ∈ a_Members a → kind m = MemberKindFork →
    (2 ≤ length (m_ForkMembers m))%nat ∧ NoDup (m_ForkMembers m) ∧ outcome_edges m = [];
  wf_join m : m ∈ a_Members a → kind m = MemberKindJoin →
    (2 ≤ length (m_JoinMembers m))%nat ∧ NoDup (m_JoinMembers m) ∧ m_OnBlocked m = "" ∧ m_OnFailed m = "";
  wf_branch m b : m ∈ a_Members a → b ∈ m_ForkMembers m ++ m_JoinMembers m →
    ∃ n, n ∈ a_Members a ∧ m_ID n = b ∧ (kind n = MemberKindPRD ∨ kind n = MemberKindAutomation) ∧ outcome_edges n = [];
  wf_fork_once f g b : f ∈ a_Members a → g ∈ a_Members a → b ∈ m_ForkMembers f → b ∈ m_ForkMembers g → f = g;
  wf_join_once i j b : i ∈ a_Members a → j ∈ a_Members a → b ∈ m_JoinMembers i → b ∈ m_JoinMembers j → i = j;
  wf_fork_paired f : f ∈ a_Members a → kind f = MemberKindFork →
    ∃ j, j ∈ a_Members a ∧ kind j = MemberKindJoin ∧ m_JoinMembers j ≡ₚ m_ForkMembers f;
  wf_join_paired j : j ∈ a_Members a → kind j = MemberKindJoin →
    ∃ f, f ∈ a_Members a ∧ kind f = MemberKindFork ∧ m_ForkMembers f ≡ₚ m_JoinMembers j
}.

Record wf `{!TimeZones, !MapRange} (a : Automation) : Prop := {
  wf_name : TrimSpace (a_Name a) ≠ "";
  wf_status : a_Status a ∈ automation_statuses;
  wf_members : wf_graph a;
  wf_settings : (∀ m, m ∈ a_Members a →
      is_ok (validateBudgetPolicy (m_BudgetPolicy m)) = true ∧ is_ok (validateDecisionAssistant (m_DecisionAssistant m)) = true)
    ∧ is_ok (validateBudgetPolicy (a_BudgetPolicy a)) = true
    ∧ is_ok (validateDecisionAssistant (a_DecisionAssistant a)) = true
    ∧ is_ok (validateAutoTagsOverride (a_AutoTags a)) = true;
  wf_cursors : automationIsLinear a = false →
    NoDup (a_ActiveCursors a) ∧ ∀ c, c ∈ a_ActiveCursors a → c ∈ m_ID <$> a_Members a;
  wf_acyclic x : rtc (member_edge a) (a_EntryMemberID a) x → ¬ tc (member_edge a) x x;
  wf_reachable m : a_Status a ≠ AutomationDraft → m ∈ a_Members a → rtc (member_edge a) (a_EntryMemberID a) (m_ID m)
}.

(** ** The successor map holds exactly the edges *)

Lemma insert_all_lookup (x : string) bs (acc : gmap string string) b :
  foldl (λ acc b, <[b := x]> acc) acc bs !! b = if bool_decide (b ∈ bs) then Some x else acc !! b.
Proof.
  revert acc. induction bs as [|c bs IH]; intros acc; simpl; [done|]. rewrite IH.
  case_bool_decide as H; [rewrite bool_decide_true by set_solver; done|].
  destruct (decide (b = c)) as [->|Hne].
  - rewrite bool_decide_true by set_solver. apply lookup_insert_eq.
  - rewrite bool_decide_false by set_solver. by apply lookup_insert_ne.
Qed.

Section successors.
Context (a : Automation).
Hypothesis ids : NoDup (m_ID <$> a_Members a).
Hypothesis once : ∀ i j b, i ∈ a_Members a → j ∈ a_Members a → b ∈ m_JoinMembers i → b ∈ m_JoinMembers j → i = j.

Lemma same_id m n : m ∈ a_Members a → n ∈ a_Members a → m_ID m = m_ID n → m = n.
Proof.
  intros Hm Hn He. apply list_elem_of_lookup in Hm as [i Hi]. apply list_elem_of_lookup in Hn as [j Hj].
  assert (i = j) as ->; [|congruence].
  eapply NoDup_lookup; [exact ids| |]; rewrite list_lookup_fmap; [by rewrite Hi|rewrite Hj; simpl; by rewrite He].
Qed.

Lemma pairedJoin_lookup b x :
  pairedJoin a !! b = Some x ↔ ∃ j, j ∈ a_Members a ∧ kind j = MemberKindJoin ∧ m_ID j = x ∧ b ∈ m_JoinMembers j.
Proof.
  unfold pairedJoin.
  set (step := λ (acc : gmap string string) m, if is_kind MemberKindJoin m then foldl (λ acc b, <[b := m_ID m]> acc) acc (m_JoinMembers m) else acc).
  assert (∀ ms (acc : gmap string string) y, foldl step acc ms !! b = Some y →
    acc !! b = Some y ∨ ∃ j, j ∈ ms ∧ kind j = MemberKindJoin ∧ m_ID j = y ∧ b ∈ m_JoinMembers j) as Hfrom.
  { induction ms as [|m ms IH]; intros acc y; simpl; [by left|]. intros [H|(j&Hj&?)]%IH; [|right; exists j; split; [by right|done]].
    unfold step in H. destruct (is_kind MemberKindJoin m) eqn:Hk; [|by left]. rewrite insert_all_lookup in H.
    case_bool_decide; [|by left]. simplify_eq. right. exists m. apply is_kind_true in Hk. split_and!; [left|done..]. }
  assert (∀ ms (acc : gmap string string), is_Some (acc !! b) ∨ (∃ j, j ∈ ms ∧ kind j = MemberKindJoin ∧ b ∈ m_JoinMembers j) →
    is_Some (foldl step acc ms !! b)) as Hto.
  { induction ms as [|m ms IH]; intros acc; simpl; [set_solver|]. intros H. apply IH. unfold step.
    destruct (is_kind MemberKindJoin m) eqn:Hk.
    - rewrite insert_all_lookup. case_bool_decide as Hb; [by left|]. destruct H as [?|(j&[->|Hj]%elem_of_cons&Hkj&Hbj)]; [by left|done|].
      right. eauto.
    - destruct H as [?|(j&[->|Hj]%elem_of_cons&Hkj&Hbj)]; [by left| |right; eauto]. apply is_kind_false in Hk. done. }
  split.
  - intros [H|?]%Hfrom; [by rewrite lookup_empty in H|done].
  - intros (j&Hj&Hk&<-&Hb). destruct (Hto (a_Members a) ∅) as [y Hy]; [right; eauto|]. rewrite Hy. f_equal.
    apply Hfrom in Hy as [H|(i&Hi&Hki&<-&Hbi)]; [by rewrite lookup_empty in H|]. by rewrite (once i j b).
Qed.

Lemma successors_lookup u :
  automationSuccessors a !! u = (next_of (pairedJoin a) <$> List.find (λ m, String.eqb (m_ID m) u) (a_Members a)).
Proof.
  unfold automationSuccessors. generalize (pairedJoin a) as p. intros p. revert ids. generalize (a_Members a) as ms. clear.
  assert (∀ ms (acc : gmap string (list string)), NoDup (m_ID <$> ms) →
    foldl (λ acc m, <[m_ID m := next_of p m]> acc) acc ms !! u =
    match List.find (λ m, String.eqb (m_ID m) u) ms with Some m => Some (next_of p m) | None => acc !! u end) as H.
  { induction ms as [|m ms IH]; intros acc Hnd; simpl; [done|]. apply NoDup_cons in Hnd as [Hni Hnd]. rewrite IH by done.
    destruct (String.eqb_spec (m_ID m) u) as [<-|Hne].
    - destruct (List.find _ ms) as [n|] eqn:Hf; [|apply lookup_insert_eq].
      apply List.find_some in Hf as [Hn%list_elem_of_In He%String.eqb_eq]. exfalso. apply Hni. rewrite <- He.
      by apply list_elem_of_fmap_2.
    - by rewrite lookup_insert_ne. }
  intros ms Hnd. rewrite H by done. destruct (List.find _ ms); [done|]. by rewrite lookup_empty.
Qed.

Lemma find_id m : m ∈ a_Members a → List.find (λ n, String.eqb (m_ID n) (m_ID m)) (a_Members a) = Some m.
Proof.
  intros Hm. destruct (List.find _ (a_Members a)) as [n|] eqn:Hf.
  - apply List.find_some in Hf as [Hn%list_elem_of_In He%String.eqb_eq]. f_equal. by apply same_id.
  - apply List.find_none with (x := m) in Hf; [|by apply list_elem_of_In]. by rewrite String.eqb_refl in Hf.
Qed.

Lemma leads_member_edge u v : leads (automationSuccessors a) u v ↔ member_edge a u v.
Proof.
  unfold leads, succs. rewrite successors_lookup. split.
  - destruct (List.find _ (a_Members a)) as [m|] eqn:Hf; simpl; [|set_solver].
    apply List.find_some in Hf as [Hm%list_elem_of_In He%String.eqb_eq]. unfold next_of.
    rewrite !elem_of_app. intros [Hv|[Hv|Hv]].
    + by eapply edge_outcome.
    + destruct (is_kind MemberKindFork m) eqn:Hk; [|set_solver]. apply is_kind_true in Hk. by eapply edge_branch.
    + destruct (pairedJoin a !! m_ID m) as [x|] eqn:Hp; [|set_solver]. apply list_elem_of_singleton in Hv as ->.
      apply pairedJoin_lookup in Hp as (j&Hj&Hkj&Hx&Hb). subst u. by apply (edge_join _ _ _ m j).
  - assert (∀ m, m ∈ a_Members a → m_ID m = u → v ∈ next_of (pairedJoin a) m →
      v ∈ default [] (next_of (pairedJoin a) <$> List.find (λ m0, String.eqb (m_ID m0) u) (a_Members a))) as H.
    { intros m Hm <- Hv. by rewrite find_id. }
    unfold next_of in H. intros [m Hm Hu Hv|m Hm Hu Hk Hv|m j Hm Hu Hj Hv Hk Hb]; apply (H m Hm Hu); rewrite !elem_of_app.
    + by left.
    + right. left. by rewrite (proj2 (is_kind_true _ _) Hk).
    + right. right. rewrite (proj2 (pairedJoin_lookup (m_ID m) v)); [by apply list_elem_of_singleton|]. subst u. eauto.
Qed.
End successors.

(** * Automations: the part of a record that running it never changes

    [static] forgets what the engine writes to a member while it runs (status,
    times, outcome, the edge taken) and the trimming of its policy. Everything
    that depends on the graph only reads what is left: two Automations with one
    [shape] have the same edges, the same cursor discipline, and are well formed
    together. *)

#[local] Open Scope Z_scope.

Definition static (m : AutomationMember) : AutomationMember :=
  set_m_Status "" (set_m_StartedAt None (set_m_FinishedAt None (set_m_Outcome "" (set_m_EdgeTaken ""
    (set_m_BudgetPolicy None (set_m_Stage "" m)))))).

Lemma static_m_ID m : m_ID (static m) = m_ID m. Proof. done. Qed.
Lemma static_m_kind m : kind (static m) = kind m. Proof. done. Qed.
Lemma static_is_kind k m : is_kind k (static m) = is_kind k m. Proof. done. Qed.
Lemma static_forks m : m_ForkMembers (static m) = m_ForkMembers m. Proof. done. Qed.
Lemma static_joins m : m_JoinMembers (static m) = m_JoinMembers m. Proof. done. Qed.
Lemma static_has_edges m : has_edges (static m) = has_edges m. Proof. done. Qed.
Lemma static_blocked m : m_OnBlocked (static m) = m_OnBlocked m. Proof. done. Qed.
Lemma static_failed m : m_OnFailed (static m) = m_OnFailed m. Proof. done. Qed.
Create Rewrite HintDb static.
#[export] Hint Rewrite static_m_ID static_m_kind static_is_kind static_forks static_joins static_has_edges static_blocked static_failed : static.

(** Name, entry member and static members. *)
Definition shape (a : Automation) : string * string * list AutomationMember :=
  (a_ID a, a_EntryMemberID a, static <$> a_Members a).

Lemma cons_both {A} (x y : A) l k : x :: l = y :: k → x = y ∧ l = k.
Proof. by intros [= -> ->]. Qed.

Lemma shape_members a b : shape a = shape b → static <$> a_Members a = static <$> a_Members b.
Proof. by intros [= _ _ H]. Qed.

(** A member of one is, up to what running changes, a member of the other. *)
Lemma shape_elem a b m : shape a = shape b → m ∈ a_Members b → ∃ n, n ∈ a_Members a ∧ static n = static m.
Proof.
  intros H%shape_members Hm. apply (list_elem_of_fmap_2 static) in Hm. rewrite <- H in Hm.
  apply list_elem_of_fmap in Hm as (n & He & Hn). eauto.
Qed.

Lemma static_ID m n : static m = static n → m_ID m = m_ID n.
Proof. intros H. exact (f_equal m_ID H). Qed.
Lemma static_kind m n : static m = static n → kind m = kind n.
Proof. intros H. exact (f_equal kind H). Qed.

(** [f] does not see what [static] forgets. *)
Lemma static_fmap {A} (f : AutomationMember → A) (ms : list AutomationMember) :
  (∀ m, f (static m) = f m) → f <$> ms = f <$> (static <$> ms).
Proof. intros H. rewrite <- list_fmap_compose. apply list_fmap_ext. intros i m _. by rewrite <- H. Qed.

Section same_shape.
Context {a b : Automation} (Hs : shape a = shape b).

Lemma shape_fmap {A} (f : AutomationMember → A) :
  (∀ m, f (static m) = f m) → f <$> a_Members a = f <$> a_Members b.
Proof. intros H. by rewrite (static_fmap f (a_Members a)), (static_fmap f (a_Members b)), (shape_members a b Hs). Qed.

Lemma shape_ids : m_ID <$> a_Members a = m_ID <$> a_Members b.
Proof. by apply shape_fmap. Qed.

Lemma shape_length : length (a_Members a) = length (a_Members b).
Proof. rewrite <- (length_fmap static), <- (length_fmap static (a_Members b)). by rewrite (shape_members a b Hs). Qed.

Lemma shape_entry : a_EntryMemberID a = a_EntryMemberID b.
Proof. by injection Hs. Qed.

Lemma shape_linear : automationIsLinear a = automationIsLinear b.
Proof.
  unfold automationIsLinear. generalize (shape_members a b Hs). generalize (a_Members a) (a_Members b).
  induction l as [|m l IH]; intros [|n l']; try done.
  rewrite !fmap_cons. intros [Hh%static_kind Ht]%cons_both. cbn [forallb]. by rewrite Hh, (IH _ Ht).
Qed.

Lemma shape_first (P : AutomationMember → bool) :
  (∀ m, P (static m) = P m) → first_member P a = first_member P b.
Proof.
  intros HP. unfold first_member. generalize (shape_members a b Hs). generalize (a_Members a) (a_Members b).
  assert (∀ l, list_find (λ m, P m = true) (static <$> l) = prod_map id static <$> list_find (λ m, P m = true) l) as H.
  { intros l. rewrite list_find_fmap. f_equal. induction l as [|m l IH]; simpl; [done|].
    rewrite HP. case_decide; [done|]. by rewrite IH. }
  intros l l' He. assert (fst <$> list_find (λ m, P m = true) (static <$> l) = fst <$> list_find (λ m, P m = true) (static <$> l')) as Hf
    by (by rewrite He).
  rewrite !H in Hf. rewrite <- !option_fmap_compose in Hf. exact Hf.
Qed.

Lemma shape_automationMember id : automationMember a id = automationMember b id.
Proof. unfold automationMember. destruct (String.eqb id ""); [done|]. by apply shape_first. Qed.

Lemma shape_joinOf id : joinOf a id = joinOf b id.
Proof. by apply shape_first. Qed.

Lemma shape_joinFor m n : static m = static n → joinFor a m = joinFor b n.
Proof.
  intros He. unfold joinFor. assert (m_ForkMembers m = m_ForkMembers n) as -> by exact (f_equal m_ForkMembers He).
  by apply shape_first.
Qed.

Lemma shape_successors : automationSuccessors a = automationSuccessors b.
Proof.
  assert (∀ (f : gmap string string → AutomationMember → gmap string string) acc l, (∀ acc m, f acc (static m) = f acc m) →
    foldl f acc l = foldl f acc (static <$> l)) as H1.
  { intros f acc l Hf. revert acc. induction l; intros acc; [done|]. rewrite fmap_cons. cbn [foldl]. by rewrite Hf. }
  assert (∀ (f : gmap string (list string) → AutomationMember → gmap string (list string)) acc l, (∀ acc m, f acc (static m) = f acc m) →
    foldl f acc l = foldl f acc (static <$> l)) as H2.
  { intros f acc l Hf. revert acc. induction l; intros acc; [done|]. rewrite fmap_cons. cbn [foldl]. by rewrite Hf. }
  assert (pairedJoin a = pairedJoin b) as Hp by (unfold pairedJoin; rewrite H1, (shape_members a b Hs), <- H1; done).
  unfold automationSuccessors. rewrite Hp. rewrite H2, (shape_members a b Hs), <- H2; done.
Qed.

Lemma shape_member_edge u v : member_edge a u v → member_edge b u v.
Proof.
  intros [m Hma Hu Hv|m Hma Hu Hk Hv|m j Hma Hu Hj Hv Hk Hb].
  - destruct (shape_elem b a m (eq_sym Hs) Hma) as (n&Hn&He). apply (edge_outcome b u v n Hn).
    + by rewrite (static_ID _ _ He).
    + by rewrite (f_equal outcome_edges He : outcome_edges n = outcome_edges m).
  - destruct (shape_elem b a m (eq_sym Hs) Hma) as (n&Hn&He). apply (edge_branch b u v n Hn).
    + by rewrite (static_ID _ _ He).
    + by rewrite (static_kind _ _ He).
    + by rewrite (f_equal m_ForkMembers He : m_ForkMembers n = m_ForkMembers m).
  - destruct (shape_elem b a m (eq_sym Hs) Hma) as (n&Hn&He). destruct (shape_elem b a j (eq_sym Hs) Hj) as (k&Hkk&He').
    apply (edge_join b u v n k Hn); [by rewrite (static_ID _ _ He)|done|by rewrite (static_ID _ _ He')|by rewrite (static_kind _ _ He')|].
    by rewrite (f_equal m_JoinMembers He' : m_JoinMembers k = m_JoinMembers j).
Qed.
End same_shape.

Lemma shape_edge_iff a b u v : shape a = shape b → member_edge a u v ↔ member_edge b u v.
Proof. intros H. split; by apply shape_member_edge. Qed.

(** What a member of a kind may carry is static. *)
Lemma kind_ok_static aID m n : static m = static n → kind_ok aID m → kind_ok aID n.
Proof.
  intros He. assert (∀ m, kind_ok aID (static m) ↔ kind_ok aID m) as H.
  { intros k. split; intros []; by split. }
  rewrite <- (H m), <- (H n), He. done.
Qed.

(** ** Well-formed graphs *)

(** Bring a member of [b] over to [a]. *)
Ltac over Hs Hm n Hn He :=
  let H := fresh in
  pose proof (shape_elem _ _ _ Hs Hm) as H; destruct H as (n & Hn & He).

Lemma wf_graph_shape a b : shape a = shape b → wf_graph a → wf_graph b.
Proof.
  intros Hs [H1 H2 H3 H4 H5 H6 H7 H8 H9 H10 H11 H12 H13 H14]. pose proof (eq_sym Hs) as Hs'.
  assert (NoDup (m_ID <$> a_Members b)) as Hids by (by rewrite <- (shape_ids Hs)).
  split; [done|..].
  - intros m Hm. over Hs Hm n Hn He. rewrite <- (static_ID _ _ He). by apply H2.
  - intros m Hm. over Hs Hm n Hn He. assert (a_ID b = a_ID a) as -> by (by injection Hs). by apply (kind_ok_static _ n), H3.
  - intros m Hm. over Hs Hm n Hn He. rewrite <- (static_kind _ _ He). rewrite <- (f_equal m_PRDID He : m_PRDID n = m_PRDID m). by apply H4.
  - assert (∀ l, m_PRDID <$> prdMembersOnly l = m_PRDID <$> prdMembersOnly (static <$> l)) as Hp.
    { induction l as [|m l IH]; [done|]. unfold prdMembersOnly in *. rewrite fmap_cons. destruct (is_kind MemberKindPRD m) eqn:Hk.
      - rewrite !filter_cons_True by done. rewrite !fmap_cons. by f_equal.
      - rewrite !filter_cons_False by (change (is_kind MemberKindPRD m ≠ true); by rewrite Hk). done. }
    by rewrite Hp, <- (shape_members a b Hs), <- Hp.
  - rewrite <- (shape_entry Hs). pose proof (shape_length Hs) as Hl.
    destruct (decide (a_Members a = [])) as [E|E], (decide (a_Members b = [])) as [E'|E']; try done.
    + rewrite E in Hl. by destruct (a_Members b).
    + rewrite E' in Hl. by destruct (a_Members a).
    + destruct H6 as (m&Hm&He&Hk). over Hs' Hm n Hn Hst. exists n.
      by rewrite (static_ID _ _ Hst), (static_kind _ _ Hst).
  - intros m t Hm Ht. over Hs Hm n Hn He. rewrite <- (static_ID _ _ He).
    rewrite <- (f_equal outcome_edges He : outcome_edges n = outcome_edges m) in Ht.
    destruct (H7 n t Hn Ht) as (?&k&Hk&Hkt&Hkk). split; [done|]. over Hs' Hk k' Hk' He'. exists k'.
    by rewrite (static_ID _ _ He'), (static_kind _ _ He').
  - intros m Hm. over Hs Hm n Hn He. rewrite <- (static_kind _ _ He).
    rewrite <- (f_equal m_ForkMembers He : m_ForkMembers n = m_ForkMembers m).
    rewrite <- (f_equal outcome_edges He : outcome_edges n = outcome_edges m). by apply H8.
  - intros m Hm. over Hs Hm n Hn He. rewrite <- (static_kind _ _ He).
    rewrite <- (f_equal m_JoinMembers He : m_JoinMembers n = m_JoinMembers m).
    rewrite <- (f_equal m_OnBlocked He : m_OnBlocked n = m_OnBlocked m), <- (f_equal m_OnFailed He : m_OnFailed n = m_OnFailed m). by apply H9.
  - intros m c Hm Hc. over Hs Hm n Hn He.
    rewrite <- (f_equal m_JoinMembers He : m_JoinMembers n = m_JoinMembers m),
      <- (f_equal m_ForkMembers He : m_ForkMembers n = m_ForkMembers m) in Hc.
    destruct (H10 n c Hn Hc) as (k&Hk&Hkc&Hkk&Hko). over Hs' Hk k' Hk' He'. exists k'.
    by rewrite (static_ID _ _ He'), (static_kind _ _ He'), (f_equal outcome_edges He' : outcome_edges k' = outcome_edges k).
  - intros f g c Hf Hg Hcf Hcg. over Hs Hf f' Hf' Hef. over Hs Hg g' Hg' Heg. apply (same_id b Hids); [done..|].
    rewrite <- (static_ID _ _ Hef), <- (static_ID _ _ Heg). f_equal.
    apply (H11 f' g' c); [done..|by rewrite (f_equal m_ForkMembers Hef : m_ForkMembers f' = m_ForkMembers f)|
      by rewrite (f_equal m_ForkMembers Heg : m_ForkMembers g' = m_ForkMembers g)].
  - intros f g c Hf Hg Hcf Hcg. over Hs Hf f' Hf' Hef. over Hs Hg g' Hg' Heg. apply (same_id b Hids); [done..|].
    rewrite <- (static_ID _ _ Hef), <- (static_ID _ _ Heg). f_equal.
    apply (H12 f' g' c); [done..|by rewrite (f_equal m_JoinMembers Hef : m_JoinMembers f' = m_JoinMembers f)|
      by rewrite (f_equal m_JoinMembers Heg : m_JoinMembers g' = m_JoinMembers g)].
  - intros f Hf Hk. over Hs Hf f' Hf' He. rewrite <- (static_kind _ _ He) in Hk. destruct (H13 f' Hf' Hk) as (j&Hj&Hkj&Hp).
    over Hs' Hj j' Hj' He'. exists j'. rewrite (static_kind _ _ He').
    rewrite (f_equal m_JoinMembers He' : m_JoinMembers j' = m_JoinMembers j),
      <- (f_equal m_ForkMembers He : m_ForkMembers f' = m_ForkMembers f). done.
  - intros f Hf Hk. over Hs Hf f' Hf' He. rewrite <- (static_kind _ _ He) in Hk. destruct (H14 f' Hf' Hk) as (j&Hj&Hkj&Hp).
    over Hs' Hj j' Hj' He'. exists j'. rewrite (static_kind _ _ He').
    rewrite (f_equal m_ForkMembers He' : m_ForkMembers j' = m_ForkMembers j),
      <- (f_equal m_JoinMembers He : m_JoinMembers f' = m_JoinMembers f). done.
Qed.
