(* ===== verification/AutomationAccept.v ===== *)
(** * Automations: the checks accept exactly the well-formed records

    Each loop of [validateAutomation] is characterised by what it accepts; put
    together they accept [wf] and nothing else ([validate_wf]). *)

From S2P Require Import Prelude GoBase GoText Graph AutomationSettings.
From S2P Require Import Automation AutomationGraph AutomationValidate AutomationWf.

#[local] Open Scope Z_scope.

(** ** One member *)

Lemma TrimSpace_empty : TrimSpace "" = "".
Proof. reflexivity. Qed.

Lemma TrimSpace_ne s : TrimSpace s ≠ "" → s ≠ "".
Proof. by intros H ->. Qed.

Lemma when_Ok (b : bool) (c : res unit) : (if b then c else Ok tt) = Ok tt ↔ (b = true → c = Ok tt).
Proof. destruct b; naive_solver. Qed.

Lemma not_false b (P : Prop) : (b = false ↔ ¬ P) → b = true ↔ ¬ ¬ P.
Proof. destruct b; naive_solver. Qed.

(** "Only on this kind": the guard lets a member pass exactly if the field is
    unset or the kind is right. *)
Lemma only_on k m (set : bool) (P : Prop) :
  (set = true ↔ P) → negb (String.eqb (kind m) k) && set = false ↔ (P → kind m = k).
Proof.
  intros H. destruct (String.eqb_spec (kind m) k); destruct set; simpl; naive_solver.
Qed.

Lemma not_eqb s t : String.eqb s t = false ↔ s ≠ t.
Proof. apply String.eqb_neq. Qed.

Lemma member_kind_ok aID m : validateMemberKind aID m = Ok tt ↔ kind_ok aID m.
Proof.
  unfold validateMemberKind. rewrite !check_Ok, unit_Ok, !when_Ok.
  rewrite negb_false_iff, one_of_true.
  rewrite (only_on MemberKindFork m _ (m_ForkMembers m ≠ [])) by apply bool_decide_eq_true.
  rewrite (only_on MemberKindJoin m _ (m_JoinMembers m ≠ [] ∨ m_OnBranchFailure m ≠ ""))
    by (rewrite orb_true_iff, bool_decide_eq_true, nonempty_true; done).
  rewrite (only_on MemberKindAutomation m (nonempty (m_AutomationID m)) (m_AutomationID m ≠ "")) by apply nonempty_true.
  rewrite (only_on MemberKindPRD m (nonempty (m_PRDID m)) (m_PRDID m ≠ "")) by apply nonempty_true.
  rewrite !String.eqb_eq, check_Ok, !fail_if_Ok, negb_false_iff, one_of_true, !not_eqb.
  assert (negb (String.eqb (kind m) MemberKindPRD) && negb (feq (m_EstimatedCostUSD m) float_zero) = false
    ↔ (kind m ≠ MemberKindPRD → feq (m_EstimatedCostUSD m) float_zero = true)) as ->.
  { destruct (String.eqb_spec (kind m) MemberKindPRD); destruct (feq _ _); simpl; naive_solver. }
  split.
  - intros (?&?&?&?&?&?&?&?&?). by split.
  - intros []. by split_and!.
Qed.

Lemma forall_cons {A} (P : A → Prop) x l : (∀ y, y ∈ x :: l → P y) ↔ P x ∧ ∀ y, y ∈ l → P y.
Proof.
  split.
  - intros H. split; [apply H; left|intros y Hy; apply H; by right].
  - intros [Hx Hl] y [->|Hy]%elem_of_cons; auto.
Qed.

(** ** The members by id *)

Definition index_members (ms : list AutomationMember) (m : gmap string AutomationMember) : gmap string AutomationMember :=
  foldl (λ acc m, <[m_ID m := m]> acc) m ms.

Lemma index_lookup ms (acc : gmap string AutomationMember) id m :
  NoDup (m_ID <$> ms) → (∀ n, n ∈ ms → acc !! m_ID n = None) →
  index_members ms acc !! id = Some m ↔ (m ∈ ms ∧ m_ID m = id) ∨ acc !! id = Some m.
Proof.
  revert acc. induction ms as [|n ms IH]; intros acc Hnd Hacc; [set_solver|].
  apply NoDup_cons in Hnd as [Hni Hnd]. change (index_members (n :: ms) acc) with (index_members ms (<[m_ID n := n]> acc)).
  rewrite IH; [|done|].
  - destruct (decide (id = m_ID n)) as [->|Hne].
    + rewrite lookup_insert_eq. split.
      * intros [[Hm He]|?]; [left; split; [by right|done]|]. simplify_eq. left. split; [left|done].
      * intros [[[->|Hm]%elem_of_cons He]|H]; [by right|by left|]. rewrite Hacc in H; [done|left].
    + rewrite lookup_insert_ne by done. set_solver.
  - intros k Hk. rewrite lookup_insert_ne; [apply Hacc; by right|]. intros He. apply Hni. rewrite He. by apply list_elem_of_fmap_2.
Qed.

Definition member_alone (aID : string) (m : AutomationMember) : Prop :=
  TrimSpace (m_ID m) ≠ "" ∧ kind_ok aID m ∧ (kind m = MemberKindPRD → TrimSpace (m_PRDID m) ≠ "").

Lemma members_loop_Ok aID ms byID prds byID' :
  members_loop aID ms byID prds = Ok byID' ↔
  (∀ m, m ∈ ms → member_alone aID m ∧ byID !! m_ID m = None) ∧ NoDup (m_ID <$> ms)
  ∧ (∀ m, m ∈ ms → kind m = MemberKindPRD → m_PRDID m ∉ prds) ∧ NoDup (m_PRDID <$> prdMembersOnly ms)
  ∧ byID' = index_members ms byID.
Proof.
  revert byID prds. induction ms as [|m ms IH]; intros byID prds.
  { simpl. unfold prdMembersOnly, filter. simpl. split; [intros [= <-]; repeat split; try constructor; set_solver|naive_solver]. }
  cbn [members_loop index_members foldl]. rewrite check_Ok, unit_Ok, !check_Ok, member_kind_ok, not_eqb.
  assert (is_kind MemberKindPRD m && String.eqb (TrimSpace (m_PRDID m)) "" = false ↔
    (kind m = MemberKindPRD → TrimSpace (m_PRDID m) ≠ "")) as ->.
  { rewrite <- (is_kind_true _ m). destruct (is_kind MemberKindPRD m); destruct (String.eqb_spec (TrimSpace (m_PRDID m)) ""); naive_solver. }
  rewrite bool_decide_eq_false, <- eq_None_not_Some.
  fold (index_members ms (<[m_ID m := m]> byID)). unfold prdMembersOnly. rewrite filter_cons, !fmap_cons, NoDup_cons.
  assert (∀ X : gset string, (∀ n, n ∈ ms → member_alone aID n ∧ <[m_ID m := m]> byID !! m_ID n = None) ↔
    (∀ n, n ∈ ms → member_alone aID n ∧ byID !! m_ID n = None) ∧ m_ID m ∉ m_ID <$> ms) as Hfresh.
  { intros _. rewrite list_elem_of_fmap. split.
    - intros H. split.
      + intros n Hn. destruct (H n Hn) as [Ha [? ?]%lookup_insert_None]. done.
      + intros (n&He&Hn). destruct (H n Hn) as [_ [? ?]%lookup_insert_None]. congruence.
    - intros [H Hni] n Hn. destruct (H n Hn) as [Ha Hb]. split; [done|]. apply lookup_insert_None. split; [done|].
      intros He. apply Hni. eauto. }
  rewrite (forall_cons (λ n, member_alone aID n ∧ byID !! m_ID n = None)).
  rewrite (forall_cons (λ n, kind n = MemberKindPRD → m_PRDID n ∉ prds)).
  assert (member_alone aID m ↔ TrimSpace (m_ID m) ≠ "" ∧ kind_ok aID m ∧ (kind m = MemberKindPRD → TrimSpace (m_PRDID m) ≠ "")) as Hm by done.
  case_decide as Hk; [rewrite Hk|].
  - rewrite check_Ok, bool_decide_eq_false, IH, (Hfresh ∅), fmap_cons, NoDup_cons. apply is_kind_true in Hk.
    fold (prdMembersOnly ms).
    assert ((m_PRDID m ∉ m_PRDID <$> prdMembersOnly ms) ∧ (∀ n, n ∈ ms → kind n = MemberKindPRD → m_PRDID n ∉ prds) ↔
       (∀ n, n ∈ ms → kind n = MemberKindPRD → m_PRDID n ∉ {[m_PRDID m]} ∪ prds)) as Hp.
    { rewrite list_elem_of_fmap. unfold prdMembersOnly. setoid_rewrite list_elem_of_filter. setoid_rewrite is_kind_true.
      setoid_rewrite not_elem_of_union. setoid_rewrite not_elem_of_singleton. split.
      - intros [Hni H] n Hn Hkn. split; [|by apply H]. intros He. apply Hni. by exists n.
      - intros H. split; [intros (n&He&Hkn&Hn)|intros n Hn Hkn]; by destruct (H n Hn Hkn). }
    rewrite <- Hp. tauto.
  - rewrite (not_true_is_false _ Hk), IH, (Hfresh ∅). apply not_true_is_false, is_kind_false in Hk.
    fold (prdMembersOnly ms). tauto.
Qed.

(** ** Checks that look members up *)

Section lookups.
Context (a : Automation) (byID : gmap string AutomationMember).
Hypothesis by_id : ∀ id m, byID !! id = Some m ↔ m ∈ a_Members a ∧ m_ID m = id.

Lemma by_id_known id : byID !! id ≠ None ↔ id ∈ m_ID <$> a_Members a.
Proof.
  rewrite not_eq_None_Some. unfold is_Some. setoid_rewrite by_id. rewrite list_elem_of_fmap. naive_solver.
Qed.

(** "A member with this id passes the test." *)
Lemma member_in_iff (P : AutomationMember → Prop) id :
  byID !! id ≠ None ∧ P (member_in byID id) ↔ ∃ n, n ∈ a_Members a ∧ m_ID n = id ∧ P n ∧ byID !! id = Some n.
Proof.
  unfold member_in. split.
  - intros [Hs HP]. destruct (byID !! id) as [n|] eqn:E; [|done]. exists n. by apply by_id in E as [??].
  - intros (n&?&?&?&->). done.
Qed.

Lemma member_found (P : AutomationMember → Prop) id :
  NoDup (m_ID <$> a_Members a) →
  byID !! id ≠ None ∧ P (member_in byID id) ↔ ∃ n, n ∈ a_Members a ∧ m_ID n = id ∧ P n.
Proof.
  intros Hnd. rewrite member_in_iff. split; [naive_solver|]. intros (n&?&?&?). exists n. split_and!; [done..|]. by apply by_id.
Qed.

Lemma bool_decide_not_None {A} (o : option A) `{!Decision (o = None)} : bool_decide (o = None) = false ↔ o ≠ None.
Proof. apply bool_decide_eq_false. Qed.

Lemma cursors_Ok seen cs :
  cursors_loop byID seen cs = Ok tt ↔ NoDup cs ∧ ∀ c, c ∈ cs → c ∈ m_ID <$> a_Members a ∧ c ∉ seen.
Proof.
  revert seen. induction cs as [|c cs IH]; intros seen; cbn [cursors_loop].
  { split; [intros _; split; [constructor|set_solver]|done]. }
  rewrite !check_Ok, bool_decide_not_None, bool_decide_eq_false, IH, NoDup_cons.
  rewrite (forall_cons (λ c, c ∈ m_ID <$> a_Members a ∧ c ∉ seen)).
  rewrite by_id_known. setoid_rewrite not_elem_of_union. setoid_rewrite not_elem_of_singleton.
  split.
  - intros (Hc&Hs&Hnd&Hall). split; [split; [|done]|split; [by split|]].
    + intros Hin. destruct (Hall c Hin) as (_&Hne&_). by apply Hne.
    + intros d Hd. by destruct (Hall d Hd) as (?&_&?).
  - intros ((Hni&Hnd)&(Hc&Hs)&Hall). split; [done|split; [done|split; [done|]]]. intros d Hd. destruct (Hall d Hd).
    split; [done|split; [|done]]. intros ->. done.
Qed.
Hypothesis ids : NoDup (m_ID <$> a_Members a).
Hypothesis named : ∀ m, m ∈ a_Members a → m_ID m ≠ "".

Lemma check_entry_Ok :
  check_entry a byID = Ok tt ↔
  if decide (a_Members a = []) then a_EntryMemberID a = ""
  else ∃ m, m ∈ a_Members a ∧ m_ID m = a_EntryMemberID a ∧ kind m ≠ MemberKindJoin.
Proof.
  unfold check_entry. rewrite check_Ok, when_Ok, nonempty_true, check_Ok, bool_decide_not_None, fail_if_Ok, is_kind_false.
  rewrite (member_found (λ n, kind n ≠ MemberKindJoin)) by done.
  destruct (decide (a_Members a = [])) as [E|E].
  - rewrite bool_decide_false by tauto. simpl. rewrite E. split.
    + intros [_ He]. destruct (decide (a_EntryMemberID a = "")) as [|Hne]; [done|]. destruct (He Hne) as (m&Hm&_). set_solver.
    + naive_solver.
  - rewrite bool_decide_true by done. simpl. rewrite not_eqb. split; [naive_solver|].
    intros (m&Hm&He&Hk). split; [rewrite <- He; by apply named|naive_solver].
Qed.

Lemma edge_map_targets `{!MapRange} m t :
  (∃ n, (n, t) ∈ map_range (edge_map m)) ↔ t = m_OnComplete m ∨ t = m_OnBlocked m ∨ t = m_OnFailed m.
Proof.
  setoid_rewrite elem_of_map_range. unfold edge_map. simpl. split.
  - intros [n Hn]. rewrite !lookup_insert_Some, lookup_empty in Hn. naive_solver.
  - intros [->|[->| ->]]; [exists edgeOnComplete|exists edgeOnBlocked|exists edgeOnFailed]; reflexivity.
Qed.

Lemma edges_Ok `{!MapRange} m :
  for_each (check_edge byID m) (map_range (edge_map m)) = Ok tt ↔
  ∀ t, t ∈ outcome_edges m → t ≠ m_ID m ∧ ∃ n, n ∈ a_Members a ∧ m_ID n = t ∧ kind n ≠ MemberKindJoin.
Proof.
  rewrite for_each_Ok. setoid_rewrite elem_of_outcome_edges. unfold check_edge.
  assert (∀ nt : string * string, (if String.eqb nt.2 "" then Ok tt else
      fail_if (String.eqb nt.2 (m_ID m)) (Errorf "automation invalid: member %s %s edge points to itself" [AStr (m_ID m); AStr nt.1]) ;;
      fail_if (bool_decide (byID !! nt.2 = None))
        (Errorf "automation invalid: member %s %s edge names unknown member %s" [AStr (m_ID m); AStr nt.1; AStr nt.2]) ;;
      fail_if (is_kind MemberKindJoin (member_in byID nt.2))
        (Errorf "automation invalid: member %s %s edge names join %s; a join is reached only through its fork" [AStr (m_ID m); AStr nt.1; AStr nt.2]))
      = Ok tt ↔ (nt.2 ≠ "" → nt.2 ≠ m_ID m ∧ ∃ n, n ∈ a_Members a ∧ m_ID n = nt.2 ∧ kind n ≠ MemberKindJoin)) as Hone.
  { intros [x t]. cbn [fst snd]. destruct (String.eqb_spec t ""); [naive_solver|].
    rewrite !check_Ok, fail_if_Ok, not_eqb, bool_decide_not_None, is_kind_false.
    rewrite (member_found (λ n, kind n ≠ MemberKindJoin)) by done. naive_solver. }
  setoid_rewrite Hone. setoid_rewrite <- (edge_map_targets m). split.
  - intros Hall t [Ht [n Hn]]. exact (Hall _ Hn Ht).
  - intros Hall [n t] Hn Ht. apply Hall. split; [done|]. by exists n.
Qed.

End lookups.

(** ** Forks and joins *)

(** Every two entries, in order, are related. *)
Fixpoint pairwise {A} (R : A → A → Prop) (l : list A) : Prop :=
  match l with
  | [] => True
  | x :: l => (∀ y, y ∈ l → R x y) ∧ pairwise R l
  end.

Lemma pairwise_iff {A} (R : A → A → Prop) l :
  NoDup l → (∀ x y, R x y → R y x) → pairwise R l ↔ ∀ x y, x ∈ l → y ∈ l → x ≠ y → R x y.
Proof.
  intros Hnd Hsym. induction l as [|x l IH]; simpl; [set_solver|]. apply NoDup_cons in Hnd as [Hni Hnd].
  rewrite IH by done. split.
  - intros [Hx Hl] y z [->|Hy]%elem_of_cons [->|Hz]%elem_of_cons Hne; auto. done.
  - intros H. split; [|intros y z Hy Hz; apply H; by right]. intros y Hy. apply H; [left|by right|]. intros ->. done.
Qed.

Lemma has_edges_outcome m : has_edges m = false ↔ outcome_edges m = [].
Proof.
  rewrite has_edges_false. split.
  - intros (H1&H2&H3). unfold outcome_edges. by rewrite H1, H2, H3.
  - intros H. assert (∀ t, t = m_OnComplete m ∨ t = m_OnBlocked m ∨ t = m_OnFailed m → t = "") as Ht.
    { intros t Ht. destruct (decide (t = "")); [done|]. assert (t ∈ outcome_edges m) as Hin by (by apply elem_of_outcome_edges).
      rewrite H in Hin. by apply elem_of_nil in Hin. }
    split_and!; apply Ht; tauto.
Qed.

Section pairing.
Context (a : Automation) (byID : gmap string AutomationMember).
Hypothesis by_id : ∀ id m, byID !! id = Some m ↔ m ∈ a_Members a ∧ m_ID m = id.
Hypothesis ids : NoDup (m_ID <$> a_Members a).

Definition may_branch (b : string) : Prop :=
  ∃ n, n ∈ a_Members a ∧ m_ID n = b ∧ (kind n = MemberKindPRD ∨ kind n = MemberKindAutomation) ∧ outcome_edges n = [].

Lemma branch_loop_Ok m bs seen claims c :
  branch_loop m byID bs seen claims = Ok c ↔
  NoDup bs ∧ (∀ b, b ∈ bs → b ∉ seen ∧ may_branch b ∧ claims !! b = None)
  ∧ c = foldl (λ acc b, <[b := m_ID m]> acc) claims bs.
Proof.
  revert seen claims. induction bs as [|b bs IH]; intros seen claims; cbn [branch_loop].
  { split; [intros [= <-]; split_and!; [constructor|set_solver|done]|naive_solver]. }
  rewrite !check_Ok, bool_decide_not_None, bool_decide_eq_false, NoDup_cons.
  rewrite (forall_cons (λ b, b ∉ seen ∧ may_branch b ∧ claims !! b = None)). cbn [foldl].
  assert (byID !! b ≠ None ∧ negb (is_kind MemberKindPRD (member_in byID b)) && negb (is_kind MemberKindAutomation (member_in byID b)) = false
    ∧ has_edges (member_in byID b) = false ↔ may_branch b) as Hb.
  { unfold may_branch. rewrite <- (member_found a byID by_id (λ n, (kind n = MemberKindPRD ∨ kind n = MemberKindAutomation) ∧ outcome_edges n = [])) by done.
    rewrite has_edges_outcome, andb_false_iff, !negb_false_iff, !is_kind_true. done. }
  destruct (claims !! b) as [prev|] eqn:Hc.
  - split; [naive_solver|]. intros (_&((_&_&?)&_)&_). done.
  - rewrite IH. setoid_rewrite not_elem_of_union. setoid_rewrite not_elem_of_singleton. split.
    + intros (Hs&H1&H2&H3&Hnd&Hall&->). split_and!; try done; [|by apply Hb|].
      * intros Hin. destruct (Hall b Hin) as ((Hne&_)&_). by apply Hne.
      * intros d Hd. destruct (Hall d Hd) as ((Hne&?)&?&Hl). rewrite lookup_insert_ne in Hl by done. done.
    + intros ((Hni&Hnd)&((Hs&Hm&_)&Hall)&->). apply Hb in Hm as (?&?&?). do 4 (split; [done|]). split; [done|]. split; [|done].
      intros d Hd. destruct (Hall d Hd) as (?&?&?). assert (d ≠ b) by (by intros ->).
      split; [done|]. split; [done|]. by rewrite lookup_insert_ne.
Qed.

Definition branches_ok (bs : list string) : Prop := NoDup bs ∧ ∀ b, b ∈ bs → may_branch b.

Lemma checkBranchSet_Ok m bs claims c :
  checkBranchSet m bs byID claims = Ok c ↔
  branches_ok bs ∧ (∀ b, b ∈ bs → claims !! b = None) ∧ c = foldl (λ acc b, <[b := m_ID m]> acc) claims bs.
Proof.
  unfold checkBranchSet, branches_ok. rewrite branch_loop_Ok. split.
  - intros (?&H&->). split_and!; [done|..|done]; intros b Hb; by destruct (H b Hb) as (?&?&?).
  - intros ((?&H)&H'&->). split_and!; [done|..|done]. intros b Hb. split_and!; [set_solver|auto..].
Qed.

Definition claim_ok (m : AutomationMember) : Prop :=
  (kind m = MemberKindFork → (2 ≤ length (m_ForkMembers m))%nat ∧ outcome_edges m = [] ∧ branches_ok (m_ForkMembers m))
  ∧ (kind m = MemberKindJoin →
     (2 ≤ length (m_JoinMembers m))%nat ∧ m_OnBlocked m = "" ∧ m_OnFailed m = "" ∧ branches_ok (m_JoinMembers m)).

Definition forks_apart (m n : AutomationMember) : Prop :=
  kind m = MemberKindFork → kind n = MemberKindFork → ∀ b, b ∈ m_ForkMembers m → b ∉ m_ForkMembers n.
Definition joins_apart (m n : AutomationMember) : Prop :=
  kind m = MemberKindJoin → kind n = MemberKindJoin → ∀ b, b ∈ m_JoinMembers m → b ∉ m_JoinMembers n.

Lemma claims_after (x : string) (bs : list string) (claims : gmap string string) (bs' : list string) :
  (∀ b, b ∈ bs' → foldl (λ acc b, <[b := x]> acc) claims bs !! b = None) ↔
  (∀ b, b ∈ bs' → claims !! b = None) ∧ ∀ b, b ∈ bs → b ∉ bs'.
Proof.
  split.
  - intros H. split.
    + intros b Hb. specialize (H b Hb). rewrite insert_all_lookup in H. by case_bool_decide.
    + intros b Hb Hb'. specialize (H b Hb'). rewrite insert_all_lookup in H. by case_bool_decide.
  - intros [H1 H2] b Hb. rewrite insert_all_lookup. case_bool_decide as Hd; [by destruct (H2 b Hd)|auto].
Qed.

Lemma two_or_more {A} (l : list A) : (length l <? 2)%nat = false ↔ (2 ≤ length l)%nat.
Proof. rewrite Nat.ltb_ge. done. Qed.

Lemma claims_loop_Ok ms fc jc :
  claims_loop byID ms fc jc = Ok tt ↔
  (∀ m, m ∈ ms → claim_ok m
     ∧ (kind m = MemberKindFork → ∀ b, b ∈ m_ForkMembers m → fc !! b = None)
     ∧ (kind m = MemberKindJoin → ∀ b, b ∈ m_JoinMembers m → jc !! b = None))
  ∧ pairwise forks_apart ms ∧ pairwise joins_apart ms.
Proof.
  revert fc jc. induction ms as [|m ms IH]; intros fc jc; cbn [claims_loop pairwise].
  { split; [set_solver|done]. }
  rewrite (forall_cons (λ m, claim_ok m ∧ (kind m = MemberKindFork → ∀ b, b ∈ m_ForkMembers m → fc !! b = None)
     ∧ (kind m = MemberKindJoin → ∀ b, b ∈ m_JoinMembers m → jc !! b = None))).
  unfold forks_apart at 1, joins_apart at 1. unfold claim_ok at 1.
  destruct (is_kind MemberKindFork m) eqn:Hf; [|destruct (is_kind MemberKindJoin m) eqn:Hj].
  - apply is_kind_true in Hf. rewrite Hf.
    rewrite !check_Ok, bind_Ok. setoid_rewrite checkBranchSet_Ok. setoid_rewrite IH. rewrite two_or_more, has_edges_outcome.
    split.
    + intros (H2&He&c&(Hb&Hc&->)&(Hall&Hp1&Hp2)). split_and!; try done.
      * intros n Hn. destruct (Hall n Hn) as (?&Hfc&?). split; [done|]. split; [|done]. intros Hk. by apply (claims_after (m_ID m) (m_ForkMembers m)), Hfc.
      * intros n Hn _ Hk. destruct (Hall n Hn) as (?&Hfc&?). by apply (claims_after (m_ID m) (m_ForkMembers m) fc), Hfc.
    + intros ((((Hfk&_)&Hfc&_)&Hall)&(Hap&Hp1)&(_&Hp2)). destruct (Hfk eq_refl) as (?&?&?). split_and!; [done..|].
      eexists. split; [split_and!; [done|by apply Hfc|done]|]. split_and!; [|done..].
      intros n Hn. destruct (Hall n Hn) as (?&Hfn&?). split; [done|]. split; [|done]. intros Hk. apply claims_after. split; [by apply Hfn|by apply Hap].
  - apply is_kind_true in Hj. rewrite Hj.
    rewrite !check_Ok, bind_Ok. setoid_rewrite checkBranchSet_Ok. setoid_rewrite IH. rewrite two_or_more, orb_false_iff, !nonempty_false.
    split.
    + intros (H2&[He He']&c&(Hb&Hc&->)&(Hall&Hp1&Hp2)). split_and!; try done.
      * intros n Hn. destruct (Hall n Hn) as (?&?&Hfc). split; [done|]. split; [done|]. intros Hk. by apply (claims_after (m_ID m) (m_JoinMembers m)), Hfc.
      * intros n Hn _ Hk. destruct (Hall n Hn) as (?&?&Hfc). by apply (claims_after (m_ID m) (m_JoinMembers m) jc), Hfc.
    + intros ((((_&Hfk)&_&Hfc)&Hall)&(_&Hp1)&(Hap&Hp2)). destruct (Hfk eq_refl) as (?&?&?&?). split_and!; [done..|].
      eexists. split; [split_and!; [done|by apply Hfc|done]|]. split_and!; [|done..].
      intros n Hn. destruct (Hall n Hn) as (?&?&Hfn). split; [done|]. split; [done|]. intros Hk. apply claims_after. split; [by apply Hfn|by apply Hap].
  - apply is_kind_false in Hf, Hj. rewrite IH. split.
    + intros (Hall&Hp1&Hp2). split_and!; try done; by intros.
    + intros ((_&Hall)&(_&Hp1)&(_&Hp2)). by split_and!.
Qed.
End pairing.

(** The pairing rules, in the words of [wf_graph]. *)
Record paired (a : Automation) : Prop := {
  pr_fork m : m ∈ a_Members a → kind m = MemberKindFork →
    (2 ≤ length (m_ForkMembers m))%nat ∧ NoDup (m_ForkMembers m) ∧ outcome_edges m = [];
  pr_join m : m ∈ a_Members a → kind m = MemberKindJoin →
    (2 ≤ length (m_JoinMembers m))%nat ∧ NoDup (m_JoinMembers m) ∧ m_OnBlocked m = "" ∧ m_OnFailed m = "";
  pr_branch m b : m ∈ a_Members a → b ∈ m_ForkMembers m ++ m_JoinMembers m → may_branch a b;
  pr_fork_once f g b : f ∈ a_Members a → g ∈ a_Members a → b ∈ m_ForkMembers f → b ∈ m_ForkMembers g → f = g;
  pr_join_once i j b : i ∈ a_Members a → j ∈ a_Members a → b ∈ m_JoinMembers i → b ∈ m_JoinMembers j → i = j;
  pr_fork_paired f : f ∈ a_Members a → kind f = MemberKindFork →
    ∃ j, j ∈ a_Members a ∧ kind j = MemberKindJoin ∧ m_JoinMembers j ≡ₚ m_ForkMembers f;
  pr_join_paired j : j ∈ a_Members a → kind j = MemberKindJoin →
    ∃ f, f ∈ a_Members a ∧ kind f = MemberKindFork ∧ m_ForkMembers f ≡ₚ m_JoinMembers j
}.

Lemma one_match {A} (P : A → bool) (l : list A) :
  NoDup l → (∀ x y, x ∈ l → y ∈ l → P x = true → P y = true → x = y) →
  length (filter (λ x, P x = true) l) = 1%nat ↔ ∃ x, x ∈ l ∧ P x = true.
Proof.
  intros Hnd Hone. assert (NoDup (filter (λ x, P x = true) l)) as Hf by by apply NoDup_filter.
  assert (∀ x, x ∈ filter (λ x, P x = true) l ↔ P x = true ∧ x ∈ l) as Hin by (intros; rewrite list_elem_of_filter; done).
  destruct (filter (λ x, P x = true) l) as [|x [|y k]]; simpl.
  - split; [done|]. intros (x&Hx&HP). assert (x ∈ []) as Hn by (apply Hin; done). by apply elem_of_nil in Hn.
  - split; [|done]. intros _. exists x. by destruct (proj1 (Hin x)) as [??]; [left|].
  - split; [done|]. intros _. exfalso. destruct (proj1 (Hin x)) as [??]; [left|]. destruct (proj1 (Hin y)) as [??]; [right; left|].
    assert (x = y) as -> by by apply Hone. apply NoDup_cons in Hf as [Hni _]. apply Hni. left.
Qed.

Section pairing_rules.
Context (a : Automation) (byID : gmap string AutomationMember).
Hypothesis by_id : ∀ id m, byID !! id = Some m ↔ m ∈ a_Members a ∧ m_ID m = id.
Hypothesis ids : NoDup (m_ID <$> a_Members a).
Hypothesis kinds : ∀ m, m ∈ a_Members a → kind_ok (a_ID a) m.

Lemma branch_fork m b : m ∈ a_Members a → b ∈ m_ForkMembers m → kind m = MemberKindFork.
Proof. intros Hm Hb. apply (ko_fork _ _ (kinds m Hm)). intros He. rewrite He in Hb. by apply elem_of_nil in Hb. Qed.
Lemma branch_join m b : m ∈ a_Members a → b ∈ m_JoinMembers m → kind m = MemberKindJoin.
Proof. intros Hm Hb. apply (ko_join _ _ (kinds m Hm)). left. intros He. rewrite He in Hb. by apply elem_of_nil in Hb. Qed.

Lemma claims_rules :
  claims_loop byID (a_Members a) ∅ ∅ = Ok tt ↔
  (∀ m, m ∈ a_Members a → claim_ok a m)
  ∧ (∀ f g b, f ∈ a_Members a → g ∈ a_Members a → b ∈ m_ForkMembers f → b ∈ m_ForkMembers g → f = g)
  ∧ (∀ i j b, i ∈ a_Members a → j ∈ a_Members a → b ∈ m_JoinMembers i → b ∈ m_JoinMembers j → i = j).
Proof.
  assert (NoDup (a_Members a)) as Hnd by by eapply NoDup_fmap_1.
  rewrite (claims_loop_Ok a byID by_id ids). rewrite (pairwise_iff forks_apart), (pairwise_iff joins_apart) by
    (try done; intros x y H Hx Hy b Hb Hb'; by apply (H Hy Hx b)).
  split.
  - intros (Hall&Hf&Hj). split; [intros m Hm; by destruct (Hall m Hm)|]. split; intros f g b Hfm Hgm Hbf Hbg.
    + destruct (decide (m_ID f = m_ID g)) as [He|Hne]; [by apply (same_id a ids)|]. exfalso.
      by apply (Hf f g Hfm Hgm (λ E, Hne (f_equal m_ID E)) (branch_fork f b Hfm Hbf) (branch_fork g b Hgm Hbg) b).
    + destruct (decide (m_ID f = m_ID g)) as [He|Hne]; [by apply (same_id a ids)|]. exfalso.
      by apply (Hj f g Hfm Hgm (λ E, Hne (f_equal m_ID E)) (branch_join f b Hfm Hbf) (branch_join g b Hgm Hbg) b).
  - intros (Hc&Hf&Hj). split; [intros m Hm; split; [by apply Hc|]; by split; intros|].
    split; intros f g Hfm Hgm Hne _ _ b Hbf Hbg; apply Hne; [by apply (Hf f g b)|by apply (Hj f g b)].
Qed.

Lemma claims_paired :
  (∀ m, m ∈ a_Members a → claim_ok a m) ↔
  (∀ m, m ∈ a_Members a → kind m = MemberKindFork →
     (2 ≤ length (m_ForkMembers m))%nat ∧ NoDup (m_ForkMembers m) ∧ outcome_edges m = [])
  ∧ (∀ m, m ∈ a_Members a → kind m = MemberKindJoin →
     (2 ≤ length (m_JoinMembers m))%nat ∧ NoDup (m_JoinMembers m) ∧ m_OnBlocked m = "" ∧ m_OnFailed m = "")
  ∧ (∀ m b, m ∈ a_Members a → b ∈ m_ForkMembers m ++ m_JoinMembers m → may_branch a b).
Proof.
  unfold claim_ok, branches_ok. split.
  - intros H. split_and!.
    + intros m Hm Hk. destruct (H m Hm) as [Hf _]. destruct (Hf Hk) as (?&?&?&?). done.
    + intros m Hm Hk. destruct (H m Hm) as [_ Hj]. destruct (Hj Hk) as (?&?&?&?&?). done.
    + intros m b Hm [Hb|Hb]%elem_of_app; destruct (H m Hm) as [Hf Hj].
      * destruct (Hf (branch_fork m b Hm Hb)) as (_&_&_&Hall). auto.
      * destruct (Hj (branch_join m b Hm Hb)) as (_&_&_&_&Hall). auto.
  - intros (Hf&Hj&Hb) m Hm. split; intros Hk.
    + destruct (Hf m Hm Hk) as (?&?&?). split_and!; [done..|]. intros b Hbm. apply (Hb m b Hm), elem_of_app. by left.
    + destruct (Hj m Hm Hk) as (?&?&?&?). split_and!; [done..|]. intros b Hbm. apply (Hb m b Hm), elem_of_app. by right.
Qed.

Lemma pairing_Ok : validateForkJoinPairing a byID = Ok tt ↔ paired a.
Proof.
  assert (NoDup (a_Members a)) as Hnd by by eapply NoDup_fmap_1.
  unfold validateForkJoinPairing. rewrite !unit_Ok, claims_rules, claims_paired, !for_each_Ok.
  assert (∀ (l : list string), (2 ≤ length l)%nat → ∃ b, b ∈ l) as Hsome.
  { intros [|b l] Hl; [simpl in Hl; lia|]. exists b. left. }
  split.
  - intros (((Hf&Hj&Hb)&Hfo&Hjo)&Hpf&Hpj). split; try done.
    + intros f Hfm Hk. specialize (Hpf f Hfm). cbn beta in Hpf. rewrite (proj2 (is_kind_true _ _) Hk), fail_if_Ok in Hpf. apply negb_false_iff, Nat.eqb_eq in Hpf.
      unfold paired_joins in Hpf. rewrite length_fmap in Hpf.
      destruct (filter _ (a_Members a)) as [|j l] eqn:E; [done|].
      assert (j ∈ j :: l) as Hin by left. rewrite <- E in Hin. apply list_elem_of_filter in Hin as [[Hkj Hs]%andb_true_iff Hjm].
      apply is_kind_true in Hkj. exists j. split_and!; [done..|]. apply sameMemberSet_Permutation; [by apply (Hj j)|done].
    + intros f Hfm Hk. specialize (Hpj f Hfm). cbn beta in Hpj. rewrite (proj2 (is_kind_true _ _) Hk), fail_if_Ok in Hpj. apply negb_false_iff, Nat.eqb_eq in Hpj.
      unfold paired_forks in Hpj. rewrite length_fmap in Hpj.
      destruct (filter _ (a_Members a)) as [|j l] eqn:E; [done|].
      assert (j ∈ j :: l) as Hin by left. rewrite <- E in Hin. apply list_elem_of_filter in Hin as [[Hkj Hs]%andb_true_iff Hjm].
      apply is_kind_true in Hkj. exists j. split_and!; [done..|]. apply sameMemberSet_Permutation; [by apply (Hf j)|done].
  - intros [Hf Hj Hb Hfo Hjo Hpf Hpj]. split_and!; [done..| |]; intros m Hm.
    + destruct (is_kind MemberKindFork m) eqn:Hk; [|done]. apply is_kind_true in Hk.
      apply fail_if_Ok, negb_false_iff, Nat.eqb_eq. unfold paired_joins. rewrite length_fmap, one_match; [|done|].
      * destruct (Hpf m Hm Hk) as (j&Hjm&Hkj&Hp). exists j. split; [done|]. apply andb_true_iff. split; [by apply is_kind_true|].
        apply sameMemberSet_true; [by apply Hj|by apply Hf|done].
      * intros i j Hi Hjm [Hki Hsi]%andb_true_iff [Hkj Hsj]%andb_true_iff. apply is_kind_true in Hki, Hkj.
        apply sameMemberSet_Permutation in Hsi; [|by apply Hj]. apply sameMemberSet_Permutation in Hsj; [|by apply Hj].
        destruct (Hsome (m_ForkMembers m)) as [b Hbm]; [by apply Hf|]. apply (Hjo i j b); [done..|by rewrite Hsi|by rewrite Hsj].
    + destruct (is_kind MemberKindJoin m) eqn:Hk; [|done]. apply is_kind_true in Hk.
      apply fail_if_Ok, negb_false_iff, Nat.eqb_eq. unfold paired_forks. rewrite length_fmap, one_match; [|done|].
      * destruct (Hpj m Hm Hk) as (j&Hjm&Hkj&Hp). exists j. split; [done|]. apply andb_true_iff. split; [by apply is_kind_true|].
        apply sameMemberSet_true; [by apply Hf|by apply Hj|done].
      * intros i j Hi Hjm [Hki Hsi]%andb_true_iff [Hkj Hsj]%andb_true_iff. apply is_kind_true in Hki, Hkj.
        apply sameMemberSet_Permutation in Hsi; [|by apply Hf]. apply sameMemberSet_Permutation in Hsj; [|by apply Hf].
        destruct (Hsome (m_JoinMembers m)) as [b Hbm]; [by apply Hj|]. apply (Hfo i j b); [done..|by rewrite Hsi|by rewrite Hsj].
Qed.
End pairing_rules.

(** ** The graph checks do not see the trimming of the policies *)

Section same_graph.
Context {a b : Automation} (Hs : shape a = shape b).

Lemma claims_loop_static byID ms fc jc : claims_loop byID (static <$> ms) fc jc = claims_loop byID ms fc jc.
Proof.
  revert fc jc. induction ms as [|m ms IH]; intros fc jc; [done|]. rewrite fmap_cons. cbn [claims_loop].
  autorewrite with static.
  assert (∀ bs cl, checkBranchSet (static m) bs byID cl = checkBranchSet m bs byID cl) as Hb.
  { intros bs. unfold checkBranchSet. generalize (∅ : gset string) as seen. induction bs as [|c bs IHb]; intros seen cl; [done|].
    cbn [branch_loop]. autorewrite with static. destruct (cl !! c); [done|]. by rewrite IHb. }
  rewrite !Hb.
  destruct (is_kind MemberKindFork m); [|destruct (is_kind MemberKindJoin m)].
  - destruct (checkBranchSet m (m_ForkMembers m) byID fc); cbn; by rewrite ?IH.
  - destruct (checkBranchSet m (m_JoinMembers m) byID jc); cbn; by rewrite ?IH.
  - by rewrite IH.
Qed.

Lemma for_each_static (f : AutomationMember → res unit) ms :
  (∀ m, f (static m) = f m) → for_each f (static <$> ms) = for_each f ms.
Proof. intros Hf. induction ms as [|m ms IH]; [done|]. rewrite fmap_cons. cbn [for_each]. by rewrite Hf, IH. Qed.

Lemma filter_ids_static (P : AutomationMember → bool) (ms : list AutomationMember) :
  (∀ m, P (static m) = P m) →
  m_ID <$> filter (λ m, P m = true) (static <$> ms) = m_ID <$> filter (λ m, P m = true) ms.
Proof.
  intros HP. induction ms as [|m ms IH]; [done|]. rewrite fmap_cons. destruct (P m) eqn:E.
  - rewrite !filter_cons_True by (rewrite ?HP; done). rewrite !fmap_cons. by rewrite IH.
  - rewrite !filter_cons_False by (rewrite ?HP; congruence). done.
Qed.

Lemma filter_ids_shape (P : AutomationMember → bool) :
  (∀ m, P (static m) = P m) →
  m_ID <$> filter (λ m, P m = true) (a_Members a) = m_ID <$> filter (λ m, P m = true) (a_Members b).
Proof. intros HP. by rewrite <- (filter_ids_static P), (shape_members a b Hs), filter_ids_static. Qed.

Lemma pairing_shape byID : validateForkJoinPairing a byID = validateForkJoinPairing b byID.
Proof.
  unfold validateForkJoinPairing.
  rewrite <- (claims_loop_static byID (a_Members a)), (shape_members a b Hs), claims_loop_static.
  assert (∀ f, paired_joins a f = paired_joins b f) as Hj by (intros f; unfold paired_joins; by apply filter_ids_shape).
  assert (∀ f, paired_forks a f = paired_forks b f) as Hf by (intros f; unfold paired_forks; by apply filter_ids_shape).
  destruct (claims_loop byID (a_Members b) ∅ ∅); [|done]. cbn.
  match goal with |- (for_each ?f _ ;; for_each ?g _) = (for_each ?f' _ ;; for_each ?g' _) =>
    assert (∀ m, f m = f' m) as H1 by (intros m; by rewrite Hj); assert (∀ m, g m = g' m) as H2 by (intros m; by rewrite Hf);
    assert (∀ m, f' (static m) = f' m) as H1' by done; assert (∀ m, g' (static m) = g' m) as H2' by done;
    assert (∀ l, for_each f l = for_each f' l) as H3 by (induction l as [|m l IH]; [done|]; cbn [for_each]; by rewrite H1, IH);
    assert (∀ l, for_each g l = for_each g' l) as H4 by (induction l as [|m l IH]; [done|]; cbn [for_each]; by rewrite H2, IH);
    rewrite H3, H4, <- (for_each_static f' (a_Members a) H1'), <- (for_each_static g' (a_Members a) H2'), (shape_members a b Hs),
      (for_each_static f'), (for_each_static g') by done
  end. done.
Qed.

Lemma has_cycle_shape : automationHasCycle a = automationHasCycle b.
Proof.
  unfold automationHasCycle, has_cycle. by rewrite (shape_successors Hs), (shape_length Hs), (shape_entry Hs).
Qed.

Lemma unreachable_shape : automationUnreachable a = automationUnreachable b.
Proof.
  unfold automationUnreachable, reached_from_entry. rewrite (shape_successors Hs), (shape_entry Hs).
  destruct (String.eqb _ ""); [done|]. f_equal. by apply filter_ids_shape.
Qed.

Lemma check_graph_shape byID : a_Status a = a_Status b → check_graph a byID = check_graph b byID.
Proof.
  intros Hst. unfold check_graph. rewrite pairing_shape, has_cycle_shape, unreachable_shape, Hst.
  pose proof (shape_length Hs) as Hl. destruct (a_Members a), (a_Members b); done.
Qed.
End same_graph.

(** ** Everything together *)

Section accept.
Context {TZ : TimeZones} {MR : MapRange}.

Definition settings_ok (m m' : AutomationMember) : Prop :=
  ∃ p, validateBudgetPolicy (m_BudgetPolicy m) = Ok p ∧ validateDecisionAssistant (m_DecisionAssistant m) = Ok tt
    ∧ m' = set_m_BudgetPolicy p m.

Lemma settings_loop_Ok ms ms' : settings_loop ms = Ok ms' ↔ Forall2 settings_ok ms ms'.
Proof.
  revert ms'. induction ms as [|m ms IH]; intros ms'; cbn [settings_loop].
  { split; [intros [= <-]; constructor|]. intros H%Forall2_nil_inv_l. by subst. }
  rewrite bind_Ok. split.
  - intros (p&Hp&H). rewrite unit_Ok, bind_Ok in H. destruct H as (Hd&rest&Hr&[= <-]). constructor; [|by apply IH].
    exists p. destruct (validateBudgetPolicy _); simplify_eq. destruct (validateDecisionAssistant _) as [[]|]; by simplify_eq.
  - intros H. inversion H as [|? m' ? rest (p&Hp&Hd&->) Hr]; subst. exists p. rewrite Hp. split; [done|].
    rewrite unit_Ok, bind_Ok, Hd. split; [done|]. exists rest. split; [by apply IH|done].
Qed.

Lemma settings_static ms ms' : Forall2 settings_ok ms ms' → static <$> ms' = static <$> ms.
Proof. induction 1 as [|m m' ms ms' (p&_&_&->) _ IH]; [done|]. rewrite !fmap_cons. by rewrite IH. Qed.

Lemma settings_exist ms :
  (∃ ms', Forall2 settings_ok ms ms') ↔
  ∀ m, m ∈ ms → is_ok (validateBudgetPolicy (m_BudgetPolicy m)) = true ∧ is_ok (validateDecisionAssistant (m_DecisionAssistant m)) = true.
Proof.
  split.
  - intros [ms' H]. induction H as [|m m' ms ms' (p&Hp&Hd&_) _ IH]; [set_solver|]. apply forall_cons. rewrite Hp, Hd. done.
  - intros H. induction ms as [|m ms IH]; [by exists []|]. apply forall_cons in H as [[Hp Hd] H]. destruct (IH H) as [ms' Hms].
    destruct (validateBudgetPolicy (m_BudgetPolicy m)) as [p|] eqn:E; [|done].
    destruct (validateDecisionAssistant (m_DecisionAssistant m)) as [[]|] eqn:E'; [|done].
    exists (set_m_BudgetPolicy p m :: ms'). constructor; [|done]. by exists p.
Qed.

(** What an accepted record comes back as. *)
Definition trimmed (a a' : Automation) : Prop :=
  ∃ ms p, Forall2 settings_ok (a_Members a) ms ∧ validateBudgetPolicy (a_BudgetPolicy a) = Ok p
    ∧ a' = set_a_BudgetPolicy p (set_a_Members ms a).

Lemma trimmed_shape a a' : trimmed a a' → shape a' = shape a.
Proof. intros (ms&p&H&_&->). unfold shape. cbn. by rewrite (settings_static _ _ H). Qed.

Lemma with_context_Ok c r : with_context c r = Ok tt ↔ r = Ok tt.
Proof. destruct r as [[]|]; naive_solver. Qed.

Lemma is_ok_unit (r : res unit) : is_ok r = true ↔ r = Ok tt.
Proof. destruct r as [[]|]; naive_solver. Qed.

Lemma graph_Ok a :
  wf_graph a → (match automationHasCycle a with None => True | _ => False end
    ↔ ∀ x, rtc (member_edge a) (a_EntryMemberID a) x → ¬ tc (member_edge a) x x).
Proof.
  intros Hw. assert (∀ u v, leads (automationSuccessors a) u v ↔ member_edge a u v) as He
    by (intros; apply leads_member_edge; [apply Hw|intros i j b; apply (wf_join_once a Hw)]).
  assert (∀ x y, tc (leads (automationSuccessors a)) x y ↔ tc (member_edge a) x y) as Htc.
  { intros x y. split; apply tc_congruence with (f := λ z, z); intros u v; apply He. }
  assert (∀ x y, rtc (leads (automationSuccessors a)) x y ↔ rtc (member_edge a) x y) as Hrtc.
  { intros x y. split; apply rtc_congruence with (f := λ z, z); intros u v; apply He. }
  setoid_rewrite <- Htc. setoid_rewrite <- Hrtc.
  destruct (automationHasCycle a) as [c|] eqn:E.
  - split; [done|]. intros H. unfold automationHasCycle in E. pose proof (has_cycle_spec a) as Hsp.
    destruct (has_cycle a) as [[c'|]|]; [|done|done]. destruct Hsp as [Hc Hre]. destruct (cycle_tc _ _ Hc) as (x&Hx&Hxx).
    by apply (H x (Hre x Hx)).
  - split; [|done]. intros _ x Hx. destruct (no_cycle_topo a E) as (fin&Ht&Hall). apply (topo_acyclic _ fin Ht). by apply Hall.
Qed.

Lemma reach_Ok a m :
  wf_graph a → m ∈ a_Members a →
  m_ID m ∉ automationUnreachable a ↔ rtc (member_edge a) (a_EntryMemberID a) (m_ID m).
Proof.
  intros Hw Hm. assert (∀ u v, leads (automationSuccessors a) u v ↔ member_edge a u v) as He
    by (intros; apply leads_member_edge; [apply Hw|intros i j b; apply (wf_join_once a Hw)]).
  assert (∀ x y, rtc (leads (automationSuccessors a)) x y ↔ rtc (member_edge a) x y) as Hrtc.
  { intros x y. split; apply rtc_congruence with (f := λ z, z); intros u v; apply He. }
  pose proof (wf_entry a Hw) as Hent. destruct (decide (a_Members a = [])) as [E|_]; [rewrite E in Hm; by apply elem_of_nil in Hm|].
  destruct Hent as (e&Hem&Hee&_).
  assert (a_EntryMemberID a ≠ "") as Hne by (rewrite <- Hee; apply TrimSpace_ne, (wf_named a Hw e Hem)).
  rewrite elem_of_unreachable, Hrtc by done. split; [|tauto]. intros H.
  destruct (reached_spec a) as (r&_&Hr). rewrite <- Hrtc, <- Hr. destruct (decide (m_ID m ∈ r)); [done|].
  exfalso. apply H. split; [by apply list_elem_of_fmap_2|]. by rewrite <- Hrtc, <- Hr.
Qed.

Lemma unreachable_nil a :
  wf_graph a → automationUnreachable a = [] ↔ ∀ m, m ∈ a_Members a → rtc (member_edge a) (a_EntryMemberID a) (m_ID m).
Proof.
  intros Hw. split.
  - intros H m Hm. apply reach_Ok; [done..|]. rewrite H. set_solver.
  - intros H. destruct (automationUnreachable a) as [|x l] eqn:E; [done|]. exfalso.
    assert (x ∈ automationUnreachable a) as Hx by (rewrite E; left).
    assert (x ∈ m_ID <$> a_Members a) as Hxm.
    { unfold automationUnreachable in Hx. destruct (String.eqb _ ""); [by apply elem_of_nil in Hx|].
      unfold sort_strings in Hx. rewrite elem_of_sort_by, list_elem_of_fmap in Hx. destruct Hx as (m&->&Hm).
      apply list_elem_of_filter in Hm as [_ Hm]. by apply list_elem_of_fmap_2. }
    apply list_elem_of_fmap in Hxm as (m&->&Hm). by apply (proj2 (reach_Ok a m Hw Hm) (H m Hm)).
Qed.
Lemma index_by_id a : NoDup (m_ID <$> a_Members a) → ∀ id m,
  index_members (a_Members a) ∅ !! id = Some m ↔ m ∈ a_Members a ∧ m_ID m = id.
Proof.
  intros Hnd id m. rewrite index_lookup; [|done|by intros; apply lookup_empty]. rewrite lookup_empty. naive_solver.
Qed.

(** The members alone, before the forks and joins are paired. *)
Lemma members_accepted a byID :
  (members_loop (a_ID a) (a_Members a) ∅ ∅ = Ok byID ∧ check_entry a byID = Ok tt
   ∧ for_each (λ m, for_each (check_edge byID m) (map_range (edge_map m))) (a_Members a) = Ok tt
   ∧ validateForkJoinPairing a byID = Ok tt) ↔
  wf_graph a ∧ byID = index_members (a_Members a) ∅.
Proof.
  rewrite members_loop_Ok. split.
  - intros ((Hall&Hnd&_&Hprds&->)&He&Hed&Hp). split; [|done]. pose proof (index_by_id a Hnd) as Hby.
    assert (∀ m, m ∈ a_Members a → m_ID m ≠ "") as Hne.
    { intros m Hm. destruct (Hall m Hm) as [(?&_) _]. by apply TrimSpace_ne. }
    apply (check_entry_Ok a _ Hby Hnd Hne) in He. rewrite for_each_Ok in Hed.
    assert (∀ m, m ∈ a_Members a → kind_ok (a_ID a) m) as Hk by (intros m Hm; by destruct (Hall m Hm) as [(_&?&_) _]).
    apply (pairing_Ok a _ Hby Hnd Hk) in Hp as []. split; try done.
    + intros m Hm. by destruct (Hall m Hm) as [(?&_) _].
    + intros m Hm. by destruct (Hall m Hm) as [(_&_&?) _].
    + intros m t Hm. by apply (edges_Ok a _ Hby Hnd), Hed.
  - intros [[Hnd Hnm Hk Hpr Hprds He Hed ???????] ->]. pose proof (index_by_id a Hnd) as Hby.
    assert (∀ m, m ∈ a_Members a → m_ID m ≠ "") as Hne by (intros m Hm; by apply TrimSpace_ne, Hnm).
    split_and!; try done.
    + intros m Hm. split; [|apply lookup_empty]. split_and!; auto.
    + by apply (check_entry_Ok a _ Hby Hnd Hne).
    + apply for_each_Ok. intros m Hm. apply (edges_Ok a _ Hby Hnd). auto.
    + apply (pairing_Ok a _ Hby Hnd Hk). by split.
Qed.

Lemma if_Ok (b : bool) (c : res unit) : (if b then Ok tt else c) = Ok tt ↔ (b = false → c = Ok tt).
Proof. destruct b; naive_solver. Qed.

Lemma check_graph_Ok a byID :
  wf_graph a → validateForkJoinPairing a byID = Ok tt →
  check_graph a byID = Ok tt ↔
  (∀ x, rtc (member_edge a) (a_EntryMemberID a) x → ¬ tc (member_edge a) x x)
  ∧ (∀ m, a_Status a ≠ AutomationDraft → m ∈ a_Members a → rtc (member_edge a) (a_EntryMemberID a) (m_ID m)).
Proof.
  intros Hw Hp. unfold check_graph. case_bool_decide as He.
  - split; [|done]. intros _. split; [|intros m _ Hm; rewrite He in Hm; by apply elem_of_nil in Hm].
    intros x _ Hx. inversion Hx as [? ? H1|? ? ? H1 _]; destruct H1 as [m Hm|m Hm|m j Hm]; rewrite He in Hm; by apply elem_of_nil in Hm.
  - rewrite !unit_Ok, fail_if_Ok, <- (graph_Ok a Hw). split.
    + intros (_&Hc&Hu). destruct (automationHasCycle a); [done|]. split; [done|]. intros m Hd Hm.
      apply andb_false_iff in Hu as [Hu|Hu]; [|apply negb_false_iff, String.eqb_eq in Hu; done].
      apply bool_decide_eq_false in Hu. apply dec_stable in Hu. by apply unreachable_nil.
    + intros [Hc Hr]. split; [done|]. destruct (automationHasCycle a); [done|]. split; [done|].
      destruct (String.eqb_spec (a_Status a) AutomationDraft) as [|Hd]; [by rewrite andb_false_r|]. rewrite andb_true_r.
      apply bool_decide_eq_false. intros Hn. apply Hn, (unreachable_nil a Hw). auto.
Qed.

Lemma check_graph_pairing a byID : check_graph a byID = Ok tt → validateForkJoinPairing a byID = Ok tt.
Proof.
  unfold check_graph. case_bool_decide as He; [|by intros [? _]%unit_Ok].
  intros _. unfold validateForkJoinPairing. by rewrite He.
Qed.

#[local] Opaque check_entry check_graph cursors_loop with_context.

(** [validateAutomation] accepts a record exactly if it is well formed, and what
    it gives back differs in the trimmed names of policy peers only. *)
Lemma validate_wf a a' : validateAutomation a = Ok a' ↔ wf a ∧ trimmed a a'.
Proof.
  unfold validateAutomation, trimmed.
  rewrite !check_Ok, bind_Ok, not_eqb, negb_false_iff, one_of_true. setoid_rewrite unit_Ok. setoid_rewrite unit_Ok.
  setoid_rewrite bind_Ok. setoid_rewrite settings_loop_Ok. setoid_rewrite bind_Ok.
  setoid_rewrite unit_Ok. setoid_rewrite unit_Ok. setoid_rewrite unit_Ok. setoid_rewrite unit_Ok. setoid_rewrite with_context_Ok.
  split.
  - intros (Hname&Hst&byID&Hml&Hent&Hedg&ms&Hms&p&Hp&Hda&Htags&Hcur&Hg&[= <-]).
    set (a' := set_a_BudgetPolicy p (set_a_Members ms a)) in *.
    assert (shape a' = shape a) as Hsh by (unfold shape, a'; cbn; by rewrite (settings_static _ _ Hms)).
    rewrite (check_graph_shape Hsh byID eq_refl) in Hg.
    pose proof (check_graph_pairing a byID Hg) as Hpair.
    destruct (proj1 (members_accepted a byID)) as [Hw ->]; [by split_and!|].
    apply (check_graph_Ok a _ Hw Hpair) in Hg as [Hac Hre].
    split; [|by exists ms, p]. split; try done.
    + split_and!; [apply settings_exist; by exists ms|by rewrite Hp|by apply is_ok_unit in Hda|by apply is_ok_unit in Htags].
    + intros Hlin. rewrite (shape_linear Hsh), Hlin in Hcur. apply (cursors_Ok a _ (index_by_id a (wf_ids a Hw))) in Hcur as [? Hc].
      split; [done|]. intros c Hcc. by destruct (Hc c Hcc).
  - intros ([Hname Hst Hw (_&_&Hda&Htags) Hcur Hac Hre]&ms&p&Hms&Hp&->).
    destruct (proj2 (members_accepted a _) (conj Hw eq_refl)) as (Hml&Hent&Hedg&Hpair).
    split; [done|]. split; [done|]. eexists. split; [done|]. split; [done|]. split; [done|].
    exists ms. split; [done|]. exists p. split; [done|].
    set (a' := set_a_BudgetPolicy p (set_a_Members ms a)).
    assert (shape a' = shape a) as Hsh by (unfold shape, a'; cbn; by rewrite (settings_static _ _ Hms)).
    split; [by apply is_ok_unit|]. split; [by apply is_ok_unit|]. split; [|split; [|done]].
    + rewrite (shape_linear Hsh). apply if_Ok. intros Hlin. apply (cursors_Ok a _ (index_by_id a (wf_ids a Hw))).
      destruct (Hcur Hlin) as [? Hc]. split; [done|]. intros c Hcc. split; [by apply Hc|set_solver].
    + rewrite (check_graph_shape Hsh _ eq_refl). by apply check_graph_Ok.
Qed.

Lemma settings_trimmed a : wf a → ∃ a', trimmed a a'.
Proof.
  intros W. destruct (wf_settings a W) as (Hm&Hp&_). destruct (proj2 (settings_exist _) Hm) as [ms Hms].
  destruct (validateBudgetPolicy (a_BudgetPolicy a)) as [p|] eqn:E; [|done]. by exists (set_a_BudgetPolicy p (set_a_Members ms a)), ms, p.
Qed.
End accept.

(** ** Records that stay acceptable *)

Section kept.
Context `{!TimeZones, !MapRange}.

(** Of one shape, with a status, settings and cursors that pass. *)
Lemma wf_of_shape a b :
  wf a → shape b = shape a → TrimSpace (a_Name b) ≠ "" → a_Status b ∈ automation_statuses →
  (∀ m, m ∈ a_Members b →
     is_ok (validateBudgetPolicy (m_BudgetPolicy m)) = true ∧ is_ok (validateDecisionAssistant (m_DecisionAssistant m)) = true)
    ∧ is_ok (validateBudgetPolicy (a_BudgetPolicy b)) = true ∧ is_ok (validateDecisionAssistant (a_DecisionAssistant b)) = true
    ∧ is_ok (validateAutoTagsOverride (a_AutoTags b)) = true →
  (automationIsLinear b = false → NoDup (a_ActiveCursors b) ∧ ∀ c, c ∈ a_ActiveCursors b → c ∈ m_ID <$> a_Members b) →
  (a_Status b ≠ AutomationDraft → a_Status a ≠ AutomationDraft) → wf b.
Proof.
  intros W Hsh Hn Hs Hset Hc Hd.
  assert (∀ u v, member_edge b u v ↔ member_edge a u v) as He by (intros u v; split; by apply shape_member_edge).
  split; [done|done|by eapply wf_graph_shape, (wf_members a W)|done|done|..].
  - intros x. rewrite (shape_entry Hsh). intros Hx Hxx. apply (wf_acyclic a W x).
    + revert Hx. apply rtc_congruence with (f := λ z, z). intros u v. by apply He.
    + revert Hxx. apply tc_congruence with (f := λ z, z). intros u v. by apply He.
  - intros m Hdb Hm. destruct (shape_elem a b m (eq_sym Hsh) Hm) as (n&Hnm&Heq). rewrite <- (static_ID _ _ Heq), (shape_entry Hsh).
    eapply rtc_congruence with (f := λ z, z); [|by apply (wf_reachable a W n (Hd Hdb) Hnm)]. intros u v. by apply He.
Qed.

Lemma peer_loop_again seen l l' : peer_loop seen l = Ok l' → peer_loop seen l' = Ok l'.
Proof.
  revert seen l'. induction l as [|x l IH]; intros seen l'; [by intros [= <-]|]. cbn [peer_loop].
  rewrite !check_Ok. intros (Hne&Hin&(rest&Hr&[= <-])%bind_Ok). cbn [peer_loop]. rewrite TrimSpace_idem, Hne, Hin. cbn.
  by rewrite (IH _ _ Hr).
Qed.

Lemma anchor_again p q : validateBudgetResetAnchor p = Ok q → validateBudgetResetAnchor q = Ok q.
Proof.
  unfold validateBudgetResetAnchor. rewrite !unit_Ok. intros (R1&R2&R3&R4&(l&Hl&[= <-])%bind_Ok).
  split; [exact R1|]. split; [exact R2|]. split; [exact R3|]. split; [exact R4|].
  rewrite bind_Ok. exists l. split; [by apply (peer_loop_again _ (bp_PeerWindow p))|done].
Qed.

Lemma anchor_keeps p q : validateBudgetResetAnchor p = Ok q → ∃ l, q = set_peers l p.
Proof. unfold validateBudgetResetAnchor. rewrite !unit_Ok. intros (_&_&_&_&(l&_&[= <-])%bind_Ok). by exists l. Qed.

Lemma policy_again p p' : validateBudgetPolicy p = Ok p' → validateBudgetPolicy p' = Ok p'.
Proof.
  destruct p as [p|]; [|by intros [= <-]]. unfold validateBudgetPolicy at 1. rewrite !check_Ok. intros (H1&H2&H3&H4&H5&Hp).
  apply bind_Ok in Hp as (q&Hq&[= <-]). unfold validateBudgetPolicy. rewrite !check_Ok, bind_Ok.
  pose proof (anchor_again _ _ Hq). destruct (anchor_keeps _ _ Hq) as [l ->]. eauto 10.
Qed.

(** Once accepted, the record is accepted as it came back. *)
Lemma trimmed_wf a a' : wf a → trimmed a a' → wf a'.
Proof.
  intros W Ht. pose proof (trimmed_shape _ _ Ht) as Hsh. destruct Ht as (ms&p&Hms&Hp&->).
  destruct (wf_settings a W) as (_&_&Hda&Htags).
  apply (wf_of_shape a); [done|done|apply W|apply W| | |done].
  - split_and!; [|cbn; by rewrite (policy_again _ _ Hp)|done|done]. cbn. intros m Hm.
    apply list_elem_of_lookup in Hm as [i Hi]. destruct (Forall2_lookup_r _ _ _ _ _ Hms Hi) as (n&_&q&Hq&Hd&->).
    cbn. by rewrite (policy_again _ _ Hq), Hd.
  - intros Hl. rewrite (shape_linear Hsh) in Hl. rewrite (shape_ids Hsh). by apply (wf_cursors a W).
Qed.
End kept.

(** The stamps of an update do not matter to the checks. *)
Lemma stamped_wf `{!TimeZones, !MapRange} t v a : wf a → wf (set_a_UpdatedAt t (set_a_Version v a)).
Proof.
  intros Hwf. apply (wf_of_shape a); [done|done|apply Hwf|apply Hwf|apply Hwf| |done]. apply (wf_cursors a Hwf).
Qed.
