(* ===== verification/AutomationStep.v ===== *)
(** * Automations: one step of the engine

    internal/autonomous/automation_advance.go and the gate of
    automation_budget_gate.go: what happens to an Automation when a member ends,
    when a waiting join is looked at again, and when a deferred member may start.
    A step changes a copy of the record and lists what is to be done once the
    copy is stored. What the step reads of the world is [snap], read before it
    (the member's name, the status of its PRD, the budget's verdict).

    [enter], [fireFork], [evalJoin], [fireJoin] and [follow] call each other; the
    recursion is through [enter], whose fuel is one more than the number of
    members. [None] is fuel spent. *)

From S2P Require Import Prelude GoBase GoText AutomationSettings Automation.

#[local] Open Scope Z_scope.

(** ** Ends of members *)

Definition PRDPaused : string := "paused".
Definition PRDApproved : string := "approved".
Definition PRDRunning : string := "running".
Definition PRDCompleted : string := "completed".
Definition PRDBlocked : string := "blocked".
Definition PRDFailed : string := "failed".
Definition PRDCancelled : string := "cancelled".
Definition PRDArchived : string := "archived".
Definition PRDRejected : string := "rejected".

Record mergedMemberNote := mkMergedNote {
  mn_prdID : string;
  mn_branch : string;
  mn_base : string;
  mn_commit : string;
  mn_policy : string;
  mn_merged : bool;
  mn_cancelled : bool;
  mn_note : string
}.

Record endOutcome := mkEnd {
  e_edge : string;
  e_memStatus : string;
  e_outcome : string;
  e_success : bool;
  e_direct : string;
  e_revert : bool;
  e_note : string;
  e_merged : option mergedMemberNote
}.

Definition prdEnd (s : string) : option endOutcome :=
  if String.eqb s PRDCompleted then Some (mkEnd edgeOnComplete MemberCompleted s true "" false "" None)
  else if String.eqb s PRDBlocked then Some (mkEnd edgeOnBlocked MemberBlocked s false "" false "" None)
  else if String.eqb s PRDFailed then Some (mkEnd edgeOnFailed MemberFailed s false "" false "" None)
  else if one_of s [PRDCancelled; PRDArchived; PRDRejected] then
    Some (mkEnd "" MemberBlocked s false "member cancelled outside the Automation" false "" None)
  else if String.eqb s PRDApproved then Some (mkEnd "" MemberBlocked s false "member run errored" true "" None)
  else None.

Definition childEnd (s : string) : option endOutcome :=
  if String.eqb s AutomationCompleted then Some (mkEnd edgeOnComplete MemberCompleted s true "" false "" None)
  else if String.eqb s AutomationBlocked then Some (mkEnd edgeOnBlocked MemberBlocked s false "" false "" None)
  else if String.eqb s AutomationCancelled then Some (mkEnd edgeOnFailed MemberFailed s false "" false "" None)
  else None.

Definition set_edge (e : string) (x : endOutcome) : endOutcome :=
  mkEnd e (e_memStatus x) (e_outcome x) (e_success x) (e_direct x) (e_revert x) (e_note x) (e_merged x).

Record memberInfo := mkInfo {
  mi_name : string;
  mi_prdStatus : string;
  mi_verdict : BudgetVerdict
}.
Definition zero_info : memberInfo := mkInfo "" "" zero_verdict.

Record stepInput := mkInput {
  si_memberID : string;
  si_end : endOutcome;
  si_reeval : bool;
  si_startPending : bool;
  si_now : Time;
  si_emptyEdgeAsked : bool;
  si_breachAsked : bool;
  si_breachChoice : string
}.

(** [in.at()] *)
Definition at_time (wall : Time) (i : stepInput) : Time := if IsZero (si_now i) then wall else si_now i.

(** ** Effects *)

Record memberStart := mkStart {
  ms_memberID : string;
  ms_kind : string;
  ms_prdID : string;
  ms_childID : string;
  ms_name : string;
  ms_resume : bool;
  ms_branch : bool
}.
Record coordAudit := mkAudit { ca_action : string; ca_details : gmap string any }.
Record memberNote := mkNote { mnote_prdID : string; mnote_note : string }.
Record mergedMemberAlert := mkMergedAlert { ma_member : string; ma_branch : string; ma_base : string; ma_commit : string }.
Record budgetEffect := mkBudgetEffect {
  be_action : string;
  be_verdict : BudgetVerdict;
  be_reason : string;
  be_changed : bool;
  be_memberID : string
}.

Record stepEffects := mkEffects {
  ef_details : gmap string any;
  ef_starts : list memberStart;
  ef_audits : list coordAudit;
  ef_notes : list memberNote;
  ef_touched : list string;
  ef_blocked : string;
  ef_budget : option budgetEffect;
  ef_completed : bool;
  ef_info : string;
  ef_mergedAdvance : option mergedMemberAlert
}.

Definition set_ef_details (x : gmap string any) (r : stepEffects) : stepEffects :=
  mkEffects x (ef_starts r) (ef_audits r) (ef_notes r) (ef_touched r) (ef_blocked r) (ef_budget r)
    (ef_completed r) (ef_info r) (ef_mergedAdvance r).
Definition set_ef_starts (x : list memberStart) (r : stepEffects) : stepEffects :=
  mkEffects (ef_details r) x (ef_audits r) (ef_notes r) (ef_touched r) (ef_blocked r) (ef_budget r)
    (ef_completed r) (ef_info r) (ef_mergedAdvance r).
Definition set_ef_audits (x : list coordAudit) (r : stepEffects) : stepEffects :=
  mkEffects (ef_details r) (ef_starts r) x (ef_notes r) (ef_touched r) (ef_blocked r) (ef_budget r)
    (ef_completed r) (ef_info r) (ef_mergedAdvance r).
Definition set_ef_notes (x : list memberNote) (r : stepEffects) : stepEffects :=
  mkEffects (ef_details r) (ef_starts r) (ef_audits r) x (ef_touched r) (ef_blocked r) (ef_budget r)
    (ef_completed r) (ef_info r) (ef_mergedAdvance r).
Definition set_ef_touched (x : list string) (r : stepEffects) : stepEffects :=
  mkEffects (ef_details r) (ef_starts r) (ef_audits r) (ef_notes r) x (ef_blocked r) (ef_budget r)
    (ef_completed r) (ef_info r) (ef_mergedAdvance r).
Definition set_ef_blocked (x : string) (r : stepEffects) : stepEffects :=
  mkEffects (ef_details r) (ef_starts r) (ef_audits r) (ef_notes r) (ef_touched r) x (ef_budget r)
    (ef_completed r) (ef_info r) (ef_mergedAdvance r).
Definition set_ef_budget (x : option budgetEffect) (r : stepEffects) : stepEffects :=
  mkEffects (ef_details r) (ef_starts r) (ef_audits r) (ef_notes r) (ef_touched r) (ef_blocked r) x
    (ef_completed r) (ef_info r) (ef_mergedAdvance r).
Definition set_ef_completed (x : bool) (r : stepEffects) : stepEffects :=
  mkEffects (ef_details r) (ef_starts r) (ef_audits r) (ef_notes r) (ef_touched r) (ef_blocked r) (ef_budget r)
    x (ef_info r) (ef_mergedAdvance r).
Definition set_ef_info (x : string) (r : stepEffects) : stepEffects :=
  mkEffects (ef_details r) (ef_starts r) (ef_audits r) (ef_notes r) (ef_touched r) (ef_blocked r) (ef_budget r)
    (ef_completed r) x (ef_mergedAdvance r).
Definition set_ef_mergedAdvance (x : option mergedMemberAlert) (r : stepEffects) : stepEffects :=
  mkEffects (ef_details r) (ef_starts r) (ef_audits r) (ef_notes r) (ef_touched r) (ef_blocked r) (ef_budget r)
    (ef_completed r) (ef_info r) x.
Definition no_effects (details : gmap string any) : stepEffects := mkEffects details [] [] [] [] "" None false "" None.

(** [stepper], without the parts no step changes. *)
Record stepper := mkStepper {
  st_a : Automation;
  st_eff : stepEffects;
  st_advNote : string;
  st_idle : bool
}.

Definition set_st_a (x : Automation) (r : stepper) : stepper :=
  mkStepper x (st_eff r) (st_advNote r) (st_idle r).
Definition set_st_eff (x : stepEffects) (r : stepper) : stepper :=
  mkStepper (st_a r) x (st_advNote r) (st_idle r).
Definition set_st_advNote (x : string) (r : stepper) : stepper :=
  mkStepper (st_a r) (st_eff r) x (st_idle r).
Definition set_st_idle (x : bool) (r : stepper) : stepper :=
  mkStepper (st_a r) (st_eff r) (st_advNote r) x.

Definition on_a (f : Automation → Automation) (st : stepper) : stepper := set_st_a (f (st_a st)) st.
Definition on_eff (f : stepEffects → stepEffects) (st : stepper) : stepper := set_st_eff (f (st_eff st)) st.

Definition coordinatorActor : string := "automation".
Definition decisionMergedMember : string := "merged_member".
Definition MergedMemberAdvanced : string := "advanced".
Definition MergedMemberBlocked : string := "blocked".
Definition decisionBudgetPause : string := "budget_pause".
Definition decisionBudgetHold : string := "budget_hold".

Definition errStaleStep : error := Errorf "automation step: member is not a live cursor" [].

Definition add_decision (d : Decision_) (a : Automation) : Automation :=
  set_a_Decisions (trimDecisions (a_Decisions a ++ [d])) a.

Definition gateMode (s : string) : string :=
  if String.eqb s PRDApproved then "run" else if String.eqb s PRDPaused then "resume" else "".

Definition joinRule (j : AutomationMember) : string :=
  if String.eqb (m_OnBranchFailure j) "" then BranchAllMustSucceed else m_OnBranchFailure j.

(** Won, pending and failed branches, each in order of id. *)
Definition classify (a : Automation) (bid : string) (acc : list string * list string * list string)
    : list string * list string * list string :=
  let '(won, pending, failed) := acc in
  match automationMember a bid with
  | None => (won, pending, bid :: failed)
  | Some i =>
      let s := m_Status (mem_at a i) in
      if String.eqb s MemberCompleted then (bid :: won, pending, failed)
      else if String.eqb s MemberRunning || String.eqb s MemberPending then (won, bid :: pending, failed)
      else (won, pending, bid :: failed)
  end.
Definition classifyBranches (a : Automation) (j : AutomationMember) : list string * list string * list string :=
  foldr (classify a) ([], [], []) (sortedCopy (m_JoinMembers j)).

(** ** The budget gate *)

Definition budgetEpisodeOpen (a : Automation) : bool :=
  match a_BudgetState a with
  | None => false
  | Some b => (String.eqb (a_Status a) AutomationPaused && String.eqb (bs_Action b) BudgetActionPaused)
              || (String.eqb (a_Status a) AutomationBlocked && String.eqb (bs_Action b) BudgetActionBlocked)
  end.

Definition held (b : option BudgetState) : bool :=
  match b with Some b => String.eqb (bs_Action b) BudgetActionHeld | None => false end.

Definition budgetNoChange (a : Automation) (v : BudgetVerdict) : bool :=
  String.eqb (a_Status a) AutomationActive && held (a_BudgetState a) && bv_Gate v
  && negb (String.eqb (bv_Kind v) BudgetKindCeiling).

Definition newBudgetState (v : BudgetVerdict) (action reason : string) (now : Time) : BudgetState :=
  mkBudgetState action now reason (bv_Scope v) (bv_SpentUSD v) (bv_CeilingUSD v)
    (match bv_Policy v with Some p => bp_Window p | None => "" end)
    (bv_ResetAt v) (bv_ResetKnown v) (bv_ResetSource v).

Definition assistBreachPause : string := "pause".
Definition assistBreachBlock : string := "block".

(** What a breach of a ceiling leads to. *)
Definition breach_response (v : BudgetVerdict) (noWait : bool) : string * string :=
  let onBreach := match bv_Policy v with None => "pause" | Some p => EffectiveOnBreach (Some p) end in
  let onBreach := if one_of (bv_assistantOnBreach v) [assistBreachPause; assistBreachBlock]
                  then bv_assistantOnBreach v else onBreach in
  if noWait then
    (BudgetActionBlocked, bv_Reason v +:+ "; the Automation was paused for this budget and is still over it at the resume time, so it is blocked until the operator decides: raise the ceiling or resume it")
  else if bv_ResetKnown v && bool_decide (is_Some (bv_ResetAt v)) && String.eqb onBreach "pause" then
    (BudgetActionPaused, bv_Reason v)
  else if String.eqb onBreach "block" then
    (BudgetActionBlocked, bv_Reason v +:+ "; on_breach is block, so the Automation is blocked until the operator decides: raise the ceiling or resume it")
  else
    (BudgetActionBlocked, bv_Reason v +:+ "; the reset time is not known, so the Automation is blocked until the operator decides: raise the ceiling, wait for the window or resume it").

(** [mem] is the member whose start is refused, if any. *)
Definition applyBudgetGate (a : Automation) (mem : option nat) (v : BudgetVerdict) (now : Time) (noWait : bool)
    : Automation * budgetEffect :=
  let id := match mem with Some i => m_ID (mem_at a i) | None => "" end in
  let a := match mem with Some i => if isLiveCursor a id then a else addCursor id a | None => a end in
  let prev := a_BudgetState a in
  if negb (String.eqb (bv_Kind v) BudgetKindCeiling) then
    if held prev then (a, mkBudgetEffect BudgetActionHeld v (bv_Reason v) false id)
    else
      (add_decision (mkDecision now decisionBudgetHold coordinatorActor (bv_Reason v +:+ "; the member starts when the budget allows it") None)
         (set_a_IdleSince (Some now) (set_a_BudgetState (Some (newBudgetState v BudgetActionHeld (bv_Reason v) now)) a)),
       mkBudgetEffect BudgetActionHeld v (bv_Reason v) true id)
  else
    let '(action, reason) := breach_response v noWait in
    if (match prev with Some b => String.eqb (bs_Action b) action | None => false end) && budgetEpisodeOpen a
    then (a, mkBudgetEffect action v reason false id)
    else
      let a := set_a_IdleSince (Some now) (set_a_BudgetState (Some (newBudgetState v action reason now)) a) in
      (if String.eqb action BudgetActionPaused then
         add_decision (mkDecision now decisionBudgetPause coordinatorActor
                         (bv_Reason v +:+ "; paused until the window resets at " +:+ FormatRFC3339 (default 0 (bv_ResetAt v))) None)
           (set_a_Status AutomationPaused a)
       else set_a_Status AutomationBlocked a,
       mkBudgetEffect action v reason true id).

(** ** The stepper *)

Section stepping.
Context (snap : gmap string memberInfo) (now : Time) (breachChoice : string).

Definition info_of (id : string) : memberInfo := default zero_info (snap !! id).

Definition name_of (m : AutomationMember) : string :=
  if nonempty (mi_name (info_of (m_ID m))) then mi_name (info_of (m_ID m))
  else if nonempty (m_PRDID m) then m_PRDID m else m_ID m.

Definition decision (kind note : string) (st : stepper) : stepper :=
  on_a (add_decision (mkDecision now kind coordinatorActor note None)) st.

Definition audit (action : string) (details : list (string * any)) (st : stepper) : stepper :=
  on_eff (λ e, set_ef_audits (ef_audits e ++ [mkAudit action (list_to_map details)]) e) st.

Definition decisionMerged (memberID outcome : string) (n : mergedMemberNote) (st : stepper) : stepper :=
  on_a (add_decision (mkDecision now decisionMergedMember coordinatorActor (mn_note n)
    (Some (mkMergedDecision memberID (mn_prdID n) (mn_branch n) (mn_base n) (mn_commit n) (mn_policy n) outcome)))) st.

Definition finish (mem : nat) (e : endOutcome) (st : stepper) : stepper :=
  let m := mem_at (st_a st) mem in
  let st := on_a (λ a, set_a_IdleSince None (dropCursor (m_ID m)
    (upd mem (λ m, set_m_EdgeTaken (e_edge e) (set_m_Outcome (e_outcome e)
       (set_m_FinishedAt (Some now) (set_m_Status (e_memStatus e) m)))) a))) st in
  on_eff (λ ef,
    let ef := set_ef_details (list_to_map [("automation_id", AStr (a_ID (st_a st))); ("from", AStr (m_ID m));
      ("edge", AStr (e_edge e)); ("outcome", AStr (e_outcome e)); ("actor", AStr coordinatorActor)]) ef in
    if nonempty (m_PRDID m) then set_ef_touched (ef_touched ef ++ [m_PRDID m]) ef else ef) st.

Definition complete (name : string) (st : stepper) : stepper :=
  let st := on_a (λ a, set_a_ActiveCursors [] (set_a_CurrentMemberID "" (set_a_FinishedAt (Some now)
    (set_a_Status AutomationCompleted a)))) st in
  let info := "Automation " +:+ Quote (a_Name (st_a st)) +:+ " completed: " +:+ name +:+ " finished with no on_complete edge" in
  let st := set_st_advNote info (on_eff (λ e, set_ef_info info (set_ef_completed true e)) st) in
  on_eff (λ e, set_ef_audits (ef_audits e ++ [mkAudit "automation_advance" (ef_details e)]) e) st.

Definition block (reason : string) (st : stepper) : stepper :=
  on_eff (set_ef_blocked reason) (on_a (λ a, set_a_IdleSince (Some now) (set_a_Status AutomationBlocked a)) st).

Definition pathEnded (success : bool) (name reason : string) (st : stepper) : stepper :=
  if cursorsRemain (st_a st) then decision "advance" (reason +:+ "; other cursors are still live") st
  else if negb success then block reason st
  else complete name st.

Definition moved (fromID fromName : string) (next : nat) (e : endOutcome) (st : stepper) : stepper :=
  let n := mem_at (st_a st) next in
  audit "automation_advance" [("automation_id", AStr (a_ID (st_a st))); ("from", AStr fromID); ("to", AStr (m_ID n));
      ("edge", AStr (e_edge e)); ("outcome", AStr (e_outcome e)); ("actor", AStr coordinatorActor)]
    (set_st_advNote (fromName +:+ " -> " +:+ name_of n +:+ " via " +:+ e_edge e +:+ " (member " +:+ e_outcome e +:+ ")") st).

Definition mark_running (mem : nat) (st : stepper) : stepper :=
  let id := m_ID (mem_at (st_a st) mem) in
  on_a (λ a, addCursor id (upd mem (λ m, set_m_StartedAt (Some now) (set_m_Status MemberRunning m)) a)) st.

Definition startPRD (next : nat) (resume branch : bool) (st : stepper) : stepper :=
  let m := mem_at (st_a st) next in
  let st := mark_running next st in
  let note := if branch then "fork branch started" else st_advNote st in
  on_eff (λ e, set_ef_notes (ef_notes e ++ [mkNote (m_PRDID m) note])
    (set_ef_starts (ef_starts e ++ [mkStart (m_ID m) MemberKindPRD (m_PRDID m) "" (name_of m) resume branch]) e)) st.

Definition startNested (next : nat) (branch : bool) (st : stepper) : stepper :=
  let m := mem_at (st_a st) next in
  on_eff (λ e, set_ef_starts (ef_starts e ++ [mkStart (m_ID m) MemberKindAutomation "" (m_AutomationID m) (name_of m) false branch]) e)
    (mark_running next st).

Definition budgetGate (next : nat) (v : BudgetVerdict) (st : stepper) : stepper :=
  let '(a, eff) := applyBudgetGate (st_a st) (Some next) (set_assistant breachChoice v) now false in
  on_eff (λ e, let e := set_ef_budget (Some eff) e in
    if String.eqb (be_action eff) BudgetActionBlocked then set_ef_blocked (be_reason eff) e else e) (set_st_a a st).

(** The end of a branch that gets no start, or whose join fired without it. *)
Definition end_branch (status outcome : string) (m : AutomationMember) : AutomationMember :=
  set_m_EdgeTaken "" (set_m_FinishedAt (Some now) (set_m_Outcome outcome (set_m_Status status m))).

(** The branches of a fork; the results are missing when a branch is no member. *)
Fixpoint fork_loop (fork : string) (branches : list string) (results : list (string * any)) (st : stepper)
    : stepper * option (list (string * any)) :=
  match branches with
  | [] => (st, Some results)
  | bid :: bs =>
      match automationMember (st_a st) bid with
      | None => (block ("fork " +:+ fork +:+ " names unknown branch member " +:+ bid) st, None)
      | Some i =>
          let b := mem_at (st_a st) i in
          if is_kind MemberKindAutomation b then fork_loop fork bs (results ++ [(bid, AStr "started")]) (startNested i true st)
          else
            let info := info_of (m_ID b) in
            let mode := gateMode (mi_prdStatus info) in
            if String.eqb mode "" then
              let st := on_a (upd i (end_branch MemberFailed "gate-denied")) st in
              let st := decision "branch" ("branch " +:+ m_ID b +:+ " not started: " +:+ mi_name info +:+ " is " +:+ mi_prdStatus info) st in
              fork_loop fork bs (results ++ [(bid, AStr "gate-denied")]) st
            else fork_loop fork bs (results ++ [(bid, AStr "started")]) (startPRD i (String.eqb mode "resume") true st)
      end
  end.

(** The branches a join did not wait for. *)
Fixpoint drop_pending (pending : list string) (a : Automation) : Automation :=
  match pending with
  | [] => a
  | bid :: ps =>
      match automationMember a bid with
      | None => drop_pending ps a
      | Some i =>
          let a := dropCursor bid a in
          let s := if String.eqb (m_Status (mem_at a i)) MemberRunning then MemberCancelled else MemberSkipped in
          drop_pending ps (upd i (end_branch s "join-fired") a)
      end
  end.

Definition blockJoin (j : nat) (rule : string) (failed : list string) (reason : string) (st : stepper) : stepper :=
  let st := on_a (upd j (end_branch MemberBlocked "not-satisfied")) st in
  block reason (audit "automation_join_blocked" [("automation_id", AStr (a_ID (st_a st))); ("join", AStr (m_ID (mem_at (st_a st) j)));
    ("rule", AStr rule); ("non_success", AList failed); ("reason", AStr reason); ("actor", AStr coordinatorActor)] st).

Section recursion.
Context (enter : nat → stepper → option stepper).

Definition follow (from : nat) (target : string) (e : endOutcome) (fromName reason : string) (st : stepper) : option stepper :=
  if String.eqb target "" then Some (pathEnded (e_success e) fromName reason st)
  else match automationMember (st_a st) target with
       | None => Some (block (e_edge e +:+ " edge names unknown member " +:+ target) st)
       | Some next => enter next (moved (m_ID (mem_at (st_a st) from)) fromName next e st)
       end.

Definition followEdge (mem : nat) (e : endOutcome) (st : stepper) : option stepper :=
  let m := mem_at (st_a st) mem in
  let name := name_of m in
  follow mem (edgeTarget m (e_edge e)) e name
    ("member " +:+ name +:+ " " +:+ e_outcome e +:+ " and has no " +:+ e_edge e +:+ " edge") st.

Definition nat_str (n : nat) : string := fmt_d (Z.of_nat n).

Definition fireJoin (j : nat) (rule : string) (won failed pending : list string) (st : stepper) : option stepper :=
  let st := on_a (drop_pending pending) st in
  let st := on_a (upd j (λ m, set_m_FinishedAt (Some now) (set_m_EdgeTaken edgeOnComplete
    (set_m_Outcome "joined" (set_m_Status MemberCompleted m))))) st in
  let m := mem_at (st_a st) j in
  let st := audit "automation_join" [("automation_id", AStr (a_ID (st_a st))); ("join", AStr (m_ID m)); ("rule", AStr rule);
    ("completed", AList won); ("non_success", AList failed); ("cancelled", AList pending);
    ("edge", AStr edgeOnComplete); ("actor", AStr coordinatorActor)] st in
  let st := decision "join" ("join " +:+ m_ID m +:+ " fired (" +:+ rule +:+ "): " +:+ nat_str (length won) +:+ " succeeded, "
    +:+ nat_str (length failed) +:+ " non-success, " +:+ nat_str (length pending) +:+ " not awaited") st in
  follow j (m_OnComplete m) (mkEnd edgeOnComplete "" "joined" true "" false "" None) ("join " +:+ m_ID m) "" st.

Definition evalJoin (joinID : string) (st : stepper) : option stepper :=
  match automationMember (st_a st) joinID with
  | None => Some st
  | Some i =>
      let j := mem_at (st_a st) i in
      if negb (String.eqb (m_Status j) MemberRunning) then Some st
      else
        let rule := joinRule j in
        let '(won, pending, failed) := classifyBranches (st_a st) j in
        if String.eqb rule BranchAnyOneIsEnough then
          if bool_decide (won ≠ []) then fireJoin i rule won failed pending st
          else if bool_decide (pending = []) then
            Some (blockJoin i rule failed ("join " +:+ m_ID j +:+ ": no branch succeeded") st)
          else Some st
        else if String.eqb rule BranchContinueAnyway then
          if bool_decide (pending = []) then fireJoin i rule won failed [] st else Some st
        else if bool_decide (pending ≠ []) then Some st
        else if bool_decide (failed = []) then fireJoin i rule won [] [] st
        else Some (blockJoin i rule failed ("join " +:+ m_ID j +:+ ": not all branches succeeded (non-success: "
                     +:+ Join failed " " +:+ ")") st)
  end.

Definition fireFork (fork : nat) (st : stepper) : option stepper :=
  let st := on_a (upd fork (λ m, set_m_EdgeTaken "" (set_m_FinishedAt (Some now) (set_m_Outcome "forked"
    (set_m_Status MemberCompleted m))))) st in
  let f := mem_at (st_a st) fork in
  match joinFor (st_a st) f with
  | None => Some (block ("fork " +:+ m_ID f +:+ " has no paired join") st)
  | Some j =>
      let st := on_a (upd j (λ m, set_m_StartedAt (Some now) (set_m_Status MemberRunning m))) st in
      let joinID := m_ID (mem_at (st_a st) j) in
      let branches := sortedCopy (m_ForkMembers f) in
      match fork_loop (m_ID f) branches [] st with
      | (st, None) => Some st
      | (st, Some results) =>
          let st := audit "automation_fork" [("automation_id", AStr (a_ID (st_a st))); ("fork", AStr (m_ID f)); ("join", AStr joinID);
            ("branches", AList branches); ("results", AMap results); ("actor", AStr coordinatorActor)] st in
          let st := decision "fork" ("fork " +:+ m_ID f +:+ " fired over " +:+ nat_str (length branches) +:+ " branches") st in
          evalJoin joinID st
      end
  end.

(** The start of a member past the gate, by its kind. *)
Definition enter_kind (next : nat) (st : stepper) : option stepper :=
  let m := mem_at (st_a st) next in
  if is_kind MemberKindPRD m then
    let info := info_of (m_ID m) in
    let mode := gateMode (mi_prdStatus info) in
    if String.eqb mode "" then
      Some (block ("next member " +:+ mi_name info +:+ " is " +:+ mi_prdStatus info) (on_a (addCursor (m_ID m)) st))
    else Some (startPRD next (String.eqb mode "resume") false st)
  else if is_kind MemberKindAutomation m then Some (startNested next false st)
  else if is_kind MemberKindFork m then fireFork next st
  else Some (block ("member " +:+ m_ID m +:+ " is a join; a join is reached only through its fork") st).

Definition enter_body (next : nat) (st : stepper) : option stepper :=
  let m := mem_at (st_a st) next in
  if String.eqb (a_Status (st_a st)) AutomationPaused then Some (set_st_idle true (on_a (addCursor (m_ID m)) st))
  else if is_kind MemberKindJoin m then enter_kind next st
  else
    let v := mi_verdict (info_of (m_ID m)) in
    if bv_Gate v then Some (budgetGate next v st)
    else enter_kind next (on_a (λ a, match a_BudgetState a with
           | None => a
           | Some _ => set_a_IdleSince None (set_a_BudgetState None a) end) st).
End recursion.

Fixpoint enter (fuel : nat) (next : nat) (st : stepper) : option stepper :=
  match fuel with
  | O => None
  | S f => enter_body (enter f) next st
  end.

Definition finalize (st : stepper) : stepper :=
  let st := on_a (λ a, if automationIsLinear a then a else set_a_CurrentMemberID (firstCursor (a_ActiveCursors a)) a) st in
  let st := if nonempty (ef_blocked (st_eff st)) then decision "blocked" (ef_blocked (st_eff st)) st
            else if nonempty (st_advNote st) then decision "advance" (st_advNote st) st
            else st in
  if st_idle st && String.eqb (ef_blocked (st_eff st)) "" && negb (ef_completed (st_eff st))
  then on_a (set_a_IdleSince (Some now)) st else st.

Definition result_of (st : option stepper) : option (res (Automation * stepEffects)) :=
  (λ st, let st := finalize st in Ok (st_a st, st_eff st)) <$> st.
End stepping.

Definition enter_fuel (a : Automation) : nat := S (length (a_Members a)).

Definition new_stepper (a : Automation) : stepper := mkStepper a (no_effects ∅) "" false.

Definition merged_end (now : Time) (snap : gmap string memberInfo) (mem : nat) (e : endOutcome) (st : stepper) : stepper :=
  match e_merged e with
  | None => st
  | Some n =>
      let m := mem_at (st_a st) mem in
      let outcome := if bool_decide (joinOf (st_a st) (m_ID m) = None) && nonempty (e_direct e)
                     then MergedMemberBlocked else MergedMemberAdvanced in
      let st := decisionMerged now (m_ID m) outcome n st in
      let st := if String.eqb outcome MergedMemberAdvanced && mn_cancelled n
                then on_eff (set_ef_mergedAdvance (Some (mkMergedAlert (name_of snap m) (mn_branch n) (mn_base n) (mn_commit n)))) st
                else st in
      audit "automation_merged_member" [("automation_id", AStr (a_ID (st_a st))); ("member", AStr (m_ID m)); ("prd_id", AStr (mn_prdID n));
        ("branch", AStr (mn_branch n)); ("default_branch", AStr (mn_base n)); ("commit", AStr (mn_commit n));
        ("policy", AStr (mn_policy n)); ("merged", ABool (mn_merged n)); ("actor", AStr coordinatorActor)] st
  end.

Definition stepJoinReeval (wall : Time) (a : Automation) (i : stepInput) (snap : gmap string memberInfo)
    : option (res (Automation * stepEffects)) :=
  match automationMember a (si_memberID i) with
  | None => Some (Err errStaleStep)
  | Some j =>
      if negb (is_kind MemberKindJoin (mem_at a j) && String.eqb (m_Status (mem_at a j)) MemberRunning) then Some (Err errStaleStep)
      else
        let now := at_time wall i in
        st ← evalJoin snap now (enter snap now "" (enter_fuel a)) (m_ID (mem_at a j)) (new_stepper a);
        if String.eqb (m_Status (mem_at (st_a st) j)) MemberRunning then Some (Err errStaleStep)
        else result_of now (Some st)
  end.

Definition stepStartPending (wall : Time) (a : Automation) (i : stepInput) (snap : gmap string memberInfo)
    : option (res (Automation * stepEffects)) :=
  match automationMember a (si_memberID i) with
  | None => Some (Err errStaleStep)
  | Some mem =>
      let m := mem_at a mem in
      if negb (String.eqb (a_Status a) AutomationActive && isLiveCursor a (m_ID m) && memberUnstarted m) then Some (Err errStaleStep)
      else if negb (is_kind MemberKindAutomation m || is_kind MemberKindFork m) then Some (Err errStaleStep)
      else if budgetNoChange a (mi_verdict (info_of snap (m_ID m))) then Some (Err errStaleStep)
      else
        let now := at_time wall i in
        let st := set_st_advNote ("started " +:+ name_of snap m) (on_a (dropCursor (m_ID m)) (new_stepper a)) in
        st ← enter snap now "" (enter_fuel a) mem st;
        let m := mem_at (st_a st) mem in
        result_of now (Some (if is_kind MemberKindFork m && String.eqb (m_Status m) MemberCompleted
                             then on_a (dropCursor (m_ID m)) st else st))
  end.

(** The end of a live member. *)
Definition stepEnd (wall : Time) (a : Automation) (i : stepInput) (snap : gmap string memberInfo)
    : option (res (Automation * stepEffects)) :=
  match automationMember a (si_memberID i) with
  | None => Some (Err errStaleStep)
  | Some mem =>
      let m := mem_at a mem in
      let e := si_end i in
      if negb (isLiveCursor a (m_ID m)) then Some (Err errStaleStep)
      else if e_revert e && negb (String.eqb (m_Status m) MemberRunning) then Some (Err errStaleStep)
      else
        let now := at_time wall i in
        let go := enter snap now (si_breachChoice i) (enter_fuel a) in
        let st := merged_end now snap mem e (new_stepper a) in
        result_of now
          (match joinOf (st_a st) (m_ID m) with
           | Some join =>
               let st := finish now mem (set_edge "" e) st in
               let note := if nonempty (e_note e) then e_note e
                           else "branch " +:+ name_of snap (mem_at (st_a st) mem) +:+ " ended " +:+ e_outcome e in
               evalJoin snap now go (m_ID (mem_at (st_a st) join)) (decision now "branch" note st)
           | None =>
               if nonempty (e_direct e) then Some (block now (e_direct e) (finish now mem e st))
               else followEdge snap now go mem e (finish now mem e st)
           end)
  end.

(** [step]; [wall] is the wall clock, read when the input carries no time. *)
Definition step (wall : Time) (a : Automation) (i : stepInput) (snap : gmap string memberInfo)
    : option (res (Automation * stepEffects)) :=
  if si_reeval i then stepJoinReeval wall a i snap
  else if si_startPending i then stepStartPending wall a i snap
  else stepEnd wall a i snap.
