(* ===== verification/AutomationFrame.v ===== *)
(** * Automations: what a step leaves alone

    [frozen] is the part of a record no operation of a step writes. Members are
    looked up by id through records with one frozen part. *)

From S2P Require Import Prelude GoBase GoText Graph AutomationSettings.
From S2P Require Import Automation AutomationGraph AutomationValidate AutomationWf.
From S2P Require Import AutomationAccept AutomationStep.

#[local] Open Scope Z_scope.

(** ** The cursors, sorted *)

Lemma elem_of_unique_sorted x l : x ∈ unique_sorted l ↔ x ∈ l.
Proof.
  induction l as [|y [|z l] IH]; [done..|]. change (unique_sorted (y :: z :: l)) with
    (if String.eqb y z then unique_sorted (z :: l) else y :: unique_sorted (z :: l)).
  destruct (String.eqb_spec y z) as [->|Hne]; rewrite ?(elem_of_cons (unique_sorted _)), IH; set_solver.
Qed.

Lemma NoDup_unique_sorted l : StronglySorted (not_after String.ltb) l → NoDup (unique_sorted l).
Proof.
  induction l as [|y [|z l] IH]; [constructor|repeat constructor; set_solver|]. intros Hs. inversion Hs as [|? ? Hs' Hall]; subst.
  change (unique_sorted (y :: z :: l)) with (if String.eqb y z then unique_sorted (z :: l) else y :: unique_sorted (z :: l)).
  destruct (String.eqb_spec y z) as [->|Hne]; [by apply IH|]. constructor; [|by apply IH]. rewrite elem_of_unique_sorted.
  inversion Hs' as [|? ? _ Hall']; subst. inversion Hall as [|? ? Hyz _]; subst. intros [->|Hy]%elem_of_cons; [done|].
  rewrite Forall_forall in Hall'. apply Hne, ltb_antisym; [by apply Hall'|by apply Hyz].
Qed.

Lemma elem_of_sortedUnique x l : x ∈ sortedUniqueStrings l ↔ x ∈ l.
Proof. unfold sortedUniqueStrings, sort_strings. by rewrite elem_of_unique_sorted, elem_of_sort_by. Qed.

Lemma NoDup_sortedUnique l : NoDup (sortedUniqueStrings l).
Proof. apply NoDup_unique_sorted, sort_by_sorted. apply _. Qed.

Lemma unique_sorted_sublist l : unique_sorted l `sublist_of` l.
Proof.
  induction l as [|x [|y l] IH]; [done..|]. change (unique_sorted (x :: y :: l)) with
    (if String.eqb x y then unique_sorted (y :: l) else x :: unique_sorted (y :: l)).
  case_match; [by apply sublist_cons|by apply sublist_skip].
Qed.

Lemma unique_sorted_id l : NoDup l → unique_sorted l = l.
Proof.
  induction l as [|x [|y l] IH]; [done..|]. intros [Hx Hnd]%NoDup_cons. change (unique_sorted (x :: y :: l)) with
    (if String.eqb x y then unique_sorted (y :: l) else x :: unique_sorted (y :: l)).
  destruct (String.eqb_spec x y) as [->|_]; [set_solver|]. by rewrite IH.
Qed.

Lemma sublist_sorted {A} (R : relation A) k l : k `sublist_of` l → StronglySorted R l → StronglySorted R k.
Proof.
  induction 1 as [|x k l Hs IH|x k l Hs IH]; intros H; [constructor|..]; inversion H as [|? ? H1 H2]; subst; [|by apply IH].
  constructor; [by apply IH|]. rewrite Forall_forall in H2 |- *. intros y Hy. apply H2.
  by eapply elem_of_submseteq, sublist_submseteq.
Qed.

Lemma sortedUnique_idem l : sortedUniqueStrings (sortedUniqueStrings l) = sortedUniqueStrings l.
Proof.
  unfold sortedUniqueStrings at 1. unfold sort_strings. rewrite sort_by_id.
  - apply unique_sorted_id, NoDup_sortedUnique.
  - eapply sublist_sorted; [apply unique_sorted_sublist|]. apply sort_by_sorted. apply _.
Qed.

Lemma normalize_idem a : normalizeActiveCursors (normalizeActiveCursors a) = normalizeActiveCursors a.
Proof.
  unfold normalizeActiveCursors at 2 3. destruct (automationIsLinear a) eqn:E; unfold normalizeActiveCursors.
  - change (automationIsLinear (set_a_ActiveCursors ?l a)) with (automationIsLinear a). by rewrite E.
  - change (automationIsLinear (set_a_ActiveCursors ?l a)) with (automationIsLinear a). rewrite E.
    cbn [a_ActiveCursors set_a_ActiveCursors]. by rewrite sortedUnique_idem.
Qed.

(** ** Members by id *)

Lemma automationMember_Some a id i :
  NoDup (m_ID <$> a_Members a) →
  automationMember a id = Some i ↔ id ≠ "" ∧ ∃ m, a_Members a !! i = Some m ∧ m_ID m = id.
Proof.
  intros Hnd. unfold automationMember. destruct (String.eqb_spec id "") as [->|Hne]; [naive_solver|].
  unfold first_member. split.
  - intros H. split; [done|]. apply fmap_Some in H as ([j m]&Hf&->).
    apply list_find_Some in Hf as (Hl&He&_). apply String.eqb_eq in He. eauto.
  - intros (_&m&Hl&He). apply fmap_Some. exists (i, m). split; [|done]. apply list_find_Some.
    split_and!; [done|by apply String.eqb_eq|]. intros j n Hj Hlt Hn. apply String.eqb_eq in Hn.
    assert (i = j); [|lia]. eapply (NoDup_lookup (m_ID <$> a_Members a)); [done|..].
    + by rewrite list_lookup_fmap, Hl.
    + rewrite list_lookup_fmap, Hj. simpl. by rewrite Hn, He.
Qed.

Lemma mem_at_lookup a i m : a_Members a !! i = Some m → mem_at a i = m.
Proof. unfold mem_at. by intros ->. Qed.

(** The status of a member, by id. *)
Definition status (a : Automation) (id : string) : string :=
  match automationMember a id with Some i => m_Status (mem_at a i) | None => "" end.

(** What a step never writes: all of a member but its status, times, outcome and
    edge taken, all of the record but its status, cursors, budget episode, end,
    idle mark and decisions. *)
Definition freeze (m : AutomationMember) : AutomationMember :=
  set_m_Status "" (set_m_StartedAt None (set_m_FinishedAt None (set_m_Outcome "" (set_m_EdgeTaken "" m)))).
Definition frozen (a : Automation) : Automation :=
  set_a_Status "" (set_a_CurrentMemberID "" (set_a_ActiveCursors [] (set_a_FinishedAt None (set_a_BudgetState None
    (set_a_IdleSince None (set_a_Decisions [] (set_a_Members (freeze <$> a_Members a) a))))))).

Lemma static_freeze m : static (freeze m) = static m.
Proof. done. Qed.

Lemma frozen_members a b : frozen a = frozen b → freeze <$> a_Members a = freeze <$> a_Members b.
Proof. intros H. exact (f_equal a_Members H). Qed.

Lemma frozen_shape {a b} : frozen a = frozen b → shape a = shape b.
Proof.
  intros H. unfold shape. f_equal; [f_equal; [exact (f_equal a_ID H)|exact (f_equal a_EntryMemberID H)]|].
  rewrite (list_fmap_ext static (static ∘ freeze) (a_Members a)) by done.
  rewrite (list_fmap_ext static (static ∘ freeze) (a_Members b)) by done.
  by rewrite !list_fmap_compose, (frozen_members a b H).
Qed.

(** [f] changes only what running a member changes. *)
Definition dynamic (f : AutomationMember → AutomationMember) : Prop := ∀ m, freeze (f m) = freeze m.

Lemma frozen_upd i f a : dynamic f → frozen (upd i f a) = frozen a.
Proof.
  intros Hf. unfold frozen, upd. cbn. do 7 f_equal. rewrite (list_fmap_alter freeze f (λ m, m)); [|apply Forall_forall; auto].
  by rewrite list_alter_id.
Qed.

Lemma frozen_addCursor id a : frozen (addCursor id a) = frozen a.
Proof. unfold addCursor. by destruct (automationIsLinear a). Qed.
Lemma frozen_dropCursor id a : frozen (dropCursor id a) = frozen a.
Proof. unfold dropCursor. by destruct (automationIsLinear a). Qed.

Lemma shape_lookup a g i m :
  shape a = shape g → a_Members g !! i = Some m → ∃ n, a_Members a !! i = Some n ∧ static n = static m.
Proof.
  intros Hs%shape_members Hm. assert ((static <$> a_Members a) !! i = Some (static m)) as H.
  { by rewrite Hs, list_lookup_fmap, Hm. }
  rewrite list_lookup_fmap in H. apply fmap_Some in H as (n&Hn&He). eauto.
Qed.

(** ** What steps leave alone *)

Section frozen_ops.
Context (snap : gmap string memberInfo) (now : Time) (choice : string).
Abbreviation keeps st' st := (frozen (st_a st') = frozen (st_a st)).

Lemma frozen_finish mem e st : keeps (finish now mem e st) st.
Proof. unfold finish. cbn. etrans; [apply frozen_dropCursor|]. by apply (frozen_upd mem). Qed.

Lemma frozen_pathEnded s n r st : keeps (pathEnded now s n r st) st.
Proof. unfold pathEnded. destruct (cursorsRemain _); [done|]. by destruct s. Qed.

Lemma frozen_mark_running i st : keeps (mark_running now i st) st.
Proof. unfold mark_running. cbn. etrans; [apply frozen_addCursor|]. by apply (frozen_upd i). Qed.

Lemma frozen_startPRD i r b st : keeps (startPRD snap now i r b st) st.
Proof. apply frozen_mark_running. Qed.

Lemma frozen_startNested i b st : keeps (startNested snap now i b st) st.
Proof. apply frozen_mark_running. Qed.

Lemma frozen_applyBudgetGate a mem v noWait : frozen (applyBudgetGate a mem v now noWait).1 = frozen a.
Proof.
  unfold applyBudgetGate. set (a1 := match mem with Some _ => _ | None => a end).
  assert (frozen a1 = frozen a) as <-.
  { unfold a1. destruct mem; [|done]. destruct (isLiveCursor _ _); [done|]. apply frozen_addCursor. }
  clearbody a1. destruct (negb _); [by destruct (held _)|]. destruct (breach_response v noWait) as [act r].
  destruct (_ && _); [done|]. by destruct (String.eqb act BudgetActionPaused).
Qed.

Lemma frozen_budgetGate i v st : keeps (budgetGate now choice i v st) st.
Proof.
  unfold budgetGate. pose proof (frozen_applyBudgetGate (st_a st) (Some i) (set_assistant choice v) false) as H.
  by destruct (applyBudgetGate _ _ _ _ _).
Qed.

Lemma frozen_fork_loop fork bs rs st : keeps (fork_loop snap now fork bs rs st).1 st.
Proof.
  revert rs st. induction bs as [|b bs IH]; intros rs st; cbn [fork_loop]; [done|].
  destruct (automationMember (st_a st) b) as [i|]; [|done].
  destruct (is_kind _ _); [etrans; [apply IH|apply frozen_startNested]|].
  destruct (String.eqb _ ""); [|etrans; [apply IH|apply frozen_startPRD]].
  etrans; [apply IH|]. by apply (frozen_upd i).
Qed.

Lemma frozen_drop_pending ps a : frozen (drop_pending now ps a) = frozen a.
Proof.
  revert a. induction ps as [|b ps IH]; intros a; cbn [drop_pending]; [done|].
  destruct (automationMember a b) as [i|]; [|apply IH]. rewrite IH, frozen_upd by done. apply frozen_dropCursor.
Qed.

Lemma frozen_merged_end mem e st : keeps (merged_end now snap mem e st) st.
Proof. unfold merged_end. destruct (e_merged e) as [n|]; [|done]. cbn. by destruct (_ && mn_cancelled n). Qed.

Lemma frozen_finalize st : keeps (finalize now st) st.
Proof.
  unfold finalize. cbn zeta. set (st1 := on_a _ st). assert (frozen (st_a st1) = frozen (st_a st)) as <-.
  { unfold st1. cbn. by destruct (automationIsLinear (st_a st)). }
  clearbody st1. set (st2 := if nonempty (ef_blocked (st_eff st1)) then _ else _).
  assert (frozen (st_a st2) = frozen (st_a st1)) as <-.
  { unfold st2. destruct (nonempty _); [done|]. by destruct (nonempty _). }
  clearbody st2. by destruct (_ && _).
Qed.
End frozen_ops.

(** ** Well-formed graphs, walked along their edges *)

Lemma member_ne a m : wf_graph a → m ∈ a_Members a → m_ID m ≠ "".
Proof. intros W Hm He. apply (wf_named a W m Hm). by rewrite He. Qed.

Lemma member_index a m : wf_graph a → m ∈ a_Members a → ∃ i, automationMember a (m_ID m) = Some i ∧ a_Members a !! i = Some m.
Proof.
  intros W Hm. apply list_elem_of_lookup in Hm as Hi. destruct Hi as [i Hi]. exists i. split; [|done].
  apply automationMember_Some; [apply W|]. split; [by apply (member_ne a)|]. eauto.
Qed.

Lemma member_edge_target a u v : wf_graph a → member_edge a u v → v ∈ m_ID <$> a_Members a.
Proof.
  intros W [m Hm Hu Hv|m Hm Hu Hk Hv|m j Hm Hu Hj Hv Hk Hb].
  - destruct (wf_edges a W m v Hm Hv) as (_&n&Hn&<-&_). by apply list_elem_of_fmap_2.
  - destruct (wf_branch a W m v Hm) as (n&Hn&<-&_); [set_solver|]. by apply list_elem_of_fmap_2.
  - rewrite <- Hv. by apply list_elem_of_fmap_2.
Qed.

(** The members in an order in which every edge leads to a later one. *)
Definition ordered (a : Automation) (fin : list string) : Prop :=
  topo (member_edge a) fin ∧ (∀ m, m ∈ a_Members a → m_ID m ∈ fin) ∧ (length fin ≤ length (a_Members a))%nat.

Lemma ordered_shape a b fin : shape a = shape b → ordered a fin → ordered b fin.
Proof.
  intros Hs (Ht&Hall&Hlen). split_and!.
  - assert (∀ u v, member_edge b u v → member_edge a u v) as He by (intros u v; by apply shape_edge_iff).
    clear Hall Hlen. revert Ht. induction fin as [|u rest IH]; [done|]. intros (?&Hu&?). simpl. split_and!; [done| |auto]. intros v Hv. auto.
  - intros m Hm. destruct (shape_elem a b m Hs Hm) as (n&Hn&He). rewrite <- (static_ID _ _ He). auto.
  - by rewrite <- (shape_length Hs).
Qed.

Lemma wf_ordered `{!TimeZones, !MapRange} a : wf a → a_Status a ≠ AutomationDraft → ∃ fin, ordered a fin.
Proof.
  intros W Hd. pose proof (wf_members a W) as G.
  assert (∀ u v, leads (automationSuccessors a) u v ↔ member_edge a u v) as He
    by (intros; apply leads_member_edge; [apply G|intros i j b; apply (wf_join_once a G)]).
  assert (∀ x y, rtc (leads (automationSuccessors a)) x y ↔ rtc (member_edge a) x y) as Hrtc.
  { intros x y. split; apply rtc_congruence with (f := λ z, z); intros u v; apply He. }
  assert (∃ fin, topo (member_edge a) fin ∧ ∀ x, rtc (member_edge a) (a_EntryMemberID a) x → x ∈ fin) as (fin&Ht&Hall).
  { pose proof (proj2 (graph_Ok a G) (wf_acyclic a W)) as Hc. destruct (automationHasCycle a) as [c|] eqn:E; [done|].
    destruct (no_cycle_topo a E) as (fin&Ht&Hall). exists fin. split; [|intros x Hx; by apply Hall, Hrtc].
    clear Hall E. revert Ht. induction fin as [|u rest IH]; [done|]. intros (?&Hu&?). simpl. split_and!; [done| |auto].
    intros v Hv. by apply Hu, He. }
  exists (filter (λ x, x ∈ m_ID <$> a_Members a) fin). split_and!.
  - apply topo_filter; [|done]. intros u v. by apply member_edge_target.
  - intros m Hm. apply list_elem_of_filter. split; [by apply list_elem_of_fmap_2|]. by apply Hall, (wf_reachable a W).
  - rewrite <- (length_fmap m_ID). apply submseteq_length, NoDup_submseteq; [by apply NoDup_filter, (topo_NoDup _ _ Ht)|].
    by intros x [? _]%list_elem_of_filter.
Qed.

(** ** Looking at a member through a step *)

Section look.
Context {g : Automation} (W : wf_graph g).

Lemma index_member id i : automationMember g id = Some i → mem_at g i ∈ a_Members g ∧ m_ID (mem_at g i) = id.
Proof.
  intros (_&m&Hl&<-)%(automationMember_Some g id i (wf_ids g W)). rewrite (mem_at_lookup _ _ _ Hl).
  split; [by eapply list_elem_of_lookup_2|done].
Qed.

Lemma look_static a i id : shape a = shape g → automationMember g id = Some i → static (mem_at a i) = static (mem_at g i).
Proof.
  intros Hs (_&m&Hl&<-)%(automationMember_Some g id i (wf_ids g W)).
  destruct (shape_lookup a g i m Hs Hl) as (n&Hn&He). by rewrite (mem_at_lookup _ _ _ Hl), (mem_at_lookup _ _ _ Hn).
Qed.

Lemma look_ID a i id : shape a = shape g → automationMember g id = Some i → m_ID (mem_at a i) = id.
Proof. intros Hs Hi. rewrite (static_ID _ _ (look_static a i id Hs Hi)). by apply index_member. Qed.

Lemma look_kind a i id k : shape a = shape g → automationMember g id = Some i → is_kind k (mem_at a i) = is_kind k (mem_at g i).
Proof. intros Hs Hi. unfold is_kind. by rewrite (static_kind _ _ (look_static a i id Hs Hi)). Qed.

Lemma look_complete a i id : shape a = shape g → automationMember g id = Some i → m_OnComplete (mem_at a i) = m_OnComplete (mem_at g i).
Proof. intros Hs Hi. exact (f_equal m_OnComplete (look_static a i id Hs Hi)). Qed.

Lemma look_joins a i id : shape a = shape g → automationMember g id = Some i → m_JoinMembers (mem_at a i) = m_JoinMembers (mem_at g i).
Proof. intros Hs Hi. exact (f_equal m_JoinMembers (look_static a i id Hs Hi)). Qed.

Lemma look_forks a i id : shape a = shape g → automationMember g id = Some i → m_ForkMembers (mem_at a i) = m_ForkMembers (mem_at g i).
Proof. intros Hs Hi. exact (f_equal m_ForkMembers (look_static a i id Hs Hi)). Qed.

Lemma index_eq i id id' : automationMember g id = Some i → automationMember g id' = Some i → id = id'.
Proof. intros H%index_member H'%index_member. destruct H as [_ <-], H' as [_ <-]. done. Qed.

Lemma edge_target_edge i id e t :
  automationMember g id = Some i → edgeTarget (mem_at g i) e = t → t ≠ "" → member_edge g id t.
Proof.
  intros Hi <- Hne. destruct (index_member id i Hi) as [Hm Hid]. apply (edge_outcome _ _ _ (mem_at g i)); [done..|].
  apply elem_of_outcome_edges. split; [done|]. unfold edgeTarget in *. repeat case_match; tauto.
Qed.

(** The join a fork is paired with: the fork leads to its branches, the branches
    to the join. *)
Lemma joinFor_spec a f i id j :
  shape a = shape g → automationMember g id = Some i → static f = static (mem_at g i) → kind f = MemberKindFork → joinFor a f = Some j →
  ∃ jid, automationMember g jid = Some j ∧ kind (mem_at g j) = MemberKindJoin
    ∧ m_JoinMembers (mem_at g j) ≡ₚ m_ForkMembers (mem_at g i) ∧ m_ForkMembers f = m_ForkMembers (mem_at g i)
    ∧ tc (member_edge g) id jid
    ∧ (∀ b, b ∈ m_ForkMembers (mem_at g i) → member_edge g id b ∧ member_edge g b jid).
Proof.
  intros Hs Hi Hf Hk Hj. destruct (index_member id i Hi) as [Hm Hid].
  assert (m_ForkMembers f = m_ForkMembers (mem_at g i)) as Hff by exact (f_equal m_ForkMembers Hf).
  assert (kind (mem_at g i) = MemberKindFork) as Hkg by (by rewrite <- (static_kind _ _ Hf)).
  rewrite (shape_joinFor Hs f f eq_refl) in Hj. unfold joinFor, first_member in Hj.
  apply fmap_Some in Hj as ([j' m]&Hl&->). apply list_find_Some in Hl as (Hl&Hp&_). bools.
  match goal with H : is_kind _ _ = true |- _ => apply is_kind_true in H; rename H into Hkj end.
  match goal with H : sameMemberSet _ _ = true |- _ => rename H into Hsame end.
  assert (m ∈ a_Members g) as Hmj by (by eapply list_elem_of_lookup_2). simpl.
  assert (automationMember g (m_ID m) = Some j') as Hix.
  { apply automationMember_Some; [apply W|]. split; [by apply (member_ne g)|]. eauto. }
  assert (mem_at g j' = m) as -> by (by apply mem_at_lookup).
  destruct (wf_join g W m Hmj Hkj) as (Hlen&Hnd&_).
  pose proof (sameMemberSet_Permutation _ _ Hnd Hsame) as Hperm. rewrite Hff in Hperm.
  assert (∀ b, b ∈ m_ForkMembers (mem_at g i) → member_edge g id b ∧ member_edge g b (m_ID m)) as Hb.
  { intros b Hb. assert (b ∈ m_JoinMembers m) as Hbj by (by rewrite Hperm).
    destruct (wf_branch g W m b Hmj) as (n&Hn&<-&_); [set_solver|]. split.
    - by apply (edge_branch _ _ _ (mem_at g i)).
    - by apply (edge_join _ _ _ n m). }
  exists (m_ID m). split_and!; [done..| |done].
  destruct (m_ForkMembers (mem_at g i)) as [|b bs] eqn:E; [by rewrite Hperm in Hlen; simpl in Hlen; lia|].
  destruct (Hb b) as [H1 H2]; [left|]. by eapply tc_l, tc_once.
Qed.
End look.

