(* ===== verification/AutomationEnds.v ===== *)
(** * Automations: every step ends, and keeps the record well formed

    Every call of [enter] for a join's next member goes further along the edges,
    so a step of an Automation without cycles ends within the fuel. [tame] is
    what holds of the record all along a step, whatever the statuses and cursors
    were before it. *)

From S2P Require Import Prelude GoBase GoText Graph AutomationSettings.
From S2P Require Import Automation AutomationGraph AutomationValidate AutomationWf.
From S2P Require Import AutomationAccept AutomationStep AutomationFrame.

#[local] Open Scope Z_scope.

(** ** A step ends *)

(** The statuses but draft. *)
Definition statuses_run : list string := [AutomationActive; AutomationPaused; AutomationCompleted; AutomationBlocked; AutomationCancelled].

Lemma run_status s : s ∈ statuses_run ↔ s ∈ automation_statuses ∧ s ≠ AutomationDraft.
Proof.
  unfold statuses_run, automation_statuses. rewrite !elem_of_cons, elem_of_nil. split.
  - intros H. split; [tauto|]. intros ->. destruct H as [H|[H|[H|[H|[H|[]]]]]]; discriminate H.
  - tauto.
Qed.

Section total.
Context (g : Automation) (W : wf_graph g) (fin : list string) (O : ordered g fin).
Context (snap : gmap string memberInfo) (now : Time) (choice : string).

(** What a step keeps of an accepted record: the frozen part, its status or one of
    those that left draft, and cursors that are members. *)
Record tame (a : Automation) : Prop := {
  tm_frozen : frozen a = frozen g;
  tm_cursors : automationIsLinear g = false → ∀ c, c ∈ a_ActiveCursors a → c ∈ m_ID <$> a_Members g;
  tm_status : a_Status a ∈ a_Status g :: statuses_run
}.
Hint Resolve tm_frozen : core.

Lemma tame_from a b :
  tame a → frozen b = frozen a → (∀ c, c ∈ a_ActiveCursors b → c ∈ a_ActiveCursors a) → a_Status b = a_Status a → tame b.
Proof.
  intros [Hf Hc Hs] H1 H2 H3. split; [by rewrite H1|intros Hl c Hb; by apply Hc, H2|by rewrite H3].
Qed.

Lemma tame_upd i f a : dynamic f → tame a → tame (upd i f a).
Proof. intros Hf Ha. apply (tame_from a); [done|by apply frozen_upd|done|done]. Qed.

Lemma tame_dropCursor id a : tame a → tame (dropCursor id a).
Proof.
  intros Ha. apply (tame_from a); [done|by apply frozen_dropCursor| |]; unfold dropCursor; destruct (automationIsLinear a); try done.
  intros c. cbn. by intros [_ ?]%list_elem_of_filter.
Qed.

Lemma tame_addCursor id a : id ∈ m_ID <$> a_Members g → tame a → tame (addCursor id a).
Proof.
  intros Hid [Hf Hc Hs]. split; [by rewrite frozen_addCursor| |]; unfold addCursor; destruct (automationIsLinear a); try done.
  intros Hl c. cbn. intros [?| ->%list_elem_of_singleton]%elem_of_app; auto.
Qed.

Lemma tame_blocked a : tame a → tame (set_a_IdleSince (Some now) (set_a_Status AutomationBlocked a)).
Proof. intros [Hf Hc Hs]. split; [done|done|]. cbn. right. by apply one_of_true. Qed.

Lemma tame_pathEnded s n r st : tame (st_a st) → tame (st_a (pathEnded now s n r st)).
Proof.
  intros Ha. unfold pathEnded. destruct (cursorsRemain _); [by apply (tame_from (st_a st))|]. destruct s; [|by apply tame_blocked].
  destruct Ha as [Hf Hc Hs]. split; [done|by intros _ c ?%elem_of_nil|]. cbn. right. by apply one_of_true.
Qed.

Lemma id_member id i : automationMember g id = Some i → id ∈ m_ID <$> a_Members g.
Proof. intros H. destruct (index_member W id i H) as [Hm <-]. by apply list_elem_of_fmap_2. Qed.

Lemma tame_mark_running i id st :
  automationMember g id = Some i → tame (st_a st) → tame (st_a (mark_running now i st)).
Proof.
  intros Hi Ha. unfold mark_running. rewrite (look_ID W _ i id (frozen_shape (tm_frozen _ Ha)) Hi).
  apply tame_addCursor; [by eapply id_member|]. by apply tame_upd.
Qed.

Lemma tame_applyBudgetGate i id a v noWait :
  automationMember g id = Some i → tame a → tame (applyBudgetGate a (Some i) v now noWait).1.
Proof.
  intros Hi Ha. unfold applyBudgetGate. rewrite (look_ID W _ i id (frozen_shape (tm_frozen _ Ha)) Hi).
  set (a1 := if isLiveCursor a id then _ else _). assert (tame a1) as Ha1.
  { unfold a1. destruct (isLiveCursor _ _); [done|]. apply tame_addCursor; [by eapply id_member|done]. }
  clearbody a1. destruct (negb _). { destruct (held _); [done|]. by apply (tame_from a1). }
  destruct (breach_response v noWait) as [act r]. destruct (_ && _); [done|].
  destruct Ha1 as [Hf Hc Hs]. destruct (String.eqb act BudgetActionPaused); (split; [done|done|]; cbn; right; by apply one_of_true).
Qed.

Lemma tame_budgetGate i id v st :
  automationMember g id = Some i → tame (st_a st) → tame (st_a (budgetGate now choice i v st)).
Proof.
  intros Hi Ha. unfold budgetGate. pose proof (tame_applyBudgetGate i id (st_a st) (set_assistant choice v) false Hi Ha) as H.
  by destruct (applyBudgetGate _ _ _ _ _).
Qed.

Lemma tame_fork_loop fork bs rs st : tame (st_a st) → tame (st_a (fork_loop snap now fork bs rs st).1).
Proof.
  revert rs st. induction bs as [|b bs IH]; intros rs st Ha; cbn [fork_loop]; [done|].
  rewrite (shape_automationMember (frozen_shape (tm_frozen _ Ha))).
  destruct (automationMember g b) as [i|] eqn:Hi; [|by apply tame_blocked].
  destruct (is_kind _ _); [apply IH; by apply (tame_mark_running i b)|].
  destruct (String.eqb _ ""); apply IH; [|by apply (tame_mark_running i b)].
  apply (tame_from (upd i (end_branch now MemberFailed "gate-denied") (st_a st))); [by apply tame_upd|done..].
Qed.

Lemma tame_drop_pending ps a : tame a → tame (drop_pending now ps a).
Proof.
  revert a. induction ps as [|b ps IH]; intros a Ha; cbn [drop_pending]; [done|].
  destruct (automationMember a b) as [i|]; apply IH; [|done]. apply tame_upd; [done|]. by apply tame_dropCursor.
Qed.

Lemma tame_finish mem e st : tame (st_a st) → tame (st_a (finish now mem e st)).
Proof. intros Ha. apply (tame_from (dropCursor (m_ID (mem_at (st_a st) mem)) (upd mem (λ m, set_m_EdgeTaken (e_edge e)
   (set_m_Outcome (e_outcome e) (set_m_FinishedAt (Some now) (set_m_Status (e_memStatus e) m)))) (st_a st)))); [|done..].
  apply tame_dropCursor. by apply tame_upd. Qed.

Lemma tame_merged_end mem e st : tame (st_a st) → tame (st_a (merged_end now snap mem e st)).
Proof.
  intros Ha. apply (tame_from (st_a st)); [done|apply frozen_merged_end|..]; unfold merged_end;
    (destruct (e_merged e) as [n|]; [|done]); cbn; by destruct (_ && mn_cancelled n).
Qed.

Lemma tame_finalize st : tame (st_a st) → tame (st_a (finalize now st)).
Proof.
  intros Ha. unfold finalize. cbn zeta. set (st1 := on_a _ st). assert (tame (st_a st1)) as H1.
  { unfold st1. cbn. destruct (automationIsLinear (st_a st)); [done|]. by apply (tame_from (st_a st)). }
  clearbody st1. set (st2 := if nonempty (ef_blocked (st_eff st1)) then _ else _). assert (tame (st_a st2)) as H2.
  { apply (tame_from (st_a st1)); [done|..]; unfold st2; (destruct (nonempty _); [done|]); by destruct (nonempty _). }
  clearbody st2. destruct (_ && _); [|done]. by apply (tame_from (st_a st2)).
Qed.

Definition ends (r : option stepper) : Prop := ∃ st, r = Some st ∧ tame (st_a st).

Lemma ends_Some st : tame (st_a st) → ends (Some st).
Proof. unfold ends. eauto. Qed.

Lemma edge_rank u v : u ∈ m_ID <$> a_Members g → member_edge g u v → (rank fin v < rank fin u)%nat.
Proof.
  intros Hu Hv. destruct O as (Ht&Hall&_). apply (rank_decreases (member_edge g)); [done| |done].
  apply list_elem_of_fmap in Hu as (m&->&Hm). auto.
Qed.

Lemma tc_rank u v : u ∈ m_ID <$> a_Members g → tc (member_edge g) u v → (rank fin v < rank fin u)%nat.
Proof.
  intros Hu H. induction H as [u v Huv|u w v Huw _ IH]; [by apply edge_rank|].
  pose proof (edge_rank u w Hu Huw). pose proof (IH (member_edge_target g u w W Huw)). lia.
Qed.

Section enter.
Context (enter : nat → stepper → option stepper) (n : nat).
Hypothesis enter_ends : ∀ i id st,
  tame (st_a st) → automationMember g id = Some i → (rank fin id < n)%nat → ends (enter i st).

Lemma follow_ends i target e fn r st :
  tame (st_a st) → (target ≠ "" → rank fin target < n)%nat →
  ends (follow snap now enter i target e fn r st).
Proof.
  intros Hs Hr. unfold follow. destruct (String.eqb_spec target "") as [->|Hne].
  - by apply ends_Some, tame_pathEnded.
  - rewrite (shape_automationMember (frozen_shape (tm_frozen _ Hs))).
    destruct (automationMember g target) as [k|] eqn:Hk; [|by apply ends_Some, tame_blocked].
    apply (enter_ends k target); [done..|]. auto.
Qed.

Lemma evalJoin_ends j id st :
  tame (st_a st) → automationMember g id = Some j → (rank fin id ≤ n)%nat → ends (evalJoin snap now enter id st).
Proof.
  intros Hs Hj Hr. unfold evalJoin. rewrite (shape_automationMember (frozen_shape (tm_frozen _ Hs))), Hj.
  destruct (negb _); [by apply ends_Some|]. destruct (classifyBranches _ _) as [[won pending] failed].
  assert (∀ rule w f p, ends (fireJoin snap now enter j rule w f p st)) as Hfire.
  { intros rule w f p. unfold fireJoin. cbn zeta. set (st1 := on_a (upd j _) _).
    assert (tame (st_a st1)) as Hs1 by (apply (tame_upd j); [done|]; by apply tame_drop_pending).
    apply (follow_ends j); [by apply (tame_from (st_a st1))|].
    rewrite (look_complete W (st_a st1) j id (frozen_shape (tm_frozen _ Hs1)) Hj). intros Hne.
    eapply Nat.lt_le_trans; [|exact Hr]. apply edge_rank; [by eapply id_member|].
    by apply (edge_target_edge W j id edgeOnComplete). }
  assert (∀ rule f r, ends (Some (blockJoin now j rule f r st))) as Hblock.
  { intros. apply ends_Some, tame_blocked. by apply (tame_upd j). }
  repeat case_match; auto; by apply ends_Some.
Qed.

Lemma fireFork_ends i id st :
  tame (st_a st) → automationMember g id = Some i → kind (mem_at g i) = MemberKindFork →
  (rank fin id ≤ n)%nat → ends (fireFork snap now enter i st).
Proof.
  intros Hs Hi Hk Hr. unfold fireFork. cbn zeta. set (st1 := on_a (upd i _) st).
  assert (tame (st_a st1)) as Hs1 by (by apply (tame_upd i)).
  pose proof (look_static W (st_a st1) i id (frozen_shape (tm_frozen _ Hs1)) Hi) as Hst.
  destruct (joinFor (st_a st1) (mem_at (st_a st1) i)) as [j|] eqn:Hj; [|by apply ends_Some, tame_blocked].
  destruct (joinFor_spec W _ _ i id j (frozen_shape (tm_frozen _ Hs1)) Hi Hst) as (jid&Hjid&Hkj&_&_&Htc&_);
    [by rewrite (static_kind _ _ Hst)|done|].
  set (st2 := on_a (upd j _) st1). assert (tame (st_a st2)) as Hs2 by (by apply (tame_upd j)).
  rewrite (look_ID W (st_a st2) j jid (frozen_shape (tm_frozen _ Hs2)) Hjid).
  pose proof (tame_fork_loop (m_ID (mem_at (st_a st1) i)) (sortedCopy (m_ForkMembers (mem_at (st_a st1) i))) [] st2 Hs2) as Hl.
  destruct (fork_loop _ _ _ _ _ _) as [st3 [res|]]; [|by apply ends_Some].
  apply (evalJoin_ends j); [by apply (tame_from (st_a st3))|done|].
  pose proof (tc_rank id jid (id_member id i Hi) Htc). lia.
Qed.

Lemma enter_body_ends i id st :
  tame (st_a st) → automationMember g id = Some i → (rank fin id ≤ n)%nat → ends (enter_body snap now choice enter i st).
Proof.
  intros Hs Hi Hr. pose proof (look_ID W _ i id (frozen_shape (tm_frozen _ Hs)) Hi) as Hid.
  assert (∀ st, tame (st_a st) → ends (enter_kind snap now enter i st)) as Hkind.
  { clear st Hs Hid. intros st Hs. pose proof (look_ID W _ i id (frozen_shape (tm_frozen _ Hs)) Hi) as Hid.
    unfold enter_kind. rewrite Hid. destruct (is_kind MemberKindPRD _).
    { destruct (String.eqb _ ""); apply ends_Some.
      - apply tame_blocked. apply tame_addCursor; [by eapply id_member|done].
      - by apply (tame_mark_running i id). }
    destruct (is_kind MemberKindAutomation _); [apply ends_Some; by apply (tame_mark_running i id)|].
    destruct (is_kind MemberKindFork _) eqn:Hk; [|by apply ends_Some, tame_blocked].
    apply (fireFork_ends i id); [done..| |done].
    rewrite (look_kind W _ i id _ (frozen_shape (tm_frozen _ Hs)) Hi) in Hk. by apply is_kind_true. }
  unfold enter_body. rewrite Hid. destruct (String.eqb _ AutomationPaused).
  { apply ends_Some. apply tame_addCursor; [by eapply id_member|done]. }
  destruct (is_kind MemberKindJoin _); [by apply Hkind|].
  destruct (bv_Gate _); [apply ends_Some; by apply (tame_budgetGate i id)|].
  apply Hkind. cbn. destruct (a_BudgetState (st_a st)); [by apply (tame_from (st_a st))|done].
Qed.
End enter.

Lemma enter_ends f i id st :
  tame (st_a st) → automationMember g id = Some i → (rank fin id < f)%nat → ends (enter snap now choice f i st).
Proof.
  revert i id st. induction f as [|f IH]; intros i id st Hs Hi Hr; [lia|]. cbn [enter].
  apply (enter_body_ends _ f) with (id := id); [done..|lia].
Qed.

Lemma rank_fuel id : (rank fin id < enter_fuel g)%nat.
Proof. unfold enter_fuel. pose proof (rank_le fin id). destruct O as (_&_&?). lia. Qed.
End total.

(** ** Every step of an accepted record ends, and keeps it accepted *)

Lemma joinOf_index g id j : wf_graph g → joinOf g id = Some j → ∃ jid, automationMember g jid = Some j.
Proof.
  intros W H. unfold joinOf, first_member in H. apply fmap_Some in H as ([j' m]&Hl&->). apply list_find_Some in Hl as (Hl&_&_).
  exists (m_ID m). apply automationMember_Some; [apply W|]. split; [|eauto]. apply (member_ne g); [done|]. by eapply list_elem_of_lookup_2.
Qed.

Section steps.
Context (a : Automation) (W : wf_graph a) (fin : list string) (O : ordered a fin).
Hypothesis cursors_ok : automationIsLinear a = false → ∀ c, c ∈ a_ActiveCursors a → c ∈ m_ID <$> a_Members a.

Definition tame_result (r : option (res (Automation * stepEffects))) : Prop :=
  ∃ x, r = Some x ∧ match x with Ok (a', _) => tame a a' | Err _ => True end.

Lemma tame_err e : tame_result (Some (Err e)).
Proof. by exists (Err e). Qed.

Lemma tame_result_of now st : ends a st → tame_result (result_of now st).
Proof.
  intros (st'&->&Ht). exists (Ok (st_a (finalize now st'), st_eff (finalize now st'))). split; [done|]. by apply tame_finalize.
Qed.

Lemma tame_bind o k : ends a o → (∀ st, tame a (st_a st) → tame_result (k st)) → tame_result (o ≫= k).
Proof. intros (st&->&Ht) Hk. by apply Hk. Qed.

Lemma tame_self : tame a a.
Proof. split; [done|done|left]. Qed.

Lemma step_tame wall i snap : tame_result (step wall a i snap).
Proof.
  unfold step. destruct (si_reeval i); [|destruct (si_startPending i)].
  - unfold stepJoinReeval. destruct (automationMember a (si_memberID i)) as [j|] eqn:Hj; [|apply tame_err].
    destruct (negb _); [apply tame_err|]. cbn zeta. destruct (index_member W _ _ Hj) as [_ ->].
    apply tame_bind.
    + apply (evalJoin_ends a W fin O snap _ _ (enter_fuel a)) with (j := j); [|apply tame_self|done|by apply Nat.lt_le_incl, rank_fuel].
      apply (enter_ends a W fin O).
    + intros st Ht. destruct (String.eqb _ _); [apply tame_err|]. apply tame_result_of. by exists st.
  - unfold stepStartPending. destruct (automationMember a (si_memberID i)) as [k|] eqn:Hk; [|apply tame_err].
    destruct (negb _); [apply tame_err|]. destruct (negb _); [apply tame_err|]. destruct (budgetNoChange _ _); [apply tame_err|].
    cbn zeta. apply tame_bind.
    + apply (enter_ends a W fin O) with (id := si_memberID i); [|done|by apply rank_fuel]. apply tame_dropCursor, tame_self.
    + intros st Ht. apply tame_result_of. eexists. split; [done|]. destruct (_ && _); [|done]. by apply tame_dropCursor.
  - unfold stepEnd. destruct (automationMember a (si_memberID i)) as [k|] eqn:Hk; [|apply tame_err].
    destruct (negb _); [apply tame_err|]. destruct (_ && _); [apply tame_err|]. cbn zeta. apply tame_result_of.
    set (now := at_time wall i). set (st1 := merged_end now snap k (si_end i) (new_stepper a)).
    assert (tame a (st_a st1)) as H1 by (apply tame_merged_end, tame_self).
    rewrite (shape_joinOf (frozen_shape (tm_frozen _ _ H1))). destruct (joinOf a _) as [j|] eqn:Hj.
    + destruct (joinOf_index a _ j W Hj) as [jid Hjid]. set (st2 := finish now k _ st1).
      assert (tame a (st_a st2)) as H2 by (by apply tame_finish).
      rewrite (look_ID W _ j jid (frozen_shape (tm_frozen _ _ H2)) Hjid).
      apply (evalJoin_ends a W fin O snap now _ (enter_fuel a)) with (j := j); [|by apply (tame_from a (st_a st2))|done|by apply Nat.lt_le_incl, rank_fuel].
      apply (enter_ends a W fin O).
    + set (st2 := finish now k _ st1). assert (tame a (st_a st2)) as H2 by (by apply tame_finish).
      destruct (nonempty _); [by apply ends_Some, tame_blocked|]. unfold followEdge.
      apply (follow_ends a fin snap now _ (enter_fuel a)); [by apply (enter_ends a W fin O)|done|]. intros _. by apply rank_fuel.
Qed.
End steps.

(** ** Accepted records *)

Lemma frozen_elem a b m : frozen a = frozen b → m ∈ a_Members a → ∃ n, n ∈ a_Members b ∧ freeze n = freeze m.
Proof.
  intros H%frozen_members Hm. apply (list_elem_of_fmap_2 freeze) in Hm. rewrite H in Hm.
  apply list_elem_of_fmap in Hm as (n&He&Hn). eauto.
Qed.

Lemma frozen_normalize a : frozen (normalizeActiveCursors a) = frozen a.
Proof. unfold normalizeActiveCursors. by destruct (automationIsLinear a). Qed.

Lemma tame_wf `{!TimeZones, !MapRange} a a' :
  wf a → a_Status a ≠ AutomationDraft → tame a a' → wf (normalizeActiveCursors a').
Proof.
  intros W Hd [Hf Hc Hs]. pose proof (frozen_normalize a') as Hn. set (b := normalizeActiveCursors a') in *.
  assert (frozen b = frozen a) as Hb by (by rewrite Hn). pose proof (frozen_shape Hb) as Hsh.
  assert (a_Status b = a_Status a') as Hst by (unfold b, normalizeActiveCursors; by destruct (automationIsLinear a')).
  destruct (wf_settings a W) as (Hms&Hp&Hda&Ht). apply (wf_of_shape a); [done|done|..].
  - rewrite (f_equal a_Name Hb : a_Name b = a_Name a). apply W.
  - rewrite Hst. apply elem_of_cons in Hs as [->|Hs]; [apply W|by apply run_status].
  - split_and!.
    + intros m Hm. destruct (frozen_elem b a m Hb Hm) as (n&Hnm&He).
      rewrite <- (f_equal m_BudgetPolicy He : m_BudgetPolicy n = m_BudgetPolicy m),
        <- (f_equal m_DecisionAssistant He : m_DecisionAssistant n = m_DecisionAssistant m). by apply Hms.
    + by rewrite (f_equal a_BudgetPolicy Hb : a_BudgetPolicy b = a_BudgetPolicy a).
    + by rewrite (f_equal a_DecisionAssistant Hb : a_DecisionAssistant b = a_DecisionAssistant a).
    + by rewrite (f_equal a_AutoTags Hb : a_AutoTags b = a_AutoTags a).
  - intros Hl. assert (automationIsLinear a' = false) as Hl' by (by rewrite <- Hl; apply shape_linear, frozen_shape).
    unfold b, normalizeActiveCursors. rewrite Hl'. cbn. split; [apply NoDup_sortedUnique|]. intros c. rewrite elem_of_sortedUnique.
    rewrite (shape_ids (frozen_shape Hf)). apply Hc. by rewrite <- (shape_linear (frozen_shape Hf)).
  - done.
Qed.

Lemma tame_left g a : a_Status g ≠ AutomationDraft → tame g a → a_Status a ≠ AutomationDraft.
Proof. intros Hd [_ _ [->|Hs]%elem_of_cons]; [done|]. by apply run_status. Qed.

(** A step of an accepted record, at once. *)
Lemma step_of_wf `{!TimeZones, !MapRange} wall a i snap :
  wf a → a_Status a ≠ AutomationDraft → tame_result a (step wall a i snap).
Proof.
  intros W Hd. destruct (wf_ordered a W Hd) as [fin O]. apply (step_tame a (wf_members a W) fin O).
  intros Hl. by apply (wf_cursors a W Hl).
Qed.
