(* ===== verification/AutomationFrontier.v ===== *)
(** * Automations: where the work stands

    A well-formed graph has one line of work: a single cursor on a member that is
    no branch, or a waiting join whose live branches are the cursors, or no work
    at all once the record is stopped. [settled] says which, and that everything
    started so far lies before it along the edges; hence no member is started
    twice. The rules of the joins and forks are read off it. *)

From S2P Require Import Prelude GoBase GoText Graph AutomationSettings.
From S2P Require Import Automation AutomationGraph AutomationValidate AutomationWf.
From S2P Require Import AutomationAccept AutomationStep AutomationFrame.

#[local] Open Scope Z_scope.

Definition unstarted (s : string) : Prop := s = MemberPending ∨ s = "".
Definition over (s : string) : Prop := ¬ unstarted s ∧ s ≠ MemberRunning.

#[export] Instance unstarted_dec s : Decision (unstarted s).
Proof. unfold unstarted. apply _. Defined.

Lemma memberUnstarted_true m : memberUnstarted m = true ↔ unstarted (m_Status m).
Proof. unfold memberUnstarted, unstarted. by rewrite orb_true_iff, !String.eqb_eq. Qed.

Lemma running_started : ¬ unstarted MemberRunning.
Proof. by intros [|]. Qed.

(** The cursors in use: the single one of a linear Automation, else the set. *)
Definition cursors (a : Automation) : list string :=
  if automationIsLinear a then (if nonempty (a_CurrentMemberID a) then [a_CurrentMemberID a] else []) else a_ActiveCursors a.

Lemma isLive_cursors a id : id ≠ "" → isLiveCursor a id = true ↔ id ∈ cursors a.
Proof.
  intros Hne. unfold isLiveCursor, cursors. destruct (automationIsLinear a); [|by rewrite one_of_true].
  rewrite String.eqb_eq. destruct (nonempty (a_CurrentMemberID a)) eqn:E.
  - rewrite list_elem_of_singleton. naive_solver.
  - apply nonempty_false in E. rewrite E. set_solver.
Qed.

Lemma cursors_eq a b :
  automationIsLinear a = automationIsLinear b → a_CurrentMemberID a = a_CurrentMemberID b →
  a_ActiveCursors a = a_ActiveCursors b → cursors a = cursors b.
Proof. unfold cursors. by intros -> -> ->. Qed.

Lemma status_members a b : a_Members a = a_Members b → status a = status b.
Proof. intros H. unfold status, automationMember, first_member, mem_at. by rewrite H. Qed.

Section front.
Context {g : Automation} (W : wf_graph g).

Abbreviation of_g a := (frozen a = frozen g).

Lemma status_look a i id : of_g a → automationMember g id = Some i → status a id = m_Status (mem_at a i).
Proof. intros Ha Hi. unfold status. by rewrite (shape_automationMember (frozen_shape Ha)), Hi. Qed.

Lemma status_none a id : of_g a → automationMember g id = None → status a id = "".
Proof. intros Ha Hi. unfold status. by rewrite (shape_automationMember (frozen_shape Ha)), Hi. Qed.

Lemma started_member a id : of_g a → ¬ unstarted (status a id) → ∃ i, automationMember g id = Some i.
Proof.
  intros Ha Hs. destruct (automationMember g id) as [i|] eqn:E; [eauto|]. exfalso. apply Hs. rewrite status_none by done. by right.
Qed.

Lemma index_lookup_lt i id : automationMember g id = Some i → is_Some (a_Members g !! i).
Proof. intros (_&m&Hl&_)%(automationMember_Some g id i (wf_ids g W)). by rewrite Hl. Qed.

Lemma mem_at_upd a i id f k : of_g a → automationMember g id = Some i →
  mem_at (upd i f a) k = if decide (k = i) then f (mem_at a i) else mem_at a k.
Proof.
  intros Ha Hi. unfold mem_at, upd. cbn. rewrite list_lookup_alter. destruct (decide (i = k)) as [->|Hne].
  - rewrite decide_True by done. destruct (index_lookup_lt k id Hi) as [m Hm].
    destruct (shape_lookup a g k m (frozen_shape Ha) Hm) as (n&Hn&_). by rewrite Hn.
  - by rewrite decide_False.
Qed.

Lemma status_upd a i id f x : of_g a → automationMember g id = Some i → dynamic f →
  status (upd i f a) x = if decide (x = id) then m_Status (f (mem_at a i)) else status a x.
Proof.
  intros Ha Hi Hf. assert (of_g (upd i f a)) as Hu by (by rewrite frozen_upd).
  destruct (automationMember g x) as [k|] eqn:Hk.
  - rewrite (status_look _ k x Hu Hk), (mem_at_upd a i id f k Ha Hi). destruct (decide (k = i)) as [->|Hne].
    + rewrite decide_True; [done|]. by eapply index_eq.
    + rewrite decide_False; [by rewrite (status_look a k x)|]. intros ->. congruence.
  - rewrite status_none by done. rewrite decide_False; [by rewrite status_none|]. intros ->. congruence.
Qed.

Lemma linear_of_g a : of_g a → automationIsLinear a = automationIsLinear g.
Proof. intros Ha. by apply shape_linear, frozen_shape. Qed.

Lemma cursors_upd a i f : of_g a → dynamic f → cursors (upd i f a) = cursors a.
Proof.
  intros Ha Hf. apply cursors_eq; [|done|done]. rewrite (linear_of_g a Ha). apply linear_of_g. by rewrite frozen_upd.
Qed.

Lemma status_addCursor id a : status (addCursor id a) = status a.
Proof. apply status_members. unfold addCursor. by destruct (automationIsLinear a). Qed.
Lemma status_dropCursor id a : status (dropCursor id a) = status a.
Proof. apply status_members. unfold dropCursor. by destruct (automationIsLinear a). Qed.

Lemma cursors_addCursor id a : of_g a → id ≠ "" →
  cursors (addCursor id a) = if automationIsLinear g then [id] else cursors a ++ [id].
Proof.
  intros Ha Hne. unfold cursors. rewrite (linear_of_g (addCursor id a)) by (by rewrite frozen_addCursor).
  rewrite (linear_of_g a Ha). unfold addCursor. rewrite (linear_of_g a Ha). destruct (automationIsLinear g); [|done].
  cbn. by rewrite (proj2 (nonempty_true id) Hne).
Qed.

Lemma cursors_dropCursor id a : of_g a →
  cursors (dropCursor id a) = if automationIsLinear g then cursors a else filter (λ c, negb (String.eqb c id) = true) (cursors a).
Proof.
  intros Ha. unfold cursors. rewrite (linear_of_g (dropCursor id a)) by (by rewrite frozen_dropCursor).
  rewrite (linear_of_g a Ha). unfold dropCursor. rewrite (linear_of_g a Ha). by destruct (automationIsLinear g).
Qed.

Lemma elem_of_dropped id (l : list string) x : x ∈ filter (λ c, negb (String.eqb c id) = true) l ↔ x ∈ l ∧ x ≠ id.
Proof. rewrite list_elem_of_filter, negb_true_iff, String.eqb_neq. tauto. Qed.

Lemma drop_singleton id : filter (λ c : string, negb (String.eqb c id) = true) [id] = [].
Proof. rewrite filter_cons_False; [done|]. by rewrite String.eqb_refl. Qed.

(** ** The line of work *)

(** The kind of a member, by id. *)
Definition kind_of (id : string) : string :=
  match automationMember g id with Some i => kind (mem_at g i) | None => "" end.
Definition branches_of (id : string) : list string :=
  match automationMember g id with Some i => m_JoinMembers (mem_at g i) | None => [] end.

Definition before : string → string → Prop := rtc (member_edge g).
Definition strictly_before : string → string → Prop := tc (member_edge g).

(** No work in hand: nothing runs, and no cursor but the spent one of a linear
    Automation. *)
Definition quiet (a : Automation) : Prop :=
  (automationIsLinear g = false → cursors a = []) ∧ ∀ x, status a x ≠ MemberRunning.

(** One cursor, on a member that is no branch: started, or waiting to start. *)
Record main_at (a : Automation) (c : string) : Prop := {
  ma_cursor : cursors a = [c];
  ma_kind : kind_of c ∈ [MemberKindPRD; MemberKindAutomation; MemberKindFork];
  ma_no_branch : joinOf g c = None;
  ma_status : unstarted (status a c) ∨ (status a c = MemberRunning ∧ kind_of c ≠ MemberKindFork);
  ma_alone x : status a x = MemberRunning → x = c;
  ma_before x : ¬ unstarted (status a x) → before x c
}.

(** A join waits: the cursors are its running branches, and nothing else runs. *)
Record waits_at (a : Automation) (j : string) : Prop := {
  wa_kind : kind_of j = MemberKindJoin;
  wa_status : status a j = MemberRunning;
  wa_nonlinear : automationIsLinear g = false;
  wa_cursors x : x ∈ cursors a ↔ x ∈ branches_of j ∧ status a x = MemberRunning;
  wa_nodup : NoDup (cursors a);
  wa_started b : b ∈ branches_of j → ¬ unstarted (status a b);
  wa_alone x : status a x = MemberRunning → x = j ∨ x ∈ branches_of j;
  wa_before x : ¬ unstarted (status a x) → before x j
}.

Definition stopped (a : Automation) : Prop := a_Status a ≠ AutomationActive ∧ a_Status a ≠ AutomationPaused.

(** No budget episode that blocks. *)
Definition unblocked (a : Automation) : Prop :=
  match a_BudgetState a with Some b => bs_Action b ≠ BudgetActionBlocked | None => True end.
Definition unfinished (a : Automation) : Prop := a_Status a ≠ AutomationCompleted.
Definition ongoing (a : Automation) : Prop := unfinished a ∧ unblocked a.

(** Work in hand, and the budget blocks only what is stopped; or no work. *)
Definition settled (a : Automation) : Prop :=
  ((∃ c, main_at a c) ∨ (∃ j, waits_at a j ∧ cursors a ≠ [])) ∧ unfinished a ∧ (stopped a ∨ unblocked a)
  ∨ (quiet a ∧ stopped a ∧ unblocked a).

(** The work may move on to [next]. *)
Definition ready_for (a : Automation) (next : string) : Prop :=
  quiet a ∧ ∀ x, ¬ unstarted (status a x) → strictly_before x next.

(** What is over stays as it is, what was started does not start again. *)
Definition mono (a a' : Automation) : Prop :=
  ∀ x, (over (status a x) → status a' x = status a x) ∧ (¬ unstarted (status a x) → ¬ unstarted (status a' x)).

(** The starts a part of a step adds: the members it set running. *)
Definition starts_exact (st st' : stepper) : Prop :=
  ∃ new, ef_starts (st_eff st') = ef_starts (st_eff st) ++ new ∧ NoDup (ms_memberID <$> new)
    ∧ ∀ x, x ∈ ms_memberID <$> new ↔
        unstarted (status (st_a st) x) ∧ status (st_a st') x = MemberRunning ∧ kind_of x ≠ MemberKindJoin.

Record moves (st st' : stepper) : Prop := {
  mv_frozen : of_g (st_a st');
  mv_settled : ongoing (st_a st) → settled (st_a st');
  mv_mono : mono (st_a st) (st_a st');
  mv_starts : starts_exact st st'
}.

(** ** Records that look alike *)

Record alike (a b : Automation) : Prop := {
  al_frozen : frozen a = frozen b;
  al_status : status a = status b;
  al_cursors : cursors a = cursors b
}.

Lemma main_alike a b c : alike a b → main_at a c → main_at b c.
Proof. intros [_ Hs Hc] []. split; by rewrite <- ?Hs, <- ?Hc. Qed.
Lemma waits_alike a b j : alike a b → waits_at a j → waits_at b j.
Proof. intros [_ Hs Hc] []. split; try done; by rewrite <- ?Hs, <- ?Hc. Qed.
Lemma quiet_alike a b : alike a b → quiet a → quiet b.
Proof. intros [_ Hs Hc]. unfold quiet. by rewrite Hs, Hc. Qed.
Lemma ready_alike a b n : alike a b → ready_for a n → ready_for b n.
Proof. intros Hab [Hq Hb]. split; [by eapply quiet_alike|]. by rewrite <- (al_status _ _ Hab). Qed.

Lemma settled_alike a b : alike a b → a_Status a = a_Status b → a_BudgetState a = a_BudgetState b → settled a → settled b.
Proof.
  unfold settled, unfinished, stopped, unblocked. intros Hab <- <- [[[[c Hc]|(j&Hj&Hne)] Hu]|[Hq Hs]].
  - left. split; [|done]. left. exists c. by eapply main_alike.
  - left. split; [|done]. right. exists j. split; [by eapply waits_alike|]. by rewrite <- (al_cursors _ _ Hab).
  - right. split; [by eapply quiet_alike|done].
Qed.

Lemma alike_fields a b :
  frozen a = frozen b → a_Members a = a_Members b → a_CurrentMemberID a = a_CurrentMemberID b →
  a_ActiveCursors a = a_ActiveCursors b → alike a b.
Proof.
  intros Hf Hm Hc Ha. split; [done|by apply status_members|]. apply cursors_eq; [by apply shape_linear, frozen_shape|done|done].
Qed.

(** Records with one status and budget episode. *)
Lemma ongoing_same a b : a_Status a = a_Status b → a_BudgetState a = a_BudgetState b → ongoing a → ongoing b.
Proof. unfold ongoing, unfinished, unblocked. by intros <- <-. Qed.

Lemma mono_refl a : mono a a.
Proof. by intros x. Qed.

Lemma mono_trans a b c : mono a b → mono b c → mono a c.
Proof.
  intros Hab Hbc x. destruct (Hab x) as [H1 H2], (Hbc x) as [H3 H4]. split; [|auto].
  intros Ho. rewrite <- (H1 Ho). apply H3. by rewrite (H1 Ho).
Qed.

(** One member changed, not from being over. *)
Lemma mono_change a a' id :
  ¬ over (status a id) → ¬ unstarted (status a' id) ∨ status a' id = status a id →
  (∀ x, x ≠ id → status a' x = status a x) → mono a a'.
Proof.
  intros Hno Hid Hx x. destruct (decide (x = id)) as [->|Hne]; [|by rewrite (Hx x Hne)].
  split; [done|]. intros Hs. destruct Hid as [?| ->]; done.
Qed.

(** A part of a step that starts no member, then the rest. *)
Lemma moves_after st st1 st' : (ongoing (st_a st) → ongoing (st_a st1)) →
  mono (st_a st) (st_a st1) → ef_starts (st_eff st1) = ef_starts (st_eff st) →
  (∀ x, status (st_a st1) x = MemberRunning → kind_of x = MemberKindJoin ∨ ¬ unstarted (status (st_a st) x)) →
  moves st1 st' → moves st st'.
Proof.
  intros Hst Hm He Hr [Hf Hs Hm' (new&Hn&Hnd&Hx)].
  split; [done|auto|by eapply mono_trans|].
  exists new. split_and!; [by rewrite Hn, He|done|]. intros x. rewrite Hx. split; intros (Hu&Hrun&Hk); split_and!; try done.
  - destruct (decide (unstarted (status (st_a st) x))) as [|Hs0]; [done|]. by destruct (proj2 (Hm x) Hs0).
  - destruct (decide (unstarted (status (st_a st1) x))) as [|Hs1]; [done|]. exfalso.
    destruct (decide (status (st_a st1) x = MemberRunning)) as [Hr1|Hr1]; [by destruct (Hr x Hr1)|].
    pose proof (proj1 (Hm' x) (conj Hs1 Hr1)) as Heq. congruence.
Qed.

(** What a step does at its end: nothing of this. *)
Lemma moves_finally st st' st'' :
  moves st st' → alike (st_a st') (st_a st'') → a_Status (st_a st') = a_Status (st_a st'') →
  a_BudgetState (st_a st') = a_BudgetState (st_a st'') → ef_starts (st_eff st'') = ef_starts (st_eff st') → moves st st''.
Proof.
  intros [Hf Hs Hm (new&Hn&Hnd&Hx)] Ha Hst Hb He. split.
  - by rewrite <- (al_frozen _ _ Ha).
  - intros Hu. by apply (settled_alike (st_a st')); [..|apply Hs].
  - intros x. rewrite <- (al_status _ _ Ha). apply Hm.
  - exists new. rewrite He, <- (al_status _ _ Ha). done.
Qed.

(** Nothing started, nothing running that was not. *)
Lemma no_starts st st' :
  ef_starts (st_eff st') = ef_starts (st_eff st) →
  (∀ x, status (st_a st') x = MemberRunning → kind_of x = MemberKindJoin ∨ ¬ unstarted (status (st_a st) x)) → starts_exact st st'.
Proof.
  intros He Hr. exists []. split_and!; [by rewrite app_nil_r|constructor|]. intros x. split; [by intros ?%elem_of_nil|].
  intros (Hu&Hrun&Hk). by destruct (Hr x Hrun).
Qed.
End front.
