(* ===== verification/AutomationMoves.v ===== *)
(** * Automations: moving the work along

    Entering a member, firing a fork and deciding a join, from a record whose
    work may move on ([ready_for]) or waits at a join ([waits_at]) to one that is
    settled again. *)

From S2P Require Import Prelude GoBase GoText Graph AutomationSettings.
From S2P Require Import Automation AutomationGraph AutomationValidate AutomationWf.
From S2P Require Import AutomationAccept AutomationStep AutomationFrame.
From S2P Require Import AutomationFrontier.

#[local] Open Scope Z_scope.

(** No edge leads into a branch: branches are reached through their fork only. *)
Definition branches_reached_by_forks (g : Automation) : Prop :=
  joinOf g (a_EntryMemberID g) = None ∧ ∀ m t, m ∈ a_Members g → t ∈ outcome_edges m → joinOf g t = None.

Section moves.
Context {g : Automation} (W : wf_graph g).
Context (snap : gmap string memberInfo) (now : Time) (choice : string).

Abbreviation of_g a := (frozen a = frozen g).
Abbreviation kind_of := (kind_of (g := g)).
Abbreviation moves := (moves (g := g)).

Lemma kind_of_index id i : automationMember g id = Some i → kind_of id = kind (mem_at g i).
Proof. intros Hi. unfold AutomationFrontier.kind_of. by rewrite Hi. Qed.

Lemma is_kind_of a i id k : of_g a → automationMember g id = Some i → is_kind k (mem_at a i) = String.eqb (kind_of id) k.
Proof. intros Ha Hi. rewrite (look_kind W a i id k (frozen_shape Ha) Hi), (kind_of_index id i Hi). done. Qed.

Lemma id_ne id i : automationMember g id = Some i → id ≠ "".
Proof. by intros [? _]%(automationMember_Some g id i (wf_ids g W)). Qed.

Lemma nonlinear_kind id i : automationMember g id = Some i → kind_of id ∈ [MemberKindAutomation; MemberKindFork; MemberKindJoin] →
  automationIsLinear g = false.
Proof.
  intros Hi Hk. rewrite (kind_of_index id i Hi) in Hk. destruct (index_member W id i Hi) as [Hm _].
  apply not_true_iff_false. unfold automationIsLinear. rewrite forallb_forall. intros H.
  apply list_elem_of_In, H, negb_true_iff, one_of_false in Hm. apply Hm. set_solver.
Qed.

(** ** Joins *)

(** A branch is a member, and leads to the join that lists it. *)
Lemma branch_spec j i b : automationMember g j = Some i → kind_of j = MemberKindJoin → b ∈ branches_of (g := g) j →
  (∃ k, automationMember g b = Some k) ∧ (kind_of b = MemberKindPRD ∨ kind_of b = MemberKindAutomation) ∧ member_edge g b j
  ∧ joinOf g b = Some i.
Proof.
  intros Hi Hk Hb. unfold branches_of in Hb. rewrite Hi in Hb. rewrite (kind_of_index j i Hi) in Hk.
  destruct (index_member W j i Hi) as [Hm Hid]. destruct (wf_branch g W _ b Hm) as (n&Hn&<-&Hkn&_); [set_solver|].
  destruct (member_index g n W Hn) as (k&Hk'&Hl). pose proof (mem_at_lookup _ _ _ Hl) as Hmn. split_and!.
  - eauto.
  - by rewrite (kind_of_index _ k Hk'), Hmn.
  - by apply (edge_join _ _ _ n (mem_at g i)).
  - unfold joinOf, first_member. apply fmap_Some. exists (i, mem_at g i). split; [|done].
    apply (automationMember_Some g j i (wf_ids g W)) in Hi as (_&mj&Hlj&_). rewrite (mem_at_lookup _ _ _ Hlj) in *.
    apply list_find_Some. split_and!; [done| |].
    + apply andb_true_iff. by rewrite is_kind_true, one_of_true.
    + intros y z Hz Hlt HP. apply andb_true_iff in HP as [Hkz Hoz]. apply one_of_true in Hoz.
      assert (z = mj) as ->. { apply (wf_join_once g W z mj (m_ID n)); [by eapply list_elem_of_lookup_2|done|done|done]. }
      assert (y = i); [|lia]. eapply (NoDup_lookup (m_ID <$> a_Members g)); [apply W|..]; rewrite list_lookup_fmap;
        [by rewrite Hz|by rewrite Hlj].
Qed.

Section classes.
Context (a : Automation) (j : string) (i : nat).
Hypothesis Ha : of_g a.
Hypothesis Hi : automationMember g j = Some i.
Hypothesis Hk : kind_of j = MemberKindJoin.

Lemma classify_foldr bs w p f : (∀ b, b ∈ bs → ∃ k, automationMember g b = Some k) →
  foldr (classify a) ([], [], []) bs = (w, p, f) →
  (∀ x, x ∈ w ↔ x ∈ bs ∧ status a x = MemberCompleted)
  ∧ (∀ x, x ∈ p ↔ x ∈ bs ∧ (status a x = MemberRunning ∨ status a x = MemberPending))
  ∧ (∀ x, x ∈ f ↔ x ∈ bs ∧ status a x ≠ MemberCompleted ∧ status a x ≠ MemberRunning ∧ status a x ≠ MemberPending).
Proof.
  revert w p f. induction bs as [|b bs IH]; intros w p f Hm; [intros [= <- <- <-]; set_solver|]. cbn [foldr].
  destruct (foldr (classify a) ([], [], []) bs) as [[w' p'] f'] eqn:E. apply forall_cons in Hm as [[k Hb] Hm].
  destruct (IH w' p' f' Hm eq_refl) as (Hw&Hp&Hf). clear IH. unfold classify at 1.
  rewrite (shape_automationMember (frozen_shape Ha)), Hb. pose proof (status_look a k b Ha Hb) as Hs. rewrite <- Hs.
  destruct (String.eqb_spec (status a b) MemberCompleted) as [E1|E1].
  { intros [= <- <- <-]. split_and!; intros x; rewrite elem_of_cons, ?elem_of_cons, ?Hw, ?Hp, ?Hf;
      (destruct (decide (x = b)) as [->|]; [rewrite E1; naive_solver|naive_solver]). }
  destruct (String.eqb_spec (status a b) MemberRunning) as [E2|E2]; [|destruct (String.eqb_spec (status a b) MemberPending) as [E3|E3]]; cbn [orb];
    intros [= <- <- <-]; split_and!; intros x; rewrite ?elem_of_cons, ?Hw, ?Hp, ?Hf; destruct (decide (x = b)) as [->|]; naive_solver.
Qed.

Lemma classify_spec w p f : classifyBranches a (mem_at a i) = (w, p, f) →
  (∀ x, x ∈ w ↔ x ∈ branches_of (g := g) j ∧ status a x = MemberCompleted)
  ∧ (∀ x, x ∈ p ↔ x ∈ branches_of (g := g) j ∧ (status a x = MemberRunning ∨ status a x = MemberPending))
  ∧ (∀ x, x ∈ f ↔ x ∈ branches_of (g := g) j ∧ status a x ≠ MemberCompleted ∧ status a x ≠ MemberRunning ∧ status a x ≠ MemberPending).
Proof.
  unfold classifyBranches. rewrite (look_joins W a i j (frozen_shape Ha) Hi). intros H.
  assert (branches_of j = m_JoinMembers (mem_at g i)) as Hb by (unfold branches_of; by rewrite Hi).
  apply classify_foldr in H.
  - unfold sortedCopy, sort_strings in H. setoid_rewrite elem_of_sort_by in H. by rewrite Hb.
  - intros b. unfold sortedCopy, sort_strings. rewrite elem_of_sort_by, <- Hb. intros Hx. by apply (branch_spec j i b).
Qed.

(** While the join waits, a branch is running or over. *)
Lemma pending_running w p f : waits_at (g := g) a j → classifyBranches a (mem_at a i) = (w, p, f) →
  ∀ x, x ∈ p ↔ x ∈ branches_of (g := g) j ∧ status a x = MemberRunning.
Proof.
  intros Hw Hc x. destruct (classify_spec w p f Hc) as (_&->&_). split; [|naive_solver].
  intros (Hb&[?|Hp]); [done|]. exfalso. apply (wa_started _ _ Hw x Hb). by left.
Qed.
End classes.

Lemma drop_pending_spec ps a : of_g a → automationIsLinear g = false →
  of_g (drop_pending now ps a)
  ∧ (∀ x, (x ∉ ps → status (drop_pending now ps a) x = status a x)
       ∧ (x ∈ ps → (∃ k, automationMember g x = Some k) → over (status (drop_pending now ps a) x)))
  ∧ (∀ x, x ∈ cursors (drop_pending now ps a) → x ∈ cursors a ∧ (x ∈ ps → automationMember g x = None)).
Proof.
  intros Ha Hl. revert a Ha. induction ps as [|b ps IH]; intros a Ha; cbn [drop_pending].
  { split_and!; [done| |set_solver]. intros x. split; [done|]. by intros ?%elem_of_nil. }
  rewrite (shape_automationMember (frozen_shape Ha)). destruct (automationMember g b) as [k|] eqn:Hb.
  - set (a1 := dropCursor b a). assert (of_g a1) as H1 by (unfold a1; by rewrite frozen_dropCursor).
    set (s := if String.eqb _ _ then _ else _). set (a2 := upd k (end_branch now s "join-fired") a1).
    assert (of_g a2) as H2 by (unfold a2; by rewrite frozen_upd).
    assert (∀ x, status a2 x = if decide (x = b) then s else status a x) as Hs2.
    { intros x. unfold a2. rewrite (status_upd W a1 k b) by done. unfold a1. by rewrite status_dropCursor. }
    destruct (IH a2 H2) as (H3&Hs3&Hc3). split; [done|]. split.
    + intros x. destruct (Hs3 x) as [Hout Hin]. split.
      * intros Hx. rewrite Hout by set_solver. rewrite Hs2, decide_False by set_solver. done.
      * intros Hx Hmem. destruct (decide (x ∈ ps)) as [Hxp|Hxp]; [by apply Hin|]. rewrite (Hout Hxp), Hs2.
        rewrite decide_True by set_solver. unfold s. destruct (String.eqb _ _); (split; [by intros [|]|done]).
    + intros x Hx. destruct (Hc3 x Hx) as [Hx2 Hxp]. unfold a2 in Hx2. rewrite (cursors_upd (g := g)) in Hx2 by done.
      unfold a1 in Hx2. rewrite (cursors_dropCursor (g := g)), Hl in Hx2 by done. apply elem_of_dropped in Hx2 as [Hx2 Hne].
      split; [done|]. intros [?|?]%elem_of_cons; [done|auto].
  - destruct (IH a Ha) as (H3&Hs3&Hc3). split; [done|]. split.
    + intros x. destruct (Hs3 x) as [Hout Hin]. split; [intros Hx; apply Hout; set_solver|].
      intros [->|Hx]%elem_of_cons [k Hk]; [congruence|]. eauto.
    + intros x Hx. destruct (Hc3 x Hx) as [Hx2 Hxp]. split; [done|]. intros [->|?]%elem_of_cons; auto.
Qed.

Lemma dropCursor_ongoing id a : ongoing a → ongoing (dropCursor id a).
Proof. apply ongoing_same; unfold dropCursor; by destruct (automationIsLinear a). Qed.

Lemma drop_pending_ongoing ps a : ongoing a → ongoing (drop_pending now ps a).
Proof.
  revert a. induction ps as [|b ps IH]; intros a Ha; cbn [drop_pending]; [done|].
  destruct (automationMember a b); apply IH; [|done]. by apply (ongoing_same (dropCursor b a)), dropCursor_ongoing.
Qed.

(** Nothing changes while a branch runs and none has succeeded. *)
Lemma evalJoin_idle enter j i st b : of_g (st_a st) → automationMember g j = Some i → waits_at (g := g) (st_a st) j →
  b ∈ branches_of (g := g) j → status (st_a st) b = MemberRunning →
  (∀ x, x ∈ branches_of (g := g) j → status (st_a st) x ≠ MemberCompleted) →
  evalJoin snap now enter j st = Some st.
Proof.
  intros Ha Hi Hw Hb Hr Hnc. unfold evalJoin. rewrite (shape_automationMember (frozen_shape Ha)), Hi.
  destruct (negb _); [done|]. cbn zeta. destruct (classifyBranches (st_a st) (mem_at (st_a st) i)) as [[w p] f] eqn:E.
  destruct (classify_spec _ j i Ha Hi (wa_kind _ _ Hw) w p f E) as (Hwon&Hpend&_).
  assert (w = []) as -> by (apply elem_of_nil_inv; intros x [Hx Hc]%Hwon; by apply (Hnc x)).
  assert (p ≠ []) as Hp by (intros ->; apply (elem_of_nil b), Hpend; auto).
  rewrite (bool_decide_eq_false_2 (p = [])) by done. rewrite (bool_decide_eq_true_2 (p ≠ [])) by done.
  rewrite (bool_decide_eq_false_2 ([] ≠ [])) by (intros H; by apply H). repeat case_match; done.
Qed.

(** ** Arriving at a member *)

Lemma mark_running_status i id st x : of_g (st_a st) → automationMember g id = Some i →
  status (st_a (mark_running now i st)) x = if decide (x = id) then MemberRunning else status (st_a st) x.
Proof. intros Ha Hi. unfold mark_running. cbn. rewrite status_addCursor. by apply (status_upd W). Qed.

Lemma mark_running_cursors i id st : of_g (st_a st) → automationMember g id = Some i →
  cursors (st_a (mark_running now i st)) = if automationIsLinear g then [id] else cursors (st_a st) ++ [id].
Proof.
  intros Ha Hi. unfold mark_running. cbn. rewrite (look_ID W _ i id (frozen_shape Ha) Hi).
  rewrite (cursors_addCursor (g := g)); [|by rewrite frozen_upd|by eapply id_ne]. by rewrite (cursors_upd (g := g)).
Qed.

Hypothesis acyclic : ∀ x, ¬ tc (member_edge g) x x.

Lemma ready_unstarted a id : ready_for (g := g) a id → unstarted (status a id).
Proof. intros [_ Hb]. destruct (decide (unstarted (status a id))) as [|H]; [done|]. by apply Hb, acyclic in H. Qed.

Lemma a_Status_addCursor id a : a_Status (addCursor id a) = a_Status a.
Proof. unfold addCursor. by destruct (automationIsLinear a). Qed.

Lemma a_Budget_addCursor id a : a_BudgetState (addCursor id a) = a_BudgetState a.
Proof. unfold addCursor. by destruct (automationIsLinear a). Qed.

Lemma addCursor_ongoing id a : ongoing a → unfinished (addCursor id a) ∧ (stopped (addCursor id a) ∨ unblocked (addCursor id a)).
Proof.
  intros Ha. destruct (ongoing_same a (addCursor id a)) as [??]; [by rewrite a_Status_addCursor|by rewrite a_Budget_addCursor|done|].
  split; [done|by right].
Qed.

Lemma mark_running_ongoing i st : ongoing (st_a st) → ongoing (st_a (mark_running now i st)).
Proof. apply ongoing_same; unfold mark_running; cbn; by rewrite ?a_Status_addCursor, ?a_Budget_addCursor. Qed.

Lemma arrive_cursors a id : of_g a → id ≠ "" → quiet (g := g) a → cursors (addCursor id a) = [id].
Proof.
  intros Ha Hne [Hq _]. rewrite (cursors_addCursor (g := g)) by done. destruct (automationIsLinear g) eqn:E; [done|]. by rewrite Hq.
Qed.

(** Arriving at a member that may wait or run. *)
Lemma arrive st st' id :
  of_g (st_a st') → ready_for (g := g) (st_a st) id → kind_of id ∈ [MemberKindPRD; MemberKindAutomation; MemberKindFork] →
  joinOf g id = None → (ongoing (st_a st) → unfinished (st_a st') ∧ (stopped (st_a st') ∨ unblocked (st_a st'))) → cursors (st_a st') = [id] → (∀ x, x ≠ id → status (st_a st') x = status (st_a st) x) →
  (status (st_a st') id = status (st_a st) id ∧ ef_starts (st_eff st') = ef_starts (st_eff st)
   ∨ status (st_a st') id = MemberRunning ∧ kind_of id ≠ MemberKindFork
     ∧ ∃ s, ef_starts (st_eff st') = ef_starts (st_eff st) ++ [s] ∧ ms_memberID s = id) →
  moves st st'.
Proof.
  intros Hf Hr Hk Hj Hopen Hc Hx Hid. pose proof (ready_unstarted _ _ Hr) as Hu. destruct Hr as [[_ Hq] Hb].
  assert (∀ x, status (st_a st') x = MemberRunning → x = id) as Halone.
  { intros x Hrun. destruct (decide (x = id)) as [|Hne]; [done|]. rewrite (Hx x Hne) in Hrun. by apply Hq in Hrun. }
  split; [done|intros Hun; left; split; [left; exists id; split; try done|by apply Hopen]|..].
  - destruct Hid as [[-> _]|(?&?&_)]; [by left|by right].
  - intros x Hs. destruct (decide (x = id)) as [->|Hne]; [apply rtc_refl|]. rewrite (Hx x Hne) in Hs. by apply tc_rtc, Hb.
  - apply (mono_change _ _ id); [by intros [? _]| |done].
    destruct Hid as [[-> _]|(->&_)]; [by right|]. left. apply running_started.
  - destruct Hid as [[Hsame He]|(Hrun&Hkf&s&He&Hs)].
    + apply no_starts; [done|]. intros x Hrun. pose proof (Halone x Hrun) as ->. rewrite Hsame in Hrun. by apply Hq in Hrun.
    + exists [s]. cbn. rewrite Hs. split_and!; [done|apply NoDup_singleton|]. intros x. rewrite list_elem_of_singleton. split.
      * intros ->. split_and!; [done|done|]. intros Hkj. rewrite Hkj in Hk. set_solver.
      * intros (_&Hrx&_). by apply Halone.
Qed.

(** Blocking with the cursor on a member that did not start. *)
Lemma arrive_waiting st st' id :
  of_g (st_a st) → ready_for (g := g) (st_a st) id → kind_of id ∈ [MemberKindPRD; MemberKindAutomation; MemberKindFork] →
  joinOf g id = None → (ongoing (st_a st) → unfinished (st_a st') ∧ (stopped (st_a st') ∨ unblocked (st_a st'))) → alike (addCursor id (st_a st)) (st_a st') → ef_starts (st_eff st') = ef_starts (st_eff st) → id ≠ "" → moves st st'.
Proof.
  intros Ha Hr Hk Hj Hopen [Hf Hs Hc] He Hne. apply (arrive st st' id); try done.
  - by rewrite <- Hf, frozen_addCursor.
  - rewrite <- Hc. by apply arrive_cursors, Hr.
  - intros x _. by rewrite <- Hs, status_addCursor.
  - left. split; [|done]. by rewrite <- Hs, status_addCursor.
Qed.

(** Starting the member the work arrives at. *)
Lemma arrive_running st st' i id :
  of_g (st_a st) → automationMember g id = Some i → ready_for (g := g) (st_a st) id → kind_of id ∈ [MemberKindPRD; MemberKindAutomation] →
  joinOf g id = None → st_a st' = st_a (mark_running now i st) →
  (∃ s, ef_starts (st_eff st') = ef_starts (st_eff st) ++ [s] ∧ ms_memberID s = id) → moves st st'.
Proof.
  intros Ha Hi Hr Hk Hj Hst He. apply (arrive st st' id); rewrite ?Hst; try done.
  - by rewrite frozen_mark_running.
  - set_solver.
  - intros Ho. apply (mark_running_ongoing i) in Ho as [??]. split; [done|by right].
  - rewrite (mark_running_cursors i id st Ha Hi). destruct (automationIsLinear g) eqn:E; [done|]. by rewrite (proj1 (proj1 Hr) E).
  - intros x Hne. rewrite (mark_running_status i id st x Ha Hi). by rewrite decide_False.
  - right. rewrite (mark_running_status i id st id Ha Hi), decide_True by done. split_and!; [done| |done].
    intros Hkf. rewrite Hkf in Hk. set_solver.
Qed.

(** The gate holds what goes on, and blocks the episode only with the record. *)
Lemma gate_ongoing a mem v noWait : ongoing a →
  let b := (applyBudgetGate a mem v now noWait).1 in unfinished b ∧ (stopped b ∨ unblocked b).
Proof.
  unfold applyBudgetGate. set (a1 := match mem with Some _ => _ | None => a end).
  intros Ha. assert (ongoing a1) as [Hu Hb].
  { unfold a1. destruct mem; [|done]. destruct (isLiveCursor _ _); [done|].
    by apply (ongoing_same a); [rewrite a_Status_addCursor|rewrite a_Budget_addCursor|]. }
  clearbody a1. destruct (negb _); [destruct (held _); (split; [done|by right])|].
  destruct (breach_response _ _) as [act r]. destruct (_ && _); [split; [done|by right]|].
  destruct (String.eqb_spec act BudgetActionPaused) as [->|_]; (split; [done|]); [by right|by left].
Qed.

Lemma arrive_budget st i id v :
  of_g (st_a st) → automationMember g id = Some i → ready_for (g := g) (st_a st) id →
  kind_of id ∈ [MemberKindPRD; MemberKindAutomation; MemberKindFork] → joinOf g id = None →
  moves st (budgetGate now choice i v st).
Proof.
  intros Ha Hi Hr Hk Hj. pose proof (id_ne id i Hi) as Hne.
  assert (alike (applyBudgetGate (st_a st) (Some i) (set_assistant choice v) now false).1
    (if isLiveCursor (st_a st) id then st_a st else addCursor id (st_a st))) as Hal.
  { unfold applyBudgetGate. rewrite (look_ID W _ i id (frozen_shape Ha) Hi). set (a1 := if isLiveCursor _ _ then _ else _). clearbody a1.
    destruct (negb _); [by destruct (held _)|]. destruct (breach_response _ _) as [act r]. destruct (_ && _); [done|].
    by destruct (String.eqb act BudgetActionPaused). }
  assert (ef_starts (st_eff (budgetGate now choice i v st)) = ef_starts (st_eff st)) as He.
  { unfold budgetGate. destruct (applyBudgetGate _ _ _ _ _) as [a2 e]. cbn. by destruct (String.eqb _ _). }
  assert (st_a (budgetGate now choice i v st) = (applyBudgetGate (st_a st) (Some i) (set_assistant choice v) now false).1) as Hst.
  { unfold budgetGate. by destruct (applyBudgetGate _ _ _ _ _). }
  rewrite <- Hst in Hal. destruct Hal as [Hf Hs Hc]. apply (arrive st _ id); try done.
  - rewrite Hf. destruct (isLiveCursor _ _); [done|by rewrite frozen_addCursor].
  - rewrite Hst. apply gate_ongoing.
  - rewrite Hc. destruct (isLiveCursor (st_a st) id) eqn:El; [|by apply arrive_cursors, Hr].
    apply isLive_cursors in El; [|done]. unfold cursors in *. destruct (automationIsLinear (st_a st)) eqn:E.
    + destruct (nonempty _); [|by apply elem_of_nil in El]. by apply list_elem_of_singleton in El as <-.
    + rewrite (linear_of_g _ Ha) in E. pose proof (proj1 (proj1 Hr) E) as Hq. unfold cursors in Hq. rewrite (linear_of_g _ Ha), E in Hq.
      rewrite Hq in El. by apply elem_of_nil in El.
  - intros x _. rewrite Hs. by destruct (isLiveCursor _ _); [|rewrite status_addCursor].
  - left. split; [|done]. rewrite Hs. by destruct (isLiveCursor _ _); [|rewrite status_addCursor].
Qed.

(** ** The end of the line *)

Lemma ended st st' :
  of_g (st_a st') → quiet (g := g) (st_a st') → stopped (st_a st') → a_BudgetState (st_a st') = a_BudgetState (st_a st) → mono (st_a st) (st_a st') →
  ef_starts (st_eff st') = ef_starts (st_eff st) → moves st st'.
Proof.
  intros Hf Hq Hs Hbs Hm He. split; [done|intros [_ Hb]; right; unfold unblocked in *; by rewrite Hbs|done|]. apply no_starts; [done|]. intros x Hx. by apply (proj2 Hq) in Hx.
Qed.

Lemma no_running_join a : of_g a → (∀ x, status a x ≠ MemberRunning) →
  existsb (λ m, is_kind MemberKindJoin m && String.eqb (m_Status m) MemberRunning) (a_Members a) = false.
Proof.
  intros Ha Hq. apply not_true_iff_false. intros H. apply existsb_exists in H as (m&Hm%list_elem_of_In&Hr). bools.
  assert (wf_graph a) as Wa by (eapply wf_graph_shape; [symmetry; by apply frozen_shape|done]).
  destruct (member_index a m Wa Hm) as (i&Hi&Hl). apply (Hq (m_ID m)). unfold status. by rewrite Hi, (mem_at_lookup _ _ _ Hl).
Qed.

Lemma pathEnded_moves s n r st :
  of_g (st_a st) → quiet (g := g) (st_a st) → moves st (pathEnded now s n r st).
Proof.
  intros Ha Hq. unfold pathEnded. assert (cursorsRemain (st_a st) = false) as ->.
  { unfold cursorsRemain. destruct (automationIsLinear (st_a st)) eqn:E; [done|]. rewrite no_running_join; [|done|apply Hq].
    assert (a_ActiveCursors (st_a st) = []) as ->; [|done]. pose proof (proj1 Hq) as H. unfold cursors in H. rewrite E in H.
    apply H. by rewrite <- (linear_of_g _ Ha). }
  destruct s; cbn [negb].
  - apply ended; try done.
    + split; [|apply Hq]. intros E. unfold cursors. cbn. by case_match.
  - apply ended; try done.
Qed.

(** ** Deciding a join *)

Hypothesis guarded : branches_reached_by_forks g.

Lemma edge_target_ok c i e t : automationMember g c = Some i → edgeTarget (mem_at g i) e = t → t ≠ "" →
  member_edge g c t ∧ joinOf g t = None ∧ kind_of t ∈ [MemberKindPRD; MemberKindAutomation; MemberKindFork]
  ∧ ∃ k, automationMember g t = Some k.
Proof.
  intros Hi He Hne. pose proof (edge_target_edge W i c e t Hi He Hne) as Hedge.
  destruct (index_member W c i Hi) as [Hm Hid].
  assert (t ∈ outcome_edges (mem_at g i)) as Ht.
  { apply elem_of_outcome_edges. split; [done|]. unfold edgeTarget in He. repeat case_match; naive_solver. }
  destruct (wf_edges g W _ t Hm Ht) as (_&n&Hn&<-&Hkn). destruct (member_index g n W Hn) as (k&Hk&Hl).
  split_and!; [done|by apply (proj2 guarded _ _ Hm Ht)| |eauto].
  rewrite (kind_of_index _ k Hk), (mem_at_lookup _ _ _ Hl). pose proof (ko_kind _ _ (wf_kind g W n Hn)) as Hkk.
  unfold kind in *. destruct (String.eqb_spec (m_Kind n) ""); set_solver.
Qed.

Lemma ready_from a c t : quiet (g := g) a → (∀ x, ¬ unstarted (status a x) → before (g := g) x c) → member_edge g c t →
  ready_for (g := g) a t.
Proof. intros Hq Hb He. split; [done|]. intros x Hx. eapply tc_rtc_l; [by apply Hb|]. by apply tc_once. Qed.

Section entering.
Context (enter : nat → stepper → option stepper).
Hypothesis enter_moves : ∀ i id st st', of_g (st_a st) → automationMember g id = Some i →
  kind_of id ∈ [MemberKindPRD; MemberKindAutomation; MemberKindFork] → joinOf g id = None →
  ready_for (g := g) (st_a st) id → enter i st = Some st' → moves st st'.

Lemma follow_moves c i edge e fn r st st' : of_g (st_a st) → automationMember g c = Some i →
  quiet (g := g) (st_a st) → (∀ x, ¬ unstarted (status (st_a st) x) → before (g := g) x c) →
  follow snap now enter i (edgeTarget (mem_at g i) edge) e fn r st = Some st' → moves st st'.
Proof.
  intros Ha Hi Hq Hb. unfold follow. destruct (String.eqb_spec (edgeTarget (mem_at g i) edge) "") as [_|Hne].
  - intros [= <-]. by apply pathEnded_moves.
  - destruct (edge_target_ok c i edge _ Hi eq_refl Hne) as (He&Hj&Hk&k&Hkk).
    rewrite (shape_automationMember (frozen_shape Ha)), Hkk. intros Hent.
    apply (moves_after st (moved snap (m_ID (mem_at (st_a st) i)) fn k e st)).
    + by apply ongoing_same.
    + apply mono_refl.
    + done.
    + intros x Hx. exfalso. by apply (proj2 Hq x).
    + apply (enter_moves k (edgeTarget (mem_at g i) edge) _ st'); try done.
      apply (ready_alike (st_a st)); [done|]. by apply (ready_from _ c).
Qed.

Lemma join_not_branch j i : automationMember g j = Some i → kind_of j = MemberKindJoin → j ∉ branches_of (g := g) j.
Proof. intros Hi Hk Hb. destruct (branch_spec j i j Hi Hk Hb) as (_&[H|H]&_); rewrite Hk in H; done. Qed.

Lemma fireJoin_moves j i rule w p f st st' : of_g (st_a st) → automationMember g j = Some i → waits_at (g := g) (st_a st) j →
  (∀ x, x ∈ p ↔ x ∈ branches_of (g := g) j ∧ status (st_a st) x = MemberRunning) →
  fireJoin snap now enter i rule w f p st = Some st' → moves st st'.
Proof.
  intros Ha Hi Hw Hp. unfold fireJoin. cbn zeta. set (a1 := drop_pending now p (st_a st)).
  destruct (drop_pending_spec p (st_a st) Ha (wa_nonlinear _ _ Hw)) as (Ha1&Hs1&Hc1). fold a1 in Ha1, Hs1, Hc1.
  set (close := λ m, set_m_FinishedAt (Some now) (set_m_EdgeTaken edgeOnComplete (set_m_Outcome "joined" (set_m_Status MemberCompleted m)))).
  set (a2 := upd i close a1). assert (of_g a2) as Ha2 by (unfold a2; by rewrite frozen_upd).
  assert (∀ x, status a2 x = if decide (x = j) then MemberCompleted else status a1 x) as Hs2.
  { intros x. unfold a2. by rewrite (status_upd W a1 i j close x Ha1 Hi). }
  assert (j ∉ p) as Hjp by (rewrite Hp; intros [Hb _]; by apply (join_not_branch j i Hi (wa_kind _ _ Hw))).
  assert (∀ x, x ∈ p → over (status a1 x)) as Hover.
  { intros x Hx. apply Hs1; [done|]. apply Hp in Hx as [Hb _]. by apply (branch_spec j i x Hi (wa_kind _ _ Hw)). }
  assert (∀ x, status a2 x ≠ MemberRunning) as Hnorun.
  { intros x. rewrite Hs2. case_decide; [done|]. destruct (decide (x ∈ p)) as [Hx|Hx]; [by apply Hover|].
    rewrite (proj1 (Hs1 x) Hx). intros Hr. apply Hx, Hp. destruct (wa_alone _ _ Hw x Hr); [done|]. done. }
  assert (quiet (g := g) a2) as Hq.
  { split; [|done]. intros Hl. apply elem_of_nil_inv. intros x Hx. unfold a2 in Hx. rewrite (cursors_upd (g := g)) in Hx by done.
    destruct (Hc1 x Hx) as [Hxc Hnone]. apply (wa_cursors _ _ Hw) in Hxc as [Hb Hr].
    destruct (branch_spec j i x Hi (wa_kind _ _ Hw) Hb) as ([k Hk]&_). rewrite Hnone in Hk; [done|]. by apply Hp. }
  assert (mono (st_a st) a2) as Hmono.
  { intros x. rewrite Hs2. case_decide as Hxj.
    - subst x. split; [|intros _; by intros [|]]. intros [_ Hr]. by rewrite (wa_status _ _ Hw) in Hr.
    - destruct (decide (x ∈ p)) as [Hx|Hx].
      + split; [|intros _; by apply Hover]. intros [_ Hr]. apply Hp in Hx as [_ Hx]. done.
      + by rewrite (proj1 (Hs1 x) Hx). }
  change (m_OnComplete (mem_at ?x i)) with (m_OnComplete (mem_at a2 i)).
  rewrite (look_complete W a2 i j (frozen_shape Ha2) Hi). intros Hfollow.
  eapply moves_after; [| | | |eapply follow_moves with (c := j) (edge := edgeOnComplete); [| | | |exact Hfollow]].
  - apply drop_pending_ongoing.
  - exact Hmono.
  - done.
  - intros x Hx. exfalso. by apply (Hnorun x).
  - done.
  - done.
  - by apply (quiet_alike a2).
  - intros x Hx. apply (wa_before _ _ Hw). intros Hu. apply Hx. change (unstarted (status a2 x)). rewrite Hs2.
    case_decide as Hxj; [subst x; rewrite (wa_status _ _ Hw) in Hu; by apply running_started in Hu|].
    destruct (decide (x ∈ p)) as [Hxp|Hxp]; [|by rewrite (proj1 (Hs1 x) Hxp)]. apply Hp in Hxp as [_ Hr]. rewrite Hr in Hu. by apply running_started in Hu.
Qed.

Lemma blockJoin_moves j i rule f r st : of_g (st_a st) → automationMember g j = Some i → waits_at (g := g) (st_a st) j →
  (∀ x, ¬ (x ∈ branches_of (g := g) j ∧ status (st_a st) x = MemberRunning)) →
  moves st (blockJoin now i rule f r st).
Proof.
  intros Ha Hi Hw Hp. set (a1 := upd i (end_branch now MemberBlocked "not-satisfied") (st_a st)).
  assert (∀ x, status a1 x = if decide (x = j) then MemberBlocked else status (st_a st) x) as Hs.
  { intros x. unfold a1. by rewrite (status_upd W (st_a st) i j). }
  assert (of_g a1) as Ha1 by (unfold a1; by rewrite frozen_upd).
  assert (quiet (g := g) a1) as Hq.
  { split.
    - intros _. unfold a1. rewrite (cursors_upd (g := g)) by done. apply elem_of_nil_inv. intros x Hx%(wa_cursors _ _ Hw). by apply (Hp x).
    - intros x. rewrite Hs. case_decide; [done|]. intros Hr. destruct (wa_alone _ _ Hw x Hr); [done|]. by apply (Hp x). }
  apply ended.
  - exact Ha1.
  - by apply (quiet_alike a1).
  - done.
  - done.
  - apply (mono_change _ _ j).
    + intros [_ H]. by rewrite (wa_status _ _ Hw) in H.
    + left. change (¬ unstarted (status a1 j)). rewrite Hs, decide_True by done. by intros [|].
    + intros x Hx. change (status a1 x = status (st_a st) x). by rewrite Hs, decide_False.
  - done.
Qed.

Lemma evalJoin_moves j i st st' : of_g (st_a st) → automationMember g j = Some i → waits_at (g := g) (st_a st) j →
  evalJoin snap now enter j st = Some st' → moves st st'.
Proof.
  intros Ha Hi Hw. unfold evalJoin. rewrite (shape_automationMember (frozen_shape Ha)), Hi.
  rewrite <- (status_look _ i j Ha Hi), (wa_status _ _ Hw). change (negb (String.eqb MemberRunning MemberRunning)) with false. cbn zeta iota.
  destruct (classifyBranches (st_a st) (mem_at (st_a st) i)) as [[w p] f] eqn:E.
  pose proof (pending_running _ j i Ha Hi (wa_kind _ _ Hw) w p f Hw E) as Hp.
  assert (p ≠ [] → moves st st) as Hstay.
  { intros Hne. split; [done| |apply mono_refl|].
    - intros [Hun Hub]. left. split; [|split; [done|by right]]. right. exists j. split; [done|]. intros Hc. destruct p as [|x p]; [done|].
      assert (x ∈ cursors (st_a st)) as Hx by (apply (wa_cursors _ _ Hw), Hp; left). rewrite Hc in Hx. by apply elem_of_nil in Hx.
    - apply no_starts; [done|]. intros x Hx. right. rewrite Hx. apply running_started. }
  assert (∀ rule w' f' q, (q = p ∨ p = [] ∧ q = []) → fireJoin snap now enter i rule w' f' q st = Some st' → moves st st') as Hfire.
  { intros rule w' f' q Hq Hf. apply (fireJoin_moves j i rule w' q f' st st' Ha Hi Hw); [|done].
    destruct Hq as [->|[Hp0 ->]]; [done|]. by rewrite Hp0 in Hp. }
  assert (p = [] → ∀ rule f' r, moves st (blockJoin now i rule f' r st)) as Hblock.
  { intros Hp0 rule f' r. apply (blockJoin_moves j i); [done..|]. intros x Hx. apply Hp in Hx. rewrite Hp0 in Hx. by apply elem_of_nil in Hx. }
  destruct (String.eqb _ BranchAnyOneIsEnough).
  { case_bool_decide; [apply Hfire; by left|]. case_bool_decide; intros [= <-]; auto. }
  destruct (String.eqb _ BranchContinueAnyway).
  { case_bool_decide as H0; [apply Hfire; by right|]. intros [= <-]; auto. }
  case_bool_decide as Hp0; [intros [= <-]; auto|].
  case_bool_decide as Hf0; [apply Hfire; by right|]. intros [= <-]. auto.
Qed.
End entering.
End moves.
