(* ===== verification/AutomationRun.v ===== *)
(** * Automations: firing a fork, and entering any member

    The branches of a fork, and the recursion that closes: [enter] from a record
    whose work may move on leaves a settled one.

    Then that a step moves the work along, and the theorems: what the checks accept,
    that every step ends and keeps the record acceptable, and what a step may do to
    the members. *)

From S2P Require Import Prelude GoBase GoText Graph AutomationSettings Automation AutomationGraph AutomationValidate.
From S2P Require Import AutomationWf AutomationAccept AutomationStep AutomationFrame AutomationEnds AutomationFrontier AutomationMoves.

#[local] Open Scope Z_scope.

Section fork.
Context {g : Automation} (W : wf_graph g).
Hypothesis acyclic : ∀ x, ¬ tc (member_edge g) x x.
Hypothesis guarded : branches_reached_by_forks g.
Context (snap : gmap string memberInfo) (now : Time) (choice : string).

Abbreviation of_g a := (frozen a = frozen g).
Abbreviation kind_of := (kind_of (g := g)).
Abbreviation moves := (moves (g := g)).

(** What the loop over the branches has done. *)
Record branches_done (bs : list string) (st st' : stepper) (new : list memberStart) : Prop := {
  bd_frozen : of_g (st_a st');
  bd_ongoing : ongoing (st_a st) → ongoing (st_a st');
  bd_starts : ef_starts (st_eff st') = ef_starts (st_eff st) ++ new;
  bd_cursors : cursors (st_a st') = cursors (st_a st) ++ (ms_memberID <$> new);
  bd_nodup : NoDup (ms_memberID <$> new);
  bd_in x : x ∈ ms_memberID <$> new → x ∈ bs;
  bd_others x : x ∉ bs → status (st_a st') x = status (st_a st) x;
  bd_branch x : x ∈ bs → x ∈ ms_memberID <$> new ∧ status (st_a st') x = MemberRunning
                          ∨ x ∉ ms_memberID <$> new ∧ status (st_a st') x = MemberFailed
}.

Lemma branches_nil st : of_g (st_a st) → branches_done [] st st [].
Proof.
  intros Ha. split; try done; [by rewrite app_nil_r|by rewrite app_nil_r|constructor|].
  by intros x ?%elem_of_nil.
Qed.

(** A branch that starts, then the others. *)
Lemma branches_cons_start b bs i st st1 st' s new : of_g (st_a st) → automationIsLinear g = false →
  automationMember g b = Some i → b ∉ bs →
  st_a st1 = st_a (mark_running now i st) → ef_starts (st_eff st1) = ef_starts (st_eff st) ++ [s] → ms_memberID s = b →
  branches_done bs st1 st' new → branches_done (b :: bs) st st' (s :: new).
Proof.
  intros Ha Hl Hi Hb H1 Hs1 Hid [Hf Hso Hs Hc Hnd Hin Ho Hbr]. split.
  - done.
  - intros Hon. apply Hso. rewrite H1. by apply mark_running_ongoing.
  - by rewrite Hs, Hs1, <- app_assoc.
  - rewrite Hc, H1, (mark_running_cursors W now i b st Ha Hi), Hl, fmap_cons, Hid. by rewrite <- app_assoc.
  - rewrite fmap_cons, Hid. constructor; [|done]. intros Hx. by apply Hb, Hin.
  - intros x. rewrite fmap_cons, Hid. intros [->|Hx]%elem_of_cons; [left|right; auto].
  - intros x Hx. rewrite Ho, H1, (mark_running_status W now i b st x Ha Hi) by set_solver. rewrite decide_False; [done|set_solver].
  - intros x Hx. rewrite fmap_cons, Hid. destruct (decide (x = b)) as [->|Hne].
    + left. split; [left|]. rewrite Ho, H1, (mark_running_status W now i b st b Ha Hi) by done. by rewrite decide_True.
    + apply elem_of_cons in Hx as [?|Hx]; [done|]. destruct (Hbr x Hx) as [[??]|[??]]; [left|right]; set_solver.
Qed.

(** A branch the gate refuses, then the others. *)
Lemma branches_cons_denied b bs i st st1 st' new : of_g (st_a st) → automationMember g b = Some i → b ∉ bs →
  alike (upd i (end_branch now MemberFailed "gate-denied") (st_a st)) (st_a st1) → (ongoing (st_a st) → ongoing (st_a st1)) →
  ef_starts (st_eff st1) = ef_starts (st_eff st) → branches_done bs st1 st' new → branches_done (b :: bs) st st' new.
Proof.
  intros Ha Hi Hb [Hf1 Hst1 Hc1] Hso1 Hs1 [Hf Hso Hs Hc Hnd Hin Ho Hbr].
  assert (∀ x, status (st_a st1) x = if decide (x = b) then MemberFailed else status (st_a st) x) as Hx1.
  { intros x. rewrite <- Hst1. by rewrite (status_upd W (st_a st) i b). }
  split.
  - done.
  - auto.
  - by rewrite Hs, Hs1.
  - rewrite Hc, <- Hc1. by rewrite (cursors_upd (g := g)).
  - done.
  - intros x Hx. right. auto.
  - intros x Hx. rewrite Ho, Hx1 by set_solver. rewrite decide_False; [done|set_solver].
  - intros x Hx. destruct (decide (x = b)) as [->|Hne].
    + right. split; [intros Hbn; by apply Hb, Hin|]. rewrite Ho, Hx1 by done. by rewrite decide_True.
    + apply elem_of_cons in Hx as [?|Hx]; [done|]. by apply Hbr.
Qed.

Lemma fork_loop_done fork bs rs st : of_g (st_a st) → automationIsLinear g = false → NoDup bs →
  (∀ b, b ∈ bs → ∃ i, automationMember g b = Some i) →
  ∃ st' res new, fork_loop snap now fork bs rs st = (st', Some res) ∧ branches_done bs st st' new.
Proof.
  intros Ha Hl Hnd. revert rs st Ha. induction Hnd as [|b bs Hb Hnd IH]; intros rs st Ha Hm.
  - exists st, rs, []. split; [done|]. by apply branches_nil.
  - apply forall_cons in Hm as [[i Hi] Hm]. cbn [fork_loop]. rewrite (shape_automationMember (frozen_shape Ha)), Hi.
    pose proof (look_ID W (st_a st) i b (frozen_shape Ha) Hi) as Hid.
    assert (∀ rs st1 s, st_a st1 = st_a (mark_running now i st) → ef_starts (st_eff st1) = ef_starts (st_eff st) ++ [s] → ms_memberID s = b →
      ∃ st' res new, fork_loop snap now fork bs rs st1 = (st', Some res) ∧ branches_done (b :: bs) st st' new) as Hstart.
    { intros rs1 st1 s H1 Hs1 Hsid. destruct (IH rs1 st1) as (st'&res&new&Hloop&Hdone).
      - by rewrite H1, frozen_mark_running.
      - done.
      - exists st', res, (s :: new). split; [done|]. by apply (branches_cons_start b bs i st st1). }
    destruct (is_kind MemberKindAutomation _); [by eapply Hstart|]. destruct (String.eqb _ ""); [|by eapply Hstart].
    match goal with |- context [fork_loop snap now fork bs ?r ?s] => destruct (IH r s) as (st'&res&new&->&Hdone) end.
    + change (frozen (upd i (end_branch now MemberFailed "gate-denied") (st_a st)) = frozen g). by rewrite frozen_upd.
    + done.
    + exists st', res, new. split; [done|]. eapply (branches_cons_denied b bs i); [done..| | | |exact Hdone]; done.
Qed.

(** ** Firing *)

Section entering.
Context (enter : nat → stepper → option stepper).
Hypothesis enter_moves : ∀ i id st st', of_g (st_a st) → automationMember g id = Some i →
  kind_of id ∈ [MemberKindPRD; MemberKindAutomation; MemberKindFork] → joinOf g id = None →
  ready_for (g := g) (st_a st) id → enter i st = Some st' → moves st st'.

Lemma joinFor_exists a i id f : of_g a → automationMember g id = Some i → static f = static (mem_at g i) → kind_of id = MemberKindFork →
  ∃ j, joinFor a f = Some j.
Proof.
  intros Ha Hi Hf Hk. rewrite (kind_of_index id i Hi) in Hk. destruct (index_member W id i Hi) as [Hm _].
  rewrite (shape_joinFor (frozen_shape Ha) f f eq_refl). destruct (wf_fork_paired g W _ Hm Hk) as (j&Hj&Hkj&Hp).
  destruct (wf_join g W j Hj Hkj) as (_&Hnd&_). destruct (wf_fork g W _ Hm Hk) as (_&Hnd'&_).
  unfold joinFor, first_member. destruct (list_find _ (a_Members g)) as [[k n]|] eqn:E; [by exists k|]. exfalso.
  rewrite list_find_None, Forall_forall in E. apply (E j Hj). apply andb_true_iff. split; [by apply is_kind_true|].
  assert (m_ForkMembers f = m_ForkMembers (mem_at g i)) as -> by exact (f_equal m_ForkMembers Hf). by apply sameMemberSet_true.
Qed.

(** A fork that fired, with its join waiting: the branches are the frontier. *)
Lemma fork_waits fid jid st bs st3 new :
  quiet (g := g) (st_a st) → (∀ x, ¬ unstarted (status (st_a st) x) → x = fid ∨ x = jid ∨ before (g := g) x jid) → kind_of jid = MemberKindJoin →
  automationIsLinear g = false → (∀ b, b ∈ bs ↔ b ∈ branches_of (g := g) jid) → (∀ b, b ∈ bs → before (g := g) b jid) → before (g := g) fid jid →
  jid ∉ bs → ∀ st2, cursors (st_a st2) = [] →
  (∀ x, status (st_a st2) x = if decide (x = jid) then MemberRunning else if decide (x = fid) then MemberCompleted else status (st_a st) x) →
  branches_done bs st2 st3 new → waits_at (g := g) (st_a st3) jid.
Proof.
  intros Hq Hb Hkj Hl Hbs Hbj Hfj Hnj st2 Hc2 Hs2 [Hf Hso Hs Hc Hnd Hin Ho Hbr].
  assert (∀ x, x ∉ bs → x ≠ jid → status (st_a st3) x = if decide (x = fid) then MemberCompleted else status (st_a st) x) as Hout.
  { intros x Hx Hne. rewrite (Ho x Hx), Hs2. by rewrite decide_False. }
  split.
  - done.
  - rewrite (Ho jid Hnj), Hs2. by rewrite decide_True.
  - done.
  - intros x. rewrite Hc, Hc2, app_nil_l, <- Hbs. split.
    + intros Hx. destruct (Hbr x (Hin x Hx)) as [[_ ?]|[? _]]; [auto|done].
    + intros [Hx Hr]. destruct (Hbr x Hx) as [[? _]|[_ Hfail]]; [done|]. by rewrite Hr in Hfail.
  - by rewrite Hc, Hc2.
  - intros b Hx%Hbs. destruct (Hbr b Hx) as [[_ ->]|[_ ->]]; by intros [|].
  - intros x Hr. destruct (decide (x ∈ bs)) as [Hx|Hx]; [right; by apply Hbs|]. destruct (decide (x = jid)) as [|Hne]; [by left|].
    rewrite (Hout x Hx Hne) in Hr. case_decide; [done|]. by apply (proj2 Hq) in Hr.
  - intros x Hst. destruct (decide (x ∈ bs)) as [Hx|Hx]; [by apply Hbj|]. destruct (decide (x = jid)) as [->|Hne]; [apply rtc_refl|].
    rewrite (Hout x Hx Hne) in Hst. case_decide; [by subst|]. destruct (Hb x Hst) as [->|[->|?]]; done.
Qed.

Lemma fireFork_moves i fid st st' : of_g (st_a st) → automationMember g fid = Some i → kind_of fid = MemberKindFork →
  ready_for (g := g) (st_a st) fid → fireFork snap now enter i st = Some st' → moves st st'.
Proof.
  intros Ha Hi Hk Hr. unfold fireFork. cbn zeta.
  set (st1 := on_a (upd i _) st). assert (of_g (st_a st1)) as Ha1 by (rewrite <- Ha; by apply (frozen_upd i)).
  pose proof (look_static W (st_a st1) i fid (frozen_shape Ha1) Hi) as Hst.
  destruct (joinFor_exists (st_a st1) i fid (mem_at (st_a st1) i) Ha1 Hi Hst Hk) as [j Hj]. rewrite Hj.
  assert (kind (mem_at (st_a st1) i) = MemberKindFork) as Hk1 by (by rewrite (static_kind _ _ Hst), <- (kind_of_index fid i Hi)).
  destruct (joinFor_spec W _ _ i fid j (frozen_shape Ha1) Hi Hst Hk1 Hj) as (jid&Hjid&Hkj&Hperm&Hforks&Htc&Hedges).
  set (st2 := on_a (upd j _) st1). assert (of_g (st_a st2)) as Ha2 by (rewrite <- Ha1; by apply (frozen_upd j)).
  assert (kind_of jid = MemberKindJoin) as Hkjid by (by rewrite (kind_of_index jid j Hjid)).
  assert (automationIsLinear g = false) as Hl by (apply (nonlinear_kind W fid i Hi); rewrite Hk; set_solver).
  set (bs := sortedCopy _). assert (∀ b, b ∈ bs ↔ b ∈ branches_of (g := g) jid) as Hbs.
  { intros b. unfold bs, sortedCopy, sort_strings. rewrite elem_of_sort_by. unfold branches_of. rewrite Hjid, Hperm. by rewrite Hforks. }
  assert (∀ b, b ∈ bs → member_edge g fid b ∧ member_edge g b jid) as Hbe.
  { intros b Hb. apply Hedges. unfold bs, sortedCopy, sort_strings in Hb. rewrite elem_of_sort_by in Hb. by rewrite <- Hforks. }
  assert (∀ b, b ∈ bs → (∃ k, automationMember g b = Some k) ∧ kind_of b ≠ MemberKindJoin) as Hbm.
  { intros b Hb%Hbs. destruct (branch_spec W jid j b Hjid Hkjid Hb) as (?&[Hkb|Hkb]&_); (split; [done|by rewrite Hkb]). }
  assert (∀ x, status (st_a st2) x = if decide (x = jid) then MemberRunning else if decide (x = fid) then MemberCompleted else status (st_a st) x) as Hs2.
  { intros x. unfold st2. cbn. rewrite (status_upd W (st_a st1) j jid) by done. case_decide; [done|].
    unfold st1. cbn. by rewrite (status_upd W (st_a st) i fid). }
  assert (cursors (st_a st2) = []) as Hc2.
  { unfold st2, st1. cbn. rewrite !(cursors_upd (g := g)); [by apply Hr|done|done|done|done]. }
  assert (NoDup bs) as Hnd.
  { unfold bs, sortedCopy, sort_strings. rewrite sort_by_perm, Hforks. destruct (index_member W fid i Hi) as [Hm _].
    apply (wf_fork g W _ Hm). by rewrite <- (kind_of_index fid i Hi). }
  destruct (fork_loop_done (m_ID (mem_at (st_a st1) i)) bs [] st2 Ha2 Hl Hnd) as (st3&res&new&Hloop&Hdone); [intros b Hb; by apply Hbm|].
  rewrite Hloop. rewrite (look_ID W (st_a st2) j jid (frozen_shape Ha2) Hjid).
  assert (waits_at (g := g) (st_a st3) jid) as Hw.
  { eapply (fork_waits fid jid st bs st3 new); [apply Hr| |done|done|done| | | |exact Hc2|exact Hs2|exact Hdone].
    - intros x Hx. right. right. apply tc_rtc. eapply tc_transitive; [by apply (proj2 Hr)|exact Htc].
    - intros b Hb. by apply rtc_once, Hbe.
    - by apply tc_rtc.
    - intros Hb. by apply (proj2 (Hbm jid Hb)). }
  assert (∀ x, x = fid ∨ x = jid ∨ x ∈ bs → unstarted (status (st_a st) x)) as Hun.
  { intros x Hx. destruct (decide (unstarted (status (st_a st) x))) as [|Hs]; [done|]. exfalso. apply (acyclic x).
    eapply tc_rtc_r; [by apply (proj2 Hr)|]. destruct Hx as [->|[->|Hx]]; [apply rtc_refl|by apply tc_rtc|by apply rtc_once, Hbe]. }
  assert (mono (st_a st) (st_a st3)) as Hmono.
  { intros x. destruct (decide (x = fid ∨ x = jid ∨ x ∈ bs)) as [Hx|Hx].
    - pose proof (Hun x Hx) as Hu. split; [intros [Hno _]; done|done].
    - rewrite (bd_others _ _ _ _ Hdone x), Hs2 by tauto. rewrite !decide_False by tauto. done. }
  intros Hev. match type of Hev with evalJoin _ _ _ _ ?s = _ => set (st4 := s) in * end.
  assert (alike (st_a st3) (st_a st4)) as Hal by (by apply alike_fields).
  destruct new as [|s0 new0] eqn:Enew.
  - apply (moves_after st st4 st'); [exact (bd_ongoing _ _ _ _ Hdone)|by intros x; rewrite <- (al_status _ _ Hal)|exact (eq_trans (bd_starts _ _ _ _ Hdone) (app_nil_r _))| |].
    + intros x. rewrite <- (al_status _ _ Hal). intros Hx. destruct (wa_alone _ _ Hw x Hx) as [->|Hb]; [by left|]. apply Hbs in Hb.
      destruct (bd_branch _ _ _ _ Hdone x Hb) as [[Hn _]|[_ Hf]]; [by apply elem_of_nil in Hn|]. by rewrite Hx in Hf.
    + eapply (evalJoin_moves W snap now acyclic guarded enter enter_moves jid j); [exact (bd_frozen _ _ _ _ Hdone)|done|by eapply waits_alike|done].
  - rewrite <- Enew in *. assert (ms_memberID s0 ∈ ms_memberID <$> new) as Hs0 by (rewrite Enew, fmap_cons; left).
    pose proof (bd_in _ _ _ _ Hdone _ Hs0) as Hb0.
    rewrite (evalJoin_idle W snap now enter jid j st4 (ms_memberID s0)) in Hev.
    + injection Hev as <-. split.
      * exact (bd_frozen _ _ _ _ Hdone).
      * intros Hu. left. destruct (bd_ongoing _ _ _ _ Hdone Hu) as [??]. split; [|split; [done|by right]]. right. exists jid. split; [by eapply waits_alike|]. rewrite <- (al_cursors _ _ Hal), (bd_cursors _ _ _ _ Hdone), Hc2, Enew. done.
      * intros x. by rewrite <- (al_status _ _ Hal).
      * exists new. split_and!; [exact (bd_starts _ _ _ _ Hdone)|exact (bd_nodup _ _ _ _ Hdone)|]. intros x. rewrite <- (al_status _ _ Hal). split.
        -- intros Hx. pose proof (bd_in _ _ _ _ Hdone x Hx) as Hxb. split_and!; [apply Hun; auto| |by apply Hbm].
           destruct (bd_branch _ _ _ _ Hdone x Hxb) as [[_ ?]|[? _]]; done.
        -- intros (_&Hx&Hkx). destruct (wa_alone _ _ Hw x Hx) as [->|Hb]; [done|]. apply Hbs in Hb.
           destruct (bd_branch _ _ _ _ Hdone x Hb) as [[? _]|[_ Hf]]; [done|]. by rewrite Hx in Hf.
    + exact (bd_frozen _ _ _ _ Hdone).
    + done.
    + by eapply waits_alike.
    + by apply Hbs.
    + rewrite <- (al_status _ _ Hal). destruct (bd_branch _ _ _ _ Hdone _ Hb0) as [[_ ?]|[? _]]; done.
    + intros x Hx%Hbs. rewrite <- (al_status _ _ Hal). destruct (bd_branch _ _ _ _ Hdone _ Hx) as [[_ ->]|[_ ->]]; done.
Qed.

Lemma enter_body_moves i id st st' : of_g (st_a st) → automationMember g id = Some i →
  kind_of id ∈ [MemberKindPRD; MemberKindAutomation; MemberKindFork] → joinOf g id = None →
  ready_for (g := g) (st_a st) id → enter_body snap now choice enter i st = Some st' → moves st st'.
Proof.
  intros Ha Hi Hk Hj Hr. pose proof (look_ID W (st_a st) i id (frozen_shape Ha) Hi) as Hid. pose proof (id_ne W id i Hi) as Hne.
  assert (∀ st1, alike (st_a st) (st_a st1) → (ongoing (st_a st) → ongoing (st_a st1)) → ef_starts (st_eff st1) = ef_starts (st_eff st) →
    enter_kind snap now enter i st1 = Some st' → moves st st') as Hkind.
  { intros st1 Hal Hst He Hent. assert (of_g (st_a st1)) as Ha1 by (by rewrite <- (al_frozen _ _ Hal)).
    assert (ready_for (g := g) (st_a st1) id) as Hr1 by (by eapply ready_alike).
    apply (moves_after st st1); [done|by intros x; rewrite <- (al_status _ _ Hal)|done| |].
    { intros x Hx. by apply (proj2 (proj1 Hr1)) in Hx. }
    unfold enter_kind in Hent. rewrite !(is_kind_of W _ i id _ Ha1 Hi), (look_ID W _ i id (frozen_shape Ha1) Hi) in Hent.
    destruct (String.eqb_spec (kind_of id) MemberKindPRD) as [Ekp|Hnp].
    { destruct (String.eqb _ ""); injection Hent as <-.
      - apply (arrive_waiting W acyclic st1 _ id); try done. intros _. split; [done|]. left. by split.
      - apply (arrive_running W now acyclic st1 _ i id); try done; [rewrite Ekp; set_solver|].
        eexists. split; [done|]. cbn. by apply (look_ID W _ i id (frozen_shape Ha1) Hi). }
    destruct (String.eqb_spec (kind_of id) MemberKindAutomation) as [Eka|Hna].
    { injection Hent as <-. apply (arrive_running W now acyclic st1 _ i id); try done; [rewrite Eka; set_solver|].
      eexists. split; [done|]. cbn. by apply (look_ID W _ i id (frozen_shape Ha1) Hi). }
    destruct (String.eqb_spec (kind_of id) MemberKindFork) as [Ekf|Hnf]; [by apply (fireFork_moves i id st1)|].
    exfalso. rewrite !elem_of_cons, elem_of_nil in Hk. tauto. }
  unfold enter_body. rewrite Hid. destruct (String.eqb _ AutomationPaused).
  { intros [= <-]. apply (arrive_waiting W acyclic st _ id); try done.
    apply addCursor_ongoing. }
  rewrite (is_kind_of W _ i id _ Ha Hi). destruct (String.eqb_spec (kind_of id) MemberKindJoin) as [Ekj|_]; [rewrite Ekj in Hk; set_solver|].
  destruct (bv_Gate _).
  { intros [= <-]. by apply (arrive_budget W now choice acyclic st i id). }
  apply Hkind; [| |done].
  - cbn. destruct (a_BudgetState (st_a st)); [by apply alike_fields|done].
  - cbn. by destruct (a_BudgetState (st_a st)) as [b|] eqn:E; [intros [??]|].
Qed.
End entering.

Lemma enter_moves f i id st st' : of_g (st_a st) → automationMember g id = Some i →
  kind_of id ∈ [MemberKindPRD; MemberKindAutomation; MemberKindFork] → joinOf g id = None →
  ready_for (g := g) (st_a st) id → enter snap now choice f i st = Some st' → moves st st'.
Proof.
  revert i id st st'. induction f as [|f IH]; intros i id st st'; [done|]. cbn [enter]. by apply enter_body_moves.
Qed.
End fork.

(** * Automations: a step moves the work along

    The three kinds of step, from a settled record to a settled record: a member
    ended, a waiting join looked at again, a deferred member started. *)

#[local] Open Scope Z_scope.

(** An input whose end, if it is one, records a status that is over. *)
Definition ends_member (i : stepInput) : Prop := over (e_memStatus (si_end i)).

Section run.
Context {a : Automation} (W : wf_graph a).
Hypothesis acyclic : ∀ x, ¬ tc (member_edge a) x x.
Hypothesis guarded : branches_reached_by_forks a.
Hypothesis line : settled (g := a) a.

Abbreviation of_a b := (frozen b = frozen a).
Abbreviation moves := (moves (g := a)).

(** A step's result, when it has one. *)
Definition result_moves (r : option (res (Automation * stepEffects))) : Prop :=
  ∀ a' eff, r = Some (Ok (a', eff)) → moves (new_stepper a) (mkStepper a' eff "" false).

Lemma result_err e : result_moves (Some (Err e)).
Proof. done. Qed.

Lemma finalize_alike now st : of_a (st_a st) →
  alike (st_a st) (st_a (finalize now st)) ∧ a_Status (st_a (finalize now st)) = a_Status (st_a st)
  ∧ a_BudgetState (st_a (finalize now st)) = a_BudgetState (st_a st) ∧ ef_starts (st_eff (finalize now st)) = ef_starts (st_eff st).
Proof.
  intros Ha. unfold finalize. cbn zeta.
  set (st1 := on_a (λ a, if automationIsLinear a then a else set_a_CurrentMemberID _ a) st).
  assert (alike (st_a st) (st_a st1) ∧ a_Status (st_a st1) = a_Status (st_a st)
    ∧ a_BudgetState (st_a st1) = a_BudgetState (st_a st) ∧ st_eff st1 = st_eff st) as (H1&H2&Hb1&H3).
  { unfold st1. cbn. destruct (automationIsLinear (st_a st)) eqn:E; [by split_and!|]. split; [|done]. split; [done|done|].
    unfold cursors. change (automationIsLinear (set_a_CurrentMemberID _ _)) with (automationIsLinear (st_a st)). by rewrite E. }
  set (st2 := if nonempty (ef_blocked (st_eff st1)) then _ else _).
  assert (alike (st_a st1) (st_a st2) ∧ a_Status (st_a st2) = a_Status (st_a st1)
    ∧ a_BudgetState (st_a st2) = a_BudgetState (st_a st1) ∧ st_eff st2 = st_eff st1) as (H4&H5&Hb2&H6).
  { unfold st2. destruct (nonempty _); [done|]. by destruct (nonempty (st_advNote st1)). }
  assert (∀ st3, alike (st_a st2) (st_a st3) → a_Status (st_a st3) = a_Status (st_a st2) →
    a_BudgetState (st_a st3) = a_BudgetState (st_a st2) → st_eff st3 = st_eff st2 →
    alike (st_a st) (st_a st3) ∧ a_Status (st_a st3) = a_Status (st_a st) ∧ a_BudgetState (st_a st3) = a_BudgetState (st_a st) ∧ ef_starts (st_eff st3) = ef_starts (st_eff st)) as Hall.
  { intros st3 [A1 A2 A3] B D C. destruct H1 as [F1 F2 F3], H4 as [G1 G2 G3]. split_and!.
    - split; [by rewrite F1, G1|by rewrite F2, G2|by rewrite F3, G3].
    - by rewrite B, H5, H2.
    - by rewrite D, Hb2, Hb1.
    - by rewrite C, H6, H3. }
  clearbody st1 st2. destruct (_ && _); by apply Hall.
Qed.

Lemma result_of_moves now r : (∀ st, r = Some st → moves (new_stepper a) st) → result_moves (result_of now r).
Proof.
  intros H a' eff. destruct r as [st|]; [|done]. cbn. intros [= <- <-].
  pose proof (H st eq_refl) as Hm. destruct (finalize_alike now st (mv_frozen _ _ Hm)) as (Hal&Hst&Hb&He).
  by apply (moves_finally _ st).
Qed.

Lemma self_alike b st : st_a st = b → alike b (st_a st).
Proof. by intros ->. Qed.

Lemma settled_ongoing : ¬ stopped a → unblocked a.
Proof. intros Hns. by destruct line as [(_&_&[?|?])|(_&?&_)]. Qed.

(** ** A waiting join looked at again *)

Lemma waits_unique j j' : kind_of (g := a) j = MemberKindJoin → status a j = MemberRunning → waits_at (g := a) a j' → j = j'.
Proof.
  intros Hk Hr Hw. destruct (wa_alone _ _ Hw j Hr) as [|Hb]; [done|]. exfalso.
  destruct (started_member a j' eq_refl) as [i Hi]; [rewrite (wa_status _ _ Hw); apply running_started|].
  destruct (branch_spec W j' i j Hi (wa_kind _ _ Hw) Hb) as (_&[Hkj|Hkj]&_); by rewrite Hkj in Hk.
Qed.

Lemma stepJoinReeval_moves wall i snap : result_moves (stepJoinReeval wall a i snap).
Proof.
  unfold stepJoinReeval. destruct (automationMember a (si_memberID i)) as [j|] eqn:Hj; [|apply result_err].
  destruct (negb _) eqn:Hc; [apply result_err|]. apply negb_false_iff, andb_true_iff in Hc as [Hk Hr].
  apply is_kind_true in Hk. apply String.eqb_eq in Hr. destruct (index_member W _ _ Hj) as [_ Hid]. cbn zeta. rewrite Hid.
  assert (waits_at (g := a) a (si_memberID i)) as Hw.
  { assert (status a (si_memberID i) = MemberRunning) as Hrun by (by rewrite (status_look a j _ eq_refl Hj)).
    assert (kind_of (g := a) (si_memberID i) = MemberKindJoin) as Hkj by (by rewrite (kind_of_index _ j Hj)).
    destruct line as [[[[c Hm]|(j'&Hw&_)] _]|[[_ Hq] _]].
    - pose proof (ma_alone _ _ Hm _ Hrun) as Hc. pose proof (ma_kind _ _ Hm) as Hkc. rewrite <- Hc, Hkj in Hkc.
      rewrite !elem_of_cons, elem_of_nil in Hkc. by destruct Hkc as [?|[?|[?|?]]].
    - by rewrite (waits_unique _ j' Hkj Hrun Hw).
    - by apply Hq in Hrun. }
  intros a' eff. destruct (evalJoin _ _ _ _ _) as [st|] eqn:E; [|done]. change (Some st ≫= ?k) with (k st). cbn beta.
  destruct (String.eqb _ _); [done|]. revert a' eff. apply result_of_moves. intros ? [= <-].
  eapply (evalJoin_moves W snap _ acyclic guarded _ (enter_moves W acyclic guarded snap _ _ _) (si_memberID i) j); [done|done|exact Hw|exact E].
Qed.

(** ** A deferred member started *)

Lemma member_kind id i : automationMember a id = Some i → kind_of (g := a) id ≠ MemberKindJoin →
  kind_of (g := a) id ∈ [MemberKindPRD; MemberKindAutomation; MemberKindFork].
Proof.
  intros Hi Hk. rewrite (kind_of_index id i Hi) in *. destruct (index_member W id i Hi) as [Hm _].
  pose proof (ko_kind _ _ (wf_kind a W _ Hm)) as Hkk. unfold kind in *. rewrite !elem_of_cons, elem_of_nil in *.
  destruct (String.eqb_spec (m_Kind (mem_at a i)) ""); tauto.
Qed.

Lemma stepStartPending_moves wall i snap : result_moves (stepStartPending wall a i snap).
Proof.
  unfold stepStartPending. destruct (automationMember a (si_memberID i)) as [k|] eqn:Hk; [|apply result_err].
  destruct (negb _) eqn:Hc; [apply result_err|]. apply negb_false_iff in Hc. apply andb_true_iff in Hc as [Hc Hu].
  apply andb_true_iff in Hc as [Hact Hlive]. apply String.eqb_eq in Hact. apply memberUnstarted_true in Hu.
  destruct (negb (_ || _)) eqn:Hkk; [apply result_err|]. apply negb_false_iff, orb_true_iff in Hkk. rewrite !is_kind_true in Hkk.
  destruct (budgetNoChange _ _); [apply result_err|]. cbn zeta. destruct (index_member W _ _ Hk) as [_ Hid]. rewrite Hid in *.
  set (id := si_memberID i) in *. apply isLive_cursors in Hlive; [|by eapply (id_ne W)].
  rewrite <- (status_look a k id eq_refl Hk) in Hu. rewrite <- (kind_of_index id k Hk) in Hkk.
  assert (main_at (g := a) a id) as Hm.
  { destruct line as [[[[c Hm]|(j&Hw&_)] _]|[_ [[Hs _] _]]].
    - rewrite (ma_cursor _ _ Hm) in Hlive. by apply list_elem_of_singleton in Hlive as ->.
    - apply (wa_cursors _ _ Hw) in Hlive as [_ Hr]. rewrite Hr in Hu. by apply running_started in Hu.
    - by rewrite Hact in Hs. }
  assert (automationIsLinear a = false) as Hl.
  { apply (nonlinear_kind W id k Hk). destruct Hkk as [-> | ->]; set_solver. }
  set (st1 := set_st_advNote _ _). assert (of_a (st_a st1)) as H1 by apply frozen_dropCursor.
  assert (∀ x, status (st_a st1) x = status a x) as Hs1 by (intros x; unfold st1; cbn; by rewrite status_dropCursor).
  assert (ready_for (g := a) (st_a st1) id) as Hr1.
  { split; [split|].
    - intros _. unfold st1. cbn. by rewrite (cursors_dropCursor (g := a)), Hl, (ma_cursor _ _ Hm), drop_singleton.
    - intros x. rewrite Hs1. intros Hr. pose proof (ma_alone _ _ Hm x Hr) as ->. rewrite Hr in Hu. by apply running_started in Hu.
    - intros x. rewrite Hs1. intros Hx. pose proof (ma_before _ _ Hm x Hx) as Hb. inversion Hb as [y Heq|y z w Hyz Hzw]; subst.
      + done.
      + by eapply tc_rtc_r; [by apply tc_once|]. }
  intros a' eff. destruct (enter _ _ _ _ _ _) as [st|] eqn:E; [|done]. change (Some st ≫= ?k) with (k st). cbn beta.
  revert a' eff. apply result_of_moves.
  assert (moves (new_stepper a) st) as Hst.
  { apply (moves_after _ st1); [apply dropCursor_ongoing|intros x; by rewrite Hs1|done| |].
    - intros x Hx. by apply (proj2 (proj1 Hr1)) in Hx.
    - eapply (enter_moves W acyclic guarded snap _ _ _ k id st1); [done|done|exact (ma_kind _ _ Hm)|exact (ma_no_branch _ _ Hm)|done|exact E]. }
  intros st' [= <-]. destruct (_ && _) eqn:Hdrop; [|done]. apply andb_true_iff in Hdrop as [_ Hdone]. apply String.eqb_eq in Hdone.
  pose proof (mv_frozen _ _ Hst) as Hf. rewrite (look_ID W _ k id (frozen_shape Hf) Hk).
  rewrite <- (status_look (st_a st) k id Hf Hk) in Hdone.
  assert (cursors (dropCursor id (st_a st)) = cursors (st_a st)) as Hcur.
  { rewrite (cursors_dropCursor (g := a)), Hl by done. apply (filter_all (λ c, negb (String.eqb c id))). intros c Hc.
    apply negb_true_iff, String.eqb_neq. intros ->.
    assert (ongoing a) as Hun by (split; [intros Hcc; by rewrite Hact in Hcc|apply settled_ongoing; by intros [H _]; rewrite Hact in H]).
    destruct (mv_settled _ _ Hst Hun) as [[[[c Hmc]|(j&Hw&_)] _]|[[Hq _] _]].
    - rewrite (ma_cursor _ _ Hmc) in Hc. apply list_elem_of_singleton in Hc as <-.
      destruct (ma_status _ _ Hmc) as [Hs|[Hs _]]; rewrite Hdone in Hs; [by destruct Hs|done].
    - destruct (proj1 (wa_cursors _ _ Hw id) Hc) as [_ Hrc]. by rewrite Hdone in Hrc.
    - rewrite (Hq Hl) in Hc. by apply elem_of_nil in Hc. }
  apply (moves_finally _ st); [done| |cbn; unfold dropCursor; by destruct (automationIsLinear (st_a st))|cbn; unfold dropCursor; by destruct (automationIsLinear (st_a st))|done].
  split; [by rewrite <- (frozen_dropCursor id)|cbn; by rewrite status_dropCursor|done].
Qed.

(** ** A member ended *)

Lemma merged_end_alike now snap k e st : of_a (st_a st) →
  alike (st_a st) (st_a (merged_end now snap k e st)) ∧ (ongoing (st_a st) → ongoing (st_a (merged_end now snap k e st)))
  ∧ ef_starts (st_eff (merged_end now snap k e st)) = ef_starts (st_eff st).
Proof.
  intros Ha. unfold merged_end. destruct (e_merged e) as [n|]; [|by split_and!]. cbn zeta.
  destruct (_ && mn_cancelled n); (split_and!; [by apply alike_fields|by apply ongoing_same|done]).
Qed.

Lemma finish_spec now k id e st : of_a (st_a st) → automationMember a id = Some k →
  of_a (st_a (finish now k e st)) ∧ (ongoing (st_a st) → ongoing (st_a (finish now k e st))) ∧ ef_starts (st_eff (finish now k e st)) = ef_starts (st_eff st)
  ∧ (∀ x, status (st_a (finish now k e st)) x = if decide (x = id) then e_memStatus e else status (st_a st) x)
  ∧ cursors (st_a (finish now k e st)) = if automationIsLinear a then cursors (st_a st)
      else filter (λ c, negb (String.eqb c id) = true) (cursors (st_a st)).
Proof.
  intros Ha Hk. pose proof (look_ID W _ k id (frozen_shape Ha) Hk) as Hid.
  set (f := λ m, set_m_EdgeTaken (e_edge e) (set_m_Outcome (e_outcome e) (set_m_FinishedAt (Some now) (set_m_Status (e_memStatus e) m)))).
  set (b := dropCursor id (upd k f (st_a st))).
  assert (of_a (upd k f (st_a st))) as Hu by (by rewrite frozen_upd).
  assert (alike b (st_a (finish now k e st))) as [Hf Hs Hc].
  { unfold finish, b. rewrite Hid. cbn zeta. by apply alike_fields. }
  split_and!.
  - rewrite <- Hf. unfold b. by rewrite frozen_dropCursor.
  - intros Ho. unfold finish. cbn zeta. rewrite Hid. apply (ongoing_same (dropCursor id (upd k f (st_a st)))); [done|done|].
    apply dropCursor_ongoing. by apply (ongoing_same (st_a st)).
  - unfold finish. cbn. by destruct (nonempty _).
  - intros x. rewrite <- Hs. unfold b. rewrite status_dropCursor. by rewrite (status_upd W (st_a st) k id f x Ha Hk).
  - rewrite <- Hc. unfold b. rewrite (cursors_dropCursor (g := a)) by done. by rewrite (cursors_upd (g := a)).
Qed.

(** Off the fork: the edge of the outcome is followed. *)
Lemma end_main now snap choice f k id e st st' : of_a (st_a st) → alike a (st_a st) → (ongoing a → ongoing (st_a st)) → ef_starts (st_eff st) = [] →
  automationMember a id = Some k → main_at (g := a) a id → over (e_memStatus e) →
  (if nonempty (e_direct e) then Some (block now (e_direct e) (finish now k e st))
   else followEdge snap now (enter snap now choice f) k e (finish now k e st)) = Some st' →
  moves (new_stepper a) st'.
Proof.
  intros Ha Hal Hso He Hk Hm Hov. destruct (finish_spec now k id e st Ha Hk) as (Hf&Hso1&Hst&Hs&Hc). set (st1 := finish now k e st) in *.
  rewrite <- (al_status _ _ Hal) in Hs. rewrite <- (al_cursors _ _ Hal), (ma_cursor _ _ Hm), drop_singleton in Hc.
  assert (quiet (g := a) (st_a st1)) as Hq.
  { split; [intros Hl; by rewrite Hc, Hl|]. intros x. rewrite Hs. case_decide as Hx; [apply Hov|]. intros Hr. by apply Hx, (ma_alone _ _ Hm). }
  assert (mono a (st_a st1)) as Hmono.
  { apply (mono_change _ _ id).
    - intros [H1 H2]. destruct (ma_status _ _ Hm) as [?|[? _]]; done.
    - left. rewrite Hs, decide_True by done. apply Hov.
    - intros x Hx. by rewrite Hs, decide_False. }
  assert (∀ x, ¬ unstarted (status (st_a st1) x) → before (g := a) x id) as Hb.
  { intros x. rewrite Hs. case_decide as Hx; [intros _; subst; apply rtc_refl|]. apply (ma_before _ _ Hm). }
  destruct (nonempty (e_direct e)).
  - intros [= <-]. apply (moves_after _ st1); [exact (λ H, Hso1 (Hso H))|exact Hmono|exact (eq_trans Hst He)| |].
    { intros x Hx. by apply (proj2 Hq) in Hx. }
    apply ended; [exact Hf|by apply (quiet_alike (st_a st1))|done|done|intros x; by split|done].
  - unfold followEdge. intros Hfo. apply (moves_after _ st1); [exact (λ H, Hso1 (Hso H))|exact Hmono|exact (eq_trans Hst He)| |].
    { intros x Hx. by apply (proj2 Hq) in Hx. }
    assert (edgeTarget (mem_at (st_a st1) k) (e_edge e) = edgeTarget (mem_at a k) (e_edge e)) as Ht.
    { pose proof (look_static W (st_a st1) k id (frozen_shape Hf) Hk) as Hst1. unfold edgeTarget.
      by rewrite (f_equal m_OnComplete Hst1 : m_OnComplete (mem_at (st_a st1) k) = m_OnComplete (mem_at a k)),
        (f_equal m_OnBlocked Hst1 : m_OnBlocked (mem_at (st_a st1) k) = m_OnBlocked (mem_at a k)),
        (f_equal m_OnFailed Hst1 : m_OnFailed (mem_at (st_a st1) k) = m_OnFailed (mem_at a k)). }
    rewrite Ht in Hfo.
    eapply (follow_moves W snap now acyclic guarded _ (enter_moves W acyclic guarded snap now choice f) id k); [exact Hf|done|exact Hq|exact Hb|exact Hfo].
Qed.

(** A branch: its join is decided. *)
Lemma end_branch_moves now snap choice f k id e j jid note st st' : of_a (st_a st) → alike a (st_a st) → (ongoing a → ongoing (st_a st)) → ef_starts (st_eff st) = [] →
  automationMember a id = Some k → automationMember a jid = Some j → waits_at (g := a) a jid → id ∈ cursors a → over (e_memStatus e) →
  evalJoin snap now (enter snap now choice f) jid (decision now "branch" note (finish now k e st)) = Some st' →
  moves (new_stepper a) st'.
Proof.
  intros Ha Hal Hso He Hk Hj Hw Hlive Hov Hev. destruct (finish_spec now k id e st Ha Hk) as (Hf&Hso1&Hst&Hs&Hc). set (st1 := finish now k e st) in *.
  rewrite <- (al_status _ _ Hal) in Hs. rewrite <- (al_cursors _ _ Hal), (wa_nonlinear _ _ Hw) in Hc.
  apply (wa_cursors _ _ Hw) in Hlive as [Hb Hr]. assert (jid ≠ id) as Hne.
  { intros ->. by apply (join_not_branch W id k Hk (wa_kind _ _ Hw)). }
  assert (waits_at (g := a) (st_a st1) jid) as Hw1.
  { destruct Hw as [H1 H2 H3 H4 H5 H6 H7 H8]. split; try done.
    - rewrite Hs. by rewrite decide_False.
    - intros x. rewrite Hc, elem_of_dropped, H4, Hs. case_decide as Hx; [subst|tauto].
      split; [by intros [_ ?]|]. intros [_ Hro]. by destruct Hov.
    - rewrite Hc. by apply NoDup_filter.
    - intros b Hbb. rewrite Hs. case_decide; [apply Hov|auto].
    - intros x. rewrite Hs. case_decide; [intros Hro; by destruct Hov|auto].
    - intros x. rewrite Hs. case_decide; [intros _; subst; apply H8; rewrite Hr; apply running_started|auto]. }
  apply (moves_after _ st1).
  - exact (λ H, Hso1 (Hso H)).
  - apply (mono_change _ _ id); [intros [_ H]; done|left; rewrite Hs, decide_True by done; apply Hov|].
    intros x Hx. by rewrite Hs, decide_False.
  - exact (eq_trans Hst He).
  - intros x. rewrite Hs. case_decide; [intros Hro; by destruct Hov|]. intros Hrx. right. cbn. rewrite Hrx. apply running_started.
  - apply (moves_after st1 (decision now "branch" note st1)); [by apply ongoing_same|intros x; by split|done| |].
    { intros x Hx. right. change (status (st_a st1) x = MemberRunning) in Hx. rewrite Hx. apply running_started. }
    eapply (evalJoin_moves W snap now acyclic guarded _ (enter_moves W acyclic guarded snap now choice f) jid j);
      [exact Hf|done|apply (waits_alike (st_a st1)); [by apply alike_fields|done]|exact Hev].
Qed.

Lemma stepEnd_moves wall i snap : ¬ stopped a → ends_member i → result_moves (stepEnd wall a i snap).
Proof.
  intros Hns Hov. unfold stepEnd. destruct (automationMember a (si_memberID i)) as [k|] eqn:Hk; [|apply result_err].
  destruct (negb _) eqn:Hlive; [apply result_err|]. destruct (_ && _); [apply result_err|]. cbn zeta.
  destruct (index_member W _ _ Hk) as [_ Hid]. rewrite Hid in *. set (id := si_memberID i) in *. set (now := at_time wall i).
  apply negb_false_iff, isLive_cursors in Hlive; [|by eapply (id_ne W)].
  destruct (merged_end_alike now snap k (si_end i) (new_stepper a) eq_refl) as (Hal&Hso&He). set (st1 := merged_end _ _ _ _ _) in *.
  assert (of_a (st_a st1)) as H1 by (by rewrite <- (al_frozen _ _ Hal)).
  apply result_of_moves. intros st'. rewrite (shape_joinOf (frozen_shape H1)).
  destruct line as [[[[c Hm]|(j&Hw&_)] _]|[_ [Hs _]]]; [| |done].
  - rewrite (ma_cursor _ _ Hm) in Hlive. apply list_elem_of_singleton in Hlive as <-. rewrite (ma_no_branch _ _ Hm).
    by apply (end_main now snap (si_breachChoice i) (enter_fuel a) k id).
  - destruct (proj1 (wa_cursors _ _ Hw id) Hlive) as [Hb Hr].
    destruct (started_member a j eq_refl) as [ji Hji]; [rewrite (wa_status _ _ Hw); apply running_started|].
    destruct (branch_spec W j ji id Hji (wa_kind _ _ Hw) Hb) as (_&_&_&->).
    destruct (finish_spec now k id (set_edge "" (si_end i)) st1 H1 Hk) as (Hf&_).
    rewrite (look_ID W _ ji j (frozen_shape Hf) Hji).
    by apply (end_branch_moves now snap (si_breachChoice i) (enter_fuel a) k id (set_edge "" (si_end i)) ji j).
Qed.

Lemma step_moves wall i snap : ¬ stopped a → ends_member i → result_moves (step wall a i snap).
Proof.
  intros Hns Hov. unfold step. destruct (si_reeval i); [apply stepJoinReeval_moves|].
  destruct (si_startPending i); [apply stepStartPending_moves|by apply stepEnd_moves].
Qed.
End run.

(** ** The theorems of the checks and of a step *)

(** ** Examples to run *)

(** Every zone is known; maps are ranged over in key order. *)
#[local] Instance any_zone : TimeZones := {| LoadLocation _ := true |}.
#[local] Existing Instance in_key_order.

Definition prd_member (id prd next : string) : AutomationMember :=
  mkMember id prd next "" "" "" "" [] [] "" zero_time "operator" "" MemberPending None None "" "" None None float_zero "".
Definition fork_member (id : string) (branches : list string) : AutomationMember :=
  mkMember id "" "" "" "" MemberKindFork "" branches [] "" zero_time "operator" "" MemberPending None None "" "" None None float_zero "".
Definition join_member (id rule next : string) (branches : list string) : AutomationMember :=
  mkMember id "" next "" "" MemberKindJoin "" [] branches rule zero_time "operator" "" MemberPending None None "" "" None None float_zero "".

Definition automation_of (status entry : string) (cursors : list string) (ms : list AutomationMember) : Automation :=
  mkAutomation "a1" "release" status entry (default "" (head cursors)) cursors ms 1 None None None None
    zero_time zero_time None None None [] [].

(** A member first, then a fork over two branches, then a last member. *)
Definition fork_join (rule : string) : Automation :=
  automation_of AutomationActive "m" ["m"]
    [set_m_Status MemberRunning (prd_member "m" "p0" "f"); fork_member "f" ["x"; "y"]; prd_member "x" "p1" ""; prd_member "y" "p2" "";
     join_member "j" rule "n" ["x"; "y"]; prd_member "n" "p3" ""].

Definition approved (ids : list string) : gmap string memberInfo :=
  list_to_map ((λ id, (id, mkInfo id PRDApproved zero_verdict)) <$> ids).
Definition end_of (id s : string) : stepInput :=
  mkInput id (default (mkEnd "" "" "" false "" false "" None) (prdEnd s)) false false 5 false false "".

(** ** What the checks accept *)

Lemma accepted_wf `{!TimeZones, !MapRange} a : is_ok (validateAutomation a) = true ↔ wf a.
Proof.
  split.
  - destruct (validateAutomation a) as [a'|] eqn:E; [|done]. intros _. by apply validate_wf in E as [? _].
  - intros W. destruct (settings_trimmed a W) as [a' Ht]. by rewrite (proj2 (validate_wf a a') (conj W Ht)).
Qed.

(** C16: [validateAutomation] accepts a record exactly if it is well formed:
    named, with a known status, members with distinct ids and PRDs and the fields
    of their kind, edges to members other than joins, forks and joins paired over
    the same branches, valid settings, cursors that are members, no cycle among
    what the entry leads to, and, once it left draft, every member reachable. *)
Theorem validate_exact `{!TimeZones, !MapRange} a :
  is_ok (validateAutomation a) = true ↔ wf a.
Proof. apply accepted_wf. Qed.

(** ** Steps *)

(** C17: a step of a well-formed Automation that left draft returns, with a new
    record or an error: the recursion of [enter] through forks and joins ends
    within its fuel. *)
Theorem step_terminates `{!TimeZones, !MapRange} wall a i snap :
  wf a → a_Status a ≠ AutomationDraft → ∃ r, step wall a i snap = Some r.
Proof. intros W Hd. destruct (step_of_wf wall a i snap W Hd) as (r&Hr&_). eauto. Qed.

(** C18: the record a step leaves, with its cursors normalized as the store does
    before it writes, is accepted again; and nothing but statuses, cursors, times,
    outcomes, the budget episode and the decisions has changed. *)
Theorem step_keeps_valid `{!TimeZones, !MapRange} wall a i snap a' eff :
  is_ok (validateAutomation a) = true → a_Status a ≠ AutomationDraft →
  step wall a i snap = Some (Ok (a', eff)) →
  is_ok (validateAutomation (normalizeActiveCursors a')) = true ∧ frozen a' = frozen a.
Proof.
  intros W%accepted_wf Hd Hs. destruct (step_of_wf wall a i snap W Hd) as (r&Hr&Ht).
  rewrite Hs in Hr. injection Hr as <-. split; [|apply Ht]. by apply accepted_wf, (tame_wf a).
Qed.

(** ** Witnesses *)

Example fork_join_ok : is_ok (validateAutomation (fork_join "")) = true.
Proof. vm_compute. reflexivity. Qed.

Lemma fork_join_wf : wf (fork_join "").
Proof. apply validate_wf with (a' := fork_join ""). vm_compute. reflexivity. Qed.

Lemma step_terminates_witness :
  wf (fork_join "") ∧ ∃ r, step 0 (fork_join "") (end_of "m" PRDCompleted) (approved ["x"; "y"; "n"]) = Some r.
Proof.
  split; [exact fork_join_wf|].
  exact (step_terminates 0 (fork_join "") (end_of "m" PRDCompleted) (approved ["x"; "y"; "n"]) fork_join_wf
    ltac:(vm_compute; discriminate)).
Defined.

Definition after (r : option (res (Automation * stepEffects))) : Automation :=
  match r with Some (Ok (a, _)) => a | _ => fork_join "" end.
Definition effects (r : option (res (Automation * stepEffects))) : stepEffects :=
  match r with Some (Ok (_, e)) => e | _ => no_effects ∅ end.

Lemma step_keeps_valid_witness :
  let r := step 0 (fork_join "") (end_of "m" PRDCompleted) (approved ["x"; "y"; "n"]) in
  a_ActiveCursors (after r) = ["x"; "y"] ∧ (ms_memberID <$> ef_starts (effects r)) = ["x"; "y"]
  ∧ is_ok (validateAutomation (normalizeActiveCursors (after r))) = true ∧ frozen (after r) = frozen (fork_join "").
Proof.
  split; [vm_compute; reflexivity|]. split; [vm_compute; reflexivity|].
  apply (step_keeps_valid 0 (fork_join "") (end_of "m" PRDCompleted) (approved ["x"; "y"; "n"])
    (after (step 0 (fork_join "") (end_of "m" PRDCompleted) (approved ["x"; "y"; "n"])))
    (effects (step 0 (fork_join "") (end_of "m" PRDCompleted) (approved ["x"; "y"; "n"])))).
  - vm_compute. reflexivity.
  - vm_compute. discriminate.
  - vm_compute. reflexivity.
Defined.
