(* ===== verification/AutomationStore.v ===== *)
(** * Automations: the search for a nesting cycle is exact

    [nestedPathToSelf] walks the Automations nested below a child and answers a
    path back to the Automation being checked. Within the fuel its callers give
    it, it answers one exactly if there is one ([nested_path_exact]).

    Also: the store of Automations. *)

From S2P Require Import Prelude GoBase GoText AutomationSettings Automation AutomationValidate RecordStore.

#[local] Open Scope Z_scope.

Section nesting.
Context (m : gmap string Automation) (selfID : string).
Hypothesis keyed : ∀ id a, m !! id = Some a → a_ID a = id.

(** [x] has a member that nests [y]. *)
Definition nests_in (x y : string) : Prop :=
  ∃ a n, m !! x = Some a ∧ n ∈ a_Members a ∧ is_kind MemberKindAutomation n = true ∧ m_AutomationID n = y.

(** What is below [x] was searched: it is not the Automation itself, and it was
    visited or does not exist. *)
Definition searched (seen : gset string) (y : string) : Prop := y ≠ selfID ∧ (m !! y = None ∨ y ∈ seen).

(** After a search from [seen] that found nothing. *)
Record grown (seen seen' : gset string) : Prop := {
  gr_more : seen ⊆ seen';
  gr_self : selfID ∉ seen' ∨ selfID ∈ seen;
  gr_below x y : x ∈ seen' → x ∉ seen → nests_in x y → searched seen' y
}.

Lemma grown_refl seen : grown seen seen.
Proof. split; [done| |done]. destruct (decide (selfID ∈ seen)); auto. Qed.

Lemma searched_more seen seen' y : seen ⊆ seen' → searched seen y → searched seen' y.
Proof. intros Hs [? [?|?]]; split; auto. Qed.

Lemma grown_trans s1 s2 s3 : grown s1 s2 → grown s2 s3 → grown s1 s3.
Proof.
  intros [H1 Hs1 Hb1] [H2 Hs2 Hb2]. split; [by etrans|destruct Hs1, Hs2; auto|]. intros x y Hx Hn He.
  destruct (decide (x ∈ s2)); [|by apply (Hb2 x y)]. eapply searched_more; [done|by apply (Hb1 x y)].
Qed.

(** How many Automations are left to visit. *)
Definition left_to (seen : gset string) : nat := size (dom m ∖ seen).

Lemma left_to_visit x seen : x ∈ dom m → x ∉ seen → (left_to ({[x]} ∪ seen) < left_to seen)%nat.
Proof. intros Hx Hn. unfold left_to. apply subset_size. set_solver. Qed.

Lemma left_to_more seen seen' : seen ⊆ seen' → (left_to seen' ≤ left_to seen)%nat.
Proof. intros Hs. unfold left_to. apply subseteq_size. set_solver. Qed.

(** What a search from [x] with [seen] answers. *)
Definition answer (x : string) (seen : gset string) (r : option (gset string * option (list string))) : Prop :=
  match r with
  | None => False
  | Some (_, Some _) => rtc nests_in x selfID
  | Some (seen', None) => grown seen seen' ∧ searched seen' x
  end.

Lemma children_answer walk x cur path ms seen fuel :
  (∀ next path seen, m !! a_ID next = Some next → (left_to seen < fuel)%nat → answer (a_ID next) seen (walk next path seen)) →
  m !! x = Some cur → (∀ n, n ∈ ms → n ∈ a_Members cur) → (left_to seen < fuel)%nat →
  match nested_children walk selfID (λ id, m !! id) path ms seen with
  | None => False
  | Some (_, Some _) => rtc nests_in x selfID
  | Some (seen', None) => grown seen seen' ∧ ∀ n, n ∈ ms → is_kind MemberKindAutomation n = true → searched seen' (m_AutomationID n)
  end.
Proof.
  intros Hwalk Hx. revert seen. induction ms as [|n ms IH]; intros seen Hms Hf; cbn [nested_children].
  { split; [apply grown_refl|]. by intros n ?%elem_of_nil. }
  assert (∀ k, k ∈ ms → k ∈ a_Members cur) as Hms' by (intros k Hk; apply Hms; by right).
  assert (∀ s s', left_to seen < fuel → grown seen s' → s = s' → left_to s < fuel)%nat as Hless.
  { intros s s' _ Hg ->. pose proof (left_to_more _ _ (gr_more _ _ Hg)). lia. }
  destruct (is_kind MemberKindAutomation n) eqn:Ek; cbn [negb].
  2:{ specialize (IH seen Hms' Hf). destruct (nested_children _ _ _ _ ms seen) as [[s [p|]]|]; [done| |done].
      destruct IH as [Hg Ha]. split; [done|]. intros k [->|Hk]%elem_of_cons Hkk; [congruence|auto]. }
  assert (nests_in x (m_AutomationID n)) as He by (exists cur, n; split_and!; [done|apply Hms; left|done|done]).
  destruct (String.eqb_spec (m_AutomationID n) selfID) as [Hs|Hs]; [apply rtc_once; by rewrite <- Hs|].
  assert (∀ s1, grown seen s1 → searched s1 (m_AutomationID n) →
    match nested_children walk selfID (λ id, m !! id) path ms s1 with
    | None => False
    | Some (_, Some _) => rtc nests_in x selfID
    | Some (s', None) => grown seen s' ∧ ∀ k, k ∈ n :: ms → is_kind MemberKindAutomation k = true → searched s' (m_AutomationID k)
    end) as Hrest.
  { intros s1 Hg Hn. specialize (IH s1 Hms' (Hless s1 s1 Hf Hg eq_refl)).
    destruct (nested_children _ _ _ _ ms s1) as [[s [p|]]|]; [done| |done]. destruct IH as [Hg' Ha].
    split; [by eapply grown_trans|]. intros k [->|Hk]%elem_of_cons Hkk; [|auto]. eapply searched_more; [apply Hg'|done]. }
  destruct (m !! m_AutomationID n) as [next|] eqn:En; [|apply Hrest; [apply grown_refl|by split; [|left]]].
  pose proof (keyed _ _ En) as Hid. rewrite <- Hid in En, He. specialize (Hwalk next path seen En Hf).
  destruct (walk next path seen) as [[s [p|]]|]; cbn [answer] in Hwalk; [by eapply rtc_l| |done].
  rewrite Hid in Hwalk. apply Hrest; apply Hwalk.
Qed.

Lemma walk_answer fuel cur path seen :
  m !! a_ID cur = Some cur → (left_to seen < fuel)%nat →
  answer (a_ID cur) seen (nested_walk fuel selfID (λ id, m !! id) cur path seen).
Proof.
  revert cur path seen. induction fuel as [|fuel IH]; intros cur path seen Hc Hf; [lia|]. cbn [nested_walk].
  destruct (String.eqb_spec (a_ID cur) selfID) as [->|Hs]; [by cbn|].
  case_bool_decide as Hseen; [by split; [apply grown_refl|split; [|right]]|].
  assert (a_ID cur ∈ dom m) as Hd by (apply elem_of_dom; eauto).
  pose proof (children_answer (nested_walk fuel selfID (λ id, m !! id)) (a_ID cur) cur (path ++ [a_ID cur]) (a_Members cur)
    ({[a_ID cur]} ∪ seen) fuel) as H. pose proof (left_to_visit _ _ Hd Hseen).
  specialize (H ltac:(intros; by apply IH) Hc ltac:(done) ltac:(lia)).
  destruct (nested_children _ _ _ _ _ _) as [[s [p|]]|]; [done| |done]. destruct H as [Hg Ha]. cbn [answer].
  assert (a_ID cur ∈ s) as Hin by (apply Hg; set_solver). split; [|split; [done|by right]]. destruct Hg as [Hmore Hself Hb]. split.
  - set_solver.
  - set_solver.
  - intros x y Hx Hn He. destruct (decide (x = a_ID cur)) as [->|Hne].
    + destruct He as (a&n&Ha'&Hn'&Hk&<-). rewrite Hc in Ha'. injection Ha' as <-. by apply Ha.
    + apply (Hb x y); [done|set_solver|done].
Qed.

(** With nothing seen before, what was searched holds no way to the Automation. *)
Lemma searched_closed seen x : grown ∅ seen → searched seen x → ¬ rtc nests_in x selfID.
Proof.
  intros Hg Hx Hr. remember selfID as z eqn:Hz. revert Hx. induction Hr as [x|x y z He _ IH]; [by intros [? _]|].
  intros [_ Hx]. apply IH; [done|]. apply (gr_below _ _ Hg x y); [|set_solver|done].
  destruct Hx as [Hx|Hx]; [|done]. destruct He as (a&n&Ha&_). congruence.
Qed.

(** A path is found exactly if there is a way from the child back. *)
Lemma nested_path_exact child :
  m !! a_ID child = Some child →
  (is_Some (nestedPathToSelf (S (size m)) selfID child (λ id, m !! id)) ↔ rtc nests_in (a_ID child) selfID)
  ∧ is_Some (nested_walk (S (size m)) selfID (λ id, m !! id) child [] ∅).
Proof.
  intros Hc. pose proof (walk_answer (S (size m)) child [] ∅ Hc) as H.
  assert (left_to ∅ < S (size m))%nat as Hf by (unfold left_to; rewrite difference_empty_L, size_dom; lia).
  specialize (H Hf). unfold nestedPathToSelf. destruct (nested_walk _ _ _ _ _ _) as [[s [p|]]|]; cbn in H |- *; [|..|done].
  - split; [|eauto]. split; [by intros _|eauto].
  - split; [|eauto]. split; [by intros []|]. destruct H as [Hg Hs]. intros Hr. by destruct (searched_closed s (a_ID child) Hg Hs).
Qed.
End nesting.

(** * The store of Automations

    internal/autonomous/automation_store.go: the Automations by id, the index of
    which Automation owns a PRD, and the file they are rewritten to after every
    change. [Create], [Update] and [Delete] put an old state back when the file
    cannot be written.

    Each operation holds the lock of its Automation throughout, and the lock of
    the maps for short stretches only: to read, to commit, to list the records it
    will write, and to roll back. [begin_], [commit], [snapshot] and [land] are
    these stretches of an operation; run one after the other they are the
    operation called alone ([Update], [Delete]), and [store_step] interleaves any
    number of operations on different Automations. *)

#[local] Open Scope Z_scope.

(** ** The file

    A record a line, as encoding/json writes it: [Marshal] and [Unmarshal] stand
    for that package. What it writes for a struct is compact, so a line is never
    blank and holds no newline ([JSONLaws]). A record need not come back as it
    was (a string that is not UTF-8 does not): [reads_back] says when it does. *)
Class JSON (A : Type) := { Marshal : A → string; Unmarshal : string → res A }.
Definition one_line (s : string) : bool := negb (existsb (Ascii.eqb nl) (String.list_ascii_of_string s)) && nonempty (TrimSpace s).
Class JSONLaws (A : Type) `{!JSON A} : Prop := { marshal_line : ∀ a : A, one_line (Marshal a) = true }.

Section file.
Context {A : Type} `{!JSON A}.

Definition reads_back (a : A) : Prop := Unmarshal (Marshal a) = Ok a.

Fixpoint writeJSONL (l : list A) : string :=
  match l with [] => "" | a :: l => Marshal a +:+ String nl (writeJSONL l) end.

Fixpoint decode_lines (lines : list string) : res (list A) :=
  match lines with
  | [] => Ok []
  | s :: lines =>
      if nonempty (TrimSpace s) then a ← Unmarshal s; l ← decode_lines lines; Ok (a :: l) else decode_lines lines
  end.
(** [data]: the text of the file, [None] if there is none. *)
Definition loadJSONL (data : option string) : res (list A) :=
  match data with None => Ok [] | Some text => decode_lines (split_byte nl text) end.

Lemma split_byte_line s text :
  existsb (Ascii.eqb nl) (String.list_ascii_of_string s) = false → split_byte nl (s +:+ String nl text) = s :: split_byte nl text.
Proof.
  induction s as [|a s IH]; [done|]. cbn [String.list_ascii_of_string existsb].
  intros [Ha H]%orb_false_iff. change (String a s +:+ String nl text) with (String a (s +:+ String nl text)). cbn [split_byte].
  rewrite Ascii.eqb_sym, Ha. by rewrite IH.
Qed.

(** What was written line by line is read line by line. *)
Lemma load_written `{!JSONLaws A} (l : list A) : (∀ a, a ∈ l → reads_back a) → loadJSONL (Some (writeJSONL l)) = Ok l.
Proof.
  unfold loadJSONL. induction l as [|a l IH]; intros H; [done|]. cbn [writeJSONL].
  pose proof (marshal_line a) as Ha. unfold one_line in Ha. apply andb_true_iff in Ha as [Hn%negb_true_iff Ht].
  rewrite split_byte_line by done. cbn [decode_lines]. rewrite Ht, (H a) by left. cbn. rewrite IH; [done|].
  intros b Hb. apply H. by right.
Qed.
End file.

(** ** The store

    [as_file]: the records the file was last rewritten with, so that it holds
    their lines ([writeJSONL]); [None] when a failed write left it torn. *)
Record AutomationStore := mkStore {
  automations : gmap string Automation;
  owner : gmap string string;
  as_file : option (list Automation)
}.

Definition set_owner (o : gmap string string) (s : AutomationStore) : AutomationStore := mkStore (automations s) o (as_file s).
Definition set_automations (m : gmap string Automation) (s : AutomationStore) : AutomationStore := mkStore m (owner s) (as_file s).
Definition set_as_file (f : option (list Automation)) (s : AutomationStore) : AutomationStore := mkStore (automations s) (owner s) f.

(** ** The owner index *)

(** The Automation becomes the owner of its members' PRDs. *)
Definition claim (a : Automation) (o : gmap string string) : gmap string string :=
  foldl (λ o m, if String.eqb (m_PRDID m) "" then o else <[m_PRDID m := a_ID a]> o) o (a_Members a).

(** [l]: the Automations in the order they are ranged over. *)
Definition rebuildIndex (l : list Automation) : gmap string string :=
  foldl (λ o a, if terminal_status (a_Status a) then o else claim a o) ∅ l.

Definition OwnerOf (s : AutomationStore) (prdID : string) : string := default "" (owner s !! prdID).

Definition Get (s : AutomationStore) (id : string) : option Automation := automations s !! id.

(** [newAutomationID], called until it answers an id that is not in use: [draws]
    are its answers, and one more draw than there are Automations is enough when
    they differ. [None]: they ran out. *)
Fixpoint new_id (fuel : nat) (used : gmap string Automation) (draws : nat → string) (i : nat) : option (string * nat) :=
  match fuel with
  | O => None
  | S f => match used !! draws i with
           | None => Some (draws i, S i)
           | Some _ => new_id f used draws (S i)
           end
  end.

(** Ids and provenance for the members that have none. *)
Fixpoint new_members (now : Time) (draws : nat → string) (i : nat) (ms : list AutomationMember) : list AutomationMember :=
  match ms with
  | [] => []
  | m :: ms =>
      let '(m, i) := if String.eqb (m_ID m) "" then (set_m_ID (draws i) m, S i) else (m, i) in
      let m := if IsZero (m_AddedAt m) then set_m_AddedAt now m else m in
      let m := if String.eqb (m_AddedBy m) "" then set_m_AddedBy "operator" m else m in
      m :: new_members now draws i ms
  end.

Definition draft_of (now : Time) (draws : nat → string) (i : nat) (id : string) (a : Automation) : Automation :=
  let ms := new_members now draws i (a_Members a) in
  let a := set_a_Members ms (set_a_ID id a) in
  let a := set_a_Status AutomationDraft (set_a_Version 1 (set_a_CreatedAt now (set_a_UpdatedAt now a))) in
  match ms with
  | m :: _ => if String.eqb (a_EntryMemberID a) "" then set_a_EntryMemberID (m_ID m) a else a
  | [] => a
  end.

Section store.
Context {W : Type} {disk : Disk W Automation} {zones : TimeZones} {order : MapRange}.

(** [lookupPRD] reads the store of PRDs; [torn] is what a failed write leaves of
    the file, which is truncated before it is rewritten. *)
Context (lookupPRD : string → option PRD) (torn : W → list Automation → option (list Automation)).

Definition rebuildIndexLocked (w : W) (s : AutomationStore) : AutomationStore :=
  set_owner (rebuildIndex (range w (automations s))) s.

Definition nests (childID : string) (a : Automation) : bool :=
  negb (terminal_status (a_Status a))
  && existsb (λ m, is_kind MemberKindAutomation m && String.eqb (m_AutomationID m) childID) (a_Members a).

Definition nestingOwnerOf (w : W) (s : AutomationStore) (childID : string) : string :=
  default "" (a_ID <$> find (nests childID) (range w (automations s))).

Definition nesting_fuel (s : AutomationStore) : nat := S (size (automations s)).

(** What [Create] and [Update] check before they commit; the record comes back as
    it will be stored. *)
Definition check_record (w : W) (s : AutomationStore) (a : Automation) : res Automation :=
  a ← validateAutomation (normalizeActiveCursors (normalizeMemberStages a));
  validateMemberStages a ;;
  validateAutomationOwnership a lookupPRD (OwnerOf s) ;;
  validateAutomationNesting (nesting_fuel s) a (Get s) (nestingOwnerOf w s) ;;
  Ok a.

(** The write of [persist]; [l] was listed before. *)
Definition write_file (w : W) (l : list Automation) (s : AutomationStore) : W * AutomationStore * option string :=
  let '(w', err) := write w l in
  (w', set_as_file (match err with None => Some l | Some _ => torn w l end) s, err).

Definition persist (w : W) (s : AutomationStore) : W * AutomationStore * option string :=
  write_file w (range w (automations s)) s.

(** ** Load *)

Definition loaded (a : Automation) : Automation :=
  let a := if bool_decide (a_ActiveCursors a = []) && nonempty (a_CurrentMemberID a)
           then set_a_ActiveCursors [a_CurrentMemberID a] a else a in
  set_a_ActiveCursors (sortedUniqueStrings (a_ActiveCursors a)) a.

(** [NewAutomationStore] over the text of the file: an error if a line does not
    parse. *)
Definition NewAutomationStore `{!JSON Automation} (w : W) (data : option string) : res AutomationStore :=
  l ← loadJSONL data;
  Ok (rebuildIndexLocked w (mkStore (load_list a_ID (loaded <$> l)) ∅ (Some l))).

(** [sort.Slice] is not stable: Automations created in one instant come in any
    order, here in the order of the range. *)
Definition List_ (w : W) (s : AutomationStore) : list Automation :=
  sort_by (λ x y, After (a_CreatedAt x) (a_CreatedAt y)) (range w (automations s)).

(** ** Changes *)

(** What an operation does to the store once its checks have passed. *)
Inductive change :=
| Insert (a : Automation)
| Replace (a existing : Automation)
| Remove (a : Automation).

Definition commit (w : W) (id : string) (c : change) (s : AutomationStore) : AutomationStore :=
  match c with
  | Insert a => set_owner (claim a (owner s)) (set_automations (<[id := a]> (automations s)) s)
  | Replace a _ => rebuildIndexLocked w (set_automations (<[id := a]> (automations s)) s)
  | Remove _ => rebuildIndexLocked w (set_automations (delete id (automations s)) s)
  end.

(** [before]: the index as it was just before the change. *)
Definition roll_back (id : string) (c : change) (before : gmap string string) (s : AutomationStore) : AutomationStore :=
  set_owner before (set_automations (match c with
    | Insert _ => delete id (automations s)
    | Replace _ a | Remove a => <[id := a]> (automations s)
    end) s).

(** An operation alone: the change, the write, and the way back. *)
Definition carry_out (w : W) (id : string) (c : change) (s : AutomationStore) : W * AutomationStore * option error :=
  let before := owner s in
  let '(w, s, err) := persist w (commit w id c s) in
  match err with
  | Some e => (w, roll_back id c before s, Some (Errorf e []))
  | None => (w, s, None)
  end.

(** ** Create, Update, Delete *)

Definition Create (w : W) (draws : nat → string) (a : Automation) (s : AutomationStore)
    : option (W * AutomationStore * res Automation) :=
  '(id, i) ← (if String.eqb (a_ID a) "" then new_id (S (size (automations s))) (automations s) draws 0 else Some (a_ID a, 0%nat));
  Some (match check_record w s (draft_of (wall w) draws i id a) with
        | Err e => (w, s, Err e)
        | Ok a => let '(w, s, err) := carry_out w id (Insert a) s in
                  (w, s, match err with Some e => Err e | None => Ok a end)
        end).

Definition not_found (id : string) : error := Errorf "404: automation %s not found" [AStr id].
Definition version_mismatch (v : Z) : error := Errorf "409: version mismatch: current version is %d" [AInt v].
Definition not_deletable (st : string) : error :=
  Errorf "409: automation is %s; only draft, completed or cancelled automations can be deleted" [AStr st].

(** [Update] until it commits: the record found and the one to put in its place. *)
Definition update_check (w : W) (id : string) (expectedVersion : Z) (mutate : Automation → res Automation) (s : AutomationStore)
    : res (Automation * Automation) :=
  match automations s !! id with
  | None => Err (not_found id)
  | Some existing =>
      fail_if ((0 <? expectedVersion) && negb (a_Version existing =? expectedVersion)) (version_mismatch (a_Version existing)) ;;
      clone ← mutate existing;
      clone ← check_record w s (set_a_ID id clone);
      Ok (existing, set_a_UpdatedAt (wall w) (set_a_Version (wrap64 (a_Version existing + 1)) clone))
  end.

Definition Update (w : W) (id : string) (expectedVersion : Z) (mutate : Automation → res Automation) (s : AutomationStore)
    : W * AutomationStore * res Automation :=
  match update_check w id expectedVersion mutate s with
  | Err e => (w, s, Err e)
  | Ok (existing, clone) =>
      let '(w, s, err) := carry_out w id (Replace clone existing) s in
      (w, s, match err with Some e => Err e | None => Ok clone end)
  end.

Definition delete_check (id : string) (s : AutomationStore) : res Automation :=
  match automations s !! id with
  | None => Err (not_found id)
  | Some a =>
      fail_if (negb (one_of (a_Status a) [AutomationDraft; AutomationCompleted; AutomationCancelled])) (not_deletable (a_Status a)) ;;
      Ok a
  end.

Definition Delete (w : W) (id : string) (s : AutomationStore) : W * AutomationStore * option error :=
  match delete_check id s with
  | Err e => (w, s, Some e)
  | Ok a => carry_out w id (Remove a) s
  end.

(** ** Operations side by side

    A change under way holds the lock of its Automation: it is checked, then
    committed, then its list of records is read, then the file is written (one
    writer at a time) or the change undone. A creation takes the lock only after its
    checks; here it has its id from then on, which says that no other creation under
    way has drawn the same id (an update or deletion finds no record before). *)

Inductive phase :=
| Checked
| Committed (before : gmap string string)
| Listed (before : gmap string string) (l : list Automation).

Record machine := mkMachine { mc_store : AutomationStore; mc_under_way : gmap string (change * phase) }.

Inductive store_step : machine → machine → Prop :=
| begin_create w draws i id a a' s t :
    automations s !! id = None → t !! id = None →
    check_record w s (draft_of (wall w) draws i id a) = Ok a' →
    store_step (mkMachine s t) (mkMachine s (<[id := (Insert a', Checked)]> t))
| begin_update w id v mutate existing clone s t :
    t !! id = None → update_check w id v mutate s = Ok (existing, clone) →
    store_step (mkMachine s t) (mkMachine s (<[id := (Replace clone existing, Checked)]> t))
| begin_delete id a s t :
    t !! id = None → delete_check id s = Ok a →
    store_step (mkMachine s t) (mkMachine s (<[id := (Remove a, Checked)]> t))
| do_commit w id c s t :
    t !! id = Some (c, Checked) →
    store_step (mkMachine s t) (mkMachine (commit w id c s) (<[id := (c, Committed (owner s))]> t))
| do_list w id c before s t :
    t !! id = Some (c, Committed before) →
    store_step (mkMachine s t) (mkMachine s (<[id := (c, Listed before (range w (automations s)))]> t))
| do_write w w' id c before l s s' t :
    t !! id = Some (c, Listed before l) → write_file w l s = (w', s', None) →
    store_step (mkMachine s t) (mkMachine s' (delete id t))
| do_fail w w' e id c before l s s' t :
    t !! id = Some (c, Listed before l) → write_file w l s = (w', s', Some e) →
    store_step (mkMachine s t) (mkMachine (roll_back id c before s') (delete id t)).
End store.
