(* ===== verification/AutomationStoreInvariant.v ===== *)
(** * The store of Automations: what every operation keeps

    [store_ok]: each record is kept under its own id, is accepted by the checks,
    has its cursors in normal form, and the owner index says of each PRD which
    Automation that has not ended runs it. [carry_out_spec] is what is left of an
    operation whose write failed, [check_record_spec] what the checks promise of
    the record they let through. *)

From S2P Require Import Prelude GoBase GoText RecordStore Graph.
From S2P Require Import AutomationSettings.
From S2P Require Import Automation AutomationGraph AutomationValidate AutomationWf.
From S2P Require Import AutomationAccept.
From S2P Require Import AutomationStep AutomationFrame AutomationStore.

#[local] Open Scope Z_scope.

(** ** Owners *)

(** The Automation has not ended and runs the PRD. *)
Definition owns (a : Automation) (p : string) : Prop :=
  terminal_status (a_Status a) = false ∧ p ≠ "" ∧ p ∈ m_PRDID <$> a_Members a.

Lemma claim_lookup a o p :
  claim a o !! p = if bool_decide (p ≠ "" ∧ p ∈ m_PRDID <$> a_Members a) then Some (a_ID a) else o !! p.
Proof.
  unfold claim. revert o. induction (a_Members a) as [|m ms IH]; intros o; cbn [foldl].
  - rewrite bool_decide_false; [done|]. by intros [_ ?%elem_of_nil].
  - rewrite IH, fmap_cons. case_bool_decide as H.
    + rewrite bool_decide_true; [done|]. split; [apply H|]. right. apply H.
    + destruct (String.eqb_spec (m_PRDID m) "") as [He|Hne].
      * rewrite bool_decide_false; [done|]. intros [Hp [->|?]%elem_of_cons]; tauto.
      * destruct (decide (m_PRDID m = p)) as [<-|Hp].
        -- rewrite lookup_insert_eq, bool_decide_true; [done|]. split; [done|left].
        -- rewrite lookup_insert_ne by done. rewrite bool_decide_false; [done|].
           intros [? [->|?]%elem_of_cons]; tauto.
Qed.

(** One turn of the loop over the Automations. *)
Definition index_one (o : gmap string string) (a : Automation) : gmap string string :=
  if terminal_status (a_Status a) then o else claim a o.

Lemma index_one_lookup o a p :
  (owns a p ∧ index_one o a !! p = Some (a_ID a)) ∨ (¬ owns a p ∧ index_one o a !! p = o !! p).
Proof.
  unfold index_one, owns. destruct (terminal_status (a_Status a)); [right; naive_solver|].
  rewrite claim_lookup. case_bool_decide; naive_solver.
Qed.

Lemma index_spec l o p :
  (∃ a, a ∈ l ∧ owns a p ∧ foldl index_one o l !! p = Some (a_ID a))
  ∨ (∀ a, a ∈ l → ¬ owns a p) ∧ foldl index_one o l !! p = o !! p.
Proof.
  revert o. induction l as [|a l IH]; intros o; cbn [foldl]; [right; split; [by intros a ?%elem_of_nil|done]|].
  destruct (IH (index_one o a)) as [(b&Hb&Ho&->)|[Hno ->]]; [left; exists b; split; [by right|done]|].
  destruct (index_one_lookup o a p) as [[Ho ->]|[Ho ->]].
  - left. exists a. split; [left|done].
  - right. split; [|done]. intros b [->|Hb]%elem_of_cons; auto.
Qed.

Lemma rebuild_lookup l p id :
  (∀ a b, a ∈ l → b ∈ l → owns a p → owns b p → a_ID a = a_ID b) →
  rebuildIndex l !! p = Some id ↔ ∃ a, a ∈ l ∧ owns a p ∧ a_ID a = id.
Proof.
  intros Hu. change (rebuildIndex l) with (foldl index_one ∅ l).
  destruct (index_spec l ∅ p) as [(a&Ha&Ho&->)|[Hno ->]].
  - split; [intros [= <-]; eauto|]. intros (b&Hb&Hob&<-). f_equal. by apply Hu.
  - rewrite lookup_empty. split; [done|]. intros (a&Ha&Ho&_). by destruct (Hno a Ha).
Qed.

(** ** What the checks promise *)

Section store.
Context {W : Type} {disk : Disk W Automation} {zones : TimeZones} {order : MapRange}.
Context (lookupPRD : string → option PRD) (torn : W → list Automation → option (list Automation)).

Lemma owns_member a p : wf a → owns a p → ∃ m, m ∈ a_Members a ∧ is_kind MemberKindPRD m = true ∧ m_PRDID m = p.
Proof.
  intros Hwf (_&Hp&(m&->&Hm)%list_elem_of_fmap). exists m. split; [done|]. split; [|done].
  apply is_kind_true, (ko_prd (a_ID a) m); [|done]. by apply (wf_kind a (wf_members a Hwf)).
Qed.

Lemma ownership_ok (a : Automation) f p :
  wf a → validateAutomationOwnership a lookupPRD f = Ok tt → owns a p → f p = "" ∨ f p = a_ID a.
Proof.
  intros Hwf Hv Ho. destruct (owns_member a p Hwf Ho) as (m&Hm&Hk&<-). destruct Ho as (Ht&_&_).
  unfold validateAutomationOwnership in Hv. rewrite Ht in Hv. rewrite for_each_Ok in Hv. specialize (Hv m Hm).
  rewrite Hk in Hv. destruct (lookupPRD (m_PRDID m)); [|done]. rewrite !check_Ok, fail_if_Ok in Hv.
  destruct Hv as (_&_&[He%nonempty_false|He%negb_false_iff%String.eqb_eq]%andb_false_iff); auto.
Qed.

Lemma trimmed_fields a a' : trimmed a a' →
  a_ID a' = a_ID a ∧ a_Status a' = a_Status a ∧ a_Version a' = a_Version a
  ∧ (normalizeActiveCursors a = a → normalizeActiveCursors a' = a').
Proof.
  intros Ht. pose proof (shape_linear (trimmed_shape _ _ Ht)) as Hl. destruct Ht as (ms&p&_&_&->). split_and!; try done.
  unfold normalizeActiveCursors. rewrite Hl.
  destruct (automationIsLinear a); intros Heq%(f_equal a_ActiveCursors);
    cbn [a_ActiveCursors a_CurrentMemberID set_a_ActiveCursors set_a_BudgetPolicy set_a_Members] in Heq |- *; by rewrite Heq.
Qed.

(** What a record that passed the checks against a store is. *)
Record checked (s : AutomationStore) (a a' : Automation) : Prop := {
  ck_wf : wf a';
  ck_normal : normalizeActiveCursors a' = a';
  ck_stages : validateMemberStages a' = Ok tt;
  ck_owner p : owns a' p → OwnerOf s p = "" ∨ OwnerOf s p = a_ID a';
  ck_id : a_ID a' = a_ID a;
  ck_status : a_Status a' = a_Status a;
  ck_version : a_Version a' = a_Version a
}.

Lemma check_record_spec w s a a' : check_record lookupPRD w s a = Ok a' → checked s a a'.
Proof.
  unfold check_record. rewrite bind_Ok. intros (b&(Hwf&Ht)%validate_wf&Hk). rewrite !unit_Ok in Hk.
  destruct Hk as (Hst&Ho&_&[= <-]). destruct (trimmed_fields _ _ Ht) as (Hid&Hs&Hv&Hn).
  assert (wf b) as Hb by (by eapply trimmed_wf).
  assert (∀ x, a_ID (normalizeActiveCursors (normalizeMemberStages x)) = a_ID x
    ∧ a_Status (normalizeActiveCursors (normalizeMemberStages x)) = a_Status x
    ∧ a_Version (normalizeActiveCursors (normalizeMemberStages x)) = a_Version x) as Hx.
  { intros x. unfold normalizeActiveCursors. by destruct (automationIsLinear _). }
  destruct (Hx a) as (Hx1&Hx2&Hx3). split; [done|apply Hn, normalize_idem|done| |congruence..].
  intros p. by apply ownership_ok.
Qed.

(** ** The invariant *)

Record store_ok (s : AutomationStore) : Prop := {
  so_keyed : keyed a_ID (automations s);
  so_named id a : automations s !! id = Some a → id ≠ "";
  so_wf id a : automations s !! id = Some a → wf a;
  so_normal id a : automations s !! id = Some a → normalizeActiveCursors a = a;
  so_owner p id : owner s !! p = Some id ↔ ∃ a, automations s !! id = Some a ∧ owns a p
}.

Lemma empty_ok f : store_ok (mkStore ∅ ∅ f).
Proof.
  split; cbn; [intros ?? H|intros ?? H|intros ?? H|intros ?? H|]; try by rewrite lookup_empty in H.
  intros p id. rewrite lookup_empty. split; [done|]. intros (a&H&_). by rewrite lookup_empty in H.
Qed.

(** A PRD has one owner. *)
Lemma one_owner s i j a b p :
  store_ok s → automations s !! i = Some a → automations s !! j = Some b → owns a p → owns b p → i = j.
Proof.
  intros H Hi Hj Ha Hb. assert (owner s !! p = Some i) as H1 by (apply (so_owner s H); eauto).
  assert (owner s !! p = Some j) as H2 by (apply (so_owner s H); eauto). congruence.
Qed.

(** A record that may take the place of what is kept under its id. *)
Lemma fits_ok s id a i b p :
  store_ok s → id ≠ "" → a_ID a = id → (∀ p, owns a p → OwnerOf s p = "" ∨ OwnerOf s p = id) →
  automations s !! i = Some b → owns a p → owns b p → i = id.
Proof.
  intros H Hid Ha Ho Hi Hap Hbp. assert (owner s !! p = Some i) as H1 by (apply (so_owner s H); eauto).
  destruct (Ho p Hap) as [He|He]; unfold OwnerOf in He; rewrite H1 in He; cbn in He; [|done].
  by destruct (so_named s H i b Hi).
Qed.

Lemma index_exact `{!DiskLaws W Automation} w (m : gmap string Automation) :
  keyed a_ID m → (∀ i j a b p, m !! i = Some a → m !! j = Some b → owns a p → owns b p → i = j) →
  ∀ p id, rebuildIndex (range w m) !! p = Some id ↔ ∃ a, m !! id = Some a ∧ owns a p.
Proof.
  intros Hk Hu p id. assert (∀ a, a ∈ range w m ↔ m !! a_ID a = Some a) as Hr.
  { intros a. rewrite (range_perm w m). by apply elem_of_keyed. }
  rewrite rebuild_lookup.
  - split.
    + intros (a&Ha&Ho&<-). exists a. by apply Hr in Ha.
    + intros (a&Ha&Ho). pose proof (Hk _ _ Ha) as Hi. exists a. rewrite Hr, Hi. done.
  - intros a b Ha%Hr Hb%Hr Hoa Hob. by apply (Hu (a_ID a) (a_ID b) a b p).
Qed.

Lemma insert_ok s id a :
  store_ok s → id ≠ "" → a_ID a = id → wf a → normalizeActiveCursors a = a →
  (∀ p, owns a p → OwnerOf s p = "" ∨ OwnerOf s p = id) →
  let m := <[id := a]> (automations s) in
  keyed a_ID m ∧ (∀ i b, m !! i = Some b → i ≠ "" ∧ wf b ∧ normalizeActiveCursors b = b)
  ∧ (∀ i j x y p, m !! i = Some x → m !! j = Some y → owns x p → owns y p → i = j).
Proof.
  intros H Hid Ha Hwf Hn Ho m. split; [by apply keyed_set, Ha; apply H|]. split.
  - intros i b [[<- <-]|[_ Hi]]%lookup_insert_Some; [done|].
    split; [by eapply so_named|]. split; [by eapply so_wf|by eapply so_normal].
  - intros i j x y p Hx%lookup_insert_Some Hy%lookup_insert_Some Hpx Hpy.
    destruct Hx as [[<- <-]|[_ Hx]], Hy as [[<- <-]|[_ Hy]]; [done|..].
    + symmetry. by apply (fits_ok s id a j y p).
    + by apply (fits_ok s id a i x p).
    + by apply (one_owner s i j x y p).
Qed.

(** ** Changes *)

(** The store holds what the change replaces. *)
Definition replaces (c : change) (id : string) (s : AutomationStore) : Prop :=
  automations s !! id = match c with Insert _ => None | Replace _ x | Remove x => Some x end.

(** What the change puts in its place may be there. *)
Definition may_be (id : string) (a : Automation) (s : AutomationStore) : Prop :=
  id ≠ "" ∧ a_ID a = id ∧ wf a ∧ normalizeActiveCursors a = a ∧ ∀ p, owns a p → OwnerOf s p = "" ∨ OwnerOf s p = id.
Definition may_put (c : change) (id : string) (s : AutomationStore) : Prop :=
  match c with
  | Insert a => may_be id a s ∧ terminal_status (a_Status a) = false
  | Replace a _ => may_be id a s
  | Remove _ => True
  end.

Lemma commit_automations (w : W) id c s : automations (commit w id c s) =
  match c with Insert a | Replace a _ => <[id := a]> (automations s) | Remove _ => delete id (automations s) end.
Proof. by destruct c. Qed.

Lemma claim_exact s id a :
  store_ok s → automations s !! id = None → terminal_status (a_Status a) = false → may_be id a s →
  ∀ p i, claim a (owner s) !! p = Some i ↔ ∃ b, <[id := a]> (automations s) !! i = Some b ∧ owns b p.
Proof.
  intros So Hnew Ht (Hid&Ha&_&_&Ho) p i. rewrite claim_lookup, Ha. case_bool_decide as Hp.
  - assert (owns a p) as Hap by done. split.
    + intros [= <-]. exists a. rewrite lookup_insert_eq. done.
    + intros (b&[[<- <-]|[Hne Hb]]%lookup_insert_Some&Hbp); [done|]. by destruct Hne; rewrite (fits_ok s id a i b p).
  - rewrite (so_owner s So). split; intros (b&Hb&Hbp); exists b; (split; [|done]).
    + rewrite lookup_insert_ne; [done|]. intros <-. congruence.
    + apply lookup_insert_Some in Hb as [[<- <-]|[_ Hb]]; [|done]. destruct Hp. by destruct Hbp as (_&?).
Qed.

Context {range_law : DiskLaws W Automation}.

Lemma delete_ok s id : store_ok s →
  let m := delete id (automations s) in
  keyed a_ID m ∧ (∀ i b, m !! i = Some b → i ≠ "" ∧ wf b ∧ normalizeActiveCursors b = b)
  ∧ (∀ i j x y p, m !! i = Some x → m !! j = Some y → owns x p → owns y p → i = j).
Proof.
  intros So m. split; [by apply keyed_delete; apply So|]. split.
  - intros i b [_ Hi]%lookup_delete_Some. split; [by eapply so_named|]. split; [by eapply so_wf|by eapply so_normal].
  - intros i j x y p [_ Hx]%lookup_delete_Some [_ Hy]%lookup_delete_Some. by apply (one_owner s i j x y p).
Qed.

Lemma store_ok_of m o f :
  keyed a_ID m → (∀ i b, m !! i = Some b → i ≠ "" ∧ wf b ∧ normalizeActiveCursors b = b) →
  (∀ p i, o !! p = Some i ↔ ∃ b, m !! i = Some b ∧ owns b p) → store_ok (mkStore m o f).
Proof. intros Hk Hm Ho. split; [done|..|done]; intros i b Hi; by apply (Hm i b). Qed.

Lemma commit_ok w id c s : store_ok s → replaces c id s → may_put c id s → store_ok (commit w id c s).
Proof.
  intros So Hc Hp. destruct c as [a|a x|x].
  - destruct Hp as [Hp Ht]. destruct (insert_ok s id a So) as (Hk&Hm&_); try apply Hp.
    apply store_ok_of; [done|done|]. by apply claim_exact.
  - destruct (insert_ok s id a So) as (Hk&Hm&Hu); try apply Hp. apply store_ok_of; [done|done|]. by apply index_exact.
  - destruct (delete_ok s id So) as (Hk&Hm&Hu). apply store_ok_of; [done|done|]. by apply index_exact.
Qed.

Lemma store_ok_file f s : store_ok s → store_ok (set_as_file f s).
Proof. intros []. by split. Qed.

(** An operation whose write fails leaves the records and the index as they were. *)
Lemma carry_out_spec w id c s w' s' err :
  replaces c id s → carry_out torn w id c s = (w', s', err) →
  match err with
  | None => automations s' = automations (commit w id c s) ∧ owner s' = owner (commit w id c s)
            ∧ as_file s' = Some (range w (automations s'))
  | Some _ => automations s' = automations s ∧ owner s' = owner s
  end.
Proof.
  intros Hc. unfold carry_out, persist, write_file. destruct (write w _) as [w1 [e|]]; intros [= <- <- <-]; [|done].
  split; [|done]. unfold replaces in Hc. destruct c as [a|a x|x]; cbn.
  - by apply delete_insert_id.
  - rewrite insert_insert_eq. by apply insert_id.
  - by rewrite insert_delete_eq, insert_id.
Qed.

Lemma carry_out_ok w id c s w' s' err :
  store_ok s → replaces c id s → may_put c id s → carry_out torn w id c s = (w', s', err) → store_ok s'.
Proof.
  intros So Hc Hp Ho. pose proof (carry_out_spec w id c s w' s' err Hc Ho) as H. destruct s' as [m o f]; cbn in H.
  destruct err as [e|].
  - destruct H as [-> ->]. by apply (store_ok_file f) in So.
  - destruct H as (->&->&_). apply (store_ok_file f (commit w id c s)). by apply commit_ok.
Qed.

(** ** An update, read backwards *)

Lemma update_check_Ok w id v f s x c :
  update_check lookupPRD w id v f s = Ok (x, c) ↔
  automations s !! id = Some x ∧ ((0 <? v) && negb (a_Version x =? v)) = false
  ∧ ∃ y z, f x = Ok y ∧ check_record lookupPRD w s (set_a_ID id y) = Ok z
    ∧ c = set_a_UpdatedAt (wall w) (set_a_Version (wrap64 (a_Version x + 1)) z).
Proof.
  unfold update_check. destruct (automations s !! id) as [x'|]; [|split; [intros Heq; discriminate Heq|intros [Heq _]; discriminate Heq]].
  rewrite check_Ok, bind_Ok. split.
  - intros (Hv&y&Hy&(z&Hz&[= <- <-])%bind_Ok). split; [done|]. split; [done|]. by exists y, z.
  - intros ([= <-]&Hv&y&z&Hy&Hz&->). split; [done|]. exists y. split; [done|]. rewrite bind_Ok. by exists z.
Qed.

Lemma update_stored w id v mutate s w' s' a :
  Update lookupPRD torn w id v mutate s = (w', s', Ok a) →
  ∃ x y z, automations s !! id = Some x ∧ (0 < v → a_Version x = v) ∧ mutate x = Ok y
    ∧ check_record lookupPRD w s (set_a_ID id y) = Ok z
    ∧ a = set_a_UpdatedAt (wall w) (set_a_Version (wrap64 (a_Version x + 1)) z)
    ∧ automations s' = <[id := a]> (automations s) ∧ as_file s' = Some (range w (automations s')).
Proof.
  unfold Update. destruct (update_check lookupPRD w id v mutate s) as [[x c]|e] eqn:E; [|done].
  apply update_check_Ok in E as (Hx&Hv&y&z&Hy&Hz&->).
  destruct (carry_out torn w id _ s) as [[w1 s1] err] eqn:Ho.
  match type of Ho with carry_out _ _ _ ?c _ = _ => assert (replaces c id s) as Hc by exact Hx end.
  pose proof (carry_out_spec w id _ s _ _ _ Hc Ho) as Hs. destruct err; [done|]. intros [= <- <- <-].
  destruct Hs as (Ha&_&Hf). exists x, y, z. split_and!; try done. lia.
Qed.

Lemma update_failed w id v mutate s w' s' e :
  Update lookupPRD torn w id v mutate s = (w', s', Err e) → automations s' = automations s ∧ owner s' = owner s.
Proof.
  unfold Update. destruct (update_check lookupPRD w id v mutate s) as [[x c]|e'] eqn:E; [|by intros [= _ <- _]].
  apply update_check_Ok in E as (Hx&_). destruct (carry_out torn w id _ s) as [[w1 s1] err] eqn:Ho.
  match type of Ho with carry_out _ _ _ ?c _ = _ => assert (replaces c id s) as Hc by exact Hx end.
  pose proof (carry_out_spec w id _ s _ _ _ Hc Ho) as Hs. destruct err; [|done]. by intros [= _ <- _].
Qed.
End store.
