(* ===== verification/AutomationStoreTheorems.v ===== *)
(** * The store of Automations: the theorems

    What the store keeps over any sequence of calls, what each error leaves, what
    a restart reads back, and what holds (and what does not) when calls on
    different Automations run side by side. *)

From S2P Require Import Prelude GoBase GoText RecordStore Graph.
From S2P Require Import AutomationSettings.
From S2P Require Import Automation AutomationGraph AutomationValidate AutomationWf.
From S2P Require Import AutomationAccept.
From S2P Require Import AutomationStep AutomationFrame AutomationStore.
From S2P Require Import AutomationStoreInvariant AutomationRun.

#[local] Open Scope Z_scope.

(** A call of the store; [w] is the world it meets. *)
Inductive store_op (W : Type) :=
| OpCreate (w : W) (draws : nat → string) (a : Automation)
| OpUpdate (w : W) (id : string) (expectedVersion : Z) (mutate : Automation → res Automation)
| OpDelete (w : W) (id : string).
Arguments OpCreate {_} _ _ _.
Arguments OpUpdate {_} _ _ _ _.
Arguments OpDelete {_} _ _.

(** The callers of [Create] leave the id to it, and ids drawn are not empty. *)
Definition op_ok {W} (o : store_op W) : Prop :=
  match o with OpCreate _ draws a => a_ID a = "" ∧ ∀ n, draws n ≠ "" | _ => True end.

Section store.
Context {W : Type} {disk : Disk W Automation} {zones : TimeZones} {order : MapRange}.
Context (lookupPRD : string → option PRD) (torn : W → list Automation → option (list Automation)).

Definition after_op (s : AutomationStore) (o : store_op W) : AutomationStore :=
  match o with
  | OpCreate w draws a => match Create lookupPRD torn w draws a s with Some (_, s', _) => s' | None => s end
  | OpUpdate w id v f => (Update lookupPRD torn w id v f s).1.2
  | OpDelete w id => (Delete torn w id s).1.2
  end.

(** ** The checks, read backwards *)

Lemma delete_check_Ok id s a : delete_check id s = Ok a → automations s !! id = Some a.
Proof. unfold delete_check. destruct (automations s !! id); [|done]. rewrite check_Ok. by intros [_ [= <-]]. Qed.

Lemma new_id_fresh f used draws i id j : new_id f used draws i = Some (id, j) → used !! id = None ∧ ∃ n, id = draws n.
Proof.
  revert i. induction f as [|f IH]; intros i; [done|]. cbn [new_id].
  destruct (used !! draws i) eqn:E; [apply IH|]. intros [= <- _]. eauto.
Qed.

Lemma stamped_may_be s a b id t v :
  id ≠ "" → a_ID a = id → checked s a b → may_be id (set_a_UpdatedAt t (set_a_Version v b)) s.
Proof.
  intros Hid Ha [Hwf Hn _ Ho Hi _ _]. split; [done|]. split; [by rewrite <- Ha, <- Hi|]. split; [by apply stamped_wf|].
  split.
  - unfold normalizeActiveCursors in *. change (automationIsLinear (set_a_UpdatedAt t (set_a_Version v b))) with (automationIsLinear b).
    destruct (automationIsLinear b); apply (f_equal a_ActiveCursors) in Hn; cbn [a_ActiveCursors set_a_ActiveCursors] in Hn;
      cbn [a_ActiveCursors a_CurrentMemberID set_a_ActiveCursors set_a_UpdatedAt set_a_Version]; by rewrite Hn.
  - intros p Hp. rewrite <- Ha, <- Hi. by apply Ho.
Qed.

Context {range_law : DiskLaws W Automation}.

Lemma update_ok w id v f s : store_ok s → store_ok (Update lookupPRD torn w id v f s).1.2.
Proof.
  intros So. unfold Update. destruct (update_check lookupPRD w id v f s) as [[x c]|e] eqn:E; [|done].
  apply update_check_Ok in E as (Hx&_&y&z&Hy&Hz&->).
  destruct (carry_out torn w id _ s) as [[w' s'] err] eqn:Ho. cbn.
  match type of Ho with carry_out _ _ _ ?c _ = _ => assert (replaces c id s) as Hc by exact Hx end.
  refine (carry_out_ok torn w id _ s _ _ _ So Hc _ Ho). cbn.
  eapply stamped_may_be; [by eapply so_named| |by eapply check_record_spec]. done.
Qed.

Lemma delete_call_ok w id s : store_ok s → store_ok (Delete torn w id s).1.2.
Proof.
  intros So. unfold Delete. destruct (delete_check id s) as [a|e] eqn:E; [|done]. apply delete_check_Ok in E.
  destruct (carry_out torn w id _ s) as [[w' s'] err] eqn:Ho. cbn.
  by refine (carry_out_ok torn w id (Remove a) s _ _ _ So E _ Ho).
Qed.

Lemma create_ok w draws a s w' s' r :
  store_ok s → a_ID a = "" → (∀ n, draws n ≠ "") → Create lookupPRD torn w draws a s = Some (w', s', r) → store_ok s'.
Proof.
  intros So Ha Hd. unfold Create. rewrite Ha. cbn [String.eqb].
  destruct (new_id _ _ _ _) as [[id i]|] eqn:Ei; [|done]. apply new_id_fresh in Ei as [Hnew [n ->]]. cbn.
  destruct (check_record lookupPRD w s _) as [b|e] eqn:E; [|by intros [= <- <- <-]]. apply check_record_spec in E.
  destruct (carry_out torn w _ _ s) as [[w1 s1] err] eqn:Ho. intros [= <- <- <-]. assert (replaces (Insert b) (draws n) s) as Hc by exact Hnew.
  refine (carry_out_ok torn w _ _ s _ _ _ So Hc _ Ho).
  assert (∀ m l, a_ID (draft_of (wall w) draws m l a) = l ∧ a_Status (draft_of (wall w) draws m l a) = AutomationDraft) as Hdr.
  { intros m l. unfold draft_of. destruct (new_members _ _ _ _) as [|m0 l0]; [done|]. cbn. by destruct (String.eqb (a_EntryMemberID a) ""). }
  destruct (Hdr i (draws n)) as [H1 H2], E as [Hwf Hn _ Hown Hi Hst _]. rewrite H1 in Hi. rewrite H2 in Hst.
  split; [|cbn; by rewrite Hst]. split; [done|]. split; [done|]. split; [done|]. split; [done|]. intros p Hp. rewrite <- Hi. by apply Hown.
Qed.

Lemma after_op_ok s o : store_ok s → op_ok o → store_ok (after_op s o).
Proof.
  intros So. destruct o as [w draws a|w id v f|w id]; cbn.
  - intros [Ha Hd]. destruct (Create _ _ _ _ _ _) as [[[w' s'] r]|] eqn:E; [|done]. by eapply create_ok.
  - intros _. by apply update_ok.
  - intros _. by apply delete_call_ok.
Qed.

Lemma calls_keep_store ops f :
  (∀ o, o ∈ ops → op_ok o) → store_ok (foldl after_op (mkStore ∅ ∅ f) ops).
Proof.
  intros Hops. apply foldl_invariant; [|by apply empty_ok]. intros s o Ho So. by apply after_op_ok, Hops.
Qed.

(** C25: over any sequence of calls, whatever the mutations and whichever writes
    fail, each record is kept under its id, is accepted by the checks with its
    cursors in normal form, and the owner index names for a PRD exactly the one
    Automation that runs it and has not ended. *)
Theorem store_invariant ops f :
  (∀ o, o ∈ ops → op_ok o) → store_ok (foldl after_op (mkStore ∅ ∅ f) ops).
Proof. apply calls_keep_store. Qed.

(** C27: an update either replaces the record it was asked for by the mutated,
    checked and stamped one, in memory and in the file, or reports why not (no
    such Automation, another version, the mutation's own error, a failed check, a
    failed write) and leaves every record and the owner index as they were. *)
Theorem update_exact w id v mutate s :
  match Update lookupPRD torn w id v mutate s with
  | (w', s', Ok a) => ∃ x y z, automations s !! id = Some x ∧ (0 < v → a_Version x = v) ∧ mutate x = Ok y
      ∧ check_record lookupPRD w s (set_a_ID id y) = Ok z
      ∧ a = set_a_UpdatedAt (wall w) (set_a_Version (wrap64 (a_Version x + 1)) z)
      ∧ automations s' = <[id := a]> (automations s) ∧ as_file s' = Some (range w (automations s'))
  | (w', s', Err e) => automations s' = automations s ∧ owner s' = owner s
      ∧ match automations s !! id with
        | None => e = not_found id
        | Some x =>
            if decide (0 < v ∧ a_Version x ≠ v) then e = version_mismatch (a_Version x)
            else match mutate x with
                 | Err e' => e = e'
                 | Ok y => match check_record lookupPRD w s (set_a_ID id y) with
                           | Err e' => e = e'
                           | Ok _ => ∃ l text, (write w l).2 = Some text ∧ e = Errorf text []
                           end
                 end
        end
  end.
Proof.
  destruct (Update lookupPRD torn w id v mutate s) as [[w' s'] [a|e]] eqn:Hu; [by eapply update_stored|].
  revert Hu. unfold Update. destruct (update_check lookupPRD w id v mutate s) as [[x c]|e'] eqn:E.
  - apply update_check_Ok in E as (Hx&Hv&y&z&Hy&Hz&->).
    assert (¬ (0 < v ∧ a_Version x ≠ v)) as Hver by lia.
    destruct (carry_out torn w id _ s) as [[w1 s1] err] eqn:Ho.
    match type of Ho with carry_out _ _ _ ?c _ = _ => assert (replaces c id s) as Hc by exact Hx end.
    pose proof (carry_out_spec torn w id _ s _ _ _ Hc Ho) as Hs. destruct err as [t|]; [|done]. intros [= <- <- <-].
    destruct Hs as [? ?]. split; [done|]. split; [done|]. rewrite Hx, decide_False, Hy, Hz by done.
    unfold carry_out, persist, write_file in Ho. destruct (write w _) as [w2 [t'|]] eqn:Ew; [|discriminate Ho]. injection Ho as <- <- <-.
    eexists _, t'. by rewrite Ew.
  - intros [= <- <- <-]. split; [done|]. split; [done|]. unfold update_check in E.
    destruct (automations s !! id) as [x|]; [|by injection E].
    destruct (decide (0 < v ∧ a_Version x ≠ v)) as [Hv|Hv].
    + assert ((0 <? v) && negb (a_Version x =? v) = true) as Hb by lia. rewrite Hb in E. by injection E.
    + assert ((0 <? v) && negb (a_Version x =? v) = false) as Hb by lia. rewrite Hb in E. cbn [fail_if] in E.
      change (Ok tt ≫= ?k) with (k tt) in E. cbv beta in E.
      destruct (mutate x) as [y|e1]; [|by injection E]. change (Ok y ≫= ?k) with (k y) in E. cbv beta in E.
      destruct (check_record lookupPRD w s (set_a_ID id y)) as [z|e1]; [done|by injection E].
Qed.

(** ** Restart *)

Lemma loaded_owns a p : owns (loaded a) p ↔ owns a p.
Proof. unfold loaded. by destruct (_ && _). Qed.

Lemma loaded_ID a : a_ID (loaded a) = a_ID a.
Proof. unfold loaded. by destruct (_ && _). Qed.

(** A record comes back as it was stored unless it has no cursor but still names a
    current member, which becomes its cursor. *)
Lemma loaded_normal a : normalizeActiveCursors a = a →
  loaded a = a
  ∨ automationIsLinear a = false ∧ a_ActiveCursors a = [] ∧ a_CurrentMemberID a ≠ ""
    ∧ loaded a = set_a_ActiveCursors [a_CurrentMemberID a] a.
Proof.
  intros Hn. assert (sortedUniqueStrings (a_ActiveCursors a) = a_ActiveCursors a) as Hs.
  { rewrite <- Hn. unfold normalizeActiveCursors. destruct (automationIsLinear a); [|apply sortedUnique_idem].
    cbn [a_ActiveCursors set_a_ActiveCursors]. by destruct (nonempty _). }
  assert (set_a_ActiveCursors (a_ActiveCursors a) a = a) as Hset by (by destruct a).
  unfold loaded. case_bool_decide as Hc; cbn [andb]; [|left; by rewrite Hs].
  destruct (nonempty (a_CurrentMemberID a)) eqn:E; [|left; by rewrite Hs]. apply nonempty_true in E.
  destruct (automationIsLinear a) eqn:El; [|by right].
  unfold normalizeActiveCursors in Hn. rewrite El in Hn. apply (f_equal a_ActiveCursors) in Hn.
  cbn [a_ActiveCursors set_a_ActiveCursors] in Hn. apply nonempty_true in E. rewrite E, Hc in Hn. done.
Qed.

(** C38: a restart after a successful update, no other call having begun, reads
    the text that update wrote line by line and comes to the same records under the
    same ids with the same owners, as long as encoding/json gives back each of these
    records taken by itself; the one record that changes is one without cursors that
    still names a current member. *)
Theorem restart_reads_back `{!JSON Automation, !JSONLaws Automation} w w2 id v mutate s w' s' a :
  store_ok s → Update lookupPRD torn w id v mutate s = (w', s', Ok a) →
  (∀ i b, automations s' !! i = Some b → reads_back b) →
  ∃ l r, as_file s' = Some l ∧ NewAutomationStore w2 (Some (writeJSONL l)) = Ok r
    ∧ automations r = loaded <$> automations s' ∧ owner r = owner s' ∧ as_file r = as_file s'
    ∧ ∀ i b, automations s' !! i = Some b →
        loaded b = b ∨ automationIsLinear b = false ∧ a_ActiveCursors b = [] ∧ a_CurrentMemberID b ≠ "".
Proof.
  intros So Hu Hback. pose proof (update_ok w id v mutate s So) as So'. rewrite Hu in So'. cbn in So'.
  pose proof (update_stored lookupPRD torn w id v mutate s _ _ _ Hu) as (x&y&z&_&_&_&_&_&_&Hf).
  rewrite Hf. exists (range w (automations s')). unfold NewAutomationStore. rewrite load_written.
  2:{ intros b Hb. rewrite (range_perm w) in Hb. apply elem_of_values in Hb as [i Hb]. by eapply Hback. }
  eexists. split; [done|]. split; [done|].
  assert (load_list a_ID (loaded <$> range w (automations s')) = loaded <$> automations s') as Hl.
  { apply load_list_values.
    - intros k b (c&<-&Hc)%lookup_fmap_Some. rewrite loaded_ID. by apply (so_keyed s' So').
    - rewrite (range_perm w). by rewrite map_to_list_fmap, <- !list_fmap_compose. }
  cbn [automations owner as_file rebuildIndexLocked set_owner]. rewrite Hl. split; [done|]. split; [|split; [done|]].
  - apply map_eq. intros p. apply option_eq. intros i. rewrite index_exact.
    + rewrite (so_owner s' So'). split.
      * intros (b&(c&<-&Hc)%lookup_fmap_Some&Ho). exists c. by rewrite <- loaded_owns.
      * intros (b&Hb&Ho). exists (loaded b). rewrite lookup_fmap, Hb, loaded_owns. done.
    + intros k b (c&<-&Hc)%lookup_fmap_Some. rewrite loaded_ID. by apply (so_keyed s' So').
    + intros i1 i2 b1 b2 q (c1&<-&H1)%lookup_fmap_Some (c2&<-&H2)%lookup_fmap_Some. rewrite !loaded_owns.
      by apply (one_owner s' i1 i2 c1 c2 q).
  - intros i b Hb. destruct (loaded_normal b (so_normal s' So' i b Hb)) as [?|(?&?&?&_)]; auto.
Qed.

(** ** Operations side by side *)

(** Where a change under way stands. *)
Definition in_place (c : change) (ph : phase) (id : string) (s : AutomationStore) : Prop :=
  match ph with
  | Checked => replaces c id s
  | Committed _ | Listed _ _ => automations s !! id = match c with Insert a | Replace a _ => Some a | Remove _ => None end
  end.

Lemma in_place_same c ph id s s' : automations s' !! id = automations s !! id → in_place c ph id s → in_place c ph id s'.
Proof. intros He. destruct ph; unfold in_place, replaces; by rewrite He. Qed.

Definition all_in_place (mc : machine) : Prop :=
  ∀ id c ph, mc_under_way mc !! id = Some (c, ph) → in_place c ph id (mc_store mc).

Lemma commit_elsewhere (w : W) id c s i : i ≠ id → automations (commit w id c s) !! i = automations s !! i.
Proof. intros Hi. rewrite commit_automations. destruct c; [by apply lookup_insert_ne..|by apply lookup_delete_ne]. Qed.

Lemma roll_back_elsewhere id c o s i : i ≠ id → automations (roll_back id c o s) !! i = automations s !! i.
Proof. intros Hi. destruct c; cbn; [by apply lookup_delete_ne|by apply lookup_insert_ne..]. Qed.

Lemma write_file_same w l s w' s' e : write_file torn w l s = (w', s', e) → automations s' = automations s.
Proof. unfold write_file. destruct (write w l) as [w1 err]. by intros [= <- <- <-]. Qed.

Lemma step_in_place m m' : store_step lookupPRD torn m m' → all_in_place m → all_in_place m'.
Proof.
  intros Hs Hm. destruct Hs as [w draws i id a a' s t Hnew Ht Hck|w id v f x c s t Ht Hck|id a s t Ht Hck
    |w id c s t Ht|w id c o s t Ht|w w' id c o l s s' t Ht Hw|w w' e id c o l s s' t Ht Hw]; intros j c' ph Hj; cbn in Hj |- *.
  - apply lookup_insert_Some in Hj as [[<- [= <- <-]]|[_ Hj]]; [done|by apply Hm].
  - apply lookup_insert_Some in Hj as [[<- [= <- <-]]|[_ Hj]]; [by apply update_check_Ok in Hck as [? _]|by apply Hm].
  - apply lookup_insert_Some in Hj as [[<- [= <- <-]]|[_ Hj]]; [by apply delete_check_Ok|by apply Hm].
  - apply lookup_insert_Some in Hj as [[<- [= <- <-]]|[Hne Hj]].
    + cbn. rewrite commit_automations. destruct c; [by rewrite lookup_insert_eq..|by rewrite lookup_delete_eq].
    + eapply in_place_same; [by apply commit_elsewhere|by apply Hm].
  - apply lookup_insert_Some in Hj as [[<- [= <- <-]]|[_ Hj]]; [exact (Hm _ _ _ Ht)|by apply Hm].
  - apply lookup_delete_Some in Hj as [_ Hj]. eapply in_place_same; [by rewrite (write_file_same _ _ _ _ _ _ Hw)|by apply Hm].
  - apply lookup_delete_Some in Hj as [Hne Hj]. eapply in_place_same; [|by apply Hm].
    rewrite roll_back_elsewhere by done. by rewrite (write_file_same _ _ _ _ _ _ Hw).
Qed.

(** C26: however calls on different Automations interleave, a change that has been
    checked but not made yet still finds in the store the very record it was
    computed from, so no update of an Automation overwrites one it has not seen,
    and a change that has been made stands until its own write succeeds or fails. *)
Theorem no_update_overwritten s m :
  rtc (store_step lookupPRD torn) (mkMachine s ∅) m →
  ∀ id c ph, mc_under_way m !! id = Some (c, ph) → in_place c ph id (mc_store m).
Proof.
  intros Hr. change (all_in_place m). assert (all_in_place (mkMachine s ∅)) as H0.
  { intros id c ph H. cbn in H. by rewrite lookup_empty in H. }
  revert H0. induction Hr as [|m1 m2 m3 Hs _ IH]; [done|]. intros H1. by eapply IH, step_in_place.
Qed.
End store.

(** ** Nesting *)

(** the rule of nesting is decided exactly: an Automation that has not ended
    passes if each child it nests exists, is nested by no other Automation that
    has not ended, and does not lead back to it through the Automations below. *)
Theorem nesting_check_exact (m : gmap string Automation) (a : Automation) ownerOf :
  keyed a_ID m →
  validateAutomationNesting (S (size m)) a (λ id, m !! id) ownerOf = Ok tt ↔
  terminal_status (a_Status a) = true ∨
  ∀ n, n ∈ a_Members a → is_kind MemberKindAutomation n = true →
    is_Some (m !! m_AutomationID n) ∧ (ownerOf (m_AutomationID n) = "" ∨ ownerOf (m_AutomationID n) = a_ID a)
    ∧ ¬ rtc (nests_in m) (m_AutomationID n) (a_ID a).
Proof.
  intros Hk. unfold validateAutomationNesting. destruct (terminal_status (a_Status a)); [naive_solver|].
  assert (∀ P : Prop, (false = true ∨ P) ↔ P) as -> by naive_solver.
  rewrite for_each_Ok. apply forall_proper. intros n. apply forall_proper. intros _.
  destruct (is_kind MemberKindAutomation n); [|naive_solver].
  destruct (m !! m_AutomationID n) as [c|] eqn:Ec; [|split; [done|intros Hn; by destruct (proj1 (Hn eq_refl))]].
  pose proof (Hk _ _ Ec) as Hc. destruct (nested_path_exact m (a_ID a) Hk c) as [Hp _]; [by rewrite Hc|].
  rewrite Hc in Hp. cbv zeta. rewrite check_Ok, andb_false_iff, nonempty_false, negb_false_iff, String.eqb_eq.
  destruct (nestedPathToSelf _ _ _ _) as [p|].
  - split; [by intros [_ ?]|]. intros Hn. destruct (Hn eq_refl) as (_&_&[]). apply Hp. eauto.
  - assert (¬ rtc (nests_in m) (m_AutomationID n) (a_ID a)) as Hno by (intros Hr; by destruct (proj2 Hp Hr)).
    split; [intros [Ho _] _; split_and!; eauto|]. intros Hn. split; [|done]. apply (Hn eq_refl).
Qed.

(** ** Witnesses

    The world is whether the disk has room. *)

#[local] Existing Instance any_zone.
#[local] Existing Instance in_key_order.
#[local] Instance a_disk : Disk bool Automation :=
  {| wall _ := 7; range _ m := (map_to_list m).*2; write (w : bool) _ := (w, if w then None else Some "disk full") |}.
#[local] Instance a_disk_laws : DiskLaws bool Automation.
Proof. split. done. Qed.

Definition any_prd (id : string) : option PRD := Some (mkPRD id "title" "approved" false "" "" "").
Definition lost : bool → list Automation → option (list Automation) := λ _ _, None.

Definition draft (id prd : string) : Automation :=
  set_a_ID id (automation_of AutomationDraft "m" [] [prd_member "m" prd ""]).
Definition named (n : nat) : string := if (n =? 0)%nat then "a1" else "a2".

Definition run_ops : AutomationStore → list (store_op bool) → AutomationStore := foldl (after_op any_prd lost).

(** Created, renamed, refused by the disk, and deleted again. *)
Definition four_calls : list (store_op bool) :=
  [OpCreate true named (draft "" "p1"); OpUpdate true "a1" 1 (λ a, Ok (set_a_Status AutomationActive a));
   OpUpdate false "a1" 2 (λ a, Ok (set_a_Status AutomationCancelled a)); OpDelete true "a1"].

Lemma store_invariant_witness :
  (∀ o, o ∈ four_calls → op_ok o)
  ∧ (a_Status <$> (automations (run_ops (mkStore ∅ ∅ (Some [])) four_calls) !! "a1")) = Some AutomationActive
  ∧ store_ok (run_ops (mkStore ∅ ∅ (Some [])) four_calls).
Proof.
  assert (∀ o, o ∈ four_calls → op_ok o) as Hops.
  { apply (proj1 (Forall_forall _ _)). unfold four_calls. repeat apply Forall_cons_2; [|done..|by apply Forall_nil_2].
    split; [done|]. intros n. unfold named. by destruct (n =? 0)%nat. }
  split; [exact Hops|]. split; [vm_compute; reflexivity|].
  exact (store_invariant any_prd lost four_calls (Some []) Hops).
Defined.

Definition nesting_member (id child : string) : AutomationMember :=
  mkMember id "" "" "" "" MemberKindAutomation child [] [] "" zero_time "operator" "" MemberPending None None "" "" None None float_zero "".
(** [a2] nests [a3], and [a3] nests [a1]. *)
Definition nested : gmap string Automation :=
  list_to_map ((λ ac, (ac.1, set_a_ID ac.1 (automation_of AutomationDraft "m" [] [nesting_member "m" ac.2]))) <$> [("a2", "a3"); ("a3", "a1")]).
Definition nester : Automation := automation_of AutomationDraft "m" [] [nesting_member "m" "a2"].

Lemma nesting_check_exact_witness :
  keyed a_ID nested ∧ rtc (nests_in nested) "a2" "a1"
  ∧ validateAutomationNesting 3 nester (λ id, nested !! id) (λ _, "") ≠ Ok tt.
Proof.
  assert (keyed a_ID nested) as Hk by (apply map_Forall_lookup; apply (bool_decide_unpack _); vm_compute; exact I).
  assert (rtc (nests_in nested) "a2" "a1") as Hr.
  { apply (rtc_l _ "a2" "a3" "a1"); [|apply rtc_once].
    - exists (default nester (nested !! "a2")), (nesting_member "m" "a3"). split_and!; [vm_compute; reflexivity|left|done|done].
    - exists (default nester (nested !! "a3")), (nesting_member "m" "a1"). split_and!; [vm_compute; reflexivity|left|done|done]. }
  split; [exact Hk|]. split; [exact Hr|]. intros Hok.
  apply (proj1 (nesting_check_exact nested nester (λ _, "") Hk)) in Hok as [Ht|Hn]; [discriminate Ht|].
  destruct (Hn (nesting_member "m" "a2")) as (_&_&Hnot); [left|reflexivity|]. exact (Hnot Hr).
Defined.

(** The one draft, activated. *)
Definition one_draft : AutomationStore := run_ops (mkStore ∅ ∅ (Some [])) [OpCreate true named (draft "" "p1")].
Definition set_active (a : Automation) : res Automation := Ok (set_a_Status AutomationActive a).
Definition activated : Automation :=
  match Update any_prd lost true "a1" 1 set_active one_draft with (_, _, Ok a) => a | _ => draft "" "" end.

(** A stand-in for encoding/json that gives back that record. *)
#[local] Instance a_codec : JSON Automation := {|
  Marshal a := if String.eqb (a_Status a) AutomationActive then "{1}" else "{}";
  Unmarshal s := if String.eqb s "{1}" then Ok activated else Err (Errorf "unexpected end of JSON input" [])
|}.
#[local] Instance a_codec_laws : JSONLaws Automation.
Proof. split. intros a. unfold Marshal, a_codec. by destruct (String.eqb _ _). Qed.

Lemma one_draft_ok : store_ok one_draft.
Proof.
  apply (calls_keep_store any_prd lost [OpCreate true named (draft "" "p1")] (Some [])).
  apply (proj1 (Forall_forall _ _)). apply Forall_singleton. split; [done|]. intros n. unfold named. by destruct (n =? 0)%nat.
Qed.

Lemma restart_reads_back_witness :
  let s' := (Update any_prd lost true "a1" 1 set_active one_draft).1.2 in
  ∃ l r, as_file s' = Some l ∧ writeJSONL l = String.append "{1}" (String nl "")
    ∧ NewAutomationStore true (Some (writeJSONL l)) = Ok r ∧ automations r = loaded <$> automations s' ∧ owner r !! "p1" = Some "a1".
Proof.
  intros s'. assert (Update any_prd lost true "a1" 1 set_active one_draft = (true, s', Ok activated)) as E by (vm_compute; reflexivity).
  assert (∀ i b, automations s' !! i = Some b → reads_back b) as Hb.
  { intros i b Hi. assert (automations s' = {[ "a1" := activated ]}) as Hs by (vm_compute; reflexivity).
    rewrite Hs in Hi. apply lookup_singleton_Some in Hi as [_ <-]. vm_compute. reflexivity. }
  destruct (restart_reads_back any_prd lost true true "a1" 1 set_active one_draft true s' activated one_draft_ok E Hb) as (l&r&Hl&Hn&Ha&Ho&_).
  exists l, r. split; [done|]. split; [|split; [done|split; [done|]]].
  - assert (as_file s' = Some [activated]) as Hs by (vm_compute; reflexivity). rewrite Hs in Hl. injection Hl as <-. vm_compute. reflexivity.
  - rewrite Ho. vm_compute. reflexivity.
Defined.

(** ** Interleavings to run *)

(** A schedule: which change takes its next step; [None]: it cannot. *)
Inductive turn_ :=
| TUpdate (id : string) (v : Z) (mutate : Automation → res Automation)
| TNext (w : bool) (id : string).

Definition take (m : machine) (t : turn_) : option machine :=
  let s := mc_store m in
  let u := mc_under_way m in
  match t with
  | TUpdate id v f =>
      match u !! id, update_check any_prd true id v f s with
      | None, Ok (x, c) => Some (mkMachine s (<[id := (Replace c x, Checked)]> u))
      | _, _ => None
      end
  | TNext w id =>
      match u !! id with
      | Some (c, Checked) => Some (mkMachine (commit w id c s) (<[id := (c, Committed (owner s))]> u))
      | Some (c, Committed o) => Some (mkMachine s (<[id := (c, Listed o (range w (automations s)))]> u))
      | Some (c, Listed o l) =>
          match write_file lost w l s with
          | (_, s', None) => Some (mkMachine s' (delete id u))
          | (_, s', Some _) => Some (mkMachine (roll_back id c o s') (delete id u))
          end
      | None => None
      end
  end.

Lemma take_sound m t m' : take m t = Some m' → store_step any_prd lost m m'.
Proof.
  destruct m as [s u], t as [id v f|w id]; cbn [take mc_store mc_under_way].
  - destruct (u !! id) eqn:Eu; [done|]. destruct (update_check _ _ _ _ _ _) as [[x c]|] eqn:E; [|done].
    intros [= <-]. by eapply begin_update.
  - destruct (u !! id) as [[c [|o|o l]]|] eqn:Eu; [..|done].
    + intros [= <-]. exact (do_commit any_prd lost w id c s u Eu).
    + intros [= <-]. exact (do_list any_prd lost w id c o s u Eu).
    + destruct (write_file lost w l s) as [[w' s'] [e|]] eqn:E; intros [= <-]; [by eapply do_fail|by eapply do_write].
Qed.

Fixpoint takes (m : machine) (l : list turn_) : option machine :=
  match l with [] => Some m | t :: l => m ← take m t; takes m l end.

Lemma takes_sound l m m' : takes m l = Some m' → rtc (store_step any_prd lost) m m'.
Proof.
  revert m. induction l as [|t l IH]; intros m; [by intros [= <-]|]. cbn [takes].
  destruct (take m t) as [m1|] eqn:E; [|done]. intros H. eapply rtc_l; [by eapply take_sound|by apply IH].
Qed.

Definition two_drafts : AutomationStore :=
  run_ops (mkStore ∅ ∅ (Some [])) [OpCreate true named (draft "" "p1"); OpCreate true (λ n, named (S n)) (draft "" "p2")].
Definition idle : machine := mkMachine two_drafts ∅.

Definition run_prd (prd : string) (a : Automation) : res Automation := Ok (set_a_Members [prd_member "m" prd ""] a).
Definition rename_entry (a : Automation) : res Automation := Ok (set_a_Members ((set_m_Stage "late") <$> a_Members a) a).

(** The machine a schedule ends in. *)
Definition reached (l : list turn_) : machine := default idle (takes idle l).

Lemma reached_sound l : bool_decide (is_Some (takes idle l)) = true → rtc (store_step any_prd lost) idle (reached l).
Proof. intros H%bool_decide_eq_true. destruct H as [m Hm]. unfold reached. rewrite Hm. by eapply takes_sound. Qed.

(** What the store holds under an id: status, PRDs, version. *)
Definition seen (m : gmap string Automation) (id : string) : option (string * list string * Z) :=
  (λ a, (a_Status a, m_PRDID <$> a_Members a, a_Version a)) <$> m !! id.

(** A change checked while another is made, and made after it. *)
Definition overlapping : list turn_ :=
  [TUpdate "a1" 1 rename_entry; TUpdate "a2" 1 rename_entry; TNext true "a1"; TNext true "a1"].

Lemma no_update_overwritten_witness :
  let m := reached overlapping in
  ∃ c, mc_under_way m !! "a2" = Some (c, Checked) ∧ in_place c Checked "a2" (mc_store m).
Proof.
  cbv zeta. assert (match mc_under_way (reached overlapping) !! "a2" with Some (_, Checked) => true | _ => false end = true) as H
    by (vm_compute; reflexivity).
  destruct (mc_under_way (reached overlapping) !! "a2") as [[c [| |]]|] eqn:E; [|discriminate H..].
  exists c. split; [reflexivity|].
  exact (no_update_overwritten any_prd lost two_drafts (reached overlapping)
    (reached_sound overlapping ltac:(vm_compute; reflexivity)) "a2" c Checked E).
Defined.

(** ** What does not hold side by side *)

(** The owner of a PRD is looked up before the change is made: two Automations
    that take the same PRD at once both pass the check. *)
Example two_owners_race :
  let m := reached [TUpdate "a1" 1 (run_prd "p3"); TUpdate "a2" 1 (run_prd "p3"); TNext true "a1"; TNext true "a2"] in
  rtc (store_step any_prd lost) idle m
  ∧ seen (automations (mc_store m)) "a1" = Some (AutomationDraft, ["p3"], 2)
  ∧ seen (automations (mc_store m)) "a2" = Some (AutomationDraft, ["p3"], 2).
Proof. split; [apply reached_sound|split]; vm_compute; reflexivity. Qed.

(** The records to write are listed before the writer waits its turn: the write
    that comes last may be of a list that is older than the file, and the update
    it leaves out is lost at the next restart. *)
Example stale_write_loses_update :
  let m := reached [TUpdate "a1" 1 rename_entry; TUpdate "a2" 1 rename_entry; TNext true "a1"; TNext true "a1";
    TNext true "a2"; TNext true "a2"; TNext true "a2"; TNext true "a1"] in
  rtc (store_step any_prd lost) idle m ∧ size (mc_under_way m) = 0%nat
  ∧ seen (automations (mc_store m)) "a2" = Some (AutomationDraft, ["p2"], 2)
  ∧ (l ← as_file (mc_store m); seen (load_list a_ID l) "a2") = Some (AutomationDraft, ["p2"], 1).
Proof. split; [apply reached_sound|split; [|split]]; vm_compute; reflexivity. Qed.

(** A failed write puts the whole index of before back: what another Automation
    came to own in the meantime is forgotten, and any Automation may take it. *)
Example rollback_forgets_owner :
  let m := reached [TUpdate "a1" 1 rename_entry; TUpdate "a2" 1 (run_prd "p3"); TNext true "a1"; TNext true "a1";
    TNext true "a2"; TNext true "a2"; TNext true "a2"; TNext false "a1"] in
  rtc (store_step any_prd lost) idle m ∧ size (mc_under_way m) = 0%nat
  ∧ seen (automations (mc_store m)) "a2" = Some (AutomationDraft, ["p3"], 2) ∧ OwnerOf (mc_store m) "p3" = "".
Proof. split; [apply reached_sound|split; [|split]]; vm_compute; reflexivity. Qed.
