(* ===== verification/AutomationControl.v ===== *)
(** * Automations: what the control operations do to a record

    internal/autonomous/automation_control.go, automation_draft_return.go,
    automation_insert.go, automation_merged_member_reopen.go and the restarts and
    failures of automation_coordinator.go and automation_reconcile.go: for each
    operation the check it makes of the record and the change it asks the store
    for. A change is a function from the record to the record or an error: what
    the code passes to [AutomationStore.Update]. [now] is the clock. *)

From S2P Require Import Prelude GoBase GoText AutomationSettings Automation.
From S2P Require Import AutomationStep.

#[local] Open Scope Z_scope.

(** ** Names *)

Definition controlPause : string := "automation_pause".
Definition controlResume : string := "automation_resume".
Definition controlCancel : string := "automation_cancel".
Definition controlSkipMember : string := "automation_skip_member".
Definition controlRemoveMember : string := "automation_remove_member".
Definition controlReorderEdges : string := "automation_reorder_edges".
Definition controlInsertMember : string := "automation_insert_member".
Definition controlApproveInsert : string := "automation_approve_insert".
Definition returnToDraftKind : string := "return_to_draft".
Definition controlReturnToDraft : string := "automation_return_to_draft".
Definition decisionReopened : string := "reopened".
Definition operatorActor : string := "operator".
Definition budgetActor : string := "budget".
Definition PolicyAllow : string := "allow".
Definition PolicyRequireOperator : string := "require_operator".

(** The actor of a call, [operator] when none is given. *)
Definition actor_or (actor : string) : string := if String.eqb actor "" then operatorActor else actor.

Definition controlDecision (now : Time) (kind actor note : string) (a : Automation) : Automation :=
  add_decision (mkDecision now kind actor note None) a.

Definition statusNames (allowed : list string) : string := Join allowed " or ".

Definition checkControlStatus (a : Automation) (allowed : list string) : res unit :=
  if one_of (a_Status a) allowed then Ok tt
  else if String.eqb (a_Status a) AutomationDraft then
    Err (Errorf "409: automation %s is a draft; activate it first" [AStr (a_ID a)])
  else Err (Errorf "409: automation %s is %s; this operation needs an automation that is %s"
              [AStr (a_ID a); AStr (a_Status a); AStr (statusNames allowed)]).

(** ** Pause, resume, return to draft *)

Definition pause_change (now : Time) (actor : string) (a : Automation) : res Automation :=
  checkControlStatus a [AutomationActive] ;;
  Ok (controlDecision now controlPause actor ("paused by " +:+ actor +:+ "; in-flight members keep running")
        (set_a_Status AutomationPaused a)).

Definition resumableStatuses (a : Automation) : list string :=
  if budgetEpisodeOpen a && String.eqb (a_Status a) AutomationBlocked then [AutomationPaused; AutomationBlocked]
  else [AutomationPaused].

(** The episode the resume ends. *)
Definition open_episode (a : Automation) : option BudgetState := if budgetEpisodeOpen a then a_BudgetState a else None.

Definition resume_change (now : Time) (actor : string) (a : Automation) : res Automation :=
  checkControlStatus a (resumableStatuses a) ;;
  let b := set_a_BudgetState None (set_a_Status AutomationActive a) in
  Ok (controlDecision now controlResume actor ("resumed by " +:+ actor)
        (match open_episode a with Some _ => set_a_IdleSince None b | None => b end)).

Definition checkReturnable (a : Automation) : res unit :=
  for_each (λ m, fail_if (bool_decide (is_Some (m_StartedAt m)))
    (Errorf "409: automation %s has a member that already started; only a blocked automation that never started a member can be returned to draft"
       [AStr (a_ID a)])) (a_Members a) ;;
  fail_if (nonempty (a_CurrentMemberID a))
    (Errorf "409: automation %s has a cursor on member %s, so it was started; only a blocked automation that never started a member can be returned to draft"
       [AStr (a_ID a); AStr (a_CurrentMemberID a)]) ;;
  fail_if (bool_decide (a_ActiveCursors a ≠ []))
    (Errorf "409: automation %s has active cursors %v, so it was started; only a blocked automation that never started a member can be returned to draft"
       [AStr (a_ID a); AList (a_ActiveCursors a)]).

Definition return_change (now : Time) (actor : string) (a : Automation) : res Automation :=
  fail_if (negb (String.eqb (a_Status a) AutomationBlocked))
    (Errorf "409: automation %s is %s; only a blocked automation can be returned to draft" [AStr (a_ID a); AStr (a_Status a)]) ;;
  checkReturnable a ;;
  let a := set_a_IdleSince None (set_a_Status AutomationDraft a) in
  let a := set_a_StartedAt None (set_a_CurrentMemberID "" (set_a_ActiveCursors [] a)) in
  let a := set_a_BudgetState None a in
  let a := set_a_Members ((λ m, set_m_FinishedAt None (set_m_StartedAt None (set_m_Status MemberPending m))) <$> a_Members a) a in
  Ok (controlDecision now returnToDraftKind actor ("returned to draft by " +:+ actor +:+ "; no member had started") a).

(** ** Cancel *)

Record cancelRequest := mkCancel { CancelRequested : bool; CancelInFlight : bool }.

Definition cancel_validate (r : cancelRequest) : res unit :=
  fail_if (negb (CancelRequested r))
    (Errorf "cancel needs an explicit in-flight choice and there is no default: the operator must pick cancel_in_flight=true (end the session of every in-flight member) or cancel_in_flight=false (leave in-flight members running)" []).

(** What is collected while the members are marked: the PRDs and children to end,
    and the ids of the members in flight. *)
Record cancelled := mkCancelled { cn_PRDs : list string; cn_children : list string; cn_inFlight : list string }.

Definition cancel_mark (now : Time) (outcome : string) (m : AutomationMember) : AutomationMember :=
  set_m_EdgeTaken "" (set_m_FinishedAt (Some now) (set_m_Outcome outcome (set_m_Status MemberCancelled m))).

(** The loop over the members. [is]: the indices still to visit. *)
Fixpoint cancel_members (now : Time) (inFlight : bool) (is_ : list nat) (c : cancelled) (a : Automation) : cancelled * Automation :=
  match is_ with
  | [] => (c, a)
  | i :: is_ =>
      let m := mem_at a i in
      if String.eqb (m_Status m) MemberRunning then
        let c := mkCancelled (cn_PRDs c) (cn_children c) (cn_inFlight c ++ [m_ID m]) in
        if negb inFlight then cancel_members now inFlight is_ c a
        else
          let c := if is_kind MemberKindPRD m then mkCancelled (cn_PRDs c ++ [m_PRDID m]) (cn_children c) (cn_inFlight c)
                   else if is_kind MemberKindAutomation m then mkCancelled (cn_PRDs c) (cn_children c ++ [m_AutomationID m]) (cn_inFlight c)
                   else c in
          cancel_members now inFlight is_ c (dropCursor (m_ID m) (upd i (cancel_mark now "cancelled") a))
      else if memberUnstarted m then cancel_members now inFlight is_ c (upd i (cancel_mark now "automation-cancelled") a)
      else cancel_members now inFlight is_ c a
  end.

Definition bool_str (b : bool) : string := if b then "true" else "false".

(** The change, with what it collected. *)
Definition cancel_change (now : Time) (actor : string) (inFlight : bool) (a : Automation) : res (cancelled * Automation) :=
  checkControlStatus a [AutomationActive; AutomationPaused; AutomationBlocked] ;;
  let '(c, a) := cancel_members now inFlight (seq 0 (length (a_Members a))) (mkCancelled [] [] []) a in
  let a := if inFlight then (if automationIsLinear a then set_a_CurrentMemberID "" a else set_a_ActiveCursors [] a) else a in
  let a := set_a_IdleSince None (set_a_FinishedAt (Some now) (set_a_Status AutomationCancelled a)) in
  Ok (c, controlDecision now controlCancel actor
           ("cancelled by " +:+ actor +:+ " with cancel_in_flight=" +:+ bool_str inFlight +:+ "; "
            +:+ nat_str (length (cn_inFlight c)) +:+ " member(s) were in flight") a).

Definition inFlightMembers (a : Automation) : list AutomationMember :=
  filter (λ m, String.eqb (m_Status m) MemberRunning = true) (a_Members a).

(** ** Skip *)

Definition resolveBranch (a : Automation) (memberID : string) : res string :=
  let cs := liveCursorIDs a in
  match cs with
  | [] => Err (Errorf "409: automation %s has no active member to act on" [AStr (a_ID a)])
  | c :: rest =>
      if String.eqb memberID "" then
        match rest with
        | [] => Ok c
        | _ => Err (Errorf "automation %s has %d active branches; name the branch member to act on, one of [%s]"
                      [AStr (a_ID a); AInt (Z.of_nat (length cs)); AStr (Join cs " ")])
        end
      else if one_of memberID cs then Ok memberID
      else Err (Errorf "member %s is not an active branch of automation %s; active branches are [%s]"
                  [AStr memberID; AStr (a_ID a); AStr (Join cs " ")])
  end.

Definition skip_input (target edge : string) : stepInput :=
  mkInput target (mkEnd edge MemberSkipped "skipped" (String.eqb edge edgeOnComplete) "" false "" None) false false zero_time false false "".

Definition skip_gone (target id : string) : error :=
  Errorf "409: member %s is no longer an active branch of automation %s" [AStr target; AStr id].

(** The step, then the record of the edge that was chosen. *)
Definition skip_change (wall : Time) (snap : gmap string memberInfo) (id target edge actor : string) (cur : Automation)
    : option (res (stepEffects * Automation)) :=
  match checkControlStatus cur [AutomationActive; AutomationPaused] with
  | Err e => Some (Err e)
  | Ok _ =>
      r ← step wall cur (skip_input target edge) snap;
      Some (match r with
            | Err _ => Err (skip_gone target id)
            | Ok (cur, eff) =>
                let cur := match automationMember cur target with Some i => upd i (set_m_EdgeTaken edge) cur | None => cur end in
                Ok (eff, controlDecision wall controlSkipMember actor ("skipped member " +:+ target +:+ " via " +:+ edge) cur)
            end)
  end.

(** ** Remove and rewire *)

Definition not_member (memberID aID : string) : error := Errorf "404: member %s not found in automation %s" [AStr memberID; AStr aID].

Definition checkRemovable (a : Automation) (memberID : string) : res unit :=
  match automationMember a memberID with
  | None => Err (not_member memberID (a_ID a))
  | Some i =>
      let m := mem_at a i in
      fail_if (nonempty (m_OnComplete m) || nonempty (m_OnBlocked m) || nonempty (m_OnFailed m))
        (Errorf "409: member %s has outgoing edges (on_complete=%q on_blocked=%q on_failed=%q); only a member with no outgoing edges can be removed"
           [AStr memberID; AStr (m_OnComplete m); AStr (m_OnBlocked m); AStr (m_OnFailed m)]) ;;
      fail_if (String.eqb memberID (a_EntryMemberID a))
        (Errorf "409: member %s is the entry member of automation %s and cannot be removed" [AStr memberID; AStr (a_ID a)]) ;;
      fail_if (isLiveCursor a memberID || String.eqb (m_Status m) MemberRunning)
        (Errorf "409: member %s is in flight and cannot be removed" [AStr memberID]) ;;
      fail_if (negb (memberUnstarted m))
        (Errorf "409: member %s is %s; only a member that has not started can be removed" [AStr memberID; AStr (m_Status m)]) ;;
      fail_if (one_of (kind m) [MemberKindFork; MemberKindJoin])
        (Errorf "409: member %s is a %s and cannot be removed on its own" [AStr memberID; AStr (kind m)]) ;;
      for_each (λ o, fail_if (one_of memberID (m_ForkMembers o ++ m_JoinMembers o))
        (Errorf "409: member %s is a branch of %s %s and cannot be removed" [AStr memberID; AStr (kind o); AStr (m_ID o)])) (a_Members a)
  end.

(** Edges that named the removed member are cleared. *)
Definition without_edges_to (id : string) (m : AutomationMember) : AutomationMember :=
  let m := if String.eqb (m_OnComplete m) id then set_m_OnComplete "" m else m in
  let m := if String.eqb (m_OnBlocked m) id then set_m_OnBlocked "" m else m in
  if String.eqb (m_OnFailed m) id then set_m_OnFailed "" m else m.

Definition remove_change (now : Time) (memberID actor : string) (cur : Automation) : res Automation :=
  checkControlStatus cur [AutomationActive; AutomationPaused] ;;
  checkRemovable cur memberID ;;
  let kept := without_edges_to memberID <$> filter (λ m, negb (String.eqb (m_ID m) memberID) = true) (a_Members cur) in
  Ok (controlDecision now controlRemoveMember actor ("removed member " +:+ memberID) (set_a_Members kept cur)).

(** One edge of the three: its name, where it leads and where it is to lead. *)
Definition check_target (a : Automation) (e : string * string * string) : res unit :=
  let '(name, old, target) := e in
  if String.eqb target "" || String.eqb target old then Ok tt
  else match automationMember a target with
       | None => Err (Errorf "%s edge names unknown member %s" [AStr name; AStr target])
       | Some i => let next := mem_at a i in
           fail_if (negb (memberUnstarted next))
             (Errorf "409: %s edge names member %s, which is already %s" [AStr name; AStr target; AStr (m_Status next)])
       end.

Definition checkReorderable (a : Automation) (memberID onCompleted onBlocked onFailed : string) : res unit :=
  match automationMember a memberID with
  | None => Err (not_member memberID (a_ID a))
  | Some i =>
      let m := mem_at a i in
      fail_if (isLiveCursor a memberID || String.eqb (m_Status m) MemberRunning)
        (Errorf "409: member %s is in flight; the edges of a member that has started cannot be rewired" [AStr memberID]) ;;
      fail_if (negb (memberUnstarted m))
        (Errorf "409: member %s is %s; only a member that has not started can be rewired" [AStr memberID; AStr (m_Status m)]) ;;
      for_each (check_target a) [(edgeOnComplete, m_OnComplete m, onCompleted); (edgeOnBlocked, m_OnBlocked m, onBlocked);
        (edgeOnFailed, m_OnFailed m, onFailed)]
  end.

Definition reorder_change (now : Time) (memberID onCompleted onBlocked onFailed actor : string) (cur : Automation) : res Automation :=
  checkControlStatus cur [AutomationActive; AutomationPaused] ;;
  checkReorderable cur memberID onCompleted onBlocked onFailed ;;
  let cur := match automationMember cur memberID with
             | Some i => upd i (λ m, set_m_OnFailed onFailed (set_m_OnBlocked onBlocked (set_m_OnComplete onCompleted m))) cur
             | None => cur end in
  Ok (controlDecision now controlReorderEdges actor
        ("rewired member " +:+ memberID +:+ ": on_complete=" +:+ Quote onCompleted +:+ " on_blocked=" +:+ Quote onBlocked
         +:+ " on_failed=" +:+ Quote onFailed) cur).

(** ** Insert *)

Record InsertMemberInput := mkInsert {
  in_PRDID : string;
  in_Name : string;
  in_AfterMemberID : string;
  in_Stage : string;
  in_Urgent : bool;
  in_Actor : string;
  in_Reason : string;
  in_ExpectedVersion : Z
}.

Definition isAgentActor (actor : string) : bool :=
  HasPrefix actor "session:" || HasPrefix actor "agent:" || HasPrefix actor "assistant:".

Definition findPending (a : Automation) (id : string) : option PendingInsert :=
  find (λ p, String.eqb (pi_ID p) id) (a_PendingInserts a).

Definition pendingUrgent (a : Automation) (exceptID : string) : option PendingInsert :=
  find (λ p, pi_Urgent p && negb (String.eqb (pi_ID p) exceptID)) (a_PendingInserts a).

Definition urgentCapError (a : Automation) (p : PendingInsert) : error :=
  Errorf "409: automation %s already has a pending urgent insert %s (prd %s); only one urgent insert may be pending at a time"
    [AStr (a_ID a); AStr (pi_ID p); AStr (pi_PRDID p)].

Definition checkPendingDuplicate (a : Automation) (prdID : string) : res unit :=
  fail_if (existsb (λ m, String.eqb (m_PRDID m) prdID) (a_Members a))
    (Errorf "409: prd %s is already a member of automation %s" [AStr prdID; AStr (a_ID a)]) ;;
  match find (λ p, String.eqb (pi_PRDID p) prdID) (a_PendingInserts a) with
  | Some p => Err (Errorf "409: prd %s already has pending insert %s in automation %s" [AStr prdID; AStr (pi_ID p); AStr (a_ID a)])
  | None => Ok tt
  end.

(** The last join over the fork's branches. *)
Definition last_paired (a : Automation) (f : AutomationMember) : string :=
  foldl (λ join j, if is_kind MemberKindJoin j && sameMemberSet (m_JoinMembers j) (m_ForkMembers f) then m_ID j else join) "" (a_Members a).

(** [chainTail]; fuel: one more than the number of members, since a member met
    twice ends the walk. [None]: fuel spent. *)
Fixpoint chain_tail (fuel : nat) (a : Automation) (seen : gset string) (cur : string) : option (res string) :=
  match fuel with
  | O => None
  | S f =>
      if bool_decide (cur ∈ seen) then Some (Err (Errorf "409: automation %s chain loops at member %s" [AStr (a_ID a); AStr cur]))
      else match automationMember a cur with
           | None => Some (Err (not_member cur (a_ID a)))
           | Some i =>
               let m := mem_at a i in
               let seen := {[cur]} ∪ seen in
               if is_kind MemberKindFork m then
                 let join := last_paired a m in
                 if String.eqb join "" then Some (Err (Errorf "409: fork %s has no paired join" [AStr (m_ID m)]))
                 else chain_tail f a seen join
               else if String.eqb (m_OnComplete m) "" then Some (Ok cur)
               else chain_tail f a seen (m_OnComplete m)
           end
  end.
Definition chainTail (a : Automation) : option (res string) := chain_tail (S (S (length (a_Members a)))) a ∅ (a_EntryMemberID a).

(** [append] *)
Definition add_member (m : AutomationMember) (a : Automation) : Automation := set_a_Members (a_Members a ++ [m]) a.

(** The member goes behind [afterID]. *)
Definition splice_after (a : Automation) (mem : AutomationMember) (urgent : bool) (afterID : string) : res Automation :=
  match automationMember a afterID with
  | None => Err (not_member afterID (a_ID a))
  | Some i =>
      let prev := mem_at a i in
      fail_if (is_kind MemberKindFork prev)
        (Errorf "409: member %s is a fork and carries no on_complete edge; insert after its join" [AStr (m_ID prev)]) ;;
      fail_if (negb urgent && negb (String.eqb (a_Status a) AutomationDraft)
               && negb (one_of (m_Status prev) [MemberPending; MemberRunning; ""]))
        (Errorf "409: member %s is already %s; an insert cannot follow a member that has finished" [AStr (m_ID prev); AStr (m_Status prev)]) ;;
      Ok (add_member (set_m_OnComplete (m_OnComplete prev) mem) (upd i (set_m_OnComplete (m_ID mem)) a))
  end.

Definition spliceMember (a : Automation) (mem : AutomationMember) (urgent : bool) (afterID : string) : option (res Automation) :=
  match a_Members a with
  | [] => Some (Ok (set_a_EntryMemberID (m_ID mem) (set_a_Members [mem] a)))
  | _ =>
      if urgent && String.eqb (a_Status a) AutomationDraft then
        Some (Ok (set_a_EntryMemberID (m_ID mem) (add_member (set_m_OnComplete (a_EntryMemberID a) mem) a)))
      else if urgent then
        Some (match liveCursorIDs a with
              | [c] => splice_after a mem urgent c
              | cs => Err (Errorf "409: an urgent insert needs exactly one active member to follow; automation %s has %d [%s]"
                             [AStr (a_ID a); AInt (Z.of_nat (length cs)); AStr (Join cs " ")])
              end)
      else if String.eqb afterID "" then
        (λ t, tail ← t; splice_after a mem urgent tail) <$> chainTail a
      else Some (splice_after a mem urgent afterID)
  end.

Definition insertNote (what memberID : string) (i : InsertMemberInput) : string :=
  let kind := if in_Urgent i then "urgent" else "normal" in
  let note := what +:+ " " +:+ kind +:+ " insert of prd " +:+ in_PRDID i +:+ " as member " +:+ memberID +:+ " by " +:+ in_Actor i in
  let note := if nonempty (in_Name i) then note +:+ " (" +:+ in_Name i +:+ ")" else note in
  let stage := TrimSpace (in_Stage i) in
  let note := if nonempty stage then note +:+ " [stage " +:+ stage +:+ "]" else note in
  if nonempty (in_Reason i) then note +:+ ": " +:+ in_Reason i else note.

Definition insert_statuses : list string := [AutomationDraft; AutomationActive; AutomationPaused; AutomationBlocked].

(** The member an insert adds. *)
Definition inserted (now : Time) (id prdID stage actor reason : string) : AutomationMember :=
  mkMember id prdID "" "" "" "" "" [] [] "" now actor reason MemberPending None None "" "" None None float_zero (TrimSpace stage).

Definition needs_reason (st : string) : error := Errorf "an insert into a %s automation needs a reason" [AStr st].

(** [hold] was decided on the record read before. *)
Definition insert_change (now : Time) (memberID : string) (hold : bool) (i : InsertMemberInput) (cur : Automation)
    : option (res Automation) :=
  match (checkControlStatus cur insert_statuses ;;
         fail_if (negb (String.eqb (a_Status cur) AutomationDraft) && String.eqb (TrimSpace (in_Reason i)) "") (needs_reason (a_Status cur)) ;;
         (if in_Urgent i then match pendingUrgent cur "" with Some p => Err (urgentCapError cur p) | None => Ok tt end else Ok tt) ;;
         checkPendingDuplicate cur (in_PRDID i)) with
  | Err e => Some (Err e)
  | Ok _ =>
      if hold then
        let p := mkPending memberID (in_PRDID i) (in_Name i) (in_Urgent i) (in_AfterMemberID i) (TrimSpace (in_Stage i)) (in_Actor i)
                   (in_Reason i) now MemberPending in
        Some (Ok (controlDecision now controlInsertMember (in_Actor i) (insertNote "held pending operator approval" memberID i)
                    (set_a_PendingInserts (a_PendingInserts cur ++ [p]) cur)))
      else
        (λ r, cur ← r; Ok (controlDecision now controlInsertMember (in_Actor i) (insertNote "inserted" memberID i) cur))
          <$> spliceMember cur (inserted now memberID (in_PRDID i) (in_Stage i) (in_Actor i) (in_Reason i)) (in_Urgent i) (in_AfterMemberID i)
  end.

Definition no_pending (id pendingID : string) : error := Errorf "404: automation %s has no pending insert %s" [AStr id; AStr pendingID].

Definition approve_change (now : Time) (id pendingID actor : string) (cur : Automation) : option (res Automation) :=
  match checkControlStatus cur insert_statuses with
  | Err e => Some (Err e)
  | Ok _ =>
      match findPending cur pendingID with
      | None => Some (Err (no_pending id pendingID))
      | Some p =>
          match (if pi_Urgent p then pendingUrgent cur (pi_ID p) else None) with
          | Some other => Some (Err (urgentCapError cur other))
          | None =>
              let mem := inserted now (pi_ID p) (pi_PRDID p) (pi_Stage p) (pi_Actor p) (pi_Reason p) in
              (λ r, cur ← r;
                 let kept := filter (λ q, negb (String.eqb (pi_ID q) (pi_ID p)) = true) (a_PendingInserts cur) in
                 Ok (controlDecision now controlApproveInsert actor
                       ("approved insert of prd " +:+ pi_PRDID p +:+ " as member " +:+ pi_ID p +:+ " requested by " +:+ pi_Actor p)
                       (set_a_PendingInserts kept cur)))
                <$> spliceMember cur mem (pi_Urgent p) (pi_AfterMemberID p)
          end
      end
  end.

(** ** Stages *)

(** The loop of the rename: the members, and how many were renamed. *)
Fixpoint rename_loop (aID from to_ : string) (ms : list AutomationMember) (n : Z) : res (list AutomationMember * Z) :=
  match ms with
  | [] => Ok ([], n)
  | m :: ms =>
      if String.eqb (m_Stage m) from then
        '(rest, n) ← rename_loop aID from to_ ms (n + 1); Ok (set_m_Stage to_ m :: rest, n)
      else if String.eqb (m_Stage m) to_ then
        Err (Errorf "409: automation %s already has stage %q on member %s" [AStr aID; AStr to_; AStr (m_ID m)])
      else '(rest, n) ← rename_loop aID from to_ ms n; Ok (m :: rest, n)
  end.

Definition rename_change (now : Time) (from to_ : string) (cur : Automation) : res (Z * Automation) :=
  checkControlStatus cur insert_statuses ;;
  '(ms, n) ← rename_loop (a_ID cur) from to_ (a_Members cur) 0;
  fail_if (n =? 0) (Errorf "404: no member of automation %s carries stage %q" [AStr (a_ID cur); AStr from]) ;;
  Ok (n, controlDecision now "automation_rename_stage" operatorActor
           ("renamed stage " +:+ Quote from +:+ " to " +:+ Quote to_ +:+ " on " +:+ fmt_d n +:+ " member(s)") (set_a_Members ms cur)).

(** ** Starts that fail, are retried, or come back *)

(** The activation of a draft: the record and what is to be done after it is stored. *)
Definition activate_change (now : Time) (snap : gmap string memberInfo) (actor : string) (cur : Automation)
    : option (Automation * stepEffects) :=
  let cur := add_decision (mkDecision now "activate" actor ("activated by " +:+ actor) None)
               (set_a_StartedAt (Some now) (set_a_Status AutomationActive cur)) in
  i ← automationMember cur (a_EntryMemberID cur);
  st ← enter snap now "" (enter_fuel cur) i (mkStepper cur (no_effects {["automation_id" := AStr (a_ID cur)]}) "" false);
  let st := finalize now st in Some (st_a st, st_eff st).

(** [startFailed] *)
Definition start_failed_change (now : Time) (memberID reason : string) (a : Automation) : Automation :=
  let a := set_a_IdleSince (Some now) (set_a_Status AutomationBlocked a) in
  let a := match automationMember a memberID with
           | Some i => upd i (λ m, set_m_StartedAt None (set_m_Status MemberPending m)) a
           | None => a end in
  add_decision (mkDecision now "blocked" coordinatorActor reason None) (dropCursor memberID a).

(** [retryPendingStart]: [reason] is why the member cannot start, [verdict] what
    the budget says. The budget's answer comes with the change. *)
Definition retry_change (now : Time) (memID name reason : string) (verdict : BudgetVerdict) (a : Automation)
    : res (option budgetEffect * Automation) :=
  match automationMember a memID with
  | None => Err (Errorf "409: member already handled" [])
  | Some i =>
      fail_if (negb (String.eqb (a_Status a) AutomationActive) || negb (isLiveCursor a memID) || negb (memberUnstarted (mem_at a i)))
        (Errorf "409: member already handled" []) ;;
      if String.eqb reason "" && bv_Gate verdict then
        let '(a, eff) := applyBudgetGate a (Some i) verdict now false in
        Ok (Some eff, if String.eqb (be_action eff) BudgetActionBlocked
                      then add_decision (mkDecision now "blocked" coordinatorActor (be_reason eff) None) a else a)
      else if nonempty reason then
        Ok (None, add_decision (mkDecision now "blocked" coordinatorActor reason None)
                    (set_a_IdleSince (Some now) (set_a_Status AutomationBlocked a)))
      else
        let a := upd i (λ m, set_m_StartedAt (Some now) (set_m_Status MemberRunning m)) a in
        Ok (None, add_decision (mkDecision now "advance" coordinatorActor ("restart: retried start of " +:+ name) None)
                    (set_a_BudgetState None (set_a_IdleSince None a)))
  end.

(** [blockStillOver] *)
Definition still_over_change (now : Time) (v : BudgetVerdict) (a : Automation) : res (budgetEffect * Automation) :=
  fail_if (negb (String.eqb (a_Status a) AutomationPaused)
           || negb (match a_BudgetState a with Some b => String.eqb (bs_Action b) BudgetActionPaused | None => false end)) errStaleStep ;;
  let waiting := list_find (λ i, memberUnstarted (mem_at a i) = true) (omap (automationMember a) (liveCursorIDs a)) in
  let '(a, eff) := applyBudgetGate a (snd <$> waiting) v now true in
  Ok (eff, add_decision (mkDecision now "blocked" coordinatorActor (be_reason eff) None) a).

Definition reopenable (a : Automation) (mem : option nat) : bool :=
  match mem with
  | None => false
  | Some i =>
      let m := mem_at a i in
      String.eqb (a_Status a) AutomationBlocked && String.eqb (m_Status m) MemberBlocked
      && one_of (m_Outcome m) [PRDCancelled; PRDArchived; PRDRejected]
      && (negb (automationIsLinear a) || String.eqb (a_CurrentMemberID a) (m_ID m))
  end.

(** [onMemberReopened]: the change, with the member it brought back. *)
Definition reopen_change (now : Time) (prdID name : string) (cur : Automation) : res (string * Automation) :=
  match memberByPRD cur prdID with
  | None => Err errStaleStep
  | Some i =>
      fail_if (negb (reopenable cur (Some i))) errStaleStep ;;
      let id := m_ID (mem_at cur i) in
      let cur := upd i (λ m, set_m_EdgeTaken "" (set_m_Outcome "" (set_m_FinishedAt None (set_m_Status MemberRunning m)))) cur in
      let cur := if isLiveCursor cur id then cur else addCursor id cur in
      let cur := if automationIsLinear cur then cur else set_a_CurrentMemberID (firstCursor (a_ActiveCursors cur)) cur in
      Ok (id, add_decision (mkDecision now decisionReopened coordinatorActor
                ("Automaton reopened: member " +:+ name +:+ " was run again after it was cancelled; the chain resumed") None)
              (set_a_IdleSince None (set_a_Status AutomationActive cur)))
  end.
