(* ===== verification/AutomationManager.v ===== *)
(** * Automations: the calls of the Manager

    internal/autonomous/automation_manager.go, automation_control.go,
    automation_insert.go and automation_draft_return.go: the calls an operator or
    an agent makes, each a check of the record read, an [Update] of the store with
    the change of AutomationControl, and what follows a successful write (the
    PRDs' back references, the audit record). The calls that drive the coordinator
    (activate, resume, skip, cancel) are in AutomationCoordinator.

    The engine tags [syncAutomationMembership] ends with, and the fields of an
    Automation that only its sessions read (directory, back ends, models), are left
    out. A saved PRD is changed in memory before it is written, so it stays changed
    when the write fails. *)

From S2P Require Import Prelude GoBase GoText RecordStore AutomationSettings.
From S2P Require Import Automation AutomationValidate AutomationStep AutomationStore.
From S2P Require Import AutomationControl.

#[local] Open Scope Z_scope.

(** What the daemon asks of the world: the store's disk, the write of a PRD, the
    ids drawn, the configured policy, the budget's verdict on a start. *)
Class Daemon (W : Type) := {
  daemon_disk :: Disk W Automation;
  savePRD : W → PRD → W * option string;
  draws : W → nat → string;
  agentInsertPolicy : W → string;
  budgetVerdictFor : W → Automation → option nat → BudgetVerdict
}.

(** What the daemon sends out: the starts and ends it asks for, and what it tells. *)
Inductive output :=
| OAudit (a : coordAudit)
| OAlert (level title body : string)
| OEvent (automationID status : string)
| OMemberDecision (prdID note : string)
| OTouch (prdID : string)
| OStart (prdID : string) (resume : bool)
| OActivate (childID : string)
| OCancel (prdID : string).

(** [Manager] and its [Coordinator], as far as Automations go: whether one runs,
    the starts in flight, the failures put off until boot recovery is over, the
    idle episodes already alerted. *)
Record Manager := mkManager {
  mg_store : AutomationStore;
  mg_prds : gmap string PRD;
  mg_out : list output;
  mg_coordinator : bool;
  mg_starting : gmap string Z;
  mg_deferred : gset string;
  mg_ready : bool;
  mg_alerted : gmap string Time
}.

Definition set_store (x : AutomationStore) (m : Manager) : Manager :=
  mkManager x (mg_prds m) (mg_out m) (mg_coordinator m) (mg_starting m) (mg_deferred m) (mg_ready m) (mg_alerted m).
Definition set_prds (x : gmap string PRD) (m : Manager) : Manager :=
  mkManager (mg_store m) x (mg_out m) (mg_coordinator m) (mg_starting m) (mg_deferred m) (mg_ready m) (mg_alerted m).
Definition set_starting (x : gmap string Z) (m : Manager) : Manager :=
  mkManager (mg_store m) (mg_prds m) (mg_out m) (mg_coordinator m) x (mg_deferred m) (mg_ready m) (mg_alerted m).
Definition set_deferred (x : gset string) (m : Manager) : Manager :=
  mkManager (mg_store m) (mg_prds m) (mg_out m) (mg_coordinator m) (mg_starting m) x (mg_ready m) (mg_alerted m).
Definition set_ready (x : bool) (m : Manager) : Manager :=
  mkManager (mg_store m) (mg_prds m) (mg_out m) (mg_coordinator m) (mg_starting m) (mg_deferred m) x (mg_alerted m).
Definition set_alerted (x : gmap string Time) (m : Manager) : Manager :=
  mkManager (mg_store m) (mg_prds m) (mg_out m) (mg_coordinator m) (mg_starting m) (mg_deferred m) (mg_ready m) x.
Definition say (o : output) (m : Manager) : Manager :=
  mkManager (mg_store m) (mg_prds m) (mg_out m ++ [o]) (mg_coordinator m) (mg_starting m) (mg_deferred m) (mg_ready m) (mg_alerted m).

Definition set_prd_AutomationID (x : string) (p : PRD) : PRD :=
  mkPRD (prd_ID p) (prd_Title p) (prd_Status p) (prd_IsTemplate p) (prd_ParentPRDID p) x (prd_Branch p).

(** A change that cannot run out of fuel on an accepted record. *)
Definition out_of_fuel : error := Errorf "" [].
Definition finished {A} (r : option (res A)) : res A := default (Err out_of_fuel) r.

Section manager.
Context {W : Type} {daemon : Daemon W} {zones : TimeZones} {order : MapRange}.
Context (torn : W → list Automation → option (list Automation)).

Definition lookupPRD (m : Manager) (id : string) : option PRD := mg_prds m !! id.

(** [m.automations.Update], with what the change reports beside the record. *)
Definition update {X} (w : W) (id : string) (v : Z) (f : Automation → res (X * Automation)) (m : Manager)
    : W * Manager * res (X * Automation) :=
  let '(w', s, r) := Update (lookupPRD m) torn w id v (λ a, snd <$> f a) (mg_store m) in
  (w', set_store s m,
   match r, f <$> Get (mg_store m) id with
   | Ok a, Some (Ok (x, _)) => Ok (x, a)
   | Ok _, _ => Err (not_found id)
   | Err e, _ => Err e
   end).

(** A change that reports nothing. *)
Definition silent (f : Automation → res Automation) (a : Automation) : res (unit * Automation) := pair tt <$> f a.

Definition currentVersion (m : Manager) (id : string) : Z :=
  match Get (mg_store m) id with Some a => a_Version a | None => 0 end.

Definition controlAudit (action : string) (details : list (string * any)) (m : Manager) : Manager :=
  say (OAudit (mkAudit action (list_to_map details))) m.

Definition loadForControl (m : Manager) (id : string) (v : Z) (allowed : list string) : res Automation :=
  match Get (mg_store m) id with
  | None => Err (not_found id)
  | Some a =>
      fail_if (negb (a_Version a =? v))
        (Errorf "409: version mismatch: expected version %d, current version is %d" [AInt v; AInt (a_Version a)]) ;;
      checkControlStatus a allowed ;;
      Ok a
  end.

(** ** The PRDs' back references *)

(** The members new to the set get the reference; the first that fails ends it. *)
Fixpoint join_members (w : W) (id : string) (old : gset string) (new : list AutomationMember) (m : Manager) : W * Manager * res unit :=
  match new with
  | [] => (w, m, Ok tt)
  | mem :: new =>
      if bool_decide (m_PRDID mem ∈ old) then join_members w id old new m
      else match mg_prds m !! m_PRDID mem with
           | None => (w, m, Err (Errorf "prd %q not found" [AStr (m_PRDID mem)]))
           | Some prd =>
               let prd := set_prd_AutomationID id prd in
               let m := set_prds (<[m_PRDID mem := prd]> (mg_prds m)) m in
               match savePRD w prd with
               | (w, Some e) => (w, m, Err (Errorf "prd %q: %w" [AStr (m_PRDID mem); AErr e []]))
               | (w, None) => join_members w id old new m
               end
           end
  end.

(** Those that left lose it, unless it names another Automation by now. *)
Fixpoint leave_members (w : W) (id : string) (gone : list string) (m : Manager) : W * Manager * res unit :=
  match gone with
  | [] => (w, m, Ok tt)
  | prdID :: gone =>
      match mg_prds m !! prdID with
      | None => leave_members w id gone m
      | Some prd =>
          if negb (String.eqb (prd_AutomationID prd) id) then leave_members w id gone m
          else
            let prd := set_prd_AutomationID "" prd in
            let m := set_prds (<[prdID := prd]> (mg_prds m)) m in
            match savePRD w prd with
            | (w, Some e) => (w, m, Err (Errorf "prd %q: %w" [AStr prdID; AErr e []]))
            | (w, None) => leave_members w id gone m
            end
      end
  end.

(** The keys of a set in the order it is ranged over. *)
Definition range_set (s : gset string) : list string := (map_range (set_to_map (λ x, (x, tt)) s : gmap string unit)).*1.

Definition syncAutomationMembership (w : W) (id : string) (oldMembers newMembers : list AutomationMember) (terminal : bool) (m : Manager)
    : W * Manager * res unit :=
  let old : gset string := list_to_set (m_PRDID <$> prdMembersOnly oldMembers) in
  let new := prdMembersOnly newMembers in
  match join_members w id old new m with
  | (w, m, Err e) => (w, m, Err e)
  | (w, m, Ok _) =>
      let gone := if terminal then old else old ∖ list_to_set (m_PRDID <$> new) in
      leave_members w id (range_set gone) m
  end.

(** ** Create, change and delete *)

Record AutomationInput := mkAutomationInput {
  ai_Name : string;
  ai_EntryMemberID : string;
  ai_Members : option (list AutomationMember);
  ai_BudgetPolicy : option BudgetPolicy;
  ai_DecisionAssistant : option DecisionAssistant;
  ai_AutoTags : option AutoTagsOverride
}.

Definition automation_from (i : AutomationInput) (actor : string) : Automation :=
  mkAutomation "" (ai_Name i) "" (ai_EntryMemberID i) "" [] (set_m_AddedBy actor <$> default [] (ai_Members i)) 0
    (ai_BudgetPolicy i) None (ai_DecisionAssistant i) (ai_AutoTags i) zero_time zero_time None None None [] [].

Definition CreateAutomation (w : W) (i : AutomationInput) (actor : string) (m : Manager) : option (W * Manager * res Automation) :=
  '(w, s, r) ← Create (lookupPRD m) torn w (draws w) (automation_from i (actor_or actor)) (mg_store m);
  let m := set_store s m in
  Some (match r with
        | Err e => (w, m, Err e)
        | Ok a =>
            match syncAutomationMembership w (a_ID a) [] (a_Members a) false m with
            | (w, m, Ok _) => (w, m, Ok a)
            | (w, m, Err e) => let '(w, s, _) := Delete torn w (a_ID a) (mg_store m) in (w, set_store s m, Err e)
            end
        end).

(** An incoming member takes over id and provenance of the stored one it matches. *)
Definition adopt_provenance (im em : AutomationMember) : AutomationMember :=
  mkMember (m_ID em) (m_PRDID im) (m_OnComplete im) (m_OnBlocked im) (m_OnFailed im) (m_Kind im) (m_AutomationID im)
    (m_ForkMembers im) (m_JoinMembers im) (m_OnBranchFailure im) (m_AddedAt em) (m_AddedBy em) (m_AddedReason em) (m_Status im)
    (m_StartedAt im) (m_FinishedAt im) (m_Outcome im) (m_EdgeTaken im) (m_BudgetPolicy im)
    (match m_DecisionAssistant im with Some d => Some d | None => m_DecisionAssistant em end) (m_EstimatedCostUSD im) (m_Stage im).

(** The stored members: the last by each id, the first by each PRD. *)
Definition stored_byID (ms : list AutomationMember) (id : string) : option AutomationMember :=
  find (λ m, String.eqb (m_ID m) id) (rev ms).
Definition stored_byPRD (ms : list AutomationMember) (prd : string) : option AutomationMember :=
  find (λ m, String.eqb (m_PRDID m) prd) ms.

Fixpoint merge_members (now : Time) (actor : string) (ids : nat → string) (n : nat) (stored incoming : list AutomationMember)
    : list AutomationMember :=
  match incoming with
  | [] => []
  | im :: incoming =>
      let im := match stored_byID stored (m_ID im) with
                | Some em => adopt_provenance im em
                | None =>
                    if String.eqb (m_ID im) "" && nonempty (m_PRDID im) then
                      match stored_byPRD stored (m_PRDID im) with Some em => adopt_provenance im em | None => im end
                    else im
                end in
      let '(im, n) := if String.eqb (m_ID im) "" then (set_m_ID (ids n) im, S n) else (im, n) in
      let im := if IsZero (m_AddedAt im) then set_m_AddedAt now im else im in
      let im := if String.eqb (m_AddedBy im) "" then set_m_AddedBy actor im else im in
      im :: merge_members now actor ids n stored incoming
  end.

(** [same]: whether two lists of members read the same as JSON. *)
Definition edit_change (same : list AutomationMember → list AutomationMember → bool) (now : Time) (actor : string)
    (ids : nat → string) (i : AutomationInput) (a : Automation) : res Automation :=
  let membersChanged := match ai_Members i with Some ms => negb (same ms (a_Members a)) | None => false end in
  let entryChanged := nonempty (ai_EntryMemberID i) && negb (String.eqb (ai_EntryMemberID i) (a_EntryMemberID a)) in
  fail_if ((membersChanged || entryChanged) && negb (String.eqb (a_Status a) AutomationDraft))
    (Errorf "409: members can only be edited while the automation is a draft" []) ;;
  let a := mkAutomation (a_ID a) (if nonempty (ai_Name i) then ai_Name i else a_Name a) (a_Status a)
             (if nonempty (ai_EntryMemberID i) then ai_EntryMemberID i else a_EntryMemberID a) (a_CurrentMemberID a)
             (a_ActiveCursors a) (a_Members a) (a_Version a) (ai_BudgetPolicy i) (a_BudgetState a)
             (match ai_DecisionAssistant i with Some d => Some d | None => a_DecisionAssistant a end)
             (match ai_AutoTags i with Some t => Some t | None => a_AutoTags a end)
             (a_CreatedAt a) (a_UpdatedAt a) (a_StartedAt a) (a_FinishedAt a) (a_IdleSince a) (a_Decisions a) (a_PendingInserts a) in
  Ok (match ai_Members i with
      | Some ms => set_a_Members (merge_members now actor ids 0 (a_Members a) ms) a
      | None => a
      end).

Definition UpdateAutomation (same : list AutomationMember → list AutomationMember → bool) (w : W) (id : string) (v : Z)
    (i : AutomationInput) (actor : string) (m : Manager) : W * Manager * res Automation :=
  match update w id v (λ a, pair (a_Members a) <$> edit_change same (wall w) (actor_or actor) (draws w) i a) m with
  | (w, m, Err e) => (w, m, Err e)
  | (w, m, Ok (oldMembers, a)) =>
      let '(w, m, r) := syncAutomationMembership w id oldMembers (a_Members a) false m in (w, m, r ;; Ok a)
  end.

Definition DeleteAutomation (w : W) (id : string) (m : Manager) : W * Manager * res unit :=
  match Get (mg_store m) id with
  | None => (w, m, Err (not_found id))
  | Some a =>
      match Delete torn w id (mg_store m) with
      | (w, s, Some e) => (w, set_store s m, Err e)
      | (w, s, None) => syncAutomationMembership w id (a_Members a) [] true (set_store s m)
      end
  end.

(** ** Control *)

Definition PauseAutomation (w : W) (id actor : string) (v : Z) (m : Manager) : W * Manager * res Automation :=
  let actor := actor_or actor in
  match loadForControl m id v [AutomationActive] with
  | Err e => (w, m, Err e)
  | Ok _ =>
      match update w id v (silent (pause_change (wall w) actor)) m with
      | (w, m, Err e) => (w, m, Err e)
      | (w, m, Ok (_, a)) =>
          (w, controlAudit controlPause [("automation_id", AStr id); ("actor", AStr actor); ("version", AInt (a_Version a))] m, Ok a)
      end
  end.

Definition ReturnAutomationToDraft (w : W) (id actor : string) (v : Z) (m : Manager) : W * Manager * res Automation :=
  let actor := actor_or actor in
  match Get (mg_store m) id with
  | None => (w, m, Err (not_found id))
  | Some a =>
      match checkControlStatus a [AutomationBlocked] ;; checkReturnable a with
      | Err e => (w, m, Err e)
      | Ok _ =>
          match update w id v (silent (return_change (wall w) actor)) m with
          | (w, m, Err e) => (w, m, Err e)
          | (w, m, Ok (_, a)) =>
              (w, controlAudit controlReturnToDraft [("automation_id", AStr id); ("actor", AStr actor); ("version", AInt (a_Version a))] m, Ok a)
          end
      end
  end.

Definition RemoveMember (w : W) (id memberID actor : string) (v : Z) (m : Manager) : W * Manager * res Automation :=
  let actor := actor_or actor in
  match a ← loadForControl m id v [AutomationActive; AutomationPaused]; checkRemovable a memberID ;; Ok a with
  | Err e => (w, m, Err e)
  | Ok a0 =>
      match update w id v (silent (remove_change (wall w) memberID actor)) m with
      | (w, m, Err e) => (w, m, Err e)
      | (w, m, Ok (_, a)) =>
          match syncAutomationMembership w id (a_Members a0) (a_Members a) false m with
          | (w, m, Err e) => (w, m, Err e)
          | (w, m, Ok _) =>
              (w, controlAudit controlRemoveMember [("automation_id", AStr id); ("actor", AStr actor); ("member", AStr memberID);
                    ("version", AInt (a_Version a))] m, Ok a)
          end
      end
  end.

(** The edges of a member, as the audit shows them. *)
Definition edges_of (a : Automation) (memberID : string) : string * string * string :=
  match automationMember a memberID with
  | Some i => let m := mem_at a i in (m_OnComplete m, m_OnBlocked m, m_OnFailed m)
  | None => ("", "", "")
  end.
Definition edges_any (e : string * string * string) : any :=
  AMap [(edgeOnComplete, AStr e.1.1); (edgeOnBlocked, AStr e.1.2); (edgeOnFailed, AStr e.2)].

Definition ReorderEdges (w : W) (id memberID onCompleted onBlocked onFailed actor : string) (v : Z) (m : Manager)
    : W * Manager * res Automation :=
  let actor := actor_or actor in
  match a ← loadForControl m id v [AutomationActive; AutomationPaused]; checkReorderable a memberID onCompleted onBlocked onFailed with
  | Err e => (w, m, Err e)
  | Ok _ =>
      match update w id v (λ cur, pair (edges_of cur memberID) <$>
                             reorder_change (wall w) memberID onCompleted onBlocked onFailed actor cur) m with
      | (w, m, Err e) => (w, m, Err e)
      | (w, m, Ok (before, a)) =>
          (w, controlAudit controlReorderEdges [("automation_id", AStr id); ("actor", AStr actor); ("member", AStr memberID);
                ("version", AInt (a_Version a)); ("edges", edges_any (onCompleted, onBlocked, onFailed)); ("previous", edges_any before)] m, Ok a)
      end
  end.

Definition RenameAutomationStage (w : W) (id from to_ : string) (v : Z) (m : Manager) : W * Manager * res Automation :=
  let from := TrimSpace from in
  let to_ := TrimSpace to_ in
  match fail_if (String.eqb from "" || String.eqb to_ "") (Errorf "a stage rename needs non-empty from and to names" []) ;;
        fail_if (String.eqb from to_) (Errorf "a stage rename needs different from and to names" []) ;;
        loadForControl m id v insert_statuses with
  | Err e => (w, m, Err e)
  | Ok _ =>
      match update w id v (rename_change (wall w) from to_) m with
      | (w, m, Err e) => (w, m, Err e)
      | (w, m, Ok (n, a)) =>
          (w, controlAudit "automation_rename_stage" [("automation_id", AStr id); ("from", AStr from); ("to", AStr to_); ("members", AInt n);
                ("version", AInt (a_Version a))] m, Ok a)
      end
  end.

(** ** Insert and approve *)

Definition checkInsertPRD (m : Manager) (a : Automation) (prdID : string) : res unit :=
  fail_if (bool_decide (mg_prds m !! prdID = None)) (Errorf "prd %s not found" [AStr prdID]) ;;
  let owner := OwnerOf (mg_store m) prdID in
  fail_if (nonempty owner && negb (String.eqb owner (a_ID a))) (Errorf "409: prd %s already belongs to automation %s" [AStr prdID; AStr owner]) ;;
  checkPendingDuplicate a prdID.

Definition insert_policy (w : W) : string := let p := agentInsertPolicy w in if nonempty p then p else PolicyAllow.

Definition insert_load (m : Manager) (id : string) (i : InsertMemberInput) : res Automation :=
  fail_if (String.eqb (TrimSpace (in_PRDID i)) "") (Errorf "insert needs a prd_id" []) ;;
  fail_if (in_Urgent i && nonempty (in_AfterMemberID i)) (Errorf "an urgent insert takes the next slot; leave after_member_id empty" []) ;;
  a ← loadForControl m id (in_ExpectedVersion i) insert_statuses;
  fail_if (negb (String.eqb (a_Status a) AutomationDraft) && String.eqb (TrimSpace (in_Reason i)) "") (needs_reason (a_Status a)) ;;
  checkInsertPRD m a (in_PRDID i) ;;
  Ok a.

Definition set_in_Actor (x : string) (i : InsertMemberInput) : InsertMemberInput :=
  mkInsert (in_PRDID i) (in_Name i) (in_AfterMemberID i) (in_Stage i) (in_Urgent i) x (in_Reason i) (in_ExpectedVersion i).

Definition InsertMember (w : W) (id : string) (i : InsertMemberInput) (m : Manager) : W * Manager * res Automation :=
  let i := set_in_Actor (actor_or (in_Actor i)) i in
  match insert_load m id i with
  | Err e => (w, m, Err e)
  | Ok a0 =>
      let hold := negb (String.eqb (a_Status a0) AutomationDraft)
                  || isAgentActor (in_Actor i) && String.eqb (insert_policy w) PolicyRequireOperator in
      let memberID := draws w 0 in
      match update w id (in_ExpectedVersion i) (λ cur, pair (a_Members cur) <$> finished (insert_change (wall w) memberID hold i cur)) m with
      | (w, m, Err e) => (w, m, Err e)
      | (w, m, Ok (oldMembers, a)) =>
          match (if hold then (w, m, Ok tt) else syncAutomationMembership w id oldMembers (a_Members a) false m) with
          | (w, m, Err e) => (w, m, Err e)
          | (w, m, Ok _) =>
              (w, controlAudit controlInsertMember [("automation_id", AStr id); ("actor", AStr (in_Actor i)); ("member", AStr memberID);
                    ("prd_id", AStr (in_PRDID i)); ("name", AStr (in_Name i)); ("urgent", ABool (in_Urgent i)); ("held", ABool hold);
                    ("reason", AStr (in_Reason i)); ("version", AInt (a_Version a))] m, Ok a)
          end
      end
  end.

Definition ApproveInsertedMember (w : W) (id pendingID actor : string) (v : Z) (m : Manager) : W * Manager * res Automation :=
  let actor := actor_or actor in
  match fail_if (negb (String.eqb actor operatorActor))
          (Errorf "409: only the operator may approve a pending insert; actor %q cannot" [AStr actor]) ;;
        a ← loadForControl m id v insert_statuses;
        fail_if (bool_decide (findPending a pendingID = None)) (no_pending id pendingID) with
  | Err e => (w, m, Err e)
  | Ok _ =>
      match update w id v (λ cur, pair (a_Members cur, findPending cur pendingID) <$> finished (approve_change (wall w) id pendingID actor cur)) m with
      | (w, m, Err e) => (w, m, Err e)
      | (w, m, Ok ((oldMembers, landed), a)) =>
          match syncAutomationMembership w id oldMembers (a_Members a) false m with
          | (w, m, Err e) => (w, m, Err e)
          | (w, m, Ok _) =>
              let p := default (mkPending "" "" "" false "" "" "" "" zero_time "") landed in
              (w, controlAudit controlApproveInsert [("automation_id", AStr id); ("actor", AStr actor); ("member", AStr (pi_ID p));
                    ("prd_id", AStr (pi_PRDID p)); ("urgent", ABool (pi_Urgent p)); ("requested_by", AStr (pi_Actor p));
                    ("version", AInt (a_Version a))] m, Ok a)
          end
      end
  end.
End manager.
