(* ===== verification/AutomationCoordinator.v ===== *)
(** * Automations: the coordinator

    internal/autonomous/automation_coordinator.go, automation_reconcile.go,
    automation_merged_member_coordinator.go, automation_idle.go and the passes of
    automation_budget_gate.go: how the ends of members move an Automation on. Each
    operation reads the record and the facts about its members, computes a step on
    them, and hands the store the same step with the version it read
    ([advance]): when the version has moved it starts over, and only the winner of
    the write starts members.

    The operations run in a monad over the world and the Manager. [others] is
    what the rest of the daemon may do between the computation and the write, and
    before each start. A refused start of a fork's branch is itself an end of that
    branch, so [advance] calls itself; [None] is fuel spent.

    The decision assistant is off: its hooks ask nothing and change nothing then.
    The passes of the ticker other than the idle alert and the budget are left
    out. *)

From S2P Require Import Prelude GoBase GoText RecordStore AutomationSettings.
From S2P Require Import Automation AutomationValidate AutomationStep AutomationStore.
From S2P Require Import AutomationControl AutomationManager MergeProof.

#[local] Open Scope Z_scope.

Definition coordinatorCASRetries : nat := 8.

(** The settings read here. *)
Record AutomationConfig := mkConfig {
  MergedMemberPolicy : string;
  WorktreeBaseRepo : string;
  IdleAlertMinutes : Z
}.

Definition MergedMemberPolicyCompleted : string := "completed".
Definition MergedMemberPolicyManual : string := "manual".
Definition MergedMemberPolicyBlock : string := "block".
Definition EffectiveMergedMemberPolicy (c : AutomationConfig) : string :=
  if String.eqb (MergedMemberPolicy c) "" then MergedMemberPolicyCompleted else MergedMemberPolicy c.

(** [AutomationStarter], with the two optional interfaces its values are asked
    for; git; the settings; what a blocked alert adds about failed tasks; and the
    rest of the daemon. *)
Class Starter (W : Type) := {
  Run : W → gmap string PRD → string → W * gmap string PRD * option string;
  Resume : W → gmap string PRD → string → string → W * gmap string PRD * option string;
  memberCanceller : option (W → gmap string PRD → string → W * gmap string PRD * option string);
  nestedStarter : option (W → Manager → string → string → W * Manager * option string);
  git : W → list string → reply;
  Config : W → AutomationConfig;
  blockedTaskDetails : W → gmap string PRD → Automation → string;
  others : W → Manager → W * Manager
}.

(** ** The monad *)

Definition M (W A : Type) : Type := W * Manager → option (A * (W * Manager)).
#[global] Instance M_ret W : MRet (M W) := λ A x s, Some (x, s).
#[global] Instance M_bind W : MBind (M W) := λ A B f m s, '(x, s) ← m s; f x s.
#[global] Instance M_map W : FMap (M W) := λ A B f m s, '(x, s) ← m s; Some (f x, s).

Section coordinator.
Context {W : Type} {daemon : Daemon W} {starter : Starter W} {zones : TimeZones} {order : MapRange}.
Context (torn : W → list Automation → option (list Automation)).
#[local] Abbreviation M := (M W).

Definition get : M (W * Manager) := λ s, Some (s, s).
Definition out_of_time {A} : M A := λ _, None.
Definition modify (f : Manager → Manager) : M unit := λ '(w, m), Some (tt, (w, f m)).
Definition lift {A} (f : W → Manager → W * Manager * A) : M A := λ '(w, m), let '(w, m, x) := f w m in Some (x, (w, m)).
Definition skip : M unit := mret tt.
Definition when (b : bool) (m : M unit) : M unit := if b then m else skip.
Definition now_ : M Time := (λ s, wall s.1) <$> get.
Definition emit (o : output) : M unit := modify (say o).
Definition interfere : M unit := lift (λ w m, (others w m, tt)).

Fixpoint each {A} (f : A → M unit) (l : list A) : M unit :=
  match l with [] => skip | x :: l => f x ;; each f l end.

(** ** Reading *)

Definition find_automation (id : string) : M (option Automation) := (λ s, Get (mg_store s.2) id) <$> get.
Definition list_automations : M (list Automation) := (λ s, List_ s.1 (mg_store s.2)) <$> get.

(** [prdState]: the display name and the status. *)
Definition prdState (m : Manager) (prdID : string) : option (string * string) :=
  match mg_prds m !! prdID with
  | None => None
  | Some p => Some (if String.eqb (prd_Title p) "" then prdID else prd_Title p, prd_Status p)
  end.

Definition startVerdict (w : W) (a : Automation) (i : nat) : BudgetVerdict :=
  if memberUnstarted (mem_at a i) then budgetVerdictFor w a (Some i) else zero_verdict.

Definition snapshot_one (w : W) (m : Manager) (a : Automation) (i : nat) (mem : AutomationMember) : memberInfo :=
  if is_kind MemberKindPRD mem then
    match prdState m (m_PRDID mem) with
    | Some (name, status) => mkInfo (if String.eqb name "" then m_PRDID mem else name) status (startVerdict w a i)
    | None => mkInfo (m_PRDID mem) "missing" (startVerdict w a i)
    end
  else if is_kind MemberKindAutomation mem then
    mkInfo (match Get (mg_store m) (m_AutomationID mem) with
            | Some child => if nonempty (a_Name child) then a_Name child else m_AutomationID mem
            | None => m_AutomationID mem
            end) "" (startVerdict w a i)
  else if is_kind MemberKindJoin mem then mkInfo ("join " +:+ m_ID mem) "" zero_verdict
  else mkInfo ("fork " +:+ m_ID mem) "" (startVerdict w a i).

Definition snapshotMembers (w : W) (m : Manager) (a : Automation) : gmap string memberInfo :=
  foldl (λ snap '(i, mem), <[m_ID mem := snapshot_one w m a i mem]> snap) ∅ (imap pair (a_Members a)).

(** ** Starts in flight *)

Definition starts_of (key : string) (m : Manager) : Z := default 0 (mg_starting m !! key).
Definition isStarting (m : Manager) (key : string) : bool := 0 <? starts_of key m.

Definition beginStart (prdID : string) (on : bool) : M unit :=
  when (on && nonempty prdID) (modify (λ m, set_starting (<[prdID := starts_of prdID m + 1]> (mg_starting m)) m)).

Definition endStart (key : string) : M unit := modify (λ m,
  if starts_of key m <=? 1 then set_starting (delete key (mg_starting m)) m
  else set_starting (<[key := starts_of key m - 1]> (mg_starting m)) m).

(** The release [beginStart] returns. *)
Definition releaseStart (prdID : string) (on : bool) : M unit := when (on && nonempty prdID) (endStart prdID).

Definition claimStart (key : string) : M bool :=
  '(_, m) ← get;
  if String.eqb key "" || isStarting m key then mret false
  else (modify (λ m, set_starting (<[key := 1]> (mg_starting m)) m) ;; mret true).

Definition prd_start (s : memberStart) : bool := String.eqb (ms_kind s) MemberKindPRD.
Definition beginStarts (l : list memberStart) : M unit := each (λ s, when (prd_start s) (beginStart (ms_prdID s) true)) l.
Definition releaseAll (l : list memberStart) : M unit := each (λ s, when (prd_start s) (releaseStart (ms_prdID s) true)) l.

(** ** What follows a write *)

Definition audit_ (action : string) (details : list (string * any)) : M unit := emit (OAudit (mkAudit action (list_to_map details))).

Definition budgetAuditDetails (a : Automation) (st : option BudgetState) (action actor reason : string) : list (string * any) :=
  [("automation_id", AStr (a_ID a)); ("action", AStr action);
   ("reset_at", AStr (match st with Some s => match bs_ResumeAt s with Some t => FormatRFC3339 t | None => "" end | None => "" end));
   ("actor", AStr actor); ("reason", AStr reason)]
  ++ match st with
     | Some s => [("scope", AStr (bs_Scope s)); ("spent_usd", AFloat (bs_SpentUSD s)); ("ceiling_usd", AFloat (bs_CeilingUSD s));
                  ("window", AStr (bs_Window s)); ("reset_known", ABool (bs_ResetKnown s))]
     | None => []
     end.

Definition named_automation (a : Automation) : string := "Automation " +:+ Quote (a_Name a) +:+ " (" +:+ a_ID a +:+ ")".

Definition afterBudget (a : Automation) (eff : option budgetEffect) : M unit :=
  match eff with
  | None => skip
  | Some e =>
      if negb (be_changed e) || String.eqb (be_action e) BudgetActionHeld then skip
      else
        audit_ "automation_budget_breach" (budgetAuditDetails a (a_BudgetState a) (be_action e) coordinatorActor (be_reason e)) ;;
        match a_BudgetState a with
        | Some s => match bs_ResumeAt s with
            | Some t => when (String.eqb (be_action e) BudgetActionPaused)
                (emit (OAlert "warn" "Automation paused: budget reached"
                  (named_automation a +:+ " is paused: " +:+ be_reason e +:+ ". It resumes by itself at " +:+ FormatRFC3339 t +:+ ".")))
            | None => skip end
        | None => skip
        end
  end.

Definition MergedMemberAlertTitle : string := "Automaton advanced on a merged member".

Definition MergedMemberAlertBody (automation id member branch base commit : string) : string :=
  "Automaton " +:+ Quote automation +:+ " moved on past member " +:+ Quote member +:+ ": its branch " +:+ branch
  +:+ " is already merged on " +:+ base +:+ " (proving commit " +:+ commit
  +:+ "), so the cancelled member counts as completed. Read the decisions with: autonomous merged-members " +:+ id +:+ ".".

Definition afterMergedMember (a : Automation) (n : option mergedMemberAlert) : M unit :=
  match n with
  | None => skip
  | Some n =>
      let name := if String.eqb (a_Name a) "" then a_ID a else a_Name a in
      emit (OAlert "info" MergedMemberAlertTitle (MergedMemberAlertBody name (a_ID a) (ma_member n) (ma_branch n) (ma_base n) (ma_commit n)))
  end.

Definition emitTerminal (a : Automation) : M unit :=
  when (one_of (a_Status a) [AutomationCompleted; AutomationBlocked]) (emit (OEvent (a_ID a) (a_Status a))).

Definition blocked (a : Automation) (reason : string) (details : gmap string any) : M unit :=
  emit (OAudit (mkAudit "automation_blocked" (<["automation_id" := AStr (a_ID a)]> (<["reason" := AStr reason]>
    (<["actor" := AStr coordinatorActor]> details))))) ;;
  '(w, m) ← get;
  let extra := blockedTaskDetails w (mg_prds m) a in
  let body := named_automation a +:+ ": " +:+ reason in
  emit (OAlert "warn" "Automation blocked" (if nonempty extra then body +:+ String nl (String nl extra) else body)).

Definition memberDecision (prdID note : string) : M unit :=
  '(_, m) ← get; when (bool_decide (is_Some (mg_prds m !! prdID))) (emit (OMemberDecision prdID note)).

(** ** Starting members *)

Definition startGate (m : Manager) (prdID : string) : string * string :=
  match prdState m prdID with Some (_, st) => (gateMode st, st) | None => ("", "missing") end.

Definition on_prds (f : W → gmap string PRD → W * gmap string PRD * option string) : M (option string) :=
  lift (λ w m, let '(w, p, e) := f w (mg_prds m) in (w, set_prds p m, e)).

(** [runStart]: the error, if any. *)
Definition runStart (s : memberStart) : M (option string) :=
  interfere ;;
  if String.eqb (ms_kind s) MemberKindAutomation then
    emit (OActivate (ms_childID s)) ;;
    match nestedStarter with
    | None => mret (Some ("starter cannot activate nested automation " +:+ ms_childID s))
    | Some act => lift (λ w m, act w m (ms_childID s) coordinatorActor)
    end
  else
    emit (OStart (ms_prdID s) (ms_resume s)) ;;
    e ← on_prds (λ w p, if ms_resume s then Resume w p (ms_prdID s) coordinatorActor else Run w p (ms_prdID s));
    emit (OTouch (ms_prdID s)) ;;
    mret e.

Definition startResult (e : option string) : string :=
  match e with None => "started" | Some t => "start-error: " +:+ t end.

Definition startFailed (autoID : string) (s : memberStart) (err : string) : M unit :=
  let reason := "next member " +:+ ms_name s +:+ " failed to start: " +:+ err in
  r ← lift (λ w m, update torn w autoID 0 (silent (λ a, Ok (start_failed_change (wall w) (ms_memberID s) reason a))) m);
  match r with
  | Err _ => skip
  | Ok (_, a) => emitTerminal a ;; blocked a reason {["to" := AStr (ms_memberID s)]}
  end.

(** A PRD started outside a step. *)
Definition startMember (autoID memID prdID name : string) (resume : bool) : M unit :=
  let s := mkStart memID MemberKindPRD prdID "" name resume false in
  e ← runStart s;
  match e with Some t => startFailed autoID s t | None => skip end.

Section again.
Context (advance : string → stepInput → M unit).

Definition branchStartFailed (autoID : string) (s : memberStart) (err : string) : M unit :=
  advance autoID (mkInput (ms_memberID s)
    (mkEnd "" MemberFailed "start-error" false "" false ("branch " +:+ ms_name s +:+ " failed to start: " +:+ err) None)
    false false zero_time false false "").

Definition launch (autoID : string) (s : memberStart) : M unit :=
  e ← runStart s;
  (if String.eqb (ms_kind s) MemberKindAutomation then
     audit_ "automation_nested_activate" [("automation_id", AStr autoID); ("member", AStr (ms_memberID s));
       ("child_automation_id", AStr (ms_childID s)); ("result", AStr (startResult e)); ("actor", AStr coordinatorActor)]
   else when (ms_branch s)
     (audit_ "automation_fork" [("automation_id", AStr autoID); ("member", AStr (ms_memberID s)); ("prd_id", AStr (ms_prdID s));
       ("result", AStr (startResult e)); ("actor", AStr coordinatorActor)])) ;;
  match e with
  | None => skip
  | Some t => if ms_branch s then branchStartFailed autoID s t else startFailed autoID s t
  end.

Definition afterAdvance (a : Automation) (eff : stepEffects) : M unit :=
  when (ef_completed eff) (lift (λ w m, let '(w, m, _) := syncAutomationMembership w (a_ID a) (a_Members a) [] true m in (w, m, tt))) ;;
  each (λ au, emit (OAudit au)) (ef_audits eff) ;;
  each (λ n, when (nonempty (mnote_note n)) (memberDecision (mnote_prdID n) (mnote_note n))) (ef_notes eff) ;;
  each (λ id, emit (OTouch id)) (ef_touched eff) ;;
  afterBudget a (ef_budget eff) ;;
  afterMergedMember a (ef_mergedAdvance eff) ;;
  (if nonempty (ef_blocked eff) then blocked a (ef_blocked eff) (ef_details eff) ;; emitTerminal a
   else when (ef_completed eff) (emit (OAlert "info" "Automation completed" (ef_info eff)) ;; emitTerminal a)) ;;
  each (launch (a_ID a)) (ef_starts eff).

(** The step as a change for the store. *)
Definition step_change (now : Time) (i : stepInput) (snap : gmap string memberInfo) (a : Automation) : res (stepEffects * Automation) :=
  (λ '(a, eff), (eff, a)) <$> finished (step now a i snap).

(** One attempt of [advance]; the answer is whether to stop. *)
Definition attempt (autoID : string) (i : stepInput) : M bool :=
  '(w, m) ← get;
  match Get (mg_store m) autoID with
  | None => mret true
  | Some a =>
      if negb (one_of (a_Status a) [AutomationActive; AutomationPaused]) then mret true
      else
        let snap := snapshotMembers w m a in
        match step (wall w) a i snap with
        | None => out_of_time
        | Some (Err _) => mret true
        | Some (Ok (_, dry)) =>
            beginStarts (ef_starts dry) ;;
            interfere ;;
            r ← lift (λ w, update torn w (a_ID a) (a_Version a) (step_change (wall w) i snap));
            match r with
            | Err e => releaseAll (ef_starts dry) ;; mret (negb (is_409 e))
            | Ok (eff, a) => afterAdvance a eff ;; releaseAll (ef_starts dry) ;; mret true
            end
        end
  end.
End again.

(** A loop of at most [n] attempts; [None]: each asked to be repeated. *)
Fixpoint retry {A} (n : nat) (once : M (option A)) : M (option A) :=
  match n with
  | O => mret None
  | S n => r ← once; match r with Some x => mret (Some x) | None => retry n once end
  end.

Definition stamped (now : Time) (i : stepInput) : stepInput :=
  if IsZero (si_now i) then mkInput (si_memberID i) (si_end i) (si_reeval i) (si_startPending i) now (si_emptyEdgeAsked i)
                              (si_breachAsked i) (si_breachChoice i)
  else i.

Fixpoint advance (fuel : nat) (autoID : string) (i : stepInput) : M unit :=
  match fuel with
  | O => out_of_time
  | S f =>
      now ← now_;
      (λ _, tt) <$> retry coordinatorCASRetries
        ((λ b : bool, if b then Some tt else None) <$> attempt (advance f) autoID (stamped now i))
  end.
End coordinator.
