(* ===== verification/AutomationReconcile.v ===== *)
(** * Automations: events, restarts and the calls that drive the coordinator

    The rest of internal/autonomous/automation_coordinator.go (what an event
    leads to, [activate]), automation_reconcile.go (the pass after a restart),
    automation_merged_member_coordinator.go, the reopening of
    automation_merged_member_reopen.go, the budget passes of
    automation_budget_gate.go, the idle alert of automation_idle.go, and the calls
    of automation_control.go that start or end members (resume, cancel, skip).

    Lifecycle events are delivered later, by the bus: the ones the coordinator
    sends are outputs, and [onMemberTerminal] and [onChildTerminal] are what it
    does with one it receives. *)

From S2P Require Import Prelude GoBase GoText RecordStore AutomationSettings.
From S2P Require Import Automation AutomationValidate AutomationStep AutomationStore.
From S2P Require Import AutomationControl AutomationManager MergeProof.
From S2P Require Import AutomationCoordinator.

#[local] Open Scope Z_scope.

Section coordinator.
Context {W : Type} {daemon : Daemon W} {starter : Starter W} {zones : TimeZones} {order : MapRange}.
Context (torn : W → list Automation → option (list Automation)) (fuel : nat).
#[local] Abbreviation M := (M W).
#[local] Abbreviation advance := (advance torn fuel).

(** The Automation, if it is active or paused. *)
Definition in_progress (a : Automation) : bool := one_of (a_Status a) [AutomationActive; AutomationPaused].

(** ** A member that ends *)

Definition set_end_merged (n : mergedMemberNote) (e : endOutcome) : endOutcome :=
  mkEnd (e_edge e) (e_memStatus e) (e_outcome e) (e_success e) (e_direct e) (e_revert e) (e_note e) (Some n).
Definition set_end_direct (d : string) (e : endOutcome) : endOutcome :=
  mkEnd (e_edge e) (e_memStatus e) (e_outcome e) (e_success e) d (e_revert e) (e_note e) (e_merged e).

Definition mergedMemberEnd (w : W) (prd : PRD) (status : string) (e : endOutcome) : endOutcome :=
  let policy := EffectiveMergedMemberPolicy (Config w) in
  if String.eqb policy MergedMemberPolicyBlock then e
  else if String.eqb (prd_Branch prd) "" then e
  else
    let name := if String.eqb (prd_Title prd) "" then prd_ID prd else prd_Title prd in
    let proof := MergedMemberProof (git w) (WorktreeBaseRepo (Config w)) (prd_Branch prd) in
    if negb (mp_Merged proof) then e
    else
      let evidence := "member " +:+ name +:+ ": branch " +:+ mp_Branch proof +:+ " is merged on " +:+ mp_Base proof
                      +:+ " (commit " +:+ mp_Commit proof +:+ ")" in
      let n := mkMergedNote (prd_ID prd) (mp_Branch proof) (mp_Base proof) (mp_Commit proof) policy true in
      if String.eqb status PRDCompleted then set_end_merged (n false (evidence +:+ "; the member completed")) e
      else if String.eqb policy MergedMemberPolicyManual then
        set_end_merged (n false (evidence +:+ "; policy manual keeps the Automation blocked for the operator to resume or skip the member"))
          (set_end_direct (e_direct e +:+ "; " +:+ evidence) e)
      else
        set_end_merged (n true (evidence +:+ "; policy completed treats the cancelled member as completed"))
          (default e (prdEnd PRDCompleted)).

(** One attempt of the reopening: whether to stop. *)
Definition reopen_attempt (autoID prdID name : string) : M (option unit) :=
  '(w, m) ← get;
  match Get (mg_store m) autoID with
  | None => mret (Some tt)
  | Some a =>
      if negb (reopenable a (memberByPRD a prdID)) then mret (Some tt)
      else
        interfere ;;
        r ← lift (λ w, update torn w (a_ID a) (a_Version a) (reopen_change (wall w) prdID name));
        match r with
        | Err e => mret (if is_409 e then None else Some tt)
        | Ok (memID, a) =>
            '(w, _) ← get;
            audit_ "automation_reopened" [("automation_id", AStr (a_ID a)); ("member", AStr memID); ("prd_id", AStr prdID);
              ("actor", AStr coordinatorActor); ("at", AStr (FormatRFC3339 (wall w)))] ;;
            mret (Some tt)
        end
  end.

Definition onMemberReopened (autoID prdID : string) : M unit :=
  '(w, m) ← get;
  match Get (mg_store m) autoID with
  | None => skip
  | Some a =>
      if negb (reopenable a (memberByPRD a prdID)) then skip
      else
        claimed ← claimStart prdID;
        if negb claimed then skip
        else
          '(_, m) ← get;
          let name := match prdState m prdID with Some (n, _) => n | None => "" end in
          retry coordinatorCASRetries (reopen_attempt autoID prdID name) ;; endStart prdID
  end.

Definition input_of (memID : string) (e : endOutcome) : stepInput := mkInput memID e false false zero_time false false "".

(** An event about a PRD. *)
Definition onMemberTerminal (prdID newStatus : string) : M unit :=
  '(w, m) ← get;
  match mg_prds m !! prdID with
  | None => skip
  | Some prd =>
      let autoID := prd_AutomationID prd in
      if String.eqb prdID "" || String.eqb autoID "" then skip
      else if String.eqb newStatus PRDRunning then onMemberReopened autoID prdID
      else match prdEnd newStatus with
           | None => skip
           | Some e =>
               let e := if one_of newStatus [PRDCancelled; PRDCompleted] then mergedMemberEnd w prd newStatus e else e in
               if String.eqb newStatus PRDFailed && negb (mg_ready m) then modify (λ m, set_deferred ({[prdID]} ∪ mg_deferred m) m)
               else match Get (mg_store m) autoID with
                    | None => skip
                    | Some a => match memberByPRD a prdID with
                                | None => skip
                                | Some i => advance autoID (input_of (m_ID (mem_at a i)) e)
                                end
                    end
           end
  end.

(** An event about a nested Automation: every running Automation with it as a
    member goes on. *)
Definition onChildTerminal (childID newStatus : string) : M unit :=
  match childEnd newStatus with
  | None => skip
  | Some e =>
      if String.eqb childID "" then skip
      else
        l ← list_automations;
        each (λ parent, if negb (in_progress parent) then skip
                        else match memberByChild parent childID with
                             | None => skip
                             | Some i => advance (a_ID parent) (input_of (m_ID (mem_at parent i)) e)
                             end) l
  end.

(** [markReady]: boot recovery is over, and the failures put off are looked at. *)
Definition markReady : M unit :=
  modify (set_ready true) ;;
  '(_, m) ← get;
  let ids := range_set (mg_deferred m) in
  modify (set_deferred ∅) ;;
  each (λ id, '(_, m) ← get;
              match prdState m id with
              | Some (_, st) => when (String.eqb st PRDFailed) (onMemberTerminal id PRDFailed)
              | None => skip
              end) ids.

(** ** Bringing cursors in line *)

Definition reconcileAudit (a : Automation) (mem : AutomationMember) (reason outcome : string) : M unit :=
  audit_ "automation_reconcile" [("automation_id", AStr (a_ID a)); ("member", AStr (m_ID mem)); ("prd_id", AStr (m_PRDID mem));
    ("outcome", AStr outcome); ("reason", AStr reason); ("actor", AStr coordinatorActor)].

Definition retryBranchStart (a : Automation) (mem : AutomationMember) : M unit :=
  if negb (String.eqb (a_Status a) AutomationActive) then skip
  else
    claimed ← claimStart (m_PRDID mem);
    if negb claimed then skip
    else
      '(_, m) ← get;
      match prdState m (m_PRDID mem) with
      | Some (name, st) =>
          when (String.eqb st PRDApproved)
            (reconcileAudit a mem "retry branch start" st ;;
             launch torn advance (a_ID a) (mkStart (m_ID mem) MemberKindPRD (m_PRDID mem) "" name false true))
      | None => skip
      end ;;
      endStart (m_PRDID mem).

Definition reconcileNested (a : Automation) (mem : AutomationMember) : M unit :=
  if negb (String.eqb (a_Status a) AutomationActive && String.eqb (m_Status mem) MemberRunning) then skip
  else
    child ← find_automation (m_AutomationID mem);
    match child with
    | None => skip
    | Some child =>
        if negb (String.eqb (a_Status child) AutomationDraft) then skip
        else
          let key := "automation/" +:+ a_ID child in
          claimed ← claimStart key;
          if negb claimed then skip
          else
            let name := if String.eqb (a_Name child) "" then a_ID child else a_Name child in
            reconcileAudit a mem "retry nested activation" (a_Status child) ;;
            launch torn advance (a_ID a) (mkStart (m_ID mem) MemberKindAutomation "" (a_ID child) name false
                                            (bool_decide (joinOf a (m_ID mem) ≠ None))) ;;
            endStart key
    end.

(** A budget block made outside a step. *)
Definition budgetBlockedAlert (a : Automation) (eff : budgetEffect) (memID : string) : M unit :=
  afterBudget a (Some eff) ;;
  when (String.eqb (be_action eff) BudgetActionBlocked && be_changed eff)
    (emitTerminal a ;; blocked a (be_reason eff) {["to" := AStr memID]}).

Definition retryPendingStart (a : Automation) (i : nat) : M unit :=
  let mem := mem_at a i in
  let memID := m_ID mem in
  let prdID := m_PRDID mem in
  '(w, m) ← get;
  let name := match prdState m prdID with Some (n, _) => n | None => "" end in
  let '(mode, status) := startGate m prdID in
  let reason := if String.eqb mode "" then "next member " +:+ name +:+ " is " +:+ status else "" in
  let verdict := if String.eqb reason "" then budgetVerdictFor w a (Some i) else zero_verdict in
  if bv_Gate verdict && budgetNoChange a verdict then skip
  else
    let on := String.eqb reason "" && negb (bv_Gate verdict) in
    beginStart prdID on ;;
    interfere ;;
    r ← lift (λ w, update torn w (a_ID a) (a_Version a) (retry_change (wall w) memID name reason verdict));
    match r with
    | Err _ => skip
    | Ok (Some eff, a) => budgetBlockedAlert a eff memID
    | Ok (None, a) =>
        if nonempty reason then
          reconcileAudit a mem reason status ;; blocked a reason {["to" := AStr memID]}
        else
          reconcileAudit a mem "retry pending start" status ;;
          startMember torn (a_ID a) memID prdID name (String.eqb mode "resume")
    end ;;
    releaseStart prdID on.

(** [startPending] *)
Definition startPending (a : Automation) (i : nat) : M unit :=
  if negb (String.eqb (a_Status a) AutomationActive) then skip
  else
    let mem := mem_at a i in
    if is_kind MemberKindPRD mem then retryPendingStart a i
    else if is_kind MemberKindAutomation mem || is_kind MemberKindFork mem then
      advance (a_ID a) (mkInput (m_ID mem) (mkEnd "" "" "" false "" false "" None) false true zero_time false false "")
    else skip.

Definition reconcileCursor (a : Automation) (i : nat) : M unit :=
  let mem := mem_at a i in
  if (is_kind MemberKindAutomation mem || is_kind MemberKindFork mem) && memberUnstarted mem then startPending a i
  else if is_kind MemberKindAutomation mem then reconcileNested a mem
  else
    '(_, m) ← get;
    if isStarting m (m_PRDID mem) then skip
    else match prdState m (m_PRDID mem) with
         | None => skip
         | Some (_, status) =>
             if String.eqb (m_Status mem) MemberRunning && String.eqb status PRDApproved && bool_decide (joinOf a (m_ID mem) ≠ None) then
               retryBranchStart a mem
             else if String.eqb (m_Status mem) MemberRunning then
               if one_of status [PRDCompleted; PRDBlocked; PRDFailed; PRDCancelled; PRDArchived; PRDRejected] then
                 reconcileAudit a mem "route terminal member" status ;; onMemberTerminal (m_PRDID mem) status
               else if String.eqb status PRDApproved then
                 match m_StartedAt mem with
                 | None => skip
                 | Some _ => reconcileAudit a mem "member run errored" status ;; onMemberTerminal (m_PRDID mem) status
                 end
               else skip
             else if memberUnstarted mem then when (String.eqb (a_Status a) AutomationActive) (retryPendingStart a i)
             else skip
         end.

(** A waiting join looked at again. *)
Definition reevaluate (joinID : string) : stepInput :=
  mkInput joinID (mkEnd "" "" "" false "" false "" None) true false zero_time false false "".

Definition reconcileJoins (autoID : string) : M unit :=
  a ← find_automation autoID;
  match a with
  | None => skip
  | Some a => each (λ mem, when (is_kind MemberKindJoin mem && String.eqb (m_Status mem) MemberRunning)
                             (advance autoID (reevaluate (m_ID mem)))) (a_Members a)
  end.

Definition reconcileOne (a : Automation) : M unit :=
  each (λ id, cur ← find_automation (a_ID a);
              match cur with
              | None => skip
              | Some cur =>
                  if negb (in_progress cur && isLiveCursor cur id) then skip
                  else match automationMember cur id with Some i => reconcileCursor cur i | None => skip end
              end) (liveCursorIDs a) ;;
  reconcileJoins (a_ID a).

Definition reconcile : M unit :=
  markReady ;;
  l ← list_automations;
  each (λ a, when (in_progress a) (reconcileOne a)) l.

(** ** Activation *)

Definition not_running : error := Errorf "automation coordinator is not running" [].

Definition activate_attempt (id actor : string) (v : Z) : M (option (res Automation)) :=
  '(w, m) ← get;
  match Get (mg_store m) id with
  | None => mret (Some (Err (not_found id)))
  | Some a =>
      if (0 <? v) && negb (a_Version a =? v) then mret (Some (Err (version_mismatch (a_Version a))))
      else if negb (String.eqb (a_Status a) AutomationDraft) then
        mret (Some (Err (Errorf "409: automation %s is %s, only a draft can be activated" [AStr id; AStr (a_Status a)])))
      else match automationMember a (a_EntryMemberID a) with
           | None => mret (Some (Err (Errorf "automation %s has no entry member" [AStr id])))
           | Some i =>
               let snap := snapshotMembers w m a in
               match enter snap (wall w) "" (enter_fuel a) i (mkStepper a (no_effects {["automation_id" := AStr (a_ID a)]}) "" false) with
               | None => out_of_time
               | Some st =>
                   let dry := st_eff (finalize (wall w) st) in
                   beginStarts (ef_starts dry) ;;
                   interfere ;;
                   r ← lift (λ w, update torn w (a_ID a) (a_Version a) (λ cur,
                         finished ((λ '(a, eff), Ok (eff, a)) <$> activate_change (wall w) snap actor cur)));
                   match r with
                   | Err e =>
                       releaseAll (ef_starts dry) ;;
                       mret (if is_409 e && negb (Contains (e_format e) "only a draft") then None else Some (Err e))
                   | Ok (eff, a) =>
                       let entry := mem_at a i in
                       let entryName := if nonempty (mi_name (info_of snap (m_ID entry))) then mi_name (info_of snap (m_ID entry)) else m_ID entry in
                       audit_ "automation_activate" [("automation_id", AStr (a_ID a)); ("actor", AStr actor); ("entry", AStr (m_ID entry));
                         ("reason", AStr (ef_blocked eff))] ;;
                       when (nonempty (m_PRDID entry))
                         (memberDecision (m_PRDID entry) ("automation " +:+ a_ID a +:+ " activated; entry member " +:+ entryName)) ;;
                       afterAdvance torn advance a eff ;;
                       releaseAll (ef_starts dry) ;;
                       final ← find_automation (a_ID a);
                       mret (Some (Ok (default a final)))
                   end
               end
           end
  end.

Definition activate (id actor : string) (v : Z) : M (res Automation) :=
  r ← retry coordinatorCASRetries (activate_attempt id actor v);
  mret (default (Err (Errorf "409: automation %s changed concurrently" [AStr id])) r).

Definition ActivateAutomation (id actor : string) (v : Z) : M (res Automation) :=
  '(_, m) ← get;
  if negb (mg_coordinator m) then mret (Err not_running) else activate id (actor_or actor) v.

(** ** Resume *)

(** The first cursor member waiting for a start that a dollar ceiling refuses;
    the Automation's own policy if none is waiting. *)
Definition refusing (v : BudgetVerdict) : bool := bv_Gate v && String.eqb (bv_Kind v) BudgetKindCeiling.
Definition budgetRefusal (w : W) (a : Automation) : option BudgetVerdict :=
  let waiting := List.filter (λ i, memberUnstarted (mem_at a i)) (omap (automationMember a) (liveCursorIDs a)) in
  match waiting with
  | [] => let v := budgetVerdictFor w a None in if refusing v then Some v else None
  | _ => find refusing (map (λ i, budgetVerdictFor w a (Some i)) waiting)
  end.

(** [budgetRefusedError] is told apart from the other errors. *)
Inductive resume_result := Resumed (a : Automation) | Refused (v : BudgetVerdict) | NotResumed (e : error).

Definition budgetResumed (a : Automation) (ep : BudgetState) (actor : string) : M unit :=
  let reason := "budget " +:+ bs_Action ep +:+ " lifted by " +:+ actor in
  audit_ "automation_budget_resumed" (budgetAuditDetails a (Some ep) (bs_Action ep) actor reason) ;;
  when (String.eqb actor budgetActor)
    (emit (OAlert "info" "Automation resumed: budget available"
      (named_automation a +:+ " resumed by itself: the budget window reset and the " +:+ bs_Window ep +:+ " ceiling no longer stops it."))).

Definition ResumeAutomation (id actor : string) (v : Z) : M resume_result :=
  let actor := actor_or actor in
  '(w, m) ← get;
  match Get (mg_store m) id with
  | None => mret (NotResumed (not_found id))
  | Some pre =>
      match loadForControl m id v (resumableStatuses pre) with
      | Err e => mret (NotResumed e)
      | Ok _ =>
          match (if budgetEpisodeOpen pre then budgetRefusal w pre else None) with
          | Some v => mret (Refused v)
          | None =>
              interfere ;;
              r ← lift (λ w, update torn w id v (λ a, pair (open_episode a) <$> resume_change (wall w) actor a));
              match r with
              | Err e => mret (NotResumed e)
              | Ok (episode, a) =>
                  audit_ controlResume [("automation_id", AStr id); ("actor", AStr actor); ("version", AInt (a_Version a))] ;;
                  match episode with Some ep => budgetResumed a ep actor | None => skip end ;;
                  if mg_coordinator m then
                    reconcileOne a ;;
                    final ← find_automation id;
                    mret (Resumed (default a final))
                  else mret (Resumed a)
              end
          end
      end
  end.

(** ** The passes of the ticker *)

Definition blockStillOver (autoID : string) (v : BudgetVerdict) : M unit :=
  r ← lift (λ w, update torn w autoID 0 (still_over_change (wall w) v));
  match r with
  | Err _ => skip
  | Ok (eff, a) => budgetBlockedAlert a eff (match liveCursorIDs a with id :: _ => id | [] => "" end)
  end.

Definition autoResume (a : Automation) : M unit :=
  r ← ResumeAutomation (a_ID a) budgetActor (a_Version a);
  match r with Refused v => blockStillOver (a_ID a) v | _ => skip end.

(** The loop of [startPendingCursors] returns when the Automation stops being
    active. *)
Fixpoint startPendingCursors (autoID : string) (ids : list string) : M unit :=
  match ids with
  | [] => skip
  | id :: ids =>
      cur ← find_automation autoID;
      match cur with
      | None => skip
      | Some cur =>
          if negb (String.eqb (a_Status cur) AutomationActive) then skip
          else
            match automationMember cur id with
            | Some i => when (memberUnstarted (mem_at cur i)) (startPending cur i)
            | None => skip
            end ;;
            startPendingCursors autoID ids
      end
  end.

Definition checkBudget : M unit :=
  now ← now_;
  l ← list_automations;
  each (λ a, match a_BudgetState a with
             | None => skip
             | Some st =>
                 if String.eqb (a_Status a) AutomationPaused && String.eqb (bs_Action st) BudgetActionPaused then
                   match bs_ResumeAt st with
                   | Some t => when (bs_ResetKnown st && negb (Before now t)) (autoResume a)
                   | None => skip
                   end
                 else when (String.eqb (a_Status a) AutomationActive && String.eqb (bs_Action st) BudgetActionHeld)
                        (startPendingCursors (a_ID a) (liveCursorIDs a))
             end) l.

(** One Automation of [checkIdle]: the episodes alerted, and the alerts to raise. *)
Definition idle_one (threshold : Duration) (now : Time) (acc : gmap string Time * list (string * string)) (a : Automation)
    : gmap string Time * list (string * string) :=
  let '(alerted, due) := acc in
  match a_IdleSince a with
  | Some since =>
      if negb (String.eqb (a_Status a) AutomationActive) then acc
      else if bool_decide (alerted !! a_ID a = Some since) then acc
      else
        let alerted := delete (a_ID a) alerted in
        if (threshold <=? 0) || (Sub now since <? threshold) then (alerted, due)
        else (<[a_ID a := since]> alerted,
              due ++ [("Automation " +:+ a_Name a +:+ " idle",
                       "Automation " +:+ a_Name a +:+ " (" +:+ a_ID a +:+ ") has been idle for " +:+ fmt_d (Sub now since ÷ Minute)
                       +:+ " minutes with no member running.")])
  | None => acc
  end.

Definition idling (a : Automation) : bool := String.eqb (a_Status a) AutomationActive && bool_decide (is_Some (a_IdleSince a)).

Definition checkIdle : M unit :=
  now ← now_;
  l ← list_automations;
  '(w, m) ← get;
  let threshold := wrap64 (wrap64 (IdleAlertMinutes (Config w)) * Minute) in
  let '(alerted, due) := foldl (idle_one threshold now) (mg_alerted m, []) l in
  let seen : gset string := list_to_set (a_ID <$> List.filter idling l) in
  modify (set_alerted (filter (λ '(id, _), id ∈ seen) alerted)) ;;
  each (λ '(title, body), emit (OAlert "warn" title body)) due.

(** ** Cancel and skip *)

Definition prdFinished (m : Manager) (prdID : string) : bool :=
  match mg_prds m !! prdID with
  | None => true
  | Some prd => bool_decide (is_Some (prdEnd (prd_Status prd)))
  end.

Definition cannot_cancel : error :=
  Errorf "409: automation coordinator cannot end member sessions; cancel with cancel_in_flight=false or start the coordinator" [].

Definition canceller (m : Manager) : option (W → gmap string PRD → string → W * gmap string PRD * option string) :=
  if mg_coordinator m then memberCanceller else None.

(** The sessions of the members that were in flight, with what failed. *)
Fixpoint end_sessions (ids : list string) (failures : list any) : M (list any) :=
  match ids with
  | [] => mret failures
  | prdID :: ids =>
      '(_, m) ← get;
      if prdFinished m prdID then end_sessions ids failures
      else match canceller m with
           | None => end_sessions ids (failures ++ [AErr "member prd %s: no session canceller" [AStr prdID]])
           | Some cancel =>
               emit (OCancel prdID) ;;
               e ← on_prds (λ w p, cancel w p prdID);
               end_sessions ids (match e with
                                 | None => failures
                                 | Some t => failures ++ [AErr "member prd %s: %v" [AStr prdID; AStr t]]
                                 end)
           end
  end.

Section children.
Context (cancel : string → Z → M (option Automation * option error)).

Fixpoint cancel_children (ids : list string) (failures : list any) : M (list any) :=
  match ids with
  | [] => mret failures
  | childID :: ids =>
      child ← find_automation childID;
      match child with
      | Some c =>
          if one_of (a_Status c) [AutomationDraft; AutomationCompleted; AutomationCancelled] then cancel_children ids failures
          else
            r ← cancel childID (a_Version c);
            cancel_children ids (match r.2 with
                                 | None => failures
                                 | Some e => failures ++ [AErr "nested automation %s: %v" [AStr childID; wrapped e]]
                                 end)
      | None => cancel_children ids failures
      end
  end.
End children.

(** The answer is the record, once it is cancelled, and what went wrong. Fuel:
    one more than the number of Automations, as each call cancels one. *)
Fixpoint cancelAutomation (fuel : nat) (id actor : string) (req : cancelRequest) (v : Z) : M (option Automation * option error) :=
  match fuel with
  | O => out_of_time
  | S f =>
      let actor := actor_or actor in
      '(_, m) ← get;
      match cancel_validate req ;; loadForControl m id v [AutomationActive; AutomationPaused; AutomationBlocked] with
      | Err e => mret (None, Some e)
      | Ok a =>
          if CancelInFlight req && bool_decide (canceller m = None) && existsb (is_kind MemberKindPRD) (inFlightMembers a)
          then mret (None, Some cannot_cancel)
          else
            interfere ;;
            r ← lift (λ w, update torn w id v (cancel_change (wall w) actor (CancelInFlight req)));
            match r with
            | Err e => mret (None, Some e)
            | Ok (c, a) =>
                r ← lift (λ w, syncAutomationMembership w id (a_Members a) [] true);
                let failures := match r with Ok _ => [] | Err e => [AErr "release membership: %v" [wrapped e]] end in
                failures ← end_sessions (cn_PRDs c) failures;
                failures ← cancel_children (λ child v, cancelAutomation f child actor (mkCancel true true) v) (cn_children c) failures;
                emit (OEvent id AutomationCancelled) ;;
                audit_ controlCancel ([("automation_id", AStr id); ("actor", AStr actor); ("cancel_in_flight", ABool (CancelInFlight req));
                  ("in_flight", AList (cn_inFlight c)); ("version", AInt (a_Version a))]
                  ++ (if bool_decide (failures = []) then [] else [("errors", ASlice failures)])) ;;
                mret (Some a, if bool_decide (failures = []) then None
                              else Some (Errorf "automation %s is cancelled but ending in-flight members failed: %s" [AStr id; ASlice failures]))
            end
      end
  end.

Definition CancelAutomation (id actor : string) (cancelInFlight hasChoice : bool) (v : Z) : M (option Automation * option error) :=
  '(_, m) ← get;
  cancelAutomation (S (size (automations (mg_store m)))) id actor (mkCancel hasChoice cancelInFlight) v.

Definition skip_edge (edge : string) : string := if String.eqb edge "" then edgeOnComplete else edge.

Definition SkipMember (id memberID edge actor : string) (v : Z) : M (res Automation) :=
  let actor := actor_or actor in
  let edge := skip_edge edge in
  '(w, m) ← get;
  match fail_if (negb (one_of edge [edgeOnComplete; edgeOnBlocked; edgeOnFailed]))
          (Errorf "skip edge %q is not valid; use %s, %s or %s" [AStr edge; AStr edgeOnComplete; AStr edgeOnBlocked; AStr edgeOnFailed]) ;;
        a ← loadForControl m id v [AutomationActive; AutomationPaused];
        target ← resolveBranch a memberID;
        fail_if (negb (mg_coordinator m)) not_running ;;
        Ok (a, target) with
  | Err e => mret (Err e)
  | Ok (a, target) =>
      let snap := snapshotMembers w m a in
      match step (wall w) a (skip_input target edge) snap with
      | None => out_of_time
      | Some (Err _) => mret (Err (skip_gone target id))
      | Some (Ok (_, dry)) =>
          beginStarts (ef_starts dry) ;;
          interfere ;;
          r ← lift (λ w, update torn w id v (λ cur, finished (skip_change (wall w) snap id target edge actor cur)));
          match r with
          | Err e => releaseAll (ef_starts dry) ;; mret (Err e)
          | Ok (eff, a) =>
              afterAdvance torn advance a eff ;;
              releaseAll (ef_starts dry) ;;
              audit_ controlSkipMember [("automation_id", AStr id); ("actor", AStr actor); ("member", AStr target); ("edge", AStr edge);
                ("version", AInt (a_Version a))] ;;
              mret (Ok a)
          end
      end
  end.
End coordinator.
