(* ===== verification/AutomationLife.v ===== *)
(** * Automations: a whole life

    From the activation of a draft through every change the coordinator and an
    operator make to a running record: ends of members and skips, pauses and
    resumes, starts tried again after a restart or a budget hold, budgets still
    over at the resume time, starts that fail. Each change is stored by the store,
    which trims, normalizes and stamps it. Since the store applies a change to the
    very record it holds, a life is also what concurrent calls make of a record,
    one write after the other.

    Not part of a life: edits of the graph while it runs (insert, remove, rewire),
    the return to draft, cancellation, the reopening of a cancelled member; the
    relaunches of the reconciler ([retryBranchStart], [reconcileNested]), which ask
    again for a member that has started, so that counting them a member is started
    twice; and the report of a failed start when the record is not under way or the
    member no longer runs, which the code applies all the same
    (automation_coordinator.go, startFailed). A life starts at a draft whose branches
    are reached only through their forks, which the code does not check. *)

From S2P Require Import Prelude GoBase GoText Graph AutomationSettings.
From S2P Require Import Automation AutomationGraph AutomationValidate AutomationWf.
From S2P Require Import AutomationAccept AutomationStep AutomationFrame.
From S2P Require Import AutomationEnds AutomationFrontier AutomationMoves AutomationRun.
From S2P Require Import AutomationControl.

#[local] Open Scope Z_scope.

(** Stopped for good: only an edit, a return to draft or a reopening helps. *)
Definition dead (a : Automation) : Prop := stopped a ∧ budgetEpisodeOpen a = false.

(** Active or paused. *)
Definition under_way (a : Automation) : Prop := ¬ stopped a.

(** One change of a record, with the members it has started. *)
Inductive turn (a : Automation) : list string → Automation → Prop :=
| turn_step wall i snap b eff :
    under_way a → ends_member i → step wall a i snap = Some (Ok (b, eff)) → turn a (ms_memberID <$> ef_starts eff) b
| turn_skip wall snap target edge actor b eff :
    skip_change wall snap (a_ID a) target edge actor a = Some (Ok (eff, b)) → turn a (ms_memberID <$> ef_starts eff) b
| turn_pause now actor b : pause_change now actor a = Ok b → turn a [] b
| turn_resume now actor b : resume_change now actor a = Ok b → turn a [] b
| turn_retry now id i name reason v eff b :
    automationMember a id = Some i → is_kind MemberKindPRD (mem_at a i) = true →
    retry_change now id name reason v a = Ok (eff, b) →
    turn a (if String.eqb reason "" && negb (bv_Gate v) then [id] else []) b
| turn_still_over now v eff b : still_over_change now v a = Ok (eff, b) → turn a [] b
| turn_start_failed now id i reason :
    under_way a → automationMember a id = Some i → m_Status (mem_at a i) = MemberRunning →
    joinOf a id = None → is_kind MemberKindJoin (mem_at a i) = false → turn a [] (start_failed_change now id reason a).

(** ** Records of one shape *)

Lemma nodup_only {A} (l : list A) c : NoDup l → (∀ x, x ∈ l ↔ x = c) → l = [c].
Proof.
  intros Hn Hc. assert (c ∈ l) as Hin by (by apply Hc). destruct l as [|x [|y l]]; [by apply elem_of_nil in Hin|..].
  - by apply list_elem_of_singleton in Hin as ->.
  - assert (x = c) as -> by (apply Hc; left). assert (y = c) as -> by (apply Hc; right; left).
    apply NoDup_cons in Hn as [[]_]. left.
Qed.

Section rebase.
Context {g h a b : Automation}.
Hypothesis base : shape g = shape h.
Hypothesis same_status : ∀ x, status b x = status a x.

Lemma kind_rebase x : kind_of (g := h) x = kind_of (g := g) x.
Proof.
  unfold kind_of. rewrite <- (shape_automationMember base x). destruct (automationMember g x) as [i|] eqn:E; [|done].
  unfold mem_at. destruct (a_Members h !! i) as [m|] eqn:Em.
  - destruct (shape_lookup g h i m base Em) as (n&->&He). cbn. by rewrite (static_kind _ _ He).
  - assert (a_Members g !! i = None) as ->; [|done]. apply lookup_ge_None. rewrite (shape_length base). by apply lookup_ge_None.
Qed.

Lemma branches_rebase x : branches_of (g := h) x = branches_of (g := g) x.
Proof.
  unfold branches_of. rewrite <- (shape_automationMember base x). destruct (automationMember g x) as [i|]; [|done].
  unfold mem_at. destruct (a_Members h !! i) as [m|] eqn:Em.
  - destruct (shape_lookup g h i m base Em) as (n&->&He). cbn. exact (f_equal m_JoinMembers (eq_sym He)).
  - assert (a_Members g !! i = None) as ->; [|done]. apply lookup_ge_None. rewrite (shape_length base). by apply lookup_ge_None.
Qed.

Lemma before_rebase x y : before (g := g) x y → before (g := h) x y.
Proof. apply rtc_congruence with (f := λ z, z). intros u v. by apply shape_edge_iff. Qed.

Lemma main_rebase c : main_at (g := g) a c → cursors b = [c] → main_at (g := h) b c.
Proof.
  intros [_ H2 H3 H4 H5 H6] Hc. split; [done|by rewrite kind_rebase|by rewrite <- (shape_joinOf base)|by rewrite same_status, kind_rebase|..].
  - intros x. rewrite same_status. apply H5.
  - intros x. rewrite same_status. intros Hx. by apply before_rebase, H6.
Qed.

Lemma waits_rebase j : waits_at (g := g) a j → (∀ x, x ∈ cursors b ↔ x ∈ cursors a) → NoDup (cursors b) → waits_at (g := h) b j.
Proof.
  intros [H1 H2 H3 H4 _ H6 H7 H8] Hc Hn. split; rewrite ?kind_rebase, ?branches_rebase; [done|by rewrite same_status|by rewrite <- (shape_linear base)|..].
  - intros x. by rewrite Hc, same_status.
  - done.
  - intros x. rewrite same_status. apply H6.
  - intros x. rewrite same_status. apply H7.
  - intros x. rewrite same_status. intros Hx. by apply before_rebase, H8.
Qed.

Lemma settled_rebase : a_Status b = a_Status a → a_BudgetState b = a_BudgetState a →
  (∀ x, x ∈ cursors b ↔ x ∈ cursors a) → NoDup (cursors b) → settled (g := g) a → settled (g := h) b.
Proof.
  intros Hs Hb Hc Hn. unfold settled, unfinished, stopped, unblocked. rewrite Hs, Hb. intros [[[[c Hm]|(j&Hw&Hne)] Hu]|[[Hq1 Hq2] Ht]].
  - left. split; [|done]. left. exists c. apply main_rebase; [done|]. apply nodup_only; [done|]. intros x.
    by rewrite Hc, (ma_cursor _ _ Hm), list_elem_of_singleton.
  - left. split; [|done]. right. exists j. split; [by apply waits_rebase|]. intros He. apply Hne. rewrite He in Hc.
    destruct (cursors a) as [|x l]; [done|]. by assert (x ∈ []) as ?%elem_of_nil by (apply Hc; left).
  - right. split; [|done]. split; [|intros x; by rewrite same_status]. rewrite <- (shape_linear base). intros Hl.
    specialize (Hq1 Hl). rewrite Hq1 in Hc. destruct (cursors b) as [|x l]; [done|]. by assert (x ∈ []) as ?%elem_of_nil by (apply Hc; left).
Qed.
End rebase.

Lemma settled_nodup g a : settled (g := g) a → automationIsLinear a = automationIsLinear g → NoDup (cursors a).
Proof.
  intros [[[[c Hm]|(j&Hw&_)] _]|[[Hq _] _]] Hl.
  - rewrite (ma_cursor _ _ Hm). apply NoDup_singleton.
  - by apply Hw.
  - unfold cursors in *. rewrite Hl in *. destruct (automationIsLinear g); [destruct (nonempty _); [apply NoDup_singleton|constructor]|].
    rewrite (Hq eq_refl). constructor.
Qed.

(** ** What the store makes of a change *)

Section life.
Context {zones : TimeZones} {order : MapRange}.

(** [y] as it is kept: checked, trimmed, normalized and stamped. *)
Definition stored (y b : Automation) : Prop :=
  ∃ t v z, validateAutomation (normalizeActiveCursors (normalizeMemberStages y)) = Ok z
    ∧ b = set_a_UpdatedAt t (set_a_Version v z).

(** Only fields no status is read from differ. *)
Definition same_member (m n : AutomationMember) : Prop := m_ID n = m_ID m ∧ m_Status n = m_Status m.

Lemma same_status a b x : shape a = shape b → Forall2 same_member (a_Members a) (a_Members b) → status b x = status a x.
Proof.
  intros Hs Hm. unfold status. rewrite (shape_automationMember Hs x). destruct (automationMember b x) as [i|]; [|done].
  unfold mem_at. destruct (a_Members a !! i) as [m|] eqn:Em.
  - destruct (Forall2_lookup_l _ _ _ _ _ Hm Em) as (n&->&_&He). done.
  - assert (a_Members b !! i = None) as ->; [|done]. apply lookup_ge_None. rewrite <- (shape_length Hs). by apply lookup_ge_None.
Qed.

Record stored_as (y b : Automation) : Prop := {
  sd_wf : wf b;
  sd_shape : shape y = shape b;
  sd_status x : status b x = status y x;
  sd_kept : a_Status b = a_Status y;
  sd_budget : a_BudgetState b = a_BudgetState y;
  sd_cursors x : x ∈ cursors b ↔ x ∈ cursors y;
  sd_nodup : NoDup (cursors b)
}.

Lemma settings_same ms ns : Forall2 settings_ok ms ns → Forall2 same_member ms ns.
Proof. intros H. eapply Forall2_impl; [exact H|]. by intros m n (p&_&_&->). Qed.

Lemma staged_same ms : Forall2 same_member ms ((λ m, set_m_Stage (TrimSpace (m_Stage m)) m) <$> ms).
Proof. apply Forall2_fmap_r, Forall_Forall2_diag, Forall_forall. done. Qed.

Lemma stored_spec y b : stored y b → stored_as y b.
Proof.
  intros (t&v&z&(Hwf&Ht)%validate_wf&->). set (n := normalizeActiveCursors (normalizeMemberStages y)) in *.
  assert (shape y = shape n) as Hn.
  { unfold n, normalizeActiveCursors, shape. destruct (automationIsLinear _); cbn; by rewrite <- list_fmap_compose. }
  pose proof (trimmed_wf _ _ Hwf Ht) as Hz. pose proof (trimmed_shape _ _ Ht) as Hs.
  assert (automationIsLinear z = automationIsLinear n) as Hl by (by apply shape_linear).
  assert (a_Members n = (λ m, set_m_Stage (TrimSpace (m_Stage m)) m) <$> a_Members y ∧ a_Status n = a_Status y
    ∧ a_BudgetState n = a_BudgetState y ∧ a_CurrentMemberID n = a_CurrentMemberID y
    ∧ a_ActiveCursors n = if automationIsLinear n then (if nonempty (a_CurrentMemberID y) then [a_CurrentMemberID y] else [])
                          else sortedUniqueStrings (a_ActiveCursors y)) as (Hm&Hst&Hb&Hc&Ha).
  { unfold n, normalizeActiveCursors. change (automationIsLinear (normalizeMemberStages y)) with (automationIsLinear (normalizeMemberStages y)).
    assert (∀ c, automationIsLinear (set_a_ActiveCursors c (normalizeMemberStages y)) = automationIsLinear (normalizeMemberStages y)) as Hlin by done.
    destruct (automationIsLinear (normalizeMemberStages y)) eqn:E; rewrite Hlin; done. }
  destruct Ht as (ms&p&Hms&_&->).
  assert (∀ x, x ∈ cursors (set_a_BudgetPolicy p (set_a_Members ms n)) ↔ x ∈ cursors y) as Hcur.
  { intros x. unfold cursors. rewrite Hl. cbn [a_CurrentMemberID a_ActiveCursors set_a_BudgetPolicy set_a_Members].
    rewrite Hc, Ha, (shape_linear Hn). destruct (automationIsLinear n); [done|]. apply elem_of_sortedUnique. }
  split; try done.
  - by apply stamped_wf.
  - cbn. rewrite Hn, <- Hs. done.
  - intros x. apply same_status; [cbn; rewrite Hn, <- Hs; done|]. cbn.
    apply (Forall2_trans same_member same_member same_member _ (a_Members n)); [|rewrite Hm; apply staged_same|by apply settings_same].
    intros m1 m2 m3 [E1 E2] [E3 E4]. split; congruence.
  - unfold cursors. change (NoDup (if automationIsLinear (set_a_BudgetPolicy p (set_a_Members ms n)) then
      (if nonempty (a_CurrentMemberID n) then [a_CurrentMemberID n] else []) else a_ActiveCursors n)).
    rewrite Hl. destruct (automationIsLinear n); [destruct (nonempty (a_CurrentMemberID n)); [apply NoDup_singleton|constructor]|].
    rewrite Ha. apply NoDup_sortedUnique.
Qed.
End life.

(** ** One change *)

Lemma wf_tc `{!TimeZones, !MapRange} b x : wf b → a_Status b ≠ AutomationDraft → ¬ tc (member_edge b) x x.
Proof.
  intros Hwf Hd Hx. destruct (wf_ordered b Hwf Hd) as (fin&Ht&Hall&_).
  assert (∃ y, member_edge b x y) as [y He] by (inversion Hx; eauto).
  apply (topo_acyclic _ fin Ht x); [|done].
  destruct He as [m Hm <- _|m Hm <- _ _|m j Hm <- _ _ _ _]; by apply Hall.
Qed.

(** What a change does to the line of work and to what was started. *)
Record turned (a : Automation) (T : list string) (b : Automation) : Prop := {
  td_frozen : frozen b = frozen a;
  td_settled : settled (g := a) b;
  td_mono : mono a b ∨ dead b;
  td_nodup : NoDup T;
  td_fresh x : x ∈ T → unstarted (status a x) ∧ status b x = MemberRunning
}.

Section turn.
Context {a : Automation} (W : wf_graph a).
Hypothesis acyclic : ∀ x, ¬ tc (member_edge a) x x.
Hypothesis guarded : branches_reached_by_forks a.
Hypothesis line : settled (g := a) a.

Lemma turned_step wall i snap b eff :
  under_way a → ends_member i → step wall a i snap = Some (Ok (b, eff)) → turned a (ms_memberID <$> ef_starts eff) b.
Proof.
  intros Hu Hi Hs. destruct (step_moves W acyclic guarded line wall i snap Hu Hi b eff Hs) as [Hf Hset Hm (new&Hn&Hnd&Hx)].
  cbn in *. subst new. split; [done| |by left|done|].
  - apply Hset. split; [|by apply (settled_ongoing line)]. intros Hc. apply Hu. split; by rewrite Hc.
  - intros x [? [? _]]%Hx. done.
Qed.

(** Nothing but the status, the episode and the notes of the record changes. *)
Lemma turned_same b : alike a b →
  (unfinished a → stopped a ∨ unblocked a → unfinished b ∧ (stopped b ∨ unblocked b)) → ¬ (stopped a ∧ unblocked a) ∨ (stopped b ∧ unblocked b) →
  turned a [] b.
Proof.
  intros Hal Hu Hq. pose proof (al_frozen _ _ Hal) as Hf. split; [done| |left|constructor|by intros x ?%elem_of_nil].
  - destruct line as [[[[c Hm]|(j&Hw&Hne)] [Hun Hb]]|[Hqu Hs]].
    + left. split; [left; exists c; by eapply main_alike|by apply Hu].
    + left. split; [right; exists j; split; [by eapply waits_alike|by rewrite <- (al_cursors _ _ Hal)]|by apply Hu].
    + right. split; [by eapply quiet_alike|]. destruct Hq as [Hq|Hq]; [by destruct Hq|done].
  - intros x. by rewrite <- (al_status _ _ Hal).
Qed.

Lemma under_way_not_quiet : under_way a → ¬ (stopped a ∧ unblocked a).
Proof. intros Hu [Hs _]. done. Qed.

Lemma under_way_status st : a_Status a = st → one_of st [AutomationActive; AutomationPaused] = true → under_way a.
Proof. intros <- [H|[H|H%elem_of_nil]%elem_of_cons]%one_of_true%elem_of_cons [??]; done. Qed.

(** A change followed by one that no one looks at. *)
Lemma turned_after T b c : turned a T b →
  frozen c = frozen b → (∀ x, status c x = status b x) → cursors c = cursors b → a_Status c = a_Status b →
  a_BudgetState c = a_BudgetState b → turned a T c.
Proof.
  intros [Hf Hset Hm Hnd Hx] Hfc Hs Hc Hst Hb. split; [congruence| | |done|].
  - refine (settled_rebase (g := a) (h := a) (a := b) eq_refl Hs Hst Hb _ _ Hset); [by intros x; rewrite Hc|].
    rewrite Hc. apply (settled_nodup a b Hset). apply shape_linear, frozen_shape, Hf.
  - destruct Hm as [Hm|[[H1 H2] Ho]]; [left|right].
    + intros x. rewrite Hs. apply Hm.
    + split; [split; by rewrite Hst|]. unfold budgetEpisodeOpen in *. by rewrite Hst, Hb.
  - intros x. rewrite Hs. apply Hx.
Qed.

Lemma turned_skip wall snap target edge actor b eff :
  skip_change wall snap (a_ID a) target edge actor a = Some (Ok (eff, b)) → turned a (ms_memberID <$> ef_starts eff) b.
Proof.
  unfold skip_change, checkControlStatus. destruct (one_of (a_Status a) _) eqn:Ho; [|by destruct (String.eqb _ _)].
  destruct (step wall a _ snap) as [[[c e]|]|] eqn:Hs; [|done..]. cbn. intros [= -> <-].
  assert (ends_member (skip_input target edge)) as Hi by (split; [by intros [|]|done]).
  pose proof (turned_step wall _ snap c eff (under_way_status _ eq_refl Ho) Hi Hs) as Ht. pose proof (td_frozen _ _ _ Ht) as Hf.
  apply (turned_after _ c); [done|..].
  all: destruct (automationMember c target) as [k|] eqn:Ek; [|done].
  all: assert (automationMember a target = Some k) as Hk by (by rewrite <- (shape_automationMember (frozen_shape Hf))).
  - by rewrite <- (frozen_upd k (set_m_EdgeTaken edge) c).
  - intros x. change (status (upd k (set_m_EdgeTaken edge) c) x = status c x).
    rewrite (status_upd W c k target _ x Hf Hk) by done. destruct (decide (x = target)) as [->|]; [|done].
    by rewrite (status_look c k target Hf Hk).
  - by apply (cursors_upd (g := a)).
  - done.
  - done.
Qed.

Lemma turned_pause now actor b : pause_change now actor a = Ok b → turned a [] b.
Proof.
  unfold pause_change, checkControlStatus. destruct (one_of (a_Status a) [AutomationActive]) eqn:Ho; [|by destruct (String.eqb _ _)].
  intros [= <-]. assert (under_way a) as Hu.
  { apply one_of_true, list_elem_of_singleton in Ho. intros [? _]. done. }
  apply turned_same; [by apply alike_fields| |left; by apply under_way_not_quiet].
  intros _ [Hs|Hb]; [by destruct Hu|]. split; [done|by right].
Qed.

Lemma turned_resume now actor b : resume_change now actor a = Ok b → turned a [] b.
Proof.
  unfold resume_change, checkControlStatus. destruct (one_of (a_Status a) (resumableStatuses a)) eqn:Ho; [|by destruct (String.eqb _ _)].
  intros [= <-]. assert (¬ (stopped a ∧ unblocked a)) as Hnq.
  { intros [Hs Hb]. unfold resumableStatuses, budgetEpisodeOpen in Ho. unfold unblocked in Hb.
    assert (a_Status a ≠ AutomationPaused) as Hnp by apply Hs.
    destruct (a_BudgetState a) as [e|]; [|apply one_of_true, list_elem_of_singleton in Ho; done].
    rewrite (proj2 (String.eqb_neq _ AutomationPaused) Hnp), (proj2 (String.eqb_neq _ BudgetActionBlocked) Hb), andb_false_r in Ho.
    apply one_of_true, list_elem_of_singleton in Ho. done. }
  apply turned_same; [|intros _ _|by left].
  - destruct (open_episode a); by apply alike_fields.
  - destruct (open_episode a); (split; [done|right; done]).
Qed.
(** The gate changes no member and, when the member is a cursor already, no cursor. *)
Lemma gate_alike mem v now noWait :
  (∀ i, mem = Some i → isLiveCursor a (m_ID (mem_at a i)) = true) → alike a (applyBudgetGate a mem v now noWait).1.
Proof.
  intros Hm. unfold applyBudgetGate. assert (match mem with Some i => if isLiveCursor a (match mem with Some i => m_ID (mem_at a i) | None => "" end)
      then a else addCursor (match mem with Some i => m_ID (mem_at a i) | None => "" end) a | None => a end = a) as ->.
  { destruct mem as [i|]; [|done]. by rewrite (Hm i eq_refl). }
  destruct (negb _); [by destruct (held _)|]. destruct (breach_response _ _) as [act r]. destruct (_ && _); [done|].
  by destruct (String.eqb act BudgetActionPaused).
Qed.

Lemma turned_gate mem v now noWait d b :
  (∀ i, mem = Some i → isLiveCursor a (m_ID (mem_at a i)) = true) → under_way a →
  b = (applyBudgetGate a mem v now noWait).1 ∨ b = add_decision d (applyBudgetGate a mem v now noWait).1 → turned a [] b.
Proof.
  intros Hm Hu Hb. pose proof (gate_alike mem v now noWait Hm) as Hal.
  assert (turned a [] (applyBudgetGate a mem v now noWait).1) as Ht.
  { apply turned_same; [done| |left; by apply under_way_not_quiet]. intros Hun _.
    apply gate_ongoing. split; [done|by apply (settled_ongoing line)]. }
  destruct Hb as [->| ->]; [done|]. by apply (turned_after _ (applyBudgetGate a mem v now noWait).1).
Qed.

Lemma turned_blocked b : under_way a → alike a b → a_Status b = AutomationBlocked → a_BudgetState b = a_BudgetState a → turned a [] b.
Proof.
  intros Hu Hal Hs Hb. apply turned_same; [done| |left; by apply under_way_not_quiet].
  intros _ _. unfold unfinished, stopped. rewrite Hs. split; [done|by left].
Qed.

(** A live cursor whose member has not started is the work in hand. *)
Lemma waiting_main id : under_way a → id ∈ cursors a → unstarted (status a id) → main_at (g := a) a id.
Proof.
  intros Hu Hc Hs. destruct line as [[[[c Hm]|(j&Hw&_)] _]|[_ [? _]]]; [| |done].
  - rewrite (ma_cursor _ _ Hm) in Hc. by apply list_elem_of_singleton in Hc as ->.
  - apply (wa_cursors _ _ Hw) in Hc as [_ Hr]. rewrite Hr in Hs. by destruct (running_started Hs).
Qed.

Lemma turned_started id i f b : main_at (g := a) a id → under_way a → unstarted (status a id) →
  automationMember a id = Some i → kind_of (g := a) id ≠ MemberKindFork → kind_of (g := a) id ≠ MemberKindJoin →
  dynamic f → (∀ m, m_Status (f m) = MemberRunning) → alike (upd i f a) b → a_Status b = a_Status a →
  a_BudgetState b = None → turned a [id] b.
Proof.
  intros Hm Hu Hs Hi Hk Hkj Hf Hr Hal Hst Hb.
  assert (∀ x, status b x = if decide (x = id) then MemberRunning else status a x) as Hx.
  { intros x. rewrite <- (al_status _ _ Hal), (status_upd W a i id f x eq_refl Hi Hf). by case_decide; [rewrite Hr|]. }
  split.
  - by rewrite <- (al_frozen _ _ Hal), frozen_upd.
  - left. split; [|split; [|right; unfold unblocked; by rewrite Hb]].
    + left. exists id. destruct Hm as [H1 H2 H3 _ H5 H6].
      split; [by rewrite <- (al_cursors _ _ Hal), (cursors_upd (g := a))|done|done|right; by rewrite Hx, decide_True|..].
      * intros x. rewrite Hx. case_decide; [done|apply H5].
      * intros x. rewrite Hx. case_decide as E; [subst x; intros _; apply rtc_refl|apply H6].
    + unfold unfinished. rewrite Hst. intros E. apply Hu. unfold stopped. by rewrite E.
  - left. apply (mono_change a b id); [by intros [? _]|left; rewrite Hx, decide_True by done; apply running_started|].
    intros x Hne. by rewrite Hx, decide_False.
  - apply NoDup_singleton.
  - intros x ->%list_elem_of_singleton. by rewrite Hx, decide_True.
Qed.

Lemma turned_retry now id i name reason v eff b :
  automationMember a id = Some i → is_kind MemberKindPRD (mem_at a i) = true →
  retry_change now id name reason v a = Ok (eff, b) →
  turned a (if String.eqb reason "" && negb (bv_Gate v) then [id] else []) b.
Proof.
  intros Hi Hk. unfold retry_change. rewrite Hi, check_Ok, !orb_false_iff, !negb_false_iff, String.eqb_eq.
  intros [[[Hact Hlive] Hun] Hb]. pose proof (id_ne W id i Hi) as Hne. pose proof Hlive as Hcur. apply isLive_cursors in Hcur; [|done].
  assert (under_way a) as Hu by (intros [Hs _]; done). destruct (index_member W id i Hi) as [_ Hid].
  apply memberUnstarted_true in Hun. rewrite <- (status_look a i id eq_refl Hi) in Hun.
  pose proof (waiting_main id Hu Hcur Hun) as Hm. destruct (String.eqb_spec reason "") as [->|Hr]; cbn [andb].
  - destruct (bv_Gate v) eqn:Ev; cbn [negb].
    + destruct (applyBudgetGate a (Some i) v now false) as [a1 e1] eqn:Eg. cbn in Hb. injection Hb as _ <-.
      apply (turned_gate (Some i) v now false (mkDecision now "blocked" coordinatorActor (be_reason e1) None)); [|done|].
      * intros k [= <-]. by rewrite Hid.
      * rewrite Eg. destruct (String.eqb _ _); [by right|by left].
    + cbn in Hb. injection Hb as _ <-. apply is_kind_true in Hk. pose proof (kind_of_index id i Hi) as Hko. rewrite Hk in Hko.
      apply (turned_started id i (λ m, set_m_StartedAt (Some now) (set_m_Status MemberRunning m))); try done; by rewrite Hko.
  - assert (nonempty reason = true) as Hr' by (by apply nonempty_true). cbn in Hb. rewrite Hr' in Hb. injection Hb as _ <-.
    apply turned_blocked; [done|by apply alike_fields|done|done].
Qed.

Lemma turned_over now v eff b : still_over_change now v a = Ok (eff, b) → turned a [] b.
Proof.
  unfold still_over_change. rewrite check_Ok, orb_false_iff, !negb_false_iff, String.eqb_eq. intros [[Hp _] Hb].
  assert (under_way a) as Hu by (intros [_ Hs]; done). set (w := list_find _ _) in Hb.
  destruct (applyBudgetGate a (snd <$> w) v now true) as [a1 e1] eqn:Eg. injection Hb as _ <-.
  apply (turned_gate (snd <$> w) v now true (mkDecision now "blocked" coordinatorActor (be_reason e1) None)); [|done|right; by rewrite Eg].
  intros i Hw. destruct w as [[k i']|] eqn:Ew; [|done]. cbn in Hw. injection Hw as ->.
  apply list_find_Some in Ew as [Hl _]. apply list_elem_of_lookup_2, list_elem_of_omap in Hl as (id&Hin&Hid).
  destruct (index_member W id i Hid) as [_ ->]. pose proof (id_ne W id i Hid) as Hne.
  unfold liveCursorIDs in Hin. unfold isLiveCursor. destruct (automationIsLinear a).
  - destruct (nonempty (a_CurrentMemberID a)); [|by apply elem_of_nil in Hin]. apply list_elem_of_singleton in Hin as ->. by rewrite String.eqb_refl.
  - by apply one_of_true, elem_of_sortedUnique.
Qed.
(** A running member that is neither a branch nor a join is the work in hand. *)
Lemma running_main id i : under_way a → automationMember a id = Some i → status a id = MemberRunning →
  joinOf a id = None → kind_of (g := a) id ≠ MemberKindJoin → main_at (g := a) a id.
Proof.
  intros Hu Hi Hr Hj Hk. destruct line as [[[[c Hm]|(j&Hw&_)] _]|[_ [? _]]]; [| |done].
  - by rewrite (ma_alone _ _ Hm id Hr).
  - exfalso. destruct (wa_alone _ _ Hw id Hr) as [->|Hb]; [by apply Hk, (wa_kind _ _ Hw)|].
    destruct (started_member a j eq_refl) as [ji Hji]; [rewrite (wa_status _ _ Hw); apply running_started|].
    destruct (branch_spec W j ji id Hji (wa_kind _ _ Hw) Hb) as (_&_&_&Hjo). congruence.
Qed.

Lemma turned_failed now id i reason : under_way a → automationMember a id = Some i → m_Status (mem_at a i) = MemberRunning →
  joinOf a id = None → is_kind MemberKindJoin (mem_at a i) = false → turned a [] (start_failed_change now id reason a).
Proof.
  intros Hu Hi Hr Hj Hk. assert (kind_of (g := a) id ≠ MemberKindJoin) as Hkj.
  { rewrite (kind_of_index id i Hi). intros E. apply is_kind_true in E. congruence. }
  rewrite <- (status_look a i id eq_refl Hi) in Hr. pose proof (running_main id i Hu Hi Hr Hj Hkj) as Hm.
  set (f := λ m, set_m_StartedAt None (set_m_Status MemberPending m)). set (b := start_failed_change now id reason a).
  set (a1 := set_a_IdleSince (Some now) (set_a_Status AutomationBlocked a)).
  assert (frozen a1 = frozen a) as Hf1 by done. assert (automationMember a1 id = Some i) as Hi1 by done.
  assert (frozen b = frozen a ∧ (∀ x, status b x = status (upd i f a1) x) ∧ cursors b = cursors (dropCursor id (upd i f a1))
    ∧ a_Status b = AutomationBlocked ∧ a_BudgetState b = a_BudgetState a) as (Hf&Hs&Hc&Hst&Hb).
  { unfold b, start_failed_change. fold a1. rewrite Hi1. fold f. split_and!.
    - transitivity (frozen (dropCursor id (upd i f a1))); [done|]. by rewrite frozen_dropCursor, frozen_upd.
    - intros x. transitivity (status (dropCursor id (upd i f a1)) x); [done|]. by rewrite status_dropCursor.
    - done.
    - cbn. unfold dropCursor. by destruct (automationIsLinear _).
    - cbn. unfold dropCursor. by destruct (automationIsLinear _). }
  assert (∀ x, status b x = if decide (x = id) then MemberPending else status a x) as Hx.
  { intros x. by rewrite Hs, (status_upd W a1 i id f x Hf1 Hi). }
  assert (∀ x, status b x ≠ MemberRunning) as Hnr.
  { intros x. rewrite Hx. case_decide as E; [done|]. intros Hrx. by apply E, (ma_alone _ _ Hm). }
  assert (stopped b) as Hsb by (split; by rewrite Hst). pose proof (settled_ongoing line Hu) as Hub.
  assert (unblocked b) as Hubb by (unfold unblocked; by rewrite Hb).
  assert (cursors b = if automationIsLinear a then [id] else []) as Hcb.
  { rewrite Hc, (cursors_dropCursor (g := a)) by (by rewrite frozen_upd). rewrite (cursors_upd (g := a)) by done.
    change (cursors a1) with (cursors a). rewrite (ma_cursor _ _ Hm). destruct (automationIsLinear a); [done|]. apply drop_singleton. }
  split; [done| |right|constructor|by intros x ?%elem_of_nil].
  - destruct (automationIsLinear a) eqn:El; [left|right].
    + split; [left; exists id|split; [unfold unfinished; by rewrite Hst|by left]]. destruct Hm as [H1 H2 H3 H4 H5 H6].
      split; [done|done|done|left; rewrite Hx, decide_True by done; by left|..].
      * intros x Hrx. by apply Hnr in Hrx.
      * intros x. rewrite Hx. case_decide as E; [subst x; intros _; apply rtc_refl|apply H6].
    + split; [split; [by intros _|done]|done].
  - split; [done|]. unfold budgetEpisodeOpen, unblocked in *. rewrite Hb. destruct (a_BudgetState a) as [e|]; [|done].
    rewrite Hst, (proj2 (String.eqb_neq _ BudgetActionBlocked) Hub). by rewrite andb_false_r.
Qed.

Lemma turn_turned T b : turn a T b → turned a T b.
Proof.
  intros [wall i snap c eff Hu Hi Hs|wall snap t e ac c eff Hs|now ac c Hc|now ac c Hc|now id i n r v eff c Hi Hk Hc|now v eff c Hc|now id i r Hu Hi Hr Hj Hk].
  - by eapply turned_step.
  - by eapply turned_skip.
  - by eapply turned_pause.
  - by eapply turned_resume.
  - by eapply turned_retry.
  - by eapply turned_over.
  - by eapply turned_failed.
Qed.

(** The dead make no turn. *)
Lemma turn_alive T b : turn a T b → ¬ dead a.
Proof.
  intros Ht [Hs Ho]. destruct Ht as [wall i snap c eff Hu _ _|wall snap t e ac c eff Hc|now ac c Hc|now ac c Hc|now id i n r v eff c Hi Hk Hc|now v eff c Hc|now id i r Hu _ _ _ _]; try done.
  - unfold skip_change, checkControlStatus in Hc. destruct (one_of (a_Status a) _) eqn:E; [|by destruct (String.eqb _ _)].
    by apply (under_way_status _ eq_refl) in E.
  - unfold pause_change, checkControlStatus in Hc. destruct (one_of (a_Status a) _) eqn:E; [|by destruct (String.eqb _ _)].
    apply one_of_true, list_elem_of_singleton in E. by destruct Hs.
  - unfold resume_change, checkControlStatus in Hc. destruct (one_of (a_Status a) _) eqn:E; [|by destruct (String.eqb _ _)].
    unfold resumableStatuses in E. rewrite Ho in E. apply one_of_true, list_elem_of_singleton in E. by destruct Hs.
  - unfold retry_change in Hc. rewrite Hi, check_Ok, !orb_false_iff, !negb_false_iff, String.eqb_eq in Hc. destruct Hc as [[[E _] _] _]. by destruct Hs.
  - unfold still_over_change in Hc. rewrite check_Ok, orb_false_iff, !negb_false_iff, String.eqb_eq in Hc. destruct Hc as [[E _] _]. by destruct Hs.
Qed.
End turn.

(** ** A life *)

Section life.
Context {zones : TimeZones} {order : MapRange}.

(** A draft that never ran and passes the checks of a running Automation, in
    which branches are reached through their forks only. *)
Record fresh (g : Automation) : Prop := {
  fr_draft : a_Status g = AutomationDraft;
  fr_wf : wf (set_a_Status AutomationActive g);
  fr_guarded : branches_reached_by_forks g;
  fr_unstarted x : unstarted (status g x);
  fr_current : a_CurrentMemberID g = "";
  fr_cursors : a_ActiveCursors g = [];
  fr_budget : a_BudgetState g = None
}.

(** A draft that never ran: nothing of it started, no cursor, no budget episode,
    and activated as it is it passes the checks of a running Automation. *)
Record never_run (g : Automation) : Prop := {
  nr_draft : a_Status g = AutomationDraft;
  nr_accepted : is_ok (validateAutomation (set_a_Status AutomationActive g)) = true;
  nr_unstarted : forallb memberUnstarted (a_Members g) = true;
  nr_current : a_CurrentMemberID g = "";
  nr_cursors : a_ActiveCursors g = [];
  nr_budget : a_BudgetState g = None
}.

Lemma unstarted_all a x : forallb memberUnstarted (a_Members a) = true → unstarted (status a x).
Proof.
  intros Hall. unfold status. destruct (automationMember a x) as [i|]; [|by right]. unfold mem_at.
  destruct (a_Members a !! i) as [m|] eqn:E; [|by right]. apply memberUnstarted_true. rewrite forallb_forall in Hall.
  apply Hall, list_elem_of_In. by eapply list_elem_of_lookup_2.
Qed.

Lemma fresh_draft g : never_run g → branches_reached_by_forks g → fresh g.
Proof.
  intros [H1 H2 H3 H4 H5 H6] Hf. split; try done; [|intros x; by apply unstarted_all].
  destruct (validateAutomation _) as [a'|] eqn:E; [|done]. by apply validate_wf in E as [? _].
Qed.

(** The record a life has reached, with the members started so far, in order. *)
Inductive life (g : Automation) : list string → Automation → Prop :=
| life_activated now snap actor y eff b :
    activate_change now snap actor g = Some (y, eff) → stored y b → life g (ms_memberID <$> ef_starts eff) b
| life_turn S T a y b : life g S a → turn a T y → stored y b → life g (S ++ T) b.

Record living (g : Automation) (S : list string) (a : Automation) : Prop := {
  lv_shape : shape a = shape g;
  lv_wf : wf a;
  lv_left : a_Status a ≠ AutomationDraft;
  lv_line : settled (g := a) a;
  lv_once : NoDup S;
  lv_started x : x ∈ S → ¬ unstarted (status a x) ∨ dead a
}.

Lemma guarded_shape g a : shape a = shape g → branches_reached_by_forks g → branches_reached_by_forks a.
Proof.
  intros Hs [He Ht]. split; [by rewrite (shape_joinOf Hs), (shape_entry Hs)|]. intros m t Hm Hin.
  destruct (shape_elem g a m (eq_sym Hs) Hm) as (n&Hn&Hst). rewrite (shape_joinOf Hs). apply (Ht n); [done|].
  by rewrite (f_equal outcome_edges Hst : outcome_edges n = outcome_edges m).
Qed.

Lemma gate_left a mem v now noWait : a_Status a ≠ AutomationDraft → a_Status (applyBudgetGate a mem v now noWait).1 ≠ AutomationDraft.
Proof.
  intros Hd. unfold applyBudgetGate. set (a1 := match mem with Some _ => _ | None => a end).
  assert (a_Status a1 = a_Status a) as Ha1 by (unfold a1; destruct mem; [destruct (isLiveCursor _ _); [done|apply a_Status_addCursor]|done]).
  rewrite <- Ha1 in Hd. clearbody a1. destruct (negb _); [by destruct (held _)|]. destruct (breach_response _ _) as [act r].
  destruct (_ && _); [done|]. by destruct (String.eqb act BudgetActionPaused).
Qed.

Lemma step_left a wall i snap b eff : wf a → a_Status a ≠ AutomationDraft → step wall a i snap = Some (Ok (b, eff)) → a_Status b ≠ AutomationDraft.
Proof.
  intros Hwf Hd Hs. destruct (step_of_wf wall a i snap Hwf Hd) as (r&Hr&Ht). rewrite Hs in Hr. injection Hr as <-. by apply (tame_left a).
Qed.

Lemma turn_left a T b : wf a → a_Status a ≠ AutomationDraft → turn a T b → a_Status b ≠ AutomationDraft.
Proof.
  intros Hwf Hd [wall i snap c eff Hu _ Hs|wall snap t e ac c eff Hc|now ac c Hc|now ac c Hc|now id i n r v eff c Hi Hk Hc|now v eff c Hc|now id i r Hu Hi Hr Hj Hk].
  - by eapply step_left.
  - unfold skip_change in Hc. destruct (checkControlStatus _ _); [|done]. destruct (step wall a _ snap) as [[[d e']|]|] eqn:Hs; [|done..].
    cbn in Hc. injection Hc as _ <-. apply step_left in Hs; [|done..]. cbn. by destruct (automationMember d t).
  - unfold pause_change in Hc. destruct (checkControlStatus _ _); [|done]. by injection Hc as <-.
  - unfold resume_change in Hc. destruct (checkControlStatus _ _); [|done]. injection Hc as <-. by destruct (open_episode a).
  - unfold retry_change in Hc. rewrite Hi, check_Ok in Hc. destruct Hc as [_ Hc]. destruct (_ && _).
    + pose proof (gate_left a (Some i) v now false Hd) as Hg. destruct (applyBudgetGate _ _ _ _ _) as [a1 e1]. injection Hc as _ <-.
      by destruct (String.eqb _ _).
    + destruct (nonempty r); by injection Hc as _ <-.
  - unfold still_over_change in Hc. rewrite check_Ok in Hc. destruct Hc as [_ Hc].
    pose proof (gate_left a (snd <$> list_find (λ i, memberUnstarted (mem_at a i) = true) (omap (automationMember a) (liveCursorIDs a))) v now true Hd) as Hg.
    destruct (applyBudgetGate _ _ _ _ _) as [a1 e1]. by injection Hc as _ <-.
  - unfold start_failed_change. set (a1 := match automationMember _ id with Some _ => _ | None => _ end).
    assert (a_Status a1 = AutomationBlocked) as E by (unfold a1; by destruct (automationMember _ id)).
    cbn. unfold dropCursor. destruct (automationIsLinear a1); cbn; by rewrite E.
Qed.

(** What is stored of a change keeps the line of work and the marks. *)
Lemma stored_line g y b : stored y b → shape y = shape g → settled (g := g) y → settled (g := b) b ∧ (∀ x, status b x = status y x) ∧ (dead y → dead b).
Proof.
  intros [Hwf Hsh Hst Hk Hb Hc Hn]%stored_spec Hs Hset. split_and!; [|done|].
  - refine (settled_rebase (g := g) (h := b) (a := y) _ Hst Hk Hb Hc Hn Hset). by rewrite <- Hs.
  - unfold dead, stopped, budgetEpisodeOpen. by rewrite Hk, Hb.
Qed.

(** Entering a draft returns, before it is activated as after. *)
Lemma entry_enters g a snap now choice eff i : fresh g → shape a = shape g → automationMember a (a_EntryMemberID a) = Some i → a_ActiveCursors a = [] →
  ∃ st, enter snap now choice (enter_fuel a) i (mkStepper a eff "" false) = Some st ∧ tame a (st_a st).
Proof.
  intros F Hs Hi Hc. set (h := set_a_Status AutomationActive g). assert (shape h = shape a) as Hh by exact (eq_sym Hs).
  destruct (wf_ordered h (fr_wf g F)) as [fin O]; [done|].
  assert (wf_graph a) as G by (apply (wf_graph_shape h); [done|apply (wf_members _ (fr_wf g F))]).
  apply (enter_ends a G fin (ordered_shape h a fin Hh O)) with (id := a_EntryMemberID a).
  - split; [done| |left]. intros _ c. cbn. rewrite Hc. by intros ?%elem_of_nil.
  - done.
  - by apply rank_fuel, (ordered_shape h a fin).
Qed.

(** The record [activate_change] enters. *)
Definition activating (now : Time) (actor : string) (g : Automation) : Automation :=
  add_decision (mkDecision now "activate" actor ("activated by " +:+ actor) None)
    (set_a_StartedAt (Some now) (set_a_Status AutomationActive g)).

Section activation.
Context {g : Automation} (now : Time) (actor : string) (F : fresh g).
Abbreviation a := (activating now actor g).

Lemma activating_wf : wf a.
Proof. apply (wf_of_shape (set_a_Status AutomationActive g)); [apply F|done|apply (fr_wf g F)|apply (fr_wf g F)|apply (fr_wf g F)|apply (fr_wf g F)|done]. Qed.

Lemma activating_graph : wf_graph a.
Proof. apply wf_members, activating_wf. Qed.

Lemma activating_tc x : ¬ tc (member_edge a) x x.
Proof. by apply wf_tc; [apply activating_wf|]. Qed.

Lemma activating_guarded : branches_reached_by_forks a.
Proof. by apply (guarded_shape g); [|apply F]. Qed.

(** What activation leaves, before it is stored. *)
Lemma activated_turned snap y eff :
  activate_change now snap actor g = Some (y, eff) → turned a (ms_memberID <$> ef_starts eff) y ∧ a_Status y ≠ AutomationDraft.
Proof.
  unfold activate_change. fold a. pose proof activating_graph as G.
  destruct (automationMember a (a_EntryMemberID a)) as [i|] eqn:Hi; [|done]. change (Some i ≫= ?k) with (k i). cbv beta.
  set (st0 := mkStepper a _ "" false). destruct (enter snap now "" _ i st0) as [st|] eqn:He; [|done].
  change (Some st ≫= ?k) with (k st). cbv beta zeta. intros [= <- <-].
  assert (∀ x, unstarted (status a x)) as Hun by exact (fr_unstarted g F).
  assert (∀ x, status a x ≠ MemberRunning) as Hnr by (intros x Hx; specialize (Hun x); rewrite Hx in Hun; by destruct (running_started Hun)).
  assert (kind_of (g := a) (a_EntryMemberID a) ∈ [MemberKindPRD; MemberKindAutomation; MemberKindFork]) as Hk.
  { apply (member_kind G _ i Hi). rewrite (kind_of_index _ i Hi). pose proof (wf_entry a G) as Hen. destruct (index_member G _ _ Hi) as [Hin Hid].
    destruct (decide (a_Members a = [])) as [E|_]; [rewrite E in Hin; by apply elem_of_nil in Hin|]. destruct Hen as (m&Hm&Hme&Hkm).
    destruct (member_index a m G Hm) as (k&Hk&Hl). rewrite Hme, Hi in Hk. injection Hk as <-. by rewrite (mem_at_lookup a i m Hl). }
  assert (moves (g := a) st0 st) as Hmv.
  { apply (enter_moves G activating_tc activating_guarded snap now "" (enter_fuel a) i (a_EntryMemberID a) st0 st); [done|done|done|apply activating_guarded| |done].
    split; [split; [|exact Hnr]|intros x Hx; by destruct Hx]. intros Hl. change (cursors a = []). unfold cursors. rewrite Hl. apply F. }
  destruct (finalize_alike (a := a) now st (mv_frozen _ _ Hmv)) as (Hal&Hst&Hbu&Hes). split.
  - destruct (mv_starts _ _ Hmv) as (new&Hnew&Hnd&Hx). rewrite Hes, Hnew. split.
    + rewrite <- (al_frozen _ _ Hal). apply Hmv.
    + apply (settled_alike (st_a st)); [done|done|done|]. apply (mv_settled _ _ Hmv). split; [done|].
      change (unblocked g). unfold unblocked. by rewrite (fr_budget g F).
    + left. intros x. rewrite <- (al_status _ _ Hal). apply (mv_mono _ _ Hmv).
    + done.
    + intros x (H1&H2&_)%Hx. by rewrite <- (al_status _ _ Hal).
  - rewrite Hst. destruct (entry_enters g a snap now "" (st_eff st0) i F eq_refl Hi (fr_cursors g F)) as (st1&He1&Ht).
    rewrite (He1 : enter snap now "" (enter_fuel a) i st0 = Some st1) in He. injection He as <-. by apply (tame_left a).
Qed.

Lemma activated_living snap y eff b :
  activate_change now snap actor g = Some (y, eff) → stored y b → living g (ms_memberID <$> ef_starts eff) b.
Proof.
  intros [[Hf Hset _ Hnd Hx] Hd]%activated_turned Hstored. pose proof (frozen_shape Hf) as Hy.
  destruct (stored_line a y b Hstored Hy Hset) as (Hline&Hstat&_). apply stored_spec in Hstored as [Hbwf Hbs _ Hbk _ _ _].
  split; [by rewrite <- Hbs, Hy|done|by rewrite Hbk|done|done|].
  intros x Hin. left. rewrite Hstat. destruct (Hx x Hin) as [_ ->]. apply running_started.
Qed.
End activation.

Lemma turn_living g S T a y b : living g S a → branches_reached_by_forks g → turn a T y → stored y b → living g (S ++ T) b.
Proof.
  intros [Hsh Hwf Hl Hline Hon Hst] Hg Ht Hstored. pose proof (wf_members a Hwf) as W.
  assert (∀ x, ¬ tc (member_edge a) x x) as acyclic by (intros x; by apply wf_tc).
  pose proof (guarded_shape g a Hsh Hg) as guarded. pose proof (turn_left a T y Hwf Hl Ht) as Hly.
  pose proof (turn_alive T y Ht) as Hal. destruct (turn_turned W acyclic guarded Hline T y Ht) as [Hf Hset Hm Hnd Hx].
  destruct (stored_line a y b Hstored (frozen_shape Hf) Hset) as (Hbl&Hbs&Hbd). apply stored_spec in Hstored as [Hbwf Hbsh _ Hbk _ _ _].
  split; [by rewrite <- Hbsh, (frozen_shape Hf)|done|by rewrite Hbk|done|..].
  - apply NoDup_app. split; [done|]. split; [|done]. intros x HS HT. destruct (Hst x HS) as [Hns|Hd]; [|done].
    by apply Hns, Hx.
  - intros x [HS|HT]%elem_of_app; rewrite Hbs.
    + destruct Hm as [Hm|Hd]; [left|right; by apply Hbd]. destruct (Hst x HS) as [Hns|Hd]; [|done]. by apply Hm.
    + left. destruct (Hx x HT) as [_ ->]. apply running_started.
Qed.

Lemma life_living g S a : fresh g → life g S a → living g S a.
Proof.
  intros F. induction 1 as [now snap actor y eff b Ha Hs|S T a y b _ IH Ht Hs]; [by eapply activated_living|].
  eapply turn_living; [done|apply F|done|done].
Qed.
End life.
