(* ===== verification/AutomationLifeTheorems.v ===== *)
(** * Automations: the theorems about a life

    No member is started twice, the work never gets lost while the record runs, a
    paused record starts nothing, and witnesses that live a life. *)

From S2P Require Import Prelude GoBase GoText Graph AutomationSettings.
From S2P Require Import Automation AutomationGraph AutomationValidate AutomationWf.
From S2P Require Import AutomationAccept AutomationStep AutomationFrame.
From S2P Require Import AutomationFrontier AutomationMoves AutomationControl AutomationLife.
From S2P Require Import AutomationRun.

#[local] Open Scope Z_scope.

(** C21: take a draft that never ran and whose branches are reached only through
    their forks, and its record from the activation on, through any ends of members,
    skips, pauses, resumes, retries of a first start, budget holds, and failed starts
    reported while the record is under way and the member still runs. The coordinator
    starts no member a second time. The relaunches of the reconciler, which ask again
    for a started branch or nested Automation whose launch was lost, are not among
    these changes, nor are edits, the return to draft and the reopening of a member. *)
Theorem no_member_started_twice `{!TimeZones, !MapRange} g S a :
  never_run g → branches_reached_by_forks g → life g S a → NoDup S.
Proof. intros Hn Hf Hl. apply (lv_once g S a), life_living; [by apply fresh_draft|done]. Qed.

(** C22: in the life of a draft that never ran and whose branches are reached only
    through their forks (an edge into a branch can strand the work) the work is never
    lost. While the record is active or paused there is a live cursor, on a member
    that runs or, as the only cursor, on one that waits to start; and once it is
    completed no member runs. The changes of a life are those of C21. *)
Theorem never_stranded `{!TimeZones, !MapRange} g S a :
  never_run g → branches_reached_by_forks g → life g S a →
  (a_Status a = AutomationActive ∨ a_Status a = AutomationPaused →
     ∃ c, isLiveCursor a c = true ∧ (status a c = MemberRunning ∨ unstarted (status a c) ∧ cursors a = [c]))
  ∧ (a_Status a = AutomationCompleted → ∀ x, status a x ≠ MemberRunning).
Proof.
  intros Hn Hf HL%life_living; [|by apply fresh_draft]. pose proof (lv_line _ _ _ HL) as Hline. split.
  - intros Hu. destruct Hline as [[[[c Hm]|(j&Hw&Hne)] _]|[_ [[H1 H2] _]]]; [| |by destruct Hu].
    + exists c. assert (c ∈ cursors a) as Hc by (rewrite (ma_cursor _ _ Hm); by left). split.
      * apply isLive_cursors; [|done]. intros ->. pose proof (ma_kind _ _ Hm) as Hk. unfold kind_of in Hk. cbn in Hk.
        rewrite !elem_of_cons, elem_of_nil in Hk. destruct Hk as [Hk|[Hk|[Hk|[]]]]; discriminate Hk.
      * destruct (ma_status _ _ Hm) as [Hs|[Hs _]]; [right|by left]. split; [done|apply Hm].
    + destruct (cursors a) as [|c l] eqn:E; [done|]. exists c. assert (c ∈ cursors a) as Hc by (rewrite E; left).
      destruct (proj1 (wa_cursors _ _ Hw c) Hc) as [_ Hr]. split; [|by left]. apply isLive_cursors; [|done]. intros ->.
      unfold status in Hr. cbn in Hr. discriminate Hr.
  - intros Hc. destruct Hline as [[_ [Hu _]]|[[_ Hq] _]]; [by destruct (Hu Hc)|done].
Qed.

(** ** Paused *)

Section paused.
Context (snap : gmap string memberInfo) (now : Time) (choice : string).

(** No start is added to those [st] has. *)
Abbreviation no_more st st' := (ef_starts (st_eff st') = ef_starts (st_eff st)).

Lemma paused_enter f i st st' :
  a_Status (st_a st) = AutomationPaused → enter snap now choice f i st = Some st' → no_more st st'.
Proof. destruct f as [|f]; [done|]. cbn [enter]. unfold enter_body. intros ->. cbn. by intros [= <-]. Qed.

Lemma pathEnded_starts b n r st : no_more st (pathEnded now b n r st).
Proof. unfold pathEnded. destruct (cursorsRemain _); [done|]. by destruct b. Qed.

Lemma paused_follow f i t e n r st st' :
  a_Status (st_a st) = AutomationPaused → follow snap now (enter snap now choice f) i t e n r st = Some st' → no_more st st'.
Proof.
  intros Hp. unfold follow. destruct (String.eqb t ""); [intros [= <-]; apply pathEnded_starts|].
  destruct (automationMember _ t) as [k|]; [|by intros [= <-]]. intros He. by apply paused_enter in He.
Qed.

Lemma drop_pending_status ps a : a_Status (drop_pending now ps a) = a_Status a.
Proof.
  revert a. induction ps as [|b ps IH]; intros a; cbn [drop_pending]; [done|]. destruct (automationMember a b); [|done].
  rewrite IH. cbn. unfold dropCursor. by destruct (automationIsLinear a).
Qed.

Lemma paused_evalJoin f j st st' :
  a_Status (st_a st) = AutomationPaused → evalJoin snap now (enter snap now choice f) j st = Some st' → no_more st st'.
Proof.
  intros Hp. unfold evalJoin. destruct (automationMember _ j) as [i|]; [|by intros [= <-]]. cbn zeta. destruct (negb _); [by intros [= <-]|].
  destruct (classifyBranches _ _) as [[w p] fl].
  assert (∀ rule w fl p, fireJoin snap now (enter snap now choice f) i rule w fl p st = Some st' → no_more st st') as Hfire.
  { intros rule w' fl' p' He. apply paused_follow in He; [done|]. cbn. by rewrite drop_pending_status. }
  repeat (case_bool_decide || case_match); try (by intros [= <-]); by apply Hfire.
Qed.

End paused.

Lemma paused_step snap wall a i b eff :
  a_Status a = AutomationPaused → step wall a i snap = Some (Ok (b, eff)) → ef_starts eff = [].
Proof.
  intros Hp. unfold step.
  assert (∀ t r, (∀ st, r = Some st → ef_starts (st_eff st) = []) → result_of t r = Some (Ok (b, eff)) → ef_starts eff = []) as Hres.
  { intros t [st|] Hr; [|done]. cbn. intros [= _ <-]. rewrite <- (Hr st eq_refl). unfold finalize. cbn zeta.
    repeat case_match; done. }
  destruct (si_reeval i); [|destruct (si_startPending i)].
  - unfold stepJoinReeval. destruct (automationMember a _) as [j|]; [|done]. destruct (negb _); [done|]. cbn zeta.
    destruct (evalJoin _ _ _ _ _) as [st|] eqn:E; [|done]. change (Some st ≫= ?k) with (k st). cbv beta. destruct (String.eqb _ _); [done|].
    apply Hres. intros st' [= <-]. by apply paused_evalJoin in E.
  - unfold stepStartPending. destruct (automationMember a _) as [j|]; [|done]. cbn zeta. rewrite Hp. done.
  - unfold stepEnd. destruct (automationMember a _) as [j|]; [|done]. cbn zeta. destruct (negb _); [done|]. destruct (_ && _); [done|].
    apply Hres. intros st. set (st1 := merged_end _ _ _ _ _).
    assert (a_Status (st_a st1) = AutomationPaused ∧ ef_starts (st_eff st1) = []) as [Hp1 Hs1].
    { unfold st1, merged_end. destruct (e_merged _) as [n|]; [|done]. cbn zeta. by destruct (_ && nonempty _), (_ && mn_cancelled _). }
    clearbody st1. assert (∀ k e, a_Status (st_a (finish (at_time wall i) k e st1)) = AutomationPaused
      ∧ ef_starts (st_eff (finish (at_time wall i) k e st1)) = []) as Hfin.
    { intros k e. unfold finish. cbn. unfold dropCursor. destruct (automationIsLinear _), (nonempty _); done. }
    destruct (joinOf _ _) as [jo|].
    + intros He. apply paused_evalJoin in He; [by rewrite He; apply Hfin|apply Hfin].
    + destruct (nonempty _); [intros [= <-]; apply Hfin|]. unfold followEdge. intros He.
      apply paused_follow in He; [by rewrite He; apply Hfin|apply Hfin].
Qed.
(** a paused record goes on following the members that end, but nothing it is
    told starts a member. *)
Theorem paused_starts_nothing a T b : a_Status a = AutomationPaused → turn a T b → T = [].
Proof.
  intros Hp [wall i snap c eff _ _ Hs|wall snap t e ac c eff Hc| | |now id i n r v eff c Hi _ Hc| |]; try done.
  - by rewrite (paused_step snap wall a i c eff Hp Hs).
  - unfold skip_change in Hc. destruct (checkControlStatus _ _); [|done]. destruct (step wall a _ snap) as [[[d e']|]|] eqn:Hs; [|done..].
    cbn in Hc. injection Hc as <- _. by rewrite (paused_step snap wall a _ d e' Hp Hs).
  - unfold retry_change in Hc. rewrite Hi, Hp in Hc. done.
Qed.

(** ** A life lived

    A member, a fork over two branches, a join, a last member: activated, paused
    and resumed while the branches run, one branch ends, the join fires. *)

#[local] Existing Instance any_zone.
#[local] Existing Instance in_key_order.

Definition fork_draft : Automation :=
  automation_of AutomationDraft "m" []
    [prd_member "m" "p0" "f"; fork_member "f" ["x"; "y"]; prd_member "x" "p1" ""; prd_member "y" "p2" "";
     join_member "j" BranchAnyOneIsEnough "n" ["x"; "y"]; prd_member "n" "p3" ""].

Definition keep (y : Automation) : Automation :=
  match validateAutomation (normalizeActiveCursors (normalizeMemberStages y)) with
  | Ok z => set_a_UpdatedAt 9 (set_a_Version (a_Version y + 1) z)
  | Err _ => y
  end.

Lemma keep_stored y : is_ok (validateAutomation (normalizeActiveCursors (normalizeMemberStages y))) = true → stored y (keep y).
Proof. unfold keep, stored. destruct (validateAutomation _) as [z|]; [|done]. intros _. by exists 9, (a_Version y + 1), z. Qed.

Definition guarded_check (a : Automation) : bool :=
  bool_decide (joinOf a (a_EntryMemberID a) = None) && forallb (λ m, forallb (λ t, bool_decide (joinOf a t = None)) (outcome_edges m)) (a_Members a).

Lemma guarded_ok a : guarded_check a = true → branches_reached_by_forks a.
Proof.
  unfold guarded_check. rewrite andb_true_iff, bool_decide_eq_true, forallb_forall. intros [H1 H2]. split; [done|].
  intros m t Hm Ht. specialize (H2 m (proj1 (list_elem_of_In _ _) Hm)). rewrite forallb_forall in H2.
  specialize (H2 t (proj1 (list_elem_of_In _ _) Ht)). by apply bool_decide_eq_true in H2.
Qed.

Lemma fork_draft_new : never_run fork_draft.
Proof. split; vm_compute; reflexivity. Qed.
Lemma fork_draft_guarded : branches_reached_by_forks fork_draft.
Proof. apply guarded_ok. vm_compute. reflexivity. Qed.
Lemma fork_draft_fresh : fresh fork_draft.
Proof. apply fresh_draft; [apply fork_draft_new|apply fork_draft_guarded]. Qed.

Definition ids_started (eff : stepEffects) : list string := ms_memberID <$> ef_starts eff.
Definition all_approved : gmap string memberInfo := approved ["m"; "x"; "y"; "n"].

Definition activated : Automation := keep (default fork_draft (fst <$> activate_change 1 all_approved "operator" fork_draft)).
Definition moved_by (i : stepInput) (a : Automation) : Automation := keep (after (step 2 a i all_approved)).
Definition forked : Automation := moved_by (end_of "m" PRDCompleted) activated.
Definition changed (r : res Automation) : Automation := match r with Ok a => keep a | Err _ => fork_draft end.
Definition paused_ : Automation := changed (pause_change 3 "operator" forked).
Definition resumed_ : Automation := changed (resume_change 4 "operator" paused_).
Definition joined : Automation := moved_by (end_of "x" PRDCompleted) resumed_.

Definition is_under_way (a : Automation) : bool := one_of (a_Status a) [AutomationActive; AutomationPaused].
Definition is_over (s : string) : bool := negb (one_of s [MemberPending; ""; MemberRunning]).

Definition kept_of (y b : Automation) : Prop :=
  b = keep y ∧ is_ok (validateAutomation (normalizeActiveCursors (normalizeMemberStages y))) = true.

Lemma life_by_activation y eff T b :
  activate_change 1 all_approved "operator" fork_draft = Some (y, eff) → kept_of y b → ids_started eff = T → life fork_draft T b.
Proof. intros Ha [-> Hk] <-. eapply life_activated; [exact Ha|by apply keep_stored]. Qed.

Lemma life_by_turn S a y b : life fork_draft S a → turn a [] y → kept_of y b → life fork_draft S b.
Proof. intros Hl Ht [-> Hk]. rewrite <- (app_nil_r S). eapply life_turn; [exact Hl|exact Ht|by apply keep_stored]. Qed.

Lemma life_by_step S T ST a i r eff b :
  life fork_draft S a → is_under_way a = true → is_over (e_memStatus (si_end i)) = true →
  step 2 a i all_approved = Some (Ok (r, eff)) → kept_of r b → ids_started eff = T → ST = S ++ T → life fork_draft ST b.
Proof.
  intros Hl Hu Hi Hs [-> Hk] <- ->. eapply life_turn; [done| |by apply keep_stored]. eapply turn_step; [| |exact Hs].
  - by eapply under_way_status.
  - unfold is_over in Hi. rewrite negb_true_iff in Hi. split; [intros [E|E]|intros E]; by rewrite E in Hi.
Qed.

Lemma joined_life : life fork_draft ["m"; "x"; "y"; "n"] joined.
Proof.
  assert (life fork_draft ["m"] activated) as H1.
  { eapply life_by_activation; [vm_compute; reflexivity|split; vm_compute; reflexivity|vm_compute; reflexivity]. }
  assert (life fork_draft ["m"; "x"; "y"] forked) as H2.
  { eapply (life_by_step ["m"] ["x"; "y"] _ activated (end_of "m" PRDCompleted));
      [exact H1|vm_compute; reflexivity..|split; vm_compute; reflexivity|vm_compute; reflexivity|reflexivity]. }
  assert (life fork_draft ["m"; "x"; "y"] paused_) as H3.
  { eapply life_by_turn; [exact H2|eapply (turn_pause forked 3 "operator"); vm_compute; reflexivity|split; vm_compute; reflexivity]. }
  assert (life fork_draft ["m"; "x"; "y"] resumed_) as H4.
  { eapply life_by_turn; [exact H3|eapply (turn_resume paused_ 4 "operator"); vm_compute; reflexivity|split; vm_compute; reflexivity]. }
  eapply (life_by_step ["m"; "x"; "y"] ["n"] _ resumed_ (end_of "x" PRDCompleted));
    [exact H4|vm_compute; reflexivity..|split; vm_compute; reflexivity|vm_compute; reflexivity|reflexivity].
Qed.

Lemma no_member_started_twice_witness : a_ActiveCursors joined = ["n"] ∧ NoDup ["m"; "x"; "y"; "n"].
Proof.
  split; [vm_compute; reflexivity|]. exact (no_member_started_twice fork_draft ["m"; "x"; "y"; "n"] joined fork_draft_new fork_draft_guarded joined_life).
Defined.

Lemma never_stranded_witness :
  status joined "y" = MemberCancelled ∧ a_Status joined = AutomationActive ∧ ∃ c, isLiveCursor joined c = true ∧
    (status joined c = MemberRunning ∨ unstarted (status joined c) ∧ cursors joined = [c]).
Proof.
  split; [vm_compute; reflexivity|]. split; [vm_compute; reflexivity|].
  refine (proj1 (never_stranded fork_draft ["m"; "x"; "y"; "n"] joined fork_draft_new fork_draft_guarded joined_life) (or_introl _)). vm_compute. reflexivity.
Defined.

(** The end of the first branch of a paused record fires its join, and the member
    behind it waits. *)
Lemma paused_starts_nothing_witness :
  let r := step 2 paused_ (end_of "x" PRDCompleted) all_approved in
  a_ActiveCursors (after r) = ["n"] ∧ status (after r) "n" = MemberPending ∧ ids_started (effects r) = [].
Proof.
  split; [vm_compute; reflexivity|]. split; [vm_compute; reflexivity|].
  apply (paused_starts_nothing paused_ _ (after (step 2 paused_ (end_of "x" PRDCompleted) all_approved))); [vm_compute; reflexivity|].
  apply (turn_step paused_ 2 (end_of "x" PRDCompleted) all_approved); [|split; [by intros [|]|done]|vm_compute; reflexivity].
  eapply under_way_status; [reflexivity|vm_compute; reflexivity].
Defined.
