(* ===== verification/AutomationCalls.v ===== *)
(** * Automations: the starts of a step

    Each start names a member of the record and what that member runs. One that is
    not the start of a fork's branch is of a member no join waits for, and leaves
    the record under way.

    Also: automations: what a call of the coordinator leaves behind. *)

From S2P Require Import Prelude GoBase GoText Graph AutomationSettings Automation AutomationGraph AutomationValidate.
From S2P Require Import AutomationWf AutomationAccept AutomationStep AutomationFrame AutomationFrontier AutomationMoves.
From S2P Require Import AutomationRun AutomationControl AutomationLife RecordStore AutomationStore AutomationStoreInvariant.
From S2P Require Import AutomationManager AutomationCoordinator.

#[local] Open Scope Z_scope.

Section starts.
Context {g : Automation} (W : wf_graph g).
Hypothesis acyclic : ∀ x, ¬ tc (member_edge g) x x.
Hypothesis guarded : branches_reached_by_forks g.

Abbreviation of_g a := (frozen a = frozen g).

(** The member, and its PRD or its nested Automation. *)
Definition start_of (s : memberStart) : Prop :=
  ∃ k, automationMember g (ms_memberID s) = Some k
  ∧ (kind (mem_at g k) = MemberKindPRD ∧ ms_kind s = MemberKindPRD ∧ ms_prdID s = m_PRDID (mem_at g k)
     ∨ kind (mem_at g k) = MemberKindAutomation ∧ ms_kind s = MemberKindAutomation ∧ ms_childID s = m_AutomationID (mem_at g k)).

(** Starts of branches only. *)
Definition of_branches (st : stepper) : Prop := ∀ s, s ∈ ef_starts (st_eff st) → start_of s ∧ ms_branch s = true.

(** Starts of members, the last of which may be off the fork. *)
Definition of_members (l : list memberStart) (a : Automation) : Prop :=
  ∀ s, s ∈ l → start_of s ∧ (ms_branch s = false → joinOf g (ms_memberID s) = None ∧ ¬ stopped a).

Lemma of_branches_members st a : of_branches st → of_members (ef_starts (st_eff st)) a.
Proof. intros Hb s Hs. destruct (Hb s Hs) as [H1 H2]. split; [done|]. by rewrite H2. Qed.

Lemma of_branches_same st st' : ef_starts (st_eff st') = ef_starts (st_eff st) → of_branches st → of_branches st'.
Proof. intros He Hb s. rewrite He. apply Hb. Qed.

Section entering.
Context (snap : gmap string memberInfo) (now : Time) (choice : string).

Lemma mark_running_Status i st : a_Status (st_a (mark_running now i st)) = a_Status (st_a st).
Proof. unfold mark_running. cbn. by rewrite a_Status_addCursor. Qed.

(** What starts a member adds a start of it. *)
Definition adds (i : nat) (b : bool) (st st' : stepper) : Prop :=
  ∃ s, ef_starts (st_eff st') = ef_starts (st_eff st) ++ [s] ∧ ms_branch s = b ∧ a_Status (st_a st') = a_Status (st_a st)
  ∧ ∀ id, automationMember g id = Some i → ms_memberID s = id ∧ start_of s.

Lemma startPRD_adds i r b st : of_g (st_a st) → kind (mem_at g i) = MemberKindPRD → adds i b st (startPRD snap now i r b st).
Proof.
  intros Ha Hk. eexists. split; [reflexivity|]. split; [done|]. split; [apply (mark_running_Status i st)|]. intros id Hi. cbn.
  pose proof (look_static W _ i id (frozen_shape Ha) Hi) as Hs. rewrite (look_ID W _ i id (frozen_shape Ha) Hi). split; [done|].
  exists i. cbn. split; [done|]. left. split; [done|]. split; [done|]. exact (f_equal m_PRDID Hs).
Qed.

Lemma startNested_adds i b st : of_g (st_a st) → kind (mem_at g i) = MemberKindAutomation → adds i b st (startNested snap now i b st).
Proof.
  intros Ha Hk. eexists. split; [reflexivity|]. split; [done|]. split; [apply (mark_running_Status i st)|]. intros id Hi. cbn.
  pose proof (look_static W _ i id (frozen_shape Ha) Hi) as Hs. rewrite (look_ID W _ i id (frozen_shape Ha) Hi). split; [done|].
  exists i. cbn. split; [done|]. right. split; [done|]. split; [done|]. exact (f_equal m_AutomationID Hs).
Qed.

Lemma adds_branch i id st st' : automationMember g id = Some i → adds i true st st' → of_branches st → of_branches st'.
Proof.
  intros Hi (s&He&Hb&_&Hs) H x. rewrite He, elem_of_app. intros [Hx| ->%list_elem_of_singleton]; [by apply H|].
  split; [by apply (Hs id)|done].
Qed.

Lemma adds_main i id st st' : automationMember g id = Some i → joinOf g id = None → ¬ stopped (st_a st) →
  adds i false st st' → of_branches st → of_members (ef_starts (st_eff st')) (st_a st').
Proof.
  intros Hi Hj Hs (s&He&Hb&Hst&Hx) H x. rewrite He, elem_of_app. intros [Hin| ->%list_elem_of_singleton].
  - destruct (H x Hin) as [H1 H2]. split; [done|]. by rewrite H2.
  - destruct (Hx id Hi) as [Hid Hof]. split; [done|]. intros _. rewrite Hid. split; [done|]. unfold stopped. by rewrite Hst.
Qed.

Lemma fork_loop_starts fork bs rs st st' r : of_g (st_a st) → fork_loop snap now fork bs rs st = (st', r) →
  (∀ b, b ∈ bs → ∀ k, automationMember g b = Some k → kind (mem_at g k) = MemberKindPRD ∨ kind (mem_at g k) = MemberKindAutomation) →
  of_branches st → of_branches st' ∧ (r ≠ None → a_Status (st_a st') = a_Status (st_a st)).
Proof.
  revert rs st. induction bs as [|b bs IH]; intros rs st Ha; cbn [fork_loop]; [by intros [= <- <-]|].
  rewrite (shape_automationMember (frozen_shape Ha)). destruct (automationMember g b) as [i|] eqn:Hi; [|by intros [= <- <-]].
  intros Hl Hk Hb. assert (∀ b', b' ∈ bs → ∀ k, automationMember g b' = Some k → kind (mem_at g k) = MemberKindPRD ∨ kind (mem_at g k) = MemberKindAutomation) as Hk'.
  { intros b' Hb'. apply Hk. by right. }
  specialize (Hk b (list_elem_of_here _ _) i Hi). rewrite (look_kind W _ i b _ (frozen_shape Ha) Hi) in Hl.
  assert (∀ st1 rs1, frozen (st_a st1) = frozen (st_a st) → a_Status (st_a st1) = a_Status (st_a st) → of_branches st1 →
    fork_loop snap now fork bs rs1 st1 = (st', r) → of_branches st' ∧ (r ≠ None → a_Status (st_a st') = a_Status (st_a st))) as Hrec.
  { intros st1 rs1 Hf <- Hb1 Hl1. apply (IH rs1 st1); [by rewrite Hf|done..]. }
  destruct (is_kind MemberKindAutomation (mem_at g i)) eqn:Hka.
  - apply is_kind_true in Hka. pose proof (startNested_adds i true st Ha Hka) as Had.
    apply (Hrec (startNested snap now i true st)) in Hl; [done|apply frozen_startNested|by destruct Had as (?&_&_&?&_)|by eapply adds_branch].
  - apply is_kind_false in Hka. destruct Hk as [Hk|]; [|done]. cbn zeta in Hl. destruct (String.eqb (gateMode _) "").
    + eapply Hrec in Hl; [done|by apply (frozen_upd i)|done|done].
    + match type of Hl with fork_loop _ _ _ _ _ (startPRD _ _ _ ?m _ _) = _ => pose proof (startPRD_adds i m true st Ha Hk) as Had end.
      eapply Hrec in Hl; [done|apply frozen_startPRD|by destruct Had as (?&_&_&?&_)|by eapply adds_branch].
Qed.

Lemma drop_pending_Status ps a : a_Status (drop_pending now ps a) = a_Status a.
Proof.
  revert a. induction ps as [|b ps IH]; intros a; cbn [drop_pending]; [done|]. destruct (automationMember a b); [|done].
  rewrite IH. cbn. unfold dropCursor. by destruct (automationIsLinear a).
Qed.

Lemma pathEnded_same s n r st : ef_starts (st_eff (pathEnded now s n r st)) = ef_starts (st_eff st).
Proof. unfold pathEnded. destruct (cursorsRemain _); [done|]. by destruct s. Qed.

Section recursion.
Context (enter : nat → stepper → option stepper).

(** What a part of a step that may start one member off the fork promises. *)
Definition starts_well (r : option stepper) : Prop :=
  ∀ st', r = Some st' → of_members (ef_starts (st_eff st')) (st_a st').

Hypothesis enter_starts : ∀ i id st, of_g (st_a st) → automationMember g id = Some i → joinOf g id = None →
  ¬ stopped (st_a st) → of_branches st → starts_well (enter i st).

Lemma starts_same st st' : ef_starts (st_eff st') = ef_starts (st_eff st) → of_branches st → starts_well (Some st').
Proof. intros He Hb ? [= <-]. by apply of_branches_members, (of_branches_same st). Qed.

Lemma follow_starts c i edge e fn r st : of_g (st_a st) → automationMember g c = Some i → ¬ stopped (st_a st) → of_branches st →
  starts_well (follow snap now enter i (edgeTarget (mem_at g i) edge) e fn r st).
Proof.
  intros Ha Hi Hs Hb. unfold follow. destruct (String.eqb_spec (edgeTarget (mem_at g i) edge) "") as [_|Hne].
  - by apply (starts_same st); [apply pathEnded_same|].
  - destruct (edge_target_ok W acyclic guarded c i edge _ Hi eq_refl Hne) as (_&Hj&_&k&Hk).
    rewrite (shape_automationMember (frozen_shape Ha)), Hk. intros st' He. exact (enter_starts k _ (moved snap _ fn k e st) Ha Hk Hj Hs Hb st' He).
Qed.

Lemma edge_target_static a i id e : of_g a → automationMember g id = Some i → edgeTarget (mem_at a i) e = edgeTarget (mem_at g i) e.
Proof.
  intros Ha Hi. pose proof (look_static W a i id (frozen_shape Ha) Hi) as Hs. unfold edgeTarget.
  by rewrite (f_equal m_OnComplete Hs : m_OnComplete (mem_at a i) = m_OnComplete (mem_at g i)),
    (f_equal m_OnBlocked Hs : m_OnBlocked (mem_at a i) = m_OnBlocked (mem_at g i)),
    (f_equal m_OnFailed Hs : m_OnFailed (mem_at a i) = m_OnFailed (mem_at g i)).
Qed.

Lemma fireJoin_starts j i rule w f p st : of_g (st_a st) → automationMember g j = Some i → ¬ stopped (st_a st) → of_branches st →
  starts_well (fireJoin snap now enter i rule w f p st).
Proof.
  intros Ha Hi Hs Hb. unfold fireJoin. cbn zeta.
  match goal with |- starts_well (follow _ _ _ _ (m_OnComplete (mem_at (st_a ?s1) i)) _ _ _ ?s2) => set (st1 := s1); set (st2 := s2) end.
  assert (of_g (st_a st1)) as H1. { unfold st1. cbn. rewrite frozen_upd by done. by rewrite frozen_drop_pending. }
  assert (a_Status (st_a st1) = a_Status (st_a st)) as Hst by (unfold st1; cbn; by rewrite drop_pending_Status).
  change (m_OnComplete (mem_at (st_a st1) i)) with (edgeTarget (mem_at (st_a st1) i) edgeOnComplete).
  rewrite (edge_target_static (st_a st1) i j) by done. apply (follow_starts j); [done|done| |done].
  change (¬ stopped (st_a st1)). unfold stopped. by rewrite Hst.
Qed.

Lemma evalJoin_starts j st : of_g (st_a st) → ¬ stopped (st_a st) → of_branches st → starts_well (evalJoin snap now enter j st).
Proof.
  intros Ha Hs Hb. unfold evalJoin. rewrite (shape_automationMember (frozen_shape Ha)).
  destruct (automationMember g j) as [i|] eqn:Hi; [|by apply (starts_same st)]. cbn zeta.
  destruct (negb _); [by apply (starts_same st)|]. destruct (classifyBranches _ _) as [[w p] fl].
  repeat (case_bool_decide || case_match); first [by apply (starts_same st)|by apply (fireJoin_starts j)].
Qed.

Lemma fireFork_starts i id st : of_g (st_a st) → automationMember g id = Some i → kind (mem_at g i) = MemberKindFork →
  ¬ stopped (st_a st) → of_branches st → starts_well (fireFork snap now enter i st).
Proof.
  intros Ha Hi Hk Hs Hb. unfold fireFork. cbn zeta. set (st1 := on_a (upd i _) st).
  assert (of_g (st_a st1)) as H1 by (unfold st1; cbn; by rewrite frozen_upd).
  destruct (joinFor _ _) as [j|]; [|by apply (starts_same st)]. set (st2 := on_a (upd j _) st1).
  assert (of_g (st_a st2)) as H2 by (unfold st2; cbn; by rewrite frozen_upd).
  assert (a_Status (st_a st2) = a_Status (st_a st)) as Hst by done.
  destruct (index_member W id i Hi) as [Hm _].
  destruct (fork_loop _ _ _ _ _ _) as [st3 r] eqn:El.
  pose proof (frozen_fork_loop snap now (m_ID (mem_at (st_a st1) i)) (sortedCopy (m_ForkMembers (mem_at (st_a st1) i))) [] st2) as Hf3.
  rewrite El in Hf3. cbn in Hf3. apply fork_loop_starts in El as [Hb3 Hst3]; [|done| |done].
  - destruct r as [rs|].
    + assert (of_g (st_a st3)) as H3 by (by rewrite Hf3). specialize (Hst3 ltac:(done)).
      intros st' He. refine (evalJoin_starts _ (decision now "fork" _ (audit _ _ st3)) _ _ _ st' He); [done| |done].
      change (¬ stopped (st_a st3)). unfold stopped. by rewrite Hst3, Hst.
    + intros st' [= <-]. by apply of_branches_members.
  - intros b Hbm k Hkb. rewrite (look_forks W _ i id (frozen_shape H1) Hi) in Hbm.
    assert (b ∈ m_ForkMembers (mem_at g i)) as Hbin by (by unfold sortedCopy, sort_strings in Hbm; rewrite elem_of_sort_by in Hbm).
    destruct (wf_branch g W _ b Hm) as (n&Hn&Hid&Hkn&_); [by apply elem_of_app; left|]. destruct (member_index g n W Hn) as (k'&Hk'&Hl).
    rewrite Hid, Hkb in Hk'. injection Hk' as <-. by rewrite (mem_at_lookup _ _ _ Hl).
Qed.

Lemma enter_body_starts i id st : of_g (st_a st) → automationMember g id = Some i → joinOf g id = None → ¬ stopped (st_a st) → of_branches st →
  starts_well (enter_body snap now choice enter i st).
Proof.
  intros Ha Hi Hj Hs Hb. unfold enter_body. cbn zeta. destruct (String.eqb _ _); [by apply (starts_same st)|].
  assert (∀ st1, of_g (st_a st1) → a_Status (st_a st1) = a_Status (st_a st) → of_branches st1 →
    starts_well (enter_kind snap now enter i st1)) as Hkind.
  { intros st1 H1 Hst1 Hb1. assert (¬ stopped (st_a st1)) as Hs1 by (unfold stopped; by rewrite Hst1).
    unfold enter_kind. cbn zeta. rewrite !(look_kind W _ i id _ (frozen_shape H1) Hi).
    destruct (is_kind MemberKindPRD _) eqn:Hk; [apply is_kind_true in Hk|].
    { destruct (String.eqb (gateMode _) ""); [by apply (starts_same st1)|]. intros ? [= <-]. eapply (adds_main i id st1); [done..|by apply startPRD_adds|done]. }
    destruct (is_kind MemberKindAutomation _) eqn:Hka; [apply is_kind_true in Hka|].
    { intros ? [= <-]. eapply (adds_main i id st1); [done..|by apply startNested_adds|done]. }
    destruct (is_kind MemberKindFork _) eqn:Hkf; [apply is_kind_true in Hkf|by apply (starts_same st1)].
    by apply (fireFork_starts i id). }
  destruct (is_kind MemberKindJoin _); [by apply Hkind|]. destruct (bv_Gate _).
  - apply (starts_same st); [|done]. unfold budgetGate. destruct (applyBudgetGate _ _ _ _ _) as [b e]. cbn. by destruct (String.eqb _ _).
  - intros st' He. refine (Hkind (on_a _ st) _ _ _ st' He); [|by cbn; destruct (a_BudgetState (st_a st))|done].
    rewrite <- Ha. cbn. by destruct (a_BudgetState (st_a st)).
Qed.
End recursion.

Lemma enter_starts f i id st : of_g (st_a st) → automationMember g id = Some i → joinOf g id = None → ¬ stopped (st_a st) → of_branches st →
  starts_well (enter snap now choice f i st).
Proof.
  revert i id st. induction f as [|f IH]; intros i id st; [by intros _ _ _ _ _ st'|]. cbn [enter].
  apply enter_body_starts. exact IH.
Qed.
End entering.

(** ** A step *)

Lemma finalize_same now st :
  ef_starts (st_eff (finalize now st)) = ef_starts (st_eff st) ∧ a_Status (st_a (finalize now st)) = a_Status (st_a st).
Proof.
  unfold finalize. cbn zeta. set (st1 := on_a (λ a, if automationIsLinear a then a else _) st).
  assert (ef_starts (st_eff st1) = ef_starts (st_eff st) ∧ a_Status (st_a st1) = a_Status (st_a st)) as [<- <-]
    by (unfold st1; cbn; by destruct (automationIsLinear (st_a st))).
  clearbody st1. by destruct (nonempty (ef_blocked _)), (nonempty (st_advNote st1)), (_ && _).
Qed.

Lemma finalize_starts now st : of_members (ef_starts (st_eff st)) (st_a st) →
  of_members (ef_starts (st_eff (finalize now st))) (st_a (finalize now st)).
Proof. destruct (finalize_same now st) as [-> Hs]. intros H s Hin. unfold stopped. rewrite Hs. by apply H. Qed.

Definition result_starts (r : option (res (Automation * stepEffects))) : Prop :=
  ∀ b eff, r = Some (Ok (b, eff)) → of_members (ef_starts eff) b.

Lemma result_of_starts now r : starts_well r → result_starts (result_of now r).
Proof. intros H b eff. destruct r as [st|]; [|done]. cbn. intros [= <- <-]. by apply finalize_starts, H. Qed.

Lemma none_of_branches st : ef_starts (st_eff st) = [] → of_branches st.
Proof. intros He s. rewrite He. by intros ?%elem_of_nil. Qed.

Lemma step_starts wall i snap : settled (g := g) g → ¬ stopped g → result_starts (step wall g i snap).
Proof.
  intros line Hs. unfold step. destruct (si_reeval i); [|destruct (si_startPending i)].
  - unfold stepJoinReeval. destruct (automationMember g (si_memberID i)) as [j|]; [|done]. destruct (negb _); [done|]. cbn zeta.
    destruct (evalJoin _ _ _ _ _) as [st|] eqn:E; [|done]. change (Some st ≫= ?k) with (k st). cbv beta. destruct (String.eqb _ _); [done|].
    apply result_of_starts. rewrite <- E. apply evalJoin_starts; [intros; by eapply enter_starts|done|done|by apply none_of_branches].
  - unfold stepStartPending. destruct (automationMember g (si_memberID i)) as [k|] eqn:Hk; [|done]. cbn zeta.
    destruct (negb _) eqn:Hc; [done|]. apply negb_false_iff, andb_true_iff in Hc as [[_ Hlive]%andb_true_iff Hu].
    destruct (negb (_ || _)); [done|]. destruct (budgetNoChange _ _); [done|].
    destruct (index_member W _ _ Hk) as [_ Hid]. rewrite Hid in *. set (id := si_memberID i) in *.
    apply isLive_cursors in Hlive; [|by eapply (id_ne W)]. apply memberUnstarted_true in Hu. rewrite <- (status_look g k id eq_refl Hk) in Hu.
    assert (joinOf g id = None) as Hj.
    { destruct line as [[[[c Hm]|(j&Hw&_)] _]|[_ [Hst _]]]; [| |done].
      - rewrite (ma_cursor _ _ Hm) in Hlive. apply list_elem_of_singleton in Hlive as ->. apply Hm.
      - apply (wa_cursors _ _ Hw) in Hlive as [_ Hr]. rewrite Hr in Hu. by apply running_started in Hu. }
    set (st1 := set_st_advNote _ _). destruct (enter _ _ _ _ _ _) as [st|] eqn:E; [|done]. change (Some st ≫= ?k) with (k st). cbv beta.
    apply enter_starts with (id := id) in E; [|apply frozen_dropCursor|done|done| |by apply none_of_branches].
    + apply result_of_starts. intros st' [= <-]. destruct (_ && _); [|done]. intros s Hin. destruct (E s Hin) as [H1 H2].
      split; [done|]. intros Hb. destruct (H2 Hb) as [H3 H4]. split; [done|]. cbn. unfold dropCursor, stopped in *. by destruct (automationIsLinear _).
    + unfold st1, dropCursor, stopped. cbn. by destruct (automationIsLinear g).
  - unfold stepEnd. destruct (automationMember g (si_memberID i)) as [k|] eqn:Hk; [|done]. cbn zeta. destruct (negb _); [done|].
    destruct (_ && _); [done|]. destruct (merged_end_alike (a := g) (at_time wall i) snap k (si_end i) (new_stepper g) eq_refl) as (Hal&_&He).
    set (st1 := merged_end _ _ _ _ _) in *. assert (of_g (st_a st1)) as H1 by (by rewrite <- (al_frozen _ _ Hal)).
    assert (a_Status (st_a st1) = a_Status g) as Hst1.
    { unfold st1, merged_end. destruct (e_merged _) as [n|]; [|done]. cbn zeta. by destruct (_ && mn_cancelled n). }
    assert (∀ e, let st2 := finish (at_time wall i) k e st1 in of_g (st_a st2) ∧ ¬ stopped (st_a st2) ∧ of_branches st2) as Hfin.
    { intros e. destruct (finish_spec W (at_time wall i) k _ e st1 H1 Hk) as (Hf&_&Hst&_). split; [done|]. split.
      - unfold stopped, finish. cbn. unfold dropCursor. destruct (automationIsLinear _); cbn; by rewrite Hst1.
      - apply none_of_branches. rewrite Hst. exact He. }
    apply result_of_starts. destruct (joinOf (st_a st1) _) as [j|].
    + apply evalJoin_starts; [intros; by eapply enter_starts|apply Hfin..].
    + destruct (nonempty _).
      * intros st' [= <-]. apply of_branches_members. by apply Hfin.
      * destruct (Hfin (si_end i)) as (F1&F2&F3). unfold followEdge. cbn zeta. rewrite (edge_target_static _ k (si_memberID i)) by done.
        apply (follow_starts snap _ _ (λ i id st, enter_starts snap _ _ _ i id st) (si_memberID i)); done.
Qed.
End starts.

(** * Automations: what a call of the coordinator leaves behind

    A small program logic for the calls of AutomationCoordinator: [returns] is
    total correctness, [silently] says that a call returns and changes neither the
    record of one Automation nor what was launched. The rest of the daemon is
    [calm] about that Automation: between the steps of a call it leaves its record
    alone and launches nothing. *)

#[local] Open Scope Z_scope.

Create HintDb calls.

(** ** Total correctness *)

Section returns.
Context {W : Type}.

Definition returns {A} (m : M W A) (s : W * Manager) (Q : A → W * Manager → Prop) : Prop :=
  ∃ x s', m s = Some (x, s') ∧ Q x s'.

Lemma returns_ret {A} (x : A) s (Q : A → W * Manager → Prop) : Q x s → returns (mret x) s Q.
Proof. intros HQ. by exists x, s. Qed.

Lemma returns_bind {A B} (m : M W A) (f : A → M W B) s Q :
  returns m s (λ x s', returns (f x) s' Q) → returns (m ≫= f) s Q.
Proof. intros (x&s'&Hm&y&s''&Hf&HQ). exists y, s''. split; [|done]. unfold mbind, M_bind. rewrite Hm. exact Hf. Qed.

Lemma returns_map {A B} (m : M W A) (f : A → B) s (Q : B → W * Manager → Prop) :
  returns m s (λ x, Q (f x)) → returns (f <$> m) s Q.
Proof. intros (x&s'&Hm&HQ). exists (f x), s'. split; [|done]. unfold fmap, M_map. by rewrite Hm. Qed.

Lemma returns_weaken {A} (m : M W A) s (P Q : A → W * Manager → Prop) :
  (∀ x s', P x s' → Q x s') → returns m s P → returns m s Q.
Proof. intros H (x&s'&Hm&HP). exists x, s'. split; [done|]. by apply H. Qed.

Lemma returns_get s Q : Q s s → returns get s Q.
Proof. intros HQ. by exists s, s. Qed.

Lemma returns_lift {A} (f : W → Manager → W * Manager * A) w m (Q : A → W * Manager → Prop) :
  (∀ w' m' x, f w m = (w', m', x) → Q x (w', m')) → returns (lift f) (w, m) Q.
Proof. intros HQ. destruct (f w m) as [[w' m'] x] eqn:E. exists x, (w', m'). split; [unfold lift; by rewrite E|]. by apply HQ. Qed.
End returns.

(** ** One Automation seen from outside *)

(** A start asked for. *)
Definition is_launch (o : output) : bool :=
  match o with OStart _ _ | OActivate _ => true | _ => false end.

Definition target (s : memberStart) : output :=
  if String.eqb (ms_kind s) MemberKindAutomation then OActivate (ms_childID s) else OStart (ms_prdID s) (ms_resume s).

Section calls.
Context {W : Type} {daemon : Daemon W} {starter : Starter W} {zones : TimeZones} {order : MapRange}.
Context (torn : W → list Automation → option (list Automation)) (id : string).

Definition record_of (s : W * Manager) : option Automation := Get (mg_store s.2) id.
Definition launches (s : W * Manager) : list output := List.filter is_launch (mg_out s.2).

Definition same (s s' : W * Manager) : Prop := record_of s' = record_of s ∧ launches s' = launches s.

#[export] Instance same_preorder : PreOrder same.
Proof. split; [done|]. intros s1 s2 s3 [H1 H2] [H3 H4]. split; congruence. Qed.

(** What the rest of the daemon may do between two steps of a call. *)
Record calm : Prop := {
  calm_others w m : same (w, m) (others w m);
  calm_nested act w m child actor : nestedStarter = Some act → same (w, m) (act w m child actor).1
}.

(** A call that returns, and that neither the record nor the launches show. *)
Definition silently {A} (m : M W A) : Prop := ∀ s, returns m s (λ _, same s).

Lemma silently_ret {A} (x : A) : silently (mret x).
Proof. intros s. by apply returns_ret. Qed.

Lemma silently_bind {A B} (m : M W A) (f : A → M W B) : silently m → (∀ x, silently (f x)) → silently (m ≫= f).
Proof.
  intros Hm Hf s. apply returns_bind. eapply returns_weaken; [|apply Hm]. intros x s' H.
  eapply returns_weaken; [|apply Hf]. intros y s'' H'. exact (transitivity H H').
Qed.

Lemma silently_map {A B} (m : M W A) (f : A → B) : silently m → silently (f <$> m).
Proof. intros Hm s. apply returns_map, Hm. Qed.

Lemma silently_get : silently get.
Proof. intros s. by apply returns_get. Qed.

Lemma silently_modify f : (∀ w m, same (w, m) (w, f m)) → silently (modify f).
Proof. intros H [w m]. exists tt, (w, f m). split; [done|apply H]. Qed.

Lemma silently_lift {A} (f : W → Manager → W * Manager * A) : (∀ w m, same (w, m) (f w m).1) → silently (lift f).
Proof. intros H [w m]. apply returns_lift. intros w' m' x E. specialize (H w m). by rewrite E in H. Qed.

Lemma silently_when b m : silently m → silently (when b m).
Proof. intros H. destruct b; [done|]. apply silently_ret. Qed.

Lemma silently_each {A} (f : A → M W unit) l : (∀ x, silently (f x)) → silently (each f l).
Proof. intros H. induction l as [|x l IH]; cbn [each]; [apply silently_ret|]. by apply silently_bind. Qed.

Lemma silently_emit o : is_launch o = false → silently (emit o).
Proof. intros H. apply silently_modify. intros w m. split; [done|]. unfold launches. cbn. rewrite List.filter_app. cbn. by rewrite H, app_nil_r. Qed.

Lemma silently_starting f : silently (modify (λ m, set_starting (f m) m)).
Proof. by apply silently_modify. Qed.

Lemma silently_interfere : calm → silently interfere.
Proof. intros C. apply silently_lift. intros w m. apply (calm_others C). Qed.

Lemma silently_on_prds f : silently (on_prds f).
Proof. apply silently_lift. intros w m. by destruct (f w (mg_prds m)) as [[w' p] e]. Qed.

#[local] Hint Resolve silently_ret silently_bind silently_map silently_get silently_when silently_each silently_starting
  silently_interfere silently_on_prds : calls.
#[local] Hint Extern 1 (silently (emit _)) => apply silently_emit; reflexivity : calls.
#[local] Hint Extern 1 (silently skip) => apply silently_ret : calls.
#[local] Hint Extern 2 (silently (match ?x with _ => _ end)) => destruct x : calls.
#[local] Hint Extern 2 (silently (let '_ := ?x in _)) => destruct x : calls.

Lemma silently_end key : silently (endStart key).
Proof. apply silently_modify. intros w m. by destruct (_ <=? _). Qed.

Lemma silently_begin l : silently (beginStarts l).
Proof. unfold beginStarts, beginStart. auto 10 with calls. Qed.

Lemma silently_release l : silently (releaseAll l).
Proof. unfold releaseAll, releaseStart. pose proof silently_end. auto 10 with calls. Qed.

Lemma silently_audit action details : silently (audit_ action details).
Proof. unfold audit_. auto with calls. Qed.

Lemma silently_afterBudget a e : silently (afterBudget a e).
Proof. unfold afterBudget. pose proof silently_audit. destruct e as [e|]; [|auto with calls]. destruct (_ || _); auto 10 with calls. Qed.

Lemma silently_afterMerged a n : silently (afterMergedMember a n).
Proof. unfold afterMergedMember. auto with calls. Qed.

Lemma silently_terminal a : silently (emitTerminal a).
Proof. unfold emitTerminal. auto with calls. Qed.

Lemma silently_blocked a reason details : silently (blocked a reason details).
Proof. unfold blocked. apply silently_bind; [auto with calls|]. intros _. apply silently_bind; [auto with calls|]. intros [w m]. auto with calls. Qed.

Lemma silently_decision p n : silently (memberDecision p n).
Proof. unfold memberDecision. apply silently_bind; [auto with calls|]. intros [w m]. auto with calls. Qed.

(** ** The membership of PRDs *)

Abbreviation untouched m m' := (mg_store m' = mg_store m ∧ mg_out m' = mg_out m).

Lemma join_members_kept w aid old new m w' m' r : join_members w aid old new m = (w', m', r) → untouched m m'.
Proof.
  revert w m. induction new as [|mem new IH]; intros w m; cbn [join_members]; [by intros [= <- <- <-]|].
  case_bool_decide; [apply IH|]. destruct (mg_prds m !! m_PRDID mem) as [prd|]; [|by intros [= <- <- <-]].
  destruct (savePRD w _) as [w1 [e|]]; [by intros [= <- <- <-]|]. intros Hr%IH. exact Hr.
Qed.

Lemma leave_members_kept w aid gone m w' m' r : leave_members w aid gone m = (w', m', r) → untouched m m'.
Proof.
  revert w m. induction gone as [|p gone IH]; intros w m; cbn [leave_members]; [by intros [= <- <- <-]|].
  destruct (mg_prds m !! p) as [prd|]; [|apply IH]. destruct (negb _); [apply IH|].
  destruct (savePRD w _) as [w1 [e|]]; [by intros [= <- <- <-]|]. intros Hr%IH. exact Hr.
Qed.

Lemma sync_kept w aid olds news t m w' m' r : syncAutomationMembership w aid olds news t m = (w', m', r) → untouched m m'.
Proof.
  unfold syncAutomationMembership. destruct (join_members _ _ _ _ _) as [[w1 m1] [u|e]] eqn:E; apply join_members_kept in E as [E1 E2].
  - intros [H1 H2]%leave_members_kept. split; congruence.
  - by intros [= <- <- <-].
Qed.

Lemma sync_same w aid olds news t m w' m' r : syncAutomationMembership w aid olds news t m = (w', m', r) → same (w, m) (w', m').
Proof. intros [H1 H2]%sync_kept. unfold same, record_of, launches. cbn. by rewrite H1, H2. Qed.

(** ** A write *)

(** What an update leaves in the store: its change as the store keeps it, or
    nothing. *)
Lemma update_store {X} w aid v (f : Automation → res (X * Automation)) m w' m' r :
  update torn w aid v f m = (w', m', r) →
  mg_out m' = mg_out m
  ∧ match r with
    | Ok (x, b) => ∃ a y, Get (mg_store m) aid = Some a ∧ f a = Ok (x, y) ∧ stored (set_a_ID aid y) b
                     ∧ automations (mg_store m') = <[aid := b]> (automations (mg_store m))
    | Err _ => automations (mg_store m') = automations (mg_store m)
    end.
Proof.
  unfold update. destruct (Update _ _ _ _ _ _ _) as [[w1 s1] [b|e]] eqn:Hu.
  - pose proof (update_stored _ _ _ _ _ _ _ _ _ _ Hu) as (a&y&z&Ha&_&Hy&Hz&->&Hs&_). unfold Get. rewrite Ha. cbn.
    destruct (f a) as [[x y']|e] eqn:Hf; [|done]. cbn in Hy. injection Hy as ->. intros [= <- <- <-]. split; [done|].
    exists a, y. split; [done|]. split; [exact Hf|]. split; [|exact Hs].
    unfold stored. unfold check_record in Hz. apply bind_Ok in Hz as (z'&Hz'&Hz).
    assert (z' = z) as ->. { by apply bind_Ok in Hz as (?&_&(?&_&(?&_&[= <-])%bind_Ok)%bind_Ok). }
    eexists _, _, z. done.
  - intros [= <- <- <-]. split; [done|]. by pose proof (update_failed _ _ _ _ _ _ _ _ _ _ Hu) as [Hs _].
Qed.

(** An update that goes through has found the record at the version it was for,
    and leaves it at the next. *)
Lemma update_guarded {X} w aid v (f : Automation → res (X * Automation)) m w' m' x b :
  update torn w aid v f m = (w', m', Ok (x, b)) →
  ∃ a, Get (mg_store m) aid = Some a ∧ (0 < v → a_Version a = v) ∧ a_Version b = wrap64 (a_Version a + 1).
Proof.
  unfold update. destruct (Update _ _ _ _ _ _ _) as [[w1 s1] [b1|e]] eqn:Hu; [|done].
  pose proof (update_stored _ _ _ _ _ _ _ _ _ _ Hu) as (a&y&z&Ha&Hv&_&_&->&_).
  destruct (f <$> Get (mg_store m) aid) as [[[x1 a1]|]|]; [|done..]. intros [= <- <- <- <-]. by exists a.
Qed.

(** The same of the one Automation. *)
Lemma update_record {X} w v (f : Automation → res (X * Automation)) m w' m' r :
  update torn w id v f m = (w', m', r) →
  launches (w', m') = launches (w, m)
  ∧ match r with
    | Ok (x, b) => ∃ a y, record_of (w, m) = Some a ∧ f a = Ok (x, y) ∧ stored (set_a_ID id y) b ∧ record_of (w', m') = Some b
    | Err _ => record_of (w', m') = record_of (w, m)
    end.
Proof.
  intros [Ho Hr]%update_store. unfold launches, record_of, Get. cbn. split; [by rewrite Ho|]. destruct r as [[x b]|e]; [|by rewrite Hr].
  destruct Hr as (a&y&Ha&Hf&Hst&Hs). exists a, y. split; [exact Ha|]. split; [done|]. split; [done|]. rewrite Hs. apply lookup_insert_eq.
Qed.

(** ** A start *)

Definition grows (l : list output) (s s' : W * Manager) : Prop := record_of s' = record_of s ∧ launches s' = launches s ++ l.

Lemma grows_after l s s1 s2 : same s s1 → grows l s1 s2 → grows l s s2.
Proof. intros [H1 H2] [H3 H4]. split; congruence. Qed.

Lemma grows_before l s s1 s2 : grows l s s1 → same s1 s2 → grows l s s2.
Proof. intros [H1 H2] [H3 H4]. split; congruence. Qed.

(** A start is asked for once, whatever comes of it. *)
Lemma runStart_grows s st : calm → returns (runStart s) st (λ _ st', grows [target s] st st').
Proof.
  intros C. unfold runStart, target. apply returns_bind. eapply returns_weaken; [|by apply silently_interfere]. intros [] st1 H1.
  assert (∀ o (m : M W (option string)), silently m → is_launch o = true →
    returns (emit o ;; m) st1 (λ _ st', grows [o] st st')) as Hemit.
  { intros o m Hm Ho. apply returns_bind. destruct st1 as [w m1]. exists tt, (w, say o m1). split; [done|].
    eapply returns_weaken; [|apply Hm]. intros x s' H'. eapply grows_after; [exact H1|]. eapply grows_before; [|exact H'].
    split; [done|]. unfold launches. cbn. rewrite List.filter_app. cbn. by rewrite Ho. }
  destruct (String.eqb (ms_kind s) MemberKindAutomation); apply Hemit; [|done| |done].
  - destruct nestedStarter as [act|] eqn:Hact; [|auto with calls]. apply silently_lift. intros w m. by apply (calm_nested C).
  - apply silently_bind; [auto with calls|]. intros e. apply silently_bind; [auto with calls|]. auto with calls.
Qed.
End calls.
