(* ===== verification/AutomationDrive.v ===== *)
(** * Automations: the coordinator lives a life

    Whatever end the coordinator is told of, the call returns, the record it leaves
    is one step, or several, further in the life of its Automation, and what it
    asked to start is what that life has started, each once. [carried] says so of a
    call. The fuel of [advance] is the depth to which refused starts of branches
    are ends in turn: each of them comes after a write that started a member, so
    one more than the members is enough.

    Twice: with nobody else writing the record ([calm]), any start being refused;
    and in company ([accompanied]), others carrying the record on between the steps
    of the call, which is where the version guards the write. *)

From S2P Require Import Prelude GoBase GoText RecordStore Graph.
From S2P Require Import AutomationSettings.
From S2P Require Import Automation AutomationGraph AutomationValidate AutomationWf.
From S2P Require Import AutomationAccept.
From S2P Require Import AutomationStep AutomationFrame AutomationEnds AutomationStore.
From S2P Require Import AutomationControl AutomationManager AutomationCoordinator.
From S2P Require Import AutomationReconcile.
From S2P Require Import AutomationFrontier AutomationMoves AutomationRun.
From S2P Require Import AutomationLife AutomationCalls.

#[local] Open Scope Z_scope.

Section drive.
Context {W : Type} {daemon : Daemon W} {starter : Starter W} {zones : TimeZones} {order : MapRange}.
Context (torn : W → list Automation → option (list Automation)) (g : Automation).
Hypothesis new : fresh g.
Hypothesis quietly : calm (a_ID g).

Abbreviation id := (a_ID g).
Abbreviation record_of := (record_of id).
Abbreviation same := (same id).
Abbreviation silently := (silently id).
Abbreviation ids T := (ms_memberID <$> T).
Abbreviation start_of := (start_of (g := g)).

(** ** How much there is left to start *)

Definition left_to_start (a : Automation) : nat := length (filter (λ x, unstarted (status a x)) (m_ID <$> a_Members g)).

Lemma left_starts a b T : mono a b → NoDup (ids T) → Forall start_of T →
  (∀ x, x ∈ ids T → unstarted (status a x) ∧ status b x = MemberRunning) →
  (left_to_start b + length T ≤ left_to_start a)%nat.
Proof.
  intros Hm Hnd Hof Hx. pose proof (wf_ids _ (wf_members _ (fr_wf g new))) as Hids. cbn in Hids. unfold left_to_start.
  rewrite <- (length_fmap ms_memberID T), Nat.add_comm, <- length_app. apply submseteq_length, NoDup_submseteq.
  - apply NoDup_app. split; [done|]. split; [|by apply NoDup_filter].
    intros x [_ Hr]%Hx [Hu _]%list_elem_of_filter. rewrite Hr in Hu. by apply running_started in Hu.
  - intros x [Hin|[Hu Hin]%list_elem_of_filter]%elem_of_app; apply list_elem_of_filter.
    + split; [by apply Hx|]. apply list_elem_of_fmap in Hin as (s&->&Hs). rewrite Forall_forall in Hof.
      destruct (Hof s Hs) as (k&Hk&_). pose proof (wf_members _ (fr_wf g new)) as G.
      destruct (index_member (g := set_a_Status AutomationActive g) G _ _ Hk) as [H1 <-]. by apply list_elem_of_fmap_2.
    + split; [|done]. destruct (decide (unstarted (status a x))) as [|Hn]; [done|]. by apply Hm in Hn.
Qed.

Lemma left_bound a : (left_to_start a ≤ length (a_Members g))%nat.
Proof. unfold left_to_start. etrans; [apply length_filter|]. by rewrite length_fmap. Qed.

(** ** A call that carries the record on *)

Definition carried (l : list output) (S : list string) (a : Automation) (s s' : W * Manager) : Prop :=
  ∃ T a', record_of s' = Some a' ∧ life g (S ++ ids T) a' ∧ launches s' ≡ₚ launches s ++ l ++ (target <$> T) ∧ Forall start_of T
  ∧ (under_way a' → under_way a ∧ left_to_start a' ≤ left_to_start a)%nat.

Lemma carried_same S a s s' : record_of s = Some a → life g S a → same s s' → carried [] S a s s'.
Proof. intros Hr Hl [H1 H2]. exists [], a. rewrite app_nil_r, H1, H2. cbn. by rewrite app_nil_r. Qed.

Lemma carried_grows l S a s s1 s' : grows id l s s1 → carried [] S a s1 s' → carried l S a s s'.
Proof. intros [H1 H2] (T&a'&Hr&Hl&Hp&Hrest). exists T, a'. split; [done|]. split; [done|]. split; [|done]. by rewrite Hp, H2, <- app_assoc. Qed.

Lemma carried_after l S a s s1 s' : same s s1 → carried l S a s1 s' → carried l S a s s'.
Proof. intros [H1 H2] (T&a'&Hr&Hl&Hp&Hrest). exists T, a'. by rewrite <- H2. Qed.

Lemma carried_before l S a s s1 s' : same s1 s' → carried l S a s s1 → carried l S a s s'.
Proof. intros [H1 H2] (T&a'&Hr&Hl&Hp&Hrest). exists T, a'. by rewrite H1, H2. Qed.

(** The record a call has been carried to, for the calls that follow. *)
Definition onward (S : list string) (a : Automation) (st : W * Manager) (a0 : Automation) : Prop :=
  record_of st = Some a ∧ life g S a ∧ (under_way a → under_way a0 ∧ left_to_start a ≤ left_to_start a0)%nat.

Lemma onward_refl S a st : record_of st = Some a → life g S a → onward S a st a.
Proof. intros Hr L. by repeat split. Qed.

Lemma carried_trans l1 l2 S a s s1 s2 : carried l1 S a s s1 →
  (∀ S1 a1, onward S1 a1 s1 a → carried l2 S1 a1 s1 s2) → carried (l1 ++ l2) S a s s2.
Proof.
  intros (T&a1&Hr&Hl&Hp&Ho&Hu) H. destruct (H (S ++ ids T) a1) as (T2&a2&Hr2&Hl2&Hp2&Ho2&Hu2); [done|].
  exists (T ++ T2), a2. rewrite fmap_app, (app_assoc S). split; [done|]. split; [done|]. split.
  - rewrite Hp2, Hp, fmap_app, <- !app_assoc. by rewrite (app_assoc l2), (app_assoc (target <$> T)), (Permutation_app_comm (target <$> T) l2), <- !app_assoc.
  - split; [by apply Forall_app|]. intros [H1 H2]%Hu2. destruct (Hu H1). split; [done|]. by etrans.
Qed.

Lemma returns_carried_with {A B} (m : M W A) (f : A → M W B) l1 l2 (R : A → Prop) S a st :
  returns m st (λ x st', carried l1 S a st st' ∧ R x) →
  (∀ x S1 a1 st1, R x → onward S1 a1 st1 a → returns (f x) st1 (λ _, carried l2 S1 a1 st1)) →
  returns (m ≫= f) st (λ _, carried (l1 ++ l2) S a st).
Proof.
  intros Hm Hf. apply returns_bind. eapply returns_weaken; [|exact Hm]. intros x st1 [Hc Hx]. cbn. pose proof Hc as (T&a1&Hr&Hl&_&_&Hu).
  destruct (Hf x (S ++ ids T) a1 st1) as (y&st2&Hy&_); [done..|]. exists y, st2. split; [done|]. eapply carried_trans; [exact Hc|].
  intros S1 a1' Ho. destruct (Hf x S1 a1' st1 Hx Ho) as (y'&st2'&Hy'&Hc'). rewrite Hy in Hy'. by injection Hy' as <- <-.
Qed.

Lemma returns_carried {A B} (m : M W A) (f : A → M W B) l1 l2 S a st :
  returns m st (λ _, carried l1 S a st) →
  (∀ x S1 a1 st1, onward S1 a1 st1 a → returns (f x) st1 (λ _, carried l2 S1 a1 st1)) →
  returns (m ≫= f) st (λ _, carried (l1 ++ l2) S a st).
Proof.
  intros Hm Hf. apply (returns_carried_with _ _ l1 l2 (λ _, True)); [|eauto].
  eapply returns_weaken; [|exact Hm]. by intros x st1 Hc.
Qed.

(** A call in front that nothing shows. *)
Lemma returns_quiet {A B} (m : M W A) (f : A → M W B) l S a st :
  silently m → (∀ x st1, same st st1 → returns (f x) st1 (λ _, carried l S a st1)) → returns (m ≫= f) st (λ _, carried l S a st).
Proof.
  intros Hm Hf. apply returns_bind. eapply returns_weaken; [|apply Hm]. intros x st1 H1.
  eapply returns_weaken; [|by apply Hf]. intros y st2 Hc. exact (carried_after _ _ _ _ _ _ H1 Hc).
Qed.

(** A call behind that nothing shows. *)
Lemma returns_then_quiet {A B} (m : M W A) (f : A → M W B) l S a st :
  returns m st (λ _, carried l S a st) → (∀ x, silently (f x)) → returns (m ≫= f) st (λ _, carried l S a st).
Proof.
  intros Hm Hf. apply returns_bind. eapply returns_weaken; [|exact Hm]. intros x st1 Hc.
  eapply returns_weaken; [|apply Hf]. intros y st2 H2. exact (carried_before _ _ _ _ _ _ H2 Hc).
Qed.

(** ** What is known of a record in its life *)

Section known.
Context {S : list string} {a : Automation} (L : life g S a).

Lemma known_living : living g S a.
Proof. by apply life_living. Qed.
Lemma known_graph : wf_graph a.
Proof. apply wf_members, (lv_wf _ _ _ known_living). Qed.
Lemma known_tc x : ¬ tc (member_edge a) x x.
Proof. apply wf_tc; [apply (lv_wf _ _ _ known_living)|apply (lv_left _ _ _ known_living)]. Qed.
Lemma known_guarded : branches_reached_by_forks a.
Proof. apply (guarded_shape g); [apply (lv_shape _ _ _ known_living)|apply new]. Qed.
Lemma known_line : settled (g := a) a.
Proof. apply (lv_line _ _ _ known_living). Qed.
Lemma known_id : a_ID a = id.
Proof. exact (f_equal (λ t, t.1.1) (lv_shape _ _ _ known_living)). Qed.

Lemma known_start s : AutomationCalls.start_of (g := a) s → start_of s.
Proof.
  pose proof (lv_shape _ _ _ known_living) as Hs. intros (k&Hk&Hkind).
  assert (automationMember g (ms_memberID s) = Some k) as Hk' by (by rewrite <- (shape_automationMember Hs)). exists k. split; [done|].
  pose proof (look_static (g := set_a_Status AutomationActive g) (wf_members _ (fr_wf g new)) a k _ Hs Hk') as Hst.
  rewrite <- (static_kind _ _ Hst : kind (mem_at a k) = kind (mem_at g k)).
  by rewrite <- (f_equal m_PRDID Hst : m_PRDID (mem_at a k) = m_PRDID (mem_at g k)),
    <- (f_equal m_AutomationID Hst : m_AutomationID (mem_at a k) = m_AutomationID (mem_at g k)).
Qed.

Lemma start_kind s : start_of s → kind_of (g := a) (ms_memberID s) ≠ MemberKindJoin.
Proof.
  intros (k&Hk&Hkind). pose proof (lv_shape _ _ _ known_living) as Hs. rewrite <- (shape_automationMember Hs) in Hk.
  rewrite (kind_of_index (g := a) _ k Hk). rewrite (shape_automationMember Hs) in Hk.
  pose proof (look_static (g := set_a_Status AutomationActive g) (wf_members _ (fr_wf g new)) a k _ Hs Hk) as Hst.
  rewrite (static_kind _ _ Hst : kind (mem_at a k) = kind (mem_at g k)). destruct Hkind as [[-> _]|[-> _]]; done.
Qed.

(** The only cursor of a record under way on whose main line a member runs. *)
Lemma known_main x : joinOf a x = None → status a x = MemberRunning → kind_of (g := a) x ≠ MemberKindJoin → cursors a = [x].
Proof.
  intros Hj Hr Hk. destruct known_line as [[[[c Hm]|(j&Hw&_)] _]|[[_ Hq] _]].
  - by rewrite (ma_cursor _ _ Hm), (ma_alone _ _ Hm x Hr).
  - exfalso. destruct (wa_alone _ _ Hw x Hr) as [->|Hb]; [by apply Hk, Hw|].
    destruct (started_member a j eq_refl) as [i Hi]; [rewrite (wa_status _ _ Hw); apply running_started|].
    destruct (branch_spec known_graph j i x Hi (wa_kind _ _ Hw) Hb) as (_&_&_&Hjo). by rewrite Hjo in Hj.
  - by apply Hq in Hr.
Qed.
End known.

Lemma set_id_same a : a_ID a = id → set_a_ID id a = a.
Proof. intros <-. by destruct a. Qed.

(** ** What one write does *)

(** A step stored: one turn of the life, and what the starts are of. *)
Lemma step_stored S a wall i snap y eff b : life g S a → under_way a → ends_member i →
  step wall a i snap = Some (Ok (y, eff)) → stored (set_a_ID id y) b →
  life g (S ++ ids (ef_starts eff)) b ∧ Forall start_of (ef_starts eff) ∧ NoDup (ids (ef_starts eff))
  ∧ (left_to_start b + length (ef_starts eff) ≤ left_to_start a)%nat
  ∧ ∀ s, s ∈ ef_starts eff → ms_branch s = false →
      joinOf b (ms_memberID s) = None ∧ under_way b ∧ status b (ms_memberID s) = MemberRunning.
Proof.
  intros L Hu Hi Hstep Hst. pose proof (turn_step a wall i snap y eff Hu Hi Hstep) as Ht.
  destruct (turn_turned (known_graph L) (known_tc L) (known_guarded L) (known_line L) _ _ Ht) as [Hf Hset Hm Hnd Hx].
  assert (set_a_ID id y = y) as Hid.
  { apply set_id_same. rewrite <- (known_id L). exact (f_equal a_ID Hf). }
  rewrite Hid in Hst. pose proof (stored_spec y b Hst) as [_ Hbs Hstat Hk _ _ _].
  pose proof (step_starts (known_graph L) (known_tc L) (known_guarded L) wall i snap (known_line L) Hu y eff Hstep) as Hof.
  assert (Forall start_of (ef_starts eff)) as Hall.
  { apply Forall_forall. intros s Hs. apply (known_start L). by apply Hof. }
  split; [by apply (life_turn g S _ a y)|]. split; [done|]. split; [done|]. split.
  - destruct (step_moves (known_graph L) (known_tc L) (known_guarded L) (known_line L) wall i snap Hu Hi y eff Hstep) as [_ _ Hmono _].
    apply left_starts; [|done|done|].
    + intros x. rewrite Hstat. apply Hmono.
    + intros x Hin. rewrite Hstat. by apply Hx.
  - intros s Hs Hb. destruct (Hof s Hs) as [_ Hmain]. destruct (Hmain Hb) as [Hj Hns]. split_and!.
    + rewrite <- (shape_joinOf Hbs), (shape_joinOf (frozen_shape Hf)). done.
    + unfold under_way, stopped. by rewrite Hk.
    + rewrite Hstat. apply Hx. by apply list_elem_of_fmap_2.
Qed.

Lemma update_here {X} w m v (f : Automation → res (X * Automation)) (Q : res (X * Automation) → W * Manager → Prop) :
  (∀ e s', same (w, m) s' → Q (Err e) s') →
  (∀ a x y b s', record_of (w, m) = Some a → f a = Ok (x, y) → stored (set_a_ID id y) b → record_of s' = Some b →
     launches s' = launches (w, m) → Q (Ok (x, b)) s') →
  returns (lift (λ w m, update torn w id v f m)) (w, m) Q.
Proof.
  intros He Hok. apply returns_lift. intros w' m' r Hu. apply update_record in Hu as [Hl Hr]. destruct r as [[x b]|e].
  - destruct Hr as (a&y&Ha&Hf&Hst&Hb). by eapply Hok.
  - by apply He.
Qed.

(** A start off the fork that failed: the record is blocked. *)
Lemma startFailed_carries S a s st err : record_of st = Some a → life g S a → under_way a → start_of s →
  joinOf a (ms_memberID s) = None → status a (ms_memberID s) = MemberRunning →
  returns (startFailed torn id s err) st (λ _, carried [] S a st).
Proof.
  intros Hr L Hu Hof Hj Hrun. unfold startFailed. cbn zeta. apply returns_bind. destruct st as [w m].
  apply (returns_lift (λ w m, update torn w id 0 _ m)). intros w' m' r Hup. apply update_record in Hup as [Hl Hres]. destruct r as [[[] b]|e].
  2:{ apply returns_ret. by apply carried_same. }
  destruct Hres as (a'&y&Ha&Hf&Hst&Hb). rewrite Hr in Ha. injection Ha as <-. unfold silent in Hf. cbn in Hf. injection Hf as <-.
  assert (automationMember a (ms_memberID s) = automationMember g (ms_memberID s)) as Hix.
  { apply shape_automationMember, (lv_shape g S a). by apply life_living. }
  destruct Hof as (k&Hk&Hkind). rewrite <- Hix in Hk.
  set (y := start_failed_change _ _ _ _) in *.
  assert (turn a [] y) as Ht.
  { apply (turn_start_failed a (wall w) (ms_memberID s) k); [done|done|by rewrite <- (status_look a k _ eq_refl Hk)|done|].
    apply is_kind_false. pose proof (lv_shape g S a (life_living g S a new L)) as Hs.
    pose proof (look_static (g := set_a_Status AutomationActive g) (wf_members _ (fr_wf g new)) a k (ms_memberID s) Hs ltac:(by rewrite Hix in Hk)) as Hsk.
    rewrite (static_kind _ _ Hsk : kind (mem_at a k) = kind (mem_at g k)). destruct Hkind as [[-> _]|[-> _]]; done. }
  destruct (turn_turned (known_graph L) (known_tc L) (known_guarded L) (known_line L) _ _ Ht) as [Hfz _ _ _ _].
  rewrite set_id_same in Hst by (rewrite <- (known_id L); exact (f_equal a_ID Hfz)).
  pose proof (stored_spec y b Hst) as [_ _ _ Hk' _ _ _].
  assert (carried [] S a (w, m) (w', m')) as Hc.
  { exists [], b. split; [done|]. split; [by apply (life_turn g S [] a y)|]. rewrite Hl, app_nil_r. split; [done|]. split; [constructor|].
    intros Hub. exfalso. apply Hub. unfold stopped. rewrite Hk'. unfold y, start_failed_change.
    set (a1 := match automationMember _ _ with Some _ => _ | None => _ end).
    assert (a_Status a1 = AutomationBlocked) as E by (unfold a1; by destruct (automationMember _ _)).
    cbn. unfold dropCursor. destruct (automationIsLinear a1); cbn; by rewrite E. }
  apply returns_bind. eapply returns_weaken; [|apply silently_terminal]. intros [] s1 H1.
  eapply returns_weaken; [|apply silently_blocked]. intros [] s2 H2. eapply carried_before; [|exact Hc]. exact (transitivity H1 H2).
Qed.

(** ** The loop of attempts *)

Lemma step_no_cursor wall a i snap : si_reeval i = false → si_startPending i = false →
  (∀ k, automationMember a (si_memberID i) = Some k → isLiveCursor a (m_ID (mem_at a k)) = false) →
  step wall a i snap = Some (Err errStaleStep).
Proof.
  intros H1 H2 Hl. unfold step, stepEnd. rewrite H1, H2. destruct (automationMember a (si_memberID i)) as [k|]; [|done].
  cbn zeta. by rewrite (Hl k eq_refl).
Qed.

Lemma retry_returns {A} n (once : M W (option A)) st (Q : option A → W * Manager → Prop) :
  (∀ st1, same st st1 → returns once st1 (λ r st', match r with Some x => Q (Some x) st' | None => same st st' end)) →
  (∀ st1, same st st1 → Q None st1) → returns (retry n once) st Q.
Proof.
  intros H HN. cut (∀ st1, same st st1 → returns (retry n once) st1 Q); [intros Hc; by apply Hc|].
  induction n as [|n IH]; intros st1 H1; cbn [retry]; [by apply returns_ret, HN|].
  apply returns_bind. eapply returns_weaken; [|by apply H]. intros [x|] st2 Hx; [by apply returns_ret|by apply IH].
Qed.

Lemma advance_once f i st Q :
  (∀ st1 t, same st st1 → returns (attempt torn (advance torn f) id (stamped t i)) st1 (λ b st', if b : bool then Q st' else same st st')) →
  (∀ st1, same st st1 → Q st1) → returns (advance torn (Datatypes.S f) id i) st (λ _, Q).
Proof.
  intros H HQ. cbn [advance]. apply returns_bind. exists (wall st.1), st. split; [done|]. apply returns_map.
  apply retry_returns; [|done]. intros st1 H1. apply returns_map. eapply returns_weaken; [|by apply H]. by intros [] st2.
Qed.

Lemma advance_stays f i st a : record_of st = Some a → si_reeval i = false → si_startPending i = false →
  (∀ k, automationMember a (si_memberID i) = Some k → isLiveCursor a (m_ID (mem_at a k)) = false) →
  returns (advance torn (Datatypes.S f) id i) st (λ _, same st).
Proof.
  intros Hr H1 H2 Hl.
  apply (advance_once f i st (same st)); [|done]. intros [w m] t Hs. unfold attempt. apply returns_bind, returns_get.
  pose proof (eq_trans (proj1 Hs) Hr) as Hm. unfold AutomationCalls.record_of in Hm. cbn in Hm. rewrite Hm.
  destruct (negb _); [by apply returns_ret|]. rewrite step_no_cursor; [by apply returns_ret|unfold stamped; by destruct (IsZero _)..|].
  intros k. unfold stamped. destruct (IsZero _); apply Hl.
Qed.

(** ** What an attempt does *)

Definition carries (f : nat) : Prop := ∀ i st S a, ends_member i → record_of st = Some a → life g S a → (0 < f)%nat →
  (under_way a → left_to_start a < f)%nat → returns (advance torn f id i) st (λ _, carried [] S a st).

(** A start that may be asked for on the record. *)
Definition may_launch (a : Automation) (s : memberStart) : Prop :=
  start_of s ∧ (ms_branch s = false → cursors a = [ms_memberID s] ∧ joinOf a (ms_memberID s) = None ∧ under_way a
                                       ∧ status a (ms_memberID s) = MemberRunning).

Section launching.
Context (f : nat) (rec : carries f).

(** What [launch] does with the answer of a start. *)
Abbreviation then_ s e := (match e with None => skip | Some t => if ms_branch s then branchStartFailed (advance torn f) id s t
                                                              else startFailed torn id s t end).

Lemma launch_splits s st Q :
  (∀ e st1, grows id [target s] st st1 → returns (then_ s e) st1 (λ _, Q)) → returns (launch torn (advance torn f) id s) st (λ _, Q).
Proof.
  intros H. unfold launch. apply returns_bind. eapply returns_weaken; [|apply (runStart_grows id s st quietly)]. intros e st1 Hg. cbn.
  apply returns_bind. match goal with |- returns ?m _ _ => assert (silently m) as Hq end.
  { destruct (String.eqb _ _); [apply silently_audit|apply silently_when, silently_audit]. }
  eapply returns_weaken; [|apply Hq]. intros [] st2 H2. apply H. exact (grows_before _ _ _ _ _ Hg H2).
Qed.

Lemma launch_carries s S a st : record_of st = Some a → life g S a → may_launch a s → (0 < f)%nat →
  (under_way a → left_to_start a < f)%nat →
  returns (launch torn (advance torn f) id s) st (λ _, carried [target s] S a st).
Proof.
  intros Hr L [Hof Hmain] Hf Hleft. apply launch_splits. intros e st1 Hg. pose proof (proj1 Hg) as Hr1. rewrite Hr in Hr1.
  eapply returns_weaken; [intros x st2 Hc; exact (carried_grows _ _ _ _ _ _ Hg Hc)|].
  destruct e as [t|]; [|apply returns_ret; by apply carried_same]. destruct (ms_branch s) eqn:Hb.
  - unfold branchStartFailed. apply rec; [|done..]. split; [by intros [|]|done].
  - destruct (Hmain eq_refl) as (_&Hj&Hu&Hrun). by apply startFailed_carries.
Qed.

(** A branch whose join has fired already: nothing comes of its refusal. *)
Lemma launch_late s a st : record_of st = Some a → ms_branch s = true → (0 < f)%nat →
  (∀ k, automationMember a (ms_memberID s) = Some k → isLiveCursor a (m_ID (mem_at a k)) = false) →
  returns (launch torn (advance torn f) id s) st (λ _, grows id [target s] st).
Proof.
  intros Hr Hb Hf Hlive. apply launch_splits. intros e st1 Hg. pose proof (proj1 Hg) as Hr1. rewrite Hr in Hr1. rewrite Hb.
  destruct e as [t|]; [|by apply returns_ret]. destruct f as [|f']; [lia|].
  eapply returns_weaken; [intros x st2 Hs; exact (grows_before _ _ _ _ _ Hg Hs)|].
  unfold branchStartFailed. by apply (advance_stays f' _ st1 a).
Qed.

Lemma launches_carry l S a st : record_of st = Some a → life g S a → Forall (may_launch a) l → NoDup (ids l) →
  (l ≠ [] → 0 < f ∧ (under_way a → left_to_start a < f))%nat →
  returns (each (launch torn (advance torn f) id) l) st (λ _, carried (target <$> l) S a st).
Proof.
  revert S a st. induction l as [|s l IH]; intros S a st Hr L Hall Hnd Hfuel.
  { apply returns_ret. by apply carried_same. }
  destruct (Hfuel ltac:(done)) as [Hf Hleft].
  apply Forall_cons in Hall as [Hs Hall]. apply NoDup_cons in Hnd as [Hin Hnd]. cbn [each fmap list_fmap].
  destruct (decide (Forall (λ s, ms_branch s = true) l)) as [Hb|Hb].
  - apply (returns_carried _ _ [target s] (target <$> l)); [by apply launch_carries|]. intros _ S1 a1 st1 (Hr1&L1&Hu1).
    apply IH; [done|done| |done|intros _; split; [done|]; intros Hu; destruct (Hu1 Hu) as [Hu0 Hle]; specialize (Hleft Hu0); lia].
    rewrite Forall_forall in Hb, Hall |- *. intros x Hx. split; [by apply Hall|]. by rewrite (Hb x Hx).
  - apply not_Forall_Exists in Hb; [|apply _]. apply Exists_exists in Hb as (n&Hn&Hnb). apply not_true_is_false in Hnb.
    rewrite Forall_forall in Hall. destruct (proj2 (Hall n Hn) Hnb) as (Hcur&_).
    assert (ms_memberID s ≠ ms_memberID n) as Hne by (intros E; apply Hin; rewrite E; by apply list_elem_of_fmap_2).
    assert (ms_branch s = true) as Hsb.
    { destruct (ms_branch s) eqn:E; [done|]. destruct (proj2 Hs E) as (Hcs&_). rewrite Hcs in Hcur. by injection Hcur. }
    apply returns_bind. eapply returns_weaken; [|apply (launch_late s a); [done|done|done|]].
    + intros [] st1 Hg. apply (returns_weaken _ _ (λ _, carried (target <$> l) S a st1)).
      * intros x st2 (T&a'&H1&H2&H3&H4). exists T, a'. split; [done|]. split; [done|]. split; [|exact H4].
        rewrite H3, (proj2 Hg). by rewrite <- !app_assoc.
      * apply IH; [by rewrite (proj1 Hg)|done|by apply Forall_forall|done..].
    + intros k Hk. destruct (index_member (known_graph L) _ _ Hk) as [Hm Hid]. rewrite Hid. apply not_true_is_false.
      intros Hlive%isLive_cursors; [|rewrite <- Hid; by eapply (member_ne a), Hm; apply (known_graph L)].
      rewrite Hcur in Hlive. by apply list_elem_of_singleton in Hlive.
Qed.

Lemma returns_past {A B} (m : M W A) (k : A → M W B) l S b st :
  record_of st = Some b → silently m → (∀ x st1, record_of st1 = Some b → returns (k x) st1 (λ _, carried l S b st1)) →
  returns (m ≫= k) st (λ _, carried l S b st).
Proof. intros Hr Hm H. apply returns_quiet; [done|]. intros x st1 [H1 _]. apply H. by rewrite H1. Qed.

Lemma silently_sync aid ms t : silently (lift (λ w m, let '(w, m, _) := syncAutomationMembership w aid ms [] t m in (w, m, tt))).
Proof.
  apply silently_lift. intros w m. destruct (syncAutomationMembership _ _ _ _ _ _) as [[w' m'] r] eqn:E. by apply (sync_same id) in E.
Qed.

(** Everything but the starts. *)
Lemma afterAdvance_announces eff S b st : record_of st = Some b → a_ID b = id →
  (∀ st1, record_of st1 = Some b →
     returns (each (launch torn (advance torn f) id) (ef_starts eff)) st1 (λ _, carried (target <$> ef_starts eff) S b st1)) →
  returns (afterAdvance torn (advance torn f) b eff) st (λ _, carried (target <$> ef_starts eff) S b st).
Proof.
  intros Hr Hid Hlaunch. unfold afterAdvance. rewrite Hid.
  apply returns_past; [done|apply silently_when, silently_sync|]. intros _ st1 H1.
  apply returns_past; [done|apply silently_each; intros x; by apply silently_emit|]. intros _ st2 H2.
  apply returns_past; [done|apply silently_each; intros x; apply silently_when, silently_decision|]. intros _ st3 H3.
  apply returns_past; [done|apply silently_each; intros x; by apply silently_emit|]. intros _ st4 H4.
  apply returns_past; [done|apply silently_afterBudget|]. intros _ st5 H5.
  apply returns_past; [done|apply silently_afterMerged|]. intros _ st6 H6.
  apply returns_past; [done| |].
  - destruct (nonempty _); [apply silently_bind; [apply silently_blocked|intros _; apply silently_terminal]|].
    apply silently_when, silently_bind; [by apply silently_emit|intros _; apply silently_terminal].
  - intros _ st7 H7. by apply Hlaunch.
Qed.

Lemma afterAdvance_carries eff S b st : record_of st = Some b → life g S b → a_ID b = id → Forall (may_launch b) (ef_starts eff) →
  NoDup (ids (ef_starts eff)) → (ef_starts eff ≠ [] → 0 < f ∧ (under_way b → left_to_start b < f))%nat →
  returns (afterAdvance torn (advance torn f) b eff) st (λ _, carried (target <$> ef_starts eff) S b st).
Proof. intros Hr L Hid Hall Hnd Hfuel. apply afterAdvance_announces; [done..|]. intros st1 H1. by apply launches_carry. Qed.
End launching.

(** After the write, what was launched belongs to the starts of the step. *)
Lemma carried_written S a T b s s1 s' : record_of s = Some a →
  launches s1 = launches s → life g (S ++ ids T) b → Forall start_of T →
  (under_way b → under_way a ∧ left_to_start b ≤ left_to_start a)%nat →
  carried (target <$> T) (S ++ ids T) b s1 s' → carried [] S a s s'.
Proof.
  intros Hr Hl L Hof Hu (T2&a2&Hr2&Hl2&Hp2&Ho2&Hu2). exists (T ++ T2), a2. rewrite fmap_app, (app_assoc S). split; [done|]. split; [done|].
  split; [by rewrite Hp2, Hl, fmap_app|]. split; [by apply Forall_app|]. intros [H1 H2]%Hu2. destruct (Hu H1). split; [done|]. by etrans.
Qed.

Lemma attempt_carries f i st S a : carries f → ends_member i → record_of st = Some a → life g S a →
  (under_way a → left_to_start a < Datatypes.S f)%nat →
  returns (attempt torn (advance torn f) id i) st
    (λ b st', if b : bool then carried [] S a st st' else same st st').
Proof.
  intros rec Hi Hr L Hleft. unfold attempt. apply returns_bind, returns_get. destruct st as [w m].
  pose proof Hr as Hget. unfold AutomationCalls.record_of in Hget. cbn in Hget. rewrite Hget.
  destruct (one_of (a_Status a) _) eqn:Ho; cbn [negb]; [|apply returns_ret; by apply carried_same].
  pose proof (under_way_status (a := a) _ eq_refl Ho) as Hu. specialize (Hleft Hu).
  pose proof (life_living g S a new L) as Lv.
  destruct (step_of_wf (wall w) a i (snapshotMembers w m a) (lv_wf _ _ _ Lv) (lv_left _ _ _ Lv)) as (r&Hstep&_). rewrite Hstep.
  destruct r as [[d dry]|e]; [|apply returns_ret; by apply carried_same].
  rewrite (known_id L). apply returns_bind. eapply returns_weaken; [|apply silently_begin]. intros [] st1 H1.
  apply returns_bind. eapply returns_weaken; [|by apply silently_interfere]. intros [] [w2 m2] H2. pose proof (transitivity H1 H2) as H12.
  apply returns_bind. apply (returns_lift (λ w m, update torn w id _ _ m)). intros w3 m3 r Hup. apply update_record in Hup as [Hl Hres].
  destruct r as [[eff b]|e].
  2:{ assert (same (w, m) (w3, m3)) as Hs by exact (transitivity H12 (conj Hres Hl)).
      apply returns_bind. eapply returns_weaken; [|apply silently_release]. intros [] st4 H4. pose proof (transitivity Hs H4) as Hs4.
      apply returns_ret. destruct (negb _); [|done]. by apply carried_same. }
  destruct Hres as (a'&y&Ha&Hf&Hst&Hb). rewrite (proj1 H12), Hr in Ha. injection Ha as <-.
  unfold step_change, finished in Hf. destruct (step (wall w2) a i (snapshotMembers w m a)) as [[[y' eff']|e]|] eqn:Hst2; [|done..].
  cbn in Hf. injection Hf as <- <-.
  destruct (step_stored S a _ i _ y' eff' b L Hu Hi Hst2 Hst) as (Lb&Hof&Hnd&Hle&Hmain).
  assert (left_to_start b ≤ left_to_start a)%nat as Hab by lia.
  apply returns_bind.
  assert (returns (afterAdvance torn (advance torn f) b eff') (w3, m3)
    (λ _, carried (target <$> ef_starts eff') (S ++ ids (ef_starts eff')) b (w3, m3))) as Haft.
  { apply afterAdvance_carries; try done; [by apply known_id in Lb| |].
    - rewrite Forall_forall in Hof |- *. intros s Hs. split; [by apply Hof|]. intros Hbr. destruct (Hmain s Hs Hbr) as (Hj&Hub&Hrun).
      split_and!; try done. apply (known_main Lb); [done|done|]. by apply (start_kind Lb), Hof.
    - intros Hne. destruct (ef_starts eff'); [done|]. cbn in Hle. split; [lia|]. intros _. lia. }
  eapply returns_weaken; [|exact Haft]. intros [] st4 Hc.
  apply returns_bind. eapply returns_weaken; [|apply silently_release]. intros [] st5 H5. apply returns_ret.
  eapply carried_before; [exact H5|]. apply (carried_written S a (ef_starts eff') b (w, m) (w3, m3)); try done.
  rewrite Hl. apply H12.
Qed.

(** Whatever end it is told of, the coordinator returns with fuel for the members
    left to start, and has carried the record on. *)
Lemma advance_carries f : carries f.
Proof.
  induction f as [|f IH]; intros i st S a Hi Hr L Hf Hleft; [lia|].
  assert (∀ t, ends_member (stamped t i)) as Hi' by (intros t; unfold stamped; by destruct (IsZero _)).
  apply (advance_once f i st (carried [] S a st)).
  - intros st1 t H1. pose proof (proj1 H1) as Hr1. rewrite Hr in Hr1.
    eapply returns_weaken; [|by apply (attempt_carries f (stamped t i) st1 S a)]. intros [] st2 Hc.
    + by eapply carried_after.
    + exact (transitivity H1 Hc).
  - intros st1 H1. by apply carried_same.
Qed.

(** ** The activation *)

Lemma activating_start now actor s : AutomationCalls.start_of (g := activating now actor g) s → start_of s.
Proof. done. Qed.

(** What the store makes of the activation. *)
Lemma activated_stored now snap actor y eff b :
  activate_change now snap actor g = Some (y, eff) → stored (set_a_ID id y) b →
  life g (ids (ef_starts eff)) b ∧ Forall start_of (ef_starts eff) ∧ NoDup (ids (ef_starts eff)) ∧ Forall (may_launch b) (ef_starts eff).
Proof.
  intros Ha Hst. destruct (activated_turned now actor new snap y eff Ha) as [[Hf Hset Hm Hnd Hx] _].
  rewrite set_id_same in Hst by exact (f_equal a_ID Hf). pose proof (stored_spec y b Hst) as [_ Hbs Hstat Hk _ _ _].
  pose proof (life_activated g now snap actor y eff b Ha Hst) as L. set (a := activating now actor g) in *.
  assert (of_members (g := a) (ef_starts eff) y) as Hof.
  { unfold activate_change in Ha. fold (activating now actor g) in Ha. fold a in Ha.
    destruct (automationMember a (a_EntryMemberID a)) as [i|] eqn:Hi; [|done]. change (Some i ≫= ?k) with (k i) in Ha. cbv beta in Ha.
    destruct (enter _ _ _ _ _ _) as [st|] eqn:He; [|done]. change (Some st ≫= ?k) with (k st) in Ha. cbv beta zeta in Ha. injection Ha as <- <-.
    apply finalize_starts.
    refine (enter_starts (activating_graph now actor new) (activating_tc now actor new) (activating_guarded now actor new) snap now "" _ i _ _ _ Hi _ _ _ st He); [done| |by intros [? _]|by apply none_of_branches].
    apply (activating_guarded now actor new). }
  assert (Forall start_of (ef_starts eff)) as Hall by (apply Forall_forall; intros s Hs; by apply (activating_start now actor), Hof).
  split; [done|]. split; [done|]. split; [done|]. rewrite Forall_forall in Hall |- *. intros s Hs. split; [by apply Hall|].
  intros Hb. destruct (proj2 (Hof s Hs) Hb) as [Hj Hns].
  assert (joinOf b (ms_memberID s) = None) as Hjb by (by rewrite <- (shape_joinOf Hbs), (shape_joinOf (frozen_shape Hf))).
  assert (status b (ms_memberID s) = MemberRunning) as Hr by (rewrite Hstat; apply Hx; by apply list_elem_of_fmap_2).
  split_and!; try done.
  - apply (known_main L); [done|done|]. by apply (start_kind L), Hall.
  - unfold under_way, stopped. by rewrite Hk.
Qed.

(** ** In company

    The same when others write the record between the steps of a call: each time
    they run, they leave the record alone or carry it on as complete calls do, and
    then under another version, which is never 0. A draft they leave alone or
    activate. No start off a fork is refused: the report of one that was is not
    guarded by a version. *)
Definition elsewhere (v : Z) (st : W * Manager) : Prop := 0 < v ∧ ∀ a', record_of st = Some a' → a_Version a' ≠ v.

(** A draft activated by somebody, with what that started. *)
Definition begun (st st' : W * Manager) : Prop :=
  ∃ T a, record_of st' = Some a ∧ life g (ids T) a ∧ launches st' ≡ₚ launches st ++ (target <$> T) ∧ Forall start_of T.

Record accompanied : Prop := {
  ac_others w m S a : record_of (w, m) = Some a → life g S a →
    same (w, m) (others w m) ∨ carried [] S a (w, m) (others w m) ∧ elsewhere (a_Version a) (others w m);
  ac_draft w m : record_of (w, m) = Some g →
    same (w, m) (others w m) ∨ begun (w, m) (others w m) ∧ elsewhere (a_Version g) (others w m);
  ac_nested act w m child actor S a : nestedStarter = Some act → record_of (w, m) = Some a → life g S a →
    carried [] S a (w, m) (act w m child actor).1;
  ac_accepted s st e st' : start_of s → ms_branch s = false → runStart s st = Some (e, st') → e = None
}.

Section company.
Hypothesis company : accompanied.

Lemma others_carry st S a : record_of st = Some a → life g S a →
  returns interfere st (λ _ st', carried [] S a st st' ∧ (same st st' ∨ elsewhere (a_Version a) st')).
Proof.
  intros Hr L. destruct st as [w m]. apply returns_lift. intros w' m' [] [= E].
  destruct (ac_others company w m S a Hr L) as [Hs|[Hc Hv]]; rewrite E in *; [|by auto].
  split; [by apply carried_same|by left].
Qed.

Lemma runStart_along s st S a : record_of st = Some a → life g S a → start_of s →
  returns (runStart s) st (λ e st', carried [target s] S a st st' ∧ (ms_branch s = false → e = None)).
Proof.
  intros Hr L Ho. assert (returns (runStart s) st (λ _ st', carried [target s] S a st st')) as (e&st'&He&Hc).
  2:{ exists e, st'. split; [done|]. split; [done|]. intros Hb. by eapply (ac_accepted company). }
  unfold runStart, target. apply (returns_carried _ _ [] [_]).
  { eapply returns_weaken; [|by apply others_carry]. by intros x st' [? _]. }
  intros _ S1 a1 st1 (Hr1&L1&_).
  assert (∀ o (m : M W (option string)), (∀ st, record_of st = Some a1 → returns m st (λ _, carried [] S1 a1 st)) → is_launch o = true →
    returns (emit o ;; m) st1 (λ _, carried [o] S1 a1 st1)) as Hemit.
  { intros o m Hm Hl. apply returns_bind. destruct st1 as [w m1]. exists tt, (w, say o m1). split; [done|].
    eapply returns_weaken; [|by apply Hm]. intros x st2 Hc. apply (carried_grows [o] S1 a1 (w, m1) (w, say o m1)); [|done].
    split; [done|]. unfold launches. cbn. rewrite List.filter_app. cbn. by rewrite Hl. }
  destruct (String.eqb (ms_kind s) MemberKindAutomation); apply Hemit; try done.
  - intros [w m] Hr2. destruct nestedStarter as [act|] eqn:Hact; [|apply returns_ret; by apply carried_same].
    apply returns_lift. intros w' m' x E. pose proof (ac_nested company act w m (ms_childID s) coordinatorActor S1 a1 Hact Hr2 L1) as Hc.
    by rewrite E in Hc.
  - intros st2 Hr2. eapply returns_weaken; [intros x st3 Hs; exact (carried_same _ _ _ _ Hr2 L1 Hs)|].
    apply silently_bind; [apply silently_on_prds|]. intros e. apply silently_bind; [by apply silently_emit|]. intros _. apply silently_ret.
Qed.

Section launching.
Context (f : nat) (rec : carries f).

Lemma launch_along s S a st : record_of st = Some a → life g S a → start_of s → (0 < f)%nat → (under_way a → left_to_start a < f)%nat →
  returns (launch torn (advance torn f) id s) st (λ _, carried [target s] S a st).
Proof.
  intros Hr L Ho Hf Hleft. unfold launch. eapply (returns_carried_with _ _ [target s] [] _ S a st); [by apply runStart_along|].
  intros e S1 a1 st1 He (Hr1&L1&Hu1). cbn beta in He.
  apply returns_quiet; [destruct (String.eqb _ _); [apply silently_audit|apply silently_when, silently_audit]|].
  intros _ st2 [H2 _]. assert (record_of st2 = Some a1) as Hr2 by congruence.
  destruct e as [t|]; [|apply returns_ret; by apply carried_same].
  destruct (ms_branch s); [|by specialize (He eq_refl)]. unfold branchStartFailed. apply rec; [by split; [intros [|]|]|done..|].
  intros [Hu Hle]%Hu1. specialize (Hleft Hu). lia.
Qed.

Lemma launches_along l S a st : record_of st = Some a → life g S a → Forall start_of l →
  (l ≠ [] → 0 < f ∧ (under_way a → left_to_start a < f))%nat →
  returns (each (launch torn (advance torn f) id) l) st (λ _, carried (target <$> l) S a st).
Proof.
  revert S a st. induction l as [|s l IH]; intros S a st Hr L Ho Hfuel; cbn [each fmap list_fmap].
  { apply returns_ret. by apply carried_same. }
  destruct (Hfuel ltac:(done)) as [Hf Hleft]. apply Forall_cons in Ho as [Hs Ho].
  apply (returns_carried _ _ [target s] (target <$> l)); [by apply launch_along|]. intros _ S1 a1 st1 (Hr1&L1&Hu1).
  apply IH; [done..|]. intros _. split; [done|]. intros [Hu Hle]%Hu1. specialize (Hleft Hu). lia.
Qed.

Lemma afterAdvance_along eff S b st : record_of st = Some b → life g S b → Forall start_of (ef_starts eff) →
  (ef_starts eff ≠ [] → 0 < f ∧ (under_way b → left_to_start b < f))%nat →
  returns (afterAdvance torn (advance torn f) b eff) st (λ _, carried (target <$> ef_starts eff) S b st).
Proof.
  intros Hr L Hall Hfuel. apply afterAdvance_announces; [done|by apply known_id in L|]. intros st1 H1. by apply launches_along.
Qed.

Lemma attempt_along i st S a : ends_member i → record_of st = Some a → life g S a →
  (under_way a → left_to_start a < Datatypes.S f)%nat →
  returns (attempt torn (advance torn f) id i) st (λ _, carried [] S a st).
Proof.
  intros Hi Hr L Hleft. unfold attempt. apply returns_bind, returns_get. destruct st as [w m].
  pose proof Hr as Hget. unfold AutomationCalls.record_of in Hget. cbn in Hget. rewrite Hget.
  destruct (one_of (a_Status a) _) eqn:Ho; cbn [negb]; [|apply returns_ret; by apply carried_same].
  pose proof (under_way_status (a := a) _ eq_refl Ho) as Hu. specialize (Hleft Hu). pose proof (life_living g S a new L) as Lv.
  destruct (step_of_wf (wall w) a i (snapshotMembers w m a) (lv_wf _ _ _ Lv) (lv_left _ _ _ Lv)) as (r&Hstep&_). rewrite Hstep.
  destruct r as [[d dry]|e]; [|apply returns_ret; by apply carried_same].
  rewrite (known_id L). apply returns_quiet; [apply silently_begin|]. intros _ st1 H1. pose proof (eq_trans (proj1 H1) Hr) as Hr1.
  apply returns_bind. eapply returns_weaken; [|by apply (others_carry st1 S a)]. intros [] [w2 m2] [Hc2 Hsame].
  apply returns_bind. apply (returns_lift (λ w m, update torn w id _ _ m)). intros w3 m3 r Hup.
  pose proof Hup as [Hl Hres]%update_record. destruct r as [[eff b]|e].
  2:{ apply (returns_weaken _ _ (λ _, same (w2, m2))); [intros x st4 H4; exact (carried_before _ _ _ _ _ _ H4 Hc2)|].
      apply returns_bind. eapply returns_weaken; [|apply silently_release]. intros [] st4 H4.
      apply returns_ret. exact (transitivity (conj Hres Hl : same (w2, m2) (w3, m3)) H4). }
  destruct Hres as (a'&y&Ha&Hf&Hst&Hb). assert (same st1 (w2, m2)) as H2.
  { destruct Hsame as [?|[Hv Hne]]; [done|exfalso]. destruct (update_guarded _ _ _ _ _ _ _ _ _ _ Hup) as (a2&Ha2&E&_). by apply (Hne a2), E. }
  rewrite (proj1 H2), Hr1 in Ha. injection Ha as <-.
  unfold step_change, finished in Hf. destruct (step (wall w2) a i (snapshotMembers w m a)) as [[[y' eff']|e]|] eqn:Hst2; [|done..].
  cbn in Hf. injection Hf as <- <-.
  destruct (step_stored S a _ i _ y' eff' b L Hu Hi Hst2 Hst) as (Lb&Hof&Hnd&Hle&_).
  assert (left_to_start b ≤ left_to_start a)%nat as Hab by lia.
  assert (launches (w3, m3) = launches st1) as Hl3 by (rewrite Hl; apply H2).
  apply (returns_weaken _ _ (λ _ s', carried (target <$> ef_starts eff') (S ++ ids (ef_starts eff')) b (w3, m3) s')).
  - intros x st4 Hc. by apply (carried_written S a (ef_starts eff') b st1 (w3, m3)).
  - apply returns_then_quiet; [|intros _; apply (silently_bind id); [apply silently_release|intros _; apply silently_ret]].
    apply afterAdvance_along; [done|done|done|]. intros Hne. destruct (ef_starts eff'); [done|]. cbn in Hle. split; [lia|]. intros _. lia.
Qed.
End launching.

Lemma retry_along {A} n (once : M W (option A)) S a st : record_of st = Some a → life g S a →
  (∀ S1 a1 st1, onward S1 a1 st1 a → returns once st1 (λ _, carried [] S1 a1 st1)) → returns (retry n once) st (λ _, carried [] S a st).
Proof.
  intros Hr L H. cut (∀ S1 a1 st1, onward S1 a1 st1 a → returns (retry n once) st1 (λ _, carried [] S1 a1 st1)).
  { intros Hc. by apply Hc, onward_refl. }
  induction n as [|n IH]; intros S1 a1 st1 (Hr1&L1&Hu1); cbn [retry]; [apply returns_ret; by apply carried_same|].
  apply (returns_carried _ _ [] []); [by apply H|]. intros [x|] S2 a2 st2 (Hr2&L2&Hu2); [apply returns_ret; by apply carried_same|].
  apply IH. split; [done|]. split; [done|]. intros [H1 H2]%Hu2. destruct (Hu1 H1). split; [done|lia].
Qed.

(** So the coordinator carries the record on in company too. *)
Lemma advance_along f : carries f.
Proof.
  induction f as [|f IH]; intros i st S a Hi Hr L Hf Hleft; [lia|]. cbn [advance]. apply returns_bind.
  exists (wall st.1), st. split; [done|]. apply returns_map, (retry_along _ _ S a st Hr L).
  intros S1 a1 st1 (Hr1&L1&Hu1). apply returns_map. apply (attempt_along f IH); [unfold stamped; by destruct (IsZero _)|done|done|].
  intros [Hu Hle]%Hu1. specialize (Hleft Hu). lia.
Qed.
End company.

(** An activation that answers a record has begun its life; one that answers an
    error has changed nothing. *)
Definition activation_done (st : W * Manager) (r : res Automation) (st' : W * Manager) : Prop :=
  match r with
  | Ok a => ∃ T, record_of st' = Some a ∧ life g (ids T) a ∧ launches st' ≡ₚ launches st ++ (target <$> T) ∧ Forall start_of T
  | Err _ => same st st'
  end.

Lemma carried_activation T b st st1 st' : launches st1 = launches st → Forall start_of T →
  carried (target <$> T) (ids T) b st1 st' → ∃ a, record_of st' = Some a ∧ activation_done st (Ok a) st'.
Proof.
  intros Hl Hof (T2&a2&Hr2&Hl2&Hp2&Ho2&_). exists a2. split; [done|]. exists (T ++ T2). rewrite !fmap_app. split; [done|]. split; [done|].
  split; [by rewrite Hp2, Hl|]. by apply Forall_app.
Qed.

Lemma activate_attempt_done f actor v st : (length (a_Members g) < f)%nat → record_of st = Some g →
  returns (activate_attempt torn f id actor v) st
    (λ r st', match r with Some x => activation_done st x st' | None => same st st' end).
Proof.
  intros Hf Hr. unfold activate_attempt. apply returns_bind, returns_get. destruct st as [w m].
  pose proof Hr as Hget. unfold AutomationCalls.record_of in Hget. cbn in Hget. rewrite Hget.
  destruct (_ && _); [by apply returns_ret|]. destruct (negb _); [by apply returns_ret|].
  destruct (automationMember g (a_EntryMemberID g)) as [i|] eqn:Hi; [|by apply returns_ret]. cbn zeta.
  destruct (entry_enters g g (snapshotMembers w m g) (wall w) "" (no_effects {["automation_id" := AStr (a_ID g)]}) i new eq_refl Hi (fr_cursors g new))
    as (st0&->&_).
  apply returns_bind. eapply returns_weaken; [|apply silently_begin]. intros [] st1 H1.
  apply returns_bind. eapply returns_weaken; [|by apply silently_interfere]. intros [] [w2 m2] H2. pose proof (transitivity H1 H2) as H12.
  apply returns_bind. apply (returns_lift (λ w m, update torn w id _ _ m)). intros w3 m3 r Hup. apply update_record in Hup as [Hl Hres].
  destruct r as [[eff b]|e].
  2:{ assert (same (w, m) (w3, m3)) as Hs by exact (transitivity H12 (conj Hres Hl)).
      apply returns_bind. eapply returns_weaken; [|apply silently_release]. intros [] st4 H4. pose proof (transitivity Hs H4) as Hs4.
      apply returns_ret. by destruct (_ && _). }
  destruct Hres as (a'&y&Ha&Hfn&Hst&Hb). rewrite (proj1 H12), Hr in Ha. injection Ha as <-.
  destruct (activate_change (wall w2) (snapshotMembers w m g) actor g) as [[y' eff']|] eqn:Hac; [|done].
  cbn in Hfn. injection Hfn as <- <-. destruct (activated_stored _ _ _ _ _ _ Hac Hst) as (Lb&Hof&Hnd&Hml).
  apply returns_bind. eapply returns_weaken; [|apply silently_audit]. intros [] st4 H4.
  apply returns_bind. eapply returns_weaken; [|apply silently_when, silently_decision]. intros [] st5 H5. pose proof (transitivity H4 H5) as H45.
  apply returns_bind.
  assert (returns (afterAdvance torn (advance torn f) b eff') st5 (λ _, carried (target <$> ef_starts eff') (ids (ef_starts eff')) b st5)) as Haft.
  { apply afterAdvance_carries; [apply advance_carries|by rewrite (proj1 H45)|done|by apply known_id in Lb|done|done|].
    intros _. split; [lia|]. intros _. pose proof (left_bound b). lia. }
  eapply returns_weaken; [|exact Haft]. intros [] st6 Hc.
  apply returns_bind. eapply returns_weaken; [|apply silently_release]. intros [] st7 H7.
  apply returns_bind. unfold find_automation. apply returns_map, returns_get. apply returns_ret.
  apply (carried_before _ _ _ _ _ _ H7) in Hc.
  destruct (carried_activation (ef_starts eff') b (w, m) st5 st7) as (a&Hra&Hd); [|done|done|].
  - rewrite (proj2 H45), Hl. apply H12.
  - unfold AutomationCalls.record_of in Hra. rewrite (known_id Lb). by rewrite Hra.
Qed.

Lemma activate_done f actor v st : (length (a_Members g) < f)%nat → record_of st = Some g →
  returns (activate torn f id actor v) st (activation_done st).
Proof.
  intros Hf Hr. unfold activate. apply returns_bind. apply retry_returns.
  - intros st1 H1. eapply returns_weaken; [|apply activate_attempt_done; [done|by rewrite (proj1 H1)]].
    intros [[a|e]|] st2 H2; cbn in *.
    + apply returns_ret. cbn. destruct H2 as (T&?&?&Hp&?). exists T. by rewrite <- (proj2 H1).
    + apply returns_ret. exact (transitivity H1 H2).
    + exact (transitivity H1 H2).
  - intros st1 H1. by apply returns_ret.
Qed.
(** *** In company *)

Section company.
Hypothesis company : accompanied.

(** The draft is as it was, or somebody has activated it. *)
Definition perhaps_begun (st st' : W * Manager) : Prop := same st st' ∨ begun st st'.

Lemma begun_after st st1 st2 : same st st1 → begun st1 st2 → begun st st2.
Proof. intros [_ H] (T&a&?&?&Hp&?). exists T, a. by rewrite <- H. Qed.

Lemma begun_carried st st1 st2 : begun st st1 → (∀ S a, record_of st1 = Some a → life g S a → carried [] S a st1 st2) → begun st st2.
Proof.
  intros (T&a&Hr&L&Hp&Ho) H. destruct (H _ _ Hr L) as (T2&a2&Hr2&L2&Hp2&Ho2&_). exists (T ++ T2), a2. rewrite !fmap_app.
  split; [done|]. split; [done|]. split; [|by apply Forall_app]. rewrite Hp2, Hp. by rewrite <- app_assoc.
Qed.

Lemma begun_same st st1 st2 : begun st st1 → same st1 st2 → begun st st2.
Proof. intros Hb H. apply (begun_carried _ _ _ Hb). intros S a Hr L. by apply carried_same. Qed.

Lemma life_not_draft S a : life g S a → a_Status a ≠ AutomationDraft.
Proof. intros L. apply (lv_left g S a). by apply life_living. Qed.

Lemma activate_attempt_along f actor v st : (length (a_Members g) < f)%nat → record_of st = Some g →
  returns (activate_attempt torn f id actor v) st (λ _, perhaps_begun st).
Proof.
  intros Hf Hr. unfold activate_attempt. apply returns_bind, returns_get. destruct st as [w m].
  pose proof Hr as Hget. unfold AutomationCalls.record_of in Hget. cbn in Hget. rewrite Hget.
  destruct (_ && _); [apply returns_ret; by left|]. destruct (negb _); [apply returns_ret; by left|].
  destruct (automationMember g (a_EntryMemberID g)) as [i|] eqn:Hi; [|apply returns_ret; by left]. cbn zeta.
  destruct (entry_enters g g (snapshotMembers w m g) (wall w) "" (no_effects {["automation_id" := AStr (a_ID g)]}) i new eq_refl Hi (fr_cursors g new))
    as (st0&->&_).
  apply returns_bind. eapply returns_weaken; [|apply silently_begin]. intros [] [w1 m1] H1. pose proof (eq_trans (proj1 H1) Hr) as Hr1.
  apply returns_bind. apply returns_lift. intros w2 m2 [] [= E].
  apply returns_bind. apply (returns_lift (λ w m, update torn w id _ _ m)). intros w3 m3 r Hup. pose proof Hup as [Hl Hres]%update_record.
  pose proof (ac_draft company w1 m1 Hr1) as Hd. rewrite E in Hd. destruct r as [[eff b]|e].
  2:{ apply returns_bind. eapply returns_weaken; [|apply silently_release]. intros [] st4 H4. apply returns_ret.
      assert (same (w2, m2) st4) as H24 by exact (transitivity (conj Hres Hl : same (w2, m2) (w3, m3)) H4).
      destruct Hd as [H2|[H2 _]]; [left; exact (transitivity H1 (transitivity H2 H24))|right].
      eapply begun_after; [exact H1|]. by eapply begun_same. }
  destruct Hres as (a'&y&Ha&Hfn&Hst&Hb). assert (same (w1, m1) (w2, m2)) as H2.
  { destruct Hd as [?|[_ [Hv Hne]]]; [done|exfalso]. destruct (update_guarded _ _ _ _ _ _ _ _ _ _ Hup) as (a2&Ha2&E2&_). by apply (Hne a2), E2. }
  rewrite (proj1 H2), Hr1 in Ha. injection Ha as <-.
  destruct (activate_change (wall w2) (snapshotMembers w m g) actor g) as [[y' eff']|] eqn:Hac; [|done].
  cbn in Hfn. injection Hfn as <- <-. destruct (activated_stored _ _ _ _ _ _ Hac Hst) as (Lb&Hof&_&_).
  apply returns_bind. eapply returns_weaken; [|apply silently_audit]. intros [] st4 H4.
  apply returns_bind. eapply returns_weaken; [|apply silently_when, silently_decision]. intros [] st5 H5. pose proof (transitivity H4 H5) as H45.
  apply returns_bind. eapply returns_weaken; [|apply (afterAdvance_along company f (advance_along company f) eff' (ids (ef_starts eff')) b)];
    [|by rewrite (proj1 H45)|done|done|intros _; split; [lia|]; intros _; pose proof (left_bound b); lia].
  intros [] st6 Hc. apply returns_bind. eapply returns_weaken; [|apply silently_release]. intros [] st7 H7.
  apply returns_bind. unfold find_automation. apply returns_map, returns_get. apply returns_ret. right.
  apply (carried_before _ _ _ _ _ _ H7) in Hc.
  destruct (carried_activation (ef_starts eff') b (w, m) st5 st7) as (a&Hra&Hd2); [|done|done|].
  - rewrite (proj2 H45), Hl. rewrite (proj2 H2). apply H1.
  - destruct Hd2 as (T&?&?&?&?). by exists T, a.
Qed.

(** An attempt on a record activated already answers an error. *)
Lemma activate_attempt_late f actor v st S a : record_of st = Some a → life g S a →
  returns (activate_attempt torn f id actor v) st (λ _, same st).
Proof.
  intros Hr L. unfold activate_attempt. apply returns_bind, returns_get. destruct st as [w m].
  pose proof Hr as Hget. unfold AutomationCalls.record_of in Hget. cbn in Hget. rewrite Hget.
  destruct (_ && _); [by apply returns_ret|].
  rewrite (proj2 (String.eqb_neq _ _) (life_not_draft S a L)). by apply returns_ret.
Qed.

Lemma activate_along f actor v st : (length (a_Members g) < f)%nat → record_of st = Some g →
  returns (activate torn f id actor v) st (λ _, perhaps_begun st).
Proof.
  intros Hf Hr. unfold activate. apply returns_bind.
  cut (∀ n st1, perhaps_begun st st1 → returns (retry n (activate_attempt torn f id actor v)) st1 (λ _, perhaps_begun st)).
  { intros H. eapply returns_weaken; [|apply H; by left]. intros x st1 H1. by apply returns_ret. }
  intros n. induction n as [|n IH]; intros st1 H1; cbn [retry]; [by apply returns_ret|].
  assert (returns (activate_attempt torn f id actor v) st1 (λ _, perhaps_begun st)) as Ha.
  { destruct H1 as [H1|H1].
    - eapply returns_weaken; [|apply activate_attempt_along; [done|by rewrite (proj1 H1)]].
      intros x st2 [H2|H2]; [left; exact (transitivity H1 H2)|right; by eapply begun_after].
    - pose proof H1 as (T&a&Hra&L&_). eapply returns_weaken; [|by eapply activate_attempt_late].
      intros x st2 H2. right. by eapply begun_same. }
  apply returns_bind. eapply returns_weaken; [|exact Ha]. intros [x|] st2 H2; [by apply returns_ret|by apply IH].
Qed.
End company.
End drive.
