(* ===== verification/AutomationDriveTheorems.v ===== *)
(** * Automations: cancelling

    [CancelAutomation] and what it calls for the nested Automations in flight. Each
    call that goes on has cancelled one Automation more, and so the recursion ends
    within as many calls as there are Automations not cancelled.

    Also: automations: the theorems about the coordinator. *)

From S2P Require Import Prelude GoBase GoText RecordStore AutomationSettings Automation AutomationWf AutomationStep.
From S2P Require Import AutomationStore AutomationControl AutomationManager AutomationCoordinator AutomationReconcile.
From S2P Require Import AutomationLife AutomationCalls Graph AutomationGraph AutomationValidate.
From S2P Require Import AutomationAccept AutomationFrame AutomationEnds AutomationFrontier AutomationMoves AutomationRun.
From S2P Require Import AutomationRun AutomationLifeTheorems AutomationDrive MergeProof.

#[local] Open Scope Z_scope.

Definition cancellable : list string := [AutomationActive; AutomationPaused; AutomationBlocked].

Lemma cancelled_not_cancellable : AutomationCancelled ∉ cancellable.
Proof. intros H%one_of_true. discriminate H. Qed.

(** A record left alone, or cancelled. *)
Definition at_most_cancelled (x y : Automation) : Prop :=
  y = x ∨ a_Status x ∈ cancellable ∧ a_Status y = AutomationCancelled.

#[export] Instance at_most_cancelled_preorder : PreOrder at_most_cancelled.
Proof.
  split; [by left|]. intros x y z [->|[H1 H2]] [->|[H3 H4]]; [by left|by right|by right|].
  rewrite H2 in H3. by destruct cancelled_not_cancellable.
Qed.

Definition only_cancels (m m' : gmap string Automation) : Prop := ∀ j, option_Forall2 at_most_cancelled (m !! j) (m' !! j).

#[export] Instance only_cancels_preorder : PreOrder only_cancels.
Proof. split; [intros m j; reflexivity|]. intros m1 m2 m3 H1 H2 j. by transitivity (m2 !! j). Qed.

(** ** How many are left *)

Definition uncancelled (m : gmap string Automation) : nat := size (filter (λ '(_, a), a_Status a ≠ AutomationCancelled) m).

Lemma uncancelled_mono m m' : only_cancels m m' → (uncancelled m' ≤ uncancelled m)%nat.
Proof.
  intros H. unfold uncancelled. rewrite <- !size_dom. apply subseteq_size. intros j [y [Hy Hn]%map_lookup_filter_Some]%elem_of_dom.
  apply elem_of_dom. specialize (H j). rewrite Hy in H. destruct (m !! j) as [x|] eqn:Ex; [|by inversion H].
  inversion_clear H as [? ? Hxy|]. destruct Hxy as [->|[_ Hc]]; [|by destruct Hn]. exists x. by apply map_lookup_filter_Some.
Qed.

Lemma uncancelled_less m id a b : m !! id = Some a → a_Status a ∈ cancellable → a_Status b = AutomationCancelled →
  only_cancels m (<[id := b]> m) ∧ (uncancelled (<[id := b]> m) < uncancelled m)%nat.
Proof.
  intros Ha Hc Hb. split.
  - intros j. destruct (decide (j = id)) as [->|Hne]; [rewrite lookup_insert_eq, Ha; constructor; by right|by rewrite lookup_insert_ne].
  - unfold uncancelled. assert (a_Status a ≠ AutomationCancelled) as Hn by (intros E; rewrite E in Hc; by apply cancelled_not_cancellable).
    rewrite map_filter_insert_False by (intros Hx; by apply Hx). rewrite map_filter_delete. set (k := filter _ m).
    assert (k !! id = Some a) as Hk by (by apply map_lookup_filter_Some).
    rewrite map_size_delete, Hk. assert (size k ≠ 0%nat); [|lia]. intros E%map_size_empty_iff. by rewrite E in Hk.
Qed.

(** ** The calls *)

Section cancel.
Context {W : Type} {daemon : Daemon W} {starter : Starter W} {zones : TimeZones} {order : MapRange}.
Context (torn : W → list Automation → option (list Automation)).

Definition autos (s : W * Manager) : gmap string Automation := automations (mg_store s.2).

(** The rest of the daemon leaves the Automations alone meanwhile. *)
Hypothesis alone : ∀ w m, autos (others w m) = autos (w, m).

(** A call that returns and leaves them alone too. *)
Definition aside {A} (m : M W A) : Prop := ∀ s, returns m s (λ _ s', autos s' = autos s).

Lemma aside_bind {A B} (m : M W A) (f : A → M W B) s (Q : B → W * Manager → Prop) :
  aside m → (∀ x s', autos s' = autos s → returns (f x) s' Q) → returns (m ≫= f) s Q.
Proof. intros Hm Hf. apply returns_bind. eapply returns_weaken; [|apply Hm]. intros x s' H. by apply Hf. Qed.

Lemma aside_emit o : aside (emit o).
Proof. intros [w m]. by exists tt, (w, say o m). Qed.

Lemma aside_on_prds f : aside (on_prds f).
Proof. intros [w m]. apply returns_lift. intros w' m' x E. destruct (f w (mg_prds m)) as [[w1 p] e]. by injection E as <- <- <-. Qed.

Lemma aside_interfere : aside interfere.
Proof. intros [w m]. apply returns_lift. intros w' m' x E. pose proof (alone w m) as H. destruct (others w m) as [w1 m1]. by injection E as <- <- <-. Qed.

Lemma aside_sync id ms : aside (lift (λ w m, syncAutomationMembership w id ms [] true m)).
Proof. intros [w m]. apply returns_lift. intros w' m' x [Hs _]%sync_kept. unfold autos. cbn. by rewrite Hs. Qed.

Lemma aside_end_sessions ids failures : aside (end_sessions ids failures).
Proof.
  revert failures. induction ids as [|p ids IH]; intros failures s; cbn [end_sessions]; [by apply returns_ret|].
  apply returns_bind, returns_get. destruct s as [w m]. destruct (prdFinished m p); [apply IH|].
  destruct (canceller m) as [cancel|]; [|apply IH].
  apply aside_bind; [apply aside_emit|]. intros _ s1 H1. apply aside_bind; [apply aside_on_prds|]. intros e s2 H2.
  eapply returns_weaken; [|apply IH]. intros x s3 ->. by rewrite H2.
Qed.

(** What a call to cancel leaves: nothing but cancellations, its own among them
    when it answers a record. *)
Definition cancelling (id : string) (s : W * Manager) (r : option Automation * option error) (s' : W * Manager) : Prop :=
  only_cancels (autos s) (autos s')
  ∧ match r.1 with
    | Some a => autos s' !! id = Some a ∧ a_Status a = AutomationCancelled ∧ (∃ x, autos s !! id = Some x ∧ a_Status x ∈ cancellable)
    | None => True
    end.

Section children.
Context (n : nat) (cancel : string → Z → M W (option Automation * option error)).
Hypothesis cancel_returns : ∀ id v s, (uncancelled (autos s) < n)%nat → returns (cancel id v) s (λ _ s', only_cancels (autos s) (autos s')).

Lemma children_return ids failures s : (uncancelled (autos s) < n)%nat →
  returns (cancel_children cancel ids failures) s (λ _ s', only_cancels (autos s) (autos s')).
Proof.
  revert failures s. induction ids as [|c ids IH]; intros failures s Hn; cbn [cancel_children]; [by apply returns_ret|].
  unfold find_automation. apply returns_bind, returns_map, returns_get. destruct (Get _ c) as [a|]; [|by apply IH].
  destruct (one_of _ _); [by apply IH|]. apply returns_bind. eapply returns_weaken; [|by apply cancel_returns].
  intros r s1 H1. cbn. eapply returns_weaken; [|apply IH].
  - intros x s2 H2. exact (transitivity H1 H2).
  - exact (Nat.le_lt_trans _ _ _ (uncancelled_mono _ _ H1) Hn).
Qed.
End children.

Lemma cancel_change_status now actor b a c y : cancel_change now actor b a = Ok (c, y) →
  a_Status a ∈ cancellable ∧ a_Status y = AutomationCancelled.
Proof.
  unfold cancel_change, checkControlStatus. destruct (one_of (a_Status a) _) eqn:Ho; [|by destruct (String.eqb _ _)].
  apply one_of_true in Ho. cbn. destruct (cancel_members _ _ _ _ _) as [c' a']. intros [= _ <-]. done.
Qed.

(** Fuel for the Automations not cancelled yet is enough. *)
Lemma cancelling_returns f id actor req v s : (uncancelled (autos s) < f)%nat →
  returns (cancelAutomation torn f id actor req v) s (cancelling id s).
Proof.
  revert id actor req v s. induction f as [|f IH]; intros id actor req v s Hf; [lia|]. cbn [cancelAutomation].
  apply returns_bind, returns_get. destruct s as [w m].
  destruct (cancel_validate req ;; _) as [a|e]; [|by apply returns_ret]. destruct (_ && _); [by apply returns_ret|].
  apply aside_bind; [apply aside_interfere|]. intros _ [w1 m1] H1.
  apply returns_bind. apply (returns_lift (λ w m, update torn w id v _ m)). intros w2 m2 r [_ Hr]%update_store.
  destruct r as [[c b]|e].
  2:{ apply returns_ret. split; [|done]. unfold autos in *. cbn in *. by rewrite Hr, H1. }
  destruct Hr as (x&y&Hx&Hc&Hst%stored_spec&Hs). apply cancel_change_status in Hc as [Hcx Hcy]. apply sd_kept in Hst. cbn in Hst. rewrite Hcy in Hst.
  unfold Get in Hx. assert (autos (w, m) !! id = Some x) as Hid by (by rewrite <- H1).
  destruct (uncancelled_less (autos (w, m)) id x b Hid Hcx Hst) as [Hoc Hlt].
  assert (autos (w2, m2) = <[id := b]> (autos (w, m))) as H2 by (rewrite <- H1; exact Hs).
  apply aside_bind; [apply aside_sync|]. intros r3 s3 H3. apply aside_bind; [apply aside_end_sessions|]. intros fl s4 H4.
  assert (autos s4 = <[id := b]> (autos (w, m))) as E4 by (by rewrite H4, H3).
  apply returns_bind. eapply returns_weaken; [|apply (children_return f)].
  - intros fl' s5 H5. rewrite E4 in H5. cbn.
    apply aside_bind; [apply aside_emit|]. intros _ s6 H6. apply aside_bind; [apply aside_emit|]. intros _ s7 H7.
    apply returns_ret. assert (autos s7 = autos s5) as E7 by (by rewrite H7). split; [rewrite E7; by etrans|]. cbn. rewrite E7.
    specialize (H5 id). rewrite lookup_insert_eq in H5. inversion H5 as [? b' Hb|]; subst. split; [|split; [done|by exists x]].
    destruct Hb as [->|[Hb _]]; [done|]. rewrite Hst in Hb. by destruct cancelled_not_cancellable.
  - intros child v' s' Hn. eapply returns_weaken; [|by apply IH]. by intros r s'' [? _].
  - rewrite E4. lia.
Qed.

End cancel.

(** * Automations: the theorems about the coordinator

    The coordinator's calls refine the lives of AutomationLife and return, and so
    no session of a member is asked for twice. The witnesses drive a whole
    Automation through the model: a fork one of whose branches is refused its
    start, the join deciding on it, and the member behind. *)

#[local] Open Scope Z_scope.

Section drive.
Context {W : Type} {daemon : Daemon W} {starter : Starter W} {zones : TimeZones} {order : MapRange}.
Context (torn : W → list Automation → option (list Automation)).

(** What may happen to the Automation while a call is under way: nothing, and then
    its starts may be refused; or others carry it on ([accompanied]), and then no
    start off a fork is refused. *)
Definition company g : Prop := calm (a_ID g) ∨ accompanied g.

Lemma carries_in g f : fresh g → company g → carries torn g f.
Proof. intros F [C|C]; [by apply advance_carries|by apply advance_along]. Qed.

(** C19: take the record of an Automation in its life (of a draft that never ran and
    whose branches are reached only through their forks) and tell the coordinator of
    the end of a member. It returns, with fuel for the depth to which refused starts
    of branches are ends in turn. The record it leaves is a record of that life, and
    the starts asked for, in some order, are those the life took on the way, each of
    them of a member. Between its steps, the write for the version it read among
    them, others may meanwhile carry the same record on as complete calls do, each
    time under another version ([accompanied]; their starts count with the call's
    own, and no start off a fork may be refused); or nobody writes it and any start
    may be refused ([calm]). *)
Theorem advance_lives g fuel i st S a :
  never_run g → branches_reached_by_forks g → company g → ends_member i →
  record_of (a_ID g) st = Some a → life g S a → (length (a_Members g) < fuel)%nat →
  ∃ st' T a', advance torn fuel (a_ID g) i st = Some (tt, st') ∧ record_of (a_ID g) st' = Some a'
    ∧ life g (S ++ (ms_memberID <$> T)) a' ∧ launches st' ≡ₚ launches st ++ (target <$> T) ∧ Forall (start_of (g := g)) T.
Proof.
  intros Hn Hg C Hi Hr L Hf. pose proof (fresh_draft g Hn Hg) as F.
  destruct (carries_in g fuel F C i st S a) as ([]&st'&Ha&T&a'&Hr'&L'&Hl&Ho&_); [done|done|done|lia| |].
  - intros _. pose proof (left_bound g a). lia.
  - by exists st', T, a'.
Qed.

(** ** Sessions *)

(** The sessions asked for, in order. *)
Definition sessions (st : W * Manager) : list string :=
  omap (λ o, match o with OStart p _ => Some p | _ => None end) (mg_out st.2).

Lemma sessions_launches st : sessions st = omap (λ o, match o with OStart p _ => Some p | _ => None end) (launches st).
Proof.
  unfold sessions, launches. induction (mg_out st.2) as [|o l IH]; [done|]. cbn [omap list_omap List.filter is_launch]. by destruct o; cbn; rewrite <- IH.
Qed.

(** Two starts of one PRD are of one member. *)
Lemma prd_start_unique g s s' : fresh g → start_of (g := g) s → start_of (g := g) s' →
  ms_kind s = MemberKindPRD → ms_kind s' = MemberKindPRD → ms_prdID s = ms_prdID s' → ms_memberID s = ms_memberID s'.
Proof.
  intros F (k&Hk&Hs) (k'&Hk'&Hs') Ek Ek' Ep. pose proof (wf_members _ (fr_wf g F)) as G.
  destruct Hs as [(Hp&_&E1)|(_&E&_)]; [|by rewrite E in Ek]. destruct Hs' as [(Hp'&_&E2)|(_&E&_)]; [|by rewrite E in Ek'].
  destruct (index_member (g := set_a_Status AutomationActive g) G _ _ Hk) as [Hm <-].
  destruct (index_member (g := set_a_Status AutomationActive g) G _ _ Hk') as [Hm' <-].
  change (mem_at (set_a_Status AutomationActive g)) with (mem_at g) in *. f_equal.
  rewrite Ep, E2 in E1. pose proof (wf_prds _ G) as Hnd. apply (is_kind_true MemberKindPRD) in Hp, Hp'.
  apply (NoDup_fmap_eq m_PRDID (prdMembersOnly (a_Members g))); [done|by apply list_elem_of_filter..|done].
Qed.

Lemma once_each g T : fresh g → Forall (start_of (g := g)) T → NoDup (ms_memberID <$> T) →
  NoDup (omap (λ o, match o with OStart p _ => Some p | _ => None end) (target <$> T)).
Proof.
  intros F. induction T as [|s T IH]; [constructor|]. intros [Hs HT]%Forall_cons [Hin Hnd]%NoDup_cons.
  specialize (IH HT Hnd). cbn [fmap list_fmap omap list_omap]. unfold target at 1. destruct (String.eqb_spec (ms_kind s) MemberKindAutomation) as [|Hne]; [done|].
  apply NoDup_cons. split; [|done]. intros (o&Ho&Eo)%list_elem_of_omap. destruct o as [| | | | |p r| |]; try done. injection Eo as ->.
  apply list_elem_of_fmap in Ho as (s'&E&Hs'). rewrite Forall_forall in HT. specialize (HT s' Hs').
  unfold target in E. destruct (String.eqb_spec (ms_kind s') MemberKindAutomation) as [|Hne']; [done|]. injection E as E _.
  apply Hin. assert (ms_memberID s = ms_memberID s') as ->; [|by apply list_elem_of_fmap_2].
  apply (prd_start_unique g); [done..|destruct Hs as (k&_&[(_&?&_)|(_&?&_)]); done|destruct HT as (k&_&[(_&?&_)|(_&?&_)]); done|done].
Qed.

(** A draft has nothing to advance. *)
Lemma advance_draft g fuel i st : record_of (a_ID g) st = Some g → a_Status g = AutomationDraft → (0 < fuel)%nat →
  returns (advance torn fuel (a_ID g) i) st (λ _, same (a_ID g) st).
Proof.
  intros Hr Hd Hf. destruct fuel as [|f]; [lia|]. apply advance_once; [|done]. intros [w m] t Hs. unfold attempt. apply returns_bind, returns_get.
  pose proof (eq_trans (proj1 Hs) Hr) as Hm. unfold record_of in Hm. cbn in Hm. rewrite Hm, Hd. by apply returns_ret.
Qed.

Lemma ends_carry g fuel inputs st S a : carries torn g fuel → Forall ends_member inputs → record_of (a_ID g) st = Some a → life g S a →
  (length (a_Members g) < fuel)%nat → returns (each (advance torn fuel (a_ID g)) inputs) st (λ _, carried g [] S a st).
Proof.
  intros C His Hr L Hf. revert S a st Hr L. induction His as [|i inputs Hi _ IH]; intros S a st Hr L; cbn [each].
  - apply returns_ret. by apply carried_same.
  - apply (returns_carried g _ _ [] []); [|intros _ S1 a1 st1 (Hr1&L1&_); by apply IH].
    apply C; [done..|lia|]. intros _. pose proof (left_bound g a). lia.
Qed.

Lemma activate_in g fuel actor v st : fresh g → company g → record_of (a_ID g) st = Some g → (length (a_Members g) < fuel)%nat →
  returns (activate torn fuel (a_ID g) actor v) st (λ _, perhaps_begun g st).
Proof.
  intros F [C|C] Hr Hf; [|by apply activate_along]. eapply returns_weaken; [|by apply activate_done].
  intros [a|e] st' H; [right|by left]. destruct H as (T&?&?&?&?). by exists T, a.
Qed.

Lemma ends_draft g fuel inputs st : record_of (a_ID g) st = Some g → a_Status g = AutomationDraft → (0 < fuel)%nat →
  returns (each (advance torn fuel (a_ID g)) inputs) st (λ _, same (a_ID g) st).
Proof.
  intros Hr Hd Hf. revert st Hr. induction inputs as [|i inputs IH]; intros st Hr; cbn [each]; [by apply returns_ret|].
  apply returns_bind. eapply returns_weaken; [|by apply advance_draft]. intros [] st1 H1.
  eapply returns_weaken; [|apply IH; by rewrite (proj1 H1)]. intros [] st2 H2. exact (transitivity H1 H2).
Qed.

(** C20: a draft that never ran and whose branches are reached only through their
    forks is activated, and then the coordinator is told of ends of members, any
    number of them, in any order, stale ones and repetitions included. All the calls
    return, and no session of a PRD was asked for twice: the starts asked for are of
    different members, hence of different PRDs. Between the steps of each call others
    may activate the draft first or carry its record on as complete calls do, under
    another version each time (their starts count too, and no start off a fork is
    refused); or nobody writes the record and any start may be refused. *)
Theorem no_session_started_twice g fuel actor v inputs st :
  never_run g → branches_reached_by_forks g → company g → Forall ends_member inputs →
  record_of (a_ID g) st = Some g → launches st = [] → (length (a_Members g) < fuel)%nat →
  ∃ r st1 st2, activate torn fuel (a_ID g) actor v st = Some (r, st1) ∧ each (advance torn fuel (a_ID g)) inputs st1 = Some (tt, st2)
    ∧ NoDup (sessions st2).
Proof.
  intros Hn Hg C His Hr Hl Hf. pose proof (fresh_draft g Hn Hg) as F.
  destruct (activate_in g fuel actor v st F C Hr Hf) as (r&st1&Ha&Hd). exists r, st1. destruct Hd as [Hd|(T&a&Hr1&L&Hl1&Ho1)].
  - destruct (ends_draft g fuel inputs st1) as ([]&st2&He&Hs); [by rewrite (proj1 Hd)|apply F|lia|].
    exists st2. split; [done|]. split; [done|]. rewrite sessions_launches, (proj2 Hs), (proj2 Hd), Hl. constructor.
  - rewrite Hl in Hl1.
    destruct (ends_carry g fuel inputs st1 (ms_memberID <$> T) a) as ([]&st2&He&T2&a2&_&L2&Hl2&Ho2&_); [by apply carries_in|done..|].
    exists st2. split; [done|]. split; [done|]. rewrite sessions_launches, Hl2, Hl1. cbn [app].
    rewrite <- fmap_app. apply (once_each g); [done|by apply Forall_app|]. rewrite fmap_app.
    apply (lv_once g _ a2), life_living; done.
Qed.

(** ** Cancelling *)

(** C24: cancelling returns, whatever sessions and nested Automations are in
    flight and whichever of them cannot be ended: the recursion through nested
    Automations ends. It does nothing to Automations but cancel some that were
    active, paused or blocked; and when it answers a record, that Automation is
    cancelled. *)
Theorem cancel_returns id actor inFlight hasChoice v s :
  (∀ w m, autos (others w m) = autos (w, m)) →
  ∃ r s', CancelAutomation torn id actor inFlight hasChoice v s = Some (r, s') ∧ cancelling id s r s'.
Proof.
  intros alone. unfold CancelAutomation. apply returns_bind, returns_get. destruct s as [w m]. apply cancelling_returns; [done|].
  assert (uncancelled (autos (w, m)) ≤ size (autos (w, m)))%nat; [|unfold autos in *; cbn in *; lia].
  unfold uncancelled. apply map_subseteq_size, map_filter_subseteq.
Qed.
End drive.

(** ** A world

    A disk that takes every write; a starter whose sessions all start but the one
    for ["p1"]. *)

#[local] Existing Instance any_zone.
#[local] Existing Instance in_key_order.

Record world := mkWorld { clock : Time; prds_run : list string }.

#[local] Instance quiet_disk : Disk world Automation :=
  {| wall w := clock w; range _ m := (map_to_list m).*2; write w _ := (mkWorld (clock w + 1) (prds_run w), None) |}.

#[local] Instance quiet_daemon : Daemon world :=
  {| daemon_disk := quiet_disk; savePRD w _ := (w, None); draws _ _ := "id"; agentInsertPolicy _ := "";
     budgetVerdictFor _ _ _ := zero_verdict |}.

Definition set_prd_status (st : string) (p : PRD) : PRD :=
  mkPRD (prd_ID p) (prd_Title p) st (prd_IsTemplate p) (prd_ParentPRDID p) (prd_AutomationID p) (prd_Branch p).

#[local] Instance one_refuses : Starter world :=
  {| Run w p x := if String.eqb x "p1" then (w, p, Some "no room")
                  else (mkWorld (clock w) (prds_run w ++ [x]), alter (set_prd_status PRDRunning) x p, None);
     Resume w p x _ := (w, p, None); memberCanceller := Some (λ w p x, (w, alter (set_prd_status PRDCancelled) x p, None)); nestedStarter := None; git _ _ := ("", None);
     Config _ := mkConfig "" "" 0; blockedTaskDetails _ _ _ := ""; others w m := (w, m) |}.

Definition lost_write (w : world) (l : list Automation) : option (list Automation) := None.

Definition approved_prd (p : string) : PRD := mkPRD p p PRDApproved false "" "" "".

(** The draft with a fork of AutomationLifeTheorems, in a daemon of its own. *)
Definition at_rest : world * Manager :=
  (mkWorld 1 [], mkManager (mkStore {["a1" := fork_draft]} ∅ None)
     (list_to_map ((λ p, (p, approved_prd p)) <$> ["p0"; "p1"; "p2"; "p3"])) [] true ∅ ∅ true ∅).

Lemma alone : calm "a1".
Proof. by split. Qed.

(** The first member ends, which is told twice; of the branches only the second
    gets its session; it ends, the join fires, and the last member starts. *)
Definition told : list stepInput := [end_of "m" PRDCompleted; end_of "m" PRDCompleted; end_of "y" PRDCompleted; end_of "n" PRDCompleted].

Definition after_activation : world * Manager :=
  match activate lost_write 10 "a1" "operator" 0 at_rest with Some (_, st) => st | None => at_rest end.
Definition after_all : world * Manager :=
  match each (advance lost_write 10 "a1") told after_activation with Some (_, st) => st | None => at_rest end.

Lemma told_ends : Forall ends_member told.
Proof. repeat apply Forall_cons_2; [split; [by intros [|]|done]..|apply Forall_nil_2]. Qed.

Lemma advance_lives_witness :
  ∃ S a st' T a', life fork_draft S a ∧ advance lost_write 10 "a1" (end_of "m" PRDCompleted) after_activation = Some (tt, st')
    ∧ sessions st' = ["p0"; "p1"; "p2"] ∧ life fork_draft (S ++ (ms_memberID <$> T)) a'
    ∧ launches st' ≡ₚ launches after_activation ++ (target <$> T).
Proof.
  destruct (activate_done lost_write fork_draft fork_draft_fresh alone 10 "operator" 0 at_rest) as (r&st1&Ha&Hd); [cbn; lia|reflexivity|].
  assert (st1 = after_activation) as -> by (unfold after_activation; change "a1" with (a_ID fork_draft); by rewrite Ha).
  destruct r as [a|e].
  2:{ destruct Hd as [Hs _]. vm_compute in Hs. discriminate Hs. }
  destruct Hd as (T0&Hr&L&_&_).
  destruct (advance_lives lost_write fork_draft 10 (end_of "m" PRDCompleted) after_activation (ms_memberID <$> T0) a)
    as (st'&T&a'&Hadv&_&L'&Hl&_); [exact fork_draft_new|exact fork_draft_guarded|left; exact alone|split; [by intros [|]|done]|exact Hr|exact L|cbn; lia|].
  exists (ms_memberID <$> T0), a, st', T, a'. split; [exact L|]. split; [exact Hadv|]. split; [|by split].
  assert (option_map (λ x, sessions x.2) (Some (tt, st')) = Some ["p0"; "p1"; "p2"]) as E; [|by injection E].
  rewrite <- Hadv. vm_compute. reflexivity.
Defined.

(** *** In company

    Once the first member was started another goroutine is told of its end too,
    between any two steps of a call, and starts what its own step says. *)

Definition others_end (w : world) (m : Manager) : world * Manager :=
  match record_of "a1" (w, m) with
  | Some a =>
      if (0 <? a_Version a) && bool_decide ("p0" ∈ prds_run w) && one_of (a_Status a) [AutomationActive; AutomationPaused] then
        match update lost_write w "a1" (a_Version a) (step_change (wall w) (end_of "m" PRDCompleted) (snapshotMembers w m a)) m with
        | (w', m', Ok (eff, _)) => (w', foldl (λ m s, say (target s) m) m' (ef_starts eff))
        | (w', m', Err _) => (w', m')
        end
      else (w, m)
  | None => (w, m)
  end.

Definition raced : Starter world :=
  {| Run w p x := (mkWorld (clock w) (prds_run w ++ [x]), alter (set_prd_status PRDRunning) x p, None);
     Resume w p x _ := (w, p, None); memberCanceller := None; nestedStarter := Some (λ w m _ _, (w, m, None)); git _ _ := ("", None);
     Config _ := mkConfig "" "" 0; blockedTaskDetails _ _ _ := ""; others := others_end |}.

Lemma say_all_grows (l : list memberStart) (w : world) m :
  grows "a1" (target <$> l) (w, m) (w, foldl (λ m s, say (target s) m) m l).
Proof.
  revert m. induction l as [|s l IH]; intros m; [split; [done|]; by rewrite app_nil_r|]. cbn [foldl fmap list_fmap].
  destruct (IH (say (target s) m)) as [H1 H2]. split; [by rewrite H1|]. rewrite H2. unfold launches. cbn.
  rewrite List.filter_app, <- app_assoc. cbn. unfold target. by destruct (String.eqb _ _).
Qed.

Lemma wrap64_moves v : wrap64 (v + 1) ≠ v.
Proof. unfold wrap64. intros H. pose proof (Z.div_mod (v + 1 + 2 ^ 63) (2 ^ 64)). lia. Qed.

Lemma others_end_along w m S a : record_of "a1" (w, m) = Some a → life fork_draft S a →
  same "a1" (w, m) (others_end w m)
  ∨ carried fork_draft [] S a (w, m) (others_end w m) ∧ elsewhere fork_draft (a_Version a) (others_end w m).
Proof.
  intros Hr L. unfold others_end. rewrite Hr. destruct (0 <? a_Version a) eqn:Ev; [|by left]. case_bool_decide; [|by left]. cbn [andb].
  destruct (one_of (a_Status a) _) eqn:Ho; [|by left]. pose proof (under_way_status (a := a) _ eq_refl Ho) as Hu.
  destruct (update _ _ _ _ _ _) as [[w' m'] r] eqn:Hup. pose proof Hup as [Hl Hres]%(update_record lost_write "a1").
  destruct r as [[eff b]|e]; [right|by left]. destruct Hres as (a'&y&Ha&Hf&Hst&Hb). rewrite Hr in Ha. injection Ha as <-.
  unfold step_change, finished in Hf. destruct (step (wall w) a _ (snapshotMembers w m a)) as [[[y' eff']|e]|] eqn:Hs; [|done..].
  cbn in Hf. injection Hf as <- <-.
  assert (ends_member (end_of "m" PRDCompleted)) as Hi by (split; [by intros [|]|done]).
  destruct (step_stored fork_draft fork_draft_fresh S a _ _ _ y' eff' b L Hu Hi Hs Hst) as (Lb&Hof&_&Hle&_).
  destruct (say_all_grows (ef_starts eff') w' m') as [H1 H2]. split.
  - exists (ef_starts eff'), b. split; [exact (eq_trans H1 Hb)|]. split; [done|]. split; [by rewrite H2, Hl|]. split; [done|].
    intros _. split; [done|]. lia.
  - apply Z.ltb_lt in Ev. split; [done|]. intros a2 Ha2. pose proof (eq_trans (eq_sym Ha2) (eq_trans H1 Hb)) as [= ->].
    destruct (update_guarded _ _ _ _ _ _ _ _ _ _ Hup) as (a3&Ha3&Hv&->). rewrite (Hv Ev). apply wrap64_moves.
Qed.

Lemma in_company : accompanied (starter := raced) fork_draft.
Proof.
  split.
  - intros w m S a Hr L. by apply others_end_along.
  - intros w m Hr. left. change (same "a1" (w, m) (others_end w m)). unfold others_end. change (a_ID fork_draft) with "a1" in Hr.
    rewrite Hr, andb_false_r. done.
  - intros act w m child actor S a [= <-] Hr L. by apply carried_same.
  - intros s [w m] e st' _ _. unfold runStart, interfere, emit, on_prds, lift, modify, mbind, M_bind, mret, M_ret. cbn.
    destruct (others_end w m) as [w1 m1]. destruct (String.eqb (ms_kind s) MemberKindAutomation); cbn; [by intros [= <- _]|].
    destruct (ms_resume s); cbn; by intros [= <- _].
Qed.

(** Activation starts the first member; before the coordinator has begun with its
    end the other has written it: its own write is refused, and the second attempt
    finds a stale end. Each branch is started once. *)
Definition raced_run : world * Manager :=
  match activate (starter := raced) lost_write 10 "a1" "operator" 0 at_rest with
  | Some (_, st) => match each (advance (starter := raced) lost_write 10 "a1") told st with Some (_, st) => st | None => at_rest end
  | None => at_rest
  end.

Lemma no_session_started_twice_witness :
  (sessions after_all = ["p0"; "p1"; "p2"; "p3"] ∧ (a_Status <$> record_of "a1" after_all) = Some AutomationCompleted
   ∧ ∃ r st1 st2, activate lost_write 10 "a1" "operator" 0 at_rest = Some (r, st1)
       ∧ each (advance lost_write 10 "a1") told st1 = Some (tt, st2) ∧ NoDup (sessions st2))
  ∧ sessions raced_run = ["p0"; "p1"; "p2"; "p3"]
  ∧ ∃ r st1 st2, activate (starter := raced) lost_write 10 "a1" "operator" 0 at_rest = Some (r, st1)
      ∧ each (advance (starter := raced) lost_write 10 "a1") told st1 = Some (tt, st2) ∧ NoDup (sessions st2).
Proof.
  split; [split; [vm_compute; reflexivity|]; split; [vm_compute; reflexivity|]|split; [vm_compute; reflexivity|]].
  - apply (no_session_started_twice lost_write fork_draft 10 "operator" 0 told at_rest);
      [exact fork_draft_new|exact fork_draft_guarded|left; exact alone|exact told_ends|reflexivity|reflexivity|cbn; lia].
  - apply (no_session_started_twice (starter := raced) lost_write fork_draft 10 "operator" 0 told at_rest);
      [exact fork_draft_new|exact fork_draft_guarded|right; exact in_company|exact told_ends|reflexivity|reflexivity|cbn; lia].
Defined.

(** A parent whose only member is a nested Automation in flight, and that child
    with a session of its own. *)
Definition in_flight (m : AutomationMember) : AutomationMember := set_m_Status MemberRunning m.
Definition parent_ : Automation :=
  automation_of AutomationActive "c" ["c"] [in_flight (mkMember "c" "" "" "" "" MemberKindAutomation "a2" [] [] "" zero_time "" "" "" None None "" "" None None float_zero "")].
Definition child_ : Automation := set_a_ID "a2" (automation_of AutomationActive "m" ["m"] [in_flight (prd_member "m" "p0" "")]).

Definition nesting : world * Manager :=
  (mkWorld 1 [], mkManager (mkStore {["a1" := parent_; "a2" := child_]} {["p0" := "a2"]} None) {["p0" := set_prd_status PRDRunning (approved_prd "p0")]} [] true ∅ ∅ true ∅).

Definition after_cancel : world * Manager :=
  match CancelAutomation lost_write "a1" "operator" true true 1 nesting with Some (_, st) => st | None => nesting end.

Lemma cancel_returns_witness :
  (λ a, (a_Status a, m_Status <$> a_Members a)) <$> autos after_cancel
    = {["a1" := (AutomationCancelled, [MemberCancelled]); "a2" := (AutomationCancelled, [MemberCancelled])]}
  ∧ ∃ r s', CancelAutomation lost_write "a1" "operator" true true 1 nesting = Some (r, s') ∧ cancelling "a1" nesting r s'.
Proof.
  split; [vm_compute; reflexivity|]. apply (cancel_returns lost_write "a1" "operator" true true 1 nesting). done.
Defined.
