(* ===== verification/SessionEngine.v ===== *)
(** * Liveness of a session's backend

    internal/session/backend_liveness.go (the classifier), backend_family.go and
    internal/config/backend_liveness.go (the timeouts of a backend), and the
    reading of a claude-code pane in busy_probe.go. All of it is pure.

    Also: the session state engine. *)

From S2P Require Import Prelude GoBase GoText.

#[local] Open Scope Z_scope.

(** ** Families *)

Definition busyProbeBackend : string := "claude-code".

Definition IsPromptBackend (backendName : string) : bool := HasSuffix (ToLower (TrimSpace backendName)) "-prompt".

Definition livenessRuleApplies (family : string) : bool :=
  if String.eqb family "" then false else negb (String.eqb family busyProbeBackend).

(** ** The classifier *)

Definition DefaultLivenessWindow : Duration := 30 * Second.

Inductive LivenessVerdict := LivenessNoOpinion | LivenessRunning | LivenessWaitingInput | LivenessStalled.

#[global] Instance LivenessVerdict_eq_dec : EqDecision LivenessVerdict.
Proof. solve_decision. Defined.

Record LivenessInput := mkLiveness {
  li_BackendFamily : string;
  li_PrintMode : bool;
  li_ProcessAlive : bool;
  li_LastActivity : Time;
  li_Now : Time;
  li_Window : Duration;
  li_AtPrompt : bool;
  li_StallOthers : bool
}.

Definition liveness_window (d : Duration) : Duration := if d <=? 0 then DefaultLivenessWindow else d.

Definition withinWindow (i : LivenessInput) : bool :=
  negb (IsZero (li_LastActivity i)) && (Sub (li_Now i) (li_LastActivity i) <=? liveness_window (li_Window i)).

Definition ClassifyLiveness (i : LivenessInput) : LivenessVerdict :=
  if negb (li_ProcessAlive i) then LivenessStalled
  else if li_PrintMode i then (if withinWindow i then LivenessRunning else LivenessStalled)
  else if li_AtPrompt i then LivenessWaitingInput
  else if withinWindow i then LivenessRunning
  else if String.eqb (li_BackendFamily i) busyProbeBackend then LivenessRunning
  else if li_StallOthers i then LivenessStalled
  else LivenessNoOpinion.

(** [AssessLiveness]: the verdict and AliveSilent. *)
Definition AssessLiveness (i : LivenessInput) : LivenessVerdict * bool :=
  (ClassifyLiveness i, li_ProcessAlive i && negb (li_AtPrompt i) && negb (withinWindow i)).

(** ** Settings *)

Record LivenessConfig := mkLivenessConfig {
  lc_WindowSeconds : Z;
  lc_InputIdleTimeout : Z;
  lc_Overrides : gmap string Z
}.

Definition DefaultLivenessWindowSeconds : Z := 120.

Definition LivenessWindowSecondsEffective (c : LivenessConfig) : Z :=
  if lc_WindowSeconds c <=? 0 then DefaultLivenessWindowSeconds else lc_WindowSeconds c.

Definition effectiveSessionInputIdleTimeout (c : LivenessConfig) : Z :=
  if 0 <? lc_InputIdleTimeout c then lc_InputIdleTimeout c else 10.

(** [backendName[:len(backendName)-len("-prompt")]] *)
Definition family_of (backendName : string) : string := String.substring 0 (String.length backendName - 7) backendName.

Definition lookupLivenessIdleTimeoutOverride (c : LivenessConfig) (backendName : string) : option Z :=
  match lc_Overrides c !! backendName with
  | Some v => Some v
  | None => if IsPromptBackend backendName then lc_Overrides c !! family_of backendName else None
  end.

Definition LivenessInputIdleTimeoutEffective (c : LivenessConfig) (backendName : string) : Z :=
  match lookupLivenessIdleTimeoutOverride c (TrimSpace backendName) with
  | Some v => v
  | None => if IsPromptBackend backendName then 0 else effectiveSessionInputIdleTimeout c
  end.

(** ** Reading a pane *)

Definition busyProbeWindowLines : nat := 15.
Definition spinnerGlyphs : list string := ["●"; "✢"; "✶"; "✻"; "✽"; "✳"; "·"; "*"].

Definition last_n {A} (n : nat) (l : list A) : list A := drop (length l - n) l.

Definition nonEmptyTail (text : string) (n : nat) : list string :=
  last_n n (filter (λ l, l ≠ "") (TrimSpace <$> split_byte nl text)).

Definition isToolRunningLine (l : string) : bool := HasPrefix l "⎿" && Contains l "…".

Definition upper_first (s : string) : bool :=
  match s with
  | String a _ => let n := Ascii.nat_of_ascii a in ((65 <=? n) && (n <=? 90))%nat
  | EmptyString => false
  end.

(** The first rune is a glyph when the line starts with the glyph's bytes. *)
Definition isSpinnerLine (l : string) : bool :=
  Contains l "…" &&
  match cut_any CutPrefix l spinnerGlyphs with
  | None => false
  | Some rest => upper_first (TrimLeft (Ascii.ascii_of_nat 32) rest)
  end.

Definition paneShowsWork (lines : list string) : bool :=
  existsb (λ l, Contains l "esc to interrupt" || Contains l "esc interrupt") (last_n 3 lines)
  || existsb (λ l, isToolRunningLine l || isSpinnerLine l) lines.

Definition paneIdlePromptVisible (lines : list string) : bool :=
  existsb (λ l, HasPrefix l "❯" || HasSuffix l "$" || HasSuffix l "%") (last_n 3 lines).

(** [capture] is the pane's text without escape sequences. *)
Definition paneLooksBusy (capture : string) (childActive : bool) : bool :=
  let lines := nonEmptyTail capture busyProbeWindowLines in
  if paneShowsWork lines then true else childActive && negb (paneIdlePromptVisible lines).

Example busy_ex : paneLooksBusy ("✻ Crunching… (12s)" +:+ String nl "❯") true = true
  ∧ paneLooksBusy ("✻ Crunched for 52s" +:+ String nl "❯ ") true = false.
Proof. split; vm_compute; reflexivity. Qed.

(** * The session state engine

    internal/session/state_engine.go with the probes of busy_probe.go: channel
    events, the ACP events of opencode, the watcher that acts on silence, and the
    resumption by output (processOutputLine in manager.go). The store is the map
    of sessions; what the hooks and the journal are told is the list of notes, in
    order. The panes, the processes in them and the output logs are the class
    [Panes]: [capture] is the text of a pane without its escape sequences. *)

#[local] Open Scope Z_scope.

Inductive SessionState :=
| StateRunning | StateWaitingInput | StateComplete | StateFailed | StateKilled | StateRateLimited | StateStalled.

#[global] Instance SessionState_eq_dec : EqDecision SessionState.
Proof. solve_decision. Defined.

(** The fields of [Session] the engine reads or writes. *)
Record Session := mkSession {
  ss_State : SessionState;
  ss_OneShot : bool;
  ss_BackendFamily : string;
  ss_TmuxSession : string;
  ss_LastChannelEventAt : Time;
  ss_UpdatedAt : Time;
  ss_TaskDeliveredAt : option Time
}.

Inductive Note :=
| NRecordEnd (id : string) (from to : SessionState) (reason : string)
| NStateChange (id : string) (from to : SessionState)
| NSessionEnd (id : string).

Record Manager := mkManager {
  mg_sessions : gmap string Session;
  mg_taskDeliveredAt : gset string;
  mg_acpBusySeen : gset string;
  mg_notes : list Note
}.

Class Panes (W : Type) := {
  capture : W → string → option string;
  has_child : W → string → bool;
  log_mtime : W → string → option Time
}.

Definition set_state (st : SessionState) (t : Time) (s : Session) : Session :=
  mkSession st (ss_OneShot s) (ss_BackendFamily s) (ss_TmuxSession s) (ss_LastChannelEventAt s) t (ss_TaskDeliveredAt s).
Definition set_event (t : Time) (s : Session) : Session :=
  mkSession (ss_State s) (ss_OneShot s) (ss_BackendFamily s) (ss_TmuxSession s) t (ss_UpdatedAt s) (ss_TaskDeliveredAt s).

Definition save_session (id : string) (s : Session) (m : Manager) : Manager :=
  mkManager (<[id := s]> (mg_sessions m)) (mg_taskDeliveredAt m) (mg_acpBusySeen m) (mg_notes m).
Definition tell (ns : list Note) (m : Manager) : Manager :=
  mkManager (mg_sessions m) (mg_taskDeliveredAt m) (mg_acpBusySeen m) (mg_notes m ++ ns).
Definition see_busy (id : string) (m : Manager) : Manager :=
  mkManager (mg_sessions m) (mg_taskDeliveredAt m) ({[id]} ∪ mg_acpBusySeen m) (mg_notes m).
Definition deliver (id : string) (m : Manager) : Manager :=
  mkManager (mg_sessions m) ({[id]} ∪ mg_taskDeliveredAt m) (mg_acpBusySeen m) (mg_notes m).

(** ** Channel events *)

Inductive ChannelEventKind := EventRunning | EventIdle | EventComplete.

Definition kind_String (k : ChannelEventKind) : string :=
  match k with EventRunning => "running" | EventIdle => "idle" | EventComplete => "complete" end.

(** The states no channel event leaves, by the test of [markChannelEventAt]. *)
Definition sticky (st : SessionState) : bool :=
  match st with StateComplete | StateFailed | StateKilled | StateRateLimited => true | _ => false end.

Definition channel_next (kind : ChannelEventKind) (old : SessionState) : SessionState :=
  match kind with
  | EventRunning => match old with StateWaitingInput => StateRunning | _ => old end
  | EventIdle => match old with StateRunning => StateWaitingInput | _ => old end
  | EventComplete => match old with StateRunning | StateWaitingInput => StateComplete | _ => old end
  end.

Definition is_complete (st : SessionState) : bool := bool_decide (st = StateComplete).

(** [clock] is what [time.Now] answers, for a zero [ts]. *)
Definition markChannelEventAt (clock : Time) (id : string) (kind : ChannelEventKind) (ts : Time) (m : Manager) : Manager :=
  match mg_sessions m !! id with
  | None => m
  | Some s =>
      let ts := if IsZero ts then clock else ts in
      let old := ss_State s in
      let s := set_event ts s in
      if sticky old then save_session id s m
      else
        let new := channel_next kind old in
        if bool_decide (old = new) then save_session id s m
        else
          let m := save_session id (set_state new ts s) m in
          let m := if is_complete new then tell [NRecordEnd id old new ("channel event: " +:+ kind_String kind)] m else m in
          let m := tell [NStateChange id old new] m in
          if is_complete new then tell [NSessionEnd id] m else m
  end.

Definition MarkChannelEvent (now : Time) (id : string) (kind : ChannelEventKind) (m : Manager) : Manager :=
  markChannelEventAt now id kind now m.

(** ** opencode's events *)

Definition classifyACPEventType (eventType statusType : string) : option ChannelEventKind :=
  if String.eqb eventType "session.completed" || String.eqb eventType "message.completed" then Some EventComplete
  else if String.eqb eventType "session.idle" then Some EventIdle
  else if String.eqb eventType "session.status" then
    if String.eqb statusType "busy" then Some EventRunning
    else if String.eqb statusType "idle" then Some EventIdle else None
  else if String.eqb eventType "step-start" || String.eqb eventType "message.part.delta"
       || String.eqb eventType "message.part.updated" then Some EventRunning
  else None.

Definition touchIfRunning (now : Time) (id : string) (m : Manager) : Manager :=
  match mg_sessions m !! id with
  | Some s => match ss_State s with StateRunning => save_session id (set_event now s) m | _ => m end
  | None => m
  end.

Definition MarkACPEvent (now : Time) (id eventType statusType : string) (m : Manager) : Manager :=
  match classifyACPEventType eventType statusType with
  | None =>
      if String.eqb eventType "server.heartbeat" || String.eqb eventType "server.connected" then m
      else touchIfRunning now id m
  | Some EventRunning => MarkChannelEvent now id EventRunning (see_busy id m)
  | Some EventIdle =>
      let kind :=
        if bool_decide (id ∈ mg_acpBusySeen m) then
          match mg_sessions m !! id with
          | Some s => if ss_OneShot s then EventComplete else EventIdle
          | None => EventIdle
          end
        else EventIdle in
      MarkChannelEvent now id kind m
  | Some EventComplete => MarkChannelEvent now id EventComplete m
  end.

(** What a line of output does to the state, when it is neither a completion nor
    an input marker. *)
Definition output_activity (now : Time) (id : string) (m : Manager) : Manager :=
  match mg_sessions m !! id with
  | None => m
  | Some s =>
      match ss_State s with
      | (StateWaitingInput | StateStalled) as old =>
          tell [NStateChange id old StateRunning] (save_session id (set_event now (set_state StateRunning now s)) m)
      | StateRunning => save_session id (set_event now s) m
      | _ => m
      end
  end.

(** ** The probes *)

Section engine.
Context {W : Type} `{!Panes W} (cfg : option LivenessConfig) (has_tmux : bool).

Definition busyProbeApplies (s : Session) : bool :=
  String.eqb (ss_BackendFamily s) busyProbeBackend && nonempty (ss_TmuxSession s).

Definition paneBusy (w : W) (s : Session) : bool :=
  if negb (has_tmux && busyProbeApplies s) then false
  else match capture w (ss_TmuxSession s) with
       | None => false
       | Some text => paneLooksBusy text (has_child w (ss_TmuxSession s))
       end.

Definition paneProcessAlive (w : W) (s : Session) : bool :=
  nonempty (ss_TmuxSession s) && has_child w (ss_TmuxSession s).

Definition paneAtPrompt (w : W) (s : Session) : bool :=
  if negb (has_tmux && nonempty (ss_TmuxSession s)) then false
  else match capture w (ss_TmuxSession s) with
       | None => false
       | Some text => nonempty text && paneIdlePromptVisible (nonEmptyTail text busyProbeWindowLines)
       end.

Definition sessionLastActivity (w : W) (id : string) (s : Session) : Time :=
  match log_mtime w id with
  | Some t => if After t (ss_LastChannelEventAt s) then t else ss_LastChannelEventAt s
  | None => ss_LastChannelEventAt s
  end.

(** [time.Duration(sec) * time.Second] *)
Definition seconds (sec : Z) : Duration := wrap64 (sec * Second).

Definition livenessWindowFor : Duration :=
  match cfg with
  | Some c => let sec := LivenessWindowSecondsEffective c in if 0 <? sec then seconds sec else 0
  | None => 0
  end.

Definition liveness_input (stallOthers : bool) (w : W) (id : string) (s : Session) (now : Time) : LivenessInput :=
  mkLiveness (ss_BackendFamily s) (IsPromptBackend (ss_BackendFamily s)) (paneProcessAlive w s)
    (sessionLastActivity w id s) now livenessWindowFor (paneAtPrompt w s) stallOthers.

Definition livenessVerdictFor (w : W) (id : string) (s : Session) (now : Time) : LivenessVerdict :=
  ClassifyLiveness (liveness_input false w id s now).

(** [LivenessAssessmentFor] on a session already looked up. *)
Definition LivenessAssessmentFor (w : W) (id : string) (s : Session) (now : Time) : option (LivenessVerdict * bool) :=
  if String.eqb (ss_BackendFamily s) "" then None else Some (AssessLiveness (liveness_input true w id s now)).

Definition session_busy (w : W) (id : string) (s : Session) (now : Time) : bool :=
  if String.eqb (ss_BackendFamily s) busyProbeBackend then paneBusy w s
  else if livenessRuleApplies (ss_BackendFamily s) && has_tmux
       then bool_decide (livenessVerdictFor w id s now = LivenessRunning)
       else false.

Definition probed (st : SessionState) : bool := match st with StateRunning | StateWaitingInput => true | _ => false end.

Definition applyBusyProbe (w : W) (clock : Time) (id : string) (ts : Time) (m : Manager) : Manager * bool :=
  match mg_sessions m !! id with
  | None => (m, false)
  | Some s =>
      if negb (probed (ss_State s)) then (m, false)
      else if session_busy w id s (if IsZero ts then clock else ts)
           then (markChannelEventAt clock id EventRunning ts m, true)
           else (m, false)
  end.

(** ** The watcher *)

Definition DefaultRunningToWaitingGap : Duration := 15 * Second.
Definition acpSilenceGap : Duration := 5 * Minute.

Definition TaskDelivered (id : string) (m : Manager) : bool :=
  match mg_sessions m !! id with
  | Some (mkSession _ _ _ _ _ _ (Some _)) => true
  | _ => bool_decide (id ∈ mg_taskDeliveredAt m)
  end.

Definition flip (id : string) (new : SessionState) (now : Time) (s : Session) (m : Manager) : Manager :=
  tell [NStateChange id (ss_State s) new] (save_session id (set_state new now s) m).

(** The recovery pass on one session. *)
Definition recover_one (w : W) (now : Time) (m : Manager) (id : string) : Manager :=
  match mg_sessions m !! id with
  | None => m
  | Some s =>
      match ss_State s with
      | StateWaitingInput =>
          if negb (ss_OneShot s) then m
          else if negb (TaskDelivered id m) then m
          else if livenessRuleApplies (ss_BackendFamily s) && has_tmux
                  && bool_decide (livenessVerdictFor w id s now = LivenessStalled)
               then flip id StateStalled now s m
               else (applyBusyProbe w now id now m).1
      | _ => m
      end
  end.

(** The silence window of a session, and whether it is off. *)
Definition session_gap (gap : Duration) (s : Session) : Duration * bool :=
  let '(sessGap, idleOff) :=
    match cfg with
    | Some c =>
        if nonempty (ss_BackendFamily s) then
          let sec := LivenessInputIdleTimeoutEffective c (ss_BackendFamily s) in
          if sec =? 0 then (gap, true) else (seconds sec, false)
        else (gap, false)
    | None => (gap, false)
    end in
  if String.eqb (ss_BackendFamily s) "opencode-acp" && (sessGap <? acpSilenceGap) then (acpSilenceGap, false)
  else (sessGap, idleOff).

(** What the gap pass does with a session: it reads the session and its pane,
    then acts. *)
Inductive GapAction := Leave | Refresh | Stall | ToWaiting.

Definition gap_decide (w : W) (now : Time) (gap : Duration) (id : string) (s : Session) : GapAction :=
  match ss_State s with
  | StateRunning =>
      if IsZero (ss_LastChannelEventAt s) then Leave
      else
        let '(sessGap, idleOff) := session_gap gap s in
        if negb idleOff && (Sub now (ss_LastChannelEventAt s) <? sessGap) then Leave
        else if livenessRuleApplies (ss_BackendFamily s) && has_tmux then
          match livenessVerdictFor w id s now with
          | LivenessRunning => Refresh
          | LivenessStalled => Stall
          | _ => if session_busy w id s now then Refresh else ToWaiting
          end
        else if session_busy w id s now then Refresh else ToWaiting
  | _ => Leave
  end.

Definition gap_act (now : Time) (id : string) (a : GapAction) (m : Manager) : Manager :=
  match mg_sessions m !! id with
  | None => m
  | Some s =>
      match a with
      | Leave => m
      | Refresh => markChannelEventAt now id EventRunning now m
      | Stall => tell [NStateChange id StateRunning StateStalled] (save_session id (set_state StateStalled now s) m)
      | ToWaiting => flip id StateWaitingInput now s m
      end
  end.

Definition gap_one (w : W) (now : Time) (gap : Duration) (m : Manager) (id : string) : Manager :=
  match mg_sessions m !! id with
  | None => m
  | Some s => gap_act now id (gap_decide w now gap id s) m
  end.

(** [Store.List]: by id. *)
Definition session_ids (m : Manager) : list string := sort_strings (elements (dom (mg_sessions m))).

Definition runChannelStateWatcherTick (w : W) (now : Time) (gap : Duration) (m : Manager) : Manager :=
  let m := foldl (recover_one w now) m (session_ids m) in
  foldl (gap_one w now gap) m (session_ids m).

(** One tick of the goroutine started at [startup]. *)
Definition watcher_tick (startup : Time) (w : W) (now : Time) (gap : Duration) (m : Manager) : Manager :=
  let gap := if gap <=? 0 then DefaultRunningToWaitingGap else gap in
  if Sub now startup <? 30 * Second then m else runChannelStateWatcherTick w now gap m.

(** ** The engine's operations *)

Inductive engine_op :=
| OpChannel (clock : Time) (id : string) (kind : ChannelEventKind) (ts : Time)
| OpACP (now : Time) (id eventType statusType : string)
| OpOutput (now : Time) (id : string)
| OpProbe (w : W) (clock : Time) (id : string) (ts : Time)
| OpTick (startup : Time) (w : W) (now : Time) (gap : Duration)
| OpDeliver (id : string).

Definition engine_run (m : Manager) (o : engine_op) : Manager :=
  match o with
  | OpChannel clock id kind ts => markChannelEventAt clock id kind ts m
  | OpACP now id ev st => MarkACPEvent now id ev st m
  | OpOutput now id => output_activity now id m
  | OpProbe w clock id ts => (applyBusyProbe w clock id ts m).1
  | OpTick startup w now gap => watcher_tick startup w now gap m
  | OpDeliver id => deliver id m
  end.

(** ** The calls, a memory access at a time

    Only the change of a channel event is made under the store's lock. The
    watcher, a line of output and a touch read the session, perhaps probe its
    pane, and write it, and other calls run in between; they write the shared
    record itself. A call is at one of these points. *)
Inductive CallPC :=
| Done
| Delivering (id : string)
| Marking (clock : Time) (id : string) (kind : ChannelEventKind) (ts : Time) (k : CallPC)
| TurnSeen (now : Time) (id : string)
| TurnAsk (now : Time) (id : string)
| AskOneShot (now : Time) (id : string)
| TouchRead (now : Time) (id : string)
| TouchWrite (now : Time) (id : string)
| OutputRead (now : Time) (id : string)
| OutputWrite (now : Time) (id : string) (stalled : bool)
| ProbeRead (clock : Time) (id : string) (ts : Time) (busy idle : CallPC)
| ProbePane (clock : Time) (id : string) (ts : Time) (busy idle : CallPC)
| Tick (startup now : Time) (gap : Duration)
| RecoverRead (now : Time) (gap : Duration) (ids : list string)
| RecoverJudge (now : Time) (gap : Duration) (id : string) (ids : list string)
| RecoverStall (now : Time) (gap : Duration) (id : string) (ids : list string)
| GapList (now : Time) (gap : Duration)
| GapRead (now : Time) (gap : Duration) (ids : list string)
| GapJudge (now : Time) (gap : Duration) (id : string) (ids : list string)
| GapStall (now : Time) (gap : Duration) (id : string) (ids : list string)
| GapFlip (now : Time) (gap : Duration) (id : string) (ids : list string).

(** A running session that has been silent long enough to be judged. *)
Definition gap_passed (now : Time) (gap : Duration) (s : Session) : bool :=
  negb (IsZero (ss_LastChannelEventAt s))
  && negb (negb (session_gap gap s).2 && (Sub now (ss_LastChannelEventAt s) <? (session_gap gap s).1)).

Definition resumed_from (stalled : bool) : SessionState := if stalled then StateStalled else StateWaitingInput.

(** The state a call takes its session to be in when it writes it. *)
Definition judged (p : CallPC) : option (string * SessionState) :=
  match p with
  | OutputWrite _ id stalled => Some (id, resumed_from stalled)
  | RecoverStall _ _ id _ => Some (id, StateWaitingInput)
  | GapStall _ _ id _ | GapFlip _ _ id _ => Some (id, StateRunning)
  | _ => None
  end.

(** The write of one session, as it is then. *)
Definition write_session (f : Session → Session) (ns : Session → list Note) (id : string) (m : Manager) : Manager :=
  match mg_sessions m !! id with
  | Some s => tell (ns s) (save_session id (f s) m)
  | None => m
  end.

(** The next point after a read of one session. *)
Definition on_session (id : string) (m : Manager) (k : Session → CallPC) (gone : CallPC) : CallPC :=
  match mg_sessions m !! id with Some s => k s | None => gone end.

Definition call_step (w : W) (m : Manager) (p : CallPC) : Manager * CallPC :=
  match p with
  | Done => (m, Done)
  | Delivering id => (deliver id m, Done)
  | Marking clock id kind ts k => (markChannelEventAt clock id kind ts m, k)
  | TurnSeen now id => (see_busy id m, Marking now id EventRunning now Done)
  | TurnAsk now id =>
      (m, if bool_decide (id ∈ mg_acpBusySeen m) then AskOneShot now id else Marking now id EventIdle now Done)
  | AskOneShot now id =>
      (m, on_session id m (λ s, Marking now id (if ss_OneShot s then EventComplete else EventIdle) now Done)
            (Marking now id EventIdle now Done))
  | TouchRead now id =>
      (m, on_session id m (λ s, if bool_decide (ss_State s = StateRunning) then TouchWrite now id else Done) Done)
  | TouchWrite now id => (write_session (set_event now) (λ _, []) id m, Done)
  | OutputRead now id =>
      (m, on_session id m (λ s, match ss_State s with
                                | StateWaitingInput => OutputWrite now id false
                                | StateStalled => OutputWrite now id true
                                | StateRunning => TouchWrite now id
                                | _ => Done end) Done)
  | OutputWrite now id stalled =>
      (write_session (λ s, set_event now (set_state StateRunning now s))
         (λ _, [NStateChange id (resumed_from stalled) StateRunning]) id m, Done)
  | ProbeRead clock id ts busy idle =>
      (m, on_session id m (λ s, if probed (ss_State s) then ProbePane clock id ts busy idle else idle) idle)
  | ProbePane clock id ts busy idle =>
      (m, on_session id m (λ s, if session_busy w id s (if IsZero ts then clock else ts)
                                then Marking clock id EventRunning ts busy else idle) idle)
  | Tick startup now gap =>
      let gap := if gap <=? 0 then DefaultRunningToWaitingGap else gap in
      (m, if Sub now startup <? 30 * Second then Done else RecoverRead now gap (session_ids m))
  | RecoverRead now gap [] => (m, GapList now gap)
  | RecoverRead now gap (id :: ids) =>
      (m, on_session id m (λ s, if bool_decide (ss_State s = StateWaitingInput) && ss_OneShot s
                                then RecoverJudge now gap id ids else RecoverRead now gap ids) (RecoverRead now gap ids))
  | RecoverJudge now gap id ids =>
      (m, on_session id m (λ s,
            if negb (TaskDelivered id m) then RecoverRead now gap ids
            else if livenessRuleApplies (ss_BackendFamily s) && has_tmux
                    && bool_decide (livenessVerdictFor w id s now = LivenessStalled)
                 then RecoverStall now gap id ids
                 else ProbeRead now id now (RecoverRead now gap ids) (RecoverRead now gap ids)) (RecoverRead now gap ids))
  | RecoverStall now gap id ids =>
      (write_session (set_state StateStalled now) (λ _, [NStateChange id StateWaitingInput StateStalled]) id m,
       RecoverRead now gap ids)
  | GapList now gap => (m, GapRead now gap (session_ids m))
  | GapRead now gap [] => (m, Done)
  | GapRead now gap (id :: ids) =>
      (m, on_session id m (λ s, if bool_decide (ss_State s = StateRunning) && gap_passed now gap s
                                then GapJudge now gap id ids else GapRead now gap ids) (GapRead now gap ids))
  | GapJudge now gap id ids =>
      let probe := ProbeRead now id now (GapRead now gap ids) (GapFlip now gap id ids) in
      (m, on_session id m (λ s,
            if livenessRuleApplies (ss_BackendFamily s) && has_tmux then
              match livenessVerdictFor w id s now with
              | LivenessRunning => Marking now id EventRunning now (GapRead now gap ids)
              | LivenessStalled => GapStall now gap id ids
              | _ => probe
              end
            else probe) (GapRead now gap ids))
  | GapStall now gap id ids =>
      (write_session (set_state StateStalled now) (λ _, [NStateChange id StateRunning StateStalled]) id m, GapRead now gap ids)
  | GapFlip now gap id ids =>
      (write_session (set_state StateWaitingInput now) (λ s, [NStateChange id (ss_State s) StateWaitingInput]) id m,
       GapRead now gap ids)
  end.

Definition entry (o : engine_op) : CallPC :=
  match o with
  | OpChannel clock id kind ts => Marking clock id kind ts Done
  | OpACP now id ev st =>
      match classifyACPEventType ev st with
      | None => if String.eqb ev "server.heartbeat" || String.eqb ev "server.connected" then Done else TouchRead now id
      | Some EventRunning => TurnSeen now id
      | Some EventIdle => TurnAsk now id
      | Some EventComplete => Marking now id EventComplete now Done
      end
  | OpOutput now id => OutputRead now id
  | OpProbe _ clock id ts => ProbeRead clock id ts Done Done
  | OpTick startup _ now gap => Tick startup now gap
  | OpDeliver id => Delivering id
  end.

(** The engine with its calls under way. A schedule names the call that moves
    and what the panes show to it. *)
Definition Sys : Type := Manager * list CallPC.

Definition sys_step (y : Sys) (e : nat * W) : Sys :=
  match y.2 !! e.1 with
  | Some p => let '(m, p) := call_step e.2 y.1 p in (m, <[e.1 := p]> y.2)
  | None => y
  end.

(** A write of [id] that finds it in another state than its call has judged. *)
Definition late (id : string) (m : Manager) (p : CallPC) : bool :=
  match judged p, mg_sessions m !! id with
  | Some (i, st), Some s => String.eqb i id && negb (bool_decide (st = ss_State s))
  | _, _ => false
  end.

Fixpoint late_writes (id : string) (y : Sys) (sched : list (nat * W)) : nat :=
  match sched with
  | [] => 0
  | e :: sched =>
      (if match y.2 !! e.1 with Some p => late id y.1 p | None => false end then 1 else 0)
      + late_writes id (sys_step y e) sched
  end%nat.
End engine.
