(* ===== verification/SessionTheorems.v ===== *)
(** * The session state engine: theorems

    Calls of the engine, interleaved a memory access at a time, move each session
    along the edges of its life cycle but for late writes, and tell of each move
    once; a call on its own does what its operation does; what a tick of the
    watcher does with a silent session; when a one-shot worker of opencode is
    complete. *)

From S2P Require Import Prelude GoBase GoText SessionEngine.

#[local] Open Scope Z_scope.

(** ** The life cycle *)

Inductive edge : SessionState → SessionState → Prop :=
| edge_idle : edge StateRunning StateWaitingInput
| edge_resume : edge StateWaitingInput StateRunning
| edge_stall : edge StateRunning StateStalled
| edge_stall_waiting : edge StateWaitingInput StateStalled
| edge_back : edge StateStalled StateRunning
| edge_complete : edge StateRunning StateComplete
| edge_complete_waiting : edge StateWaitingInput StateComplete.

Definition about (id : string) (n : Note) : bool :=
  match n with
  | NRecordEnd i _ _ _ => String.eqb i id
  | NStateChange i _ _ => String.eqb i id
  | NSessionEnd i => String.eqb i id
  end.
Definition notes_of (id : string) (m : Manager) : list Note := filter (λ n, about id n = true) (mg_notes m).

(** The notes of a session that goes from one state to another. *)
Inductive path (id : string) : SessionState → list Note → SessionState → Prop :=
| path_stay s : path id s [] s
| path_move s s' ns s'' : edge s s' → s' ≠ StateComplete → path id s' ns s'' → path id s (NStateChange id s s' :: ns) s''
| path_end s r ns s'' : edge s StateComplete → path id StateComplete ns s'' →
    path id s (NRecordEnd id s StateComplete r :: NStateChange id s StateComplete :: NSessionEnd id :: ns) s''.

#[local] Hint Constructors edge path : dw.

Lemma path_app id a b c ns ns' : path id a ns b → path id b ns' c → path id a (ns ++ ns') c.
Proof. induction 1; intros; simpl; eauto with dw. Qed.

Definition is_end (id : string) (n : Note) : bool := match n with NSessionEnd i => String.eqb i id | _ => false end.
Definition ends (id : string) (l : list Note) : nat := length (filter (λ n, is_end id n = true) l).

Lemma ends_app id a b : ends id (a ++ b) = (ends id a + ends id b)%nat.
Proof. unfold ends. by rewrite filter_app, length_app. Qed.

Lemma ends_notes_of id m : ends id (notes_of id m) = ends id (mg_notes m).
Proof.
  unfold ends, notes_of. f_equal. rewrite list_filter_filter. apply list_filter_iff. intros [| |]; simpl; naive_solver.
Qed.

Lemma path_locked id a ns b : path id a ns b → sticky a = true → ns = [] ∧ b = a.
Proof. destruct 1 as [| ? ? ? ? He| ? ? ? ? He]; [done|by destruct He..]. Qed.

Lemma path_ends id a ns b :
  path id a ns b → ends id ns = if is_complete b && negb (is_complete a) then 1%nat else 0%nat.
Proof.
  induction 1 as [a|a b ns c He Hb Hp IH|a r ns c He Hp IH].
  - by destruct (is_complete a).
  - change (ends id (NStateChange id a b :: ns)) with (ends id ns). rewrite IH. by destruct He.
  - apply path_locked in Hp as [-> ->]; [|done]. unfold ends. rewrite !filter_cons. simpl. rewrite String.eqb_refl. by destruct He.
Qed.

(** From [m] to [m'] the session [id] moves along its life cycle. *)
Definition moves (id : string) (m m' : Manager) : Prop :=
  ∀ s, mg_sessions m !! id = Some s →
    ∃ s' ns, mg_sessions m' !! id = Some s' ∧ notes_of id m' = notes_of id m ++ ns ∧ path id (ss_State s) ns (ss_State s').

Lemma moves_same id m m' : mg_sessions m' !! id = mg_sessions m !! id → notes_of id m' = notes_of id m → moves id m m'.
Proof. intros Hs Hn s H. exists s, []. rewrite Hs, Hn, app_nil_r. eauto with dw. Qed.

Lemma moves_refl id m : moves id m m.
Proof. by apply moves_same. Qed.

Lemma moves_trans id a b c : moves id a b → moves id b c → moves id a c.
Proof.
  intros H1 H2 s Hs. destruct (H1 s Hs) as (s1&n1&Hs1&Hn1&Hp1), (H2 s1 Hs1) as (s2&n2&Hs2&Hn2&Hp2).
  exists s2, (n1 ++ n2). rewrite Hn2, Hn1, app_assoc. eauto using path_app.
Qed.

Lemma moves_foldl {A} id (f : Manager → A → Manager) (l : list A) m :
  (∀ m x, moves id m (f m x)) → moves id m (foldl f m l).
Proof. intros Hf. revert m. induction l as [|x l IH]; intros m; simpl; [apply moves_refl|eauto using moves_trans]. Qed.

Lemma notes_of_tell id ns m : notes_of id (tell ns m) = notes_of id m ++ filter (λ n, about id n = true) ns.
Proof. unfold notes_of, tell. simpl. apply filter_app. Qed.

(** Saving one session and telling of it: the engine's only way to change one. *)
Lemma moves_put id id' s s' ns m m' :
  mg_sessions m !! id' = Some s →
  mg_sessions m' = <[id' := s']> (mg_sessions m) → mg_notes m' = mg_notes m ++ ns →
  path id' (ss_State s) ns (ss_State s') → Forall (λ n, about id' n = true) ns → moves id m m'.
Proof.
  intros Hs Hm Hn Hp Ha. destruct (decide (id = id')) as [->|Hne].
  - intros s0 Hs0. exists s', ns. rewrite Hm, lookup_insert_eq. unfold notes_of. rewrite Hn, filter_app.
    rewrite (filter_all (about id') ns) by (by apply Forall_forall). by simplify_eq.
  - apply moves_same; [by rewrite Hm, lookup_insert_ne|]. unfold notes_of. rewrite Hn, filter_app.
    rewrite (filter_none (about id) ns); [by rewrite app_nil_r|]. intros n Hin. rewrite Forall_forall in Ha.
    specialize (Ha n Hin). destruct n; simpl in *; apply String.eqb_eq in Ha as ->; by apply String.eqb_neq.
Qed.

Ltac put_notes := repeat constructor; simpl; by rewrite ?String.eqb_refl.

Lemma mark_moves id clock id' kind ts m : moves id m (markChannelEventAt clock id' kind ts m).
Proof.
  unfold markChannelEventAt. destruct (mg_sessions m !! id') as [s|] eqn:Hs; [|apply moves_refl].
  set (t := if IsZero ts then clock else ts).
  assert (∀ m', m' = save_session id' (set_event t s) m → moves id m m') as Hsame.
  { intros m' ->. eapply (moves_put id id' s (set_event t s) []); [done|done|by rewrite app_nil_r|apply path_stay|constructor]. }
  destruct (sticky (ss_State s)) eqn:Hst; [by apply Hsame|].
  case_bool_decide as Hnew; [by apply Hsame|].
  destruct kind, s as [[] one fam tm lce upd del]; simpl in *; try done;
    (eapply (moves_put id id' _ (set_state _ t (set_event t _))); [done|done| | |]);
    cbn; rewrite <-?app_assoc; try reflexivity; eauto with dw; put_notes.
Qed.

Lemma see_busy_moves id id' m : moves id m (see_busy id' m).
Proof. by apply moves_same. Qed.

Lemma touch_moves id now id' m : moves id m (touchIfRunning now id' m).
Proof.
  unfold touchIfRunning. destruct (mg_sessions m !! id') as [s|] eqn:Hs; [|apply moves_refl].
  destruct (ss_State s) eqn:Hst; try apply moves_refl.
  eapply (moves_put id id' s (set_event now s) []); [done|done|by rewrite app_nil_r|apply path_stay|constructor].
Qed.

Lemma acp_moves id now id' ev st m : moves id m (MarkACPEvent now id' ev st m).
Proof.
  unfold MarkACPEvent, MarkChannelEvent. destruct (classifyACPEventType ev st) as [[]|];
    [eauto using moves_trans, see_busy_moves, mark_moves|apply mark_moves..|].
  case_match; [apply moves_refl|apply touch_moves].
Qed.

(** One change of state with its note. *)
Lemma flip_moves id id' s new now m :
  mg_sessions m !! id' = Some s → edge (ss_State s) new → new ≠ StateComplete → moves id m (flip id' new now s m).
Proof.
  intros Hs He Hn. eapply (moves_put id id' s (set_state new now s)); [done|done|done| |put_notes]. cbn. eauto with dw.
Qed.

Lemma output_moves id now id' m : moves id m (output_activity now id' m).
Proof.
  unfold output_activity. destruct (mg_sessions m !! id') as [s|] eqn:Hs; [|apply moves_refl].
  destruct (ss_State s) eqn:Hst; try apply moves_refl.
  - eapply (moves_put id id' s (set_event now s) []); [done|done|by rewrite app_nil_r|apply path_stay|constructor].
  - eapply (moves_put id id' s); [done|done|done| |put_notes]. rewrite Hst. by eauto with dw.
  - eapply (moves_put id id' s); [done|done|done| |put_notes]. rewrite Hst. by eauto with dw.
Qed.

Section engine.
Context {W : Type} `{!Panes W} (cfg : option LivenessConfig) (has_tmux : bool).

Lemma probe_moves id w clock id' ts m : moves id m (applyBusyProbe cfg has_tmux w clock id' ts m).1.
Proof.
  unfold applyBusyProbe. destruct (mg_sessions m !! id') as [s|]; [|apply moves_refl].
  case_match; [apply moves_refl|]. case_match; [apply mark_moves|apply moves_refl].
Qed.

Lemma recover_moves id w now m id' : moves id m (recover_one cfg has_tmux w now m id').
Proof.
  unfold recover_one. destruct (mg_sessions m !! id') as [s|] eqn:Hs; [|apply moves_refl].
  destruct (ss_State s) eqn:Hst; try apply moves_refl. do 2 (case_match; [apply moves_refl|]).
  case_match; [|apply probe_moves]. apply flip_moves; [done| |done]. rewrite Hst. constructor.
Qed.

(** A gap action on a running session; what the watcher decides needs one. *)
Lemma act_moves id now id' a s m :
  mg_sessions m !! id' = Some s → (a ≠ Leave → ss_State s = StateRunning) → moves id m (gap_act now id' a m).
Proof.
  intros Hs Hr. unfold gap_act. rewrite Hs. destruct a; [apply moves_refl|apply mark_moves|..].
  - pose proof (flip_moves id id' s StateStalled now m Hs) as H. unfold flip in H. rewrite Hr in H by done.
    apply H; [constructor|done].
  - apply flip_moves; [done| |done]. rewrite Hr by done. constructor.
Qed.

Lemma decide_running w now gap id s : gap_decide cfg has_tmux w now gap id s ≠ Leave → ss_State s = StateRunning.
Proof. unfold gap_decide. by destruct (ss_State s). Qed.

Lemma gap_moves id w now gap m id' : moves id m (gap_one cfg has_tmux w now gap m id').
Proof.
  unfold gap_one. destruct (mg_sessions m !! id') as [s|] eqn:Hs; [|apply moves_refl].
  eapply act_moves; [done|apply decide_running].
Qed.

Lemma run_moves id m o : moves id m (engine_run cfg has_tmux m o).
Proof.
  destruct o; simpl; [apply mark_moves|apply acp_moves|apply output_moves|apply probe_moves| |by apply moves_same].
  unfold watcher_tick. case_match; [apply moves_refl|].
  unfold runChannelStateWatcherTick. cbv zeta.
  eapply moves_trans; [|apply moves_foldl; intros; apply gap_moves]. apply moves_foldl. intros. apply recover_moves.
Qed.

(** ** The calls interleaved *)

(** A walk with [n] departures from the life cycle. A departure takes the session
    from [s] to [to], where an edge leads from another state [from]; it is told as
    a change from the one or the other. *)
Inductive walk (id : string) : nat → SessionState → list Note → SessionState → Prop :=
| walk_stay s : walk id 0 s [] s
| walk_move n s s' ns s'' : edge s s' → s' ≠ StateComplete → walk id n s' ns s'' → walk id n s (NStateChange id s s' :: ns) s''
| walk_end n s r ns s'' : edge s StateComplete → walk id n StateComplete ns s'' →
    walk id n s (NRecordEnd id s StateComplete r :: NStateChange id s StateComplete :: NSessionEnd id :: ns) s''
| walk_late n s from told to ns s'' : from ≠ s → edge from to → to ≠ StateComplete → told = from ∨ told = s →
    walk id n to ns s'' → walk id (S n) s (NStateChange id told to :: ns) s''.

#[local] Hint Constructors walk : dw.

Lemma walk_app id n n' a b c ns ns' : walk id n a ns b → walk id n' b ns' c → walk id (n + n') a (ns ++ ns') c.
Proof. induction 1; intros; simpl; eauto with dw. Qed.

Lemma path_walk id a ns b : path id a ns b → walk id 0 a ns b.
Proof. induction 1; eauto with dw. Qed.

Lemma walk_path id a ns b : walk id 0 a ns b → path id a ns b.
Proof. remember 0%nat as n eqn:E. induction 1; simplify_eq; eauto with dw. Qed.

(** From [m] to [m'] the session [id] makes a walk with [n] departures. *)
Definition walks (id : string) (n : nat) (m m' : Manager) : Prop :=
  ∀ s, mg_sessions m !! id = Some s →
    ∃ s' ns, mg_sessions m' !! id = Some s' ∧ notes_of id m' = notes_of id m ++ ns ∧ walk id n (ss_State s) ns (ss_State s').

Lemma moves_walks id m m' : moves id m m' → walks id 0 m m'.
Proof. intros H s Hs. destruct (H s Hs) as (s'&ns&?&?&?). exists s', ns. split_and!; [done..|by apply path_walk]. Qed.

Lemma walks_trans id n n' a b c : walks id n a b → walks id n' b c → walks id (n + n') a c.
Proof.
  intros H1 H2 s Hs. destruct (H1 s Hs) as (s1&n1&Hs1&Hn1&Hp1), (H2 s1 Hs1) as (s2&n2&Hs2&Hn2&Hp2).
  exists s2, (n1 ++ n2). rewrite Hn2, Hn1, app_assoc. eauto using walk_app.
Qed.

(** The write of a state [to] for a session judged to be in [st]. *)
Lemma write_walks id id' st to f told m :
  edge st to → to ≠ StateComplete → (∀ s, ss_State (f s) = to) → (∀ s, told s = st ∨ told s = ss_State s) →
  walks id (match mg_sessions m !! id with
            | Some s => if String.eqb id' id && negb (bool_decide (st = ss_State s)) then 1 else 0
            | None => 0 end) m (write_session f (λ s, [NStateChange id' (told s) to]) id' m).
Proof.
  intros He Hto Hf Ht s Hs. rewrite Hs. unfold write_session. destruct (String.eqb_spec id' id) as [->|Hne].
  - rewrite Hs. exists (f s), [NStateChange id (told s) to]. cbn [mg_sessions tell]. split; [apply lookup_insert_eq|].
    split; [rewrite notes_of_tell, filter_cons_True by (simpl; apply String.eqb_refl); done|]. rewrite Hf.
    case_bool_decide as E; simpl.
    + assert (told s = ss_State s) as -> by (destruct (Ht s); congruence). rewrite <- E. eauto with dw.
    + eapply walk_late; eauto with dw.
  - exists s, []. rewrite app_nil_r. cbn [andb]. split_and!; [| |apply walk_stay].
    + destruct (mg_sessions m !! id') eqn:E'; [|done]. cbn [mg_sessions tell save_session]. by rewrite lookup_insert_ne.
    + destruct (mg_sessions m !! id') eqn:E'; [|done]. rewrite notes_of_tell, filter_cons_False, filter_nil, app_nil_r; [done|].
      simpl. by rewrite (proj2 (String.eqb_neq id' id) Hne).
Qed.

Lemma touch_write_moves id id' now m : moves id m (write_session (set_event now) (λ _, []) id' m).
Proof.
  unfold write_session. destruct (mg_sessions m !! id') as [s|] eqn:Hs; [|apply moves_refl].
  eapply (moves_put id id' s (set_event now s) []); [done|done|done|apply path_stay|constructor].
Qed.

(** One access of one call departs from the life cycle only when it is late. *)
Lemma call_walks id w m p :
  walks id (if late id m p then 1 else 0) m (call_step cfg has_tmux w m p).1.
Proof.
  destruct p as [|i| | | | | |? i|?|? i b| | | |?? [|]| |?? i| |?? [|]| |?? i|?? i];
    try (apply moves_walks, moves_refl); try (by apply moves_walks, moves_same);
    try (apply moves_walks, mark_moves); try (apply moves_walks, touch_write_moves).
  all: unfold late, judged; cbn [call_step fst].
  - pose proof (write_walks id i (resumed_from b) StateRunning (λ s, set_event now (set_state StateRunning now s)) (λ _, resumed_from b) m) as H.
    destruct (mg_sessions m !! id); apply H; eauto; destruct b; constructor.
  - pose proof (write_walks id i StateWaitingInput StateStalled (set_state StateStalled now) (λ _, StateWaitingInput) m) as H.
    destruct (mg_sessions m !! id); apply H; eauto; constructor.
  - pose proof (write_walks id i StateRunning StateStalled (set_state StateStalled now) (λ _, StateRunning) m) as H.
    destruct (mg_sessions m !! id); apply H; eauto; constructor.
  - pose proof (write_walks id i StateRunning StateWaitingInput (set_state StateWaitingInput now) ss_State m) as H.
    destruct (mg_sessions m !! id); apply H; eauto; constructor.
Qed.

Lemma run_walks id sched y : walks id (late_writes cfg has_tmux id y sched) y.1 (foldl (sys_step cfg has_tmux) y sched).1.
Proof.
  revert y. induction sched as [|e sched IH]; intros y; [apply moves_walks, moves_refl|].
  cbn [late_writes foldl]. eapply walks_trans; [|apply IH]. unfold sys_step. destruct (y.2 !! e.1) as [p|]; [|apply moves_walks, moves_refl].
  pose proof (call_walks id e.2 y.1 p) as H. by destruct (call_step cfg has_tmux e.2 y.1 p).
Qed.


(** *** A call on its own *)

Definition alone (w : W) (c c' : Manager * CallPC) : Prop := c' = call_step cfg has_tmux w c.1 c.2.

Lemma alone_step w m p c : rtc (alone w) (call_step cfg has_tmux w m p) c → rtc (alone w) (m, p) c.
Proof. intros H. by eapply rtc_l. Qed.

Ltac go := eapply alone_step; cbn -[Sub session_ids].

Lemma probe_alone w clock id ts busy idle m c :
  rtc (alone w) ((applyBusyProbe cfg has_tmux w clock id ts m).1, if (applyBusyProbe cfg has_tmux w clock id ts m).2 then busy else idle) c →
  rtc (alone w) (m, ProbeRead clock id ts busy idle) c.
Proof.
  unfold applyBusyProbe. intros H. go. unfold on_session. destruct (mg_sessions m !! id) as [s|] eqn:Hs; [|done].
  destruct (probed (ss_State s)); cbn [negb] in H; [|done]. go. unfold on_session. rewrite Hs.
  destruct (session_busy cfg has_tmux w id s _); [by go|done].
Qed.

Lemma write_alone f ns id s m : mg_sessions m !! id = Some s → write_session f ns id m = tell (ns s) (save_session id (f s) m).
Proof. unfold write_session. by intros ->. Qed.

Lemma gap_alone w now gap ids m :
  rtc (alone w) (m, GapRead now gap ids) (foldl (gap_one cfg has_tmux w now gap) m ids, Done).
Proof.
  revert m. induction ids as [|id ids IH]; intros m; [by go|]. cbn [foldl]. set (m' := gap_one _ _ _ _ _ _ _).
  specialize (IH m'). revert IH. subst m'. generalize (foldl (gap_one cfg has_tmux w now gap) (gap_one cfg has_tmux w now gap m id) ids, Done) as c.
  intros c IH. unfold gap_one, gap_act in IH. go. unfold on_session. destruct (mg_sessions m !! id) as [s|] eqn:Hs; [|done].
  unfold gap_decide in IH. case_bool_decide as Hst; [rewrite Hst in IH|destruct (ss_State s); done].
  unfold gap_passed. destruct (IsZero (ss_LastChannelEventAt s)); [done|]. cbn [andb negb].
  destruct (session_gap cfg gap s) as [g off]; cbn -[Sub] in *. destruct (negb off && _); [done|]. cbn [negb].
  go. unfold on_session. rewrite Hs.
  assert (rtc (alone w) ((if session_busy cfg has_tmux w id s now then markChannelEventAt now id EventRunning now m
                          else flip id StateWaitingInput now s m), GapRead now gap ids) c →
          rtc (alone w) (m, ProbeRead now id now (GapRead now gap ids) (GapFlip now gap id ids)) c) as Hp.
  { intros H. apply probe_alone. unfold applyBusyProbe. rewrite Hs, Hst. cbn [negb probed].
    replace (if IsZero now then now else now) with now by (by destruct (IsZero now)).
    destruct (session_busy cfg has_tmux w id s now); [done|]. cbn [fst snd]. go. by rewrite (write_alone _ _ _ s) by done. }
  assert (rtc (alone w) ((if session_busy cfg has_tmux w id s now then markChannelEventAt now id EventRunning now m
                          else flip id StateWaitingInput now s m), GapRead now gap ids) c ↔
          rtc (alone w) (match (if session_busy cfg has_tmux w id s now then Refresh else ToWaiting) with
                         | Leave => m | Refresh => markChannelEventAt now id EventRunning now m
                         | Stall => tell [NStateChange id StateRunning StateStalled] (save_session id (set_state StateStalled now s) m)
                         | ToWaiting => flip id StateWaitingInput now s m end, GapRead now gap ids) c) as Hiff.
  { by destruct (session_busy cfg has_tmux w id s now). }
  destruct (livenessRuleApplies (ss_BackendFamily s) && has_tmux); [|by apply Hp, Hiff].
  destruct (livenessVerdictFor cfg has_tmux w id s now); try (by apply Hp, Hiff); go; [done|]. by rewrite (write_alone _ _ _ s).
Qed.

Lemma recover_alone w now gap ids m :
  rtc (alone w) (m, RecoverRead now gap ids) (foldl (recover_one cfg has_tmux w now) m ids, GapList now gap).
Proof.
  revert m. induction ids as [|id ids IH]; intros m; [by go|]. cbn [foldl]. set (m' := recover_one _ _ _ _ _ _).
  specialize (IH m'). revert IH. subst m'. generalize (foldl (recover_one cfg has_tmux w now) (recover_one cfg has_tmux w now m id) ids, GapList now gap) as c.
  intros c IH. unfold recover_one in IH. go. unfold on_session. destruct (mg_sessions m !! id) as [s|] eqn:Hs; [|done].
  destruct (decide (ss_State s = StateWaitingInput)) as [Hst|Hst];
    [rewrite bool_decide_true by done; rewrite Hst in IH|rewrite bool_decide_false by done; destruct (ss_State s); done].
  destruct (ss_OneShot s); [|done]. cbn [negb andb] in *.
  go. unfold on_session. rewrite Hs. destruct (TaskDelivered id m); [|done]. cbn [negb] in *.
  destruct (livenessRuleApplies _ && _ && _); [go; rewrite (write_alone _ _ _ s) by done; unfold flip in IH; by rewrite Hst in IH|].
  apply probe_alone. by destruct (applyBusyProbe cfg has_tmux w now id now m).2.
Qed.

(** A call that nothing interrupts, the panes keeping still, does what the
    operation of its name does. *)
Lemma call_alone (w : W) (o : engine_op) (m : Manager) :
  match o with OpProbe w' _ _ _ | OpTick _ w' _ _ => w = w' | _ => True end →
  rtc (alone w) (m, entry o) (engine_run cfg has_tmux m o, Done).
Proof.
  destruct o as [| now id ev st|now id|w' clock id ts|startup w' now gap|]; intros Hw; cbn [entry engine_run]; try subst w'; [by go| | | | |by go].
  - assert (rtc (alone w) (m, TouchRead now id) (touchIfRunning now id m, Done)) as Ht.
    { go. unfold on_session, touchIfRunning. destruct (mg_sessions m !! id) as [s|] eqn:Hs; [|done].
      case_bool_decide as Hst; [|by destruct (ss_State s)]. go. rewrite (write_alone _ _ _ s), Hst by done.
      unfold tell, save_session. cbn. by rewrite app_nil_r. }
    unfold MarkACPEvent, MarkChannelEvent. destruct (classifyACPEventType ev st) as [[]|]; [by do 2 go| |by go|by destruct (_ || _)].
    go. case_bool_decide; [|by go]. go. unfold on_session. destruct (mg_sessions m !! id) as [s|]; [|by go]. go. done.
  - go. unfold on_session, output_activity. destruct (mg_sessions m !! id) as [s|] eqn:Hs; [|done].
    destruct (ss_State s) eqn:Hst; try done; go; rewrite (write_alone _ _ _ s) by done; try done.
    unfold tell, save_session. cbn. by rewrite app_nil_r.
  - apply probe_alone. by destruct (applyBusyProbe cfg has_tmux w clock id ts m) as [? []].
  - go. unfold watcher_tick. cbv zeta. destruct (Sub now startup <? _); [done|].
    etrans; [apply recover_alone|]. go. apply gap_alone.
Qed.

(** What the engine never undoes. Whatever channel events, ACP events,
    output, probes and ticks arrive, a session that is complete, failed, killed or
    rate limited keeps its state, and nothing is told about it. *)
Theorem locked_stays (ops : list engine_op) (id : string) (m : Manager) (s : Session) :
  mg_sessions m !! id = Some s → sticky (ss_State s) = true →
  ∃ s', mg_sessions (foldl (engine_run cfg has_tmux) m ops) !! id = Some s' ∧ ss_State s' = ss_State s
    ∧ notes_of id (foldl (engine_run cfg has_tmux) m ops) = notes_of id m.
Proof.
  intros Hs Hl. destruct (moves_foldl id (engine_run cfg has_tmux) ops m (λ m o, run_moves id m o) s Hs) as (s'&ns&Hs'&Hn&Hp).
  apply path_locked in Hp as [-> E]; [|done]. exists s'. by rewrite Hn, app_nil_r.
Qed.

(** A session ends once. Over every run the end of a session is delivered
    exactly once if it becomes complete in it and not at all otherwise. *)
Theorem end_told_once (ops : list engine_op) (id : string) (m : Manager) (s : Session) :
  mg_sessions m !! id = Some s →
  ∃ s', mg_sessions (foldl (engine_run cfg has_tmux) m ops) !! id = Some s'
    ∧ ends id (mg_notes (foldl (engine_run cfg has_tmux) m ops))
      = (ends id (mg_notes m) + if is_complete (ss_State s') && negb (is_complete (ss_State s)) then 1 else 0)%nat.
Proof.
  intros Hs. destruct (moves_foldl id (engine_run cfg has_tmux) ops m (λ m o, run_moves id m o) s Hs) as (s'&ns&Hs'&Hn&Hp).
  exists s'. split; [done|]. rewrite <- (ends_notes_of id (foldl _ _ _)), Hn, ends_app, ends_notes_of. by rewrite (path_ends _ _ _ _ Hp).
Qed.

(** ** One tick of the watcher *)

(** The readings the documentation names: how recent the last activity is,
    whether the process is dead or hung, whether the backend is at work, and
    whether the session has been silent for its window. *)
Definition recent (w : W) (now : Time) (id : string) (s : Session) : bool :=
  negb (IsZero (sessionLastActivity w id s))
  && (Sub now (sessionLastActivity w id s) <=? liveness_window (livenessWindowFor cfg)).

Definition ruled (s : Session) : bool := livenessRuleApplies (ss_BackendFamily s) && has_tmux.

Definition hung (w : W) (now : Time) (id : string) (s : Session) : bool :=
  ruled s && (negb (paneProcessAlive w s) || IsPromptBackend (ss_BackendFamily s) && negb (recent w now id s)).

Definition at_work (w : W) (now : Time) (id : string) (s : Session) : bool :=
  if String.eqb (ss_BackendFamily s) busyProbeBackend then paneBusy has_tmux w s
  else ruled s && paneProcessAlive w s && recent w now id s
       && (IsPromptBackend (ss_BackendFamily s) || negb (paneAtPrompt has_tmux w s)).

Definition silent (now : Time) (gap : Duration) (s : Session) : bool :=
  negb (IsZero (ss_LastChannelEventAt s))
  && ((session_gap cfg gap s).2 || ((session_gap cfg gap s).1 <=? Sub now (ss_LastChannelEventAt s))).

(** The idle timeout is switched off: by an explicit 0 for the backend, or by
    default for a print-mode backend. *)
Definition idle_off (gap : Duration) (s : Session) : bool := (session_gap cfg gap s).2.

(** A timeout that is off is one of a print-mode backend under the liveness
    rule, which decides about it at every tick. Off for an interactive backend,
    for claude-code or without tmux the code flips the session at its next tick
    ([idle_off_flips_sooner]). *)
Definition timeout_obeyed (gap : Duration) (s : Session) : Prop :=
  idle_off gap s = true → IsPromptBackend (ss_BackendFamily s) = true ∧ ruled s = true.

(** A session after a tick, as documented. A timeout that is off never makes a
    session wait. *)
Definition ticked (w : W) (now : Time) (gap : Duration) (delivered : bool) (id : string) (s : Session) : Session :=
  match ss_State s with
  | StateRunning =>
      if negb (silent now gap s) then s
      else if hung w now id s then set_state StateStalled now s
      else if at_work w now id s then set_event now s
      else if idle_off gap s then s
      else set_state StateWaitingInput now s
  | StateWaitingInput =>
      if ss_OneShot s && delivered then
        if hung w now id s then set_state StateStalled now s
        else if at_work w now id s then set_state StateRunning now (set_event now s)
        else s
      else s
  | _ => s
  end.

Lemma verdict_hung w now id s :
  ruled s = true → bool_decide (livenessVerdictFor cfg has_tmux w id s now = LivenessStalled) = hung w now id s.
Proof.
  intros Hr. unfold hung. rewrite Hr. unfold livenessVerdictFor, ClassifyLiveness, liveness_input, withinWindow; cbn -[Sub].
  fold (recent w now id s). unfold ruled, livenessRuleApplies in Hr.
  destruct (paneProcessAlive w s), (IsPromptBackend _), (recent w now id s), (paneAtPrompt has_tmux w s); try done.
  all: cbn; by destruct (String.eqb (ss_BackendFamily s) busyProbeBackend).
Qed.

Lemma busy_at_work w now id s : session_busy cfg has_tmux w id s now = at_work w now id s.
Proof.
  unfold session_busy, at_work. destruct (String.eqb (ss_BackendFamily s) busyProbeBackend) eqn:Ec; [done|].
  fold (ruled s). destruct (ruled s); [|done]. unfold livenessVerdictFor, ClassifyLiveness, liveness_input, withinWindow; cbn -[Sub].
  fold (recent w now id s). rewrite Ec.
  by destruct (paneProcessAlive w s), (IsPromptBackend _), (recent w now id s), (paneAtPrompt has_tmux w s).
Qed.

Lemma decide_spec w now gap id s :
  gap_decide cfg has_tmux w now gap id s =
  match ss_State s with
  | StateRunning => if negb (silent now gap s) then Leave else if hung w now id s then Stall
                    else if at_work w now id s then Refresh else ToWaiting
  | _ => Leave
  end.
Proof.
  unfold gap_decide, silent. destruct (ss_State s); try done. destruct (IsZero (ss_LastChannelEventAt s)); [done|].
  destruct (session_gap cfg gap s) as [g off]; cbn -[Sub].
  replace (negb off && (Sub now (ss_LastChannelEventAt s) <? g)) with (negb (off || (g <=? Sub now (ss_LastChannelEventAt s))))
    by (rewrite negb_orb; by destruct off; cbn -[Sub]; [|rewrite Z.ltb_antisym]).
  destruct (negb (off || _)); [done|]. fold (ruled s). rewrite busy_at_work.
  destruct (ruled s) eqn:Hr; [|unfold hung; by rewrite Hr].
  rewrite <- (verdict_hung w now id s Hr). unfold ruled, livenessRuleApplies in Hr.
  assert (at_work w now id s = bool_decide (livenessVerdictFor cfg has_tmux w id s now = LivenessRunning)) as ->.
  { rewrite <- busy_at_work. unfold session_busy, livenessRuleApplies in *.
    destruct (String.eqb (ss_BackendFamily s) ""), (String.eqb (ss_BackendFamily s) busyProbeBackend); try done. by rewrite Hr. }
  by destruct (livenessVerdictFor cfg has_tmux w id s now).
Qed.

(** What one pass does to the session it is at, [D] being the sessions whose
    task this process delivered. *)
Definition recovered (w : W) (now : Time) (D : gset string) (id : string) (s : Session) : Session :=
  match ss_State s with
  | StateWaitingInput =>
      if ss_OneShot s && (bool_decide (is_Some (ss_TaskDeliveredAt s)) || bool_decide (id ∈ D)) then
        if hung w now id s then set_state StateStalled now s
        else if at_work w now id s then set_state StateRunning now (set_event now s)
        else s
      else s
  | _ => s
  end.

Definition gapped (w : W) (now : Time) (gap : Duration) (id : string) (s : Session) : Session :=
  match ss_State s with
  | StateRunning =>
      if negb (silent now gap s) then s
      else if hung w now id s then set_state StateStalled now s
      else if at_work w now id s then set_event now s
      else set_state StateWaitingInput now s
  | _ => s
  end.

(** [f] does [g] to the session it is given and nothing to any other. *)
Definition does (D : gset string) (f : Manager → string → Manager) (g : string → Session → Session) : Prop :=
  ∀ m i, mg_taskDeliveredAt m = D →
    mg_taskDeliveredAt (f m i) = D ∧
    ∀ id, mg_sessions (f m i) !! id = if decide (id = i) then g id <$> mg_sessions m !! id else mg_sessions m !! id.

Lemma pass_lookup D f g l m :
  does D f g → NoDup l → mg_taskDeliveredAt m = D →
  mg_taskDeliveredAt (foldl f m l) = D ∧
  ∀ id, mg_sessions (foldl f m l) !! id = if decide (id ∈ l) then g id <$> mg_sessions m !! id else mg_sessions m !! id.
Proof.
  intros Hf Hnd. revert m. induction Hnd as [|i l Hi Hnd IH]; intros m HD; cbn [foldl].
  - split; [done|]. intros id. rewrite (decide_False (P := id ∈ [])); [done|apply not_elem_of_nil].
  - destruct (Hf m i HD) as [HD' Hl]. destruct (IH _ HD') as [HD'' Hl']. split; [done|]. intros id. rewrite Hl', Hl.
    destruct (decide (id ∈ i :: l)) as [[->|Hin]%elem_of_cons|Hn].
    + by rewrite (decide_False (P := i ∈ l)), decide_True.
    + rewrite (decide_True (P := id ∈ l)) by done. destruct (decide (id = i)) as [->|]; done.
    + apply not_elem_of_cons in Hn as [? ?]. by rewrite !decide_False.
Qed.

Lemma list_pass D f g m :
  does D f g → mg_taskDeliveredAt m = D →
  mg_taskDeliveredAt (foldl f m (session_ids m)) = D ∧
  ∀ id, mg_sessions (foldl f m (session_ids m)) !! id = g id <$> mg_sessions m !! id.
Proof.
  intros Hf HD. destruct (pass_lookup D f g (session_ids m) m Hf) as [HD' Hl]; [|done|].
  { unfold session_ids, sort_strings. rewrite (sort_by_perm String.ltb). apply NoDup_elements. }
  split; [done|]. intros id. rewrite Hl. destruct (decide _) as [|Hn]; [done|].
  unfold session_ids, sort_strings in Hn. rewrite elem_of_sort_by, elem_of_elements, not_elem_of_dom in Hn. by rewrite Hn.
Qed.

Lemma lookup_save_session id i s m : mg_sessions (save_session i s m) !! id = if decide (id = i) then Some s else mg_sessions m !! id.
Proof. unfold save_session. simpl. destruct (decide (id = i)) as [->|]; [apply lookup_insert_eq|by apply lookup_insert_ne]. Qed.

(** A running event for a session that is running or waiting. *)
Lemma mark_running_lookup now i s m :
  mg_sessions m !! i = Some s → probed (ss_State s) = true →
  mg_taskDeliveredAt (markChannelEventAt now i EventRunning now m) = mg_taskDeliveredAt m ∧
  ∀ id, mg_sessions (markChannelEventAt now i EventRunning now m) !! id =
    if decide (id = i) then Some (match ss_State s with StateWaitingInput => set_state StateRunning now (set_event now s) | _ => set_event now s end)
    else mg_sessions m !! id.
Proof.
  intros Hs Hp. unfold markChannelEventAt. rewrite Hs. replace (if IsZero now then now else now) with now by (by destruct (IsZero now)).
  destruct (ss_State s) eqn:E; try done; cbn [sticky channel_next].
  - rewrite bool_decide_true by done. split; [done|]. intros id. apply lookup_save_session.
  - rewrite bool_decide_false by done. unfold is_complete. rewrite bool_decide_false by done.
    split; [done|]. intros id. apply lookup_save_session.
Qed.

Lemma does_nothing (D : gset string) (g : string → Session → Session) i m :
  (∀ s, mg_sessions m !! i = Some s → g i s = s) →
  ∀ id, mg_sessions m !! id = if decide (id = i) then g id <$> mg_sessions m !! id else mg_sessions m !! id.
Proof. intros H id. destruct (decide (id = i)) as [->|]; [|done]. destruct (mg_sessions m !! i); [|done]. simpl. by rewrite H. Qed.

Lemma recover_does w now D : does D (recover_one cfg has_tmux w now) (recovered w now D).
Proof.
  intros m i HD. unfold recover_one.
  destruct (mg_sessions m !! i) as [s|] eqn:Hs; [|split; [done|]; apply (does_nothing D); congruence].
  assert (recovered w now D i s = s → mg_taskDeliveredAt m = D ∧ ∀ id, mg_sessions m !! id =
    if decide (id = i) then recovered w now D id <$> mg_sessions m !! id else mg_sessions m !! id) as Hno.
  { intros He. split; [done|]. apply (does_nothing D). intros s' Hs'. by simplify_eq. }
  destruct (ss_State s) eqn:Hst; try (apply Hno; unfold recovered; by rewrite Hst).
  destruct (ss_OneShot s) eqn:Ho; [|apply Hno; unfold recovered; by rewrite Hst, Ho].
  assert (TaskDelivered i m = bool_decide (is_Some (ss_TaskDeliveredAt s)) || bool_decide (i ∈ D)) as ->.
  { unfold TaskDelivered. rewrite Hs, <- HD. destruct s as [? ? ? ? ? ? [?|]]; done. }
  destruct (_ || _) eqn:Hd; [|apply Hno; unfold recovered; by rewrite Hst, Ho, Hd].
  fold (ruled s). assert ((ruled s && bool_decide (livenessVerdictFor cfg has_tmux w i s now = LivenessStalled)) = hung w now i s) as ->.
  { destruct (ruled s) eqn:Hr; [by apply verdict_hung|unfold hung; by rewrite Hr]. }
  cbn [negb]. destruct (hung w now i s) eqn:Hh.
  - split; [done|]. intros id. unfold flip, tell. cbn [mg_sessions]. rewrite lookup_save_session. destruct (decide (id = i)) as [->|]; [|done].
    rewrite Hs. simpl. unfold recovered. by rewrite Hst, Ho, Hd, Hh.
  - unfold applyBusyProbe. rewrite Hs, Hst. cbn [negb probed]. replace (if IsZero now then now else now) with now by (by destruct (IsZero now)).
    rewrite busy_at_work. destruct (at_work w now i s) eqn:Hw; [|apply Hno; unfold recovered; by rewrite Hst, Ho, Hd, Hh, Hw].
    cbn [fst]. destruct (mark_running_lookup now i s m Hs) as [-> Hl]; [by rewrite Hst|]. split; [done|]. intros id. rewrite Hl, Hst.
    destruct (decide (id = i)) as [->|]; [|done]. rewrite Hs. simpl. unfold recovered. by rewrite Hst, Ho, Hd, Hh, Hw.
Qed.

Lemma gap_does w now gap D : does D (gap_one cfg has_tmux w now gap) (gapped w now gap).
Proof.
  intros m i HD. unfold gap_one, gap_act.
  destruct (mg_sessions m !! i) as [s|] eqn:Hs; [|split; [done|]; apply (does_nothing D); congruence].
  rewrite decide_spec. assert (gapped w now gap i s = s → mg_taskDeliveredAt m = D ∧ ∀ id, mg_sessions m !! id =
    if decide (id = i) then gapped w now gap id <$> mg_sessions m !! id else mg_sessions m !! id) as Hno.
  { intros He. split; [done|]. apply (does_nothing D). intros s' Hs'. by simplify_eq. }
  destruct (ss_State s) eqn:Hst; try (apply Hno; unfold gapped; by rewrite Hst).
  destruct (silent now gap s) eqn:Hq; [|apply Hno; unfold gapped; by rewrite Hst, Hq].
  cbn [negb]. destruct (hung w now i s) eqn:Hh; [|destruct (at_work w now i s) eqn:Hw].
  - split; [done|]. intros id. unfold tell. cbn [mg_sessions]. rewrite lookup_save_session. destruct (decide (id = i)) as [->|]; [|done].
    rewrite Hs. simpl. unfold gapped. by rewrite Hst, Hq, Hh.
  - destruct (mark_running_lookup now i s m Hs) as [-> Hl]; [by rewrite Hst|]. split; [done|]. intros id. rewrite Hl, Hst.
    destruct (decide (id = i)) as [->|]; [|done]. rewrite Hs. simpl. unfold gapped. by rewrite Hst, Hq, Hh, Hw.
  - split; [done|]. intros id. unfold flip, tell. cbn [mg_sessions]. rewrite lookup_save_session. destruct (decide (id = i)) as [->|]; [|done].
    rewrite Hs. simpl. unfold gapped. by rewrite Hst, Hq, Hh, Hw.
Qed.

Lemma recent_now w now id s t :
  zero_time < now → recent w now id (set_state t now (set_event now s)) = true.
Proof.
  intros Hz. unfold recent, sessionLastActivity. cbn [ss_LastChannelEventAt set_state set_event].
  assert (0 < liveness_window (livenessWindowFor cfg)) as Hw.
  { unfold liveness_window, DefaultLivenessWindow, Second. destruct (Z.leb_spec (livenessWindowFor cfg) 0); lia. }
  assert (∀ u, now ≤ u → negb (IsZero u) && (Sub now u <=? liveness_window (livenessWindowFor cfg)) = true) as Hle.
  { intros u Hu. apply andb_true_iff. split.
    - apply negb_true_iff, Z.eqb_neq. lia.
    - apply Z.leb_le. unfold Sub, int64_min, int64_max. lia. }
  destruct (log_mtime w id) as [u|]; [destruct (After u now) eqn:Ea|]; apply Hle; [|lia..].
  apply Z.ltb_lt in Ea. lia.
Qed.

(** A session resumed by the recovery pass is not flipped by the gap pass after it. *)
Lemma gapped_resumed w now gap id s :
  zero_time < now → ss_State s = StateWaitingInput → hung w now id s = false → at_work w now id s = true →
  gapped w now gap id (set_state StateRunning now (set_event now s)) = set_state StateRunning now (set_event now s).
Proof.
  intros Hz Hst Hh Hw. set (s' := set_state StateRunning now (set_event now s)). pose proof (recent_now w now id s StateRunning Hz) as Hr.
  fold s' in Hr. unfold gapped. cbn [ss_State s' set_state]. fold s'. destruct (negb (silent now gap s')); [done|].
  assert (hung w now id s' = false) as ->.
  { unfold hung. rewrite Hr. unfold hung in Hh. change (ruled s') with (ruled s). change (paneProcessAlive w s') with (paneProcessAlive w s).
    destruct (ruled s); [|done]. cbn [andb] in *. apply orb_false_iff in Hh as [-> _]. by rewrite andb_false_r. }
  assert (at_work w now id s' = true) as ->; [|done].
  unfold at_work. rewrite Hr. change (ss_BackendFamily s') with (ss_BackendFamily s). change (paneBusy has_tmux w s') with (paneBusy has_tmux w s).
  change (ruled s') with (ruled s). change (paneProcessAlive w s') with (paneProcessAlive w s). change (paneAtPrompt has_tmux w s') with (paneAtPrompt has_tmux w s).
  unfold at_work in Hw. destruct (String.eqb (ss_BackendFamily s) busyProbeBackend); [done|].
  by destruct (ruled s), (paneProcessAlive w s), (recent w now id s).
Qed.

(** The liveness rule alone decides about a print-mode backend. *)
Lemma off_decided w now gap id s :
  timeout_obeyed gap s → idle_off gap s = true → hung w now id s || at_work w now id s = true.
Proof.
  intros Ho Hi. destruct (Ho Hi) as [Hp Hr]. unfold hung, at_work. rewrite Hp, Hr.
  destruct (String.eqb_spec (ss_BackendFamily s) busyProbeBackend) as [E|_]; [by rewrite E in Hp|].
  by destruct (paneProcessAlive w s), (recent w now id s).
Qed.

End engine.

(** ** opencode's one-shot workers *)

(** Whether the events end the session: it is reported complete, or it goes idle
    after a working turn. *)
Fixpoint acp_done (seen : bool) (evs : list (Time * string * string)) : bool :=
  match evs with
  | [] => false
  | (_, ev, st) :: evs =>
      match classifyACPEventType ev st with
      | Some EventComplete => true
      | Some EventRunning => acp_done true evs
      | Some EventIdle => seen || acp_done seen evs
      | None => acp_done seen evs
      end
  end.

Definition acp_run (id : string) (m : Manager) (evs : list (Time * string * string)) : Manager :=
  foldl (λ m e, MarkACPEvent e.1.1 id e.1.2 e.2 m) m evs.

(** One channel event on one session. *)
Lemma mark_lookup now id kind s m :
  mg_sessions m !! id = Some s →
  mg_acpBusySeen (MarkChannelEvent now id kind m) = mg_acpBusySeen m ∧
  ∃ s', mg_sessions (MarkChannelEvent now id kind m) !! id = Some s' ∧ ss_OneShot s' = ss_OneShot s
    ∧ ss_State s' = (if sticky (ss_State s) then ss_State s else channel_next kind (ss_State s)).
Proof.
  intros Hs. unfold MarkChannelEvent, markChannelEventAt. rewrite Hs.
  replace (if IsZero now then now else now) with now by (by destruct (IsZero now)).
  destruct (sticky (ss_State s)); [split; [done|]; eexists; by rewrite lookup_save_session, decide_True|].
  case_bool_decide as He; [split; [done|]; eexists; rewrite lookup_save_session, decide_True by done; by rewrite <- He|].
  destruct (is_complete _); (split; [done|]); eexists; unfold tell; cbn [mg_sessions];
    by rewrite lookup_save_session, decide_True.
Qed.

Lemma acp_locked id m evs s :
  mg_sessions m !! id = Some s → ss_State s = StateComplete →
  ∃ s', mg_sessions (acp_run id m evs) !! id = Some s' ∧ ss_State s' = StateComplete.
Proof.
  intros Hs Hst. destruct (moves_foldl id (λ m e, MarkACPEvent e.1.1 id e.1.2 e.2 m) evs m (λ m e, acp_moves id _ _ _ _ m) s Hs) as (s'&ns&Hs'&_&Hp).
  apply path_locked in Hp as [_ E]; [|by rewrite Hst]. exists s'. split; [done|congruence].
Qed.

(** One event of opencode on a one-shot session that is running or waiting. *)
Lemma acp_step now id ev st m s :
  mg_sessions m !! id = Some s → ss_OneShot s = true → probed (ss_State s) = true →
  let m' := MarkACPEvent now id ev st m in
  let seen := bool_decide (id ∈ mg_acpBusySeen m) in
  ∃ s', mg_sessions m' !! id = Some s' ∧ ss_OneShot s' = true ∧
    match classifyACPEventType ev st with
    | Some EventComplete => ss_State s' = StateComplete
    | Some EventRunning => probed (ss_State s') = true ∧ bool_decide (id ∈ mg_acpBusySeen m') = true
    | Some EventIdle => if seen then ss_State s' = StateComplete
                        else probed (ss_State s') = true ∧ bool_decide (id ∈ mg_acpBusySeen m') = seen
    | None => probed (ss_State s') = true ∧ bool_decide (id ∈ mg_acpBusySeen m') = seen
    end.
Proof.
  intros Hs Ho Hp. cbv zeta. unfold MarkACPEvent. destruct (classifyACPEventType ev st) as [[]|].
  - destruct (mark_lookup now id EventRunning s (see_busy id m) Hs) as (->&s'&Hs'&Ho'&Hst). exists s'.
    split_and!; [done|congruence| |]; [rewrite Hst; by destruct (ss_State s)|]. apply bool_decide_true. simpl. set_solver.
  - rewrite Hs, Ho. destruct (bool_decide (id ∈ mg_acpBusySeen m)) eqn:E.
    + destruct (mark_lookup now id EventComplete s m Hs) as (_&s'&Hs'&Ho'&Hst). exists s'.
      split_and!; [done|congruence|]. rewrite Hst. by destruct (ss_State s).
    + destruct (mark_lookup now id EventIdle s m Hs) as (->&s'&Hs'&Ho'&Hst). exists s'.
      split_and!; [done|congruence| |done]. rewrite Hst. by destruct (ss_State s).
  - destruct (mark_lookup now id EventComplete s m Hs) as (_&s'&Hs'&Ho'&Hst). exists s'.
    split_and!; [done|congruence|]. rewrite Hst. by destruct (ss_State s).
  - destruct (_ || _); [by exists s|]. unfold touchIfRunning. rewrite Hs. destruct (ss_State s) eqn:E; try done; [|exists s; by rewrite E].
    eexists. rewrite lookup_save_session, decide_True by done. split; [done|]. split; [done|]. split; [|done]. simpl. by rewrite E.
Qed.

(** A one-shot worker of opencode is complete exactly when it should be. For
    a one-shot session that is running or waiting, after any sequence of its
    events it is complete exactly when one of them reported completion or one
    reported idle after one that reported work; else it is running or waiting. *)
Theorem acp_oneshot_completes (evs : list (Time * string * string)) (id : string) (m : Manager) (s : Session) :
  mg_sessions m !! id = Some s → ss_OneShot s = true → probed (ss_State s) = true →
  ∃ s', mg_sessions (acp_run id m evs) !! id = Some s'
    ∧ if acp_done (bool_decide (id ∈ mg_acpBusySeen m)) evs then ss_State s' = StateComplete else probed (ss_State s') = true.
Proof.
  revert m s. induction evs as [|[[now ev] st] evs IH]; intros m s Hs Ho Hp; [by exists s|].
  destruct (acp_step now id ev st m s Hs Ho Hp) as (s1&Hs1&Ho1&H1). cbn [acp_done acp_run foldl fst snd] in *.
  fold (acp_run id (MarkACPEvent now id ev st m) evs).
  destruct (classifyACPEventType ev st) as [[]|]; [| |by eapply acp_locked|].
  - destruct H1 as [Hp1 Hb]. specialize (IH _ _ Hs1 Ho1 Hp1). by rewrite Hb in IH.
  - destruct (bool_decide (id ∈ mg_acpBusySeen m)); [by eapply acp_locked|]. destruct H1 as [Hp1 Hb].
    specialize (IH _ _ Hs1 Ho1 Hp1). by rewrite Hb in IH.
  - destruct H1 as [Hp1 Hb]. specialize (IH _ _ Hs1 Ho1 Hp1). by rewrite Hb in IH.
Qed.

(** ** Concrete sessions *)

(** Panes given by their text and whether a child runs, without output logs. *)
#[global] Instance DemoPanes : Panes (gmap string (string * bool)) := {|
  capture w t := fst <$> w !! t;
  has_child w t := match w !! t with Some (_, c) => c | None => false end;
  log_mtime _ _ := None
|}.

Definition demo_panes : gmap string (string * bool) :=
  {[ "t1" := ("✻ Crunching… (12s)", true); "t2" := ("❯ ", true); "t3" := ("", false) ]}.

Definition demo_session (st : SessionState) (fam tmux : string) : Session :=
  mkSession st true fam tmux Second Second (Some Second).

Definition demo_manager : Manager :=
  mkManager {[ "a" := demo_session StateRunning "claude-code" "t2";
               "b" := demo_session StateRunning "claude-code" "t1";
               "c" := demo_session StateRunning "goose-prompt" "t3";
               "d" := demo_session StateRateLimited "claude-code" "t1";
               "e" := demo_session StateRunning "opencode-acp" "t1" ]} ∅ ∅ [].

Definition demo_ops : list engine_op :=
  [OpTick 0 demo_panes (40 * Second) 0; OpOutput (41 * Second) "c"; OpChannel (42 * Second) "c" EventComplete zero_time;
   OpChannel (43 * Second) "d" EventRunning (43 * Second); OpChannel (44 * Second) "c" EventComplete (44 * Second)].

Definition demo_config : option LivenessConfig := Some (mkLivenessConfig 0 0 ∅).

(** The idle pane is flipped, the working one kept, the dead worker stalled. *)
Example demo_tick :
  let m := engine_run demo_config true demo_manager (OpTick 0 demo_panes (40 * Second) 0) in
  ((λ i, ss_State <$> mg_sessions m !! i) <$> ["a"; "b"; "c"; "d"; "e"])
  = [Some StateWaitingInput; Some StateRunning; Some StateStalled; Some StateRateLimited; Some StateRunning].
Proof. vm_compute. reflexivity. Qed.

(** A tick of the watcher, a completion of the session between its reading and
    its writing, and what the schedule with the two says. *)
Definition demo_race : list engine_op := [OpTick 0 demo_panes (40 * Second) 0; OpChannel (40 * Second) "a" EventComplete zero_time].
Definition demo_turns (a b : nat) : list (nat * gmap string (string * bool)) :=
  replicate a (0%nat, demo_panes) ++ [(1%nat, demo_panes)] ++ replicate b (0%nat, demo_panes).


Lemma locked_stays_witness :
  ∃ s', mg_sessions (foldl (engine_run demo_config true) demo_manager demo_ops) !! "d" = Some s' ∧ ss_State s' = StateRateLimited
    ∧ notes_of "d" (foldl (engine_run demo_config true) demo_manager demo_ops) = notes_of "d" demo_manager.
Proof.
  apply (locked_stays demo_config true demo_ops "d" demo_manager (demo_session StateRateLimited "claude-code" "t1")); vm_compute; reflexivity.
Defined.

Lemma end_told_once_witness :
  ends "c" (mg_notes (foldl (engine_run demo_config true) demo_manager demo_ops)) = 1%nat ∧
  ∃ s', mg_sessions (foldl (engine_run demo_config true) demo_manager demo_ops) !! "c" = Some s'
    ∧ ends "c" (mg_notes (foldl (engine_run demo_config true) demo_manager demo_ops))
      = (ends "c" (mg_notes demo_manager) + if is_complete (ss_State s') && negb (is_complete StateRunning) then 1 else 0)%nat.
Proof.
  split; [vm_compute; reflexivity|].
  apply (end_told_once demo_config true demo_ops "c" demo_manager (demo_session StateRunning "goose-prompt" "t3")). vm_compute. reflexivity.
Defined.


Definition demo_acp : list (Time * string * string) :=
  [(50 * Second, "session.idle", ""); (51 * Second, "message.part.delta", ""); (52 * Second, "session.status", "idle")].

Lemma acp_oneshot_completes_witness :
  acp_done (bool_decide ("e" ∈ mg_acpBusySeen demo_manager)) demo_acp = true ∧
  ∃ s', mg_sessions (acp_run "e" demo_manager demo_acp) !! "e" = Some s'
    ∧ if acp_done (bool_decide ("e" ∈ mg_acpBusySeen demo_manager)) demo_acp then ss_State s' = StateComplete else probed (ss_State s') = true.
Proof.
  split; [vm_compute; reflexivity|].
  apply (acp_oneshot_completes demo_acp "e" demo_manager (demo_session StateRunning "opencode-acp" "t1")); vm_compute; reflexivity.
Defined.

(** The watcher reads a session and its pane without the store's lock and then
    writes the state it decided on. A completion that arrives in between is
    undone: the session waits again, and completes and ends a second time. *)
Example stale_flip_reopens :
  let y : Sys := (demo_manager, entry <$> demo_race) in
  let m := (foldl (sys_step demo_config true) y (demo_turns 12 20)).1 in
  ss_State <$> mg_sessions (foldl (sys_step demo_config true) y (demo_turns 12 0)).1 !! "a" = Some StateComplete
  ∧ ss_State <$> mg_sessions m !! "a" = Some StateWaitingInput
  ∧ ends "a" (mg_notes (MarkChannelEvent (41 * Second) "a" EventComplete m)) = 2%nat.
Proof. vm_compute. repeat split; reflexivity. Qed.

(** An explicit idle timeout of 0, which means off, makes the watcher flip an
    idle claude-code session at its next tick, one second after an event; with
    the default of 10 seconds it is left alone. *)
Example idle_off_flips_sooner :
  let off := Some (mkLivenessConfig 0 0 {[ "claude-code" := 0 ]}) in
  let tick c := runChannelStateWatcherTick c true demo_panes (2 * Second) (15 * Second) demo_manager in
  ss_State <$> mg_sessions (tick off) !! "a" = Some StateWaitingInput
  ∧ ss_State <$> mg_sessions (tick demo_config) !! "a" = Some StateRunning.
Proof. vm_compute. split; reflexivity. Qed.
