(* ===== verification/BurnLadder.v ===== *)
(** * The burn guard's ladder

    internal/burnguard/ladder.go and the part of Tick and apply in
    internal/server/burn_guard.go that carries its decisions out. A float64 is a
    [spec_float], the binary64 values of the IEEE standard; the ladder only
    compares them and prints them. [Admission] holds the settings the interface
    BurnGuardAdmission changes, each call of which is taken to succeed.

    Also: the burn guard's ladder: theorems. *)

From Stdlib Require Import SpecFloat.
From S2P Require Import Prelude GoBase.

From S2P Require Export GoText.

#[local] Open Scope Z_scope.

(** ** The ladder *)

Definition RungLowerInflight : string := "lower_inflight".
Definition RungRoutePiPrompt : string := "route_pi_prompt".
Definition RungHoldClaude : string := "hold_claude".
Definition ClaudeBackend : string := "claude-code".
Definition PiBackend : string := "pi-prompt".
Definition DefaultLadder : list string := [RungLowerInflight; RungRoutePiPrompt; RungHoldClaude].

Inductive ActionKind := ActionSetInflight | ActionRouteBackend | ActionHoldNewWork.

#[global] Instance ActionKind_eq_dec : EqDecision ActionKind.
Proof. solve_decision. Defined.

Record Action := mkAction { ac_Kind : ActionKind; ac_Release : bool; ac_Backend : string; ac_To : string; ac_Value : Z }.

Inductive Direction := DirectionHold | DirectionClimb | DirectionStepBack | DirectionDisabled.

Record LadderSettings := mkLadderSettings {
  se_Enabled : bool;
  se_Ladder : list string;
  se_StepBack : bool;
  se_MarginPoints : float64;
  se_AskOnChange : bool
}.

Definition askOnOffHint : string := "Set usage.burn_guard.ask_on_change to true to get a question per change.".

Record LadderState := mkLadderState { ld_Applied : list string; ld_LastChange : Time; ld_OriginalInflight : Z }.

(** The fields of a [Projection] the ladder reads. *)
Record Projection := mkProjection {
  pr_Needs : string;
  pr_Projected : float64;
  pr_Target : float64;
  pr_OverBy : float64;
  pr_PointsPerHour : float64;
  pr_AllowedPerHour : float64
}.
Definition zero_projection : Projection := mkProjection "" float_zero float_zero float_zero float_zero float_zero.

Record TickInput := mkTickInput { ti_Projection : Projection; ti_Settings : LadderSettings; ti_Now : Time; ti_InflightCap : Z }.

Record Decision_ := mkDecision {
  de_Direction : Direction;
  de_Rung : string;
  de_Level : Z;
  de_Previous : Z;
  de_Applied : list string;
  de_Actions : list Action;
  de_Changed : bool;
  de_Withdraw : bool;
  de_AlertText : string;
  de_QuestionText : string;
  de_Reason : string
}.

(** The state in memory and the one saved. *)
Record Ladder := mkLadder { la_state : LadderState; la_saved : LadderState }.

Definition NewLadder (saved : LadderState) : Ladder := mkLadder saved saved.

Definition changesSetting (acts : list Action) (applyCap : Z) : bool :=
  existsb (λ a, match ac_Kind a with
                | ActionSetInflight => (ac_Release a && (1 <? ac_Value a)) || (negb (ac_Release a) && (1 <? applyCap))
                | _ => true
                end) acts.

Definition nextRung (ladder applied : list string) : option string :=
  match ladder !! length applied with
  | Some r => if bool_decide (r ∈ applied) then head (filter (λ r, r ∉ applied) ladder) else Some r
  | None => head (filter (λ r, r ∉ applied) ladder)
  end.

Definition lowered (cap : Z) : Z := if cap <=? 1 then 1 else cap - 1.

Definition apply_rung (rung : string) (inflight : Z) (st : LadderState) : LadderState * list Action :=
  let applied := ld_Applied st ++ [rung] in
  if String.eqb rung RungLowerInflight then
    (mkLadderState applied (ld_LastChange st) inflight, [mkAction ActionSetInflight false ClaudeBackend "" (lowered inflight)])
  else
    (mkLadderState applied (ld_LastChange st) (ld_OriginalInflight st),
     if String.eqb rung RungRoutePiPrompt then [mkAction ActionRouteBackend false ClaudeBackend PiBackend 0]
     else if String.eqb rung RungHoldClaude then [mkAction ActionHoldNewWork false ClaudeBackend "" 0]
     else []).

(** Called with a rung in force. *)
Definition release (st : LadderState) : LadderState * list Action :=
  let rung := List.last (ld_Applied st) "" in
  let applied := removelast (ld_Applied st) in
  if String.eqb rung RungLowerInflight then
    (mkLadderState applied (ld_LastChange st) 0, [mkAction ActionSetInflight true ClaudeBackend "" (ld_OriginalInflight st)])
  else
    (mkLadderState applied (ld_LastChange st) (ld_OriginalInflight st),
     if String.eqb rung RungRoutePiPrompt then [mkAction ActionRouteBackend true ClaudeBackend PiBackend 0]
     else if String.eqb rung RungHoldClaude then [mkAction ActionHoldNewWork true ClaudeBackend "" 0]
     else []).

(** [for len(Applied) > 0 { release }]; fuel: the number of rungs. *)
Fixpoint release_all (fuel : nat) (st : LadderState) (acts : list Action) : LadderState * list Action :=
  match fuel with
  | O => (st, acts)
  | S f => match ld_Applied st with
           | [] => (st, acts)
           | _ => let '(st, a) := release st in release_all f st (acts ++ a)
           end
  end.

(** ** Texts *)

Definition describe_one (original : Z) (a : Action) : string :=
  match ac_Kind a, ac_Release a with
  | ActionSetInflight, false => "lowered the " +:+ ac_Backend a +:+ " inflight cap from " +:+ fmt_d original +:+ " to " +:+ fmt_d (ac_Value a) +:+ "."
  | ActionSetInflight, true => "restored the " +:+ ac_Backend a +:+ " inflight cap to " +:+ fmt_d (ac_Value a) +:+ "."
  | ActionRouteBackend, false => "routed new " +:+ ac_Backend a +:+ " work to " +:+ ac_To a +:+ "."
  | ActionRouteBackend, true => "stopped routing new " +:+ ac_Backend a +:+ " work to " +:+ ac_To a +:+ "."
  | ActionHoldNewWork, false => "holding new " +:+ ac_Backend a +:+ " work; running sessions continue."
  | ActionHoldNewWork, true => "released the hold on new " +:+ ac_Backend a +:+ " work."
  end.
Definition describe (acts : list Action) (original : Z) : string := Join (describe_one original <$> acts) " ".

Definition numbers (p : Projection) : string :=
  "(projected " +:+ fmt_f 1 (pr_Projected p) +:+ "% at the reset, target " +:+ fmt_f 1 (pr_Target p) +:+ "%, burning "
  +:+ fmt_f 2 (pr_PointsPerHour p) +:+ " points/hour against " +:+ fmt_f 2 (pr_AllowedPerHour p) +:+ " allowed)".

(** ** One tick *)

(** [finish_tick]: what a tick answers. [err] is the error of saving, if it is tried. *)
Definition finish_tick (l : Ladder) (st : LadderState) (prev : Z) (now : Time) (err : option string)
    (dir : Direction) (rung : string) (acts : list Action) (changed : bool) (alert question reason : string) :
    Ladder * Decision_ * option string :=
  let d := mkDecision dir rung (Z.of_nat (length (ld_Applied st))) prev (ld_Applied st) acts changed changed alert question reason in
  if negb changed then (mkLadder st (la_saved l), d, None)
  else
    let st := mkLadderState (ld_Applied st) now (ld_OriginalInflight st) in
    match err with
    | Some e => (mkLadder st (la_saved l), d, Some ("burnguard: save ladder state: " +:+ e))
    | None => (mkLadder st st, d, None)
    end.

Definition margin_of (s : LadderSettings) : float64 := if flt (se_MarginPoints s) float_zero then float_zero else se_MarginPoints s.
Definition ladder_of (s : LadderSettings) : list string := match se_Ladder s with [] => DefaultLadder | l => l end.
Definition hint (s : LadderSettings) : string := if se_AskOnChange s then "" else " " +:+ askOnOffHint.

Definition Tick (i : TickInput) (err : option string) (l : Ladder) : Ladder * Decision_ * option string :=
  let st := la_state l in
  let prev := Z.of_nat (length (ld_Applied st)) in
  let p := ti_Projection i in
  let s := ti_Settings i in
  let over := flt (margin_of s) (pr_OverBy p) in
  let under := flt (pr_OverBy p) (SFopp (margin_of s)) in
  let hold reason := finish_tick l st prev (ti_Now i) err DirectionHold "" [] false "" "" reason in
  if negb (se_Enabled s) then
    match ld_Applied st with
    | [] => finish_tick l st prev (ti_Now i) err DirectionDisabled "" [] false "" "" "ladder disabled"
    | released =>
        let '(st, acts) := release_all (length released) st [] in
        let alert := "Burn guard turned off: released " +:+ Join (reverse released) ", " +:+ "."
                     +:+ (if String.eqb (pr_Needs p) "" then " " +:+ numbers p else "") +:+ hint s in
        finish_tick l st prev (ti_Now i) err DirectionDisabled (List.last released "") acts true alert "" "ladder disabled"
    end
  else if negb (String.eqb (pr_Needs p) "") then hold ("no usable projection: " +:+ pr_Needs p)
  else if over then
    match nextRung (ladder_of s) (ld_Applied st) with
    | None => hold "over the line, already at the last rung"
    | Some rung =>
        let '(st, acts) := apply_rung rung (ti_InflightCap i) st in
        let what := describe acts (ld_OriginalInflight st) in
        let alert := "Burn guard stepped up to rung " +:+ fmt_d (Z.of_nat (length (ld_Applied st))) +:+ " of "
          +:+ fmt_d (Z.of_nat (length (ladder_of s))) +:+ " (" +:+ rung +:+ "): " +:+ what +:+ " " +:+ numbers p +:+ hint s in
        let question := if se_AskOnChange s && changesSetting acts (ti_InflightCap i)
          then "The weekly burn projects to " +:+ fmt_f 1 (pr_Projected p) +:+ "% at the reset against a target of "
               +:+ fmt_f 1 (pr_Target p) +:+ "%. I did this: " +:+ what +:+ " Release it, or leave it?"
          else "" in
        finish_tick l st prev (ti_Now i) err DirectionClimb rung acts true alert question ""
    end
  else if under && se_StepBack s && (0 <? prev) then
    let rung := List.last (ld_Applied st) "" in
    let '(st, acts) := release st in
    let what := describe acts 0 in
    let alert := "Burn guard stepped back from " +:+ rung +:+ ": " +:+ what +:+ " " +:+ numbers p +:+ hint s in
    let question := if se_AskOnChange s && changesSetting acts 0
      then "The weekly burn now projects to " +:+ fmt_f 1 (pr_Projected p) +:+ "% against a target of "
           +:+ fmt_f 1 (pr_Target p) +:+ "%. I did this: " +:+ what
      else "" in
    finish_tick l st prev (ti_Now i) err DirectionStepBack rung acts true alert question ""
  else hold (if under && (0 <? prev) then "under the line, step back is off" else "within the margin").

(** ** Carrying a decision out *)

(** Inflight caps, routes of new work and holds, by backend. *)
Record Admission := mkAdmission { ad_cap : gmap string Z; ad_route : gmap string string; ad_hold : gset string }.

Definition InflightCap (a : Admission) (backend : string) : Z := default 0 (ad_cap a !! backend).
Definition SetInflight (backend : string) (n : Z) (a : Admission) : Admission :=
  mkAdmission (<[backend := n]> (ad_cap a)) (ad_route a) (ad_hold a).
Definition RouteBackend (from to : string) (on : bool) (a : Admission) : Admission :=
  mkAdmission (ad_cap a) (if on then <[from := to]> (ad_route a) else delete from (ad_route a)) (ad_hold a).
Definition HoldNewWork (backend : string) (on : bool) (a : Admission) : Admission :=
  mkAdmission (ad_cap a) (ad_route a) (if on then {[backend]} ∪ ad_hold a else ad_hold a ∖ {[backend]}).

Definition exec (adm : Admission) (a : Action) : Admission :=
  match ac_Kind a with
  | ActionSetInflight => SetInflight (ac_Backend a) (ac_Value a) adm
  | ActionRouteBackend => RouteBackend (ac_Backend a) (ac_To a) (negb (ac_Release a)) adm
  | ActionHoldNewWork => HoldNewWork (ac_Backend a) (negb (ac_Release a)) adm
  end.

(** [BurnGuard.Tick]: one evaluation, applied. [proj] is what project answers. *)
Definition guard_tick (s : LadderSettings) (proj : Projection) (now : Time) (err : option string)
    (g : Ladder * Admission) : Ladder * Admission * Decision_ :=
  let '(l, adm) := g in
  let proj := if se_Enabled s then proj else zero_projection in
  let '(l, d, _) := Tick (mkTickInput proj s now (InflightCap adm ClaudeBackend)) err l in
  let adm := foldl exec adm (de_Actions d) in
  let adm := if negb (de_Changed d) && bool_decide (RungHoldClaude ∈ de_Applied d) then HoldNewWork ClaudeBackend true adm else adm in
  (l, adm, d).

(** * The burn guard's ladder: theorems

    A tick moves at most one rung, in the direction of the projection; and over
    every run of the guard the settings it changed are exactly those of the rungs
    in force, so turning it off gives back what was there. *)


#[local] Open Scope Z_scope.

(** ** The next rung *)

Lemma nextRung_Some ladder applied r : nextRung ladder applied = Some r → r ∈ ladder ∧ r ∉ applied.
Proof.
  unfold nextRung. assert (head (filter (λ r, r ∉ applied) ladder) = Some r → r ∈ ladder ∧ r ∉ applied) as Hh.
  { intros H%head_Some_elem_of. apply list_elem_of_filter in H. tauto. }
  destruct (ladder !! length applied) as [r'|] eqn:E; [|done]. case_bool_decide as Hr; [done|].
  intros [= <-]. split; [by eapply list_elem_of_lookup_2|done].
Qed.

Lemma nextRung_None ladder applied : nextRung ladder applied = None → ∀ r, r ∈ ladder → r ∈ applied.
Proof.
  unfold nextRung. assert (head (filter (λ r, r ∉ applied) ladder) = None → ∀ r, r ∈ ladder → r ∈ applied) as Hh.
  { intros H r Hr. destruct (decide (r ∈ applied)) as [|Hn]; [done|]. exfalso.
    assert (r ∈ filter (λ r, r ∉ applied) ladder) as Hin by (by apply list_elem_of_filter).
    destruct (filter _ ladder); [by apply elem_of_nil in Hin|done]. }
  destruct (ladder !! length applied); [|done]. by case_bool_decide.
Qed.

Lemma snoc_cases {A} (l : list A) : l = [] ∨ ∃ l' x, l = l' ++ [x].
Proof. destruct l as [|x l] using rev_ind; [by left|right; eauto]. Qed.

Lemma last_snoc {A} (l : list A) x d : List.last (l ++ [x]) d = x.
Proof. apply List.last_last. Qed.

(** What one tick of an enabled ladder does. Above the margin it puts in
    force one rung of the ladder that is not, or none when all are; below it,
    with step back on, it lifts the newest rung; otherwise, and without a usable
    projection, it changes nothing. It reports a change exactly when it makes one. *)
Theorem ladder_step (i : TickInput) (err : option string) (l : Ladder) :
  se_Enabled (ti_Settings i) = true →
  let applied := ld_Applied (la_state l) in
  let '(l', d, _) := Tick i err l in
  let applied' := ld_Applied (la_state l') in
  let s := ti_Settings i in
  let p := ti_Projection i in
  de_Applied d = applied' ∧ (de_Changed d = true ↔ applied' ≠ applied) ∧
  if negb (String.eqb (pr_Needs p) "") then applied' = applied
  else if flt (margin_of s) (pr_OverBy p) then
    (∃ r, applied' = applied ++ [r] ∧ r ∈ ladder_of s ∧ r ∉ applied)
    ∨ (applied' = applied ∧ ∀ r, r ∈ ladder_of s → r ∈ applied)
  else if flt (pr_OverBy p) (SFopp (margin_of s)) && se_StepBack s then
    applied = [] ∧ applied' = [] ∨ ∃ r, applied = applied' ++ [r]
  else applied' = applied.
Proof.
  intros He. unfold Tick. rewrite He. cbn [negb].
  destruct (negb (String.eqb (pr_Needs (ti_Projection i)) "")); [split_and!; [done|done|done]|].
  destruct (flt (margin_of _) _).
  - destruct (nextRung _ _) as [r|] eqn:Er.
    + apply nextRung_Some in Er as [Hr Hn]. unfold apply_rung.
      assert (ld_Applied (la_state l) ++ [r] ≠ ld_Applied (la_state l)) as Hne.
      { intros E%(f_equal length). rewrite length_app in E. simpl in E. lia. }
      destruct (String.eqb r RungLowerInflight), err; simpl; (split_and!; [done|done|left; eauto]).
    + split_and!; [done|done|]. right. split; [done|]. by apply nextRung_None.
  - destruct (flt _ (SFopp _)); [|done]. destruct (se_StepBack _); [|by destruct (0 <? _)].
    destruct (snoc_cases (ld_Applied (la_state l))) as [E|(a&r&E)]; rewrite E; cbn [length andb].
    + simpl. rewrite E. split_and!; [done|done|by left].
    + assert (0 <? Z.of_nat (length (a ++ [r])) = true) as -> by (apply Z.ltb_lt; rewrite length_app; simpl; lia).
      unfold release. rewrite E, last_snoc, removelast_last.
      assert (a ≠ a ++ [r]) as Hne. { intros E'%(f_equal length). rewrite length_app in E'. simpl in E'. lia. }
      destruct (String.eqb r RungLowerInflight), err; simpl; (split_and!; [done|done|right; eauto]).
Qed.

(** ** What the rungs in force change *)

Section balance.
Context (adm0 : Admission).

Definition cap0 : Z := InflightCap adm0 ClaudeBackend.

(** The settings before, changed by lowering the cap, routing and holding. *)
Record settings (low routed held : bool) (adm : Admission) : Prop := {
  set_cap : ∀ b, InflightCap adm b = if bool_decide (b = ClaudeBackend) && low then lowered cap0 else InflightCap adm0 b;
  set_route : ad_route adm = if routed then <[ClaudeBackend := PiBackend]> (ad_route adm0) else ad_route adm0;
  set_hold : ad_hold adm = if held then {[ClaudeBackend]} ∪ ad_hold adm0 else ad_hold adm0
}.

Definition in_force (r : string) (st : LadderState) : bool := bool_decide (r ∈ ld_Applied st).

(** The settings are those of the rungs in force, and the cap to restore is kept. *)
Record balanced (st : LadderState) (adm : Admission) : Prop := {
  bal_nodup : NoDup (ld_Applied st);
  bal_orig : in_force RungLowerInflight st = true → ld_OriginalInflight st = cap0;
  bal_settings : settings (in_force RungLowerInflight st) (in_force RungRoutePiPrompt st) (in_force RungHoldClaude st) adm
}.

Lemma InflightCap_set b b' n adm : InflightCap (SetInflight b n adm) b' = if bool_decide (b' = b) then n else InflightCap adm b'.
Proof. unfold InflightCap, SetInflight. simpl. case_bool_decide as E; [subst; by rewrite lookup_insert_eq|by rewrite lookup_insert_ne]. Qed.

Lemma settings_cap l l' r h adm :
  settings l r h adm → settings l' r h (SetInflight ClaudeBackend (if l' then lowered cap0 else cap0) adm).
Proof.
  intros [Hc Hr Hh]. split; [|done..]. intros b. rewrite InflightCap_set. case_bool_decide as E; [subst; by destruct l'|].
  rewrite Hc. by rewrite (bool_decide_false (b = _)) by done.
Qed.

Hypothesis (Hroute : ad_route adm0 !! ClaudeBackend = None) (Hhold : ClaudeBackend ∉ ad_hold adm0).

Lemma settings_route l r r' h adm :
  settings l r h adm → settings l r' h (RouteBackend ClaudeBackend PiBackend r' adm).
Proof.
  intros [Hc Hr Hh]. split; [done| |done]. unfold RouteBackend. cbn [ad_route]. rewrite Hr.
  destruct r, r'; [by rewrite insert_insert_eq|by rewrite delete_insert_id|done|by rewrite delete_id].
Qed.

Lemma settings_hold l r h h' adm :
  settings l r h adm → settings l r h' (HoldNewWork ClaudeBackend h' adm).
Proof. intros [Hc Hr Hh]. split; [done..|]. unfold HoldNewWork. cbn [ad_hold]. rewrite Hh. destruct h, h'; set_solver. Qed.

(** Which rungs are in force with one more. *)
Lemma in_snoc (l : list string) (r x : string) : bool_decide (x ∈ l ++ [r]) = bool_decide (x ∈ l) || bool_decide (x = r).
Proof. apply Bool.eq_iff_eq_true. rewrite orb_true_iff, !bool_decide_eq_true, elem_of_app, list_elem_of_singleton. done. Qed.

Ltac rungs := unfold in_force; cbn [ld_Applied]; rewrite ?in_snoc;
  rewrite ?(bool_decide_false (_ = _)), ?orb_false_r by done; rewrite ?(bool_decide_true (_ = _)), ?orb_true_r by done.

Lemma apply_balanced r st adm :
  r ∉ ld_Applied st → balanced st adm →
  balanced (apply_rung r (InflightCap adm ClaudeBackend) st).1 (foldl exec adm (apply_rung r (InflightCap adm ClaudeBackend) st).2).
Proof.
  intros Hr [Hnd Ho Hs].
  assert (NoDup (ld_Applied st ++ [r])) as Hnd'.
  { apply NoDup_app. split_and!; [done| |apply NoDup_singleton]. intros x Hx ->%list_elem_of_singleton. done. }
  unfold apply_rung. destruct (String.eqb_spec r RungLowerInflight) as [->|H1];
    [|destruct (String.eqb_spec r RungRoutePiPrompt) as [->|H2]; [|destruct (String.eqb_spec r RungHoldClaude) as [->|H3]]];
    cbn [fst snd foldl]; (split; [exact Hnd'| |]); cbn [ld_OriginalInflight].
  - intros _. rewrite (set_cap _ _ _ _ Hs). unfold in_force. by rewrite (bool_decide_false (_ ∈ _)), andb_false_r.
  - assert (InflightCap adm ClaudeBackend = cap0) as ->.
    { rewrite (set_cap _ _ _ _ Hs). unfold in_force. by rewrite (bool_decide_false (_ ∈ _)), andb_false_r. }
    rungs. by eapply (settings_cap _ true).
  - rungs. done.
  - rungs. by eapply (settings_route _ _ true).
  - rungs. done.
  - rungs. by eapply (settings_hold _ _ _ true).
  - rungs. done.
  - rungs. done.
Qed.

Lemma release_balanced st adm :
  ld_Applied st ≠ [] → balanced st adm →
  balanced (release st).1 (foldl exec adm (release st).2) ∧ (length (ld_Applied (release st).1) < length (ld_Applied st))%nat.
Proof.
  intros Hne [Hnd Ho Hs]. destruct (snoc_cases (ld_Applied st)) as [?|(l&r&E)]; [done|].
  unfold release, in_force in *. rewrite E in *. rewrite last_snoc, removelast_last. rewrite !in_snoc in *.
  apply NoDup_app in Hnd as (Hnd&Hd&_). assert (r ∉ l) as Hr by (intros Hin; apply (Hd r Hin); by left).
  destruct (String.eqb_spec r RungLowerInflight) as [->|H1];
    [|destruct (String.eqb_spec r RungRoutePiPrompt) as [->|H2]; [|destruct (String.eqb_spec r RungHoldClaude) as [->|H3]]];
    cbn [fst snd foldl ld_Applied]; (split; [|rewrite length_app; simpl; lia]);
    rewrite ?(bool_decide_false (_ = _)), ?orb_false_r in * by done;
    rewrite ?(bool_decide_true (_ = _)), ?orb_true_r in * by done; split; unfold in_force; cbn [ld_Applied ld_OriginalInflight]; try done.
  - by rewrite bool_decide_false.
  - rewrite (Ho eq_refl), (bool_decide_false (RungLowerInflight ∈ l)) by done. by eapply (settings_cap _ false).
  - rewrite (bool_decide_false (RungRoutePiPrompt ∈ l)) by done. by eapply (settings_route _ _ false).
  - rewrite (bool_decide_false (RungHoldClaude ∈ l)) by done. by eapply (settings_hold _ _ _ false).
Qed.

Lemma release_all_balanced fuel st acts adm :
  (length (ld_Applied st) ≤ fuel)%nat → balanced st (foldl exec adm acts) →
  ld_Applied (release_all fuel st acts).1 = [] ∧
  balanced (release_all fuel st acts).1 (foldl exec adm (release_all fuel st acts).2).
Proof.
  revert st acts. induction fuel as [|f IH]; intros st acts Hf Hb.
  - destruct (ld_Applied st) eqn:E; [done|simpl in Hf; lia].
  - cbn [release_all]. destruct (ld_Applied st) as [|x xs] eqn:E; [done|].
    destruct (release_balanced st (foldl exec adm acts)) as [Hb' Hl]; [by rewrite E|done|].
    destruct (release st) as [st' a]. cbn [fst snd] in *. apply IH; [rewrite E in Hl; simpl in *; lia|]. by rewrite foldl_app.
Qed.

(** The time of the last change does not matter. *)
Lemma balanced_time st adm t : balanced st adm → balanced (mkLadderState (ld_Applied st) t (ld_OriginalInflight st)) adm.
Proof. by intros [H1 H2 H3]. Qed.

(** What [finish_tick] leaves: the state it is given but for the time, saved too if nothing failed. *)
Lemma finish_balanced l st prev now dir rung acts ch al q re adm :
  balanced st adm → (ch = false → st = la_state l) → la_saved l = la_state l →
  let '(l', d, _) := finish_tick l st prev now None dir rung acts ch al q re in
  balanced (la_state l') adm ∧ la_saved l' = la_state l' ∧ ld_Applied (la_state l') = ld_Applied st
  ∧ de_Applied d = ld_Applied st ∧ de_Actions d = acts ∧ de_Changed d = ch.
Proof. intros Hb Hc Hs. unfold finish_tick. destruct ch; cbn; [split_and!; [by apply balanced_time|done..]|]. split_and!; [done|by rewrite Hc|done..]. Qed.

(** Ladder and settings agree, and what is saved is what is in memory. *)
Definition steady (g : Ladder * Admission) : Prop := balanced (la_state g.1) g.2 ∧ la_saved g.1 = la_state g.1.

Lemma tick_balanced i l adm :
  ti_InflightCap i = InflightCap adm ClaudeBackend → steady (l, adm) →
  let '(l', d, _) := Tick i None l in
  steady (l', foldl exec adm (de_Actions d)) ∧ de_Applied d = ld_Applied (la_state l')
  ∧ (se_Enabled (ti_Settings i) = false → ld_Applied (la_state l') = []).
Proof.
  intros Hcap [Hb Hsv]. cbn [fst snd] in *. unfold Tick.
  assert (∀ dir rung acts ch al q re st', balanced st' (foldl exec adm acts) → (ch = false → st' = la_state l) →
    (se_Enabled (ti_Settings i) = false → ld_Applied st' = []) →
    let '(l', d, _) := finish_tick l st' (Z.of_nat (length (ld_Applied (la_state l)))) (ti_Now i) None dir rung acts ch al q re in
    steady (l', foldl exec adm (de_Actions d)) ∧ de_Applied d = ld_Applied (la_state l')
    ∧ (se_Enabled (ti_Settings i) = false → ld_Applied (la_state l') = [])) as Hfin.
  { intros dir rung acts ch al q re st' Hb' Hc He.
    pose proof (finish_balanced l st' (Z.of_nat (length (ld_Applied (la_state l)))) (ti_Now i) dir rung acts ch al q re _ Hb' Hc Hsv) as H.
    destruct (finish_tick _ _ _ _ _ _ _ _ _ _ _ _) as [[l' d] e]. destruct H as (H1&H2&H3&H4&H5&H6).
    rewrite H5. split_and!; [split; [done|done]|congruence|intros; rewrite H3; auto]. }
  destruct (se_Enabled (ti_Settings i)) eqn:He; cbn [negb].
  - destruct (negb (String.eqb (pr_Needs (ti_Projection i)) "")); [by apply Hfin|].
    destruct (flt (margin_of _) _).
    + destruct (nextRung _ _) as [r|] eqn:Er; [|by apply Hfin]. apply nextRung_Some in Er as [_ Hr]. rewrite Hcap.
      pose proof (apply_balanced r _ _ Hr Hb) as Ha. destruct (apply_rung _ _ _) as [st' acts]. by apply Hfin.
    + destruct (flt _ (SFopp _) && se_StepBack _ && (0 <? Z.of_nat (length (ld_Applied (la_state l))))) eqn:Eb; [|by apply Hfin].
      bools. destruct (release_balanced (la_state l) adm) as [Hr _]; [|done|].
      { intros E. rewrite E in *. simpl in *. lia. }
      destruct (release _) as [st' acts]. by apply Hfin.
  - destruct (ld_Applied (la_state l)) as [|x xs] eqn:E; [by apply Hfin|].
    destruct (release_all_balanced (length (x :: xs)) (la_state l) [] adm) as [Hn Hr]; [by rewrite E|done|].
    destruct (release_all _ _ _) as [st' acts]. by apply Hfin.
Qed.

Lemma guard_tick_steady s proj now g :
  steady g → let '(l, adm, _) := guard_tick s proj now None g in
  steady (l, adm) ∧ (se_Enabled s = false → ld_Applied (la_state l) = []).
Proof.
  destruct g as [l adm]. intros Hg. unfold guard_tick. set (i := mkTickInput _ s now _).
  pose proof (tick_balanced i l adm eq_refl Hg) as H. destruct (Tick i None l) as [[l' d] e].
  destruct H as ([Hb Hs]&Ha&He). split; [|done]. split; [|done]. cbn [fst snd] in *.
  destruct (negb (de_Changed d) && bool_decide (RungHoldClaude ∈ de_Applied d)) eqn:Eh; [|done]. bools. destruct Hb as [H1 H2 H3].
  split; [done|done|]. unfold in_force at 3. rewrite <- Ha, bool_decide_true by done. by eapply (settings_hold _ _ _ true).
Qed.

(** The guard runs: ticks under any settings and projections, and reloads of the
    saved ladder. *)
Inductive guard_op :=
| GTick (s : LadderSettings) (proj : Projection) (now : Time)
| GRestart.

Definition guard_run (g : Ladder * Admission) (o : guard_op) : Ladder * Admission :=
  match o with
  | GTick s proj now => let '(l, adm, _) := guard_tick s proj now None g in (l, adm)
  | GRestart => (NewLadder (la_saved g.1), g.2)
  end.

Definition guard_start : Ladder * Admission := (NewLadder (mkLadderState [] zero_time 0), adm0).

Lemma guard_steady ops : steady (foldl guard_run guard_start ops).
Proof.
  apply foldl_invariant.
  - intros g [s proj now|] _ Hg.
    + pose proof (guard_tick_steady s proj now g Hg) as H. simpl. destruct (guard_tick s proj now None g) as [[l adm] d]. apply H.
    + destruct Hg as [Hb Hs]. split; [|done]. simpl. by rewrite Hs.
  - split; [|done]. split; [constructor|done|]. split; [|done..]. intros b. by rewrite andb_false_r.
Qed.

(** Turning the guard off gives everything back. After any ticks, under any
    settings and projections and with reloads of the ladder in between, one tick with the guard
    off leaves no rung in force and every inflight cap, route and hold as it was
    before the first tick, provided the state could be saved and nothing else
    routes or holds the backend. *)
Theorem guard_off_restores (ops : list guard_op) (s : LadderSettings) (proj : Projection) (now : Time) :
  se_Enabled s = false →
  let '(l, adm, _) := guard_tick s proj now None (foldl guard_run guard_start ops) in
  ld_Applied (la_state l) = [] ∧ (∀ b, InflightCap adm b = InflightCap adm0 b)
  ∧ ad_route adm = ad_route adm0 ∧ ad_hold adm = ad_hold adm0.
Proof.
  intros He. pose proof (guard_tick_steady s proj now _ (guard_steady ops)) as H.
  destruct (guard_tick s proj now None _) as [[l adm] d]. destruct H as [[[_ _ [Hc Hr Hh]] _] Ha]. specialize (Ha He).
  cbn [fst snd] in *. unfold in_force in *. rewrite Ha in *. split_and!; [done| |done|done]. intros b. rewrite Hc. by rewrite andb_false_r.
Qed.
End balance.

(** ** A run *)

Definition demo_admission : Admission := mkAdmission {[ "claude-code" := 4; "goose" := 2 ]} ∅ ∅.
Definition demo_guard (on : bool) : LadderSettings := mkLadderSettings on [] true (S754_finite false 1 0) true.
Definition demo_over : Projection :=
  mkProjection "" (S754_finite false 110 0) (S754_finite false 95 0) (S754_finite false 15 0) (S754_finite false 3 (-1)) (S754_finite false 1 (-1)).
Definition demo_under : Projection :=
  mkProjection "" (S754_finite false 80 0) (S754_finite false 95 0) (S754_finite true 15 0) (S754_finite false 1 (-1)) (S754_finite false 1 (-1)).

Definition demo_guard_ops : list guard_op :=
  [GTick (demo_guard true) demo_over 1; GTick (demo_guard true) demo_over 2; GRestart; GTick (demo_guard true) demo_over 3;
   GTick (demo_guard true) demo_under 4; GTick (demo_guard true) demo_over 5; GTick (demo_guard true) demo_over 6].

Example demo_guarding :
  let '(l, adm) := foldl guard_run (guard_start demo_admission) demo_guard_ops in
  ld_Applied (la_state l) = DefaultLadder ∧ InflightCap adm ClaudeBackend = 3 ∧ ad_route adm !! ClaudeBackend = Some PiBackend
  ∧ bool_decide (ClaudeBackend ∈ ad_hold adm) = true.
Proof. vm_compute. repeat split; reflexivity. Qed.

Lemma guard_off_restores_witness :
  let '(l, adm, _) := guard_tick (demo_guard false) demo_over 7 None (foldl guard_run (guard_start demo_admission) demo_guard_ops) in
  ld_Applied (la_state l) = [] ∧ (∀ b, InflightCap adm b = InflightCap demo_admission b)
  ∧ ad_route adm = ad_route demo_admission ∧ ad_hold adm = ad_hold demo_admission.
Proof. apply (guard_off_restores demo_admission); [vm_compute; reflexivity|set_solver|reflexivity]. Defined.

Definition demo_input : TickInput := mkTickInput demo_over (demo_guard true) 1 4.

Lemma ladder_step_witness :
  ladder_of (demo_guard true) = DefaultLadder ∧
  let applied := ld_Applied (la_state (NewLadder (mkLadderState [RungLowerInflight] 0 4))) in
  let '(l', d, _) := Tick demo_input None (NewLadder (mkLadderState [RungLowerInflight] 0 4)) in
  let applied' := ld_Applied (la_state l') in
  let s := ti_Settings demo_input in
  let p := ti_Projection demo_input in
  de_Applied d = applied' ∧ (de_Changed d = true ↔ applied' ≠ applied) ∧
  if negb (String.eqb (pr_Needs p) "") then applied' = applied
  else if flt (margin_of s) (pr_OverBy p) then
    (∃ r, applied' = applied ++ [r] ∧ r ∈ ladder_of s ∧ r ∉ applied)
    ∨ (applied' = applied ∧ ∀ r, r ∈ ladder_of s → r ∈ applied)
  else if flt (pr_OverBy p) (SFopp (margin_of s)) && se_StepBack s then
    applied = [] ∧ applied' = [] ∨ ∃ r, applied = applied' ++ [r]
  else applied' = applied.
Proof. split; [reflexivity|]. apply (ladder_step demo_input None (NewLadder (mkLadderState [RungLowerInflight] 0 4))). reflexivity. Defined.
