(* ===== verification/Executor.v ===== *)
(** * The executor of Automata: the record and its graph

    internal/autonomous/models.go, executor.go and the files around it: an
    Automaton ([PRD]) as the executor reads and writes it, the flattening and
    sorting of its tasks, the roll-up of statuses, the failure reasons that reach
    dependents and their recovery, and what a task's spec asks of the operator.
    Fields of the records that the modelled code neither reads nor writes are left
    out. *)

From S2P Require Import Prelude GoBase GoText GoFmt GoRegexp TopoSort.

#[local] Open Scope Z_scope.

(** ** Statuses *)

Definition PRDPlanning : string := "planning".
Definition PRDNeedsReview : string := "needs_review".
Definition PRDApproved : string := "approved".
Definition PRDActive : string := "active".
Definition PRDRunning : string := "running".
Definition PRDCompleted : string := "completed".
Definition PRDCancelled : string := "cancelled".
Definition PRDBlocked : string := "blocked".
Definition PRDFailed : string := "failed".
Definition PRDPaused : string := "paused".

Definition StoryPending : string := "pending".
Definition StoryAwaitingApproval : string := "awaiting_approval".
Definition StoryInProgress : string := "in_progress".
Definition StoryCompleted : string := "completed".
Definition StoryBlocked : string := "blocked".
Definition StoryFailed : string := "failed".

Definition TaskPending : string := "pending".
Definition TaskQueued : string := "queued".
Definition TaskInProgress : string := "in_progress".
Definition TaskCompleted : string := "completed".
Definition TaskFailed : string := "failed".
Definition TaskBlocked : string := "blocked".
Definition TaskCancelled : string := "cancelled".
Definition TaskWaitingDecision : string := "waiting_decision".
Definition TaskAwaitingApproval : string := "awaiting_approval".
Definition TaskReviewNeeded : string := "review_needed".

(** ** Records *)

Record FailureReason := mkReason {
  fr_Category : string;
  fr_Detail : string;
  fr_Source : string;
  fr_Retryable : bool;
  fr_OccurredAt : Time;
  fr_DependsOnTaskID : string
}.


Record GuardrailVerdict := mkVerdict {
  gv_Guardrail : string;
  gv_Outcome : string;
  gv_Summary : string;
  gv_Issues : list string;
  gv_Category : string;
  gv_JudgeSessionID : string;
  gv_Backend : string;
  gv_RawJudge : string
}.


Record Decision := mkDecision {
  d_At : Time;
  d_Kind : string;
  d_Actor : string;
  d_Note : string;
  d_FailureCategory : string;
  d_QuestionID : string;
  d_DecisionState : string
}.


Record VerificationResult := mkVerification { vr_OK : bool; vr_Summary : string }.

Record Task := mkTask {
  t_ID : string;
  t_Title : string;
  t_Spec : string;
  t_ProjectDir : string;
  t_WorktreePath : string;
  t_Status : string;
  t_DependsOn : list string;
  t_Error : string;
  t_FailureReason : option FailureReason;
  t_Verdicts : list GuardrailVerdict;
  t_WaitReason : string;
  t_Verification : option VerificationResult;
  t_SessionID : string;
  t_StartedAt : option Time;
  t_CompletedAt : option Time;
  t_UpdatedAt : Time;
  t_InfraRetryCount : Z
}.

Definition set_t_Status (x : string) (r : Task) : Task :=
  mkTask (t_ID r) (t_Title r) (t_Spec r) (t_ProjectDir r) (t_WorktreePath r) x (t_DependsOn r) (t_Error r)
    (t_FailureReason r) (t_Verdicts r) (t_WaitReason r) (t_Verification r) (t_SessionID r) (t_StartedAt r)
    (t_CompletedAt r) (t_UpdatedAt r) (t_InfraRetryCount r).
Definition set_t_Error (x : string) (r : Task) : Task :=
  mkTask (t_ID r) (t_Title r) (t_Spec r) (t_ProjectDir r) (t_WorktreePath r) (t_Status r) (t_DependsOn r) x
    (t_FailureReason r) (t_Verdicts r) (t_WaitReason r) (t_Verification r) (t_SessionID r) (t_StartedAt r)
    (t_CompletedAt r) (t_UpdatedAt r) (t_InfraRetryCount r).
Definition set_t_FailureReason (x : option FailureReason) (r : Task) : Task :=
  mkTask (t_ID r) (t_Title r) (t_Spec r) (t_ProjectDir r) (t_WorktreePath r) (t_Status r) (t_DependsOn r)
    (t_Error r) x (t_Verdicts r) (t_WaitReason r) (t_Verification r) (t_SessionID r) (t_StartedAt r)
    (t_CompletedAt r) (t_UpdatedAt r) (t_InfraRetryCount r).
Definition set_t_WaitReason (x : string) (r : Task) : Task :=
  mkTask (t_ID r) (t_Title r) (t_Spec r) (t_ProjectDir r) (t_WorktreePath r) (t_Status r) (t_DependsOn r)
    (t_Error r) (t_FailureReason r) (t_Verdicts r) x (t_Verification r) (t_SessionID r) (t_StartedAt r)
    (t_CompletedAt r) (t_UpdatedAt r) (t_InfraRetryCount r).
Definition set_t_UpdatedAt (x : Time) (r : Task) : Task :=
  mkTask (t_ID r) (t_Title r) (t_Spec r) (t_ProjectDir r) (t_WorktreePath r) (t_Status r) (t_DependsOn r)
    (t_Error r) (t_FailureReason r) (t_Verdicts r) (t_WaitReason r) (t_Verification r) (t_SessionID r)
    (t_StartedAt r) (t_CompletedAt r) x (t_InfraRetryCount r).

Record Story := mkStory {
  s_ID : string;
  s_Status : string;
  s_Tasks : list Task;
  s_Verdicts : list GuardrailVerdict
}.

Definition set_s_Status (x : string) (r : Story) : Story :=
  mkStory (s_ID r) x (s_Tasks r) (s_Verdicts r).
Definition set_s_Tasks (x : list Task) (r : Story) : Story :=
  mkStory (s_ID r) (s_Status r) x (s_Verdicts r).

Record MemorySeedConfig := mkSeed { ms_Enabled : bool; ms_MaxPerScope : Z; ms_RoleFilter : list string; ms_FromPRDs : list string }.
Record UncommittedWorkHold := mkHold { uw_Files : list string; uw_Reason : string }.
Record RulesReviewOutcome := mkOutcome {
  ro_Action : string; ro_Findings : list string; ro_Summary : string; ro_Attempt : Z; ro_RetryBudget : Z; ro_RetriesSpent : Z;
  ro_Reason : string; ro_JudgeOutcome : string; ro_At : Time
}.

Record PRD := mkPRD {
  p_ID : string;
  p_Title : string;
  p_Status : string;
  p_IsTemplate : bool;
  p_Story : list Story;
  p_BlockedReason : string;
  p_Verdicts : list GuardrailVerdict;
  p_Decisions : list Decision;
  p_UpdatedAt : Time;
  p_Rev : Z;
  p_ProjectDir : string;
  p_ProjectProfile : string;
  p_ClusterProfile : string;
  p_Branch : string;
  p_MaxConcurrentTasks : Z;
  p_ContinueOnStoryFailure : option bool;
  p_MemorySeed : MemorySeedConfig;
  p_RetryCountsByCategory : gmap string Z;
  p_RulesReviewOutcome : option RulesReviewOutcome;
  p_UncommittedWork : option UncommittedWorkHold;
  p_QualityGateStatus : string;
  p_QualityGateInvalidReason : string
}.

Definition set_p_Status (x : string) (r : PRD) : PRD :=
  mkPRD (p_ID r) (p_Title r) x (p_IsTemplate r) (p_Story r) (p_BlockedReason r) (p_Verdicts r) (p_Decisions r)
    (p_UpdatedAt r) (p_Rev r) (p_ProjectDir r) (p_ProjectProfile r) (p_ClusterProfile r) (p_Branch r)
    (p_MaxConcurrentTasks r) (p_ContinueOnStoryFailure r) (p_MemorySeed r) (p_RetryCountsByCategory r)
    (p_RulesReviewOutcome r) (p_UncommittedWork r) (p_QualityGateStatus r) (p_QualityGateInvalidReason r).
Definition set_p_Story (x : list Story) (r : PRD) : PRD :=
  mkPRD (p_ID r) (p_Title r) (p_Status r) (p_IsTemplate r) x (p_BlockedReason r) (p_Verdicts r) (p_Decisions r)
    (p_UpdatedAt r) (p_Rev r) (p_ProjectDir r) (p_ProjectProfile r) (p_ClusterProfile r) (p_Branch r)
    (p_MaxConcurrentTasks r) (p_ContinueOnStoryFailure r) (p_MemorySeed r) (p_RetryCountsByCategory r)
    (p_RulesReviewOutcome r) (p_UncommittedWork r) (p_QualityGateStatus r) (p_QualityGateInvalidReason r).
Definition set_p_BlockedReason (x : string) (r : PRD) : PRD :=
  mkPRD (p_ID r) (p_Title r) (p_Status r) (p_IsTemplate r) (p_Story r) x (p_Verdicts r) (p_Decisions r)
    (p_UpdatedAt r) (p_Rev r) (p_ProjectDir r) (p_ProjectProfile r) (p_ClusterProfile r) (p_Branch r)
    (p_MaxConcurrentTasks r) (p_ContinueOnStoryFailure r) (p_MemorySeed r) (p_RetryCountsByCategory r)
    (p_RulesReviewOutcome r) (p_UncommittedWork r) (p_QualityGateStatus r) (p_QualityGateInvalidReason r).
Definition set_p_Decisions (x : list Decision) (r : PRD) : PRD :=
  mkPRD (p_ID r) (p_Title r) (p_Status r) (p_IsTemplate r) (p_Story r) (p_BlockedReason r) (p_Verdicts r) x
    (p_UpdatedAt r) (p_Rev r) (p_ProjectDir r) (p_ProjectProfile r) (p_ClusterProfile r) (p_Branch r)
    (p_MaxConcurrentTasks r) (p_ContinueOnStoryFailure r) (p_MemorySeed r) (p_RetryCountsByCategory r)
    (p_RulesReviewOutcome r) (p_UncommittedWork r) (p_QualityGateStatus r) (p_QualityGateInvalidReason r).
Definition set_p_UpdatedAt (x : Time) (r : PRD) : PRD :=
  mkPRD (p_ID r) (p_Title r) (p_Status r) (p_IsTemplate r) (p_Story r) (p_BlockedReason r) (p_Verdicts r)
    (p_Decisions r) x (p_Rev r) (p_ProjectDir r) (p_ProjectProfile r) (p_ClusterProfile r) (p_Branch r)
    (p_MaxConcurrentTasks r) (p_ContinueOnStoryFailure r) (p_MemorySeed r) (p_RetryCountsByCategory r)
    (p_RulesReviewOutcome r) (p_UncommittedWork r) (p_QualityGateStatus r) (p_QualityGateInvalidReason r).
Definition set_p_Rev (x : Z) (r : PRD) : PRD :=
  mkPRD (p_ID r) (p_Title r) (p_Status r) (p_IsTemplate r) (p_Story r) (p_BlockedReason r) (p_Verdicts r)
    (p_Decisions r) (p_UpdatedAt r) x (p_ProjectDir r) (p_ProjectProfile r) (p_ClusterProfile r) (p_Branch r)
    (p_MaxConcurrentTasks r) (p_ContinueOnStoryFailure r) (p_MemorySeed r) (p_RetryCountsByCategory r)
    (p_RulesReviewOutcome r) (p_UncommittedWork r) (p_QualityGateStatus r) (p_QualityGateInvalidReason r).
Definition set_p_ProjectDir (x : string) (r : PRD) : PRD :=
  mkPRD (p_ID r) (p_Title r) (p_Status r) (p_IsTemplate r) (p_Story r) (p_BlockedReason r) (p_Verdicts r)
    (p_Decisions r) (p_UpdatedAt r) (p_Rev r) x (p_ProjectProfile r) (p_ClusterProfile r) (p_Branch r)
    (p_MaxConcurrentTasks r) (p_ContinueOnStoryFailure r) (p_MemorySeed r) (p_RetryCountsByCategory r)
    (p_RulesReviewOutcome r) (p_UncommittedWork r) (p_QualityGateStatus r) (p_QualityGateInvalidReason r).
Definition set_p_Branch (x : string) (r : PRD) : PRD :=
  mkPRD (p_ID r) (p_Title r) (p_Status r) (p_IsTemplate r) (p_Story r) (p_BlockedReason r) (p_Verdicts r)
    (p_Decisions r) (p_UpdatedAt r) (p_Rev r) (p_ProjectDir r) (p_ProjectProfile r) (p_ClusterProfile r) x
    (p_MaxConcurrentTasks r) (p_ContinueOnStoryFailure r) (p_MemorySeed r) (p_RetryCountsByCategory r)
    (p_RulesReviewOutcome r) (p_UncommittedWork r) (p_QualityGateStatus r) (p_QualityGateInvalidReason r).
Definition set_p_RetryCountsByCategory (x : gmap string Z) (r : PRD) : PRD :=
  mkPRD (p_ID r) (p_Title r) (p_Status r) (p_IsTemplate r) (p_Story r) (p_BlockedReason r) (p_Verdicts r)
    (p_Decisions r) (p_UpdatedAt r) (p_Rev r) (p_ProjectDir r) (p_ProjectProfile r) (p_ClusterProfile r)
    (p_Branch r) (p_MaxConcurrentTasks r) (p_ContinueOnStoryFailure r) (p_MemorySeed r) x
    (p_RulesReviewOutcome r) (p_UncommittedWork r) (p_QualityGateStatus r) (p_QualityGateInvalidReason r).
Definition set_p_RulesReviewOutcome (x : option RulesReviewOutcome) (r : PRD) : PRD :=
  mkPRD (p_ID r) (p_Title r) (p_Status r) (p_IsTemplate r) (p_Story r) (p_BlockedReason r) (p_Verdicts r)
    (p_Decisions r) (p_UpdatedAt r) (p_Rev r) (p_ProjectDir r) (p_ProjectProfile r) (p_ClusterProfile r)
    (p_Branch r) (p_MaxConcurrentTasks r) (p_ContinueOnStoryFailure r) (p_MemorySeed r)
    (p_RetryCountsByCategory r) x (p_UncommittedWork r) (p_QualityGateStatus r) (p_QualityGateInvalidReason r).
Definition set_p_QualityGateStatus (x : string) (r : PRD) : PRD :=
  mkPRD (p_ID r) (p_Title r) (p_Status r) (p_IsTemplate r) (p_Story r) (p_BlockedReason r) (p_Verdicts r)
    (p_Decisions r) (p_UpdatedAt r) (p_Rev r) (p_ProjectDir r) (p_ProjectProfile r) (p_ClusterProfile r)
    (p_Branch r) (p_MaxConcurrentTasks r) (p_ContinueOnStoryFailure r) (p_MemorySeed r)
    (p_RetryCountsByCategory r) (p_RulesReviewOutcome r) (p_UncommittedWork r) x (p_QualityGateInvalidReason r).
Definition set_p_QualityGateInvalidReason (x : string) (r : PRD) : PRD :=
  mkPRD (p_ID r) (p_Title r) (p_Status r) (p_IsTemplate r) (p_Story r) (p_BlockedReason r) (p_Verdicts r)
    (p_Decisions r) (p_UpdatedAt r) (p_Rev r) (p_ProjectDir r) (p_ProjectProfile r) (p_ClusterProfile r)
    (p_Branch r) (p_MaxConcurrentTasks r) (p_ContinueOnStoryFailure r) (p_MemorySeed r)
    (p_RetryCountsByCategory r) (p_RulesReviewOutcome r) (p_UncommittedWork r) (p_QualityGateStatus r) x.

#[global] Instance task_vertex : Vertex Task := {| v_ID := t_ID; v_DependsOn := t_DependsOn |}.

(** *** What a save does to the record *)

Definition maxDecisionsPerPRD : nat := 200.
Definition trimDecisions (ds : list Decision) : list Decision := drop (length ds - maxDecisionsPerPRD) ds.
Definition clearStaleBlockedReason (p : PRD) : PRD :=
  if String.eqb (p_Status p) PRDBlocked then p else set_p_BlockedReason "" p.
Definition stored (now : Time) (p : PRD) : PRD :=
  let p := clearStaleBlockedReason (set_p_Decisions (trimDecisions (p_Decisions p)) (set_p_UpdatedAt now p)) in
  set_p_Rev (p_Rev p + 1) p.

(** [CommitPRDIfRev]'s critical section, [mutate] answering [None] when it declines. *)
Definition commit_if_rev (now : Time) (expectedRev : Z) (mutate : PRD → option PRD) (p : PRD) : option PRD :=
  if negb (p_Rev p =? expectedRev) then None else stored now <$> mutate p.

(** ** Tasks of an Automaton *)

Definition all_tasks (p : PRD) : list Task := p_Story p ≫= s_Tasks.

Definition lookupTask (p : PRD) (id : string) : option Task := List.find (λ t, String.eqb (t_ID t) id) (all_tasks p).
Definition lookupStoryByTaskID (p : PRD) (taskID : string) : option Story :=
  List.find (λ s, existsb (λ t, String.eqb (t_ID t) taskID) (s_Tasks s)) (p_Story p).

(** Writes through the pointers those return: to the first task of the id, and to
    the first story with such a task. *)
Fixpoint edit_first {A} (P : A → bool) (f : A → A) (l : list A) : list A :=
  match l with
  | [] => []
  | x :: l => if P x then f x :: l else x :: edit_first P f l
  end.
Definition owns (id : string) (s : Story) : bool := existsb (λ t, String.eqb (t_ID t) id) (s_Tasks s).
Definition edit_story (f : Story → Story) (id : string) (p : PRD) : PRD :=
  set_p_Story (edit_first (owns id) f (p_Story p)) p.
Definition edit_task (f : Task → Task) (id : string) : PRD → PRD :=
  edit_story (λ s, set_s_Tasks (edit_first (λ t, String.eqb (t_ID t) id) f (s_Tasks s)) s) id.

Definition normTaskStatus (s : string) : string := if nonempty s then s else TaskPending.

Definition isTaskTerminal (s : string) : bool :=
  String.eqb s TaskCompleted || String.eqb s TaskFailed || String.eqb s TaskCancelled.
Definition storyAllTasksDone (s : Story) : bool :=
  match s_Tasks s with [] => false | ts => forallb (λ t, isTaskTerminal (t_Status t)) ts end.
Definition anyNonTerminalTasksRemain (p : PRD) : bool :=
  existsb (λ s, existsb (λ t, negb (isTaskTerminal (t_Status t))) (s_Tasks s)) (p_Story p).
Definition prdAllTasksTerminal (p : PRD) : bool :=
  forallb (λ s, forallb (λ t, isTaskTerminal (t_Status t)) (s_Tasks s)) (p_Story p).
Definition storyRollupStatus (s : Story) : string :=
  if existsb (λ t, String.eqb (t_Status t) TaskFailed) (s_Tasks s) then StoryFailed else StoryCompleted.

(** The roll-up's scan: whether a task is left, and whether one failed. *)
Definition any_failed (p : PRD) : bool := existsb (λ t, String.eqb (t_Status t) TaskFailed) (all_tasks p).

Definition flattenTasks (p : PRD) : list Task :=
  s ← p_Story p;
  if String.eqb (s_Status s) StoryAwaitingApproval || String.eqb (s_Status s) StoryBlocked then []
  else List.filter (λ t, negb (String.eqb (t_Status t) TaskAwaitingApproval) && negb (String.eqb (t_Status t) TaskReviewNeeded)) (s_Tasks s).

Definition errCycle : error := Errorf "task dependency cycle detected" [].
Definition topoSort (tasks : list Task) : res (list string) :=
  match sorted_out tasks with
  | Some out => if bool_decide (length out = length tasks) then Ok out else Err errCycle
  | None => Err errCycle
  end.

(** ** Holds *)

Definition on_review (t : Task) : bool := String.eqb (t_Status t) TaskReviewNeeded.
Definition taskHeldIn (p : PRD) (id : string) : bool :=
  match lookupTask p id with Some t => on_review t | None => false end.
Definition waitsOnReview (p : PRD) (t : Task) (heldIDs : gset string) : bool :=
  existsb (λ dep, bool_decide (dep ∈ heldIDs) || taskHeldIn p dep) (t_DependsOn t).
(** [reviewHeldTaskID], [None] for none: a held task without an id counts as none. *)
Definition reviewHeldTaskID (p : PRD) : string :=
  foldl (λ id t, if negb (nonempty id) && on_review t then t_ID t else id) "" (all_tasks p).
Definition any_waiting_decision (p : PRD) : bool := existsb (λ t, String.eqb (t_Status t) TaskWaitingDecision) (all_tasks p).

(** ** Verdicts and reasons *)

Definition JudgeTimeoutCategory : string := "judge-timeout".
Definition IsJudgeTimeoutHold (v : GuardrailVerdict) : bool :=
  String.eqb (gv_Outcome v) "block" && String.eqb (gv_Category v) JudgeTimeoutCategory.
Definition lastBlockVerdict (vs : list GuardrailVerdict) : option GuardrailVerdict :=
  List.find (λ v, String.eqb (gv_Outcome v) "block") (rev vs).
Definition judgeHoldOrBlocked (v : option GuardrailVerdict) : string :=
  match v with Some v => if IsJudgeTimeoutHold v then PRDNeedsReview else PRDBlocked | None => PRDBlocked end.
Definition rulesReviewBlockStatus (p : PRD) : string * string :=
  match lastBlockVerdict (p_Verdicts p) with
  | Some v => if IsJudgeTimeoutHold v then (PRDNeedsReview, "judge_timeout_hold") else (PRDBlocked, "rules_review_block")
  | None => (PRDBlocked, "rules_review_block")
  end.
Definition blockedReasonFor (v : GuardrailVerdict) : string :=
  let who := if nonempty (gv_JudgeSessionID v) then gv_JudgeSessionID v
             else if nonempty (gv_Backend v) then gv_Backend v else "text-only judge" in
  sprintf "guardrail %s returned block (%s) - %s" [gv_Guardrail v; who; gv_Summary v].
Definition blockedReasonFromVerdicts (vs : list GuardrailVerdict) : string :=
  match lastBlockVerdict vs with Some v => blockedReasonFor v | None => "" end.
Definition lastDecision (p : PRD) (kind : string) : option Decision :=
  List.find (λ d, String.eqb (d_Kind d) kind) (rev (p_Decisions p)).
Definition add_decision (d : Decision) (p : PRD) : PRD := set_p_Decisions (p_Decisions p ++ [d]) p.

(** ** Failures of the machinery *)

Definition InfraRetryClassSpawnError : string := "spawn_error".
Definition InfraRetryClassStorageWrite : string := "storage_write".
Definition InfraRetryClassSessionKilled : string := "session_killed_before_delivery".
Definition InfraRetryClassDaemonRestart : string := "daemon_restart".
Definition InfraRetryAllClasses : list string :=
  [InfraRetryClassSpawnError; InfraRetryClassStorageWrite; InfraRetryClassSessionKilled; InfraRetryClassDaemonRestart].

(** [config.InfraRetryConfig], the fields read here. *)
Record InfraRetryConfig := mkInfra { ic_RetryDependents : option bool; ic_Categories : option (list string) }.
Definition EffectiveRetryDependents (c : InfraRetryConfig) : bool := default true (ic_RetryDependents c).
Definition EffectiveCategories (c : InfraRetryConfig) : list string := default InfraRetryAllClasses (ic_Categories c).
Definition HasCategory (c : InfraRetryConfig) (class : string) : bool := existsb (String.eqb class) (EffectiveCategories c).

Definition InfraSpawnFailureReason : string := "worker spawn failed".
Definition LaunchFailureReason : string := "worker launch failed: session ended before the task was delivered".
Definition SessionStartFailureReason : string := "session never started".
Definition daemonRestartText : string := "daemon restarted while the task was running".
Definition InfraClassJudgeCouldNotStart : string := "judge_could_not_start".
Definition judgeCouldNotStartText : string := "task delivery failed: main prompt never appeared within".
Definition storageWriteTexts : list string :=
  ["no space left on device"; "device is full"; "disk quota exceeded"; "read-only file system"].

Definition ClassifyInfraText (text : string) : option string :=
  let lower := ToLower text in
  if Contains lower (ToLower SessionStartFailureReason) then None
  else if Contains lower InfraSpawnFailureReason then Some InfraRetryClassSpawnError
  else if Contains lower LaunchFailureReason then Some InfraRetryClassSessionKilled
  else if Contains lower daemonRestartText then Some InfraRetryClassDaemonRestart
  else if Contains lower judgeCouldNotStartText then Some InfraClassJudgeCouldNotStart
  else if existsb (Contains lower) storageWriteTexts then Some InfraRetryClassStorageWrite
  else None.

Definition infraRetryFailureCategory : string := "infra".
Definition dependencyInfraSource : string := "dependency-infra".
Definition maxInfraRetryReasonChars : nat := 500.
Definition ellipsis : string := of_bytes [226; 128; 166]%nat.
Definition boundInfraReason (text : string) : string :=
  let text := TrimSpace text in
  if Z.of_nat maxInfraRetryReasonChars <? rune_count text then first_runes maxInfraRetryReasonChars text +:+ ellipsis else text.

Definition dependencyInfraClass (detail : string) : option string :=
  List.find (λ c, Contains detail ("infrastructure reason (" +:+ c +:+ ")")) InfraRetryAllClasses.
Definition dependencyInfraCause (r : FailureReason) : string :=
  match (if String.eqb (fr_Source r) dependencyInfraSource then Cut (fr_Detail r) "): " else None) with
  | Some (_, rest) => rest
  | None => boundInfraReason (fr_Detail r)
  end.

(** The root of the chain and the class, when [dep] failed for the machinery. *)
Definition dependencyFailedForInfra (cfg : InfraRetryConfig) (dep : Task) : option (string * string) :=
  if negb (EffectiveRetryDependents cfg) then None
  else match t_FailureReason dep with
       | None => None
       | Some r =>
           if negb (String.eqb (t_Status dep) TaskFailed) || negb (String.eqb (fr_Category r) infraRetryFailureCategory) then None
           else if String.eqb (fr_Source r) dependencyInfraSource then
             class ← dependencyInfraClass (fr_Detail r);
             Some (if nonempty (fr_DependsOnTaskID r) then fr_DependsOnTaskID r else t_ID dep, class)
           else
             class ← ClassifyInfraText (fr_Detail r);
             if HasCategory cfg class then Some (t_ID dep, class) else None
       end.

(** The reason a dependent of [dep] fails with, [now] the clock. *)
Definition infraDependentReason (cfg : InfraRetryConfig) (now : Time) (dep : Task) : option FailureReason :=
  '(rootID, class) ← dependencyFailedForInfra cfg dep;
  Some (mkReason infraRetryFailureCategory
          (sprintf "dependency %s failed for an infrastructure reason (%s): %s"
             [t_ID dep; class; match t_FailureReason dep with Some r => dependencyInfraCause r | None => "" end])
          dependencyInfraSource true now rootID).

(** *** Recovery of dependents, the part under the store's lock *)

Definition infraDependentsRecoveredKind : string := "infra_dependents_recovered".
Definition infraRootRecovered (s : string) : bool :=
  negb (existsb (String.eqb s) [TaskFailed; TaskCancelled; TaskBlocked; TaskReviewNeeded]).

(** A task is held by its place among all tasks. *)
Definition place_of (p : PRD) (id : string) : option nat := fst <$> list_find (λ t, t_ID t = id) (all_tasks p).
Fixpoint edit_place (f : Task → Task) (k : nat) (l : list Story) : list Story :=
  match l with
  | [] => []
  | s :: l =>
      if (k <? length (s_Tasks s))%nat then set_s_Tasks (alter f k (s_Tasks s)) s :: l
      else s :: edit_place f (k - length (s_Tasks s)) l
  end.
Definition recovery_order (p : PRD) : list nat :=
  match topoSort (all_tasks p) with
  | Ok ids => omap (place_of p) ids
  | Err _ => seq 0 (length (all_tasks p))
  end.

(** Whether the task is reset: failed behind a root that recovered, and no other
    dependency of it still unmet. *)
Definition recoverable (p : PRD) (t : Task) : option string :=
  match t_FailureReason t with
  | Some r =>
      if String.eqb (t_Status t) TaskFailed && String.eqb (fr_Source r) dependencyInfraSource
         && match lookupTask p (fr_DependsOnTaskID r) with Some root => infraRootRecovered (t_Status root) | None => false end
         && forallb (λ dep, match lookupTask p dep with Some d => infraRootRecovered (t_Status d) | None => true end) (t_DependsOn t)
      then Some (fr_DependsOnTaskID r) else None
  | None => None
  end.
Definition reset_task (now : Time) (t : Task) : Task :=
  mkTask (t_ID t) (t_Title t) (t_Spec t) (t_ProjectDir t) (t_WorktreePath t) TaskPending (t_DependsOn t) "" None (t_Verdicts t)
    (t_WaitReason t) None "" None None now 0.
Definition reopen_story (s : Story) : Story :=
  if String.eqb (s_Status s) StoryFailed || String.eqb (s_Status s) StoryCompleted then set_s_Status StoryPending s else s.

(** The resets in order: the task and the status it had, and its root. *)
Fixpoint recover_loop (now : Time) (order : list nat) (p : PRD) : PRD * list (string * string * string) :=
  match order with
  | [] => (p, [])
  | k :: order =>
      match (t ← all_tasks p !! k; root ← recoverable p t; Some (t, root)) with
      | Some (t, root) =>
          let p := edit_story reopen_story (t_ID t) (set_p_Story (edit_place (reset_task now) k (p_Story p)) p) in
          let '(p, resets) := recover_loop now order p in
          (p, (t_ID t, t_Status t, root) :: resets)
      | None => recover_loop now order p
      end
  end.

Definition roots_of (resets : list (string * string * string)) : list string :=
  foldl (λ roots r, if existsb (String.eqb r.2) roots then roots else roots ++ [r.2]) [] resets.
Definition recovery_note (resets : list (string * string * string)) (reopened : option string) : string :=
  "dependency recovered; dependents returned to pending: "
  +:+ Join ((λ root, sprintf "root=%s reset=%s" [root; Join ((λ r, r.1.1) <$> List.filter (λ r, String.eqb r.2 root) resets) ","])
              <$> roots_of resets) "; "
  +:+ match reopened with Some st => sprintf "; Automaton reopened from %s" [st] | None => "" end.

(** The Automaton after the recovery, the resets, and the status it was reopened from. *)
Definition recover (now : Time) (p : PRD) : PRD * list (string * string * string) * option string :=
  let '(p1, resets) := recover_loop now (recovery_order p) p in
  match resets with
  | [] => (p, [], None)
  | _ =>
      let stuck := existsb (λ t, existsb (String.eqb (t_Status t)) [TaskFailed; TaskBlocked; TaskReviewNeeded]) (all_tasks p1) in
      let reopened := if (String.eqb (p_Status p1) PRDFailed || String.eqb (p_Status p1) PRDBlocked) && negb stuck
                      then Some (p_Status p1) else None in
      let p2 := match reopened with Some _ => set_p_BlockedReason "" (set_p_Status PRDRunning p1) | None => p1 end in
      (add_decision (mkDecision now infraDependentsRecoveredKind "autonomous" (recovery_note resets reopened) "" "" "")
         (set_p_UpdatedAt now p2), resets, reopened)
  end.

(** ** Decisions a spec names *)

(** \bq-[0-9a-f]{20,}\b *)
Definition decisionRefRe : re :=
  Seq [WordEdge; Lit "q-"; AtLeast 20 (Chr (λ a, digit_byte a || between 97 102 a)); WordEdge].
Definition distinct (l : list string) : list string :=
  foldl (λ out x, if existsb (String.eqb x) out then out else out ++ [x]) [] l.
Definition DecisionRefs (spec : string) : list string := distinct (FindAllString decisionRefRe spec).

Record DecisionHoldReason := mkHoldReason { hr_ID : string; hr_State : string; hr_Reason : string }.
Definition decisionHoldTextMax : nat := 160.
Definition decisionStateMissing : string := "missing".
Definition QuestionOpen : string := "open".
Definition QuestionAnswered : string := "answered".
Definition truncateDecisionText (text : string) : string :=
  let text := TrimSpace text in
  if rune_count text <=? Z.of_nat decisionHoldTextMax then text else first_runes decisionHoldTextMax text.
Definition missingDecisionHold (id : string) : DecisionHoldReason :=
  mkHoldReason id decisionStateMissing (sprintf "operator decision %s was not found" [id]).

(** What the state and the text of question [id] hold, [None] when it is not there. *)
Definition hold_of (id : string) (q : option (string * string)) : option DecisionHoldReason :=
  match q with
  | None => Some (missingDecisionHold id)
  | Some (state, text) =>
      if String.eqb state QuestionAnswered then None
      else if String.eqb state QuestionOpen then
        Some (mkHoldReason id QuestionOpen (sprintf "operator decision %s is waiting for an answer: %s" [id; truncateDecisionText text]))
      else Some (mkHoldReason id state (sprintf "operator decision %s was %s without an answer" [id; state]))
  end.

(** [config.AutonomousQuestionsConfig], the gate's fields. *)
Record QuestionsConfig := mkQuestions { qc_DecisionGate : option bool; qc_DecisionGateMode : string }.
Definition EffectiveDecisionGate (c : QuestionsConfig) : bool := default true (qc_DecisionGate c).
Definition DecisionGateModeOn : string := "on".
Definition EffectiveDecisionGateMode (c : QuestionsConfig) : string :=
  if nonempty (qc_DecisionGateMode c) then qc_DecisionGateMode c else "shadow".

Definition decisionHoldSentence (holds : list DecisionHoldReason) : string := Join (hr_Reason <$> holds) "; ".
Definition decisionGateShadowKind : string := "decision_gate_shadow".
Definition same_shadow (dec d : Decision) : bool :=
  String.eqb (d_Kind d) (d_Kind dec) && String.eqb (d_QuestionID d) (d_QuestionID dec)
  && String.eqb (d_DecisionState d) (d_DecisionState dec) && String.eqb (d_Note d) (d_Note dec).

Example refs : DecisionRefs "after q-0123456789abcdef0123, not xq-0123456789abcdef0123 nor q-0123456789abcdef012z; q-0123456789abcdef0123"
  = ["q-0123456789abcdef0123"].
Proof. vm_compute. reflexivity. Qed.
