(* ===== verification/ExecutorWalk.v ===== *)
(** * The executor of Automata: walking the tasks

    The part of [Manager.Run] (autonomous/executor.go) that starts the tasks: one
    after the other in dependency order ([seq_walk]), or up to a limit at once
    under a coordinator ([conc_walk]), with what both do to the record on the way
    (decision gate, failures that reach dependents, roll-up of stories).

    The record of the Automaton is shared: workers, operators and other requests
    change it at any time. The walk holds the pointer the store holds, so every
    read and every write is a call ([Look], [WithLock]) whose answer is the record
    as it is then, and a theorem holds whatever the others did. Reads that follow
    each other with no call in between are taken at one instant. What the code
    calls out to is a call too: [executeOne], the leases, the settings, the
    question store, the context, the wake channel, the results channel.
    [executeOne] is one call, whatever it does in it: the task's prompts, sessions
    and retries, its verification, and its own push of what it committed. *)

From S2P Require Import Prelude Effects GoBase GoText GoFmt TopoSort Executor.

#[local] Open Scope Z_scope.

(** ** Calls *)

(** What a read is for: the turn of a task, what a task came to, the order to
    walk, the roll-up's scan, or anything else. *)
Inductive purpose := Turn (tid : string) | Outcome (tid : string) | ForOrder | RollUp | Plain.

(** [LifecycleEvent]s and the other announcements *)
Inductive notice :=
| TaskStatusEvent (tid old new : string) (dec : option Decision)
| PRDStatusEvent (old new : string) (dec : option Decision) (v : option GuardrailVerdict)
| PRDUpdate
| Alert (level title body : string).

(** What the coordinator's [select] came back with. *)
Inductive selected := CtxDone (e : error) | Woken | Finished (tid : string) (err : option error).

(** Calls the model makes nothing of but that they were made. *)
Inductive step :=
| ReleaseCapacity (tid : string)
| EnsureIgnoredPatterns (dir : string)
| CrossSeed (from : string) (maxEntries : Z)
| LoadSkillGuardrails
| VetBaseline (dir : string)
| WriteGeneratedArtefacts
| ApplyParallelMetrics
| RecordProgressMilestone
| MemoryReport
| PushValidatedWork
| WorktreeCompletion
| ClusterCompletion
| ReleaseWorktree
| NoteOwnSave.

(** The answer of a review: blocked, or a verdict to fix. *)
Definition Review : Set := res (bool * option GuardrailVerdict).

Inductive Op : Set → Type :=
(* the store *)
| GetPRD : Op bool                                     (* whether the Automaton is there *)
| Look (w : purpose) : Op PRD
| WithLock (f : PRD → PRD) : Op PRD                    (* the record before the change *)
| CommitIfRev (expectedRev : Z) (observed status blockedReason : string) (now : Time) : Op PRD
| Persist : Op (option error)
(* announcements, the clock, the settings *)
| Publish (n : notice) : Op unit
| Do (s : step) : Op unit
| Now : Op Time
| InfraConfig : Op InfraRetryConfig
| ContinueDefault : Op bool
| PolicyConcurrency : Op (option Z)
| ConcurrencyDefault : Op Z
| SpawnRetries : Op Z
| GateConfig : Op (option QuestionsConfig)
| GetQuestion (id : string) : Op (option (string * string))
(* the context, the wake channel, the tasks' workers *)
| CtxErr : Op (option error)
| Nudged : Op bool
| AwaitAnswer : Op bool
| ExecuteOne (tid : string) (retries : Z) : Op (option error)
| Launch (tid : string) (retries : Z) : Op unit
| Select : Op selected
| Receive : Op (string * option error)
(* the start of a run *)
| AdmitTree : Op (option error)
| PreflightModelBackend : Op (option error)
| WorktreeBaseRepo : Op string
| EnsureWorktree (baseRepo : string) : Op (res (string * string))
| CrossSeedWired : Op bool
| QualityGates : Op (bool * string)                    (* enabled, test command *)
| BaselineRun (cmd dir : string) : Op (bool * string)  (* classified: valid, reason *)
| GateScopeFull : Op bool
(* the checks of a story and of the end *)
| StoryGuardrails (sid : string) : Op Review
| SynthesizeCorrectiveWork (v : GuardrailVerdict) (sid : string) : Op (option error)
| OwnSaves : Op Z
| ProjectRulesCheck : Op (res bool)
| RulesReview : Op Review
| SynthesizeRulesReviewFix (v : GuardrailVerdict) (attempt : Z) : Op (res (option (string * string)))
| ContentBudget : Op Z
| RetryCeiling : Op Z
| ContentAutoFix : Op bool
| CIWatch : Op Review
| WorktreeUncommitted : Op (res bool).

Abbreviation Prog := (Effects.Prog Op).
Abbreviation event := (Effects.event Op).

Definition looked (w : purpose) : Prog PRD := call (Look w).
Definition locked (f : PRD → PRD) : Prog PRD := call (WithLock f).

(** ** The store *)

Definition SavePRD : Prog (option error) := now ← call Now; _ ← locked (stored now); call Persist.
Definition SaveTask (tid : string) : Prog (option error) :=
  now ← call Now; _ ← locked (edit_task (set_t_UpdatedAt now) tid); call Persist.
Definition savePRDOwn : Prog (option error) :=
  err ← SavePRD;
  match err with None => _ ← call (Do NoteOwnSave); Ret None | Some e => Ret (Some e) end.

(** ** Announcements *)

Definition emitTaskStatus (tid old : string) (dec : option Decision) : Prog unit :=
  p ← looked Plain;
  match lookupTask p tid with
  | None => Ret tt
  | Some t =>
      let old := normTaskStatus old in
      let cur := normTaskStatus (t_Status t) in
      if String.eqb old cur then Ret tt else call (Publish (TaskStatusEvent tid old cur dec))
  end.
Definition emitPRDStatus (old : string) (dec : option Decision) (v : option GuardrailVerdict) : Prog unit :=
  p ← looked Plain; call (Publish (PRDStatusEvent old (p_Status p) dec v)).
Definition EmitPRDUpdate : Prog unit := call (Publish PRDUpdate).

Definition when (b : bool) (m : Prog unit) : Prog unit := if b then m else Ret tt.
Definition saved (err : option error) : bool := match err with None => true | Some _ => false end.
Fixpoint each {A} (f : A → Prog unit) (l : list A) : Prog unit :=
  match l with [] => Ret tt | x :: l => _ ← f x; each f l end.

Definition status_of (p : PRD) (tid : string) : string :=
  match lookupTask p tid with Some t => t_Status t | None => "" end.

(** ** Failures *)

Definition infra_reason (dep : string) : Prog (option FailureReason) :=
  cfg ← call InfraConfig;
  now ← call Now;
  p ← looked Plain;
  Ret (match lookupTask p dep with Some d => infraDependentReason cfg now d | None => None end).

(** Save the task and announce it when the save went through. *)
Definition save_and_emit (tid old : string) : Prog unit :=
  err ← SaveTask tid; when (saved err) (emitTaskStatus tid old None).

(** A task whose worker could not run: failed with the error. *)
Definition fail_task (tid : string) (e : error) : Prog unit :=
  p ← locked (edit_task (λ t, set_t_Error (Error e) (set_t_Status TaskFailed t)) tid);
  save_and_emit tid (status_of p tid).

Definition set_reason (r : option FailureReason) (t : Task) : Task :=
  match r with Some r => set_t_FailureReason (Some r) t | None => t end.

Definition recoverInfraDependents : Prog (list string) :=
  cfg ← call InfraConfig;
  if negb (EffectiveRetryDependents cfg) then Ret [] else
  now ← call Now;
  p ← locked (λ p, (recover now p).1.1);
  let '(_, resets, reopened) := recover now p in
  match resets with
  | [] => Ret []
  | _ =>
      _ ← SavePRD;
      p ← looked Plain;
      let dec := lastDecision p infraDependentsRecoveredKind in
      _ ← each (λ r : string * string * string, emitTaskStatus r.1.1 r.1.2 dec) resets;
      _ ← match reopened with Some st => emitPRDStatus st dec None | None => Ret tt end;
      Ret ((λ r : string * string * string, r.1.1) <$> resets)
  end.

(** ** The decision gate *)

(** Whether the gate is enabled, and in mode on; one that is not wired is off. *)
Definition decisionGateSettings : Prog (bool * bool) :=
  cfg ← call GateConfig;
  Ret (match cfg with
       | Some q => (EffectiveDecisionGate q, String.eqb (EffectiveDecisionGateMode q) DecisionGateModeOn)
       | None => (false, false)
       end).

Fixpoint holds_of (ids : list string) : Prog (list DecisionHoldReason) :=
  match ids with
  | [] => Ret []
  | id :: ids =>
      q ← call (GetQuestion id);
      holds ← holds_of ids;
      Ret (match hold_of id q with Some h => h :: holds | None => holds end)
  end.
Definition DecisionHold (spec : string) : Prog (list DecisionHoldReason) := holds_of (DecisionRefs spec).

Definition parked_for (reason : string) (t : Task) : bool :=
  String.eqb (t_Status t) TaskWaitingDecision && String.eqb (t_WaitReason t) reason.
Definition park (reason : string) (t : Task) : Task :=
  if parked_for reason t then t else set_t_WaitReason reason (set_t_Status TaskWaitingDecision t).
Definition decision_alert (p : PRD) (t : Task) (reason : string) : string :=
  let nl := String nl "" in
  sprintf "Automaton: %s (%s)" [p_ID p; p_Title p] +:+ nl +:+ sprintf "Task: %s (%s)" [t_ID t; t_Title t] +:+ nl
  +:+ sprintf "Waiting on: %s" [reason] +:+ nl +:+ "The task starts by itself once the decision is answered.".

Definition holdTaskForDecision (tid : string) (holds : list DecisionHoldReason) : Prog unit :=
  let reason := decisionHoldSentence holds in
  p ← locked (edit_task (park reason) tid);
  match lookupTask p tid with
  | None => Ret tt
  | Some t =>
      if parked_for reason t then Ret tt else
      _ ← SaveTask tid;
      _ ← emitTaskStatus tid (t_Status t) None;
      _ ← EmitPRDUpdate;
      when (negb (String.eqb (t_Status t) TaskWaitingDecision))
        (call (Publish (Alert "warn" "Automaton task waiting for a decision" (decision_alert p t reason))))
  end.

Definition releaseDecisionHold (tid : string) : Prog unit :=
  p ← locked (edit_task (λ t, set_t_WaitReason "" (set_t_Status TaskPending t)) tid);
  _ ← SaveTask tid;
  _ ← emitTaskStatus tid (status_of p tid) None;
  EmitPRDUpdate.

Definition recordDecisionShadow (tid : string) (h : DecisionHoldReason) (holds : list DecisionHoldReason) : Prog unit :=
  found ← call GetPRD;
  if negb found then Ret tt else
  now ← call Now;
  let dec := mkDecision now decisionGateShadowKind "autonomous"
               (sprintf "would hold: %s (task %s)" [decisionHoldSentence holds; tid]) "" (hr_ID h) (hr_State h) in
  p ← locked (λ p, if existsb (same_shadow dec) (p_Decisions p) then p else add_decision dec p);
  if existsb (same_shadow dec) (p_Decisions p) then Ret tt else _ ← SavePRD; Ret tt.

(** Whether the task must not start. *)
Definition decisionGateHold (tid : string) : Prog bool :=
  p ← looked Plain;
  match lookupTask p tid with
  | None => Ret false
  | Some t =>
      let status := normTaskStatus (t_Status t) in
      if negb (existsb (String.eqb status) [TaskPending; TaskQueued; TaskWaitingDecision]) then Ret false else
      '(enabled, modeOn) ← decisionGateSettings;
      holds ← (if enabled : bool then DecisionHold (t_Spec t) else Ret []);
      match holds, modeOn : bool with
      | _ :: _, true => _ ← holdTaskForDecision tid holds; Ret true
      | _, _ =>
          _ ← when (String.eqb status TaskWaitingDecision) (releaseDecisionHold tid);
          _ ← match holds with h :: _ => recordDecisionShadow tid h holds | [] => Ret tt end;
          Ret false
      end
  end.

(** [prdStatusOf], and whether the Automaton is there and running *)
Definition still_running : Prog bool :=
  found ← call GetPRD;
  if negb found then Ret false else p ← looked Plain; Ret (String.eqb (p_Status p) PRDRunning).
Definition decisionWaitPending : Prog bool :=
  p ← looked Plain;
  if negb (any_waiting_decision p) || nonempty (reviewHeldTaskID p) then Ret false else still_running.

(** ** What both walks do *)

(** How a walk ends: [Run] returns, or goes on to the checks after the walk. *)
Inductive walked := Returned (e : option error) | WalkedAll | NoFuel.

Definition resolveContinueOnStoryFailure (p : PRD) : Prog bool :=
  match p_ContinueOnStoryFailure p with Some b => Ret b | None => call ContinueDefault end.

Definition rebuild_order (order : list string) : Prog (list string) :=
  p ← looked ForOrder;
  Ret (match topoSort (flattenTasks p) with Ok o => o | Err _ => order end).

Definition not_begun (s : Story) : bool := negb (nonempty (s_Status s)) || String.eqb (s_Status s) StoryPending.
Definition story_where (P : Story → bool) (p : PRD) (tid : string) : bool :=
  match lookupStoryByTaskID p tid with Some s => P s | None => false end.
Definition begin_story (tid : string) : Prog unit :=
  p ← locked (edit_story (λ s, if not_begun s then set_s_Status StoryInProgress s else s) tid);
  when (story_where not_begun p tid) (_ ← SavePRD; Ret tt).

(** The Automaton held by a verdict, or by a story that failed. *)
Definition block_Automaton (f : PRD → PRD) (v : option GuardrailVerdict) : Prog unit :=
  p ← locked f;
  err ← SavePRD;
  when (saved err) (_ ← emitPRDStatus (p_Status p) None v; EmitPRDUpdate).
Definition blocked_by (status : string) (vs : list GuardrailVerdict) (p : PRD) : PRD :=
  set_p_BlockedReason (blockedReasonFromVerdicts vs) (set_p_Status status p).

(** The story of a task that came to an end: rolled up when all of it has; whether
    that halts the Automaton. *)
Definition roll_up_story (s : Story) : Story := if storyAllTasksDone s then set_s_Status (storyRollupStatus s) s else s.
Definition story_failed (s : Story) : bool := String.eqb (storyRollupStatus s) StoryFailed.
Definition story_rollup (tid : string) : Prog bool :=
  p ← locked (edit_story roll_up_story tid);
  if negb (story_where storyAllTasksDone p tid) then Ret false else
  halt ← (if story_where story_failed p tid then
            keep ← resolveContinueOnStoryFailure p;
            if keep : bool then Ret false else p ← looked Plain; Ret (anyNonTerminalTasksRemain p)
          else Ret false);
  if halt : bool then _ ← block_Automaton (set_p_Status PRDBlocked) None; Ret true
  else _ ← SavePRD; Ret false.

Definition first_in (failed : gset string) (deps : list string) : option string :=
  List.find (λ dep, bool_decide (dep ∈ failed)) deps.
Definition failed_or_cancelled (s : string) : bool := String.eqb s TaskFailed || String.eqb s TaskCancelled.

(** ** One after the other *)

Definition dep_error (dep verb : string) : string := "dependency " +:+ dep +:+ " " +:+ verb.

Definition fail_dependent (tid dep : string) : Prog unit :=
  p ← locked (edit_task (set_t_Status TaskFailed) tid);
  d ← looked Plain;
  let verb := if String.eqb (status_of d dep) TaskCancelled then "was cancelled" else "failed" in
  reason ← infra_reason dep;
  _ ← locked (edit_task (λ t, set_reason reason (set_t_Error (dep_error dep verb) t)) tid);
  _ ← save_and_emit tid (status_of p tid);
  call (Do (ReleaseCapacity tid)).

Definition run_task (tid : string) (retries : Z) : Prog unit :=
  _ ← begin_story tid;
  err ← call (ExecuteOne tid retries);
  match err with None => Ret tt | Some e => _ ← call (Do (ReleaseCapacity tid)); fail_task tid e end.

(** What is behind the walk: the tasks that failed, and those held or behind one. *)
Record tally := mkTally { ta_failed : gset string; ta_held : gset string }.
Definition add_failed (tid : string) (w : tally) : tally := mkTally ({[tid]} ∪ ta_failed w) (ta_held w).
Definition add_held (tid : string) (w : tally) : tally := mkTally (ta_failed w) ({[tid]} ∪ ta_held w).
Definition no_tally : tally := mkTally ∅ ∅.

(** A turn of the walk: the walk goes on, or [Run] returns. *)
Inductive turn := GoOn (w : tally) | Halt.

(** After a task was run, or failed behind a dependency: what it came to. *)
Definition after_task (tid : string) (w : tally) : Prog turn :=
  found ← call GetPRD;
  if negb found then Ret (GoOn w) else
  p ← looked (Outcome tid);
  let st := status_of p tid in
  let w := if String.eqb st TaskFailed then add_failed tid w else w in
  let w := if String.eqb st TaskReviewNeeded then add_held tid w else w in
  if String.eqb st TaskBlocked then
    let vs := match lookupTask p tid with Some t => t_Verdicts t | None => [] end in
    _ ← block_Automaton (blocked_by (judgeHoldOrBlocked (lastBlockVerdict vs)) vs) (lastBlockVerdict vs);
    Ret Halt
  else
    halt ← story_rollup tid;
    Ret (if halt : bool then Halt else GoOn w).

Definition seq_turn (tid : string) (retries : Z) (w : tally) : Prog turn :=
  p ← looked (Turn tid);
  match lookupTask p tid with
  | None => Ret (GoOn w)
  | Some t =>
      if isTaskTerminal (t_Status t) then Ret (GoOn (if failed_or_cancelled (t_Status t) then add_failed tid w else w))
      else if on_review t || waitsOnReview p t (ta_held w) then Ret (GoOn (add_held tid w))
      else match first_in (ta_failed w) (t_DependsOn t) with
           | Some dep => _ ← fail_dependent tid dep; after_task tid (add_failed tid w)
           | None =>
               held ← decisionGateHold tid;
               if held : bool then Ret (GoOn (add_held tid w))
               else _ ← run_task tid retries; after_task tid w
           end
  end.

(** A walk down the rest of the order: it ends, or starts again from the top after
    a decision of the operator. *)
Inductive passed := Again | Over (w : walked).

(** Past the last task: wait for the answer some task is parked on. *)
Definition end_of_order : Prog passed :=
  waiting ← decisionWaitPending;
  if negb waiting then Ret (Over WalkedAll) else
  answered ← call AwaitAnswer;
  if answered : bool then
    running ← still_running; Ret (if running : bool then Again else Over (Returned None))
  else
    err ← call CtxErr; Ret (Over (match err with Some e => Returned (Some e) | None => WalkedAll end)).

Fixpoint seq_pass (retries : Z) (rest : list string) (w : tally) : Prog passed :=
  err ← call CtxErr;
  match err with
  | Some e => Ret (Over (Returned (Some e)))
  | None =>
      nudged ← call Nudged;
      if nudged : bool then Ret Again else
      match rest with
      | [] => end_of_order
      | tid :: rest =>
          r ← seq_turn tid retries w;
          match r with GoOn w => seq_pass retries rest w | Halt => Ret (Over (Returned None)) end
      end
  end.

(** [fuel] bounds the decisions of the operator that start the walk again. *)
Fixpoint seq_walk (retries : Z) (fuel : nat) (order : list string) : Prog walked :=
  r ← seq_pass retries order no_tally;
  match r with
  | Over w => Ret w
  | Again =>
      match fuel with
      | O => Ret NoFuel
      | S fuel =>
          _ ← call GetPRD;
          _ ← recoverInfraDependents;
          order ← rebuild_order order;
          seq_walk retries fuel order
      end
  end.

(** ** Several at once, under a coordinator *)

Record coord := mkCoord {
  c_order : list string;
  c_completed : gset string;
  c_failed : gset string;
  c_held : gset string;
  c_inFlight : gset string;
  c_remaining : Z
}.

Definition set_c_order (x : list string) (c : coord) : coord :=
  mkCoord x (c_completed c) (c_failed c) (c_held c) (c_inFlight c) (c_remaining c).
Definition set_c_completed (x : gset string) (c : coord) : coord :=
  mkCoord (c_order c) x (c_failed c) (c_held c) (c_inFlight c) (c_remaining c).
Definition set_c_failed (x : gset string) (c : coord) : coord :=
  mkCoord (c_order c) (c_completed c) x (c_held c) (c_inFlight c) (c_remaining c).
Definition set_c_held (x : gset string) (c : coord) : coord :=
  mkCoord (c_order c) (c_completed c) (c_failed c) x (c_inFlight c) (c_remaining c).
Definition set_c_inFlight (x : gset string) (c : coord) : coord :=
  mkCoord (c_order c) (c_completed c) (c_failed c) (c_held c) x (c_remaining c).
Definition set_c_remaining (x : Z) (c : coord) : coord :=
  mkCoord (c_order c) (c_completed c) (c_failed c) (c_held c) (c_inFlight c) x.

Definition c_complete (tid : string) (c : coord) : coord := set_c_completed ({[tid]} ∪ c_completed c) c.
Definition c_fail (tid : string) (c : coord) : coord := set_c_failed ({[tid]} ∪ c_failed c) c.
Definition c_hold (tid : string) (c : coord) : coord := set_c_held ({[tid]} ∪ c_held c) c.
Definition c_owe (n : Z) (c : coord) : coord := set_c_remaining (c_remaining c + n) c.
Definition inb (tid : string) (s : gset string) : bool := bool_decide (tid ∈ s).

(** Tasks that are over before the pass starts. *)
Fixpoint seed (order : list string) (c : coord) : Prog coord :=
  match order with
  | [] => Ret c
  | tid :: order =>
      p ← looked (Turn tid);
      match lookupTask p tid with
      | Some t =>
          if isTaskTerminal (t_Status t) then
            let c := c_complete tid c in
            let c := if failed_or_cancelled (t_Status t) then c_fail tid c else c in
            seed order (c_owe (-1) c)
          else seed order c
      | None => seed order c
      end
  end.

Definition isReady (c : coord) (p : PRD) (tid : string) : bool :=
  match lookupTask p tid with
  | Some t =>
      negb (inb tid (c_completed c)) && negb (inb tid (c_inFlight c)) && negb (inb tid (c_held c))
      && forallb (λ dep, inb dep (c_completed c)) (t_DependsOn t)
  | None => false
  end.

Definition fail_behind (tid dep old : string) : Prog unit :=
  reason ← infra_reason dep;
  _ ← locked (edit_task (λ t, set_reason reason (set_t_Error (dep_error dep "failed") (set_t_Status TaskFailed t))) tid);
  _ ← save_and_emit tid old;
  call (Do (ReleaseCapacity tid)).

Fixpoint fail_deps (order : list string) (c : coord) : Prog coord :=
  match order with
  | [] => Ret c
  | tid :: order =>
      if inb tid (c_completed c) || inb tid (c_inFlight c) then fail_deps order c else
      p ← looked Plain;
      match (t ← lookupTask p tid; dep ← first_in (c_failed c) (t_DependsOn t); Some (t_Status t, dep)) with
      | None => fail_deps order c
      | Some (old, dep) =>
          _ ← fail_behind tid dep old;
          fail_deps order (c_owe (-1) (c_complete tid (c_fail tid c)))
      end
  end.
Definition autoFailDeps (c : coord) : Prog coord := fail_deps (c_order c) c.

Fixpoint launch_from (concurrency retries : Z) (order : list string) (c : coord) : Prog coord :=
  match order with
  | [] => Ret c
  | tid :: order =>
      if concurrency <=? Z.of_nat (size (c_inFlight c)) then Ret c else
      if inb tid (c_completed c) || inb tid (c_inFlight c) then launch_from concurrency retries order c else
      p ← looked (Turn tid);
      if negb (isReady c p tid) then launch_from concurrency retries order c else
      held ← decisionGateHold tid;
      if held : bool then launch_from concurrency retries order c else
      _ ← begin_story tid;
      _ ← call (Launch tid retries);
      launch_from concurrency retries order (set_c_inFlight ({[tid]} ∪ c_inFlight c) c)
  end.
Definition launch (concurrency retries : Z) (c : coord) : Prog coord := launch_from concurrency retries (c_order c) c.

(** [reviewDecisions]: a task of the order as it stands now, and the count of what
    still owes a result. *)
Definition review_task (tid : string) (p : PRD) (c : coord) : coord :=
  match lookupTask p tid with
  | None => c
  | Some t =>
      if String.eqb (t_Status t) TaskReviewNeeded then c
      else if isTaskTerminal (t_Status t) then
        let c := c_complete tid (set_c_held (c_held c ∖ {[tid]}) c) in
        if failed_or_cancelled (t_Status t) then c_fail tid c else set_c_failed (c_failed c ∖ {[tid]}) c
      else if String.eqb (normTaskStatus (t_Status t)) TaskPending then
        set_c_failed (c_failed c ∖ {[tid]}) (set_c_completed (c_completed c ∖ {[tid]}) (set_c_held (c_held c ∖ {[tid]}) c))
      else c
  end.
Fixpoint review_tasks (order : list string) (c : coord) : Prog coord :=
  match order with
  | [] => Ret c
  | tid :: order =>
      if inb tid (c_inFlight c) then review_tasks order c else
      p ← looked (Turn tid);
      review_tasks order (review_task tid p c)
  end.
Definition owes (c : coord) (tid : string) : bool :=
  negb (inb tid (c_completed c)) && negb (inb tid (c_held c)) && negb (inb tid (c_inFlight c)).
Definition recount (c : coord) : coord :=
  set_c_remaining (Z.of_nat (size (c_inFlight c) + length (List.filter (owes c) (c_order c)))) c.

Definition reviewDecisions (concurrency retries : Z) (c : coord) : Prog coord :=
  found ← call GetPRD;
  if negb found then Ret c else
  p ← looked Plain;
  if String.eqb (p_Status p) PRDPaused then Ret c else
  _ ← recoverInfraDependents;
  order ← rebuild_order (c_order c);
  c ← review_tasks order (set_c_order order c);
  c ← autoFailDeps (recount c);
  launch concurrency retries c.

(** A result read after the walk decided to stop. *)
Definition finalizeDrained (r : string * option error) : Prog unit :=
  match r.2 with
  | None => Ret tt
  | Some e =>
      p ← looked Plain;
      match lookupTask p r.1 with
      | Some t => if isTaskTerminal (t_Status t) then Ret tt else _ ← fail_task r.1 e; call (Do (ReleaseCapacity r.1))
      | None => Ret tt
      end
  end.
(** [for len(inFlight) > 0]: [fuel] bounds the results received. *)
Fixpoint drain (fuel : nat) (finalize : string * option error → Prog unit) (inFlight : gset string) (w : walked) : Prog walked :=
  if bool_decide (inFlight = ∅) then Ret w else
  match fuel with
  | O => Ret NoFuel
  | S fuel =>
      r ← call Receive;
      _ ← finalize r;
      drain fuel finalize (inFlight ∖ {[r.1]}) w
  end.
Definition drained (finalize : string * option error → Prog unit) (c : coord) (w : walked) : Prog walked :=
  drain (size (c_inFlight c)) finalize (c_inFlight c) w.

(** A worker came back: the walk goes on, or stops once the others came back too. *)
Inductive came_back := GoesOn (c : coord) | Stops (c : coord).

Definition finished (tid : string) (err : option error) (c : coord) : Prog came_back :=
  let c := c_owe (-1) (set_c_inFlight (c_inFlight c ∖ {[tid]}) c) in
  c ← match err with
      | None => Ret c
      | Some e =>
          p ← looked Plain;
          _ ← match lookupTask p tid with Some _ => _ ← call (Do (ReleaseCapacity tid)); fail_task tid e | None => Ret tt end;
          Ret (c_fail tid c)
      end;
  found ← call GetPRD;
  if negb found then Ret (GoesOn (c_complete tid c)) else
  p ← looked (Outcome tid);
  let c := if taskHeldIn p tid then c_hold tid c else c_complete tid c in
  if String.eqb (p_Status p) PRDPaused then Ret (Stops c) else
  let st := status_of p tid in
  let c := if String.eqb st TaskFailed then c_fail tid c else c in
  if String.eqb st TaskBlocked then
    let vs := match lookupTask p tid with Some t => t_Verdicts t | None => [] end in
    _ ← block_Automaton (blocked_by PRDBlocked vs) (lastBlockVerdict vs);
    Ret (Stops c)
  else
    halt ← story_rollup tid;
    Ret (if halt : bool then Stops c else GoesOn c).

(** Nothing runs: a decision that came in, or the answer some task is parked on. *)
Inductive idle := ReviewNow | Leave (w : walked).
Definition when_idle : Prog idle :=
  nudged ← call Nudged;
  if nudged : bool then Ret ReviewNow else
  waiting ← decisionWaitPending;
  if negb waiting then Ret (Leave WalkedAll) else
  answered ← call AwaitAnswer;
  if answered : bool then
    running ← still_running; Ret (if running : bool then ReviewNow else Leave (Returned None))
  else
    err ← call CtxErr; Ret (Leave (match err with Some e => Returned (Some e) | None => WalkedAll end)).

(** [fuel] bounds the results, wake-ups and answers that come in. *)
Fixpoint conc_loop (concurrency retries : Z) (fuel : nat) (c : coord) : Prog walked :=
  if c_remaining c <=? 0 then Ret WalkedAll else
  match fuel with
  | O => Ret NoFuel
  | S fuel =>
      ids ← recoverInfraDependents;
      c ← match ids with [] => Ret c | _ => reviewDecisions concurrency retries c end;
      if bool_decide (c_inFlight c = ∅) then
        i ← when_idle;
        match i with
        | ReviewNow => c ← reviewDecisions concurrency retries c; conc_loop concurrency retries fuel c
        | Leave w => Ret w
        end
      else
        s ← call Select;
        match s with
        | CtxDone e => drained (λ _, Ret tt) c (Returned (Some e))
        | Woken => c ← reviewDecisions concurrency retries c; conc_loop concurrency retries fuel c
        | Finished tid err =>
            r ← finished tid err c;
            match r with
            | Stops c => drained finalizeDrained c (Returned None)
            | GoesOn c =>
                c ← autoFailDeps c;
                c ← launch concurrency retries c;
                conc_loop concurrency retries fuel c
            end
        end
  end.

Definition conc_walk (concurrency retries : Z) (fuel : nat) (order : list string) : Prog walked :=
  c ← seed order (mkCoord order ∅ ∅ ∅ ∅ (Z.of_nat (length order)));
  c ← autoFailDeps c;
  c ← launch concurrency retries c;
  conc_loop concurrency retries fuel c.
