(* ===== verification/ExecutorRun.v ===== *)
(** * The executor of Automata: one run

    [Manager.Run] (autonomous/executor.go) around the walk: what is checked and set
    up before the first task, the guardrails of finished stories, the roll-up of the
    Automaton with its completion checks, each of which may send the run round
    again with corrective work, and the commit of the outcome, which goes through
    only if nobody else wrote the record meanwhile. *)

From S2P Require Import Prelude Effects GoBase GoText GoFmt TopoSort Executor ExecutorWalk.

#[local] Open Scope Z_scope.

(** ** Before the walk *)

Definition is_runnable (status : string) : bool := existsb (String.eqb status) [PRDApproved; PRDActive; PRDRunning].

(** The rest of a run goes on, or the run returns. *)
Definition refuse_if (err : option error) : res unit := match err with Some e => Err e | None => Ok tt end.

(** [slugify], [branchNameFor] *)
Definition alnum_byte (a : Ascii.ascii) : bool :=
  let n := Ascii.nat_of_ascii a in (48 <=? n)%nat && (n <=? 57)%nat || (97 <=? n)%nat && (n <=? 122)%nat.
Definition dash : Ascii.ascii := Ascii.ascii_of_nat 45.
Fixpoint dashed (in_run : bool) (s : string) : string :=
  match s with
  | EmptyString => ""
  | String a s =>
      if alnum_byte a then String a (dashed false s)
      else if in_run then dashed true s else String dash (dashed true s)
  end.
Fixpoint trim_right_dashes (s : string) : string :=
  match s with
  | EmptyString => ""
  | String a s =>
      match trim_right_dashes s with
      | EmptyString => if Ascii.eqb a dash then "" else String a ""
      | s => String a s
      end
  end.
Definition slugify (s : string) : string := trim_right_dashes (TrimLeft dash (dashed false (ToLower s))).
Definition branchNameFor (p : PRD) : string :=
  let slug := slugify (p_Title p) in
  let name := "automaton/" +:+ p_ID p +:+ (if nonempty slug then "-" +:+ slug else "") in
  trim_right_dashes (if (60 <? String.length name)%nat then String.substring 0 60 name else name).

Definition ensureWorktreeIfConfigured : Prog (res bool) :=
  p ← looked Plain;
  if nonempty (p_ProjectDir p) || nonempty (p_ProjectProfile p) || nonempty (p_ClusterProfile p) then Ret (Ok false) else
  baseRepo ← call WorktreeBaseRepo;
  if negb (nonempty baseRepo) then Ret (Ok false) else
  r ← call (EnsureWorktree baseRepo);
  match r with
  | Err e => Ret (Err (Errorf "worktree setup: %w" [wrapped e]))
  | Ok (path, branch) => _ ← locked (λ p, set_p_Branch branch (set_p_ProjectDir path p)); Ret (Ok true)
  end.

Definition ResolveTaskProjectDir (p : PRD) (t : Task) : string :=
  if nonempty (t_ProjectDir t) then Clean (t_ProjectDir t)
  else if nonempty (t_WorktreePath t) then Clean (t_WorktreePath t)
  else p_ProjectDir p.
(** Every directory work happens in, once. *)
Definition scratch_dirs (p : PRD) : list string :=
  foldl (λ dirs t, let dir := ResolveTaskProjectDir p t in
                   if negb (nonempty dir) || existsb (String.eqb dir) dirs then dirs else dirs ++ [dir])
    [p_ProjectDir p] (all_tasks p).
Definition ensure_ignored : Prog unit :=
  p ← looked Plain;
  when (nonempty (p_ProjectDir p)) (each (λ dir, call (Do (EnsureIgnoredPatterns dir))) (scratch_dirs p)).

Definition record_decision (kind note category : string) : Prog unit :=
  now ← call Now;
  _ ← locked (add_decision (mkDecision now kind "autonomous" note category "" ""));
  Ret tt.

(** [emitPRDStatus] with the last decision of a kind *)
Definition emit_with (kind old : string) (v : option GuardrailVerdict) : Prog unit :=
  p ← looked Plain; emitPRDStatus old (lastDecision p kind) v.

Definition cross_seed : Prog unit :=
  p ← looked Plain;
  let seed := p_MemorySeed p in
  match ms_FromPRDs seed with
  | [] => Ret tt
  | from =>
      if negb (ms_Enabled seed) then Ret tt else
      wired ← call CrossSeedWired;
      let maxEntries := if ms_MaxPerScope seed <=? 0 then 20 else ms_MaxPerScope seed in
      when wired (each (λ id, call (Do (CrossSeed id maxEntries))) from)
  end.

Definition markGateInvalid (reason : string) : Prog unit :=
  now ← call Now;
  _ ← locked (λ p, set_p_UpdatedAt now (set_p_Decisions
         (trimDecisions (p_Decisions p ++ [mkDecision now "quality_gate_invalid" "autonomous" reason "" "" ""]))
         (set_p_QualityGateInvalidReason reason (set_p_QualityGateStatus "invalid" p))));
  _ ← SavePRD;
  Ret tt.
Definition gate_baseline : Prog unit :=
  '(enabled, cmd) ← call QualityGates;
  p ← looked Plain;
  if negb (enabled && nonempty cmd && nonempty (p_ProjectDir p)) then Ret tt else
  '(valid, reason) ← call (BaselineRun cmd (p_ProjectDir p));
  _ ← when (negb valid) (markGateInvalid reason);
  full ← call GateScopeFull;
  when (negb full) (call (Do (VetBaseline (p_ProjectDir p)))).

Definition resolveTaskConcurrency : Prog Z :=
  p ← looked Plain;
  if 0 <? p_MaxConcurrentTasks p then Ret (p_MaxConcurrentTasks p) else
  v ← call PolicyConcurrency;
  match v with
  | Some v => if 0 <? v then Ret v else call ConcurrencyDefault
  | None => call ConcurrencyDefault
  end.

(** The tests a run has to pass to begin, and the move to running: whether it is
    the first, and the status it had. *)
Definition admission (prdID : string) : Prog (res (bool * string)) :=
  found ← call GetPRD;
  if negb found then Ret (Err (Errorf "prd %q not found" [AStr prdID])) else
  p ← looked Plain;
  if p_IsTemplate p then Ret (Err (Errorf "prd %q is a template; instantiate it first" [AStr prdID])) else
  if bool_decide (length (p_Story p) = 0%nat) then Ret (Err (Errorf "prd %q has no stories — call Decompose first" [AStr prdID])) else
  if negb (is_runnable (p_Status p)) then
    Ret (Err (Errorf "prd %q status %q is not runnable; call /approve first" [AStr prdID; AStr (p_Status p)])) else
  _ ←? (err ← call AdmitTree; Ret (refuse_if err));
  _ ←? (err ← call PreflightModelBackend; Ret (refuse_if err));
  p ← locked (set_p_Status PRDRunning);
  Ret (Ok (String.eqb (p_Status p) PRDApproved || String.eqb (p_Status p) PRDActive, p_Status p)).

(** Up to the walk: the order, the retries of a task and how many run at once. *)
Definition prepare (prdID : string) : Prog (res (list string * Z * Z)) :=
  admitted ←? admission prdID;
  let '(isFirstRun, runOld) := admitted in
  _ ←? (r ← ensureWorktreeIfConfigured;
        Ret (match r with Err e => Err (Errorf "prd %q worktree setup: %w" [AStr prdID; wrapped e]) | Ok _ => Ok tt end));
  p ← looked Plain;
  _ ← (if nonempty (p_ClusterProfile p) && negb (nonempty (p_Branch p))
       then _ ← locked (set_p_Branch (branchNameFor p)); Ret tt else Ret tt);
  _ ← when isFirstRun ensure_ignored;
  _ ← record_decision "run" "" "";
  _ ←? (err ← SavePRD; Ret (refuse_if err));
  _ ← emit_with "run" runOld None;
  _ ← when isFirstRun cross_seed;
  _ ← call (Do LoadSkillGuardrails);
  _ ← recoverInfraDependents;
  p ← looked ForOrder;
  order ←? Ret (topoSort (flattenTasks p));
  retries ← call SpawnRetries;
  _ ← gate_baseline;
  concurrency ← resolveTaskConcurrency;
  Ret (Ok (order, Z.max 0 retries, concurrency)).

Definition walk (fuel : nat) (order : list string) (retries concurrency : Z) : Prog walked :=
  if concurrency <=? 1 then seq_walk retries fuel order else conc_walk concurrency retries fuel order.

(** ** After the walk: the stories *)

(** How a part of the run leaves it: it returns, it goes round again, or it goes on. *)
Inductive leave := Stop (e : option error) | Rerun | Proceed.

Definition corrective_work (v : GuardrailVerdict) (sid : string) : Prog leave :=
  err ← call (SynthesizeCorrectiveWork v sid);
  match err with Some e => Ret (Stop (Some e)) | None => _ ← SavePRD; Ret Rerun end.

Definition story_check (i : nat) : Prog leave :=
  p ← looked Plain;
  match p_Story p !! i with
  | None => Ret Proceed
  | Some s =>
      if negb (storyAllTasksDone s) then Ret Proceed else
      r ← call (StoryGuardrails (s_ID s));
      match r with
      | Err e => Ret (Stop (Some e))
      | Ok (true, _) =>
          p ← looked Plain;
          let vs := match p_Story p !! i with Some s => s_Verdicts s | None => [] end in
          _ ← block_Automaton (blocked_by (judgeHoldOrBlocked (lastBlockVerdict vs)) vs) (lastBlockVerdict vs);
          Ret (Stop None)
      | Ok (false, Some v) => corrective_work v (s_ID s)
      | Ok (false, None) => Ret Proceed
      end
  end.
Fixpoint story_checks (ks : list nat) : Prog leave :=
  match ks with
  | [] => Ret Proceed
  | i :: ks => l ← story_check i; match l with Proceed => story_checks ks | l => Ret l end
  end.

Definition blockForTaskReview (tid : string) : Prog unit :=
  block_Automaton (λ p, set_p_BlockedReason ("task " +:+ tid +:+ " needs operator review") (set_p_Status PRDBlocked p)) None.
Definition review_hold : Prog leave :=
  p ← looked Plain;
  let held := reviewHeldTaskID p in
  if nonempty held then _ ← blockForTaskReview held; Ret (Stop None) else Ret Proceed.

(** ** The roll-up: committing an outcome *)

(** What the pass observed before its checks. *)
Record observed := mkObserved { ob_Status : string; ob_baseRev : Z; ob_baseOwn : Z }.

Definition read_base : Prog (Z * Z) :=
  found ← call GetPRD;
  p ← looked Plain;
  own ← call OwnSaves;
  Ret (if found : bool then p_Rev p else 0, own).
Definition expectedRev (o : observed) : Prog Z := own ← call OwnSaves; Ret (ob_baseRev o + own - ob_baseOwn o).
Definition stillRunning (o : observed) : Prog bool :=
  found ← call GetPRD;
  p ← looked Plain;
  Ret ((found : bool) && String.eqb (p_Status p) (ob_Status o) && prdAllTasksTerminal p).

Definition recordRollupAborted (note : string) : Prog unit :=
  found ← call GetPRD;
  if negb found then Ret tt else
  _ ← record_decision "rollup_aborted_stale" note "";
  _ ← SavePRD;
  Ret tt.

Definition rollup_mutate (observed status blockedReason : string) (p : PRD) : option PRD :=
  if negb (String.eqb (p_Status p) observed) || negb (prdAllTasksTerminal p) then None
  else Some (set_p_BlockedReason blockedReason (set_p_Status status p)).

Definition committed (expectedRev : Z) (observed status blockedReason : string) (now : Time) : PRD → option PRD :=
  commit_if_rev now expectedRev (rollup_mutate observed status blockedReason).

(** The status before, when the outcome was committed. *)
Definition commitRollupStatus (o : observed) (status reason blockedReason : string) : Prog (option string) :=
  expected ← expectedRev o;
  found ← call GetPRD;
  if negb found then Ret None else
  now ← call Now;
  p ← call (CommitIfRev expected (ob_Status o) status blockedReason now);
  match committed expected (ob_Status o) status blockedReason now p with
  | None => _ ← recordRollupAborted (sprintf "%s -> %s" [reason; status]); Ret None
  | Some _ => err ← call Persist; Ret (if saved err then Some (p_Status p) else None)
  end.

(** Commit, announce when it went through, and return. *)
Definition commit_and_stop (o : observed) (status reason blockedReason : string) (announce : string → Prog unit) : Prog leave :=
  old ← commitRollupStatus o status reason blockedReason;
  _ ← match old with Some old => announce old | None => Ret tt end;
  Ret (Stop None).

(** ** The completion checks *)

Definition RulesReviewActionFixTaskCreated : string := "fix_task_created".
Definition RulesReviewActionFixTaskFailed : string := "fix_task_failed".
Definition RulesReviewActionRetriesSpent : string := "retries_spent".
Definition RulesReviewActionAutoFixDisabled : string := "auto_fix_disabled".

Definition judgeCouldNotStart (v : GuardrailVerdict) : bool :=
  String.eqb (gv_Outcome v) "block" && String.eqb (gv_Category v) "infra"
  && match ClassifyInfraText (Join (gv_Summary v :: gv_RawJudge v :: gv_Issues v) (String nl "")) with
     | Some class => String.eqb class InfraClassJudgeCouldNotStart
     | None => false
     end.
Definition judgeOutcomeKind (v : GuardrailVerdict) : string :=
  if judgeCouldNotStart v then "judge_could_not_start"
  else if IsJudgeTimeoutHold v then "judge_timed_out"
  else if String.eqb (gv_Outcome v) "block" && negb (String.eqb (gv_Category v) "infra")
          && negb (String.eqb (gv_Category v) "invalid-response") then "judge_found_problem"
  else "".
Definition newRulesReviewOutcome (v : GuardrailVerdict) (action reason : string) (attempt budget spent : Z) (at_ : Time) : RulesReviewOutcome :=
  mkOutcome action
    (match gv_Issues v with [] => if nonempty (gv_Summary v) then [gv_Summary v] else [] | issues => issues end)
    (gv_Summary v) attempt budget spent reason (judgeOutcomeKind v) at_.

Definition no_verdict : GuardrailVerdict := mkVerdict "" "" "" [] "" "" "" "".
Definition content_spent (p : PRD) : Z := default 0 (p_RetryCountsByCategory p !! "content").

Definition holdRulesReviewForOperator (v : GuardrailVerdict) : Prog unit :=
  p ← looked Plain;
  let spent := content_spent p in
  budget ← call ContentBudget;
  fix_on ← call ContentAutoFix;
  '(kind, action, note) ←
    (if negb fix_on then
       Ret ("rules_review_auto_fix_disabled", RulesReviewActionAutoFixDisabled,
            sprintf "content auto-fix is disabled; content retries spent %d of %d" [fmt_d spent; fmt_d budget])
     else
       let note := sprintf "content retries spent %d of %d" [fmt_d spent; fmt_d budget] in
       if spent <? budget then
         ceiling ← call RetryCeiling;
         let total := map_fold (λ _ n acc, n + acc) 0 (p_RetryCountsByCategory p) in
         Ret ("rules_review_retries_spent", RulesReviewActionRetriesSpent,
              note +:+ sprintf "; total retry ceiling reached (%d of %d)" [fmt_d total; fmt_d ceiling])
       else Ret ("rules_review_retries_spent", RulesReviewActionRetriesSpent, note));
  at_ ← call Now;
  now ← call Now;
  _ ← locked (λ p, set_p_RulesReviewOutcome (Some (newRulesReviewOutcome v action note spent budget spent at_))
                     (add_decision (mkDecision now kind "autonomous" note "content" "" "") p));
  _ ← savePRDOwn;
  Ret tt.

(** The rules review blocked. *)
Definition review_blocked (o : observed) : Prog leave :=
  p ← looked Plain;
  let bv := default no_verdict (lastBlockVerdict (p_Verdicts p)) in
  let announce old := (p ← looked Plain; emitPRDStatus old None (lastBlockVerdict (p_Verdicts p))) in
  if negb (nonempty (gv_Category bv)) then
    _ ← holdRulesReviewForOperator bv;
    p ← looked Plain;
    commit_and_stop o PRDNeedsReview "rules_review_retries_spent" (blockedReasonFromVerdicts (p_Verdicts p)) announce
  else
    let '(status, reason) := rulesReviewBlockStatus p in
    commit_and_stop o status reason (blockedReasonFromVerdicts (p_Verdicts p)) announce.

Definition consume_content : Prog (option error) :=
  _ ← locked (λ p, set_p_RetryCountsByCategory (<["content" := content_spent p + 1]> (p_RetryCountsByCategory p)) p);
  savePRDOwn.

Definition fix_failed (o : observed) (v : GuardrailVerdict) (attempt : Z) (serr : error) : Prog leave :=
  still ← stillRunning o;
  if negb still then _ ← recordRollupAborted "corrective_work(rules_review)"; Ret (Stop None) else
  p ← looked Plain;
  let spent := content_spent p in
  budget ← call ContentBudget;
  at_ ← call Now;
  now ← call Now;
  _ ← locked (λ p, set_p_RulesReviewOutcome
                     (Some (newRulesReviewOutcome v RulesReviewActionFixTaskFailed (Error serr) attempt budget spent at_))
                     (add_decision (mkDecision now "rules_review_fix_failed" "autonomous"
                        (sprintf "corrective task could not be created: %s" [Error serr]) "content" "" "") p));
  _ ← savePRDOwn;
  '(baseRev, baseOwn) ← read_base;
  p ← looked Plain;
  commit_and_stop (mkObserved (ob_Status o) baseRev baseOwn) PRDNeedsReview "rules_review_fix_failed"
    (blockedReasonFromVerdicts (p_Verdicts p))
    (λ old, p ← looked Plain; emit_with "rules_review_fix_failed" old (lastBlockVerdict (p_Verdicts p))).

(** The corrective story exists: it runs, or it waits for its approval. *)
Definition fix_created (v : GuardrailVerdict) (story : option (string * string)) : Prog leave :=
  err ← consume_content;
  match err with
  | Some e => Ret (Stop (Some e))
  | None =>
      p ← looked Plain;
      let spent := content_spent p in
      _ ← record_decision "auto_retry" (sprintf "unit=%s category=%s attempt=%d" [p_ID p; "content"; fmt_d spent]) "content";
      budget ← call ContentBudget;
      at_ ← call Now;
      _ ← locked (set_p_RulesReviewOutcome (Some (newRulesReviewOutcome v RulesReviewActionFixTaskCreated "" spent budget spent at_)));
      match story with
      | Some (sid, status) =>
          if String.eqb status StoryAwaitingApproval then
            now ← call Now;
            p ← locked (λ p, set_p_BlockedReason (blockedReasonFromVerdicts (p_Verdicts p)) (set_p_Status PRDNeedsReview
                         (add_decision (mkDecision now "rules_review_fix_awaiting_approval" "autonomous"
                            (sprintf "corrective story %s waits for approval before it runs" [sid]) "content" "" "") p)));
            err ← SavePRD;
            match err with
            | Some e => Ret (Stop (Some e))
            | None =>
                q ← looked Plain;
                _ ← emit_with "rules_review_fix_awaiting_approval" (p_Status p) (lastBlockVerdict (p_Verdicts q));
                Ret (Stop None)
            end
          else _ ← savePRDOwn; Ret Rerun
      | None => _ ← savePRDOwn; Ret Rerun
      end
  end.

Definition review_fix (o : observed) (v : GuardrailVerdict) : Prog leave :=
  still ← stillRunning o;
  if negb still then _ ← recordRollupAborted "corrective_work(rules_review)"; Ret (Stop None) else
  p ← looked Plain;
  let attempt := content_spent p + 1 in
  r ← call (SynthesizeRulesReviewFix v attempt);
  match r with Err serr => fix_failed o v attempt serr | Ok story => fix_created v story end.

Definition clear_outcome : Prog unit :=
  p ← looked Plain;
  match p_RulesReviewOutcome p with
  | Some _ => _ ← locked (set_p_RulesReviewOutcome None); _ ← savePRDOwn; Ret tt
  | None => Ret tt
  end.

Definition rules_check (o : observed) : Prog leave :=
  r ← call ProjectRulesCheck;
  match r with
  | Err e => Ret (Stop (Some e))
  | Ok true => commit_and_stop o PRDBlocked "project_rules_block" "" (λ old, emit_with "project_rules_block" old None)
  | Ok false => Ret Proceed
  end.
Definition rules_review (o : observed) : Prog leave :=
  r ← call RulesReview;
  match r with
  | Err e => Ret (Stop (Some e))
  | Ok (true, _) => review_blocked o
  | Ok (false, Some v) => review_fix o v
  | Ok (false, None) => _ ← clear_outcome; Ret Proceed
  end.
Definition ci_watch (o : observed) : Prog leave :=
  r ← call CIWatch;
  match r with
  | Err e => Ret (Stop (Some e))
  | Ok (true, _) =>
      p ← looked Plain;
      commit_and_stop o PRDBlocked "ci_watch_block" (blockedReasonFromVerdicts (p_Verdicts p))
        (λ old, p ← looked Plain; emitPRDStatus old None (lastBlockVerdict (p_Verdicts p)))
  | Ok (false, Some v) =>
      still ← stillRunning o;
      if negb still then _ ← recordRollupAborted "corrective_work(ci_watch)"; Ret (Stop None) else corrective_work v ""
  | Ok (false, None) => Ret Proceed
  end.
Definition uncommittedQuestionFiles : nat := 20.
Definition boundedFileList (paths : list string) (limit : nat) : string :=
  if (length paths <=? limit)%nat then Join paths ", "
  else sprintf "%s and %d more" [Join (take limit paths) ", "; fmt_d (Z.of_nat (length paths) - Z.of_nat limit)].
Definition uncommittedRollupBlockedReason (p : PRD) : string :=
  match p_UncommittedWork p with
  | Some hold =>
      if bool_decide (uw_Files hold = []) then
        "Files are still uncommitted in the worktree. Commit or discard them, then run the Automaton again."
      else sprintf "%s: %s. Commit or discard them, then run the Automaton again."
             [uw_Reason hold; boundedFileList (uw_Files hold) uncommittedQuestionFiles]
  | None => "Files are still uncommitted in the worktree. Commit or discard them, then run the Automaton again."
  end.

Definition uncommitted_check (o : observed) : Prog leave :=
  r ← call WorktreeUncommitted;
  match r with
  | Err e => Ret (Stop (Some e))
  | Ok true =>
      p ← looked Plain;
      commit_and_stop o PRDBlocked "uncommitted_work" (uncommittedRollupBlockedReason p) (λ old, emit_with "uncommitted_work_held" old None)
  | Ok false => Ret Proceed
  end.

(** ** The end of a run *)

Definition side_effects : list step :=
  [ApplyParallelMetrics; RecordProgressMilestone; MemoryReport; PushValidatedWork; WorktreeCompletion; ClusterCompletion; ReleaseWorktree].
Definition complete (o : observed) : Prog leave :=
  old ← commitRollupStatus o PRDCompleted "completed" "";
  match old with
  | None => Ret (Stop None)
  | Some old =>
      _ ← each (λ s, call (Do s)) side_effects;
      err ← SavePRD;
      match err with
      | Some e => Ret (Stop (Some e))
      | None => _ ← emitPRDStatus old None None; Ret (Stop None)
      end
  end.

(** The first part that leaves the run ends it. *)
Definition then_ (m k : Prog leave) : Prog leave := l ← m; match l with Proceed => k | l => Ret l end.

Definition completion (o : observed) : Prog leave :=
  then_ (rules_check o) (_ ← call (Do WriteGeneratedArtefacts); then_ (rules_review o) (then_ (ci_watch o)
    (then_ (uncommitted_check o) (complete o)))).

Definition roll_up : Prog leave :=
  p ← looked RollUp;
  if negb (prdAllTasksTerminal p) then err ← SavePRD; Ret (Stop err) else
  q ← looked Plain;
  '(baseRev, baseOwn) ← read_base;
  let o := mkObserved (p_Status q) baseRev baseOwn in
  if any_failed p then commit_and_stop o PRDFailed "failed" "" (λ old, emitPRDStatus old None None)
  else completion o.

Definition after_walk : Prog leave :=
  p ← looked Plain;
  then_ (story_checks (seq 0 (length (p_Story p)))) (then_ review_hold roll_up).

(** ** A run

    [None] when the fuel is spent: [wfuel] for each walk, [fuel] for the times the
    run goes round again. *)
Fixpoint Run (wfuel fuel : nat) (prdID : string) : Prog (option (option error)) :=
  r ← prepare prdID;
  match r with
  | Err e => Ret (Some (Some e))
  | Ok (order, retries, concurrency) =>
      w ← walk wfuel order retries concurrency;
      match w with
      | NoFuel => Ret None
      | Returned e => Ret (Some e)
      | WalkedAll =>
          l ← after_walk;
          match l with
          | Stop e => Ret (Some e)
          | Proceed => Ret (Some None)
          | Rerun => match fuel with O => Ret None | S fuel => Run wfuel fuel prdID end
          end
      end
  end.
