(* ===== verification/ExecutorLemmas.v ===== *)
(** * The executor of Automata: what an observer of a walk sees

    Most of what a run does is silent: it reads, writes, saves and announces
    without starting anything ([silent], and [only silent] of each part). [next]
    follows the rest of a walk: the looks at tasks, the tasks started, the workers
    that come back. The lemmas carry the walk's tallies along with it. *)

From S2P Require Import Prelude Effects GoBase GoText GoFmt TopoSort Executor ExecutorWalk.
From S2P Require Import ExecutorRun.

#[local] Open Scope Z_scope.

(** ** Silent parts *)

(** A change of the record that does not make the Automaton completed. *)
Definition keeps (f : PRD → PRD) : Prop := ∀ p, p_Status (f p) = PRDCompleted → p_Status p = PRDCompleted.
Definition side_effect (s : step) : bool :=
  match s with
  | ApplyParallelMetrics | RecordProgressMilestone | MemoryReport | PushValidatedWork | WorktreeCompletion | ClusterCompletion
  | ReleaseWorktree => true
  | _ => false
  end.

Definition silent (X : Set) (op : Op X) : Prop :=
  match op with
  | GetPRD | Look Plain | Persist | Publish _ | Now | InfraConfig | ContinueDefault | GateConfig | GetQuestion _ | CtxErr => True
  | WithLock f => keeps f
  | Do s => side_effect s = false
  | _ => False
  end.

Lemma keeps_same f : (∀ p, p_Status (f p) = p_Status p) → keeps f.
Proof. intros H p. by rewrite H. Qed.
Lemma keeps_other f st : (∀ p, p_Status (f p) = st) → st ≠ PRDCompleted → keeps f.
Proof. intros H Hn p. by rewrite H. Qed.
Lemma stored_status now p : p_Status (stored now p) = p_Status p.
Proof. unfold stored, clearStaleBlockedReason. simpl. by case_match. Qed.
Lemma keeps_stored now : keeps (stored now).
Proof. apply keeps_same, stored_status. Qed.
Lemma keeps_edit_story f tid : keeps (edit_story f tid).
Proof. by apply keeps_same. Qed.
Lemma keeps_edit_task f tid : keeps (edit_task f tid).
Proof. by apply keeps_same. Qed.
Lemma recover_loop_status now order p : p_Status (recover_loop now order p).1 = p_Status p.
Proof.
  revert p. induction order as [|k order IH]; intros p; [done|]. simpl.
  destruct (all_tasks p !! k) as [t|]; simpl; [|apply IH]. destruct (recoverable p t); simpl; [|apply IH].
  match goal with |- context [recover_loop now order ?q] => specialize (IH q); destruct (recover_loop now order q) end.
  simpl in *. by rewrite IH.
Qed.
Lemma keeps_recover now : keeps (λ p, (recover now p).1.1).
Proof.
  intros p. unfold recover. pose proof (recover_loop_status now (recovery_order p) p) as H.
  destruct (recover_loop _ _ _) as [q resets]. simpl in H. destruct resets; [done|]. simpl. case_match; simpl; by rewrite ?H.
Qed.
Lemma keeps_blocked_by vs status : status ≠ PRDCompleted → keeps (blocked_by status vs).
Proof. by apply keeps_other. Qed.
Lemma keeps_set_status st : st ≠ PRDCompleted → keeps (set_p_Status st).
Proof. by apply keeps_other. Qed.
Lemma judgeHoldOrBlocked_open v : judgeHoldOrBlocked v ≠ PRDCompleted.
Proof. unfold judgeHoldOrBlocked. repeat case_match; done. Qed.
Lemma keeps_add_decision d : keeps (add_decision d).
Proof. by apply keeps_same. Qed.
Lemma keeps_shadow P d : keeps (λ p, if P p : bool then p else add_decision d p).
Proof. apply keeps_same. intros p. by case_match. Qed.

Create HintDb executor.
#[export] Hint Resolve keeps_stored keeps_edit_story keeps_edit_task keeps_recover keeps_add_decision keeps_shadow keeps_set_status
  judgeHoldOrBlocked_open : executor.
#[export] Hint Extern 1 (keeps (blocked_by _ _)) => apply keeps_blocked_by : executor.
#[export] Hint Extern 1 (_ ≠ PRDCompleted) => done : executor.
#[export] Hint Extern 2 (keeps _) => (apply keeps_same; done) : executor.
#[export] Hint Extern 3 (keeps _) => (intros ?; simpl; done) : executor.

Lemma only_each {A} P (f : A → Prog unit) l : (∀ x, only P (f x)) → only P (each f l).
Proof. intros H. induction l; simpl; [done|]. by apply only_bind. Qed.
Lemma only_when P b m : only P m → only P (when b m).
Proof. by destruct b. Qed.

(** Follow the parts of a program to its calls. *)
Ltac keep_to :=
  repeat first
    [ apply only_ret
    | lazymatch goal with
      | |- only _ (mbind _ _) => apply only_bind; [|intros ?]
      | |- only _ (try _ _) => apply only_try; [|intros ?]
      | |- only _ (when _ _) => apply only_when
      | |- only _ (each _ _) => apply only_each; intros ?
      | |- only _ (match ?x with _ => _ end) => destruct x
      | |- only _ (let '(_, _) := ?x in _) => destruct x
      | |- only _ (call _) => apply only_call; simpl; solve [done | auto 4 with executor]
      | |- only _ (let _ := _ in _) => cbv zeta
      end
    | solve [auto 5 with executor] ].

Section silence.
Lemma silent_save : only silent SavePRD.
Proof. unfold SavePRD, locked. keep_to. Qed.
#[local] Hint Resolve silent_save : executor.
Lemma silent_save_task tid : only silent (SaveTask tid).
Proof. unfold SaveTask, locked. keep_to. Qed.
Lemma silent_own : only silent savePRDOwn.
Proof. unfold savePRDOwn. keep_to. Qed.
Lemma silent_emit tid old dec : only silent (emitTaskStatus tid old dec).
Proof. unfold emitTaskStatus, looked. keep_to. Qed.
Lemma silent_emit_prd old dec v : only silent (emitPRDStatus old dec v).
Proof. unfold emitPRDStatus, looked. keep_to. Qed.
Lemma silent_update : only silent EmitPRDUpdate.
Proof. unfold EmitPRDUpdate. keep_to. Qed.
#[local] Hint Resolve silent_save_task silent_own silent_emit silent_emit_prd silent_update : executor.

Lemma silent_infra dep : only silent (infra_reason dep).
Proof. unfold infra_reason, looked. keep_to. Qed.
Lemma silent_save_and_emit tid old : only silent (save_and_emit tid old).
Proof. unfold save_and_emit. keep_to. Qed.
#[local] Hint Resolve silent_infra silent_save_and_emit : executor.
Lemma silent_fail_task tid e : only silent (fail_task tid e).
Proof. unfold fail_task, locked. keep_to. Qed.
Lemma silent_recover : only silent recoverInfraDependents.
Proof. unfold recoverInfraDependents, locked, looked. keep_to. Qed.
Lemma silent_settings : only silent decisionGateSettings.
Proof. unfold decisionGateSettings. keep_to. Qed.
Lemma silent_holds ids : only silent (holds_of ids).
Proof. induction ids; cbn [holds_of]; keep_to. Qed.
#[local] Hint Resolve silent_fail_task silent_recover silent_settings silent_holds : executor.
Lemma silent_park tid holds : only silent (holdTaskForDecision tid holds).
Proof. unfold holdTaskForDecision, locked. keep_to. Qed.
Lemma silent_release tid : only silent (releaseDecisionHold tid).
Proof. unfold releaseDecisionHold, locked. keep_to. Qed.
Lemma silent_shadow tid h holds : only silent (recordDecisionShadow tid h holds).
Proof. unfold recordDecisionShadow, locked. keep_to. Qed.
#[local] Hint Resolve silent_park silent_release silent_shadow : executor.
Lemma silent_gate tid : only silent (decisionGateHold tid).
Proof. unfold decisionGateHold, looked, DecisionHold. keep_to. Qed.
Lemma silent_running : only silent still_running.
Proof. unfold still_running, looked. keep_to. Qed.
#[local] Hint Resolve silent_gate silent_running : executor.
Lemma silent_waiting : only silent decisionWaitPending.
Proof. unfold decisionWaitPending, looked. keep_to. Qed.
Lemma silent_begin tid : only silent (begin_story tid).
Proof. unfold begin_story, locked. keep_to. Qed.
Lemma silent_block f v : keeps f → only silent (block_Automaton f v).
Proof. intros Hf. unfold block_Automaton, locked. keep_to. Qed.
#[local] Hint Resolve silent_waiting silent_begin silent_block : executor.
Lemma silent_rollup tid : only silent (story_rollup tid).
Proof. unfold story_rollup, locked, looked, resolveContinueOnStoryFailure. keep_to. Qed.
Lemma silent_fail_dependent tid dep : only silent (fail_dependent tid dep).
Proof. unfold fail_dependent, locked, looked. keep_to. Qed.
Lemma silent_fail_behind tid dep old : only silent (fail_behind tid dep old).
Proof. unfold fail_behind, locked. keep_to. Qed.
Lemma silent_drained r : only silent (finalizeDrained r).
Proof. unfold finalizeDrained, looked. keep_to. Qed.
End silence.
#[export] Hint Resolve silent_save silent_save_task silent_own silent_emit silent_emit_prd silent_update
  silent_infra silent_save_and_emit silent_fail_task silent_recover silent_settings silent_holds silent_park silent_release
  silent_shadow silent_gate silent_running silent_waiting silent_begin silent_block silent_rollup silent_fail_dependent
  silent_fail_behind silent_drained : executor.

(** ** The observer *)

(** The ids of the tasks and what they depend on. *)
Definition shape (p : PRD) : list (string * list string) := (λ t, (t_ID t, t_DependsOn t)) <$> all_tasks p.
Definition deps_of (sh : list (string * list string)) (tid : string) : list string :=
  match List.find (λ x, String.eqb x.1 tid) sh with Some x => x.2 | None => [] end.

(** [o_met]: the tasks whose last look (at their turn, or when their worker came
    back) leaves the tasks behind them free to start. *)
Record obs := mkObs {
  o_order : list string;
  o_met : gset string;
  o_running : gset string;
  o_early : bool;        (* a task was started before what it depends on *)
  o_over : bool;         (* a task was started twice, or over the limit *)
  o_reviewed : bool;     (* a worker came back to a task held for review *)
  o_events : nat         (* results, wake-ups, decisions and answers so far *)
}.

Definition look_turn (tid st : string) (met : gset string) : gset string :=
  if String.eqb st TaskCompleted then {[tid]} ∪ met
  else if failed_or_cancelled st || String.eqb (normTaskStatus st) TaskPending then met ∖ {[tid]}
  else met.
Definition look_outcome (tid st : string) (met : gset string) : gset string :=
  if String.eqb st TaskFailed || String.eqb st TaskReviewNeeded || String.eqb st TaskBlocked then met ∖ {[tid]} else {[tid]} ∪ met.

Definition set_met (met : gset string) (o : obs) : obs :=
  mkObs (o_order o) met (o_running o) (o_early o) (o_over o) (o_reviewed o) (o_events o).
Definition note_review (b : bool) (o : obs) : obs :=
  mkObs (o_order o) (o_met o) (o_running o) (o_early o) (o_over o) (o_reviewed o || b) (o_events o).
Definition note_order (l : list string) (o : obs) : obs :=
  mkObs l (o_met o) (o_running o) (o_early o) (o_over o) (o_reviewed o) (o_events o).
Definition note_event (o : obs) : obs :=
  mkObs (o_order o) (o_met o) (o_running o) (o_early o) (o_over o) (o_reviewed o) (S (o_events o)).
Definition note_back (tid : string) (o : obs) : obs :=
  mkObs (o_order o) (o_met o) (o_running o ∖ {[tid]}) (o_early o) (o_over o) (o_reviewed o) (o_events o).

Section observer.
Context (sh : list (string * list string)) (strict : bool) (limit : Z).

(** What task [tid] depends on has been met: all of it, or, unless [strict], what
    is in the order that is walked. *)
Definition ready (tid : string) (o : obs) : bool :=
  forallb (λ d, negb strict && negb (existsb (String.eqb d) (o_order o)) || inb d (o_met o)) (deps_of sh tid).
Definition note_start (tid : string) (o : obs) : obs :=
  mkObs (o_order o) (o_met o) (o_running o) (o_early o || negb (ready tid o)) (o_over o) (o_reviewed o) (o_events o).
Definition note_launch (tid : string) (o : obs) : obs :=
  mkObs (o_order o) (o_met o) ({[tid]} ∪ o_running o) (o_early o)
    (o_over o || inb tid (o_running o) || (limit <=? Z.of_nat (size (o_running o)))) (o_reviewed o) (o_events o).

Definition look (w : purpose) (p : PRD) (o : obs) : obs :=
  match w with
  | Turn tid => set_met (look_turn tid (status_of p tid) (o_met o)) o
  | Outcome tid =>
      note_review (String.eqb (status_of p tid) TaskReviewNeeded) (set_met (look_outcome tid (status_of p tid) (o_met o)) o)
  | ForOrder => match topoSort (flattenTasks p) with Ok l => note_order l o | Err _ => o end
  | RollUp | Plain => o
  end.

(** The observer stops looking ([None]) when the Automaton is gone, when its tasks
    or what they depend on changed, or when a worker comes back that was not
    running. *)
Definition next (s : option obs) (e : event) : option obs :=
  o ← s;
  match e with
  | Event op x =>
      match op in Op X return X → option obs with
      | GetPRD => λ found, if found then Some o else None
      | Look w => λ p, if bool_decide (shape p = sh) then Some (look w p o) else None
      | ExecuteOne tid _ => λ _, Some (note_start tid o)
      | Launch tid _ => λ _, Some (note_launch tid (note_start tid o))
      | Select => λ s,
          match s with
          | Finished tid _ => if inb tid (o_running o) then Some (note_event (note_back tid o)) else None
          | _ => Some (note_event o)
          end
      | Receive => λ r, if inb r.1 (o_running o) then Some (note_back r.1 o) else None
      | Nudged => λ b, Some (if b then note_event o else o)
      | AwaitAnswer => λ b, Some (if b then note_event o else o)
      | _ => λ _, Some o
      end x
  end.

Definition begin (order : list string) : obs := mkObs order ∅ ∅ false false false 0.
Definition observed_by (order : list string) (t : list event) : option obs := foldl next (Some (begin order)) t.

Definition so {A} (Q : obs → A → Prop) (s : option obs) (a : A) : Prop := match s with Some o => Q o a | None => True end.
Definition wpo {A} (m : Prog A) (o : obs) (Q : obs → A → Prop) : Prop := wp next m (Some o) (so Q).

Lemma wpo_gone {A} (m : Prog A) (Q : obs → A → Prop) : wp next m None (so Q).
Proof. induction m as [a|X op k IH]; simpl; [done|]. intros x. apply IH. Qed.
Lemma wpo_ret {A} (a : A) o (Q : obs → A → Prop) : Q o a → wpo (Ret a) o Q.
Proof. done. Qed.
Lemma wpo_bind {A B} (f : A → Prog B) m o Q : wpo m o (λ o a, wpo (f a) o Q) → wpo (m ≫= f) o Q.
Proof. intros H. apply wp_bind. eapply wp_mono; [exact H|]. intros [o'|] a; [done|]. intros _. apply wpo_gone. Qed.
Lemma wpo_mono {A} (m : Prog A) o (Q Q' : obs → A → Prop) : wpo m o Q → (∀ o a, Q o a → Q' o a) → wpo m o Q'.
Proof. intros H HQ. eapply wp_mono; [exact H|]. intros [o'|] a; [apply HQ|done]. Qed.
Lemma wpo_runs {A} (m : Prog A) o Q t a o' : wpo m o Q → runs m t a → foldl next (Some o) t = Some o' → Q o' a.
Proof. intros H Hr Ho. apply (proj1 (wp_runs _ _ _ _) H) in Hr. by rewrite Ho in Hr. Qed.

Lemma wpo_silent {A} (m : Prog A) o (Q : obs → A → Prop) : only silent m → (∀ a, Q o a) → wpo m o Q.
Proof.
  intros Hm HQ. eapply wp_mono.
  - apply (wp_only silent next (λ s, s = None ∨ s = Some o)); [done|by right|].
    intros s X op x Hop [->| ->]; [by left|].
    destruct op; simpl in *; try done; try (by right); repeat (case_match; simpl; auto); done.
  - intros s a [->| ->]; [done|apply HQ].
Qed.
Lemma wpo_silent_bind {A B} (m : Prog A) (f : A → Prog B) o Q : only silent m → (∀ a, wpo (f a) o Q) → wpo (m ≫= f) o Q.
Proof. intros Hm Hf. apply wpo_bind. by apply wpo_silent. Qed.
Lemma wpo_looked w o Q : (∀ p, shape p = sh → Q (look w p o) p) → wpo (looked w) o Q.
Proof. intros H p. simpl. case_bool_decide; [by apply H|done]. Qed.
Lemma wpo_found o Q : Q o true → wpo (call GetPRD) o Q.
Proof. by intros H [|]. Qed.
Lemma wpo_nudged o Q : Q (note_event o) true → Q o false → wpo (call Nudged) o Q.
Proof. by intros ? ? [|]. Qed.
Lemma wpo_answer o Q : Q (note_event o) true → Q o false → wpo (call AwaitAnswer) o Q.
Proof. by intros ? ? [|]. Qed.

Lemma wpo_select o Q : (∀ e, Q (note_event o) (CtxDone e)) → Q (note_event o) Woken →
  (∀ tid err, tid ∈ o_running o → Q (note_event (note_back tid o)) (Finished tid err)) → wpo (call Select) o Q.
Proof. intros ? ? H [e| |tid err]; simpl; [done..|]. unfold inb. case_bool_decide; [by apply H|done]. Qed.

(** ** Tasks of a record of the shape *)

Lemma find_fmap {A B} (f : A → B) (P : B → bool) l : List.find P (f <$> l) = f <$> List.find (λ x, P (f x)) l.
Proof. induction l as [|x l IH]; [done|]. simpl. by destruct (P (f x)). Qed.
Lemma lookup_deps p tid t : shape p = sh → lookupTask p tid = Some t → t_DependsOn t = deps_of sh tid ∧ t_ID t = tid.
Proof.
  intros <- Hl. unfold deps_of, shape. rewrite find_fmap. simpl. unfold lookupTask in Hl. rewrite Hl. simpl. split; [done|].
  apply find_some in Hl as [_ Hl]. by apply String.eqb_eq.
Qed.
Lemma lookup_there p tid : shape p = sh → tid ∈ sh.*1 → is_Some (lookupTask p tid).
Proof.
  intros <- Hi. unfold shape in Hi. rewrite <- list_fmap_compose in Hi. apply list_elem_of_fmap in Hi as (t&->&Ht).
  unfold lookupTask. destruct (List.find _ _) eqn:E; [eauto|]. exfalso.
  pose proof (find_none _ _ E t) as Hn. simpl in Hn. rewrite String.eqb_refl in Hn. by discriminate Hn; apply list_elem_of_In.
Qed.

(** *** The order is one of the tasks' dependencies *)

Definition ordered (l : list string) : Prop :=
  NoDup l ∧ (∀ x, x ∈ l → x ∈ sh.*1) ∧ ∀ x d, x ∈ l → d ∈ deps_of sh x → d ∈ l → before l d x.

Lemma filter_sub {A} (P : A → bool) l : List.filter P l `sublist_of` l.
Proof. induction l as [|x l IH]; simpl; [done|]. destruct (P x); by constructor. Qed.
Lemma flatten_sub p : flattenTasks p `sublist_of` all_tasks p.
Proof.
  unfold flattenTasks, all_tasks. induction (p_Story p) as [|s l IH]; [done|]. simpl. apply sublist_app; [|done].
  case_match; [apply sublist_nil_l|apply filter_sub].
Qed.
Lemma topoSort_ordered p l : NoDup sh.*1 → shape p = sh → topoSort (flattenTasks p) = Ok l → ordered l.
Proof.
  intros Hn Hs Ht. assert (sh.*1 = t_ID <$> all_tasks p) as Hids by (rewrite <- Hs; unfold shape; by rewrite <- list_fmap_compose).
  rewrite Hids in Hn. assert (NoDup (t_ID <$> flattenTasks p)) as Hf.
  { eapply sublist_NoDup; [exact Hn|]. apply fmap_sublist, flatten_sub. }
  pose proof (sorted_cases (A := Task) (flattenTasks p)) as Hc. simpl in Hc. specialize (Hc Hf) as (out&Ho&Hc).
  unfold topoSort in Ht. rewrite Ho in Ht. case_bool_decide; [|done]. injection Ht as ->. destruct Hc as [Hp Hb].
  assert (∀ x, x ∈ l → ∃ t, t ∈ flattenTasks p ∧ t_ID t = x ∧ t_DependsOn t = deps_of sh x) as Hx.
  { intros x Hx. rewrite Hp in Hx. apply list_elem_of_fmap in Hx as (t&->&Hi). exists t. split_and!; [done..|].
    assert (t ∈ all_tasks p) as Ha by (eapply elem_of_sublist; [exact Hi|apply flatten_sub]).
    destruct (lookup_there p (t_ID t)) as [t' Ht']; [done|rewrite Hids; by apply list_elem_of_fmap_2|].
    destruct (lookup_deps _ _ _ Hs Ht') as [<- He]. apply find_some in Ht' as [Ht' _]. apply list_elem_of_In in Ht'.
    f_equal. by apply (NoDup_fmap_eq t_ID (all_tasks p)). }
  split_and!.
  - rewrite Hp. done.
  - intros x Hi. destruct (Hx x Hi) as (t&Hi'&<-&_). rewrite Hids. apply list_elem_of_fmap_2.
    eapply elem_of_sublist; [exact Hi'|apply flatten_sub].
  - intros x d Hi Hd Hdl. destruct (Hx x Hi) as (t&Hi'&<-&Hdeps). apply Hb; [done|by rewrite Hdeps|by rewrite <- Hp].
Qed.

Lemma order_again p o order : NoDup sh.*1 → shape p = sh → ordered (o_order o) → o_order o = order →
  ordered (o_order (look ForOrder p o)) ∧
  o_order (look ForOrder p o) = match topoSort (flattenTasks p) with Ok l => l | Err _ => order end.
Proof. intros Hn Hs Ho <-. simpl. destruct (topoSort _) eqn:E; simpl; [|done]. split; [by eapply topoSort_ordered|done]. Qed.
End observer.

Lemma before_split (l1 l2 : list string) x d : NoDup (l1 ++ x :: l2) → before (l1 ++ x :: l2) d x → d ∈ l1.
Proof.
  intros Hn (i&j&Hi&Hj&Hlt). assert (j = length l1) as ->.
  { eapply NoDup_lookup; [exact Hn|exact Hj|]. by rewrite list_lookup_middle. }
  rewrite lookup_app_l in Hi by done. by eapply list_elem_of_lookup_2.
Qed.

(** ** One after the other *)
Section sequential.
Context (sh : list (string * list string)) (limit : Z) (retries : Z).
#[local] Abbreviation wps := (wpo sh false limit).

(** Of the order, [before] was walked and [rest] is to come; [n] events so far. *)
Definition midway (before rest : list string) (n : nat) (o : obs) : Prop :=
  o_order o = before ++ rest ∧ ordered sh (before ++ rest) ∧ o_early o = false ∧ (n ≤ o_events o)%nat.
Definition tallied (before : list string) (w : tally) (o : obs) : Prop :=
  ∀ d, d ∈ before → d ∈ o_met o ∨ d ∈ ta_failed w ∨ d ∈ ta_held w.
Lemma tallied_nil w o : tallied [] w o.
Proof. intros d Hd. by apply elem_of_nil in Hd. Qed.
Definition unhurt (n : nat) (o : obs) : Prop := o_early o = false ∧ (n ≤ o_events o)%nat.

Definition turn_ok (before rest : list string) (n : nat) (o : obs) (r : turn) : Prop :=
  match r with GoOn w => midway before rest n o ∧ tallied before w o | Halt => unhurt n o end.

Lemma midway_next before tid rest n o : midway before (tid :: rest) n o → midway (before ++ [tid]) rest n o.
Proof. unfold midway. by rewrite <- app_assoc. Qed.
Lemma midway_met before rest n o met : midway before rest n o → midway before rest n (set_met met o).
Proof. done. Qed.
Lemma midway_fresh before tid rest n o d : midway before (tid :: rest) n o → d ∈ before → d ≠ tid.
Proof. intros (_&[Hn _]&_) Hd ->. apply NoDup_app in Hn as (_&Hn&_). by apply (Hn tid Hd); left. Qed.

Lemma look_turn_other tid st met d : d ≠ tid → d ∈ look_turn tid st met ↔ d ∈ met.
Proof. intros Hd. unfold look_turn. repeat case_match; set_solver. Qed.
Lemma look_outcome_other tid st met d : d ≠ tid → d ∈ look_outcome tid st met ↔ d ∈ met.
Proof. intros Hd. unfold look_outcome. repeat case_match; set_solver. Qed.

Lemma ready_now before tid rest n o p t w :
  shape p = sh → lookupTask p tid = Some t → midway before (tid :: rest) n o → tallied before w o →
  waitsOnReview p t (ta_held w) = false → first_in (ta_failed w) (t_DependsOn t) = None → ready sh false tid o = true.
Proof.
  intros Hs Hl (Ho&(Hn&_&Hb)&_) Ht Hw Hf. destruct (lookup_deps _ _ _ _ Hs Hl) as [Hd _]. rewrite Hd in Hf.
  unfold waitsOnReview in Hw. rewrite Hd in Hw.
  unfold ready. apply forallb_forall. intros d Hi. simpl. apply orb_true_iff. destruct (existsb (String.eqb d) (o_order o)) eqn:E; [|by left].
  right. unfold inb. apply bool_decide_eq_true. apply existsb_exists in E as (d'&Hi'&<-%String.eqb_eq). apply list_elem_of_In in Hi, Hi'.
  assert (d ∈ before) as Hdb. { eapply before_split; [exact Hn|]. rewrite Ho in Hi'. by apply Hb; [apply elem_of_app; right; left|..]. }
  destruct (Ht _ Hdb) as [?|[Hx|Hx]]; [done|exfalso..].
  - unfold first_in in Hf. pose proof (find_none _ _ Hf d) as Hf'. apply list_elem_of_In in Hi. specialize (Hf' Hi).
    by rewrite bool_decide_eq_false in Hf'.
  - rewrite <- not_true_iff_false in Hw. apply Hw, existsb_exists. exists d. split; [by apply list_elem_of_In|].
    apply orb_true_iff. left. by apply bool_decide_eq_true.
Qed.

Lemma after_task_ok before tid rest n o w :
  midway before (tid :: rest) n o → tallied before w o →
  wps (after_task tid w) o (turn_ok (before ++ [tid]) rest n).
Proof.
  intros Hm Ht. apply wpo_bind, wpo_found. cbn [negb]. apply wpo_bind, wpo_looked. intros p Hs. cbv zeta.
  set (o' := look (Outcome tid) p o). set (w' := if String.eqb (status_of p tid) TaskReviewNeeded then _ else _).
  assert (midway (before ++ [tid]) rest n o') as Hm' by (by apply midway_next in Hm).
  assert (String.eqb (status_of p tid) TaskBlocked = false → tallied (before ++ [tid]) w' o') as Ht'.
  { intros Hb d Hd. apply elem_of_app in Hd as [Hd|Hd].
    - pose proof (midway_fresh _ _ _ _ _ _ Hm Hd). destruct (Ht d Hd) as [H'|H'].
      + left. subst o'. simpl. by apply look_outcome_other.
      + right. subst w'. repeat case_match; simpl; set_solver.
    - apply list_elem_of_singleton in Hd as ->. subst o' w'. simpl. unfold look_outcome. rewrite Hb.
      destruct (String.eqb _ TaskFailed), (String.eqb _ TaskReviewNeeded); simpl; set_solver. }
  case_match.
  - apply wpo_silent_bind; [auto 4 with executor|]. intros _. apply wpo_ret. split; apply Hm'.
  - specialize (Ht' eq_refl). apply wpo_silent_bind; [auto with executor|]. intros [|]; apply wpo_ret; [split; apply Hm'|done].
Qed.

Lemma run_task_ok tid o (Q : obs → unit → Prop) : Q (note_start sh false tid o) tt → wps (run_task tid retries) o Q.
Proof.
  intros HQ. apply wpo_silent_bind; [auto with executor|]. intros _. apply wpo_bind. intros [e|]; simpl; [|done].
  change (wps (_ ← call (Do (ReleaseCapacity tid)); fail_task tid e) (note_start sh false tid o) Q).
  apply wpo_silent; [|by intros []]. keep_to.
Qed.

Lemma seq_turn_ok before tid rest n o w :
  midway before (tid :: rest) n o → tallied before w o →
  wps (seq_turn tid retries w) o (turn_ok (before ++ [tid]) rest n).
Proof.
  intros Hm Ht. apply wpo_bind, wpo_looked. intros p Hs. set (o' := look (Turn tid) p o).
  assert (midway before (tid :: rest) n o') as Hm' by done.
  assert (tallied before w o') as Ht'.
  { intros d Hd. pose proof (midway_fresh _ _ _ _ _ _ Hm Hd). destruct (Ht d Hd) as [H'|H']; [|by right].
    left. subst o'. simpl. by apply look_turn_other. }
  assert (∀ w', tallied before w' o' → (tid ∈ o_met o' ∨ tid ∈ ta_failed w' ∨ tid ∈ ta_held w') → turn_ok (before ++ [tid]) rest n o' (GoOn w')) as Hgo.
  { intros w' Hw' Hx. split; [by apply midway_next|]. intros d Hd. apply elem_of_app in Hd as [Hd|Hd]; [by apply Hw'|].
    by apply list_elem_of_singleton in Hd as ->. }
  destruct (lookupTask p tid) as [t|] eqn:El.
  2: { exfalso. destruct (lookup_there _ p tid Hs) as [? ?]; [|congruence]. apply (proj2 (proj1 (proj2 Hm))).
       apply elem_of_app. right. left. }
  assert (status_of p tid = t_Status t) as Est by (unfold status_of; by rewrite El).
  destruct (isTaskTerminal (t_Status t)) eqn:Eterm.
  { apply wpo_ret, Hgo.
    - intros d Hd. destruct (Ht' d Hd) as [?|[?|?]]; case_match; simpl; set_solver.
    - destruct (failed_or_cancelled (t_Status t)) eqn:Ef; [simpl; set_solver|]. left. subst o'. simpl. rewrite Est. unfold look_turn.
      assert (String.eqb (t_Status t) TaskCompleted = true) as ->; [|set_solver].
      unfold isTaskTerminal, failed_or_cancelled in *. destruct (String.eqb _ TaskCompleted); [done|]. simpl in Eterm. congruence. }
  destruct (on_review t || _) eqn:Er.
  { apply wpo_ret, Hgo; [|simpl; set_solver]. intros d Hd. destruct (Ht' d Hd) as [?|[?|?]]; simpl; set_solver. }
  apply orb_false_iff in Er as [_ Er]. destruct (first_in _ _) as [dep|] eqn:Ef.
  { apply wpo_silent_bind; [auto with executor|]. intros _. apply after_task_ok; [done|].
    intros d Hd. destruct (Ht' d Hd) as [?|[?|?]]; simpl; set_solver. }
  apply wpo_silent_bind; [auto with executor|]. intros [|].
  { apply wpo_ret, Hgo; [|simpl; set_solver]. intros d Hd. destruct (Ht' d Hd) as [?|[?|?]]; simpl; set_solver. }
  apply wpo_bind, run_task_ok. apply after_task_ok; [|done].
  pose proof (ready_now before tid rest n o' p t w Hs El Hm' Ht' Er Ef) as Hr.
  destruct Hm' as (?&?&He&?). split_and!; [done..| |done].
  change (o_early o' || negb (ready sh false tid o') = false). by rewrite Hr, He.
Qed.

Definition pass_ok (order : list string) (n : nat) (o : obs) (r : passed) : Prop :=
  match r with Again => midway [] order (S n) o | Over w => o_early o = false ∧ w ≠ NoFuel end.

Lemma end_of_order_ok order n o : midway [] order n o → wps end_of_order o (pass_ok order n).
Proof.
  intros (Ho&Hd&He&Hn). apply wpo_silent_bind; [auto with executor|]. intros [|]; cbn [negb]; [|by apply wpo_ret].
  apply wpo_bind, wpo_answer.
  - apply wpo_silent_bind; [auto with executor|]. intros [|]; apply wpo_ret; [|done]. split_and!; simpl; [done..|lia].
  - apply wpo_silent_bind; [keep_to|]. intros [e|]; by apply wpo_ret.
Qed.

Lemma seq_pass_ok rest : ∀ before n o w, midway before rest n o → tallied before w o →
  wps (seq_pass retries rest w) o (pass_ok (before ++ rest) n).
Proof.
  induction rest as [|tid rest IH]; intros before n o w Hm Ht; cbn [seq_pass];
    (apply wpo_silent_bind; [keep_to|]; intros [e|]; [by apply wpo_ret; split; [apply Hm|]|]; apply wpo_bind, wpo_nudged;
     [apply wpo_ret; destruct Hm as (?&?&?&?); split_and!; simpl; [done..|lia]|]).
  - apply end_of_order_ok. by destruct Hm as (?&?&?&?).
  - apply wpo_bind. eapply wpo_mono; [by apply seq_turn_ok|]. intros o' [w'|] Hr; simpl in Hr.
    + destruct Hr as [Hm' Ht']. rewrite cons_middle, app_assoc. by apply IH.
    + apply wpo_ret. split; [apply Hr|done].
Qed.

(** Starting over takes an event each time. *)
Lemma seq_walk_ok fuel : NoDup sh.*1 → ∀ order n o, midway [] order n o →
  wps (seq_walk retries fuel order) o (λ o w, o_early o = false ∧ (w = NoFuel → (n + S fuel ≤ o_events o)%nat)).
Proof.
  intros Hu. induction fuel as [|fuel IH]; intros order n o Hm; cbn [seq_walk];
    (apply wpo_bind; eapply wpo_mono; [apply (seq_pass_ok order [] n); [done|apply tallied_nil]|]; intros o' [|w] Hr; [|apply wpo_ret; by destruct Hr]).
  - apply wpo_ret. destruct Hr as (?&?&?&?). split; [done|]. intros _. lia.
  - apply wpo_silent_bind; [keep_to|]. intros _. apply wpo_silent_bind; [auto with executor|]. intros _.
    apply wpo_bind. apply wpo_bind, wpo_looked. intros p Hs. apply wpo_ret.
    destruct Hr as (Ho&Hd&He&Hn). simpl in Ho, Hd.
    destruct (order_again sh p o' order Hu Hs) as [Hd' Ho']; [by rewrite Ho|done|].
    set (o2 := look ForOrder p o') in *. set (l := match topoSort _ with Ok l => l | Err _ => order end) in *.
    eapply wpo_mono; [apply (IH l (S n) o2)|].
    + split_and!; [done|by rewrite Ho' in Hd'| |]; subst o2; simpl; by case_match.
    + intros o3 w [? HN]. split; [done|]. intros ->. specialize (HN eq_refl). lia.
Qed.
End sequential.

(** ** Several at once *)
Section concurrent.
Context (sh : list (string * list string)) (limit : Z) (retries : Z).
#[local] Abbreviation wpc := (wpo sh true limit).

(** A task of the order that was neither finished nor started. *)
Definition untouched (c : coord) (tid : string) : bool := negb (inb tid (c_completed c)) && negb (inb tid (c_inFlight c)).
Definition left_over (c : coord) : Z := Z.of_nat (size (c_inFlight c) + length (List.filter (untouched c) (c_order c))).

(** The coordinator's tallies against what was seen, [n] events so far. *)
Record kept (n : nat) (c : coord) (o : obs) : Prop := mkKept {
  kp_running : o_running o = c_inFlight c;
  kp_apart : c_completed c ## c_inFlight c;
  kp_met : ∀ d, d ∈ c_completed c → d ∉ c_failed c → d ∈ o_met o;
  kp_early : o_early o = false;
  kp_over : o_over o = false;
  kp_ordered : ordered sh (c_order c);
  kp_held : o_reviewed o = false → c_held c = ∅;
  kp_events : (n ≤ o_events o)%nat
}.
Definition counted (c : coord) (o : obs) : Prop := o_reviewed o = false → c_remaining c = left_over c.
(** No task that is still to start depends on one that failed. *)
Definition cleared (l : list string) (c : coord) : Prop :=
  ∀ x, x ∈ l → x ∉ c_completed c → x ∉ c_inFlight c → ∀ d, d ∈ deps_of sh x → d ∉ c_failed c.

Lemma inb_true x s : inb x s = true ↔ x ∈ s.
Proof. apply bool_decide_eq_true. Qed.
Lemma inb_false x s : inb x s = false ↔ x ∉ s.
Proof. apply bool_decide_eq_false. Qed.

Lemma filter_ext_in {A} (P Q : A → bool) l : (∀ x, x ∈ l → P x = Q x) → List.filter P l = List.filter Q l.
Proof.
  induction l as [|x l IH]; intros H; [done|]. simpl. rewrite (H x) by left. rewrite IH; [done|]. intros y Hy. apply H. by right.
Qed.
Lemma filter_drop (P Q : string → bool) l x :
  NoDup l → x ∈ l → P x = true → Q x = false → (∀ y, y ≠ x → P y = Q y) →
  length (List.filter P l) = S (length (List.filter Q l)).
Proof.
  intros Hn Hx HP HQ Hy. apply list_elem_of_split in Hx as (l1&l2&->). rewrite !List.filter_app. simpl. rewrite HP, HQ.
  apply NoDup_app in Hn as (_&Hn1&Hn2%NoDup_cons). destruct Hn2 as [Hn2 _].
  rewrite (filter_ext_in P Q l1), (filter_ext_in P Q l2); [rewrite !length_app; simpl; lia|..].
  - intros y Hi. apply Hy. by intros ->.
  - intros y Hi. apply Hy. intros ->. apply (Hn1 x Hi). left.
Qed.

(** A task that finished, or was started. *)
Lemma left_over_complete c tid : NoDup (c_order c) → tid ∈ c_order c → tid ∉ c_completed c → tid ∉ c_inFlight c →
  left_over (c_complete tid c) = left_over c - 1.
Proof.
  intros Hn Hi Hc Hf. unfold left_over. cbn [c_complete set_c_completed c_inFlight c_order].
  rewrite (filter_drop (untouched c) (untouched (c_complete tid c)) (c_order c) tid); [lia|done..| | |].
  - unfold untouched. by rewrite (proj2 (inb_false _ _) Hc), (proj2 (inb_false _ _) Hf).
  - unfold untouched. simpl. by rewrite (proj2 (inb_true tid ({[tid]} ∪ c_completed c))) by set_solver.
  - intros y Hy. unfold untouched. simpl. do 2 f_equal. unfold inb. apply bool_decide_ext. set_solver.
Qed.
Lemma left_over_launch c tid : NoDup (c_order c) → tid ∈ c_order c → tid ∉ c_completed c → tid ∉ c_inFlight c →
  left_over (set_c_inFlight ({[tid]} ∪ c_inFlight c) c) = left_over c.
Proof.
  intros Hn Hi Hc Hf. unfold left_over. cbn [set_c_inFlight c_inFlight c_order]. rewrite size_union by set_solver. rewrite size_singleton.
  rewrite (filter_drop (untouched c) (untouched (set_c_inFlight ({[tid]} ∪ c_inFlight c) c)) (c_order c) tid); [lia|done..| | |].
  - unfold untouched. by rewrite (proj2 (inb_false _ _) Hc), (proj2 (inb_false _ _) Hf).
  - unfold untouched. simpl. rewrite (proj2 (inb_true tid ({[tid]} ∪ c_inFlight c))) by set_solver. by rewrite andb_false_r.
  - intros y Hy. unfold untouched. simpl. f_equal. f_equal. unfold inb. apply bool_decide_ext. set_solver.
Qed.
Lemma left_over_back c tid : tid ∈ c_inFlight c → 
  left_over (c_complete tid (set_c_inFlight (c_inFlight c ∖ {[tid]}) c)) = left_over c - 1.
Proof.
  intros Hf. unfold left_over. simpl. rewrite size_difference by set_solver. rewrite size_singleton.
  assert (size (c_inFlight c) ≠ 0)%nat by (apply size_non_empty_iff; set_solver).
  rewrite (filter_ext_in _ (untouched c)); [lia|]. intros y _. unfold untouched. simpl.
  destruct (decide (y = tid)) as [->|Hy].
  - rewrite (proj2 (inb_true tid ({[tid]} ∪ c_completed c))), (proj2 (inb_true tid (c_inFlight c))) by set_solver.
    by rewrite andb_false_r.
  - f_equal; f_equal; unfold inb; apply bool_decide_ext; set_solver.
Qed.

Lemma kept_turn n c o tid p : kept n c o → tid ∉ c_completed c → kept n c (look (Turn tid) p o).
Proof.
  intros [] Hc. constructor; try done. intros d Hd Hf. simpl. apply look_turn_other; [|by auto]. by intros ->.
Qed.

Definition finish (b : bool) (tid : string) (c : coord) : coord :=
  c_owe (-1) (if b then c_fail tid (c_complete tid c) else c_complete tid c).
Lemma kept_finish n c o tid b : kept n c o → counted c o → tid ∈ c_order c → tid ∉ c_completed c → tid ∉ c_inFlight c →
  (b = false → tid ∈ o_met o) → kept n (finish b tid c) o ∧ counted (finish b tid c) o.
Proof.
  intros [Hr Ha Hm He Hov Ho Hh Hn] Hco Hi Hc Hf Hb. split.
  - unfold finish. destruct b; constructor; simpl; try done; try set_solver.
  - intros Hrev. specialize (Hco Hrev). pose proof (left_over_complete c tid (proj1 Ho) Hi Hc Hf) as Hl.
    destruct b; change (c_remaining c + -1 = left_over (c_complete tid c)); lia.
Qed.

Lemma order_known n c o p tid : kept n c o → shape p = sh → tid ∈ c_order c →
  ∃ t, lookupTask p tid = Some t ∧ t_DependsOn t = deps_of sh tid ∧ status_of p tid = t_Status t.
Proof.
  intros Hk Hs Hi. destruct (lookup_there sh p tid Hs) as [t Ht]; [by apply (kp_ordered _ _ _ Hk)|]. exists t.
  split_and!; [done|by eapply (lookup_deps sh)|unfold status_of; by rewrite Ht].
Qed.

Lemma terminal_met tid st met : isTaskTerminal st = true → failed_or_cancelled st = false → tid ∈ look_turn tid st met.
Proof.
  unfold isTaskTerminal, failed_or_cancelled, look_turn. destruct (String.eqb st TaskCompleted); [set_solver|].
  simpl. intros -> Hx. done.
Qed.

Lemma seed_ok n rest : ∀ pre c o, c_order c = pre ++ rest → (∀ x, x ∈ rest → x ∉ c_completed c) → c_inFlight c = ∅ →
  kept n c o → counted c o → wpc (seed rest c) o (λ o c, kept n c o ∧ counted c o).
Proof.
  induction rest as [|tid rest IH]; intros pre c o Ho Hu Hf Hk Hc; cbn [seed]; [by apply wpo_ret|].
  apply wpo_bind, wpo_looked. intros p Hs.
  assert (tid ∈ c_order c) as Hi by (rewrite Ho; set_solver). assert (tid ∉ c_completed c) as Htc by (apply Hu; left).
  destruct (order_known _ _ _ _ _ Hk Hs Hi) as (t&Et&_&Est). rewrite Et.
  pose proof (kept_turn n c o tid p Hk Htc) as Hk'. rewrite cons_middle, app_assoc in Ho.
  assert (NoDup (c_order c)) as Hnd by (by apply Hk).
  destruct (isTaskTerminal (t_Status t)) eqn:Eterm; [|apply (IH (pre ++ [tid])); [done|set_solver|done..]].
  destruct (kept_finish n c (look (Turn tid) p o) tid (failed_or_cancelled (t_Status t)) Hk' Hc Hi Htc) as [Hk2 Hc2];
    [rewrite Hf; set_solver| |].
  { intros Hx. simpl. rewrite Est. by apply terminal_met. }
  unfold finish in *. rewrite Ho, <- app_assoc in Hnd. apply NoDup_app in Hnd as (_&_&Hnd%NoDup_cons).
  destruct (failed_or_cancelled _); (apply (IH (pre ++ [tid])); [done|set_solver|done..]).
Qed.

Lemma fail_deps_ok n rest : ∀ pre c o, c_order c = pre ++ rest → kept n c o → counted c o → cleared pre c →
  wpc (fail_deps rest c) o (λ o c, kept n c o ∧ counted c o ∧ cleared (c_order c) c).
Proof.
  induction rest as [|tid rest IH]; intros pre c o Ho Hk Hc Hcl; cbn [fail_deps].
  { apply wpo_ret. rewrite Ho, app_nil_r. done. }
  assert (tid ∈ c_order c) as Hi by (rewrite Ho; set_solver). pose proof (kp_ordered _ _ _ Hk) as (Hnd&_&Hbf).
  assert (c_order c = (pre ++ [tid]) ++ rest) as Ho' by (by rewrite Ho, <- app_assoc).
  destruct (_ || _) eqn:Eb.
  { apply (IH (pre ++ [tid])); [done..|]. intros x Hx Hxc Hxf. apply elem_of_app in Hx as [Hx|Hx]; [by apply Hcl|].
    apply list_elem_of_singleton in Hx as ->. apply orb_true_iff in Eb. rewrite !inb_true in Eb. tauto. }
  apply orb_false_iff in Eb as [Htc%inb_false Htf%inb_false].
  apply wpo_bind, wpo_looked. intros p Hs. destruct (order_known _ _ _ _ _ Hk Hs Hi) as (t&Et&Ed&Est). rewrite Et.
  cbn [mbind option_bind]. rewrite Ed. destruct (first_in _ _) as [dep|] eqn:Ef; cbn [mbind option_bind].
  - apply wpo_silent_bind; [auto with executor|]. intros _.
    destruct (kept_finish n c o tid true Hk Hc Hi Htc Htf) as [Hk2 Hc2]; [done|].
    apply (IH (pre ++ [tid])); [done..|]. intros x Hx Hxc Hxf d Hd. simpl in *. apply elem_of_app in Hx as [Hx|Hx]; [|set_solver].
    intros Hfd. apply elem_of_union in Hfd as [->%elem_of_singleton|Hfd]; [|by eapply Hcl; [exact Hx|set_solver..]].
    assert (tid ∈ pre) as Hip.
    { assert (before (c_order c) tid x) as (i&j&Hi'&Hj&Hlt) by (apply Hbf; [rewrite Ho; set_solver|done..]).
      apply list_elem_of_lookup in Hx as [k Hk']. assert (j = k) as ->.
      { eapply NoDup_lookup; [exact Hnd|exact Hj|]. rewrite Ho. by apply lookup_app_l_Some. }
      rewrite Ho in Hi'. apply lookup_lt_Some in Hk'. rewrite lookup_app_l in Hi' by lia. by eapply list_elem_of_lookup_2. }
    rewrite Ho in Hnd. apply NoDup_app in Hnd as (_&Hnd&_). apply (Hnd tid Hip). left.
  - apply (IH (pre ++ [tid])); [done..|]. intros x Hx Hxc Hxf. apply elem_of_app in Hx as [Hx|Hx]; [by apply Hcl|].
    apply list_elem_of_singleton in Hx as ->. intros d Hd Hfd. apply list_elem_of_In in Hd.
    pose proof (find_none _ _ Ef d Hd) as Hx. simpl in Hx. by apply bool_decide_eq_false in Hx.
Qed.
Lemma autoFailDeps_ok n c o : kept n c o → counted c o → 
  wpc (autoFailDeps c) o (λ o c, kept n c o ∧ counted c o ∧ cleared (c_order c) c).
Proof. intros Hk Hc. apply (fail_deps_ok n (c_order c) []); [done..|]. intros x Hx. by apply elem_of_nil in Hx. Qed.

Lemma isReady_deps c p tid t : lookupTask p tid = Some t → t_DependsOn t = deps_of sh tid → isReady c p tid = true →
  tid ∉ c_completed c ∧ tid ∉ c_inFlight c ∧ ∀ d, d ∈ deps_of sh tid → d ∈ c_completed c.
Proof.
  unfold isReady. intros -> -> Hr. rewrite !andb_true_iff, !negb_true_iff in Hr. destruct Hr as [[[Hc Hf] _] Hd].
  apply inb_false in Hc, Hf. split_and!; [done..|]. intros d Hi. rewrite forallb_forall in Hd.
  by apply list_elem_of_In, Hd, inb_true in Hi.
Qed.

Lemma kept_launch n c o tid : kept n c o → counted c o → cleared (c_order c) c → tid ∈ c_order c →
  tid ∉ c_completed c → tid ∉ c_inFlight c → (∀ d, d ∈ deps_of sh tid → d ∈ c_completed c) → Z.of_nat (size (c_inFlight c)) < limit →
  let c' := set_c_inFlight ({[tid]} ∪ c_inFlight c) c in
  let o' := note_launch limit tid (note_start sh true tid o) in
  kept n c' o' ∧ counted c' o' ∧ cleared (c_order c') c'.
Proof.
  intros Hk Hc Hcl Hi Htc Htf Hd Hl c' o'. assert (NoDup (c_order c)) as Hnd by (by apply Hk).
  destruct Hk as [Hr Ha Hm He Hov Ho Hh Hn]. split_and!.
  - constructor; simpl; [by rewrite Hr|set_solver|done| | |done..].
    + rewrite He. simpl. apply negb_false_iff, forallb_forall. intros d Hx. apply list_elem_of_In in Hx. simpl. apply inb_true.
      apply Hm; [by apply Hd|]. by apply (Hcl tid).
    + rewrite Hov, Hr, (proj2 (inb_false _ _) Htf). simpl. apply Z.leb_gt. lia.
  - intros Hx. pose proof (left_over_launch c tid Hnd Hi Htc Htf) as E. specialize (Hc Hx). fold c' in E. rewrite E. done.
  - intros x Hx Hxc Hxf. simpl in *. apply Hcl; [done..|set_solver].
Qed.

Lemma launch_from_ok n rest : ∀ c o, (∀ x, x ∈ rest → x ∈ c_order c) → kept n c o → counted c o → cleared (c_order c) c →
  wpc (launch_from limit retries rest c) o (λ o c, kept n c o ∧ counted c o).
Proof.
  induction rest as [|tid rest IH]; intros c o Hr Hk Hc Hcl; cbn [launch_from]; [by apply wpo_ret|].
  case_match eqn:El; [by apply wpo_ret|]. apply Z.leb_gt in El.
  assert (∀ x, x ∈ rest → x ∈ c_order c) as Hr' by (intros; apply Hr; by right).
  destruct (_ || _) eqn:Eb; [by apply IH|]. apply orb_false_iff in Eb as [Htc%inb_false Htf%inb_false].
  assert (tid ∈ c_order c) as Hi by (apply Hr; left).
  apply wpo_bind, wpo_looked. intros p Hs. pose proof (kept_turn n c o tid p Hk Htc) as Hk'.
  destruct (order_known _ _ _ _ _ Hk Hs Hi) as (t&Et&Ed&_).
  destruct (isReady c p tid) eqn:Er; cbn [negb]; [|by apply IH].
  destruct (isReady_deps c p tid t Et Ed Er) as (_&_&Hd).
  apply wpo_silent_bind; [auto with executor|]. intros [|]; [by apply IH|].
  apply wpo_silent_bind; [auto with executor|]. intros _.
  destruct (kept_launch n c _ tid Hk' Hc Hcl Hi Htc Htf Hd El) as (Hk2&Hc2&Hcl2).
  apply wpo_bind. intros []. by apply IH.
Qed.
Lemma launch_ok n c o : kept n c o → counted c o → cleared (c_order c) c →
  wpc (launch limit retries c) o (λ o c, kept n c o ∧ counted c o).
Proof. intros. by apply launch_from_ok. Qed.
Lemma fail_then_launch n c o : kept n c o → counted c o →
  wpc (c ← autoFailDeps c; launch limit retries c) o (λ o c, kept n c o ∧ counted c o).
Proof.
  intros Hk Hc. apply wpo_bind. eapply wpo_mono; [by apply autoFailDeps_ok|]. intros o' c' (?&?&?). by apply launch_ok.
Qed.

(** *** A decision of the operator *)

Lemma review_task_ok n c o tid p : kept n c o → shape p = sh → tid ∈ c_order c → tid ∉ c_inFlight c →
  kept n (review_task tid p c) (look (Turn tid) p o) ∧ c_order (review_task tid p c) = c_order c.
Proof.
  intros Hk Hs Hi Hf. destruct (order_known _ _ _ _ _ Hk Hs Hi) as (t&Et&_&Est).
  destruct Hk as [Hr Ha Hm He Hov Ho Hh Hn]. unfold review_task. rewrite Et.
  assert (∀ d, d ≠ tid → d ∈ look_turn tid (t_Status t) (o_met o) ↔ d ∈ o_met o) as Hother by (intros; by apply look_turn_other).
  destruct (String.eqb_spec (t_Status t) TaskReviewNeeded) as [E|E].
  { split; [|done]. constructor; simpl; rewrite ?Est, ?E; done. }
  destruct (isTaskTerminal (t_Status t)) eqn:Eterm.
  { assert (failed_or_cancelled (t_Status t) = false → tid ∈ look_turn tid (t_Status t) (o_met o)) by (by apply terminal_met).
    destruct (failed_or_cancelled _); (split; [|done]); constructor; simpl; rewrite ?Est; try done;
      [set_solver| |intros Hx; rewrite (Hh Hx); set_solver|set_solver| |intros Hx; rewrite (Hh Hx); set_solver].
    - intros d Hd Hdf. rewrite not_elem_of_union, not_elem_of_singleton in Hdf. destruct Hdf as [Hne Hdf].
      apply Hother; [done|]. apply elem_of_union in Hd as [?%elem_of_singleton|Hd]; [done|by apply Hm].
    - intros d Hd Hdf. destruct (decide (d = tid)) as [->|Hne]; [by auto|]. apply Hother; [done|].
      apply elem_of_union in Hd as [?%elem_of_singleton|Hd]; [done|]. apply Hm; [done|]. intros Hx. apply Hdf.
      by apply elem_of_difference; split; [|by apply not_elem_of_singleton]. }
  destruct (String.eqb _ TaskPending) eqn:Ep.
  { split; [|done]. constructor; simpl; rewrite ?Est; try done; [set_solver| |intros Hx; rewrite (Hh Hx); set_solver].
    intros d Hd Hdf. apply Hother; [set_solver|]. apply Hm; set_solver. }
  split; [|done]. constructor; simpl; rewrite ?Est; try done. intros d Hd Hdf. unfold look_turn. rewrite Ep.
  unfold isTaskTerminal in Eterm. unfold failed_or_cancelled. rewrite !orb_false_iff in Eterm. destruct Eterm as [[-> ->] ->].
  simpl. by apply Hm.
Qed.

Lemma review_tasks_ok n rest : ∀ c o, (∀ x, x ∈ rest → x ∈ c_order c) → kept n c o →
  wpc (review_tasks rest c) o (λ o c, kept n c o).
Proof.
  induction rest as [|tid rest IH]; intros c o Hr Hk; cbn [review_tasks]; [by apply wpo_ret|].
  destruct (inb _ _) eqn:Eb; [apply IH; [|done]; intros; apply Hr; by right|]. apply inb_false in Eb.
  apply wpo_bind, wpo_looked. intros p Hs. destruct (review_task_ok n c o tid p Hk Hs) as [Hk' Ho]; [apply Hr; left|done|].
  apply IH; [|done]. intros x Hx. rewrite Ho. apply Hr. by right.
Qed.

Lemma kept_recount n c o : kept n c o → kept n (recount c) o ∧ counted (recount c) o.
Proof.
  intros Hk. split; [by destruct Hk|]. intros Hx. pose proof (kp_held _ _ _ Hk Hx) as Hh. unfold recount, left_over. simpl.
  f_equal. f_equal. f_equal. apply filter_ext_in. intros x _. unfold owes, untouched. rewrite Hh. simpl.
  rewrite (proj2 (inb_false x ∅)) by set_solver. simpl. by rewrite andb_true_r.
Qed.

Lemma reviewDecisions_ok n c o : NoDup sh.*1 → kept n c o → counted c o →
  wpc (reviewDecisions limit retries c) o (λ o c, kept n c o ∧ counted c o).
Proof.
  intros Hu Hk Hc. apply wpo_bind, wpo_found. cbn [negb]. apply wpo_bind, wpo_looked. intros p _.
  case_match; [by apply wpo_ret|]. apply wpo_silent_bind; [auto with executor|]. intros _.
  apply wpo_bind. apply wpo_bind, wpo_looked. intros q Hq. apply wpo_ret. set (l := match topoSort _ with Ok l => l | Err _ => _ end).
  assert (kept n (set_c_order l c) (look ForOrder q o)) as Hk'.
  { assert (ordered sh l) as Hl. { subst l. destruct (topoSort _) eqn:E; [by eapply topoSort_ordered|apply Hk]. }
    destruct Hk. constructor; simpl; try done; by case_match. }
  apply wpo_bind. eapply wpo_mono; [by apply review_tasks_ok|]. intros o' c' Hk2.
  destruct (kept_recount _ _ _ Hk2) as [Hk3 Hc3]. by apply fail_then_launch.
Qed.

(** *** A worker came back *)

Definition halted (n : nat) (c : coord) (o : obs) : Prop :=
  o_running o = c_inFlight c ∧ o_early o = false ∧ o_over o = false ∧ (n ≤ o_events o)%nat.
Definition came_back_ok (n : nat) (o : obs) (r : came_back) : Prop :=
  match r with GoesOn c => kept n c o ∧ counted c o | Stops c => halted n c o end.

Lemma kept_back n c o tid (failed : bool) p :
  kept n c o → counted c o → tid ∈ c_inFlight c → shape p = sh →
  let held := taskHeldIn p tid in
  let st := status_of p tid in
  let c1 := c_owe (-1) (set_c_inFlight (c_inFlight c ∖ {[tid]}) c) in
  let c1 := if failed then c_fail tid c1 else c1 in
  let c2 := if held then c_hold tid c1 else c_complete tid c1 in
  let c3 := if String.eqb st TaskFailed then c_fail tid c2 else c2 in
  let o' := look (Outcome tid) p (note_event (note_back tid o)) in
  halted (S n) c3 o' ∧ (String.eqb st TaskBlocked = false → kept (S n) c3 o' ∧ counted c3 o').
Proof.
  intros [Hr Ha Hm He Hov Ho Hh Hn] Hc Hf Hs held st c1 c1' c2 c3 o'.
  assert (held = String.eqb st TaskReviewNeeded) as Eh. { subst held st. unfold taskHeldIn, status_of, on_review. by case_match. }
  assert (tid ∉ c_completed c) as Htc by set_solver.
  assert (∀ d, d ≠ tid → d ∈ o_met o' ↔ d ∈ o_met o) as Hother by (intros; by apply look_outcome_other).
  assert (String.eqb st TaskBlocked = false → String.eqb st TaskFailed = false → held = false → tid ∈ o_met o') as Hmet.
  { intros E0 E1 E2. subst o'. simpl. fold st. unfold look_outcome. rewrite E0, E1, <- Eh, E2. set_solver. }
  assert (c_inFlight c3 = c_inFlight c ∖ {[tid]} ∧ c_order c3 = c_order c) as [E1 E2].
  { subst c3 c2 c1'. by destruct (String.eqb st TaskFailed), held, failed. }
  assert (∀ d, d ∈ c_completed c3 → d = tid ∧ held = false ∨ d ∈ c_completed c) as E3.
  { subst c3 c2 c1'. intros d. destruct (String.eqb st TaskFailed), held, failed; simpl; set_solver. }
  assert (∀ d, d ∉ c_failed c3 → d ∉ c_failed c ∧ (d = tid → String.eqb st TaskFailed = false)) as E4.
  { intros d Hd. split.
    - intros Hx. apply Hd. subst c3 c2 c1'. destruct (String.eqb st TaskFailed), held, failed; simpl; rewrite ?elem_of_union; auto.
    - intros ->. subst c3. destruct (String.eqb st TaskFailed); [|done]. exfalso. apply Hd. simpl. apply elem_of_union_l.
      by apply elem_of_singleton. }
  split; [split_and!; [subst o'; simpl; by rewrite E1, Hr|done..|subst o'; simpl; lia]|]. intros Hb. split.
  - constructor; [subst o'; simpl; by rewrite E1, Hr| | |done|done|by rewrite E2| |subst o'; simpl; lia].
    + rewrite E1. intros d Hd Hdf. destruct (E3 d Hd) as [[-> _]|]; set_solver.
    + intros d Hd Hdf. destruct (E4 d Hdf) as [Hdf' Hst]. destruct (E3 d Hd) as [[-> Hh']|Hd']; [by auto|].
      apply Hother; [by intros ->|by apply Hm].
    + subst o'. simpl. fold st. rewrite <- Eh. intros [Hx Hh']%orb_false_iff. subst c3 c2 c1'. rewrite Hh'. specialize (Hh Hx).
      by destruct (String.eqb st TaskFailed), failed.
  - subst o'. intros Hx. simpl in Hx. fold st in Hx. rewrite <- Eh in Hx. apply orb_false_iff in Hx as [Hx Hh']. specialize (Hc Hx).
    pose proof (left_over_back c tid Hf) as Hl. subst c3 c2 c1' c1. rewrite Hh'.
    destruct (String.eqb st TaskFailed), failed;
      change (c_remaining c + -1 = left_over (c_complete tid (set_c_inFlight (c_inFlight c ∖ {[tid]}) c))); lia.
Qed.

Lemma finished_ok n c o tid err : kept n c o → counted c o → tid ∈ c_inFlight c →
  wpc (finished tid err c) (note_event (note_back tid o)) (came_back_ok (S n)).
Proof.
  intros Hk Hc Hf. unfold finished. cbv zeta. set (c1 := c_owe _ _). set (o1 := note_event _).
  assert (∀ failed : bool, wpc (
    found ← call GetPRD;
    let c := if failed then c_fail tid c1 else c1 in
    if negb found then Ret (GoesOn (c_complete tid c)) else
    p ← looked (Outcome tid);
    let c := if taskHeldIn p tid then c_hold tid c else c_complete tid c in
    if String.eqb (p_Status p) PRDPaused then Ret (Stops c) else
    let c := if String.eqb (status_of p tid) TaskFailed then c_fail tid c else c in
    if String.eqb (status_of p tid) TaskBlocked then
      let vs := match lookupTask p tid with Some t => t_Verdicts t | None => [] end in
      _ ← block_Automaton (blocked_by PRDBlocked vs) (lastBlockVerdict vs);
      Ret (Stops c)
    else
      halt ← story_rollup tid;
      Ret (if halt : bool then Stops c else GoesOn c)) o1 (came_back_ok (S n))) as Hrest.
  { intros failed. apply wpo_bind, wpo_found. cbn [negb]. cbv zeta. apply wpo_bind, wpo_looked. intros p Hs.
    destruct (kept_back n c o tid failed p Hk Hc Hf Hs) as [Hh3 Hkc]. cbv zeta in Hh3, Hkc. fold c1 o1 in Hh3, Hkc.
    set (c2 := if taskHeldIn p tid then _ else _) in *.
    assert (halted (S n) c2 (look (Outcome tid) p o1)) as Hh by (by destruct (String.eqb (status_of p tid) TaskFailed)).
    set (c3 := if String.eqb _ TaskFailed then _ else _) in *.
    case_match; [by apply wpo_ret|]. case_match.
    - apply wpo_silent_bind; [auto 4 with executor|]. intros _. by apply wpo_ret.
    - destruct (Hkc eq_refl) as [Hk' Hc']. apply wpo_silent_bind; [auto with executor|]. intros [|]; by apply wpo_ret. }
  destruct err as [e|]; [|exact (Hrest false)].
  apply wpo_bind, wpo_silent_bind; [done|]. intros p. apply wpo_silent_bind; [keep_to|]. intros _. apply wpo_ret. exact (Hrest true).
Qed.

Lemma drain_ok finalize (w : walked) fuel : (∀ r, only silent (finalize r)) → ∀ inFlight o,
  o_running o = inFlight → (size inFlight ≤ fuel)%nat →
  wpc (drain fuel finalize inFlight w) o (λ o' w', w' = w ∧ o_running o' = ∅ ∧ o_early o' = o_early o ∧ o_over o' = o_over o).
Proof.
  intros Hf. induction fuel as [|fuel IH]; intros inFlight o Hr Hs; cbn [drain];
    (case_bool_decide as He; [apply wpo_ret; by rewrite Hr, He|]).
  - assert (size inFlight ≠ 0)%nat; [|lia]. apply size_non_empty_iff. by intros ?%leibniz_equiv.
  - apply wpo_bind. intros r. simpl. destruct (inb _ _) eqn:Ei; [|done]. apply inb_true in Ei.
    apply (wpo_silent_bind _ _ _ (finalize r)); [done|]. intros _. eapply wpo_mono; [apply IH|].
    + simpl. by rewrite Hr.
    + rewrite Hr in Ei. rewrite size_difference by set_solver. rewrite size_singleton. lia.
    + done.
Qed.

(** *** The loop *)

Definition walk_ok (n : nat) (o : obs) (w : walked) : Prop :=
  o_early o = false ∧ o_over o = false
  ∧ match w with
    | NoFuel => (n ≤ o_events o)%nat
    | WalkedAll => o_reviewed o = false → o_running o = ∅
    | Returned _ => o_running o = ∅
    end.

Lemma when_idle_ok n c o : kept n c o → counted c o → c_inFlight c = ∅ →
  wpc when_idle o (λ o i,
    match i with ReviewNow => kept (S n) c o ∧ counted c o | Leave w => w ≠ NoFuel ∧ walk_ok 0 o w end).
Proof.
  intros Hk Hc He. assert (walk_ok 0 o WalkedAll ∧ ∀ e, walk_ok 0 o (Returned e)) as [Hw Hr].
  { destruct Hk as [Hr _ _ ? ? _ _ _]. unfold walk_ok. rewrite Hr, He. done. }
  assert (kept (S n) c (note_event o) ∧ counted c (note_event o)) as [Hk' Hc'].
  { split; [|done]. destruct Hk. constructor; simpl; try done. lia. }
  assert (walk_ok 0 (note_event o) (Returned None)) as Hr'.
  { destruct (Hr None) as (?&?&?). unfold walk_ok. done. }
  apply wpo_bind, wpo_nudged; [by apply wpo_ret|].
  apply wpo_silent_bind; [auto with executor|]. intros [|]; cbn [negb]; [|by apply wpo_ret].
  apply wpo_bind, wpo_answer.
  - apply wpo_silent_bind; [auto with executor|]. intros [|]; by apply wpo_ret.
  - apply wpo_silent_bind; [keep_to|]. intros [e|]; by apply wpo_ret.
Qed.

Lemma drained_ok n m finalize c o e : (∀ r, only silent (finalize r)) → halted n c o →
  wpc (drained finalize c (Returned e)) o (walk_ok m).
Proof.
  intros Hf (Hr&He&Ho&_). eapply wpo_mono; [by apply drain_ok|]. intros o' w (->&?&?&?). unfold walk_ok. split_and!; congruence.
Qed.

Lemma left_over_none c : left_over c <= 0 → c_inFlight c = ∅.
Proof. intros H. unfold left_over in H. apply leibniz_equiv, size_empty_inv. lia. Qed.

Lemma conc_loop_ok fuel : NoDup sh.*1 → ∀ n c o, kept n c o → counted c o →
  wpc (conc_loop limit retries fuel c) o (walk_ok (n + fuel)).
Proof.
  intros Hu. induction fuel as [|fuel IH]; intros n c o Hk Hc; cbn [conc_loop]; (case_match eqn:Er; [apply Z.leb_le in Er; apply wpo_ret|]).
  1,3: destruct Hk as [Hrun ? ? He Ho ? ? ?]; split_and!; [done..|]; intros Hx; rewrite Hrun; apply left_over_none; by rewrite <- Hc.
  { apply wpo_ret. destruct Hk. split_and!; [done..|lia]. }
  apply wpo_silent_bind; [auto with executor|]. intros ids. apply wpo_bind.
  eapply (wpo_mono _ _ _ _ _ (λ o c, kept n c o ∧ counted c o)).
  { destruct ids; [by apply wpo_ret|by apply reviewDecisions_ok]. }
  clear c o Hk Hc Er. intros o c [Hk Hc].
  assert (∀ n' c' o', kept n' c' o' → counted c' o' → n' = S n → wpc (conc_loop limit retries fuel c') o' (walk_ok (n + S fuel))) as Hgo.
  { intros n' c' o' Hk' Hc' ->. replace (n + S fuel)%nat with (S n + fuel)%nat by lia. by apply IH. }
  case_bool_decide as He.
  - apply wpo_bind. eapply wpo_mono; [by apply when_idle_ok|]. intros o1 [|w]; cbn beta.
    + intros [Hk1 Hc1]. apply wpo_bind. eapply wpo_mono; [by apply reviewDecisions_ok|]. intros o2 c2 [??]. by eapply Hgo.
    + intros [Hw Hok]. apply wpo_ret. destruct Hok as (?&?&?). split_and!; [done..|]. by destruct w.
  - apply wpo_bind, wpo_select; [intros e| |intros tid err Ei].
    + apply (drained_ok n); [by intros []|]. destruct Hk. split_and!; simpl; [done..|lia].
    + assert (kept (S n) c (note_event o)) as Hk1 by (destruct Hk; constructor; simpl; try done; lia).
      apply wpo_bind. eapply wpo_mono; [by apply (reviewDecisions_ok (S n))|]. intros o2 c2 [??]. by eapply Hgo.
    + assert (tid ∈ c_inFlight c) as Hf by (by rewrite <- (kp_running _ _ _ Hk)).
      apply wpo_bind. eapply wpo_mono; [by apply (finished_ok n)|]. intros o1 [c1|c1] H1; simpl in H1.
      * destruct H1 as [Hk1 Hc1]. apply wpo_bind. eapply wpo_mono; [by apply (autoFailDeps_ok (S n))|]. intros o2 c2 (?&?&?).
        apply wpo_bind. eapply wpo_mono; [by apply (launch_ok (S n))|]. intros o3 c3 [??]. by eapply Hgo.
      * apply (drained_ok (S n)); [apply silent_drained|done].
Qed.

Lemma conc_walk_ok fuel order : NoDup sh.*1 → ordered sh order →
  wpc (conc_walk limit retries fuel order) (begin order) (walk_ok fuel).
Proof.
  intros Hu Ho. set (c := mkCoord order ∅ ∅ ∅ ∅ (Z.of_nat (length order))).
  assert (kept 0 c (begin order)) as Hk by (by constructor).
  assert (counted c (begin order)) as Hc.
  { intros _. unfold left_over. cbn [c_inFlight c_order c]. rewrite size_empty.
    assert (∀ l, List.filter (untouched c) l = l) as Hall by (intros l; induction l as [|x l IH]; [done|]; simpl; by rewrite IH).
    by rewrite Hall. }
  apply wpo_bind. eapply wpo_mono; [apply (seed_ok 0 order [] c); [done|simpl; set_solver|done..]|]. intros o1 c1 [? ?].
  apply wpo_bind. eapply wpo_mono; [by apply (autoFailDeps_ok 0)|]. intros o2 c2 (?&?&?).
  apply wpo_bind. eapply wpo_mono; [by apply (launch_ok 0)|]. intros o3 c3 [? ?]. by apply (conc_loop_ok fuel Hu 0).
Qed.
End concurrent.
