(* ===== verification/ExecutorTheorems.v ===== *)
(** * The executor of Automata: what it promises

    The order and the limit of the starts, the end of a walk, the outcome of a run,
    and, against a simulated daemon, how runs go, some of them not as intended. *)

From S2P Require Import Prelude Effects GoBase GoText GoFmt TopoSort Executor ExecutorWalk.
From S2P Require Import ExecutorRun ExecutorLemmas.

#[local] Open Scope Z_scope.

(** ** The checks before an Automaton is completed *)

(** What the current pass has seen: the scan of the tasks, the four checks, the
    commit; and whether an outcome was committed, or a closing step taken, out of turn. *)
Record checks := mkChecks {
  k_scan : bool; k_rules : bool; k_review : bool; k_ci : bool; k_tree : bool; k_done : bool; k_breach : bool
}.
Definition unchecked : checks := mkChecks false false false false false false false.
Definition all_checked (k : checks) : bool := k_scan k && k_rules k && k_review k && k_ci k && k_tree k.
Definition clean (r : res bool) : bool := match r with Ok false => true | _ => false end.
Definition approved (r : Review) : bool := match r with Ok (false, None) => true | _ => false end.

Definition note_check (k : checks) (e : event) : checks :=
  let '(mkChecks scan rules review ci tree done breach) := k in
  match e with
  | Event op x =>
      match op in Op X return X → checks with
      | Look RollUp => λ p, mkChecks (prdAllTasksTerminal p && negb (any_failed p)) false false false false false breach
      | ProjectRulesCheck => λ r, mkChecks scan (clean r) review ci tree done breach
      | RulesReview => λ r, mkChecks scan rules (approved r) ci tree done breach
      | CIWatch => λ r, mkChecks scan rules review (approved r) tree done breach
      | WorktreeUncommitted => λ r, mkChecks scan rules review ci (clean r) done breach
      | CommitIfRev expected observed status blocked now => λ p,
          let completes := String.eqb status PRDCompleted in
          mkChecks scan rules review ci tree
            (completes && match committed expected observed status blocked now p with Some _ => true | None => false end)
            (breach || completes && negb (all_checked k))
      | Do s => λ _, mkChecks scan rules review ci tree done (breach || side_effect s && negb done)
      | _ => λ _, k
      end x
  end.

(** Calls that commit no completion and are no closing step. *)
Definition harmless (X : Set) (op : Op X) : Prop :=
  match op with
  | CommitIfRev _ _ status _ _ => status ≠ PRDCompleted
  | Do s => side_effect s = false
  | WithLock f => keeps f
  | _ => True
  end.
(** Calls the checks do not depend on. *)
Definition apart (X : Set) (op : Op X) : Prop :=
  match op with
  | CommitIfRev _ _ _ _ _ | Look RollUp | ProjectRulesCheck | RulesReview | CIWatch | WorktreeUncommitted => False
  | Do s => side_effect s = false
  | WithLock f => keeps f
  | _ => True
  end.
Definition writes_keep (X : Set) (op : Op X) : Prop := match op with WithLock f => keeps f | _ => True end.

Lemma silent_apart {A} (m : Prog A) : only silent m → only apart m.
Proof. intros H. eapply only_mono; [exact H|]. intros X op. destruct op; try done; by destruct w. Qed.
Lemma apart_harmless {A} (m : Prog A) : only apart m → only harmless m.
Proof. intros H. eapply only_mono; [exact H|]. intros X op. destruct op; try done; by destruct w. Qed.
Lemma harmless_keeps {A} (m : Prog A) : only harmless m → only writes_keep m.
Proof. intros H. eapply only_mono; [exact H|]. by intros X []. Qed.

#[local] Hint Resolve silent_apart apart_harmless : executor.
#[local] Hint Extern 3 (only _ (try _ _)) => apply only_try : executor.
#[local] Hint Extern 3 (only _ (looked _)) => (apply only_call; done) : executor.

Section apartness.
Lemma apart_seq_pass retries rest w : only apart (seq_pass retries rest w).
Proof.
  revert w. induction rest as [|tid rest IH]; intros w; cbn [seq_pass]; unfold end_of_order, seq_turn, after_task, run_task; keep_to.
Qed.
#[local] Hint Resolve apart_seq_pass : executor.
Lemma apart_rebuild order : only apart (rebuild_order order).
Proof. unfold rebuild_order. keep_to. Qed.
#[local] Hint Resolve apart_rebuild : executor.
Lemma apart_seq_walk retries fuel order : only apart (seq_walk retries fuel order).
Proof. revert order. induction fuel as [|fuel IH]; intros order; cbn [seq_walk]; keep_to. Qed.

Lemma apart_seed order c : only apart (seed order c).
Proof. revert c. induction order as [|tid order IH]; intros c; cbn [seed]; keep_to. Qed.
Lemma apart_fail_deps order c : only apart (fail_deps order c).
Proof. revert c. induction order as [|tid order IH]; intros c; cbn [fail_deps]; keep_to. Qed.
Lemma apart_launch n retries order c : only apart (launch_from n retries order c).
Proof. revert c. induction order as [|tid order IH]; intros c; cbn [launch_from]; keep_to. Qed.
Lemma apart_review_tasks order c : only apart (review_tasks order c).
Proof. revert c. induction order as [|tid order IH]; intros c; cbn [review_tasks]; keep_to. Qed.
#[local] Hint Resolve apart_seed apart_fail_deps apart_launch apart_review_tasks : executor.
Lemma apart_review n retries c : only apart (reviewDecisions n retries c).
Proof. unfold reviewDecisions, autoFailDeps, launch. keep_to. Qed.
Lemma apart_drain fuel f l w : (∀ r, only silent (f r)) → only apart (drain fuel f l w).
Proof. intros Hf. revert l. induction fuel as [|fuel IH]; intros l; cbn [drain]; keep_to. Qed.
Lemma apart_finished tid err c : only apart (finished tid err c).
Proof. unfold finished. keep_to. Qed.
#[local] Hint Resolve apart_review apart_drain apart_finished : executor.
Lemma apart_conc_loop n retries fuel c : only apart (conc_loop n retries fuel c).
Proof.
  revert c. induction fuel as [|fuel IH]; intros c; cbn [conc_loop]; unfold when_idle, drained, autoFailDeps, launch; keep_to.
  apply apart_drain. by intros r.
Qed.
#[local] Hint Resolve apart_seq_walk apart_conc_loop : executor.
Lemma apart_walk fuel order retries n : only apart (walk fuel order retries n).
Proof. unfold walk, conc_walk, autoFailDeps, launch. keep_to. Qed.

Lemma apart_worktree : only apart ensureWorktreeIfConfigured.
Proof. unfold ensureWorktreeIfConfigured, locked. keep_to. Qed.
Lemma silent_record_decision kind note category : only silent (record_decision kind note category).
Proof. unfold record_decision, locked. keep_to. Qed.
Lemma silent_emit_with kind old v : only silent (emit_with kind old v).
Proof. unfold emit_with, looked. keep_to. Qed.
#[local] Hint Resolve apart_worktree silent_record_decision silent_emit_with : executor.
Lemma apart_baseline : only apart gate_baseline.
Proof. unfold gate_baseline, markGateInvalid, locked. keep_to. Qed.
Lemma apart_admission prdID : only apart (admission prdID).
Proof. unfold admission, locked. keep_to. Qed.
#[local] Hint Resolve apart_baseline apart_admission : executor.
Lemma apart_prepare prdID : only apart (prepare prdID).
Proof. unfold prepare, ensure_ignored, cross_seed, resolveTaskConcurrency, locked. keep_to. Qed.
Lemma apart_corrective v sid : only apart (corrective_work v sid).
Proof. unfold corrective_work. keep_to. Qed.
#[local] Hint Resolve apart_corrective : executor.
Lemma apart_story_checks l : only apart (story_checks l).
Proof. induction l as [|i l IH]; cbn [story_checks]; unfold story_check; keep_to. Qed.
Lemma apart_review_hold : only apart review_hold.
Proof. unfold review_hold, blockForTaskReview. keep_to. Qed.
End apartness.

(** ** The roll-up *)

Section harm.
Lemma harmless_aborted note : only silent (recordRollupAborted note).
Proof. unfold recordRollupAborted. pose proof silent_record_decision. keep_to. Qed.
#[local] Hint Resolve harmless_aborted silent_record_decision silent_emit_with : executor.
Lemma harmless_rollup o status reason blocked : status ≠ PRDCompleted → only harmless (commitRollupStatus o status reason blocked).
Proof. intros Hs. unfold commitRollupStatus, expectedRev. keep_to. Qed.
#[local] Hint Resolve harmless_rollup : executor.
Lemma harmless_commit_and_stop o status reason blocked announce :
  status ≠ PRDCompleted → (∀ old, only silent (announce old)) → only harmless (commit_and_stop o status reason blocked announce).
Proof. intros Hs Ha. unfold commit_and_stop. keep_to. Qed.
Lemma apart_still o : only apart (stillRunning o).
Proof. unfold stillRunning. keep_to. Qed.
#[local] Hint Resolve harmless_commit_and_stop apart_still apart_corrective : executor.
Lemma apart_hold v : only apart (holdRulesReviewForOperator v).
Proof. unfold holdRulesReviewForOperator, locked. keep_to. Qed.
#[local] Hint Resolve apart_hold : executor.
Lemma rulesReviewBlockStatus_open p : (rulesReviewBlockStatus p).1 ≠ PRDCompleted.
Proof. unfold rulesReviewBlockStatus. by repeat case_match. Qed.
#[local] Hint Extern 4 (only silent (mbind _ _)) => keep_to : executor.
Lemma harmless_review_blocked o : only harmless (review_blocked o).
Proof.
  unfold review_blocked. apply only_bind; [auto with executor|]. intros p. cbv zeta. case_match; [keep_to|].
  pose proof (rulesReviewBlockStatus_open p) as Hs. destruct (rulesReviewBlockStatus p) as [status reason]. keep_to.
Qed.
Lemma silent_clear_outcome : only silent clear_outcome.
Proof. unfold clear_outcome, locked. keep_to. Qed.
Lemma harmless_fix o v : only harmless (review_fix o v).
Proof.
  unfold review_fix, fix_failed, fix_created, consume_content, read_base, locked. keep_to.
Qed.
End harm.

Section checking.
Abbreviation wpk := (wp note_check).
Definition sound {A} (k : checks) (_ : A) : Prop := k_breach k = false.

Lemma wpk_bind {A B} (f : A → Prog B) m k Q : wpk m k (λ k a, wpk (f a) k Q) → wpk (m ≫= f) k Q.
Proof. apply wp_bind. Qed.
Lemma wpk_call {B} {X : Set} (op : Op X) (f : X → Prog B) k Q : (∀ x, wpk (f x) (note_check k (Event op x)) Q) → wpk (call op ≫= f) k Q.
Proof. done. Qed.

Lemma note_harmless k X (op : Op X) x : harmless X op → k_breach k = false → k_breach (note_check k (Event op x)) = false.
Proof.
  destruct k as [scan rules review ci tree dn breach]. intros Hop Hk. simpl in Hk. subst breach.
  destruct op; simpl in *; try done.
  - by destruct w.
  - apply String.eqb_neq in Hop. by rewrite Hop.
  - by rewrite Hop.
Qed.
Lemma note_apart k X (op : Op X) x : apart X op → note_check k (Event op x) = k.
Proof.
  destruct k as [scan rules review ci tree dn breach]. intros Hop.
  destruct op; simpl in *; try done; [by destruct w|]. rewrite Hop. by rewrite orb_false_r.
Qed.

Lemma wpk_harmless {A} (m : Prog A) k : only harmless m → k_breach k = false → wpk m k sound.
Proof.
  intros Hm Hk. apply (wp_only harmless note_check (λ k, k_breach k = false)); [done..|]. intros. by apply note_harmless.
Qed.
Lemma wpk_apart {A B} (m : Prog A) (f : A → Prog B) k Q : only apart m → (∀ a, wpk (f a) k Q) → wpk (m ≫= f) k Q.
Proof.
  intros Hm Hf. apply wpk_bind. eapply wp_mono.
  - apply (wp_only apart note_check (λ k', k' = k)); [done..|]. intros s X op x Hop ->. by apply note_apart.
  - intros k' a ->. apply Hf.
Qed.

(** A part of the run leaves it, with nothing out of turn, or goes on with [Q]. *)
Definition leaves (Q : checks → Prop) (k : checks) (l : leave) : Prop := match l with Proceed => Q k | _ => k_breach k = false end.

Lemma wpk_then m k' k (Q : checks → Prop) : wpk m k (leaves Q) → (∀ k, Q k → wpk k' k sound) → wpk (then_ m k') k sound.
Proof. intros H HQ. apply wpk_bind. eapply wp_mono; [exact H|]. intros k1 [e| |] H1; [done|done|]. by apply HQ. Qed.
Lemma wpk_harmless_bind {A B} (m : Prog A) (f : A → Prog B) k Q :
  only harmless m → k_breach k = false → (∀ a k, k_breach k = false → wpk (f a) k Q) → wpk (m ≫= f) k Q.
Proof. intros Hm Hk Hf. apply wpk_bind. eapply wp_mono; [by apply wpk_harmless|]. intros k' a Hk'. by apply Hf. Qed.

Section stops.
Context (Q : checks → Prop).

Lemma stops_commit k o status reason blocked announce : k_breach k = false → status ≠ PRDCompleted → (∀ old, only silent (announce old)) →
  wpk (commit_and_stop o status reason blocked announce) k (leaves Q).
Proof.
  intros Hk Hs Ha. apply wpk_harmless_bind; [by apply harmless_rollup|done|]. intros old k1 H1.
  apply wpk_harmless_bind; [destruct old; keep_to|done|]. by intros [] k2 H2.
Qed.
Lemma stops_corrective k v sid : k_breach k = false → wpk (corrective_work v sid) k (leaves Q).
Proof.
  intros Hk. apply wpk_harmless_bind; [by apply only_call|done|]. intros [e|] k1 H1; [done|].
  apply wpk_harmless_bind; [auto with executor|done|]. by intros e k2 H2.
Qed.
Lemma stops_review_blocked k o : k_breach k = false → wpk (review_blocked o) k (leaves Q).
Proof.
  intros Hk. apply wpk_harmless_bind; [auto with executor|done|]. intros p k1 H1. cbv zeta. case_match.
  - apply wpk_harmless_bind; [auto using apart_hold with executor|done|]. intros [] k2 H2.
    apply wpk_harmless_bind; [auto with executor|done|]. intros q k3 H3. apply stops_commit; [done..|intros; keep_to].
  - pose proof (rulesReviewBlockStatus_open p). destruct (rulesReviewBlockStatus p). apply stops_commit; [done..|intros; keep_to].
Qed.
End stops.

Ltac leave_to :=
  repeat first
    [ done
    | apply stops_commit; [done|done|intros; solve [keep_to]]
    | apply wpk_harmless_bind; [solve [keep_to]|done|intros ? ? ?]
    | progress cbv zeta
    | match goal with |- wpk (match ?x with _ => _ end) _ _ => destruct x end ].

Lemma stops_review_fix o v k (Q : checks → Prop) : k_breach k = false → wpk (review_fix o v) k (leaves Q).
Proof.
  intros Hk. pose proof apart_still. pose proof harmless_aborted. pose proof silent_emit_with. pose proof silent_record_decision.
  unfold review_fix, fix_failed, fix_created, consume_content, read_base, locked. leave_to.
Qed.

(** What has been seen when a check lets the run go on. *)
Definition scanned (k : checks) : Prop := k_breach k = false ∧ k_scan k = true.
Definition ruled (k : checks) : Prop := scanned k ∧ k_rules k = true.
Definition reviewed (k : checks) : Prop := ruled k ∧ k_review k = true.
Definition watched (k : checks) : Prop := reviewed k ∧ k_ci k = true.
Definition committable (k : checks) : Prop := watched k ∧ k_tree k = true.

Lemma rules_check_ok o k : scanned k → wpk (rules_check o) k (leaves ruled).
Proof.
  intros [Hk Hs]. destruct k. apply wpk_bind. pose proof silent_emit_with. intros [[|]|e]; [|done|done].
  apply stops_commit; [done..|intros; keep_to].
Qed.
Lemma rules_review_ok o k : ruled k → wpk (rules_review o) k (leaves reviewed).
Proof.
  intros [[Hk Hs] Hr]. destruct k. apply wpk_bind. intros [[[|] [v|]]|e]; try done; try (by apply stops_review_blocked).
  - by apply stops_review_fix.
  - apply wpk_apart; [apply silent_apart, silent_clear_outcome|done].
Qed.
Lemma ci_watch_ok o k : reviewed k → wpk (ci_watch o) k (leaves watched).
Proof.
  intros [[[Hk Hs] Hr] Hv]. destruct k. apply wpk_bind. pose proof apart_still. pose proof harmless_aborted.
  intros [[[|] v]|e]; [| |done].
  - apply wpk_harmless_bind; [auto with executor|done|]. intros p k1 H1. apply stops_commit; [done..|intros; keep_to].
  - destruct v as [v|]; [|done]. apply wpk_harmless_bind; [auto with executor|done|]. intros [|] k1 H1; cbn [negb]; [by apply stops_corrective|].
    apply wpk_harmless_bind; [auto with executor|done|]. by intros [] k2 H2.
Qed.
Lemma uncommitted_check_ok o k : watched k → wpk (uncommitted_check o) k (leaves committable).
Proof.
  intros [[[[Hk Hs] Hr] Hv] Hc]. destruct k. apply wpk_bind. pose proof silent_emit_with. intros [[|]|e]; [|done|done].
  apply wpk_harmless_bind; [auto with executor|done|]. intros p k1 H1. apply stops_commit; [done..|intros; keep_to].
Qed.

Lemma each_done l k : k_breach k = false → k_done k = true → wpk (each (λ s, call (Do s)) l) k (λ k _, k_breach k = false).
Proof.
  revert k. induction l as [|s l IH]; intros k Hk Hd; [done|]. intros x. destruct k. simpl in *. subst.
  apply IH; simpl; [by rewrite andb_false_r|done].
Qed.

Lemma commit_completed_ok o k : committable k →
  wpk (commitRollupStatus o PRDCompleted "completed" "") k
    (λ k old, k_breach k = false ∧ match old with Some _ => k_done k = true | None => True end).
Proof.
  intros [[[[[Hk Hs] Hr] Hv] Hc] Ht]. apply wpk_apart; [unfold expectedRev; keep_to|]. intros expected. apply wpk_apart; [keep_to|].
  intros [|]; [|done]. cbn [negb]. apply wpk_apart; [keep_to|]. intros now. apply wpk_call. intros p.
  destruct k as [scan rules review ci tree dn breach]. simpl in Hk, Hs, Hr, Hv, Hc, Ht. subst. 
  cbn [note_check]. cbv beta. destruct (committed _ _ _ _ _ _) eqn:E.
  - apply wpk_apart; [keep_to|]. intros [e|]; by split.
  - apply wpk_harmless_bind; [auto using harmless_aborted with executor|done|]. by intros [] k2 H2.
Qed.

Lemma complete_ok o k : committable k → wpk (complete o) k sound.
Proof.
  intros Hk. apply wpk_bind. eapply wp_mono; [by apply commit_completed_ok|]. intros k1 [old|] [H1 Hd]; [|done].
  apply wpk_bind. eapply wp_mono; [by apply each_done|]. intros k2 [] H2. apply wpk_harmless; [keep_to|done].
Qed.

Lemma completion_ok o k : scanned k → wpk (completion o) k sound.
Proof.
  intros Hk. eapply wpk_then; [by apply rules_check_ok|]. intros k1 H1. apply wpk_apart; [keep_to|]. intros [].
  eapply wpk_then; [by apply rules_review_ok|]. intros k2 H2. eapply wpk_then; [by apply ci_watch_ok|]. intros k3 H3.
  eapply wpk_then; [by apply uncommitted_check_ok|]. apply complete_ok.
Qed.

Lemma roll_up_ok k : k_breach k = false → wpk roll_up k sound.
Proof.
  intros Hk. apply (wpk_call (Look RollUp)). intros p. destruct k as [scan rules review ci tree dn breach]. simpl in Hk. subst.
  cbn [note_check]. destruct (prdAllTasksTerminal p); cbn [negb andb]; [|apply wpk_harmless; [keep_to|done]].
  apply wpk_apart; [keep_to|]. intros q. apply wpk_apart; [unfold read_base; keep_to|]. intros [baseRev baseOwn]. cbv zeta.
  destruct (any_failed p); cbn [negb]; [|by apply completion_ok].
  apply wpk_harmless; [|done]. apply harmless_commit_and_stop; [done|intros; keep_to].
Qed.

Lemma leaves_harmless (m : Prog leave) k : only harmless m → k_breach k = false → wpk m k (leaves (λ k, k_breach k = false)).
Proof. intros Hm Hk. eapply wp_mono; [by apply wpk_harmless|]. by intros k' [e| |] Hk'. Qed.

Lemma after_walk_ok k : k_breach k = false → wpk after_walk k sound.
Proof.
  intros Hk. apply wpk_apart; [keep_to|]. intros p. pose proof apart_story_checks. pose proof apart_review_hold.
  eapply wpk_then; [by apply leaves_harmless; auto with executor|]. intros k1 H1.
  eapply wpk_then; [by apply leaves_harmless; auto with executor|]. apply roll_up_ok.
Qed.

Lemma Run_ok wfuel fuel prdID k : k_breach k = false → wpk (Run wfuel fuel prdID) k sound.
Proof.
  revert k. induction fuel as [|fuel IH]; intros k Hk; cbn [Run]; (apply wpk_apart; [apply apart_prepare|]; intros [[[order retries] n]|e];
    [|done]; apply wpk_apart; [apply apart_walk|]; intros [e| |]; [done| |done]; apply wpk_bind;
    eapply wp_mono; [by apply after_walk_ok|]; intros k1 [e| |] H1); [done..|by apply IH|done].
Qed.

(** No write but the commit completes the Automaton. *)
Lemma keeps_then m k : only writes_keep m → only writes_keep k → only writes_keep (then_ m k).
Proof. intros. unfold then_. keep_to. Qed.
#[local] Hint Resolve harmless_keeps keeps_then harmless_aborted silent_emit_with harmless_fix harmless_review_blocked
  silent_clear_outcome apart_still apart_corrective apart_story_checks apart_review_hold apart_walk apart_prepare : executor.
Lemma keeps_commit o status reason blocked : only writes_keep (commitRollupStatus o status reason blocked).
Proof. unfold commitRollupStatus, expectedRev. keep_to. Qed.
#[local] Hint Resolve keeps_commit : executor.
Lemma keeps_and_stop o status reason blocked announce : (∀ old, only silent (announce old)) →
  only writes_keep (commit_and_stop o status reason blocked announce).
Proof. intros Ha. unfold commit_and_stop. keep_to. Qed.
#[local] Hint Resolve keeps_and_stop : executor.
#[local] Hint Extern 4 (only silent (mbind _ _)) => keep_to : executor.
Lemma keeps_complete o : only writes_keep (complete o).
Proof. unfold complete. keep_to. Qed.
#[local] Hint Resolve keeps_complete : executor.
Lemma keeps_completion o : only writes_keep (completion o).
Proof.
  apply keeps_then; [unfold rules_check; keep_to|]. apply only_bind; [done|intros []].
  apply keeps_then; [unfold rules_review; keep_to|]. apply keeps_then; [unfold ci_watch; keep_to|].
  apply keeps_then; [unfold uncommitted_check|]; keep_to.
Qed.
#[local] Hint Resolve keeps_completion : executor.
Lemma keeps_roll_up : only writes_keep roll_up.
Proof. unfold roll_up, read_base. keep_to. Qed.
#[local] Hint Resolve keeps_roll_up : executor.
Lemma keeps_Run wfuel fuel prdID : only writes_keep (Run wfuel fuel prdID).
Proof. induction fuel as [|fuel IH]; cbn [Run]; unfold after_walk; keep_to. Qed.
End checking.

(** C9: an Automaton completed by a run was seen with every task over and none failed,
    and then passed the four checks of that pass; the closing steps of the run
    (metrics, milestone, memory report, its push of the validated work, the ends of
    worktree and cluster) come only behind a commit that went through; no other write
    the run itself makes completes it. What happens inside [ExecuteOne], where a task
    that passed its checks is pushed too, and inside the other calls is outside. *)
Theorem completed_only_when_checked wfuel fuel prdID t r :
  runs (Run wfuel fuel prdID) t r →
  k_breach (foldl note_check unchecked t) = false
  ∧ ∀ f p, Event (WithLock f) p ∈ t → ∀ q, p_Status (f q) = PRDCompleted → p_Status q = PRDCompleted.
Proof.
  intros Hr. split; [exact (proj1 (wp_runs _ _ _ _) (Run_ok wfuel fuel prdID unchecked eq_refl) t r Hr)|].
  intros f p Hi q. pose proof (only_runs _ _ _ _ (keeps_Run wfuel fuel prdID) Hr) as Hall.
  rewrite Forall_forall in Hall. exact (Hall _ Hi q).
Qed.

(** ** The walk *)

(** The Automaton as the walk starts: its tasks have ids of their own, and
    [order] is the order of them. *)
Definition starts_from (p : PRD) (order : list string) : Prop :=
  NoDup (t_ID <$> all_tasks p) ∧ topoSort (flattenTasks p) = Ok order.

Lemma shape_task_ids p : (shape p).*1 = t_ID <$> all_tasks p.
Proof. unfold shape. by rewrite <- list_fmap_compose. Qed.
Lemma starts_ordered p order : starts_from p order → NoDup (shape p).*1 ∧ ordered (shape p) order.
Proof. intros [Hn Ht]. rewrite <- shape_task_ids in Hn. split; [done|]. by eapply topoSort_ordered. Qed.

(** The observer of a walk that starts from [p]: several at once wait for all they
    depend on, one after the other for what is in the order. *)
Definition watch (p : PRD) (concurrency : Z) : list string → list event → option obs :=
  observed_by (shape p) (negb (concurrency <=? 1)) concurrency.

Lemma seq_seen p fuel order retries limit : starts_from p order →
  wpo (shape p) false limit (seq_walk retries fuel order) (begin order)
    (λ o w, o_early o = false ∧ (w = NoFuel → (S fuel ≤ o_events o)%nat)).
Proof. intros [Hu Ho]%starts_ordered. apply (seq_walk_ok (shape p) limit retries fuel Hu order 0). by split_and!. Qed.
Lemma conc_seen p fuel order retries limit : starts_from p order →
  wpo (shape p) true limit (conc_walk limit retries fuel order) (begin order) (walk_ok fuel).
Proof. intros [Hu Ho]%starts_ordered. by apply conc_walk_ok. Qed.

Lemma watched_walk p fuel order retries concurrency t w o :
  starts_from p order → runs (walk fuel order retries concurrency) t w → watch p concurrency order t = Some o →
  o_early o = false ∧ (w = NoFuel → (fuel ≤ o_events o)%nat).
Proof.
  intros Hs Hr Ho. unfold walk, watch in *. destruct (concurrency <=? 1); cbn [negb] in Ho.
  - destruct (wpo_runs _ _ _ _ _ _ _ _ _ (seq_seen p fuel order retries concurrency Hs) Hr Ho) as [He Hn].
    split; [done|]. intros Hw. specialize (Hn Hw). lia.
  - destruct (wpo_runs _ _ _ _ _ _ _ _ _ (conc_seen p fuel order retries concurrency Hs) Hr Ho) as (He&_&Hn).
    split; [done|]. by intros ->.
Qed.

(** *** What a walk saw of its tasks *)

Definition started_of (e : event) : list string :=
  match e with Event op _ => match op with ExecuteOne tid _ | Launch tid _ => [tid] | _ => [] end end.
Definition started (t : list event) : list string := t ≫= started_of.

(** The task a call looks at, at its turn or as its worker came back, and the
    status it shows. *)
Definition seen_task (e : event) : option (bool * string * string) :=
  match e with
  | Event op x =>
      match op in Op X return X → option (bool * string * string) with
      | Look (Turn tid) => λ p, Some (false, tid, status_of p tid)
      | Look (Outcome tid) => λ p, Some (true, tid, status_of p tid)
      | _ => λ _, None
      end x
  end.
Definition sight (m : gmap string string) (e : event) : gmap string string :=
  match seen_task e with Some (_, tid, st) => <[tid := st]> m | None => m end.
(** The status each task was last seen with. *)
Definition last_seen (t : list event) : gmap string string := foldl sight ∅ t.

Definition sorted_anew (order : list string) (e : event) : list string :=
  match e with
  | Event op x =>
      match op in Op X return X → list string with
      | Look ForOrder => λ p, match topoSort (flattenTasks p) with Ok l => l | Err _ => order end
      | _ => λ _, order
      end x
  end.
(** The order that is walked after [t]. *)
Definition order_after (order : list string) (t : list event) : list string := foldl sorted_anew order t.

(** A worker comes back with its task completed, failed, held for review or
    blocked, and a task that was completed is still so when it is looked at again,
    unless it failed, was cancelled or is to be done again. *)
Definition one_of (l : list string) (st : string) : bool := existsb (String.eqb st) l.
Definition regular_at (m : gmap string string) (e : event) : bool :=
  match seen_task e with
  | Some (true, _, st) => one_of [TaskCompleted; TaskFailed; TaskReviewNeeded; TaskBlocked] st
  | Some (false, tid, st) =>
      negb (bool_decide (m !! tid = Some TaskCompleted))
      || one_of [TaskCompleted; TaskFailed; TaskCancelled] st || String.eqb (normTaskStatus st) TaskPending
  | None => true
  end.
Fixpoint regular_from (m : gmap string string) (t : list event) : bool :=
  match t with [] => true | e :: t => regular_at m e && regular_from (sight m e) t end.
Definition regular (t : list event) : bool := regular_from ∅ t.

Lemma one_of_spec l st : one_of l st = true ↔ st ∈ l.
Proof.
  unfold one_of. rewrite existsb_exists. split.
  - intros (x&Hx&->%String.eqb_eq). by apply list_elem_of_In.
  - intros Hx. exists st. split; [by apply list_elem_of_In|apply String.eqb_refl].
Qed.
Lemma regular_app m t1 t2 : regular_from m (t1 ++ t2) = regular_from m t1 && regular_from (foldl sight m t1) t2.
Proof. revert m. induction t1 as [|e t1 IH]; intros m; [done|]. simpl. by rewrite IH, andb_assoc. Qed.

Section order.
Context (sh : list (string * list string)) (strict : bool) (limit : Z) (order : list string).
#[local] Abbreviation nexts := (foldl (next sh strict limit)).

Lemma nexts_none t : nexts None t = None.
Proof. by induction t. Qed.
Lemma next_early o e o' : next sh strict limit (Some o) e = Some o' → o_early o' = false → o_early o = false.
Proof.
  destruct e as [X op x]. simpl. destruct op; simpl in *; repeat (case_match; simpl in *); intros; simplify_eq/=; try done; try congruence.
  all: try (destruct w; simpl in *; repeat case_match; done).
  all: repeat match goal with H : _ || _ = false |- _ => apply orb_false_iff in H as [? ?] end; done.
Qed.
Lemma nexts_early t o o' : nexts (Some o) t = Some o' → o_early o' = false → o_early o = false.
Proof.
  revert o. induction t as [|e t IH]; intros o H He; [by simpl in H; simplify_eq|]. cbn [foldl] in H.
  destruct (next sh strict limit (Some o) e) as [o1|] eqn:E; [|by rewrite nexts_none in H].
  eapply next_early; [exact E|by eapply IH].
Qed.

Lemma look_turn_met tid st met : tid ∈ look_turn tid st met →
  st = TaskCompleted ∨ tid ∈ met ∧ st ∉ [TaskCompleted; TaskFailed; TaskCancelled] ∧ normTaskStatus st ≠ TaskPending.
Proof.
  unfold look_turn, failed_or_cancelled. destruct (String.eqb_spec st TaskCompleted); [by left|].
  destruct (_ || _) eqn:E; [set_solver|]. rewrite !orb_false_iff, !String.eqb_neq in E. set_solver.
Qed.
Lemma look_outcome_met tid st met : tid ∈ look_outcome tid st met → st ∉ [TaskFailed; TaskReviewNeeded; TaskBlocked].
Proof. unfold look_outcome. destruct (_ || _) eqn:E; [set_solver|]. rewrite !orb_false_iff, !String.eqb_neq in E. set_solver. Qed.

(** Whatever the observer counts as met was last seen completed. *)
Definition known (t : list event) (o : obs) : Prop :=
  o_order o = order_after order t ∧ ∀ d, d ∈ o_met o → last_seen t !! d = Some TaskCompleted.

Lemma known_step t o e o' :
  known t o → regular_at (last_seen t) e = true → next sh strict limit (Some o) e = Some o' → known (t ++ [e]) o'.
Proof.
  intros [Ho Hm] Hr Hn. unfold known, last_seen, order_after. rewrite !foldl_app. fold (last_seen t) (order_after order t). cbn [foldl].
  destruct e as [X op x]. unfold regular_at, sight in *.
  destruct op; simpl in *; try (repeat (case_match; simpl in *); simplify_eq/=; done).
  case_bool_decide; [|done]. injection Hn as <-. destruct w; simpl in *; try (by split).
  - split; [done|]. intros d. rewrite lookup_insert. destruct (decide (tid = d)) as [<-|Ed]; [|by rewrite look_turn_other; auto].
    intros [->|(Hd&Hx&Hp)]%look_turn_met; [done|]. exfalso. rewrite bool_decide_true in Hr by auto.
    apply orb_true_iff in Hr as [Hr|Hr%String.eqb_eq]; [|done]. by apply Hx, one_of_spec.
  - split; [done|]. intros d. rewrite lookup_insert. destruct (decide (tid = d)) as [<-|Ed]; [|by rewrite look_outcome_other; auto].
    intros Hd%look_outcome_met. f_equal. apply (one_of_spec [_; _; _; _]) in Hr. set_solver.
  - split; [|by case_match]. rewrite <- Ho. by destruct (topoSort _).
Qed.

Lemma known_run t2 : ∀ t1 o o', known t1 o → regular_from (last_seen t1) t2 = true →
  nexts (Some o) t2 = Some o' → known (t1 ++ t2) o'.
Proof.
  induction t2 as [|e t2 IH]; intros t1 o o' Hk Hr H; [by rewrite app_nil_r; simpl in H; simplify_eq|]. cbn [foldl] in H.
  destruct (next sh strict limit (Some o) e) as [o1|] eqn:E; [|by rewrite nexts_none in H].
  apply andb_true_iff in Hr as [Hr Hrs]. rewrite cons_middle, app_assoc. apply (IH _ o1); [by eapply known_step| |done].
  unfold last_seen. by rewrite foldl_app.
Qed.

(** A start that is not early, and what was seen before it. *)
Lemma started_ready t1 e t2 o tid :
  regular (t1 ++ e :: t2) = true → observed_by sh strict limit order (t1 ++ e :: t2) = Some o → o_early o = false →
  tid ∈ started_of e →
  ∀ d, d ∈ deps_of sh tid → strict = true ∨ d ∈ order_after order t1 → last_seen t1 !! d = Some TaskCompleted.
Proof.
  unfold observed_by. rewrite foldl_app. intros Hr Ho He Hs d Hd Hw.
  destruct (nexts (Some (begin order)) t1) as [o1|] eqn:E1; [|by rewrite nexts_none in Ho].
  assert (known t1 o1) as [Hor Hm].
  { unfold regular in Hr. rewrite regular_app in Hr. apply andb_true_iff in Hr as [Hr _].
    apply (known_run t1 [] (begin order)); [|done..]. split; [done|]. intros x Hx. by apply elem_of_empty in Hx. }
  cbn [foldl] in Ho. destruct (next sh strict limit (Some o1) e) as [o2|] eqn:E2; [|by rewrite nexts_none in Ho].
  pose proof (nexts_early _ _ _ Ho He) as He2.
  assert (ready sh strict tid o1 = true) as Hready.
  { destruct e as [X op x]. destruct op; simpl in Hs; try (by apply elem_of_nil in Hs); apply list_elem_of_singleton in Hs as ->;
      simpl in E2; injection E2 as <-; simpl in He2; by apply orb_false_iff in He2 as [_ He2%negb_false_iff]. }
  unfold ready in Hready. rewrite forallb_forall in Hready. apply list_elem_of_In in Hd. specialize (Hready d Hd).
  apply orb_true_iff in Hready as [Hx|Hx]; [|by apply Hm; apply bool_decide_eq_true in Hx]. exfalso.
  apply andb_true_iff in Hx as [Hx1%negb_true_iff Hx2%negb_true_iff]. destruct Hw as [->|Hw]; [done|].
  rewrite <- not_true_iff_false in Hx2. apply Hx2, existsb_exists. exists d. rewrite Hor. split; [by apply list_elem_of_In|apply String.eqb_refl].
Qed.
End order.

(** C8: a task is started only when every task it depends on (for a walk that runs
    one task after the other, every one in the order it walks) was last seen
    completed. It holds as long as the Automaton stays there and its tasks keep
    their ids and dependencies ([watch]), workers come back with their task
    completed, failed, held for review or blocked, and a completed task is only
    undone by being failed, cancelled or set to be done again ([regular]); what else
    the workers, the operator and the store do is free. A task cancelled while its
    worker runs is outside: [cancelled_counts_as_done]. *)
Theorem walk_starts_in_order p fuel order retries concurrency t w :
  starts_from p order → runs (walk fuel order retries concurrency) t w →
  is_Some (watch p concurrency order t) → regular t = true →
  ∀ t1 e t2 tid, t = t1 ++ e :: t2 → tid ∈ started_of e →
  ∀ d, d ∈ deps_of (shape p) tid → 1 < concurrency ∨ d ∈ order_after order t1 →
  last_seen t1 !! d = Some TaskCompleted.
Proof.
  intros Hs Hr [o Ho] Hreg t1 e t2 tid -> Htid d Hd Hw.
  destruct (watched_walk p fuel order retries concurrency _ w o Hs Hr Ho) as [He _].
  refine (started_ready _ _ _ _ t1 e t2 o tid Hreg Ho He Htid d Hd _). destruct Hw as [Hw|Hw]; [left|by right].
  apply negb_true_iff, Z.leb_gt. lia.
Qed.

(** C30: a walk that runs out of fuel was given that many results, wake-ups, decisions
    and answers: it never goes round by itself. *)
Theorem walk_never_spins p fuel order retries concurrency t o :
  starts_from p order → runs (walk fuel order retries concurrency) t NoFuel → watch p concurrency order t = Some o →
  (fuel ≤ o_events o)%nat.
Proof. intros Hs Hr Ho. by destruct (watched_walk p fuel order retries concurrency t NoFuel o Hs Hr Ho) as [_ Hn]; apply Hn. Qed.

(** C28: the coordinator never has more workers running than the limit, nor two for one
    task. *)
Theorem workers_within_limit p fuel order retries limit t w o :
  starts_from p order → runs (conc_walk limit retries fuel order) t w → observed_by (shape p) true limit order t = Some o →
  o_over o = false.
Proof. intros Hs Hr Ho. by destruct (wpo_runs _ _ _ _ _ _ _ _ _ (conc_seen p fuel order retries limit Hs) Hr Ho) as (_&?&_). Qed.

(** C29: when the coordinator returns from the run, every worker has come back; when it
    goes on to the roll-up too, unless a task was held for review. *)
Theorem coordinator_leaves_none_running p fuel order retries limit t w o :
  starts_from p order → runs (conc_walk limit retries fuel order) t w → observed_by (shape p) true limit order t = Some o →
  match w with
  | Returned _ => o_running o = ∅
  | WalkedAll => o_reviewed o = false → o_running o = ∅
  | NoFuel => (fuel ≤ o_events o)%nat
  end.
Proof. intros Hs Hr Ho. by destruct (wpo_runs _ _ _ _ _ _ _ _ _ (conc_seen p fuel order retries limit Hs) Hr Ho) as (_&_&?). Qed.

(** ** A simulated daemon *)

(** The record, the workers that run, what each does to the record when it ends, how
    many run at once, and which comes back next (the operator, for "!"; when the
    list is done, the one that started first). Every check passes. *)
Record world := mkWorld {
  w_prd : PRD; w_running : list string; w_work : string → PRD → PRD; w_limit : Z; w_script : list string
}.
Definition change (f : PRD → PRD) (w : world) : world := mkWorld (f (w_prd w)) (w_running w) (w_work w) (w_limit w) (w_script w).
Definition ended (tid : string) (script : list string) (w : world) : world :=
  mkWorld (w_work w tid (w_prd w)) (List.filter (λ x, negb (String.eqb x tid)) (w_running w)) (w_work w) (w_limit w) script.

Definition answer (X : Set) (w : world) (op : Op X) : world * X :=
  match op in Op X return world * X with
  | GetPRD => (w, true)
  | Look _ => (w, w_prd w)
  | WithLock f => (change f w, w_prd w)
  | CommitIfRev expected observed status blocked now =>
      (match committed expected observed status blocked now (w_prd w) with Some p => change (λ _, p) w | None => w end, w_prd w)
  | Persist => (w, None)
  | Publish _ | Do _ => (w, tt)
  | Now => (w, 0)
  | InfraConfig => (w, mkInfra None None)
  | ContinueDefault => (w, false)
  | PolicyConcurrency => (w, None)
  | ConcurrencyDefault => (w, w_limit w)
  | SpawnRetries => (w, 1)
  | GateConfig => (w, None)
  | GetQuestion _ => (w, None)
  | CtxErr => (w, None)
  | Nudged => (w, false)
  | AwaitAnswer => (w, false)
  | ExecuteOne tid _ => (change (w_work w tid) w, None)
  | Launch tid _ => (mkWorld (w_prd w) (w_running w ++ [tid]) (w_work w) (w_limit w) (w_script w), tt)
  | Select =>
      match w_script w, w_running w with
      | tid :: l, _ => (ended tid l w, if String.eqb tid "!" then Woken else Finished tid None)
      | [], tid :: _ => (ended tid [] w, Finished tid None)
      | [], [] => (w, Woken)
      end
  | Receive => match w_running w with tid :: _ => (ended tid [] w, (tid, None)) | [] => (w, ("", None)) end
  | AdmitTree | PreflightModelBackend => (w, None)
  | WorktreeBaseRepo => (w, "")
  | EnsureWorktree _ => (w, Ok ("", ""))
  | CrossSeedWired => (w, false)
  | QualityGates => (w, (false, ""))
  | BaselineRun _ _ => (w, (true, ""))
  | GateScopeFull => (w, true)
  | StoryGuardrails _ | RulesReview | CIWatch => (w, Ok (false, None))
  | SynthesizeCorrectiveWork _ _ => (w, None)
  | OwnSaves => (w, 0)
  | ProjectRulesCheck | WorktreeUncommitted => (w, Ok false)
  | SynthesizeRulesReviewFix _ _ => (w, Ok None)
  | ContentBudget | RetryCeiling => (w, 0)
  | ContentAutoFix => (w, true)
  end.

Definition a_task (id : string) (deps : list string) : Task :=
  mkTask id "" "" "" "" TaskPending deps "" None [] "" None "" None None 0 0.
Definition a_PRD (tasks : list Task) : PRD :=
  mkPRD "p1" "Try it" PRDApproved false [mkStory "s1" StoryPending tasks []] "" [] [] 0 0 "" "" "" "" 0 None (mkSeed false 0 [] []) ∅
    None None "" "".
(** [c] comes after [a] and [b], [b] after [a]. *)
Definition chain : PRD := a_PRD [a_task "c" ["a"; "b"]; a_task "b" ["a"]; a_task "a" []].
Definition to_status (st tid : string) : PRD → PRD := edit_task (set_t_Status st) tid.

Definition published_of (e : event) : list string :=
  match e with Event op _ => match op with Publish (PRDStatusEvent _ new _ _) => [new] | _ => [] end end.
Definition published (t : list event) : list string := t ≫= published_of.

Definition order_of (p : PRD) : list string := match topoSort (flattenTasks p) with Ok l => l | Err _ => [] end.
Definition run_of (p : PRD) (n : Z) (work : string → PRD → PRD) : list event * option (option error) :=
  play answer (Run 10 0 "p1") (mkWorld p [] work n []).
Definition walk_of (fuel : nat) (p : PRD) (n : Z) (script : list string) (work : string → PRD → PRD) : list event * walked :=
  play answer (walk fuel (order_of p) 1 n) (mkWorld p [] work n script).
Definition done_by (st : string → string) (tid : string) : PRD → PRD := to_status (st tid) tid.
Definition all_done : string → PRD → PRD := done_by (λ _, TaskCompleted).
Definition but (tid st : string) : string → PRD → PRD := done_by (λ x, if String.eqb x tid then st else TaskCompleted).

Example runs_in_order :
  started (run_of chain 1 all_done).1 = ["a"; "b"; "c"] ∧ started (run_of chain 3 all_done).1 = ["a"; "b"; "c"]
  ∧ (run_of chain 3 all_done).2 = Some None ∧ published (run_of chain 3 all_done).1 = ["running"; "completed"].
Proof. vm_compute. by repeat split. Qed.
Example fails_behind :
  started (run_of chain 1 (but "a" TaskFailed)).1 = ["a"] ∧ published (run_of chain 1 (but "a" TaskFailed)).1 = ["running"; "failed"]
  ∧ started (run_of chain 3 (but "a" TaskFailed)).1 = ["a"].
Proof. vm_compute. by repeat split. Qed.

(** *** The theorems at these runs *)

Lemma chain_starts : starts_from chain (order_of chain).
Proof. split; [apply (bool_decide_unpack _); vm_compute; exact I|vm_compute; reflexivity]. Qed.

(** The walks of [chain], one and two at a time. *)
Definition chain_walk (n : Z) : list event := (walk_of 10 chain n [] all_done).1.
Lemma walk_starts_in_order_witness :
  started (chain_walk 2) = ["a"; "b"; "c"] ∧
  (∀ t1 e t2 tid, chain_walk 2 = t1 ++ e :: t2 → tid ∈ started_of e →
   ∀ d, d ∈ deps_of (shape chain) tid → 1 < 2 ∨ d ∈ order_after (order_of chain) t1 → last_seen t1 !! d = Some TaskCompleted) ∧
  (∀ t1 e t2 tid, chain_walk 1 = t1 ++ e :: t2 → tid ∈ started_of e →
   ∀ d, d ∈ deps_of (shape chain) tid → 1 < 1 ∨ d ∈ order_after (order_of chain) t1 → last_seen t1 !! d = Some TaskCompleted).
Proof.
  split; [vm_compute; reflexivity|]. split.
  - apply (walk_starts_in_order chain 10 (order_of chain) 1 2 _ _ chain_starts (play_runs answer (walk 10 (order_of chain) 1 2) (mkWorld chain [] all_done 2 [])));
      [eexists; vm_compute; reflexivity|vm_compute; reflexivity].
  - apply (walk_starts_in_order chain 10 (order_of chain) 1 1 _ _ chain_starts (play_runs answer (walk 10 (order_of chain) 1 1) (mkWorld chain [] all_done 1 [])));
      [eexists; vm_compute; reflexivity|vm_compute; reflexivity].
Defined.

(** Fuel for one result only. *)
Lemma walk_never_spins_witness :
  match watch chain 2 (order_of chain) (walk_of 1 chain 2 [] all_done).1 with Some o => (1 ≤ o_events o)%nat | None => False end.
Proof.
  assert ((walk_of 1 chain 2 [] all_done).2 = NoFuel) as Hw by (vm_compute; reflexivity).
  pose proof (play_runs answer (walk 1 (order_of chain) 1 2) (mkWorld chain [] all_done 2 [])) as Hr.
  change (play _ _ _) with (walk_of 1 chain 2 [] all_done) in Hr. rewrite Hw in Hr.
  destruct (watch _ _ _ _) as [o|] eqn:E; [|vm_compute in E; discriminate].
  exact (walk_never_spins chain 1 (order_of chain) 1 2 _ o chain_starts Hr E).
Defined.

Lemma workers_within_limit_witness :
  match observed_by (shape chain) true 2 (order_of chain) (walk_of 10 chain 2 [] all_done).1 with Some o => o_over o = false | None => False end.
Proof.
  destruct (observed_by _ _ _ _ _) as [o|] eqn:E; [|vm_compute in E; discriminate].
  exact (workers_within_limit chain 10 (order_of chain) 1 2 _ _ o chain_starts (play_runs answer (conc_walk 2 1 10 (order_of chain)) _) E).
Defined.

Lemma coordinator_leaves_none_running_witness :
  match observed_by (shape chain) true 2 (order_of chain) (walk_of 10 chain 2 [] all_done).1 with
  | Some o => o_reviewed o = false → o_running o = ∅
  | None => False
  end.
Proof.
  destruct (observed_by _ _ _ _ _) as [o|] eqn:E; [|vm_compute in E; discriminate].
  assert ((walk_of 10 chain 2 [] all_done).2 = WalkedAll) as Hw by (vm_compute; reflexivity).
  pose proof (play_runs answer (conc_walk 2 1 10 (order_of chain)) (mkWorld chain [] all_done 2 [])) as Hr.
  change (play _ _ _) with (walk_of 10 chain 2 [] all_done) in Hr. rewrite Hw in Hr.
  exact (coordinator_leaves_none_running chain 10 (order_of chain) 1 2 _ _ o chain_starts Hr E).
Defined.

(** A run that completes [chain] and pushes it. *)
Lemma completed_only_when_checked_witness :
  k_done (foldl note_check unchecked (run_of chain 2 all_done).1) = true
  ∧ k_breach (foldl note_check unchecked (run_of chain 2 all_done).1) = false.
Proof.
  split; [vm_compute; reflexivity|].
  exact (proj1 (completed_only_when_checked 10 0 "p1" _ _ (play_runs answer (Run 10 0 "p1") (mkWorld chain [] all_done 2 [])))).
Defined.

(** *** What is not as intended *)

(** Paused while its first task runs, an Automaton that runs one task after the
    other goes on to the end and is completed; several at once, it stops. *)
Definition pausing (tid : string) (p : PRD) : PRD := (if String.eqb tid "a" then set_p_Status PRDPaused else id) (all_done tid p).
Example pause_ignored :
  started (run_of chain 1 pausing).1 = ["a"; "b"; "c"] ∧ published (run_of chain 1 pausing).1 = ["running"; "completed"]
  ∧ started (run_of chain 3 pausing).1 = ["a"] ∧ published (run_of chain 3 pausing).1 = ["running"].
Proof. vm_compute. by repeat split. Qed.

(** A task cancelled while it runs counts as done for the tasks behind it. *)
Example cancelled_counts_as_done :
  started (run_of chain 1 (but "a" TaskCancelled)).1 = ["a"; "b"; "c"]
  ∧ started (run_of chain 3 (but "a" TaskCancelled)).1 = ["a"; "b"; "c"].
Proof. vm_compute. by repeat split. Qed.

(** A task behind one that waits for approval is started by the sequential walk
    only. *)
Definition unapproved : PRD := a_PRD [a_task "b" ["a"]; set_t_Status TaskAwaitingApproval (a_task "a" [])].
Example runs_before_approval :
  started (run_of unapproved 1 all_done).1 = ["b"] ∧ started (run_of unapproved 3 all_done).1 = [].
Proof. vm_compute. by repeat split. Qed.

(** A judge that timed out on a task sends the Automaton to review when it runs one
    task after the other, and blocks it when it runs several. *)
Definition timed_out (tid : string) : PRD → PRD :=
  edit_task (λ t, mkTask (t_ID t) "" "" "" "" TaskBlocked [] "" None [mkVerdict "rules" "block" "" [] JudgeTimeoutCategory "" "" ""]
                    "" None "" None None 0 0) tid.
Example timeout_differs :
  published (run_of chain 1 timed_out).1 = ["running"; "needs_review"] ∧ published (run_of chain 3 timed_out).1 = ["running"; "blocked"].
Proof. vm_compute. by repeat split. Qed.

(** [b] comes back held for review while [a], which it depends on, is tried again and
    fails: [b] is failed and counted twice, and the walk ends with [c] running. *)
Definition apart_c : PRD := a_PRD [a_task "a" []; a_task "b" ["a"]; a_task "c" []].
Definition retrying (tid : string) (p : PRD) : PRD :=
  if String.eqb tid "!" then to_status TaskPending "a" p
  else if String.eqb tid "a" then to_status (if String.eqb (status_of p "b") TaskReviewNeeded then TaskFailed else TaskCompleted) "a" p
  else to_status TaskReviewNeeded tid p.
Definition left_behind : list event * walked := walk_of 10 apart_c 3 ["a"; "!"; "b"; "a"] retrying.
Example worker_left_running :
  left_behind.2 = WalkedAll
  ∧ match observed_by (shape apart_c) true 3 (order_of apart_c) left_behind.1 with Some o => o_running o = {["c"]} | None => False end.
Proof. vm_compute. by split. Qed.
