(* ===== verification/Federation.v ===== *)
(** * Federation: capabilities, groups and peers

    internal/federation/capabilities.go (the capabilities, the built-in groups,
    [Resolve], [Check]), mcp_tool_caps.go (which capability a tool needs),
    group_store.go (the operator's own groups) and
    internal/server/multiserver/store.go (the registry of other instances, whose
    federated entries are the peers a request can come from). [MapRange] gives the
    order of a range over a map; a store's file is what its last successful write
    left. *)

From S2P Require Import Prelude GoBase GoText RecordStore.

#[local] Open Scope Z_scope.

(** ** Capabilities and built-in groups *)

Definition CapSessionsList : string := "sessions:list".
Definition CapSessionsRead : string := "sessions:read".
Definition CapSessionsWrite : string := "sessions:write".
Definition CapSessionsKill : string := "sessions:kill".
Definition CapSessionsInput : string := "sessions:input".
Definition CapSessionsResultWrite : string := "sessions:result_write".
Definition CapAgentsList : string := "agents:list".
Definition CapAgentsRead : string := "agents:read".
Definition CapAgentsSpawn : string := "agents:spawn".
Definition CapAgentsTerminate : string := "agents:terminate".
Definition CapObserversList : string := "observers:list".
Definition CapObserversRead : string := "observers:read".
Definition CapObserversWrite : string := "observers:write".
Definition CapObserversReadAllPeers : string := "observers:read-all-peers".
Definition CapLLMsList : string := "llms:list".
Definition CapLLMsRead : string := "llms:read".
Definition CapLLMsWrite : string := "llms:write".
Definition CapComputeList : string := "compute:list".
Definition CapComputeRead : string := "compute:read".
Definition CapComputeWrite : string := "compute:write".
Definition CapAnalyticsRead : string := "analytics:read".
Definition CapAnalyticsWrite : string := "analytics:write".
Definition CapHealthRead : string := "health:read".
Definition CapConfigRead : string := "config:read".
Definition CapConfigWrite : string := "config:write".
Definition CapUsageRead : string := "usage:read".
Definition CapUsageWrite : string := "usage:write".
Definition CapPluginRead : string := "plugin:read".
Definition CapPluginWrite : string := "plugin:write".
Definition CapSecretsList : string := "secrets:list".
Definition CapSecretsRead : string := "secrets:read".
Definition CapSecretsWrite : string := "secrets:write".
Definition CapPipelinesList : string := "pipelines:list".
Definition CapPipelinesRead : string := "pipelines:read".
Definition CapPipelinesStart : string := "pipelines:start".
Definition CapPipelinesCancel : string := "pipelines:cancel".
Definition CapAutonomousList : string := "autonomous:list".
Definition CapAutonomousRead : string := "autonomous:read".
Definition CapAutonomousWrite : string := "autonomous:write".
Definition CapAutonomousRun : string := "autonomous:run".
Definition CapCouncilList : string := "council:list".
Definition CapCouncilRead : string := "council:read".
Definition CapCouncilRun : string := "council:run".
Definition CapFederationList : string := "federation:list".
Definition CapFederationRead : string := "federation:read".
Definition CapFederationWrite : string := "federation:write".
Definition CapFederationSelf : string := "federation:self".
Definition CapFederationFingerprint : string := "federation:fingerprint".
Definition CapDocsRead : string := "docs:read".
Definition CapAuditRead : string := "audit:read".
Definition CapCommRead : string := "comm:read".
Definition CapCommWrite : string := "comm:write".
Definition CapAlertsList : string := "alerts:list".
Definition CapAlertsRead : string := "alerts:read".
Definition CapAlertsWrite : string := "alerts:write".
Definition CapDashboardRead : string := "dashboard:read".
Definition CapDashboardWrite : string := "dashboard:write".
Definition CapQueueRead : string := "queue:read".
Definition CapQueueWrite : string := "queue:write".
Definition CapResultsList : string := "results:list".
Definition CapResultsRead : string := "results:read".
Definition CapResultsWrite : string := "results:write".
Definition CapMemoryRead : string := "memory:read".
Definition CapMemoryWrite : string := "memory:write".

Definition allCaps : list string := [
  CapSessionsList; CapSessionsRead; CapSessionsWrite; CapSessionsKill; CapSessionsInput; CapAgentsList;
  CapAgentsRead; CapAgentsSpawn; CapAgentsTerminate; CapObserversList; CapObserversRead; CapObserversWrite;
  CapObserversReadAllPeers; CapLLMsList; CapLLMsRead; CapLLMsWrite; CapComputeList; CapComputeRead;
  CapComputeWrite; CapAnalyticsRead; CapAnalyticsWrite; CapUsageRead; CapUsageWrite; CapHealthRead;
  CapConfigRead; CapConfigWrite; CapPluginRead; CapPluginWrite; CapSecretsList; CapSecretsRead;
  CapSecretsWrite; CapPipelinesList; CapPipelinesRead; CapPipelinesStart; CapPipelinesCancel;
  CapAutonomousList; CapAutonomousRead; CapAutonomousWrite; CapAutonomousRun; CapCouncilList; CapCouncilRead;
  CapCouncilRun; CapFederationList; CapFederationRead; CapFederationWrite; CapFederationSelf;
  CapFederationFingerprint; CapDocsRead; CapAuditRead; CapCommRead; CapCommWrite; CapAlertsList;
  CapAlertsRead; CapAlertsWrite; CapDashboardRead; CapDashboardWrite; CapQueueRead; CapQueueWrite;
  CapResultsList; CapResultsRead; CapResultsWrite; CapMemoryRead; CapMemoryWrite
].

Record CapabilityGroup := mkGroup { g_Name : string; g_Description : string; g_Caps : list string; g_Builtin : bool }.

Definition group_monitor : CapabilityGroup := mkGroup "monitor" "Read-only observability: health, analytics, session list, alert list"
  [
    CapHealthRead; CapAnalyticsRead; CapUsageRead; CapSessionsList; CapAgentsList; CapObserversList;
    CapAlertsList; CapAlertsRead; CapDashboardRead] true.
Definition group_session_viewer : CapabilityGroup := mkGroup "session-viewer" "Read access to sessions and agents"
  [
    CapSessionsList; CapSessionsRead; CapAgentsList; CapAgentsRead] true.
Definition group_session_operator : CapabilityGroup := mkGroup "session-operator" "Full session + agent lifecycle control"
  [
    CapSessionsList; CapSessionsRead; CapSessionsWrite; CapSessionsKill; CapSessionsInput; CapAgentsList;
    CapAgentsRead; CapAgentsSpawn; CapAgentsTerminate; CapPipelinesList; CapPipelinesRead; CapPipelinesStart;
    CapPipelinesCancel] true.
Definition group_inference_admin : CapabilityGroup := mkGroup "inference-admin" "Full control over LLM registry and compute nodes"
  [
    CapLLMsList; CapLLMsRead; CapLLMsWrite; CapComputeList; CapComputeRead; CapComputeWrite] true.
Definition group_config_reader : CapabilityGroup := mkGroup "config-reader" "Read configuration and documentation"
  [
    CapConfigRead; CapDocsRead] true.
Definition group_config_admin : CapabilityGroup := mkGroup "config-admin" "Read and write configuration"
  [
    CapConfigRead; CapConfigWrite; CapUsageRead; CapUsageWrite] true.
Definition group_analytics_viewer : CapabilityGroup := mkGroup "analytics-viewer" "Cost analytics, dashboard, and audit log"
  [
    CapAnalyticsRead; CapDashboardRead; CapAuditRead; CapUsageRead] true.
Definition group_autonomous_operator : CapabilityGroup := mkGroup "autonomous-operator" "Full autonomous PRD lifecycle"
  [
    CapAutonomousList; CapAutonomousRead; CapAutonomousWrite; CapAutonomousRun] true.
Definition group_council_operator : CapabilityGroup := mkGroup "council-operator" "Run council sessions and view results"
  [
    CapCouncilList; CapCouncilRead; CapCouncilRun] true.
Definition group_federation_peer : CapabilityGroup := mkGroup "federation-peer" "Minimal default for newly registered federation peers — health + its own entry only; grant more via a custom group"
  [
    CapHealthRead; CapFederationSelf] true.
Definition group_comm_bridge : CapabilityGroup := mkGroup "comm-bridge" "Peer that drives comm channels on behalf of the operator"
  [
    CapSessionsList; CapSessionsRead; CapSessionsInput; CapCommRead; CapCommWrite; CapAlertsList;
    CapAlertsRead] true.
Definition group_comms_channel_agent : CapabilityGroup := mkGroup "comms-channel-agent" "Peer that acts as a channel address agent — receives channel commands, starts sessions, and reports back"
  [
    CapSessionsList; CapSessionsRead; CapSessionsInput; CapSessionsWrite; CapCommRead; CapCommWrite;
    CapAlertsList; CapAlertsRead; CapAutonomousList; CapAutonomousRead; CapAutonomousWrite] true.
Definition group_read_only : CapabilityGroup := mkGroup "read-only" "All read/list capabilities across every surface"
  [
    CapSessionsList; CapSessionsRead; CapAgentsList; CapAgentsRead; CapObserversList; CapObserversRead;
    CapObserversReadAllPeers; CapLLMsList; CapLLMsRead; CapComputeList; CapComputeRead; CapAnalyticsRead;
    CapUsageRead; CapHealthRead; CapConfigRead; CapSecretsList; CapPipelinesList; CapPipelinesRead;
    CapAutonomousList; CapAutonomousRead; CapCouncilList; CapCouncilRead; CapFederationList;
    CapFederationRead; CapDocsRead; CapAuditRead; CapCommRead; CapAlertsList; CapAlertsRead;
    CapDashboardRead; CapQueueRead; CapResultsList; CapResultsRead; CapMemoryRead] true.
Definition group_smoke_reporter : CapabilityGroup := mkGroup "smoke-reporter" "Reports smoke-test run progress, including cross-instance forwarding (POST/PUT/DELETE /api/smoke/progress, PUT /api/smoke/forward-url) — narrower than full-control for a peer instance whose only job is reporting its own smoke runs"
  [
    CapAnalyticsRead; CapAnalyticsWrite; CapUsageRead] true.
Definition group_session_default : CapabilityGroup := mkGroup "session-default" "Default per-session scoped-credential grant (Design A3) — coordination + observability, not admin"
  [
    CapSessionsList; CapSessionsRead; CapSessionsWrite; CapSessionsKill; CapSessionsInput; CapAgentsList;
    CapAgentsRead; CapAgentsSpawn; CapAgentsTerminate; CapObserversList; CapObserversRead; CapHealthRead;
    CapAnalyticsRead; CapUsageRead; CapUsageWrite; CapDocsRead; CapAlertsList; CapAlertsRead;
    CapAutonomousList; CapAutonomousRead; CapCouncilList; CapCouncilRead; CapCouncilRun; CapPipelinesList;
    CapPipelinesRead; CapPipelinesStart; CapPipelinesCancel; CapCommRead; CapCommWrite; CapQueueRead;
    CapQueueWrite; CapResultsList; CapResultsRead; CapResultsWrite; CapMemoryRead; CapMemoryWrite] true.
Definition group_full_control : CapabilityGroup := mkGroup "full-control" "All capabilities — equivalent to the admin token"
  allCaps true.

Definition BuiltinGroups : gmap string CapabilityGroup := list_to_map ((λ g, (g_Name g, g)) <$> [
  group_monitor; group_session_viewer; group_session_operator; group_inference_admin; group_config_reader;
  group_config_admin; group_analytics_viewer; group_autonomous_operator; group_council_operator;
  group_federation_peer; group_comm_bridge; group_comms_channel_agent; group_read_only; group_smoke_reporter;
  group_session_default; group_full_control
]).

(** ** Resolving a grant *)

(** [expand] at depth [9 - room]: past the eighth group the name is dropped. *)
Fixpoint expand (room : nat) (custom : gmap string CapabilityGroup) (c : string) (seen : gmap string unit) :
    gmap string unit :=
  match room with
  | O => seen
  | S room =>
      let members (g : CapabilityGroup) := foldl (λ seen gc, expand room custom gc seen) seen (g_Caps g) in
      match BuiltinGroups !! c with
      | Some g => members g
      | None =>
          match custom !! c with
          | Some g => members g
          | None => if Contains c ":" then <[c := ()]> seen else seen
          end
      end
  end.

Section resolve.
Context `{!MapRange}.

(** No custom map is the empty one. *)
Definition Resolve (caps : list string) (custom : gmap string CapabilityGroup) : list string :=
  (map_range (foldl (λ seen c, expand 9 custom c seen) ∅ caps)).*1.
End resolve.

Fixpoint Check (granted : list string) (required : string) : bool :=
  match granted with
  | [] => false
  | g :: granted => if String.eqb g required then true else Check granted required
  end.

Definition builtin_order : list string :=
  ["monitor"; "session-viewer"; "session-operator"; "inference-admin"; "config-reader"; "config-admin";
   "analytics-viewer"; "autonomous-operator"; "council-operator"; "federation-peer"; "comm-bridge";
   "comms-channel-agent"; "session-default"; "read-only"; "full-control"].
Definition ListBuiltinGroups : list CapabilityGroup := omap (λ name, BuiltinGroups !! name) builtin_order.

(** ** Which capability a tool needs *)

Definition tool_table : list (string * string) := [
  ("agent_audit", CapAuditRead); ("agent_get", CapAgentsRead); ("agent_list", CapAgentsList);
  ("agent_logs", CapAgentsRead); ("agent_spawn", CapAgentsSpawn); ("agent_terminate", CapAgentsTerminate);
  ("alert_rule_create", CapConfigWrite); ("alert_rule_delete", CapConfigWrite);
  ("alert_rule_disable", CapConfigWrite); ("alert_rule_enable", CapConfigWrite);
  ("alert_rule_firings", CapAlertsRead); ("alert_rule_get", CapAlertsRead);
  ("alert_rule_list", CapAlertsList); ("alert_rule_update", CapConfigWrite);
  ("algorithm_abort", CapSessionsWrite); ("algorithm_advance", CapSessionsWrite);
  ("algorithm_edit", CapSessionsWrite); ("algorithm_get", CapAutonomousRead);
  ("algorithm_list", CapAutonomousRead); ("algorithm_measure", CapAutonomousRead);
  ("algorithm_reset", CapSessionsWrite); ("algorithm_start", CapSessionsWrite);
  ("analytics", CapAnalyticsRead); ("ask", CapHealthRead); ("assist", CapHealthRead);
  ("audit_query", CapAuditRead); ("audit_access_query", CapAuditRead);
  ("automation_activate", CapAutonomousWrite); ("automation_return_to_draft", CapAutonomousWrite);
  ("automation_pause", CapAutonomousWrite); ("automation_resume", CapAutonomousWrite);
  ("automation_cancel", CapAutonomousWrite); ("automation_skip_member", CapAutonomousWrite);
  ("automation_rename_stage", CapAutonomousWrite); ("automation_insert_member", CapAutonomousWrite);
  ("automation_remove_member", CapAutonomousWrite); ("automation_reorder_edges", CapAutonomousWrite);
  ("automation_approve_insert", CapAutonomousWrite); ("automation_set_llm", CapAutonomousWrite);
  ("automation_set_verification_llm", CapAutonomousWrite); ("automation_set_budget", CapAutonomousWrite);
  ("automation_set_effort_ceiling", CapAutonomousWrite);
  ("autonomous_prd_set_task_effort_ceiling", CapAutonomousWrite);
  ("automation_set_decision_assistant", CapAutonomousWrite); ("automation_create", CapAutonomousWrite);
  ("automation_delete", CapAutonomousWrite); ("automation_get", CapAutonomousRead);
  ("automation_merged_members", CapAutonomousRead); ("automation_list", CapAutonomousRead);
  ("automation_update", CapAutonomousWrite); ("automation_import_graph", CapAutonomousWrite);
  ("autonomous_config_get", CapAutonomousRead); ("autonomous_config_set", CapAutonomousWrite);
  ("autonomous_decompose_lint_config_get", CapAutonomousRead);
  ("autonomous_decompose_lint_config_set", CapAutonomousWrite);
  ("autonomous_decompose_lint_dry_run", CapAutonomousRead);
  ("autonomous_decompose_lint_findings", CapAutonomousRead);
  ("autonomous_held_questions", CapAutonomousRead); ("autonomous_learnings", CapAutonomousRead);
  ("autonomous_prd_add_story", CapAutonomousWrite); ("autonomous_prd_add_task", CapAutonomousWrite);
  ("autonomous_prd_approve", CapAutonomousWrite); ("autonomous_prd_approve_task", CapAutonomousWrite);
  ("autonomous_prd_cancel", CapAutonomousWrite); ("autonomous_prd_cancel_story", CapAutonomousWrite);
  ("autonomous_prd_cancel_task", CapAutonomousWrite);
  ("autonomous_prd_resolve_task_review", CapAutonomousWrite);
  ("autonomous_prd_set_failure_escalation", CapAutonomousWrite);
  ("autonomous_prd_children", CapAutonomousRead); ("autonomous_prd_clone_to_template", CapAutonomousWrite);
  ("autonomous_prd_create", CapAutonomousWrite); ("autonomous_prd_decompose", CapAutonomousWrite);
  ("autonomous_prd_edit_story", CapAutonomousWrite); ("autonomous_prd_edit_task", CapAutonomousWrite);
  ("autonomous_prd_get", CapAutonomousRead); ("autonomous_prd_instantiate", CapAutonomousWrite);
  ("autonomous_prd_list", CapAutonomousList);
  ("autonomous_prd_plan_coverage_acknowledge", CapAutonomousWrite);
  ("autonomous_prd_plan_coverage_get", CapAutonomousRead);
  ("autonomous_prd_change_record", CapAutonomousRead);
  ("autonomous_prd_generated_artefact", CapAutonomousRead);
  ("autonomous_prd_regenerate_artefact", CapAutonomousWrite); ("generated_artefacts_get", CapAutonomousRead);
  ("autonomous_prd_plan_review", CapAutonomousWrite); ("autonomous_prd_reject", CapAutonomousWrite);
  ("autonomous_prd_remove_story", CapAutonomousWrite); ("autonomous_prd_remove_task", CapAutonomousWrite);
  ("autonomous_prd_repair_depends_on", CapAutonomousWrite);
  ("autonomous_prd_request_revision", CapAutonomousWrite); ("autonomous_prd_rejudge", CapAutonomousWrite);
  ("autonomous_prd_resume", CapAutonomousWrite); ("autonomous_prd_reset_task", CapAutonomousWrite);
  ("autonomous_prd_reset_to_draft", CapAutonomousWrite); ("autonomous_prd_run", CapAutonomousRun);
  ("autonomous_prd_scan", CapAutonomousRead); ("autonomous_prd_scan_fix", CapAutonomousWrite);
  ("autonomous_prd_scan_results", CapAutonomousRead); ("autonomous_prd_scan_rules", CapAutonomousRead);
  ("autonomous_prd_set_authorized_paths", CapAutonomousWrite);
  ("autonomous_prd_set_continue_on_story_failure", CapAutonomousWrite);
  ("autonomous_prd_set_git", CapAutonomousWrite); ("autonomous_prd_set_guided_mode", CapAutonomousWrite);
  ("autonomous_prd_set_llm", CapAutonomousWrite); ("autonomous_prd_set_memory_harvest", CapAutonomousWrite);
  ("autonomous_prd_set_memory_seed", CapAutonomousWrite);
  ("autonomous_prd_set_notify_events", CapAutonomousWrite);
  ("autonomous_prd_set_priority", CapAutonomousWrite); ("autonomous_prd_set_kind", CapAutonomousWrite);
  ("autonomous_prd_set_lane_preference", CapAutonomousWrite);
  ("autonomous_prd_set_quality_gates", CapAutonomousWrite);
  ("autonomous_prd_set_skills", CapAutonomousWrite); ("autonomous_prd_set_story_llm", CapAutonomousWrite);
  ("autonomous_prd_set_story_node", CapAutonomousWrite);
  ("autonomous_prd_set_story_thinking_level", CapAutonomousWrite);
  ("autonomous_prd_set_task_llm", CapAutonomousWrite); ("autonomous_prd_set_task_node", CapAutonomousWrite);
  ("autonomous_prd_set_task_project_dir", CapAutonomousWrite);
  ("autonomous_prd_set_task_thinking_level", CapAutonomousWrite);
  ("autonomous_prd_set_task_verification_llm", CapAutonomousWrite);
  ("autonomous_prd_set_story_verification_llm", CapAutonomousWrite);
  ("autonomous_prd_set_thinking_level", CapAutonomousWrite);
  ("autonomous_prd_set_verification_llm", CapAutonomousWrite);
  ("autonomous_prd_set_verifier_policy", CapAutonomousWrite);
  ("autonomous_prd_set_task_verifier_policy", CapAutonomousWrite);
  ("autonomous_prd_set_type", CapAutonomousWrite); ("autonomous_shipped_record", CapAutonomousWrite);
  ("autonomous_shipped_backfill", CapAutonomousWrite); ("autonomous_shipped_counts", CapAutonomousRead);
  ("autonomous_defect_intake", CapAutonomousWrite); ("autonomous_defect_batches", CapAutonomousRead);
  ("autonomous_defect_batch_split", CapAutonomousWrite);
  ("autonomous_defect_tinyfix_check", CapAutonomousRead); ("autonomous_scan_config_get", CapAutonomousRead);
  ("planning_routing_get", CapAutonomousRead); ("planning_routing_set", CapConfigWrite);
  ("planning_scorecard", CapAutonomousRead); ("planning_routing_test", CapAutonomousRead);
  ("autonomous_scan_config_set", CapAutonomousWrite); ("autonomous_status", CapAutonomousRead);
  ("autonomous_subscribe", CapAutonomousWrite); ("autonomous_unsubscribe", CapAutonomousWrite);
  ("autonomous_subscriptions", CapAutonomousRead); ("autonomous_subscription_update", CapAutonomousWrite);
  ("autonomous_subscription_test", CapAutonomousWrite); ("autonomous_events_pending", CapAutonomousRead);
  ("autonomous_template_create", CapAutonomousWrite); ("autonomous_template_delete", CapAutonomousWrite);
  ("autonomous_template_get", CapAutonomousRead); ("autonomous_template_instantiate", CapAutonomousWrite);
  ("autonomous_template_list", CapAutonomousList); ("autonomous_template_update", CapAutonomousWrite);
  ("autonomous_tag_list", CapAutonomousList); ("autonomous_tag_create", CapAutonomousWrite);
  ("autonomous_tag_rename", CapAutonomousWrite); ("autonomous_tag_set_parent", CapAutonomousWrite);
  ("autonomous_tag_set_color", CapAutonomousWrite); ("autonomous_tag_delete", CapAutonomousWrite);
  ("autonomous_prd_set_tags", CapAutonomousWrite); ("autonomous_attention_list", CapAutonomousRead);
  ("session_set_tags", CapSessionsWrite); ("autonomous_type_list", CapAutonomousList);
  ("autonomous_type_register", CapAutonomousWrite); ("backends_active", CapHealthRead);
  ("backends_list", CapHealthRead); ("capacity_status", CapAutonomousRead);
  ("capacity_admission", CapAutonomousRead); ("autonomous_progress", CapAutonomousRead);
  ("autonomous_progress_trend", CapAutonomousRead); ("autonomous_lane_fill_status", CapAutonomousRead);
  ("autonomous_infra_retries", CapAutonomousRead); ("onboarding_report", CapAutonomousRead);
  ("autonomous_merge_pipeline_get", CapAutonomousRead);
  ("autonomous_merge_pipeline_set_record", CapAutonomousWrite);
  ("autonomous_merge_pipeline_validate", CapAutonomousRead); ("autonomous_triage", CapAutonomousRead);
  ("checks_status", CapAutonomousRead); ("ship_status", CapAutonomousRead);
  ("restart_interruptions", CapAutonomousRead); ("rules_context_status", CapAutonomousRead);
  ("platform_context_status", CapConfigRead); ("rules_context_set", CapAutonomousWrite);
  ("automation_requirements_report", CapAutonomousRead);
  ("automation_model_pull_consent_get", CapAutonomousRead);
  ("automation_model_pull_consent_set", CapConfigWrite); ("autonomous_decisions", CapAutonomousRead);
  ("autonomous_repo_ci_watch", CapAutonomousRead); ("question_stats", CapAutonomousRead);
  ("question_quality", CapAutonomousRead); ("autonomous_merge", CapAutonomousRead);
  ("autonomous_safe_to_delete", CapAutonomousRead); ("autonomous_cleanup_status", CapAutonomousRead);
  ("autonomous_uncommitted_work", CapAutonomousRead); ("autonomous_request_watch", CapAutonomousRead);
  ("autonomous_overlap_search", CapAutonomousRead); ("security_failure_list", CapAutonomousRead);
  ("supervisor_watch_list", CapAutonomousRead); ("supervisor_watch_stats", CapAutonomousRead);
  ("supervisor_loop_jobs", CapAutonomousRead); ("supervisor_loop_runs", CapAutonomousRead);
  ("supervisor_loop_run_job", CapAutonomousRun); ("supervisor_loop_eval", CapAutonomousRun);
  ("supervisor_loop_stats", CapAutonomousRead); ("channel_diagnostics", CapCommRead);
  ("channel_info", CapCommRead); ("channel_routing_config_get", CapConfigRead);
  ("channel_routing_config_set", CapConfigWrite); ("claude_efforts", CapHealthRead);
  ("claude_models", CapHealthRead); ("claude_permission_modes", CapHealthRead);
  ("compute_node_add", CapComputeWrite); ("compute_node_attach_observer", CapComputeWrite);
  ("compute_node_delete", CapComputeWrite); ("compute_node_detach_observer", CapComputeWrite);
  ("compute_node_detail", CapComputeRead); ("compute_node_drain", CapComputeWrite);
  ("compute_node_get", CapComputeRead); ("compute_node_backend_versions", CapComputeRead);
  ("compute_node_health", CapComputeRead); ("compute_node_list", CapComputeList);
  ("compute_node_pull_model", CapComputeWrite); ("compute_node_remove_model", CapComputeWrite);
  ("compute_node_undrain", CapComputeWrite); ("compute_node_update", CapComputeWrite);
  ("compute_pin_settings", CapConfigWrite); ("compute_served_models", CapComputeRead);
  ("config_set", CapConfigWrite); ("configure_identity", CapConfigWrite); ("cooldown_clear", CapConfigWrite);
  ("cooldown_set", CapConfigWrite); ("cooldown_status", CapHealthRead);
  ("usage_backoff_clear", CapConfigWrite); ("usage_backoff_recheck", CapConfigWrite);
  ("usage_backoff_set", CapConfigWrite); ("usage_backoff_status", CapConfigRead);
  ("autonomous_protected_paths", CapAutonomousRead); ("usage_advice", CapUsageRead);
  ("usage_readings", CapUsageRead); ("usage_reading_add", CapUsageWrite);
  ("usage_reading_delete", CapUsageWrite); ("usage_extra_credit_set", CapUsageWrite);
  ("usage_remaining_work_set", CapUsageWrite); ("burn_guard_status", CapUsageRead);
  ("burn_guard_run", CapUsageWrite); ("burn_guard_config_get", CapUsageRead);
  ("burn_guard_config_set", CapUsageWrite); ("budget_status", CapAutonomousRead);
  ("cost_rates", CapAnalyticsRead); ("cost_report", CapAnalyticsRead); ("trace_session", CapAnalyticsRead);
  ("trace_automaton", CapAnalyticsRead); ("trace_rollup", CapAnalyticsRead);
  ("trace_coverage", CapAnalyticsRead); ("trace_stats", CapAnalyticsRead);
  ("cost_summary", CapAnalyticsRead); ("cost_usage", CapAnalyticsRead);
  ("council_config_get", CapCouncilRead); ("council_config_set", CapConfigWrite);
  ("council_get_run", CapCouncilRead); ("council_list_runs", CapCouncilList);
  ("council_persona_draft_answer", CapCouncilRun); ("council_persona_draft_list", CapCouncilRead);
  ("council_persona_draft_purge", CapCouncilRun); ("council_persona_draft_refine", CapCouncilRun);
  ("council_persona_draft_save", CapCouncilRun); ("council_persona_draft_start", CapCouncilRun);
  ("council_persona_oneshot", CapCouncilRun); ("council_personas", CapCouncilList);
  ("council_personas_get", CapCouncilRead); ("council_personas_set", CapConfigWrite);
  ("council_run", CapCouncilRun); ("council_run_cancel", CapCouncilRun); ("daemon_logs", CapConfigRead);
  ("dashboard_card_add", CapDashboardWrite); ("dashboard_card_delete", CapDashboardWrite);
  ("dashboard_card_update", CapDashboardWrite); ("dashboard_cards_list", CapDashboardRead);
  ("dashboard_config_get", CapDashboardRead); ("dashboard_console_get", CapDashboardRead);
  ("delete_session", CapSessionsKill); ("detection_config_get", CapConfigRead);
  ("detection_config_set", CapConfigWrite); ("detection_status", CapHealthRead);
  ("device_alias_delete", CapConfigWrite); ("device_alias_list", CapConfigRead);
  ("device_alias_upsert", CapConfigWrite); ("device_delete", CapConfigWrite); ("device_list", CapConfigRead);
  ("device_register", CapConfigWrite); ("diagnose", CapHealthRead); ("discussion_subscribe", CapCommWrite);
  ("discussion_subscriptions", CapCommRead); ("discussion_unsubscribe", CapCommWrite);
  ("dns_channel_config_get", CapConfigRead); ("dns_channel_config_set", CapConfigWrite);
  ("docs_apply", CapConfigWrite); ("docs_list_howtos", CapDocsRead); ("docs_read", CapDocsRead);
  ("docs_search", CapDocsRead); ("docs_trust_accept", CapConfigWrite); ("docs_trust_add", CapConfigWrite);
  ("docs_trust_dismiss", CapConfigWrite); ("docs_trust_list", CapDocsRead);
  ("docs_trust_pending", CapDocsRead); ("docs_trust_remove", CapConfigWrite);
  ("eval_get_run", CapAutonomousRead); ("eval_list_runs", CapAutonomousRead);
  ("eval_list_suites", CapAutonomousRead); ("eval_run", CapAutonomousRun); ("exit_hook_add", CapConfigWrite);
  ("exit_hook_delete", CapConfigWrite); ("exit_hook_disable", CapConfigWrite);
  ("exit_hook_enable", CapConfigWrite); ("exit_hook_list", CapConfigRead);
  ("federation_group_add", CapFederationWrite); ("federation_group_delete", CapFederationWrite);
  ("federation_group_get", CapFederationList); ("federation_group_list", CapFederationList);
  ("federation_group_list_builtins", CapFederationList); ("federation_group_update", CapFederationWrite);
  ("federation_meta_peers", CapFederationList); ("federation_fingerprint_matches", CapFederationList);
  ("federation_fingerprint_confirm", CapFederationWrite);
  ("federation_fingerprint_reject", CapFederationWrite); ("federation_peer_add", CapFederationWrite);
  ("federation_peer_delete", CapFederationWrite); ("federation_peer_get", CapFederationList);
  ("federation_peer_list", CapFederationList); ("federation_peer_test", CapFederationWrite);
  ("federation_peer_update", CapFederationWrite); ("federation_sessions", CapFederationRead);
  ("files_delete", CapConfigWrite); ("files_list", CapDocsRead); ("files_meta", CapDocsRead);
  ("files_upload", CapConfigWrite); ("filter_add", CapConfigWrite); ("filter_delete", CapConfigWrite);
  ("filter_list", CapSessionsRead); ("filter_toggle", CapConfigWrite); ("create_alert", CapAlertsWrite);
  ("get_alerts", CapAlertsRead); ("get_config", CapConfigRead); ("get_identity", CapConfigRead);
  ("identity_backups", CapConfigRead); ("restore_identity", CapConfigWrite);
  ("reset_identity", CapConfigWrite); ("get_my_scope", CapHealthRead); ("get_my_session_id", CapHealthRead);
  ("get_stats", CapHealthRead); ("get_version", CapHealthRead);
  ("guardrail_library_list", CapAutonomousRead); ("guardrail_profile_create", CapAutonomousWrite);
  ("guardrail_profile_delete", CapAutonomousWrite); ("guardrail_profile_get", CapAutonomousRead);
  ("guardrail_profile_list", CapAutonomousRead); ("guardrail_profile_update", CapAutonomousWrite);
  ("kill_session", CapSessionsKill); ("list_orphaned_sessions", CapSessionsList);
  ("list_saved_commands", CapSessionsRead); ("list_sessions", CapSessionsList); ("llm_add", CapLLMsWrite);
  ("llm_add_model", CapLLMsWrite); ("llm_classifier", CapLLMsWrite); ("llm_delete", CapLLMsWrite);
  ("llm_disable", CapLLMsWrite); ("llm_enable", CapLLMsWrite); ("llm_get", CapLLMsRead);
  ("llm_in_use", CapLLMsRead); ("llm_list", CapLLMsList); ("llm_list_models", CapLLMsList);
  ("llm_refresh_models", CapLLMsWrite); ("llm_remove_model", CapLLMsWrite); ("llm_test", CapLLMsRead);
  ("llm_update", CapLLMsWrite); ("mark_alert_read", CapAlertsRead);
  ("marketplace_ollama_catalog", CapConfigRead); ("marketplace_pull_task", CapConfigWrite);
  ("matrix_status", CapCommRead); ("matrix_test", CapCommWrite); ("memory_archive_import", CapMemoryWrite);
  ("memory_discussion_participants", CapMemoryRead); ("memory_discussion_recall", CapMemoryRead);
  ("memory_discussion_wal", CapMemoryRead); ("memory_discussion_write", CapMemoryWrite);
  ("memory_extract_facts", CapMemoryWrite); ("memory_forget", CapMemoryWrite);
  ("memory_handoff", CapMemoryWrite); ("memory_import", CapMemoryWrite); ("memory_learnings", CapMemoryRead);
  ("memory_list", CapMemoryRead); ("memory_pin", CapMemoryWrite); ("memory_prd_report", CapMemoryRead);
  ("memory_recall", CapMemoryRead); ("memory_remember", CapMemoryWrite);
  ("memory_schema_version", CapMemoryRead); ("memory_scope_borrow", CapMemoryWrite);
  ("memory_scope_inventory", CapMemoryRead); ("memory_scope_promote", CapMemoryWrite);
  ("memory_scope_recall", CapMemoryRead); ("memory_scope_seed", CapMemoryWrite);
  ("memory_spellcheck", CapMemoryRead); ("memory_stats", CapMemoryRead);
  ("memory_sweep_stale", CapMemoryWrite); ("memory_test_embedder", CapConfigRead);
  ("memory_wakeup", CapMemoryRead); ("memory_wal", CapMemoryRead); ("observer_agent_list", CapObserversList);
  ("observer_agent_stats", CapObserversRead); ("observer_config_get", CapObserversRead);
  ("observer_config_set", CapObserversWrite); ("observer_envelope", CapObserversRead);
  ("observer_envelopes", CapObserversRead); ("observer_envelopes_all_peers", CapObserversReadAllPeers);
  ("observer_peer_delete", CapObserversWrite); ("observer_peer_get", CapObserversRead);
  ("observer_peer_register", CapObserversWrite); ("observer_peer_stats", CapObserversRead);
  ("observer_peers_by_node", CapObserversList); ("observer_peers_free", CapObserversList);
  ("observer_peers_list", CapObserversList); ("observer_stats", CapObserversRead);
  ("orchestrator_config_get", CapAutonomousRead); ("orchestrator_config_set", CapAutonomousWrite);
  ("orchestrator_graph_cancel", CapAutonomousWrite); ("orchestrator_graph_create", CapAutonomousWrite);
  ("orchestrator_graph_get", CapAutonomousRead); ("orchestrator_graph_list", CapAutonomousRead);
  ("orchestrator_graph_plan", CapAutonomousWrite); ("orchestrator_graph_run", CapAutonomousRun);
  ("orchestrator_verdicts", CapAutonomousRead); ("per_automaton_guardrails_set", CapAutonomousWrite);
  ("per_automaton_retry_policy_set", CapAutonomousWrite); ("pipeline_cancel", CapPipelinesCancel);
  ("pipeline_list", CapPipelinesList); ("pipeline_start", CapPipelinesStart);
  ("pipeline_status", CapPipelinesRead); ("plugin_browse_registry", CapConfigRead);
  ("plugin_disable", CapConfigWrite); ("plugin_enable", CapConfigWrite); ("plugin_get", CapConfigRead);
  ("plugin_install", CapConfigWrite); ("plugin_run_subcommand", CapConfigWrite);
  ("plugin_test", CapConfigRead); ("plugins_list", CapConfigRead); ("plugins_reload", CapConfigWrite);
  ("profile_create", CapConfigWrite); ("profile_delete", CapConfigWrite); ("profile_get", CapConfigRead);
  ("profile_list", CapConfigRead); ("profile_set_agent_settings", CapConfigWrite);
  ("profile_smoke", CapConfigWrite); ("profile_update", CapConfigWrite);
  ("project_alias_delete", CapConfigWrite); ("project_list", CapConfigRead);
  ("project_policy_effective", CapConfigRead); ("project_summary", CapConfigRead);
  ("project_upsert", CapConfigWrite); ("proxy_config_get", CapConfigRead);
  ("proxy_config_set", CapConfigWrite); ("post_result", CapSessionsResultWrite);
  ("queue_claim", CapQueueWrite); ("queue_complete", CapQueueWrite); ("queue_fail", CapQueueWrite);
  ("queue_list", CapQueueRead); ("queue_push", CapQueueWrite); ("question_raise", CapAutonomousWrite);
  ("question_list", CapAutonomousRead); ("question_get", CapAutonomousRead);
  ("question_answer", CapAutonomousWrite); ("question_withdraw", CapAutonomousWrite);
  ("autonomous_decision_record_create", CapAutonomousWrite);
  ("autonomous_decision_record_update", CapAutonomousWrite);
  ("autonomous_decision_record_withdraw", CapAutonomousWrite);
  ("autonomous_decision_record_get", CapAutonomousRead);
  ("autonomous_decision_record_list", CapAutonomousRead); ("reload", CapConfigWrite);
  ("rename_session", CapSessionsWrite); ("set_session_priority", CapSessionsWrite);
  ("reply_to_parent", CapSessionsInput); ("restart_daemon", CapConfigWrite); ("acme_status", CapConfigRead);
  ("acme_renew", CapConfigWrite); ("acme_issuer_log", CapConfigRead); ("restart_session", CapSessionsWrite);
  ("result_delete", CapResultsWrite); ("result_get", CapResultsRead); ("result_list", CapResultsList);
  ("result_put", CapResultsWrite); ("retry_profile_create", CapAutonomousWrite);
  ("retry_profile_delete", CapAutonomousWrite); ("retry_profile_get", CapAutonomousRead);
  ("retry_profile_list", CapAutonomousRead); ("retry_profile_update", CapAutonomousWrite);
  ("routing_rules_list", CapConfigRead); ("routing_rules_test", CapConfigRead); ("rtk_check", CapHealthRead);
  ("rtk_discover", CapConfigRead); ("rtk_update", CapConfigWrite); ("rtk_version", CapHealthRead);
  ("schedule_add", CapConfigWrite); ("schedule_cancel", CapConfigWrite); ("schedule_list", CapConfigRead);
  ("schedule_results_list", CapAutonomousRead); ("schedule_spawn", CapConfigWrite);
  ("secret_delete", CapSecretsWrite); ("secret_exists", CapSecretsList); ("secret_get", CapSecretsRead);
  ("secret_list", CapSecretsList); ("secret_set", CapSecretsWrite); ("secrets_vault_status", CapSecretsList);
  ("secret_scan_config_get", CapConfigRead); ("secret_scan_config_set", CapConfigWrite);
  ("secret_scan_stats", CapHealthRead); ("send_input", CapSessionsInput);
  ("send_saved_command", CapSessionsInput); ("server_add", CapFederationWrite);
  ("server_delete", CapFederationWrite); ("server_get", CapFederationList);
  ("server_list", CapFederationList); ("server_test", CapFederationWrite);
  ("server_update", CapFederationWrite); ("session_bind_agent", CapSessionsWrite);
  ("session_children", CapSessionsRead); ("session_guardrail_approve", CapSessionsWrite);
  ("session_guardrail_run", CapSessionsWrite); ("session_import", CapSessionsWrite);
  ("session_output", CapSessionsRead); ("session_reconcile", CapSessionsWrite);
  ("session_rollback", CapSessionsWrite); ("session_set_state", CapSessionsWrite);
  ("session_summarize", CapSessionsWrite); ("session_timeline", CapSessionsRead);
  ("sessions_stale", CapSessionsList); ("set_identity", CapConfigWrite); ("skill_load", CapDocsRead);
  ("skills_get", CapDocsRead); ("skills_list", CapDocsRead); ("skills_registry_add_default", CapConfigWrite);
  ("skills_registry_available", CapConfigRead); ("skills_registry_connect", CapConfigWrite);
  ("skills_registry_create", CapConfigWrite); ("skills_registry_delete", CapConfigWrite);
  ("skills_registry_get", CapConfigRead); ("skills_registry_list", CapConfigRead);
  ("skills_registry_sync", CapConfigWrite); ("skills_registry_unsync", CapConfigWrite);
  ("skills_registry_update", CapConfigWrite); ("smoke_forward_config_get", CapConfigRead);
  ("smoke_forward_config_set", CapConfigWrite); ("splash_info", CapHealthRead);
  ("start_session", CapSessionsWrite); ("stop_all_sessions", CapSessionsKill);
  ("tailscale_acl_generate", CapConfigRead); ("tailscale_acl_push", CapConfigWrite);
  ("tailscale_auth_key", CapConfigWrite); ("tailscale_nodes", CapConfigRead);
  ("tailscale_status", CapConfigRead); ("telemetry_get", CapAnalyticsRead);
  ("telemetry_list", CapAnalyticsRead); ("template_delete", CapConfigWrite);
  ("template_list", CapConfigRead); ("template_upsert", CapConfigWrite); ("tooling_cleanup", CapConfigWrite);
  ("tooling_gitignore", CapSessionsWrite); ("tooling_status", CapSessionsRead);
  ("update_identity", CapConfigWrite); ("vision_describe", CapHealthRead);
  ("websearch_history", CapAnalyticsRead); ("websearch_provider_add", CapConfigWrite);
  ("websearch_provider_delete", CapConfigWrite); ("websearch_provider_disable", CapConfigWrite);
  ("websearch_provider_enable", CapConfigWrite); ("websearch_provider_get", CapConfigRead);
  ("websearch_provider_test", CapConfigRead); ("websearch_provider_update", CapConfigWrite);
  ("websearch_providers_list", CapConfigRead); ("websearch_stats", CapAnalyticsRead);
  ("autonomous_tag_registry_status", CapAutonomousRead);
  ("autonomous_tag_registry_dismiss_note", CapAutonomousWrite)
].

Definition MCPToolCap : gmap string string := list_to_map tool_table.
Definition RequiredCapForMCPTool (tool : string) : option string := MCPToolCap !! tool.

(** ** The operator's groups *)

Definition ErrGroupNotFound : error := Errorf "group not found" [].
Definition ErrGroupConflict : error := Errorf "group name already exists" [].
Definition ErrGroupBuiltin : error := Errorf "cannot modify a builtin group name" [].

(** The groups by name, and what the file holds. *)
Record GroupStore := mkGroupStore {
  gs_groups : gmap string CapabilityGroup;
  gs_file : list (string * CapabilityGroup)
}.

Definition set_name (name : string) (g : CapabilityGroup) : CapabilityGroup :=
  mkGroup name (g_Description g) (g_Caps g) (g_Builtin g).
Definition set_builtin (b : bool) (g : CapabilityGroup) : CapabilityGroup :=
  mkGroup (g_Name g) (g_Description g) (g_Caps g) b.

Section groups.
Context {W : Type} `{!Disk W (string * CapabilityGroup)}.

(** The keys of a JSON object are written in order; the file is replaced by a
    rename. The answer of an operation is its error. *)
Definition group_persist (w : W) (gs : GroupStore) : W * GroupStore * option error :=
  let data := sort_by (λ x y, String.ltb x.1 y.1) (map_to_list (gs_groups gs)) in
  let '(w, err) := write w data in
  match err with
  | None => (w, mkGroupStore (gs_groups gs) data, None)
  | Some e => (w, gs, Some (Errorf "%s" [AStr e]))
  end.

Definition GroupGet (name : string) (gs : GroupStore) : res CapabilityGroup :=
  match gs_groups gs !! name with Some g => Ok g | None => Err ErrGroupNotFound end.

Definition GroupList `{!MapRange} (gs : GroupStore) : list CapabilityGroup := (map_range (gs_groups gs)).*2.

Definition GroupAsMap (gs : GroupStore) : gmap string CapabilityGroup := gs_groups gs.

Definition put_group (name : string) (g : CapabilityGroup) (gs : GroupStore) : GroupStore :=
  mkGroupStore (<[name := g]> (gs_groups gs)) (gs_file gs).

Definition GroupAdd (w : W) (g : CapabilityGroup) (gs : GroupStore) : W * GroupStore * option error :=
  if String.eqb (g_Name g) "" then (w, gs, Some (Errorf "name is required" []))
  else match BuiltinGroups !! g_Name g with
  | Some _ => (w, gs, Some ErrGroupBuiltin)
  | None =>
      match gs_groups gs !! g_Name g with
      | Some _ => (w, gs, Some ErrGroupConflict)
      | None => group_persist w (put_group (g_Name g) (set_builtin false g) gs)
      end
  end.

Definition GroupUpdate (w : W) (name : string) (g : CapabilityGroup) (gs : GroupStore) : W * GroupStore * option error :=
  match BuiltinGroups !! name with
  | Some _ => (w, gs, Some ErrGroupBuiltin)
  | None =>
      match gs_groups gs !! name with
      | None => (w, gs, Some ErrGroupNotFound)
      | Some _ => group_persist w (put_group name (set_builtin false (set_name name g)) gs)
      end
  end.

Definition GroupDelete (w : W) (name : string) (gs : GroupStore) : W * GroupStore * option error :=
  match BuiltinGroups !! name with
  | Some _ => (w, gs, Some ErrGroupBuiltin)
  | None =>
      match gs_groups gs !! name with
      | None => (w, gs, Some ErrGroupNotFound)
      | Some _ => group_persist w (mkGroupStore (delete name (gs_groups gs)) (gs_file gs))
      end
  end.

(** A restart: [load] on the file; the flag of a group that came from it is cleared. *)
Definition NewGroupStore (gs : GroupStore) : GroupStore :=
  mkGroupStore (foldl (λ m kg, <[kg.1 := set_builtin false kg.2]> m) ∅ (gs_file gs)) (gs_file gs).
End groups.

(** ** The registry of other instances *)

Record Entry := mkEntry {
  pe_Name : string;
  pe_URL : string;
  pe_Token : string;
  pe_Label : string;
  pe_Enabled : bool;
  pe_Builtin : bool;
  pe_Federated : bool;
  pe_AuthType : string;
  pe_Capabilities : list string;
  pe_ChannelIdentity : list string;
  pe_TLSSkipVerify : bool;
  pe_FingerprintSync : bool;
  pe_CreatedAt : Time;
  pe_UpdatedAt : Time;
  pe_TokenPresent : bool;
  pe_TokenPrefix : string
}.

Definition ErrNotFound : error := Errorf "server not found" [].
Definition ErrConflict : error := Errorf "server name already exists" [].
Definition ErrBuiltin : error := Errorf "server is seeded from config and cannot be modified at runtime" [].

(** The name, the flag and the times the store gives an entry it keeps. *)
Definition stamped_entry (name : string) (created updated : Time) (e : Entry) : Entry :=
  mkEntry name (pe_URL e) (pe_Token e) (pe_Label e) (pe_Enabled e) false (pe_Federated e) (pe_AuthType e)
    (pe_Capabilities e) (pe_ChannelIdentity e) (pe_TLSSkipVerify e) (pe_FingerprintSync e) created updated
    (pe_TokenPresent e) (pe_TokenPrefix e).

(** A copy without the token, of which at most four bytes are shown. *)
Definition Redacted (e : Entry) : Entry :=
  let present := nonempty (pe_Token e) in
  mkEntry (pe_Name e) (pe_URL e) "" (pe_Label e) (pe_Enabled e) (pe_Builtin e) (pe_Federated e) (pe_AuthType e)
    (pe_Capabilities e) (pe_ChannelIdentity e) (pe_TLSSkipVerify e) (pe_FingerprintSync e) (pe_CreatedAt e) (pe_UpdatedAt e)
    (if present then true else pe_TokenPresent e)
    (if present then String.substring 0 4 (pe_Token e) else pe_TokenPrefix e).
Definition RedactedList (l : list Entry) : list Entry := Redacted <$> l.

(** What the configuration names. *)
Record RemoteServerConfig := mkRemoteServer {
  rs_Name : string;
  rs_URL : string;
  rs_Token : string;
  rs_Enabled : bool;
  rs_Federated : bool;
  rs_AuthType : string;
  rs_Capabilities : list string;
  rs_TLSSkipVerify : bool;
  rs_FingerprintSync : bool
}.

Record ServerStore := mkServerStore { ss_entries : list Entry; ss_file : list Entry }.

Fixpoint getByName (name : string) (l : list Entry) : option Entry :=
  match l with
  | [] => None
  | e :: l => if String.eqb (pe_Name e) name then Some e else getByName name l
  end.

Definition seed_entry (sc : RemoteServerConfig) : Entry :=
  mkEntry (rs_Name sc) (rs_URL sc) (rs_Token sc) "" (rs_Enabled sc) true (rs_Federated sc) (rs_AuthType sc)
    (rs_Capabilities sc) [] (rs_TLSSkipVerify sc) (rs_FingerprintSync sc) zero_time zero_time false "".

(** A restart: the entries of the file, and before them the seeds no entry of the
    file is named like. *)
Definition NewStore (seeds : list RemoteServerConfig) (file : list Entry) : ServerStore :=
  let runtime := (λ e, stamped_entry (pe_Name e) (pe_CreatedAt e) (pe_UpdatedAt e) e) <$> file in
  let builtins := seed_entry <$> List.filter (λ sc, match getByName (rs_Name sc) runtime with Some _ => false | None => true end) seeds in
  mkServerStore (builtins ++ runtime) file.

Definition ListFederated (s : ServerStore) : list Entry := List.filter pe_Federated (ss_entries s).

Definition PeerGet (name : string) (s : ServerStore) : option Entry := getByName name (ss_entries s).

Definition GetByName (name : string) (s : ServerStore) : option (string * string) :=
  match getByName name (ss_entries s) with
  | None => None
  | Some e => if negb (pe_Enabled e) then None else Some (pe_URL e, pe_Token e)
  end.

(** The comparison in constant time is equality. *)
Fixpoint token_loop (tok : string) (l : list Entry) : option Entry :=
  match l with
  | [] => None
  | e :: l => if String.eqb (pe_Token e) tok then Some e else token_loop tok l
  end.
Definition GetByToken (tok : string) (s : ServerStore) : option Entry :=
  if String.eqb tok "" then None else token_loop tok (ss_entries s).

Section peers.
Context {W : Type} `{!Disk W Entry}.

Definition peer_persist (w : W) (s : ServerStore) : W * ServerStore * option error :=
  let runtime := List.filter (λ e, negb (pe_Builtin e)) (ss_entries s) in
  let '(w, err) := write w runtime in
  match err with
  | None => (w, mkServerStore (ss_entries s) runtime, None)
  | Some e => (w, s, Some (Errorf "%s" [AStr e]))
  end.

Definition PeerAdd (w : W) (e : Entry) (s : ServerStore) : W * ServerStore * option error :=
  if String.eqb (pe_Name e) "" then (w, s, Some (Errorf "name is required" []))
  else if String.eqb (pe_URL e) "" then (w, s, Some (Errorf "url is required" []))
  else match getByName (pe_Name e) (ss_entries s) with
  | Some _ => (w, s, Some ErrConflict)
  | None =>
      let now := wall w in
      peer_persist w (mkServerStore (ss_entries s ++ [stamped_entry (pe_Name e) now now e]) (ss_file s))
  end.

(** The first entry of that name is replaced in place. *)
Fixpoint replace_first (name : string) (x : Entry) (l : list Entry) : list Entry :=
  match l with
  | [] => []
  | e :: l => if String.eqb (pe_Name e) name then x :: l else e :: replace_first name x l
  end.

Definition PeerUpdate (w : W) (name : string) (updated : Entry) (s : ServerStore) : W * ServerStore * option error :=
  match getByName name (ss_entries s) with
  | None => (w, s, Some ErrNotFound)
  | Some existing =>
      if pe_Builtin existing then (w, s, Some ErrBuiltin)
      else peer_persist w (mkServerStore (replace_first name (stamped_entry name (pe_CreatedAt existing) (wall w) updated) (ss_entries s)) (ss_file s))
  end.

Fixpoint remove_first (name : string) (l : list Entry) : list Entry :=
  match l with
  | [] => []
  | e :: l => if String.eqb (pe_Name e) name then l else e :: remove_first name l
  end.

Definition PeerDelete (w : W) (name : string) (s : ServerStore) : W * ServerStore * option error :=
  match getByName name (ss_entries s) with
  | None => (w, s, Some ErrNotFound)
  | Some e =>
      if pe_Builtin e then (w, s, Some ErrBuiltin)
      else peer_persist w (mkServerStore (remove_first name (ss_entries s)) (ss_file s))
  end.
End peers.

(** ** What a grant gives

    [granted n c cap]: the name [c] stands for the capability [cap] through [n]
    groups, built-in ones before the operator's. *)

Definition group_of (custom : gmap string CapabilityGroup) (c : string) : option CapabilityGroup :=
  match BuiltinGroups !! c with Some g => Some g | None => custom !! c end.

Inductive granted (custom : gmap string CapabilityGroup) : nat → string → string → Prop :=
| granted_self c : group_of custom c = None → Contains c ":" = true → granted custom 0 c c
| granted_by n c g gc cap :
    group_of custom c = Some g → gc ∈ g_Caps g → granted custom n gc cap → granted custom (S n) c cap.

Lemma granted_colon custom n c cap : granted custom n c cap → Contains cap ":" = true.
Proof. by induction 1. Qed.

Lemma expand_step room custom c seen :
  expand (S room) custom c seen =
  match group_of custom c with
  | Some g => foldl (λ seen gc, expand room custom gc seen) seen (g_Caps g)
  | None => if Contains c ":" then <[c := ()]> seen else seen
  end.
Proof. cbn [expand]. unfold group_of. by destruct (BuiltinGroups !! c); [|destruct (custom !! c)]. Qed.

Lemma expand_all_spec (P : string → Prop) (f : string → gmap string unit → gmap string unit) cap l seen :
  (∀ c seen, f c seen !! cap = Some () ↔ seen !! cap = Some () ∨ P c) →
  foldl (λ seen c, f c seen) seen l !! cap = Some () ↔ seen !! cap = Some () ∨ ∃ c, c ∈ l ∧ P c.
Proof.
  intros Hf. revert seen. induction l as [|c l IH]; intros seen; cbn [foldl]; [set_solver|].
  rewrite IH, Hf. set_solver.
Qed.

Lemma expand_spec room custom c seen cap :
  expand room custom c seen !! cap = Some () ↔
  seen !! cap = Some () ∨ ∃ n, (n < room)%nat ∧ granted custom n c cap.
Proof.
  revert c seen. induction room as [|room IH]; intros c seen.
  - cbn. split; [by left|]. intros [?|(n&?&_)]; [done|lia].
  - rewrite expand_step. destruct (group_of custom c) as [g|] eqn:E.
    + rewrite (expand_all_spec (λ c, ∃ n, (n < room)%nat ∧ granted custom n c cap)) by (intros; apply IH). split.
      * intros [?|(gc&Hgc&n&Hn&H)]; [by left|]. right. exists (S n). split; [lia|]. by eapply granted_by.
      * intros [?|(n&Hn&H)]; [by left|]. right. inversion H as [|n' ? g' gc ? Hg Hgc Hd]; subst; [congruence|].
        rewrite E in Hg. injection Hg as <-. exists gc. split; [done|]. exists n'. split; [lia|done].
    + destruct (Contains c ":") eqn:Ec.
      * rewrite lookup_insert_Some. split.
        -- intros [[-> _]|[_ ?]]; [|by left]. right. exists 0%nat. split; [lia|]. by apply granted_self.
        -- intros [?|(n&Hn&H)]; [by destruct (decide (c = cap)); auto|]. inversion H; subst; [by left|congruence].
      * split; [by left|]. intros [?|(n&Hn&H)]; [done|]. inversion H; subst; congruence.
Qed.

Lemma Check_elem l cap : Check l cap = true ↔ cap ∈ l.
Proof.
  induction l as [|g l IH]; cbn; [set_solver|]. destruct (String.eqb_spec g cap) as [->|?]; set_solver.
Qed.

Section grants.
Context `{!MapRange}.

Lemma Resolve_elem custom caps cap :
  cap ∈ Resolve caps custom ↔ ∃ c n, c ∈ caps ∧ (n ≤ 8)%nat ∧ granted custom n c cap.
Proof.
  unfold Resolve. rewrite list_elem_of_fmap. transitivity (foldl (λ seen c, expand 9 custom c seen) ∅ caps !! cap = Some ()).
  - split; [|intros Hk; exists (cap, ()); by rewrite elem_of_map_range].
    intros ([k []]&->&Hk). by apply elem_of_map_range in Hk.
  - rewrite (expand_all_spec (λ c, ∃ n, (n < 9)%nat ∧ granted custom n c cap)) by (intros; apply expand_spec).
    rewrite lookup_empty. split; [intros [[=]|(c&Hc&n&Hn&Hd)]; exists c, n; split_and!; [done|lia|done]|].
    intros (c&n&Hc&Hn&Hd). right. exists c. split; [done|]. exists n. split; [lia|done].
Qed.

(** C33: A capability passes [Check] on what [Resolve] made of a grant exactly if the
    grant names it, or names a group it is reached from through at most eight
    groups, built-in or the operator's; groups that contain themselves change
    nothing, and no capability is listed twice. *)
Theorem resolve_exact custom caps cap :
  (Check (Resolve caps custom) cap = true ↔ ∃ c n, c ∈ caps ∧ (n ≤ 8)%nat ∧ granted custom n c cap) ∧
  NoDup (Resolve caps custom).
Proof.
  split; [by rewrite Check_elem, Resolve_elem|]. unfold Resolve. rewrite map_range_perm. apply NoDup_fst_map_to_list.
Qed.

End grants.

(** The built-in groups name capabilities only, so each is worth its list. *)
Lemma builtin_flat k g : BuiltinGroups !! k = Some g → Forall (λ c, BuiltinGroups !! c = None ∧ Contains c ":" = true) (g_Caps g).
Proof.
  assert (Forall (λ kg : string * CapabilityGroup, Forall (λ c, BuiltinGroups !! c = None ∧ Contains c ":" = true) (g_Caps kg.2))
    (map_to_list BuiltinGroups)) as Hall by (apply (bool_decide_unpack _); vm_compute; exact I).
  intros Hk. rewrite Forall_forall in Hall. by apply (Hall (k, g)), elem_of_map_to_list.
Qed.

Lemma builtin_grants `{!MapRange} k g cap :
  BuiltinGroups !! k = Some g → cap ∈ Resolve [k] ∅ ↔ cap ∈ g_Caps g.
Proof.
  intros Hk. assert (group_of ∅ k = Some g) as Hg by (unfold group_of; by rewrite Hk).
  pose proof (builtin_flat k g Hk) as Hf. rewrite Forall_forall in Hf. rewrite Resolve_elem. split.
  - intros (c&n&->%list_elem_of_singleton&_&Hd). inversion Hd as [? Hn|n' ? g' gc ? Hg' Hgc Hd']; subst; [congruence|].
    rewrite Hg in Hg'. injection Hg' as <-. destruct (Hf _ Hgc) as [Hb _].
    inversion Hd' as [|? ? ? ? ? Hx]; subst; [done|]. unfold group_of in Hx. by rewrite Hb in Hx.
  - intros Hc. destruct (Hf _ Hc) as [Hb Hcol]. exists k, 1%nat. split_and!; [by apply list_elem_of_singleton|lia|].
    eapply granted_by; [done..|]. apply granted_self; [|done]. unfold group_of. by rewrite Hb.
Qed.

(** No operator's group changes what a built-in name is worth. *)
Lemma custom_never_shadows custom k g : BuiltinGroups !! k = Some g → group_of custom k = Some g.
Proof. intros Hk. unfold group_of. by rewrite Hk. Qed.

(** A new peer's default is worth its own entry and the health check, and a
    session's default none of what changes the daemon or reaches its secrets. *)
Example defaults_are_narrow `{!MapRange} :
  (∀ cap, cap ∈ Resolve ["federation-peer"] ∅ ↔ cap ∈ [CapHealthRead; CapFederationSelf]) ∧
  Forall (λ cap, cap ∉ Resolve ["session-default"] ∅)
    [CapConfigWrite; CapSecretsList; CapSecretsRead; CapSecretsWrite; CapFederationWrite; CapLLMsWrite; CapComputeWrite;
     CapAutonomousWrite; CapPluginWrite; CapAnalyticsWrite; CapSessionsResultWrite; CapObserversReadAllPeers].
Proof.
  split; [intros cap; by rewrite builtin_grants by reflexivity|].
  assert (Forall (λ cap, cap ∉ g_Caps group_session_default)
    [CapConfigWrite; CapSecretsList; CapSecretsRead; CapSecretsWrite; CapFederationWrite; CapLLMsWrite; CapComputeWrite;
     CapAutonomousWrite; CapPluginWrite; CapAnalyticsWrite; CapSessionsResultWrite; CapObserversReadAllPeers]) as Hn
    by (apply (bool_decide_unpack _); vm_compute; exact I).
  eapply Forall_impl; [exact Hn|]. intros cap Hcap. by rewrite builtin_grants by reflexivity.
Qed.

(** Every tool but one needs a capability of full-control, which is described as
    all capabilities, equivalent to the admin token. *)
Lemma tools_of_full_control tool cap :
  RequiredCapForMCPTool tool = Some cap → cap ∈ g_Caps group_full_control ∨ tool = "post_result".
Proof.
  assert (Forall (λ x : string * string, x.2 ∈ allCaps ∨ x.1 = "post_result") tool_table) as Hall
    by (apply (bool_decide_unpack _); vm_compute; exact I).
  unfold RequiredCapForMCPTool, MCPToolCap. intros Ht%elem_of_list_to_map_2.
  rewrite Forall_forall in Hall. apply (Hall _ Ht).
Qed.

Example full_control_lacks_a_tool :
  RequiredCapForMCPTool "post_result" = Some CapSessionsResultWrite ∧ CapSessionsResultWrite ∉ g_Caps group_full_control.
Proof. split; [vm_compute; reflexivity|]. apply (bool_decide_unpack _). vm_compute. exact I. Qed.

(** The list of the built-in groups leaves one out. *)
Example smoke_reporter_unlisted :
  BuiltinGroups !! "smoke-reporter" = Some group_smoke_reporter ∧ group_smoke_reporter ∉ ListBuiltinGroups.
Proof.
  split; [reflexivity|]. intros Hin. assert ("smoke-reporter" ∈ g_Name <$> ListBuiltinGroups) as Hn.
  { apply list_elem_of_fmap. by exists group_smoke_reporter. }
  revert Hn. apply (bool_decide_unpack _). vm_compute. exact I.
Qed.

(** A session's grant is resolved without the operator's groups: one that names
    such a group is worth nothing. *)
Definition session_grant `{!MapRange} (configured : list string) : list string :=
  Resolve (match configured with [] => ["session-default"] | _ => configured end) ∅.

Example custom_group_worth_nothing : @session_grant in_key_order ["my-group"] = [].
Proof. vm_compute. reflexivity. Qed.

(** ** The stores *)

(** A group of the operator's: under its own name, which is no built-in one. *)
Definition own_group (k : string) (g : CapabilityGroup) : Prop :=
  k ≠ "" ∧ BuiltinGroups !! k = None ∧ g_Name g = k ∧ g_Builtin g = false.

Record groups_ok (gs : GroupStore) : Prop := {
  go_memory k g : gs_groups gs !! k = Some g → own_group k g;
  go_file kg : kg ∈ gs_file gs → own_group kg.1 kg.2
}.

Inductive GroupOp :=
| GAdd (g : CapabilityGroup) | GUpdate (name : string) (g : CapabilityGroup) | GDelete (name : string) | GRestart.

Section group_theorems.
Context {W : Type} `{!Disk W (string * CapabilityGroup)}.

Definition group_op (acc : W * GroupStore) (op : GroupOp) : W * GroupStore :=
  let '(w, gs) := acc in
  match op with
  | GAdd g => let '(w, gs, _) := GroupAdd w g gs in (w, gs)
  | GUpdate name g => let '(w, gs, _) := GroupUpdate w name g gs in (w, gs)
  | GDelete name => let '(w, gs, _) := GroupDelete w name gs in (w, gs)
  | GRestart => (w, NewGroupStore gs)
  end.

Lemma group_persist_ok w gs : groups_ok gs → groups_ok (group_persist w gs).1.2.
Proof.
  intros [Hm Hf]. unfold group_persist. destruct (write w _) as [w' [e|]]; [by split|].
  split; [done|]. cbn [gs_file fst snd]. intros [k g]. rewrite elem_of_sort_by, elem_of_map_to_list. apply Hm.
Qed.

Lemma put_group_ok k g gs : groups_ok gs → own_group k g → groups_ok (put_group k g gs).
Proof. intros [Hm Hf] Hg. split; [|done]. cbn. intros k' g' [[<- <-]|[_ ?]]%lookup_insert_Some; [done|by apply Hm]. Qed.

Lemma group_op_ok w gs op : groups_ok gs → groups_ok (group_op (w, gs) op).2.
Proof.
  intros Hok. destruct op as [g|name g|name|]; cbn.
  - unfold GroupAdd. destruct (String.eqb_spec (g_Name g) ""); [done|]. destruct (BuiltinGroups !! g_Name g) eqn:Eb; [done|].
    destruct (gs_groups gs !! g_Name g); [done|].
    pose proof (group_persist_ok w (put_group (g_Name g) (set_builtin false g) gs)) as Hp. destruct (group_persist _ _) as [[??]?].
    by apply Hp, put_group_ok.
  - unfold GroupUpdate. destruct (BuiltinGroups !! name) eqn:Eb; [done|]. destruct (gs_groups gs !! name) as [g0|] eqn:E; [|done].
    pose proof (group_persist_ok w (put_group name (set_builtin false (set_name name g)) gs)) as Hp. destruct (group_persist _ _) as [[??]?].
    apply Hp, put_group_ok; [done|]. split_and!; [|done..]. by destruct (go_memory _ Hok _ _ E).
  - unfold GroupDelete. destruct (BuiltinGroups !! name); [done|]. destruct (gs_groups gs !! name); [|done].
    pose proof (group_persist_ok w (mkGroupStore (delete name (gs_groups gs)) (gs_file gs))) as Hp. destruct (group_persist _ _) as [[??]?].
    apply Hp. destruct Hok as [Hm Hf]. split; [|done]. cbn. intros k g' [_ ?]%lookup_delete_Some. by apply Hm.
  - destruct Hok as [Hm Hf]. split; [|done]. unfold NewGroupStore. cbn. intros k g.
    assert (∀ m : gmap string CapabilityGroup, (∀ k g, m !! k = Some g → own_group k g) →
      ∀ k g, foldl (λ m kg, <[kg.1 := set_builtin false kg.2]> m) m (gs_file gs) !! k = Some g → own_group k g) as Hl.
    { clear k g Hm. revert Hf. induction (gs_file gs) as [|[k0 g0] l IH]; intros Hf m Hm k g; [apply Hm|].
      apply IH; [intros kg Hkg; apply Hf; by right|]. intros k' g' [[<- <-]|[_ ?]]%lookup_insert_Some; [|by apply Hm].
      assert ((k0, g0) ∈ (k0, g0) :: l) as (?&?&?&?)%Hf by left. by split_and!. }
    apply Hl. set_solver.
Qed.

(** Over any additions, changes, deletions and restarts, failed writes included,
    the operator's groups stand under their own names, none of them built in. *)
Theorem groups_stay_own w ops : groups_ok (foldl group_op (w, mkGroupStore ∅ []) ops).2.
Proof.
  assert (∀ acc, groups_ok acc.2 → groups_ok (foldl group_op acc ops).2) as H; [|apply H; by split; set_solver].
  induction ops as [|op ops IH]; intros [w' gs] Hok; [done|]. apply IH. by apply group_op_ok.
Qed.
End group_theorems.

(** A group whose write failed is refused and in effect all the same. *)
Definition broken_disk : Disk () (string * CapabilityGroup) := {| wall _ := 0; range _ _ := []; write w _ := (w, Some "no space left on device") |}.
Example failed_group_in_effect :
  let '(_, gs, err) := @GroupAdd () broken_disk () (mkGroup "ops" "" [CapSecretsRead] false) (mkGroupStore ∅ []) in
  is_Some err ∧ Check (@Resolve in_key_order ["ops"] (GroupAsMap gs)) CapSecretsRead = true ∧ gs_file gs = [].
Proof. vm_compute. split_and!; [by eexists|done..]. Qed.

(** The copy other callers see has no token, and at most four bytes of it. *)
Lemma Redacted_hides e :
  pe_Token (Redacted e) = "" ∧ (nonempty (pe_Token e) = true → (String.length (pe_TokenPrefix (Redacted e)) ≤ 4)%nat) ∧
  pe_TokenPresent (Redacted e) = nonempty (pe_Token e) || pe_TokenPresent e.
Proof.
  unfold Redacted. cbn. split_and!; [done| |by destruct (nonempty _)]. intros ->.
  destruct (pe_Token e) as [|a [|b [|c [|d [|? ?]]]]]; cbn; lia.
Qed.

Lemma getByName_Some name l e : getByName name l = Some e → e ∈ l ∧ pe_Name e = name.
Proof.
  induction l as [|x l IH]; [done|]. cbn. destruct (String.eqb_spec (pe_Name x) name) as [E|_]; [intros [= <-]; by split; [left|]|].
  intros [? ?]%IH. by split; [right|].
Qed.

Lemma getByName_None name l : getByName name l = None ↔ name ∉ pe_Name <$> l.
Proof.
  induction l as [|x l IH]; cbn; [set_solver|]. destruct (String.eqb_spec (pe_Name x) name) as [<-|?]; [set_solver|].
  rewrite IH, not_elem_of_cons. naive_solver.
Qed.

Lemma GetByToken_Some tok s e : GetByToken tok s = Some e → e ∈ ss_entries s ∧ pe_Token e = tok ∧ tok ≠ "".
Proof.
  unfold GetByToken. destruct (String.eqb_spec tok "") as [|Hne]; [done|]. intros H. split; [|split; [|done]].
  all: revert H; induction (ss_entries s) as [|x l IH]; [done|]; cbn;
    destruct (String.eqb_spec (pe_Token x) tok) as [E|_]; [intros [= <-]|].
  - left.
  - intros ?. right. by apply IH.
  - done.
  - apply IH.
Qed.

(** Names are not shared, and the file has the entries that are no seeds. *)
Record peers_ok (s : ServerStore) : Prop := {
  po_names : NoDup (pe_Name <$> ss_entries s);
  po_file : NoDup (pe_Name <$> ss_file s)
}.

Inductive PeerOp :=
| PAdd (e : Entry) | PUpdate (name : string) (e : Entry) | PDelete (name : string) | PRestart.

Section peer_theorems.
Context {W : Type} `{!Disk W Entry} (seeds : list RemoteServerConfig).

Definition peer_op (acc : W * ServerStore) (op : PeerOp) : W * ServerStore :=
  let '(w, s) := acc in
  match op with
  | PAdd e => let '(w, s, _) := PeerAdd w e s in (w, s)
  | PUpdate name e => let '(w, s, _) := PeerUpdate w name e s in (w, s)
  | PDelete name => let '(w, s, _) := PeerDelete w name s in (w, s)
  | PRestart => (w, NewStore seeds (ss_file s))
  end.

Lemma filter_sublist_names (P : Entry → bool) l : NoDup (pe_Name <$> l) → NoDup (pe_Name <$> List.filter P l).
Proof.
  induction l as [|x l IH]; cbn; [done|]. rewrite NoDup_cons. intros [Hn Hl]. destruct (P x); [|by apply IH].
  cbn. rewrite NoDup_cons. split; [|by apply IH]. intros (y&Hy&Hin)%list_elem_of_fmap. apply Hn, list_elem_of_fmap.
  exists y. split; [done|]. apply list_elem_of_In in Hin. apply filter_In in Hin as [? _]. by apply list_elem_of_In.
Qed.

Lemma peer_persist_ok w s : peers_ok s → peers_ok (peer_persist w s).1.2.
Proof.
  intros [Hn Hf]. unfold peer_persist. destruct (write w _) as [w' [e|]]; [by split|]. split; [done|]. by apply filter_sublist_names.
Qed.

Lemma replace_first_names name x l : pe_Name x = name → pe_Name <$> replace_first name x l = pe_Name <$> l.
Proof.
  intros Hx. induction l as [|e l IH]; cbn; [done|]. destruct (String.eqb_spec (pe_Name e) name) as [<-|_]; cbn; [by rewrite Hx|].
  by rewrite IH.
Qed.

Lemma remove_first_sub name l y : y ∈ pe_Name <$> remove_first name l → y ∈ pe_Name <$> l.
Proof. induction l as [|e l IH]; cbn; [done|]. destruct (String.eqb (pe_Name e) name); set_solver. Qed.

Lemma remove_first_names name l : NoDup (pe_Name <$> l) → NoDup (pe_Name <$> remove_first name l).
Proof.
  induction l as [|e l IH]; cbn; [done|]. rewrite NoDup_cons. intros [Hn Hl].
  destruct (String.eqb (pe_Name e) name); [done|]. cbn. rewrite NoDup_cons. split; [by intros ?%remove_first_sub|by apply IH].
Qed.

(** Restarting never gives two entries one name, if no two seeds share one. *)
Lemma NewStore_ok file : NoDup (rs_Name <$> seeds) → NoDup (pe_Name <$> file) → peers_ok (NewStore seeds file).
Proof.
  intros Hs Hf. split; [|done]. unfold NewStore. cbn [ss_entries].
  set (runtime := _ <$> file). assert (pe_Name <$> runtime = pe_Name <$> file) as Hr by (subst runtime; by rewrite <- list_fmap_compose).
  rewrite fmap_app. apply NoDup_app. split_and!; [| |by rewrite Hr].
  - rewrite <- list_fmap_compose. change (pe_Name ∘ seed_entry) with rs_Name.
    clear Hr Hf. induction seeds as [|x l IH]; cbn; [apply NoDup_nil; done|]. apply NoDup_cons in Hs as [Hn Hl].
    destruct (getByName _ _); [by apply IH|]. cbn. apply NoDup_cons. split; [|by apply IH].
    intros (y&Hy&Hin)%list_elem_of_fmap. apply Hn, list_elem_of_fmap. exists y. split; [done|].
    apply list_elem_of_In in Hin. apply filter_In in Hin as [? _]. by apply list_elem_of_In.
  - intros n Hn. rewrite <- list_fmap_compose in Hn. apply list_elem_of_fmap in Hn as (sc&->&Hsc).
    apply list_elem_of_In, filter_In in Hsc as [_ Hg]. cbn. destruct (getByName _ _) eqn:E; [done|]. by apply getByName_None in E.
Qed.

(** Over any additions, changes, deletions and restarts, failed writes included,
    no two entries have one name. *)
Theorem peer_names_unique w ops :
  NoDup (rs_Name <$> seeds) → peers_ok (foldl peer_op (w, NewStore seeds []) ops).2.
Proof.
  intros Hs. assert (peers_ok (NewStore seeds [])) as H0 by (apply NewStore_ok; [done|apply NoDup_nil; done]).
  apply (foldl_invariant (λ acc : W * ServerStore, peers_ok acc.2)); [|done]. intros [w' s] op _ Hok. cbn in Hok |- *.
  destruct op as [e|name e|name|]; cbn.
  - unfold PeerAdd. destruct (String.eqb (pe_Name e) ""); [done|]. destruct (String.eqb (pe_URL e) ""); [done|].
    destruct (getByName _ _) eqn:E; [done|]. apply getByName_None in E. destruct Hok as [Hn Hf].
    match goal with |- context [peer_persist ?w ?s] => pose proof (peer_persist_ok w s) as Hp; destruct (peer_persist w s) as [[??]?] end.
    apply Hp. split; [|done]. cbn [ss_entries]. rewrite fmap_app, NoDup_app. split_and!; [done|set_solver|apply NoDup_singleton].
  - unfold PeerUpdate. destruct (getByName _ _) as [e0|] eqn:E; [|done]. destruct (pe_Builtin e0); [done|]. destruct Hok as [Hn Hf].
    match goal with |- context [peer_persist ?w ?s] => pose proof (peer_persist_ok w s) as Hp; destruct (peer_persist w s) as [[??]?] end.
    apply Hp. split; [|done]. cbn [ss_entries]. by rewrite replace_first_names.
  - unfold PeerDelete. destruct (getByName _ _) as [e0|] eqn:E; [|done]. destruct (pe_Builtin e0); [done|]. destruct Hok as [Hn Hf].
    match goal with |- context [peer_persist ?w ?s] => pose proof (peer_persist_ok w s) as Hp; destruct (peer_persist w s) as [[??]?] end.
    apply Hp. split; [|done]. by apply remove_first_names.
  - by apply NewStore_ok, Hok.
Qed.
End peer_theorems.
