(* ===== verification/HopChain.v ===== *)
(** * Federation: who stands behind a forwarded request

    internal/federation/hopchain.go: the chain of signed hops one daemon sends the
    next in a header. The JSON of a chain is [encoding/json]'s; [JSONReader] is its
    decoder, which the theorems only use on text the encoder wrote. What a request's
    context holds is a [HopContext]; no chain is the empty one, which is what the
    code makes of a nil slice before it is signed. *)

From stdpp Require Import pretty.
From S2P Require Import Prelude GoBase GoText GoFmt GoCrypto.

#[local] Open Scope Z_scope.

(** ** encoding/json *)

Definition hex4 (n : nat) : string :=
  String backslash ("u00" +:+ String (hex_nibble (n / 16)) (String (hex_nibble (n mod 16)) "")).

(** A byte below 128 inside a JSON string, HTML characters escaped. *)
Definition json_byte (a : Ascii.ascii) : string :=
  let n := Ascii.nat_of_ascii a in
  if (n =? 34)%nat || (n =? 92)%nat then String backslash (String a "")
  else if (n =? 8)%nat then String backslash "b"
  else if (n =? 12)%nat then String backslash "f"
  else if (n =? 10)%nat then String backslash "n"
  else if (n =? 13)%nat then String backslash "r"
  else if (n =? 9)%nat then String backslash "t"
  else if (n <? 32)%nat || (n =? 60)%nat || (n =? 62)%nat || (n =? 38)%nat then hex4 n
  else String a "".

(** Code points of more than one byte stand as they are, the two line separators
    and what is no code point aside. *)
Fixpoint json_loop (fuel : nat) (s : string) : string :=
  match fuel, s with
  | S f, String a r =>
      if between 0 127 a then json_byte a +:+ json_loop f r
      else
        let k := rune_size s in
        let rune := String.substring 0 k s in
        (if (k =? 1)%nat then String backslash "ufffd"
         else if String.eqb rune (of_bytes [226; 128; 168]%nat) then String backslash "u2028"
         else if String.eqb rune (of_bytes [226; 128; 169]%nat) then String backslash "u2029"
         else rune) +:+ json_loop f (String.substring k (String.length s) s)
  | _, _ => ""
  end.
Definition json_string (s : string) : string :=
  String dquote (json_loop (String.length s) s +:+ String dquote "").

(** ** Chains *)

Definition HopChainHeader : string := "X-Datawatch-Hop-Chain".
Definition maxHopChainBytes : Z := 2 ^ 20.
Definition ErrHopChainTooLarge : error := Errorf "hop chain signing input exceeds maximum size" [].

Record HopEntry := mkHop { he_Actor : string; he_Daemon : string; he_TS : Z; he_Sig : string }.
Abbreviation Chain := (list HopEntry) (only parsing).

Definition json_key (k : string) : string := String dquote (k +:+ String dquote ":").
Definition json_entry (e : HopEntry) : string :=
  "{" +:+ json_key "actor" +:+ json_string (he_Actor e) +:+ "," +:+ json_key "daemon" +:+ json_string (he_Daemon e) +:+
  "," +:+ json_key "ts" +:+ fmt_d (he_TS e) +:+ "," +:+ json_key "sig" +:+ json_string (he_Sig e) +:+ "}".
Definition json_chain (c : Chain) : string := "[" +:+ Join (json_entry <$> c) "," +:+ "]".

Definition pipe : Ascii.ascii := Ascii.ascii_of_nat 124.

Definition signingInput (prior : Chain) (actor daemon : string) (ts : Z) : res string :=
  let priorJSON := json_chain prior in
  if (maxHopChainBytes <? len_s priorJSON) || (maxHopChainBytes <? len_s actor) || (maxHopChainBytes <? len_s daemon)
  then Err ErrHopChainTooLarge
  else if maxHopChainBytes <? len_s priorJSON + len_s actor + len_s daemon + 24 then Err ErrHopChainTooLarge
  else Ok (priorJSON +:+ String pipe (actor +:+ String pipe (daemon +:+ String pipe (fmt_d ts)))).

Definition sign (input key : string) : string := hex_encode (hmac_sha256 (bytes_of key) (bytes_of input)).

Definition SignHop (prior : Chain) (actor daemon : string) (ts : Z) (key : string) : res HopEntry :=
  input ← signingInput prior actor daemon ts;
  Ok (mkHop actor daemon ts (sign input key)).

Definition VerifyLastHop (chain : Chain) (key : string) : bool :=
  match last chain with
  | None => false
  | Some last =>
      match signingInput (removelast chain) (he_Actor last) (he_Daemon last) (he_TS last) with
      | Err _ => false
      | Ok input => String.eqb (sign input key) (he_Sig last)
      end
  end.

(** base64.StdEncoding: the alphabet ends in plus and slash, and the last group
    is filled up with equal signs. *)
Definition to_std (a : Ascii.ascii) : Ascii.ascii :=
  Ascii.ascii_of_nat (match Ascii.nat_of_ascii a with 45 => 43 | 95 => 47 | n => n end%nat).
Definition from_std (a : Ascii.ascii) : Ascii.ascii :=
  Ascii.ascii_of_nat (match Ascii.nat_of_ascii a with 43 => 45 | 47 => 95 | 45 | 95 => 61 | n => n end%nat).
Fixpoint map_s (f : Ascii.ascii → Ascii.ascii) (s : string) : string :=
  match s with EmptyString => "" | String a s => String (f a) (map_s f s) end.

Definition std_encode (s : string) : string :=
  let body := map_s to_std (EncodeToString s) in
  body +:+ match (String.length body mod 4)%nat with 2%nat => "==" | 3%nat => "=" | _ => "" end.
Definition std_decode (s : string) : option string :=
  let s := skip_eol s in
  if negb (String.length s mod 4 =? 0)%nat then None
  else
    let body := match CutSuffix s "==" with Some b => b | None => TrimSuffix s "=" end in
    string_of <$> b64_decode (map_s from_std body).

Definition EncodeChain (c : Chain) : string := match c with [] => "" | _ => std_encode (json_chain c) end.

(** [json.Unmarshal] into a chain; an error is its text. *)
Class JSONReader := { unmarshal_chain : string → string + Chain }.

Definition DecodeChain `{!JSONReader} (s : string) : res Chain :=
  if String.eqb s "" then Ok []
  else match std_decode s with
  | None => Err (Errorf "illegal base64 data" [])
  | Some raw => match unmarshal_chain raw with inl e => Err (Errorf "%s" [AStr e]) | inr c => Ok c end
  end.

Definition OriginActor (chain : Chain) : string := match chain with [] => "" | e :: _ => he_Actor e end.

(** What a request's context carries along. *)
Record HopContext := mkHopContext { hc_chain : Chain; hc_principal : string }.

(** [now] is the clock in seconds; no chain and no error: the header is not set. *)
Definition BuildOrExtendChain (ctx : HopContext) (selfDaemon key : string) (now : Z) : res Chain :=
  if String.eqb key "" then Ok []
  else
    let prior := hc_chain ctx in
    let actor := match prior with [] => hc_principal ctx | _ => OriginActor prior end in
    if String.eqb actor "" then Ok []
    else
      entry ← SignHop prior actor selfDaemon now key;
      Ok (prior ++ [entry]).

(** ** base64 reads back what it wrote *)

Lemma map_s_length f s : String.length (map_s f s) = String.length s.
Proof. induction s; simpl; auto. Qed.

Lemma ascii_cases (P : Ascii.ascii → Prop) `{!∀ a, Decision (P a)} :
  Forall P (Ascii.ascii_of_nat <$> seq 0 256) → ∀ a, P a.
Proof.
  intros Hall a. rewrite Forall_forall in Hall. apply Hall, list_elem_of_fmap. exists (Ascii.nat_of_ascii a).
  split; [by rewrite Ascii.ascii_nat_embedding|]. apply elem_of_seq. pose proof (Ascii.nat_ascii_bounded a). lia.
Qed.

Lemma std_char a :
  b64_char a = true → from_std (to_std a) = a ∧ to_std a ≠ Ascii.ascii_of_nat 10 ∧ to_std a ≠ Ascii.ascii_of_nat 13 ∧ to_std a ≠ Ascii.ascii_of_nat 61.
Proof.
  apply (ascii_cases (λ a, b64_char a = true → from_std (to_std a) = a ∧ to_std a ≠ Ascii.ascii_of_nat 10 ∧
    to_std a ≠ Ascii.ascii_of_nat 13 ∧ to_std a ≠ Ascii.ascii_of_nat 61)).
  apply (bool_decide_unpack _). vm_compute. exact I.
Qed.

Lemma skip_eol_app a b : skip_eol (a +:+ b) = skip_eol a +:+ skip_eol b.
Proof. induction a as [|x a IH]; [done|]. simpl. rewrite IH. by destruct (_ || _). Qed.

Lemma std_body s :
  all_chars b64_char s = true →
  skip_eol (map_s to_std s) = map_s to_std s ∧ map_s from_std (map_s to_std s) = s ∧ no_byte (Ascii.ascii_of_nat 61) (map_s to_std s).
Proof.
  induction s as [|a s IH]; simpl; [intros _; split_and!; [done..|apply not_elem_of_nil]|]. intros [Ha Hs]%andb_true_iff.
  destruct (std_char a Ha) as (E&H10&H13&H61), (IH Hs) as (->&E2&Hn). apply Ascii.eqb_neq in H10, H13.
  rewrite H10, H13, E, E2. split_and!; [done..|]. by apply no_byte_cons.
Qed.

Lemma b64_length l : ∃ k r, String.length (b64_encode l) = (4 * k + r)%nat ∧ (r = 0 ∨ r = 2 ∨ r = 3)%nat.
Proof.
  induction l as [|a|a b|a b c l (k&r&E&Hr)] using bytes3_ind;
    [exists 0%nat, 0%nat; auto|exists 0%nat, 2%nat; auto|exists 0%nat, 3%nat; auto|].
  exists (S k), r. split; [|done]. cbn [b64_encode String.length]. rewrite E. lia.
Qed.

Lemma app_char_inj a b (x y : Ascii.ascii) : a +:+ String x "" = b +:+ String y "" → a = b ∧ x = y.
Proof.
  revert b. induction a as [|c a IH]; intros [|d b]; simpl; intros H.
  - by injection H.
  - injection H. intros H' ->. by destruct b.
  - injection H. intros H' _. by destruct a.
  - injection H. intros [-> ->]%IH ->. done.
Qed.

Lemma no_byte_app c a b : no_byte c (a +:+ b) ↔ no_byte c a ∧ no_byte c b.
Proof.
  induction a as [|x a IH]; [cbn; split; [by intros; split; [apply not_elem_of_nil|]|by intros []]|].
  change (String x a +:+ b) with (String x (a +:+ b)). rewrite !no_byte_cons, IH. naive_solver.
Qed.

Lemma no_suffix c a s : no_byte c a → CutSuffix a (s +:+ String c "") = None.
Proof.
  intros Hn. destruct (CutSuffix a _) as [r|] eqn:E; [|done]. apply CutSuffix_Some in E. subst.
  rewrite !no_byte_app, no_byte_cons in Hn. naive_solver.
Qed.

Lemma no_double_suffix c a : no_byte c a → CutSuffix (a +:+ String c "") (String c "" +:+ String c "") = None.
Proof.
  intros Hn. destruct (CutSuffix _ _) as [r|] eqn:E; [|done]. apply CutSuffix_Some in E. rewrite <- app_assoc_s in E.
  apply app_char_inj in E as [-> _]. rewrite no_byte_app, no_byte_cons in Hn. naive_solver.
Qed.

Lemma std_roundtrip s : std_decode (std_encode s) = Some s.
Proof.
  unfold std_encode. set (E := EncodeToString s).
  destruct (std_body E (Encode_chars s)) as (Hsk&Hmap&Hno).
  destruct (b64_length (bytes_of s)) as (k&r&Hlen&Hr). change (b64_encode (bytes_of s)) with E in Hlen.
  assert (string_of <$> b64_decode (map_s from_std (map_s to_std E)) = Some s) as Hd.
  { rewrite Hmap. subst E. destruct (b64_roundtrip (bytes_of s) (bytes_range s)) as [Hd _]. unfold EncodeToString.
    rewrite Hd. simpl. by rewrite string_of_bytes. }
  rewrite map_s_length, Hlen. replace ((4 * k + r) mod 4)%nat with r by (rewrite Nat.mul_comm, Nat.add_comm, Nat.Div0.mod_add; by destruct Hr as [->|[->| ->]]).
  unfold std_decode. destruct Hr as [->|[->| ->]]; cbv zeta.
  - rewrite app_nil_s, Hsk, map_s_length, Hlen. replace ((4 * k + 0) mod 4)%nat with 0%nat by (rewrite Nat.add_0_r, Nat.mul_comm; by rewrite Nat.Div0.mod_mul).
    cbn [Nat.eqb negb]. rewrite (no_suffix (Ascii.ascii_of_nat 61) _ (String (Ascii.ascii_of_nat 61) "") Hno : CutSuffix _ "==" = None).
    unfold TrimSuffix. by rewrite (no_suffix (Ascii.ascii_of_nat 61) _ "" Hno : CutSuffix _ "=" = None).
  - rewrite skip_eol_app, Hsk, length_app_s, map_s_length, Hlen. change (String.length (skip_eol "==")) with 2%nat.
    replace ((4 * k + 2 + 2) mod 4)%nat with 0%nat by (replace (4 * k + 2 + 2)%nat with ((k + 1) * 4)%nat by lia; by rewrite Nat.Div0.mod_mul).
    cbn [Nat.eqb negb]. change (skip_eol "==") with "==". by rewrite CutSuffix_app.
  - rewrite skip_eol_app, Hsk, length_app_s, map_s_length, Hlen. change (String.length (skip_eol "=")) with 1%nat.
    replace ((4 * k + 3 + 1) mod 4)%nat with 0%nat by (replace (4 * k + 3 + 1)%nat with ((k + 1) * 4)%nat by lia; by rewrite Nat.Div0.mod_mul).
    cbn [Nat.eqb negb]. change (skip_eol "=") with "=".
    rewrite (no_double_suffix (Ascii.ascii_of_nat 61) _ Hno : CutSuffix (_ +:+ "=") "==" = None). unfold TrimSuffix. by rewrite CutSuffix_app.
Qed.

(** ** What is signed says what it is about

    The text of a chain of ASCII entries determines the chain. *)

Definition ascii_s (s : string) : bool := all_chars (between 0 127) s.

(** Two texts that differ where both have a character begin no common text. *)
Fixpoint differ (s t : string) : bool :=
  match s, t with String a s, String b t => negb (Ascii.eqb a b) || differ s t | _, _ => false end.

Lemma differ_ne s t x y : differ s t = true → s +:+ x ≠ t +:+ y.
Proof.
  revert t. induction s as [|a s IH]; intros [|b t]; [done..|]. cbn [differ]. intros [Hd|Hd]%orb_true_iff E; injection E; intros E' ->.
  - by rewrite Ascii.eqb_refl in Hd.
  - by apply IH in E'.
Qed.

Definition ascii_bytes : list Ascii.ascii := Ascii.ascii_of_nat <$> seq 0 128.
Lemma ascii_byte a : between 0 127 a = true → a ∈ ascii_bytes.
Proof.
  intros [_ H]%andb_true_iff. apply Nat.leb_le in H. apply list_elem_of_fmap. exists (Ascii.nat_of_ascii a).
  split; [by rewrite Ascii.ascii_nat_embedding|]. apply elem_of_seq. lia.
Qed.

Lemma json_byte_code a b x y :
  between 0 127 a = true → between 0 127 b = true → json_byte a +:+ x = json_byte b +:+ y → a = b.
Proof.
  intros Ha%ascii_byte Hb%ascii_byte E.
  assert (Forall (λ a, Forall (λ b, a = b ∨ differ (json_byte a) (json_byte b) = true) ascii_bytes) ascii_bytes) as Hall
    by (apply (bool_decide_unpack _); vm_compute; exact I).
  rewrite Forall_forall in Hall. specialize (Hall _ Ha). rewrite Forall_forall in Hall.
  destruct (Hall _ Hb) as [?|Hd]; [done|]. by apply (differ_ne _ _ x y) in Hd.
Qed.

Lemma json_byte_not_quote a x y : between 0 127 a = true → json_byte a +:+ x ≠ String dquote y.
Proof.
  intros Ha%ascii_byte. assert (Forall (λ a, differ (json_byte a) (String dquote "") = true) ascii_bytes) as Hall
    by (apply (bool_decide_unpack _); vm_compute; exact I).
  rewrite Forall_forall in Hall. exact (differ_ne _ (String dquote "") x y (Hall _ Ha)).
Qed.

Lemma json_ascii a s f :
  between 0 127 a = true → json_loop (S f) (String a s) = json_byte a +:+ json_loop f s.
Proof. intros Ha. cbn [json_loop]. by rewrite Ha. Qed.

Lemma json_loop_inj s t x y :
  ascii_s s = true → ascii_s t = true →
  json_loop (String.length s) s +:+ String dquote x = json_loop (String.length t) t +:+ String dquote y → s = t ∧ x = y.
Proof.
  revert t. induction s as [|a s IH]; intros [|b t].
  - intros _ _ E. by injection E.
  - intros _ [Hb _]%andb_true_iff E. cbn [String.length] in E. rewrite json_ascii, app_assoc_s in E by done.
    symmetry in E. by apply json_byte_not_quote in E.
  - intros [Ha _]%andb_true_iff _ E. cbn [String.length] in E. rewrite json_ascii, app_assoc_s in E by done.
    by apply json_byte_not_quote in E.
  - intros [Ha Hs]%andb_true_iff [Hb Ht]%andb_true_iff E. cbn [String.length] in E. rewrite !json_ascii, !app_assoc_s in E by done.
    pose proof (json_byte_code _ _ _ _ Ha Hb E) as ->. apply (inj (String.app (json_byte b))) in E.
    by destruct (IH t Hs Ht E) as [-> ->].
Qed.

Lemma json_string_inj s t x y :
  ascii_s s = true → ascii_s t = true → json_string s +:+ x = json_string t +:+ y → s = t ∧ x = y.
Proof.
  intros Hs Ht E. unfold json_string in E. cbn in E. injection E as E. rewrite !app_assoc_s in E.
  by apply json_loop_inj in E.
Qed.

Lemma cut_inj c a b x y : no_byte c a → no_byte c b → a +:+ String c x = b +:+ String c y → a = b ∧ x = y.
Proof.
  revert b. induction a as [|d a IH]; intros [|e b]; rewrite ?no_byte_cons; intros Ha Hb E; injection E.
  - done.
  - intros _ ->. naive_solver.
  - intros _ ->. naive_solver.
  - intros E' ->. destruct (IH b) as [-> ->]; naive_solver.
Qed.

Lemma digits_no c s : is_digit c = false → all_chars is_digit s = true → no_byte c s.
Proof.
  intros Hc. induction s as [|a s IH]; [intros _; apply not_elem_of_nil|]. cbn. intros [Ha Hs]%andb_true_iff.
  apply no_byte_cons. split; [congruence|auto].
Qed.

Lemma fmt_d_no c z : is_digit c = false → c ≠ Ascii.ascii_of_nat 45 → no_byte c (fmt_d z).
Proof.
  intros Hc Hm. destruct (Z_le_gt_dec 0 z) as [Hz|Hz]; [by apply digits_no, fmt_d_nat|].
  destruct z as [|p|p]; [lia..|]. change (fmt_d (Z.neg p)) with (String (Ascii.ascii_of_nat 45) (fmt_d (Z.pos p))).
  apply no_byte_cons. split; [done|]. by apply digits_no, fmt_d_nat.
Qed.

Definition ascii_entry (e : HopEntry) : bool := ascii_s (he_Actor e) && ascii_s (he_Daemon e) && ascii_s (he_Sig e).

Lemma json_entry_inj e e' x y :
  ascii_entry e = true → ascii_entry e' = true → json_entry e +:+ x = json_entry e' +:+ y → e = e' ∧ x = y.
Proof.
  destruct e as [a d t s], e' as [a' d' t' s']. unfold ascii_entry, json_entry. cbn [he_Actor he_Daemon he_TS he_Sig].
  intros Ha Hb E. bools. rewrite !app_assoc_s in E.
  repeat match type of E with
  | ?p +:+ _ = ?p +:+ _ => apply (inj (String.app p)) in E
  | json_string _ +:+ _ = json_string _ +:+ _ => apply json_string_inj in E as [-> E]; [|done..]
  | fmt_d _ +:+ "," +:+ ?u = fmt_d _ +:+ "," +:+ ?v =>
      apply (cut_inj (Ascii.ascii_of_nat 44)) in E as [Et E]; [|by apply fmt_d_no..]
  end.
  apply (inj pretty) in Et as ->. done.
Qed.

Lemma json_entry_open e y : json_entry e +:+ y ≠ "]".
Proof. unfold json_entry. rewrite app_assoc_s. exact (differ_ne "{" "]" _ "" eq_refl). Qed.

Lemma json_join_inj c c' :
  Forall (λ e, ascii_entry e = true) c → Forall (λ e, ascii_entry e = true) c' →
  Join (json_entry <$> c) "," +:+ "]" = Join (json_entry <$> c') "," +:+ "]" → c = c'.
Proof.
  assert (∀ e l, Join (json_entry <$> e :: l) "," +:+ "]" =
    json_entry e +:+ match l with [] => "]" | _ => "," +:+ Join (json_entry <$> l) "," +:+ "]" end) as Hcons.
  { intros e [|e' l]; [done|]. cbn [fmap list_fmap Join]. by rewrite !app_assoc_s. }
  revert c'. induction c as [|e c IH]; intros [|e' c'] Hc Hc' E; [done| | |].
  { rewrite Hcons in E. symmetry in E. by apply json_entry_open in E. }
  { rewrite Hcons in E. by apply json_entry_open in E. }
  rewrite !Hcons in E. apply Forall_cons in Hc as [He Hc], Hc' as [He' Hc'].
  apply json_entry_inj in E as [-> E]; [|done..]. f_equal.
  destruct c as [|x c], c' as [|x' c']; [done|by apply (differ_ne "]" "," "") in E|by apply (differ_ne "," "]" _ "") in E|].
  apply IH; [done..|]. by apply (inj (String.app ",")) in E.
Qed.

Lemma json_chain_inj c c' :
  Forall (λ e, ascii_entry e = true) c → Forall (λ e, ascii_entry e = true) c' → json_chain c = json_chain c' → c = c'.
Proof. intros Hc Hc' E. apply (inj (String.app "[")) in E. by apply json_join_inj. Qed.

Lemma split_parts j a d ts :
  no_byte pipe a → no_byte pipe d →
  split_byte pipe (j +:+ String pipe (a +:+ String pipe (d +:+ String pipe (fmt_d ts)))) = split_byte pipe j ++ [a; d; fmt_d ts].
Proof.
  intros Ha Hd. rewrite split_more. f_equal. rewrite !split_app by done. do 2 f_equal. apply split_none. by apply fmt_d_no.
Qed.

Lemma app_inj_r a b x : a +:+ x = b +:+ x → a = b.
Proof.
  revert b. induction a as [|c a IH]; intros [|d b] E; [done| | |].
  - apply (f_equal String.length) in E. rewrite !length_app_s in E. cbn in E. lia.
  - apply (f_equal String.length) in E. rewrite !length_app_s in E. cbn in E. lia.
  - injection E as -> E. f_equal. by apply IH.
Qed.

#[local] Instance Ok_inj {A} : Inj (=) (=) (@Ok A).
Proof. by intros a b [=]. Qed.

(** Without a bar in a name, what is signed fixes the chain before, the actor, the
    daemon and the time. *)
Lemma signingInput_inj p a d t p' a' d' t' i :
  no_byte pipe a → no_byte pipe d → no_byte pipe a' → no_byte pipe d' →
  signingInput p a d t = Ok i → signingInput p' a' d' t' = Ok i →
  json_chain p = json_chain p' ∧ a = a' ∧ d = d' ∧ t = t'.
Proof.
  unfold signingInput. intros Ha Hd Ha' Hd'. destruct (_ || _); [done|]. destruct (_ <? _); [done|]. intros Ei.
  destruct (_ || _); [done|]. destruct (_ <? _); [done|]. rewrite <- Ei. intros E%(inj Ok).
  pose proof (f_equal (split_byte pipe) E) as Es. rewrite !split_parts in Es by done.
  apply (app_inj_2 _ _ [a'; d'; fmt_d t'] [a; d; fmt_d t] eq_refl) in Es as [_ Es]. injection Es as -> -> Et. apply (inj pretty) in Et as ->.
  split_and!; [|done..]. symmetry. by eapply app_inj_r.
Qed.

(** ** What the next daemon learns *)

Lemma last_removelast {A} (l : list A) x : last (l ++ [x]) = Some x ∧ removelast (l ++ [x]) = l.
Proof. by rewrite last_snoc, removelast_last. Qed.

Lemma sign_verifies prior actor daemon ts key e :
  SignHop prior actor daemon ts key = Ok e → VerifyLastHop (prior ++ [e]) key = true.
Proof.
  unfold SignHop. intros (i&Hi&[= <-])%bind_Ok. unfold VerifyLastHop.
  destruct (last_removelast prior (mkHop actor daemon ts (sign i key))) as [-> ->]. cbn. rewrite Hi. apply String.eqb_refl.
Qed.

(** Who originated the action, as far as this daemon can say. *)
Definition actor_of (ctx : HopContext) : string :=
  match hc_chain ctx with [] => hc_principal ctx | c => OriginActor c end.

(** No header without a key or an actor, an error only where the signed text would
    be too large, and else one signed entry more. *)
Lemma build_cases ctx self key now :
  (key = "" ∨ actor_of ctx = "" → BuildOrExtendChain ctx self key now = Ok []) ∧
  (key ≠ "" → actor_of ctx ≠ "" →
    BuildOrExtendChain ctx self key now =
      match signingInput (hc_chain ctx) (actor_of ctx) self now with
      | Ok i => Ok (hc_chain ctx ++ [mkHop (actor_of ctx) self now (sign i key)])
      | Err _ => Err ErrHopChainTooLarge
      end).
Proof.
  unfold BuildOrExtendChain. cbv zeta.
  assert (match hc_chain ctx with [] => hc_principal ctx | _ => OriginActor (hc_chain ctx) end = actor_of ctx) as ->
    by (unfold actor_of; by destruct (hc_chain ctx)). split.
  - intros [->| ->]; [done|]. by destruct (String.eqb key "").
  - intros Hk Ha. apply String.eqb_neq in Hk, Ha. rewrite Hk, Ha. unfold SignHop.
    destruct (signingInput _ _ _ _) as [i|e] eqn:E; [done|]. cbn. unfold signingInput in E.
    destruct (_ || _) in E; [by injection E as <-|]. by destruct (_ <? _) in E; [injection E as <-|].
Qed.

Lemma build_inv ctx self key now c :
  BuildOrExtendChain ctx self key now = Ok c → c ≠ [] →
  key ≠ "" ∧ actor_of ctx ≠ "" ∧ ∃ i, signingInput (hc_chain ctx) (actor_of ctx) self now = Ok i ∧
    c = hc_chain ctx ++ [mkHop (actor_of ctx) self now (sign i key)].
Proof.
  intros H Hc. destruct (build_cases ctx self key now) as [H0 H1].
  destruct (decide (key = "")) as [E|Hk]; [rewrite H0 in H by auto; by simplify_eq|].
  destruct (decide (actor_of ctx = "")) as [E|Ha]; [rewrite H0 in H by auto; by simplify_eq|].
  split_and!; [done..|]. rewrite H1 in H by done. destruct (signingInput _ _ _ _) as [i|]; [|done]. exists i.
  split; [done|]. by apply (inj Ok) in H.
Qed.

(** The entry that is verified, and the chain it is verified against. *)
Definition last_hop (c : Chain) : HopEntry := default (mkHop "" "" 0 "") (last c).

Lemma verified_input c key :
  VerifyLastHop c key = true → ∃ i,
    signingInput (removelast c) (he_Actor (last_hop c)) (he_Daemon (last_hop c)) (he_TS (last_hop c)) = Ok i ∧
    sign i key = he_Sig (last_hop c) ∧ c = removelast c ++ [last_hop c].
Proof.
  unfold VerifyLastHop, last_hop. destruct (last c) as [e|] eqn:El; [|done]. cbn.
  destruct (signingInput _ _ _ _) as [i|]; [|done]. intros H%String.eqb_eq. exists i. split_and!; [done..|].
  destruct c as [|x c] using rev_ind; [done|]. rewrite last_snoc in El. injection El as ->. by rewrite removelast_last.
Qed.


(** ** Examples *)

#[local] Instance reads (c : Chain) : JSONReader := {| unmarshal_chain s := if String.eqb s (json_chain c) then inr c else inl "invalid" |}.

Definition alice_ctx : HopContext := mkHopContext [] "alice".
Definition alice_chain : Chain := match BuildOrExtendChain alice_ctx "daemon-a" "k1" 7 with Ok c => c | Err _ => [] end.


(** A bar in a name moves the border between actor and daemon: the two hops are
    signed alike, and each signature passes for the other. *)
Example signing_bleeds :
  signingInput [] "alice|x" "b" 7 = signingInput [] "alice" "x|b" 7 ∧
  (∀ s, VerifyLastHop [mkHop "alice|x" "b" 7 s] "k1" = VerifyLastHop [mkHop "alice" "x|b" 7 s] "k1").
Proof. split; [vm_compute; reflexivity|]. intros s. unfold VerifyLastHop. cbn [last removelast he_Actor he_Daemon he_TS he_Sig].
  by replace (signingInput [] "alice|x" "b" 7) with (signingInput [] "alice" "x|b" 7) by (vm_compute; reflexivity).
Qed.

(** The encodings of the documentation of encoding/json and encoding/base64. *)
Example json_chain_ex : json_chain [mkHop "a<b" "d" (-5) "s"] =
  of_bytes [91; 123; 34; 97; 99; 116; 111; 114; 34; 58; 34; 97; 92; 117; 48; 48; 51; 99; 98; 34; 44; 34; 100; 97; 101; 109; 111; 110;
    34; 58; 34; 100; 34; 44; 34; 116; 115; 34; 58; 45; 53; 44; 34; 115; 105; 103; 34; 58; 34; 115; 34; 125; 93]%nat.
Proof. vm_compute. reflexivity. Qed.
Example std_encode_ex : std_encode "sure." = "c3VyZS4=" ∧ std_decode "c3VyZS4" = None ∧ std_decode "c3VyZS4=" = Some "sure.".
Proof. vm_compute. split_and!; reflexivity. Qed.
