(* ===== verification/Access.v ===== *)
(** * Access: who may do what

    internal/auth/session_token.go (one scoped token per session), and of
    internal/server: nonce.go, proxy_token.go, sec016_token_rotation.go,
    federation_cap.go ([fedAuthMiddleware], [fedCap]), the gates of the MCP bridge and
    of the WebSocket in api.go, the push tokens of plugins (plugin_widgets.go,
    internal/plugins/widget_tokens.go) and the access log; and the same gate of the
    MCP listener (internal/mcp/bl317_fed_auth.go). [Rand] is crypto/rand, [bcrypt_ok]
    the comparison of golang.org/x/crypto/bcrypt; the decoding of a request's JSON
    and what a passed request then does are outside. The clock is read anew where
    the code does: [Instants] are the readings of one request. *)

From S2P Require Import Prelude GoBase GoText GoFmt GoCrypto RecordStore Federation HopChain.

#[local] Open Scope Z_scope.

(** Random bytes, or the error of reading them. *)
Class Rand (W : Type) := { rand_read : W → nat → W * (string + list Z) }.

(** ** Session tokens (session_token.go) *)

(** No capabilities ([None]) is a nil slice, which is not an empty one. *)
Record SessionTokenRecord := mkSessionToken { st_SessionID : string; st_Token : string; st_Caps : option (list string) }.

Record SessionTokenStore := mkSessionTokens {
  ts_onDisk : bool;
  ts_byToken : gmap string SessionTokenRecord;
  ts_bySession : gmap string string;
  ts_file : list SessionTokenRecord
}.

Definition set_tables (t : gmap string SessionTokenRecord) (b : gmap string string) (s : SessionTokenStore) : SessionTokenStore :=
  mkSessionTokens (ts_onDisk s) t b (ts_file s).

(** A restart: both tables are filled from the file. *)
Definition load_session_token (s : SessionTokenStore) (r : SessionTokenRecord) : SessionTokenStore :=
  set_tables (<[st_Token r := r]> (ts_byToken s)) (<[st_SessionID r := st_Token r]> (ts_bySession s)) s.
Definition NewSessionTokenStore (onDisk : bool) (file : list SessionTokenRecord) : SessionTokenStore :=
  let empty := mkSessionTokens onDisk ∅ ∅ file in
  if onDisk then foldl load_session_token empty file else empty.

Definition CapsForToken (tok : string) (s : SessionTokenStore) : option (option (list string)) := st_Caps <$> ts_byToken s !! tok.
Definition SessionIDForToken (tok : string) (s : SessionTokenStore) : string :=
  match ts_byToken s !! tok with Some r => st_SessionID r | None => "" end.

Section session_tokens.
Context {W : Type} `{!Disk W SessionTokenRecord, !Rand W}.

Definition session_persist (w : W) (s : SessionTokenStore) : W * SessionTokenStore * option error :=
  if negb (ts_onDisk s) then (w, s, None)
  else
    let list := sort_by (λ x y, String.ltb (st_SessionID x) (st_SessionID y)) (range w (ts_byToken s)) in
    let '(w, err) := write w list in
    match err with
    | None => (w, mkSessionTokens (ts_onDisk s) (ts_byToken s) (ts_bySession s) list, None)
    | Some e => (w, s, Some (Errorf "%s" [AStr e]))
    end.

(** The token a session had is out before the new one is in. *)
Definition without_old (sessionID : string) (s : SessionTokenStore) : gmap string SessionTokenRecord :=
  match ts_bySession s !! sessionID with Some old => delete old (ts_byToken s) | None => ts_byToken s end.

Definition Mint (w : W) (sessionID : string) (caps : option (list string)) (s : SessionTokenStore) : W * SessionTokenStore * res string :=
  let '(w, buf) := rand_read w 32 in
  match buf with
  | inl e => (w, s, Err (Errorf "mint session token: %w" [AStr e]))
  | inr buf =>
      let tok := hex_encode buf in
      let rec := mkSessionToken sessionID tok caps in
      let s := set_tables (<[tok := rec]> (without_old sessionID s)) (<[sessionID := tok]> (ts_bySession s)) s in
      let '(w, s, err) := session_persist w s in
      match err with Some e => (w, s, Err e) | None => (w, s, Ok tok) end
  end.

Definition RevokeSession (w : W) (sessionID : string) (s : SessionTokenStore) : W * SessionTokenStore * option error :=
  match ts_bySession s !! sessionID with
  | None => (w, s, None)
  | Some tok => session_persist w (set_tables (delete tok (ts_byToken s)) (delete sessionID (ts_bySession s)) s)
  end.

(** One entry of the sweep's loop over the sessions. *)
Definition sweep_session (active : gset string) (acc : SessionTokenStore * Z) (e : string * string) : SessionTokenStore * Z :=
  let '(s, swept) := acc in
  if bool_decide (e.1 ∈ active) then (s, swept)
  else (set_tables (delete e.2 (ts_byToken s)) (delete e.1 (ts_bySession s)) s, swept + 1).

Definition SweepSessions (w : W) (activeSessionIDs : list string) (s : SessionTokenStore) : W * SessionTokenStore * (Z * option error) :=
  let '(s, swept) := foldl (sweep_session (list_to_set activeSessionIDs)) (s, 0) (map_to_list (ts_bySession s)) in
  if 0 <? swept then let '(w, s, err) := session_persist w s in (w, s, (swept, err)) else (w, s, (swept, None)).
End session_tokens.

(** ** Nonces (nonce.go) *)

Definition nonceTTL : Duration := 60 * Second.
Record nonceEntry := mkNonce { no_token : string; no_expiresAt : Time }.
Abbreviation nonceStore := (gmap string nonceEntry) (only parsing).

Section nonces.
Context {W : Type} `{!Rand W}.

(** The error of reading random bytes is dropped, and the bytes stay zero. *)
Definition MintNonce (w : W) (now : Time) (forToken : string) (n : nonceStore) : W * nonceStore * (string * Time) :=
  let '(w, buf) := rand_read w 20 in
  let nonce := hex_encode (match buf with inr b => b | inl _ => replicate 20 0 end) in
  let expiresAt := Add now nonceTTL in
  (w, <[nonce := mkNonce forToken expiresAt]> n, (nonce, expiresAt)).
End nonces.

Definition Consume (now : Time) (nonce : string) (n : nonceStore) : nonceStore * option string :=
  if String.eqb nonce "" then (n, None)
  else match n !! nonce with
  | None => (n, None)
  | Some e => (delete nonce n, if After now (no_expiresAt e) then None else Some (no_token e))
  end.

Definition SweepNonces (now : Time) (n : nonceStore) : nonceStore :=
  filter (λ e, After now (no_expiresAt e.2) = false) n.

(** ** Tokens for one proxied peer (proxy_token.go) *)

Definition proxyTokenTTL : Duration := Hour.
Record proxyTokenEntry := mkProxyToken { pt_peerName : string; pt_expiresAt : Time }.

Section proxy_tokens.
Context {W : Type} `{!Rand W}.

Definition mint_proxy_token (w : W) (now : Time) (peerName : string) (s : gmap string proxyTokenEntry) : W * gmap string proxyTokenEntry * string :=
  let '(w, b) := rand_read w 24 in
  match b with
  | inl _ => (w, s, "")
  | inr b =>
      let tok := hex_encode b in
      let kept := filter (λ e, After now (pt_expiresAt e.2) = false) s in
      (w, <[tok := mkProxyToken peerName (Add now proxyTokenTTL)]> kept, tok)
  end.
End proxy_tokens.

Definition valid_proxy_token (now : Time) (token peerName : string) (s : gmap string proxyTokenEntry) : gmap string proxyTokenEntry * bool :=
  if String.eqb token "" || String.eqb peerName "" then (s, false)
  else match s !! token with
  | None => (s, false)
  | Some entry =>
      if After now (pt_expiresAt entry) then (delete token s, false)
      else (s, String.eqb (pt_peerName entry) peerName)
  end.

Definition first_segment (rest : string) : string := match Cut rest "/" with Some (a, _) => a | None => rest end.
Definition proxyPeerNameFromPath (path : string) : string := first_segment (TrimPrefix path "/api/proxy/").
Definition remotePWAPeerNameFromPath (path : string) : string := first_segment (TrimPrefix path "/remote/").

Definition appendProxyToken (url token : string) : string :=
  if String.eqb token "" then url
  else url +:+ (if Contains url "?" then "&" else "?") +:+ "token=" +:+ token.

(** ** The push tokens of plugins (widget_tokens.go, plugin_widgets.go) *)

Record pluginTokenEntry := mkPluginToken { pk_Plugin : string; pk_TokenHash : string; pk_IssuedAt : Time }.
Definition ErrUnknownPluginToken : error := Errorf "no widget push token registered for plugin" [].
Definition ErrInvalidPluginToken : error := Errorf "invalid widget push token" [].

Record PluginTokenRegistry := mkPluginTokens { pr_onDisk : bool; pr_entries : gmap string pluginTokenEntry; pr_file : list pluginTokenEntry }.

Definition NewPluginTokenRegistry (onDisk : bool) (file : list pluginTokenEntry) : PluginTokenRegistry :=
  mkPluginTokens onDisk (if onDisk then load_list pk_Plugin file else ∅) file.

(** [bcrypt.GenerateFromPassword] salts with the world; [CompareHashAndPassword]. *)
Class Bcrypt (W : Type) := { bcrypt_hash : W → string → W * (string + string) }.

Section plugin_tokens.
Context {W : Type} `{!Disk W pluginTokenEntry, !Rand W, !Bcrypt W}.

Definition plugin_persist (w : W) (r : PluginTokenRegistry) : W * PluginTokenRegistry * option error :=
  if negb (pr_onDisk r) then (w, r, None)
  else
    let out := sort_by (λ x y, String.ltb (pk_Plugin x) (pk_Plugin y)) (range w (pr_entries r)) in
    let '(w, err) := write w out in
    match err with
    | None => (w, mkPluginTokens (pr_onDisk r) (pr_entries r) out, None)
    | Some e => (w, r, Some (Errorf "%s" [AStr e]))
    end.

(** A failed write puts back what was there: the old token stays valid. *)
Definition RegisterPlugin (w : W) (plugin : string) (r : PluginTokenRegistry) : W * PluginTokenRegistry * res string :=
  if String.eqb plugin "" then (w, r, Err (Errorf "plugin name required" []))
  else
    let '(w, bytes) := rand_read w 32 in
    match bytes with
    | inl e => (w, r, Err (Errorf "token rand: %w" [AStr e]))
    | inr bytes =>
        let token := b64_encode bytes in
        let '(w, hash) := bcrypt_hash w token in
        match hash with
        | inl e => (w, r, Err (Errorf "bcrypt: %w" [AStr e]))
        | inr hash =>
            let prev := pr_entries r !! plugin in
            let entries := <[plugin := mkPluginToken plugin hash (wall w)]> (pr_entries r) in
            let '(w, r, err) := plugin_persist w (mkPluginTokens (pr_onDisk r) entries (pr_file r)) in
            match err with
            | Some e =>
                let back := match prev with Some p => <[plugin := p]> (pr_entries r) | None => delete plugin (pr_entries r) end in
                (w, mkPluginTokens (pr_onDisk r) back (pr_file r), Err e)
            | None => (w, r, Ok token)
            end
        end
    end.

Definition RevokePlugin (w : W) (plugin : string) (r : PluginTokenRegistry) : W * PluginTokenRegistry * option error :=
  match pr_entries r !! plugin with
  | None => (w, r, None)
  | Some _ => plugin_persist w (mkPluginTokens (pr_onDisk r) (delete plugin (pr_entries r)) (pr_file r))
  end.
End plugin_tokens.

Definition ReservedWidgetTokenID : string := "token".

(** The plugin of a push route. *)
Definition pluginPushTarget (path : string) : option string :=
  match CutPrefix path "/api/plugins/" with
  | None => None
  | Some rest =>
      match split_byte slash rest with
      | [name; widgets; id] =>
          if String.eqb name "" || negb (String.eqb widgets "widgets") || String.eqb id "" || String.eqb id ReservedWidgetTokenID
          then None else Some name
      | _ => None
      end
  end.

(** ** The admin token and its rotation (sec016_token_rotation.go) *)

Definition tokenRotationGrace : Duration := 60 * Second.

(** The live token, the previous one and how long it is honoured, the token in the
    configuration the daemon holds, and the one its last successful write left. *)
Record AdminToken := mkAdmin {
  ad_token : string;
  ad_oldToken : string;
  ad_oldTokenExpiry : Time;
  ad_cfgToken : string;
  ad_file : string
}.

Definition constantTimeEqualBytes (a b : string) : bool := (len_s a =? len_s b) && negb (len_s a =? 0) && String.eqb a b.

Definition checkToken (now : Time) (tok : string) (s : AdminToken) : bool :=
  if constantTimeEqualBytes tok (ad_token s) then true
  else nonempty (ad_oldToken s) && Before now (ad_oldTokenExpiry s) && constantTimeEqualBytes tok (ad_oldToken s).

(** ** The server *)

(** What the access log holds of one request. *)
Record AccessEntry := mkAccess { ac_Actor : string; ac_Action : string; ac_Status : Z; ac_OriginActor : option string; ac_HopChainInvalid : bool }.
Record AccessLog := mkAccessLog { al_wired : bool; al_enabled : bool; al_entries : list AccessEntry; al_events : Z; al_failures : Z }.

Record Server := mkServer {
  sv_admin : AdminToken;
  sv_nonces : option nonceStore;
  sv_sessionTokens : option SessionTokenStore;
  sv_serverStore : option ServerStore;
  sv_groups : option GroupStore;
  sv_proxyTokens : gmap string proxyTokenEntry;
  sv_pluginTokens : option PluginTokenRegistry;
  sv_log : AccessLog
}.

Definition set_nonces (n : nonceStore) (s : Server) : Server :=
  mkServer (sv_admin s) (Some n) (sv_sessionTokens s) (sv_serverStore s) (sv_groups s) (sv_proxyTokens s) (sv_pluginTokens s) (sv_log s).
Definition set_proxyTokens (p : gmap string proxyTokenEntry) (s : Server) : Server :=
  mkServer (sv_admin s) (sv_nonces s) (sv_sessionTokens s) (sv_serverStore s) (sv_groups s) p (sv_pluginTokens s) (sv_log s).
Definition set_log (l : AccessLog) (s : Server) : Server :=
  mkServer (sv_admin s) (sv_nonces s) (sv_sessionTokens s) (sv_serverStore s) (sv_groups s) (sv_proxyTokens s) (sv_pluginTokens s) l.

(** What the gate reads of a request. *)
Record HTTPRequest := mkHTTPRequest {
  r_Authorization : string;
  r_WebSocketProtocol : string;
  r_HopChain : string;
  r_nonce : string;
  r_Path : string;
  r_Method : string
}.

(** What the context of a request says of its caller. *)
Record CallerCtx := mkCallerCtx {
  cx_peer : option Entry;
  cx_scopedProxyPeer : string;
  cx_callerToken : string;
  cx_sessionCaps : option (list string);
  cx_hopChainInvalid : bool;
  cx_pluginPush : string;
  cx_hop : HopContext
}.
Definition no_caller : CallerCtx := mkCallerCtx None "" "" None false "" (mkHopContext [] "").

(** The clock when the nonce, the admin token and the proxy token are looked at. *)
Record Instants := mkInstants { at_nonce : Time; at_admin : Time; at_proxy : Time }.

(** A handler's answer: a status and its text, or what it goes on with. *)
Inductive Outcome (A : Type) := Status (code : Z) (text : string) | Serve (a : A).
Arguments Status {_} _ _.
Arguments Serve {_} _.

(** ** The access log (accesslog.go) *)

Definition StatusOK : Z := 200.
Definition StatusBadRequest : Z := 400.
Definition StatusUnauthorized : Z := 401.
Definition StatusForbidden : Z := 403.
Definition StatusNotFound : Z := 404.
Definition StatusMethodNotAllowed : Z := 405.
Definition StatusInternalServerError : Z := 500.
Definition StatusServiceUnavailable : Z := 503.

Definition principalFromContext (c : CallerCtx) : string :=
  match cx_peer c with
  | Some peer => "peer:" +:+ pe_Name peer
  | None =>
      if nonempty (cx_scopedProxyPeer c) then "proxy:" +:+ cx_scopedProxyPeer c
      else match cx_sessionCaps c with
      | Some _ => "session-scoped"
      | None => if nonempty (cx_callerToken c) then "admin" else "unauthenticated"
      end
  end.

Definition principalKind (principal : string) : string := match Cut principal ":" with Some (k, _) => k | None => principal end.

Definition logAccess (c : CallerCtx) (status : Z) (principal : string) (s : Server) : Server :=
  let l := sv_log s in
  if negb (al_wired l) || negb (al_enabled l) then s
  else
    let action := if status =? StatusUnauthorized then "auth_failure" else "http_access" in
    let chain := hc_chain (cx_hop c) in
    let entry := mkAccess principal action status (match chain with [] => None | _ => Some (OriginActor chain) end) (cx_hopChainInvalid c) in
    set_log (mkAccessLog (al_wired l) (al_enabled l) (al_entries l ++ [entry]) (al_events l + 1)
      (al_failures l + (if String.eqb action "auth_failure" then 1 else 0))) s.

(** ** The gate of every request (federation_cap.go) *)

Definition nonceAwarePath (path : string) : bool :=
  String.eqb path "/api/files/download" || String.eqb path "/api/link/stream" || HasPrefix path "/remote/".

(** The token a request presents: its header, else the first subprotocol of a
    WebSocket handshake, else what a nonce stands for. *)
Definition header_token (r : HTTPRequest) : string :=
  let tok := TrimPrefix (r_Authorization r) "Bearer " in
  if String.eqb tok "" then
    TrimSpace (match Cut (r_WebSocketProtocol r) "," with Some (a, _) => a | None => r_WebSocketProtocol r end)
  else tok.

Definition request_token (t : Instants) (r : HTTPRequest) (s : Server) : Server * string :=
  let tok := header_token r in
  match sv_nonces s with
  | Some n =>
      if String.eqb tok "" && nonempty (r_nonce r) && nonceAwarePath (r_Path r) then
        let '(n, real) := Consume (at_nonce t) (r_nonce r) n in
        (set_nonces n s, default tok real)
      else (s, tok)
  | None => (s, tok)
  end.

Section server.
Context `{!JSONReader} (bcrypt_ok : string → string → bool).

Definition VerifyPlugin (plugin token : string) (r : PluginTokenRegistry) : option error :=
  match pr_entries r !! plugin with
  | None => Some ErrUnknownPluginToken
  | Some e => if bcrypt_ok (pk_TokenHash e) token then None else Some ErrInvalidPluginToken
  end.

Definition verifyPluginPushToken (r : HTTPRequest) (tok : string) (s : Server) : option string :=
  match sv_pluginTokens s with
  | None => None
  | Some p =>
      if String.eqb tok "" || negb (String.eqb (r_Method r) "POST") then None
      else match pluginPushTarget (r_Path r) with
      | None => None
      | Some name => match VerifyPlugin name tok p with Some _ => None | None => Some name end
      end
  end.

(** The branches in their order; each answers the context of a caller it knows. *)
Definition session_caller (tok : string) (s : Server) : option CallerCtx :=
  match sv_sessionTokens s with
  | Some st =>
      if String.eqb tok "" then None
      else caps ← CapsForToken tok st; Some (mkCallerCtx None "" tok caps false "" (mkHopContext [] "session-scoped"))
  | None => None
  end.

Definition admin_caller (t : Instants) (tok : string) (s : Server) : option CallerCtx :=
  if nonempty tok && checkToken (at_admin t) tok (sv_admin s)
  then Some (mkCallerCtx None "" tok None false "" (mkHopContext [] "admin")) else None.

(** The chain a peer sends along is kept if it verifies, and else only noted. *)
Definition incoming_chain (raw tok : string) : list HopEntry * bool :=
  if String.eqb raw "" then ([], false)
  else match DecodeChain raw with
  | Err _ => ([], false)
  | Ok [] => ([], false)
  | Ok chain => if VerifyLastHop chain tok then (chain, false) else ([], true)
  end.

Definition peer_caller (r : HTTPRequest) (tok : string) (s : Server) : option CallerCtx :=
  match sv_serverStore s with
  | Some store =>
      if String.eqb tok "" then None
      else match GetByToken tok store with
      | Some peer =>
          if pe_Federated peer then
            let '(chain, invalid) := incoming_chain (r_HopChain r) tok in
            Some (mkCallerCtx (Some peer) "" tok None invalid "" (mkHopContext chain ("peer:" +:+ pe_Name peer)))
          else None
      | None => None
      end
  | None => None
  end.

(** The peer the path names, on the two routes a scoped token is good for. *)
Definition path_peer (path : string) : string :=
  if HasPrefix path "/api/proxy/" then proxyPeerNameFromPath path
  else if HasPrefix path "/remote/" then remotePWAPeerNameFromPath path
  else "".

Definition proxy_caller (t : Instants) (r : HTTPRequest) (tok : string) (s : Server) : Server * option CallerCtx :=
  if String.eqb tok "" then (s, None)
  else
    let peerName := path_peer (r_Path r) in
    if String.eqb peerName "" then (s, None)
    else
      let '(p, ok) := valid_proxy_token (at_proxy t) tok peerName (sv_proxyTokens s) in
      (set_proxyTokens p s,
       if ok then Some (mkCallerCtx None peerName "" None false "" (mkHopContext [] ("proxy:" +:+ peerName))) else None).

Definition plugin_caller (r : HTTPRequest) (tok : string) (s : Server) : option CallerCtx :=
  name ← verifyPluginPushToken r tok s; Some (mkCallerCtx None "" "" None false name (mkHopContext [] ("plugin:" +:+ name))).

(** A request goes on with the context of its caller, or is refused with 401. *)
Definition pass (c : CallerCtx) (s : Server) : Server * option CallerCtx := (logAccess c StatusOK (hc_principal (cx_hop c)) s, Some c).

Definition authenticate (t : Instants) (r : HTTPRequest) (tok : string) (s : Server) : Server * option CallerCtx :=
  match session_caller tok s with
  | Some c => pass c s
  | None =>
      match admin_caller t tok s with
      | Some c => pass c s
      | None =>
          match peer_caller r tok s with
          | Some c => pass c s
          | None =>
              let '(s, proxy) := proxy_caller t r tok s in
              match proxy with
              | Some c => pass c s
              | None =>
                  match plugin_caller r tok s with
                  | Some c => pass c s
                  | None => (logAccess no_caller StatusUnauthorized "unauthenticated" s, None)
                  end
              end
          end
      end
  end.

Definition fedAuthMiddleware (t : Instants) (r : HTTPRequest) (s : Server) : Server * option CallerCtx :=
  if String.eqb (ad_token (sv_admin s)) "" then (logAccess no_caller StatusOK "unauthenticated" s, Some no_caller)
  else let '(s, tok) := request_token t r s in authenticate t r tok s.

(** ** What a caller may do *)

Context `{!MapRange}.

Definition custom_groups (s : Server) : gmap string CapabilityGroup :=
  match sv_groups s with Some g => GroupAsMap g | None => ∅ end.

(** [fedCap]; a refusal is a 403. *)
Definition fedCap (s : Server) (c : CallerCtx) (required : string) : bool :=
  match cx_sessionCaps c with
  | Some caps => Check caps required
  | None =>
      match cx_peer c with
      | None => true
      | Some peer => Check (Resolve (pe_Capabilities peer) (custom_groups s)) required
      end
  end.

(** [None]: the admin, unrestricted. *)
Definition callerCaps (s : Server) (c : CallerCtx) : option (list string) :=
  match cx_sessionCaps c with
  | Some caps => Some caps
  | None => peer ← cx_peer c; Some (Resolve (pe_Capabilities peer) (custom_groups s))
  end.

Definition caller_session (s : Server) (c : CallerCtx) : string :=
  match sv_sessionTokens s with
  | Some st => if nonempty (cx_callerToken c) then SessionIDForToken (cx_callerToken c) st else ""
  | None => ""
  end.

Definition auditActor (s : Server) (c : CallerCtx) : string :=
  match cx_sessionCaps c with
  | Some _ => let id := caller_session s c in if nonempty id then "session:" +:+ id else "operator"
  | None => match cx_peer c with Some peer => "peer:" +:+ pe_Name peer | None => "operator" end
  end.

Definition checkProxyAuth (s : Server) (c : CallerCtx) (serverName : string) : bool :=
  if nonempty (cx_scopedProxyPeer c) then String.eqb (cx_scopedProxyPeer c) serverName
  else fedCap s c CapConfigRead.

Definition authorizePluginPush (r : HTTPRequest) (c : CallerCtx) (name : string) (s : Server) : bool :=
  if String.eqb (cx_pluginPush c) name then true
  else match CutPrefix (r_Authorization r) "Bearer " with
  | None => false
  | Some token =>
      if String.eqb token "" then false
      else match sv_pluginTokens s with
      | None => false
      | Some p => match VerifyPlugin name token p with Some _ => false | None => true end
      end
  end.

(** ** The MCP bridge: [handleMCPTools] and [handleMCPCall]

    [Serve] is what is asked of the bridge. *)

(** The catalogue by name, or the error of reading it. *)
Definition handleMCPTools (s : Server) (c : CallerCtx) (bridge : option (string + list string)) : Outcome (list string) :=
  if negb (fedCap s c CapSessionsList) then Status StatusForbidden ""
  else match bridge with
  | None => Status StatusServiceUnavailable "MCP not enabled"
  | Some (inl err) => Status StatusInternalServerError err
  | Some (inr tools) =>
      match callerCaps s c with
      | None => Serve tools
      | Some caps =>
          Serve (List.filter (λ tool, match RequiredCapForMCPTool tool with Some required => Check caps required | None => false end) tools)
      end
  end.

(** [body] is the tool named in the decoded request, or the error of decoding it;
    the call is made for the session whose token came with it. *)
Definition handleMCPCall (s : Server) (c : CallerCtx) (method : string) (bridge : bool) (body : string + string) : Outcome (string * string) :=
  if negb (String.eqb method "POST") then Status StatusMethodNotAllowed "method not allowed"
  else if negb bridge then Status StatusServiceUnavailable "MCP not enabled"
  else match body with
  | inl err => Status StatusBadRequest ("bad json: " +:+ err)
  | inr tool =>
      if String.eqb tool "" then Status StatusBadRequest "tool is required"
      else match RequiredCapForMCPTool tool with
      | None => Status StatusNotFound ("unknown tool: " +:+ tool)
      | Some required =>
          if negb (fedCap s c required) then Status StatusForbidden ""
          else Serve (tool, caller_session s c)
      end
  end.

(** ** The WebSocket: [handleWS]

    One decoded message, and what is done for it. [find] is the session manager's
    lookup: a session's full id and its console size; [home] is the home directory. *)
Inductive WSMessage :=
| MsgCommand (text : string)
| MsgNewSession (task backend name resumeID projectDir : string)
| MsgSendInput (sessionID text : string) (raw : bool)
| MsgHello | MsgUnsubscribe (sessionID : string) | MsgSubscribe (sessionID : string)
| MsgResizeTerm (sessionID : string) (cols rows : Z)
| MsgPing | MsgOther.

Inductive WSAction :=
| Refused (required : string)
| ExecuteCommand (text origin : string)
| StartSession (task backend name resumeID projectDir : string)
| SendRawKeys (fullID text : string)
| SendText (sessionID text origin : string)
| Hello | Unsubscribe (sessionID : string) | Capture (sessionID : string) | Resize (sessionID : string) (cols rows : Z)
| Pong | Nothing.

(** Resolved once, when the socket opens. *)
Definition wsHasCap (s : Server) (c : CallerCtx) (required : string) : bool :=
  match cx_peer c with
  | None => true
  | Some peer => Check (Resolve (pe_Capabilities peer) (custom_groups s)) required
  end.

Definition handleWS (find : string → option (string * Z * Z)) (home : string) (s : Server) (c : CallerCtx) (m : WSMessage) : WSAction :=
  let origin := "WebSocket command requested by " +:+ auditActor s c in
  match m with
  | MsgCommand text => if negb (wsHasCap s c CapSessionsInput) then Refused CapSessionsInput else ExecuteCommand text origin
  | MsgNewSession task backend name resumeID dir =>
      if negb (wsHasCap s c CapSessionsWrite) then Refused CapSessionsWrite
      else StartSession task backend name resumeID (if String.eqb dir "" then home else dir)
  | MsgSendInput id text raw =>
      if raw then match find id with Some (fullID, _, _) => SendRawKeys fullID text | None => Nothing end
      else SendText id text origin
  | MsgHello => Hello
  | MsgUnsubscribe id => Unsubscribe id
  | MsgSubscribe id => Capture id
  | MsgResizeTerm id cols rows =>
      if nonempty id && (0 <? cols) && (0 <? rows) then
        match find id with
        | Some (_, minCols, minRows) =>
            Resize id (if (0 <? minCols) && (cols <? minCols) then minCols else cols) (if (0 <? minRows) && (rows <? minRows) then minRows else rows)
        | None => Resize id cols rows
        end
      else Nothing
  | MsgPing => Pong
  | MsgOther => Nothing
  end.
End server.

(** ** Minting a nonce: [handleAuthNonce] *)

Definition handleAuthNonce {W} `{!Rand W} (w : W) (now : Time) (method : string) (c : CallerCtx) (s : Server) :
    W * Server * Outcome (string * Time) :=
  if negb (String.eqb method "POST") then (w, s, Status StatusMethodNotAllowed "method not allowed")
  else match sv_nonces s with
  | None => (w, s, Status StatusServiceUnavailable "nonce store not initialized")
  | Some n =>
      if String.eqb (cx_callerToken c) "" then (w, s, Status StatusBadRequest "no caller token to mint a nonce for")
      else let '(w, n, answer) := MintNonce w now (cx_callerToken c) n in (w, set_nonces n s, Serve answer)
  end.

(** ** Rotating the admin token: [handleRotateToken]

    [save] writes the configuration; [config] says whether there is one, and
    [asked] is the token the body asks for. *)
Class ConfigFile (W : Type) := { save : W → string → W * option string }.

Definition swap_token (now : Time) (new : string) (a : AdminToken) : AdminToken :=
  mkAdmin new (ad_token a) (Add now tokenRotationGrace) new (ad_file a).

(** After a write that failed: what the daemon compares with is as before. *)
Definition swap_back (previous : string) (a : AdminToken) : AdminToken :=
  mkAdmin previous "" zero_time (ad_cfgToken a) (ad_file a).

Definition handleRotateToken {W} `{!Rand W, !ConfigFile W} (w : W) (now : Time) (method : string) (c : CallerCtx) (config : bool)
    (asked : string) (a : AdminToken) : W * AdminToken * Outcome (string * Time) :=
  if negb (String.eqb method "POST") then (w, a, Status StatusMethodNotAllowed "method not allowed")
  else match cx_peer c, cx_sessionCaps c with
  | None, None =>
      if negb config then (w, a, Status StatusServiceUnavailable "config not available")
      else if nonempty asked && (len_s asked <? 16) then (w, a, Status StatusBadRequest "new_token must be at least 16 characters")
      else
        let '(w, new) :=
          if String.eqb asked "" then
            let '(w, b) := rand_read w 32 in (w, match b with inl e => inl e | inr b => inr (hex_encode b) end)
          else (w, inr asked) in
        match new with
        | inl e => (w, a, Status StatusInternalServerError ("generate token: " +:+ e))
        | inr new =>
            let a' := swap_token now new a in
            let '(w, err) := save w new in
            match err with
            | Some e => (w, swap_back (ad_token a) a', Status StatusInternalServerError ("save config: " +:+ e))
            | None => (w, mkAdmin (ad_token a') (ad_oldToken a') (ad_oldTokenExpiry a') new new, Serve (new, ad_oldTokenExpiry a'))
            end
        end
  | _, _ => (w, a, Status StatusForbidden "admin token required to rotate the admin token")
  end.

(** ** The MCP listener's own gate (internal/mcp/bl317_fed_auth.go) *)

Definition effectiveToken (cfgToken fallbackToken : string) : string := if nonempty cfgToken then cfgToken else fallbackToken.

Definition mcp_peer (tok : string) (peers : option ServerStore) : option Entry :=
  store ← peers; peer ← (if String.eqb tok "" then None else GetByToken tok store); if pe_Federated peer then Some peer else None.

(** Refused, or gone on with the peer in the context, if any. *)
Definition mcpFedAuthMiddleware (admin auth : string) (peers : option ServerStore) : option (option Entry) :=
  let tok := TrimPrefix auth "Bearer " in
  if String.eqb admin "" then Some (mcp_peer tok peers)
  else if nonempty tok && String.eqb tok admin then Some None
  else match mcp_peer tok peers with Some peer => Some (Some peer) | None => None end.

Definition mcpFedCap `{!MapRange} (peer : option Entry) (required : string) : bool :=
  match peer with None => true | Some peer => Check (Resolve (pe_Capabilities peer) ∅) required end.

(** ** Who is let through

    [presents tok]: the request comes with [tok], in its header, as the subprotocol of
    a handshake, or behind a nonce that is still good. *)

Inductive presents (t : Instants) (r : HTTPRequest) (s : Server) : string → Prop :=
| by_header : header_token r ≠ "" → presents t r s (header_token r)
| by_nonce n e :
    header_token r = "" → sv_nonces s = Some n → r_nonce r ≠ "" → nonceAwarePath (r_Path r) = true →
    n !! r_nonce r = Some e → at_nonce t ≤ no_expiresAt e → no_token e ≠ "" → presents t r s (no_token e).

Definition session_record (s : Server) (tok : string) : option SessionTokenRecord :=
  st ← sv_sessionTokens s; ts_byToken st !! tok.
Definition admin_token (t : Instants) (s : Server) (tok : string) : Prop :=
  tok = ad_token (sv_admin s) ∨ tok = ad_oldToken (sv_admin s) ∧ at_admin t < ad_oldTokenExpiry (sv_admin s).
Definition peer_of (s : Server) (tok : string) : option Entry :=
  store ← sv_serverStore s; peer ← GetByToken tok store; if pe_Federated peer then Some peer else None.

(** A path on one of the two routes whose next segment is the peer's name. *)
Definition names_peer (path peer : string) : Prop :=
  no_byte slash peer ∧ ∃ base, base ∈ ["/api/proxy/"; "/remote/"] ∧
    (path = base +:+ peer ∨ ∃ rest, path = base +:+ peer +:+ String slash rest).

(** The callers that may do what needs the capability [c]. *)
Inductive entitled (bcrypt_ok : string → string → bool) (t : Instants) (r : HTTPRequest) (s : Server) (c : string) : Prop :=
| a_session tok rec caps :
    presents t r s tok → session_record s tok = Some rec → st_Caps rec = Some caps → c ∈ caps → entitled bcrypt_ok t r s c
| an_unlisted_session tok rec :
    presents t r s tok → session_record s tok = Some rec → st_Caps rec = None → entitled bcrypt_ok t r s c
| the_admin tok :
    presents t r s tok → session_record s tok = None → admin_token t s tok → entitled bcrypt_ok t r s c
| a_peer tok peer name n :
    presents t r s tok → session_record s tok = None → ¬ admin_token t s tok → peer_of s tok = Some peer →
    name ∈ pe_Capabilities peer → (n ≤ 8)%nat → granted (custom_groups s) n name c → entitled bcrypt_ok t r s c
| a_proxied_page tok e :
    presents t r s tok → session_record s tok = None → ¬ admin_token t s tok → peer_of s tok = None →
    sv_proxyTokens s !! tok = Some e → at_proxy t ≤ pt_expiresAt e → pt_peerName e ≠ "" →
    names_peer (r_Path r) (pt_peerName e) → entitled bcrypt_ok t r s c
| a_plugin tok p name id hash :
    presents t r s tok → session_record s tok = None → ¬ admin_token t s tok → peer_of s tok = None →
    sv_pluginTokens s = Some p → pr_entries p !! name = Some hash → bcrypt_ok (pk_TokenHash hash) tok = true →
    r_Method r = "POST" → name ≠ "" → id ≠ "" → id ≠ ReservedWidgetTokenID → no_byte slash name → no_byte slash id →
    r_Path r = "/api/plugins/" +:+ name +:+ "/widgets/" +:+ id → entitled bcrypt_ok t r s c.

(** *** The token of a request *)

Lemma request_token_keeps t r s s1 tok :
  request_token t r s = (s1, tok) → s1 = s ∨ ∃ n, s1 = set_nonces n s.
Proof.
  unfold request_token. destruct (sv_nonces s) as [n|]; [|intros [= <- _]; by left].
  destruct (_ && _ && _); [|intros [= <- _]; by left]. destruct (Consume _ _ _) as [n' real]. intros [= <- _]. right. by exists n'.
Qed.

Lemma request_token_spec t r s s1 tok :
  request_token t r s = (s1, tok) → ∀ tok', presents t r s tok' ↔ tok' = tok ∧ tok ≠ "".
Proof.
  unfold request_token. intros H tok'. destruct (decide (header_token r = "")) as [E|E].
  - rewrite E in H. rewrite String.eqb_refl in H. destruct (sv_nonces s) as [n|] eqn:En.
    + destruct (nonempty (r_nonce r)) eqn:Enon; [apply nonempty_true in Enon|apply nonempty_false in Enon];
        destruct (nonceAwarePath (r_Path r)) eqn:Ep; cbn in H.
      * unfold Consume in H. apply String.eqb_neq in Enon as Enon'. rewrite Enon' in H.
        destruct (n !! r_nonce r) as [e|] eqn:Ee.
        -- unfold After in H. destruct (Z.ltb_spec (no_expiresAt e) (at_nonce t)); injection H as <- <-; cbn.
           ++ split; [|by intros []]. inversion 1; simplify_eq; lia.
           ++ split; [inversion 1; simplify_eq; done|]. intros [-> ?]. by eapply by_nonce.
        -- injection H as <- <-. split; [inversion 1; simplify_eq; try congruence; done|by intros []].
      * injection H as <- <-. split; [inversion 1; simplify_eq; try congruence; done|by intros []].
      * injection H as <- <-. split; [inversion 1; simplify_eq; try congruence; done|by intros []].
      * injection H as <- <-. split; [inversion 1; simplify_eq; try congruence; done|by intros []].
    + injection H as <- <-. split; [inversion 1; simplify_eq; try congruence; done|by intros []].
  - apply String.eqb_neq in E as E'. rewrite E' in H.
    assert (tok = header_token r) as -> by (by destruct (sv_nonces s); injection H).
    split; [inversion 1; simplify_eq; done|]. intros [-> _]. by apply by_header.
Qed.

(** *** The callers *)

Lemma constant_time a b : constantTimeEqualBytes a b = true ↔ a = b ∧ a ≠ "".
Proof.
  unfold constantTimeEqualBytes, len_s. destruct (String.eqb_spec a b) as [<-|Hne]; [|rewrite andb_false_r; naive_solver].
  rewrite Z.eqb_refl, andb_true_r, andb_true_l, negb_true_iff, Z.eqb_neq. destruct a; cbn; naive_solver lia.
Qed.

Lemma checkToken_spec t s tok : tok ≠ "" → checkToken (at_admin t) tok (sv_admin s) = true ↔ admin_token t s tok.
Proof.
  intros Ht. unfold checkToken, admin_token. destruct (constantTimeEqualBytes tok (ad_token (sv_admin s))) eqn:E.
  - apply constant_time in E as [? _]. naive_solver.
  - assert (tok ≠ ad_token (sv_admin s)) by (intros ->; by rewrite (proj2 (constant_time _ _)) in E).
    rewrite !andb_true_iff, nonempty_true, constant_time. unfold Before. rewrite Z.ltb_lt. naive_solver congruence.
Qed.

Section callers.
Context `{!JSONReader, !MapRange} (bcrypt_ok : string → string → bool).

Lemma session_caller_spec tok s :
  tok ≠ "" → session_caller tok s =
    match session_record s tok with
    | Some rec => Some (mkCallerCtx None "" tok (st_Caps rec) false "" (mkHopContext [] "session-scoped"))
    | None => None
    end.
Proof.
  intros Ht. unfold session_caller, session_record. destruct (sv_sessionTokens s) as [st|]; [|done]. cbn.
  apply String.eqb_neq in Ht as ->. unfold CapsForToken. by destruct (ts_byToken st !! tok).
Qed.

Lemma admin_caller_Some t s tok :
  tok ≠ "" → admin_token t s tok → admin_caller t tok s = Some (mkCallerCtx None "" tok None false "" (mkHopContext [] "admin")).
Proof.
  intros Ht Ha. unfold admin_caller. apply nonempty_true in Ht as Hn. rewrite Hn. by rewrite (proj2 (checkToken_spec _ _ _ Ht) Ha).
Qed.
Lemma admin_caller_None t s tok : tok ≠ "" → ¬ admin_token t s tok → admin_caller t tok s = None.
Proof.
  intros Ht Ha. unfold admin_caller. destruct (_ && _) eqn:E; [|done]. apply andb_true_iff in E as [_ E].
  by apply checkToken_spec in E.
Qed.

Lemma peer_caller_spec r tok s :
  tok ≠ "" → match peer_of s tok with
    | Some peer => ∃ chain invalid, peer_caller r tok s =
        Some (mkCallerCtx (Some peer) "" tok None invalid "" (mkHopContext chain ("peer:" +:+ pe_Name peer)))
    | None => peer_caller r tok s = None
    end.
Proof.
  intros Ht. unfold peer_of, peer_caller. destruct (sv_serverStore s) as [store|]; [|done]. cbn.
  apply String.eqb_neq in Ht as ->. destruct (GetByToken tok store) as [peer|]; [|done]. cbn.
  destruct (pe_Federated peer); [|done]. destruct (incoming_chain _ _) as [chain invalid]. by exists chain, invalid.
Qed.

Lemma Cut_char s c :
  match Cut s (String c "") with
  | Some (a, b) => s = a +:+ String c b ∧ no_byte c a
  | None => no_byte c s
  end.
Proof.
  induction s as [|x s IH]; cbn; [apply not_elem_of_nil|]. destruct (Ascii.eqb_spec c x) as [->|Hne].
  - destruct s; cbn; (split; [done|apply not_elem_of_nil]).
  - destruct (Cut s (String c "")) as [[a b]|].
    + destruct IH as [-> Hn]. split; [done|]. apply no_byte_cons. naive_solver.
    + apply no_byte_cons. naive_solver.
Qed.

Lemma Cut_first c a b : no_byte c a → Cut (a +:+ String c b) (String c "") = Some (a, b).
Proof.
  induction a as [|x a IH]; intros Hn.
  - change ("" +:+ String c b) with (String c b). simpl. rewrite Ascii.eqb_refl. by destruct b.
  - apply no_byte_cons in Hn as [Hx Hn]. change (String x a +:+ String c b) with (String x (a +:+ String c b)). cbn.
    destruct (Ascii.eqb_spec c x) as [->|]; [done|]. by rewrite IH.
Qed.

Lemma Cut_none c a : no_byte c a → Cut a (String c "") = None.
Proof.
  induction a as [|x a IH]; intros Hn; [done|]. apply no_byte_cons in Hn as [Hx Hn]. cbn.
  destruct (Ascii.eqb_spec c x) as [->|]; [done|]. by rewrite IH.
Qed.

Lemma first_segment_spec rest peer :
  first_segment rest = peer ↔ no_byte slash peer ∧ (rest = peer ∨ ∃ tail, rest = peer +:+ String slash tail).
Proof.
  unfold first_segment. change "/" with (String slash ""). split.
  - pose proof (Cut_char rest slash) as Hc. destruct (Cut rest _) as [[a b]|]; intros <-; [|by split; [|left]].
    destruct Hc as [-> Hn]. split; [done|]. right. by exists b.
  - intros [Hn [->|[tail ->]]]; [by rewrite Cut_none|by rewrite Cut_first].
Qed.

Lemma path_peer_spec path peer : peer ≠ "" → path_peer path = peer ↔ names_peer path peer.
Proof.
  intros Hne. unfold path_peer, names_peer, proxyPeerNameFromPath, remotePWAPeerNameFromPath. split.
  - destruct (HasPrefix path "/api/proxy/") eqn:Hp.
    + apply HasPrefix_true in Hp as [rest ->]. rewrite TrimPrefix_app. intros [Hn Hr]%first_segment_spec. split; [done|].
      exists "/api/proxy/". split; [by left|]. destruct Hr as [->|[tail ->]]; [by left|right; by exists tail].
    + destruct (HasPrefix path "/remote/") eqn:Hr; [|by intros <-]. apply HasPrefix_true in Hr as [rest ->].
      rewrite TrimPrefix_app. intros [Hn Hr]%first_segment_spec. split; [done|]. exists "/remote/". split; [by right; left|].
      destruct Hr as [->|[tail ->]]; [by left|right; by exists tail].
  - intros [Hn (base&Hb&Hp)]. assert (∃ rest, path = base +:+ rest ∧ first_segment rest = peer) as (rest&->&Hr).
    { destruct Hp as [->|[tail ->]]; eexists; (split; [done|]); apply first_segment_spec; split; try done; [by left|right; by exists tail]. }
    apply elem_of_cons in Hb as [->|Hb]; [|apply list_elem_of_singleton in Hb as ->].
    + by rewrite HasPrefix_app, TrimPrefix_app.
    + change (HasPrefix ("/remote/" +:+ rest) "/api/proxy/") with false. by rewrite HasPrefix_app, TrimPrefix_app.
Qed.

Lemma proxy_caller_spec t r tok s :
  tok ≠ "" → ∃ p, (proxy_caller t r tok s).1 = set_proxyTokens p s ∧
  (∀ c, (proxy_caller t r tok s).2 = Some c ↔
    ∃ e, sv_proxyTokens s !! tok = Some e ∧ at_proxy t ≤ pt_expiresAt e ∧ pt_peerName e ≠ "" ∧ names_peer (r_Path r) (pt_peerName e) ∧
      c = mkCallerCtx None (pt_peerName e) "" None false "" (mkHopContext [] ("proxy:" +:+ pt_peerName e))).
Proof.
  intros Ht. unfold proxy_caller. apply String.eqb_neq in Ht as Ht'. rewrite Ht'. cbv zeta.
  assert (∀ e, pt_peerName e ≠ "" ∧ names_peer (r_Path r) (pt_peerName e) ↔ pt_peerName e ≠ "" ∧ path_peer (r_Path r) = pt_peerName e) as Hpath.
  { intros e. split; intros [Hn Hq]; (split; [done|]); by apply path_peer_spec. }
  destruct (String.eqb_spec (path_peer (r_Path r)) "") as [Ep|Ep].
  - exists (sv_proxyTokens s). split; [by destruct s|]. intros c. split; [done|]. intros (e&_&_&Hn&Hp&_). apply path_peer_spec in Hp; congruence.
  - unfold valid_proxy_token. rewrite Ht'. apply String.eqb_neq in Ep as Ep'. rewrite Ep'. cbn [orb].
    destruct (sv_proxyTokens s !! tok) as [e|] eqn:Ee; cbn.
    + unfold After. destruct (Z.ltb_spec (pt_expiresAt e) (at_proxy t)); (eexists; split; [done|]); intros c.
      * split; [done|]. intros (e'&[= <-]&?&_). lia.
      * destruct (String.eqb_spec (pt_peerName e) (path_peer (r_Path r))) as [E|E].
        -- split; [intros [= <-]|intros (e'&[= <-]&_&_&_&->); by rewrite E].
           exists e. rewrite <- E. split_and!; [done..|congruence|by apply Hpath; split; congruence|done].
        -- split; [done|]. intros (e'&[= <-]&_&Hn&Hp&_). apply path_peer_spec in Hp; congruence.
    + eexists. split; [done|]. intros c. split; [done|]. by intros (?&?&_).
Qed.

Lemma join_split ch s : Join (split_byte ch s) (String ch "") = s.
Proof.
  induction s as [|a s IH]; [done|]. cbn. assert (split_byte ch s ≠ []) as Hne.
  { destruct s as [|b s]; cbn; [done|]. destruct (Ascii.eqb b ch); [done|]. by destruct (split_byte ch s). }
  destruct (Ascii.eqb_spec a ch) as [->|_]; destruct (split_byte ch s) as [|x l]; [done| |done|]; rewrite <- IH.
  - done.
  - by destruct l.
Qed.

Lemma pluginPushTarget_spec path name :
  pluginPushTarget path = Some name ↔ name ≠ "" ∧ no_byte slash name ∧
    ∃ id, id ≠ "" ∧ id ≠ ReservedWidgetTokenID ∧ no_byte slash id ∧ path = "/api/plugins/" +:+ name +:+ "/widgets/" +:+ id.
Proof.
  unfold pluginPushTarget. split.
  - destruct (CutPrefix path _) as [rest|] eqn:Ec; [|done]. apply CutPrefix_Some in Ec as ->.
    pose proof (split_pieces slash rest) as Hf. pose proof (join_split slash rest) as Hj.
    destruct (split_byte slash rest) as [|a [|b [|c [|? ?]]]]; [done..| |done].
    destruct (String.eqb_spec a ""); [done|]. destruct (String.eqb_spec b "widgets") as [->|]; [|done].
    destruct (String.eqb_spec c ""); [done|]. destruct (String.eqb_spec c ReservedWidgetTokenID); [done|]. intros [= <-].
    rewrite !Forall_cons in Hf. destruct Hf as (Ha&_&Hc&_). split_and!; [done..|]. exists c. split_and!; [done..|].
    by rewrite <- Hj.
  - intros (Hn&Hsl&id&Hid&Ht&Hsi&->). rewrite CutPrefix_app.
    assert (split_byte slash (name +:+ "/widgets/" +:+ id) = [name; "widgets"; id]) as ->.
    { change ("/widgets/" +:+ id) with (String slash ("widgets" +:+ String slash id)). rewrite split_app by done.
      rewrite split_app by (apply (bool_decide_unpack _); vm_compute; exact I). by rewrite split_none. }
    apply String.eqb_neq in Hn as ->. apply String.eqb_neq in Hid as ->. apply String.eqb_neq in Ht as ->. done.
Qed.

Lemma plugin_caller_spec r tok s c :
  tok ≠ "" → plugin_caller bcrypt_ok r tok s = Some c ↔
  ∃ p name hash, sv_pluginTokens s = Some p ∧ pr_entries p !! name = Some hash ∧ bcrypt_ok (pk_TokenHash hash) tok = true ∧
    r_Method r = "POST" ∧ pluginPushTarget (r_Path r) = Some name ∧
    c = mkCallerCtx None "" "" None false name (mkHopContext [] ("plugin:" +:+ name)).
Proof.
  intros Ht. unfold plugin_caller, verifyPluginPushToken. apply String.eqb_neq in Ht as ->. cbn [orb].
  destruct (sv_pluginTokens s) as [p|]; [|cbn; split; [done|by intros (?&?&?&?&_)]].
  destruct (String.eqb_spec (r_Method r) "POST") as [->|Hm]; cbn [negb]; [|cbn; split; [done|by intros (?&?&?&?&?&?&?&_)]].
  destruct (pluginPushTarget (r_Path r)) as [name|]; [|cbn; split; [done|by intros (?&?&?&_&_&_&_&?&_)]].
  unfold VerifyPlugin. split.
  - destruct (pr_entries p !! name) as [e|] eqn:Ee; [|done]. destruct (bcrypt_ok _ _) eqn:Eb; [|done]. cbn. intros [= <-]. by exists p, name, e.
  - intros (p'&name'&hash&[= <-]&Hh&Hb&_&[= <-]&->). rewrite Hh, Hb. done.
Qed.

Lemma no_push_route path name : pluginPushTarget path = Some name → path_peer path = "".
Proof. by intros (_&_&id&_&_&_&->)%pluginPushTarget_spec. Qed.

(** *** The gate and the check, as one *)

Lemma logAccess_keeps c st p s : sv_groups (logAccess c st p s) = sv_groups s.
Proof. unfold logAccess. by destruct (_ || _). Qed.

Lemma fedCap_groups s s' c req : sv_groups s' = sv_groups s → fedCap s' c req = fedCap s c req.
Proof. unfold fedCap, custom_groups. by intros ->. Qed.

(** The request passes the gate, and then the check for [c]. *)
Definition passes (c : string) (res : Server * option CallerCtx) : Prop := ∃ ctx, res.2 = Some ctx ∧ fedCap res.1 ctx c = true.
Definition authorised (t : Instants) (r : HTTPRequest) (s : Server) (c : string) : Prop := passes c (fedAuthMiddleware bcrypt_ok t r s).

Lemma pass_passes s ctx c : passes c (pass ctx s) ↔ fedCap s ctx c = true.
Proof.
  unfold passes, pass. cbn.
  rewrite <- (fedCap_groups s (logAccess ctx StatusOK (hc_principal (cx_hop ctx)) s)) by apply logAccess_keeps.
  split; [by intros (?&[= <-]&?)|]. intros. by exists ctx.
Qed.

Lemma refused_passes c s : ¬ passes c (s, None).
Proof. by intros (?&?&_). Qed.

Lemma authenticate_spec t r tok s c :
  tok ≠ "" → passes c (authenticate bcrypt_ok t r tok s) ↔
  match session_record s tok with
  | Some rec => ∀ caps, st_Caps rec = Some caps → c ∈ caps
  | None => admin_token t s tok ∨ (¬ admin_token t s tok ∧
      match peer_of s tok with
      | Some peer => c ∈ Resolve (pe_Capabilities peer) (custom_groups s)
      | None => (∃ ctx, (proxy_caller t r tok s).2 = Some ctx) ∨ (∃ ctx, plugin_caller bcrypt_ok r tok s = Some ctx)
      end)
  end.
Proof.
  intros Ht. unfold authenticate. rewrite session_caller_spec by done.
  destruct (session_record s tok) as [rec|].
  { rewrite pass_passes. unfold fedCap. cbn. destruct (st_Caps rec) as [caps|]; [rewrite Check_elem|]; naive_solver. }
  destruct (checkToken (at_admin t) tok (sv_admin s)) eqn:Ec.
  { apply checkToken_spec in Ec; [|done]. rewrite admin_caller_Some by done. rewrite pass_passes. naive_solver. }
  assert (¬ admin_token t s tok) as Hn by (intros Ha%checkToken_spec; [congruence|done]).
  rewrite admin_caller_None by done. pose proof (peer_caller_spec r tok s Ht) as Hp. destruct (peer_of s tok) as [peer|].
  { destruct Hp as (chain&invalid&->). rewrite pass_passes. unfold fedCap. cbn. rewrite Check_elem. naive_solver. }
  rewrite Hp. destruct (proxy_caller_spec t r tok s Ht) as (p&Ep&Hx). destruct (proxy_caller t r tok s) as [s1 [ctx|]] eqn:Epc; cbn in *.
  { rewrite pass_passes. destruct (proj1 (Hx ctx) eq_refl) as (e&_&_&_&_&->). unfold fedCap. cbn. naive_solver. }
  subst s1. assert (plugin_caller bcrypt_ok r tok (set_proxyTokens p s) = plugin_caller bcrypt_ok r tok s) as -> by done.
  destruct (plugin_caller bcrypt_ok r tok s) as [ctx|] eqn:El.
  { rewrite pass_passes. apply plugin_caller_spec in El as (?&?&?&_&_&_&_&_&->); [|done]. unfold fedCap. cbn. naive_solver. }
  split; [intros []%refused_passes|]. naive_solver.
Qed.

Lemma no_token_refused t r s c : ¬ passes c (authenticate bcrypt_ok t r "" s).
Proof.
  unfold authenticate, session_caller, admin_caller, peer_caller, proxy_caller, plugin_caller, verifyPluginPushToken. cbn.
  destruct (sv_sessionTokens s), (sv_serverStore s), (sv_pluginTokens s); apply refused_passes.
Qed.

(** What the gate looks at apart from the nonces. *)
Lemma request_token_rest t r s s1 tok :
  request_token t r s = (s1, tok) →
  session_record s1 tok = session_record s tok ∧ (admin_token t s1 tok ↔ admin_token t s tok) ∧ peer_of s1 tok = peer_of s tok ∧
  custom_groups s1 = custom_groups s ∧ sv_proxyTokens s1 = sv_proxyTokens s ∧ sv_pluginTokens s1 = sv_pluginTokens s.
Proof. by intros [->|[n ->]]%request_token_keeps. Qed.

Lemma proxied_spec t r tok s :
  tok ≠ "" → (∃ ctx, (proxy_caller t r tok s).2 = Some ctx) ↔
  ∃ e, sv_proxyTokens s !! tok = Some e ∧ at_proxy t ≤ pt_expiresAt e ∧ pt_peerName e ≠ "" ∧ names_peer (r_Path r) (pt_peerName e).
Proof. intros Ht. destruct (proxy_caller_spec t r tok s Ht) as (p&_&Hx). setoid_rewrite Hx. naive_solver. Qed.

Lemma pushed_spec r tok s :
  tok ≠ "" → (∃ ctx, plugin_caller bcrypt_ok r tok s = Some ctx) ↔
  ∃ p name hash, sv_pluginTokens s = Some p ∧ pr_entries p !! name = Some hash ∧ bcrypt_ok (pk_TokenHash hash) tok = true ∧
    r_Method r = "POST" ∧ pluginPushTarget (r_Path r) = Some name.
Proof. intros Ht. setoid_rewrite plugin_caller_spec; [|done]. naive_solver. Qed.

(** C7: where an admin token is set, a request may do what needs a capability exactly
    if the token it presents (in a header, a WebSocket handshake, or behind an
    unexpired nonce on a route that takes one) is: a session's whose list has the
    capability, or that was stored without any list; else the admin's, or its
    predecessor within the grace period; else a federated peer's whose grant reaches
    the capability through at most eight groups; else one for the proxied page of the
    very peer the path names, not yet expired; else a plugin's, on the push route of
    that plugin. Nothing else gets past the gate. *)
Theorem access_exact t r s c :
  ad_token (sv_admin s) ≠ "" → authorised t r s c ↔ entitled bcrypt_ok t r s c.
Proof.
  intros Had. unfold authorised, fedAuthMiddleware. apply String.eqb_neq in Had. rewrite Had. clear Had.
  destruct (request_token t r s) as [s1 tok] eqn:E. pose proof (request_token_spec _ _ _ _ _ E) as Hp.
  destruct (request_token_rest _ _ _ _ _ E) as (Es&Ea&Ep&Eg&Ex&El). clear E.
  destruct (decide (tok = "")) as [->|Ht].
  { split; [by intros []%no_token_refused|]. intros Hent. by destruct Hent as [? ? ? [_ ?]%Hp|? ? [_ ?]%Hp|? [_ ?]%Hp|? ? ? ? [_ ?]%Hp|? ? [_ ?]%Hp|? ? ? ? ? [_ ?]%Hp]. }
  rewrite authenticate_spec, Es, Ep, Eg by done. assert (presents t r s tok) as Htok by by apply Hp. split.
  - destruct (session_record s tok) as [rec|] eqn:Er; [intros Hc; destruct (st_Caps rec) as [caps|] eqn:Ec; [by eapply a_session; [..|apply Hc]|by eapply an_unlisted_session]|]. rewrite Ea.
    intros [Ha|[Ha Hrest]]; [by eapply the_admin|]. destruct (peer_of s tok) as [peer|] eqn:Epr.
    + apply Resolve_elem in Hrest as (name&n&Hin&Hn&Hg). by eapply a_peer.
    + rewrite proxied_spec, pushed_spec, Ex, El in Hrest by done.
      destruct Hrest as [(e&He&Hle&Hne&Hnm)|(p&name&hash&Hpl&Hh&Hb&Hm&Hpath)]; [by eapply a_proxied_page|].
      apply pluginPushTarget_spec in Hpath as (Hne&Hsl&id&Hid&Hid'&Hsi&Hpath). by eapply a_plugin.
  - intros Hent. destruct Hent as [tok' rec caps [-> _]%Hp Hr Hcaps Hc|tok' rec [-> _]%Hp Hr Hcaps|tok' [-> _]%Hp Hr Ha|tok' peer name n [-> _]%Hp Hr Ha Hpr Hin Hn Hg
      |tok' e [-> _]%Hp Hr Ha Hpr He Hle Hne Hnm|tok' p name id hash [-> _]%Hp Hr Ha Hpr Hpl Hh Hb Hm Hne Hid Hid' Hsl Hsi Hpath]; rewrite Hr.
    + rewrite Hcaps. by intros ? [= <-].
    + rewrite Hcaps. done.
    + rewrite Ea. by left.
    + rewrite Ea, Hpr. right. split; [done|]. apply Resolve_elem. eauto.
    + rewrite Ea, Hpr, proxied_spec, pushed_spec, Ex by done. right. split; [done|]. left. eauto 6.
    + rewrite Ea, Hpr, proxied_spec, pushed_spec, El by done. right. split; [done|]. right. exists p, name, hash. split_and!; [done..|].
      apply pluginPushTarget_spec. eauto 10.
Qed.
End callers.

(** ** One token a session *)

(** A token is kept under itself and is the one token of its session; the file has no
    session and no token twice. *)
Record sessions_ok (s : SessionTokenStore) : Prop := {
  so_token tok r : ts_byToken s !! tok = Some r → st_Token r = tok ∧ ts_bySession s !! st_SessionID r = Some tok;
  so_session sid tok : ts_bySession s !! sid = Some tok → ∃ r, ts_byToken s !! tok = Some r ∧ st_SessionID r = sid;
  so_file : NoDup (st_SessionID <$> ts_file s) ∧ NoDup (st_Token <$> ts_file s)
}.

(** The tokens of the other sessions. *)
Definition but_session (sid : string) (m : gmap string SessionTokenRecord) : gmap string SessionTokenRecord :=
  filter (λ x, st_SessionID x.2 ≠ sid) m.
Definition of_sessions (active : list string) (m : gmap string SessionTokenRecord) : gmap string SessionTokenRecord :=
  filter (λ x, st_SessionID x.2 ∈ active) m.

Lemma without_old_spec sid s : sessions_ok s → without_old sid s = but_session sid (ts_byToken s).
Proof.
  intros [Ht Hs _]. unfold without_old, but_session. apply map_eq. intros tok. apply option_eq. intros r.
  rewrite map_lookup_filter_Some. cbn. destruct (ts_bySession s !! sid) as [old|] eqn:E.
  - rewrite lookup_delete_Some. destruct (Hs _ _ E) as (ro&Ho&Hro). split.
    + intros [Hne Hr]. split; [done|]. intros Hsid. destruct (Ht _ _ Hr) as [_ Hb]. congruence.
    + intros [Hr Hsid]. split; [|done]. intros <-. congruence.
  - split; [|by intros []]. intros Hr. split; [done|]. intros Hsid. destruct (Ht _ _ Hr) as [_ Hb]. congruence.
Qed.

Lemma load_session_tokens l : NoDup (st_SessionID <$> l) → NoDup (st_Token <$> l) → ∀ s,
  sessions_ok s → (∀ r, r ∈ l → ts_byToken s !! st_Token r = None ∧ ts_bySession s !! st_SessionID r = None) →
  sessions_ok (foldl load_session_token s l).
Proof.
  induction l as [|x l IH]; intros Hn1 Hn2 s [Ht Hs Hf] Hout; [by split|]. cbn. rewrite fmap_cons, NoDup_cons in Hn1, Hn2.
  destruct Hn1 as [Hx1 Hn1], Hn2 as [Hx2 Hn2]. destruct (Hout x) as [Ho1 Ho2]; [by left|]. apply IH; [done..| |].
  - split; cbn; [| |done].
    + intros tok r [[<- <-]|[Hne Hr]]%lookup_insert_Some; [split; [done|apply lookup_insert_eq]|].
      destruct (Ht _ _ Hr) as [? Hb]. split; [done|]. rewrite lookup_insert_ne; [done|]. congruence.
    + intros sid tok [[<- <-]|[Hne Hb]]%lookup_insert_Some; [exists x; split; [apply lookup_insert_eq|done]|].
      destruct (Hs _ _ Hb) as (r&Hr&Hsid). exists r. split; [|done]. rewrite lookup_insert_ne; [done|]. congruence.
  - intros r Hr. cbn. destruct (Hout r) as [? ?]; [by right|]. rewrite !lookup_insert_ne; [done|..].
    + intros E. apply Hx1. rewrite E. by apply list_elem_of_fmap_2.
    + intros E. apply Hx2. rewrite E. by apply list_elem_of_fmap_2.
Qed.

Lemma restart_ok onDisk file : NoDup (st_SessionID <$> file) → NoDup (st_Token <$> file) → sessions_ok (NewSessionTokenStore onDisk file).
Proof.
  intros H1 H2. unfold NewSessionTokenStore. assert (sessions_ok (mkSessionTokens onDisk ∅ ∅ file)) as H0 by by split; cbn; [intros ??|intros ??|].
  destruct onDisk; [|done]. by apply load_session_tokens.
Qed.

Section session_theorems.
Context {W : Type} `{!Disk W SessionTokenRecord, !DiskLaws W SessionTokenRecord, !Rand W}.

Lemma session_persist_spec w s w' s' err :
  sessions_ok s → session_persist w s = (w', s', err) →
  sessions_ok s' ∧ ts_byToken s' = ts_byToken s ∧ ts_bySession s' = ts_bySession s.
Proof.
  intros Hok. unfold session_persist. destruct (ts_onDisk s); cbn; [|by intros [= <- <- <-]].
  destruct (write w _) as [w1 [e|]]; intros [= <- <- <-]; [done|]. destruct Hok as [Ht Hs [Hf1 Hf2]].
  split; [|done]. split; cbn; [done..|]. rewrite !sort_by_perm, !range_perm. split.
  - rewrite <- list_fmap_compose. apply NoDup_fmap_2_strong; [|apply NoDup_map_to_list].
    intros [t1 r1] [t2 r2] H1%elem_of_map_to_list H2%elem_of_map_to_list E. cbn in E.
    destruct (Ht _ _ H1) as [_ B1], (Ht _ _ H2) as [_ B2]. rewrite E in B1. by simplify_eq.
  - assert (st_Token <$> (map_to_list (ts_byToken s)).*2 = (map_to_list (ts_byToken s)).*1) as ->; [|apply NoDup_fst_map_to_list].
    rewrite <- list_fmap_compose. apply list_fmap_ext. intros i [k r] Hi. cbn. eapply Ht, elem_of_map_to_list, list_elem_of_lookup_2, Hi.
Qed.

(** The token drawn is in neither table nor file. *)
Definition fresh (w : W) (s : SessionTokenStore) : Prop :=
  ∀ w' b, rand_read w 32 = (w', inr b) → ts_byToken s !! hex_encode b = None.

Lemma drop_session_ok sid s :
  sessions_ok s → sessions_ok (set_tables (but_session sid (ts_byToken s)) (delete sid (ts_bySession s)) s).
Proof.
  intros [Ht Hs Hf]. split; cbn; [| |done].
  - intros tok r [Hr Hne]%map_lookup_filter_Some. destruct (Ht _ _ Hr) as [? Hb]. split; [done|]. by rewrite lookup_delete_ne.
  - intros sid' tok [Hne Hb]%lookup_delete_Some. destruct (Hs _ _ Hb) as (r&Hr&Hsid). exists r. split; [|done].
    apply map_lookup_filter_Some. cbn. split; [done|congruence].
Qed.

Lemma mint_session_spec w sid caps s w' s' ans :
  sessions_ok s → fresh w s → Mint w sid caps s = (w', s', ans) →
  sessions_ok s' ∧
  match rand_read w 32 with
  | (_, inl _) => s' = s
  | (_, inr b) => ts_byToken s' = <[hex_encode b := mkSessionToken sid (hex_encode b) caps]> (but_session sid (ts_byToken s)) ∧
      (∀ tok, ans = Ok tok → tok = hex_encode b)
  end.
Proof.
  intros Hok Hfr. unfold Mint. destruct (rand_read w 32) as [w1 [e|b]] eqn:Er; [by intros [= <- <- <-]|].
  rewrite without_old_spec by done. set (tok := hex_encode b). set (m := but_session sid (ts_byToken s)).
  assert (ts_byToken s !! tok = None) as Hnone by by eapply Hfr.
  assert (sessions_ok (set_tables (<[tok := mkSessionToken sid tok caps]> m) (<[sid := tok]> (ts_bySession s)) s)) as Hok'.
  { destruct (drop_session_ok sid s Hok) as [Ht Hs Hf]. cbn in Ht, Hs. split; cbn; [| |done].
    - intros tok' r [[<- <-]|[Hne Hr]]%lookup_insert_Some; [split; [done|apply lookup_insert_eq]|].
      destruct (Ht _ _ Hr) as [? [? Hb]%lookup_delete_Some]. split; [done|]. by rewrite lookup_insert_ne.
    - intros sid' tok' [[<- <-]|[Hne Hb]]%lookup_insert_Some; [eexists; split; [apply lookup_insert_eq|done]|].
      destruct (Hs sid' tok') as (r&Hr&Hsid); [by rewrite lookup_delete_ne|]. exists r. split; [|done].
      rewrite lookup_insert_ne; [done|]. intros <-. apply map_lookup_filter_Some in Hr as [Hr _]. congruence. }
  destruct (session_persist w1 _) as [[w2 s2] [e|]] eqn:Ep; intros [= <- <- <-];
    destruct (session_persist_spec _ _ _ _ _ Hok' Ep) as (Hok2&E1&_); rewrite E1; (split; [done|]); (split; [done|]); by intros ? [= <-].
Qed.

Lemma revoke_session_spec w sid s w' s' err :
  sessions_ok s → RevokeSession w sid s = (w', s', err) →
  sessions_ok s' ∧ ts_byToken s' = but_session sid (ts_byToken s).
Proof.
  intros Hok. unfold RevokeSession. pose proof (without_old_spec sid s Hok) as Hw. unfold without_old in Hw.
  destruct (ts_bySession s !! sid) as [tok|] eqn:E; [|intros [= <- <- <-]; by split].
  rewrite Hw. intros Hp. apply session_persist_spec in Hp as (?&?&_); [by split|]. by apply drop_session_ok.
Qed.

Lemma sweep_session_drop active s n e :
  sessions_ok s → ts_bySession s !! e.1 = Some e.2 →
  sweep_session active (s, n) e =
    if bool_decide (e.1 ∈ active) then (s, n)
    else (set_tables (but_session e.1 (ts_byToken s)) (delete e.1 (ts_bySession s)) s, n + 1).
Proof.
  intros Hok He. unfold sweep_session. case_bool_decide; [done|]. pose proof (without_old_spec e.1 s Hok) as Hw.
  unfold without_old in Hw. rewrite He in Hw. by rewrite Hw.
Qed.

Lemma sweep_sessions_loop active l s n :
  NoDup l.*1 → sessions_ok s → (∀ e, e ∈ l → ts_bySession s !! e.1 = Some e.2) →
  let res := foldl (sweep_session active) (s, n) l in
  sessions_ok res.1 ∧ n ≤ res.2 ∧ (res.2 ≤ n → res.1 = s) ∧
  ∀ tok r, ts_byToken res.1 !! tok = Some r ↔ ts_byToken s !! tok = Some r ∧ (st_SessionID r ∈ l.*1 → st_SessionID r ∈ active).
Proof.
  revert s n. induction l as [|e l IH]; intros s n Hnd Hok Hl; cbv zeta; cbn [foldl].
  { split_and!; [done|done|done|]. intros tok r. rewrite elem_of_nil. naive_solver. }
  rewrite fmap_cons in Hnd. apply NoDup_cons in Hnd as [Hne Hnd]. rewrite sweep_session_drop by (try done; apply Hl; by left).
  case_bool_decide as Ha.
  - destruct (IH s n Hnd Hok) as (?&?&?&Hx); [by intros ? ?; apply Hl; right|]. split_and!; [done..|]. intros tok r.
    rewrite Hx, fmap_cons, elem_of_cons. naive_solver congruence.
  - destruct (IH (set_tables (but_session e.1 (ts_byToken s)) (delete e.1 (ts_bySession s)) s) (n + 1) Hnd) as (?&?&?&Hx).
    + by apply drop_session_ok.
    + intros e' He'. cbn. rewrite lookup_delete_ne; [apply Hl; by right|]. intros E. apply Hne. rewrite E. by apply list_elem_of_fmap_2.
    + split_and!; [done|lia|lia|]. intros tok r. rewrite Hx. cbn [ts_byToken set_tables]. unfold but_session.
      rewrite map_lookup_filter_Some, fmap_cons, elem_of_cons. cbn. naive_solver congruence.
Qed.

Lemma sweep_sessions_spec w active s w' s' swept err :
  sessions_ok s → SweepSessions w active s = (w', s', (swept, err)) →
  sessions_ok s' ∧ ts_byToken s' = of_sessions active (ts_byToken s).
Proof.
  intros Hok. unfold SweepSessions.
  destruct (sweep_sessions_loop (list_to_set active) (map_to_list (ts_bySession s)) s 0) as (Hok1&_&_&Hx);
    [apply NoDup_fst_map_to_list|done|intros [? ?]; apply elem_of_map_to_list|]. cbv zeta in *.
  destruct (foldl _ _ _) as [s1 n]. cbn [fst snd] in *.
  assert (ts_byToken s1 = of_sessions active (ts_byToken s)) as Hb.
  { apply map_eq. intros tok. apply option_eq. intros r. unfold of_sessions. rewrite Hx, map_lookup_filter_Some. cbn.
    split; intros [Hr Ha]; (split; [done|]); [|intros _; by apply elem_of_list_to_set]. apply (elem_of_list_to_set (C := gset string)), Ha.
    destruct Hok as [Ht _ _]. destruct (Ht _ _ Hr) as [_ Hs]. apply list_elem_of_fmap. exists (st_SessionID r, tok).
    split; [done|]. by apply elem_of_map_to_list. }
  destruct (0 <? n); [|intros [= <- <- <- <-]; by split].
  destruct (session_persist w s1) as [[w2 s2] e2] eqn:Ep. intros [= <- <- <- <-].
  apply session_persist_spec in Ep as (?&E&_); [|done]. split; [done|]. by rewrite E.
Qed.

(** Minting, revoking, sweeping and restarting, in any order and with failed writes. *)
Inductive token_step : SessionTokenStore → SessionTokenStore → Prop :=
| minted w sid caps s w' s' ans : fresh w s → Mint w sid caps s = (w', s', ans) → token_step s s'
| revoked w sid s w' s' err : RevokeSession w sid s = (w', s', err) → token_step s s'
| swept w active s w' s' ans : SweepSessions w active s = (w', s', ans) → token_step s s'
| restarted s : token_step s (NewSessionTokenStore (ts_onDisk s) (ts_file s)).

Lemma token_steps_ok onDisk s : rtc token_step (NewSessionTokenStore onDisk []) s → sessions_ok s.
Proof.
  intros Hs. assert (sessions_ok (NewSessionTokenStore onDisk [])) as H0 by (apply restart_ok; constructor). induction Hs as [|s1 s2 s3 Hstep _ IH]; [done|].
  apply IH. clear IH. destruct Hstep as [w sid caps s w' s' ans Hfr Hm|w sid s w' s' err Hr|w active s w' s' [n err] Hsw|s].
  - by apply (mint_session_spec _ _ _ _ _ _ _ H0 Hfr Hm).
  - by apply (revoke_session_spec _ _ _ _ _ _ H0 Hr).
  - by apply (sweep_sessions_spec _ _ _ _ _ _ _ H0 Hsw).
  - destruct H0 as [_ _ [? ?]]. by apply restart_ok.
Qed.

(** C13: After any mints, revokes, sweeps and restarts, failed writes included, no
    session has two tokens and no token two sessions. A mint leaves its session the new
    token alone, with the capabilities asked for; a revoke leaves it none; a sweep
    leaves exactly the tokens of the active sessions; and none of the three touches
    the token of another session. *)
Theorem one_token_per_session onDisk s :
  rtc token_step (NewSessionTokenStore onDisk []) s →
  (∀ t1 t2 r1 r2, ts_byToken s !! t1 = Some r1 → ts_byToken s !! t2 = Some r2 → st_SessionID r1 = st_SessionID r2 → t1 = t2) ∧
  (∀ w sid caps w' s' tok, fresh w s → Mint w sid caps s = (w', s', Ok tok) →
    ts_byToken s' = <[tok := mkSessionToken sid tok caps]> (but_session sid (ts_byToken s))) ∧
  (∀ w sid w' s' err, RevokeSession w sid s = (w', s', err) → ts_byToken s' = but_session sid (ts_byToken s)) ∧
  (∀ w active w' s' ans, SweepSessions w active s = (w', s', ans) → ts_byToken s' = of_sessions active (ts_byToken s)).
Proof.
  intros Hok%token_steps_ok. split_and!.
  - intros t1 t2 r1 r2 H1 H2 E. destruct Hok as [Ht _ _]. destruct (Ht _ _ H1) as [_ B1], (Ht _ _ H2) as [_ B2]. rewrite E in B1. by simplify_eq.
  - intros w sid caps w' s' tok Hfr Hm. destruct (mint_session_spec _ _ _ _ _ _ _ Hok Hfr Hm) as [_ Hs].
    unfold Mint in Hm. destruct (rand_read w 32) as [w1 [e|b]]; [done|]. destruct Hs as [-> Ht]. by rewrite (Ht tok eq_refl).
  - intros. by eapply revoke_session_spec.
  - intros w active w' s' [n err] Hsw. by apply (sweep_sessions_spec _ _ _ _ _ _ _ Hok Hsw).
Qed.
End session_theorems.

(** ** A nonce is good for one use *)

(** What a step of the nonce store says: a nonce drawn for a token, one presented
    and its answer, or a sweep. *)
Inductive NonceEvent := Drawn (nonce tok : string) (now : Time) | Presented (nonce : string) (now : Time) (answer : option string) | Swept.

Section nonce_theorems.
Context {W : Type} `{!Rand W}.

Inductive nonce_step : nonceStore → NonceEvent → nonceStore → Prop :=
| nonce_minted w now tok n w' n' nonce exp : MintNonce w now tok n = (w', n', (nonce, exp)) → nonce_step n (Drawn nonce tok now) n'
| nonce_presented now nonce n n' answer : Consume now nonce n = (n', answer) → nonce_step n (Presented nonce now answer) n'
| nonce_swept now n : nonce_step n Swept (SweepNonces now n).

Inductive nonce_run : nonceStore → list NonceEvent → nonceStore → Prop :=
| nonce_done n : nonce_run n [] n
| nonce_more n e n' tr n'' : nonce_step n e n' → nonce_run n' tr n'' → nonce_run n (e :: tr) n''.

Lemma nonce_run_app n tr1 tr2 n' : nonce_run n (tr1 ++ tr2) n' → ∃ n1, nonce_run n tr1 n1 ∧ nonce_run n1 tr2 n'.
Proof.
  revert n. induction tr1 as [|e tr1 IH]; intros n H; [exists n; split; [constructor|done]|].
  inversion H as [|? ? n1 ? ? Hs Hr]; subst. destruct (IH _ Hr) as (n2&?&?). exists n2. split; [by econstructor|done].
Qed.

Lemma nonce_step_lookup n ev n' k e :
  nonce_step n ev n' → n' !! k = Some e →
  n !! k = Some e ∨ ∃ tok now, ev = Drawn k tok now ∧ e = mkNonce tok (Add now nonceTTL).
Proof.
  intros Hs Hk. destruct Hs as [w now tok n w' n' nonce exp Hm|now nonce n n' answer Hc|now n].
  - unfold MintNonce in Hm. destruct (rand_read w 20) as [w1 buf]. injection Hm as <- <- <- <-.
    apply lookup_insert_Some in Hk as [[<- <-]|[_ Hk]]; [right; by eexists _, _|by left].
  - left. unfold Consume in Hc. destruct (String.eqb nonce ""); [by simplify_eq|]. destruct (n !! nonce); [|by simplify_eq].
    injection Hc as <- <-. by apply lookup_delete_Some in Hk as [_ ?].
  - left. by apply map_lookup_filter_Some in Hk as [? _].
Qed.

(** What a nonce stands for was drawn for it. *)
Lemma nonce_origin n tr n' k e :
  nonce_run n tr n' → n' !! k = Some e →
  n !! k = Some e ∨ ∃ now, Drawn k (no_token e) now ∈ tr ∧ no_expiresAt e = Add now nonceTTL.
Proof.
  intros Hr. induction Hr as [n|n ev n' tr n'' Hs _ IH]; intros Hk; [by left|].
  destruct (IH Hk) as [Hk'|(now&Hin&He)]; [|right; exists now; split; [by right|done]].
  destruct (nonce_step_lookup _ _ _ _ _ Hs Hk') as [?|(tok&now&->&->)]; [by left|]. right. exists now. split; [by left|done].
Qed.

Lemma consume_answer now nonce n n' tok :
  Consume now nonce n = (n', Some tok) →
  n' !! nonce = None ∧ ∃ e, n !! nonce = Some e ∧ no_token e = tok ∧ now ≤ no_expiresAt e.
Proof.
  unfold Consume. destruct (String.eqb nonce ""); [done|]. destruct (n !! nonce) as [e|] eqn:E; [|done].
  unfold After. destruct (Z.ltb_spec (no_expiresAt e) now); [done|]. intros [= <- <-]. split; [apply lookup_delete_eq|by exists e].
Qed.

(** C34: Whatever nonces are minted, presented and swept, one that is answered was minted
    for that very token at most a minute before, and once presented it is never answered
    again, unless the same random bytes are drawn a second time. *)
Theorem nonce_used_once tr1 nonce now answer tr2 n :
  nonce_run ∅ (tr1 ++ Presented nonce now answer :: tr2) n →
  (∀ tok, answer = Some tok → ∃ at_, Drawn nonce tok at_ ∈ tr1 ∧ now ≤ at_ + nonceTTL) ∧
  (∀ now' tok', Presented nonce now' (Some tok') ∈ tr2 → ∃ tok'' at_, Drawn nonce tok'' at_ ∈ tr2).
Proof.
  intros (n1&H1&H2)%nonce_run_app. inversion H2 as [|? ? n2 ? ? Hs Hr]; subst. inversion Hs as [|? ? ? ? ? Hc|]; subst. split.
  - intros tok ->. apply consume_answer in Hc as (_&e&He&<-&Hle).
    destruct (nonce_origin _ _ _ _ _ H1 He) as [Hno|(at_&Hin&Ee)]; [by rewrite lookup_empty in Hno|].
    exists at_. split; [done|]. by rewrite Ee in Hle.
  - assert (nonce ≠ "" → n2 !! nonce = None) as Hnone.
    { intros Hne. unfold Consume in Hc. apply String.eqb_neq in Hne. rewrite Hne in Hc.
      destruct (n1 !! nonce) eqn:E; injection Hc as <- _; [apply lookup_delete_eq|done]. }
    intros now' tok' (tr3&tr4&->)%list_elem_of_split. apply nonce_run_app in Hr as (n3&H3&H4).
    inversion H4 as [|? ? n4 ? ? Hs' _]; subst. inversion Hs' as [|? ? ? ? ? Hc'|]; subst.
    assert (nonce ≠ "") as Hne by (intros ->; by unfold Consume in Hc'). apply consume_answer in Hc' as (_&e&He&_&_).
    destruct (nonce_origin _ _ _ _ _ H3 He) as [Hx|(at_&Hin&_)]; [rewrite Hnone in Hx; done|].
    exists (no_token e), at_. set_solver.
Qed.
End nonce_theorems.

(** ** The bridge advertises what it would call *)

Lemma fedCap_callerCaps `{!MapRange} s c req :
  fedCap s c req = match callerCaps s c with Some caps => Check caps req | None => true end.
Proof. unfold fedCap, callerCaps. by destruct (cx_sessionCaps c); [|destruct (cx_peer c)]. Qed.

#[local] Opaque RequiredCapForMCPTool.

(** A known tool of the catalogue is listed for a caller exactly if that caller's
    call of it is made. *)
Theorem advertised_iff_callable `{!MapRange} s c tools listed tool cap :
  handleMCPTools s c (Some (inr tools)) = Serve listed → tool ∈ tools → RequiredCapForMCPTool tool = Some cap → tool ≠ "" →
  tool ∈ listed ↔ handleMCPCall s c "POST" true (inr tool) = Serve (tool, caller_session s c).
Proof.
  unfold handleMCPTools. intros Hl Hin Hcap Hne. apply String.eqb_neq in Hne.
  destruct (fedCap s c CapSessionsList); [|discriminate Hl]. cbn [negb] in Hl.
  assert (handleMCPCall s c "POST" true (inr tool) = if fedCap s c cap then Serve (tool, caller_session s c) else Status StatusForbidden "") as ->.
  { unfold handleMCPCall. rewrite Hne, Hcap. by destruct (fedCap s c cap). }
  rewrite fedCap_callerCaps. destruct (callerCaps s c) as [caps|]; injection Hl as <-; [|by split].
  rewrite list_elem_of_In, filter_In, <- list_elem_of_In, Hcap. destruct (Check caps cap).
  - split; intros _; [reflexivity|split; [exact Hin|reflexivity]].
  - split; [intros [_ Hf]; discriminate Hf|intros Hf; discriminate Hf].
Qed.

(** ** Rotation *)

(** A rotation that succeeds leaves the new token, and the old one for a minute; one
    that does not leaves the token the daemon compares with. *)
Theorem rotation_exact {W} `{!Rand W, !ConfigFile W} (w : W) now method c config asked a w' a' out :
  handleRotateToken w now method c config asked a = (w', a', out) →
  match out with
  | Serve (new, until) =>
      ad_token a' = new ∧ ad_file a' = new ∧ ad_cfgToken a' = new ∧ until = now + tokenRotationGrace ∧
      cx_peer c = None ∧ cx_sessionCaps c = None ∧
      ∀ t tok, tok ≠ "" → checkToken t tok a' = true ↔ tok = new ∨ tok = ad_token a ∧ t < until
  | Status _ _ => ad_token a' = ad_token a ∧ ad_file a' = ad_file a
  end.
Proof.
  unfold handleRotateToken. destruct (negb (String.eqb method "POST")); [by intros [= <- <- <-]|].
  destruct (cx_peer c); [by intros [= <- <- <-]|]. destruct (cx_sessionCaps c); [by intros [= <- <- <-]|].
  destruct (negb config); [by intros [= <- <- <-]|]. destruct (_ && _); [by intros [= <- <- <-]|].
  match goal with |- (let '(_, _) := ?x in _) = _ → _ => destruct x as [w1 [e|new]] end; [by intros [= <- <- <-]|].
  destruct (save w1 new) as [w2 [e|]]; intros [= <- <- <-]; [done|]. cbn. split_and!; [done..|].
  intros t tok Hne. pose proof (checkToken_spec (mkInstants 0 t 0)
    (mkServer (mkAdmin new (ad_token a) (Add now tokenRotationGrace) new new) None None None None ∅ None (mkAccessLog false false [] 0 0)) tok Hne) as Hc.
  exact Hc.
Qed.

(** ** Examples and witnesses *)

Section examples.

#[local] Existing Instance in_key_order.
#[local] Instance no_reader : JSONReader := {| unmarshal_chain _ := inl "invalid" |}.

(** A world of its own: how many bytes were drawn so far, and whether writes succeed. *)
Record TestWorld := mkTestWorld { wd_drawn : Z; wd_fails : bool }.
#[local] Instance counter : Rand TestWorld := {| rand_read w n := (mkTestWorld (wd_drawn w + 1) (wd_fails w), inr (replicate n (wd_drawn w mod 256))) |}.
#[local] Instance token_disk : Disk TestWorld SessionTokenRecord :=
  {| wall _ := 0; range _ m := (map_to_list m).*2; write w _ := (w, if wd_fails w then Some "no space left on device" else None) |}.
#[local] Instance token_disk_laws : DiskLaws TestWorld SessionTokenRecord.
Proof. by split. Qed.
#[local] Instance config_file : ConfigFile TestWorld := {| save w _ := (w, if wd_fails w then Some "no space left on device" else None) |}.

Definition peer_entry (name tok : string) (caps : list string) : Entry :=
  mkEntry name "https://peer" tok "" true false true "token" caps [] false false 0 0 false "".
Definition ops_group : CapabilityGroup := mkGroup "ops" "" [CapSessionsList; "inner"] false.
Definition inner_group : CapabilityGroup := mkGroup "inner" "" ["ops"; CapHealthRead] false.

Definition server : Server := mkServer (mkAdmin "admin-token" "old-token" 100 "admin-token" "admin-token") (Some {["n1" := mkNonce "peer-token" 60]})
  (Some (mkSessionTokens true {["s-token" := mkSessionToken "s1" "s-token" (Some [CapSessionsResultWrite]); "bare" := mkSessionToken "s2" "bare" None]}
    {["s1" := "s-token"; "s2" := "bare"]} []))
  (Some (mkServerStore [peer_entry "lab" "peer-token" ["ops"]; peer_entry "new" "new-token" ["federation-peer"]] []))
  (Some (mkGroupStore {["ops" := ops_group; "inner" := inner_group]} [])) {["page-token" := mkProxyToken "llm" 100]} None (mkAccessLog true true [] 0 0).

Definition request (auth path : string) : HTTPRequest := mkHTTPRequest ("Bearer " +:+ auth) "" "" "" path "POST".
Definition at_50 : Instants := mkInstants 50 50 50.
Definition gate (r : HTTPRequest) : Server * option CallerCtx := fedAuthMiddleware (λ _ _, false) at_50 r server.
Definition may (auth path c : string) : bool := match gate (request auth path) with (s, Some ctx) => fedCap s ctx c | (_, None) => false end.

(** Groups that contain each other are worth what both list. *)
Example callers_may :
  may "admin-token" "/" CapSecretsRead = true ∧ may "old-token" "/" CapSecretsRead = true ∧ may "unknown" "/" CapHealthRead = false ∧
  may "peer-token" "/" CapHealthRead = true ∧ may "peer-token" "/" CapSecretsRead = false ∧
  may "s-token" "/" CapSessionsResultWrite = true ∧ may "s-token" "/" CapSessionsList = false.
Proof. vm_compute. split_and!; reflexivity. Qed.

Lemma access_exact_witness :
  ad_token (sv_admin server) ≠ "" ∧ entitled (λ _ _, false) at_50 (request "peer-token" "/") server CapHealthRead.
Proof.
  split; [vm_compute; discriminate|]. apply (access_exact (λ _ _, false) at_50 (request "peer-token" "/") server CapHealthRead).
  - vm_compute. discriminate.
  - exists (default no_caller (gate (request "peer-token" "/")).2). split; vm_compute; reflexivity.
Defined.

Lemma one_token_per_session_witness :
  let '(_, s, _) := Mint (mkTestWorld 1 false) "s1" (Some [CapHealthRead]) (NewSessionTokenStore true []) in
  let '(_, s', _) := RevokeSession (mkTestWorld 2 false) "s1" s in
  rtc token_step (NewSessionTokenStore true []) s ∧ ts_byToken s' = but_session "s1" (ts_byToken s).
Proof.
  destruct (Mint (mkTestWorld 1 false) "s1" (Some [CapHealthRead]) (NewSessionTokenStore true [])) as [[w s] ans] eqn:Em.
  destruct (RevokeSession (mkTestWorld 2 false) "s1" s) as [[w' s'] err] eqn:Er.
  assert (rtc token_step (NewSessionTokenStore true []) s) as Hs.
  { apply rtc_once. eapply (minted (mkTestWorld 1 false)); [|exact Em]. intros ? ? _. apply lookup_empty. }
  split; [exact Hs|]. destruct (one_token_per_session true s Hs) as (_&_&Hrev&_). by eapply Hrev.
Defined.

Definition minted_nonce : TestWorld * nonceStore * (string * Time) := MintNonce (mkTestWorld 7 false) 10 "admin-token" ∅.
Lemma nonce_used_once_witness :
  let '(_, n, (k, _)) := minted_nonce in
  nonce_run ∅ ([Drawn k "admin-token" 10] ++ [Presented k 20 (Some "admin-token")]) (Consume 20 k n).1 ∧ (20 ≤ 10 + nonceTTL).
Proof.
  destruct minted_nonce as [[w n] [k e]] eqn:E. assert (k ≠ "" ∧ n !! k = Some (mkNonce "admin-token" (10 + nonceTTL))) as [Hne Hk].
  { unfold minted_nonce, MintNonce in E. injection E as <- <- <- <-. split; [vm_compute; discriminate|]. apply lookup_insert_eq. }
  assert (nonce_run ∅ ([Drawn k "admin-token" 10] ++ [Presented k 20 (Some "admin-token")]) (Consume 20 k n).1) as Hr.
  { eapply nonce_more; [eapply nonce_minted; exact E|]. eapply nonce_more; [|apply nonce_done]. apply nonce_presented.
    unfold Consume. apply String.eqb_neq in Hne. by rewrite Hne, Hk. }
  split; [exact Hr|]. destruct (nonce_used_once [Drawn k "admin-token" 10] k 20 (Some "admin-token") [] _ Hr) as [Ho _].
  destruct (Ho "admin-token" eq_refl) as (at_&Hin%list_elem_of_singleton&Hle). congruence || (injection Hin as ->; exact Hle).
Defined.

(** *** What the model shows of the gates

    A session token stored without a list of capabilities is the admin's to every check,
    and so is the token of a proxied page on the routes below /api/proxy/ that check a
    capability and not the peer. *)
Example no_list_is_admin : may "bare" "/" CapSecretsRead = true ∧ may "page-token" "/api/proxy/llm/x" CapSessionsInput = true.
Proof. vm_compute. split; reflexivity. Qed.

(** Over the WebSocket a session's token, good for posting a result alone, runs any
    command, and a peer that may read its own entry types into any terminal. *)
Definition session_ctx : CallerCtx := default no_caller (gate (request "s-token" "/ws")).2.
Definition new_peer_ctx : CallerCtx := default no_caller (gate (request "new-token" "/ws")).2.
Definition find_any (id : string) : option (string * Z * Z) := Some (id, 80, 24).
Example ws_session_unchecked :
  fedCap server session_ctx CapSessionsInput = false ∧
  handleWS find_any "/root" server session_ctx (MsgCommand "kill s9") = ExecuteCommand "kill s9" "WebSocket command requested by session:s1" ∧
  handleWS find_any "/root" server session_ctx (MsgNewSession "task" "shell" "" "" "") =
    StartSession "task" "shell" "" "" "/root".
Proof. vm_compute. split_and!; reflexivity. Qed.
Example ws_input_unchecked :
  fedCap server new_peer_ctx CapSessionsInput = false ∧
  handleWS find_any "/root" server new_peer_ctx (MsgCommand "list") = Refused CapSessionsInput ∧
  handleWS find_any "/root" server new_peer_ctx (MsgSendInput "s9" "rm -rf /" true) = SendRawKeys "s9" "rm -rf /" ∧
  handleWS find_any "/root" server new_peer_ctx (MsgSubscribe "s9") = Capture "s9".
Proof. vm_compute. split_and!; reflexivity. Qed.

(** The MCP listener gives a peer nothing for the operator's groups. *)
Example mcp_ignores_custom_groups :
  may "peer-token" "/" CapSessionsList = true ∧
  match mcpFedAuthMiddleware "admin-token" "Bearer peer-token" (sv_serverStore server) with
  | Some peer => mcpFedCap peer CapSessionsList = false
  | None => False
  end.
Proof. vm_compute. split; reflexivity. Qed.

(** A revoke whose write failed is undone by a restart. *)
Example revoked_token_returns :
  let '(_, s, tok) := Mint (mkTestWorld 1 false) "s1" (Some [CapHealthRead]) (NewSessionTokenStore true []) in
  let '(_, s, _) := RevokeSession (mkTestWorld 2 true) "s1" s in
  match tok with
  | Ok tok => CapsForToken tok s = None ∧ CapsForToken tok (NewSessionTokenStore true (ts_file s)) = Some (Some [CapHealthRead])
  | Err _ => False
  end.
Proof. vm_compute. split; reflexivity. Qed.

(** A rotation whose write failed leaves the refused token in the configuration the
    daemon writes next. *)
Example failed_rotation_in_config :
  let '(_, a, out) := handleRotateToken (mkTestWorld 1 true) 0 "POST" no_caller true "a-new-token-of-mine" (sv_admin server) in
  out = Status StatusInternalServerError "save config: no space left on device" ∧ ad_token a = "admin-token" ∧ ad_cfgToken a = "a-new-token-of-mine".
Proof. vm_compute. split_and!; reflexivity. Qed.
End examples.
